(* ===== verification/_CoqProject ===== *)
-Q . S2P
Prelude.v
Words.v
Objects.v
Heap.v
Numbers.v
NumLog.v
Segments.v
Equal.v
Lists.v
ListSpecs.v
ListCopies.v
ListDestr.v
ListSearch.v
TreeSpecs.v
Sequences.v
SeqCopies.v
ListExamples.v
Utf.v
UtfText.v
UtfSpecs.v
UtfFacts.v
UtfTexts.v
UtfExamples.v
Floats.v
NumPred.v
Arith.v
ArithSpecs.v
NumComp.v
NumCompSpecs.v
NumCo.v
NumCoSpecs.v
NumExpt.v
ToFloat.v
ToFloatSpecs.v
NumFloat.v
NumFloatSpecs.v
NumSfun.v
Rand.v
NumExamples.v
Hash.v
HashLaws.v
HashTable.v
HashMore.v
HashSpecs.v
HashUpdate.v
HashRemove.v
HashIter.v
HashTests.v
HashExamples.v
Plist.v
PlistSpecs.v
Backq.v
BackqSpecs.v
BackqFacts.v
BackqExamples.v
Packages.v
PackSpecs.v
PackOps.v
PackFacts.v
PackTables.v
PackExamples.v
UniTables.v
Chars.v
CharSpecs.v
Strings.v
NumRead.v
NumPrint.v
NumReadSpecs.v
CharNames.v
NumTextExamples.v
StrMake.v
StrOps.v
StrSpecs.v
Readtable.v
Reader.v
Printer.v
TokenSpecs.v
ReaderSpecs.v
ReadBack.v
TextExamples.v
