(* ===== verification/Prelude.v ===== *)
(** * MKCL: a verification library for the core of the runtime

    MKCL is an implementation of Common Lisp.  Its kernel, src/src/c/, is a set of C
    files that share one representation of Lisp objects (src/src/c/mkcl/object.h): a
    word that is an immediate (a fixnum, a character), or a pointer to a cons or to an
    object with a header.  This library models the kernel's data structures and the
    functions of Common Lisp over them, and proves what they promise.

    ** The parts, from the bottom

    - [Prelude] notations, tactics, the hint base [mkcl], lemmas on lists, options,
      integers and maps that the parts share.
    - [Words] machine words: fixnums of 62 bits, [mkcl_word] and [mkcl_index] of 64
      bits, with their wrap-around.  Every C expression that can wrap does so here.
    - [Objects] the values of [mkcl_object]: NIL, fixnums, characters, bignums, ratios,
      floats, conses, symbols and other objects by address; [mkcl_type_of] and the type
      predicates; [eq] and [mkcl_eql] of predicate.c.
    - [Heap] the store: addresses to cells (conses, strings, symbols, hash table
      headers, vectors of chains, entries), and the monad [M] of the kernel's code.  A
      computation ends in a value, in an error (a Lisp condition or a fault) with the
      heap at that time, or runs for ever.  [loop] is a C loop with fuel.
      Weakest preconditions, at the end, reason about results and unchanged cells.
    - [Numbers] conversions of number.c and big.c.  GMP is the class [GMP], with its
      documented laws in [GMPSpec].
    - [Segments] list segments: [lseg h x l y], from [x] to [y] through the cells [l];
      proper, dotted and circular lists; footprints of writes.
    - [Equal] EQUAL, EQL and string comparison (predicate.c, string.c).
    - [Lists], [ListSearch] list.c; [ListSpecs], [ListCopies], [ListDestr],
      [TreeSpecs] its theorems; [ListExamples] concrete lists and sequences.
    - [NumLog] num_log.c and its theorems.
    - [Floats] C's float and double, and float objects; [NumPred] num_pred.c and GMP's
      arithmetic on bignums; [Arith] num_arith.c, with ratios and complex numbers;
      [NumComp] EXPT, RATIONAL and num_comp.c; [NumCo] the divisions of num_co.c and
      [NumFloat] the rest of it; [ToFloat] the conversion of number.c from rational
      numbers to floats; [NumSfun] num_sfun.c; [Rand] num_rand.c.
    - [ArithSpecs] exact arithmetic; [NumCompSpecs] comparison; [NumCoSpecs] division with
      a remainder; [NumExpt] powers; [ToFloatSpecs] how the conversion to floats rounds;
      [NumFloatSpecs] floats taken apart; [NumExamples] concrete numbers.
    - [Sequences] sequence.c, with the part of array.c on strings; [SeqCopies] what a
      sequence holds, ELT, LENGTH, SUBSEQ, REVERSE and NREVERSE.
    - [Utf] the codecs of string.c: UTF-8 and UTF-16 objects, one character at a time,
      and the loops that count, skip and decode; [UtfText] the objects: conversion from
      and to strings, appending, growing vectors, C strings; [UtfSpecs] the interface
      [CodecSpec] of a codec and its two instances; [UtfFacts] what holds for every
      codec, and the primitives that append; [UtfTexts] the theorems on texts;
      [UtfExamples] concrete texts.
    - [Backq] backq.c; [BackqSpecs] what a template stands for, and the pieces of an
      expansion; [BackqFacts] the contract of the mutual recursion and the theorems;
      [BackqExamples] a reference evaluator and concrete templates.
    - [Hash] hash functions (newhash.h, hash.c) and [HashLaws] their theorems.
    - [HashTable], [HashMore] tables of hash.c; [HashSpecs] chains of entries, the
      invariant of a table and search; [HashUpdate] insertion and growth;
      [HashRemove] removal; [HashIter] MAPHASH and iterators; [HashTests] the tests
      that the interface [TestSpec] needs, discharged for EQ, EQL, EQUAL and package
      tables; [HashExamples] concrete tables.
    - [Plist] symbol.c; [PlistSpecs] its theorems.
    - [Packages] package.c; [PackSpecs] the invariant of the package system, [PackOps]
      its preservation, operation by operation; [PackFacts] the step relation, what is
      true of every reachable state, and what the operations do; [PackTables] the tables
      of packages as finite maps; [PackExamples] concrete packages.
    - [UniTables] the tables of unicode.c; [Chars] characters: the inline functions of
      external.h over the tables, and character.c; [CharSpecs] case, comparison, digits
      and classes; [CharNames] CHAR-NAME and NAME-CHAR, with their round trip.
    - [Strings] access to strings and their comparison, [StrMake] making, copying,
      coercing and concatenating them, [StrOps] trimming, case, substrings, filling,
      search and replacement, all of string.c; [StrSpecs] their theorems.
    - [NumRead] the parsers of numbers of read.c and what a token is; [NumPrint] the
      characters that print.c writes for integers and ratios; [NumReadSpecs] digits, what
      is written, what is read, and what is read back; [NumTextExamples] concrete
      numbers, misprinted and misread ones among them.
    - [Readtable] the state of the reader (heap, packages, read tables, the characters
      left of the stream) with its monad [RM], and read tables; [Reader] tokens, the
      macro characters, READ and the functions of Common Lisp on the stream; [Printer]
      the characters that are written for symbols, characters, strings, bit vectors and
      lists.
    - [TokenSpecs] which names could be read as numbers, and how the printer escapes
      them; [ReaderSpecs] what the reader makes of the token of a symbol; [ReadBack] the
      round trip of printed objects and the errors of the reader; [TextExamples]
      concrete characters, strings and objects that are printed and read.

    ** How the parts interact

    Lists are used by property lists, packages and backquote, symbols by all three;
    the forms that backquote makes call functions of list.c, and [calls_compute] says
    that these functions give the values that the theorem on backquote counts on.
    LENGTH of sequence.c and LIST-LENGTH of list.c are related by [length_agrees].
    Numbers are mutually recursive across files: a sum with a float converts a ratio to
    a float, and that conversion divides integers; a comparison converts a float to a
    ratio, which raises 2 to a power, and powers take logarithms.  Each of these cycles
    is cut by an interface ([ToDouble], [Transcendental]), and [to_double_within] and
    [transcendental_within] tie it again, with a bound on the calls inside each other.
    The theorems on rational numbers hold for every instance of the interface.
    The two encodings share one set of functions and theorems: [CodecSpec] says what a
    codec promises (one character in, its units out, and back), and the conversions are
    proved for every codec.
    Characters look their case and class up in the tables; strings compare and change
    case by characters; the parser of numbers reads a string with CHAR and takes digits
    as DIGIT-CHAR-P does, and its floats go through the conversion of ratios; the names
    of characters are printed numbers, looked up in hash tables and parsed.  The round
    trip of numbers joins the printer, the division of bignums, and the parser.
    The reader runs the computations of the heap ([heapM]) and of the package system
    inside its own monad.  It finds the symbol of a token through packages, the number
    through the parser, and the name of a character through the tables of names; its
    macro functions call it again, so they take it as an argument, and [read_begin] ties
    the recursion.  The printer asks packages whether a symbol is accessible, and the
    test for potential numbers whether its name needs escapes.
    Hash tables use the
    equality and the hash functions through [equality_fun] and [hash_fun], and the
    theorems on tables are proved against the interface [TestSpec] (equality decides an
    equivalence of the keys that the hash function respects, on the heaps that keep the
    keys), which each test discharges.  Packages use hash tables by name;
    [Packages] has finite maps in their place, and [PackTables] proves that the tables,
    with the test and the hash function of packages, refine these maps.

    ** What the theorems show

    - Packages: no state that is reached has a name conflict, if MAKE-PACKAGE uses one
      package at most and finds none waiting; INTERN, FIND-SYMBOL, UNINTERN,
      EXPORT, MAKE-PACKAGE and RENAME-PACKAGE on each of their branches, with the
      places where they break what they promise.
    - Hash tables: each operation is that of a finite map up to the test, through
      growth, the free list and the links of the chains, and changes no other cell;
      iteration gives every entry once; EQUAL keys hash alike, and which do not.
    - Lists and property lists: results as lists of values, cells written and cells
      shared, termination on every heap, the error of circular and dotted lists.
    - Sequences: (SETF ELT) and ELT, SUBSEQ and REVERSE on lists and strings; SUBSEQ for
      all fixnums as bounds, and for bignums that wrap.
    - Encodings: a string of Unicode characters survives the way to UTF-8 or UTF-16 and
      back; what the UTF-8 decoder accepts, and that decoding of any octets ends;
      vectors that grow keep their text; where characters are lost.
    - Characters: upper and lower case are inverse, where they are; each comparison
      decides its relation; digits and their weights; the characters without a class.
    - Strings: comparison is the lexicographic order and gives the place of the
      difference; search gives the first occurrence; trimming and case; filling, which
      goes past its end.
    - Numbers as text: integers and ratios printed in a base are read back as the same
      number, up to 10^64 in base ten; beyond it, which bignums are printed with too many
      zeros, and how many; which tokens are numbers, with the ones that should not be.
    - Printed objects: what is printed of a finite tree of conses, symbols, rational
      numbers, characters, strings and bit vectors is read as an EQUAL object, in every
      state of the package system that satisfies its invariant and for every read table
      that has the standard syntax where it matters ([printed_read_back], whose
      hypotheses [ready], [readable] and [ends] say when); the symbols named by a sign and
      a point, which are read back as zero ([symbols_misread]); the errors of the reader, with
      the stream that causes each of them ([reader_errors]).
    - Backquote: the form made of a template evaluates to what the template stands for,
      for every evaluator that knows QUOTE, LIST, LIST*, APPEND and NCONC.
    - Integers: the logical operations bit by bit on fixnums and bignums, ASH with its
      overflow.
    - Rational numbers: arithmetic, comparison, powers and division with a remainder are
      exact, and their results are in the one normal form of a fixnum, a bignum or a
      ratio in lowest terms; the errors of a division by zero.
    - Floats: taking a float apart and putting it together again; its rational value is
      exact; the conversion of a rational number is within one unit of the exact value,
      and where it misrounds or never ends.
    - Random numbers: the numbers drawn are the tempered words of the Mersenne Twister's
      sequence, given by its recurrence on bits; random integers are in range.

    ** Fuel and bounds

    Only loops of the C code that can run for ever take fuel, and [Diverge] (or
    [PDiverge]) is the result of running out.  Theorems give the fuel that is enough: the
    length of the list or of the chain, the height of the tree (twice it for templates), or twice the number of
    cells of the heap for loops that catch circular lists.  For numbers the fuel is the
    depth of the calls on parts of ratios and complex numbers, where a small constant
    is enough, and the number of bits of the exponent for EXPT.  The loops of the reader
    take the length of the stream, and reading and printing a tree take a depth above
    its size.  A word has 64 bits and a
    fixnum 62, as on the 64-bit platforms the sources support.

    ** Interfaces for code outside

    - [GMP], [GMPSpec], [GMPArith], [GMPArithSpec]: GMP's integers.
    - [LibM]: the functions of the C library on floats.
    - [Memory]: the choice of addresses for new cells.
    - [Runtime]: calls of Lisp functions and EQUALP.
    - [RealArith]: the arithmetic on rehash sizes and thresholds.
    - [HashEnv]: names of the tests, and the EQUALP hash function.
    - [Vectors]: the vectors of array.c that are no strings, and the dimensions.
    - [BackqSymbols]: the addresses of the symbols of expansions; [Evaluator],
      [EvaluatorSpec]: an evaluator, and what it must know.
    - [GMPText], [GMPTextSpec]: the functions of GMP that the parser and the printer use.
    - [ReaderVars], [PrinterVars]: the variables that the parser and the printer of
      numbers use; [ReadEnv], [PrintVars]: the others, with the symbols and the tables
      that the reader and the printer find at fixed places.
    - [MacroCalls]: macro characters whose functions are written in Lisp or not modelled.
    - [PrintCalls]: the printer of other objects, the pretty printer and the search for
      circles.
    - [TextDims]: the fill pointer of a string is within its dimension.
    - [Core], [Restarts]: the packages that always exist, and what a handler of a
      continuable error does to the package system.

    ** Not modelled

    - Errors that a restart can resume with another value ([mkcl_type_error]) end the
      computation, except those of packages, which go through [Restarts].
    - Locks and threads: an operation is one computation.
    - In KEYWORD, whose internal table is never searched, IMPORT can chain a second
      entry under one name; the finite map keeps the last.
    - Backquotes inside a template are in the model of backq.c but outside
      [backq_evaluates], whose templates have none as elements.
    - The sharp macros of vectors, evaluation, path names, labels, arrays and structures;
      the printing of floats, complex numbers, arrays, structures, functions and other
      objects with a header; the locks of read tables.
    - The garbage collector, the compiler and the evaluator, CLOS, streams, path names,
      threads, foreign functions: glue to the operating system or to the sources in
      Lisp, or dependent on the dynamic environment, which this library does not have.
    - A string cell holds the characters below the fill pointer: dimensions and what is
      beyond are in [Vectors], and strings that are extended in place are left out.
    - Formats of strings that the operating system's library converts, and C strings
      that share the memory of a Lisp object.
    - Floating point exceptions, which are disabled, and long floats, which are not
      compiled. *)

From stdpp Require Export base tactics numbers list list_numbers gmap fin_maps sets strings.
From Stdlib Require Export ZArith Lia.

Declare Scope mkcl_scope.
Delimit Scope mkcl_scope with mkcl.
Open Scope mkcl_scope.

Create HintDb mkcl.

(** ** Tactics *)

(** Turns boolean comparisons on [Z] into propositions, in every hypothesis
    and in the goal, by case analysis. *)
Ltac zbool :=
  repeat match goal with
  | |- context [(?a =? ?b)%Z] => destruct (Z.eqb_spec a b)
  | |- context [(?a <? ?b)%Z] => destruct (Z.ltb_spec a b)
  | |- context [(?a <=? ?b)%Z] => destruct (Z.leb_spec a b)
  | H : context [(?a =? ?b)%Z] |- _ => destruct (Z.eqb_spec a b)
  | H : context [(?a <? ?b)%Z] |- _ => destruct (Z.ltb_spec a b)
  | H : context [(?a <=? ?b)%Z] |- _ => destruct (Z.leb_spec a b)
  end; simpl in *.

(** [lia] with the division of natural numbers spelled out. *)
Ltac nat_div :=
  repeat match goal with
  | |- context [(?a / ?b)%nat] =>
      let H := fresh in
      pose proof (Nat.div_mod_eq a b) as H; pose proof (Nat.mod_upper_bound a b);
      let q := fresh "q" in let r := fresh "r" in
      set (q := (a / b)%nat) in *; set (r := (a mod b)%nat) in *
  end; lia.

(** A chain of inclusions of finite maps, from the hypotheses. *)
Ltac msub :=
  lazymatch goal with
  | |- ?m1 ⊆ ?m2 =>
      first [ assumption | reflexivity
            | match goal with
              | H : m1 ⊆ ?m |- _ => transitivity m; [exact H|clear H; msub]
              end ]
  end.

(** ** Lists *)

Section list_lemmas.
Context {A B : Type}.
Implicit Types l : list A.

Lemma snoc_inv l : l = [] ∨ ∃ l' x, l = l' ++ [x].
Proof. destruct l as [|x l _] using rev_ind; eauto. Qed.

Lemma snoc_eq_inv l1 l2 (x y : A) : l1 ++ [x] = l2 ++ [y] → l1 = l2 ∧ x = y.
Proof. intros H. by apply app_inj_tail in H. Qed.

Lemma length_1_inv l : length l = 1%nat → ∃ x, l = [x].
Proof. destruct l as [|x [|]]; naive_solver. Qed.

Lemma take_drop_snoc (n : nat) l :
  (0 < n ≤ length l)%nat →
  ∃ x, l !! (n - 1)%nat = Some x ∧ take n l = take (n - 1) l ++ [x].
Proof.
  intros H. destruct (lookup_lt_is_Some_2 l (n - 1)) as [x Hx]; [lia|].
  exists x. split; [done|].
  replace n with (S (n - 1)) at 1 by lia. by apply take_S_r.
Qed.

Lemma fmap_snoc (f : A → B) l x : f <$> (l ++ [x]) = (f <$> l) ++ [f x].
Proof. by rewrite fmap_app. Qed.

Lemma nth_error_lookup_eq l (i : nat) : nth_error l i = l !! i.
Proof. revert i. induction l; intros [|i]; simpl; auto. Qed.
End list_lemmas.

Lemma Forall2_impl_elem {A B} (P Q : A → B → Prop) l k :
  Forall2 P l k → (∀ x y, x ∈ l → y ∈ k → P x y → Q x y) → Forall2 Q l k.
Proof.
  induction 1 as [|x y l k Hxy _ IH]; intros HPQ; constructor.
  - apply HPQ; [left|left|done].
  - apply IH. intros. apply HPQ; [by right|by right|done].
Qed.

(** A list with a repeated element has two positions that hold it. *)
Lemma not_NoDup_positions {A} `{EqDecision A} (l : list A) :
  ¬ NoDup l → ∃ i j x, (i < j)%nat ∧ l !! i = Some x ∧ l !! j = Some x.
Proof.
  induction l as [|y l IH]; intros Hd; [by destruct Hd; constructor|].
  destruct (decide (y ∈ l)) as [Hin|Hnin].
  - apply list_elem_of_lookup in Hin as [j Hj]. exists 0%nat, (S j), y.
    split; [lia|]. done.
  - destruct IH as (i & j & x & ? & ? & ?).
    { intros Hl. apply Hd. by constructor. }
    exists (S i), (S j), x. split; [lia|]. done.
Qed.

(** ** The half speed tortoise

    The loops that guard against circular lists compare the current cell with
    a second cell that moves on the odd beats only, hence, at beat [n], with
    the cell of beat [n / 2].  On a sequence that stays in a finite set the two
    meet before twice the size of the set. *)
Section tortoise.
Context {A : Type} `{EqDecision A} (f : A → A) (D : list A).

Lemma iter_succ_comm n (x : A) : Nat.iter n f (f x) = f (Nat.iter n f x).
Proof. induction n; simpl; congruence. Qed.

Lemma iter_add n m (x : A) : Nat.iter (n + m) f x = Nat.iter n f (Nat.iter m f x).
Proof. induction n; simpl; congruence. Qed.

Lemma iter_periodic i p x :
  Nat.iter i f x = Nat.iter (i + p) f x →
  ∀ m c, (i ≤ m)%nat → Nat.iter (m + c * p) f x = Nat.iter m f x.
Proof.
  intros Hp m c Hm. induction c as [|c IH].
  - f_equal. lia.
  - rewrite <- IH. clear IH.
    replace (m + S c * p)%nat with ((m - i + c * p) + (i + p))%nat by lia.
    rewrite iter_add, <- Hp, <- iter_add. f_equal. lia.
Qed.

Lemma tortoise_meets x :
  (∀ n, (n ≤ length D)%nat → Nat.iter n f x ∈ D) →
  ∃ k, (0 < k ≤ length D)%nat ∧ Nat.iter (2 * k) f x = Nat.iter k f x.
Proof.
  intros HD. pose (l := (λ n, Nat.iter n f x) <$> seq 0 (S (length D))).
  assert (Hl : ∀ n y, l !! n = Some y → y = Nat.iter n f x ∧ (n ≤ length D)%nat).
  { intros n y. unfold l. rewrite list_lookup_fmap, fmap_Some.
    intros (m & Hm & ->). apply lookup_seq in Hm as [-> ?]. split; [done|lia]. }
  destruct (not_NoDup_positions l) as (i & j & y & Hij & Hi & Hj).
  { intros Hnd. assert (length l ≤ length D)%nat as Hlen.
    { apply submseteq_length, NoDup_submseteq; [done|]. intros y Hy.
      apply list_elem_of_lookup in Hy as [n Hn]. apply Hl in Hn as [-> ?]. by apply HD. }
    unfold l in Hlen. rewrite length_fmap, length_seq in Hlen. lia. }
  apply Hl in Hi as [-> _], Hj as [Hj ?].
  pose proof (iter_periodic i (j - i) x) as Hper.
  replace (i + (j - i))%nat with j in Hper by lia. specialize (Hper Hj).
  set (p := (j - i)%nat) in *.
  exists (p * S ((i - 1) / p))%nat.
  assert (Hp : (0 < p)%nat) by lia.
  pose proof (Nat.div_mod_eq (i - 1) p) as Hdm.
  pose proof (Nat.mod_upper_bound (i - 1) p).
  assert (Hk : (i ≤ p * S ((i - 1) / p) ≤ length D ∧ 0 < p * S ((i - 1) / p))%nat) by nia.
  split; [lia|].
  replace (2 * (p * S ((i - 1) / p)))%nat
    with (p * S ((i - 1) / p) + S ((i - 1) / p) * p)%nat by lia.
  apply Hper. lia.
Qed.
End tortoise.

(** ** Finite maps *)

Section map_lemmas.
Context {V : Type}.

(** The first address above every allocated one.  Allocation is modelled as
    taking this address. *)
Definition first_free (m : gmap Z V) : Z :=
  (1 + map_fold (λ k _ acc, Z.max k acc) 0 m)%Z.

Lemma first_free_spec (m : gmap Z V) k : is_Some (m !! k) → (k < first_free m)%Z.
Proof.
  unfold first_free. revert k.
  apply (map_fold_weak_ind (λ r (m : gmap Z V), ∀ k, is_Some (m !! k) → (k < 1 + r)%Z)).
  - intros k [? ?]. by rewrite lookup_empty in *.
  - intros i x m' r Hi IH k Hk. destruct (decide (i = k)) as [->|Hne]; [lia|].
    rewrite lookup_insert_ne in Hk by done. apply IH in Hk. lia.
Qed.

Lemma first_free_fresh (m : gmap Z V) : m !! first_free m = None.
Proof.
  destruct (m !! first_free m) eqn:E; [|done].
  pose proof (first_free_spec m (first_free m) (mk_is_Some _ _ E)). lia.
Qed.

Lemma insert_first_free_subseteq (m : gmap Z V) v : m ⊆ <[first_free m := v]> m.
Proof. apply insert_subseteq, first_free_fresh. Qed.
End map_lemmas.

#[export] Hint Resolve first_free_fresh insert_first_free_subseteq : mkcl.
