(* ===== verification/Words.v ===== *)
(** * Words: the machine words of the runtime

    [mkcl_word] and [mkcl_index] are the signed and the unsigned word of the
    64-bit platforms ([MKCL_WORD_BITS = 64], src/src/c/mkcl/config.h.in).  A C
    expression on them is an expression on [Z] followed by [swrap] (two's
    complement, [mkcl_word]) or [uwrap] ([mkcl_index]).  An immediate fixnum is
    a word whose two low bits are the tag [mkcl_t_fixnum]
    (src/src/c/mkcl/object.h). *)

From S2P Require Import Prelude.
#[local] Open Scope Z_scope.

Definition MKCL_WORD_BITS : Z := 64.
Definition word_modulus : Z := 2 ^ 64.
Definition half_modulus : Z := 2 ^ 63.

(** Conversion to [mkcl_index]. *)
Definition uwrap (z : Z) : Z := z mod word_modulus.

(** Conversion to [mkcl_word]. *)
Definition swrap (z : Z) : Z := (z + half_modulus) mod word_modulus - half_modulus.

Definition is_word (z : Z) : Prop := - half_modulus <= z < half_modulus.
Definition is_index (z : Z) : Prop := 0 <= z < word_modulus.

Definition MKCL_TAG_BITS : Z := 2.
Definition MKCL_FIXNUM_TAG : Z := 3.
Definition MKCL_MOST_POSITIVE_FIXNUM : Z := 2 ^ 61 - 1.
Definition MKCL_MOST_NEGATIVE_FIXNUM : Z := - 2 ^ 61.

Definition is_fixnum (z : Z) : Prop :=
  MKCL_MOST_NEGATIVE_FIXNUM <= z <= MKCL_MOST_POSITIVE_FIXNUM.

Definition is_fixnumb (z : Z) : bool :=
  (MKCL_MOST_NEGATIVE_FIXNUM <=? z) && (z <=? MKCL_MOST_POSITIVE_FIXNUM).

(** The word that represents the fixnum of value [n], with its tag:
    [((mkcl_word)(n) << 2) | MKCL_FIXNUM_TAG]. *)
Definition fixnum_bits (n : Z) : Z := Z.lor (swrap (Z.shiftl n MKCL_TAG_BITS)) MKCL_FIXNUM_TAG.

(** [((mkcl_word)(obje)) >> 2] *)
Definition mkcl_fixnum_to_word_bits (w : Z) : Z := Z.shiftr w MKCL_TAG_BITS.

(** The value of the object [MKCL_MAKE_FIXNUM(n)]: [n] in range, [n] wrapped
    to 62 bits out of range, since the macro checks nothing. *)
Definition fixnum_wrap (n : Z) : Z := mkcl_fixnum_to_word_bits (fixnum_bits n).

Ltac unfold_words :=
  unfold is_word, is_index, is_fixnum, MKCL_WORD_BITS, word_modulus, half_modulus,
    MKCL_MOST_POSITIVE_FIXNUM, MKCL_MOST_NEGATIVE_FIXNUM, MKCL_TAG_BITS, MKCL_FIXNUM_TAG in *.

Lemma uwrap_range z : is_index (uwrap z).
Proof. unfold uwrap. unfold_words. apply Z.mod_pos_bound. lia. Qed.

Lemma uwrap_small z : is_index z → uwrap z = z.
Proof. unfold uwrap. unfold_words. intros. by apply Z.mod_small. Qed.

Lemma swrap_range z : is_word (swrap z).
Proof.
  unfold swrap. unfold_words.
  pose proof (Z.mod_pos_bound (z + 2 ^ 63) (2 ^ 64)). lia.
Qed.

Lemma swrap_small z : is_word z → swrap z = z.
Proof. unfold swrap. unfold_words. intros. rewrite Z.mod_small; lia. Qed.

Lemma swrap_mod z : swrap z mod word_modulus = z mod word_modulus.
Proof.
  unfold swrap. unfold_words.
  rewrite <- (Zminus_mod_idemp_l (_ mod _) (2 ^ 63)), Z.mod_mod by lia.
  rewrite Zminus_mod_idemp_l. f_equal. lia.
Qed.

Lemma swrap_eq_mod z : ∃ k, swrap z = z + k * word_modulus.
Proof.
  exists (- ((z + half_modulus) / word_modulus)). unfold swrap.
  pose proof (Z.div_mod (z + half_modulus) word_modulus). unfold_words. lia.
Qed.

Lemma is_fixnumb_spec z : is_fixnumb z = true ↔ is_fixnum z.
Proof.
  unfold is_fixnumb, is_fixnum. rewrite andb_true_iff, !Z.leb_le. done.
Qed.

Lemma is_fixnumb_false z : is_fixnumb z = false ↔ ¬ is_fixnum z.
Proof. rewrite <- is_fixnumb_spec. by destruct (is_fixnumb z). Qed.

Lemma is_fixnum_word z : is_fixnum z → is_word z.
Proof. unfold_words. lia. Qed.

Lemma lor_tag (w : Z) : w mod 4 = 0 → Z.lor w 3 = w + 3.
Proof.
  intros H. rewrite <- Z.lxor_lor, <- Z.add_nocarry_lxor; [done|..];
    apply Z.bits_inj'; intros i Hi; rewrite Z.land_spec, Z.bits_0;
    destruct (Z.ltb_spec i 2).
  - rewrite <- (Z.mod_pow2_bits_low w 2 i) by lia. change (2 ^ 2) with 4.
    by rewrite H, Z.bits_0.
  - rewrite (Z.bits_above_log2 3 i) by (simpl; lia). by rewrite andb_false_r.
  - rewrite <- (Z.mod_pow2_bits_low w 2 i) by lia. change (2 ^ 2) with 4.
    by rewrite H, Z.bits_0.
  - rewrite (Z.bits_above_log2 3 i) by (simpl; lia). by rewrite andb_false_r.
Qed.

Lemma swrap_shift2_mod4 n : swrap (n * 4) mod 4 = 0.
Proof.
  destruct (swrap_eq_mod (n * 4)) as [k ->]. unfold_words.
  replace (n * 4 + k * 2 ^ 64) with ((n + k * 2 ^ 62) * 4) by lia.
  apply Z.mod_mul. lia.
Qed.

(** [MKCL_MAKE_FIXNUM] wraps to 62 bits. *)
Lemma fixnum_wrap_eq n : fixnum_wrap n = (n + 2 ^ 61) mod 2 ^ 62 - 2 ^ 61.
Proof.
  unfold fixnum_wrap, mkcl_fixnum_to_word_bits, fixnum_bits. unfold_words.
  rewrite Z.shiftl_mul_pow2, Z.shiftr_div_pow2 by lia. change (2 ^ 2) with 4.
  rewrite lor_tag by apply swrap_shift2_mod4.
  unfold swrap. unfold_words.
  replace (n * 4 + 2 ^ 63) with (4 * (n + 2 ^ 61)) by lia.
  replace (2 ^ 64) with (4 * 2 ^ 62) by lia.
  rewrite Z.mul_mod_distr_l by lia.
  replace (4 * ((n + 2 ^ 61) mod 2 ^ 62) - 2 ^ 63 + 3)
    with (3 + ((n + 2 ^ 61) mod 2 ^ 62 - 2 ^ 61) * 4) by lia.
  rewrite Z.div_add by lia. change (3 / 4) with 0. lia.
Qed.

Lemma fixnum_wrap_small n : is_fixnum n → fixnum_wrap n = n.
Proof. unfold_words. intros. rewrite fixnum_wrap_eq, Z.mod_small; lia. Qed.

Lemma fixnum_wrap_range n : is_fixnum (fixnum_wrap n).
Proof.
  rewrite fixnum_wrap_eq. unfold_words.
  pose proof (Z.mod_pos_bound (n + 2 ^ 61) (2 ^ 62)). lia.
Qed.

#[export] Hint Resolve uwrap_range swrap_range fixnum_wrap_range is_fixnum_word : mkcl.
