(* ===== verification/Objects.v ===== *)
(** * Objects: references to Lisp objects and the EQ and EQL tests

    An [obj] is the value of a C variable of type [mkcl_object]
    (src/src/c/mkcl/object.h): an immediate datum or a reference to an object in
    the heap, with the object's type tag, which never changes after the object
    is made.  The contents of the number objects, which are never written after
    they are made either, come with the reference; what the program can write
    (conses, strings, symbols) is in the heap of [Heap.v].  Floating point
    contents are [spec_float]s. *)

From S2P Require Import Prelude Words.
From Corelib Require Export SpecFloat.
#[local] Open Scope Z_scope.

(** [enum mkcl_type], without its reserved and unused values. *)
Inductive mkcl_type : Set :=
| mkcl_t_null | mkcl_t_character | mkcl_t_fixnum
| mkcl_t_bignum | mkcl_t_ratio | mkcl_t_singlefloat | mkcl_t_doublefloat
| mkcl_t_longfloat | mkcl_t_complex
| mkcl_t_symbol | mkcl_t_cons | mkcl_t_package | mkcl_t_array | mkcl_t_vector
| mkcl_t_string | mkcl_t_base_string | mkcl_t_bitvector
| mkcl_t_cfun | mkcl_t_cclosure | mkcl_t_bytecode | mkcl_t_bclosure | mkcl_t_instance
| mkcl_t_hashtable | mkcl_t_stream | mkcl_t_random | mkcl_t_readtable | mkcl_t_pathname
| mkcl_t_structure | mkcl_t_thread | mkcl_t_lock | mkcl_t_rwlock | mkcl_t_semaphore
| mkcl_t_condition_variable | mkcl_t_codeblock | mkcl_t_foreign
| mkcl_t_temp_stack_frame | mkcl_t_cdisplay | mkcl_t_clevel_block
| mkcl_t_cmp_dbg_lex_level | mkcl_t_pin_bag | mkcl_t_pin
| mkcl_t_UTF_8 | mkcl_t_UTF_16 | mkcl_t_process.

#[export] Instance mkcl_type_eq_dec : EqDecision mkcl_type.
Proof. solve_decision. Defined.

(** The numerical value of the tag. *)
Definition type_code (t : mkcl_type) : Z :=
  match t with
  | mkcl_t_null => 0 | mkcl_t_character => 2 | mkcl_t_fixnum => 3
  | mkcl_t_bignum => 5 | mkcl_t_ratio => 9 | mkcl_t_singlefloat => 13
  | mkcl_t_doublefloat => 17 | mkcl_t_longfloat => 21 | mkcl_t_complex => 25
  | mkcl_t_symbol => 33 | mkcl_t_cons => 37 | mkcl_t_package => 41 | mkcl_t_array => 45
  | mkcl_t_vector => 49 | mkcl_t_string => 53 | mkcl_t_base_string => 57
  | mkcl_t_bitvector => 61 | mkcl_t_cfun => 65 | mkcl_t_cclosure => 69
  | mkcl_t_bytecode => 73 | mkcl_t_bclosure => 77 | mkcl_t_instance => 81
  | mkcl_t_hashtable => 97 | mkcl_t_stream => 101 | mkcl_t_random => 105
  | mkcl_t_readtable => 109 | mkcl_t_pathname => 113 | mkcl_t_structure => 117
  | mkcl_t_thread => 121 | mkcl_t_lock => 125 | mkcl_t_rwlock => 129
  | mkcl_t_semaphore => 133 | mkcl_t_condition_variable => 137 | mkcl_t_codeblock => 141
  | mkcl_t_foreign => 145 | mkcl_t_temp_stack_frame => 149 | mkcl_t_cdisplay => 153
  | mkcl_t_clevel_block => 157 | mkcl_t_cmp_dbg_lex_level => 161 | mkcl_t_pin_bag => 165
  | mkcl_t_pin => 169 | mkcl_t_UTF_8 => 173 | mkcl_t_UTF_16 => 177 | mkcl_t_process => 181
  end.

(** The type tag of the last kind of number, [mkcl_t_reserved_bin0_7]. *)
Definition last_number_code : Z := 29.

Inductive float_kind : Set := SF | DF | LF.

#[export] Instance float_kind_eq_dec : EqDecision float_kind.
Proof. solve_decision. Defined.
#[export] Instance spec_float_eq_dec : EqDecision spec_float.
Proof. solve_decision. Defined.

Inductive obj : Set :=
| ONil                                          (* [mk_cl_Cnil], the null pointer *)
| OChar (code : Z)                              (* immediate character *)
| OFix (n : Z)                                  (* immediate fixnum *)
| OBig (a : Z) (z : Z)                          (* bignum at [a] *)
| ORatio (a : Z) (num den : obj)
| OFloat (k : float_kind) (a : Z) (f : spec_float)
| OComplex (a : Z) (real imag : obj)
| OSym (a : Z)                                  (* symbol at [a] *)
| OCons (a : Z)                                 (* cons at [a] *)
| OString (a : Z)                               (* string of 32-bit characters *)
| OBaseString (a : Z)                           (* string of 8-bit characters *)
| OObj (t : mkcl_type) (a : Z).                 (* an object of another type *)

#[export] Instance obj_eq_dec : EqDecision obj.
Proof.
  intros x y. unfold Decision. decide equality;
    match goal with |- {?a = ?b} + {_} => exact (decide (a = b)) end.
Defined.
#[export] Instance obj_inhabited : Inhabited obj := populate ONil.

Definition mkcl_type_of (x : obj) : mkcl_type :=
  match x with
  | ONil => mkcl_t_null
  | OChar _ => mkcl_t_character
  | OFix _ => mkcl_t_fixnum
  | OBig _ _ => mkcl_t_bignum
  | ORatio _ _ _ => mkcl_t_ratio
  | OFloat SF _ _ => mkcl_t_singlefloat
  | OFloat DF _ _ => mkcl_t_doublefloat
  | OFloat LF _ _ => mkcl_t_longfloat
  | OComplex _ _ _ => mkcl_t_complex
  | OSym _ => mkcl_t_symbol
  | OCons _ => mkcl_t_cons
  | OString _ => mkcl_t_string
  | OBaseString _ => mkcl_t_base_string
  | OObj t _ => t
  end.

(** ** Type predicates, src/src/c/mkcl/object.h *)

Definition mkcl_Null (x : obj) : bool := match x with ONil => true | _ => false end.
Definition MKCL_CONSP (x : obj) : bool := match x with OCons _ => true | _ => false end.
Definition MKCL_LISTP (x : obj) : bool :=
  match x with ONil | OCons _ => true | _ => false end.
Definition MKCL_ATOM (x : obj) : bool := negb (MKCL_CONSP x).
Definition MKCL_FIXNUMP (x : obj) : bool := match x with OFix _ => true | _ => false end.
Definition MKCL_IMMEDIATE (x : obj) : bool :=
  match x with OChar _ | OFix _ => true | _ => false end.
Definition MKCL_SYMBOLP (x : obj) : bool :=
  match x with ONil | OSym _ => true | _ => false end.
Definition MKCL_STRINGP (x : obj) : bool :=
  match x with OString _ | OBaseString _ => true | _ => false end.

(** [MKCL_MAKE_FIXNUM] *)
Definition MKCL_MAKE_FIXNUM (n : Z) : obj := OFix (fixnum_wrap n).

(** C's [x == y] on references. *)
Definition obj_eq (x y : obj) : bool := bool_decide (x = y).

Lemma obj_eq_refl x : obj_eq x x = true.
Proof. by apply bool_decide_eq_true. Qed.
Lemma obj_eq_true x y : obj_eq x y = true ↔ x = y.
Proof. apply bool_decide_eq_true. Qed.
Lemma obj_eq_false x y : obj_eq x y = false ↔ x ≠ y.
Proof. apply bool_decide_eq_false. Qed.

Lemma CONSP_true x : MKCL_CONSP x = true ↔ ∃ a, x = OCons a.
Proof. destruct x; split; try done; try (by intros [? [=]]). intros _. eauto. Qed.
Lemma Null_true x : mkcl_Null x = true ↔ x = ONil.
Proof. by destruct x. Qed.
Lemma LISTP_cases x : MKCL_LISTP x = mkcl_Null x || MKCL_CONSP x.
Proof. by destruct x. Qed.

(** ** EQL, src/src/c/mkcl/external.h and src/src/c/predicate.c *)

Definition signbit (f : spec_float) : bool :=
  match f with
  | S754_zero s | S754_infinity s | S754_finite s _ _ => s
  | S754_nan => false
  end.

Definition isnan (f : spec_float) : bool :=
  match f with S754_nan => true | _ => false end.

(** The macro [FLOAT_EQL].  [spec_float] has one NaN, so comparing the bytes of
    a NaN with those of another float is comparing the two values. *)
Definition FLOAT_EQL (xa xb : spec_float) : bool :=
  if SFeqb xa xb then Bool.eqb (signbit xa) (signbit xb)
  else if isnan xa || isnan xb then bool_decide (xa = xb)
  else false.

Fixpoint mkcl_eql (x y : obj) : bool :=
  if obj_eq x y then true
  else if MKCL_IMMEDIATE x || MKCL_IMMEDIATE y || mkcl_Null x || mkcl_Null y then false
  else if negb (bool_decide (mkcl_type_of x = mkcl_type_of y)) then false
  else if last_number_code <? type_code (mkcl_type_of x) then false
  else (* mkcl_eql_unboxable_numbers *)
    match x, y with
    | OBig _ a, OBig _ b => a =? b
    | ORatio _ n d, ORatio _ n' d' => mkcl_eql n n' && mkcl_eql d d'
    | OFloat _ _ f, OFloat _ _ g => FLOAT_EQL f g
    | OComplex _ r i, OComplex _ r' i' => mkcl_eql r r' && mkcl_eql i i'
    | _, _ => false
    end.

(** What EQL compares: an object with the addresses of the numbers forgotten. *)
Fixpoint eql_key (x : obj) : obj :=
  match x with
  | OBig _ z => OBig 0 z
  | ORatio _ n d => ORatio 0 (eql_key n) (eql_key d)
  | OFloat k _ f => OFloat k 0 f
  | OComplex _ r i => OComplex 0 (eql_key r) (eql_key i)
  | _ => x
  end.

Lemma SFeqb_true f g :
  SFeqb f g = true → signbit f = signbit g → f = g.
Proof.
  unfold SFeqb, SFcompare.
  destruct f as [s|s| |s m e], g as [s'|s'| |s' m' e']; simpl; intros H Hs; subst;
    try done; try (by destruct s); try (by destruct s').
  destruct s'; destruct (e ?= e')%Z eqn:He; try done;
    apply Z.compare_eq in He as ->;
    destruct (Pos.compare_cont Eq m m') eqn:Hm; try done;
    fold (Pos.compare m m') in Hm; apply Pos.compare_eq in Hm; by subst.
Qed.

Lemma SFeqb_refl f : isnan f = false → SFeqb f f = true.
Proof.
  unfold SFeqb, SFcompare. destruct f as [s|s| |s m e]; simpl; intros H; try done.
  - by destruct s.
  - rewrite Z.compare_refl. fold (Pos.compare m m).
    rewrite Pos.compare_refl. by destruct s.
Qed.

Lemma FLOAT_EQL_spec f g : FLOAT_EQL f g = bool_decide (f = g).
Proof.
  unfold FLOAT_EQL. destruct (SFeqb f g) eqn:E.
  - destruct (Bool.eqb (signbit f) (signbit g)) eqn:Hs.
    + apply eqb_prop in Hs. symmetry. apply bool_decide_eq_true. by apply SFeqb_true.
    + symmetry. apply bool_decide_eq_false. intros ->. by rewrite eqb_reflx in Hs.
  - destruct (isnan f || isnan g) eqn:Hn; [done|].
    symmetry. apply bool_decide_eq_false. intros ->.
    apply orb_false_iff in Hn as [Hn _]. by rewrite SFeqb_refl in E.
Qed.

(** EQL is equality of objects up to the addresses of numbers, hence an
    equivalence. *)
Lemma mkcl_eql_key x y : mkcl_eql x y = bool_decide (eql_key x = eql_key y).
Proof.
  revert y. induction x as [|c|n|a z|a n IHn d IHd|k a f|a r IHr i IHi|a|a|a|a|t a];
    intros y; destruct y as [|c'|n'|a' z'|a' n' d'|k' a' f'|a' r' i'|a'|a'|a'|a'|t' a'];
    cbn [mkcl_eql]; unfold obj_eq at 1; case_bool_decide as Heq;
    try (by (symmetry; apply bool_decide_eq_true; rewrite Heq));
    try (by (symmetry; apply bool_decide_eq_false; simpl; congruence));
    simpl; try done;
    try (rewrite (bool_decide_eq_false_2 (OFloat _ _ _ = _)) by congruence);
    try (rewrite (bool_decide_eq_false_2 (_ = OFloat _ _ _)) by congruence);
    try (rewrite (bool_decide_eq_false_2 (OObj _ _ = _)) by congruence);
    try (rewrite (bool_decide_eq_false_2 (_ = OObj _ _)) by congruence);
    try (by repeat match goal with |- context [if ?b then _ else _] => destruct b end).
  - destruct (Z.eqb_spec z z'); symmetry;
      [apply bool_decide_eq_true|apply bool_decide_eq_false]; congruence.
  - rewrite IHn, IHd, <- bool_decide_and. apply bool_decide_ext.
    split; [intros []|intros [=]; split]; congruence.
  - rewrite FLOAT_EQL_spec. destruct k, k'; simpl; try done;
      apply bool_decide_ext; split; congruence.
  - rewrite IHr, IHi, <- bool_decide_and. apply bool_decide_ext. split; [intros []|intros [=]; split]; congruence.
Qed.

Lemma mkcl_eql_refl x : mkcl_eql x x = true.
Proof. rewrite mkcl_eql_key. by apply bool_decide_eq_true. Qed.

Lemma mkcl_eql_sym x y : mkcl_eql x y = mkcl_eql y x.
Proof. rewrite !mkcl_eql_key. apply bool_decide_ext. split; congruence. Qed.

Lemma mkcl_eql_trans x y z :
  mkcl_eql x y = true → mkcl_eql y z = true → mkcl_eql x z = true.
Proof. rewrite !mkcl_eql_key, !bool_decide_eq_true. congruence. Qed.

(** On conses, symbols and every other object that is not a number, EQL is
    identity. *)
Lemma mkcl_eql_cons a y : mkcl_eql (OCons a) y = obj_eq (OCons a) y.
Proof.
  rewrite mkcl_eql_key. apply bool_decide_ext.
  destruct y; simpl; split; congruence.
Qed.

(** ** Integers *)

(** The integer an object denotes. *)
Definition int_val (x : obj) : option Z :=
  match x with OFix n => Some n | OBig _ z => Some z | _ => None end.

(** An integer object is in the form that [_mkcl_big_register_normalize] gives:
    fixnums fit the immediate word, and a bignum is out of that range. *)
Definition int_wf (x : obj) : Prop :=
  match x with
  | OFix n => is_fixnum n
  | OBig _ z => ¬ is_fixnum z
  | _ => True
  end.

(** A well formed integer object of value [z]. *)
Definition is_int (x : obj) (z : Z) : Prop := int_val x = Some z ∧ int_wf x.

Lemma is_int_fix n : is_fixnum n → is_int (OFix n) n.
Proof. done. Qed.

Lemma is_int_MAKE_FIXNUM n : is_fixnum n → is_int (MKCL_MAKE_FIXNUM n) n.
Proof.
  intros H. unfold MKCL_MAKE_FIXNUM. rewrite fixnum_wrap_small by done. by apply is_int_fix.
Qed.

Lemma is_int_fix_inv x z : is_int x z → is_fixnum z → x = OFix z.
Proof. destruct x; intros [Hv Hw]; simpl in *; naive_solver. Qed.

#[export] Hint Resolve obj_eq_refl mkcl_eql_refl is_int_fix is_int_MAKE_FIXNUM : mkcl.
