(* ===== verification/Heap.v ===== *)
(** * Heap: the object store, and the monad the list code is written in

    A C function that takes [env] and Lisp objects is a computation
    [M A := heap → outcome A].  An outcome is a value with the heap left by the
    computation, a Lisp error with the heap at the point of the error (errors
    are non-local exits, so what was written before stays written), or
    [Diverge], which only says that the fuel of a loop ran out.  The last part has weakest
    preconditions for these computations. *)

From S2P Require Import Prelude Words Objects.
#[local] Open Scope Z_scope.

(** ** Cells *)

Record symbol := Symbol {
  sym_name : obj;                 (* a string object *)
  sym_plist : obj;
  sym_hpack : obj;                (* home package, or NIL *)
  sym_stype : Z;                  (* [enum mkcl_stype] flags *)
  sym_value : option obj;         (* [None] is MKCL_OBJNULL, unbound *)
}.

(** [enum mkcl_httest] *)
Inductive httest :=
| mkcl_htt_eq | mkcl_htt_eql | mkcl_htt_equal | mkcl_htt_equalp | mkcl_htt_package.

(** [struct mkcl_hashtable].  Its fields [search_fun], [hash_fun] and
    [equality_fun] are always set together with [test] and are read off it. *)
Record hashtable := Hashtable {
  hash_test : httest;
  hash_data : Z;                       (* the vector of chains *)
  hash_entries : Z;
  hash_size : Z;
  hash_rehash_size : obj;
  hash_threshold : obj;
  hash_factor_of_16th : Z;
  hash_free_bucket : option Z;
}.

(** A block of memory; [None] is an element that was never written. *)
Abbreviation block := (list (option Z)).

(** [struct mkcl_UTF_8] and [struct mkcl_UTF_16]. *)
Record utf := Utf {
  utf_fillp : Z;
  utf_dim : Z;
  utf_self : block;
}.

Inductive cell :=
| CCons (car cdr : obj)
| CStr (chars : list Z)           (* the characters below the fill pointer *)
| CSym (s : symbol)
| CBits (bit_offset fillp : nat) (storage : list bool)
    (* a bit vector: where its bits start in the bits of [self], how many *)
| CPathname (logical : bool) (host device directory name type version : obj)
| CForeign (data size : Z) (tag : obj)
| CBox                            (* a number, whose contents its references carry *)
| CRandom (value : obj)           (* a random state *)
| CEntry (next : option Z) (key : option obj) (hashed_key : Z) (value : option obj)
    (* [struct mkcl_hashtable_entry]; [None] is MKCL_OBJNULL *)
| CChains (roots : list (option Z))       (* the vector of entry chains of a hash table *)
| CHash (t : hashtable)
| CUtf (u : utf)                          (* a UTF-8 or UTF-16 object *)
| COctets (width fillp : Z) (self : block).       (* a vector of integers of 8 or 16 bits *)

Abbreviation heap := (gmap Z cell).

(** ** Errors *)

Inductive lisp_error :=
| FEtype_error_list (x : obj)
| FEtype_error_proper_list (x : obj)
| FEtype_error_sequence (x : obj)
| FEtype_error_proper_sequence (x : obj)
| FEtype_error_seq_index (seq : obj) (i : Z)
| FEtype_error_cons (x : obj)
| FEtype_error_plist (x : obj)
| FEtype_error_symbol (x : obj)
| FEtype_error_string (x : obj)
| FEtype_error_character (x : obj)
| FEtype_error_base_char (x : obj)
| FEtype_error_base_string (x : obj)
| FEtype_error_integer (x : obj)
| FEtype_error_number (x : obj)
| FEtype_error_real (x : obj)
| FEdivision_by_zero (x y : obj)
| FEnot_fixnum_type (x : obj)
| FEtype_error_index (x : obj)     (* not a non-negative fixnum *)
| FEout_of_bounds (x : obj) (dim : Z)
| FEwrong_type_argument (x : obj)
| FEcircular_list (x : obj)
| FEtype_error_hash_table (x : obj)
| FEtype_error_rehash_size (x : obj)
| FEtype_error_rehash_threshold (x : obj)
| FEwrong_num_arguments
| FEprogram_error (x : obj)
| FEerror (msg : string) (args : list obj)
| Sigfpe                           (* the machine's trap for an integer division by zero *)
| Lost (msg : string)              (* [mkcl_lose]: the process ends *)
| Segfault.                        (* an access to no such cell, outside a block, or to what was never written *)

Inductive outcome (A : Type) :=
| Done (a : A) (h : heap)
| Fail (e : lisp_error) (h : heap)
| Diverge.
Arguments Done {A} _ _.
Arguments Fail {A} _ _.
Arguments Diverge {A}.

Definition M (A : Type) : Type := heap → outcome A.

#[export] Instance M_ret : MRet M := λ A a h, Done a h.
#[export] Instance M_bind : MBind M := λ A B k m h,
  match m h with
  | Done a h' => k a h'
  | Fail e h' => Fail e h'
  | Diverge => Diverge
  end.

(** A non-local exit. *)
Definition raise {A} (e : lisp_error) : M A := λ h, Fail e h.
Definition diverge {A} : M A := λ _, Diverge.

(** [b1 && b2], whose second operand is not computed when the first is false. *)
Definition andM (m1 m2 : M bool) : M bool := b ← m1; if (b : bool) then m2 else mret false.

(** [if (b) m;] *)
Definition when (b : bool) (m : M unit) : M unit := if b then m else mret tt.

(** ** Access to conses, src/src/c/mkcl/object.h *)

Definition read_cons (x : obj) : M (obj * obj) := λ h,
  match x with
  | OCons a => match h !! a with
               | Some (CCons v d) => Done (v, d) h
               | _ => Fail Segfault h
               end
  | _ => Fail Segfault h
  end.

Definition MKCL_CONS_CAR (x : obj) : M obj := p ← read_cons x; mret p.1.
Definition MKCL_CONS_CDR (x : obj) : M obj := p ← read_cons x; mret p.2.

Definition write_cell (a : Z) (c : cell) : M unit := λ h, Done tt (<[a := c]> h).

Definition MKCL_RPLACA (x v : obj) : M unit :=
  p ← read_cons x; match x with OCons a => write_cell a (CCons v p.2) | _ => raise Segfault end.
Definition MKCL_RPLACD (x v : obj) : M unit :=
  p ← read_cons x; match x with OCons a => write_cell a (CCons p.1 v) | _ => raise Segfault end.

(** The macros that accept NIL, src/src/c/mkcl/list.h. *)
Definition MKCL_CAR (x : obj) : M obj := if mkcl_Null x then mret x else MKCL_CONS_CAR x.
Definition MKCL_CDR (x : obj) : M obj := if mkcl_Null x then mret x else MKCL_CONS_CDR x.

(** Allocation, src/src/c/alloc_2.c *)
Definition alloc (c : cell) : M Z := λ h, Done (first_free h) (<[first_free h := c]> h).
Definition mkcl_cons (a d : obj) : M obj := l ← alloc (CCons a d); mret (OCons l).
Definition mkcl_list1 (a : obj) : M obj := mkcl_cons a ONil.

(** ** Loops

    [loop n body s] runs [body] from state [s], at most [n] times, until it
    gives a result. *)
Fixpoint loop {S A} (fuel : nat) (body : S → M (S + A)) (s : S) : M A :=
  match fuel with
  | O => diverge
  | Datatypes.S n => r ← body s; match r with inl s' => loop n body s' | inr a => mret a end
  end.

(** ** The steps of computations *)

Lemma bind_Done {A B} (m : M A) (k : A → M B) h a h' :
  m h = Done a h' → (m ≫= k) h = k a h'.
Proof. unfold mbind, M_bind. by intros ->. Qed.

Lemma bind_Fail {A B} (m : M A) (k : A → M B) h e h' :
  m h = Fail e h' → (m ≫= k) h = Fail e h'.
Proof. unfold mbind, M_bind. by intros ->. Qed.

Lemma bind_ret {A B} (a : A) (k : A → M B) h : (mret a ≫= k) h = k a h.
Proof. done. Qed.

Lemma bind_assoc {A B C} (m : M A) (k : A → M B) (l : B → M C) h :
  ((m ≫= k) ≫= l) h = (m ≫= (λ a, k a ≫= l)) h.
Proof. unfold mbind, M_bind. by destruct (m h). Qed.

Lemma bind_Done_inv {A B} (m : M A) (k : A → M B) h b h' :
  (m ≫= k) h = Done b h' → ∃ a h1, m h = Done a h1 ∧ k a h1 = Done b h'.
Proof. unfold mbind, M_bind. destruct (m h); naive_solver. Qed.

Lemma read_cons_eq a v d h :
  h !! a = Some (CCons v d) → read_cons (OCons a) h = Done (v, d) h.
Proof. unfold read_cons. by intros ->. Qed.

Lemma CAR_eq a v d h : h !! a = Some (CCons v d) → MKCL_CONS_CAR (OCons a) h = Done v h.
Proof. intros H. unfold MKCL_CONS_CAR. by rewrite (bind_Done _ _ _ _ _ (read_cons_eq _ _ _ _ H)). Qed.

Lemma CDR_eq a v d h : h !! a = Some (CCons v d) → MKCL_CONS_CDR (OCons a) h = Done d h.
Proof. intros H. unfold MKCL_CONS_CDR. by rewrite (bind_Done _ _ _ _ _ (read_cons_eq _ _ _ _ H)). Qed.

Lemma RPLACA_eq a v d w h :
  h !! a = Some (CCons v d) →
  MKCL_RPLACA (OCons a) w h = Done tt (<[a := CCons w d]> h).
Proof. intros H. unfold MKCL_RPLACA. by rewrite (bind_Done _ _ _ _ _ (read_cons_eq _ _ _ _ H)). Qed.

Lemma RPLACD_eq a v d w h :
  h !! a = Some (CCons v d) →
  MKCL_RPLACD (OCons a) w h = Done tt (<[a := CCons v w]> h).
Proof. intros H. unfold MKCL_RPLACD. by rewrite (bind_Done _ _ _ _ _ (read_cons_eq _ _ _ _ H)). Qed.

Lemma cons_eq a d h :
  mkcl_cons a d h = Done (OCons (first_free h)) (<[first_free h := CCons a d]> h).
Proof. done. Qed.

(** Reading never changes the heap and never diverges. *)
Definition reader {A} (m : M A) : Prop :=
  ∀ h, (∃ a, m h = Done a h) ∨ (∃ e, m h = Fail e h).

Lemma reader_read_cons x : reader (read_cons x).
Proof. intros h. unfold read_cons. repeat case_match; eauto. Qed.

Lemma reader_ret {A} (a : A) : reader (mret a).
Proof. intros h. left. by exists a. Qed.

Lemma reader_raise {A} e : reader (@raise A e).
Proof. intros h. right. by exists e. Qed.

Lemma reader_bind {A B} (m : M A) (k : A → M B) :
  reader m → (∀ a, reader (k a)) → reader (m ≫= k).
Proof.
  intros Hm Hk h. destruct (Hm h) as [[a E]|[e E]].
  - rewrite (bind_Done _ _ _ _ _ E). apply Hk.
  - rewrite (bind_Fail _ _ _ _ _ E). eauto.
Qed.

Lemma reader_CAR x : reader (MKCL_CONS_CAR x).
Proof. apply reader_bind; [apply reader_read_cons|intros; apply reader_ret]. Qed.
Lemma reader_CDR x : reader (MKCL_CONS_CDR x).
Proof. apply reader_bind; [apply reader_read_cons|intros; apply reader_ret]. Qed.

#[export] Hint Resolve reader_read_cons reader_ret reader_raise reader_bind
  reader_CAR reader_CDR : mkcl.

Lemma loop_unfold {S A} n (body : S → M (S + A)) s :
  loop (Datatypes.S n) body s =
  (r ← body s; match r with inl s' => loop n body s' | inr a => mret a end).
Proof. done. Qed.

Lemma loop_inl {S A} n (body : S → M (S + A)) s h s' h' :
  body s h = Done (inl s') h' → loop (Datatypes.S n) body s h = loop n body s' h'.
Proof. intros H. simpl. by rewrite (bind_Done _ _ _ _ _ H). Qed.

Lemma loop_inr {S A} n (body : S → M (S + A)) s h a h' :
  body s h = Done (inr a) h' → loop (Datatypes.S n) body s h = Done a h'.
Proof. intros H. simpl. by rewrite (bind_Done _ _ _ _ _ H). Qed.

Lemma loop_Fail {S A} n (body : S → M (S + A)) s h e h' :
  body s h = Fail e h' → loop (Datatypes.S n) body s h = Fail e h'.
Proof. intros H. simpl. by rewrite (bind_Fail _ _ _ _ _ H). Qed.

(** More fuel gives the same outcome. *)
Lemma loop_more_fuel {S A} n m (body : S → M (S + A)) s h :
  loop n body s h ≠ Diverge → (n ≤ m)%nat → loop m body s h = loop n body s h.
Proof.
  revert m s h. induction n as [|n IH]; intros m s h Hn Hm; [done|].
  destruct m as [|m]; [lia|]. simpl in *. unfold mbind, M_bind in *.
  destruct (body s h) as [[s'|a] h'|e h'|] eqn:E; try done. apply IH; [done|lia].
Qed.

(** ** Loops guarded by a half speed tortoise

    If, as long as it goes on, a loop leaves the heap alone, moves its cell
    with [nx] inside a finite set, moves a second cell on the odd beats, and
    stops when the two meet, then it stops within twice the size of the set. *)
Section tortoise_loop.
Context {S A : Type} (body : S → M (S + A)) (h : heap).
Context (beat : S → Z) (cur slow : S → obj) (nx : obj → obj) (D : list obj).

Hypothesis body_total : ∀ s, body s h ≠ Diverge.
Hypothesis body_step : ∀ s s' h', body s h = Done (inl s') h' →
  h' = h ∧ cur s ∈ D ∧ ¬ (slow s = cur s ∧ beat s ≠ 0) ∧
  beat s' = beat s + 1 ∧ cur s' = nx (cur s) ∧
  slow s' = if Z.odd (beat s) then nx (slow s) else slow s.

Lemma odd_beat_half (m : nat) :
  (Datatypes.S m / 2)%nat = if Z.odd (Z.of_nat m) then Datatypes.S (m / 2) else (m / 2)%nat.
Proof.
  destruct (Z.odd (Z.of_nat m)) eqn:E.
  - apply Z.odd_spec in E as [k Hk]. nat_div.
  - rewrite <- Z.negb_even in E. apply negb_false_iff, Z.even_spec in E as [k Hk]. nat_div.
Qed.

Lemma tortoise_loop_run x n m s :
  beat s = Z.of_nat m → cur s = Nat.iter m nx x → slow s = Nat.iter (m / 2) nx x →
  (∀ j, (j < m)%nat → Nat.iter j nx x ∈ D ∧
     ¬ (Nat.iter (j / 2) nx x = Nat.iter j nx x ∧ j ≠ 0%nat)) →
  (2 * length D < n + m)%nat →
  loop n body s h ≠ Diverge.
Proof.
  revert m s. induction n as [|n IH]; intros m s Hb Hc Hs Hall Hn.
  - exfalso. destruct (tortoise_meets nx D x) as (k & Hk & Heq).
    { intros j Hj. apply Hall. lia. }
    destruct (Hall (2 * k)%nat) as [_ Hne]; [lia|]. apply Hne.
    split; [|lia]. rewrite Heq. f_equal. nat_div.
  - simpl. unfold mbind, M_bind.
    destruct (body s h) as [[s'|a] h'|e h'|] eqn:E; try done; [|by apply body_total in E].
    destruct (body_step _ _ _ E) as (-> & HD & Hne & Hb' & Hc' & Hs').
    apply (IH (Datatypes.S m)); [lia|by rewrite Hc', Hc| | |lia].
    + rewrite Hs', Hb, Hs, odd_beat_half. by destruct (Z.odd (Z.of_nat m)).
    + intros j Hj. destruct (decide (j = m)) as [->|Hjm]; [|apply Hall; lia].
      rewrite <- Hc, <- Hs. split; [done|]. intros [Heq Hj0]. apply Hne. split; [done|lia].
Qed.

Lemma tortoise_loop_terminates s fuel :
  beat s = 0 → slow s = cur s → (2 * length D < fuel)%nat →
  loop fuel body s h ≠ Diverge.
Proof.
  intros Hb Hs Hf. apply (tortoise_loop_run (cur s) fuel 0); try done; [|lia].
  intros j Hj. lia.
Qed.
End tortoise_loop.

(** The references to the conses of a heap. *)
Definition cons_refs (h : heap) : list obj := OCons <$> (map_to_list h).*1.

Lemma cons_refs_elem h a c : h !! a = Some c → OCons a ∈ cons_refs h.
Proof.
  intros H. apply list_elem_of_fmap. exists a. split; [done|].
  apply list_elem_of_fmap. exists (a, c). split; [done|]. by apply elem_of_map_to_list.
Qed.

Lemma cons_refs_length h : length (cons_refs h) = size h.
Proof. unfold cons_refs. by rewrite !length_fmap, length_map_to_list. Qed.

(** ** Weakest preconditions

    [wp m h Q E]: from [h], [m] gives a value and a heap that satisfy [Q] or
    raises an error that satisfies [E] with the heap at that point; it never
    runs out of fuel.  The rules follow the syntax, and [wp_go] applies them. *)

Definition wp {A} (m : M A) (h : heap) (Q : A → heap → Prop)
    (E : lisp_error → heap → Prop) : Prop :=
  match m h with Done a h' => Q a h' | Fail e h' => E e h' | Diverge => False end.

(** No error is expected. *)
Definition no_error : lisp_error → heap → Prop := λ _ _, False.

Section rules.
Context {A B : Type}.
Implicit Types (m : M A) (k : A → M B) (E : lisp_error → heap → Prop).

Lemma wp_Done m h Q E r h' : m h = Done r h' → Q r h' → wp m h Q E.
Proof. unfold wp. by intros ->. Qed.

Lemma wp_done_inv m h Q : wp m h Q no_error → ∃ r h', m h = Done r h' ∧ Q r h'.
Proof. unfold wp, no_error. destruct (m h); naive_solver. Qed.

Lemma wp_fail_inv m h E : wp m h (λ _ _, False) E → ∃ e h', m h = Fail e h' ∧ E e h'.
Proof. unfold wp. destruct (m h); naive_solver. Qed.

Lemma wp_mono m h (Q Q' : A → heap → Prop) (E E' : lisp_error → heap → Prop) :
  wp m h Q E → (∀ r h', Q r h' → Q' r h') → (∀ e h', E e h' → E' e h') → wp m h Q' E'.
Proof. unfold wp. destruct (m h); naive_solver. Qed.

Lemma wp_ret (a : A) h (Q : A → heap → Prop) E : Q a h → wp (mret a) h Q E.
Proof. done. Qed.

Lemma wp_raise e h (Q : A → heap → Prop) E : E e h → wp (raise e) h Q E.
Proof. done. Qed.

Lemma wp_bind m k h Q E : wp m h (λ a h', wp (k a) h' Q E) E → wp (m ≫= k) h Q E.
Proof. unfold wp, mbind, M_bind. by destruct (m h). Qed.

Lemma wp_if (b : bool) m1 m2 h Q E :
  (b = true → wp m1 h Q E) → (b = false → wp m2 h Q E) → wp (if b then m1 else m2) h Q E.
Proof. destruct b; auto. Qed.
End rules.

Lemma wp_read_cons a v d h Q E :
  h !! a = Some (CCons v d) → Q (v, d) h → wp (read_cons (OCons a)) h Q E.
Proof. intros H. unfold wp. by rewrite (read_cons_eq _ _ _ _ H). Qed.

Lemma wp_car a v d h Q E :
  h !! a = Some (CCons v d) → Q v h → wp (MKCL_CONS_CAR (OCons a)) h Q E.
Proof. intros H. unfold wp. by rewrite (CAR_eq _ _ _ _ H). Qed.

Lemma wp_cdr a v d h Q E :
  h !! a = Some (CCons v d) → Q d h → wp (MKCL_CONS_CDR (OCons a)) h Q E.
Proof. intros H. unfold wp. by rewrite (CDR_eq _ _ _ _ H). Qed.

Lemma wp_CDR_any x h (Q : obj → heap → Prop) E :
  (∀ a v d, x = OCons a → h !! a = Some (CCons v d) → Q d h) →
  ((∀ a v d, x = OCons a → h !! a ≠ Some (CCons v d)) → E Segfault h) →
  wp (MKCL_CONS_CDR x) h Q E.
Proof.
  intros HQ HE. unfold wp, MKCL_CONS_CDR, read_cons, mbind, M_bind.
  destruct x; try (apply HE; congruence).
  destruct (h !! a) as [[]|] eqn:Ha; try (apply HE; congruence). by eapply HQ.
Qed.

Lemma wp_rplaca a v d w h Q E :
  h !! a = Some (CCons v d) → Q tt (<[a := CCons w d]> h) → wp (MKCL_RPLACA (OCons a) w) h Q E.
Proof. intros H. unfold wp. by rewrite (RPLACA_eq _ _ _ _ _ H). Qed.

Lemma wp_rplacd a v d w h Q E :
  h !! a = Some (CCons v d) → Q tt (<[a := CCons v w]> h) → wp (MKCL_RPLACD (OCons a) w) h Q E.
Proof. intros H. unfold wp. by rewrite (RPLACD_eq _ _ _ _ _ H). Qed.

Lemma wp_rplacd_Done x w h h' (Q : unit → heap → Prop) E :
  MKCL_RPLACD x w h = Done tt h' → Q tt h' → wp (MKCL_RPLACD x w) h Q E.
Proof. apply wp_Done. Qed.

Lemma wp_cons v d h Q E :
  Q (OCons (first_free h)) (<[first_free h := CCons v d]> h) → wp (mkcl_cons v d) h Q E.
Proof. done. Qed.

(** The total correctness rule of loops: an invariant indexed by a bound on the
    iterations left. *)
Lemma wp_loop {S A} (I : nat → S → heap → Prop) (body : S → M (S + A)) fuel n s h Q E :
  (∀ n s h, I n s h →
     wp (body s) h (λ r h', match r with
                            | inl s' => ∃ m, (m < n)%nat ∧ I m s' h'
                            | inr a => Q a h'
                            end) E) →
  I n s h → (n < fuel)%nat → wp (loop fuel body s) h Q E.
Proof.
  intros Hbody. revert n s h. induction fuel as [|fuel IH]; intros n s h HI Hn; [lia|].
  apply wp_bind. eapply wp_mono; [by apply Hbody| |done].
  intros [s'|a] h' Hr; [|by apply wp_ret]. destruct Hr as (m & Hm & HI').
  apply (IH m); [done|lia].
Qed.

(** A loop that is known not to run out of fuel needs no bound. *)
Lemma wp_loop_total {S A} (I : S → heap → Prop) (body : S → M (S + A)) fuel s h Q E :
  loop fuel body s h ≠ Diverge →
  (∀ s h, I s h → body s h ≠ Diverge →
     wp (body s) h (λ r h', match r with inl s' => I s' h' | inr a => Q a h' end) E) →
  I s h → wp (loop fuel body s) h Q E.
Proof.
  intros Hd Hbody. revert s h Hd. induction fuel as [|fuel IH]; intros s h Hd HI; [done|].
  simpl in Hd. unfold mbind, M_bind in Hd.
  assert (body s h ≠ Diverge) as Hb by (intros E'; by rewrite E' in Hd).
  specialize (Hbody s h HI Hb). unfold wp in *. simpl. unfold mbind, M_bind.
  destruct (body s h) as [[s'|a] h'|e h'|]; try done. by apply IH.
Qed.

(** ** Automation *)

Ltac wp_step :=
  match goal with
  | |- wp (mbind _ _) _ _ _ => apply wp_bind
  | |- wp (mret _) _ _ _ => apply wp_ret
  | |- wp (raise _) _ _ _ => apply wp_raise
  | |- wp (MKCL_CONS_CAR (OCons _)) _ _ _ => eapply wp_car; [eassumption|]
  | |- wp (MKCL_CONS_CDR (OCons _)) _ _ _ => eapply wp_cdr; [eassumption|]
  | |- wp (MKCL_CAR (OCons _)) _ _ _ => eapply wp_car; [eassumption|]
  | |- wp (MKCL_CDR (OCons _)) _ _ _ => eapply wp_cdr; [eassumption|]
  | |- wp (MKCL_RPLACA (OCons _) _) _ _ _ => eapply wp_rplaca; [eassumption|]
  | |- wp (MKCL_RPLACD (OCons _) _) _ _ _ => eapply wp_rplacd; [eassumption|]
  | |- wp (mkcl_cons _ _) _ _ _ => apply wp_cons
  | |- wp (mkcl_list1 _) _ _ _ => apply wp_cons
  | |- wp (if negb ?b then _ else _) _ _ _ => destruct b eqn:?; simpl negb; cbv iota
  | |- wp (if mkcl_Null (OCons _) then _ else _) _ _ _ => cbn [mkcl_Null]; cbv iota
  | |- wp (if mkcl_Null ONil then _ else _) _ _ _ => cbn [mkcl_Null]; cbv iota
  end; cbv beta.

(** Conditions on known references. *)
Ltac wp_cond := cbn [mkcl_Null MKCL_CONSP MKCL_LISTP MKCL_ATOM negb andb orb]; cbv iota beta.

Ltac wp_go := repeat (wp_cond; wp_step).
