(* ===== verification/Numbers.v ===== *)
(** * Numbers: integers of the runtime

    The interface to GMP, the conversions between Lisp integers and machine
    words (src/src/c/number.c) and the normalisation of bignum results
    (src/src/c/big.c).  GMP is a library the program calls, so it is an
    interface here: the contents of an [mpz_t] are an integer, [GMP] lists the
    functions and struct fields the code uses, and [GMPSpec] their documented
    meaning.  The instance [gmp_ref] shows that the interface is inhabited. *)

From S2P Require Import Prelude Words Objects Heap.
#[local] Open Scope Z_scope.

(** The number of bits set in [z], among the first [n]. *)
Definition bits_set (z : Z) (n : nat) : Z :=
  Z.of_nat (length (filter (λ i, Z.testbit z (Z.of_nat i) = true) (seq 0 n))).

(** ** The interface to GMP *)

Class GMP := {
  mp_size : Z → Z;                 (* field [_mp_size]: limb count, signed *)
  mp_limb0 : Z → Z;                (* [_mp_d[0]], when there is a limb *)
  mp_limb : Z → nat → Z;           (* [_mp_d[i]] *)
  mpz_and : Z → Z → Z;
  mpz_ior : Z → Z → Z;
  mpz_xor : Z → Z → Z;
  mpz_com : Z → Z;
  mpz_popcount : Z → Z;
  mpz_tstbit : Z → Z → bool;
  mpz_mul_2exp : Z → Z → Z;
  mpz_div_2exp : Z → Z → Z;
  mpz_sizeinbase : Z → Z → Z;
  mpz_sgn : Z → Z;
  mpz_fits_slong_p : Z → bool;
  mpz_fits_ulong_p : Z → bool;
  mpz_get_si : Z → Z;
  mpz_get_ui : Z → Z;
}.

Class GMPSpec `{!GMP} : Prop := {
  mp_size_zero z : mp_size z = 0 ↔ z = 0;
  mp_size_one z : mp_size z = 1 ↔ 0 < z < word_modulus;
  mp_size_minus_one z : mp_size z = -1 ↔ - word_modulus < z < 0;
  mp_limb0_eq z : mp_limb0 z = Z.abs z mod word_modulus;
  mp_limb_eq z i : mp_limb z i = Z.abs z / 2 ^ (64 * Z.of_nat i) mod word_modulus;
  mpz_and_eq x y : mpz_and x y = Z.land x y;
  mpz_ior_eq x y : mpz_ior x y = Z.lor x y;
  mpz_xor_eq x y : mpz_xor x y = Z.lxor x y;
  mpz_com_eq x : mpz_com x = Z.lnot x;
  mpz_popcount_eq z n : 0 ≤ z < 2 ^ Z.of_nat n → mpz_popcount z = bits_set z n;
  mpz_tstbit_eq z i : 0 ≤ i → mpz_tstbit z i = Z.testbit z i;
  mpz_mul_2exp_eq z n : 0 ≤ n → mpz_mul_2exp z n = z * 2 ^ n;
  mpz_div_2exp_eq z n : 0 ≤ n → mpz_div_2exp z n = z / 2 ^ n;
  mpz_sizeinbase_2_eq z : 0 < z → mpz_sizeinbase z 2 = Z.log2 z + 1;
  mpz_sgn_eq z : mpz_sgn z = Z.sgn z;
  mpz_fits_slong_p_eq z : mpz_fits_slong_p z = true ↔ is_word z;
  mpz_fits_ulong_p_eq z : mpz_fits_ulong_p z = true ↔ is_index z;
  mpz_get_si_eq z : is_word z → mpz_get_si z = z;
  mpz_get_ui_eq z : is_index z → mpz_get_ui z = z;
}.

(** The number of digits of [z] in base [b], at most [n]. *)
Fixpoint count_digits (n : nat) (b z : Z) : Z :=
  match n with
  | O => 0
  | S n => if z <? b then 1 else 1 + count_digits n b (z / b)
  end.

(** A reference implementation, for the instances of the theorems. *)
#[export] Instance gmp_ref : GMP := {
  mp_size z := Z.sgn z * (if z =? 0 then 0 else Z.log2 (Z.abs z) / 64 + 1);
  mp_limb0 z := Z.abs z mod word_modulus;
  mp_limb z i := Z.abs z / 2 ^ (64 * Z.of_nat i) mod word_modulus;
  mpz_and := Z.land;
  mpz_ior := Z.lor;
  mpz_xor := Z.lxor;
  mpz_com := Z.lnot;
  mpz_popcount z := bits_set z (Z.to_nat (Z.log2 z + 1));
  mpz_tstbit := Z.testbit;
  mpz_mul_2exp z n := z * 2 ^ n;
  mpz_div_2exp z n := z / 2 ^ n;
  mpz_sizeinbase z b := count_digits (Z.to_nat (Z.log2 (Z.abs z) + 1)) b (Z.abs z);
  mpz_sgn := Z.sgn;
  mpz_fits_slong_p z := (- half_modulus <=? z) && (z <? half_modulus);
  mpz_fits_ulong_p z := (0 <=? z) && (z <? word_modulus);
  mpz_get_si z := z;
  mpz_get_ui z := z;
}.

Lemma bits_set_app z n m :
  bits_set z (n + m) =
  bits_set z n + Z.of_nat (length (filter (λ i, Z.testbit z (Z.of_nat i) = true) (seq n m))).
Proof. unfold bits_set. by rewrite seq_app, filter_app, length_app, Nat2Z.inj_add. Qed.

Lemma bits_set_S z n :
  bits_set z (S n) = bits_set z n + Z.b2z (Z.testbit z (Z.of_nat n)).
Proof.
  rewrite <- Nat.add_1_r, bits_set_app. f_equal. simpl.
  rewrite filter_cons, filter_nil. by destruct (Z.testbit z (Z.of_nat n)).
Qed.

Lemma bits_set_high z n m :
  0 ≤ z < 2 ^ Z.of_nat n → (n ≤ m)%nat → bits_set z m = bits_set z n.
Proof.
  intros Hz Hm. induction m as [|m IH].
  - by replace n with 0%nat by lia.
  - destruct (decide (n = S m)) as [->|Hne]; [done|].
    rewrite bits_set_S, IH by lia.
    destruct (decide (z = 0)) as [->|Hz0]; [rewrite Z.bits_0; simpl; lia|].
    assert (Z.log2 z < Z.of_nat n) by (apply Z.log2_lt_pow2; lia).
    rewrite Z.bits_above_log2 by lia. simpl. lia.
Qed.

Lemma log2_div64_zero z : 0 < z → (Z.log2 z / 64 + 1 = 1 ↔ z < word_modulus).
Proof.
  intros Hz. unfold word_modulus. rewrite (Z.log2_lt_pow2 z 64) by done.
  pose proof (Z.log2_nonneg z). pose proof (Z.div_mod (Z.log2 z) 64).
  pose proof (Z.mod_pos_bound (Z.log2 z) 64). lia.
Qed.

Lemma count_digits_spec n b z :
  2 ≤ b → 0 < z < b ^ Z.of_nat n →
  let s := count_digits n b z in 0 < s ∧ b ^ (s - 1) ≤ z < b ^ s.
Proof.
  intros Hb. revert z. induction n as [|n IH]; intros z Hz; [simpl in Hz; lia|]. cbn [count_digits].
  destruct (Z.ltb_spec z b) as [Hlt|Hge].
  - rewrite Z.sub_diag, Z.pow_0_r, Z.pow_1_r. lia.
  - assert (0 < z / b) by (apply Z.div_str_pos; lia).
    rewrite Nat2Z.inj_succ, Z.pow_succ_r in Hz by lia.
    destruct (IH (z / b)) as (Hs & Hl & Hu).
    { split; [done|]. apply Z.div_lt_upper_bound; lia. }
    cbv zeta. set (s := count_digits n b (z / b)) in *. replace (1 + s - 1) with (Z.succ (s - 1)) by lia.
    replace (1 + s) with (Z.succ s) by lia. rewrite !Z.pow_succ_r by lia.
    pose proof (Z.div_mod z b). pose proof (Z.mod_pos_bound z b). nia.
Qed.

(** In base 2 it is the number of bits. *)
Lemma count_digits_2 z : 0 < z → count_digits (Z.to_nat (Z.log2 z + 1)) 2 z = Z.log2 z + 1.
Proof.
  intros Hz. pose proof (Z.log2_nonneg z). pose proof (Z.log2_spec z Hz) as [Hl Hu].
  destruct (count_digits_spec (Z.to_nat (Z.log2 z + 1)) 2 z) as (Hs & Hl' & Hu'); [lia| |].
  { rewrite Z2Nat.id by lia. by rewrite <- Z.add_1_r in Hu. }
  set (s := count_digits _ 2 z) in *. assert (Z.log2 z = s - 1); [|lia].
  apply Z.log2_unique; [lia|]. by rewrite <- Z.add_1_r, Z.sub_add.
Qed.

#[export] Instance gmp_ref_spec : GMPSpec.
Proof.
  assert (Hpos : ∀ z, 0 < z → 1 ≤ Z.log2 z / 64 + 1).
  { intros z Hz. pose proof (Z.div_pos (Z.log2 z) 64 (Z.log2_nonneg z)). lia. }
  split; simpl; try done.
  - intros z. destruct (Z.eqb_spec z 0) as [->|Hz]; [done|].
    specialize (Hpos (Z.abs z)). nia.
  - intros z. destruct (Z.eqb_spec z 0) as [->|Hz]; [simpl; lia|].
    pose proof (log2_div64_zero (Z.abs z)) as Hl. specialize (Hpos (Z.abs z)).
    destruct (Z.sgn_spec z) as [[? ->]|[[? ?]|[? ->]]]; lia.
  - intros z. destruct (Z.eqb_spec z 0) as [->|Hz]; [simpl; lia|].
    pose proof (log2_div64_zero (Z.abs z)) as Hl. specialize (Hpos (Z.abs z)).
    destruct (Z.sgn_spec z) as [[? ->]|[[? ?]|[? ->]]]; lia.
  - intros z n Hz. destruct (decide (z = 0)) as [->|Hne].
    + change (bits_set 0 (Z.to_nat (Z.log2 0 + 1))) with 0.
      symmetry. apply (bits_set_high 0 0 n); simpl; lia.
    + symmetry. apply bits_set_high.
      * rewrite Z2Nat.id by (pose proof (Z.log2_nonneg z); lia).
        split; [lia|]. apply Z.log2_lt_pow2; lia.
      * assert (Z.log2 z < Z.of_nat n) by (apply Z.log2_lt_pow2; lia). lia.
  - intros z Hz. rewrite Z.abs_eq by lia. by apply count_digits_2.
  - intros z. unfold is_word. rewrite andb_true_iff, Z.leb_le, Z.ltb_lt. done.
  - intros z. unfold is_index. rewrite andb_true_iff, Z.leb_le, Z.ltb_lt. done.
Qed.

(** ** Conversions, src/src/c/number.c *)

Section conversions.
Context `{!GMP}.

Definition mkcl_integer_to_word (x : obj) : M Z :=
  match x with
  | OFix n => mret n
  | OBig _ z => if mpz_fits_slong_p z then mret (mpz_get_si z) else raise (FEwrong_type_argument x)
  | _ => raise (FEwrong_type_argument x)
  end.

Definition mkcl_integer_to_index (x : obj) : M Z :=
  match x with
  | OFix i => if 0 <=? i then mret i else raise (FEtype_error_index x)
  | OBig _ z => if mpz_fits_ulong_p z then mret (mpz_get_ui z) else raise (FEtype_error_index x)
  | _ => raise (FEtype_error_index x)
  end.

(** The error asks for another value, which is not modelled. *)
Definition mkcl_fixnum_in_range (value : obj) (min max : Z) : M Z :=
  match value with
  | OFix n => if (min <=? n) && (n <=? max) then mret n else raise (FEwrong_type_argument value)
  | _ => raise (FEwrong_type_argument value)
  end.

Definition mkcl_safe_fixnum_to_word (x : obj) : M Z :=
  match x with OFix n => mret n | _ => raise (FEnot_fixnum_type x) end.

Definition mkcl_assert_type_integer (x : obj) : M unit :=
  match x with OFix _ | OBig _ _ => mret tt | _ => raise (FEtype_error_integer x) end.

Definition mkcl_assert_type_non_negative_integer (x : obj) : M unit :=
  match x with
  | OFix n => if 0 <=? n then mret tt else raise (FEwrong_type_argument x)
  | OBig _ z => if 0 <=? mpz_sgn z then mret tt else raise (FEwrong_type_argument x)
  | _ => raise (FEwrong_type_argument x)
  end.

(** [_mkcl_big_register_normalize] *)
Definition _mkcl_big_register_normalize (z : Z) : M obj :=
  let s := mp_size z in
  let copy := a ← alloc CBox; mret (OBig a z) in
  if s =? 0 then mret (MKCL_MAKE_FIXNUM 0)
  else if s =? 1 then
    let y := mp_limb0 z in
    if y <=? MKCL_MOST_POSITIVE_FIXNUM then mret (MKCL_MAKE_FIXNUM y) else copy
  else if s =? -1 then
    let y := mp_limb0 z in
    if y <=? - MKCL_MOST_NEGATIVE_FIXNUM then mret (MKCL_MAKE_FIXNUM (swrap (- y))) else copy
  else copy.

(** [mkcl_make_integer] *)
Definition mkcl_make_integer (l : Z) : M obj :=
  if (MKCL_MOST_NEGATIVE_FIXNUM <=? l) && (l <=? MKCL_MOST_POSITIVE_FIXNUM)
  then mret (MKCL_MAKE_FIXNUM l)
  else a ← alloc CBox; mret (OBig a l).
End conversions.

(** The computation gives a well formed integer object of value [z] and adds at
    most a cell to the heap. *)
Definition gives_int (m : M obj) (h : heap) (z : Z) : Prop :=
  ∃ r h', m h = Done r h' ∧ is_int r z ∧ h ⊆ h'.

Lemma gives_int_ret r h z : is_int r z → gives_int (mret r) h z.
Proof. intros H. by exists r, h. Qed.

Lemma gives_int_alloc h z :
  ¬ is_fixnum z → gives_int (a ← alloc CBox; mret (OBig a z)) h z.
Proof. intros H. eexists _, _. split_and!; [done|done|apply insert_first_free_subseteq]. Qed.

Section conversion_lemmas.
Context `{!GMP} `{!GMPSpec}.

(** Normalisation keeps the value and gives a fixnum exactly when it fits. *)
Lemma big_register_normalize_spec z h : gives_int (_mkcl_big_register_normalize z) h z.
Proof.
  unfold _mkcl_big_register_normalize.
  destruct (Z.eqb_spec (mp_size z) 0) as [Hs0|Hs0].
  { apply mp_size_zero in Hs0 as ->. apply gives_int_ret. by apply is_int_MAKE_FIXNUM. }
  assert (z ≠ 0) by (by intros ->; apply Hs0, mp_size_zero).
  destruct (Z.eqb_spec (mp_size z) 1) as [Hs1|Hs1];
    [|destruct (Z.eqb_spec (mp_size z) (-1)) as [Hs2|Hs2]].
  - apply mp_size_one in Hs1. rewrite mp_limb0_eq, Z.abs_eq, Z.mod_small by lia.
    destruct (Z.leb_spec z MKCL_MOST_POSITIVE_FIXNUM).
    + apply gives_int_ret, is_int_MAKE_FIXNUM. unfold_words. lia.
    + apply gives_int_alloc. unfold_words. lia.
  - apply mp_size_minus_one in Hs2. rewrite mp_limb0_eq, Z.abs_neq, Z.mod_small by lia.
    destruct (Z.leb_spec (- z) (- MKCL_MOST_NEGATIVE_FIXNUM)).
    + apply gives_int_ret. rewrite Z.opp_involutive, swrap_small by (unfold_words; lia).
      apply is_int_MAKE_FIXNUM. unfold_words. lia.
    + apply gives_int_alloc. unfold_words. lia.
  - apply gives_int_alloc.
    assert (¬ (0 < z < word_modulus)) by (by rewrite <- mp_size_one).
    assert (¬ (- word_modulus < z < 0)) by (by rewrite <- mp_size_minus_one).
    unfold_words. lia.
Qed.

Lemma integer_to_index_spec x z h :
  is_int x z → is_index z → mkcl_integer_to_index x h = Done z h.
Proof.
  intros [Hx Hw] Hz. destruct x; simplify_eq/=.
  - by rewrite (proj2 (Z.leb_le 0 z)) by apply Hz.
  - by rewrite (proj2 (mpz_fits_ulong_p_eq z)), mpz_get_ui_eq by done.
Qed.

Lemma integer_to_index_negative x z h :
  is_int x z → z < 0 → mkcl_integer_to_index x h = Fail (FEtype_error_index x) h.
Proof.
  intros [Hx Hw] Hz. destruct x; simplify_eq/=.
  - by rewrite (proj2 (Z.leb_gt 0 z)).
  - destruct (mpz_fits_ulong_p z) eqn:E; [|done].
    apply mpz_fits_ulong_p_eq in E. unfold is_index in E. lia.
Qed.

Lemma integer_to_word_spec x z h :
  is_int x z → is_word z → mkcl_integer_to_word x h = Done z h.
Proof.
  intros [Hx Hw] Hz. destruct x; simplify_eq/=; [done|].
  by rewrite (proj2 (mpz_fits_slong_p_eq z)), mpz_get_si_eq by done.
Qed.
End conversion_lemmas.

#[export] Hint Resolve big_register_normalize_spec gives_int_ret : mkcl.
