(* ===== verification/NumLog.v ===== *)
(** * NumLog: logical operations on integers, src/src/c/num_log.c

    BOOLE and the LOGxxx functions, ASH, LOGBITP, LOGCOUNT, INTEGER-LENGTH, on
    fixnums (machine words) and bignums (GMP).  Left out: bit arrays
    ([mk_si_bit_array_op]). *)

From S2P Require Import Prelude Words Objects Heap Numbers.
#[local] Open Scope Z_scope.

(** ** The operators *)

(** On fixnums, C's bitwise operators on [mkcl_word]. *)
Definition ior_op (i j : Z) : Z := Z.lor i j.
Definition xor_op (i j : Z) : Z := Z.lxor i j.
Definition and_op (i j : Z) : Z := Z.land i j.
Definition eqv_op (i j : Z) : Z := Z.lnot (Z.lxor i j).
Definition nand_op (i j : Z) : Z := Z.lnot (Z.land i j).
Definition nor_op (i j : Z) : Z := Z.lnot (Z.lor i j).
Definition andc1_op (i j : Z) : Z := Z.land (Z.lnot i) j.
Definition andc2_op (i j : Z) : Z := Z.land i (Z.lnot j).
Definition orc1_op (i j : Z) : Z := Z.lor (Z.lnot i) j.
Definition orc2_op (i j : Z) : Z := Z.lor i (Z.lnot j).
Definition b_clr_op (i j : Z) : Z := 0.
Definition b_set_op (i j : Z) : Z := -1.
Definition b_1_op (i j : Z) : Z := i.
Definition b_2_op (i j : Z) : Z := j.
Definition b_c1_op (i j : Z) : Z := Z.lnot i.
Definition b_c2_op (i j : Z) : Z := Z.lnot j.

Definition fixnum_operations : list (Z → Z → Z) :=
  [ b_clr_op; and_op; andc2_op; b_1_op; andc1_op; b_2_op; xor_op; ior_op;
    nor_op; eqv_op; b_c2_op; orc2_op; b_c1_op; orc1_op; nand_op; b_set_op ].

Definition MKCL_BOOLCLR : Z := 0.
Definition MKCL_BOOLAND : Z := 1.
Definition MKCL_BOOLANDC2 : Z := 2.
Definition MKCL_BOOL1 : Z := 3.
Definition MKCL_BOOLANDC1 : Z := 4.
Definition MKCL_BOOL2 : Z := 5.
Definition MKCL_BOOLXOR : Z := 6.
Definition MKCL_BOOLIOR : Z := 7.
Definition MKCL_BOOLNOR : Z := 8.
Definition MKCL_BOOLEQV : Z := 9.
Definition MKCL_BOOLC2 : Z := 10.
Definition MKCL_BOOLORC2 : Z := 11.
Definition MKCL_BOOLC1 : Z := 12.
Definition MKCL_BOOLORC1 : Z := 13.
Definition MKCL_BOOLNAND : Z := 14.
Definition MKCL_BOOLSET : Z := 15.

Section with_gmp.
Context `{!GMP}.

(** On bignums: what the operator leaves in its first argument, a register
    that holds [i]. *)
Definition mpz_ior_op (i j : Z) : Z := mpz_ior i j.
Definition mpz_xor_op (i j : Z) : Z := mpz_xor i j.
Definition mpz_and_op (i j : Z) : Z := mpz_and i j.
Definition mpz_eqv_op (i j : Z) : Z := let i := mpz_xor i j in mpz_com i.
Definition mpz_nand_op (i j : Z) : Z := let i := mpz_and i j in mpz_com i.
Definition mpz_nor_op (i j : Z) : Z := let i := mpz_ior i j in mpz_com i.
Definition mpz_andc1_op (i j : Z) : Z := let i := mpz_com i in mpz_and i j.
Definition mpz_orc1_op (i j : Z) : Z := let i := mpz_com i in mpz_ior i j.
Definition mpz_andc2_op (i j : Z) : Z := let i := mpz_orc1_op i j in mpz_com i.
Definition mpz_orc2_op (i j : Z) : Z := let i := mpz_andc1_op i j in mpz_com i.
Definition mpz_b_clr_op (i j : Z) : Z := 0.
Definition mpz_b_set_op (i j : Z) : Z := -1.
Definition mpz_b_1_op (i j : Z) : Z := i.
Definition mpz_b_2_op (i j : Z) : Z := j.
Definition mpz_b_c1_op (i j : Z) : Z := mpz_com i.
Definition mpz_b_c2_op (i j : Z) : Z := mpz_com j.

Definition bignum_operations : list (Z → Z → Z) :=
  [ mpz_b_clr_op; mpz_and_op; mpz_andc2_op; mpz_b_1_op; mpz_andc1_op; mpz_b_2_op;
    mpz_xor_op; mpz_ior_op; mpz_nor_op; mpz_eqv_op; mpz_b_c2_op; mpz_orc2_op;
    mpz_b_c1_op; mpz_orc1_op; mpz_nand_op; mpz_b_set_op ].

Definition fixnum_operation (op : Z) : Z → Z → Z :=
  nth (Z.to_nat op) fixnum_operations b_clr_op.
Definition bignum_operation (op : Z) : Z → Z → Z :=
  nth (Z.to_nat op) bignum_operations mpz_b_clr_op.

(** ** BOOLE *)

Definition mkcl_boole (op : Z) (x y : obj) : M obj :=
  match x with
  | OFix i =>
      match y with
      | OFix j => mret (MKCL_MAKE_FIXNUM (fixnum_operation op i j))
      | OBig _ j => _mkcl_big_register_normalize (bignum_operation op i j)
      | _ => raise (FEtype_error_integer y)
      end
  | OBig _ i =>
      match y with
      | OFix j => _mkcl_big_register_normalize (bignum_operation op i j)
      | OBig _ j => _mkcl_big_register_normalize (bignum_operation op i j)
      | _ => raise (FEtype_error_integer y)
      end
  | _ => raise (FEtype_error_integer x)
  end.

(** [log_op], whose arguments are [x] and then [ys]. *)
Fixpoint log_op_loop (op : Z) (x : obj) (ys : list obj) : M obj :=
  match ys with
  | [] => mret x
  | y :: ys' => x' ← mkcl_boole op x y; log_op_loop op x' ys'
  end.

Definition log_op (op : Z) (x : obj) (ys : list obj) : M obj :=
  match ys with
  | [] => mkcl_assert_type_integer x;; mret x
  | _ => log_op_loop op x ys
  end.

Definition mk_cl_logior (nums : list obj) : M obj :=
  match nums with [] => mret (MKCL_MAKE_FIXNUM 0) | x :: ys => log_op MKCL_BOOLIOR x ys end.
Definition mk_cl_logxor (nums : list obj) : M obj :=
  match nums with [] => mret (MKCL_MAKE_FIXNUM 0) | x :: ys => log_op MKCL_BOOLXOR x ys end.
Definition mk_cl_logand (nums : list obj) : M obj :=
  match nums with [] => mret (MKCL_MAKE_FIXNUM (-1)) | x :: ys => log_op MKCL_BOOLAND x ys end.
Definition mk_cl_logeqv (nums : list obj) : M obj :=
  match nums with [] => mret (MKCL_MAKE_FIXNUM (-1)) | x :: ys => log_op MKCL_BOOLEQV x ys end.
Definition mk_cl_lognand (x y : obj) : M obj := mkcl_boole MKCL_BOOLNAND x y.
Definition mk_cl_lognor (x y : obj) : M obj := mkcl_boole MKCL_BOOLNOR x y.
Definition mk_cl_logandc1 (x y : obj) : M obj := mkcl_boole MKCL_BOOLANDC1 x y.
Definition mk_cl_logandc2 (x y : obj) : M obj := mkcl_boole MKCL_BOOLANDC2 x y.
Definition mk_cl_logorc1 (x y : obj) : M obj := mkcl_boole MKCL_BOOLORC1 x y.
Definition mk_cl_logorc2 (x y : obj) : M obj := mkcl_boole MKCL_BOOLORC2 x y.
Definition mk_cl_lognot (x : obj) : M obj := mk_cl_logxor [x; MKCL_MAKE_FIXNUM (-1)].

Definition coerce_to_logical_operator (o : obj) : M Z :=
  op ← mkcl_integer_to_word o;
  if (op <? 0) || (MKCL_BOOLSET <? op)
  then raise (FEerror "~S is an invalid logical operator." [o])
  else mret op.

Definition mk_cl_boole (o x y : obj) : M obj :=
  op ← coerce_to_logical_operator o; mkcl_boole op x y.

(** ** Counting bits *)

(** [for (count=0 ; j ; j >>= 1) if (j & 1) count++;] *)
Fixpoint count_bits_loop (fuel : nat) (j count : Z) : Z :=
  match fuel with
  | O => count
  | S n => if j =? 0 then count
           else count_bits_loop n (Z.shiftr j 1)
                  (if Z.land j 1 =? 0 then count else count + 1)
  end.

Definition count_bits (x : obj) : M Z :=
  match x with
  | OFix i =>
      let j := if i <? 0 then Z.lnot i else i in
      mret (count_bits_loop (Z.to_nat MKCL_WORD_BITS) j 0)
  | OBig _ z =>
      if 0 <=? mpz_sgn z then mret (mpz_popcount z)
      else mret (mpz_popcount (mpz_com z))
  | _ => raise (FEtype_error_integer x)
  end.

Definition mk_cl_logcount (x : obj) : M obj :=
  c ← count_bits x; mret (MKCL_MAKE_FIXNUM c).

(** [for (count = 0; i && (count < MKCL_WORD_BITS); i >>= 1, count++);] *)
Fixpoint word_bit_length_loop (fuel : nat) (i count : Z) : Z :=
  match fuel with
  | O => count
  | S n => if (i =? 0) || negb (count <? MKCL_WORD_BITS) then count
           else word_bit_length_loop n (Z.shiftr i 1) (count + 1)
  end.

Definition mkcl_word_bit_length (i : Z) : Z :=
  let i := if i <? 0 then Z.lnot i else i in
  word_bit_length_loop (Z.to_nat MKCL_WORD_BITS) i 0.

(** The count is an [int], which a bignum of more than [2^31] bits would
    overflow; the model keeps the integer. *)
Definition mkcl_integer_length (x : obj) : M Z :=
  match x with
  | OFix i => mret (mkcl_word_bit_length i)
  | OBig _ z =>
      x' ← (if mpz_sgn z <? 0 then mk_cl_lognot x else mret x);
      match x' with
      | OBig _ z' => mret (mpz_sizeinbase z' 2)
      | _ => raise Segfault      (* the limbs of an object that is no bignum *)
      end
  | _ => raise (FEtype_error_integer x)
  end.

Definition mk_cl_integer_length (x : obj) : M obj :=
  c ← mkcl_integer_length x; mret (MKCL_MAKE_FIXNUM c).

(** ** Shifts *)

(** [((((mkcl_word) 1) << w) - 1) << (MKCL_WORD_BITS - 1 - w)] *)
Definition shift_out_mask (w : Z) : Z :=
  swrap (Z.shiftl (swrap (swrap (Z.shiftl 1 w) - 1)) (MKCL_WORD_BITS - 1 - w)).

(** Left shift if [w > 0], right shift if [w < 0]; [w] is a [mkcl_word]. *)
Definition mkcl_ash (x : obj) (w : Z) : M obj :=
  if w =? 0 then mret x
  else if w <? 0 then
    let bits := uwrap (- w) in
    match x with
    | OFix y =>
        mret (MKCL_MAKE_FIXNUM
          (if MKCL_WORD_BITS <=? bits then (if y <? 0 then -1 else 0) else Z.shiftr y bits))
    | OBig _ z => _mkcl_big_register_normalize (mpz_div_2exp z bits)
    | _ => raise Segfault
    end
  else
    match x with
    | OFix i =>
        if (MKCL_WORD_BITS - 2 <=? w) || negb (Z.land (fixnum_bits i) (shift_out_mask w) =? 0)
        then _mkcl_big_register_normalize (mpz_mul_2exp i w)
        else mret (MKCL_MAKE_FIXNUM (swrap (Z.shiftl i w)))
    | OBig _ z => _mkcl_big_register_normalize (mpz_mul_2exp z w)
    | _ => raise Segfault
    end.

Definition mk_cl_ash (x y : obj) : M obj :=
  mkcl_assert_type_integer x;; mkcl_assert_type_integer y;;
  match y with
  | OFix w => mkcl_ash x w
  | OBig _ zy =>
      let sign_x := match x with
                    | OFix n => if n <? 0 then -1 else if n =? 0 then 0 else 1
                    | OBig _ z => mpz_sgn z
                    | _ => 0
                    end in
      if mpz_sgn zy <? 0 then
        (if sign_x <? 0 then mret (MKCL_MAKE_FIXNUM (-1)) else mret (MKCL_MAKE_FIXNUM 0))
      else if sign_x =? 0 then mret x
      else raise (FEerror "Insufficient memory." [])
  | _ => raise (FEtype_error_integer y)
  end.

(** LOGBITP; the result is the C flag. *)
Definition mk_cl_logbitp (p x : obj) : M bool :=
  mkcl_assert_type_integer x;;
  match p with
  | OFix _ =>
      n ← mkcl_integer_to_index p;
      match x with
      | OFix y =>
          mret (if MKCL_WORD_BITS <=? n then y <? 0
                else negb (Z.land (Z.shiftr y n) 1 =? 0))
      | OBig _ z => mret (mpz_tstbit z n)
      | _ => raise (FEtype_error_integer x)
      end
  | _ =>
      mkcl_assert_type_non_negative_integer p;;
      match x with
      | OFix y => mret (y <? 0)
      | OBig _ z => mret (mpz_sgn z <? 0)
      | _ => raise (FEtype_error_integer x)
      end
  end.
End with_gmp.

(** ** The operators bit by bit *)

(** The bits of an operation code are its truth table: bit 0 is the result at
    (1,1), bit 1 at (1,0), bit 2 at (0,1) and bit 3 at (0,0). *)
Definition boole_bit (op : Z) (a b : bool) : bool :=
  Z.testbit op (if a then (if b then 0 else 1) else (if b then 2 else 3)).

(** The operation as a function on integers. *)
Definition boole_val (op x y : Z) : Z := fixnum_operation op x y.

Ltac split_op op :=
  let H := fresh in
  assert (op = 0 ∨ op = 1 ∨ op = 2 ∨ op = 3 ∨ op = 4 ∨ op = 5 ∨ op = 6 ∨ op = 7 ∨
          op = 8 ∨ op = 9 ∨ op = 10 ∨ op = 11 ∨ op = 12 ∨ op = 13 ∨ op = 14 ∨ op = 15)
    as H by lia;
  repeat destruct H as [H|H]; subst op.

Lemma boole_val_bit op x y i :
  0 ≤ op ≤ 15 → 0 ≤ i →
  Z.testbit (boole_val op x y) i = boole_bit op (Z.testbit x i) (Z.testbit y i).
Proof.
  intros Hop Hi.
  split_op op; unfold boole_val, fixnum_operation, boole_bit; simpl;
    unfold b_clr_op, and_op, andc2_op, b_1_op, andc1_op, b_2_op, xor_op, ior_op, nor_op,
      eqv_op, b_c2_op, orc2_op, b_c1_op, orc1_op, nand_op, b_set_op;
    rewrite ?Z.lnot_spec, ?Z.land_spec, ?Z.lor_spec, ?Z.lxor_spec, ?Z.lnot_spec, ?Z.bits_0,
      ?Z.bits_m1 by done;
    by destruct (Z.testbit x i), (Z.testbit y i).
Qed.

(** A fixnum is an integer whose bits from 61 on are its sign. *)
Lemma is_fixnum_bits n :
  is_fixnum n ↔ ∀ i, 61 ≤ i → Z.testbit n i = Z.testbit n 61.
Proof.
  assert (Hq : is_fixnum n ↔ n / 2 ^ 61 = 0 ∨ n / 2 ^ 61 = -1).
  { unfold_words. pose proof (Z.div_mod n (2 ^ 61)). pose proof (Z.mod_pos_bound n (2 ^ 61)). lia. }
  rewrite Hq, <- Z.shiftr_div_pow2 by lia. split.
  - intros H i Hi.
    assert (Hb : ∀ j, 61 ≤ j → Z.testbit n j = Z.testbit (Z.shiftr n 61) (j - 61)).
    { intros j Hj. rewrite Z.shiftr_spec by lia. f_equal. lia. }
    rewrite !Hb by lia. destruct H as [->| ->]; [by rewrite !Z.bits_0|].
    by rewrite !Z.bits_m1 by lia.
  - intros H. destruct (Z.testbit n 61) eqn:E; [right|left];
      apply Z.bits_inj'; intros i Hi; rewrite Z.shiftr_spec, H by lia;
      [by rewrite Z.bits_m1|by rewrite Z.bits_0].
Qed.

Lemma boole_val_fixnum op x y :
  0 ≤ op ≤ 15 → is_fixnum x → is_fixnum y → is_fixnum (boole_val op x y).
Proof.
  rewrite !is_fixnum_bits. intros Hop Hx Hy i Hi.
  rewrite !boole_val_bit by lia. by rewrite Hx, Hy by done.
Qed.

(** The result is a fixnum exactly where the word operation is defined on the
    fixnums, so ASH, whose test on the bits shifted out is the one below, is
    exact when that test sees every lost bit. *)
Definition ash_overflows (x : obj) (w : Z) : bool :=
  match x with
  | OFix n => (0 <? w) && (w <? MKCL_WORD_BITS - 2) &&
              (n <? MKCL_MOST_NEGATIVE_FIXNUM + 2 ^ (MKCL_WORD_BITS - 3 - w))
  | _ => false
  end.

Lemma shift_out_mask_eq w :
  0 < w < 62 → shift_out_mask w = Z.shiftl (Z.ones w) (63 - w).
Proof.
  intros Hw. unfold shift_out_mask. unfold MKCL_WORD_BITS.
  replace (64 - 1 - w) with (63 - w) by lia.
  assert (2 ^ 1 ≤ 2 ^ w ≤ 2 ^ 62) by (split; apply Z.pow_le_mono_r; lia).
  rewrite Z.shiftl_1_l, (swrap_small (2 ^ w)) by (unfold_words; lia).
  rewrite Z.ones_equiv, <- Z.sub_1_r.
  rewrite (swrap_small (2 ^ w - 1)) by (unfold_words; lia).
  rewrite swrap_small; [done|]. rewrite Z.shiftl_mul_pow2 by lia.
  assert (2 ^ w * 2 ^ (63 - w) = 2 ^ 63) by (rewrite <- Z.pow_add_r by lia; f_equal; lia).
  assert (0 < 2 ^ (63 - w)) by (apply Z.pow_pos_nonneg; lia).
  unfold_words. nia.
Qed.

Lemma land_shiftl_ones a w k :
  0 ≤ w → 0 ≤ k → Z.land a (Z.shiftl (Z.ones w) k) = (a / 2 ^ k) mod 2 ^ w * 2 ^ k.
Proof.
  intros Hw Hk. rewrite <- Z.land_ones, <- Z.shiftr_div_pow2, <- Z.shiftl_mul_pow2 by done.
  apply Z.bits_inj'. intros i Hi. rewrite Z.land_spec, !Z.shiftl_spec by done.
  destruct (Z.ltb_spec i k).
  - rewrite !(Z.testbit_neg_r _ (i - k)) by lia. by rewrite andb_false_r.
  - rewrite Z.land_spec, Z.shiftr_spec by lia. by replace (i - k + k) with i by lia.
Qed.

Lemma fixnum_bits_eq n : is_fixnum n → fixnum_bits n = 4 * n + 3.
Proof.
  intros H. unfold fixnum_bits. unfold_words. rewrite Z.shiftl_mul_pow2 by lia.
  change (2 ^ 2) with 4. rewrite lor_tag by apply swrap_shift2_mod4.
  rewrite swrap_small by (unfold_words; lia). lia.
Qed.

(** The test of [mkcl_ash] on the bits that a left shift loses. *)
Lemma shift_out_test n w :
  is_fixnum n → 0 < w < 62 →
  Z.land (fixnum_bits n) (shift_out_mask w) = 0 ↔
  0 ≤ n < 2 ^ (61 - w) ∨ n < MKCL_MOST_NEGATIVE_FIXNUM + 2 ^ (61 - w).
Proof.
  intros Hn Hw. rewrite shift_out_mask_eq, land_shiftl_ones, fixnum_bits_eq by (done || lia).
  assert (Hp : 0 < 2 ^ (63 - w)) by (apply Z.pow_pos_nonneg; lia).
  assert (Hq : (4 * n + 3) / 2 ^ (63 - w) = n / 2 ^ (61 - w)).
  { replace (63 - w) with (2 + (61 - w)) by lia.
    rewrite Z.pow_add_r, <- Z.div_div by (try apply Z.pow_pos_nonneg; lia).
    f_equal. change (2 ^ 2) with 4. rewrite Z.mul_comm, Z.div_add_l by lia. change (3 / 4) with 0. lia. }
  rewrite Hq.
  assert (Hp' : 0 < 2 ^ (61 - w)) by (apply Z.pow_pos_nonneg; lia).
  assert (Hw' : 0 < 2 ^ w) by (apply Z.pow_pos_nonneg; lia).
  assert (Hm : 2 ^ w * 2 ^ (61 - w) = 2 ^ 61) by (rewrite <- Z.pow_add_r by lia; f_equal; lia).
  pose proof (Z.div_mod n (2 ^ (61 - w))) as Hdm.
  pose proof (Z.mod_pos_bound n (2 ^ (61 - w)) Hp') as Hmb.
  set (q := n / 2 ^ (61 - w)) in *. unfold_words.
  assert (- 2 ^ w ≤ q < 2 ^ w) by nia.
  assert (Hz : q mod 2 ^ w * 2 ^ (63 - w) = 0 ↔ q = 0 ∨ q = - 2 ^ w).
  { rewrite Z.mul_eq_0. split.
    - intros [H0|?]; [|lia]. apply Z.mod_divide in H0 as [c Hc]; [|lia].
      assert (c = 0 ∨ c = -1) as [-> | ->] by nia; lia.
    - intros [->| ->]; left; [apply Z.mod_0_l; lia|].
      replace (- 2 ^ w) with ((-1) * 2 ^ w) by lia. apply Z.mod_mul; lia. }
  rewrite Hz. nia.
Qed.

(** ** Properties *)

Section properties.
Context `{!GMP} `{!GMPSpec}.

Lemma bignum_operation_eq op x y :
  0 ≤ op ≤ 15 → bignum_operation op x y = boole_val op x y.
Proof.
  intros Hop. split_op op; unfold boole_val, bignum_operation, fixnum_operation; simpl;
    unfold mpz_orc2_op, mpz_andc2_op, mpz_b_clr_op, mpz_and_op, mpz_b_1_op, mpz_andc1_op,
      mpz_b_2_op, mpz_xor_op, mpz_ior_op, mpz_nor_op, mpz_eqv_op, mpz_b_c2_op, mpz_b_c1_op,
      mpz_orc1_op, mpz_nand_op, mpz_b_set_op, mpz_andc1_op;
    rewrite ?mpz_com_eq, ?mpz_and_eq, ?mpz_ior_eq, ?mpz_xor_eq, ?mpz_com_eq;
    unfold b_clr_op, and_op, andc2_op, b_1_op, andc1_op, b_2_op, xor_op, ior_op, nor_op,
      eqv_op, b_c2_op, orc2_op, b_c1_op, orc1_op, nand_op, b_set_op; try done;
    apply Z.bits_inj'; intros i Hi;
    rewrite ?Z.lnot_spec, ?Z.land_spec, ?Z.lor_spec, ?Z.lxor_spec, ?Z.lnot_spec by done;
    by destruct (Z.testbit x i), (Z.testbit y i).
Qed.

Lemma boole_gives op x y zx zy h :
  0 ≤ op ≤ 15 → is_int x zx → is_int y zy →
  gives_int (mkcl_boole op x y) h (boole_val op zx zy).
Proof.
  intros Hop [Hx Hwx] [Hy Hwy].
  destruct x, y; simplify_eq/=; rewrite ?bignum_operation_eq by done; auto with mkcl.
  apply gives_int_ret, is_int_MAKE_FIXNUM. by apply boole_val_fixnum.
Qed.

Lemma log_op_loop_gives op x ys z zs h :
  0 ≤ op ≤ 15 → is_int x z → Forall2 is_int ys zs →
  gives_int (log_op_loop op x ys) h (fold_left (boole_val op) zs z).
Proof.
  intros Hop Hx Hys. revert x z h Hx.
  induction Hys as [|y z' ys zs Hy _ IH]; intros x z h Hx; simpl; [by apply gives_int_ret|].
  destruct (boole_gives op x y z z' h) as (r & h1 & E & Hr & Hs); [done..|].
  destruct (IH r _ h1 Hr) as (r' & h2 & E' & Hr' & Hs').
  exists r', h2. rewrite (bind_Done _ _ _ _ _ E). split_and!; [done..|by etrans].
Qed.

Lemma log_op_gives op x ys z zs h :
  0 ≤ op ≤ 15 → is_int x z → Forall2 is_int ys zs →
  gives_int (log_op op x ys) h (fold_left (boole_val op) zs z).
Proof.
  intros Hop Hx Hys. inversion Hys; subst.
  - destruct x; destruct Hx as [Hv Hw]; simplify_eq/=; by apply gives_int_ret.
  - by apply log_op_loop_gives.
Qed.

(** C14: BOOLE computes each of its sixteen operations bit by bit, by the truth
    table that the operation code is, on any mix of fixnums and bignums; the
    result is normalised (a fixnum exactly when it fits). *)
Theorem mkcl_boole_truth_table op x y zx zy h :
  0 ≤ op ≤ 15 → is_int x zx → is_int y zy →
  ∃ z, gives_int (mkcl_boole op x y) h z ∧
       ∀ i, 0 ≤ i → Z.testbit z i = boole_bit op (Z.testbit zx i) (Z.testbit zy i).
Proof.
  intros Hop Hx Hy. exists (boole_val op zx zy). split.
  - by apply boole_gives.
  - intros i Hi. by apply boole_val_bit.
Qed.

(** LOGIOR, LOGXOR, LOGAND and LOGEQV of any number of integers are the
    folds of the binary operations from their identities. *)
Theorem log_nary_folds nums zs h :
  Forall2 is_int nums zs →
  gives_int (mk_cl_logior nums) h (fold_left Z.lor zs 0) ∧
  gives_int (mk_cl_logxor nums) h (fold_left Z.lxor zs 0) ∧
  gives_int (mk_cl_logand nums) h (fold_left Z.land zs (-1)) ∧
  gives_int (mk_cl_logeqv nums) h (fold_left (λ a b, Z.lnot (Z.lxor a b)) zs (-1)).
Proof.
  intros Hn. inversion Hn as [|x z ys zs' Hx Hys]; subst; simpl.
  - split_and!; apply gives_int_ret; by apply is_int_MAKE_FIXNUM.
  - split_and!.
    + rewrite Z.lor_0_l. by apply (log_op_gives MKCL_BOOLIOR x ys z zs').
    + rewrite Z.lxor_0_l. by apply (log_op_gives MKCL_BOOLXOR x ys z zs').
    + rewrite Z.land_m1_l. by apply (log_op_gives MKCL_BOOLAND x ys z zs').
    + rewrite Z.lxor_m1_l, Z.lnot_involutive.
      by apply (log_op_gives MKCL_BOOLEQV x ys z zs').
Qed.

(** *** Counting *)

Lemma bits_set_0 n : bits_set 0 n = 0.
Proof. induction n as [|n IH]; [done|]. rewrite bits_set_S, IH, Z.bits_0. done. Qed.

Lemma bits_set_shift j n :
  0 ≤ j → bits_set j (S n) = Z.b2z (Z.testbit j 0) + bits_set (Z.shiftr j 1) n.
Proof.
  intros Hj. induction n as [|n IH].
  - rewrite bits_set_S. unfold bits_set at 1 2. simpl. lia.
  - rewrite bits_set_S, IH, (bits_set_S (Z.shiftr j 1)), Z.shiftr_spec by lia.
    replace (Z.of_nat n + 1) with (Z.of_nat (S n)) by lia. lia.
Qed.

Lemma count_bits_loop_spec n j c :
  0 ≤ j → count_bits_loop n j c = c + bits_set j n.
Proof.
  revert j c. induction n as [|n IH]; intros j c Hj; simpl; [unfold bits_set; simpl; lia|].
  destruct (Z.eqb_spec j 0) as [->|Hj0]; [rewrite bits_set_0; lia|].
  rewrite IH, bits_set_shift by (done || by apply Z.shiftr_nonneg).
  replace (Z.land j 1) with (Z.land j (Z.ones 1)) by done. rewrite Z.land_ones by lia. change (2 ^ 1) with 2.
  rewrite Zmod_odd, Z.bit0_odd. destruct (Z.odd j); simpl; lia.
Qed.

(** LOGCOUNT counts the one bits of a non-negative integer and the zero
    bits of a negative one. *)
Theorem logcount_counts x z n h :
  is_int x z → - 2 ^ Z.of_nat n ≤ z < 2 ^ Z.of_nat n → Z.of_nat n < 2 ^ 32 →
  mk_cl_logcount x h =
    Done (OFix (bits_set (if z <? 0 then Z.lnot z else z) n)) h.
Proof.
  intros [Hx Hw] Hz Hn.
  assert (Hb : is_fixnum (bits_set (if z <? 0 then Z.lnot z else z) n)).
  { unfold bits_set. set (l := filter _ _).
    assert (length l ≤ n)%nat.
    { unfold l. etrans; [apply length_filter|]. by rewrite length_seq. }
    unfold_words. lia. }
  assert (Hj : 0 ≤ (if z <? 0 then Z.lnot z else z) < 2 ^ Z.of_nat n).
  { unfold Z.lnot. zbool; lia. }
  unfold mk_cl_logcount, count_bits, MKCL_MAKE_FIXNUM.
  destruct x; try discriminate; injection Hx as ->.
  - rewrite bind_ret, count_bits_loop_spec by lia. cbn [Z.add].
    replace (bits_set (if z <? 0 then Z.lnot z else z) (Z.to_nat MKCL_WORD_BITS))
      with (bits_set (if z <? 0 then Z.lnot z else z) n); [by rewrite fixnum_wrap_small|].
    destruct (decide (n ≤ 64)%nat).
    + symmetry. apply bits_set_high; [done|]. change (Z.to_nat MKCL_WORD_BITS) with 64%nat. lia.
    + apply bits_set_high; [|change (Z.to_nat MKCL_WORD_BITS) with 64%nat; lia].
      change (Z.of_nat (Z.to_nat MKCL_WORD_BITS)) with 64.
      cbn in Hw. unfold Z.lnot. unfold_words. destruct (Z.ltb_spec z 0); lia.
  - rewrite mpz_sgn_eq.
    replace (0 <=? Z.sgn z) with (negb (z <? 0))
      by (zbool; try done; destruct (Z.sgn_spec z) as [[]|[[]|[]]]; lia).
    destruct (z <? 0); simpl negb; cbv iota; rewrite bind_ret, ?mpz_com_eq, (mpz_popcount_eq _ n) by done;
      by rewrite fixnum_wrap_small.
Qed.

(** The length of the two's complement representation, without the sign. *)
Definition signed_length (z : Z) : Z :=
  let j := if z <? 0 then Z.lnot z else z in if j =? 0 then 0 else Z.log2 j + 1.

Lemma word_bit_length_loop_spec n i c :
  0 ≤ i < 2 ^ Z.of_nat n → c + Z.of_nat n ≤ 64 →
  word_bit_length_loop n i c = c + (if i =? 0 then 0 else Z.log2 i + 1).
Proof.
  revert i c. induction n as [|n IH]; intros i c Hi Hc.
  - simpl in *. assert (i = 0) as -> by lia. simpl. lia.
  - rewrite Nat2Z.inj_succ, Z.pow_succ_r in Hi by lia. cbn [word_bit_length_loop].
    destruct (Z.eqb_spec i 0) as [->|Hi0]; simpl; [lia|].
    destruct (Z.ltb_spec c MKCL_WORD_BITS); simpl; [|unfold_words; lia].
    rewrite IH; [|rewrite Z.shiftr_div_pow2 by lia; change (2 ^ 1) with 2;
      pose proof (Z.div_mod i 2); pose proof (Z.mod_pos_bound i 2); lia|lia].
    destruct (Z.eqb_spec (Z.shiftr i 1) 0) as [E|E].
    + rewrite Z.shiftr_div_pow2 in E by lia. change (2 ^ 1) with 2 in E.
      assert (i = 1) as -> by (pose proof (Z.div_mod i 2); pose proof (Z.mod_pos_bound i 2); lia).
      simpl. lia.
    + rewrite Z.log2_shiftr by lia.
      destruct (decide (i = 1)) as [->|]; [by rewrite Z.shiftr_div_pow2 in E|].
      assert (1 ≤ Z.log2 i) by (apply Z.log2_le_pow2; lia). lia.
Qed.

Lemma signed_length_least z :
  0 ≤ signed_length z ∧ - 2 ^ signed_length z ≤ z < 2 ^ signed_length z ∧
  ∀ j, 0 ≤ j → - 2 ^ j ≤ z < 2 ^ j → signed_length z ≤ j.
Proof.
  unfold signed_length.
  assert (Hj : ∀ j, - 2 ^ j ≤ z < 2 ^ j ↔ (if z <? 0 then Z.lnot z else z) < 2 ^ j ∧ - 2 ^ j ≤ z < 2 ^ j).
  { intros j. unfold Z.lnot. zbool; lia. }
  set (y := if z <? 0 then Z.lnot z else z) in *.
  assert (Hy : 0 ≤ y) by (unfold y, Z.lnot; zbool; lia).
  destruct (Z.eqb_spec y 0) as [E|E].
  - split_and!; [lia| | |lia]; unfold y, Z.lnot in E; revert E; zbool; lia.
  - pose proof (Z.log2_nonneg y). pose proof (Z.log2_spec y ltac:(lia)) as [Hl Hu].
    rewrite <- Z.add_1_r in Hu. split_and!; [lia| | |].
    1-2: clear Hj Hl; remember (2 ^ (Z.log2 y + 1)) as e eqn:He; clear He;
      unfold y, Z.lnot in *; destruct (Z.ltb_spec z 0); lia.
    intros j Hj0 Hb. apply Hj in Hb as [Hb _]. apply Z.log2_lt_pow2 in Hb; lia.
Qed.

Lemma lognot_gives x z h :
  is_int x z → gives_int (mk_cl_lognot x) h (Z.lnot z).
Proof.
  intros Hx. rewrite <- Z.lxor_m1_r.
  apply (log_op_gives MKCL_BOOLXOR x [MKCL_MAKE_FIXNUM (-1)] z [-1]); [done..|].
  constructor; [by apply is_int_MAKE_FIXNUM|constructor].
Qed.

Lemma integer_length_eq x z h :
  is_int x z → ∃ h', mkcl_integer_length x h = Done (signed_length z) h' ∧ h ⊆ h'.
Proof.
  intros [Hx Hw]. destruct x; try discriminate; injection Hx as ->; cbn in Hw.
  - exists h. split; [|done]. unfold mkcl_integer_length, mkcl_word_bit_length.
    rewrite word_bit_length_loop_spec; [done| |done].
    change (Z.of_nat (Z.to_nat MKCL_WORD_BITS)) with 64.
    unfold Z.lnot. unfold_words. destruct (Z.ltb_spec z 0); lia.
  - cbn [mkcl_integer_length]. rewrite mpz_sgn_eq.
    replace (Z.sgn z <? 0) with (z <? 0)
      by (destruct (Z.ltb_spec z 0), (Z.ltb_spec (Z.sgn z) 0); lia).
    unfold signed_length. destruct (Z.ltb_spec z 0).
    + destruct (lognot_gives (OBig a z) z h) as (r & h' & E & [Hv Hr] & Hs); [done|].
      exists h'. rewrite (bind_Done _ _ _ _ _ E).
      destruct r; try discriminate; injection Hv as ->; cbn in Hr;
        unfold Z.lnot in *; unfold_words; [lia|].
      split; [|done]. rewrite mpz_sizeinbase_2_eq by lia.
      destruct (Z.eqb_spec (Z.pred (- z)) 0); [lia|done].
    + exists h. split; [|done]. rewrite bind_ret. unfold_words.
      rewrite mpz_sizeinbase_2_eq by lia.
      destruct (Z.eqb_spec z 0); [lia|done].
Qed.

(** INTEGER-LENGTH is the least [k] such that the integer fits a signed
    representation of [k] bits and a sign. *)
Theorem integer_length_least x z h :
  is_int x z → Z.log2 (Z.abs z) < 2 ^ 31 - 1 →
  ∃ k h', mk_cl_integer_length x h = Done (OFix k) h' ∧ h ⊆ h' ∧
    0 ≤ k < 2 ^ 31 ∧ - 2 ^ k ≤ z < 2 ^ k ∧
    ∀ j, 0 ≤ j → - 2 ^ j ≤ z < 2 ^ j → k ≤ j.
Proof.
  intros Hx Hz. destruct (integer_length_eq x z h Hx) as (h' & E & Hs).
  destruct (signed_length_least z) as (Hp & Hb & Hl).
  assert (signed_length z < 2 ^ 31).
  { unfold signed_length, Z.lnot in *. destruct (Z.ltb_spec z 0).
    - destruct (Z.eqb_spec (Z.pred (- z)) 0); [lia|].
      assert (Z.log2 (Z.pred (- z)) ≤ Z.log2 (Z.abs z)) by (apply Z.log2_le_mono; lia). lia.
    - rewrite Z.abs_eq in Hz by lia. destruct (Z.eqb_spec z 0); lia. }
  exists (signed_length z), h'. unfold mk_cl_integer_length.
  rewrite (bind_Done _ _ _ _ _ E). split_and!; try done; [|lia..].
  unfold MKCL_MAKE_FIXNUM. by rewrite fixnum_wrap_small by (unfold_words; lia).
Qed.

(** *** Shifts *)

Lemma shiftr_large z n : - 2 ^ n ≤ z < 2 ^ n → 0 ≤ n → Z.shiftr z n = if z <? 0 then -1 else 0.
Proof.
  intros Hz Hn. rewrite Z.shiftr_div_pow2 by done.
  assert (0 < 2 ^ n) by (apply Z.pow_pos_nonneg; lia).
  destruct (Z.ltb_spec z 0).
  - symmetry. apply (Z.div_unique z _ (-1) (z + 2 ^ n)); lia.
  - apply Z.div_small. lia.
Qed.

Lemma mkcl_ash_right x z w h :
  is_int x z → - half_modulus < w < 0 → gives_int (mkcl_ash x w) h (Z.shiftr z (- w)).
Proof.
  intros [Hx Hw] Hw'. unfold mkcl_ash.
  rewrite (proj2 (Z.eqb_neq w 0)), (proj2 (Z.ltb_lt w 0)), uwrap_small by (unfold_words; lia).
  destruct x; try discriminate; injection Hx as ->; cbn in Hw.
  - apply gives_int_ret. unfold MKCL_WORD_BITS. destruct (Z.leb_spec 64 (- w)).
    + rewrite shiftr_large; [apply is_int_MAKE_FIXNUM; unfold_words; zbool; lia| |lia].
      assert (2 ^ 64 ≤ 2 ^ (- w)) by (apply Z.pow_le_mono_r; lia). unfold_words. lia.
    + apply is_int_MAKE_FIXNUM. rewrite Z.shiftr_div_pow2 by lia.
      assert (0 < 2 ^ (- w)) by (apply Z.pow_pos_nonneg; lia).
      pose proof (Z.div_mod z (2 ^ (- w))). pose proof (Z.mod_pos_bound z (2 ^ (- w))).
      unfold_words. nia.
  - rewrite mpz_div_2exp_eq, <- Z.shiftr_div_pow2 by lia. auto with mkcl.
Qed.

(** The shift of a fixnum that the test lets through. *)
Lemma ash_small_test n w :
  is_fixnum n → 0 < w → 
  (MKCL_WORD_BITS - 2 <=? w) || negb (Z.land (fixnum_bits n) (shift_out_mask w) =? 0) = false →
  0 < w < 62 ∧ (0 ≤ n < 2 ^ (61 - w) ∨ n < MKCL_MOST_NEGATIVE_FIXNUM + 2 ^ (61 - w)).
Proof.
  intros Hn Hw [H1 H2]%orb_false_iff. apply Z.leb_gt in H1. unfold MKCL_WORD_BITS in H1.
  apply negb_false_iff, Z.eqb_eq, shift_out_test in H2; [|done|lia]. split; [lia|done].
Qed.

Lemma mkcl_ash_left x z w h :
  is_int x z → 0 < w → ash_overflows x w = false → gives_int (mkcl_ash x w) h (Z.shiftl z w).
Proof.
  intros [Hx Hw] Hw' Ho. unfold mkcl_ash.
  rewrite (proj2 (Z.eqb_neq w 0)), (proj2 (Z.ltb_ge w 0)) by lia.
  destruct x; try discriminate; injection Hx as ->; cbn in Hw;
    [|rewrite mpz_mul_2exp_eq, <- Z.shiftl_mul_pow2 by lia; auto with mkcl].
  destruct (_ || _) eqn:E; [rewrite mpz_mul_2exp_eq, <- Z.shiftl_mul_pow2 by lia; auto with mkcl|].
  apply ash_small_test in E as [Hw62 Hn]; [|done..].
  unfold ash_overflows in Ho. unfold MKCL_WORD_BITS in Ho.
  replace (64 - 3 - w) with (61 - w) in Ho by lia.
  destruct Hn as [Hn|Hn]; [|zbool; lia].
  assert (2 ^ (61 - w) * 2 ^ w = 2 ^ 61) by (rewrite <- Z.pow_add_r by lia; f_equal; lia).
  assert (0 < 2 ^ w) by (apply Z.pow_pos_nonneg; lia).
  assert (0 ≤ Z.shiftl z w < 2 ^ 61) by (rewrite Z.shiftl_mul_pow2 by lia; nia).
  apply gives_int_ret. rewrite swrap_small by (unfold_words; lia).
  apply is_int_MAKE_FIXNUM. unfold_words. lia.
Qed.

Lemma mkcl_ash_0 x h : mkcl_ash x 0 h = Done x h.
Proof. done. Qed.

(** C13: ASH shifts exactly, to the left and to the right, over fixnums and
    bignums, by a fixnum count, except on the fixnums of [ash_overflows]; a
    right shift by a bignum count gives the sign. *)
Theorem ash_shifts x y zx zy h :
  is_int x zx → is_int y zy →
  (is_fixnum zy ∧ ash_overflows x zy = false) ∨ (zy < 0 ∧ Z.log2 (Z.abs zx) < - zy) →
  gives_int (mk_cl_ash x y) h (Z.shiftl zx zy).
Proof.
  intros Hx Hy Hc.
  assert (Hint : ∀ o z, is_int o z → (mkcl_assert_type_integer o) h = Done tt h)
    by (intros [] ? [[=] ?]; done).
  unfold gives_int, mk_cl_ash. setoid_rewrite (bind_Done _ _ _ _ _ (Hint x zx Hx)).
  setoid_rewrite (bind_Done _ _ _ _ _ (Hint y zy Hy)).
  destruct y; destruct Hy as [Hv Hw]; try discriminate; injection Hv as ->; cbn in Hw.
  - destruct (Z.lt_trichotomy zy 0) as [?|[->|?]].
    + replace (Z.shiftl zx zy) with (Z.shiftr zx (- zy)) by (by rewrite <- Z.shiftl_opp_r, Z.opp_involutive).
      apply mkcl_ash_right; [done|]. unfold_words. lia.
    + exists x, h. done.
    + apply mkcl_ash_left; [done..|]. destruct Hc as [[? ?]|?]; [done|lia].
  - destruct Hc as [[??]|[Hneg Hlog]]; [done|]. rewrite mpz_sgn_eq, (proj2 (Z.ltb_lt _ 0)) by lia.
    assert (Hs : Z.shiftl zx zy = if zx <? 0 then -1 else 0).
    { rewrite <- (Z.opp_involutive zy), Z.shiftl_opp_r. apply shiftr_large; [|lia].
      destruct (decide (zx = 0)) as [->|]; [pose proof (Z.pow_pos_nonneg 2 (- zy)); lia|].
      apply Z.log2_lt_pow2 in Hlog; lia. }
    rewrite Hs. destruct x; destruct Hx as [Hv Hw']; try discriminate; injection Hv as ->.
    + destruct (zx <? 0); [|destruct (zx =? 0)]; simpl; eexists _, h; (split; [done|]);
        (split; [by apply is_int_MAKE_FIXNUM|done]).
    + rewrite mpz_sgn_eq. replace (Z.sgn zx <? 0) with (zx <? 0)
        by (destruct (Z.ltb_spec zx 0), (Z.ltb_spec (Z.sgn zx) 0); lia).
      destruct (zx <? 0); eexists _, h; (split; [done|]);
        (split; [by apply is_int_MAKE_FIXNUM|done]).
Qed.

(** On the fixnums of [ash_overflows], those whose lost bits are all zero
    although the sign bit is one, ASH to the left drops the sign: its result
    is the shift of [n + 2^61], a non-negative fixnum, instead of a negative
    bignum.  The test of [mkcl_ash] does not look at the sign bit. *)
Theorem ash_loses_sign n w h :
  is_fixnum n → ash_overflows (OFix n) w = true →
  mk_cl_ash (OFix n) (OFix w) h = Done (OFix (Z.shiftl (n + 2 ^ 61) w)) h ∧
  Z.shiftl n w < 0 ≤ Z.shiftl (n + 2 ^ 61) w.
Proof.
  intros Hn Ho. unfold ash_overflows in Ho. unfold MKCL_WORD_BITS in Ho.
  replace (64 - 3 - w) with (61 - w) in Ho by lia.
  apply andb_true_iff in Ho as [Ho Hlt]. apply andb_true_iff in Ho as [Hw0 H62].
  apply Z.ltb_lt in Hlt, Hw0, H62.
  assert (Hp : 2 ^ (61 - w) * 2 ^ w = 2 ^ 61) by (rewrite <- Z.pow_add_r by lia; f_equal; lia).
  assert (Hw : 2 ^ 1 ≤ 2 ^ w) by (apply Z.pow_le_mono_r; lia).
  rewrite !Z.shiftl_mul_pow2 by lia.
  assert (Hr : 0 ≤ (n + 2 ^ 61) * 2 ^ w < 2 ^ 61) by (unfold_words; nia).
  assert (0 < 2 ^ (61 - w)) by (apply Z.pow_pos_nonneg; lia).
  split; [|unfold_words; nia].
  unfold mk_cl_ash. cbn [mkcl_assert_type_integer]. rewrite !bind_ret. unfold mkcl_ash.
  rewrite (proj2 (Z.eqb_neq w 0)), (proj2 (Z.ltb_ge w 0)) by lia.
  unfold MKCL_WORD_BITS at 1. rewrite (proj2 (Z.leb_gt _ _)) by lia.
  rewrite (proj2 (Z.eqb_eq _ 0)) by (apply shift_out_test; [done|lia|by right]).
  simpl orb. cbv iota. unfold MKCL_MAKE_FIXNUM. f_equal. f_equal.
  rewrite fixnum_wrap_eq, Z.shiftl_mul_pow2 by lia.
  destruct (swrap_eq_mod (n * 2 ^ w)) as [k ->]. unfold_words.
  replace (n * 2 ^ w + k * 2 ^ 64 + 2 ^ 61)
    with ((n + 2 ^ 61) * 2 ^ w + 2 ^ 61 + (k * 4 - 2 ^ (w - 1)) * 2 ^ 62).
  - rewrite Z.mod_add, Z.mod_small by lia. lia.
  - replace w with (1 + (w - 1)) at 1 3 by lia. rewrite Z.pow_add_r by lia. lia.
Qed.

(** LOGBITP reads the bit of the two's complement representation, at an
    index of any size. *)
Theorem logbitp_testbit p x zp zx h :
  is_int p zp → is_int x zx → 0 ≤ zp → Z.log2 (Z.abs zx) < 2 ^ 61 →
  mk_cl_logbitp p x h = Done (Z.testbit zx zp) h.
Proof.
  intros [Hp Hwp] [Hx Hwx] Hzp Hl. unfold mk_cl_logbitp.
  assert (Hhigh : ∀ i, Z.log2 (Z.abs zx) < i → Z.testbit zx i = (zx <? 0)).
  { intros i Hi. destruct (Z.ltb_spec zx 0).
    - apply Z.bits_above_log2_neg; [done|]. eapply Z.le_lt_trans; [|exact Hi].
      apply Z.log2_le_mono. lia.
    - apply Z.bits_above_log2; [done|]. by rewrite <- (Z.abs_eq zx). }
  assert (Ha : mkcl_assert_type_integer x h = Done tt h) by (by destruct x).
  rewrite (bind_Done _ _ _ _ _ Ha).
  destruct p; try discriminate; injection Hp as ->; cbn in Hwp.
  - rewrite (bind_Done _ _ _ _ _ (integer_to_index_spec (OFix zp) zp h (conj eq_refl Hwp)
      ltac:(unfold_words; lia))).
    destruct x; try discriminate; injection Hx as ->; cbn in Hwx;
      [|by rewrite mpz_tstbit_eq].
    unfold MKCL_WORD_BITS. destruct (Z.leb_spec 64 zp).
    + rewrite Hhigh; [done|]. destruct (decide (zx = 0)) as [->|]; [simpl; lia|].
      assert (Z.log2 (Z.abs zx) < 64) by (apply Z.log2_lt_pow2; unfold_words; lia). lia.
    + replace (Z.land (Z.shiftr zx zp) 1) with (Z.land (Z.shiftr zx zp) (Z.ones 1)) by done.
      rewrite Z.land_ones by lia. change (2 ^ 1) with 2. rewrite Zmod_odd, <- Z.bit0_odd.
      rewrite Z.shiftr_spec by lia. rewrite Z.add_0_l. by destruct (Z.testbit zx zp).
  - cbn [mkcl_assert_type_non_negative_integer].
    rewrite mpz_sgn_eq, (proj2 (Z.leb_le 0 (Z.sgn zp))), bind_ret by lia.
    rewrite Hhigh by (unfold_words; lia).
    destruct x; try discriminate; injection Hx as ->; [done|]. rewrite mpz_sgn_eq.
    f_equal. destruct (Z.ltb_spec (Z.sgn zx) 0), (Z.ltb_spec zx 0); lia.
Qed.
End properties.


(** ** Instances *)

Lemma mkcl_boole_truth_table_witness :
  ∃ z, gives_int (mkcl_boole MKCL_BOOLANDC1 (OBig 7 (2 ^ 70)) (OFix (-5))) ∅ z ∧
       ∀ i, 0 ≤ i → Z.testbit z i =
         boole_bit MKCL_BOOLANDC1 (Z.testbit (2 ^ 70) i) (Z.testbit (-5) i).
Proof.
  apply mkcl_boole_truth_table; [unfold MKCL_BOOLANDC1; lia|..];
    (split; [done|simpl; unfold_words; lia]).
Defined.

Lemma log_nary_folds_witness :
  gives_int (mk_cl_logior [OFix 5; OFix (-8); OFix 2]) ∅ (-1) ∧
  gives_int (mk_cl_logxor [OFix 5; OFix (-8); OFix 2]) ∅ (-1) ∧
  gives_int (mk_cl_logand [OFix 5; OFix (-8); OFix 2]) ∅ 0 ∧
  gives_int (mk_cl_logeqv [OFix 5; OFix (-8); OFix 2]) ∅ (-1).
Proof.
  apply (log_nary_folds [OFix 5; OFix (-8); OFix 2] [5; -8; 2]).
  repeat constructor; simpl; unfold_words; lia.
Defined.

Lemma logcount_counts_witness :
  mk_cl_logcount (OFix (-6)) ∅ = Done (OFix 2) ∅.
Proof.
  apply (logcount_counts (OFix (-6)) (-6) 3); [split; [done|simpl; unfold_words; lia]|simpl; lia..].
Defined.

Lemma integer_length_least_witness :
  ∃ k h', mk_cl_integer_length (OBig 1 (- 2 ^ 70)) ∅ = Done (OFix k) h' ∧ ∅ ⊆ h' ∧
    0 ≤ k < 2 ^ 31 ∧ - 2 ^ k ≤ - 2 ^ 70 < 2 ^ k ∧
    ∀ j, 0 ≤ j → - 2 ^ j ≤ - 2 ^ 70 < 2 ^ j → k ≤ j.
Proof.
  apply integer_length_least; [split; [done|simpl; unfold_words; lia]|by vm_compute].
Defined.

Lemma ash_shifts_witness :
  gives_int (mk_cl_ash (OFix (2 ^ 60)) (OFix 5)) ∅ (2 ^ 65).
Proof.
  apply (ash_shifts (OFix (2 ^ 60)) (OFix 5) (2 ^ 60) 5);
    [split; [done|simpl; unfold_words; lia]..|].
  left. split; [unfold_words; lia|by vm_compute].
Defined.

Lemma ash_loses_sign_witness :
  mk_cl_ash (OFix (- 2 ^ 61)) (OFix 1) ∅ = Done (OFix 0) ∅ ∧ - 2 ^ 62 < 0 ≤ 0.
Proof.
  apply (ash_loses_sign (- 2 ^ 61) 1 ∅); [unfold_words; lia|by vm_compute].
Defined.

Lemma logbitp_testbit_witness :
  mk_cl_logbitp (OFix 70) (OBig 3 (2 ^ 70 + 1)) ∅ = Done true ∅.
Proof.
  apply (logbitp_testbit (OFix 70) (OBig 3 (2 ^ 70 + 1)) 70 (2 ^ 70 + 1));
    [split; [done|simpl; unfold_words; lia]..|lia|by vm_compute].
Defined.
