(* ===== verification/Segments.v ===== *)
(** * Segments: the lists that the conses of a heap represent

    [lseg h x l y]: from [x], following the cdrs in [h], one meets the conses
    [l] (their addresses and their cars) and then [y].  A proper list ends at
    NIL, a dotted one at another atom, a circular one at an earlier cons.  The
    predicates here are what the theorems on src/src/c/list.c are stated with. *)

From S2P Require Import Prelude Words Objects Heap.
#[local] Open Scope Z_scope.

Abbreviation cells := (list (Z * obj)).

Fixpoint lseg (h : heap) (x : obj) (l : cells) (y : obj) : Prop :=
  match l with
  | [] => x = y
  | (a, v) :: l' => x = OCons a ∧ ∃ d, h !! a = Some (CCons v d) ∧ lseg h d l' y
  end.

(** [x] is a proper list of elements [vs]. *)
Definition is_list (h : heap) (x : obj) (vs : list obj) : Prop :=
  ∃ l, lseg h x l ONil ∧ l.*2 = vs.

(** From [x] the cdrs come back to a cons met before. *)
Definition circular (h : heap) (x : obj) : Prop :=
  ∃ c l1 l2, l2 ≠ [] ∧ lseg h x l1 c ∧ lseg h c l2 c.

(** [h'] extends [h], and in it [x] is a segment to [y] with elements [vs] and
    whose conses are all new. *)
Definition fresh_lseg (h h' : heap) (x : obj) (vs : list obj) (y : obj) : Prop :=
  h ⊆ h' ∧ ∃ l, lseg h' x l y ∧ l.*2 = vs ∧ ∀ a, a ∈ l.*1 → h !! a = None.

(** ** Segments *)

Lemma lseg_app h x l1 l2 y :
  lseg h x (l1 ++ l2) y ↔ ∃ z, lseg h x l1 z ∧ lseg h z l2 y.
Proof.
  revert x. induction l1 as [|[a v] l1 IH]; intros x; simpl.
  - split; [intros H; by exists x|by intros (z & -> & H)].
  - split.
    + intros (-> & d & Ha & Hl). apply IH in Hl as (z & ? & ?). naive_solver.
    + intros (z & (-> & d & Ha & Hl) & Hz). split; [done|]. exists d. split; [done|].
      apply IH. eauto.
Qed.

Lemma lseg_cons h a v l y :
  lseg h (OCons a) ((a, v) :: l) y ↔ ∃ d, h !! a = Some (CCons v d) ∧ lseg h d l y.
Proof. simpl. naive_solver. Qed.

Lemma lseg_agree h h' x l y :
  (∀ a, a ∈ l.*1 → h !! a = h' !! a) → lseg h x l y → lseg h' x l y.
Proof.
  revert x. induction l as [|[a v] l IH]; intros x Hh; simpl; [done|].
  intros (-> & d & Ha & Hl). split; [done|]. exists d. split.
  - rewrite <- Hh; [done|]. simpl. apply elem_of_cons. by left.
  - apply IH; [|done]. intros b Hb. apply Hh. simpl. apply elem_of_cons. by right.
Qed.

Lemma lseg_elem h x l y a :
  lseg h x l y → a ∈ l.*1 → is_Some (h !! a).
Proof.
  revert x. induction l as [|[b v] l IH]; intros x; simpl; [by intros _ ?%elem_of_nil|].
  intros (-> & d & Ha & Hl) [->|Hin]%elem_of_cons; eauto.
Qed.

Lemma lseg_mono h h' x l y : h ⊆ h' → lseg h x l y → lseg h' x l y.
Proof.
  intros Hs Hl. eapply lseg_agree; [|done]. intros a Ha.
  destruct (lseg_elem _ _ _ _ _ Hl Ha) as [c Hc]. rewrite Hc. symmetry.
  by eapply lookup_weaken.
Qed.

Lemma lseg_insert_ne h a c x l y :
  a ∉ l.*1 → lseg h x l y → lseg (<[a := c]> h) x l y.
Proof.
  intros Ha. apply lseg_agree. intros b Hb. rewrite lookup_insert_ne; [done|].
  by intros ->.
Qed.

Lemma lseg_first_free h x l y : lseg h x l y → first_free h ∉ l.*1.
Proof.
  intros Hl Hin. destruct (lseg_elem _ _ _ _ _ Hl Hin) as [c Hc].
  by rewrite first_free_fresh in Hc.
Qed.

Lemma lseg_alloc h c x l y : lseg h x l y → lseg (<[first_free h := c]> h) x l y.
Proof. apply lseg_mono, insert_first_free_subseteq. Qed.

(** Two segments from the same start: one is a prefix of the other. *)
Lemma lseg_det h x l1 l2 y1 y2 :
  lseg h x l1 y1 → lseg h x l2 y2 → (length l1 ≤ length l2)%nat →
  ∃ l3, l2 = l1 ++ l3 ∧ lseg h y1 l3 y2.
Proof.
  revert x l2. induction l1 as [|[a v] l1 IH]; intros x l2; simpl.
  - intros -> Hl _. by exists l2.
  - intros (-> & d & Ha & Hl) H2 Hlen. destruct l2 as [|[b w] l2]; simpl in *; [lia|].
    destruct H2 as ([= <-] & d' & Hb & Hl2). rewrite Ha in Hb. simplify_eq.
    destruct (IH _ _ Hl Hl2) as (l3 & -> & Hl3); [lia|]. exists l3. done.
Qed.

Lemma lseg_atom_nil h x l y : MKCL_CONSP x = false → lseg h x l y → l = [] ∧ x = y.
Proof. destruct l as [|[a v] l]; simpl; [done|]. by intros ? [-> _]. Qed.

Lemma lseg_atom_unique h x l1 l2 y1 y2 :
  MKCL_CONSP y1 = false → MKCL_CONSP y2 = false →
  lseg h x l1 y1 → lseg h x l2 y2 → l1 = l2 ∧ y1 = y2.
Proof.
  intros Hy1 Hy2 H1 H2. destruct (decide (length l1 ≤ length l2)%nat).
  - destruct (lseg_det _ _ _ _ _ _ H1 H2) as (l3 & -> & Hl3); [done|].
    apply lseg_atom_nil in Hl3 as [-> ->]; [|done]. by rewrite app_nil_r.
  - destruct (lseg_det _ _ _ _ _ _ H2 H1) as (l3 & -> & Hl3); [lia|].
    apply lseg_atom_nil in Hl3 as [-> ->]; [|done]. by rewrite app_nil_r.
Qed.

(** A segment that ends at an atom meets no cons twice. *)
Lemma lseg_NoDup h x l y : MKCL_CONSP y = false → lseg h x l y → NoDup l.*1.
Proof.
  intros Hy. revert x. induction l as [|[a v] l IH]; intros x; simpl; [constructor|].
  intros (-> & d & Ha & Hl). constructor; [|by eapply IH].
  intros Hin. apply list_elem_of_fmap in Hin as ([a' w] & Heq & Hin). simpl in Heq. subst a'.
  apply list_elem_of_split in Hin as (l1 & l2 & ->).
  assert (Hfull : lseg h (OCons a) ((a, v) :: l1 ++ (a, w) :: l2) y) by (simpl; eauto).
  apply lseg_app in Hl as (z & _ & Hz).
  assert (z = OCons a) as -> by (simpl in Hz; naive_solver).
  destruct (lseg_atom_unique _ _ _ _ _ _ Hy Hy Hfull Hz) as [Heq _].
  apply (f_equal length) in Heq. simpl in Heq. rewrite length_app in Heq. simpl in Heq. lia.
Qed.

Lemma lseg_length h x l y : MKCL_CONSP y = false → lseg h x l y → (length l ≤ size h)%nat.
Proof.
  intros Hy Hl. rewrite <- (length_fmap fst l), <- (length_map_to_list h), <- (length_fmap fst).
  apply submseteq_length, NoDup_submseteq; [by eapply lseg_NoDup|].
  intros a Ha. destruct (lseg_elem _ _ _ _ _ Hl Ha) as [c Hc].
  apply list_elem_of_fmap. exists (a, c). split; [done|]. by apply elem_of_map_to_list.
Qed.

Lemma lseg_snoc h x l a v d y :
  lseg h x l (OCons a) → h !! a = Some (CCons v d) → d = y → lseg h x (l ++ [(a, v)]) y.
Proof. intros Hl Ha <-. apply lseg_app. exists (OCons a). simpl. eauto. Qed.

Lemma lseg_snoc_inv h x l a v y :
  lseg h x (l ++ [(a, v)]) y → lseg h x l (OCons a) ∧ h !! a = Some (CCons v y).
Proof.
  intros (z & Hl & Hz)%lseg_app. simpl in Hz. destruct Hz as (-> & d & ? & <-). done.
Qed.

(** Writing the cdr of the last cons of a segment. *)
Lemma lseg_set_last h x l a v y z :
  lseg h x (l ++ [(a, v)]) y → a ∉ l.*1 →
  lseg (<[a := CCons v z]> h) x (l ++ [(a, v)]) z.
Proof.
  intros [Hl Ha]%lseg_snoc_inv Hn. eapply lseg_snoc; [by apply lseg_insert_ne| |done].
  by rewrite lookup_insert_eq.
Qed.

Lemma lseg_CONSP h x l y :
  lseg h x l y → MKCL_CONSP y = false → (MKCL_CONSP x = false ↔ l = []).
Proof.
  destruct l as [|[a v] l]; simpl; [by intros -> ?|]. intros [-> _] _. done.
Qed.

Lemma is_list_nil h vs : is_list h ONil vs ↔ vs = [].
Proof.
  split; [|intros ->; by exists []]. intros ([|[a v] l] & Hl & <-); [done|].
  by destruct Hl as [[=] _].
Qed.

Lemma is_list_cons h a vs :
  is_list h (OCons a) vs ↔
  ∃ v d vs', vs = v :: vs' ∧ h !! a = Some (CCons v d) ∧ is_list h d vs'.
Proof.
  split.
  - intros ([|[b v] l] & Hl & <-); [by inversion Hl|].
    destruct Hl as ([= <-] & d & Ha & Hl). exists v, d, l.*2. split_and!; [done..|by exists l].
  - intros (v & d & ? & -> & Ha & l & Hl & <-). exists ((a, v) :: l). split; [|done].
    simpl. eauto.
Qed.

Lemma is_list_mono h h' x vs : h ⊆ h' → is_list h x vs → is_list h' x vs.
Proof. intros Hs (l & Hl & <-). exists l. split; [by eapply lseg_mono|done]. Qed.

Lemma is_list_unique h x vs vs' : is_list h x vs → is_list h x vs' → vs = vs'.
Proof.
  intros (l & Hl & <-) (l' & Hl' & <-).
  by destruct (lseg_atom_unique h x l l' ONil ONil eq_refl eq_refl Hl Hl') as [-> _].
Qed.

Lemma is_list_size h x vs : is_list h x vs → (length vs ≤ size h)%nat.
Proof. intros (l & Hl & <-). rewrite length_fmap. by eapply (lseg_length _ _ _ ONil). Qed.

Lemma fresh_is_list h h' x vs : fresh_lseg h h' x vs ONil → is_list h' x vs.
Proof. intros (_ & l & Hl & <- & _). by exists l. Qed.

Lemma fresh_lseg_nil h x : fresh_lseg h h x [] x.
Proof. split; [done|]. exists []. split_and!; [done..|]. by intros a ?%elem_of_nil. Qed.

Lemma subseteq_insert_None (h0 h : heap) a c : h0 !! a = None → h0 ⊆ h → h0 ⊆ <[a := c]> h.
Proof. intros. by apply insert_subseteq_r. Qed.

Lemma first_free_None (h0 h : heap) : h0 ⊆ h → h0 !! first_free h = None.
Proof.
  intros Hs. eapply lookup_weaken_None; [apply first_free_fresh|done].
Qed.

Lemma subseteq_alloc (h0 h : heap) c : h0 ⊆ h → h0 ⊆ <[first_free h := c]> h.
Proof. intros. etrans; [done|apply insert_first_free_subseteq]. Qed.

(** A cons in front. *)
Lemma fresh_lseg_push h0 h x v vs y :
  fresh_lseg h0 h x vs y →
  fresh_lseg h0 (<[first_free h := CCons v x]> h) (OCons (first_free h)) (v :: vs) y.
Proof.
  intros (Hs & l & Hl & <- & Hf). split; [by apply subseteq_alloc|].
  exists ((first_free h, v) :: l). split_and!; [|done|].
  - simpl. split; [done|]. exists x. rewrite lookup_insert_eq. split; [done|by apply lseg_alloc].
  - simpl. intros a [->|?]%elem_of_cons; [by apply first_free_None|auto].
Qed.

Lemma fresh_lseg_subseteq h0 h x vs y : fresh_lseg h0 h x vs y → h0 ⊆ h.
Proof. by intros [? _]. Qed.

Lemma fresh_lseg_trans h0 h1 h2 x vs z :
  h0 ⊆ h1 → fresh_lseg h1 h2 x vs z → fresh_lseg h0 h2 x vs z.
Proof.
  intros Hs (Hs' & l & Hl & Hv & Hf). split; [by etrans|]. exists l. split_and!; [done..|].
  intros a Ha. eapply lookup_weaken_None; [by apply Hf|done].
Qed.

(** ** Building a list from its head

    The loops that copy a list keep the last cons of the copy in a variable
    [tail] and write its cdr when there is one more element. *)

Definition building (h0 h : heap) (head tail : obj) (vs : list obj) (z : obj) : Prop :=
  h0 ⊆ h ∧ ∃ l a v, tail = OCons a ∧ vs = (l ++ [(a, v)]).*2 ∧
    lseg h head (l ++ [(a, v)]) z ∧ NoDup (l ++ [(a, v)]).*1 ∧
    ∀ b, b ∈ (l ++ [(a, v)]).*1 → h0 !! b = None.

Lemma NoDup_snoc_inv (l : cells) a v : NoDup (l ++ [(a, v)]).*1 → a ∉ l.*1.
Proof.
  rewrite fmap_snoc. intros Hnd. apply NoDup_app in Hnd as (_ & Hd & _).
  intros Hin. apply (Hd a Hin). simpl. by apply list_elem_of_singleton.
Qed.

Lemma building_start h0 h v z :
  h0 ⊆ h →
  building h0 (<[first_free h := CCons v z]> h) (OCons (first_free h)) (OCons (first_free h)) [v] z.
Proof.
  intros Hs. split; [by apply subseteq_alloc|].
  exists [], (first_free h), v. split_and!; try done.
  - simpl. split; [done|]. exists z. by rewrite lookup_insert_eq.
  - simpl. apply NoDup_singleton.
  - simpl. intros b ->%list_elem_of_singleton. by apply first_free_None.
Qed.

(** One more cons, allocated by [mkcl_cons] and linked by [MKCL_RPLACD]. *)
Lemma building_snoc h0 h head tail vs z w z' :
  building h0 h head tail vs z →
  ∃ h2, MKCL_RPLACD tail (OCons (first_free h)) (<[first_free h := CCons w z']> h) = Done tt h2 ∧
        building h0 h2 head (OCons (first_free h)) (vs ++ [w]) z' ∧
        h2 !! first_free h = Some (CCons w z').
Proof.
  intros (Hs & l & a & v & -> & -> & Hl & Hnd & Hf).
  set (b := first_free h). set (h1 := <[b := _]> h).
  assert (Hb : b ∉ (l ++ [(a, v)]).*1) by by eapply lseg_first_free.
  assert (Hl1 : lseg h1 head (l ++ [(a, v)]) z) by by apply lseg_insert_ne.
  pose proof (lseg_snoc_inv _ _ _ _ _ _ Hl1) as [_ Ha].
  assert (Hab : a ≠ b).
  { intros ->. apply Hb. rewrite fmap_snoc. apply elem_of_app. right. by apply list_elem_of_singleton. }
  assert (Hb2 : (<[a := CCons v (OCons b)]> h1) !! b = Some (CCons w z')).
  { rewrite lookup_insert_ne by done. unfold h1. by rewrite lookup_insert_eq. }
  exists (<[a := CCons v (OCons b)]> h1). split_and!; [by eapply RPLACD_eq| |done].
  assert (h0 !! a = None).
  { apply Hf. rewrite fmap_snoc. apply elem_of_app. right. by apply list_elem_of_singleton. }
  split; [apply subseteq_insert_None; [done|by apply subseteq_alloc]|].
  exists (l ++ [(a, v)]), b, w. split_and!; [done|by rewrite !fmap_snoc| | |].
  - eapply lseg_snoc; [|done..]. eapply lseg_set_last; [done|by eapply NoDup_snoc_inv].
  - rewrite fmap_snoc. apply NoDup_app. split_and!; [done| |apply NoDup_singleton].
    intros c Hc ->%list_elem_of_singleton. by apply Hb.
  - intros c. rewrite fmap_snoc, elem_of_app. intros [Hc| ->%list_elem_of_singleton]; [auto|].
    by apply first_free_None.
Qed.

(** The last cdr. *)
Lemma building_close h0 h head tail vs z y :
  building h0 h head tail vs z →
  ∃ h2, MKCL_RPLACD tail y h = Done tt h2 ∧ building h0 h2 head tail vs y.
Proof.
  intros (Hs & l & a & v & -> & -> & Hl & Hnd & Hf).
  pose proof (lseg_snoc_inv _ _ _ _ _ _ Hl) as [_ Ha].
  exists (<[a := CCons v y]> h). split; [by eapply RPLACD_eq|].
  split; [apply subseteq_insert_None; [|done]|].
  { apply Hf. rewrite fmap_snoc. apply elem_of_app. right. by apply list_elem_of_singleton. }
  exists l, a, v. split_and!; [done..| |done|done].
  eapply lseg_set_last; [done|by eapply NoDup_snoc_inv].
Qed.

(** Linking a list that was built after. *)
Lemma building_join h0 h head tail vs h1 root cursor ws z z' :
  building h0 h head tail vs z → building h h1 root cursor ws z' →
  ∃ h2, MKCL_RPLACD tail root h1 = Done tt h2 ∧ building h0 h2 head cursor (vs ++ ws) z'.
Proof.
  intros (Hs & l & a & v & -> & -> & Hl & Hnd & Hf) (Hs' & l' & b & w & -> & -> & Hl' & Hnd' & Hf').
  pose proof (lseg_mono _ _ _ _ _ Hs' Hl) as Hl1.
  pose proof (lseg_snoc_inv _ _ _ _ _ _ Hl1) as [_ Ha].
  assert (Hin : a ∈ (l ++ [(a, v)]).*1).
  { rewrite fmap_snoc. apply elem_of_app. right. by apply list_elem_of_singleton. }
  assert (Hdis : ∀ c, c ∈ (l ++ [(a, v)]).*1 → c ∉ (l' ++ [(b, w)]).*1).
  { intros c Hc Hc'. apply Hf' in Hc'. destruct (lseg_elem _ _ _ _ _ Hl Hc). congruence. }
  exists (<[a := CCons v root]> h1). split; [by eapply RPLACD_eq|].
  split; [apply subseteq_insert_None; [by apply Hf|by etrans]|].
  exists ((l ++ [(a, v)]) ++ l'), b, w. split_and!; [done|by rewrite <- (assoc app), !fmap_app| | |].
  - rewrite <- (assoc app). apply lseg_app. exists root. split.
    + eapply lseg_set_last; [done|by eapply NoDup_snoc_inv].
    + apply lseg_insert_ne; [by apply Hdis|done].
  - rewrite <- (assoc app), fmap_app. apply NoDup_app. done.
  - intros c. rewrite <- (assoc app), fmap_app, elem_of_app. intros [?|Hc]; [auto|].
    apply Hf' in Hc. by eapply lookup_weaken_None.
Qed.

(** Allocation of an object that the list is not made of. *)
Lemma building_extend h0 h head tail vs z c :
  building h0 h head tail vs z →
  building (<[first_free h := c]> h0) (<[first_free h := c]> h) head tail vs z.
Proof.
  intros (Hs & l & a & v & -> & -> & Hl & Hnd & Hf).
  split; [by apply insert_mono|]. exists l, a, v. split_and!; [done..|by apply lseg_alloc|done|].
  intros b Hb. rewrite lookup_insert_ne; [auto|]. intros <-. by eapply lseg_first_free.
Qed.

Lemma building_weaken h0 h1 h head tail vs z :
  h0 ⊆ h1 → building h1 h head tail vs z → building h0 h head tail vs z.
Proof.
  intros Hs (Hs' & l & a & v & -> & -> & Hl & Hnd & Hf). split; [by etrans|].
  exists l, a, v. split_and!; [done..|]. intros b Hb. eapply lookup_weaken_None; [by apply Hf|done].
Qed.

Lemma building_fresh h0 h head tail vs z :
  building h0 h head tail vs z → fresh_lseg h0 h head vs z.
Proof. intros (Hs & l & a & v & -> & -> & Hl & _ & Hf). split; [done|]. eauto. Qed.

Lemma building_subseteq h0 h head tail vs z : building h0 h head tail vs z → h0 ⊆ h.
Proof. by intros [? _]. Qed.

#[export] Hint Resolve lseg_alloc lseg_mono is_list_mono subseteq_alloc first_free_None
  building_start building_fresh fresh_lseg_nil : mkcl.

(** The heap may have grown since [x] was a segment. *)
Ltac weaken_lookup :=
  match goal with
  | H : ?h0 !! ?a = Some ?c, Hb : building ?h0 ?h _ _ _ _ |- _ =>
      lazymatch goal with
      | _ : h !! a = Some c |- _ => fail
      | _ => pose proof (lookup_weaken _ _ _ _ H (building_subseteq _ _ _ _ _ _ Hb))
      end
  | H : ?h0 !! ?a = Some ?c, Hb : fresh_lseg ?h0 ?h _ _ _ |- _ =>
      lazymatch goal with
      | _ : h !! a = Some c |- _ => fail
      | _ => pose proof (lookup_weaken _ _ _ _ H (fresh_lseg_subseteq _ _ _ _ _ Hb))
      end
  end.

(** ** Trees *)

(** A tree of conses; its leaves are objects that are no conses. *)
Inductive tree := Leaf (x : obj) | Node (l r : tree).

#[export] Instance tree_eq_dec : EqDecision tree.
Proof. solve_decision. Defined.

(** [x] represents the tree [t]; the addresses of its conses satisfy [P].
    Conses may be shared. *)
Fixpoint reps (P : Z → Prop) (h : heap) (x : obj) (t : tree) : Prop :=
  match t with
  | Leaf y => x = y ∧ MKCL_CONSP y = false
  | Node l r => ∃ a v d, x = OCons a ∧ P a ∧ h !! a = Some (CCons v d) ∧
                         reps P h v l ∧ reps P h d r
  end.

Fixpoint height (t : tree) : nat :=
  match t with Leaf _ => 0 | Node l r => S (Nat.max (height l) (height r)) end.

(** The tree of a list whose elements are the trees [ts]. *)
Fixpoint list_tree (ts : list tree) (y : obj) : tree :=
  match ts with [] => Leaf y | t :: ts' => Node t (list_tree ts' y) end.

Definition anywhere : Z → Prop := λ _, True.
Definition new_in (h : heap) : Z → Prop := λ a, h !! a = None.

Lemma reps_mono (P P' : Z → Prop) h h' x t :
  (∀ a, P a → P' a) → h ⊆ h' → reps P h x t → reps P' h' x t.
Proof.
  intros HP Hs. revert x. induction t as [y|l IHl r IHr]; intros x; simpl; [done|].
  intros (a & v & d & -> & Ha & Hc & Hl & Hr). exists a, v, d. split_and!; auto.
  by eapply lookup_weaken.
Qed.

Lemma reps_heap P h h' x t : h ⊆ h' → reps P h x t → reps P h' x t.
Proof. by apply reps_mono. Qed.

Lemma reps_anywhere P h x t : reps P h x t → reps anywhere h x t.
Proof. by apply reps_mono. Qed.

Lemma reps_det P P' h x t t' : reps P h x t → reps P' h x t' → t = t'.
Proof.
  revert x t'. induction t as [y|l IHl r IHr]; intros x [y'|l' r']; simpl.
  - by intros [-> _] [-> _].
  - intros [-> Hy] (a & v & d & -> & _). done.
  - intros (a & v & d & -> & _) [<- Hy]. done.
  - intros (a & v & d & -> & _ & Ha & Hl & Hr) (a' & v' & d' & [= <-] & _ & Ha' & Hl' & Hr').
    rewrite Ha in Ha'. injection Ha' as <- <-. f_equal; eauto.
Qed.

Lemma reps_CONSP P h x t :
  reps P h x t → MKCL_CONSP x = match t with Leaf _ => false | Node _ _ => true end.
Proof. destruct t; simpl; [by intros [-> ?]|]. by intros (a & v & d & -> & _). Qed.

#[export] Hint Resolve fresh_lseg_push fresh_lseg_subseteq reps_heap reps_anywhere : mkcl.
