(* ===== verification/Equal.v ===== *)
(** * Equal: the predicate EQUAL, src/src/c/predicate.c

    [mkcl_equal] compares conses by structure, strings and bit vectors by
    contents, numbers by EQL, and the other objects by identity.  On finite
    trees of conses it is equality of a key, hence an equivalence. *)

From S2P Require Import Prelude Words Objects Heap Segments.
#[local] Open Scope Z_scope.

(** ** Strings, src/src/c/string.c *)

Definition read_string (x : obj) : M (list Z) := λ h,
  match x with
  | OString a | OBaseString a =>
      match h !! a with Some (CStr s) => Done s h | _ => Fail Segfault h end
  | _ => Fail Segfault h
  end.

(** [memcmp(...) == 0] and the loops that compare strings of two types. *)
Fixpoint chars_equal (s t : list Z) : bool :=
  match s, t with
  | [], [] => true
  | c :: s', d :: t' => (c =? d) && chars_equal s' t'
  | _, _ => false
  end.

Definition mkcl_string_E (x y : obj) : M bool :=
  if negb (MKCL_STRINGP x) then raise (FEtype_error_string x)
  else if negb (MKCL_STRINGP y) then raise (FEtype_error_string y)
  else
    s ← read_string x; t ← read_string y;
    if negb (Nat.eqb (length s) (length t)) then mret false
    else mret (chars_equal s t).

Definition read_bits (x : obj) : M (list bool) := λ h,
  match x with
  | OObj mkcl_t_bitvector a =>
      match h !! a with Some (CBits o n b) => Done (take n (drop o b)) h | _ => Fail Segfault h end
  | _ => Fail Segfault h
  end.

(** [for (i = 0; i < x->vector.fillp; i++) if ((x_bit != 0) != (y_bit != 0)) ...] *)
Fixpoint bits_equal (s t : list bool) : bool :=
  match s, t with
  | [], _ => true
  | c :: s', d :: t' => if xorb c d then false else bits_equal s' t'
  | _ :: _, [] => false
  end.

(** ** EQUAL *)

Fixpoint mkcl_equal (n : nat) (x y : obj) : M bool :=
  match n with
  | O => diverge
  | S n =>
      if obj_eq x y then mret true
      else
        match x with
        | ONil => mret false
        | OCons _ =>
            if MKCL_CONSP y then
              ax ← MKCL_CAR x; ay ← MKCL_CAR y;
              e ← mkcl_equal n ax ay;
              if (e : bool) then dx ← MKCL_CDR x; dy ← MKCL_CDR y; mkcl_equal n dx dy
              else mret false
            else mret false
        | OSym _ | OFix _ => mret false
        | OBig _ zx => mret (match y with OBig _ zy => zx =? zy | _ => false end)
        | ORatio _ a b =>
            mret (match y with ORatio _ c d => mkcl_eql a c && mkcl_eql b d | _ => false end)
        | OFloat k _ f =>
            mret (match y with
                  | OFloat k' _ g => bool_decide (k = k') && FLOAT_EQL f g
                  | _ => false
                  end)
        | OComplex _ a b =>
            mret (match y with OComplex _ c d => mkcl_eql a c && mkcl_eql b d | _ => false end)
        | OChar c => mret (match y with OChar d => c =? d | _ => false end)
        | OString _ | OBaseString _ =>
            if MKCL_STRINGP y then mkcl_string_E x y else mret false
        | OObj mkcl_t_bitvector _ =>
            match y with
            | OObj mkcl_t_bitvector _ =>
                s ← read_bits x; t ← read_bits y;
                if negb (Nat.eqb (length s) (length t)) then mret false
                else mret (bits_equal s t)
            | _ => mret false
            end
        | OObj mkcl_t_pathname a =>
            match y with
            | OObj mkcl_t_pathname b => λ h,
                match h !! a, h !! b with
                | Some (CPathname l h1 d1 i1 n1 t1 v1), Some (CPathname l' h2 d2 i2 n2 t2 v2) =>
                    (if negb (Bool.eqb l l') then mret false
                     else andM (mkcl_equal n h1 h2) (andM (mkcl_equal n d1 d2)
                            (andM (mkcl_equal n i1 i2) (andM (mkcl_equal n n1 n2)
                               (andM (mkcl_equal n t1 t2) (mkcl_equal n v1 v2)))))) h
                | _, _ => Fail Segfault h
                end
            | _ => mret false
            end
        | OObj mkcl_t_foreign a =>
            match y with
            | OObj mkcl_t_foreign b => λ h,
                match h !! a, h !! b with
                | Some (CForeign p s tg), Some (CForeign p' s' tg') =>
                    (if (p =? p') && (s =? s') then mkcl_equal n tg tg' else mret false) h
                | _, _ => Fail Segfault h
                end
            | _ => mret false
            end
        | OObj _ _ => mret false
        end
  end.

(** ** EQUAL as equality of keys *)

Inductive leaf_key := KObj (x : obj) | KString (s : list Z) | KBits (b : list bool).

#[export] Instance leaf_key_eq_dec : EqDecision leaf_key.
Proof. solve_decision. Defined.

(** What EQUAL compares of an object that is no cons. *)
Definition key_of (h : heap) (x : obj) : leaf_key :=
  match x with
  | OString a | OBaseString a =>
      match h !! a with Some (CStr s) => KString s | _ => KObj x end
  | OObj mkcl_t_bitvector a =>
      match h !! a with Some (CBits o n b) => KBits (take n (drop o b)) | _ => KObj x end
  | _ => KObj (eql_key x)
  end.

Inductive tree_key := KLeaf (k : leaf_key) | KNode (l r : tree_key).

#[export] Instance tree_key_eq_dec : EqDecision tree_key.
Proof. solve_decision. Defined.

Fixpoint key_of_tree (h : heap) (t : tree) : tree_key :=
  match t with
  | Leaf x => KLeaf (key_of h x)
  | Node l r => KNode (key_of_tree h l) (key_of_tree h r)
  end.

(** The strings and bit vectors of a tree are in the heap; pathnames and
    foreign objects, which EQUAL descends into, are left out. *)
Definition leaf_ok (h : heap) (x : obj) : Prop :=
  match x with
  | OString a | OBaseString a => ∃ s, h !! a = Some (CStr s)
  | OObj mkcl_t_bitvector a => ∃ o n b, h !! a = Some (CBits o n b)
  | OObj mkcl_t_pathname _ | OObj mkcl_t_foreign _ => False
  | _ => True
  end.

Fixpoint leaves_ok (h : heap) (t : tree) : Prop :=
  match t with Leaf x => leaf_ok h x | Node l r => leaves_ok h l ∧ leaves_ok h r end.

Lemma chars_equal_spec s t : chars_equal s t = bool_decide (s = t).
Proof.
  revert t. induction s as [|c s IH]; intros [|d t]; simpl; try done.
  rewrite IH. destruct (Z.eqb_spec c d); simpl; apply bool_decide_ext || symmetry;
    [split; congruence|apply bool_decide_eq_false; congruence].
Qed.

Lemma bits_equal_spec s t :
  length s = length t → bits_equal s t = bool_decide (s = t).
Proof.
  revert t. induction s as [|c s IH]; intros [|d t]; simpl; try done. intros [= Hl].
  rewrite IH by done. destruct c, d; simpl; try done; apply bool_decide_ext; split; congruence.
Qed.

Lemma string_E_spec h x y s t :
  MKCL_STRINGP x = true → MKCL_STRINGP y = true →
  key_of h x = KString s → key_of h y = KString t →
  mkcl_string_E x y h = Done (bool_decide (s = t)) h.
Proof.
  intros Hx Hy Kx Ky. unfold mkcl_string_E. rewrite Hx, Hy. simpl.
  assert (∀ z u, MKCL_STRINGP z = true → key_of h z = KString u → read_string z h = Done u h) as Hr.
  { intros z u Hz Hk. destruct z; try done; simpl in *;
      destruct (h !! a) as [[]|]; simplify_eq; done. }
  rewrite (bind_Done _ _ _ _ _ (Hr x s Hx Kx)), (bind_Done _ _ _ _ _ (Hr y t Hy Ky)).
  destruct (Nat.eqb_spec (length s) (length t)); simpl; [by rewrite chars_equal_spec|].
  rewrite bool_decide_eq_false_2; [done|]. congruence.
Qed.

(** On the objects that have no contents of their own in the heap, EQUAL is EQL. *)
Definition plain (x : obj) : bool :=
  match x with
  | OString _ | OBaseString _ | OCons _ => false
  | OObj mkcl_t_bitvector _ | OObj mkcl_t_pathname _ | OObj mkcl_t_foreign _ => false
  | _ => true
  end.

Lemma mkcl_equal_plain n x y h :
  plain x = true → mkcl_equal (S n) x y h = Done (mkcl_eql x y) h.
Proof.
  intros Hx. cbn [mkcl_equal]. destruct (obj_eq x y) eqn:E.
  { apply obj_eq_true in E as ->. by rewrite mkcl_eql_refl. }
  assert (Heql : mkcl_eql x y =
    match x, y with
    | OBig _ a, OBig _ b => a =? b
    | ORatio _ n d, ORatio _ n' d' => mkcl_eql n n' && mkcl_eql d d'
    | OFloat k _ f, OFloat k' _ g => bool_decide (k = k') && FLOAT_EQL f g
    | OComplex _ r i, OComplex _ r' i' => mkcl_eql r r' && mkcl_eql i i'
    | _, _ => false
    end).
  { destruct x as [|c|z|a z|a p q|k a f|a p q|a|a|a|a|t a];
      destruct y as [|c'|z'|a' z'|a' p' q'|k' a' f'|a' p' q'|a'|a'|a'|a'|t' a'];
      cbn [mkcl_eql]; rewrite E; try done;
      try (by destruct k); try (by destruct k'); try (by destruct k, k');
      cbn [MKCL_IMMEDIATE mkcl_Null orb]; by repeat match goal with |- context [if ?b then _ else _] => destruct b end. }
  rewrite Heql. destruct x; try done; destruct y; try done.
  all: try (by destruct t).
  destruct (Z.eqb_spec code code0) as [->|]; [|done]. by rewrite obj_eq_refl in E.
Qed.

Lemma key_of_plain h x : plain x = true → key_of h x = KObj (eql_key x).
Proof. destruct x; try done. by destruct t. Qed.

Lemma key_of_type_eq h x y :
  key_of h x = key_of h y → plain x = true → leaf_ok h y → MKCL_CONSP y = false →
  eql_key x = eql_key y.
Proof.
  intros Hk Hx Hy Hc. rewrite (key_of_plain _ _ Hx) in Hk.
  destruct (plain y) eqn:Ey; [rewrite (key_of_plain _ _ Ey) in Hk; by injection Hk|].
  destruct y as [| | | | | | | | |a|a|t a]; try done; simpl in *.
  1,2: destruct Hy as [s Hs]; by rewrite Hs in Hk.
  destruct t; try done. destruct Hy as (o & m & b & Hb). by rewrite Hb in Hk.
Qed.

(** EQUAL of two leaves is equality of their keys. *)
Lemma mkcl_equal_leaf n h x y :
  MKCL_CONSP x = false → MKCL_CONSP y = false → leaf_ok h x → leaf_ok h y →
  mkcl_equal (S n) x y h = Done (bool_decide (key_of h x = key_of h y)) h.
Proof.
  intros Hcx Hcy Hx Hy. destruct (plain x) eqn:Ep.
  { rewrite mkcl_equal_plain, mkcl_eql_key by done. do 2 f_equal. apply bool_decide_ext.
    rewrite (key_of_plain _ _ Ep). split.
    - intros Hk. destruct (plain y) eqn:Epy; [by rewrite (key_of_plain _ _ Epy), Hk|].
      exfalso. assert (eql_key y = y) as Hy' by (by destruct y). rewrite Hy' in Hk.
      destruct x; simpl in Hk; subst y; simpl in *; congruence.
    - intros Hk. rewrite <- (key_of_plain h _ Ep) in Hk. by eapply key_of_type_eq. }
  cbn [mkcl_equal]. destruct (obj_eq x y) eqn:E.
  { apply obj_eq_true in E as ->. by rewrite bool_decide_eq_true_2. }
  assert (Hstr : ∀ s, MKCL_STRINGP x = true → key_of h x = KString s →
    (if MKCL_STRINGP y then mkcl_string_E x y else mret false) h =
    Done (bool_decide (key_of h x = key_of h y)) h).
  { intros s Hsx Kx. destruct (MKCL_STRINGP y) eqn:Hsy.
    - assert (∃ u, key_of h y = KString u) as [u Ky].
      { destruct y; try done; destruct Hy as [u Hu]; exists u; simpl; by rewrite Hu. }
      rewrite (string_E_spec h x y s u), Kx, Ky by done. f_equal. apply bool_decide_ext.
      split; congruence.
    - rewrite bool_decide_eq_false_2; [done|]. rewrite Kx.
      destruct y as [| | | | | | | | | | |t b]; try done. destruct t; try done.
      simpl. destruct Hy as (? & ? & ? & ->). done. }
  destruct x as [| | | | | | | | |a|a|t a]; try done.
  - destruct Hx as [s Hs]. apply (Hstr s); [done|]. simpl. by rewrite Hs.
  - destruct Hx as [s Hs]. apply (Hstr s); [done|]. simpl. by rewrite Hs.
  - destruct t; try done. destruct Hx as (o & m & s & Hs).
    assert (key_of h (OObj mkcl_t_bitvector a) = KBits (take m (drop o s))) as -> by (simpl; by rewrite Hs).
    destruct y as [| | | | | | | | |b|b|t b]; try done; try (simpl; destruct Hy as [? ->]; done).
    destruct t; try done. destruct Hy as (o' & m' & u & Hu).
    assert (key_of h (OObj mkcl_t_bitvector b) = KBits (take m' (drop o' u))) as -> by (simpl; by rewrite Hu).
    assert (∀ c i j w, h !! c = Some (CBits i j w) →
      read_bits (OObj mkcl_t_bitvector c) h = Done (take j (drop i w)) h) as Hr
      by (intros c i j w Hc; simpl; by rewrite Hc).
    rewrite (bind_Done _ _ _ _ _ (Hr _ _ _ _ Hs)), (bind_Done _ _ _ _ _ (Hr _ _ _ _ Hu)).
    destruct (Nat.eqb_spec (length (take m (drop o s))) (length (take m' (drop o' u)))); simpl.
    + rewrite bits_equal_spec by done. f_equal. apply bool_decide_ext. split; congruence.
    + rewrite bool_decide_eq_false_2; [done|]. congruence.
Qed.

Lemma mkcl_equal_leaf_cons n h x a :
  MKCL_CONSP x = false → leaf_ok h x → mkcl_equal (S n) x (OCons a) h = Done false h.
Proof.
  intros Hx Hok. destruct (plain x) eqn:Ep.
  - rewrite mkcl_equal_plain, mkcl_eql_sym, mkcl_eql_cons by done.
    rewrite (proj2 (obj_eq_false _ _)); [done|]. by intros <-.
  - cbn [mkcl_equal]. rewrite (proj2 (obj_eq_false _ _)) by (by intros ->).
    destruct x as [| | | | | | | | | | |t b]; try done. by destruct t.
Qed.

(** C15: EQUAL of two finite trees is equality of their keys: same conses, same
    characters in the strings (of either type), same bits, EQL numbers, and
    identity elsewhere.  It only reads the heap. *)
Theorem mkcl_equal_keys n h x y tx ty :
  reps anywhere h x tx → reps anywhere h y ty → leaves_ok h tx → leaves_ok h ty →
  (height tx < n)%nat →
  mkcl_equal n x y h = Done (bool_decide (key_of_tree h tx = key_of_tree h ty)) h.
Proof.
  revert n x y ty. induction tx as [x0|l IHl r IHr]; intros n x y ty Hx Hy Hokx Hoky Hn;
    (destruct n as [|n]; [simpl in Hn; lia|]).
  - destruct Hx as [-> Hcx]. destruct ty as [y0|l' r'].
    + destruct Hy as [-> Hcy]. rewrite mkcl_equal_leaf by done. f_equal. apply bool_decide_ext.
      simpl. split; [congruence|]. by intros [= ->].
    + destruct Hy as (a & v & d & -> & _). by rewrite mkcl_equal_leaf_cons.
  - pose proof Hx as (a & v & d & -> & _ & Ha & Hl & Hr). destruct Hokx as [Hokl Hokr].
    cbn [mkcl_equal]. destruct (obj_eq (OCons a) y) eqn:E.
    { apply obj_eq_true in E as <-. rewrite (reps_det _ _ _ _ _ _ Hx Hy).
      by rewrite bool_decide_eq_true_2. }
    destruct ty as [y0|l' r'].
    { destruct Hy as [-> Hcy]. by rewrite Hcy. }
    destruct Hy as (b & w & e & -> & _ & Hb & Hl' & Hr'). destruct Hoky as [Hokl' Hokr'].
    cbn [MKCL_CONSP MKCL_CAR MKCL_CDR mkcl_Null height] in *.
    rewrite (bind_Done _ _ _ _ _ (CAR_eq _ _ _ _ Ha)), (bind_Done _ _ _ _ _ (CAR_eq _ _ _ _ Hb)).
    rewrite (bind_Done _ _ _ _ _ (IHl n v w l' Hl Hl' Hokl Hokl' ltac:(lia))).
    case_bool_decide as Hlk.
    + rewrite (bind_Done _ _ _ _ _ (CDR_eq _ _ _ _ Ha)), (bind_Done _ _ _ _ _ (CDR_eq _ _ _ _ Hb)).
      rewrite (IHr n d e r') by (done || lia). f_equal. apply bool_decide_ext. simpl.
      split; [intros; f_equal; congruence|]. by intros [= ? ?].
    + rewrite bool_decide_eq_false_2; [done|]. simpl. by intros [= ? ?].
Qed.
