(* ===== verification/Lists.v ===== *)
(** * Lists: construction, access and copying, src/src/c/list.c

    The functions of list.c that take no test function: LIST, LIST*, APPEND,
    the CxR family, ENDP, LIST-LENGTH, NTH, NTHCDR, LAST, MAKE-LIST, COPY-LIST,
    COPY-ALIST, COPY-TREE, REVERSE and NREVERSE of proper lists, REVAPPEND,
    NCONC, NRECONC, BUTLAST, NBUTLAST, LDIFF, RPLACA, RPLACD, ACONS, PAIRLIS.
    Functions with a variable number of arguments take them as a list, and
    those with optional or keyword arguments take them after their parsing.

    [fuel] bounds the iterations of each loop and the depth of each recursion.
    A list function runs off its argument after [length l] beats, so the
    theorems ask for more fuel than that; LIST-LENGTH stops on every heap. *)

From S2P Require Import Prelude Words Objects Heap Numbers Segments.
#[local] Open Scope Z_scope.

(** The symbol T, the second of the table of static symbols. *)
Definition mk_cl_Ct : obj := OSym (-1).

Definition lisp_bool (b : bool) : obj := if b then mk_cl_Ct else ONil.

(** ** CAR, CDR and their compositions *)

Inductive cxr_op := A | D.

(** [car(foo)] and [cdr(foo)] of the macro [defcxr]. *)
Definition cxr_step (op : cxr_op) (x : obj) : M obj :=
  if negb (MKCL_LISTP x) then raise (FEtype_error_list x)
  else if negb (mkcl_Null x) then
    match op with A => MKCL_CONS_CAR x | D => MKCL_CONS_CDR x end
  else mret x.

(** [defcxr(name, x, code)]: the innermost operation, the last of [code], goes
    first. *)
Fixpoint defcxr (code : list cxr_op) (x : obj) : M obj :=
  match code with
  | [] => mret x
  | op :: code' => y ← defcxr code' x; cxr_step op y
  end.

Definition mk_cl_car := defcxr [A].
Definition mk_cl_cdr := defcxr [D].
Definition mk_cl_caar := defcxr [A; A].
Definition mk_cl_cadr := defcxr [A; D].
Definition mk_cl_cdar := defcxr [D; A].
Definition mk_cl_cddr := defcxr [D; D].
Definition mk_cl_caddr := defcxr [A; D; D].
Definition mk_cl_cadddr := defcxr [A; D; D; D].
Definition mk_cl_cdddr := defcxr [D; D; D].
Definition mk_cl_cddddr := defcxr [D; D; D; D].

Definition mk_cl_endp (x : obj) : M obj :=
  if mkcl_Null x then mret mk_cl_Ct
  else if MKCL_LISTP x then mret ONil
  else raise (FEtype_error_list x).

Definition mkcl_endp (x : obj) : M bool :=
  if mkcl_Null x then mret true
  else if MKCL_LISTP x then mret false
  else raise (FEtype_error_list x).

Definition mkcl_assert_type_cons (x : obj) : M unit :=
  if MKCL_CONSP x then mret tt else raise (FEtype_error_cons x).

Definition mk_cl_rplaca (x v : obj) : M obj :=
  mkcl_assert_type_cons x;; MKCL_RPLACA x v;; mret x.

Definition mk_cl_rplacd (x v : obj) : M obj :=
  mkcl_assert_type_cons x;; MKCL_RPLACD x v;; mret x.

Definition mk_cl_cons (x y : obj) : M obj := mkcl_cons x y.

Definition mk_cl_acons (x y z : obj) : M obj := p ← mkcl_cons x y; mkcl_cons p z.

(** ** LIST and LIST* *)

(** [while (narg--) { cons = mkcl_list1(env, mkcl_va_arg(args)); ... }] *)
Fixpoint list_args_loop (tail : obj) (args : list obj) : M unit :=
  match args with
  | [] => mret tt
  | v :: args' =>
      cons ← mkcl_list1 v; MKCL_RPLACD tail cons;; list_args_loop cons args'
  end.

Definition mk_cl_list (args : list obj) : M obj :=
  match args with
  | [] => mret ONil
  | v :: args' => head ← mkcl_list1 v; list_args_loop head args';; mret head
  end.

(** [while (--narg) { ... } MKCL_RPLACD(tail, mkcl_va_arg(args));] *)
Fixpoint listX_args_loop (tail v : obj) (args : list obj) : M unit :=
  match args with
  | [] => MKCL_RPLACD tail v
  | w :: args' => cons ← mkcl_list1 v; MKCL_RPLACD tail cons;; listX_args_loop cons w args'
  end.

Definition mk_cl_listX (args : list obj) : M obj :=
  match args with
  | [] => raise FEwrong_num_arguments
  | [head] => mret head
  | head :: v :: args' => head ← mkcl_list1 head; listX_args_loop head v args';; mret head
  end.

Section with_fuel.
Context `{!GMP} (fuel : nat).

(** ** APPEND *)

(** Gives the root of the copy and its last cons, which the C code leaves in
    [*cursor_ptr]. *)
Definition copy_proper_tail (cursor : obj) : M (obj * obj) :=
  if MKCL_CONSP cursor then
    a ← MKCL_CONS_CAR cursor; d ← MKCL_CONS_CDR cursor;
    root ← mkcl_cons a d;
    next ← MKCL_CONS_CDR root;
    '(cursor, next) ← loop fuel (λ '(cursor, next),
      if MKCL_CONSP next then
        a ← MKCL_CONS_CAR next; d ← MKCL_CONS_CDR next;
        new ← mkcl_cons a d;
        MKCL_RPLACD cursor new;;
        next ← MKCL_CONS_CDR new;
        mret (inl (new, next))
      else mret (inr (cursor, next))) (root, next);
    if negb (mkcl_Null next) then raise (FEtype_error_proper_list root)
    else mret (root, cursor)
  else raise (FEtype_error_list cursor).

(** The loop over the arguments but the last, then the last one. *)
Fixpoint append_loop (head tail : obj) (args : list obj) : M obj :=
  match args with
  | [] => mret head
  | [last] =>
      if mkcl_Null tail then mret last else MKCL_RPLACD tail last;; mret head
  | arg :: args' =>
      if mkcl_Null arg then append_loop head tail args'
      else if mkcl_Null tail then
        '(head, tail) ← copy_proper_tail arg; append_loop head tail args'
      else
        '(root, arg) ← copy_proper_tail arg;
        MKCL_RPLACD tail root;;
        append_loop head arg args'
  end.

Definition mk_cl_append (args : list obj) : M obj :=
  match args with
  | [] => mret ONil
  | [x] => mret x
  | _ => append_loop ONil ONil args
  end.

Definition mkcl_append (x y : obj) : M obj :=
  if mkcl_Null x then mret y
  else '(head, x) ← copy_proper_tail x; MKCL_RPLACD x y;; mret head.

(** ** LIST-LENGTH *)

Definition mk_cl_list_length (x : obj) : M obj :=
  loop fuel (λ '(n, fast, slow),
    if mkcl_Null fast then mret (inr (MKCL_MAKE_FIXNUM n))
    else if negb (MKCL_LISTP fast) then raise (FEtype_error_list fast)
    else if obj_eq slow fast && negb (n =? 0) then mret (inr ONil)
    else
      slow ← (if Z.odd n then MKCL_CONS_CDR slow else mret slow);
      fast ← MKCL_CONS_CDR fast;
      mret (inl (n + 1, fast, slow))) (0, x, x).

(** ** NTH, NTHCDR, LAST *)

Definition mkcl_nth (n : Z) (x : obj) : M obj :=
  if n <? 0 then raise (FEtype_error_seq_index x n)
  else
    x ← loop fuel (λ '(n, x),
      if (0 <? n) && MKCL_CONSP x then x ← MKCL_CONS_CDR x; mret (inl (n - 1, x))
      else mret (inr x)) (n, x);
    if mkcl_Null x then mret ONil
    else if MKCL_CONSP x then MKCL_CONS_CAR x
    else raise (FEtype_error_list x).

Definition mk_cl_nth (n x : obj) : M obj := n ← mkcl_safe_fixnum_to_word n; mkcl_nth n x.

Definition mkcl_nthcdr (n : Z) (x : obj) : M obj :=
  if n <? 0 then raise (FEtype_error_seq_index x n)
  else
    loop fuel (λ '(n, x),
      if (0 <? n) && negb (mkcl_Null x) then
        if MKCL_LISTP x then x ← MKCL_CONS_CDR x; mret (inl (n - 1, x))
        else raise (FEtype_error_list x)
      else mret (inr x)) (n, x).

Definition mk_cl_nthcdr (n x : obj) : M obj :=
  n ← mkcl_safe_fixnum_to_word n; mkcl_nthcdr n x.

Definition mk_cl_fifth (x : obj) : M obj := mkcl_nth 4 x.
Definition mk_cl_sixth (x : obj) : M obj := mkcl_nth 5 x.
Definition mk_cl_seventh (x : obj) : M obj := mkcl_nth 6 x.
Definition mk_cl_eighth (x : obj) : M obj := mkcl_nth 7 x.
Definition mk_cl_ninth (x : obj) : M obj := mkcl_nth 8 x.
Definition mk_cl_tenth (x : obj) : M obj := mkcl_nth 9 x.

(** [for (r = l; n && MKCL_CONSP(r); n--, r = MKCL_CONS_CDR(r));] *)
Definition skip_conses (n : Z) (l : obj) : M (Z * obj) :=
  loop fuel (λ '(n, r),
    if negb (n =? 0) && MKCL_CONSP r then r ← MKCL_CONS_CDR r; mret (inl (n - 1, r))
    else mret (inr (n, r))) (n, l).

Definition mkcl_last (l : obj) (n : Z) : M obj :=
  '(n, r) ← skip_conses n l;
  if obj_eq r l then
    if negb (MKCL_LISTP r) then raise (FEtype_error_list l)
    else
      loop fuel (λ r,
        if MKCL_CONSP r then r ← MKCL_CONS_CDR r; mret (inl r) else mret (inr r)) r
  else if n =? 0 then
    loop fuel (λ '(r, l),
      if MKCL_CONSP r then
        r ← MKCL_CONS_CDR r; l ← MKCL_CONS_CDR l; mret (inl (r, l))
      else mret (inr l)) (r, l)
  else mret l.

Definition mk_cl_last (l k : obj) : M obj :=
  match k with
  | OBig _ _ => mret l
  | _ => n ← mkcl_integer_to_index k; mkcl_last l n
  end.

(** ** Copies *)

Definition mk_cl_make_list (size initial_element : obj) : M obj :=
  i ← mkcl_integer_to_index size;
  loop fuel (λ '(i, x),
    if 0 <? i then x ← mkcl_cons initial_element x; mret (inl (i - 1, x))
    else mret (inr x)) (swrap i, ONil).

Definition mkcl_copy_proper_list (x : obj) : M obj :=
  if mkcl_Null x then mret ONil
  else
    a ← MKCL_CONS_CAR x; copy ← mkcl_list1 a;
    x ← MKCL_CONS_CDR x;
    loop fuel (λ '(tail, x),
      if negb (mkcl_Null x) then
        a ← MKCL_CONS_CAR x; cons ← mkcl_list1 a;
        MKCL_RPLACD tail cons;;
        x ← MKCL_CONS_CDR x;
        mret (inl (cons, x))
      else mret (inr tt)) (copy, x);;
    mret copy.

Definition mk_cl_copy_list (x : obj) : M obj :=
  if negb (MKCL_LISTP x) then raise (FEtype_error_list x)
  else if negb (mkcl_Null x) then
    a ← MKCL_CAR x; copy ← mkcl_list1 a;
    loop fuel (λ '(tail, x),
      x ← MKCL_CONS_CDR x;
      if MKCL_CONSP x then
        a ← MKCL_CONS_CAR x; cons ← mkcl_list1 a;
        MKCL_RPLACD tail cons;;
        mret (inl (cons, x))
      else MKCL_RPLACD tail x;; mret (inr tt)) (copy, x);;
    mret copy
  else mret ONil.

Definition mkcl_reverse_proper_list (x : obj) : M obj :=
  loop fuel (λ '(x, output),
    if negb (mkcl_Null x) then
      a ← MKCL_CONS_CAR x; output ← mkcl_cons a output;
      x ← MKCL_CONS_CDR x;
      mret (inl (x, output))
    else mret (inr output)) (x, ONil).

Definition mkcl_nreverse_proper_list (old : obj) : M obj :=
  loop fuel (λ '(old, new),
    if negb (mkcl_Null old) then
      let this := old in
      old ← MKCL_CONS_CDR old;
      MKCL_RPLACD this new;;
      mret (inl (old, this))
    else mret (inr new)) (old, ONil).

Definition duplicate_pairs (x : obj) : M obj :=
  p ← MKCL_CONS_CAR x;
  p ← (if MKCL_CONSP p then
         a ← MKCL_CONS_CAR p; d ← MKCL_CONS_CDR p; mkcl_cons a d
       else mret p);
  mkcl_list1 p.

Definition mk_cl_copy_alist (x : obj) : M obj :=
  if negb (MKCL_LISTP x) then raise (FEtype_error_list x)
  else if negb (mkcl_Null x) then
    copy ← duplicate_pairs x;
    loop fuel (λ '(tail, x),
      x ← MKCL_CONS_CDR x;
      if negb (mkcl_Null x) then
        if negb (MKCL_LISTP x) then raise (FEtype_error_list x)
        else
          cons ← duplicate_pairs x;
          MKCL_RPLACD tail cons;;
          mret (inl (cons, x))
      else mret (inr tt)) (copy, x);;
    mret copy
  else mret ONil.

(** The C compiler chooses the order of the two recursive calls; here the car
    goes first. *)
Fixpoint do_copy_tree (n : nat) (x : obj) : M obj :=
  match n with
  | O => diverge
  | S n =>
      if MKCL_CONSP x then
        a ← MKCL_CONS_CAR x; a ← do_copy_tree n a;
        d ← MKCL_CONS_CDR x; d ← do_copy_tree n d;
        mkcl_cons a d
      else mret x
  end.

Definition mk_cl_copy_tree (x : obj) : M obj := do_copy_tree fuel x.

(** [mkcl_loop_for_in(env, list) { ... }] of src/src/c/mkcl/mkcl-inl.h, with [break]
    and [return] as [inr] results of the body; [fin] is what follows a loop
    that got to the end of [list], which is then NIL. *)
Definition mkcl_loop_for_in {S R} (body : obj → S → M (S + R)) (fin : S → M R)
    (l : obj) (s : S) : M R :=
  loop fuel (λ '(list, s),
    if mkcl_Null list then r ← fin s; mret (inr r)
    else if negb (MKCL_CONSP list) then raise (FEtype_error_proper_list l)
    else
      r ← body list s;
      match r with
      | inl s => list ← MKCL_CONS_CDR list; mret (inl (list, s))
      | inr r => mret (inr r)
      end) (l, s).

Definition mk_cl_revappend (x y : obj) : M obj :=
  mkcl_loop_for_in (λ x y, a ← MKCL_CONS_CAR x; y ← mkcl_cons a y; mret (inl y))
    mret x y.

(** ** Destructive operations *)

Fixpoint nconc_loop (head tail : obj) (lists : list obj) : M obj :=
  match lists with
  | [] => mret head
  | other :: lists' =>
      new_tail ← (if mkcl_Null other then mret tail
                  else if MKCL_CONSP other then mkcl_last other 1
                  else match lists' with
                       | [] => mret tail
                       | _ => raise (FEtype_error_list other)
                       end);
      if mkcl_Null head then nconc_loop other new_tail lists'
      else MKCL_RPLACD tail other;; nconc_loop head new_tail lists'
  end.

Definition mk_cl_nconc (lists : list obj) : M obj := nconc_loop ONil ONil lists.

Definition mkcl_nconc (l y : obj) : M obj :=
  if mkcl_Null l then mret y
  else last ← mkcl_last l 1; MKCL_RPLACD last y;; mret l.

Definition mk_cl_nreconc (l y : obj) : M obj :=
  loop fuel (λ '(x, y),
    if negb (mkcl_Null x) then
      if negb (MKCL_LISTP x) then raise (FEtype_error_list x)
      else
        let z := x in
        x ← MKCL_CONS_CDR x;
        if obj_eq x l then raise (FEcircular_list l)
        else MKCL_RPLACD z y;; mret (inl (x, z))
    else mret (inr y)) (l, y).

Definition mkcl_butlast (l : obj) (n : Z) : M obj :=
  '(_, r) ← skip_conses n l;
  if mkcl_Null r then mret ONil
  else if negb (MKCL_LISTP r) then
    if obj_eq r l then raise (FEtype_error_list r) else mret ONil
  else
    a ← MKCL_CAR l; head ← mkcl_list1 a;
    loop fuel (λ '(tail, l, r),
      l ← MKCL_CONS_CDR l; r ← MKCL_CONS_CDR r;
      if MKCL_CONSP r then
        a ← MKCL_CONS_CAR l; cons ← mkcl_list1 a;
        MKCL_RPLACD tail cons;;
        mret (inl (cons, l, r))
      else mret (inr tt)) (head, l, r);;
    mret head.

Definition mk_cl_butlast (lis nn : obj) : M obj :=
  match nn with
  | OBig _ _ => mret ONil
  | _ => n ← mkcl_integer_to_index nn; mkcl_butlast lis n
  end.

Definition mkcl_nbutlast (l : obj) (n : Z) : M obj :=
  if negb (MKCL_LISTP l) then raise (FEtype_error_list l)
  else
    '(n, r) ← skip_conses (uwrap (n + 1)) l;
    if n =? 0 then
      tail ← loop fuel (λ '(tail, r),
        if MKCL_CONSP r then
          tail ← MKCL_CONS_CDR tail; r ← MKCL_CONS_CDR r; mret (inl (tail, r))
        else mret (inr tail)) (l, r);
      MKCL_RPLACD tail ONil;; mret l
    else mret ONil.

Definition mk_cl_nbutlast (lis nn : obj) : M obj :=
  match nn with
  | OBig _ _ => mret ONil
  | _ => n ← mkcl_integer_to_index nn; mkcl_nbutlast lis n
  end.

Definition mk_cl_ldiff (x y : obj) : M obj :=
  if negb (MKCL_LISTP x) then raise (FEtype_error_list x)
  else if negb (mkcl_Null x) && negb (obj_eq x y) then
    a ← MKCL_CONS_CAR x; head ← mkcl_list1 a;
    loop fuel (λ '(tail, x),
      x ← MKCL_CONS_CDR x;
      if negb (MKCL_CONSP x) then
        when (negb (mkcl_eql x y)) (MKCL_RPLACD tail x);; mret (inr tt)
      else if obj_eq x y then mret (inr tt)
      else
        a ← MKCL_CONS_CAR x; cons ← mkcl_list1 a;
        MKCL_RPLACD tail cons;;
        mret (inl (cons, x))) (head, x);;
    mret head
  else mret ONil.

(** ** Association lists from two lists *)

Definition pairlis_error {R} (keys data : obj) : M R :=
  raise (FEerror "The keys ~S and the data ~S are not of the same length" [keys; data]).

Definition mk_cl_pairlis (keys data a_list : obj) : M obj :=
  mkcl_loop_for_in (λ k '(d, a_list),
      e ← mkcl_endp d;
      if (e : bool) then pairlis_error keys data
      else
        ka ← MKCL_CONS_CAR k; da ← MKCL_CONS_CAR d;
        p ← mkcl_cons ka da;
        a_list ← mkcl_cons p a_list;
        d ← MKCL_CDR d;
        mret (inl (d, a_list)))
    (λ '(d, a_list), e ← mkcl_endp d; if (e : bool) then (mret a_list : M obj) else pairlis_error keys data)
    keys (data, a_list).
End with_fuel.
