(* ===== verification/ListSpecs.v ===== *)
(** * ListSpecs: what the functions of Lists.v compute without destruction

    Functional behaviour on the lists of the heap: the elements of the result,
    which of its conses are new, that the heap is only extended (so that every
    other list is untouched), the errors, and termination. *)

From S2P Require Import Prelude Words Objects Heap Numbers Segments Lists.
#[local] Open Scope Z_scope.

(** ** Building lists *)

Lemma wp_link h0 h head tail vs z w z' (Q : unit → heap → Prop) E :
  building h0 h head tail vs z →
  (∀ h2, building h0 h2 head (OCons (first_free h)) (vs ++ [w]) z' →
         h2 !! first_free h = Some (CCons w z') → Q tt h2) →
  wp (MKCL_RPLACD tail (OCons (first_free h))) (<[first_free h := CCons w z']> h) Q E.
Proof.
  intros Hb HQ. destruct (building_snoc _ _ _ _ _ _ w z' Hb) as (h2 & E2 & Hb2 & Hl).
  eapply wp_Done; [done|]. by apply HQ.
Qed.

Lemma wp_close h0 h head tail vs z y (Q : unit → heap → Prop) E :
  building h0 h head tail vs z →
  (∀ h2, building h0 h2 head tail vs y → Q tt h2) →
  wp (MKCL_RPLACD tail y) h Q E.
Proof.
  intros Hb HQ. destruct (building_close _ _ _ _ _ _ y Hb) as (h2 & E2 & Hb2).
  eapply wp_Done; [done|]. by apply HQ.
Qed.

Lemma list_args_loop_spec h0 h head tail vs args :
  building h0 h head tail vs ONil →
  wp (list_args_loop tail args) h
    (λ _ h', ∃ tail', building h0 h' head tail' (vs ++ args) ONil) no_error.
Proof.
  revert h tail vs. induction args as [|v args IH]; intros h tail vs Hb; simpl.
  - apply wp_ret. exists tail. by rewrite app_nil_r.
  - wp_go. eapply wp_link; [done|]. intros h2 Hb2 _.
    eapply wp_mono; [by apply IH| |done]. intros _ h' (tail' & Ht). exists tail'.
    by rewrite <- app_assoc in Ht.
Qed.

Lemma listX_args_loop_spec h0 h head tail vs v args :
  building h0 h head tail vs ONil →
  wp (listX_args_loop tail v args) h
    (λ _ h', ∃ tail', building h0 h' head tail' (vs ++ removelast (v :: args)) (List.last (v :: args) ONil))
    no_error.
Proof.
  revert h tail vs v. induction args as [|w args IH]; intros h tail vs v Hb.
  - simpl. eapply wp_close; [done|]. intros h2 Hb2. exists tail. by rewrite app_nil_r.
  - cbn [listX_args_loop]. wp_go. eapply wp_link; [done|]. intros h2 Hb2 _.
    eapply wp_mono; [by apply IH| |done]. intros _ h' (tail' & Ht). exists tail'.
    by rewrite <- app_assoc in Ht.
Qed.

(** LIST makes a new proper list of its arguments, and LIST* one of all of them but
    the last, which is the final cdr; both only add conses to the heap. *)
Theorem list_builds args x h :
  (∃ r h', mk_cl_list args h = Done r h' ∧ fresh_lseg h h' r args ONil) ∧
  (∃ r h', mk_cl_listX (args ++ [x]) h = Done r h' ∧ fresh_lseg h h' r args x) ∧
  mk_cl_listX [] h = Fail FEwrong_num_arguments h.
Proof.
  split_and!; [| |done].
  - apply wp_done_inv. destruct args as [|v args]; simpl.
    + apply fresh_lseg_nil.
    + wp_go. eapply wp_mono; [eapply list_args_loop_spec, building_start; done| |done].
      intros _ h' (tail & Hb). apply wp_ret. by eapply building_fresh.
  - apply wp_done_inv. destruct args as [|v args]; simpl.
    + apply fresh_lseg_nil.
    + destruct (args ++ [x]) as [|w l] eqn:Hl; [by destruct args|].
      wp_go. eapply wp_mono; [eapply listX_args_loop_spec, building_start; done| |done].
      intros _ h' (tail & Hb). apply wp_ret. apply building_fresh in Hb.
      rewrite <- Hl, removelast_last, List.last_last in Hb. done.
Qed.

(** ** APPEND *)

Section with_fuel.
Context `{!GMP}.

Lemma copy_proper_tail_spec fuel h x l y :
  lseg h x l y → MKCL_CONSP y = false → l ≠ [] → (length l < fuel)%nat →
  wp (copy_proper_tail fuel x) h
    (λ r h', y = ONil ∧ building h h' r.1 r.2 l.*2 ONil)
    (λ e h', y ≠ ONil ∧ ∃ r, e = FEtype_error_proper_list r ∧ fresh_lseg h h' r l.*2 y).
Proof.
  intros Hl Hy Hne Hf. destruct l as [|[a v] l]; [done|].
  destruct Hl as (-> & d & Ha & Hl). unfold copy_proper_tail. wp_go.
  eapply wp_cdr; [by rewrite lookup_insert_eq|]. wp_go.
  eapply (wp_loop (λ n '(cursor, next) h1, ∃ vs ws,
    building h h1 (OCons (first_free h)) cursor vs next ∧
    lseg h next ws y ∧ v :: l.*2 = vs ++ ws.*2 ∧ n = length ws)).
  - intros n [cursor next] h1 (vs & ws & Hb & Hn & Heq & ->).
    destruct ws as [|[b w] ws].
    + simpl in Hn. subst next. rewrite Hy. rewrite app_nil_r in Heq. wp_go.
      * assert (y = ONil) as -> by by apply Null_true. split; [done|]. change (((a, v) :: l).*2) with (v :: l.*2). by rewrite Heq.
      * split; [by intros ->|]. eexists. split; [done|].
        change (((a, v) :: l).*2) with (v :: l.*2). rewrite Heq.
        by eapply building_fresh.
    + destruct Hn as (-> & d' & Hb' & Hn).
      pose proof (lookup_weaken _ _ _ _ Hb' (building_subseteq _ _ _ _ _ _ Hb)) as Hb1.
      wp_go. eapply wp_link; [done|]. intros h2 Hb2 Hlk. wp_go.
      exists (length ws). simpl. split; [lia|].
      exists (vs ++ [w]), ws. split_and!; [done..| |done].
      by rewrite Heq, <- (assoc app).
  - exists [v], l. split_and!; [by apply building_start|done..].
  - simpl in Hf. lia.
Qed.

Lemma append_loop_cons fuel head tail arg args x :
  append_loop fuel head tail ((arg :: args) ++ [x]) =
  (if mkcl_Null arg then append_loop fuel head tail (args ++ [x])
   else if mkcl_Null tail then
     '(head, tail) ← copy_proper_tail fuel arg; append_loop fuel head tail (args ++ [x])
   else
     '(root, arg) ← copy_proper_tail fuel arg;
     MKCL_RPLACD tail root;; append_loop fuel head arg (args ++ [x])).
Proof. by destruct args. Qed.

(** The arguments but the last are proper lists [vss] of the initial heap. *)
Lemma append_loop_spec fuel h0 h head tail vs args vss x :
  (tail = ONil ∧ vs = [] ∧ h0 ⊆ h) ∨ (∃ z, building h0 h head tail vs z) →
  Forall2 (is_list h0) args vss →
  Forall (λ ws, length ws < fuel)%nat vss →
  wp (append_loop fuel head tail (args ++ [x])) h
    (λ r h', fresh_lseg h0 h' r (vs ++ concat vss) x) no_error.
Proof.
  intros Hst Hargs. revert h head tail vs Hst.
  induction Hargs as [|arg ws args vss Harg Hargs IH]; intros h head tail vs Hst Hf.
  - simpl. rewrite app_nil_r. destruct Hst as [(-> & -> & Hs)|[z Hb]].
    + wp_go. split; [done|]. exists []. split_and!; [done..|]. by intros a ?%elem_of_nil.
    + assert (mkcl_Null tail = false) as -> by (by destruct Hb as (_ & ? & ? & ? & -> & _)).
      wp_go. eapply wp_close; [done|]. intros h2 Hb2. wp_go. by eapply building_fresh.
  - inversion Hf as [|?? Hws Hf']; subst.
    rewrite append_loop_cons.
    destruct Harg as (l & Hl & <-). rewrite length_fmap in Hws.
    assert (h0 ⊆ h) as Hs by (destruct Hst as [(_&_&?)|[? [? _]]]; done).
    destruct (mkcl_Null arg) eqn:Enull.
    + apply Null_true in Enull as ->. apply lseg_atom_nil in Hl as [-> _]; [|done].
      by apply IH.
    + assert (l ≠ []) as Hne by (intros ->; simpl in Hl; by subst).
      pose proof (copy_proper_tail_spec fuel h arg l ONil) as Hcopy.
      specialize (Hcopy ltac:(by eapply lseg_mono) eq_refl Hne Hws).
      destruct Hst as [(-> & -> & _)|[z Hb]].
      * wp_go. eapply wp_mono; [exact Hcopy| |naive_solver].
        intros [root cursor] h1 [_ Hb1]. simpl. apply (IH _ _ _ l.*2); [|done].
        right. exists ONil. destruct Hb1 as (Hs1 & l' & a & v & Heqs).
        split; [by etrans|]. exists l', a, v. simpl in Heqs. naive_solver eauto using lookup_weaken_None.
      * assert (mkcl_Null tail = false) as -> by (by destruct Hb as (_ & ? & ? & ? & -> & _)).
        wp_go. eapply wp_mono; [exact Hcopy| |naive_solver].
        intros [root cursor] h1 [_ Hb1]. simpl in Hb1. wp_go.
        destruct (building_join _ _ _ _ _ _ _ _ _ _ _ Hb Hb1) as (h2 & E2 & Hb2).
        eapply wp_Done; [done|]. eapply wp_mono; [apply (IH _ _ _ (vs ++ l.*2)); eauto| |done].
        intros r h'. simpl. by rewrite <- (assoc app).
Qed.

(** APPEND gives the concatenation of its arguments: new conses for all but the
    last, which it shares, and the arguments are left as they were. *)
Theorem append_concatenates fuel args vss x h :
  Forall2 (is_list h) args vss → Forall (λ ws, length ws < fuel)%nat vss →
  ∃ r h', mk_cl_append fuel (args ++ [x]) h = Done r h' ∧ fresh_lseg h h' r (concat vss) x.
Proof.
  intros Hargs Hf. apply wp_done_inv. destruct Hargs as [|arg ws args vss Harg Hargs].
  - simpl. apply fresh_lseg_nil.
  - assert (mk_cl_append fuel ((arg :: args) ++ [x]) = append_loop fuel ONil ONil ((arg :: args) ++ [x]))
      as -> by by destruct args.
    apply (append_loop_spec fuel h h ONil ONil [] (arg :: args) (ws :: vss)); [by left| |done].
    by constructor.
Qed.

(** The two argument APPEND copies its first argument and shares the second;
    a dotted first argument is an error that reports a copy of it, and an atom
    other than NIL is no list. *)
Theorem mkcl_append_spec fuel h x l y z :
  lseg h x l z → MKCL_CONSP z = false → (length l < fuel)%nat →
  if bool_decide (z = ONil) then
    ∃ r h', mkcl_append fuel x y h = Done r h' ∧ fresh_lseg h h' r l.*2 y
  else if bool_decide (l = []) then
    mkcl_append fuel x y h = Fail (FEtype_error_list x) h
  else
    ∃ r h', mkcl_append fuel x y h = Fail (FEtype_error_proper_list r) h' ∧
            fresh_lseg h h' r l.*2 z.
Proof.
  intros Hl Hz Hf. unfold mkcl_append. destruct (mkcl_Null x) eqn:Ex.
  { apply Null_true in Ex as ->. apply lseg_atom_nil in Hl as [-> <-]; [|done].
    rewrite bool_decide_eq_true_2 by done. eexists _, _. split; [done|apply fresh_lseg_nil]. }
  case_bool_decide as Hcase; [subst z|case_bool_decide as Hnil; [subst l|]].
  - assert (l ≠ []) as Hne by (intros ->; simpl in Hl; by subst).
    apply wp_done_inv, wp_bind.
    eapply wp_mono; [by apply (copy_proper_tail_spec fuel h x l ONil)| |naive_solver].
    intros [root cursor] h1 [_ Hb]. wp_go.
    eapply wp_close; [done|]. intros h2 Hb2. wp_go. by eapply building_fresh.
  - simpl in Hl. subst x. unfold copy_proper_tail. by rewrite Hz.
  - destruct (wp_fail_inv (copy_proper_tail fuel x) h
      (λ e h', ∃ r, e = FEtype_error_proper_list r ∧ fresh_lseg h h' r l.*2 z))
      as (e & h' & E & r & -> & Hr).
    { eapply wp_mono; [by apply (copy_proper_tail_spec fuel h x l z)|naive_solver|naive_solver]. }
    exists r, h'. by rewrite (bind_Fail _ _ _ _ _ E).
Qed.

(** ** LIST-LENGTH *)

(** The object that the cdr of [x] holds. *)
Definition next_cdr (h : heap) (x : obj) : obj :=
  match x with
  | OCons a => match h !! a with Some (CCons _ d) => d | _ => x end
  | _ => x
  end.

Lemma lseg_iter_next h x l y : lseg h x l y → Nat.iter (length l) (next_cdr h) x = y.
Proof.
  revert x. induction l as [|[a v] l IH]; intros x; simpl; [done|].
  intros (-> & d & Ha & Hl). rewrite <- iter_succ_comm. simpl. rewrite Ha. by apply IH.
Qed.

Lemma read_cons_cases x h :
  (∃ a v d, x = OCons a ∧ h !! a = Some (CCons v d)) ∨
  ((∀ a v d, x = OCons a → h !! a ≠ Some (CCons v d)) ∧ MKCL_CONS_CDR x h = Fail Segfault h).
Proof.
  unfold MKCL_CONS_CDR, read_cons, mbind, M_bind.
  destruct x; try (right; split; [congruence|done]).
  destruct (h !! a) as [[]|] eqn:Ha; [left; eauto|..]; right; (split; [congruence|done]).
Qed.

(** The loop of LIST-LENGTH stops on every heap, circular lists included. *)
Lemma list_length_terminates fuel x h :
  (2 * size h < fuel)%nat → mk_cl_list_length fuel x h ≠ Diverge.
Proof.
  intros Hf. rewrite <- cons_refs_length in Hf. unfold mk_cl_list_length.
  set (body := λ s : Z * obj * obj, _).
  apply (tortoise_loop_terminates body h (λ s, s.1.1) (λ s, s.1.2) (λ s, s.2)
           (next_cdr h) (cons_refs h)); [| |done..].
  - intros [[n fast] slow]. unfold body.
    destruct (mkcl_Null fast), (MKCL_LISTP fast), (obj_eq slow fast && negb (n =? 0)), (Z.odd n);
      try done; simpl negb; cbv iota; rewrite ?bind_ret;
      unfold mbind, M_bind, MKCL_CONS_CDR, read_cons, mbind, M_bind; repeat (case_match; try done).
  - intros [[n fast] slow] s' h'. unfold body.
    destruct (mkcl_Null fast) eqn:En; [done|].
    destruct (MKCL_LISTP fast) eqn:El; [|done]. simpl negb. cbv iota.
    destruct (obj_eq slow fast && negb (n =? 0)) eqn:Em; [done|]. intros Hstep.
    apply bind_Done_inv in Hstep as (slow' & h1 & E1 & Hstep).
    apply bind_Done_inv in Hstep as (fast' & h2 & E2 & Hstep).
    assert (∀ y r h3 h4, MKCL_CONS_CDR y h3 = Done r h4 → h4 = h3 ∧ r = next_cdr h3 y ∧ y ∈ cons_refs h3) as Hcdr.
    { intros y r h3 h4 Hy. destruct (read_cons_cases y h3) as [(a & v & d & -> & Ha)|[_ Hs]]; [|congruence].
      rewrite (CDR_eq _ _ _ _ Ha) in Hy. injection Hy as <- <-. simpl. rewrite Ha.
      split_and!; [done..|by eapply cons_refs_elem]. }
    injection Hstep as <- <-. simpl.
    assert (h1 = h ∧ slow' = if Z.odd n then next_cdr h slow else slow) as [-> Hslow].
    { destruct (Z.odd n); [by apply Hcdr in E1 as (-> & -> & _)|by injection E1 as <- <-]. }
    apply Hcdr in E2 as (-> & -> & HD). split_and!; [done..| |lia|done|done].
    intros [-> Hn]. rewrite obj_eq_refl in Em. simpl in Em.
    by rewrite (proj2 (Z.eqb_neq n 0)) in Em.
Qed.

Lemma lseg_take_drop h x l y (k : nat) :
  lseg h x l y → (k ≤ length l)%nat →
  lseg h x (take k l) (Nat.iter k (next_cdr h) x) ∧
  lseg h (Nat.iter k (next_cdr h) x) (drop k l) y.
Proof.
  intros Hl Hk. rewrite <- (take_drop k l) in Hl.
  apply lseg_app in Hl as (z & Hz & Hd).
  pose proof (lseg_iter_next _ _ _ _ Hz) as Hi. rewrite length_take, Nat.min_l in Hi by done.
  by subst z.
Qed.

(** What the loop of LIST-LENGTH knows after [n] beats. *)
Definition length_inv (h : heap) (x : obj) (s : Z * obj * obj) (h' : heap) : Prop :=
  h' = h ∧ 0 ≤ s.1.1 ∧ ∃ l, lseg h x l s.1.2 ∧ length l = Z.to_nat s.1.1 ∧
  s.2 = Nat.iter (length l / 2) (next_cdr h) x.

Lemma length_inv_step h x n fast slow a v d :
  length_inv h x (n, fast, slow) h → fast = OCons a → h !! a = Some (CCons v d) →
  ∀ slow', slow' = (if Z.odd n then next_cdr h slow else slow) →
  length_inv h x (n + 1, d, slow') h.
Proof.
  intros (_ & Hn & l & Hl & Hlen & Hs) -> Ha slow' ->. cbn [fst snd] in *.
  split; [done|]. cbn [fst snd]. split; [lia|]. exists (l ++ [(a, v)]).
  split; [by eapply lseg_snoc|].
  rewrite length_app. cbn [length fst snd]. split; [lia|]. rewrite Nat.add_1_r, odd_beat_half.
  replace (Z.of_nat (length l)) with n by lia. rewrite Hs.
  by destruct (Z.odd n).
Qed.

Lemma length_inv_meet h x n fast :
  length_inv h x (n, fast, fast) h → n ≠ 0 → circular h x.
Proof.
  intros (_ & Hn & l & Hl & Hlen & Hs) Hn0. cbn [fst snd] in *.
  assert (length l / 2 < length l)%nat by (apply Nat.div_lt; lia).
  destruct (lseg_take_drop h x l fast (length l / 2)) as [Ht Hd]; [done|lia|].
  exists fast, (take (length l / 2) l), (drop (length l / 2) l).
  rewrite <- Hs in *. split_and!; [|done..].
  intros Heq. apply (f_equal length) in Heq. rewrite length_drop in Heq. cbn [length] in Heq. lia.
Qed.

(** C11: LIST-LENGTH stops on every heap and tells the four cases apart: the
    length of a proper list, NIL for a circular one, an error for a dotted
    one; the last case is a cdr that leaves the heap. *)
Theorem list_length_classifies fuel x h :
  (2 * size h < fuel)%nat → Z.of_nat (size h) < 2 ^ 61 →
  (∃ vs, is_list h x vs ∧
     mk_cl_list_length fuel x h = Done (OFix (Z.of_nat (length vs))) h) ∨
  (circular h x ∧ mk_cl_list_length fuel x h = Done ONil h) ∨
  (∃ l y, lseg h x l y ∧ MKCL_LISTP y = false ∧
     mk_cl_list_length fuel x h = Fail (FEtype_error_list y) h) ∨
  (∃ l a, lseg h x l (OCons a) ∧ (∀ v d, h !! a ≠ Some (CCons v d)) ∧
     mk_cl_list_length fuel x h = Fail Segfault h).
Proof.
  intros Hf Hsz.
  assert (wp (mk_cl_list_length fuel x) h
    (λ r h', h' = h ∧ ((∃ vs, is_list h x vs ∧ r = OFix (Z.of_nat (length vs))) ∨
                       (circular h x ∧ r = ONil)))
    (λ e h', h' = h ∧ ((∃ l y, lseg h x l y ∧ MKCL_LISTP y = false ∧ e = FEtype_error_list y) ∨
                       (∃ l a, lseg h x l (OCons a) ∧ (∀ v d, h !! a ≠ Some (CCons v d)) ∧
                               e = Segfault)))) as Hwp.
  2: { unfold wp in Hwp. destruct (mk_cl_list_length fuel x h); naive_solver. }
  unfold mk_cl_list_length. apply (wp_loop_total (length_inv h x)).
  - by apply list_length_terminates.
  - intros [[n fast] slow] h1 HI _. assert (h1 = h) as -> by apply HI.
    destruct (mkcl_Null fast) eqn:En.
    { wp_go. apply Null_true in En as ->. split; [done|]. left.
      destruct HI as (_ & Hn & l & Hl & Hlen & _). cbn [fst snd] in *.
      exists l.*2. split; [by exists l|]. apply lseg_length in Hl as ?; [|done].
      rewrite length_fmap. unfold MKCL_MAKE_FIXNUM.
      rewrite fixnum_wrap_small by (unfold_words; lia). f_equal. lia. }
    destruct (MKCL_LISTP fast) eqn:El; simpl negb; cbv iota.
    2: { wp_go. split; [done|]. left. destruct HI as (_ & _ & l & Hl & _). eauto. }
    destruct (obj_eq slow fast && negb (n =? 0)) eqn:Em.
    { wp_go. split; [done|]. right. split; [|done].
      apply andb_true_iff in Em as [Hsf Hn0]. apply obj_eq_true in Hsf as ->.
      apply negb_true_iff, Z.eqb_neq in Hn0. by eapply length_inv_meet. }
    assert (Hcons : ∃ a, fast = OCons a).
    { rewrite LISTP_cases, En in El. by apply CONSP_true. }
    destruct Hcons as [a ->]. apply wp_bind.
    assert (Hslow : wp (if Z.odd n then MKCL_CONS_CDR slow else mret slow) h
      (λ slow' h', h' = h ∧ slow' = if Z.odd n then next_cdr h slow else slow)
      (λ _ _, False)).
    { destruct (Z.odd n) eqn:Eo; [|by apply wp_ret].
      destruct HI as (_ & Hn & l & Hl & Hlen & Hs). cbn [fst snd] in *.
      assert (n ≠ 0) by by intros ->.
      assert (length l / 2 < length l)%nat by (apply Nat.div_lt; lia).
      destruct (lseg_take_drop h x l (OCons a) (length l / 2)) as [_ Hd]; [done|lia|].
      rewrite <- Hs in Hd. destruct (drop (length l / 2) l) as [|[b w] l'] eqn:Ed.
      { apply (f_equal length) in Ed. rewrite length_drop in Ed. cbn [length] in Ed. lia. }
      destruct Hd as (-> & d & Hb & _). eapply wp_cdr; [done|]. simpl. by rewrite Hb. }
    eapply wp_mono; [exact Hslow| |done]. intros slow' h' [-> Hslow']. apply wp_bind.
    apply wp_CDR_any.
    + intros b v d [= <-] Ha. wp_go. by eapply length_inv_step.
    + intros Hno. split; [done|]. right. destruct HI as (_ & _ & l & Hl & _).
      exists l, a. split_and!; [done| |done]. intros v d. by apply Hno.
  - split; [done|]. simpl. split; [lia|]. by exists [].
Qed.

(** ** NTH, NTHCDR, LAST *)

Lemma next_cdr_eq h a v d : h !! a = Some (CCons v d) → next_cdr h (OCons a) = d.
Proof. intros H1. simpl. by rewrite H1. Qed.

(** The conses of an acyclic segment differ from its start. *)
Lemma lseg_iter_neq h x l y k :
  MKCL_CONSP y = false → lseg h x l y → (0 < k ≤ length l)%nat →
  Nat.iter k (next_cdr h) x ≠ x.
Proof.
  intros Hy Hl Hk Heq. destruct (lseg_take_drop h x l y k) as [_ Hd]; [done|lia|].
  rewrite Heq in Hd. destruct (lseg_atom_unique _ _ _ _ _ _ Hy Hy Hl Hd) as [Hll _].
  apply (f_equal length) in Hll. rewrite length_drop in Hll. lia.
Qed.

Lemma lseg_iter_CONSP h x l y k :
  MKCL_CONSP y = false → lseg h x l y → (k ≤ length l)%nat →
  MKCL_CONSP (Nat.iter k (next_cdr h) x) = bool_decide (k < length l)%nat.
Proof.
  intros Hy Hl Hk. destruct (lseg_take_drop h x l y k Hl Hk) as [_ Hd].
  case_bool_decide as Hkl.
  - destruct (drop k l) as [|[a v] l'] eqn:Ed.
    + apply (f_equal length) in Ed. rewrite length_drop in Ed. simpl in Ed. lia.
    + by destruct Hd as [-> _].
  - replace k with (length l) in * by lia. rewrite drop_all in Hd. simpl in Hd. by rewrite Hd.
Qed.

(** The cdr of the [k]th cons. *)
Lemma lseg_iter_cons h x l y k :
  lseg h x l y → (k < length l)%nat →
  ∃ a v, Nat.iter k (next_cdr h) x = OCons a ∧ l !! k = Some (a, v) ∧
         h !! a = Some (CCons v (Nat.iter (S k) (next_cdr h) x)).
Proof.
  intros Hl Hk. destruct (lseg_take_drop h x l y k Hl) as [_ Hd]; [lia|].
  destruct (lookup_lt_is_Some_2 l k Hk) as [[a v] Hav].
  rewrite (drop_S _ _ _ Hav) in Hd. destruct Hd as (Heq & d & Ha & _).
  exists a, v. split_and!; [done..|]. simpl. rewrite Heq. simpl. by rewrite Ha.
Qed.

(** The state of a loop that walks [n] conses down a list, after [k] of them. *)
Definition walk_inv (h : heap) (x : obj) (l : cells) (n : Z) (m : nat)
    (s : Z * obj) (h' : heap) : Prop :=
  h' = h ∧ ∃ k, (k ≤ length l)%nat ∧ (k ≤ Z.to_nat n)%nat ∧
    s = (n - Z.of_nat k, Nat.iter k (next_cdr h) x) ∧ m = (length l - k)%nat.

Lemma walk_inv_start h x l n : walk_inv h x l n (length l) (n, x) h.
Proof. split; [done|]. exists 0%nat. simpl. split_and!; [lia..|by rewrite Z.sub_0_r|lia]. Qed.

Lemma walk_inv_next h x l n k :
  (k < length l)%nat → (k < Z.to_nat n)%nat →
  ∃ m, (m < length l - k)%nat ∧
       walk_inv h x l n m (n - Z.of_nat k - 1, Nat.iter (S k) (next_cdr h) x) h.
Proof.
  intros. exists (length l - S k)%nat. split; [lia|]. split; [done|]. exists (S k).
  split_and!; [lia..| |done]. f_equal. lia.
Qed.

(** The loops that walk [k] conses down a list. *)
Lemma skip_conses_spec fuel n h x l y :
  MKCL_CONSP y = false → lseg h x l y → 0 ≤ n → (length l < fuel)%nat →
  wp (skip_conses fuel n x) h
    (λ r h', h' = h ∧ ∃ k, k = (Z.to_nat n `min` length l)%nat ∧
             r = (n - Z.of_nat k, Nat.iter k (next_cdr h) x)) no_error.
Proof.
  intros Hy Hl Hn Hf. unfold skip_conses.
  apply (wp_loop (walk_inv h x l n) _ _ (length l)); [|apply walk_inv_start|done].
  - intros m s h' (-> & k & Hk & Hkn & -> & ->).
    rewrite (lseg_iter_CONSP h x l y k) by done.
    case_bool_decide; [destruct (Z.eqb_spec (n - Z.of_nat k) 0)|rewrite andb_false_r];
      simpl negb; simpl andb; cbv iota; wp_go.
    + split; [done|]. exists k. split; [lia|done].
    + destruct (lseg_iter_cons h x l y k) as (a & v & -> & _ & Ha); [done..|].
      wp_go. apply walk_inv_next; lia.
    + split; [done|]. exists k. split; [lia|done].
Qed.

Lemma lseg_iter_end h x l y : lseg h x l y → Nat.iter (length l) (next_cdr h) x = y.
Proof. apply lseg_iter_next. Qed.

Lemma lseg_iter_elem h x l y k :
  MKCL_CONSP y = false → lseg h x l y → (k < length l)%nat →
  ∃ a v, Nat.iter k (next_cdr h) x = OCons a ∧ l.*2 !! k = Some v ∧
         h !! a = Some (CCons v (Nat.iter (S k) (next_cdr h) x)).
Proof.
  intros Hy Hl Hk. destruct (lseg_iter_cons h x l y k) as (a & v & ? & Hlk & ?); [done..|].
  exists a, v. by rewrite list_lookup_fmap, Hlk.
Qed.

(** NTH gives the element at its index, NIL past the end of a proper list; past
    the end of a dotted list, and at a negative index, it is an error. *)
Theorem nth_element fuel n x h l y :
  lseg h x l y → MKCL_CONSP y = false → (length l < fuel)%nat →
  mk_cl_nth fuel (OFix n) x h =
    (if n <? 0 then Fail (FEtype_error_seq_index x n) h
     else match l.*2 !! Z.to_nat n with
          | Some v => Done v h
          | None => if mkcl_Null y then Done ONil h else Fail (FEtype_error_list y) h
          end).
Proof.
  intros Hl Hy Hf. unfold mk_cl_nth. simpl mkcl_safe_fixnum_to_word. rewrite bind_ret.
  unfold mkcl_nth. destruct (Z.ltb_spec n 0); [done|].
  destruct (wp_done_inv (loop fuel (λ '(n, x),
      if (0 <? n) && MKCL_CONSP x then x ← MKCL_CONS_CDR x; mret (inl (n - 1, x))
      else mret (inr x)) (n, x)) h
    (λ r h', h' = h ∧ r = Nat.iter (Z.to_nat n `min` length l) (next_cdr h) x))
    as (r & h' & E & -> & ->).
  - apply (wp_loop (walk_inv h x l n) _ _ (length l)); [|apply walk_inv_start|done].
    + intros m s h' (-> & k & Hk & Hkn & -> & ->).
      rewrite (lseg_iter_CONSP h x l y k) by done.
      case_bool_decide; [destruct (Z.ltb_spec 0 (n - Z.of_nat k))|rewrite andb_false_r];
        simpl andb; cbv iota; wp_go.
      * destruct (lseg_iter_cons h x l y k) as (a & v & -> & _ & Ha); [done..|].
        wp_go. apply walk_inv_next; lia.
      * split; [done|]. f_equal. lia.
      * split; [done|]. f_equal. lia.
  - rewrite (bind_Done _ _ _ _ _ E). destruct (decide (Z.to_nat n < length l)%nat).
    + rewrite Nat.min_l by lia.
      destruct (lseg_iter_elem h x l y (Z.to_nat n)) as (a & v & -> & -> & Ha); [done..|].
      simpl. by rewrite (CAR_eq _ _ _ _ Ha).
    + rewrite Nat.min_r, (lseg_iter_end _ _ _ _ Hl) by lia.
      rewrite (lookup_ge_None_2 (l.*2)) by (rewrite length_fmap; lia).
      rewrite Hy. by destruct (mkcl_Null y).
Qed.

(** NTHCDR cuts a list at its index and gives the rest itself, not a
    copy; it stops at the NIL of a proper list, and going past the end of a
    dotted list is an error. *)
Theorem nthcdr_cuts fuel n x h l y :
  lseg h x l y → MKCL_CONSP y = false → (length l < fuel)%nat → 0 ≤ n →
  if (Z.of_nat (length l) <? n) && negb (mkcl_Null y)
  then mk_cl_nthcdr fuel (OFix n) x h = Fail (FEtype_error_list y) h
  else ∃ r, mk_cl_nthcdr fuel (OFix n) x h = Done r h ∧
            lseg h x (take (Z.to_nat n) l) r ∧ lseg h r (drop (Z.to_nat n) l) y.
Proof.
  intros Hl Hy Hf Hn. unfold mk_cl_nthcdr. simpl mkcl_safe_fixnum_to_word. rewrite bind_ret.
  unfold mkcl_nthcdr. destruct (Z.ltb_spec n 0); [lia|]. set (body := λ '(n, x), _).
  assert (Hwp : wp (loop fuel body (n, x)) h
    (λ r h', h' = h ∧ (mkcl_Null y = true ∨ n ≤ Z.of_nat (length l)) ∧
             r = Nat.iter (Z.to_nat n `min` length l) (next_cdr h) x)
    (λ e h', h' = h ∧ mkcl_Null y = false ∧ Z.of_nat (length l) < n ∧ e = FEtype_error_list y)).
  { apply (wp_loop (walk_inv h x l n) _ _ (length l)); [|apply walk_inv_start|done].
    - intros m s h' (-> & k & Hk & Hkn & -> & ->). unfold body.
      destruct (Z.ltb_spec 0 (n - Z.of_nat k)); simpl andb; cbv iota.
      2: { apply wp_ret. split_and!; [done|right; lia|f_equal; lia]. }
      destruct (decide (k < length l)%nat).
      + destruct (lseg_iter_cons h x l y k) as (a & v & -> & _ & Ha); [done..|].
        wp_go. apply walk_inv_next; lia.
      + replace k with (length l) by lia. rewrite (lseg_iter_end _ _ _ _ Hl).
        destruct (mkcl_Null y) eqn:Ey; simpl negb; cbv iota.
        * apply wp_ret. split_and!; [done|by left|].
          rewrite Nat.min_r by lia. by rewrite (lseg_iter_end _ _ _ _ Hl).
        * rewrite LISTP_cases, Ey, Hy. apply wp_raise. split_and!; [done..|lia|done]. }
  destruct (_ && _) eqn:Ec.
  - apply andb_true_iff in Ec as [Ec1 Ec2]. apply Z.ltb_lt in Ec1. apply negb_true_iff in Ec2.
    destruct (wp_fail_inv (loop fuel body (n, x)) h
      (λ e h', h' = h ∧ e = FEtype_error_list y)) as (e & h' & E & -> & ->); [|done].
    eapply wp_mono; [exact Hwp| |naive_solver].
    intros r h' (_ & [?|?] & _); [congruence|lia].
  - destruct (wp_done_inv (loop fuel body (n, x)) h
      (λ r h', h' = h ∧ r = Nat.iter (Z.to_nat n `min` length l) (next_cdr h) x))
      as (r & h' & E & -> & ->).
    { eapply wp_mono; [exact Hwp|naive_solver|]. intros e h' (_ & Hny & Hlt & _).
      by rewrite Hny, (proj2 (Z.ltb_lt _ _)) in Ec. }
    eexists. split; [exact E|].
    destruct (lseg_take_drop h x l y (Z.to_nat n `min` length l)) as [Ht Hd]; [done|lia|].
    destruct (decide (Z.to_nat n ≤ length l)%nat); [by rewrite Nat.min_l in * by done|].
    rewrite Nat.min_r in * by lia. rewrite take_ge, drop_ge in * by lia. done.
Qed.

(** Two cells that walk down a list, the first [k] conses ahead, until it runs
    off; [m] conses are left to it. *)
Definition run_inv (h : heap) (x : obj) (l : cells) (k m : nat) (r t : obj) (h' : heap) : Prop :=
  h' = h ∧ (m ≤ length l - k)%nat ∧
  r = Nat.iter (k + (length l - k - m)) (next_cdr h) x ∧
  t = Nat.iter (length l - k - m) (next_cdr h) x.

Lemma run_inv_start h x l k :
  run_inv h x l k (length l - k) (Nat.iter k (next_cdr h) x) x h.
Proof.
  unfold run_inv. rewrite Nat.sub_diag, Nat.add_0_r. done.
Qed.

Lemma run_inv_step h x l y k m r t h' :
  MKCL_CONSP y = false → lseg h x l y → (k ≤ length l)%nat → run_inv h x l k m r t h' →
  h' = h ∧
  if MKCL_CONSP r
  then ∃ a v d b w e, r = OCons a ∧ h !! a = Some (CCons v d) ∧
         t = OCons b ∧ h !! b = Some (CCons w e) ∧
         ∃ m', (m' < m)%nat ∧ run_inv h x l k m' d e h
  else t = Nat.iter (length l - k) (next_cdr h) x.
Proof.
  intros Hy Hl Hk (-> & Hm & -> & ->). split; [done|].
  rewrite (lseg_iter_CONSP h x l y _) by (done || lia).
  set (j := (length l - k - m)%nat). case_bool_decide; [|f_equal; lia].
  destruct (lseg_iter_cons h x l y (k + j)) as (a & v & ? & _ & ?); [done|lia|].
  destruct (lseg_iter_cons h x l y j) as (b & w & ? & _ & ?); [done|lia|].
  do 6 eexists. split_and!; [done..|]. exists (m - 1)%nat. split; [lia|].
  split_and!; [done|lia|f_equal; lia|f_equal; lia].
Qed.

Lemma run_off_spec fuel h x l y k :
  MKCL_CONSP y = false → lseg h x l y → (k ≤ length l)%nat → (length l < fuel)%nat →
  wp (loop fuel (λ '(r, l),
      if MKCL_CONSP r then r ← MKCL_CONS_CDR r; l ← MKCL_CONS_CDR l; mret (inl (r, l))
      else mret (inr l)) (Nat.iter k (next_cdr h) x, x)) h
    (λ r h', h' = h ∧ r = Nat.iter (length l - k) (next_cdr h) x) no_error.
Proof.
  intros Hy Hl Hk Hf.
  apply (wp_loop (λ m '(r, t) h', run_inv h x l k m r t h') _ _ (length l - k));
    [|apply run_inv_start|lia].
  intros m [r t] h' HI. destruct (run_inv_step _ _ _ _ _ _ _ _ _ Hy Hl Hk HI) as [-> Hstep].
  destruct (MKCL_CONSP r); [|by apply wp_ret].
  destruct Hstep as (a & v & d & b & w & e & -> & Ha & -> & Hb & Hm). by wp_go.
Qed.

(** [while (MKCL_CONSP(r)) r = CDR(r);] *)
Lemma run_end_spec fuel h x l y :
  MKCL_CONSP y = false → lseg h x l y → (length l < fuel)%nat →
  wp (loop fuel (λ r,
      if MKCL_CONSP r then r ← MKCL_CONS_CDR r; mret (inl r) else mret (inr r)) x) h
    (λ r h', h' = h ∧ r = y) no_error.
Proof.
  intros Hy Hl Hf.
  apply (wp_loop (λ m r h', h' = h ∧ ∃ l', lseg h r l' y ∧ m = length l') _ _ (length l)); [|eauto|done].
  intros m r h' (-> & [|[a v] l'] & Hl' & ->).
  - simpl in Hl'. subst r. rewrite Hy. by wp_go.
  - destruct Hl' as (-> & d & Ha & Hl'). wp_go. exists (length l'). simpl. split; [lia|]. eauto.
Qed.

Lemma mkcl_last_spec fuel h x l y n :
  MKCL_CONSP y = false → lseg h x l y → 0 ≤ n → (length l < fuel)%nat →
  l ≠ [] ∨ y = ONil →
  wp (mkcl_last fuel x n) h
    (λ r h', h' = h ∧ r = Nat.iter (length l - Z.to_nat n) (next_cdr h) x) no_error.
Proof.
  intros Hy Hl Hn Hf Hor. unfold mkcl_last. wp_go.
  eapply wp_mono; [by eapply skip_conses_spec| |done].
  intros r h' (-> & k & Hk & ->).
  destruct (decide (k = 0)%nat) as [->|Hk0].
  - simpl Nat.iter. rewrite obj_eq_refl.
    assert (MKCL_LISTP x = true) as ->.
    { destruct Hor as [Hne| ->]; [destruct l as [|[a v] l]; [done|by destruct Hl as [-> _]]|].
      destruct l as [|[a v] l]; [by simpl in Hl; subst|by destruct Hl as [-> _]]. }
    simpl negb. cbv iota. eapply wp_mono; [by eapply run_end_spec| |done].
    intros r h' (-> & ->). split; [done|].
    replace (length l - Z.to_nat n)%nat with (length l) by lia.
    by rewrite (lseg_iter_end _ _ _ _ Hl).
  - rewrite (proj2 (obj_eq_false _ _)) by (eapply lseg_iter_neq; [done..|lia]).
    destruct (Z.eqb_spec (n - Z.of_nat k) 0).
    + eapply wp_mono; [eapply run_off_spec; [done..|lia|done]| |done].
      intros r h' (-> & ->). split; [done|]. f_equal. lia.
    + apply wp_ret. split; [done|]. by replace (length l - Z.to_nat n)%nat with 0%nat by lia.
Qed.

(** LAST gives the last [n] conses of a list, proper or dotted, as the tail of the
    list itself; with [n = 0] its final atom. *)
Theorem last_tail fuel h x l y n :
  lseg h x l y → MKCL_CONSP y = false → (l ≠ [] ∨ y = ONil) →
  0 ≤ n → (length l < fuel)%nat →
  ∃ r, mk_cl_last fuel x (OFix n) h = Done r h ∧
       lseg h x (take (length l - Z.to_nat n) l) r ∧
       lseg h r (drop (length l - Z.to_nat n) l) y.
Proof.
  intros Hl Hy Hor Hn Hf.
  destruct (wp_done_inv (mkcl_last fuel x n) h
    (λ r h', h' = h ∧ r = Nat.iter (length l - Z.to_nat n) (next_cdr h) x))
    as (r & h' & E & -> & ->); [by eapply mkcl_last_spec|].
  eexists. split; [|apply lseg_take_drop; [done|lia]].
  simpl. rewrite (proj2 (Z.leb_le 0 n)), bind_ret by done. exact E.
Qed.

(** ** Copies *)

(** COPY-LIST copies the conses of a list, proper or dotted, and nothing else;
    an atom other than NIL is an error. *)
Theorem copy_list_copies fuel h x l y :
  lseg h x l y → MKCL_CONSP y = false → (length l < fuel)%nat →
  if bool_decide (l = []) && negb (mkcl_Null y)
  then mk_cl_copy_list fuel x h = Fail (FEtype_error_list x) h
  else ∃ r h', mk_cl_copy_list fuel x h = Done r h' ∧ fresh_lseg h h' r l.*2 y.
Proof.
  intros Hl Hy Hf. unfold mk_cl_copy_list. destruct l as [|[a v] l].
  { simpl in Hl. subst y. simpl. destruct x; try done; eexists _, _;
      (split; [done|apply fresh_lseg_nil]). }
  destruct Hl as (-> & d & Ha & Hl). rewrite bool_decide_eq_false_2 by done. simpl andb. cbv iota.
  apply wp_done_inv. wp_go.
  eapply (wp_loop (λ n '(tail, x) h1, ∃ b w vs ws d,
    x = OCons b ∧ h !! b = Some (CCons w d) ∧ lseg h d ws y ∧
    building h h1 (OCons (first_free h)) tail vs ONil ∧ v :: l.*2 = vs ++ ws.*2 ∧
    n = length ws)).
  - intros n [tail x] h1 (b & w & vs & ws & d' & -> & Hb & Hws & Hbd & Heq & ->).
    weaken_lookup. wp_go. destruct ws as [|[c u] ws].
    + simpl in Hws. subst d'. rewrite Hy. wp_go.
      eapply wp_close; [done|]. intros h2 Hb2. wp_go.
      change (((a, v) :: l).*2) with (v :: l.*2). rewrite Heq, app_nil_r. by eapply building_fresh.
    + destruct Hws as (-> & d'' & Hc & Hws). weaken_lookup. wp_go.
      eapply wp_link; [done|]. intros h2 Hb2 _. wp_go.
      exists (length ws). simpl. split; [lia|].
      exists c, u, (vs ++ [u]), ws, d''. split_and!; [done..| |done]. by rewrite Heq, <- (assoc app).
  - exists a, v, [v], l, d. split_and!; [done..|by apply building_start|done|done].
  - simpl in Hf. lia.
Qed.

Lemma reverse_loop_spec fuel h x l out vs z :
  lseg h x l ONil → (length l < fuel)%nat →
  ∀ h1, fresh_lseg h h1 out vs z →
  wp (loop fuel (λ '(x, output),
    if negb (mkcl_Null x) then
      a ← MKCL_CONS_CAR x; output ← mkcl_cons a output;
      x ← MKCL_CONS_CDR x;
      mret (inl (x, output))
    else mret (inr output)) (x, out)) h1
    (λ r h', fresh_lseg h h' r (rev l.*2 ++ vs) z) no_error.
Proof.
  intros Hl Hf h1 Hout.
  eapply (wp_loop (λ n '(x, out) h1, ∃ vs' ws, lseg h x ws ONil ∧ fresh_lseg h h1 out vs' z ∧
    rev l.*2 ++ vs = rev ws.*2 ++ vs' ∧ n = length ws)); [|eauto 10|exact Hf].
  intros n [x' out'] h2 (vs' & ws & Hws & Hout' & Heq & ->). destruct ws as [|[a v] ws].
  - simpl in Hws. subst x'. wp_go. by rewrite Heq.
  - destruct Hws as (-> & d & Ha & Hws). weaken_lookup.
    wp_cond. wp_go. eapply wp_cdr.
    { rewrite lookup_insert_ne; [done|]. intros <-. by rewrite first_free_fresh in *. }
    wp_go. exists (length ws). simpl. split; [lia|]. exists (v :: vs'), ws.
    split_and!; [done|by apply fresh_lseg_push| |done].
    rewrite Heq. simpl. by rewrite <- (assoc app).
Qed.

(** REVERSE of a proper list is a new list of its elements from the last to the
    first. *)
Theorem reverse_proper_list_reverses fuel h x vs :
  is_list h x vs → (length vs < fuel)%nat →
  ∃ r h', mkcl_reverse_proper_list fuel x h = Done r h' ∧ fresh_lseg h h' r (rev vs) ONil.
Proof.
  intros (l & Hl & <-) Hf. rewrite length_fmap in Hf. apply wp_done_inv.
  eapply wp_mono; [eapply reverse_loop_spec; [done..|apply fresh_lseg_nil]| |done].
  intros r h'. by rewrite app_nil_r.
Qed.

(** MKCL_LOOP_FOR_IN over a segment: an invariant on the elements seen. *)
Lemma wp_loop_for_in {S R} fuel h x l y (I : cells → S → heap → Prop)
    (body : obj → S → M (S + R)) (fin : S → M R) s h1 Q E :
  lseg h x l y → MKCL_CONSP y = false → (length l < fuel)%nat →
  (∀ l1 a v l2 s h1, l = l1 ++ (a, v) :: l2 → I l1 s h1 →
     wp (body (OCons a) s) h1 (λ r h2, match r with
       | inl s' => I (l1 ++ [(a, v)]) s' h2 ∧ ∃ d, h !! a = Some (CCons v d) ∧ h2 !! a = h !! a
       | inr r => Q r h2
       end) E) →
  (∀ s h1, I l s h1 → if mkcl_Null y then wp (fin s) h1 Q E else E (FEtype_error_proper_list x) h1) →
  I [] s h1 →
  wp (mkcl_loop_for_in fuel body fin x s) h1 Q E.
Proof.
  intros Hl Hy Hf Hbody Hfin HI. unfold mkcl_loop_for_in.
  apply (wp_loop (λ n '(list, s) h1, ∃ l1 l2, l = l1 ++ l2 ∧ lseg h list l2 y ∧ I l1 s h1 ∧
    n = length l2) _ _ (length l)); [| |done].
  - intros n [list s'] h2 (l1 & l2 & -> & Hl2 & HI2 & ->). destruct l2 as [|[a v] l2].
    + simpl in Hl2. subst list. rewrite app_nil_r in *. specialize (Hfin _ _ HI2). rewrite Hy.
      destruct (mkcl_Null y); simpl negb; cbv iota; [|by apply wp_raise].
      apply wp_bind. eapply wp_mono; [exact Hfin| |done]. intros r h' Hr. by wp_go.
    + destruct Hl2 as (-> & d & Ha & Hl2). wp_cond. wp_step.
      eapply wp_mono; [by eapply Hbody| |done].
      intros [s2|r] h3; [|intros; by wp_go]. intros (HI3 & d' & Ha' & Hh3).
      assert (h3 !! a = Some (CCons v d)) by congruence. wp_go.
      exists (length l2). simpl. split; [lia|]. exists (l1 ++ [(a, v)]), l2.
      split_and!; [by rewrite <- (assoc app)|done..].
  - exists [], l. done.
Qed.
End with_fuel.
