(* ===== verification/ListCopies.v ===== *)
(** * ListCopies: copies of trees and association lists, BUTLAST, LDIFF, PAIRLIS

    The rest of the functions of Lists.v that only add to the heap. *)

From S2P Require Import Prelude Words Objects Heap Numbers Segments Lists ListSpecs.
#[local] Open Scope Z_scope.

Section with_fuel.
Context `{!GMP}.

(** REVAPPEND puts the elements of a proper list in front of another object, from
    the last to the first; a dotted list is an error, reported with the whole list. *)
Theorem revappend_spec fuel h x l z y :
  lseg h x l z → MKCL_CONSP z = false → (length l < fuel)%nat →
  if mkcl_Null z
  then ∃ r h', mk_cl_revappend fuel x y h = Done r h' ∧ fresh_lseg h h' r (rev l.*2) y
  else ∃ h', mk_cl_revappend fuel x y h = Fail (FEtype_error_proper_list x) h' ∧ h ⊆ h'.
Proof.
  intros Hl Hz Hf.
  assert (Hwp : wp (mk_cl_revappend fuel x y) h
    (λ r h', mkcl_Null z = true ∧ fresh_lseg h h' r (rev l.*2) y)
    (λ e h', mkcl_Null z = false ∧ e = FEtype_error_proper_list x ∧ h ⊆ h')).
  { unfold mk_cl_revappend.
    eapply (wp_loop_for_in fuel h x l z (λ l1 out h1, fresh_lseg h h1 out (rev l1.*2) y));
      [done..| | |apply fresh_lseg_nil].
    - intros l1 a v l2 out h1 Heq Hout. rewrite Heq in Hl.
      pose proof Hl as (w & _ & -> & d & Ha & _)%lseg_app. weaken_lookup. wp_go. split.
      + rewrite fmap_snoc, rev_app_distr. simpl. by apply fresh_lseg_push.
      + exists d. split; [done|]. rewrite lookup_insert_ne; [congruence|].
        intros <-. by rewrite first_free_fresh in *.
    - intros out h1 Hout. destruct (mkcl_Null z); [by apply wp_ret|].
      split_and!; [done..|by apply Hout]. }
  unfold wp in Hwp. destruct (mkcl_Null z), (mk_cl_revappend fuel x y h); naive_solver.
Qed.

(** ** COPY-TREE *)

Lemma do_copy_tree_spec fuel t h0 h x :
  h0 ⊆ h → reps anywhere h0 x t → (height t < fuel)%nat →
  wp (do_copy_tree fuel x) h (λ r h', h ⊆ h' ∧ reps (new_in h0) h' r t) no_error.
Proof.
  revert fuel h x. induction t as [y|l IHl r IHr]; intros [|fuel] h x Hs Hx Hf; simpl in Hf; try lia.
  - simpl in *. destruct Hx as [-> Hy]. rewrite Hy. by wp_go.
  - destruct Hx as (a & v & d & -> & _ & Ha & Hl & Hr). cbn [do_copy_tree].
    pose proof (lookup_weaken _ _ _ _ Ha Hs) as Ha0. wp_go.
    eapply wp_mono; [apply IHl; [done..|lia]| |done]. intros ra h1 [Hs1 Hra].
    pose proof (lookup_weaken _ _ _ _ Ha0 Hs1). wp_go.
    eapply wp_mono; [apply IHr; [by etrans|done|lia]| |done]. intros rd h2 [Hs2 Hrd]. wp_go.
    assert (h ⊆ h2) by by etrans.
    split; [by apply subseteq_alloc|].
    exists (first_free h2), ra, rd. split_and!; [done| |by rewrite lookup_insert_eq|..].
    + apply first_free_None. by etrans.
    + eapply reps_heap; [|exact Hra]. by apply subseteq_alloc.
    + eapply reps_heap; [|exact Hrd]. apply insert_first_free_subseteq.
Qed.

(** COPY-TREE gives an equal tree all of whose conses are new. *)
Theorem copy_tree_copies fuel t h x :
  reps anywhere h x t → (height t < fuel)%nat →
  ∃ r h', mk_cl_copy_tree fuel x h = Done r h' ∧ h ⊆ h' ∧ reps (new_in h) h' r t.
Proof. intros Hx Hf. apply wp_done_inv. by apply do_copy_tree_spec. Qed.

(** ** MAKE-LIST *)

Lemma make_list_loop_spec fuel n e h :
  (Z.to_nat n < fuel)%nat →
  wp (loop fuel (λ '(i, x),
    if 0 <? i then x ← mkcl_cons e x; mret (inl (i - 1, x)) else mret (inr x)) (n, ONil)) h
    (λ r h', fresh_lseg h h' r (replicate (Z.to_nat n) e) ONil) no_error.
Proof.
  intros Hf.
  apply (wp_loop (λ m '(i, x) h1, m = Z.to_nat i ∧ (m ≤ Z.to_nat n)%nat ∧
    fresh_lseg h h1 x (replicate (Z.to_nat n - m) e) ONil) _ _ (Z.to_nat n)); [| |done].
  - intros m [i x] h1 (-> & Hi & Hx). destruct (Z.ltb_spec 0 i); wp_go.
    + exists (Z.to_nat (i - 1)). split; [lia|]. split_and!; [done|lia|].
      replace (Z.to_nat n - Z.to_nat (i - 1))%nat with (S (Z.to_nat n - Z.to_nat i)) by lia.
      by apply fresh_lseg_push.
    + by replace (Z.to_nat n - Z.to_nat i)%nat with (Z.to_nat n) in Hx by lia.
  - split_and!; [done|lia|]. rewrite Nat.sub_diag. apply fresh_lseg_nil.
Qed.

(** MAKE-LIST makes a new list of the size asked for, when that is below
    [2^63]; from there to [2^64] the size is taken for a negative number, and the
    result is NIL instead of a list (or of a storage exhaustion). *)
Theorem make_list_makes `{!GMPSpec} fuel size n e h :
  let vs := if n <? half_modulus then replicate (Z.to_nat n) e else [] in
  is_int size n → is_index n → (length vs < fuel)%nat →
  ∃ r h', mk_cl_make_list fuel size e h = Done r h' ∧ fresh_lseg h h' r vs ONil.
Proof.
  intros vs Hs Hn Hf. unfold vs in *. apply wp_done_inv. unfold mk_cl_make_list. apply wp_bind.
  eapply wp_Done; [by apply integer_to_index_spec|]. cbv beta.
  destruct (Z.ltb_spec n half_modulus).
  - rewrite length_replicate in Hf. rewrite swrap_small by (unfold_words; lia). by apply make_list_loop_spec.
  - assert (swrap n < 0).
    { unfold swrap. unfold_words. replace (n + 2 ^ 63) with (n - 2 ^ 63 + 1 * 2 ^ 64) by lia.
      rewrite Z.mod_add, Z.mod_small by lia. lia. }
    simpl in Hf. eapply wp_mono; [apply make_list_loop_spec; lia| |done].
    intros r h'. by replace (Z.to_nat (swrap n)) with 0%nat by lia.
Qed.

(** ** BUTLAST and LDIFF *)

Lemma butlast_loop_spec fuel h x l y n :
  MKCL_CONSP y = false → lseg h x l y → (n < length l)%nat → (length l < fuel)%nat →
  wp (a ← MKCL_CAR x; head ← mkcl_list1 a;
      loop fuel (λ '(tail, l, r),
        l ← MKCL_CONS_CDR l; r ← MKCL_CONS_CDR r;
        if MKCL_CONSP r then
          a ← MKCL_CONS_CAR l; cons ← mkcl_list1 a;
          MKCL_RPLACD tail cons;;
          mret (inl (cons, l, r))
        else mret (inr tt)) (head, x, Nat.iter n (next_cdr h) x);;
      mret head) h
    (λ r h', fresh_lseg h h' r (take (length l - n) l.*2) ONil) no_error.
Proof.
  intros Hy Hl Hn Hf.
  destruct (lseg_iter_elem h x l y 0) as (a & v & Hx & Hv & Ha); [done..|lia|].
  simpl in Hx. subst x. simpl Nat.iter in Ha. wp_go.
  eapply (wp_loop (λ m s h1, ∃ k tail, (n + k < length l)%nat ∧ m = (length l - n - k)%nat ∧
    s = (tail, Nat.iter k (next_cdr h) (OCons a), Nat.iter (n + k) (next_cdr h) (OCons a)) ∧
    building h h1 (OCons (first_free h)) tail (take (S k) l.*2) ONil) _ _ (length l - n)).
  - intros m s h1 (k & tail & Hk & -> & -> & Hb).
    destruct (lseg_iter_elem h (OCons a) l y k) as (b & w & -> & _ & Hbk); [done..|lia|].
    destruct (lseg_iter_elem h (OCons a) l y (n + k)) as (c & u & -> & _ & Hck); [done..|].
    do 3 try weaken_lookup. wp_go. rewrite (lseg_iter_CONSP h (OCons a) l y) by (done || lia).
    case_bool_decide as Hnk.
    + destruct (lseg_iter_elem h (OCons a) l y (S k)) as (b' & w' & Hit & Hw' & Hb'); [done..|lia|].
      rewrite Hit. weaken_lookup. wp_go. eapply wp_link; [done|]. intros h2 Hb2 _. wp_go.
      exists (length l - n - S k)%nat. split; [lia|]. eexists (S k), _.
      split_and!; [lia|done| |].
      * by rewrite Nat.add_succ_r, Hit.
      * by rewrite (take_S_r _ _ _ Hw').
    + wp_go. replace (length l - n)%nat with (S k) by lia. by eapply building_fresh.
  - eexists 0%nat, _. rewrite Nat.add_0_r. split_and!; [lia..|done|].
    destruct l as [|[a' v'] l]; [simpl in *; lia|]. simpl in Hv. injection Hv as ->.
    simpl. rewrite take_0. by apply building_start.
  - lia.
Qed.

(** BUTLAST copies all the conses of a list but the last [n], and drops a dotted
    end; NIL when there are no more than [n].  An atom other than NIL is an
    error. *)
Theorem butlast_copies fuel h x l y n :
  lseg h x l y → MKCL_CONSP y = false → 0 ≤ n → (length l < fuel)%nat →
  if bool_decide (l = []) && negb (mkcl_Null y)
  then mk_cl_butlast fuel x (OFix n) h = Fail (FEtype_error_list x) h
  else ∃ r h', mk_cl_butlast fuel x (OFix n) h = Done r h' ∧
               fresh_lseg h h' r (take (length l - Z.to_nat n) l.*2) ONil.
Proof.
  intros Hl Hy Hn Hf.
  assert (Hstart : mk_cl_butlast fuel x (OFix n) h = mkcl_butlast fuel x n h).
  { unfold mk_cl_butlast, mkcl_integer_to_index. rewrite (proj2 (Z.leb_le 0 n)) by done.
    apply bind_ret. }
  rewrite Hstart. unfold mkcl_butlast.
  destruct (wp_done_inv _ _ _ (skip_conses_spec fuel n h x l y Hy Hl Hn Hf))
    as (r & h' & E & -> & k & Hk & ->).
  rewrite (bind_Done _ _ _ _ _ E). cbv beta iota. clear E.
  pose proof (lseg_iter_CONSP h x l y k Hy Hl) as Hc.
  destruct (decide (Z.to_nat n < length l)%nat) as [Hlt|Hge].
  - rewrite bool_decide_eq_true_2 in Hc by lia.
    assert (mkcl_Null (Nat.iter k (next_cdr h) x) = false ∧
            MKCL_LISTP (Nat.iter k (next_cdr h) x) = true) as [-> ->].
    { destruct (proj1 (CONSP_true _) (Hc ltac:(lia))) as [a ->]. done. }
    rewrite bool_decide_eq_false_2 by (intros ->; simpl in *; lia).
    apply wp_done_inv. replace (Z.to_nat n) with k by lia. simpl negb. cbv iota.
    apply (butlast_loop_spec fuel h x l y); [done..|lia|done].
  - replace k with (length l) by lia. rewrite (lseg_iter_end _ _ _ _ Hl).
    replace (length l - Z.to_nat n)%nat with 0%nat by lia. rewrite take_0.
    assert (Hret : ∀ b : bool, b = false → if b then (mret ONil : M obj) h = Fail (FEtype_error_list x) h
      else ∃ r h', (mret ONil : M obj) h = Done r h' ∧ fresh_lseg h h' r [] ONil).
    { intros ? ->. eexists _, _. split; [done|apply fresh_lseg_nil]. }
    destruct (mkcl_Null y) eqn:Ey; [apply Hret; by rewrite andb_false_r|].
    rewrite LISTP_cases, Ey, Hy. simpl negb. cbv iota. rewrite andb_true_r. clear Hc.
    case_bool_decide as Hnil.
    + subst l. simpl in Hl. subst y. by rewrite obj_eq_refl.
    + rewrite (proj2 (obj_eq_false y x)); [by apply (Hret false)|]. intros ->.
      destruct l as [|[a v] l]; [done|]. by destruct Hl as [-> _].
Qed.

(** The copying loop of LDIFF, with [l1] conses before the stop at [y]. *)
Lemma ldiff_loop_spec fuel h x l1 y l2 z :
  lseg h x l1 z → lseg h z l2 y → MKCL_CONSP y = false → l1 ≠ [] → (length l1 < fuel)%nat →
  ∀ w : obj,
  (z = w ∧ MKCL_CONSP w = true) ∨ (z = y ∧ ∀ a, a ∈ l1.*1 → w ≠ OCons a) →
  wp (a ← MKCL_CONS_CAR x; head ← mkcl_list1 a;
      loop fuel (λ '(tail, x),
        x ← MKCL_CONS_CDR x;
        if negb (MKCL_CONSP x) then
          when (negb (mkcl_eql x w)) (MKCL_RPLACD tail x);; mret (inr tt)
        else if obj_eq x w then mret (inr tt)
        else
          a ← MKCL_CONS_CAR x; cons ← mkcl_list1 a;
          MKCL_RPLACD tail cons;;
          mret (inl (cons, x))) (head, x);;
      mret head) h
    (λ r h', fresh_lseg h h' r l1.*2 (if mkcl_eql z w then ONil else z)) no_error.
Proof.
  intros Hl1 Hl2 Hy Hne Hf w Hw. destruct l1 as [|[a v] l1]; [done|].
  destruct Hl1 as (-> & d & Ha & Hl1). wp_go.
  eapply (wp_loop (λ n '(tail, x) h1, ∃ b u vs bs ws d,
    x = OCons b ∧ h !! b = Some (CCons u d) ∧ lseg h d ws z ∧
    building h h1 (OCons (first_free h)) tail vs ONil ∧ v :: l1.*2 = vs ++ ws.*2 ∧
    a :: l1.*1 = bs ++ ws.*1 ∧ bs ≠ [] ∧ n = length ws)).
  - intros n [tail x] h1 (b & u & vs & bs & ws & d' & -> & Hb & Hws & Hbd & Heq & Hbs & Hbne & ->).
    weaken_lookup. wp_cond. do 2 wp_step. destruct ws as [|[c e] ws].
    + simpl in Hws. subst d'. change (((a, v) :: l1).*2) with (v :: l1.*2).
      rewrite Heq, app_nil_r. destruct Hw as [[-> Hwc]|[-> Hwn]].
      * rewrite Hwc, obj_eq_refl, mkcl_eql_refl. wp_go. by eapply building_fresh.
      * rewrite Hy. simpl negb. cbv iota. unfold when.
        destruct (mkcl_eql y w); simpl negb; cbv iota; wp_go; [by eapply building_fresh|].
        eapply wp_close; [done|]. intros h2 Hb2. wp_go. by eapply building_fresh.
    + destruct Hws as (-> & d'' & Hc & Hws). weaken_lookup. wp_cond.
      rewrite (proj2 (obj_eq_false _ _)).
      * wp_go. eapply wp_link; [done|]. intros h2 Hb2 _. wp_go.
        exists (length ws). simpl. split; [lia|].
        exists c, e, (vs ++ [e]), (bs ++ [c]), ws, d''.
        split_and!; [done..| | | |done].
        -- by rewrite Heq, <- (assoc app).
        -- by rewrite Hbs, <- (assoc app).
        -- by destruct bs.
      * destruct Hw as [[<- Hwc]|[-> Hwn]].
        -- intros Hcz. subst z. destruct (lseg_atom_unique h (OCons c) ((c, e) :: ws ++ l2) l2 y y)
             as [Hll _]; [done|done| |done|].
           { simpl. split; [done|]. exists d''. split; [done|]. apply lseg_app. eauto. }
           apply (f_equal length) in Hll. simpl in Hll. rewrite length_app in Hll. lia.
        -- intros <-. apply (Hwn c); [|done]. change (((a, v) :: l1).*1) with (a :: l1.*1).
           rewrite Hbs. apply elem_of_app. right. simpl. apply elem_of_cons. by left.
  - exists a, v, [v], [a], l1, d. split_and!; [done..|by apply building_start|done|done|done|done].
  - simpl in Hf. lia.
Qed.

(** LDIFF copies the conses of a list up to its tail [y], found by identity;
    when [y] is no tail, the whole list, without its final atom if that is
    EQL to [y]. *)
Theorem ldiff_copies fuel h x l1 l2 y w :
  MKCL_CONSP y = false → (length l1 < fuel)%nat →
  (* the tail [w] is met after [l1] *)
  (lseg h x l1 w → lseg h w l2 y → MKCL_CONSP w = true →
   ∃ r h', mk_cl_ldiff fuel x w h = Done r h' ∧ fresh_lseg h h' r l1.*2 ONil) ∧
  (* no cons of the list is [w] *)
  (lseg h x l1 y → l1 ≠ [] ∨ y = ONil → (∀ a, a ∈ l1.*1 → w ≠ OCons a) →
   ∃ r h', mk_cl_ldiff fuel x w h = Done r h' ∧
           fresh_lseg h h' r l1.*2 (if mkcl_eql y w then ONil else y)).
Proof.
  intros Hy Hf. unfold mk_cl_ldiff. split.
  - intros Hl1 Hl2 Hw. destruct (decide (l1 = [])) as [->|Hne].
    { simpl in Hl1. subst x. destruct w; try done. rewrite obj_eq_refl.
      eexists _, _. split; [done|apply fresh_lseg_nil]. }
    assert (x ≠ w) as Hxw.
    { intros ->. assert (lseg h w (l1 ++ l2) y) as Hfull by (apply lseg_app; eauto).
      destruct (lseg_atom_unique _ _ _ _ _ _ Hy Hy Hfull Hl2) as [Hll _].
      apply (f_equal length) in Hll. rewrite length_app in Hll. destruct l1; simpl in *; [done|lia]. }
    assert (∃ a, x = OCons a) as [a ->] by (destruct l1 as [|[a v] l1]; [done|destruct Hl1; eauto]).
    rewrite (proj2 (obj_eq_false _ _)) by done. wp_cond. apply wp_done_inv.
    eapply wp_mono; [apply (ldiff_loop_spec fuel h (OCons a) l1 y l2 w); eauto| |done].
    intros r h'. by rewrite mkcl_eql_refl.
  - intros Hl1 Hor Hnw. destruct (decide (l1 = [])) as [->|Hne].
    { simpl in Hl1. subst x. destruct Hor as [| ->]; [done|].
      replace (if mkcl_eql ONil w then ONil else ONil) with ONil by by destruct (mkcl_eql ONil w).
      eexists _, _. split; [done|apply fresh_lseg_nil]. }
    assert (∃ a, x = OCons a ∧ w ≠ OCons a) as (a & -> & Hwa).
    { destruct l1 as [|[a v] l1]; [done|]. destruct Hl1 as [-> _]. exists a. split; [done|].
      apply Hnw. simpl. apply elem_of_cons. by left. }
    rewrite (proj2 (obj_eq_false _ _)) by congruence. wp_cond. apply wp_done_inv.
    apply (ldiff_loop_spec fuel h (OCons a) l1 y [] y); [done..|by right].
Qed.

(** ** COPY-ALIST *)

(** [v'] is a copy of the pair [v], or [v] itself when that is no pair. *)
Definition pair_copy (h h' : heap) (v v' : obj) : Prop :=
  if MKCL_CONSP v then
    ∃ a b w u, v = OCons a ∧ v' = OCons b ∧ h !! b = None ∧
               h !! a = Some (CCons w u) ∧ h' !! b = Some (CCons w u)
  else v' = v.

Lemma pair_copy_mono h h1 h2 v v' : h1 ⊆ h2 → pair_copy h h1 v v' → pair_copy h h2 v v'.
Proof.
  unfold pair_copy. intros Hs. destruct (MKCL_CONSP v); [|done].
  intros (a & b & w & u & ? & ? & ? & ? & ?). exists a, b, w, u. split_and!; try done.
  by eapply lookup_weaken.
Qed.

Lemma Forall2_pair_copy_mono h h1 h2 vs vs' :
  h1 ⊆ h2 → Forall2 (pair_copy h h1) vs vs' → Forall2 (pair_copy h h2) vs vs'.
Proof. intros Hs Hv. eapply Forall2_impl; [exact Hv|]. intros. by eapply pair_copy_mono. Qed.

(** The pairs of an association list are in the heap. *)
Definition pair_ok (h : heap) (v : obj) : Prop :=
  ∀ a, v = OCons a → ∃ w u, h !! a = Some (CCons w u).

(** What the copy of the pair [v] adds to the heap. *)
Definition pair_step (h h1 h2 : heap) (v v' : obj) : Prop :=
  (MKCL_CONSP v = false ∧ h2 = h1 ∧ v' = v) ∨
  (∃ a w u, v = OCons a ∧ h !! a = Some (CCons w u) ∧
            h2 = <[first_free h1 := CCons w u]> h1 ∧ v' = OCons (first_free h1)).

Lemma duplicate_pairs_spec h h1 c v d :
  h ⊆ h1 → h !! c = Some (CCons v d) → pair_ok h v →
  wp (duplicate_pairs (OCons c)) h1 (λ r h', ∃ h2 v', pair_step h h1 h2 v v' ∧
    r = OCons (first_free h2) ∧ h' = <[first_free h2 := CCons v' ONil]> h2) no_error.
Proof.
  intros Hs Hc Hok. pose proof (lookup_weaken _ _ _ _ Hc Hs). unfold duplicate_pairs. wp_go.
  destruct (MKCL_CONSP v) eqn:Ev.
  - pose proof (proj1 (CONSP_true _) Ev) as [a ->]. destruct (Hok a eq_refl) as (w & u & Ha).
    pose proof (lookup_weaken _ _ _ _ Ha Hs). wp_go.
    eexists _, _. split; [right; eauto 10|]. done.
  - wp_go. exists h1, v. split_and!; [by left|done..].
Qed.

(** The step seen from a part [hp] of the heap that the list under
    construction is not in. *)
Lemma pair_step_copy h hp h1 h2 v v' head tail vs z :
  pair_step h h1 h2 v v' → h ⊆ hp → building hp h1 head tail vs z →
  ∃ hp', hp ⊆ hp' ∧ building hp' h2 head tail vs z ∧ pair_copy h hp' v v'.
Proof.
  intros [(Hv & -> & ->)|(a & w & u & -> & Ha & -> & ->)] Hs Hb.
  - exists hp. split_and!; [done..|]. unfold pair_copy. by rewrite Hv.
  - exists (<[first_free h1 := CCons w u]> hp).
    pose proof (building_subseteq _ _ _ _ _ _ Hb) as Hs1.
    pose proof (first_free_None _ _ Hs1).
    split_and!; [by apply insert_subseteq|by apply building_extend|].
    unfold pair_copy. simpl. exists a, (first_free h1), w, u.
    split_and!; [done..| |done|by rewrite lookup_insert_eq].
    by eapply lookup_weaken_None.
Qed.

Lemma pair_step_start h h2 v v' :
  pair_step h h h2 v v' → h ⊆ h2 ∧ pair_copy h h2 v v'.
Proof.
  intros [(Hv & -> & ->)|(a & w & u & -> & Ha & -> & ->)].
  - split; [done|]. unfold pair_copy. by rewrite Hv.
  - split; [apply insert_first_free_subseteq|]. unfold pair_copy. simpl.
    exists a, (first_free h), w, u.
    split_and!; [done..|apply first_free_fresh|done|by rewrite lookup_insert_eq].
Qed.

(** COPY-ALIST makes new conses for a proper list and for each of its pairs;
    elements that are no pairs, and the contents of the pairs, are shared.  A
    dotted list is an error. *)
Theorem copy_alist_copies fuel h x l y :
  lseg h x l y → MKCL_CONSP y = false → (length l < fuel)%nat → Forall (pair_ok h) l.*2 →
  if mkcl_Null y
  then ∃ r h' vs, mk_cl_copy_alist fuel x h = Done r h' ∧
         fresh_lseg h h' r vs ONil ∧ Forall2 (pair_copy h h') l.*2 vs
  else ∃ h', mk_cl_copy_alist fuel x h = Fail (FEtype_error_list y) h' ∧ h ⊆ h'.
Proof.
  intros Hl Hy Hf Hok.
  assert (Hwp : wp (mk_cl_copy_alist fuel x) h
    (λ r h', y = ONil ∧ ∃ vs, fresh_lseg h h' r vs ONil ∧ Forall2 (pair_copy h h') l.*2 vs)
    (λ e h', mkcl_Null y = false ∧ e = FEtype_error_list y ∧ h ⊆ h')).
  2: { unfold wp in Hwp. destruct (mkcl_Null y) eqn:E, (mk_cl_copy_alist fuel x h);
         naive_solver. }
  unfold mk_cl_copy_alist. destruct l as [|[a v] l].
  { simpl in Hl. subst x. rewrite LISTP_cases, Hy, orb_false_r.
    destruct (mkcl_Null y) eqn:Ey; simpl negb; cbv iota; [|by apply wp_raise].
    apply Null_true in Ey as ->. apply wp_ret. split; [done|]. exists [].
    split; [apply fresh_lseg_nil|constructor]. }
  destruct Hl as (-> & d & Ha & Hl). simpl in Hok. inversion Hok as [|? ? Hokv Hokl]; subst.
  wp_go. eapply wp_mono; [by eapply duplicate_pairs_spec| |done].
  intros r h' (h2 & v' & [Hs2 Hv']%pair_step_start & -> & ->).
  wp_go. eapply (wp_loop (λ n '(tail, x) h1, ∃ hp b vs ws u d vs',
    x = OCons b ∧ h !! b = Some (CCons u d) ∧ lseg h d ws y ∧ h ⊆ hp ∧
    building hp h1 (OCons (first_free h2)) tail vs' ONil ∧ Forall2 (pair_copy h hp) vs vs' ∧
    v :: l.*2 = vs ++ ws.*2 ∧ Forall (pair_ok h) ws.*2 ∧ n = length ws)).
  - clear Hl Hv'. intros n [tail x] h1
      (hp & b & vs & ws & u & d' & vs' & -> & Hb & Hws & Hhp & Hbd & Hvs & Heq & Hokw & ->).
    pose proof (lookup_weaken _ _ _ _ Hb Hhp). weaken_lookup. wp_cond. do 2 wp_step.
    destruct ws as [|[c e] ws].
    + simpl in Hws. subst d'. rewrite app_nil_r in Heq.
      assert (h ⊆ h1) by (etrans; [done|by eapply building_subseteq]).
      destruct (mkcl_Null y) eqn:Ey; simpl negb; cbv iota.
      * apply Null_true in Ey as ->. wp_go. split; [done|]. exists vs'. split.
        -- eapply fresh_lseg_trans; [exact Hhp|by eapply building_fresh].
        -- change (((a, v) :: l).*2) with (v :: l.*2). rewrite Heq.
           eapply Forall2_pair_copy_mono; [by eapply building_subseteq|done].
      * rewrite LISTP_cases, Ey, Hy. by apply wp_raise.
    + destruct Hws as (-> & d'' & Hc & Hws). simpl in Hokw. inversion Hokw; subst.
      wp_cond. wp_step.
      eapply wp_mono; [eapply duplicate_pairs_spec; [|done..]| |done].
      { etrans; [exact Hhp|by eapply building_subseteq]. }
      intros r h3 (h4 & e' & Hstep & -> & ->). wp_step.
      destruct (pair_step_copy _ _ _ _ _ _ _ _ _ _ Hstep Hhp Hbd) as (hp' & Hhp1 & Hbd' & He').
      eapply wp_link; [done|]. intros h5 Hb5 _. wp_go.
      exists (length ws). simpl. split; [lia|].
      exists hp', c, (vs ++ [e]), ws, e, d'', (vs' ++ [e']).
      split_and!; [done..|by etrans|done| | |done|done].
      * apply Forall2_app; [by eapply Forall2_pair_copy_mono|]. by constructor.
      * by rewrite Heq, <- (assoc app).
  - exists h2, a, [v], l, v, d, [v']. split_and!; [done..|by apply building_start|by constructor|done|done|done].
  - simpl in Hf. lia.
Qed.

(** ** PAIRLIS *)

(** [v] is a new pair of [k] and [d]. *)
Definition new_pair (h h' : heap) (v : obj) (kd : obj * obj) : Prop :=
  ∃ p, v = OCons p ∧ h !! p = None ∧ h' !! p = Some (CCons kd.1 kd.2).

Lemma new_pairs_mono h h1 h2 vs kds :
  h1 ⊆ h2 → Forall2 (new_pair h h1) vs kds → Forall2 (new_pair h h2) vs kds.
Proof.
  intros Hs Hv. eapply Forall2_impl; [exact Hv|]. intros v kd (p & ? & ? & ?).
  exists p. split_and!; try done. by eapply lookup_weaken.
Qed.

Lemma mkcl_endp_nil h : mkcl_endp ONil h = Done true h.
Proof. done. Qed.
Lemma mkcl_endp_cons a h : mkcl_endp (OCons a) h = Done false h.
Proof. done. Qed.

(** PAIRLIS puts new pairs of the keys and the data in front of an association
    list, the last key first; lists of different lengths are an error. *)
Theorem pairlis_pairs fuel h keys data ks ds alist :
  is_list h keys ks → is_list h data ds → (length ks < fuel)%nat →
  if bool_decide (length ks = length ds)
  then ∃ r h' ps, mk_cl_pairlis fuel keys data alist h = Done r h' ∧
         fresh_lseg h h' r ps alist ∧ Forall2 (new_pair h h') ps (rev (zip ks ds))
  else ∃ h', mk_cl_pairlis fuel keys data alist h =
         Fail (FEerror "The keys ~S and the data ~S are not of the same length" [keys; data]) h' ∧
       h ⊆ h'.
Proof.
  intros (lk & Hlk & <-) (ld & Hld & <-) Hf. rewrite !length_fmap in *.
  assert (Hwp : wp (mk_cl_pairlis fuel keys data alist) h
    (λ r h', length lk = length ld ∧ ∃ ps, fresh_lseg h h' r ps alist ∧
             Forall2 (new_pair h h') ps (rev (zip lk.*2 ld.*2)))
    (λ e h', length lk ≠ length ld ∧ h ⊆ h' ∧
       e = FEerror "The keys ~S and the data ~S are not of the same length" [keys; data])).
  2: { unfold wp in Hwp. case_bool_decide; destruct (mk_cl_pairlis fuel keys data alist h);
         naive_solver. }
  unfold mk_cl_pairlis, pairlis_error.
  eapply (wp_loop_for_in fuel h keys lk ONil (λ l1 s h1, ∃ ld1 ld2 ps, ld = ld1 ++ ld2 ∧
    lseg h s.1 ld2 ONil ∧ length ld1 = length l1 ∧ fresh_lseg h h1 s.2 ps alist ∧
    Forall2 (new_pair h h1) ps (rev (zip l1.*2 ld1.*2)))); [done..| | |].
  - intros l1 k v l2 [d al] h1 Heq (ld1 & ld2 & ps & -> & Hd & Hlen & Hfr & Hps). simpl in Hd, Hfr.
    rewrite Heq in Hlk. pose proof Hlk as (w & _ & -> & dk & Hk & _)%lseg_app. weaken_lookup.
    assert (h ⊆ h1) by apply Hfr. destruct ld2 as [|[b u] ld2].
    + simpl in Hd. subst d. apply wp_bind. eapply wp_Done; [apply mkcl_endp_nil|].
      apply wp_raise. split_and!; [|done..]. rewrite Heq, app_nil_r, length_app. simpl. lia.
    + destruct Hd as (-> & d' & Hb & Hd). apply wp_bind.
      eapply wp_Done; [apply mkcl_endp_cons|]. weaken_lookup. wp_go.
      set (h2 := <[first_free h1 := _]> h1). set (h3 := <[first_free h2 := _]> h2).
      assert (h1 ⊆ h2) by apply insert_first_free_subseteq.
      assert (h2 ⊆ h3) by apply insert_first_free_subseteq.
      assert (h3 !! b = Some (CCons u d')).
      { eapply lookup_weaken; [exact Hb|]. etrans; [done|]. by etrans. }
      wp_go. split.
      * exists (ld1 ++ [(b, u)]), ld2, (OCons (first_free h1) :: ps).
        split_and!; [by rewrite <- (assoc app)|done|rewrite !length_app; simpl; lia| |].
        -- destruct Hfr as (Hs & l & Hl & <- & Hn). apply fresh_lseg_push.
           split; [by etrans|]. exists l. split_and!; [by eapply lseg_mono|done..].
        -- rewrite !fmap_snoc, zip_with_app, rev_app_distr by (by rewrite !length_fmap).
           simpl. constructor; [|eapply new_pairs_mono; [|exact Hps]; by etrans].
           exists (first_free h1). split_and!; [done|by apply first_free_None|].
           simpl. eapply lookup_weaken; [|done]. unfold h2. by rewrite lookup_insert_eq.
      * exists dk. split; [done|]. rewrite Hk. eapply lookup_weaken; [exact Hk|].
        etrans; [done|]. by etrans.
  - intros [d al] h1 (ld1 & ld2 & ps & -> & Hd & Hlen & Hfr & Hps). simpl in Hd, Hfr |- *.
    destruct ld2 as [|[b u] ld2].
    + simpl in Hd. subst d. apply wp_bind. eapply wp_Done; [apply mkcl_endp_nil|].
      wp_go. rewrite app_nil_r in *. split; [done|]. by exists ps.
    + destruct Hd as (-> & _). apply wp_bind. eapply wp_Done; [apply mkcl_endp_cons|].
      apply wp_raise. split_and!; [|by apply Hfr|done]. rewrite length_app. simpl. lia.
  - exists [], ld, []. split_and!; [done..|apply fresh_lseg_nil|constructor].
Qed.

(** ** The CxR functions *)

(** The subtree that the operations select, the last one first; NIL is its own
    car and cdr, and any other leaf has none. *)
Fixpoint select (code : list cxr_op) (t : tree) : obj + tree :=
  match code with
  | [] => inr t
  | op :: code' =>
      match select code' t with
      | inl e => inl e
      | inr (Node l r) => inr (match op with A => l | D => r end)
      | inr (Leaf ONil) => inr (Leaf ONil)
      | inr (Leaf e) => inl e
      end
  end.

(** CAR, CDR and the twenty-eight CxR functions select a subtree; going through an
    atom other than NIL is an error that names the atom. *)
Theorem cxr_selects code h x t :
  reps anywhere h x t →
  match select code t with
  | inr t' => ∃ y, defcxr code x h = Done y h ∧ reps anywhere h y t'
  | inl e => defcxr code x h = Fail (FEtype_error_list e) h
  end.
Proof.
  intros Hx. induction code as [|op code IH]; simpl; [eauto|].
  destruct (select code t) as [e|t']; [by rewrite (bind_Fail _ _ _ _ _ IH)|].
  destruct IH as (y & E & Hy). rewrite (bind_Done _ _ _ _ _ E).
  destruct t' as [z|l r]; simpl in Hy.
  - destruct Hy as [-> Hz]. destruct z; try done. by exists ONil.
  - destruct Hy as (a & v & d & -> & _ & Ha & Hl & Hr). unfold cxr_step. simpl.
    destruct op; [rewrite (CAR_eq _ _ _ _ Ha)|rewrite (CDR_eq _ _ _ _ Ha)]; eauto.
Qed.
End with_fuel.
