(* ===== verification/ListDestr.v ===== *)
(** * ListDestr: the destructive list operations

    NREVERSE, NRECONC, NCONC, NBUTLAST, RPLACA and RPLACD reuse the conses of
    their arguments.  The theorems give the conses of the result, in terms of
    those of the arguments, and say that no other cell of the heap changes. *)

From S2P Require Import Prelude Words Objects Heap Numbers Segments Lists ListSpecs.
#[local] Open Scope Z_scope.

(** The cells that may differ are those of [l]. *)
Definition same_outside (l : cells) (h h' : heap) : Prop :=
  ∀ a, a ∉ l.*1 → h' !! a = h !! a.

Lemma same_outside_refl l h : same_outside l h h.
Proof. done. Qed.

Lemma same_outside_lseg l h h' x l' y :
  same_outside l h h' → (∀ a, a ∈ l'.*1 → a ∉ l.*1) → lseg h x l' y → lseg h' x l' y.
Proof. intros Hs Hd. apply lseg_agree. intros a Ha. symmetry. by apply Hs, Hd. Qed.

Lemma same_outside_trans l1 l2 h h1 h2 :
  same_outside l1 h h1 → same_outside l2 h1 h2 → same_outside (l1 ++ l2) h h2.
Proof.
  intros H1 H2 a. rewrite fmap_app, not_elem_of_app. intros [? ?]. by rewrite H2, H1.
Qed.

Lemma same_outside_mono l1 l2 h h' :
  (∀ a, a ∈ l1.*1 → a ∈ l2.*1) → same_outside l1 h h' → same_outside l2 h h'.
Proof. intros Hs H a Ha. apply H. auto. Qed.

Lemma same_outside_insert l h a v c : (a, v) ∈ l → same_outside l h (<[a := c]> h).
Proof.
  intros Hin b Hb. rewrite lookup_insert_ne; [done|]. intros ->. apply Hb.
  apply list_elem_of_fmap. by exists (b, v).
Qed.

Lemma elem_of_rev_fmap (l : cells) a : a ∈ (rev l).*1 ↔ a ∈ l.*1.
Proof.
  rewrite !list_elem_of_fmap. setoid_rewrite list_elem_of_In. by setoid_rewrite <- in_rev.
Qed.

Section with_fuel.
Context `{!GMP}.

(** ** NREVERSE *)

(** NREVERSE of a proper list reverses the order of its conses in place: the
    same conses with the same cars, and no other cell is written. *)
Theorem nreverse_in_place fuel h x l :
  lseg h x l ONil → (length l < fuel)%nat →
  ∃ r h', mkcl_nreverse_proper_list fuel x h = Done r h' ∧
          lseg h' r (rev l) ONil ∧ same_outside l h h'.
Proof.
  intros Hl Hf. apply wp_done_inv. pose proof (lseg_NoDup h x l ONil eq_refl Hl) as Hnd.
  eapply (wp_loop (λ n '(old, new) h1, ∃ l1 l2, l = l1 ++ l2 ∧ lseg h1 old l2 ONil ∧
    lseg h1 new (rev l1) ONil ∧ same_outside l h h1 ∧ n = length l2)).
  - intros n [old new] h1 (l1 & l2 & -> & H2 & H1 & Hs & ->). destruct l2 as [|[a v] l2].
    + simpl in H2. subst old. wp_go. by rewrite app_nil_r in *.
    + destruct H2 as (-> & d & Ha & H2). wp_go.
      rewrite fmap_app in Hnd. apply NoDup_app in Hnd as (Hnd1 & Hd & Hnd2).
      simpl in Hnd2. apply NoDup_cons in Hnd2 as [Ha2 Hnd2].
      assert (a ∉ l1.*1) as Ha1 by (intros ?; by eapply Hd; [done|left]).
      exists (length l2). simpl. split; [lia|]. exists (l1 ++ [(a, v)]), l2.
      split_and!; [by rewrite <- (assoc app)|by apply lseg_insert_ne| | |done].
      * rewrite rev_app_distr. simpl. split; [done|]. exists new.
        rewrite lookup_insert_eq. split; [done|]. apply lseg_insert_ne; [|done].
        by rewrite elem_of_rev_fmap.
      * intros b Hb. rewrite lookup_insert_ne; [by apply Hs|]. intros <-. apply Hb.
        rewrite fmap_app. apply elem_of_app. right. left.
  - exists [], l. done.
  - done.
Qed.

(** ** NRECONC *)

Definition nreconc_body (L : obj) (s : obj * obj) : M (obj * obj + obj) :=
  let '(x, y) := s in
  if negb (mkcl_Null x) then
    if negb (MKCL_LISTP x) then raise (FEtype_error_list x)
    else
      let z := x in
      x ← MKCL_CONS_CDR x;
      if obj_eq x L then raise (FEcircular_list L)
      else MKCL_RPLACD z y;; mret (inl (x, z))
  else mret (inr y).

Lemma nreconc_unfold fuel L y : mk_cl_nreconc fuel L y = loop fuel (nreconc_body L) (L, y).
Proof. done. Qed.

(** The loop over a segment that does not lead back to [L]. *)
Lemma nreconc_run L n l h x y z :
  lseg h x l z → NoDup l.*1 → (∀ a, a ∈ tail l.*1 → OCons a ≠ L) → z ≠ L →
  ∃ r h', loop (length l + n) (nreconc_body L) (x, y) h = loop n (nreconc_body L) (z, r) h' ∧
          lseg h' r (rev l) y ∧ same_outside l h h'.
Proof.
  revert h x y. induction l as [|[a v] l IH]; intros h x y Hl Hnd HL Hz.
  - simpl in Hl. subst x. exists y, h. done.
  - destruct Hl as (-> & d & Ha & Hl). simpl in Hnd, HL. apply NoDup_cons in Hnd as [Hal Hnd].
    assert (d ≠ L) as HdL.
    { destruct l as [|[b w] l]; simpl in Hl; [by subst d|]. destruct Hl as [-> _].
      apply HL. simpl. left. }
    destruct (IH (<[a := CCons v y]> h) d (OCons a)) as (r & h' & E & Hr & Hs); [|done| |done|].
    { by apply lseg_insert_ne. }
    { intros b Hb. apply HL. destruct l; [by apply elem_of_nil in Hb|]. by right. }
    exists r, h'. split_and!.
    + rewrite <- E. simpl length. rewrite Nat.add_succ_l. apply loop_inl.
      unfold nreconc_body. simpl. rewrite (bind_Done _ _ _ _ _ (CDR_eq _ _ _ _ Ha)).
      rewrite (proj2 (obj_eq_false _ _)) by done.
      by rewrite (bind_Done _ _ _ _ _ (RPLACD_eq _ _ _ _ _ Ha)).
    + simpl. apply lseg_app. exists (OCons a). split; [done|]. simpl. split; [done|].
      exists y. split; [|done]. rewrite Hs by done. by rewrite lookup_insert_eq.
    + intros b Hb. simpl in Hb. apply not_elem_of_cons in Hb as [Hba Hbl].
      rewrite Hs by done. by rewrite lookup_insert_ne.
Qed.

(** The loop over a segment that leads back to [L]. *)
Lemma nreconc_back L n l h x y :
  lseg h x l L → l ≠ [] → NoDup l.*1 → (∀ a, a ∈ tail l.*1 → OCons a ≠ L) → (length l ≤ n)%nat →
  ∃ h', loop n (nreconc_body L) (x, y) h = Fail (FEcircular_list L) h'.
Proof.
  intros Hl Hne Hnd HL Hn. destruct (snoc_inv l) as [->|(l' & [b w] & ->)]; [done|].
  apply lseg_snoc_inv in Hl as [Hl Hb]. rewrite fmap_snoc in Hnd, HL. rewrite length_app in Hn.
  simpl in Hn. pose proof Hnd as (Hnd' & Hd & _)%NoDup_app.
  assert (∃ y' h1, loop n (nreconc_body L) (x, y) h =
            loop (n - length l') (nreconc_body L) (OCons b, y') h1 ∧
            h1 !! b = Some (CCons w L)) as (y' & h1 & -> & Hb1).
  { destruct l' as [|[a v] l'].
    - simpl in Hl. subst x. exists y, h. simpl. by rewrite Nat.sub_0_r.
    - destruct (nreconc_run L (n - length ((a, v) :: l')) ((a, v) :: l') h x y (OCons b))
        as (r & h1 & E & _ & Hs); [done..| | |].
      + intros c Hc. apply HL. simpl in *. apply elem_of_app. by left.
      + apply HL. simpl. apply elem_of_app. right. left.
      + exists r, h1. split; [rewrite <- E; f_equal; lia|]. rewrite Hs; [done|].
        intros Hin. eapply Hd; [done|]. left. }
  destruct (n - length l')%nat as [|m] eqn:Em; [lia|]. eexists. apply loop_Fail.
  unfold nreconc_body. simpl. rewrite (bind_Done _ _ _ _ _ (CDR_eq _ _ _ _ Hb1)).
  by rewrite obj_eq_refl.
Qed.

Lemma acyclic_tail_neq h x l z a :
  lseg h x l z → NoDup l.*1 → a ∈ tail l.*1 → OCons a ≠ x.
Proof.
  destruct l as [|[b v] l]; simpl; [by intros _ _ ?%elem_of_nil|].
  intros [-> _] [Hb _]%NoDup_cons Ha [= ->]. done.
Qed.

(** NRECONC reverses a proper list in place onto another object; a dotted list
    is an error. *)
Theorem nreconc_in_place fuel h x l z y :
  lseg h x l z → MKCL_CONSP z = false → (length l < fuel)%nat →
  if mkcl_Null z
  then ∃ r h', mk_cl_nreconc fuel x y h = Done r h' ∧ lseg h' r (rev l) y ∧ same_outside l h h'
  else ∃ h', mk_cl_nreconc fuel x y h = Fail (FEtype_error_list z) h' ∧ same_outside l h h'.
Proof.
  intros Hl Hz Hf. rewrite nreconc_unfold.
  destruct (decide (l = [])) as [->|Hne].
  { simpl in Hl. subst z. destruct fuel as [|n]; [simpl in Hf; lia|].
    destruct (mkcl_Null x) eqn:Ex.
    - exists y, h. split; [|done]. apply (loop_inr n _ _ _ _ h). unfold nreconc_body. by rewrite Ex.
    - exists h. split; [|done]. apply loop_Fail. unfold nreconc_body.
      by rewrite LISTP_cases, Ex, Hz. }
  destruct (nreconc_run x (fuel - length l) l h x y z) as (r & h' & E & Hr & Hs).
  - done.
  - by eapply lseg_NoDup.
  - intros a. eapply acyclic_tail_neq; [done|by eapply lseg_NoDup].
  - intros ->. destruct l as [|[a v] l]; [done|]. by destruct Hl as [-> _].
  - replace (length l + (fuel - length l))%nat with fuel in E by lia. rewrite E.
    destruct (fuel - length l)%nat as [|n] eqn:En; [lia|].
    destruct (mkcl_Null z) eqn:Ez.
    + exists r, h'. split; [|done]. apply (loop_inr n _ _ _ _ h'). unfold nreconc_body. by rewrite Ez.
    + exists h'. split; [|done]. apply loop_Fail. unfold nreconc_body. by rewrite LISTP_cases, Ez, Hz.
Qed.

(** On a circular list, whatever the length of the part before the cycle,
    NRECONC comes back to the first cons and signals the error: it stops
    without a second pointer. *)
Theorem nreconc_circular fuel h x l1 l2 c y :
  lseg h x l1 c → lseg h c l2 c → l2 ≠ [] → NoDup (l1 ++ l2).*1 →
  (2 * length l1 + length l2 < fuel)%nat →
  ∃ h', mk_cl_nreconc fuel x y h = Fail (FEcircular_list x) h'.
Proof.
  intros H1 H2 Hne Hnd Hf. rewrite nreconc_unfold.
  pose proof Hnd as Hnd'. rewrite fmap_app in Hnd'. apply NoDup_app in Hnd' as (Hnd1 & Hdis & Hnd2).
  destruct l1 as [|[a v] l1].
  { simpl in H1. subst c. apply (nreconc_back x fuel l2 h x y); [done..| |lia].
    intros a. by eapply acyclic_tail_neq. }
  assert (x = OCons a) as Hx by by destruct H1.
  destruct l2 as [|[b w] l2]; [done|]. assert (c = OCons b) as -> by by destruct H2.
  assert (a ≠ b) as Hab by (intros ->; eapply (Hdis b); simpl; left).
  destruct (nreconc_run x (fuel - length ((a, v) :: l1)) ((a, v) :: l1) h x y (OCons b))
    as (r1 & h1 & E1 & Hr1 & Hs1); [done..| |congruence|].
  { intros d. by eapply acyclic_tail_neq. }
  replace (length ((a, v) :: l1) + (fuel - length ((a, v) :: l1)))%nat with fuel in E1 by (simpl in *; lia).
  rewrite E1. clear E1.
  assert (H2' : lseg h1 (OCons b) ((b, w) :: l2) (OCons b)).
  { eapply same_outside_lseg; [done| |done]. intros d Hd Hd'. by eapply Hdis. }
  destruct (nreconc_run x (fuel - length ((a, v) :: l1) - length ((b, w) :: l2)) ((b, w) :: l2)
    h1 (OCons b) r1 (OCons b)) as (r2 & h2 & E2 & Hr2 & Hs2); [done..| |congruence|].
  { intros d Hd. subst x. intros [= ->]. apply (Hdis a); simpl; [left|by right]. }
  replace (length ((b, w) :: l2) + (fuel - length ((a, v) :: l1) - length ((b, w) :: l2)))%nat
    with (fuel - length ((a, v) :: l1))%nat in E2 by (simpl in *; lia).
  rewrite E2. clear E2.
  (* back down the conses of the first part *)
  simpl rev in Hr2, Hr1. apply lseg_app in Hr2 as (d & _ & Hd). simpl in Hd.
  assert (d = OCons b) as -> by naive_solver.
  apply lseg_snoc_inv in Hr1 as [Hr1 _].
  apply (nreconc_back x _ ((b, w) :: rev l1) h2); [|done| | |].
  - simpl. split; [done|]. destruct Hd as (_ & d' & Hb & ->). exists r1. split; [done|].
    rewrite Hx. eapply same_outside_lseg; [done| |done]. intros d Hd1 Hd2.
    rewrite elem_of_rev_fmap in Hd1. apply (Hdis d); [simpl; by right|done].
  - simpl. apply NoDup_cons. rewrite elem_of_rev_fmap. split.
    + intros Hin. apply (Hdis b); simpl; [by right|left].
    + rewrite (fmap_Permutation fst (rev l1) l1) by (symmetry; apply Permutation_rev).
      simpl in Hnd1. by apply NoDup_cons in Hnd1 as [_ Hnd1].
  - simpl. intros d. rewrite elem_of_rev_fmap, Hx. intros Hd1 [= ->].
    simpl in Hnd1. by apply NoDup_cons in Hnd1 as [? _].
  - simpl in *. rewrite length_rev. lia.
Qed.

(** ** NCONC *)

(** A list argument: a proper or dotted list of conses [l], or NIL. *)
Definition list_arg (h : heap) (x : obj) (l : cells) : Prop :=
  ∃ y, MKCL_CONSP y = false ∧ lseg h x l y ∧ (l = [] → x = ONil).

(** The list made so far and its last cons. *)
Definition nconc_state (h : heap) (head tail : obj) (lp : cells) : Prop :=
  (lp = [] ∧ head = ONil ∧ tail = ONil) ∨
  (∃ l a v y, lp = l ++ [(a, v)] ∧ tail = OCons a ∧ lseg h head lp y ∧ mkcl_Null head = false).

Lemma last_cons_spec fuel h x l a v y :
  MKCL_CONSP y = false → lseg h x (l ++ [(a, v)]) y → (length (l ++ [(a, v)]) < fuel)%nat →
  mkcl_last fuel x 1 h = Done (OCons a) h.
Proof.
  intros Hy Hl Hf.
  destruct (wp_done_inv _ _ _ (mkcl_last_spec fuel h x (l ++ [(a, v)]) y 1 Hy Hl ltac:(lia) Hf
    ltac:(left; by destruct l))) as (r & h' & E & -> & ->). rewrite E. f_equal.
  rewrite length_app. simpl length. replace (length l + 1 - Z.to_nat 1)%nat with (length l) by lia.
  apply lseg_snoc_inv in Hl as [Hl _]. by apply lseg_iter_next.
Qed.

(** Linking one more argument. *)
Lemma nconc_link h head tail lp o lo :
  nconc_state h head tail lp → mkcl_Null head = false → list_arg h o lo → NoDup (lp ++ lo).*1 →
  ∃ h', MKCL_RPLACD tail o h = Done tt h' ∧ lseg h' head lp o ∧ same_outside lp h h'.
Proof.
  intros [(-> & -> & ->)|(l & a & v & y & -> & -> & Hl & _)] Hh _ Hnd; [done|].
  pose proof (lseg_snoc_inv _ _ _ _ _ _ Hl) as [_ Ha].
  exists (<[a := CCons v o]> h). split_and!; [by eapply RPLACD_eq| |].
  - eapply lseg_set_last; [done|]. rewrite fmap_app in Hnd. apply NoDup_app in Hnd as [Hnd _].
    by eapply NoDup_snoc_inv.
  - apply (same_outside_insert _ _ _ v). apply elem_of_app. right. left.
Qed.

Lemma list_arg_agree h h' x l lp :
  same_outside lp h h' → (∀ a, a ∈ l.*1 → a ∉ lp.*1) → list_arg h x l → list_arg h' x l.
Proof.
  intros Hs Hd (y & Hy & Hl & Hn). exists y. split_and!; [done| |done].
  by eapply same_outside_lseg.
Qed.

(** The last cons of an argument, found by [mkcl_last]. *)
Lemma list_arg_last {A} fuel h o lo tail (rest : list A) :
  list_arg h o lo → (length lo < fuel)%nat →
  ∃ t, (if mkcl_Null o then mret tail
        else if MKCL_CONSP o then mkcl_last fuel o 1
        else match rest with [] => mret tail | _ => raise (FEtype_error_list o) end) h
       = Done t h ∧
       ((lo = [] ∧ o = ONil ∧ t = tail) ∨
        (∃ l a v, lo = l ++ [(a, v)] ∧ t = OCons a ∧ mkcl_Null o = false)).
Proof.
  intros (y & Hy & Hl & Hn) Hf. destruct (snoc_inv lo) as [->|(l & [a v] & ->)].
  - rewrite Hn by done. exists tail. split; [done|by left].
  - exists (OCons a). assert (∃ b, o = OCons b) as [b ->]
      by (destruct l as [|[b w] l]; destruct Hl as [-> _]; eauto).
    split; [simpl; by eapply last_cons_spec|]. right. by exists l, a, v.
Qed.

Lemma nconc_loop_spec fuel h head tail lp args ls x lx :
  nconc_state h head tail lp → Forall2 (list_arg h) args ls →
  (list_arg h x lx ∨ (MKCL_CONSP x = false ∧ lx = [])) →
  NoDup (lp ++ concat ls ++ lx).*1 → Forall (λ l, length l < fuel)%nat (ls ++ [lx]) →
  ∃ r h', nconc_loop fuel head tail (args ++ [x]) h = Done r h' ∧
          lseg h' r (lp ++ concat ls) x ∧ same_outside (lp ++ concat ls) h h'.
Proof.
  intros Hst Hargs. revert h head tail lp Hst Hargs. revert args.
  induction ls as [|lo ls IH]; intros args h head tail lp Hst Hargs Hx Hnd Hf.
  - inversion Hargs; subst. simpl concat in *. rewrite app_nil_r. simpl in Hf. inversion Hf; subst.
    assert (∃ t, (if mkcl_Null x then mret tail
        else if MKCL_CONSP x then mkcl_last fuel x 1 else mret tail) h = Done t h) as [t Et].
    { destruct Hx as [Hx|[Hx _]].
      - destruct (list_arg_last fuel h x lx tail (@nil obj) Hx) as (t & Et & _); [done|]. by exists t.
      - rewrite Hx. exists tail. by destruct (mkcl_Null x). }
    cbn [nconc_loop app]. rewrite (bind_Done _ _ _ _ _ Et). clear Et.
    destruct Hst as [(-> & -> & ->)|Hst]; [by exists x, h|].
    destruct Hst as (l & a & v & y & -> & -> & Hl & Hh). rewrite Hh.
    pose proof (lseg_snoc_inv _ _ _ _ _ _ Hl) as [_ Ha].
    rewrite (bind_Done _ _ _ _ _ (RPLACD_eq _ _ _ _ _ Ha)).
    eexists _, _. split; [done|]. split.
    + eapply lseg_set_last; [done|]. rewrite fmap_app in Hnd. apply NoDup_app in Hnd as [Hnd _].
      by eapply NoDup_snoc_inv.
    + apply (same_outside_insert _ _ _ v). apply elem_of_app. right. left.
  - inversion Hargs as [|o ? args' ? Ho Hargs']; subst. simpl in Hf. inversion Hf as [|? ? Hfo Hf']; subst.
    cbn [nconc_loop app].
    destruct (list_arg_last fuel h o lo tail (args' ++ [x]) Ho Hfo) as (t & Et & Ht).
    destruct (args' ++ [x]) as [|arg rest] eqn:Erest; [by destruct args'|].
    rewrite (bind_Done _ _ _ _ _ Et). rewrite <- Erest. clear Et.
    destruct Hst as [(-> & -> & ->)|Hst].
    + simpl concat in *. simpl app. cbn [mkcl_Null]. apply IH; [|done..|by rewrite <- (assoc app) in Hnd|done].
      destruct Ht as [(-> & -> & ->)|(l & a & v & -> & -> & Hno)]; [by left|].
      right. destruct Ho as (y & Hy & Hl & _). exists l, a, v, y. done.
    + assert (mkcl_Null head = false) as Hh by by destruct Hst as (? & ? & ? & ? & _ & _ & _ & ?).
      rewrite Hh.
      assert (Hdis : ∀ l' a, l' = lo ∨ l' ∈ ls ∨ l' = lx → a ∈ l'.*1 → a ∉ lp.*1).
      { intros l' a Hl' Ha Hlp. rewrite fmap_app in Hnd. apply NoDup_app in Hnd as (_ & Hd & _).
        apply (Hd a Hlp). simpl. rewrite !fmap_app, !elem_of_app.
        destruct Hl' as [->|[Hin| ->]]; [by left; left| |by right].
        left. right. apply list_elem_of_fmap in Ha as (p & -> & Hp). apply list_elem_of_fmap.
        exists p. split; [done|]. apply list_elem_of_In, in_concat. exists l'.
        by rewrite <- !list_elem_of_In. }
      destruct (nconc_link h head tail lp o lo) as (h2 & E2 & Hl2 & Hs2);
        [by right|done|done| |].
      { rewrite fmap_app in Hnd. simpl in Hnd. rewrite <- (assoc app), !fmap_app in Hnd.
        rewrite fmap_app. rewrite (assoc app) in Hnd. by apply NoDup_app in Hnd as [Hnd _]. }
      rewrite (bind_Done _ _ _ _ _ E2). clear E2.
      destruct (IH args' h2 head t (lp ++ lo)) as (r & h' & E & Hr & Hs).
      * destruct Ho as (y & Hy & Hlo & _). right.
        destruct Ht as [(-> & -> & ->)|(l & a & v & -> & -> & Hno)].
        -- destruct Hst as (l & a & v & y' & -> & -> & _ & _). exists l, a, v, ONil.
           rewrite app_nil_r. done.
        -- exists (lp ++ l), a, v, y. split_and!; [by rewrite (assoc app)|done| |done].
           apply lseg_app. exists o. split; [done|].
           eapply same_outside_lseg; [done| |done]. intros b Hb. eapply Hdis; [by left|done].
      * eapply Forall2_impl_elem; [exact Hargs'|]. intros o' l' Ho' Hl' Hoo.
        eapply list_arg_agree; [done| |done]. intros b Hb. eapply Hdis; [by right; left|done].
      * destruct Hx as [Hx|Hx]; [left|by right]. eapply list_arg_agree; [done| |done].
        intros b Hb. eapply Hdis; [by right; right|done].
      * simpl in Hnd. by rewrite <- !(assoc app) in Hnd |- *.
      * done.
      * exists r, h'. split_and!; [done| |].
        -- simpl. by rewrite <- (assoc app) in Hr.
        -- eapply same_outside_mono; [|eapply same_outside_trans; [exact Hs2|exact Hs]].
           intros b. simpl. rewrite !fmap_app, !elem_of_app. tauto.
Qed.

(** NCONC links its arguments, proper or dotted lists with no cons in common, by
    their last conses: the result is made of the conses of all the arguments
    but the last, in order, and ends at the last argument, which may be any
    object; no other cell changes. *)
Theorem nconc_links fuel h args ls x lx :
  Forall2 (list_arg h) args ls →
  (list_arg h x lx ∨ (MKCL_CONSP x = false ∧ lx = [])) →
  NoDup (concat ls ++ lx).*1 → Forall (λ l, length l < fuel)%nat (ls ++ [lx]) →
  ∃ r h', mk_cl_nconc fuel (args ++ [x]) h = Done r h' ∧
          lseg h' r (concat ls) x ∧ same_outside (concat ls) h h'.
Proof.
  intros Hargs Hx Hnd Hf. apply (nconc_loop_spec fuel h ONil ONil [] args ls x lx); [by left|done..].
Qed.

(** ** NBUTLAST *)

(** NBUTLAST cuts a list before its last [n] conses by one write, and gives NIL,
    with the list as it was, when it has no more than [n]. *)
Theorem nbutlast_cuts fuel h x l y n :
  lseg h x l y → MKCL_CONSP y = false → (l ≠ [] ∨ y = ONil) → is_fixnum n → 0 ≤ n →
  (length l < fuel)%nat →
  if Z.of_nat (length l) <=? n then mk_cl_nbutlast fuel x (OFix n) h = Done ONil h
  else ∃ a v h', mk_cl_nbutlast fuel x (OFix n) h = Done x h' ∧
         lseg h' x (take (length l - Z.to_nat n) l) ONil ∧ same_outside [(a, v)] h h' ∧
         l !! (length l - Z.to_nat n - 1)%nat = Some (a, v).
Proof.
  intros Hl Hy Hor Hn Hn0 Hf.
  assert (Hstart : mk_cl_nbutlast fuel x (OFix n) h = mkcl_nbutlast fuel x n h).
  { unfold mk_cl_nbutlast, mkcl_integer_to_index. rewrite (proj2 (Z.leb_le 0 n)) by done.
    apply bind_ret. }
  rewrite Hstart. unfold mkcl_nbutlast.
  assert (MKCL_LISTP x = true) as ->.
  { destruct l as [|[a v] l]; [|by destruct Hl as [-> _]]. simpl in Hl. subst y.
    by destruct Hor as [| ->]. }
  rewrite uwrap_small by (unfold_words; lia). cbn [negb].
  destruct (wp_done_inv _ _ _ (skip_conses_spec fuel (n + 1) h x l y Hy Hl ltac:(lia) Hf))
    as (r & h' & E & -> & k & Hk & ->).
  rewrite (bind_Done _ _ _ _ _ E). cbv beta iota. clear E.
  destruct (Z.leb_spec (Z.of_nat (length l)) n).
  - by rewrite (proj2 (Z.eqb_neq _ _)) by lia.
  - rewrite (proj2 (Z.eqb_eq _ _)) by lia.
    destruct (wp_done_inv (loop fuel (λ '(tail, r),
        if MKCL_CONSP r then
          tail ← MKCL_CONS_CDR tail; r ← MKCL_CONS_CDR r; mret (inl (tail, r))
        else mret (inr tail)) (x, Nat.iter k (next_cdr h) x)) h
      (λ t h', h' = h ∧ t = Nat.iter (length l - k) (next_cdr h) x)) as (t & h' & E & -> & ->).
    { apply (wp_loop (λ m '(t, r) h', run_inv h x l k m r t h') _ _ (length l - k));
        [|apply run_inv_start|lia].
      intros m [t r] h' HI. destruct (run_inv_step h x l y k m r t h') as [-> Hstep]; [done|done|lia|done|].
      destruct (MKCL_CONSP r); [|by apply wp_ret].
      destruct Hstep as (a & v & d & b & w & e & -> & Ha & -> & Hb & Hm). by wp_go. }
    rewrite (bind_Done _ _ _ _ _ E). clear E.
    destruct (lseg_iter_cons h x l y (length l - k)) as (a & v & Hit & Hlk & Ha); [done|lia|].
    rewrite Hit, (bind_Done _ _ _ _ _ (RPLACD_eq _ _ _ _ _ Ha)).
    replace (length l - Z.to_nat n - 1)%nat with (length l - k)%nat by lia.
    exists a, v, (<[a := CCons v ONil]> h). split_and!; [done| |apply (same_outside_insert _ _ _ v); left|done].
    replace (length l - Z.to_nat n)%nat with (S (length l - k)) by lia.
    rewrite (take_S_r _ _ _ Hlk).
    destruct (lseg_take_drop h x l y (length l - k)) as [Ht Hd]; [done|lia|]. rewrite Hit in Ht.
    eapply lseg_set_last; [by eapply lseg_snoc|].
    apply lseg_NoDup in Hl; [|done]. rewrite <- (take_drop (length l - k) l), fmap_app in Hl.
    apply NoDup_app in Hl as (_ & Hdis & _). intros Hin. apply (Hdis a Hin).
    rewrite (drop_S _ _ _ Hlk). simpl. left.
Qed.

(** RPLACA and RPLACD write one field of one cons and give that cons;
    anything else is an error. *)
Theorem rplac_writes x w h :
  match x with
  | OCons a => ∀ v d, h !! a = Some (CCons v d) →
      mk_cl_rplaca x w h = Done x (<[a := CCons w d]> h) ∧
      mk_cl_rplacd x w h = Done x (<[a := CCons v w]> h)
  | _ => mk_cl_rplaca x w h = Fail (FEtype_error_cons x) h ∧
         mk_cl_rplacd x w h = Fail (FEtype_error_cons x) h
  end.
Proof.
  destruct x; try done. intros v d Ha.
  split; [exact (bind_Done _ (λ _, mret (OCons a)) _ _ _ (RPLACA_eq _ _ _ w _ Ha))|
          exact (bind_Done _ (λ _, mret (OCons a)) _ _ _ (RPLACD_eq _ _ _ w _ Ha))].
Qed.
End with_fuel.
