(* ===== verification/ListSearch.v ===== *)
(** * ListSearch: the list functions with a test, src/src/c/list.c

    The record [cl_test] and its set-up, TREE-EQUAL, ASSOC, RASSOC, MEMBER and
    the fixed-test variants the compiler uses, ADJOIN, TAILP, SUBST, NSUBST,
    SUBLIS, NSUBLIS, the removal by EQ, and the stack of dynamic conses.

    Lisp functions are called through the evaluator, which is an interface
    here ([Runtime]): calls can read and write the heap and raise errors.  The
    keyword arguments come parsed; NIL is the default of each. *)

From S2P Require Import Prelude Words Objects Heap Numbers Segments Equal Lists.
#[local] Open Scope Z_scope.

(** What the list code needs of the rest of the system. *)
Class Runtime := {
  call_function : obj → list obj → M obj;       (* the entry points of a function object *)
  mkcl_funcall1 : obj → obj → M obj;            (* of a function designator *)
  mk_si_coerce_to_function : obj → M obj;
  mkcl_validate_function : obj → M obj;
  mkcl_equalp : obj → obj → M bool;
  fun_eq : obj;                                  (* MKCL_SYM_FUN(MK_CL_eq), ... *)
  fun_eql : obj;
  fun_equal : obj;
  fun_equalp : obj;
}.

(** The pointers to C functions of [struct cl_test], with the Lisp function
    that goes with them. *)
Inductive test_c_function :=
| test_compare (test_function : obj)
| test_compare_not (test_function : obj)
| test_eq
| test_eql
| test_equal
| test_equalp.

Inductive key_c_function :=
| key_function (key_function : obj)
| key_identity.

Record cl_test := ClTest {
  t_test : test_c_function;
  t_key : key_c_function;
  item_compared : obj;
}.

Definition set_item (t : cl_test) (item : obj) : cl_test :=
  {| t_test := t_test t; t_key := t_key t; item_compared := item |}.

Section with_runtime.
Context `{!Runtime} (fuel : nat).

Definition KEY (t : cl_test) (x : obj) : M obj :=
  match t_key t with
  | key_function f => call_function f [x]
  | key_identity => mret x
  end.

Definition TEST (t : cl_test) (x : obj) : M bool :=
  k ← KEY t x;
  match t_test t with
  | test_compare f => r ← call_function f [item_compared t; k]; mret (negb (mkcl_Null r))
  | test_compare_not f => r ← call_function f [item_compared t; k]; mret (mkcl_Null r)
  | test_eq => mret (obj_eq (item_compared t) k)
  | test_eql => mret (mkcl_eql (item_compared t) k)
  | test_equal => mkcl_equal fuel (item_compared t) k
  | test_equalp => mkcl_equalp (item_compared t) k
  end.

Definition setup_test (item test test_not key : obj) : M cl_test :=
  tst ← (if negb (mkcl_Null test) then
           if negb (mkcl_Null test_not)
           then raise (FEerror "Both :TEST and :TEST-NOT are specified." [])
           else
             test ← mk_si_coerce_to_function test;
             if obj_eq test fun_eq then mret test_eq
             else if obj_eq test fun_eql then mret test_eql
             else if obj_eq test fun_equal then mret test_equal
             else if obj_eq test fun_equalp then mret test_equalp
             else f ← mkcl_validate_function test; mret (test_compare f)
         else if negb (mkcl_Null test_not) then
           test_not ← mk_si_coerce_to_function test_not;
           f ← mkcl_validate_function test_not;
           mret (test_compare_not f)
         else mret test_eql);
  k ← (if negb (mkcl_Null key) then
         key ← mk_si_coerce_to_function key;
         f ← mkcl_validate_function key;
         mret (key_function f)
       else mret key_identity);
  mret (ClTest tst k item).

(** ** TREE-EQUAL *)

(** The test function of the original is set up once; its item changes. *)
Fixpoint tree_equal (n : nat) (t : cl_test) (x y : obj) : M bool :=
  match n with
  | O => diverge
  | S n =>
      if MKCL_CONSP x then
        if MKCL_CONSP y then
          ax ← MKCL_CONS_CAR x; ay ← MKCL_CONS_CAR y;
          e ← tree_equal n t ax ay;
          if (e : bool) then dx ← MKCL_CONS_CDR x; dy ← MKCL_CONS_CDR y; tree_equal n t dx dy
          else mret false
        else mret false
      else TEST (set_item t x) y
  end.

Definition mk_cl_tree_equal (x y test test_not : obj) : M obj :=
  t ← setup_test ONil test test_not ONil;
  b ← tree_equal fuel t x y;
  mret (lisp_bool b).

(** ** Association lists *)

Definition do_assoc (t : cl_test) (a_list : obj) : M obj :=
  mkcl_loop_for_in fuel (λ a_list (_ : unit),
    pair ← MKCL_CONS_CAR a_list;
    if negb (mkcl_Null pair) then
      if negb (MKCL_LISTP pair) then raise (FEtype_error_list pair)
      else
        a ← MKCL_CONS_CAR pair; b ← TEST t a;
        if (b : bool) then mret (inr pair) else mret (inl tt)
    else mret (inl tt)) (λ _, mret ONil) a_list tt.

Definition mk_cl_assoc (item a_list test test_not key : obj) : M obj :=
  t ← setup_test item test test_not key; do_assoc t a_list.

Definition mk_cl_rassoc (item a_list test test_not key : obj) : M obj :=
  t ← setup_test item test test_not key;
  mkcl_loop_for_in fuel (λ a_list (_ : unit),
    pair ← MKCL_CONS_CAR a_list;
    if negb (mkcl_Null pair) then
      if negb (MKCL_LISTP pair) then raise (FEtype_error_list pair)
      else
        d ← MKCL_CONS_CDR pair; b ← TEST t d;
        if (b : bool) then mret (inr pair) else mret (inl tt)
    else mret (inl tt)) (λ _, mret ONil) a_list tt.

(** ** MEMBER *)

(** The loops [mkcl_loop_for_in(env, list) { if (p(car)) return list; }]. *)
Definition member_loop (p : obj → M bool) (l : obj) : M obj :=
  mkcl_loop_for_in fuel (λ l (_ : unit),
    a ← MKCL_CONS_CAR l; b ← p a;
    if (b : bool) then mret (inr l) else mret (inl tt)) (λ _, mret ONil) l tt.

Definition mk_cl_member (item list test test_not key : obj) : M obj :=
  t ← setup_test item test test_not key; member_loop (TEST t) list.

Definition mkcl_member_eq (x l : obj) : M bool :=
  mkcl_loop_for_in fuel (λ l (_ : unit),
    a ← MKCL_CONS_CAR l;
    if obj_eq x a then mret (inr true) else mret (inl tt)) (λ _, mret false) l tt.

Definition mkcl_memq (x l : obj) : M obj := member_loop (λ a, mret (obj_eq x a)) l.
Definition mk_si_memq (x l : obj) : M obj := member_loop (λ a, mret (obj_eq x a)) l.
Definition mkcl_memql (x l : obj) : M obj := member_loop (λ a, mret (mkcl_eql x a)) l.
Definition mkcl_member (x l : obj) : M obj := member_loop (λ a, mkcl_equal fuel x a) l.

Definition mk_si_member1 (item list test test_not key : obj) : M obj :=
  item ← (if negb (mkcl_Null key) then mkcl_funcall1 key item else mret item);
  t ← setup_test item test test_not key;
  member_loop (TEST t) list.

(** [mkcl_loop_for_on]: it does not go on after an atom. *)
Definition mk_cl_tailp (y x : obj) : M obj :=
  if negb (MKCL_CONSP x) then
    if negb (mkcl_Null x) then raise (FEtype_error_list x)
    else mret (lisp_bool (mkcl_eql x y))
  else
    loop fuel (λ x,
      if MKCL_CONSP x then
        if mkcl_eql x y then mret (inr mk_cl_Ct)
        else x ← MKCL_CONS_CDR x; mret (inl x)
      else mret (inr (lisp_bool (mkcl_eql x y)))) x.

(** ** ADJOIN *)

Definition mkcl_adjoin_eq (item list : obj) : M obj :=
  output ← mkcl_memq item list;
  if mkcl_Null output then mkcl_cons item list else mret list.

Definition mkcl_adjoin (item list : obj) : M obj :=
  output ← mkcl_memql item list;
  if mkcl_Null output then mkcl_cons item list else mret list.

(** [keys] is [None] when there are only two arguments. *)
Definition mk_cl_adjoin (item list : obj) (keys : option (obj * obj * obj)) : M obj :=
  match keys with
  | None => mkcl_adjoin item list
  | Some (test, test_not, key) =>
      output ← mk_si_member1 item list test test_not key;
      if mkcl_Null output then mkcl_cons item list else mret list
  end.

(** ** The variants with a fixed test *)

Definition assoc_loop (p : obj → M bool) (l : obj) : M obj :=
  mkcl_loop_for_in fuel (λ l (_ : unit),
    pair ← MKCL_CONS_CAR l; a ← MKCL_CAR pair; b ← p a;
    if (b : bool) then mret (inr pair) else mret (inl tt)) (λ _, mret ONil) l tt.

Definition mkcl_assq (x l : obj) : M obj := assoc_loop (λ a, mret (obj_eq x a)) l.
Definition mkcl_assql (x l : obj) : M obj := assoc_loop (λ a, mret (mkcl_eql x a)) l.
Definition mkcl_assoc (x l : obj) : M obj := assoc_loop (λ a, mkcl_equal fuel x a) l.
Definition mkcl_assqlp (x l : obj) : M obj := assoc_loop (λ a, mkcl_equalp x a) l.

(** [mkcl_loop_for_on_unsafe(l)] *)
Definition mkcl_remove_eq (x l : obj) : M obj :=
  loop fuel (λ '(l, head, tail),
    if MKCL_CONSP l then
      a ← MKCL_CONS_CAR l;
      '(head, tail) ← (if negb (obj_eq a x) then
        cons ← mkcl_list1 a;
        if mkcl_Null tail then mret (cons, cons)
        else MKCL_RPLACD tail cons;; mret (head, cons)
      else mret (head, tail));
      l ← MKCL_CONS_CDR l;
      mret (inl (l, head, tail))
    else mret (inr head)) (l, ONil, ONil).

(** ** SUBST and SUBLIS *)

Fixpoint subst (n : nat) (t : cl_test) (new_obj tree : obj) : M obj :=
  match n with
  | O => diverge
  | S n =>
      b ← TEST t tree;
      if (b : bool) then mret new_obj
      else if MKCL_ATOM tree then mret tree
      else
        loop fuel (λ '(tree, head, tail),
          a ← MKCL_CONS_CAR tree;
          a ← subst n t new_obj a;
          tree ← MKCL_CONS_CDR tree;
          cons ← mkcl_cons a tree;
          head ← (if mkcl_Null tail then mret cons
                  else MKCL_RPLACD tail cons;; mret head);
          b ← TEST t tree;
          if (b : bool) then MKCL_RPLACD cons new_obj;; mret (inr head)
          else if MKCL_CONSP tree then mret (inl (tree, head, cons))
          else mret (inr head)) (tree, ONil, ONil)
  end.

Definition mk_cl_subst (new_obj old_obj tree test test_not key : obj) : M obj :=
  t ← setup_test old_obj test test_not key; subst fuel t new_obj tree.

Fixpoint nsubst_cons (n : nat) (t : cl_test) (new_obj tree : obj) : M obj :=
  match n with
  | O => diverge
  | S n =>
      loop fuel (λ l,
        o ← MKCL_CONS_CAR l;
        b ← TEST t o;
        (if (b : bool) then MKCL_RPLACA l new_obj
         else if MKCL_CONSP o then _ ← nsubst_cons n t new_obj o; mret tt
         else mret tt);;
        o ← MKCL_CONS_CDR l;
        b ← TEST t o;
        if (b : bool) then MKCL_RPLACD l new_obj;; mret (inr tree)
        else if MKCL_CONSP o then mret (inl o)
        else mret (inr tree)) tree
  end.

Definition nsubst (t : cl_test) (new_obj tree : obj) : M obj :=
  b ← TEST t tree;
  if (b : bool) then mret new_obj
  else if MKCL_CONSP tree then nsubst_cons fuel t new_obj tree
  else mret tree.

Definition mk_cl_nsubst (new_obj old_obj tree test test_not key : obj) : M obj :=
  t ← setup_test old_obj test test_not key; nsubst t new_obj tree.

(** [t[0]] gives the key of the nodes and [t[1]] searches the association list.
    The C compiler chooses the order of the two recursive calls. *)
Fixpoint sublis (n : nat) (t0 t1 : cl_test) (alist tree : obj) : M obj :=
  match n with
  | O => diverge
  | S n =>
      k ← KEY t0 tree;
      node ← do_assoc (set_item t1 k) alist;
      if negb (mkcl_Null node) then MKCL_CONS_CDR node
      else if MKCL_CONSP tree then
        a ← MKCL_CONS_CAR tree; a ← sublis n t0 t1 alist a;
        d ← MKCL_CONS_CDR tree; d ← sublis n t0 t1 alist d;
        mkcl_cons a d
      else mret tree
  end.

Definition mk_cl_sublis (alist tree test test_not key : obj) : M obj :=
  t0 ← setup_test ONil ONil ONil key;
  t1 ← setup_test ONil test test_not ONil;
  sublis fuel t0 t1 alist tree.

Fixpoint nsublis (n : nat) (t0 t1 : cl_test) (alist tree : obj) : M obj :=
  match n with
  | O => diverge
  | S n =>
      k ← KEY t0 tree;
      node ← do_assoc (set_item t1 k) alist;
      if negb (mkcl_Null node) then MKCL_CONS_CDR node
      else if MKCL_CONSP tree then
        a ← MKCL_CONS_CAR tree; a ← nsublis n t0 t1 alist a;
        MKCL_RPLACA tree a;;
        d ← MKCL_CONS_CDR tree; d ← nsublis n t0 t1 alist d;
        MKCL_RPLACD tree d;;
        mret tree
      else mret tree
  end.

Definition mk_cl_nsublis (alist tree test test_not key : obj) : M obj :=
  t0 ← setup_test ONil ONil ONil key;
  t1 ← setup_test ONil test test_not ONil;
  nsublis fuel t0 t1 alist tree.
End with_runtime.

(** ** The stack of dynamic conses

    The variable [si::*dynamic-cons-stack*] of the thread is an argument and a
    result of the two operations. *)

Definition new_stack_cells (new_cells : obj) : M obj :=
  c ← mkcl_cons ONil ONil; mkcl_cons c new_cells.

(** [for (i = 0; i < n; i++) new_cells = ...] *)
Fixpoint alloc_stack_cells (n : nat) (new_cells : obj) : M obj :=
  match n with
  | O => mret new_cells
  | S n => new_cells ← new_stack_cells new_cells; alloc_stack_cells n new_cells
  end.

Definition mk_si_dyn_cons (stack_cell car cdr : obj) : M (obj * obj) :=
  stack_cell ← (if mkcl_Null stack_cell then new_stack_cells ONil else mret stack_cell);
  next_stack_cell ← MKCL_CONS_CDR stack_cell;
  next_stack_cell ← (if mkcl_Null next_stack_cell then
                       new_cells ← alloc_stack_cells 5 ONil;
                       MKCL_RPLACD stack_cell new_cells;;
                       mret new_cells
                     else mret next_stack_cell);
  it ← MKCL_CONS_CAR stack_cell;
  MKCL_RPLACA it car;; MKCL_RPLACD it cdr;;
  mret (next_stack_cell, it).

Definition mk_si_trim_dynamic_cons_stack (stack_cell : obj) : M (obj * obj) :=
  if mkcl_Null stack_cell then
    stack_cell ← new_stack_cells ONil; mret (stack_cell, ONil)
  else MKCL_RPLACD stack_cell ONil;; mret (stack_cell, ONil).
