(* ===== verification/TreeSpecs.v ===== *)
(** * TreeSpecs: searches in lists, and TREE-EQUAL, SUBST and SUBLIS

    The theorems are about tests that read the heap and answer: [TEST t v] gives [f v].
    The EQ and EQL tests always do, EQUAL does on finite trees (Equal.v), and a call of a
    Lisp function does when that function is a predicate without side effects.  SUBST
    and SUBLIS compute the same function of a tree, [replace_tree]: the nodes that a
    substitution maps are replaced, from the root down, and the others are copied. *)

From S2P Require Import Prelude Words Objects Heap Numbers Segments Equal.
From S2P Require Import Lists ListSpecs ListSearch.
#[local] Open Scope Z_scope.

(** The position of the first element that satisfies [f], or the length. *)
Fixpoint first_pos (f : obj → bool) (vs : list obj) : nat :=
  match vs with [] => 0 | v :: vs' => if f v then 0 else S (first_pos f vs') end.

Lemma first_pos_length f vs : (first_pos f vs ≤ length vs)%nat.
Proof. induction vs as [|v vs IH]; simpl; [lia|]. destruct (f v); lia. Qed.

(** It is where [f] first holds. *)
Lemma first_pos_spec f vs :
  Forall (λ v, f v = false) (take (first_pos f vs) vs) ∧
  ∀ v, vs !! first_pos f vs = Some v → f v = true.
Proof.
  induction vs as [|v vs [IH1 IH2]]; simpl; [split; [constructor|done]|].
  destruct (f v) eqn:E; simpl; [split; [constructor|by intros ? [= <-]]|].
  split; [by constructor|done].
Qed.

Lemma first_pos_app f vs ws :
  Forall (λ v, f v = false) vs → first_pos f (vs ++ ws) = (length vs + first_pos f ws)%nat.
Proof. induction 1 as [|v vs Hv _ IH]; simpl; [done|]. by rewrite Hv, IH. Qed.

(** The tail of a segment from the first element that satisfies [f]. *)
Definition found_tail (h : heap) (x : obj) (l : cells) (f : obj → bool) (r : obj) : Prop :=
  let k := first_pos f l.*2 in
  lseg h x (take k l) r ∧ lseg h r (drop k l) ONil.

Section with_runtime.
Context `{!Runtime}.

Lemma TEST_eql fuel item x h :
  TEST fuel (ClTest test_eql key_identity item) x h = Done (mkcl_eql item x) h.
Proof. done. Qed.

Lemma TEST_eq fuel item x h :
  TEST fuel (ClTest test_eq key_identity item) x h = Done (obj_eq item x) h.
Proof. done. Qed.

Lemma setup_test_default item h :
  setup_test item ONil ONil ONil h = Done (ClTest test_eql key_identity item) h.
Proof. done. Qed.

(** ** MEMBER *)

Lemma member_loop_spec fuel h x l p f :
  lseg h x l ONil → (length l < fuel)%nat →
  (∀ v, v ∈ l.*2 → p v h = Done (f v) h) →
  ∃ r, member_loop fuel p x h = Done r h ∧ found_tail h x l f r.
Proof.
  intros Hl Hf Hp.
  destruct (wp_done_inv (member_loop fuel p x) h (λ r h', h' = h ∧ found_tail h x l f r))
    as (r & h' & E & -> & Hr); [|eauto].
  unfold member_loop.
  apply (wp_loop_for_in fuel h x l ONil (λ l1 _ h1, h1 = h ∧ Forall (λ v, f v = false) l1.*2)); try done.
  - intros l1 a v l2 _ h1 Heq (-> & Hf1). rewrite Heq in Hl.
    pose proof Hl as (z & Hz1 & Hz2)%lseg_app. destruct Hz2 as (-> & d & Ha & Hd).
    wp_go. eapply wp_Done.
    { apply Hp. rewrite Heq, fmap_app. apply elem_of_app. right. left. }
    destruct (f v) eqn:Ev; wp_go.
    + split; [done|]. unfold found_tail. rewrite Heq, fmap_app, first_pos_app by done.
      simpl. rewrite Ev, Nat.add_0_r, length_fmap, take_app_length, drop_app_length.
      split; [done|]. simpl. eauto.
    + split; [|eauto]. split; [done|]. rewrite fmap_snoc. apply Forall_app. split; [done|]. by constructor.
  - intros _ h1 (-> & Hf1). simpl. wp_go. split; [done|]. unfold found_tail.
    rewrite <- (app_nil_r l.*2), first_pos_app by done. simpl.
    rewrite Nat.add_0_r, length_fmap, firstn_all, drop_all. done.
Qed.

(** MEMBER gives the tail of the list, not a copy, that starts with the first
    element that satisfies the test, and NIL when there is none. *)
Theorem member_finds fuel h item list l test test_not key t f :
  setup_test item test test_not key h = Done t h →
  (∀ v, v ∈ l.*2 → TEST fuel t v h = Done (f v) h) →
  lseg h list l ONil → (length l < fuel)%nat →
  ∃ r, mk_cl_member fuel item list test test_not key h = Done r h ∧ found_tail h list l f r.
Proof.
  intros Hset Ht Hl Hf. unfold mk_cl_member. rewrite (bind_Done _ _ _ _ _ Hset).
  by apply member_loop_spec.
Qed.

Lemma found_tail_null h x l f r :
  found_tail h x l f r → (mkcl_Null r = true ↔ Forall (λ v, f v = false) l.*2).
Proof.
  intros [Ht Hd]. set (k := first_pos f l.*2) in *.
  destruct (first_pos_spec f l.*2) as [H1 H2]. fold k in H1, H2.
  pose proof (first_pos_length f l.*2) as Hk. fold k in Hk. rewrite length_fmap in Hk.
  destruct (drop k l) as [|[a v] l'] eqn:Ed.
  - simpl in Hd. subst r. split; [intros _|done].
    apply (f_equal length) in Ed. rewrite length_drop in Ed. simpl in Ed.
    rewrite take_ge in H1; [done|]. rewrite length_fmap. lia.
  - destruct Hd as [-> _]. split; [done|]. intros Hall. exfalso.
    assert (l !! k = Some (a, v)) as Hlk.
    { rewrite <- (take_drop k l), Ed. rewrite lookup_app_r; rewrite length_take; [|lia].
      by replace (k - k `min` length l)%nat with 0%nat by lia. }
    rewrite Forall_lookup in Hall. specialize (Hall k v). rewrite list_lookup_fmap, Hlk in Hall.
    specialize (H2 v). rewrite list_lookup_fmap, Hlk in H2. rewrite Hall, H2 in * by done.
    by specialize (H2 eq_refl).
Qed.

(** ADJOIN without keywords adds an element in front of a list when no element
    is EQL to it, and gives the list itself otherwise. *)
Theorem adjoin_adds fuel h item list l :
  lseg h list l ONil → (length l < fuel)%nat →
  mk_cl_adjoin fuel item list None h =
  (if existsb (mkcl_eql item) l.*2 then Done list h
   else Done (OCons (first_free h)) (<[first_free h := CCons item list]> h)).
Proof.
  intros Hl Hf. unfold mk_cl_adjoin, mkcl_adjoin, mkcl_memql.
  destruct (member_loop_spec fuel h list l (λ a, mret (mkcl_eql item a) : M bool) (mkcl_eql item))
    as (r & E & Hr); [done..|].
  rewrite (bind_Done _ _ _ _ _ E). apply found_tail_null in Hr.
  destruct (existsb (mkcl_eql item) l.*2) eqn:Ee.
  - apply existsb_exists in Ee as (v & Hv & Hev). destruct (mkcl_Null r); [|done].
    exfalso. destruct Hr as [Hr _]. specialize (Hr eq_refl). rewrite List.Forall_forall in Hr.
    by rewrite Hr in Hev.
  - destruct (mkcl_Null r); [done|]. exfalso. assert (false = true) as [=].
    apply Hr, List.Forall_forall. intros v Hv. apply not_true_iff_false. intros Hev.
    apply not_true_iff_false in Ee. apply Ee, existsb_exists. eauto.
Qed.

(** ** ASSOC and RASSOC *)

(** A field of an element that is a pair. *)
Definition pair_field (h : heap) (op : cxr_op) (v : obj) : option obj :=
  match v with
  | OCons a => match h !! a with
               | Some (CCons k d) => Some (match op with A => k | D => d end)
               | _ => None
               end
  | _ => None
  end.

Definition matches (h : heap) (op : cxr_op) (f : obj → bool) (v : obj) : bool :=
  match pair_field h op v with Some k => f k | None => false end.

(** An association list: pairs, and NILs that are skipped. *)
Definition alist_elem (h : heap) (v : obj) : Prop :=
  v = ONil ∨ ∃ a k d, v = OCons a ∧ h !! a = Some (CCons k d).

(** The first element whose field satisfies [f], or NIL. *)
Definition first_pair (h : heap) (op : cxr_op) (f : obj → bool) (vs : list obj) : obj :=
  default ONil (vs !! first_pos (matches h op f) vs).

Definition find_loop (fuel : nat) (t : cl_test) (op : cxr_op) (a_list : obj) : M obj :=
  mkcl_loop_for_in fuel (λ a_list (_ : unit),
    pair ← MKCL_CONS_CAR a_list;
    if negb (mkcl_Null pair) then
      if negb (MKCL_LISTP pair) then raise (FEtype_error_list pair)
      else
        a ← match op with A => MKCL_CONS_CAR pair | D => MKCL_CONS_CDR pair end;
        b ← TEST fuel t a;
        if (b : bool) then mret (inr pair) else mret (inl tt)
    else mret (inl tt)) (λ _, mret ONil) a_list tt.

Lemma find_loop_spec fuel h op x l t f :
  lseg h x l ONil → (length l < fuel)%nat → Forall (alist_elem h) l.*2 →
  (∀ v k, v ∈ l.*2 → pair_field h op v = Some k → TEST fuel t k h = Done (f k) h) →
  find_loop fuel t op x h = Done (first_pair h op f l.*2) h.
Proof.
  intros Hl Hf Hall Ht.
  destruct (wp_done_inv (find_loop fuel t op x) h (λ r h', h' = h ∧ r = first_pair h op f l.*2))
    as (r & h' & E & -> & ->); [|done].
  unfold find_loop, first_pair. apply (wp_loop_for_in fuel h x l ONil
    (λ l1 _ h1, h1 = h ∧ Forall (λ v, matches h op f v = false) l1.*2)); try done.
  - intros l1 a v l2 _ h1 Heq (-> & Hf1). rewrite Heq in Hl.
    pose proof Hl as (z & _ & -> & d & Ha & _)%lseg_app.
    assert (v ∈ l.*2) as Hv by (rewrite Heq, fmap_app; apply elem_of_app; right; left).
    assert (Hnext : matches h op f v = false →
      (h = h ∧ Forall (λ v, matches h op f v = false) (l1 ++ [(a, v)]).*2) ∧
      ∃ d, h !! a = Some (CCons v d) ∧ h !! a = h !! a).
    { intros Hm. split; [|eauto]. split; [done|]. rewrite fmap_snoc. apply Forall_app.
      split; [done|]. by constructor. }
    assert (Hfound : matches h op f v = true → h = h ∧
      v = default ONil (l.*2 !! first_pos (matches h op f) l.*2)).
    { intros Hm. split; [done|]. rewrite Heq, fmap_app, first_pos_app by done. simpl.
      by rewrite Hm, Nat.add_0_r, lookup_app_r, Nat.sub_diag. }
    pose proof Hall as Hall'. rewrite List.Forall_forall in Hall'.
    specialize (Hall' v (proj1 (list_elem_of_In _ _) Hv)).
    wp_step. wp_step. destruct Hall' as [->|(b & k & e & -> & Hb)].
    + wp_go. by apply Hnext.
    + wp_cond. wp_step.
      assert (Hfield : pair_field h op (OCons b) = Some (match op with A => k | D => e end))
        by (simpl; by rewrite Hb).
      eapply (wp_mono _ _ (λ r h', h' = h ∧ r = match op with A => k | D => e end) _ no_error);
        [destruct op; [by eapply wp_car|by eapply wp_cdr]| |done].
      intros r h' [-> ->]. wp_step. eapply wp_Done; [by eapply Ht|].
      assert (matches h op f (OCons b) = f (match op with A => k | D => e end)) as Hm
        by (unfold matches; by rewrite Hfield).
      destruct (f _); wp_go; [by apply Hfound|by apply Hnext].
  - intros _ h1 (-> & Hf1). simpl. wp_go. split; [done|].
    pose proof (first_pos_app _ _ [] Hf1) as Hp. rewrite app_nil_r in Hp. simpl in Hp.
    by rewrite lookup_ge_None_2 by lia.
Qed.

(** ASSOC and RASSOC give the first pair whose car, respectively cdr, satisfies the
    test, skip the NIL elements, and give NIL when there is none. *)
Theorem assoc_finds fuel h item a_list l test test_not key t f :
  setup_test item test test_not key h = Done t h →
  lseg h a_list l ONil → (length l < fuel)%nat → Forall (alist_elem h) l.*2 →
  (∀ op v k, v ∈ l.*2 → pair_field h op v = Some k → TEST fuel t k h = Done (f k) h) →
  mk_cl_assoc fuel item a_list test test_not key h = Done (first_pair h A f l.*2) h ∧
  mk_cl_rassoc fuel item a_list test test_not key h = Done (first_pair h D f l.*2) h.
Proof.
  intros Hset Hl Hf Hall Ht. unfold mk_cl_assoc, mk_cl_rassoc, do_assoc.
  rewrite !(bind_Done _ _ _ _ _ Hset).
  split; [apply (find_loop_spec fuel h A a_list l t f)|apply (find_loop_spec fuel h D a_list l t f)];
    eauto.
Qed.

(** ** TAILP and the removal by EQ *)

(** TAILP tells whether an object is a tail of a list: one of its conses, by
    identity, or its final atom, by EQL.  An atom other than NIL is no list. *)
Theorem tailp_decides fuel h x l y z :
  lseg h x l y → MKCL_CONSP y = false → (length l < fuel)%nat →
  mk_cl_tailp fuel z x h =
    (if bool_decide (l = []) && negb (mkcl_Null y) then Fail (FEtype_error_list y) h
     else Done (lisp_bool (existsb (λ a, obj_eq (OCons a) z) l.*1 || mkcl_eql y z)) h).
Proof.
  intros Hl Hy Hf. unfold mk_cl_tailp. destruct l as [|[a0 v0] l0].
  { simpl in Hl. subst x. rewrite Hy. by destruct y. }
  set (l := (a0, v0) :: l0) in *. rewrite bool_decide_eq_false_2 by done. simpl andb. cbv iota.
  assert (MKCL_CONSP x = true) as -> by (by destruct Hl as [-> _]). cbn [negb].
  destruct (wp_done_inv (loop fuel (λ x,
      if MKCL_CONSP x then
        if mkcl_eql x z then mret (inr mk_cl_Ct)
        else x ← MKCL_CONS_CDR x; mret (inl x)
      else mret (inr (lisp_bool (mkcl_eql x z)))) x) h
    (λ r h', h' = h ∧ r = lisp_bool (existsb (λ a, obj_eq (OCons a) z) l.*1 || mkcl_eql y z)))
    as (r & h' & E & -> & ->); [|done].
  apply (wp_loop (λ n x h', h' = h ∧ ∃ l1 l2, l = l1 ++ l2 ∧ lseg h x l2 y ∧ n = length l2 ∧
    existsb (λ a, obj_eq (OCons a) z) l1.*1 = false) _ _ (length l)); [| |done].
  - intros n x' h' (-> & l1 & l2 & -> & Hl2 & -> & Hno). rewrite fmap_app, existsb_app, Hno.
    destruct l2 as [|[a v] l2].
    + simpl in Hl2. subst x'. rewrite Hy. by wp_go.
    + destruct Hl2 as (-> & d & Ha & Hl2). simpl existsb. rewrite mkcl_eql_cons. wp_cond.
      destruct (obj_eq (OCons a) z) eqn:E; [by wp_go|]. wp_go.
      exists (length l2). simpl. split; [lia|]. split; [done|]. exists (l1 ++ [(a, v)]), l2.
      split_and!; [by rewrite <- (assoc app)|done..|].
      rewrite fmap_snoc, existsb_app, Hno. simpl. by rewrite E.
  - split; [done|]. exists [], l. done.
Qed.

Definition remove_inv (h : heap) (l : cells) (y : obj) (p : obj → bool) (n : nat)
    (s : obj * obj * obj) (h1 : heap) : Prop :=
  let '(x, head, tail) := s in
  ∃ l1 l2, l = l1 ++ l2 ∧ lseg h x l2 y ∧ n = length l2 ∧
    ((head = ONil ∧ tail = ONil ∧ h1 = h ∧ List.filter p l1.*2 = []) ∨
     building h h1 head tail (List.filter p l1.*2) ONil).

Lemma remove_inv_next h l1 a v l2 y p d head tail h1 :
  h !! a = Some (CCons v d) → lseg h d l2 y → h ⊆ h1 →
  (head = ONil ∧ tail = ONil ∧ h1 = h ∧ List.filter p (l1 ++ [(a, v)]).*2 = []) ∨
  building h h1 head tail (List.filter p (l1 ++ [(a, v)]).*2) ONil →
  wp (l ← MKCL_CONS_CDR (OCons a); mret (inl (l, head, tail))) h1
    (λ r h', match r with
             | inl s' => ∃ m, (m < length ((a, v) :: l2))%nat ∧
                           remove_inv h (l1 ++ (a, v) :: l2) y p m s' h'
             | inr r => fresh_lseg h h' r (List.filter p (l1 ++ (a, v) :: l2).*2) ONil
             end) no_error.
Proof.
  intros Ha Hl2 Hs Hst. pose proof (lookup_weaken _ _ _ _ Ha Hs). wp_go.
  exists (length l2). simpl. split; [lia|]. exists (l1 ++ [(a, v)]), l2.
  by rewrite <- (assoc app).
Qed.

(** The removal by EQ copies the elements of a list that differ from an object,
    in order, and stops at the first atom. *)
Theorem remove_eq_filters fuel h x l y z :
  lseg h x l y → MKCL_CONSP y = false → (length l < fuel)%nat →
  ∃ r h', mkcl_remove_eq fuel z x h = Done r h' ∧
          fresh_lseg h h' r (List.filter (λ v, negb (obj_eq v z)) l.*2) ONil.
Proof.
  intros Hl Hy Hf. apply wp_done_inv. set (p := λ v, negb (obj_eq v z)).
  apply (wp_loop (remove_inv h l y p) _ _ (length l)); [| |done].
  - intros n [[x' head] tail] h1 (l1 & l2 & -> & Hl2 & -> & Hst).
    destruct l2 as [|[a v] l2].
    + simpl in Hl2. subst x'. rewrite Hy, app_nil_r. wp_go.
      destruct Hst as [(-> & -> & -> & ->)|Hb]; [apply fresh_lseg_nil|by eapply building_fresh].
    + destruct Hl2 as (-> & d & Ha & Hl2). wp_cond.
      assert (h ⊆ h1) as Hs by (destruct Hst as [(_ & _ & -> & _)|[? _]]; done).
      pose proof (lookup_weaken _ _ _ _ Ha Hs) as Ha1. do 2 wp_step.
      assert (Hp : List.filter p (l1 ++ [(a, v)]).*2 =
        List.filter p l1.*2 ++ (if obj_eq v z then [] else [v])).
      { rewrite fmap_snoc, List.filter_app. simpl. unfold p. by destruct (obj_eq v z). }
      destruct (obj_eq v z) eqn:Ez; cbn [negb]; wp_step.
      * wp_step. eapply remove_inv_next; [done..|]. by rewrite Hp, app_nil_r.
      * wp_step. wp_step. destruct Hst as [(-> & -> & -> & Hnil)|Hb].
        -- wp_cond. wp_step. eapply remove_inv_next; [done..|apply insert_first_free_subseteq|].
           right. rewrite Hp, Hnil. by apply building_start.
        -- assert (mkcl_Null tail = false) as -> by (by destruct Hb as (_ & ? & ? & ? & -> & _)).
           wp_step. eapply wp_link; [done|]. intros h2 Hb2 _. wp_step.
           eapply remove_inv_next; [done..|by eapply building_subseteq|].
           right. by rewrite Hp.
  - exists [], l. split_and!; try done. by left.
Qed.
End with_runtime.


(** The car and the cdr that a reference holds. *)
Definition car_of (h : heap) (x : obj) : obj :=
  match x with
  | OCons a => match h !! a with Some (CCons v _) => v | _ => ONil end
  | _ => ONil
  end.

Definition cdr_of (h : heap) (x : obj) : obj :=
  match x with
  | OCons a => match h !! a with Some (CCons _ d) => d | _ => ONil end
  | _ => ONil
  end.

Lemma car_of_eq h a v d : h !! a = Some (CCons v d) → car_of h (OCons a) = v.
Proof. simpl. by intros ->. Qed.
Lemma cdr_of_eq h a v d : h !! a = Some (CCons v d) → cdr_of h (OCons a) = d.
Proof. simpl. by intros ->. Qed.

(** The references to the nodes of a tree. *)
Fixpoint nodes (h : heap) (t : tree) (x : obj) : list obj :=
  x :: match t with
       | Leaf _ => []
       | Node l r => nodes h l (car_of h x) ++ nodes h r (cdr_of h x)
       end.

Fixpoint replace_tree (h : heap) (sb : obj → option tree) (t : tree) (x : obj) : tree :=
  match sb x with
  | Some t' => t'
  | None =>
      match t with
      | Leaf y => Leaf y
      | Node l r => Node (replace_tree h sb l (car_of h x)) (replace_tree h sb r (cdr_of h x))
      end
  end.

Lemma nodes_root h t x : x ∈ nodes h t x.
Proof. destruct t; left. Qed.

(** ** Trees under changes of the heap *)

Lemma reps_insert_ne (P : Z → Prop) h a c x t :
  ¬ P a → reps P h x t → reps P (<[a := c]> h) x t.
Proof.
  intros Ha. revert x. induction t as [y|l IHl r IHr]; intros x; simpl; [done|].
  intros (b & v & d & -> & Hb & Hc & Hl & Hr). exists b, v, d. split_and!; auto.
  rewrite lookup_insert_ne; [done|]. by intros ->.
Qed.

Lemma reps_weaken (P P' : Z → Prop) h x t :
  (∀ a, P a → is_Some (h !! a) → P' a) → reps P h x t → reps P' h x t.
Proof.
  intros HP. revert x. induction t as [y|l IHl r IHr]; intros x; simpl; [done|].
  intros (b & v & d & -> & Hb & Hc & Hl & Hr). exists b, v, d. split_and!; eauto.
Qed.

(** The cells of the heap [h], and the cells allocated after the heap [h1]. *)
Definition old_or_new (h h1 : heap) : Z → Prop := λ a, is_Some (h !! a) ∨ h1 !! a = None.

(** A tree whose first conses are a segment. *)
Fixpoint spine_tree (ts : list tree) (t : tree) : tree :=
  match ts with [] => t | u :: ts' => Node u (spine_tree ts' t) end.

Lemma lseg_reps (P : Z → Prop) h x l y ts t :
  lseg h x l y → (∀ a, a ∈ l.*1 → P a) → Forall2 (reps P h) l.*2 ts → reps P h y t →
  reps P h x (spine_tree ts t).
Proof.
  revert x ts. induction l as [|[a v] l IH]; intros x ts Hl HP Hts Hy.
  - simpl in *. subst x. by inversion Hts.
  - destruct Hl as (-> & d & Ha & Hl). simpl in Hts. inversion Hts as [|? u ? ts' Hu Hts']; subst.
    simpl. exists a, v, d. split_and!; [done| |done..|].
    + apply HP. left.
    + apply IH; [done| |done..]. intros b Hb. apply HP. by right.
Qed.

Lemma spine_tree_app ts us t : spine_tree (ts ++ us) t = spine_tree ts (spine_tree us t).
Proof. induction ts as [|u ts IH]; simpl; [done|]. by rewrite IH. Qed.

Lemma reps_transfer (P : Z → Prop) h h' x t :
  (∀ a c, P a → h !! a = Some c → h' !! a = Some c) → reps P h x t → reps P h' x t.
Proof.
  intros HP. revert x. induction t as [y|l IHl r IHr]; intros x; simpl; [done|].
  intros (b & v & d & -> & Hb & Hc & Hl & Hr). exists b, v, d. split_and!; eauto.
Qed.

(** A tree of a heap, seen from an extension, is made of old cells. *)
Lemma reps_old h0 h h1 x t : h0 ⊆ h1 → reps anywhere h0 x t → reps (old_or_new h0 h) h1 x t.
Proof.
  intros Hs Ht. eapply reps_heap; [exact Hs|]. eapply reps_weaken; [|exact Ht]. intros a _ Ha. by left.
Qed.

Lemma old_or_new_mono h0 h h1 a : h ⊆ h1 → old_or_new h0 h1 a → old_or_new h0 h a.
Proof. intros Hs [?|Hn]; [by left|right]. by eapply lookup_weaken_None. Qed.

(** While a list is under construction, the heap grows: the part of it that the
    list is not made of grows with it. *)
Lemma building_grow hp h1 h2 head tail vs z :
  building hp h1 head tail vs z → h1 ⊆ h2 →
  ∃ hp', hp ⊆ hp' ∧ building hp' h2 head tail vs z ∧
    ∀ a c, h2 !! a = Some c → is_Some (hp !! a) ∨ h1 !! a = None → hp' !! a = Some c.
Proof.
  intros (Hs & l & a & v & -> & -> & Hl & Hnd & Hf) Hs2.
  set (cs := l ++ [(a, v)]) in *.
  exists (filter (λ p, p.1 ∉ cs.*1) h2). split_and!.
  - apply map_subseteq_spec. intros b c Hb. apply map_lookup_filter_Some. split.
    + eapply lookup_weaken; [exact Hb|]. msub.
    + simpl. intros Hin. rewrite (Hf b Hin) in Hb. done.
  - split; [apply map_filter_subseteq|]. exists l, a, v.
    split_and!; [done..|by eapply lseg_mono|done|].
    intros b Hb. apply map_lookup_filter_None. right. simpl. intros c _ Hn. by apply Hn.
  - intros b c Hb Hor. apply map_lookup_filter_Some. split; [done|]. simpl. intros Hin.
    destruct Hor as [[c' Hc']|Hn]; [by rewrite (Hf b Hin) in Hc'|].
    destruct (lseg_elem _ _ _ _ _ Hl Hin). congruence.
Qed.

(** The tree of a list under construction. *)
Lemma building_reps h0 h hp h1 head tail vs z ts t :
  building hp h1 head tail vs z → h ⊆ hp → Forall2 (reps (old_or_new h0 h) hp) vs ts →
  reps (old_or_new h0 h) h1 z t → reps (old_or_new h0 h) h1 head (spine_tree ts t).
Proof.
  intros (Hs & l & a & v & -> & -> & Hl & Hnd & Hf) Hhp Hvs Hz.
  eapply lseg_reps; [done| | |done].
  - intros b Hb. right. eapply lookup_weaken_None; [by apply Hf|done].
  - eapply Forall2_impl; [exact Hvs|]. intros w t' Hw. by eapply reps_heap.
Qed.

Section with_runtime.
Context `{!Runtime}.

(** Two allocations or writes whose results the rest of a computation uses. *)
Lemma wp_pair {X Y B} (m1 : M X) (m2 : X → M Y) (k : Y → X → M B) h (R : Y * X → heap → Prop) Q :
  wp (x ← m1; y ← m2 x; mret (y, x)) h R no_error →
  (∀ y x h', R (y, x) h' → wp (k y x) h' Q no_error) →
  wp (x ← m1; y ← m2 x; k y x) h Q no_error.
Proof.
  unfold wp, mbind, M_bind, mret, M_ret. intros H1 H2.
  destruct (m1 h) as [x h1| |]; try done. destruct (m2 x h1) as [y h2| |]; try done.
  by apply H2 in H1.
Qed.

(** ** TREE-EQUAL *)

(** The code asks the test about an atom of the first tree whatever is at its
    place in the second one, which may be a cons. *)
Fixpoint tree_match (h : heap) (g : obj → obj → bool) (tx ty : tree) (y : obj) : bool :=
  match tx, ty with
  | Leaf a, _ => g a y
  | Node l r, Node l' r' =>
      tree_match h g l l' (car_of h y) && tree_match h g r r' (cdr_of h y)
  | Node _ _, Leaf _ => false
  end.

Lemma tree_equal_spec fuel n t g h tx ty x y :
  reps anywhere h x tx → reps anywhere h y ty → (height tx < n)%nat →
  (∀ a b, b ∈ nodes h ty y → TEST fuel (set_item t a) b h = Done (g a b) h) →
  tree_equal fuel n t x y h = Done (tree_match h g tx ty y) h.
Proof.
  revert n x y ty. induction tx as [x0|l IHl r IHr]; intros n x y ty Hx Hy Hn Ht;
    (destruct n as [|n]; [simpl in Hn; lia|]); cbn [tree_equal].
  - destruct Hx as [-> Hc]. rewrite Hc. rewrite Ht by apply nodes_root. by destruct ty.
  - destruct Hx as (a & v & d & -> & _ & Ha & Hl & Hr). destruct ty as [y0|l' r'].
    + destruct Hy as [-> Hc]. simpl. by rewrite Hc.
    + destruct Hy as (b & w & e & -> & _ & Hb & Hl' & Hr').
      cbn [MKCL_CONSP height nodes tree_match] in *.
      rewrite (bind_Done _ _ _ _ _ (CAR_eq _ _ _ _ Ha)), (bind_Done _ _ _ _ _ (CAR_eq _ _ _ _ Hb)).
      rewrite (car_of_eq _ _ _ _ Hb), (cdr_of_eq _ _ _ _ Hb) in *.
      assert (El := IHl n v w l' Hl Hl' ltac:(lia)
        ltac:(intros p q Hq; apply Ht; right; apply elem_of_app; by left)).
      rewrite (bind_Done _ _ _ _ _ El). destruct (tree_match h g l l' w); [|done].
      rewrite (bind_Done _ _ _ _ _ (CDR_eq _ _ _ _ Ha)), (bind_Done _ _ _ _ _ (CDR_eq _ _ _ _ Hb)).
      rewrite (IHr n d e r'); [done|done|done|lia|].
      intros p q Hq. apply Ht. right. apply elem_of_app. by right.
Qed.

(** TREE-EQUAL with the default test compares the structures of two trees and
    their atoms with EQL. *)
Theorem tree_equal_default fuel h tx ty x y :
  reps anywhere h x tx → reps anywhere h y ty → (height tx < fuel)%nat →
  mk_cl_tree_equal fuel x y ONil ONil h = Done (lisp_bool (tree_match h mkcl_eql tx ty y)) h.
Proof.
  intros Hx Hy Hf. unfold mk_cl_tree_equal. rewrite (bind_Done _ _ _ _ _ (setup_test_default _ _)).
  by rewrite (bind_Done _ _ _ _ _ (tree_equal_spec fuel fuel (ClTest test_eql key_identity ONil) mkcl_eql h tx ty x y Hx Hy Hf
    ltac:(intros; apply TEST_eql))).
Qed.

(** A test that accepts everything makes TREE-EQUAL true of an atom and a cons,
    which it should tell apart before any test: the test is called on a cons. *)
Theorem tree_equal_atom_cons fuel h f x a :
  MKCL_CONSP x = false → mkcl_Null f = false →
  mk_si_coerce_to_function f h = Done f h → mkcl_validate_function f h = Done f h →
  obj_eq f fun_eq = false → obj_eq f fun_eql = false → obj_eq f fun_equal = false →
  obj_eq f fun_equalp = false →
  call_function f [x; OCons a] h = Done mk_cl_Ct h →
  mk_cl_tree_equal (S fuel) x (OCons a) f ONil h = Done mk_cl_Ct h.
Proof.
  intros Hx Hf Hco Hva H1 H2 H3 H4 Hcall.
  assert (Hset : setup_test ONil f ONil ONil h =
    Done (ClTest (test_compare f) key_identity ONil) h).
  { unfold setup_test. rewrite Hf. simpl. unfold mbind, M_bind. rewrite Hco, H1, H2, H3, H4, Hva. done. }
  unfold mk_cl_tree_equal. rewrite (bind_Done _ _ _ _ _ Hset). simpl tree_equal. rewrite Hx.
  unfold TEST, KEY. simpl. unfold mbind, M_bind, mret, M_ret. by rewrite Hcall.
Qed.

(** ** SUBST *)

Section subst.
Context (fuel : nat) (t : cl_test) (new_obj : obj) (newt : tree) (f : obj → bool) (h0 : heap).
Hypothesis new_reps : reps anywhere h0 new_obj newt.

Definition subst_map (y : obj) : option tree := if f y then Some newt else None.

Definition test_decides (l : list obj) : Prop :=
  ∀ y h, y ∈ l → h0 ⊆ h → TEST fuel t y h = Done (f y) h.

(** The state of the loop of [subst] at the cons [tree], whose subtree is
    [cur]. *)
Definition subst_inv (h : heap) (res : tree) (n m : nat) (s : obj * obj * obj) (h1 : heap) : Prop :=
  let '(tree, head, tail) := s in
  ∃ l r ts, reps anywhere h0 tree (Node l r) ∧ f tree = false ∧
    test_decides (nodes h0 (Node l r) tree) ∧ m = height (Node l r) ∧ (m < S n)%nat ∧ (m < fuel)%nat ∧
    h ⊆ h1 ∧ res = spine_tree ts (replace_tree h0 subst_map (Node l r) tree) ∧
    ((tail = ONil ∧ ts = []) ∨
     ∃ hp vs, h ⊆ hp ∧ building hp h1 head tail vs tree ∧ Forall2 (reps (old_or_new h0 h) hp) vs ts).

(** After the copy of the car: the new cons is linked. *)
Lemma subst_link h h1 h2 head tail vs ts a ta next tree z :
  (tail = ONil ∧ ts = [] ∧ vs = []) ∨
  (∃ hp, h ⊆ hp ∧ building hp h1 head tail vs tree ∧ Forall2 (reps (old_or_new h0 h) hp) vs ts) →
  h0 ⊆ h → h ⊆ h1 → h1 ⊆ h2 → reps (old_or_new h0 h1) h2 a ta → z = next →
  wp (cons ← mkcl_cons a next;
      head ← (if mkcl_Null tail then mret cons else MKCL_RPLACD tail cons;; mret head);
      mret (head, cons)) h2
    (λ r h3, h ⊆ h3 ∧ ∃ hp', h ⊆ hp' ∧ building hp' h3 r.1 r.2 (vs ++ [a]) z ∧
       Forall2 (reps (old_or_new h0 h) hp') (vs ++ [a]) (ts ++ [ta])) no_error.
Proof.
  intros Hst Hs0 Hs Hs2 Ha ->.
  assert (Ha' : reps (old_or_new h0 h) h2 a ta).
  { eapply reps_weaken; [|exact Ha]. intros b Hb _. by eapply old_or_new_mono. }
  wp_go. destruct Hst as [(-> & -> & ->)|(hp & Hhp & Hb & Hvs)].
  - wp_cond. wp_go. split; [apply subseteq_alloc; msub|]. exists h2.
    split_and!; [msub|by apply building_start|by repeat constructor].
  - assert (mkcl_Null tail = false) as -> by (by destruct Hb as (_ & ? & ? & ? & -> & _)).
    destruct (building_grow _ _ _ _ _ _ _ Hb Hs2) as (hp' & Hhp' & Hb' & Hin).
    wp_step. eapply wp_link; [done|]. intros h3 Hb3 _. wp_go.
    assert (h ⊆ hp') by (etrans; [exact Hhp|exact Hhp']). split; [etrans; [done|by eapply building_subseteq]|].
    exists hp'. split_and!; [done..|]. apply Forall2_app.
    + eapply Forall2_impl; [exact Hvs|]. intros w t' Hw. by eapply reps_heap; [exact Hhp'|].
    + repeat constructor. apply (reps_weaken (old_or_new h0 h1)).
      { intros b Hb1 _. by apply (old_or_new_mono _ _ h1). }
      apply (reps_transfer _ h2); [|exact Ha]. intros b c Hb1 Hc. apply (Hin b c Hc).
      destruct Hb1 as [[c' Hc']|?]; [left|by right]. exists c'.
      eapply lookup_weaken; [exact Hc'|]. msub.
Qed.

Lemma test_decides_app l1 l2 : test_decides (l1 ++ l2) → test_decides l1 ∧ test_decides l2.
Proof.
  intros H1. split; intros y h Hy; apply H1; apply elem_of_app; [by left|by right].
Qed.

Lemma replace_node l r x :
  f x = false →
  replace_tree h0 subst_map (Node l r) x =
  Node (replace_tree h0 subst_map l (car_of h0 x)) (replace_tree h0 subst_map r (cdr_of h0 x)).
Proof. intros Hx. cbn [replace_tree]. unfold subst_map at 1. by rewrite Hx. Qed.

Lemma subst_spec n : ∀ h tr x,
  h0 ⊆ h → reps anywhere h0 x tr → (height tr < n)%nat → (height tr < fuel)%nat →
  test_decides (nodes h0 tr x) →
  wp (subst fuel n t new_obj x) h
    (λ r h', h ⊆ h' ∧ reps (old_or_new h0 h) h' r (replace_tree h0 subst_map tr x)) no_error.
Proof.
  induction n as [|n IH]; intros h tr x Hs Hx Hn Hfuel Ht; [lia|]. cbn [subst].
  wp_step. eapply wp_Done; [apply Ht; [apply nodes_root|done]|].
  destruct (f x) eqn:Ex.
  { wp_go. split; [done|]. assert (replace_tree h0 subst_map tr x = newt) as ->
      by (destruct tr; cbn [replace_tree]; unfold subst_map at 1; by rewrite Ex).
    by apply reps_old. }
  unfold MKCL_ATOM. rewrite (reps_CONSP _ _ _ _ Hx). destruct tr as [y|l0 r0]; cbn [negb].
  { wp_go. split; [done|]. cbn [replace_tree]. unfold subst_map at 1. rewrite Ex.
    by destruct Hx as [-> ?]. }
  apply (wp_loop (subst_inv h (replace_tree h0 subst_map (Node l0 r0) x) n) _ _ (height (Node l0 r0)));
    [|exists l0, r0, []; split_and!; try done; by left|done].
  intros m [[tree head] tail] h1 (l & r & ts & Htree & Hft & Htd & -> & Hm & Hmf & Hs1 & Hres & Hst).
  destruct Htree as (a & v & d & -> & _ & Ha & Hl & Hr).
  assert (h0 ⊆ h1) as Hs01 by msub.
  pose proof (lookup_weaken _ _ _ _ Ha Hs01) as Ha1. cbn [nodes] in Htd.
  rewrite (car_of_eq _ _ _ _ Ha), (cdr_of_eq _ _ _ _ Ha) in Htd.
  assert (test_decides (nodes h0 l v) ∧ test_decides (nodes h0 r d)) as [Htl Htr].
  { apply test_decides_app. intros y h' Hy. apply Htd. by right. }
  rewrite (replace_node l r (OCons a) Hft), (car_of_eq _ _ _ _ Ha), (cdr_of_eq _ _ _ _ Ha) in Hres.
  simpl in Hm, Hmf.
  do 3 wp_step. eapply wp_mono; [apply (IH h1 l v); [done|done|lia|lia|done]| |done].
  intros a' h2 [Hs2 Ha']. pose proof (lookup_weaken _ _ _ _ Ha1 Hs2). wp_step. wp_step.
  assert (Hst' : ∃ vs, (tail = ONil ∧ ts = [] ∧ vs = []) ∨
    (∃ hp, h ⊆ hp ∧ building hp h1 head tail vs (OCons a) ∧
           Forall2 (reps (old_or_new h0 h) hp) vs ts)).
  { destruct Hst as [[-> ->]|(hp & vs & ?)]; [exists []; by left|exists vs; right; eauto]. }
  destruct Hst' as [vs Hst']. clear Hst.
  assert (Hlink := subst_link h h1 h2 head tail vs ts a' _ d (OCons a) d Hst' Hs Hs1 Hs2 Ha' eq_refl).
  eapply wp_pair; [exact Hlink|].
  intros hd cons h3 (Hs3 & hp' & Hhp' & Hb & Hvs).
  wp_step. eapply wp_Done; [apply Htr; [apply nodes_root|msub]|].
  assert (Hres' : replace_tree h0 subst_map (Node l0 r0) x =
    spine_tree (ts ++ [replace_tree h0 subst_map l v]) (replace_tree h0 subst_map r d))
    by by rewrite spine_tree_app.
  destruct (f d) eqn:Ed.
  - assert (replace_tree h0 subst_map r d = newt) as Hnew
      by (destruct r; cbn [replace_tree]; unfold subst_map at 1; by rewrite Ed).
    wp_step. eapply wp_close; [done|]. intros h4 Hb4. wp_go.
    assert (h ⊆ h4) by (etrans; [exact Hhp'|by eapply building_subseteq]).
    split; [done|]. rewrite Hres', Hnew. eapply building_reps; [done..|].
    apply reps_old; [msub|done].
  - rewrite (reps_CONSP _ _ _ _ Hr). destruct r as [y|l' r'].
    + wp_step. split; [done|]. rewrite Hres'. eapply building_reps; [done..|].
      cbn [replace_tree]. unfold subst_map at 1. rewrite Ed. by destruct Hr as [-> ?].
    + wp_step. exists (height (Node l' r')). split; [simpl; lia|].
      exists l', r', (ts ++ [replace_tree h0 subst_map l v]).
      split_and!; try done; [simpl in *; lia|simpl in *; lia|]. right. eauto.
Qed.
End subst.

(** SUBST gives the tree where the nodes that satisfy the test, from the root
    down, are replaced by the new object, and leaves the tree it was given as it was. *)
Theorem subst_replaces fuel h new_obj old_obj tree tr newt test test_not key t f :
  setup_test old_obj test test_not key h = Done t h →
  reps anywhere h tree tr → reps anywhere h new_obj newt → (height tr < fuel)%nat →
  (∀ y h', y ∈ nodes h tr tree → h ⊆ h' → TEST fuel t y h' = Done (f y) h') →
  ∃ r h', mk_cl_subst fuel new_obj old_obj tree test test_not key h = Done r h' ∧ h ⊆ h' ∧
    reps anywhere h' r (replace_tree h (λ y, if f y then Some newt else None) tr tree).
Proof.
  intros Hset Htr Hnew Hf Ht. unfold mk_cl_subst. rewrite (bind_Done _ _ _ _ _ Hset).
  apply wp_done_inv. eapply wp_mono; [eapply (subst_spec fuel t new_obj newt f h)| |]; try done.
  intros r h' [Hs Hr]. split; [done|]. by eapply reps_anywhere.
Qed.

(** ** SUBLIS *)

(** The substitution [sb] at the node [y] is what the pair [node] says. *)
Definition maps_to (h : heap) (sb : obj → option tree) (y node : obj) : Prop :=
  (node = ONil ∧ sb y = None) ∨
  (∃ a k d td, node = OCons a ∧ h !! a = Some (CCons k d) ∧
               sb y = Some td ∧ reps anywhere h d td).

Lemma sublis_spec fuel t0 t1 alist h0 sb n : ∀ h tr x,
  h0 ⊆ h → reps anywhere h0 x tr → (height tr < n)%nat →
  (∀ y h, y ∈ nodes h0 tr x → h0 ⊆ h →
     ∃ node, (k ← KEY t0 y; do_assoc fuel (set_item t1 k) alist) h = Done node h ∧
       maps_to h0 sb y node) →
  wp (sublis fuel n t0 t1 alist x) h
    (λ r h', h ⊆ h' ∧ reps anywhere h' r (replace_tree h0 sb tr x)) no_error.
Proof.
  induction n as [|n IH]; intros h tr x Hs Hx Hn Ht; [lia|].
  destruct (Ht x h) as (node & E & Hnode); [apply nodes_root|done|].
  assert (Hun : sublis fuel (S n) t0 t1 alist x h =
    (node ← (k ← KEY t0 x; do_assoc fuel (set_item t1 k) alist);
     if negb (mkcl_Null node) then MKCL_CONS_CDR node
     else if MKCL_CONSP x then
       a ← MKCL_CONS_CAR x; a ← sublis fuel n t0 t1 alist a;
       d ← MKCL_CONS_CDR x; d ← sublis fuel n t0 t1 alist d;
       mkcl_cons a d
     else mret x) h) by (rewrite bind_assoc; done).
  unfold wp. rewrite Hun, (bind_Done _ _ _ _ _ E). clear Hun E.
  destruct Hnode as [[-> Hnode]|(a & k & d & td & -> & Ha & Hsb & Hd)]; cbn [mkcl_Null negb].
  - rewrite (reps_CONSP _ _ _ _ Hx). destruct tr as [y|l r].
    + cbn [replace_tree]. rewrite Hnode. split; [done|]. by destruct Hx as [-> ?].
    + destruct Hx as (a & v & d & -> & _ & Ha & Hl & Hr). cbn [replace_tree nodes height] in *.
      rewrite (car_of_eq _ _ _ _ Ha), (cdr_of_eq _ _ _ _ Ha), Hnode in *.
      pose proof (lookup_weaken _ _ _ _ Ha Hs) as Ha1.
      match goal with |- match ?m h with _ => _ end => change (wp m h
        (λ r0 h', h ⊆ h' ∧ reps anywhere h' r0
           (Node (replace_tree h0 sb l v) (replace_tree h0 sb r d))) no_error) end.
      wp_step. wp_step. wp_step.
      eapply wp_mono; [apply (IH h l v); [done|done|lia|]| |done].
      { intros y h' Hy. apply Ht. right. apply elem_of_app. by left. }
      intros a' h1 [Hs1 Ha']. pose proof (lookup_weaken _ _ _ _ Ha1 Hs1). wp_step. wp_step. wp_step.
      eapply wp_mono; [apply (IH h1 r d); [msub|done|lia|]| |done].
      { intros y h' Hy. apply Ht. right. apply elem_of_app. by right. }
      intros d' h2 [Hs2 Hd']. wp_step. pose proof (insert_first_free_subseteq h2 (CCons a' d')) as Hs3.
      split; [msub|]. exists (first_free h2), a', d'.
      split_and!; [done|done|by rewrite lookup_insert_eq|eapply reps_heap; [|exact Ha']; msub|
        eapply reps_heap; [|exact Hd']; msub].
  - rewrite (CDR_eq _ _ _ _ (lookup_weaken _ _ _ _ Ha Hs)). split; [done|].
    assert (replace_tree h0 sb tr x = td) as -> by (destruct tr; cbn [replace_tree]; by rewrite Hsb).
    by eapply reps_heap.
Qed.

Lemma first_pair_mono h h' op f vs :
  h ⊆ h' → Forall (alist_elem h) vs → first_pair h' op f vs = first_pair h op f vs.
Proof.
  intros Hs Hall. unfold first_pair.
  assert (first_pos (matches h' op f) vs = first_pos (matches h op f) vs) as ->; [|done].
  induction Hall as [|v vs Hv _ IH]; [done|]. simpl. rewrite IH.
  assert (matches h' op f v = matches h op f v) as ->; [|done].
  destruct Hv as [->|(a & k & d & -> & Ha)]; [done|]. unfold matches, pair_field.
  by rewrite (lookup_weaken _ _ _ _ Ha Hs), Ha.
Qed.

(** C18: SUBLIS with the default test replaces the nodes that are EQL to a key of the
    association list, from the root down, by the value of the first such key. *)
Theorem sublis_replaces fuel h alist l tree tr sb :
  lseg h alist l ONil → (length l < fuel)%nat → Forall (alist_elem h) l.*2 →
  reps anywhere h tree tr → (height tr < fuel)%nat →
  (∀ y, y ∈ nodes h tr tree → maps_to h sb y (first_pair h A (mkcl_eql y) l.*2)) →
  ∃ r h', mk_cl_sublis fuel alist tree ONil ONil ONil h = Done r h' ∧ h ⊆ h' ∧
    reps anywhere h' r (replace_tree h sb tr tree).
Proof.
  intros Hl Hf Hall Htr Hh Hsb. unfold mk_cl_sublis.
  rewrite !(bind_Done _ _ _ _ _ (setup_test_default _ _)). apply wp_done_inv.
  apply sublis_spec; [done..|]. intros y h' Hy Hs. exists (first_pair h A (mkcl_eql y) l.*2).
  split; [|by apply Hsb]. rewrite <- (first_pair_mono h h') by done.
  unfold KEY. cbn [t_key]. rewrite bind_ret.
  apply (find_loop_spec fuel h' A alist l _ (mkcl_eql y)); [by eapply lseg_mono|done| |done].
  eapply Forall_impl; [exact Hall|]. intros v [?|(a & k & d & -> & Ha)]; [by left|right].
  exists a, k, d. split; [done|]. by eapply lookup_weaken.
Qed.
End with_runtime.
