(* ===== verification/Sequences.v ===== *)
(** * Sequences: the functions on sequences, src/src/c/sequence.c

    ELT, its writer, SUBSEQ, COPY-SEQ, LENGTH, REVERSE and NREVERSE.  A sequence is a
    list, a string of one of the two kinds, or another vector.  The cells of strings
    are read and written here; the other vectors, and how much longer than its
    contents a string may be, are the interface [Vectors] of array.c. *)

From S2P Require Import Prelude Words Objects Heap Numbers Segments Equal Lists.
#[local] Open Scope Z_scope.

(** What array.c provides: the dimension of a string or of a vector, and the
    vectors that are no strings. *)
Class Vectors := {
  array_dim : obj → M Z;
  vector_fillp : obj → M Z;
  mkcl_aref_index : obj → Z → M obj;
  mkcl_aset_index : obj → Z → obj → M obj;
  copy_subvector : obj → Z → Z → M obj;     (* a new vector of [l] elements from [i] *)
  reverse_subvector : obj → Z → Z → M unit;
}.

(** ** Characters, src/src/c/mkcl/external.h *)

Definition MKCL_CODE_CHAR (c : Z) : obj := OChar c.

Definition mkcl_char_code (c : obj) : M Z :=
  match c with OChar code => mret code | _ => raise (FEtype_error_character c) end.

Definition mkcl_base_char_code (c : obj) : M Z :=
  match c with
  | OChar code => if code <=? 255 then mret code else raise (FEtype_error_base_char c)
  | _ => raise (FEtype_error_base_char c)
  end.

(** [mkcl_make_unsigned_integer] *)
Definition mkcl_make_unsigned_integer (l : Z) : M obj :=
  if l <=? MKCL_MOST_POSITIVE_FIXNUM then mret (MKCL_MAKE_FIXNUM l)
  else a ← alloc CBox; mret (OBig a l).

Definition string_addr (x : obj) : option Z :=
  match x with OString a | OBaseString a => Some a | _ => None end.

Definition write_string (x : obj) (s : list Z) : M unit :=
  match string_addr x with Some a => write_cell a (CStr s) | None => raise Segfault end.

Section with_runtime.
Context `{!GMP, !Vectors} (fuel : nat).

(** ** ELT *)

Definition seq_index_error {R} (seq : obj) (index : Z) : M R :=
  raise (FEtype_error_seq_index seq (fixnum_wrap index)).

(** The cons of that index. *)
Definition elt_cons (seq : obj) (index : Z) : M obj :=
  l ← loop fuel (λ '(i, l),
    if 0 <? i then
      if negb (MKCL_LISTP l) then raise (FEtype_error_sequence seq)
      else if mkcl_Null l then seq_index_error seq index
      else l ← MKCL_CONS_CDR l; mret (inl (i - 1, l))
    else mret (inr l)) (index, seq);
  if negb (MKCL_LISTP l) then raise (FEtype_error_sequence seq)
  else if mkcl_Null l then seq_index_error seq index
  else mret l.

Definition mkcl_elt (seq : obj) (index : Z) : M obj :=
  if index <? 0 then seq_index_error seq index
  else
    match seq with
    | ONil => seq_index_error seq index
    | OCons _ => l ← elt_cons seq index; MKCL_CONS_CAR l
    | OString _ | OBaseString _ =>
        s ← read_string seq;
        match s !! Z.to_nat index with
        | Some c => mret (MKCL_CODE_CHAR c)
        | None => seq_index_error seq index
        end
    | OObj mkcl_t_vector _ | OObj mkcl_t_bitvector _ =>
        fillp ← vector_fillp seq;
        if fillp <=? index then seq_index_error seq index else mkcl_aref_index seq index
    | _ => raise (FEtype_error_sequence seq)
    end.

Definition mk_cl_elt (x i : obj) : M obj := i ← mkcl_integer_to_word i; mkcl_elt x i.

Definition mkcl_elt_set (seq : obj) (index : Z) (val : obj) : M obj :=
  if index <? 0 then seq_index_error seq index
  else
    match seq with
    | ONil => seq_index_error seq index
    | OCons _ => l ← elt_cons seq index; MKCL_RPLACA l val;; mret val
    | OString _ =>
        s ← read_string seq;
        if Z.of_nat (length s) <=? index then seq_index_error seq index
        else c ← mkcl_char_code val; write_string seq (<[Z.to_nat index := c]> s);; mret val
    | OBaseString _ =>
        s ← read_string seq;
        if Z.of_nat (length s) <=? index then seq_index_error seq index
        else c ← mkcl_base_char_code val; write_string seq (<[Z.to_nat index := c]> s);; mret val
    | OObj mkcl_t_vector _ | OObj mkcl_t_bitvector _ =>
        fillp ← vector_fillp seq;
        if fillp <=? index then seq_index_error seq index else mkcl_aset_index seq index val
    | _ => raise (FEtype_error_sequence seq)
    end.

Definition mk_si_elt_set (seq index val : obj) : M obj :=
  index ← mkcl_integer_to_word index; mkcl_elt_set seq index val.

(** ** SUBSEQ *)

(** A string of the kind of [x]: [mkcl_alloc_simple_vector] and
    [mkcl_copy_subarray] from [i]. *)
Definition copy_substring (x : obj) (i l : Z) : M obj :=
  s ← read_string x;
  a ← alloc (CStr (take (Z.to_nat l) (drop (Z.to_nat i) s)));
  mret (match x with OString _ => OString a | _ => OBaseString a end).

Definition illegal_start_end {R} (start end_ sequence : obj) : M R :=
  raise (FEerror "~S and ~S are illegal as :START and :END for the sequence ~S." [start; end_; sequence]).

(** [while (s-- > 0)] *)
Definition subseq_skip (start end_ : obj) (s : Z) (sequence : obj) : M obj :=
  loop fuel (λ '(s, sequence),
    if 0 <? s then
      if MKCL_ATOM sequence then illegal_start_end start end_ sequence
      else sequence ← MKCL_CDR sequence; mret (inl (s - 1, sequence))
    else mret (inr sequence)) (s, sequence).

(** [for (i = 0; i < e; i++)]; [z] is the last cons, NIL at the start. *)
Definition subseq_copy (start end_ : obj) (e : Z) (sequence : obj) : M obj :=
  loop fuel (λ '(i, x, z, sequence),
    if i <? e then
      if MKCL_ATOM sequence then illegal_start_end start end_ sequence
      else
        a ← MKCL_CAR sequence;
        cons ← mkcl_list1 a;
        x ← (if mkcl_Null z then mret cons else MKCL_RPLACD z cons;; mret x);
        sequence ← MKCL_CDR sequence;
        mret (inl (i + 1, x, cons, sequence))
    else mret (inr x)) (0, ONil, ONil, sequence).

(** The vectors and the strings: what [copy] does with a start and a length. *)
Definition subseq_vector (start end_ sequence : obj) (s e fillp : Z) (copy : Z → Z → M obj) : M obj :=
  if fillp <? uwrap s then illegal_start_end start end_ sequence
  else if e <? 0 then copy s (fillp - s)
  else if (e <? s) || (fillp <? e) then illegal_start_end start end_ sequence
  else copy s (e - s).

(** By type, once the bounds are words; [e] is negative for no end. *)
Definition subseq_words (start end_ sequence : obj) (s e : Z) : M obj :=
  match sequence with
  | ONil => if (0 <? s) || (0 <? e) then illegal_start_end start end_ sequence else mret ONil
  | OCons _ =>
      let e' := if 0 <=? e then swrap (e - s) else e in
      if (0 <=? e) && (e' <? 0) then illegal_start_end start end_ sequence
      else
        sequence ← subseq_skip start end_ s sequence;
        if e' <? 0 then mk_cl_copy_list fuel sequence
        else subseq_copy start end_ e' sequence
  | OString _ | OBaseString _ =>
      str ← read_string sequence;
      subseq_vector start end_ sequence s e (Z.of_nat (length str)) (copy_substring sequence)
  | OObj mkcl_t_vector _ | OObj mkcl_t_bitvector _ =>
      fillp ← vector_fillp sequence;
      subseq_vector start end_ sequence s e fillp (copy_subvector sequence)
  | _ => raise (FEtype_error_sequence sequence)
  end.

(** An index that does not fit a word wraps. *)
Definition mk_cl_subseq (sequence start end_ : obj) : M obj :=
  s ← mkcl_integer_to_index start;
  e ← (if mkcl_Null end_ then mret (-1) else e ← mkcl_integer_to_index end_; mret (swrap e));
  subseq_words start end_ sequence (swrap s) e.

Definition mk_cl_copy_seq (x : obj) : M obj := mk_cl_subseq x (MKCL_MAKE_FIXNUM 0) ONil.

(** ** LENGTH *)

Definition mkcl_length (x : obj) : M Z :=
  match x with
  | ONil => mret 0
  | OCons _ =>
      loop fuel (λ '(i, fast, slow),
        if mkcl_Null fast then mret (inr i)
        else if negb (MKCL_CONSP fast) then raise (FEtype_error_proper_sequence x)
        else if obj_eq slow fast && negb (i =? 0) then raise (FEtype_error_proper_sequence x)
        else
          slow ← (if Z.odd i then MKCL_CONS_CDR slow else mret slow);
          fast ← MKCL_CONS_CDR fast;
          mret (inl (i + 1, fast, slow))) (0, x, x)
  | OString _ | OBaseString _ => s ← read_string x; mret (Z.of_nat (length s))
  | OObj mkcl_t_vector _ | OObj mkcl_t_bitvector _ => vector_fillp x
  | _ => raise (FEtype_error_sequence x)
  end.

Definition mk_cl_length (x : obj) : M obj := n ← mkcl_length x; mkcl_make_unsigned_integer n.

Definition mkcl_base_string_length (x : obj) : M Z :=
  match x with
  | OBaseString _ => s ← read_string x; mret (Z.of_nat (length s))
  | _ => raise (FEtype_error_base_string x)
  end.

Definition mkcl_string_length (x : obj) : M Z :=
  match x with
  | OString _ | OBaseString _ => s ← read_string x; mret (Z.of_nat (length s))
  | _ => raise (FEtype_error_string x)
  end.

(** ** REVERSE and NREVERSE *)

(** Two characters of a string change places; memory outside the contents of the
    string is a fault. *)
Definition swap_chars (x : obj) (i j : Z) : M unit :=
  s ← read_string x;
  match s !! Z.to_nat i, s !! Z.to_nat j with
  | Some y, Some z => write_string x (<[Z.to_nat j := y]> (<[Z.to_nat i := z]> s))
  | _, _ => raise Segfault
  end.

(** [mkcl_reverse_subarray] on strings, with unsigned indices; [dim] is the dimension
    of the string. *)
Definition reverse_substring (x : obj) (dim i0 i1 : Z) : M unit :=
  if dim =? 0 then mret tt
  else
    let i1 := if dim <=? i1 then dim else i1 in
    loop fuel (λ '(i, j),
      if i <? j then swap_chars x i j;; mret (inl (i + 1, j - 1)) else mret (inr tt))
      (i0, uwrap (i1 - 1)).

Definition mk_cl_reverse (seq : obj) : M obj :=
  match seq with
  | ONil => mret ONil
  | OCons _ =>
      loop fuel (λ '(x, output),
        if negb (mkcl_Null x) then
          if negb (MKCL_LISTP x) then raise (FEtype_error_sequence seq)
          else
            a ← MKCL_CONS_CAR x; output ← mkcl_cons a output;
            x ← MKCL_CONS_CDR x;
            mret (inl (x, output))
        else mret (inr output)) (seq, ONil)
  | OString _ | OBaseString _ =>
      s ← read_string seq; let fillp := Z.of_nat (length s) in
      output ← copy_substring seq 0 fillp;
      reverse_substring output fillp 0 fillp;;
      mret output
  | OObj mkcl_t_vector _ | OObj mkcl_t_bitvector _ =>
      fillp ← vector_fillp seq;
      output ← copy_subvector seq 0 fillp;
      reverse_subvector output 0 fillp;;
      mret output
  | _ => raise (FEtype_error_sequence seq)
  end.

Definition mk_cl_nreverse (seq : obj) : M obj :=
  match seq with
  | ONil => mret ONil
  | OCons _ =>
      loop fuel (λ '(x, y),
        if negb (mkcl_Null x) then
          if negb (MKCL_LISTP x) then raise (FEtype_error_list x)
          else
            let z := x in
            x ← MKCL_CONS_CDR x;
            if obj_eq x seq then raise (FEcircular_list seq)
            else MKCL_RPLACD z y;; mret (inl (x, z))
        else mret (inr y)) (seq, ONil)
  | OString _ | OBaseString _ =>
      s ← read_string seq; dim ← array_dim seq;
      reverse_substring seq dim 0 (Z.of_nat (length s));; mret seq
  | OObj mkcl_t_vector _ | OObj mkcl_t_bitvector _ =>
      fillp ← vector_fillp seq; reverse_subvector seq 0 fillp;; mret seq
  | _ => raise (FEtype_error_sequence seq)
  end.
End with_runtime.
