(* ===== verification/SeqCopies.v ===== *)
(** * SeqCopies: sequences as lists of values: ELT, LENGTH, REVERSE, NREVERSE and SUBSEQ

    [seq_contents h x vs] says that the object [x] is a sequence of the values [vs]; the
    theorems on sequences are stated with it, once for lists and strings.  The loop that exchanges
    the characters of a string from both ends, and the loops over lists, against the
    reversal and the parts of the list of values. *)

From S2P Require Import Prelude Words Objects Heap Numbers Segments Equal Lists ListSpecs ListCopies ListDestr Sequences.
#[local] Open Scope Z_scope.

#[export] Instance OChar_inj : Inj (=) (=) OChar.
Proof. by intros c d [= ->]. Qed.

Section with_runtime.
Context `{!GMP, !Vectors}.

(** ** Contents *)

(** [x] is the sequence of the objects [vs]: a proper list, or a string, whose base
    characters have codes up to 255. *)
Definition seq_contents (h : heap) (x : obj) (vs : list obj) : Prop :=
  match x with
  | ONil | OCons _ => is_list h x vs
  | OString a => ∃ s, h !! a = Some (CStr s) ∧ vs = OChar <$> s
  | OBaseString a => ∃ s, h !! a = Some (CStr s) ∧ vs = OChar <$> s ∧ Forall (λ c, c ≤ 255) s
  | _ => False
  end.

(** The kind of a string; lists have none. *)
Definition seq_type (x : obj) : option mkcl_type :=
  match x with
  | OString _ => Some mkcl_t_string
  | OBaseString _ => Some mkcl_t_base_string
  | _ => None
  end.

Lemma seq_string h x vs :
  seq_contents h x vs → MKCL_STRINGP x = true →
  ∃ a s, string_addr x = Some a ∧ h !! a = Some (CStr s) ∧ vs = OChar <$> s ∧ read_string x h = Done s h ∧
    (∀ a' s', h !! a' = Some (CStr s') → x = OBaseString a' → Forall (λ c, c ≤ 255) s').
Proof.
  destruct x; try done; simpl.
  - intros (s & Hs & ->) _. exists a, s. rewrite Hs. done.
  - intros (s & Hs & -> & Hb) _. exists a, s. rewrite Hs. split_and!; try done. naive_solver.
Qed.

(** The cells of a sequence. *)
Definition seq_cells (h : heap) (x : obj) (A : list Z) : Prop :=
  match x with
  | OString a | OBaseString a => A = [a]
  | _ => ∃ l, lseg h x l ONil ∧ A = l.*1
  end.

Definition others_same (A : list Z) (h h' : heap) : Prop := ∀ a, a ∉ A → h' !! a = h !! a.

Lemma lseg_contents h r l : lseg h r l ONil → seq_contents h r l.*2 ∧ seq_type r = None.
Proof.
  intros Hl. destruct l as [|[b v] l].
  - simpl in Hl. subst r. split; [by exists []|done].
  - destruct Hl as (-> & Hl). split; [|done]. by exists ((b, v) :: l).
Qed.

Lemma seq_contents_mono h h' x vs : h ⊆ h' → seq_contents h x vs → seq_contents h' x vs.
Proof.
  intros Hs. destruct x; simpl; try done; try by apply is_list_mono.
  - intros (s & ? & ->). exists s. split; [by eapply lookup_weaken|done].
  - intros (s & ? & -> & ?). exists s. split_and!; [by eapply lookup_weaken|done..].
Qed.

(** ** ELT *)

Lemma elt_cons_spec fuel h x l y index :
  lseg h x l y → MKCL_CONSP y = false → 0 ≤ index → (length l < fuel)%nat →
  wp (elt_cons fuel x index) h
    (λ c h', h' = h ∧ ∃ a v l1 l2, c = OCons a ∧ l = l1 ++ (a, v) :: l2 ∧ length l1 = Z.to_nat index)
    (λ e h', h' = h ∧ Z.of_nat (length l) ≤ index ∧
       e = if mkcl_Null y then FEtype_error_seq_index x (fixnum_wrap index) else FEtype_error_sequence x).
Proof.
  intros Hl Hy Hi Hf. unfold elt_cons. apply wp_bind.
  eapply (wp_loop (λ n '(i, c) h1, h1 = h ∧ 0 ≤ i ∧ ∃ l1 l2, l = l1 ++ l2 ∧ lseg h c l2 y ∧
    index = i + Z.of_nat (length l1) ∧ n = length l2)); [| |done].
  2: { split_and!; [done..|]. exists [], l. simpl. split_and!; [done..|lia|done]. }
  intros n [i c] h1 (-> & Hi0 & l1 & l2 & -> & H2 & Hix & ->). rewrite length_app.
  assert (Hend : l2 = [] → ∀ R (m : M R) Q, wp (if negb (MKCL_LISTP c) then raise (FEtype_error_sequence x)
      else if mkcl_Null c then seq_index_error x index else m) h Q
    (λ e h', h' = h ∧ Z.of_nat (length l1 + length l2) ≤ index ∧
       e = if mkcl_Null y then FEtype_error_seq_index x (fixnum_wrap index) else FEtype_error_sequence x)).
  { intros -> R m Q. simpl in H2. subst c. unfold seq_index_error.
    destruct y; try done; simpl; (split_and!; [done|lia|done]). }
  destruct (Z.ltb_spec 0 i), l2 as [|[a v] l2].
  - by apply Hend.
  - destruct H2 as (-> & d & Ha & H2). wp_go. exists (length l2). split; [simpl; lia|].
    split_and!; [done|lia|]. exists (l1 ++ [(a, v)]), l2. rewrite <- (assoc app), length_app. simpl.
    split_and!; [done..|lia|done].
  - apply wp_ret. by apply Hend.
  - destruct H2 as (-> & d & Ha & H2). wp_go. split; [done|]. exists a, v, l1, l2. split_and!; [done..|lia].
Qed.

(** What ELT gives at an index. *)
Definition elt_result (h : heap) (x : obj) (vs : list obj) (i : Z) : outcome obj :=
  match (if i <? 0 then None else vs !! Z.to_nat i) with
  | Some v => Done v h
  | None => Fail (FEtype_error_seq_index x (fixnum_wrap i)) h
  end.

Lemma elt_spec fuel h x vs i :
  seq_contents h x vs → (length vs < fuel)%nat → mkcl_elt fuel x i h = elt_result h x vs i.
Proof.
  intros Hx Hf. unfold mkcl_elt, elt_result. destruct (Z.ltb_spec i 0) as [|Hi]; [done|].
  destruct x; try done; simpl in Hx.
  - apply is_list_nil in Hx as ->. done.
  - destruct Hx as (l & Hl & <-). rewrite length_fmap in Hf.
    pose proof (elt_cons_spec fuel h _ l ONil i Hl eq_refl Hi Hf) as Hw.
    rewrite list_lookup_fmap. unfold wp in Hw. unfold mbind, M_bind.
    destruct (elt_cons fuel (OCons a) i h) as [c h1|e h1|]; [| |done].
    + destruct Hw as (-> & b & v & l1 & l2 & -> & -> & <-).
      rewrite list_lookup_middle by done. simpl.
      apply lseg_app in Hl as (z & _ & Hz). destruct Hz as (-> & d & Hb & _). by eapply CAR_eq.
    + destruct Hw as (-> & Hlen & ->). by rewrite (lookup_ge_None_2 l) by lia.
  - destruct Hx as (s & Hs & ->). unfold read_string, mbind, M_bind. rewrite Hs, list_lookup_fmap.
    by destruct (s !! Z.to_nat i).
  - destruct Hx as (s & Hs & -> & _). unfold read_string, mbind, M_bind. rewrite Hs, list_lookup_fmap.
    by destruct (s !! Z.to_nat i).
Qed.

(** The objects that a sequence can hold. *)
Definition storable (x v : obj) : Prop :=
  match x with
  | OString _ => ∃ c, v = OChar c
  | OBaseString _ => ∃ c, v = OChar c ∧ c ≤ 255
  | _ => True
  end.

(** Storing an element that the sequence can hold changes that element and no other,
    in the sequence that ELT reads afterwards and in the cells of the heap: a round
    trip of the writer of ELT and ELT, for lists and both kinds of strings, with the
    error of ELT at every index out of range. *)
Theorem elt_set_elt fuel h x A vs i v :
  seq_contents h x vs → seq_cells h x A → 0 ≤ i < Z.of_nat (length vs) → storable x v → (length vs < fuel)%nat →
  ∃ h', mkcl_elt_set fuel x i v h = Done v h' ∧ seq_contents h' x (<[Z.to_nat i := v]> vs) ∧
    others_same A h h' ∧
    ∀ j, mkcl_elt fuel x j h' = elt_result h' x (<[Z.to_nat i := v]> vs) j.
Proof.
  intros Hx HA Hi Hv Hf.
  assert (Hset : ∃ h', mkcl_elt_set fuel x i v h = Done v h' ∧ seq_contents h' x (<[Z.to_nat i := v]> vs) ∧
    others_same A h h').
  2: { destruct Hset as (h' & E & Hc & Ho). exists h'. split_and!; [done..|].
       intros j. apply elt_spec; [done|by rewrite length_insert]. }
  unfold mkcl_elt_set. rewrite (proj2 (Z.ltb_ge i 0)) by lia.
  destruct x; try done; simpl in Hx.
  - apply is_list_nil in Hx as ->. simpl in Hi. lia.
  - destruct Hx as (l & Hl & <-). rewrite length_fmap in Hf, Hi.
    pose proof (elt_cons_spec fuel h _ l ONil i Hl eq_refl ltac:(lia) Hf) as Hw.
    unfold wp in Hw. unfold mbind, M_bind at 1.
    destruct (elt_cons fuel (OCons a) i h) as [c h1|e h1|]; [|lia|done].
    destruct Hw as (-> & b & w & l1 & l2 & -> & -> & <-).
    destruct HA as (l' & Hl' & ->).
    destruct (lseg_atom_unique h _ _ _ ONil ONil eq_refl eq_refl Hl Hl') as [<- _].
    pose proof (lseg_NoDup _ _ _ ONil eq_refl Hl) as Hnd.
    rewrite fmap_app in Hnd. apply NoDup_app in Hnd as (_ & Hd1 & Hnd2). simpl in Hd1, Hnd2.
    apply NoDup_cons in Hnd2 as [Hb2 _].
    apply lseg_app in Hl as (z & Hz1 & -> & d & Hb & Hz2).
    rewrite (bind_Done _ _ _ _ _ (RPLACA_eq _ _ _ v _ Hb)).
    eexists. split_and!; [done| |].
    + exists (l1 ++ (b, v) :: l2). split.
      * apply lseg_app. exists (OCons b). split; [apply lseg_insert_ne; [|done]|].
        { intros Hin. apply (Hd1 _ Hin). left. }
        split; [done|]. exists d. rewrite lookup_insert_eq. split; [done|]. by apply lseg_insert_ne.
      * rewrite !fmap_app, insert_app_r_alt by (by rewrite length_fmap). by rewrite length_fmap, Nat.sub_diag.
    + intros c Hc. rewrite lookup_insert_ne; [done|]. intros ->. apply Hc.
      rewrite fmap_app. set_solver.
  - destruct Hx as (s & Hs & ->). destruct Hv as [c ->]. rewrite length_fmap in Hi. simpl in HA. subst A.
    unfold read_string, mbind, M_bind. rewrite Hs. rewrite (proj2 (Z.leb_gt _ _)) by lia. simpl.
    eexists. split_and!; [done| |].
    + exists (<[Z.to_nat i := c]> s). rewrite lookup_insert_eq. split; [done|]. by rewrite list_fmap_insert.
    + intros b Hb. rewrite lookup_insert_ne; [done|]. set_solver.
  - destruct Hx as (s & Hs & -> & Hb). destruct Hv as (c & -> & Hc). rewrite length_fmap in Hi. simpl in HA. subst A.
    unfold read_string, mbind, M_bind. rewrite Hs. rewrite (proj2 (Z.leb_gt _ _)) by lia. simpl.
    rewrite (proj2 (Z.leb_le _ _)) by done. eexists. split_and!; [done| |].
    + exists (<[Z.to_nat i := c]> s). rewrite lookup_insert_eq. split_and!; [done|by rewrite list_fmap_insert|].
      by apply Forall_insert.
    + intros b Hb'. rewrite lookup_insert_ne; [done|]. set_solver.
Qed.

(** ** LENGTH *)

Lemma length_loop_proper fuel h x l :
  lseg h x l ONil → (length l < fuel)%nat → MKCL_CONSP x = true →
  mkcl_length fuel x h = Done (Z.of_nat (length l)) h.
Proof.
  intros Hl Hf Hx. apply CONSP_true in Hx as [a ->].
  assert (wp (mkcl_length fuel (OCons a)) h (λ r h', h' = h ∧ r = Z.of_nat (length l)) no_error) as Hw.
  2: { unfold wp, no_error in Hw. destruct (mkcl_length _ _ _); [by destruct Hw as [-> ->]|done|done]. }
  unfold mkcl_length. eapply (wp_loop (λ n '(i, fast, slow) h1, h1 = h ∧ ∃ l1 l2, l = l1 ++ l2 ∧
    lseg h fast l2 ONil ∧ i = Z.of_nat (length l1) ∧ slow = Nat.iter (length l1 / 2) (next_cdr h) (OCons a) ∧
    n = length l2)); [| |done].
  2: { split; [done|]. by exists [], l. }
  intros n [[i fast] slow] h1 (-> & l1 & l2 & -> & H2 & -> & -> & ->).
  destruct l2 as [|[b v] l2].
  { simpl in H2. subst fast. wp_go. by rewrite app_nil_r. }
  pose proof H2 as (-> & d & Hb & H2'). simpl mkcl_Null. simpl MKCL_CONSP. cbv iota.
  set (k := (length l1 / 2)%nat).
  assert (Hk : (k ≤ length l1)%nat) by (unfold k; nat_div).
  destruct (lseg_take_drop h (OCons a) (l1 ++ (b, v) :: l2) ONil k Hl) as [_ Hd];
    [rewrite length_app; lia|].
  rewrite drop_app_le in Hd by done.
  assert (Hne : length l1 ≠ 0%nat → Nat.iter k (next_cdr h) (OCons a) ≠ OCons b).
  { intros Hn0 Heq. rewrite Heq in Hd.
    destruct (lseg_atom_unique h _ _ _ ONil ONil eq_refl eq_refl Hd H2) as [He _].
    apply (f_equal length) in He. rewrite length_app, length_drop in He. simpl in He. assert (k < length l1)%nat by (apply Nat.div_lt; lia). lia. }
  replace (obj_eq (Nat.iter k (next_cdr h) (OCons a)) (OCons b) && negb (Z.of_nat (length l1) =? 0)) with false.
  2: { symmetry. apply andb_false_iff. destruct (Z.eqb_spec (Z.of_nat (length l1)) 0); [by right|left].
       apply obj_eq_false, Hne. lia. }
  simpl negb. cbv iota. apply wp_bind.
  assert (wp (if Z.odd (Z.of_nat (length l1)) then MKCL_CONS_CDR (Nat.iter k (next_cdr h) (OCons a))
              else mret (Nat.iter k (next_cdr h) (OCons a))) h
    (λ s' h', h' = h ∧ s' = Nat.iter (S (length l1) / 2) (next_cdr h) (OCons a)) no_error) as Hs.
  { rewrite odd_beat_half. fold k. destruct (Z.odd (Z.of_nat (length l1))); [|by apply wp_ret].
    destruct (drop k l1 ++ (b, v) :: l2) as [|[c w] l3] eqn:Ed; [by destruct (drop k l1)|].
    destruct Hd as (Hc & d' & Hc' & _). rewrite Hc. eapply wp_cdr; [done|]. simpl. rewrite Hc. simpl. by rewrite Hc'. }
  eapply wp_mono; [exact Hs| |done]. intros slow' h' [-> ->]. wp_go. exists (length l2). split; [simpl; lia|].
  split; [done|]. exists (l1 ++ [(b, v)]), l2. rewrite <- (assoc app), length_app, Nat.add_1_r.
  split_and!; [done..|lia|done|done].
Qed.

(** LENGTH is the number of elements of a proper list or of a string. *)
Theorem length_counts fuel h x vs :
  seq_contents h x vs → (length vs < fuel)%nat →
  mkcl_length fuel x h = Done (Z.of_nat (length vs)) h ∧
  (is_fixnum (Z.of_nat (length vs)) → mk_cl_length fuel x h = Done (OFix (Z.of_nat (length vs))) h).
Proof.
  intros Hx Hf. assert (E : mkcl_length fuel x h = Done (Z.of_nat (length vs)) h).
  { destruct (MKCL_STRINGP x) eqn:Est.
    - destruct (seq_string h x vs Hx Est) as (a & s & Ha & Hs & -> & Hr & _). rewrite length_fmap.
      destruct x; try done; unfold mkcl_length; by rewrite (bind_Done _ _ _ _ _ Hr).
    - destruct x; try done; simpl in Hx.
      + by apply is_list_nil in Hx as ->.
      + destruct Hx as (l & Hl & <-). rewrite length_fmap in *. by apply length_loop_proper. }
  split; [done|]. intros Hn. unfold mk_cl_length. rewrite (bind_Done _ _ _ _ _ E).
  unfold mkcl_make_unsigned_integer, MKCL_MAKE_FIXNUM. rewrite (proj2 (Z.leb_le _ _)) by (unfold_words; lia).
  by rewrite fixnum_wrap_small.
Qed.

(** The outcome of LENGTH on a cons whose LIST-LENGTH has the outcome [o]. *)
Definition length_outcome (x : obj) (o : outcome obj) (o' : outcome Z) : Prop :=
  match o with
  | Done (OFix n) h => ∃ m, o' = Done m h ∧ n = fixnum_wrap m
  | Done _ h | Fail (FEtype_error_list _) h => o' = Fail (FEtype_error_proper_sequence x) h
  | Fail e h => o' = Fail e h
  | Diverge => o' = Diverge
  end.

(** On a cons, LENGTH and LIST-LENGTH agree on every heap: they stop together, LENGTH
    counts the same conses, and is an error where LIST-LENGTH is NIL, for a circular
    list, or an error, for a dotted one. *)
Theorem length_agrees fuel a h :
  length_outcome (OCons a) (mk_cl_list_length fuel (OCons a) h) (mkcl_length fuel (OCons a) h).
Proof.
  unfold mk_cl_list_length, mkcl_length.
  match goal with |- length_outcome _ (loop _ ?b1 _ _) (loop _ ?b2 _ _) =>
    assert (∀ n h1 s, length_outcome (OCons a) (loop n b1 s h1) (loop n b2 s h1)) as Hloop; [|apply Hloop]
  end.
  clear h fuel. intros n. induction n as [|n IH]; intros h1 [[i fast] slow]; [done|].
  rewrite !loop_unfold. destruct (mkcl_Null fast) eqn:En; [by exists i|].
  rewrite LISTP_cases, En. simpl orb. destruct (MKCL_CONSP fast); [|done]. simpl negb. cbv iota.
  destruct (obj_eq slow fast && negb (i =? 0)); [done|].
  assert (Hcdr : ∀ y h2, (∃ d, MKCL_CONS_CDR y h2 = Done d h2) ∨ MKCL_CONS_CDR y h2 = Fail Segfault h2).
  { intros y h2. destruct (read_cons_cases y h2) as [(b & v & d & -> & Hb)|[_ E]]; [left|by right].
    exists d. by eapply CDR_eq. }
  assert (∃ s', (if Z.odd i then MKCL_CONS_CDR slow else mret slow) h1 = Done s' h1 ∨
                (if Z.odd i then MKCL_CONS_CDR slow else mret slow) h1 = Fail Segfault h1) as [slow' Hs].
  { destruct (Z.odd i); [|exists slow; by left]. destruct (Hcdr slow h1) as [[d E]|E]; [exists d; by left|exists slow; by right]. }
  rewrite !bind_assoc. destruct Hs as [Hs|Hs].
  2: { rewrite !(bind_Fail _ _ _ _ _ Hs). done. }
  rewrite !(bind_Done _ _ _ _ _ Hs), !bind_assoc. destruct (Hcdr fast h1) as [[d E]|E].
  2: { rewrite !(bind_Fail _ _ _ _ _ E). done. }
  rewrite !(bind_Done _ _ _ _ _ E), !bind_ret. apply IH.
Qed.

End with_runtime.


Section with_runtime.
Context `{!GMP, !Vectors}.

(** ** REVERSE and NREVERSE *)

Lemma swap_chars_spec x a s h i j :
  string_addr x = Some a → h !! a = Some (CStr s) → 0 ≤ i < Z.of_nat (length s) → 0 ≤ j < Z.of_nat (length s) →
  ∃ t, swap_chars x i j h = Done tt (<[a := CStr t]> h) ∧ length t = length s ∧
    ∀ k : nat, t !! k = if bool_decide (k = Z.to_nat j) then s !! Z.to_nat i
                        else if bool_decide (k = Z.to_nat i) then s !! Z.to_nat j else s !! k.
Proof.
  intros Hx Hs Hi Hj.
  destruct (lookup_lt_is_Some_2 s (Z.to_nat i)) as [y Hy]; [lia|].
  destruct (lookup_lt_is_Some_2 s (Z.to_nat j)) as [z Hz]; [lia|].
  exists (<[Z.to_nat j := y]> (<[Z.to_nat i := z]> s)). split_and!.
  - unfold swap_chars. assert (read_string x h = Done s h) as Hr.
    { unfold read_string. destruct x; simplify_eq/=; by rewrite Hs. }
    rewrite (bind_Done _ _ _ _ _ Hr), Hy, Hz. unfold write_string. by rewrite Hx.
  - by rewrite !length_insert.
  - intros k. rewrite list_lookup_insert, list_lookup_insert, length_insert.
    repeat case_bool_decide; repeat case_decide; try done; naive_solver lia.
Qed.

Lemma reverse_substring_spec fuel x a s dim h :
  string_addr x = Some a → h !! a = Some (CStr s) → Z.of_nat (length s) ≤ dim < word_modulus →
  (0 < length s)%nat ∨ dim = 0 → (length s < fuel)%nat →
  reverse_substring fuel x dim 0 (Z.of_nat (length s)) h = Done tt (<[a := CStr (reverse s)]> h).
Proof.
  intros Hx Hs Hd H0' Hf. unfold reverse_substring. destruct (Z.eqb_spec dim 0) as [->|Hd0].
  { destruct s; [|simpl in *; lia]. by rewrite insert_id. }
  replace (if dim <=? Z.of_nat (length s) then dim else Z.of_nat (length s)) with (Z.of_nat (length s))
    by (destruct (Z.leb_spec dim (Z.of_nat (length s))); lia).
  unfold uwrap. rewrite Z.mod_small by lia. set (n := length s) in *.
  assert (wp (loop fuel (λ '(i, j), if i <? j then swap_chars x i j;; mret (inl (i + 1, j - 1)) else mret (inr tt))
    (0, Z.of_nat n - 1)) h (λ _ h', h' = <[a := CStr (reverse s)]> h) no_error) as Hw.
  2: { unfold wp, no_error in Hw. destruct (loop _ _ _ h) as [[] h1|e h1|]; [by subst|done|done]. }
  eapply (wp_loop (λ m '(i, j) h1, 0 ≤ i ∧ i + j = Z.of_nat n - 1 ∧ i ≤ j + 1 ∧ m = Z.to_nat (j + 1 - i) ∧
    ∃ t, h1 = <[a := CStr t]> h ∧ length t = n ∧
      ∀ k : nat, (k < n)%nat → t !! k = if bool_decide (i ≤ Z.of_nat k ≤ j) then s !! k else s !! (n - 1 - k)%nat)).
  - intros m [i j] h1 (Hi & Hij & Hle & -> & t & -> & Ht & Hk). destruct (Z.ltb_spec i j).
    + apply wp_bind.
      destruct (swap_chars_spec x a t (<[a := CStr t]> h) i j) as (t' & E & Ht' & Hk');
        [done|by rewrite lookup_insert_eq|lia|lia|].
      eapply wp_Done; [exact E|]. apply wp_ret. exists (Z.to_nat (j - 1 - i)). split; [lia|].
      split_and!; [lia..|].
      exists t'. split_and!; [by rewrite insert_insert_eq|lia|].
      intros k Hkn. rewrite Hk'. repeat case_bool_decide; subst; try lia; rewrite Hk by lia;
        repeat case_bool_decide; try lia; try done; f_equal; lia.
    + apply wp_ret. do 2 f_equal. apply list_eq. intros k.
      destruct (decide (k < n)%nat) as [Hkn|Hkn].
      * rewrite Hk by done. rewrite reverse_lookup by lia. case_bool_decide; f_equal; lia.
      * rewrite !lookup_ge_None_2; [done|rewrite length_reverse; lia|lia].
  - split_and!; [lia|lia|lia|reflexivity|]. exists s. rewrite insert_id by done. split_and!; [done..|].
    intros k Hk. by rewrite bool_decide_eq_true_2 by lia.
  - lia.
Qed.

(** A string made of the cell that was allocated last. *)
Definition new_string (x : obj) (a : Z) : obj :=
  match x with OString _ => OString a | _ => OBaseString a end.

Lemma copy_substring_spec x s i l h :
  read_string x h = Done s h →
  copy_substring x i l h =
  Done (new_string x (first_free h)) (<[first_free h := CStr (take (Z.to_nat l) (drop (Z.to_nat i) s))]> h).
Proof.
  intros Hr. unfold copy_substring. rewrite (bind_Done _ _ _ _ _ Hr). by destruct x.
Qed.

Lemma new_string_contents h x s t a :
  seq_contents h x (OChar <$> s) → MKCL_STRINGP x = true → (∀ c, c ∈ t → c ∈ s) →
  h !! a = None ∨ string_addr x = Some a →
  seq_contents (<[a := CStr t]> h) (new_string x a) (OChar <$> t) ∧
  seq_type (new_string x a) = seq_type x ∧ string_addr (new_string x a) = Some a.
Proof.
  intros Hx Hst Ht Ha. destruct x; try done; simpl in *.
  - split_and!; [|done..]. exists t. by rewrite lookup_insert_eq.
  - split_and!; [|done..]. exists t. rewrite lookup_insert_eq. split_and!; [done..|].
    destruct Hx as (s' & Hs' & Heq & Hb). apply (list_fmap_eq_inj OChar OChar_inj) in Heq as ->.
    rewrite Forall_forall in Hb |- *. auto.
Qed.

(** A new sequence of a kind. *)
Definition fresh_seq (h h' : heap) (r : obj) (kind : option mkcl_type) (vs : list obj) : Prop :=
  h ⊆ h' ∧ seq_contents h' r vs ∧ seq_type r = kind ∧
  ∃ A, seq_cells h' r A ∧ ∀ a, a ∈ A → h !! a = None.

Lemma fresh_lseg_seq h h' r vs : fresh_lseg h h' r vs ONil → fresh_seq h h' r None vs.
Proof.
  intros (Hs & l & Hl & <- & Hf). destruct (lseg_contents _ _ _ Hl) as [Hc Ht].
  split_and!; [done..|]. exists l.*1. split; [|done].
  destruct l as [|[b v] l]; [simpl in Hl; subst r; by exists []|].
  pose proof Hl as [-> _]. by exists ((b, v) :: l).
Qed.

Lemma fresh_string_seq h x s t :
  seq_contents h x (OChar <$> s) → MKCL_STRINGP x = true → (∀ c, c ∈ t → c ∈ s) →
  fresh_seq h (<[first_free h := CStr t]> h) (new_string x (first_free h)) (seq_type x) (OChar <$> t).
Proof.
  intros Hx Hst Ht.
  destruct (new_string_contents h x s t (first_free h) Hx Hst Ht) as (Hc & Hk & Ha); [left; apply first_free_fresh|].
  split_and!; [apply insert_first_free_subseteq|done..|]. exists [first_free h]. split.
  - by destruct x.
  - intros a ->%list_elem_of_singleton. apply first_free_fresh.
Qed.

Lemma nreverse_string_contents h x a s :
  seq_contents h x (OChar <$> s) → string_addr x = Some a →
  seq_contents (<[a := CStr (reverse s)]> h) x (OChar <$> reverse s).
Proof.
  intros Hx Ha. destruct x; simplify_eq/=.
  - exists (reverse s). by rewrite lookup_insert_eq.
  - destruct Hx as (s' & Hs' & Heq & Hb). apply (list_fmap_eq_inj OChar OChar_inj) in Heq as ->.
    exists (reverse s'). rewrite lookup_insert_eq. split_and!; [done..|]. by rewrite reverse_Permutation.
Qed.

(** REVERSE of a list or a string is a sequence of the same kind with the elements in
    the opposite order, in new cells. *)
Theorem reverse_reverses fuel h x vs :
  seq_contents h x vs → Z.of_nat (length vs) < word_modulus → (length vs < fuel)%nat →
  ∃ r h', mk_cl_reverse fuel x h = Done r h' ∧ fresh_seq h h' r (seq_type x) (reverse vs).
Proof.
  intros Hx Hw Hf. destruct (MKCL_STRINGP x) eqn:Est.
  - destruct (seq_string h x vs Hx Est) as (a & s & Ha & Hs & -> & Hr & _). rewrite length_fmap in Hw, Hf.
    pose proof (copy_substring_spec x s 0 (Z.of_nat (length s)) h Hr) as Hcp.
    rewrite Nat2Z.id, Z2Nat.inj_0, drop_0, firstn_all in Hcp.
    pose proof (reverse_substring_spec fuel (new_string x (first_free h)) (first_free h) s (Z.of_nat (length s))
        (<[first_free h := CStr s]> h) ltac:(by destruct x)) as Hrev.
    rewrite lookup_insert_eq, insert_insert_eq in Hrev.
    eexists _, _. split; [|rewrite <- fmap_reverse; apply fresh_string_seq with s;
      [done..|intros c; by rewrite elem_of_reverse]].
    assert (mk_cl_reverse fuel x h = (s ← read_string x; output ← copy_substring x 0 (Z.of_nat (length s));
         reverse_substring fuel output (Z.of_nat (length s)) 0 (Z.of_nat (length s));; mret output) h) as ->
        by by destruct x.
    by rewrite (bind_Done _ _ _ _ _ Hr), (bind_Done _ _ _ _ _ Hcp), (bind_Done _ _ _ _ _ (Hrev eq_refl ltac:(lia) ltac:(lia) Hf)).
  - assert (Hl : is_list h x vs) by (by destruct x). destruct x; try done.
    + apply is_list_nil in Hl as ->. exists ONil, h. split; [done|]. apply fresh_lseg_seq, fresh_lseg_nil.
    + destruct Hl as (l & Hl & <-). rewrite length_fmap in Hf.
      assert (wp (mk_cl_reverse fuel (OCons a)) h
        (λ r h', fresh_lseg h h' r (reverse l.*2) ONil) no_error) as Hwp.
      2: { apply wp_done_inv in Hwp as (r & h' & E & Hfr). exists r, h'. split; [done|]. by apply fresh_lseg_seq. }
      unfold mk_cl_reverse. eapply (wp_loop (λ n '(x, out) h1, ∃ l1 l2, l = l1 ++ l2 ∧ lseg h x l2 ONil ∧
        fresh_lseg h h1 out (reverse l1.*2) ONil ∧ n = length l2)); [| |done].
      * intros n [x out] h1 (l1 & l2 & -> & H2 & Hfr & ->). destruct l2 as [|[b v] l2].
        { simpl in H2. subst x. wp_go. by rewrite app_nil_r. }
        destruct H2 as (-> & d & Hb & H2). pose proof (lookup_weaken _ _ _ _ Hb (proj1 Hfr)) as Hb1.
        simpl. wp_go. eapply wp_cdr; [eapply lookup_weaken; [exact Hb1|apply insert_first_free_subseteq]|].
        wp_go. exists (length l2). split; [simpl; lia|]. exists (l1 ++ [(b, v)]), l2. rewrite <- (assoc app). split_and!; [done..| |done].
        rewrite fmap_app, reverse_app. by apply fresh_lseg_push.
      * exists [], l. split_and!; [done..|apply fresh_lseg_nil|done].
Qed.

(** NREVERSE reverses a list or a string in place: only its own cells change.  The
    dimension of an empty string has to be 0. *)
Theorem nreverse_reverses fuel h x A vs :
  seq_contents h x vs → seq_cells h x A → (length vs < fuel)%nat →
  (MKCL_STRINGP x = true → ∃ dim, array_dim x h = Done dim h ∧ Z.of_nat (length vs) ≤ dim < word_modulus ∧
     (vs ≠ [] ∨ dim = 0)) →
  ∃ r h', mk_cl_nreverse fuel x h = Done r h' ∧ seq_contents h' r (reverse vs) ∧ seq_type r = seq_type x ∧
    others_same A h h' ∧ (MKCL_STRINGP x = true → r = x).
Proof.
  intros Hx HA Hf Hdim. destruct (MKCL_STRINGP x) eqn:Est.
  - destruct (seq_string h x vs Hx Est) as (a & s & Ha & Hs & -> & Hr & _).
    destruct (Hdim eq_refl) as (dim & Ed & Hd & Hne). rewrite length_fmap in Hf, Hd.
    exists x, (<[a := CStr (reverse s)]> h). split_and!; [|rewrite <- fmap_reverse; by apply nreverse_string_contents|done| |done].
    + assert (mk_cl_nreverse fuel x h = (s ← read_string x; dim ← array_dim x;
        reverse_substring fuel x dim 0 (Z.of_nat (length s));; mret x) h) as -> by by destruct x.
      rewrite (bind_Done _ _ _ _ _ Hr), (bind_Done _ _ _ _ _ Ed).
      rewrite (bind_Done _ _ _ _ _ (reverse_substring_spec fuel x a s dim h Ha Hs Hd
        ltac:(destruct Hne as [?| ->]; [left; by destruct s; simpl; [|lia]|by right]) Hf)). done.
    + assert (A = [a]) as -> by (destruct x; simplify_eq/=; done).
      intros b Hb. rewrite lookup_insert_ne; [done|]. set_solver.
  - assert (Hl : is_list h x vs) by (by destruct x). destruct x; try done.
    + apply is_list_nil in Hl as ->. exists ONil, h. split_and!; [done|by exists []|done..].
    + destruct Hl as (l & Hl & <-). rewrite length_fmap in Hf. destruct HA as (l' & Hl' & ->).
      destruct (lseg_atom_unique h _ _ _ ONil ONil eq_refl eq_refl Hl Hl') as [<- _].
      destruct (nreconc_in_place fuel h (OCons a) l ONil ONil Hl eq_refl Hf) as (r & h' & E & Hr & Ho).
      exists r, h'. split_and!; [exact E| | |exact Ho|done].
      * apply lseg_contents in Hr as [Hr _]. rewrite rev_alt in Hr. by rewrite <- fmap_reverse.
      * by apply lseg_contents in Hr as [_ ->].
Qed.


(** NREVERSE of an empty string with room for characters, such as one with a fill
    pointer at 0, reads outside of the string: the index of the last element wraps. *)
Theorem nreverse_empty_faults fuel a dim h :
  h !! a = Some (CStr []) → array_dim (OString a) h = Done dim h → 0 < dim →
  mk_cl_nreverse (S fuel) (OString a) h = Fail Segfault h.
Proof.
  intros Hs Hd Hpos. unfold mk_cl_nreverse. 
  assert (read_string (OString a) h = Done [] h) as Hr by (simpl; unfold read_string; by rewrite Hs).
  rewrite (bind_Done _ _ _ _ _ Hr), (bind_Done _ _ _ _ _ Hd). change (Z.of_nat (length [])) with 0. unfold reverse_substring.
  rewrite (proj2 (Z.eqb_neq dim 0)), (proj2 (Z.leb_gt dim 0)) by lia. rewrite loop_unfold.
  change (0 <? uwrap (0 - 1)) with true. cbv iota. unfold swap_chars. rewrite !bind_assoc.
  rewrite (bind_Done _ _ _ _ _ Hr). done.
Qed.
(** ** SUBSEQ *)

Definition illegal (start end_ : obj) (e : lisp_error) : Prop :=
  ∃ y, e = FEerror "~S and ~S are illegal as :START and :END for the sequence ~S." [start; end_; y].

Lemma subseq_skip_spec fuel h x l s start end_ :
  lseg h x l ONil → (length l < fuel)%nat → 0 ≤ s →
  wp (subseq_skip fuel start end_ s x) h
    (λ z h', h' = h ∧ s ≤ Z.of_nat (length l) ∧ lseg h z (drop (Z.to_nat s) l) ONil)
    (λ e h', h' = h ∧ Z.of_nat (length l) < s ∧ illegal start end_ e).
Proof.
  intros Hl Hf Hs. eapply (wp_loop (λ n '(i, z) h1, h1 = h ∧ 0 ≤ i ≤ s ∧ s - i ≤ Z.of_nat (length l) ∧
    lseg h z (drop (Z.to_nat (s - i)) l) ONil ∧ n = length (drop (Z.to_nat (s - i)) l))).
  - intros n [i z] h1 (-> & Hi & Hle & Hz & ->). destruct (Z.ltb_spec 0 i).
    + destruct (drop (Z.to_nat (s - i)) l) as [|[a v] l2] eqn:Ed.
      * simpl in Hz. subst z. simpl. split_and!; [done| |by eexists].
        apply (f_equal length) in Ed. rewrite length_drop in Ed. simpl in Ed. lia.
      * destruct Hz as (-> & d & Ha & Hz).
        assert (l2 = drop (Z.to_nat (s - (i - 1))) l) as ->.
        { replace (Z.to_nat (s - (i - 1))) with (S (Z.to_nat (s - i))) by lia.
          rewrite <- Nat.add_1_r, <- drop_drop, Ed. done. }
        apply (f_equal length) in Ed. rewrite length_drop in Ed. simpl in Ed.
        simpl. wp_go. eexists. split; [|split_and!; [done|lia|lia|lia|done|reflexivity]]. lia.
    + apply wp_ret. replace i with 0 in * by lia. rewrite Z.sub_0_r in *. split_and!; [done|lia|done].
  - split_and!; [done|lia|lia|lia|by rewrite Z.sub_diag|reflexivity].
  - rewrite Z.sub_diag. done.
Qed.

(** One more element of the copy. *)
Lemma subseq_push h h1 r z vs v :
  (vs = [] ∧ r = ONil ∧ z = ONil ∧ h1 = h) ∨ building h h1 r z vs ONil →
  wp (if mkcl_Null z then mret (OCons (first_free h1))
      else MKCL_RPLACD z (OCons (first_free h1));; mret r) (<[first_free h1 := CCons v ONil]> h1)
    (λ r2 h2, building h h2 r2 (OCons (first_free h1)) (vs ++ [v]) ONil) no_error.
Proof.
  intros [(-> & -> & -> & ->)|Hb].
  - apply wp_ret. by apply building_start.
  - assert (mkcl_Null z = false) as -> by (by destruct Hb as (_ & ? & ? & ? & -> & _)).
    wp_go. eapply wp_link; [exact Hb|]. intros h2 Hb2 _. by apply wp_ret.
Qed.

Lemma subseq_copy_spec fuel h x l e start end_ :
  lseg h x l ONil → (length l < fuel)%nat → 0 ≤ e →
  wp (subseq_copy fuel start end_ e x) h
    (λ r h', e ≤ Z.of_nat (length l) ∧ fresh_lseg h h' r (take (Z.to_nat e) l.*2) ONil)
    (λ er h', Z.of_nat (length l) < e ∧ illegal start end_ er).
Proof.
  intros Hl Hf He. eapply (wp_loop (λ n '(i, r, z, c) h1, ∃ l1 l2, l = l1 ++ l2 ∧ lseg h c l2 ONil ∧
    i = Z.of_nat (length l1) ∧ i ≤ e ∧ n = length l2 ∧
    (l1 = [] ∧ r = ONil ∧ z = ONil ∧ h1 = h ∨ building h h1 r z l1.*2 ONil))); [| |done].
  - intros n [[[i r] z] c] h1 (l1 & l2 & -> & H2 & -> & Hie & -> & Hb).
    assert (Hsub : h ⊆ h1) by (destruct Hb as [(_ & _ & _ & ->)|Hb]; [done|by eapply building_subseteq]).
    destruct (Z.ltb_spec (Z.of_nat (length l1)) e).
    + destruct l2 as [|[a v] l2].
      * simpl in H2. subst c. simpl. split; [rewrite app_nil_r; lia|by eexists].
      * destruct H2 as (-> & d & Ha & H2). pose proof (lookup_weaken _ _ _ _ Ha Hsub) as Ha1. simpl. wp_go.
        eapply wp_mono; [apply (subseq_push h h1 r z l1.*2 v); destruct Hb as [(-> & -> & -> & ->)|Hb]; auto| |done].
        intros r2 h2 Hb2. cbv beta in Hb2. wp_go. eapply wp_cdr; [eapply lookup_weaken; [exact Ha|by eapply building_subseteq]|].

        apply wp_ret. exists (length l2). split; [simpl; lia|]. exists (l1 ++ [(a, v)]), l2.
        rewrite <- (assoc app), length_app, fmap_app. simpl. split_and!; [done..|lia|lia|done|by right].
    + apply wp_ret. split; [rewrite length_app; lia|].
      replace (Z.to_nat e) with (length l1.*2) by (rewrite length_fmap; lia).
      rewrite fmap_app, take_app_length.
      destruct Hb as [(-> & -> & -> & ->)|Hb]; [apply fresh_lseg_nil|by eapply building_fresh].
  - exists [], l. split_and!; [done..|by left].
Qed.

(** The bounds that SUBSEQ is given. *)
Definition subseq_end (vs : list obj) (end_ : obj) (e : Z) : Prop :=
  (end_ = ONil ∧ e = Z.of_nat (length vs)) ∨ (end_ = OFix e ∧ is_fixnum e ∧ 0 ≤ e).

(** What the words that [mk_cl_subseq] makes of its bounds mean. *)
Definition subseq_word (vs : list obj) (e ei : Z) : Prop :=
  (ei = -1 ∧ e = Z.of_nat (length vs)) ∨ (ei = e ∧ is_fixnum e ∧ 0 ≤ e).

Definition subseq_result (h : heap) (x : obj) (vs : list obj) (s e : Z) (start end_ : obj) (o : outcome obj) : Prop :=
  if (s <=? e) && (e <=? Z.of_nat (length vs))
  then ∃ r h', o = Done r h' ∧
         fresh_seq h h' r (seq_type x) (take (Z.to_nat (e - s)) (drop (Z.to_nat s) vs))
  else ∃ er h', o = Fail er h' ∧ illegal start end_ er.

Lemma subseq_result_Done h x vs s e start end_ r h' :
  s ≤ e → e ≤ Z.of_nat (length vs) →
  fresh_seq h h' r (seq_type x) (take (Z.to_nat (e - s)) (drop (Z.to_nat s) vs)) →
  subseq_result h x vs s e start end_ (Done r h').
Proof.
  intros H1 H2 Hr. unfold subseq_result. rewrite (proj2 (Z.leb_le s e)), (proj2 (Z.leb_le e _)) by done. exists r, h'. done.
Qed.

Lemma subseq_result_Fail h x vs s e start end_ er h' :
  e < s ∨ Z.of_nat (length vs) < e → illegal start end_ er →
  subseq_result h x vs s e start end_ (Fail er h').
Proof.
  intros H1 Hi. unfold subseq_result. destruct (Z.leb_spec s e), (Z.leb_spec e (Z.of_nat (length vs))); simpl;
    try (exists er, h'; done). lia.
Qed.

Lemma subseq_string_spec fuel h x vs s e ei start end_ :
  seq_contents h x vs → MKCL_STRINGP x = true → is_fixnum s → 0 ≤ s → subseq_word vs e ei →
  subseq_result h x vs s e start end_ (subseq_words fuel start end_ x s ei h).
Proof.
  intros Hx Est Hs Hs0 Hei. destruct (seq_string h x vs Hx Est) as (a & str & Ha & Hstr & -> & Hr & _).
  unfold subseq_word in Hei. rewrite length_fmap in Hei.
  set (n := Z.of_nat (length str)) in *.
  assert (subseq_words fuel start end_ x s ei h = subseq_vector start end_ x s ei n (copy_substring x) h) as ->
    by (destruct x; try done; unfold subseq_words; by rewrite (bind_Done _ _ _ _ _ Hr)).
  assert (Hbad : ∀ h', e < s ∨ n < e →
    subseq_result h x (OChar <$> str) s e start end_ (illegal_start_end (R := obj) start end_ x h')).
  { intros h' H1. apply subseq_result_Fail; [by rewrite length_fmap|by eexists]. }
  assert (Hgood : s ≤ e → e ≤ n → subseq_result h x (OChar <$> str) s e start end_ (copy_substring x s (e - s) h)).
  { intros H1 H2. rewrite (copy_substring_spec x str s (e - s) h Hr).
    apply subseq_result_Done; [done|by rewrite length_fmap|].
    rewrite <- fmap_drop, <- fmap_take. apply fresh_string_seq with str; [done..|].
    intros c Hc%elem_of_take. destruct Hc as (i & Hc & _). rewrite lookup_drop in Hc. by eapply list_elem_of_lookup_2. }
  unfold subseq_vector, uwrap. rewrite Z.mod_small by (unfold_words; lia).
  destruct (Z.ltb_spec n s); [apply Hbad; destruct Hei; lia|].
  destruct Hei as [[-> ->]|(-> & ? & ?)]; [apply Hgood; lia|].
  rewrite (proj2 (Z.ltb_ge e 0)) by done.
  destruct (Z.ltb_spec e s); [apply Hbad; by left|].
  destruct (Z.ltb_spec n e); [apply Hbad; by right|by apply Hgood].
Qed.

Lemma subseq_list_spec fuel h x vs s e ei start end_ :
  is_list h x vs → is_fixnum s → 0 ≤ s → subseq_word vs e ei → (length vs < fuel)%nat →
  subseq_result h x vs s e start end_ (subseq_words fuel start end_ x s ei h).
Proof.
  intros Hl Hs Hs0 Hei Hf. 
  assert (MKCL_LISTP x = true) as Hx
    by (destruct Hl as ([|[??]?] & Hl & _); simpl in Hl; [by subst x|by destruct Hl as [-> _]]).
  destruct x; try done.
  { apply is_list_nil in Hl as ->. unfold subseq_word in Hei. simpl in Hei. unfold subseq_words.
    destruct (Z.ltb_spec 0 s); [apply subseq_result_Fail; [simpl; destruct Hei; lia|by eexists]|].
    destruct (Z.ltb_spec 0 ei); [apply subseq_result_Fail; [simpl; destruct Hei; lia|by eexists]|].
    apply subseq_result_Done; [destruct Hei; lia|simpl; destruct Hei; lia|].
    rewrite drop_nil, take_nil. apply fresh_lseg_seq, fresh_lseg_nil. }
  destruct Hl as (l & Hl & <-). unfold subseq_word in Hei. rewrite length_fmap in Hf, Hei.
  set (e' := if 0 <=? ei then swrap (ei - s) else ei).
  assert (He' : (ei = -1 ∧ e' = -1 ∧ e = Z.of_nat (length l)) ∨ (ei = e ∧ 0 ≤ e ∧ e' = e - s)).
  { unfold e'. destruct Hei as [[-> ->]|(-> & ? & ?)]; [by left|right].
    rewrite (proj2 (Z.leb_le 0 e)), swrap_small by (unfold_words; lia). done. }
  cbn [subseq_words]. fold e'. clearbody e'.
  destruct ((0 <=? ei) && (e' <? 0)) eqn:Eneg.
  { apply andb_true_iff in Eneg as [?%Z.leb_le ?%Z.ltb_lt]. apply subseq_result_Fail; [rewrite length_fmap; lia|by eexists]. }
  assert (Hneg : e' = -1 ∧ e = Z.of_nat (length l) ∨ e' = e - s ∧ 0 ≤ e').
  { destruct He' as [(-> & -> & ->)|(-> & ? & ->)]; [by left|right]. split; [done|].
    rewrite (proj2 (Z.leb_le 0 e)) in Eneg by done. by apply Z.ltb_ge in Eneg. }
  clear Eneg He' Hei. pose proof (subseq_skip_spec fuel h (OCons a) l s start end_ Hl Hf Hs0) as Hk.
  unfold wp in Hk. unfold mbind, M_bind.
  destruct (subseq_skip fuel start end_ s (OCons a) h) as [z h1|er h1|]; [| |done].
  2: { destruct Hk as (-> & Hgt & Hill). apply subseq_result_Fail; [|done]. rewrite length_fmap. lia. }
  destruct Hk as (-> & Hsl & Hz). destruct Hneg as [[-> ->]|[-> Hpos]].
  - pose proof (copy_list_copies fuel h z _ ONil Hz eq_refl ltac:(rewrite length_drop; lia)) as Hc.
    rewrite andb_false_r in Hc. rewrite (proj2 (Z.ltb_lt (-1) 0)) by lia. destruct Hc as (r & h2 & -> & Hfr). rewrite fmap_drop in Hfr.
    apply subseq_result_Done; [done|by rewrite length_fmap|].
    rewrite take_ge by (rewrite length_drop, length_fmap; lia). by apply fresh_lseg_seq.
  - rewrite (proj2 (Z.ltb_ge (e - s) 0)) by done.
    pose proof (subseq_copy_spec fuel h z _ (e - s) start end_ Hz ltac:(rewrite length_drop; lia) Hpos) as Hc.
    rewrite length_drop, fmap_drop in Hc. unfold wp in Hc.
    destruct (subseq_copy fuel start end_ (e - s) z h) as [r h2|er h2|]; [| |done].
    + destruct Hc as [Hle Hfr]. apply subseq_result_Done; [lia|rewrite length_fmap; lia|by apply fresh_lseg_seq].
    + destruct Hc as [Hgt Hill]. apply subseq_result_Fail; [rewrite length_fmap; lia|done].
Qed.

Lemma subseq_fixnums fuel h x vs s end_ e :
  seq_contents h x vs → is_fixnum s → 0 ≤ s → subseq_end vs end_ e → (length vs < fuel)%nat →
  subseq_result h x vs s e (OFix s) end_ (mk_cl_subseq fuel x (OFix s) end_ h).
Proof.
  intros Hx Hs Hs0 He Hf.
  assert (Hint : ∀ n, is_fixnum n → 0 ≤ n → mkcl_integer_to_index (OFix n) h = Done n h ∧ swrap n = n).
  { intros n Hfn Hn0. simpl. rewrite (proj2 (Z.leb_le 0 n)) by done. split; [done|].
    apply swrap_small. unfold_words. lia. }
  assert (∃ ei, mk_cl_subseq fuel x (OFix s) end_ h = subseq_words fuel (OFix s) end_ x s ei h ∧ subseq_word vs e ei)
    as (ei & -> & Hei).
  { destruct (Hint s Hs Hs0) as [Es Ws]. unfold mk_cl_subseq. rewrite (bind_Done _ _ _ _ _ Es), Ws.
    destruct He as [[-> ->]|(-> & Hfe & He0)]; [exists (-1); split; [done|by left]|].
    exists e. split; [|by right]. destruct (Hint e Hfe He0) as [E W].
    cbn [mkcl_Null]. cbv iota. rewrite bind_assoc, (bind_Done _ _ _ _ _ E), bind_ret. by rewrite W. }
  destruct (MKCL_STRINGP x) eqn:Est; [by apply subseq_string_spec|].
  apply subseq_list_spec; try done. by destruct x.
Qed.

(** A fixnum, or NIL for the end of the sequence. *)
Definition subseq_bound (vs : list obj) (end_ : obj) (e : Z) : Prop :=
  (end_ = ONil ∧ e = Z.of_nat (length vs)) ∨ (end_ = OFix e ∧ is_fixnum e).

(** C19: SUBSEQ of a proper list or a string, from a fixnum to a fixnum or to the end, is
    a new sequence of the same kind with the elements between the bounds; it is an error
    if a bound is negative, if they are out of order, or out of the sequence.  (Bignums
    as bounds can wrap: [subseq_start_wraps].) *)
Theorem subseq_cuts fuel h x vs s end_ e :
  seq_contents h x vs → is_fixnum s → subseq_bound vs end_ e → (length vs < fuel)%nat →
  if (0 <=? s) && (s <=? e) && (e <=? Z.of_nat (length vs))
  then ∃ r h', mk_cl_subseq fuel x (OFix s) end_ h = Done r h' ∧
         fresh_seq h h' r (seq_type x) (take (Z.to_nat (e - s)) (drop (Z.to_nat s) vs))
  else ∃ er h', mk_cl_subseq fuel x (OFix s) end_ h = Fail er h' ∧ (0 ≤ s → 0 ≤ e → illegal (OFix s) end_ er).
Proof.
  intros Hx Hs Hend Hf.
  assert (Hneg : ∀ n, n < 0 → ∃ er, mkcl_integer_to_index (OFix n) h = Fail er h).
  { intros n Hn. simpl. rewrite (proj2 (Z.leb_gt 0 n)) by done. by eexists. }
  assert (Hpos : ∀ n, 0 ≤ n → mkcl_integer_to_index (OFix n) h = Done n h).
  { intros n Hn. simpl. by rewrite (proj2 (Z.leb_le 0 n)). }
  destruct (Z.leb_spec 0 s) as [Hs0|Hs0]; cbn [andb].
  2:{ destruct (Hneg s Hs0) as [er Es]. exists er, h. split; [|lia]. unfold mk_cl_subseq. by rewrite (bind_Fail _ _ _ _ _ Es). }
  destruct (decide (end_ = ONil ∨ 0 ≤ e)) as [Hok|Hno].
  - assert (He : subseq_end vs end_ e).
    { destruct Hend as [?|[-> ?]]; [by left|right]. split_and!; [done|done|by destruct Hok]. }
    pose proof (subseq_fixnums fuel h x vs s end_ e Hx Hs Hs0 He Hf) as Hcut. unfold subseq_result in Hcut.
    destruct ((s <=? e) && (e <=? Z.of_nat (length vs))); [done|]. destruct Hcut as (er & h' & E & Hi). by exists er, h'.
  - destruct Hend as [[-> _]|[-> Hfe]]; [by destruct Hno; left|]. assert (He : e < 0) by lia.
    rewrite (proj2 (Z.leb_gt s e)) by lia. cbn [andb]. destruct (Hneg e He) as [er Ee]. exists er, h. split; [|lia].
    unfold mk_cl_subseq. rewrite (bind_Done _ _ _ _ _ (Hpos s Hs0)). cbn [mkcl_Null]. cbv iota.
    by rewrite bind_assoc, (bind_Fail _ _ _ _ _ Ee).
Qed.

End with_runtime.

Section wraps.
Context `{!GMP, !GMPSpec, !Vectors}.

(** An index from 2^63 wraps to a negative word, and SUBSEQ of a list from there to the
    end is a copy of the whole list, not an error. *)
Theorem subseq_start_wraps fuel h a l b s :
  lseg h (OCons a) l ONil → (length l < fuel)%nat → half_modulus ≤ s < word_modulus →
  ∃ r h', mk_cl_subseq fuel (OCons a) (OBig b s) ONil h = Done r h' ∧ fresh_lseg h h' r l.*2 ONil.
Proof.
  intros Hl Hf Hs. assert (Hi : is_index s) by (unfold_words; lia).
  unfold mk_cl_subseq, mkcl_integer_to_index. rewrite (proj2 (mpz_fits_ulong_p_eq s)), bind_ret by done.
  cbn [mkcl_Null]. cbv iota. rewrite bind_ret, mpz_get_ui_eq by done. cbn [subseq_words].
  change (0 <=? -1) with false. cbn [andb]. cbv iota.
  assert (Hneg : (0 <? swrap s) = false).
  { apply Z.ltb_ge. unfold swrap. unfold_words.
    rewrite <- (Z_mod_plus_full _ (-1)), Z.mod_small; lia. }
  assert (E : subseq_skip fuel (OBig b s) ONil (swrap s) (OCons a) h = Done (OCons a) h).
  { destruct fuel; [lia|]. unfold subseq_skip. simpl. by rewrite Hneg. }
  rewrite (bind_Done _ _ _ _ _ E). rewrite (proj2 (Z.ltb_lt (-1) 0)) by lia.
  pose proof (copy_list_copies fuel h (OCons a) l ONil Hl eq_refl Hf) as Hc.
  rewrite andb_false_r in Hc. done.
Qed.
End wraps.
