(* ===== verification/ListExamples.v ===== *)
(** * ListExamples: the theorems on lists at concrete heaps *)

From S2P Require Import Prelude Words Objects Heap Numbers Segments Equal Lists ListSpecs ListCopies.
From S2P Require Import ListDestr ListSearch TreeSpecs Sequences SeqCopies.
#[local] Open Scope Z_scope.

(** A proper list at 1, a dotted one at 4, a circular one at 6, an association
    list at 9, and a list of the same length as the first at 13. *)
Definition ex_heap : heap := list_to_map
  [(1, CCons (OFix 10) (OCons 2)); (2, CCons (OFix 20) (OCons 3)); (3, CCons (OFix 30) ONil);
   (4, CCons (OFix 40) (OCons 5)); (5, CCons (OFix 50) (OFix 60));
   (6, CCons (OFix 70) (OCons 7)); (7, CCons (OFix 80) (OCons 8)); (8, CCons (OFix 90) (OCons 7));
   (9, CCons (OCons 11) (OCons 10)); (10, CCons (OFix 5) ONil); (11, CCons (OFix 1) (OFix 2));
   (13, CCons (OFix 1) (OCons 14)); (14, CCons (OFix 2) (OCons 15)); (15, CCons (OFix 3) ONil)].

Definition ex_proper : cells := [(1, OFix 10); (2, OFix 20); (3, OFix 30)].
Definition ex_dotted : cells := [(4, OFix 40); (5, OFix 50)].
Definition ex_alist : cells := [(9, OCons 11); (10, OFix 5)].
Definition ex_other : cells := [(13, OFix 1); (14, OFix 2); (15, OFix 3)].

Ltac lseg_eval := simpl; repeat (split; [done|]; eexists; split; [reflexivity|]); done.

Lemma ex_proper_lseg : lseg ex_heap (OCons 1) ex_proper ONil.
Proof. lseg_eval. Defined.
Lemma ex_dotted_lseg : lseg ex_heap (OCons 4) ex_dotted (OFix 60).
Proof. lseg_eval. Defined.
Lemma ex_alist_lseg : lseg ex_heap (OCons 9) ex_alist ONil.
Proof. lseg_eval. Defined.
Lemma ex_other_lseg : lseg ex_heap (OCons 13) ex_other ONil.
Proof. lseg_eval. Defined.

Definition ex_tree : tree := Node (Node (Leaf (OFix 1)) (Leaf (OFix 2))) (Node (Leaf (OFix 5)) (Leaf ONil)).
Lemma ex_tree_reps : reps anywhere ex_heap (OCons 9) ex_tree.
Proof.
  do 3 eexists. do 3 (split; [done|]). split.
  - do 3 eexists. by do 3 (split; [done|]).
  - do 3 eexists. by do 3 (split; [done|]).
Defined.

(** ** Instances *)

Lemma append_concatenates_witness :
  ∃ r h', mk_cl_append 4 [OCons 1; ONil; OCons 13; OFix 7] ex_heap = Done r h' ∧
    fresh_lseg ex_heap h' r [OFix 10; OFix 20; OFix 30; OFix 1; OFix 2; OFix 3] (OFix 7).
Proof.
  apply (append_concatenates 4 [OCons 1; ONil; OCons 13]
    [[OFix 10; OFix 20; OFix 30]; []; [OFix 1; OFix 2; OFix 3]]).
  - constructor; [exists ex_proper; split; [exact ex_proper_lseg|done]|].
    constructor; [by exists []|]. constructor; [|constructor].
    exists ex_other. split; [exact ex_other_lseg|done].
  - repeat constructor; simpl; lia.
Defined.

Lemma mkcl_append_spec_witness :
  ∃ r h', mkcl_append 4 (OCons 4) (OFix 7) ex_heap = Fail (FEtype_error_proper_list r) h' ∧
    fresh_lseg ex_heap h' r [OFix 40; OFix 50] (OFix 60).
Proof.
  apply (mkcl_append_spec 4 ex_heap (OCons 4) ex_dotted (OFix 7) (OFix 60));
    [exact ex_dotted_lseg|done|simpl; lia].
Defined.

Lemma list_length_classifies_witness :
  (∃ vs, is_list ex_heap (OCons 6) vs ∧
     mk_cl_list_length 30 (OCons 6) ex_heap = Done (OFix (Z.of_nat (length vs))) ex_heap) ∨
  (circular ex_heap (OCons 6) ∧ mk_cl_list_length 30 (OCons 6) ex_heap = Done ONil ex_heap) ∨
  (∃ l y, lseg ex_heap (OCons 6) l y ∧ MKCL_LISTP y = false ∧
     mk_cl_list_length 30 (OCons 6) ex_heap = Fail (FEtype_error_list y) ex_heap) ∨
  (∃ l a, lseg ex_heap (OCons 6) l (OCons a) ∧ (∀ v d, ex_heap !! a ≠ Some (CCons v d)) ∧
     mk_cl_list_length 30 (OCons 6) ex_heap = Fail Segfault ex_heap).
Proof.
  apply (list_length_classifies 30 (OCons 6) ex_heap); vm_compute; [lia|done].
Defined.

Lemma nth_element_witness : mk_cl_nth 4 (OFix 2) (OCons 1) ex_heap = Done (OFix 30) ex_heap.
Proof.
  apply (nth_element 4 2 (OCons 1) ex_heap ex_proper ONil); [exact ex_proper_lseg|done|simpl; lia].
Defined.

Lemma nthcdr_cuts_witness :
  mk_cl_nthcdr 4 (OFix 3) (OCons 4) ex_heap = Fail (FEtype_error_list (OFix 60)) ex_heap.
Proof.
  apply (nthcdr_cuts 4 3 (OCons 4) ex_heap ex_dotted (OFix 60)); [exact ex_dotted_lseg|done|simpl; lia|lia].
Defined.

Lemma last_tail_witness :
  ∃ r, mk_cl_last 4 (OCons 1) (OFix 2) ex_heap = Done r ex_heap ∧
       lseg ex_heap (OCons 1) [(1, OFix 10)] r ∧
       lseg ex_heap r [(2, OFix 20); (3, OFix 30)] ONil.
Proof.
  apply (last_tail 4 ex_heap (OCons 1) ex_proper ONil 2); [exact ex_proper_lseg|done|by left|lia|simpl; lia].
Defined.

Lemma copy_list_copies_witness :
  ∃ r h', mk_cl_copy_list 4 (OCons 4) ex_heap = Done r h' ∧
          fresh_lseg ex_heap h' r [OFix 40; OFix 50] (OFix 60).
Proof.
  apply (copy_list_copies 4 ex_heap (OCons 4) ex_dotted (OFix 60)); [exact ex_dotted_lseg|done|simpl; lia].
Defined.

Lemma reverse_proper_list_reverses_witness :
  ∃ r h', mkcl_reverse_proper_list 4 (OCons 1) ex_heap = Done r h' ∧
          fresh_lseg ex_heap h' r [OFix 30; OFix 20; OFix 10] ONil.
Proof.
  apply (reverse_proper_list_reverses 4 ex_heap (OCons 1) [OFix 10; OFix 20; OFix 30]);
    [exists ex_proper; split; [exact ex_proper_lseg|done]|simpl; lia].
Defined.

Lemma revappend_spec_witness :
  ∃ r h', mk_cl_revappend 4 (OCons 1) (OFix 7) ex_heap = Done r h' ∧
          fresh_lseg ex_heap h' r [OFix 30; OFix 20; OFix 10] (OFix 7).
Proof.
  apply (revappend_spec 4 ex_heap (OCons 1) ex_proper ONil (OFix 7)); [exact ex_proper_lseg|done|simpl; lia].
Defined.

Lemma copy_tree_copies_witness :
  ∃ r h', mk_cl_copy_tree 5 (OCons 9) ex_heap = Done r h' ∧ ex_heap ⊆ h' ∧
          reps (new_in ex_heap) h' r ex_tree.
Proof. apply (copy_tree_copies 5 ex_tree); [exact ex_tree_reps|simpl; lia]. Defined.

Lemma make_list_makes_witness :
  ∃ r h', mk_cl_make_list 1 (OBig 1 (2 ^ 63)) (OFix 0) ex_heap = Done r h' ∧
          fresh_lseg ex_heap h' r [] ONil.
Proof.
  apply (make_list_makes 1 (OBig 1 (2 ^ 63)) (2 ^ 63) (OFix 0) ex_heap).
  - split; [done|]. simpl. unfold_words. lia.
  - unfold_words. lia.
  - simpl. lia.
Defined.

Lemma butlast_copies_witness :
  ∃ r h', mk_cl_butlast 4 (OCons 1) (OFix 1) ex_heap = Done r h' ∧
          fresh_lseg ex_heap h' r [OFix 10; OFix 20] ONil.
Proof.
  apply (butlast_copies 4 ex_heap (OCons 1) ex_proper ONil 1); [exact ex_proper_lseg|done|lia|simpl; lia].
Defined.

Lemma ldiff_copies_witness :
  ∃ r h', mk_cl_ldiff 4 (OCons 1) (OCons 3) ex_heap = Done r h' ∧
          fresh_lseg ex_heap h' r [OFix 10; OFix 20] ONil.
Proof.
  apply (proj1 (ldiff_copies 4 ex_heap (OCons 1) [(1, OFix 10); (2, OFix 20)] [(3, OFix 30)]
    ONil (OCons 3) eq_refl ltac:(simpl; lia))).
  - lseg_eval.
  - lseg_eval.
  - done.
Defined.

Lemma copy_alist_copies_witness :
  ∃ r h' vs, mk_cl_copy_alist 4 (OCons 9) ex_heap = Done r h' ∧
    fresh_lseg ex_heap h' r vs ONil ∧ Forall2 (pair_copy ex_heap h') [OCons 11; OFix 5] vs.
Proof.
  apply (copy_alist_copies 4 ex_heap (OCons 9) ex_alist ONil); [exact ex_alist_lseg|done|simpl; lia|].
  constructor; [|constructor; [|constructor]].
  - intros a [= <-]. eexists _, _. reflexivity.
  - intros a [=].
Defined.

Lemma pairlis_pairs_witness :
  ∃ r h' ps, mk_cl_pairlis 4 (OCons 1) (OCons 13) ONil ex_heap = Done r h' ∧
    fresh_lseg ex_heap h' r ps ONil ∧
    Forall2 (new_pair ex_heap h') ps
      [(OFix 30, OFix 3); (OFix 20, OFix 2); (OFix 10, OFix 1)].
Proof.
  apply (pairlis_pairs 4 ex_heap (OCons 1) (OCons 13) [OFix 10; OFix 20; OFix 30] [OFix 1; OFix 2; OFix 3]).
  - exists ex_proper. split; [exact ex_proper_lseg|done].
  - exists ex_other. split; [exact ex_other_lseg|done].
  - simpl. lia.
Defined.

Lemma cxr_selects_witness :
  ∃ y, mk_cl_cadr (OCons 9) ex_heap = Done y ex_heap ∧ reps anywhere ex_heap y (Leaf (OFix 5)).
Proof. apply (cxr_selects [A; D] ex_heap (OCons 9) ex_tree). exact ex_tree_reps. Defined.

Lemma nreverse_in_place_witness :
  ∃ r h', mkcl_nreverse_proper_list 4 (OCons 1) ex_heap = Done r h' ∧
    lseg h' r [(3, OFix 30); (2, OFix 20); (1, OFix 10)] ONil ∧
    same_outside ex_proper ex_heap h'.
Proof. apply (nreverse_in_place 4 ex_heap (OCons 1) ex_proper); [exact ex_proper_lseg|simpl; lia]. Defined.

Lemma nreconc_in_place_witness :
  ∃ h', mk_cl_nreconc 4 (OCons 4) (OCons 1) ex_heap = Fail (FEtype_error_list (OFix 60)) h' ∧
        same_outside ex_dotted ex_heap h'.
Proof.
  apply (nreconc_in_place 4 ex_heap (OCons 4) ex_dotted (OFix 60)); [exact ex_dotted_lseg|done|simpl; lia].
Defined.

Lemma nreconc_circular_witness :
  ∃ h', mk_cl_nreconc 5 (OCons 6) ONil ex_heap = Fail (FEcircular_list (OCons 6)) h'.
Proof.
  apply (nreconc_circular 5 ex_heap (OCons 6) [(6, OFix 70)] [(7, OFix 80); (8, OFix 90)] (OCons 7) ONil);
    [lseg_eval|lseg_eval|done| |simpl; lia].
  by apply (bool_decide_unpack (NoDup [6; 7; 8])).
Defined.

Lemma nconc_links_witness :
  ∃ r h', mk_cl_nconc 4 [OCons 1; ONil; OCons 4; OFix 7] ex_heap = Done r h' ∧
    lseg h' r (ex_proper ++ ex_dotted) (OFix 7) ∧ same_outside (ex_proper ++ ex_dotted) ex_heap h'.
Proof.
  apply (nconc_links 4 ex_heap [OCons 1; ONil; OCons 4] [ex_proper; []; ex_dotted] (OFix 7) []).
  - constructor; [exists ONil; split_and!; [done|exact ex_proper_lseg|done]|].
    constructor; [by exists ONil|]. constructor; [|constructor].
    exists (OFix 60). split_and!; [done|exact ex_dotted_lseg|done].
  - by right.
  - by apply (bool_decide_unpack (NoDup [1; 2; 3; 4; 5])).
  - repeat constructor; simpl; lia.
Defined.

Lemma nbutlast_cuts_witness :
  ∃ a v h', mk_cl_nbutlast 4 (OCons 1) (OFix 1) ex_heap = Done (OCons 1) h' ∧
    lseg h' (OCons 1) [(1, OFix 10); (2, OFix 20)] ONil ∧ same_outside [(a, v)] ex_heap h' ∧
    ex_proper !! 1%nat = Some (a, v).
Proof.
  apply (nbutlast_cuts 4 ex_heap (OCons 1) ex_proper ONil 1);
    [exact ex_proper_lseg|done|by left|unfold_words; lia|lia|simpl; lia].
Defined.

(** ** The theorems on searches and trees at concrete heaps *)

(** A system whose functions all answer T. *)
#[export] Instance runtime_t : Runtime := {
  call_function := λ f args, mret mk_cl_Ct;
  mkcl_funcall1 := λ f x, mret mk_cl_Ct;
  mk_si_coerce_to_function := λ f, mret f;
  mkcl_validate_function := λ f, mret f;
  mkcl_equalp := λ x y, mret (mkcl_eql x y);
  fun_eq := OObj mkcl_t_cfun (-10);
  fun_eql := OObj mkcl_t_cfun (-11);
  fun_equal := OObj mkcl_t_cfun (-12);
  fun_equalp := OObj mkcl_t_cfun (-13);
}.

Lemma member_finds_witness :
  ∃ r, mk_cl_member 4 (OFix 20) (OCons 1) (OObj mkcl_t_cfun (-10)) ONil ONil ex_heap = Done r ex_heap ∧
       found_tail ex_heap (OCons 1) ex_proper (obj_eq (OFix 20)) r.
Proof.
  apply (member_finds 4 ex_heap (OFix 20) (OCons 1) ex_proper (OObj mkcl_t_cfun (-10)) ONil ONil
    (ClTest test_eq key_identity (OFix 20)));
    [reflexivity|intros; reflexivity|exact ex_proper_lseg|simpl; lia].
Defined.

Lemma adjoin_adds_witness :
  mk_cl_adjoin 4 (OFix 20) (OCons 1) None ex_heap = Done (OCons 1) ex_heap.
Proof. apply (adjoin_adds 4 ex_heap (OFix 20) (OCons 1) ex_proper); [exact ex_proper_lseg|simpl; lia]. Defined.

(** An association list with a NIL: [((1 . 2) nil (3 . 4))]. *)
Definition al_heap : heap := list_to_map
  [(1, CCons (OCons 4) (OCons 2)); (2, CCons ONil (OCons 3)); (3, CCons (OCons 5) ONil);
   (4, CCons (OFix 1) (OFix 2)); (5, CCons (OFix 3) (OFix 4)); (6, CCons (OFix 3) (OFix 9))].
Definition al_cells : cells := [(1, OCons 4); (2, ONil); (3, OCons 5)].

Lemma al_lseg : lseg al_heap (OCons 1) al_cells ONil.
Proof. lseg_eval. Defined.

Lemma al_elems : Forall (alist_elem al_heap) al_cells.*2.
Proof.
  constructor; [right; by do 3 eexists|]. constructor; [by left|].
  constructor; [right; by do 3 eexists|constructor].
Defined.

Lemma assoc_finds_witness :
  mk_cl_assoc 4 (OFix 3) (OCons 1) ONil ONil ONil al_heap = Done (OCons 5) al_heap ∧
  mk_cl_rassoc 4 (OFix 3) (OCons 1) ONil ONil ONil al_heap = Done ONil al_heap.
Proof.
  apply (assoc_finds 4 al_heap (OFix 3) (OCons 1) al_cells ONil ONil ONil
    (ClTest test_eql key_identity (OFix 3)) (mkcl_eql (OFix 3)));
    [reflexivity|exact al_lseg|simpl; lia|exact al_elems|intros; reflexivity].
Defined.

Lemma tailp_decides_witness :
  mk_cl_tailp 4 (OCons 2) (OCons 1) ex_heap = Done mk_cl_Ct ex_heap.
Proof.
  apply (tailp_decides 4 ex_heap (OCons 1) ex_proper ONil (OCons 2)); [exact ex_proper_lseg|done|simpl; lia].
Defined.

Lemma remove_eq_filters_witness :
  ∃ r h', mkcl_remove_eq 4 (OFix 20) (OCons 1) ex_heap = Done r h' ∧
          fresh_lseg ex_heap h' r [OFix 10; OFix 30] ONil.
Proof.
  apply (remove_eq_filters 4 ex_heap (OCons 1) ex_proper ONil (OFix 20)); [exact ex_proper_lseg|done|simpl; lia].
Defined.

(** Two strings of different types with the same characters, in lists. *)
Definition str_heap : heap := list_to_map
  [(1, CCons (OString 3) ONil); (2, CCons (OBaseString 4) ONil);
   (3, CStr [65; 66]); (4, CStr [65; 66])].

Lemma mkcl_equal_keys_witness :
  mkcl_equal 2 (OCons 1) (OCons 2) str_heap = Done true str_heap.
Proof.
  apply (mkcl_equal_keys 2 str_heap (OCons 1) (OCons 2)
    (Node (Leaf (OString 3)) (Leaf ONil)) (Node (Leaf (OBaseString 4)) (Leaf ONil))).
  - do 3 eexists. by do 3 (split; [done|]).
  - do 3 eexists. by do 3 (split; [done|]).
  - split; [by eexists|done].
  - split; [by eexists|done].
  - simpl. lia.
Defined.

Lemma tree_equal_default_witness :
  mk_cl_tree_equal 3 (OCons 9) (OCons 9) ONil ONil ex_heap = Done mk_cl_Ct ex_heap.
Proof.
  apply (tree_equal_default 3 ex_heap ex_tree ex_tree); [exact ex_tree_reps|exact ex_tree_reps|simpl; lia].
Defined.

Lemma tree_equal_atom_cons_witness :
  mk_cl_tree_equal 1 (OFix 7) (OCons 1) (OObj mkcl_t_cfun (-20)) ONil ex_heap = Done mk_cl_Ct ex_heap.
Proof. apply (tree_equal_atom_cons 0 ex_heap (OObj mkcl_t_cfun (-20)) (OFix 7) 1); reflexivity. Defined.

Lemma subst_replaces_witness :
  ∃ r h', mk_cl_subst 5 (OFix 100) (OFix 5) (OCons 9) ONil ONil ONil ex_heap = Done r h' ∧
    ex_heap ⊆ h' ∧
    reps anywhere h' r
      (Node (Node (Leaf (OFix 1)) (Leaf (OFix 2))) (Node (Leaf (OFix 100)) (Leaf ONil))).
Proof.
  apply (subst_replaces 5 ex_heap (OFix 100) (OFix 5) (OCons 9) ex_tree (Leaf (OFix 100)) ONil ONil ONil
    (ClTest test_eql key_identity (OFix 5)) (mkcl_eql (OFix 5)));
    [reflexivity|exact ex_tree_reps|done|simpl; lia|intros; reflexivity].
Defined.

Lemma sublis_replaces_witness :
  ∃ r h', mk_cl_sublis 5 (OCons 1) (OCons 6) ONil ONil ONil al_heap = Done r h' ∧ al_heap ⊆ h' ∧
    reps anywhere h' r (Node (Leaf (OFix 4)) (Leaf (OFix 9))).
Proof.
  apply (sublis_replaces 5 al_heap (OCons 1) al_cells (OCons 6) (Node (Leaf (OFix 3)) (Leaf (OFix 9)))
    (λ y, if obj_eq y (OFix 3) then Some (Leaf (OFix 4)) else None));
    [exact al_lseg|simpl; lia|exact al_elems| |simpl; lia|].
  - do 3 eexists. by do 3 (split; [done|]).
  - simpl. intros y [->|[->|[->|Hy%elem_of_nil]%elem_of_cons]%elem_of_cons]%elem_of_cons.
    + by left.
    + right. by do 4 eexists.
    + by left.
    + done.
Defined.

(** ** The theorems on sequences at concrete heaps *)

(** Strings whose dimension is the length of their contents, but for the one at 22,
    which has room for five characters; no other vectors. *)
#[export] Instance vectors_t : Vectors := {|
  array_dim x := match x with
                 | OString 22 => mret 5
                 | _ => s ← read_string x; mret (Z.of_nat (length s))
                 end;
  vector_fillp x := raise Segfault;
  mkcl_aref_index x i := raise Segfault;
  mkcl_aset_index x i v := raise Segfault;
  copy_subvector x i l := raise Segfault;
  reverse_subvector x i j := raise Segfault;
|}.

(** A string at 20, a base string at 21 and an empty string at 22. *)
Definition seq_heap : heap := list_to_map
  [(1, CCons (OFix 10) (OCons 2)); (2, CCons (OFix 20) (OCons 3)); (3, CCons (OFix 30) ONil);
   (20, CStr [955; 98; 99; 100]); (21, CStr [97; 98]); (22, CStr [])].

Lemma seq_list_1 : lseg seq_heap (OCons 1) ex_proper ONil.
Proof. lseg_eval. Defined.
Lemma contents_1 : seq_contents seq_heap (OCons 1) [OFix 10; OFix 20; OFix 30].
Proof. exists ex_proper. split; [exact seq_list_1|done]. Qed.
Lemma contents_20 : seq_contents seq_heap (OString 20) (OChar <$> [955; 98; 99; 100]).
Proof. by exists [955; 98; 99; 100]. Qed.
Lemma contents_21 : seq_contents seq_heap (OBaseString 21) (OChar <$> [97; 98]).
Proof. exists [97; 98]. split_and!; [done..|]. repeat constructor; lia. Qed.

Lemma elt_set_elt_witness :
  ∃ h', mkcl_elt_set 3 (OBaseString 21) 1 (OChar 122) seq_heap = Done (OChar 122) h' ∧
    mkcl_elt 3 (OBaseString 21) 1 h' = Done (OChar 122) h' ∧ mkcl_elt 3 (OBaseString 21) 0 h' = Done (OChar 97) h' ∧
    h' !! 20 = seq_heap !! 20.
Proof.
  destruct (elt_set_elt 3 seq_heap (OBaseString 21) [21] (OChar <$> [97; 98]) 1 (OChar 122))
    as (h' & E & _ & Ho & Hj); [exact contents_21|done|simpl; lia|by exists 122|simpl; lia|].
  exists h'. rewrite E. split_and!; [done|rewrite Hj; reflexivity|rewrite Hj; reflexivity|].
  apply Ho. intros ?%list_elem_of_singleton. lia.
Defined.

Lemma length_counts_witness :
  mkcl_length 4 (OCons 1) seq_heap = Done 3 seq_heap ∧ mk_cl_length 4 (OCons 1) seq_heap = Done (OFix 3) seq_heap.
Proof.
  destruct (length_counts 4 seq_heap (OCons 1) [OFix 10; OFix 20; OFix 30]) as [E1 E2];
    [exact contents_1|simpl; lia|]. split; [exact E1|]. apply E2. by vm_compute.
Defined.

Lemma reverse_reverses_witness :
  ∃ r h', mk_cl_reverse 5 (OString 20) seq_heap = Done r h' ∧
    fresh_seq seq_heap h' r (Some mkcl_t_string) (OChar <$> [100; 99; 98; 955]).
Proof.
  destruct (reverse_reverses 5 seq_heap (OString 20) (OChar <$> [955; 98; 99; 100])) as (r & h' & E & Hr);
    [exact contents_20|simpl; unfold_words; lia|simpl; lia|]. exists r, h'. split; [exact E|exact Hr].
Defined.

Lemma nreverse_reverses_witness :
  ∃ r h', mk_cl_nreverse 5 (OString 20) seq_heap = Done r h' ∧
    seq_contents h' r (OChar <$> [100; 99; 98; 955]).
Proof.
  destruct (nreverse_reverses 5 seq_heap (OString 20) [20] (OChar <$> [955; 98; 99; 100])) as (r & h' & E & Hc & _);
    [exact contents_20|done|simpl; lia| |by exists r, h'].
  intros _. exists 4. split_and!; [done|simpl; lia|unfold_words; lia|by left].
Defined.

Lemma nreverse_empty_faults_witness : mk_cl_nreverse 1 (OString 22) seq_heap = Fail Segfault seq_heap.
Proof. apply (nreverse_empty_faults 0 22 5); [reflexivity|reflexivity|lia]. Defined.

Lemma subseq_cuts_witness :
  (∃ r h', mk_cl_subseq 5 (OString 20) (OFix 1) (OFix 3) seq_heap = Done r h' ∧
     fresh_seq seq_heap h' r (Some mkcl_t_string) (OChar <$> [98; 99])) ∧
  (∃ er h', mk_cl_subseq 5 (OCons 1) (OFix 2) (OFix 4) seq_heap = Fail er h' ∧ illegal (OFix 2) (OFix 4) er).
Proof.
  assert (Hfix : ∀ n, 0 ≤ n < 10 → is_fixnum n) by (intros; unfold_words; lia). split.
  - destruct (subseq_cuts 5 seq_heap (OString 20) (OChar <$> [955; 98; 99; 100]) 1 (OFix 3) 3) as (r & h' & E & Hr);
      [exact contents_20|apply Hfix; lia|right; split; [done|apply Hfix; lia]|simpl; lia|].
    exists r, h'. split; [exact E|exact Hr].
  - destruct (subseq_cuts 5 seq_heap (OCons 1) [OFix 10; OFix 20; OFix 30] 2 (OFix 4) 4) as (er & h' & E & Hi);
      [exact contents_1|apply Hfix; lia|right; split; [done|apply Hfix; lia]|simpl; lia|].
    exists er, h'. split; [exact E|apply Hi; lia].
Defined.

Lemma subseq_start_wraps_witness :
  ∃ r h', mk_cl_subseq 5 (OCons 1) (OBig 50 (2 ^ 63)) ONil seq_heap = Done r h' ∧
          fresh_lseg seq_heap h' r [OFix 10; OFix 20; OFix 30] ONil.
Proof.
  apply (subseq_start_wraps 5 seq_heap 1 ex_proper 50 (2 ^ 63)); [exact seq_list_1|simpl; lia|unfold_words; lia].
Defined.
