(* ===== verification/Utf.v ===== *)
(** * Utf: UTF-8 and UTF-16, src/src/c/string.c

    The two encodings, each with a decoder, an encoder and the size of a character, and
    the operations on objects that hold encoded text.  An object has a block of one
    element more than its dimension, for the zero that ends strings in C, and a fill
    pointer.  The C code has each operation twice; here a function is written once, for
    a [codec], where the two differ in their types only.

    A flag [invalid] that the C code passes by address is one more result; a function
    that only ever sets it gives whether it did.  [mkcl_type_error] is an error. *)

From S2P Require Import Prelude Words Objects Heap Numbers Segments Equal Lists Sequences.
#[local] Open Scope Z_scope.

(** ** Blocks of memory *)

Definition new_block (n : Z) : block := replicate (Z.to_nat n) None.

(** [b[i]] *)
Definition load (b : block) (i : Z) : M Z :=
  match b !! Z.to_nat i with
  | Some (Some c) => if i <? 0 then raise Segfault else mret c
  | _ => raise Segfault
  end.

(** [b[i] = ...], for the elements of [l] one after the other. *)
Definition store (b : block) (i : Z) (l : list Z) : M block :=
  if (0 <=? i) && (i + Z.of_nat (length l) <=? Z.of_nat (length b)) then
    mret (list_inserts (Z.to_nat i) (Some <$> l) b)
  else raise Segfault.

(** [memcpy(dst + i, src, n)], which may copy what was never written. *)
Definition copy_units (dst : block) (i : Z) (src : block) (n : Z) : M block :=
  if (0 <=? i) && (0 <=? n) && (i + n <=? Z.of_nat (length dst)) && (n <=? Z.of_nat (length src)) then
    mret (list_inserts (Z.to_nat i) (take (Z.to_nat n) src) dst)
  else raise Segfault.

(** [&b[i]], read only. *)
Definition from (b : block) (i : Z) : block := drop (Z.to_nat i) b.

(** ** UTF-8 *)

Definition replacement : Z := 0xFFFD.

Definition continuation (c : Z) : bool := Z.land c 0xC0 =? 0x80.

(** The first byte of a sequence of more than one: its bits, and the length. *)
Definition lead_byte (ch : Z) : option (Z * Z) :=
  if Z.land ch 0x20 =? 0 then Some (Z.land ch 0x1F, 2)
  else if Z.land ch 0x10 =? 0 then Some (Z.land ch 0x0F, 3)
  else if Z.land ch 0x08 =? 0 then Some (Z.land ch 0x07, 4)
  else None.

(** [for (ch = in[i++]; ((ch & 0xC0) == 0x80) && i < max; ch = in[i++]);] *)
Definition swallow (inp : block) (max i : Z) : M Z :=
  loop (S (Z.to_nat max)) (λ i,
    ch ← load inp i;
    let i := i + 1 in
    if continuation ch && (i <? max) then mret (inl i) else mret (inr i)) i.

(** The bytes after the first: the character, or how many bytes are invalid. *)
Definition tail_bytes (inp : block) (cum nbytes : Z) : M (Z + Z) :=
  if nbytes =? 2 then
    c ← load inp 1;
    if negb (continuation c) then mret (inr nbytes)
    else if cum =? 0 then mret (inr nbytes)
    else mret (inl (Z.lor (Z.shiftl cum 6) (Z.land c 0x3F)))
  else if nbytes =? 3 then
    c1 ← load inp 1;
    c2 ← load inp 2;
    if negb (continuation c1) then mret (inr (nbytes - 1))
    else if negb (continuation c2) then mret (inr nbytes)
    else if (cum =? 0) && (Z.land c1 0x20 =? 0) then mret (inr nbytes)
    else mret (inl (Z.lor (Z.lor (Z.shiftl cum 12) (Z.shiftl (Z.land c1 0x3F) 6)) (Z.land c2 0x3F)))
  else
    c1 ← load inp 1;
    c2 ← load inp 2;
    c3 ← load inp 3;
    if negb (continuation c1) then mret (inr (nbytes - 2))
    else if negb (continuation c2) then mret (inr (nbytes - 1))
    else if negb (continuation c3) then mret (inr nbytes)
    else if (cum =? 0) && (Z.land c1 0x30 =? 0) then mret (inr nbytes)
    else mret (inl (Z.lor (Z.lor (Z.lor (Z.shiftl cum 18) (Z.shiftl (Z.land c1 0x3F) 12))
                                  (Z.shiftl (Z.land c2 0x3F) 6)) (Z.land c3 0x3F))).

(** The number of bytes read, the character, and whether it is invalid. *)
Definition utf_8_decoder (inp : block) (max : Z) : M (Z * Z * bool) :=
  if max <=? 0 then mret (0, 0, false)
  else
    ch ← load inp 0;
    if Z.land ch 0x80 =? 0 then mret (1, ch, false)
    else if Z.land ch 0x40 =? 0 then mret (1, replacement, true)
    else
      match lead_byte ch with
      | None => mret (1, replacement, true)
      | Some (cum, nbytes) =>
          if max <? nbytes then
            i ← (if 1 <? max then swallow inp max 1 else mret 1);
            mret (i, replacement, true)
          else
            r ← tail_bytes inp cum nbytes;
            match r with
            | inr i => mret (i, replacement, true)
            | inl cum =>
                if cum =? 0 then mret (nbytes, replacement, true)
                else if (0xD800 <=? cum) && ((cum <=? 0xDFFF) || ((0xFFFE <=? cum) && (cum <=? 0xFFFF)))
                then mret (nbytes, replacement, true)
                else mret (nbytes, cum, false)
            end
      end.

(** The bytes that are stored, in order, and whether the character is invalid. *)
Definition utf_8_encoder (c : Z) : list Z * bool :=
  let tail c := Z.lor (Z.land c 0x3F) 0x80 in
  if c <=? 0x7F then ([c], false)
  else if c <=? 0x7FF then ([Z.lor (Z.shiftr c 6) 0xC0; tail c], false)
  else if (c <=? 0xD7FF) || ((0xDFFF <? c) && (c <? 0xFFFE)) then
    ([Z.lor (Z.shiftr c 12) 0xE0; tail (Z.shiftr c 6); tail c], false)
  else if c <=? 0xFFFF then ([0xEF; 0xBF; 0xBD], true)
  else if c <=? 0x10FFFF then
    ([Z.lor (Z.shiftr c 18) 0xF0; tail (Z.shiftr c 12); tail (Z.shiftr c 6); tail c], false)
  else ([0xEF; 0xBF; 0xBD], true).

Definition utf_8_size (c : Z) : Z :=
  if c <=? 0x7F then 1
  else if c <=? 0x7FF then 2
  else if c <=? 0xFFFF then 3
  else if c <=? 0x10FFFF then 4
  else 3.

(** ** UTF-16 *)

Definition utf_16_decoder (inp : block) (max : Z) : M (Z * Z * bool) :=
  if max <=? 0 then mret (0, 0, false)
  else
    ch ← load inp 0;
    if Z.land ch 0xFC00 =? 0xD800 then
      if max <? 2 then mret (1, replacement, true)
      else
        aux ← load inp 1;
        if Z.land aux 0xFC00 =? 0xDC00 then
          mret (2, Z.shiftl (Z.land ch 0x3FF) 10 + Z.land aux 0x3FF + 0x10000, false)
        else mret (2, replacement, true)
    else mret (1, ch, false).

Definition utf_16_encoder (c : Z) : list Z * bool :=
  if c <=? 0xFFFF then ([c], false)
  else if c <=? 0x10FFFF then
    let c := c - 0x10000 in
    ([Z.lor (Z.land (Z.shiftr c 10) 0x3FF) 0xD800; Z.lor (Z.land c 0x3FF) 0xDC00], false)
  else ([replacement], true).

Definition utf_16_size (c : Z) : Z :=
  if c <=? 0xFFFF then 1
  else if c <=? 0x10FFFF then 2
  else 1.

(** ** Encodings *)

Record codec := Codec {
  decoder : block → Z → M (Z * Z * bool);
  encoder : Z → list Z * bool;
  char_size : Z → Z;
  max_per_character : Z;           (* the most elements for a character *)
  utf_type : mkcl_type;
}.

Definition utf_8 : codec := Codec utf_8_decoder utf_8_encoder utf_8_size 4 mkcl_t_UTF_8.
Definition utf_16 : codec := Codec utf_16_decoder utf_16_encoder utf_16_size 2 mkcl_t_UTF_16.

Definition read_utf (K : codec) (x : obj) : M utf := λ h,
  match x with
  | OObj t a =>
      if decide (t = utf_type K) then
        match h !! a with Some (CUtf u) => Done u h | _ => Fail Segfault h end
      else Fail (FEwrong_type_argument x) h
  | _ => Fail (FEwrong_type_argument x) h
  end.

Definition write_utf (x : obj) (u : utf) : M unit :=
  match x with OObj _ a => write_cell a (CUtf u) | _ => raise Segfault end.

Definition new_utf (K : codec) (u : utf) : M obj := a ← alloc (CUtf u); mret (OObj (utf_type K) a).

Definition is_utf (K : codec) (x : obj) : bool := bool_decide (mkcl_type_of x = utf_type K).

(** The block of [mkcl_alloc_utf_8], src/src/c/alloc_2.c. *)
Definition alloc_utf_self (length : Z) : M block :=
  self ← store (new_block (length + 1)) 0 [0]; store self length [0].

(** ** From strings *)

(** [for (...; i < str_len && fits(j, str[i]); i++) j += encoder(self + j, str[i], &invalid);]
    The block, [j], the characters that remain, and whether one was invalid. *)
Fixpoint encode_while (K : codec) (fits : Z → Z → bool) (self : block) (j : Z) (str : list Z)
    : M (block * Z * list Z * bool) :=
  match str with
  | [] => mret (self, j, [], false)
  | c :: str' =>
      if fits j c then
        let '(units, bad) := encoder K c in
        self ← store self j units;
        '(self, j, rest, bad') ← encode_while K fits self (j + Z.of_nat (length units)) str';
        mret (self, j, rest, bad || bad')
      else mret (self, j, str, false)
  end.

Definition encode_all (K : codec) (self : block) (j : Z) (str : list Z) : M (block * Z * bool) :=
  '(self, j, _, bad) ← encode_while K (λ _ _, true) self j str; mret (self, j, bad).

(** [for (; i < str_len; i++) dim += size(str[i]);] *)
Fixpoint add_sizes (K : codec) (dim : Z) (str : list Z) : Z :=
  match str with [] => dim | c :: str' => add_sizes K (dim + char_size K c) str' end.

(** [mkcl_fill_utf_8_from_string], and the like for the other encoding and for base
    strings, with the most elements for a character that can be in the string. *)
Definition fill_utf (K : codec) (most : Z) (x : obj) (prefix_size : Z) (str : list Z) : M unit :=
  u ← read_utf K x;
  '(self, j, str, _) ← encode_while K (λ j _, j + most <? utf_dim u) (utf_self u) prefix_size str;
  '(self, j, str, _) ← encode_while K (λ j c, j + char_size K c <? utf_dim u) self j str;
  match str with
  | [] => self ← store self j [0]; write_utf x (Utf j (utf_dim u) self)
  | _ =>
      let dim := add_sizes K j str in
      new ← copy_units (new_block (dim + 1)) 0 self j;
      '(new, j, _) ← encode_all K new j str;
      new ← store new j [0];
      write_utf x (Utf dim dim new)
  end.

Definition mkcl_fill_utf_8_from_string (x : obj) (prefix_size : Z) (str : obj) : M unit :=
  s ← read_string str; fill_utf utf_8 4 x prefix_size s.

Definition mkcl_fill_utf_8_from_base_string (x : obj) (prefix_size : Z) (str : obj) : M unit :=
  s ← read_string str; fill_utf utf_8 2 x prefix_size s.

Definition mkcl_fill_utf_16_from_string (x : obj) (prefix_size : Z) (str : obj) : M unit :=
  s ← read_string str; fill_utf utf_16 2 x prefix_size s.

(** The fill pointer does not count the prefix. *)
Definition mkcl_fill_utf_16_from_base_string (x : obj) (prefix_size : Z) (str : obj) : M unit :=
  s ← read_string str;
  u ← read_utf utf_16 x;
  let len := Z.of_nat (length s) in
  '(dim, self) ← (if utf_dim u <? len + prefix_size then
      let dim := len + prefix_size in
      self ← copy_units (new_block (dim + 1)) 0 (utf_self u) prefix_size; mret (dim, self)
    else mret (utf_dim u, utf_self u));
  self ← store self prefix_size s;
  self ← store self (prefix_size + len) [0];
  write_utf x (Utf len dim self).

(** A new object with the encoded characters, and whether one was invalid. *)
Definition encode_string (K : codec) (str : list Z) : M (obj * bool) :=
  let dim := add_sizes K 0 str in
  '(self, j, invalid) ← encode_all K (new_block (dim + 1)) 0 str;
  self ← store self j [0];
  x ← new_utf K (Utf dim dim self);
  mret (x, invalid).

(** ** To strings *)

(** [for (i = 0; i < dim; fillp++) i += decoder(&self[i], dim - i, &data[fillp], &invalid);] *)
Definition decode_all (K : codec) (fuel : nat) (u : utf) : M (list Z * bool) :=
  let dim := utf_fillp u in
  loop fuel (λ '(i, data, invalid),
    if i <? dim then
      '(size, ch, bad) ← decoder K (from (utf_self u) i) (dim - i);
      mret (inl (i + size, data ++ [ch], invalid || bad))
    else mret (inr (data, invalid))) (0, [], false).

(** The string, and whether something was invalid. *)
Definition mkcl_utf_to_string (K : codec) (fuel : nat) (x : obj) : M (obj * bool) :=
  u ← read_utf K x;
  '(data, invalid) ← decode_all K fuel u;
  a ← alloc (CStr data);
  mret (OString a, invalid).

Definition mkcl_utf_8_to_string := mkcl_utf_to_string utf_8.
Definition mkcl_utf_16_to_string := mkcl_utf_to_string utf_16.

(** What a base string holds in place of a character. *)
Definition to_base_char (ch : Z) : Z := if 0x100 <=? ch then 0xBF else ch.

Definition mkcl_utf_to_base_string (K : codec) (fuel : nat) (x : obj) : M (obj * bool) :=
  u ← read_utf K x;
  '(data, invalid) ← decode_all K fuel u;
  a ← alloc (CStr (to_base_char <$> data));
  mret (OBaseString a, invalid || existsb (λ ch, 0x100 <=? ch) data).

Definition mkcl_utf_8_to_base_string := mkcl_utf_to_base_string utf_8.
Definition mkcl_utf_16_to_base_string := mkcl_utf_to_base_string utf_16.

(** ** Single characters *)

(** The character, the index of the next one, and the flag. *)
Definition mkcl_utf_8_char (u : utf) (index : Z) (invalid : bool) : M (Z * Z * bool) :=
  '(size, ch, bad) ← utf_8_decoder (from (utf_self u) index) (uwrap (utf_fillp u - index));
  mret (ch, index + size, invalid || bad).

(** Here the flag tells whether the size is zero, and what the decoder said is lost. *)
Definition mkcl_utf_16_char (u : utf) (index : Z) (invalid : bool) : M (Z * Z * bool) :=
  '(size, ch, bad) ← utf_16_decoder (from (utf_self u) index) (uwrap (utf_fillp u - index));
  if 0 <? size then mret (ch, index + size, false) else mret (ch, index - size, true).

Definition index_below (index_fix : obj) (dim : Z) : M Z :=
  match index_fix with
  | OFix n => if uwrap n <? dim then mret (uwrap n) else raise (FEout_of_bounds index_fix dim)
  | _ => raise (FEout_of_bounds index_fix dim)
  end.

(** The character, the next index or NIL, and whether it is invalid. *)
Definition mk_si_utf_8_char (x index_fix : obj) : M (obj * obj * bool) :=
  u ← read_utf utf_8 x;
  index ← index_below index_fix (utf_fillp u);
  '(ch, next, invalid) ← mkcl_utf_8_char u index false;
  mret (MKCL_CODE_CHAR ch, if next <? utf_fillp u then MKCL_MAKE_FIXNUM next else ONil, invalid).

Definition mk_si_utf_16_char (x index_fix : obj) : M (obj * obj * bool) :=
  u ← read_utf utf_16 x;
  index ← index_below index_fix (utf_dim u);
  '(ch, next, invalid) ← mkcl_utf_16_char u index false;
  mret (MKCL_CODE_CHAR ch, MKCL_MAKE_FIXNUM next, invalid).

(** The last character: C goes back over at most [back] elements as long as the flag
    is set. *)
Fixpoint last_char (char_at : Z → bool → M (Z * Z * bool)) (back : nat) (last : Z) (invalid : bool)
    : M (Z * bool) :=
  '(ch, _, invalid) ← char_at last invalid;
  match back with
  | O => mret (ch, invalid)
  | S n => if (invalid : bool) && (0 <? last) then last_char char_at n (last - 1) invalid
           else mret (ch, invalid)
  end.

Definition mkcl_utf_8_last (u : utf) : M (Z * bool) :=
  if utf_fillp u =? 0 then mret (0, false)
  else last_char (mkcl_utf_8_char u) 3 (utf_fillp u - 1) false.

Definition mkcl_utf_16_last (u : utf) : M (Z * bool) :=
  if utf_fillp u =? 0 then mret (0, false)
  else last_char (mkcl_utf_16_char u) 1 (utf_fillp u - 1) false.

Definition mk_si_utf_8_last (x : obj) : M (obj * bool) :=
  u ← read_utf utf_8 x; '(ch, invalid) ← mkcl_utf_8_last u; mret (MKCL_CODE_CHAR ch, invalid).

Definition mk_si_utf_16_last (x : obj) : M (obj * bool) :=
  u ← read_utf utf_16 x; '(ch, invalid) ← mkcl_utf_16_last u; mret (MKCL_CODE_CHAR ch, invalid).
