(* ===== verification/UtfText.v ===== *)
(** * UtfText: the Lisp functions on UTF-8 and UTF-16 objects, src/src/c/string.c

    Making them of strings, of octets and of each other, comparison, concatenation, and
    the functions that write at their end.  [fuel] is for the loops that decode. *)

From S2P Require Import Prelude Words Objects Heap Numbers Segments Equal Lists Sequences Utf.
#[local] Open Scope Z_scope.

Definition read_octets (width : Z) (x : obj) : M (option (Z * block)) := λ h,
  match x with
  | OObj mkcl_t_vector a =>
      match h !! a with
      | Some (COctets w n b) => Done (if w =? width then Some (n, b) else None) h
      | Some _ => Done None h
      | None => Fail Segfault h
      end
  | _ => Done None h
  end.

(** [mkcl_alloc_octets] *)
Definition mkcl_alloc_octets (width length : Z) (self : block) : M obj :=
  a ← alloc (COctets width length self); mret (OObj mkcl_t_vector a).

Definition mk_mkcl_octets (x : obj) : M obj :=
  u ← read_utf utf_8 x;
  self ← copy_units (new_block (utf_fillp u)) 0 (utf_self u) (utf_fillp u);
  mkcl_alloc_octets 8 (utf_fillp u) self.

Definition mk_mkcl_double_octets (x : obj) : M obj :=
  u ← read_utf utf_16 x;
  self ← copy_units (new_block (utf_fillp u)) 0 (utf_self u) (utf_fillp u);
  mkcl_alloc_octets 16 (utf_fillp u) self.

Section with_fuel.
Context (fuel : nat).

(** ** From the other encoding

    [char_at] reads a character of the source; its flag goes from one call to the next. *)
Section convert.
Context (K : codec) (char_at : Z → bool → M (Z * Z * bool)) (len : Z).

(** [for (i = 0; i < str_len; nb_char++) dim += size(char_at(i, &i, &invalid));] *)
Definition converted_size (invalid : bool) : M (Z * bool) :=
  loop fuel (λ '(i, dim, invalid),
    if i <? len then
      '(ch, next, invalid) ← char_at i invalid;
      mret (inl (next, dim + char_size K ch, invalid))
    else mret (inr (dim, invalid))) (0, 0, invalid).

(** [for (i = 0, j = 0; i < str_len; i++) j += encoder(self + j, char_at(i, &i, ...), ...);]
    The index moves to the next character, and then by one more. *)
Definition convert_all (self : block) (invalid : bool) : M (block * Z * bool * bool) :=
  loop fuel (λ '(i, self, j, invalid, bad),
    if i <? len then
      '(ch, next, invalid) ← char_at i invalid;
      let '(units, bad') := encoder K ch in
      self ← store self j units;
      mret (inl (next + 1, self, j + Z.of_nat (length units), invalid, bad || bad'))
    else mret (inr (self, j, invalid, bad))) (0, self, 0, invalid, false).

Definition convert : M (obj * bool) :=
  '(dim, invalid) ← converted_size false;
  '(self, j, invalid, bad) ← convert_all (new_block (dim + 1)) invalid;
  self ← store self j [0];
  x ← new_utf K (Utf dim dim self);
  mret (x, bad || invalid).
End convert.

Definition mk_si_utf_8 (x : obj) : M (obj * bool) :=
  match x with
  | OString _ | OBaseString _ => s ← read_string x; encode_string utf_8 s
  | OObj mkcl_t_UTF_16 _ =>
      u ← read_utf utf_16 x; convert utf_8 (mkcl_utf_16_char u) (utf_fillp u)
  | OObj mkcl_t_UTF_8 _ => mret (x, false)
  | OObj mkcl_t_vector _ =>
      r ← read_octets 8 x;
      match r with
      | Some (len, str) =>
          self ← copy_units (new_block (len + 1)) 0 str len;
          x ← new_utf utf_8 (Utf len len self);
          mret (x, false)
      | None => raise (FEtype_error_string x)
      end
  | _ => raise (FEtype_error_string x)
  end.

Definition mk_si_utf_16 (x : obj) : M (obj * bool) :=
  match x with
  | OString _ => s ← read_string x; encode_string utf_16 s
  | OBaseString _ =>
      s ← read_string x;
      let dim := Z.of_nat (length s) in
      self ← store (new_block (dim + 1)) 0 s;
      self ← store self dim [0];
      x ← new_utf utf_16 (Utf dim dim self);
      mret (x, false)
  | OObj mkcl_t_UTF_8 _ =>
      u ← read_utf utf_8 x; convert utf_16 (mkcl_utf_8_char u) (utf_fillp u)
  | OObj mkcl_t_UTF_16 _ => mret (x, false)
  | OObj mkcl_t_vector _ =>
      r ← read_octets 16 x;
      match r with
      | Some (len, str) =>
          self ← copy_units (new_block (len + 1)) 0 str len;
          self ← store self len [0];
          x ← new_utf utf_16 (Utf len len self);
          mret (x, false)
      | None => raise (FEtype_error_string x)
      end
  | _ => raise (FEtype_error_string x)
  end.

(** ** Predicates and comparison *)

Definition mk_si_utf_8_p (x : obj) : bool := is_utf utf_8 x.
Definition mk_si_utf_16_p (x : obj) : bool := is_utf utf_16 x.

Definition mk_si_utf_8_length (x : obj) : M obj :=
  u ← read_utf utf_8 x; mret (MKCL_MAKE_FIXNUM (utf_fillp u)).
Definition mk_si_utf_16_length (x : obj) : M obj :=
  u ← read_utf utf_16 x; mret (MKCL_MAKE_FIXNUM (utf_fillp u)).

(** [memcmp(s1, s2, n) == 0], or the loop that compares; [i] counts up. *)
Fixpoint same_units (s1 s2 : block) (n : nat) (i : Z) : M bool :=
  match n with
  | O => mret true
  | S n =>
      c1 ← load s1 i; c2 ← load s2 i;
      if c1 =? c2 then same_units s1 s2 n (i + 1) else mret false
  end.

Definition utf_equal (K : codec) (x y : obj) : M bool :=
  u ← read_utf K x; v ← read_utf K y;
  if negb (utf_fillp u =? utf_fillp v) then mret false
  else same_units (utf_self u) (utf_self v) (Z.to_nat (utf_fillp u)) 0.

Definition mk_si_utf_8E := utf_equal utf_8.
Definition mk_si_utf_16E := utf_equal utf_16.

(** ** Characters as they are *)

(** A byte holds a character modulo 256; the comparison is with the byte. *)
Definition utf_8_as_is_byte (c : Z) : Z := let b := c mod 256 in if 0x7F <? b then 0x3F else b.

Definition mk_si_utf_8_as_is (x : obj) : M obj :=
  match x with
  | OString _ | OBaseString _ =>
      s ← read_string x;
      let len := Z.of_nat (length s) in
      self ← alloc_utf_self len;
      self ← store self 0 (utf_8_as_is_byte <$> s);
      self ← store self len [0];
      new_utf utf_8 (Utf len len self)
  | _ => raise (FEtype_error_string x)
  end.

Definition utf_16_as_is_unit (ch : Z) : Z :=
  let unit := ch mod 65536 in
  if (0xD800 <? unit) && ((ch <=? 0xDFFF) || (0xFFFF <? ch)) then replacement else unit.

Definition mk_si_utf_16_as_is (x : obj) : M obj :=
  match x with
  | OString _ =>
      s ← read_string x;
      let len := Z.of_nat (length s) in
      self ← alloc_utf_self len;
      self ← store self 0 (utf_16_as_is_unit <$> s);
      new_utf utf_16 (Utf len len self)
  | OBaseString _ =>
      s ← read_string x;
      let len := Z.of_nat (length s) in
      self ← alloc_utf_self len;
      self ← store self 0 s;
      new_utf utf_16 (Utf len len self)
  | _ => raise (FEtype_error_string x)
  end.

(** ** Concatenation *)

(** The objects on the temporary stack, the last one first, and their length. *)
Fixpoint push_args (K : codec) (coerce : obj → M (obj * bool)) (args : list obj) (stack : list obj) (len : Z)
    : M (list obj * Z) :=
  match args with
  | [] => mret (stack, len)
  | arg :: args =>
      s ← (if is_utf K arg then mret arg else r ← coerce arg; mret r.1);
      u ← read_utf K s;
      if utf_fillp u =? 0 then push_args K coerce args stack len
      else push_args K coerce args (s :: stack) (len + utf_fillp u)
  end.

(** [while (len > 0)], popping the stack. *)
Fixpoint pop_args (K : codec) (self : block) (stack : list obj) (len : Z) : M block :=
  if len <=? 0 then mret self
  else
    match stack with
    | [] => raise Segfault
    | s :: stack =>
        u ← read_utf K s;
        let len := len - utf_fillp u in
        self ← copy_units self len (utf_self u) (utf_fillp u);
        pop_args K self stack len
    end.

Definition utf_plus (K : codec) (coerce : obj → M (obj * bool)) (args : list obj) : M obj :=
  match args with
  | [s] =>
      if is_utf K s then
        u ← read_utf K s;
        let dim := utf_fillp u in
        self ← alloc_utf_self dim;
        self ← copy_units self 0 (utf_self u) dim;
        self ← store self dim [0];
        new_utf K (Utf dim dim self)
      else r ← coerce s; mret r.1
  | _ =>
      '(stack, len) ← push_args K coerce args [] 0;
      self ← alloc_utf_self len;
      self ← pop_args K self stack len;
      new_utf K (Utf len len self)
  end.

Definition mk_si_utf_8Plus := utf_plus utf_8 mk_si_utf_8.
Definition mk_si_utf_16Plus := utf_plus utf_16 mk_si_utf_16.
End with_fuel.

(** ** Growth *)

Definition MKCL_ADIMLIM : Z := MKCL_MOST_POSITIVE_FIXNUM.

(** [mkcl_extend_utf_8]: a block half as long again, and room for a character. *)
Definition mkcl_extend_utf (K : codec) (x : obj) : M unit :=
  u ← read_utf K x;
  if MKCL_ADIMLIM <=? utf_dim u then raise (FEerror "Can't extend the UTF string." [])
  else
    let new_dim := 4 + utf_dim u + utf_dim u / 2 in
    let new_dim := if MKCL_ADIMLIM <? new_dim then MKCL_ADIMLIM + 3 else new_dim in
    self ← copy_units (new_block (new_dim + 1)) 0 (utf_self u) (utf_fillp u);
    self ← store self (utf_fillp u) [0];
    write_utf x (Utf (utf_fillp u) new_dim self).

Definition mkcl_extend_utf_8 := mkcl_extend_utf utf_8.
Definition mkcl_extend_utf_16 := mkcl_extend_utf utf_16.

(** The old fill pointer, and whether the character is invalid. *)
Definition utf_push_extend (K : codec) (x : obj) (ch : Z) : M (Z * bool) :=
  u ← read_utf K x;
  let fillp := utf_fillp u in
  let new_fillp := fillp + char_size K ch in
  when (utf_dim u <? new_fillp) (mkcl_extend_utf K x);;
  u ← read_utf K x;
  let '(units, invalid) := encoder K ch in
  self ← store (utf_self u) fillp units;
  self ← store self new_fillp [0];
  write_utf x (Utf new_fillp (utf_dim u) self);;
  mret (fillp, invalid).

Definition mkcl_utf_8_push_extend := utf_push_extend utf_8.
Definition mkcl_utf_16_push_extend := utf_push_extend utf_16.

Definition si_utf_push_extend (K : codec) (x ch : obj) : M obj :=
  if negb (is_utf K x) then raise (FEwrong_type_argument x)
  else
    match ch with
    | OChar c => r ← utf_push_extend K x c; mret (MKCL_MAKE_FIXNUM r.1)
    | _ => raise (FEtype_error_character ch)
    end.

Definition mk_si_utf_8_push_extend := si_utf_push_extend utf_8.
Definition mk_si_utf_16_push_extend := si_utf_push_extend utf_16.

(** [while (n > base->dim) extend(base);] *)
Definition extend_while (K : codec) (fuel : nat) (base : obj) (n : Z) : M unit :=
  loop fuel (λ _ : unit,
    u ← read_utf K base;
    if utf_dim u <? n then mkcl_extend_utf K base;; mret (inl tt) else mret (inr tt)) tt.

(** [base] and [new] can be the same object. *)
Definition utf_nconc (K : codec) (fuel : nat) (base new : obj) : M obj :=
  n ← read_utf K new;
  b ← read_utf K base;
  let new_fillp := utf_fillp n in
  let new_base_fillp := utf_fillp b + new_fillp in
  if new_fillp =? 0 then mret base
  else
    extend_while K fuel base new_base_fillp;;
    n' ← read_utf K new;
    u ← read_utf K base;
    self ← copy_units (utf_self u) (utf_fillp b) (utf_self n') new_fillp;
    self ← store self new_base_fillp [0];
    write_utf base (Utf new_base_fillp (utf_dim u) self);;
    mret base.

Definition mkcl_utf_8_nconc := utf_nconc utf_8.
Definition mkcl_utf_16_nconc := utf_nconc utf_16.

(** ** C strings: their bytes up to the final zero; [None] is the null pointer *)

Definition mkcl_cstring_copy_to_utf_8 (str : option (list Z)) : M obj :=
  let s := default [] str in
  let len := Z.of_nat (length s) in
  self ← store (new_block (len + 1)) 0 s;
  self ← store self len [0];
  new_utf utf_8 (Utf len len self).

Definition mkcl_cstring16_copy_to_utf_16 (str : option (list Z)) : M obj :=
  let s := default [] str in
  let len := Z.of_nat (length s) in
  self ← store (new_block (len + 1)) 0 s;
  self ← store self len [0];
  new_utf utf_16 (Utf len len self).
