(* ===== verification/UtfSpecs.v ===== *)
(** * UtfSpecs: what the encodings promise

    Blocks as the contents written from their start, the facts on bytes, and the
    interface [CodecSpec] that the theorems on objects rest on: characters are
    written in the size that is computed for them, and read back. *)

From S2P Require Import Prelude Words Objects Heap Numbers Segments Equal Lists Sequences Utf.
#[local] Open Scope Z_scope.

(** ** Blocks *)

(** The elements of [l], written. *)
Abbreviation written l := (Some <$> (l : list Z)).

Lemma length_new_block n : length (new_block n) = Z.to_nat n.
Proof. apply length_replicate. Qed.

Lemma list_inserts_app {A} (l k r : list A) :
  (length k ≤ length r)%nat → list_inserts (length l) k (l ++ r) = l ++ k ++ drop (length k) r.
Proof.
  intros Hk. replace (length l) with (length l + 0)%nat by lia.
  rewrite list_inserts_app_r. f_equal. rewrite <- (take_drop (length k) r) at 1.
  apply list_inserts_0_r. rewrite length_take. lia.
Qed.

Lemma store_app (l : block) k r h :
  (length k ≤ length r)%nat →
  store (l ++ r) (Z.of_nat (length l)) k h = Done (l ++ written k ++ drop (length k) r) h.
Proof.
  intros Hk. unfold store. rewrite length_app, (proj2 (Z.leb_le _ _)) by lia.
  rewrite (proj2 (Z.leb_le _ _)) by lia. cbn [andb]. unfold mret, M_ret.
  rewrite Nat2Z.id, list_inserts_app by (by rewrite length_fmap). by rewrite length_fmap.
Qed.

Lemma store_written l k r h :
  (length k ≤ length r)%nat →
  store (written l ++ r) (Z.of_nat (length l)) k h = Done (written (l ++ k) ++ drop (length k) r) h.
Proof.
  intros Hk. rewrite fmap_app, <- app_assoc, <- (store_app (written l)) by done.
  by rewrite length_fmap.
Qed.

Lemma copy_units_app (l r s t : block) h :
  (length s ≤ length r)%nat →
  copy_units (l ++ r) (Z.of_nat (length l)) (s ++ t) (Z.of_nat (length s)) h =
  Done (l ++ s ++ drop (length s) r) h.
Proof.
  intros Hk. unfold copy_units. rewrite !length_app, !(proj2 (Z.leb_le _ _)) by lia.
  cbn [andb]. unfold mret, M_ret.
  by rewrite !Nat2Z.id, take_app_length, list_inserts_app.
Qed.

Lemma copy_written l r k t h :
  (length k ≤ length r)%nat →
  copy_units (written l ++ r) (Z.of_nat (length l)) (written k ++ t) (Z.of_nat (length k)) h =
  Done (written (l ++ k) ++ drop (length k) r) h.
Proof.
  intros Hk. pose proof (copy_units_app (written l) r (written k) t h) as E.
  rewrite !length_fmap in E. by rewrite E, fmap_app, <- app_assoc.
Qed.

(** The first elements copied to a new block. *)
Lemma copy_fresh p r n h :
  (length p ≤ n)%nat →
  copy_units (new_block (Z.of_nat n)) 0 (written p ++ r) (Z.of_nat (length p)) h =
  Done (written p ++ replicate (n - length p) None) h.
Proof.
  intros Hn. pose proof (copy_units_app [] (new_block (Z.of_nat n)) (written p) r h) as E.
  cbn [length app] in E. change (Z.of_nat 0) with 0 in E.
  rewrite length_fmap, length_new_block in E. rewrite E by lia.
  unfold new_block. rewrite drop_replicate. do 3 f_equal. lia.
Qed.

Lemma load_written l r i c h :
  0 ≤ i → l !! Z.to_nat i = Some c → load (written l ++ r) i h = Done c h.
Proof.
  intros Hi Hc. unfold load. rewrite lookup_app_l by (rewrite length_fmap; by eapply lookup_lt_Some).
  rewrite list_lookup_fmap, Hc. cbn. by rewrite (proj2 (Z.ltb_ge _ _)).
Qed.

(** ** Facts on bytes, by evaluation on each value *)

Lemma below_all (P : Z → bool) n :
  forallb P (seqZ 0 n) = true → ∀ x, 0 ≤ x < n → P x = true.
Proof.
  rewrite forallb_forall. intros H x Hx. apply H, list_elem_of_In, elem_of_seqZ. lia.
Qed.

Lemma trail_byte x : Z.lor (Z.land x 0x3F) 0x80 = x mod 64 + 128.
Proof.
  change 0x3F with (Z.ones 6). rewrite Z.land_ones by lia. change (2 ^ 6) with 64.
  apply Z.eqb_eq, (below_all (λ y, Z.lor y 0x80 =? y + 128) 64); [done|].
  apply Z.mod_pos_bound. lia.
Qed.

Lemma trail_facts x : 0 ≤ x < 64 → continuation (x + 128) = true ∧ Z.land (x + 128) 0x3F = x.
Proof.
  intros Hx. cut (continuation (x + 128) && (Z.land (x + 128) 0x3F =? x) = true).
  { by intros [? ?%Z.eqb_eq]%andb_prop. }
  by apply (below_all (λ x, continuation (x + 128) && (Z.land (x + 128) 0x3F =? x)) 64).
Qed.

(** A first byte: its marks, and the bits of the character that it holds. *)
Definition lead_ok (bits size mark x : Z) : bool :=
  (Z.lor x mark =? x + mark) && negb (Z.land (x + mark) 0x80 =? 0) && negb (Z.land (x + mark) 0x40 =? 0)
  && bool_decide (lead_byte (x + mark) = Some (x, size)).

Lemma lead_facts bits size mark x :
  (bits, size, mark) ∈ [(32, 2, 0xC0); (16, 3, 0xE0); (8, 4, 0xF0)] → 0 ≤ x < bits →
  Z.lor x mark = x + mark ∧ (Z.land (x + mark) 0x80 =? 0) = false ∧
  (Z.land (x + mark) 0x40 =? 0) = false ∧ lead_byte (x + mark) = Some (x, size).
Proof.
  intros Hin Hx. cut (lead_ok bits size mark x = true).
  { unfold lead_ok. rewrite !andb_true_iff, Z.eqb_eq, !negb_true_iff, bool_decide_eq_true. tauto. }
  revert x Hx. apply below_all. revert Hin. rewrite !elem_of_cons, elem_of_nil.
  intros [[= -> -> ->]|[[= -> -> ->]|[[= -> -> ->]|[]]]]; by vm_compute.
Qed.

(** Bits side by side. *)
Lemma land_shifted a b n : 0 ≤ n → 0 ≤ b < 2 ^ n → Z.land (Z.shiftl a n) b = 0.
Proof.
  intros Hn Hb. apply Z.bits_inj'. intros i Hi. rewrite Z.land_spec, Z.bits_0.
  destruct (Z.lt_ge_cases i n).
  - by rewrite Z.shiftl_spec_low.
  - rewrite <- (Z.mod_small b (2 ^ n)), Z.mod_pow2_bits_high by lia. apply andb_false_r.
Qed.

Lemma lor_shifted a b n : 0 ≤ n → 0 ≤ b < 2 ^ n → Z.lor (Z.shiftl a n) b = a * 2 ^ n + b.
Proof.
  intros Hn Hb. pose proof (land_shifted a b n Hn Hb) as H0.
  rewrite <- (Z.lxor_lor _ _ H0), <- (Z.add_nocarry_lxor _ _ H0). by rewrite Z.shiftl_mul_pow2.
Qed.

(** ** UTF-8 characters *)

(** The digits of a character to the base 64. *)
Definition digits (c : Z) : Z * Z * Z * Z := (c / 2 ^ 18, c / 2 ^ 12 mod 64, c / 2 ^ 6 mod 64, c mod 64).

Lemma join_two a b : 0 ≤ b < 64 → Z.lor (Z.shiftl a 6) b = a * 64 + b.
Proof. intros. by rewrite (lor_shifted a b 6). Qed.

Lemma join_three a b c :
  0 ≤ b < 64 → 0 ≤ c < 64 →
  Z.lor (Z.lor (Z.shiftl a 12) (Z.shiftl b 6)) c = a * 4096 + b * 64 + c.
Proof.
  intros. replace (Z.shiftl a 12) with (Z.shiftl (Z.shiftl a 6) 6) by (by rewrite Z.shiftl_shiftl).
  rewrite <- Z.shiftl_lor, join_two, join_two by done. lia.
Qed.

Lemma join_four a b c d :
  0 ≤ b < 64 → 0 ≤ c < 64 → 0 ≤ d < 64 →
  Z.lor (Z.lor (Z.lor (Z.shiftl a 18) (Z.shiftl b 12)) (Z.shiftl c 6)) d
  = a * 262144 + b * 4096 + c * 64 + d.
Proof.
  intros. replace (Z.shiftl a 18) with (Z.shiftl (Z.shiftl a 12) 6) by (by rewrite Z.shiftl_shiftl).
  replace (Z.shiftl b 12) with (Z.shiftl (Z.shiftl b 6) 6) by (by rewrite Z.shiftl_shiftl).
  rewrite <- !Z.shiftl_lor, join_two, join_three by done. lia.
Qed.

(** The characters that are encoded as they are. *)
Definition utf_8_valid (c : Z) : Prop :=
  0 ≤ c ≤ 0x10FFFF ∧ ¬ (0xD800 ≤ c ≤ 0xDFFF) ∧ c ≠ 0xFFFE ∧ c ≠ 0xFFFF.

(** The encoding in arithmetic. *)
Lemma utf_8_encoder_eq c :
  0 ≤ c →
  utf_8_encoder c =
    if c <=? 0x7F then ([c], false)
    else if c <=? 0x7FF then ([c / 64 + 0xC0; c mod 64 + 128], false)
    else if (c <=? 0xD7FF) || ((0xDFFF <? c) && (c <? 0xFFFE)) then
      ([c / 4096 + 0xE0; c / 64 mod 64 + 128; c mod 64 + 128], false)
    else if c <=? 0xFFFF then ([0xEF; 0xBF; 0xBD], true)
    else if c <=? 0x10FFFF then
      ([c / 262144 + 0xF0; c / 4096 mod 64 + 128; c / 64 mod 64 + 128; c mod 64 + 128], false)
    else ([0xEF; 0xBF; 0xBD], true).
Proof.
  intros Hc. unfold utf_8_encoder. cbv zeta. rewrite !trail_byte, !Z.shiftr_div_pow2 by lia.
  repeat match goal with
  | |- context [if ?b then _ else _] => destruct b eqn:?
  end; try done;
    rewrite ?orb_true_iff, ?andb_true_iff, ?Z.leb_le, ?Z.leb_gt, ?Z.ltb_lt in *; do 2 f_equal;
    [apply (lead_facts 32 2 0xC0)|apply (lead_facts 16 3 0xE0)|apply (lead_facts 8 4 0xF0)];
    try set_solver; (split; [apply Z.div_pos|apply Z.div_lt_upper_bound]); lia.
Qed.

(** The part of the decoder after the bits are put together. *)
Definition checked (nbytes cum : Z) : Z * Z * bool :=
  if cum =? 0 then (nbytes, replacement, true)
  else if (0xD800 <=? cum) && ((cum <=? 0xDFFF) || ((0xFFFE <=? cum) && (cum <=? 0xFFFF)))
  then (nbytes, replacement, true)
  else (nbytes, cum, false).

Lemma checked_valid nbytes c : utf_8_valid c → 0 < c → checked nbytes c = (nbytes, c, false).
Proof.
  unfold utf_8_valid. intros (Hr & Hs & H1 & H2) H0. unfold checked.
  rewrite (proj2 (Z.eqb_neq _ _)) by lia.
  destruct (Z.leb_spec 0xD800 c); [|done]. rewrite (proj2 (Z.leb_gt c 0xDFFF)) by lia.
  destruct (Z.leb_spec 0xFFFE c); [|done]. by rewrite (proj2 (Z.leb_gt c 0xFFFF)) by lia.
Qed.

(** The decoder on a first byte of [nbytes], once the others are there. *)
Lemma decoder_lead bits size mark x l rest max r h :
  (bits, size, mark) ∈ [(32, 2, 0xC0); (16, 3, 0xE0); (8, 4, 0xF0)] → 0 ≤ x < bits → size ≤ max →
  tail_bytes (written (x + mark :: l) ++ rest) x size h = Done r h →
  utf_8_decoder (written (x + mark :: l) ++ rest) max h =
  Done (match r with inr i => (i, replacement, true) | inl cum => checked size cum end) h.
Proof.
  intros Hin Hx Hm Hr. destruct (lead_facts _ _ _ x Hin Hx) as (_ & H80 & H40 & Hl).
  assert (1 < size) by (revert Hin; rewrite !elem_of_cons, elem_of_nil; naive_solver lia).
  unfold utf_8_decoder. rewrite (proj2 (Z.leb_gt max 0)) by lia.
  rewrite (bind_Done _ _ _ _ _ (load_written (x + mark :: l) rest 0 (x + mark) h ltac:(lia) eq_refl)).
  rewrite H80, H40, Hl, (proj2 (Z.ltb_ge max size)) by lia. cbv iota beta.
  rewrite (bind_Done _ _ _ _ _ Hr). unfold checked.
  destruct r as [cum|i]; [|done]. by repeat case_match.
Qed.

Lemma load_second a b l rest h : load (written (a :: b :: l) ++ rest) 1 h = Done b h.
Proof. done. Qed.
Lemma load_third a b c l rest h : load (written (a :: b :: c :: l) ++ rest) 2 h = Done c h.
Proof. done. Qed.
Lemma load_fourth a b c d l rest h : load (written (a :: b :: c :: d :: l) ++ rest) 3 h = Done d h.
Proof. done. Qed.

Lemma tail_two x a b rest h :
  0 < x → 0 ≤ b < 64 → tail_bytes (written [a; b + 128] ++ rest) x 2 h = Done (inl (x * 64 + b)) h.
Proof.
  intros Hx Hb. destruct (trail_facts b Hb) as [Hc Hl]. unfold tail_bytes. rewrite Z.eqb_refl.
  rewrite (bind_Done _ _ _ _ _ (load_second _ _ _ _ _)), Hc, (proj2 (Z.eqb_neq x 0)) by lia.
  cbn [negb]. cbv iota. by rewrite Hl, join_two.
Qed.

Lemma tail_three x a b c rest h :
  0 < x * 64 + b → 0 ≤ b < 64 → 0 ≤ c < 64 → (x = 0 → 32 ≤ b) →
  tail_bytes (written [a; b + 128; c + 128] ++ rest) x 3 h = Done (inl (x * 4096 + b * 64 + c)) h.
Proof.
  intros Hp Hb Hc Ho. destruct (trail_facts b Hb) as [Hbc Hbl], (trail_facts c Hc) as [Hcc Hcl].
  unfold tail_bytes. change (3 =? 2) with false. rewrite Z.eqb_refl. cbv iota.
  rewrite (bind_Done _ _ _ _ _ (load_second _ _ _ _ _)), (bind_Done _ _ _ _ _ (load_third _ _ _ _ _ _)), Hbc, Hcc.
  cbn [negb]. cbv iota. replace ((x =? 0) && (Z.land (b + 128) 0x20 =? 0)) with false.
  { by rewrite Hbl, Hcl, join_three. }
  destruct (Z.eqb_spec x 0) as [->|]; [|done]. specialize (Ho eq_refl).
  pose proof (below_all (λ b, Z.land (b + 32 + 128) 0x20 =? 32) 32 eq_refl (b - 32) ltac:(lia)) as E.
  apply Z.eqb_eq in E. replace (b - 32 + 32) with b in E by lia. by rewrite E.
Qed.

Lemma tail_four x a b c d rest h :
  0 ≤ b < 64 → 0 ≤ c < 64 → 0 ≤ d < 64 → (x = 0 → 16 ≤ b) →
  tail_bytes (written [a; b + 128; c + 128; d + 128] ++ rest) x 4 h =
  Done (inl (x * 262144 + b * 4096 + c * 64 + d)) h.
Proof.
  intros Hb Hc Hd Ho.
  destruct (trail_facts b Hb) as [Hbc Hbl], (trail_facts c Hc) as [Hcc Hcl], (trail_facts d Hd) as [Hdc Hdl].
  unfold tail_bytes. change (4 =? 2) with false. change (4 =? 3) with false. cbv iota.
  rewrite (bind_Done _ _ _ _ _ (load_second _ _ _ _ _)), (bind_Done _ _ _ _ _ (load_third _ _ _ _ _ _)),
    (bind_Done _ _ _ _ _ (load_fourth _ _ _ _ _ _ _)), Hbc, Hcc, Hdc.
  cbn [negb]. cbv iota. replace ((x =? 0) && (Z.land (b + 128) 0x30 =? 0)) with false.
  { by rewrite Hbl, Hcl, Hdl, join_four. }
  destruct (Z.eqb_spec x 0) as [->|]; [|done]. specialize (Ho eq_refl).
  pose proof (below_all (λ b, negb (Z.land (b + 16 + 128) 0x30 =? 0)) 48 eq_refl (b - 16) ltac:(lia)) as E.
  apply negb_true_iff in E. replace (b - 16 + 16) with b in E by lia. by rewrite E.
Qed.

(** Digits to the base 64 put together again. *)
Lemma digits_two c : c = c / 64 * 64 + c mod 64.
Proof. pose proof (Z.div_mod c 64). lia. Qed.
Lemma digits_three c : c = c / 4096 * 4096 + c / 64 mod 64 * 64 + c mod 64.
Proof.
  replace (c / 4096) with (c / 64 / 64) by (by rewrite Z.div_div).
  pose proof (digits_two c). pose proof (digits_two (c / 64)). lia.
Qed.
Lemma digits_four c : c = c / 262144 * 262144 + c / 4096 mod 64 * 4096 + c / 64 mod 64 * 64 + c mod 64.
Proof.
  replace (c / 262144) with (c / 4096 / 64) by (by rewrite Z.div_div).
  pose proof (digits_three c). pose proof (digits_two (c / 4096)). lia.
Qed.

Lemma mod_64 c : 0 ≤ c mod 64 < 64.
Proof. apply Z.mod_pos_bound. lia. Qed.
#[local] Hint Resolve mod_64 : mkcl.

(** What is written for a character is read back. *)
Lemma utf_8_reads c rest max h :
  utf_8_valid c → utf_8_size c ≤ max →
  utf_8_decoder (written (utf_8_encoder c).1 ++ rest) max h = Done (utf_8_size c, c, false) h.
Proof.
  intros Hv. pose proof Hv as (Hr & Hs & H1 & H2). rewrite utf_8_encoder_eq by lia. unfold utf_8_size.
  destruct (Z.leb_spec c 0x7F); intros Hm.
  { cbn [fst]. unfold utf_8_decoder. rewrite (proj2 (Z.leb_gt max 0)) by lia.
    rewrite (bind_Done _ _ _ _ _ (load_written [c] rest 0 c h ltac:(lia) eq_refl)).
    pose proof (below_all (λ c, Z.land c 0x80 =? 0) 128 eq_refl c ltac:(lia)) as ->. done. }
  destruct (Z.leb_spec c 0x7FF).
  { cbn [fst]. erewrite (decoder_lead 32 2 0xC0 (c / 64)); [|set_solver| |done|apply tail_two].
    - by rewrite <- digits_two, checked_valid by (done || lia).
    - split; [apply Z.div_pos|apply Z.div_lt_upper_bound]; lia.
    - apply Z.div_str_pos. lia.
    - apply mod_64. }
  destruct (Z.leb_spec c 0xFFFF).
  { replace ((c <=? 0xD7FF) || ((0xDFFF <? c) && (c <? 0xFFFE))) with true by (zbool; lia).
    cbn [fst]. erewrite (decoder_lead 16 3 0xE0 (c / 4096)); [|set_solver| |done|apply tail_three].
    - by rewrite <- digits_three, checked_valid by (done || lia).
    - split; [apply Z.div_pos|apply Z.div_lt_upper_bound]; lia.
    - pose proof (digits_three c). pose proof (mod_64 c). pose proof (mod_64 (c / 64)). lia.
    - apply mod_64.
    - apply mod_64.
    - intros Hz. pose proof (digits_three c). pose proof (mod_64 c). lia. }
  replace ((c <=? 0xD7FF) || ((0xDFFF <? c) && (c <? 0xFFFE))) with false by (zbool; lia).
  rewrite (proj2 (Z.leb_le c 0x10FFFF)) by lia. rewrite (proj2 (Z.leb_le c 0x10FFFF)) in Hm by lia.
  cbn [fst]. erewrite (decoder_lead 8 4 0xF0 (c / 262144)); [|set_solver| |done|apply tail_four].
  - by rewrite <- digits_four, checked_valid by (done || lia).
  - split; [apply Z.div_pos|apply Z.div_lt_upper_bound]; lia.
  - apply mod_64.
  - apply mod_64.
  - apply mod_64.
  - intros Hz. pose proof (digits_four c). pose proof (mod_64 c). pose proof (mod_64 (c / 64)). lia.
Qed.

(** ** Progress *)

Lemma load_in l rest i h :
  0 ≤ i < Z.of_nat (length l) → ∃ c, load (written l ++ rest) i h = Done c h.
Proof.
  intros Hi. destruct (lookup_lt_is_Some_2 l (Z.to_nat i)) as [c Hc]; [lia|].
  exists c. by apply load_written; [lia|].
Qed.

Lemma swallow_progress l rest max i h :
  0 ≤ i < max → max ≤ Z.of_nat (length l) →
  ∃ n, swallow (written l ++ rest) max i h = Done n h ∧ i < n ≤ max.
Proof.
  intros Hi Hm.
  assert (wp (swallow (written l ++ rest) max i) h (λ n h', h' = h ∧ i < n ≤ max) no_error) as Hw.
  { unfold swallow. eapply (wp_loop (λ n j h', h' = h ∧ i ≤ j < max ∧ n = Z.to_nat (max - j))).
    - intros n j h' (-> & Hj & ->). destruct (load_in l rest j h) as [c Hc]; [lia|].
      apply wp_bind. eapply wp_Done; [exact Hc|]. cbv zeta.
      destruct (continuation c && (j + 1 <? max)) eqn:E; apply wp_ret.
      + apply andb_prop in E as [_ E%Z.ltb_lt]. exists (Z.to_nat (max - (j + 1))). split; [lia|].
        split_and!; [done|lia..|done].
      + split; [done|lia].
    - split_and!; [done|lia..|done].
    - lia. }
  apply wp_done_inv in Hw as (n & h' & Hn & -> & ?). by exists n.
Qed.

Lemma tail_progress l rest cum size max h :
  2 ≤ size ≤ 4 → size ≤ max ≤ Z.of_nat (length l) →
  ∃ r, tail_bytes (written l ++ rest) cum size h = Done r h ∧
    match r with inr n => 1 ≤ n ≤ size | inl _ => True end.
Proof.
  intros Hs Hm. unfold tail_bytes. destruct (load_in l rest 1 h) as [c1 H1]; [lia|].
  destruct (Z.eqb_spec size 2) as [->|].
  { rewrite (bind_Done _ _ _ _ _ H1). repeat case_match; eexists; (split; [done|]); cbv iota; done || lia. }
  destruct (load_in l rest 2 h) as [c2 H2]; [lia|].
  destruct (Z.eqb_spec size 3) as [->|].
  { rewrite (bind_Done _ _ _ _ _ H1), (bind_Done _ _ _ _ _ H2).
    repeat case_match; eexists; (split; [done|]); cbv iota; done || lia. }
  destruct (load_in l rest 3 h) as [c3 H3]; [lia|].
  rewrite (bind_Done _ _ _ _ _ H1), (bind_Done _ _ _ _ _ H2), (bind_Done _ _ _ _ _ H3).
  repeat case_match; eexists; (split; [done|]); cbv iota; done || lia.
Qed.

(** On written elements the decoder reads at least one, and none beyond [max]. *)
Definition makes_progress (d : block → Z → M (Z * Z * bool)) : Prop :=
  ∀ l rest max h, 0 < max ≤ Z.of_nat (length l) →
  ∃ n ch bad, d (written l ++ rest) max h = Done (n, ch, bad) h ∧ 1 ≤ n ≤ max.

Lemma utf_8_progress : makes_progress utf_8_decoder.
Proof.
  intros l rest max h Hm. unfold utf_8_decoder. rewrite (proj2 (Z.leb_gt max 0)) by lia.
  destruct (load_in l rest 0 h) as [c0 H0]; [lia|]. rewrite (bind_Done _ _ _ _ _ H0).
  do 2 (case_match; [by do 3 eexists; split; [done|lia]|]).
  destruct (lead_byte c0) as [[cum size]|] eqn:El; [|by do 3 eexists; split; [done|lia]].
  assert (2 ≤ size ≤ 4) by (revert El; unfold lead_byte; repeat case_match; intros; simplify_eq; lia).
  destruct (Z.ltb_spec max size).
  - destruct (Z.ltb_spec 1 max).
    + destruct (swallow_progress l rest max 1 h) as (n & Hn & ?); [lia..|].
      rewrite (bind_Done _ _ _ _ _ Hn). do 3 eexists. split; [done|lia].
    + do 3 eexists. split; [done|lia].
  - destruct (tail_progress l rest cum size max h) as (r & Hr & ?); [lia..|].
    rewrite (bind_Done _ _ _ _ _ Hr). destruct r as [c|n].
    + repeat case_match; do 3 eexists; (split; [done|lia]).
    + do 3 eexists. split; [done|lia].
Qed.

(** ** UTF-16 characters *)

(** A decoder takes the first half of a pair for a character only with the other half. *)
Definition utf_16_valid (c : Z) : Prop := 0 ≤ c ≤ 0x10FFFF ∧ ¬ (0xD800 ≤ c < 0xDC00).

Lemma utf_16_progress : makes_progress utf_16_decoder.
Proof.
  intros l rest max h Hm. unfold utf_16_decoder. rewrite (proj2 (Z.leb_gt max 0)) by lia.
  destruct (load_in l rest 0 h) as [c0 H0]; [lia|]. rewrite (bind_Done _ _ _ _ _ H0).
  case_match; [|by do 3 eexists; split; [done|lia]].
  destruct (Z.ltb_spec max 2); [by do 3 eexists; split; [done|lia]|].
  destruct (load_in l rest 1 h) as [c1 Hc1]; [lia|]. rewrite (bind_Done _ _ _ _ _ Hc1).
  case_match; do 3 eexists; (split; [done|lia]).
Qed.

Lemma land_top c : Z.land c 0xFC00 = (c / 1024) mod 64 * 1024.
Proof.
  change 0xFC00 with (Z.shiftl (Z.ones 6) 10).
  transitivity (Z.shiftl (Z.land (Z.shiftr c 10) (Z.ones 6)) 10).
  - apply Z.bits_inj'. intros i Hi. rewrite Z.land_spec.
    destruct (Z.lt_ge_cases i 10).
    + rewrite !Z.shiftl_spec_low by done. apply andb_false_r.
    + rewrite !Z.shiftl_spec, Z.land_spec, Z.shiftr_spec by lia. do 2 f_equal. lia.
  - rewrite Z.land_ones, Z.shiftl_mul_pow2, Z.shiftr_div_pow2 by lia. done.
Qed.

(** The two halves of a pair. *)
Lemma surrogate_half m x :
  m = 0xD800 ∨ m = 0xDC00 → 0 ≤ x < 1024 →
  Z.lor x m = x + m ∧ Z.land (x + m) 0xFC00 = m ∧ Z.land (x + m) 0x3FF = x.
Proof.
  intros Hm Hx. assert (∃ k, m = k * 1024 ∧ 0 ≤ k < 64) as (k & -> & Hk).
  { destruct Hm as [-> | ->]; [by exists 54|by exists 55]. }
  split_and!.
  - rewrite Z.lor_comm. replace (k * 1024) with (Z.shiftl k 10) at 1 by (by rewrite Z.shiftl_mul_pow2).
    rewrite lor_shifted by done. lia.
  - rewrite land_top, Z.div_add, (Z.div_small x) by lia. by rewrite Z.mod_small by lia.
  - change 0x3FF with (Z.ones 10). rewrite Z.land_ones by lia. change (2 ^ 10) with 1024.
    rewrite Z.mod_add, Z.mod_small by lia. done.
Qed.

Lemma utf_16_reads c rest max h :
  utf_16_valid c → utf_16_size c ≤ max →
  utf_16_decoder (written (utf_16_encoder c).1 ++ rest) max h = Done (utf_16_size c, c, false) h.
Proof.
  intros [Hr Hs]. unfold utf_16_encoder, utf_16_size, utf_16_decoder.
  destruct (Z.leb_spec c 0xFFFF); intros Hm.
  - rewrite (proj2 (Z.leb_gt max 0)) by lia. cbn [fst].
    rewrite (bind_Done _ _ _ _ _ (load_written [c] rest 0 c h ltac:(lia) eq_refl)), land_top.
    pose proof (Z.div_mod c 1024) as E. pose proof (Z.mod_pos_bound c 1024).
    assert (c / 1024 < 64) by (apply Z.div_lt_upper_bound; lia).
    assert (0 ≤ c / 1024) by (apply Z.div_pos; lia).
    rewrite (Z.mod_small (c / 1024)) by lia. by rewrite (proj2 (Z.eqb_neq _ _)) by lia.
  - rewrite (proj2 (Z.leb_le c 0x10FFFF)) by lia. rewrite (proj2 (Z.leb_le c 0x10FFFF)) in Hm by lia.
    cbn [fst]. rewrite (proj2 (Z.leb_gt max 0)) by lia. set (d := c - 0x10000).
    change 0x3FF with (Z.ones 10). rewrite !Z.land_ones, Z.shiftr_div_pow2 by lia. change (2 ^ 10) with 1024.
    assert (d / 1024 < 1024) by (apply Z.div_lt_upper_bound; lia).
    assert (0 ≤ d / 1024) by (apply Z.div_pos; lia).
    rewrite (Z.mod_small (d / 1024)) by lia.
    destruct (surrogate_half 0xD800 (d / 1024)) as (-> & Hh & Hl); [auto|lia|].
    destruct (surrogate_half 0xDC00 (d mod 1024)) as (-> & Hh' & Hl'); [auto|apply Z.mod_pos_bound; lia|].
    rewrite (bind_Done _ _ _ _ _ (load_written [_; _] rest 0 _ h ltac:(lia) eq_refl)), Hh.
    rewrite Z.eqb_refl, (proj2 (Z.ltb_ge max 2)) by lia.
    rewrite (bind_Done _ _ _ _ _ (load_second _ _ _ _ _)), Hh', Z.eqb_refl.
    change (Z.ones 10) with 0x3FF. rewrite Hl, Hl', Z.shiftl_mul_pow2 by lia. change (2 ^ 10) with 1024.
    unfold mret, M_ret. do 3 f_equal. pose proof (Z.div_mod d 1024). lia.
Qed.

(** ** The interface *)

Class CodecSpec (K : codec) (valid : Z → Prop) : Prop := {
  size_exact c : 0 ≤ c → Z.of_nat (length (encoder K c).1) = char_size K c;
  size_bounds c : 1 ≤ char_size K c ≤ max_per_character K;
  valid_nonneg c : valid c → 0 ≤ c;
  encoder_valid c : valid c → (encoder K c).2 = false;
  decoder_reads c rest max h :
    valid c → char_size K c ≤ max →
    decoder K (written (encoder K c).1 ++ rest) max h = Done (char_size K c, c, false) h;
  decoder_progress : makes_progress (decoder K);
}.

#[export] Instance utf_8_spec : CodecSpec utf_8 utf_8_valid.
Proof.
  split; cbn [encoder decoder char_size max_per_character utf_8].
  - intros c Hc. unfold utf_8_encoder, utf_8_size. cbv zeta. zbool; done || lia.
  - intros c. unfold utf_8_size. repeat case_match; lia.
  - intros c [Hr _]. lia.
  - intros c (Hr & Hs & H1 & H2). unfold utf_8_encoder. cbv zeta. zbool; done || lia.
  - apply utf_8_reads.
  - apply utf_8_progress.
Qed.

#[export] Instance utf_16_spec : CodecSpec utf_16 utf_16_valid.
Proof.
  split; cbn [encoder decoder char_size max_per_character utf_16].
  - intros c Hc. unfold utf_16_encoder, utf_16_size. cbv zeta. repeat case_match; done || lia.
  - intros c. unfold utf_16_size. repeat case_match; lia.
  - intros c [Hr _]. lia.
  - intros c [Hr Hs]. unfold utf_16_encoder. cbv zeta. zbool; done || lia.
  - apply utf_16_reads.
  - apply utf_16_progress.
Qed.
