(* ===== verification/UtfFacts.v ===== *)
(** * UtfFacts: objects with encoded text

    Each operation on an object against the list of the elements that it holds, for
    every encoding that keeps the promises of [CodecSpec]. *)

From S2P Require Import Prelude Words Objects Heap Numbers Segments Equal Lists Sequences Utf UtfText UtfSpecs.
#[local] Open Scope Z_scope.

Abbreviation len l := (Z.of_nat (length l)).

(** The encoded string, and whether one of its characters is invalid. *)
Definition encoding (K : codec) (s : list Z) : list Z := s ≫= λ c, (encoder K c).1.
Definition any_invalid (K : codec) (s : list Z) : bool := existsb (λ c, (encoder K c).2) s.

(** The object [x] holds [l], with a zero after it, in a block for its dimension. *)
Definition holds (K : codec) (h : heap) (x : obj) (l : list Z) (dim : Z) : Prop :=
  ∃ a rest, x = OObj (utf_type K) a ∧ h !! a = Some (CUtf (Utf (len l) dim (written (l ++ [0]) ++ rest))) ∧
    len l + len rest = dim.

(** What encoding takes for a character. *)
Definition is_code (c : Z) : Prop := 0 ≤ c.

Section facts.
Context {K : codec} {valid : Z → Prop} `{!CodecSpec K valid}.
Hypothesis K_type : utf_type K = mkcl_t_UTF_8 ∨ utf_type K = mkcl_t_UTF_16.

Lemma encoding_cons c s : encoding K (c :: s) = (encoder K c).1 ++ encoding K s.
Proof. done. Qed.

Lemma encoding_app s t : encoding K (s ++ t) = encoding K s ++ encoding K t.
Proof. apply bind_app. Qed.

Lemma len_units c : is_code c → len (encoder K c).1 = char_size K c.
Proof. apply size_exact. Qed.

Lemma any_invalid_valid s : Forall valid s → any_invalid K s = false.
Proof. induction 1 as [|c s Hc _ IH]; simpl; [done|]. by rewrite IH, encoder_valid. Qed.

Lemma valid_codes s : Forall valid s → Forall is_code s.
Proof. intros Hs. eapply Forall_impl; [exact Hs|]. apply valid_nonneg. Qed.

Lemma add_sizes_eq s dim : Forall is_code s → add_sizes K dim s = dim + len (encoding K s).
Proof.
  intros Hs. revert dim. induction Hs as [|c s Hc _ IH]; intros dim; simpl; [lia|].
  rewrite IH, <- len_units, length_app by done. lia.
Qed.

(** ** Encoding into a block *)

(** The loops stop at the first character that does not fit; those before are written,
    and [k] elements are left when each character leaves them. *)
Lemma encode_while_spec (k : nat) fits str p r h :
  (k ≤ length r)%nat →
  (∀ s1 c s2, str = s1 ++ c :: s2 → fits (len (p ++ encoding K s1)) c = true →
     (k + length (encoding K (s1 ++ [c])) ≤ length r)%nat) →
  ∃ s1 s2, str = s1 ++ s2 ∧
    encode_while K fits (written p ++ r) (len p) str h =
    Done (written (p ++ encoding K s1) ++ drop (length (encoding K s1)) r, len (p ++ encoding K s1), s2,
          any_invalid K s1) h ∧
    (k + length (encoding K s1) ≤ length r)%nat ∧
    (∀ c s3, s2 = c :: s3 → fits (len (p ++ encoding K s1)) c = false).
Proof.
  revert p r. induction str as [|c str IH]; intros p r Hk Hfit.
  { exists [], []. split; [done|]. cbn. rewrite app_nil_r. split_and!; [done|lia|done]. }
  cbn [encode_while]. destruct (fits (len p) c) eqn:E.
  2: { exists [], (c :: str). split; [done|]. cbn. rewrite !app_nil_r. split_and!; [done|lia|].
       intros ? ? [= <- <-]. done. }
  pose proof (Hfit [] c str eq_refl) as H0. cbn in H0. rewrite !app_nil_r in H0. specialize (H0 E).
  destruct (encoder K c) as [units bad] eqn:Ec. cbn [fst] in H0.
  replace (len p) with (len (written p)) by (by rewrite length_fmap).
  rewrite (bind_Done _ _ _ _ _ (store_app (written p) units r h ltac:(lia))), length_fmap.
  destruct (IH (p ++ units) (drop (length units) r)) as (s1 & s2 & -> & Hrun & Hl & Hs2).
  { rewrite length_drop. lia. }
  { intros s1 c' s2 -> Hc'. specialize (Hfit (c :: s1) c' s2 eq_refl).
    rewrite encoding_cons, Ec in Hfit. cbn [fst] in Hfit. rewrite <- app_assoc in Hc'. specialize (Hfit Hc').
    change ((c :: s1) ++ [c']) with (c :: (s1 ++ [c'])) in Hfit.
    rewrite encoding_cons, Ec, length_app in Hfit. cbn [fst] in Hfit. rewrite length_drop. lia. }
  exists (c :: s1), s2. split; [done|].
  rewrite !encoding_cons, Ec. cbn [fst].
  replace (len p + len units) with (len (p ++ units)) by (rewrite length_app; lia).
  rewrite fmap_app, <- app_assoc in Hrun. rewrite (bind_Done _ _ _ _ _ Hrun).
  rewrite drop_drop, <- app_assoc in *. split_and!.
  - unfold mret, M_ret. rewrite (length_app units). cbn [any_invalid existsb]. by rewrite Ec.
  - rewrite length_app. rewrite length_drop in Hl. lia.
  - intros c' s3 ->. by rewrite <- (Hs2 c' s3), app_assoc.
Qed.

Lemma encode_all_spec str p r h :
  (length (encoding K str) ≤ length r)%nat →
  encode_all K (written p ++ r) (len p) str h =
  Done (written (p ++ encoding K str) ++ drop (length (encoding K str)) r, len (p ++ encoding K str),
        any_invalid K str) h.
Proof.
  intros Hl. destruct (encode_while_spec 0 (λ _ _, true) str p r h) as (s1 & s2 & -> & Hrun & _ & Hs2); [lia|..].
  { intros s1 c s2 -> _. rewrite encoding_app, length_app, encoding_cons, length_app in Hl.
    rewrite encoding_app, length_app, encoding_cons, length_app. cbn. lia. }
  destruct s2 as [|c s3]; [|by specialize (Hs2 c s3 eq_refl)].
  rewrite app_nil_r in *. unfold encode_all. by rewrite (bind_Done _ _ _ _ _ Hrun).
Qed.

(** The final zero. *)
Lemma store_end p r h :
  (0 < length r)%nat →
  store (written p ++ r) (len p) [0] h = Done (written (p ++ [0]) ++ drop 1 r) h.
Proof. apply (store_written p [0]). Qed.

(** The block that is computed for a string is the right one, to the last element. *)
Lemma encode_string_spec str h :
  Forall is_code str →
  encode_string K str h =
  Done (OObj (utf_type K) (first_free h), any_invalid K str)
    (<[first_free h := CUtf (Utf (len (encoding K str)) (len (encoding K str))
                                 (written (encoding K str ++ [0])))]> h).
Proof.
  intros Hs. unfold encode_string. rewrite add_sizes_eq by done. rewrite Z.add_0_l.
  set (n := length (encoding K str)).
  assert (new_block (Z.of_nat n + 1) = replicate (S n) None) as Hb.
  { unfold new_block. f_equal. lia. }
  pose proof (encode_all_spec str [] (new_block (Z.of_nat n + 1)) h) as He. cbn in He.
  rewrite length_new_block in He. specialize (He ltac:(lia)). rewrite (bind_Done _ _ _ _ _ He).
  rewrite Hb, drop_replicate. replace (S n - length (encoding K str))%nat with 1%nat by lia.
  rewrite (bind_Done _ _ _ _ _ (store_end (encoding K str) [None] h ltac:(cbn; lia))).
  cbn [drop]. by rewrite app_nil_r.
Qed.

Lemma new_holds h l : holds K (<[first_free h := CUtf (Utf (len l) (len l) (written (l ++ [0])))]> h)
  (OObj (utf_type K) (first_free h)) l (len l).
Proof.
  exists (first_free h), []. rewrite app_nil_r, lookup_insert_eq. split_and!; [done..|]. cbn. lia.
Qed.

(** ** Decoding *)

Lemma from_written p l r : from (written (p ++ l) ++ r) (len p) = written l ++ r.
Proof.
  unfold from. rewrite Nat2Z.id, fmap_app, <- app_assoc.
  replace (length p) with (length (written p)) by (by rewrite length_fmap). apply drop_app_length.
Qed.

(** Decoding ends on everything that was written, with a character for at least one
    element. *)
Lemma decode_all_ends fuel l r dim h :
  (length l < fuel)%nat →
  ∃ data bad, decode_all K fuel (Utf (len l) dim (written l ++ r)) h = Done (data, bad) h ∧
    (length data ≤ length l)%nat.
Proof.
  intros Hf. unfold decode_all. cbn [utf_fillp utf_self].
  eassert (wp (loop fuel _ _) h (λ '(data, _) h', h' = h ∧ (length data ≤ length l)%nat) no_error) as Hw.
  2: { apply wp_done_inv in Hw as ([data bad] & h' & Hrun & -> & ?). by exists data, bad. }
  eapply (wp_loop (λ n '(i, data, _) h', h' = h ∧ 0 ≤ i ≤ len l ∧ len data ≤ i ∧ n = Z.to_nat (len l - i))).
  - intros n [[i data] bad] h' (-> & Hi & Hd & ->). destruct (Z.ltb_spec i (len l)); [|apply wp_ret; split; [done|lia]].
    destruct (decoder_progress (drop (Z.to_nat i) l) r (len l - i) h) as (m & ch & bad' & Hm & ?).
    { rewrite length_drop. lia. }
    apply wp_bind. eapply wp_Done.
    { replace i with (len (take (Z.to_nat i) l)) at 1 by (rewrite length_take; lia).
      rewrite <- (take_drop (Z.to_nat i) l) at 1. rewrite from_written. exact Hm. }
    apply wp_ret. exists (Z.to_nat (len l - (i + m))). split; [lia|].
    rewrite length_app. cbn. split_and!; [done|lia..|done].
  - cbn. split_and!; [done|lia..|done].
  - cbn. lia.
Qed.

(** Encoded characters are read back. *)
Lemma decode_all_encoding fuel s r dim h :
  Forall valid s → (length s < fuel)%nat →
  decode_all K fuel (Utf (len (encoding K s)) dim (written (encoding K s) ++ r)) h = Done (s, false) h.
Proof.
  intros Hs Hf. unfold decode_all. cbn [utf_fillp utf_self].
  eassert (wp (loop fuel _ _) h (λ r h', h' = h ∧ r = (s, false)) no_error) as Hw.
  2: { by apply wp_done_inv in Hw as (r' & h' & Hrun & -> & ->). }
  eapply (wp_loop (λ n '(i, data, bad) h', h' = h ∧ bad = false ∧ ∃ s2, s = data ++ s2 ∧
    i = len (encoding K data) ∧ n = length s2)).
  - intros n [[i data] bad] h' (-> & -> & s2 & -> & -> & ->). rewrite encoding_app.
    destruct s2 as [|c s2].
    { rewrite !app_nil_r, (proj2 (Z.ltb_ge _ _)) by lia. by apply wp_ret. }
    apply Forall_app in Hs as [Hd Hc]. apply Forall_cons in Hc as [Hc Hs2].
    pose proof (len_units c (valid_nonneg c Hc)) as Hlen. pose proof (size_bounds (K := K) c).
    rewrite encoding_cons, length_app, length_app.
    rewrite (proj2 (Z.ltb_lt _ _)) by lia. apply wp_bind. eapply wp_Done.
    { rewrite from_written, fmap_app, <- app_assoc. apply decoder_reads; [done|lia]. }
    apply wp_ret. exists (length s2). split; [cbn; lia|]. split_and!; [done..|].
    exists s2. split_and!; [by rewrite <- app_assoc| |done].
    rewrite encoding_app, length_app. cbn. rewrite app_nil_r. lia.
  - split_and!; [done..|]. by exists s.
  - done.
Qed.

(** ** Filling *)

(** Text after the first [len p] elements, in place where it fits, and else in a new
    block of the right length.  [most] bounds the size of the characters. *)
Lemma fill_utf_spec most a p rest fillp dim str h :
  h !! a = Some (CUtf (Utf fillp dim (written p ++ rest))) → len p + len rest = dim + 1 →
  (0 < length rest)%nat →
  Forall (λ c, is_code c ∧ char_size K c ≤ most) str →
  ∃ h' dim', fill_utf K most (OObj (utf_type K) a) (len p) str h = Done tt h' ∧
    holds K h' (OObj (utf_type K) a) (p ++ encoding K str) dim' ∧ ∀ b, b ≠ a → h' !! b = h !! b.
Proof.
  intros Ha Hd Hr Hs. unfold fill_utf.
  assert (read_utf K (OObj (utf_type K) a) h = Done (Utf fillp dim (written p ++ rest)) h) as Hread.
  { cbn. by rewrite decide_True, Ha. }
  rewrite (bind_Done _ _ _ _ _ Hread). cbn [utf_dim utf_self].
  destruct (encode_while_spec 1 (λ j _, j + most <? dim) str p rest h) as (s1 & s2 & -> & Hrun1 & Hl1 & _); [lia|..].
  { intros s1 c s2 -> Hlt%Z.ltb_lt. apply Forall_app in Hs as [_ [[Hc Hm] _]%Forall_cons].
    pose proof (len_units c Hc). rewrite encoding_app, length_app in *. cbn. rewrite app_nil_r. lia. }
  rewrite (bind_Done _ _ _ _ _ Hrun1). clear Hrun1.
  assert (Forall is_code s2) as Hs2.
  { apply Forall_app in Hs as [_ Hs]. eapply Forall_impl; [exact Hs|]. by intros c []. }
  set (q := p ++ encoding K s1). set (r1 := drop (length (encoding K s1)) rest).
  assert (len q + len r1 = dim + 1) as Hq.
  { unfold q, r1. rewrite length_app, length_drop. lia. }
  destruct (encode_while_spec 1 (λ j c, j + char_size K c <? dim) s2 q r1 h) as (s3 & s4 & -> & Hrun2 & Hl2 & _);
    [unfold r1; rewrite length_drop; lia|..].
  { intros s3 c s4 -> Hlt%Z.ltb_lt. apply Forall_app in Hs2 as [_ [Hc _]%Forall_cons].
    pose proof (len_units c Hc). rewrite encoding_app, length_app in *. cbn. rewrite app_nil_r. lia. }
  rewrite (bind_Done _ _ _ _ _ Hrun2). clear Hrun2. cbv zeta.
  apply Forall_app in Hs2 as [Hs3 Hs4]. set (q2 := q ++ encoding K s3) in *.
  set (r2 := drop (length (encoding K s3)) r1).
  assert (p ++ encoding K (s1 ++ s3 ++ s4) = q2 ++ encoding K s4) as ->.
  { unfold q2, q. by rewrite !encoding_app, !app_assoc. }
  assert (0 < length r2)%nat by (unfold r2; rewrite length_drop; lia).
  assert (len q2 + len r2 = dim + 1) by (unfold q2, r2; rewrite length_app, length_drop; lia).
  destruct s4 as [|c s4].
  - rewrite (bind_Done _ _ _ _ _ (store_end q2 r2 h ltac:(lia))). cbn [encoding]. rewrite app_nil_r.
    do 2 eexists. split; [done|]. split; [|intros; by rewrite lookup_insert_ne].
    exists a, (drop 1 r2). rewrite lookup_insert_eq, length_drop. split_and!; [done..|]. lia.
  - rewrite add_sizes_eq by done. set (s5 := c :: s4) in *. set (n := length (encoding K s5)).
    pose proof (copy_fresh q2 r2 (length q2 + S n) h ltac:(lia)) as Hcp.
    replace (Z.of_nat (length q2 + S n)) with (len q2 + Z.of_nat n + 1) in Hcp by lia.
    replace (length q2 + S n - length q2)%nat with (S n) in Hcp by lia.
    rewrite (bind_Done _ _ _ _ _ Hcp).
    pose proof (encode_all_spec s5 q2 (replicate (S n) None) h) as E. rewrite length_replicate in E.
    rewrite (bind_Done _ _ _ _ _ (E ltac:(lia))), drop_replicate.
    replace (S n - length (encoding K s5))%nat with 1%nat by lia.
    rewrite (bind_Done _ _ _ _ _ (store_end _ [None] h ltac:(cbn; lia))).
    replace (len q2 + Z.of_nat n) with (len (q2 ++ encoding K s5)) by (rewrite length_app; lia).
    do 2 eexists. split; [done|]. split; [|intros; by rewrite lookup_insert_ne].
    exists a, []. rewrite lookup_insert_eq. split_and!; [done..|]. cbn. lia.
Qed.

(** ** Growth *)

Definition grown (dim : Z) : Z :=
  if MKCL_ADIMLIM <? 4 + dim + dim / 2 then MKCL_ADIMLIM + 3 else 4 + dim + dim / 2.

(** The same object with other contents; the other cells are as before. *)
Definition updated (h h' : heap) (x : obj) : Prop := ∀ t a, x = OObj t a → ∀ b, b ≠ a → h' !! b = h !! b.

Lemma updated_refl h x : updated h h x.
Proof. done. Qed.

Lemma updated_trans h h1 h2 x : updated h h1 x → updated h1 h2 x → updated h h2 x.
Proof. intros H1 H2 t a Hx b Hb. by rewrite (H2 t a), (H1 t a). Qed.

Lemma updated_insert h t a c : updated h (<[a := c]> h) (OObj t a).
Proof. intros t' a' [= <- <-] b Hb. by rewrite lookup_insert_ne. Qed.

Lemma read_holds h a l dim rest :
  h !! a = Some (CUtf (Utf (len l) dim (written (l ++ [0]) ++ rest))) →
  read_utf K (OObj (utf_type K) a) h = Done (Utf (len l) dim (written (l ++ [0]) ++ rest)) h.
Proof. intros Ha. cbn. by rewrite decide_True, Ha. Qed.

Lemma grown_bounds dim : 0 ≤ dim < MKCL_ADIMLIM → dim + 4 ≤ grown dim ≤ MKCL_ADIMLIM + 3.
Proof.
  intros Hd. unfold grown. pose proof (Z.div_pos dim 2).
  destruct (Z.ltb_spec MKCL_ADIMLIM (4 + dim + dim / 2)); lia.
Qed.

Lemma extend_holds h x l dim :
  holds K h x l dim → dim < MKCL_ADIMLIM →
  ∃ h', mkcl_extend_utf K x h = Done tt h' ∧ holds K h' x l (grown dim) ∧ updated h h' x.
Proof.
  intros (a & rest & -> & Ha & Hd) Hlim. unfold mkcl_extend_utf.
  pose proof (grown_bounds dim ltac:(lia)) as Hg.
  rewrite (bind_Done _ _ _ _ _ (read_holds _ _ _ _ _ Ha)). cbn [utf_dim utf_fillp utf_self].
  rewrite (proj2 (Z.leb_gt _ _)) by lia. cbv zeta.
  fold (grown dim).
  rewrite fmap_app, <- app_assoc.
  pose proof (copy_fresh l (written [0] ++ rest) (Z.to_nat (grown dim + 1)) h ltac:(lia)) as Hcp.
  rewrite Z2Nat.id in Hcp by lia. rewrite (bind_Done _ _ _ _ _ Hcp).
  pose proof (store_end l (replicate (Z.to_nat (grown dim + 1) - length l) None) h) as Hse.
  rewrite length_replicate in Hse. rewrite (bind_Done _ _ _ _ _ (Hse ltac:(lia))).
  eexists. split; [done|]. split; [|apply updated_insert].
  exists a. eexists. rewrite lookup_insert_eq. split_and!; [done..|].
  rewrite length_drop, length_replicate. lia.
Qed.

(** Room for [n] more elements. *)
Definition has_room (dim n : Z) (l : list Z) : Prop := len l + n ≤ dim ∨ dim < MKCL_ADIMLIM.

(** Writing after the contents, and a zero. *)
Lemma write_end h a l dim rest k :
  h !! a = Some (CUtf (Utf (len l) dim (written (l ++ [0]) ++ rest))) → len l + len rest = dim →
  len l + len k ≤ dim →
  ∃ self, (self ← store (written (l ++ [0]) ++ rest) (len l) k; store self (len l + len k) [0]) h = Done self h ∧
    holds K (<[a := CUtf (Utf (len l + len k) dim self)]> h) (OObj (utf_type K) a) (l ++ k) dim.
Proof.
  intros Ha Hd Hk. rewrite fmap_app, <- app_assoc. set (r := written [0] ++ rest).
  assert (len r = 1 + len rest) as Hr by (unfold r; rewrite length_app, length_fmap; cbn; lia).
  rewrite (bind_Done _ _ _ _ _ (store_written l k r h ltac:(lia))).
  replace (len l + len k) with (len (l ++ k)) by (rewrite length_app; lia).
  rewrite (store_end (l ++ k)) by (rewrite length_drop; lia).
  eexists. split; [done|]. exists a. eexists. rewrite lookup_insert_eq. split_and!; [done..|].
  rewrite !length_drop, length_app. lia.
Qed.

(** A character at the end. *)
Lemma push_extend_appends h x l dim c :
  holds K h x l dim → is_code c → has_room dim (char_size K c) l → max_per_character K ≤ 4 →
  ∃ h' dim', utf_push_extend K x c h = Done (len l, (encoder K c).2) h' ∧
    holds K h' x (l ++ (encoder K c).1) dim' ∧ updated h h' x.
Proof.
  intros Hx Hc Hroom Hmax. pose proof Hx as (a & rest & -> & Ha & Hd). unfold utf_push_extend.
  pose proof (size_bounds (K := K) c) as Hsz. pose proof (len_units c Hc) as Hu.
  rewrite (bind_Done _ _ _ _ _ (read_holds _ _ _ _ _ Ha)). cbn [utf_fillp utf_dim utf_self]. cbv zeta.
  assert (∃ h1 dim1, when (dim <? len l + char_size K c) (mkcl_extend_utf K (OObj (utf_type K) a)) h = Done tt h1 ∧
    holds K h1 (OObj (utf_type K) a) l dim1 ∧ len l + char_size K c ≤ dim1 ∧ updated h h1 (OObj (utf_type K) a))
    as (h1 & dim1 & Hw & Hx1 & Hle & Hup).
  { destruct (Z.ltb_spec dim (len l + char_size K c)); cbn [when].
    - destruct Hroom as [?|Hlim]; [lia|]. destruct (extend_holds h _ l dim Hx Hlim) as (h1 & He & Hx1 & Hup).
      pose proof (grown_bounds dim ltac:(lia)). exists h1, (grown dim). split_and!; [done..|lia|done].
    - exists h, dim. split_and!; [done..|lia|apply updated_refl]. }
  rewrite (bind_Done _ _ _ _ _ Hw). destruct Hx1 as (a' & rest1 & [= <-] & Ha1 & Hd1).
  rewrite (bind_Done _ _ _ _ _ (read_holds _ _ _ _ _ Ha1)). cbn [utf_self utf_dim].
  destruct (encoder K c) as [units bad]. cbn [fst snd] in *.
  destruct (write_end h1 a l dim1 rest1 units Ha1 Hd1 ltac:(lia)) as (self & Hs & Hh).
  rewrite <- Hu. apply bind_Done_inv in Hs as (s1 & h2 & Hs1 & Hs2).
  rewrite (bind_Done _ _ _ _ _ Hs1).
  assert (h2 = h1) as ->.
  { revert Hs1. unfold store. case_match; [|done]. by intros [= _ <-]. }
  rewrite (bind_Done _ _ _ _ _ Hs2). do 2 eexists. split; [done|]. split; [exact Hh|].
  eapply updated_trans; [exact Hup|apply updated_insert].
Qed.

(** The block is extended until [n] elements fit. *)
Lemma extend_until fuel h x l dim n :
  holds K h x l dim → n ≤ MKCL_ADIMLIM → (Z.to_nat (n - dim) < fuel)%nat →
  ∃ h' dim', extend_while K fuel x n h = Done tt h' ∧
    holds K h' x l dim' ∧ n ≤ dim' ∧ updated h h' x.
Proof.
  intros Hx Hn Hf.
  assert (wp (extend_while K fuel x n) h (λ _ h', ∃ dim', holds K h' x l dim' ∧ n ≤ dim' ∧ updated h h' x)
    no_error) as Hw.
  2: { apply wp_done_inv in Hw as ([] & h' & Hrun & dim' & ? & ? & ?). by exists h', dim'. }
  eapply (wp_loop (λ m _ h1, ∃ dim1, holds K h1 x l dim1 ∧ updated h h1 x ∧ m = Z.to_nat (n - dim1))).
  - intros m [] h1 (dim1 & Hx1 & Hup & ->). pose proof Hx1 as (a & rest & -> & Ha & Hd).
    apply wp_bind. eapply wp_Done; [by apply read_holds|]. cbn [utf_dim].
    destruct (Z.ltb_spec dim1 n); [|apply wp_ret; exists dim1; split_and!; [done|lia|done]].
    destruct (extend_holds h1 _ l dim1 Hx1) as (h2 & He & Hx2 & Hup2); [lia|].
    pose proof (grown_bounds dim1 ltac:(lia)). apply wp_bind. eapply wp_Done; [exact He|]. apply wp_ret.
    exists (Z.to_nat (n - grown dim1)). split; [lia|].
    exists (grown dim1). split_and!; [done|by eapply updated_trans|done].
  - exists dim. split_and!; [done|apply updated_refl|done].
  - done.
Qed.

Lemma holds_updated h h' x y k l dx dim :
  holds K h x k dx → updated h h' x → x ≠ y → holds K h y l dim → holds K h' y l dim.
Proof.
  intros (b & _ & -> & _) Hup Hne (a & rest & -> & Ha & Hd). exists a, rest. split_and!; [done| |done].
  rewrite (Hup _ _ eq_refl); [done|]. congruence.
Qed.

(** Contents at the end of an object, which can be its own. *)
Lemma nconc_appends fuel h x y l k dim dy :
  holds K h x l dim → holds K h y k dy → len l + len k ≤ MKCL_ADIMLIM → (length k < fuel)%nat →
  ∃ h' dim', utf_nconc K fuel x y h = Done x h' ∧ holds K h' x (l ++ k) dim' ∧ updated h h' x.
Proof.
  intros Hx Hy Hlim Hf. unfold utf_nconc.
  pose proof Hy as (b & resty & -> & Hb & Hdy). pose proof Hx as (a & rest & -> & Ha & Hd).
  rewrite (bind_Done _ _ _ _ _ (read_holds _ _ _ _ _ Hb)), (bind_Done _ _ _ _ _ (read_holds _ _ _ _ _ Ha)).
  cbn [utf_fillp]. cbv zeta. destruct (Z.eqb_spec (len k) 0) as [Hk|Hk].
  { destruct k; [|simpl in Hk; lia]. rewrite app_nil_r. exists h, dim. split_and!; [done..|apply updated_refl]. }
  destruct (extend_until fuel h _ l dim (len l + len k) Hx) as (h1 & dim1 & He & Hx1 & Hle & Hup); [lia..|].
  rewrite (bind_Done _ _ _ _ _ He).
  assert (∃ dy1, holds K h1 (OObj (utf_type K) b) k dy1) as (dy1 & b' & resty1 & [= <-] & Hb1 & Hdy1).
  { destruct (decide (a = b)) as [->|Hne].
    - exists dim1. rewrite Ha in Hb. injection Hb as E1 _ E2.
      assert (l = k) as <-.
      { apply (f_equal (take (length l))) in E2. rewrite !fmap_app, <- !app_assoc in E2.
        assert (length l = length k) as E by lia.
        rewrite take_app_length' in E2 by (by rewrite length_fmap).
        rewrite take_app_length' in E2 by (by rewrite length_fmap). by apply list_fmap_eq_inj in E2; [|congruence]. }
      done.
    - exists dy. eapply holds_updated; [exact Hx|done| |done]. congruence. }
  destruct Hx1 as (a' & rest1 & [= <-] & Ha1 & Hd1).
  rewrite (bind_Done _ _ _ _ _ (read_holds _ _ _ _ _ Hb1)), (bind_Done _ _ _ _ _ (read_holds _ _ _ _ _ Ha1)).
  cbn [utf_self utf_dim]. rewrite fmap_app, <- app_assoc, (fmap_app _ k), <- app_assoc.
  rewrite (bind_Done _ _ _ _ _ (copy_written l (written [0] ++ rest1) k _ h1 ltac:(rewrite length_app, length_fmap; cbn; lia))).
  replace (len l + len k) with (len (l ++ k)) by (rewrite length_app; lia).
  pose proof (store_end (l ++ k) (drop (length k) (written [0] ++ rest1)) h1) as Hse.
  assert (length (written [0] ++ rest1) = S (length rest1)) as Hr1 by done.
  rewrite length_drop, Hr1 in Hse. rewrite (bind_Done _ _ _ _ _ (Hse ltac:(lia))).
  do 2 eexists. split; [done|]. split; [|eapply updated_trans; [exact Hup|apply updated_insert]].
  exists a. eexists. rewrite lookup_insert_eq. split_and!; [done..|].
  rewrite !length_drop, Hr1, length_app. lia.
Qed.

(** ** Comparison *)

Lemma same_units_spec l k p q r t h :
  length l = length k → length p = length q →
  same_units (written (p ++ l) ++ r) (written (q ++ k) ++ t) (length l) (len p) h = Done (bool_decide (l = k)) h.
Proof.
  revert k p q. induction l as [|c l IH]; intros [|d k] p q Hl Hp; try done. cbn [length same_units].
  rewrite (bind_Done _ _ _ _ _ (load_written (p ++ c :: l) r (len p) c h ltac:(lia)
    ltac:(rewrite Nat2Z.id; by apply list_lookup_middle))).
  rewrite (bind_Done _ _ _ _ _ (load_written (q ++ d :: k) t (len p) d h ltac:(lia)
    ltac:(rewrite Nat2Z.id; by apply list_lookup_middle))).
  destruct (Z.eqb_spec c d) as [<-|Hne].
  - specialize (IH k (p ++ [c]) (q ++ [c])). rewrite !length_app, <- !app_assoc in IH. cbn in IH.
    replace (len p + 1) with (Z.of_nat (length p + 1)) by lia. rewrite IH by (simpl in Hl; lia).
    f_equal. apply bool_decide_ext. naive_solver.
  - rewrite bool_decide_eq_false_2; [done|congruence].
Qed.

Lemma utf_equal_decides h x y l k dim dy :
  holds K h x l dim → holds K h y k dy → utf_equal K x y h = Done (bool_decide (l = k)) h.
Proof.
  intros (a & rest & -> & Ha & _) (b & resty & -> & Hb & _). unfold utf_equal.
  rewrite (bind_Done _ _ _ _ _ (read_holds _ _ _ _ _ Ha)), (bind_Done _ _ _ _ _ (read_holds _ _ _ _ _ Hb)).
  cbn [utf_fillp utf_self]. destruct (Z.eqb_spec (len l) (len k)) as [E|E]; cbn [negb].
  - rewrite Nat2Z.id, (fmap_app _ l), (fmap_app _ k), <- !app_assoc.
    apply (same_units_spec l k [] []); [lia|done].
  - rewrite bool_decide_eq_false_2; [done|congruence].
Qed.

(** ** Concatenation *)

Lemma holds_mono h h' x l dim : h ⊆ h' → holds K h x l dim → holds K h' x l dim.
Proof. intros Hs (a & rest & -> & Ha & Hd). exists a, rest. split_and!; [done|by eapply lookup_weaken|done]. Qed.

Lemma holds_is_utf h x l dim : holds K h x l dim → is_utf K x = true.
Proof. intros (a & rest & -> & _). unfold is_utf. by rewrite bool_decide_eq_true_2. Qed.

Definition stack_holds (h : heap) (x : obj) (l : list Z) : Prop := l ≠ [] ∧ ∃ dim, holds K h x l dim.

Lemma pop_args_spec stack ls A C h :
  Forall2 (stack_holds h) stack ls → length A = length (concat (reverse ls)) →
  pop_args K (A ++ C) stack (len A) h = Done (written (concat (reverse ls)) ++ C) h.
Proof.
  intros Hst. revert A C. induction Hst as [|x l stack ls (Hne & dim & a & rest & -> & Ha & Hd) _ IH]; intros A C HA.
  { by destruct A. }
  rewrite reverse_cons, concat_app, length_app in HA. cbn in HA. rewrite app_nil_r in HA.
  assert (0 < length l)%nat by (destruct l; [done|simpl; lia]).
  cbn [pop_args]. rewrite (proj2 (Z.leb_gt _ _)) by lia.
  rewrite (bind_Done _ _ _ _ _ (read_holds _ _ _ _ _ Ha)). cbn [utf_fillp utf_self]. cbv zeta.
  set (n := (length A - length l)%nat). rewrite <- (take_drop n A), <- app_assoc.
  assert (length (take n A) = n) as Hn by (rewrite length_take; lia).
  replace (len (take n A ++ drop n A) - len l) with (len (take n A)) by (rewrite take_drop; lia).
  pose proof (copy_units_app (take n A) (drop n A ++ C) (written l) (written [0] ++ rest) h) as E.
  rewrite length_fmap, length_app, length_drop in E. specialize (E ltac:(lia)).
  rewrite (fmap_app _ l), <- (app_assoc (written l)), (bind_Done _ _ _ _ _ E).
  rewrite drop_app_length' by (rewrite length_drop; lia). rewrite IH by lia.
  rewrite reverse_cons, concat_app, fmap_app, <- app_assoc. cbn. by rewrite app_nil_r.
Qed.

(** A string, for the encoding; a base string has characters of 8 bits. *)
Definition string_of (h : heap) (x : obj) (s : list Z) : Prop :=
  read_string x h = Done s h ∧ Forall is_code s ∧ ((∃ a, x = OBaseString a) → Forall (λ c, c ≤ 255) s).

Lemma string_of_mono h h' x s : h ⊆ h' → string_of h x s → string_of h' x s.
Proof.
  intros Hs (Hr & ? & ?). split_and!; [|done..]. unfold read_string in *.
  destruct x; try done; case_match; try done; case_match; try done;
    by rewrite (lookup_weaken _ _ _ _ ltac:(eassumption) Hs); simplify_eq.
Qed.

(** The argument [x] stands for the elements [l]: it holds them, or is a string. *)
Definition arg_text (h : heap) (x : obj) (l : list Z) : Prop :=
  (∃ dim, holds K h x l dim) ∨ (∃ s, string_of h x s ∧ l = encoding K s).

Lemma arg_text_mono h h' x l : h ⊆ h' → arg_text h x l → arg_text h' x l.
Proof.
  intros Hs [[dim Hx]|(s & Hx & ->)]; [left; exists dim; by eapply holds_mono|right; exists s].
  split; [by eapply string_of_mono|done].
Qed.

Context (coerce : obj → M (obj * bool)).
Hypothesis coerce_string : ∀ h x s, string_of h x s → coerce x h = encode_string K s h.

(** A coerced argument. *)
Lemma coerce_arg h x l :
  arg_text h x l →
  ∃ y h' dim, (if is_utf K x then mret x else r ← coerce x; mret r.1) h = Done y h' ∧ h ⊆ h' ∧ holds K h' y l dim.
Proof.
  intros [[dim Hx]|(s & Hx & ->)].
  - rewrite (holds_is_utf _ _ _ _ Hx). by exists x, h, dim.
  - assert (is_utf K x = false) as ->.
    { destruct Hx as (Hr & _). unfold is_utf. apply bool_decide_eq_false. unfold read_string in Hr.
      destruct x; try done; destruct K_type as [-> | ->]; done. }
    rewrite (bind_Done (coerce x) _ h _ _ (eq_trans (coerce_string _ _ _ Hx) (encode_string_spec s h (proj1 (proj2 Hx))))).
    do 3 eexists. split; [done|]. split; [apply insert_first_free_subseteq|apply new_holds].
Qed.

(** The arguments that are not empty, the last one first. *)
Lemma push_args_spec args ls stack ks n h :
  Forall2 (arg_text h) args ls → Forall2 (stack_holds h) stack ks → n = len (concat (reverse ks)) →
  ∃ stack' ks' h', push_args K coerce args stack n h = Done (stack', len (concat (reverse ks'))) h' ∧
    h ⊆ h' ∧ Forall2 (stack_holds h') stack' ks' ∧ concat (reverse ks') = concat (reverse ks) ++ concat ls.
Proof.
  revert ls stack ks n h. induction args as [|x args IH]; intros ls stack ks n h Hargs Hst ->.
  { apply Forall2_nil_inv_l in Hargs as ->. exists stack, ks, h. split_and!; [done..|]. by rewrite app_nil_r. }
  apply Forall2_cons_inv_l in Hargs as (l & ls' & Hx & Hargs & ->). cbn [push_args].
  destruct (coerce_arg h x l Hx) as (y & h1 & dim & Hc & Hs1 & Hy). rewrite (bind_Done _ _ _ _ _ Hc).
  pose proof Hy as (a & rest & -> & Ha & Hd). rewrite (bind_Done _ _ _ _ _ (read_holds _ _ _ _ _ Ha)).
  cbn [utf_fillp].
  assert (Forall2 (arg_text h1) args ls') as Hargs1.
  { eapply Forall2_impl; [exact Hargs|]. intros. by eapply arg_text_mono. }
  assert (Forall2 (stack_holds h1) stack ks) as Hst1.
  { eapply Forall2_impl; [exact Hst|]. intros s k (? & d & ?). split; [done|]. exists d. by eapply holds_mono. }
  destruct (Z.eqb_spec (len l) 0) as [E|E].
  - destruct l; [|simpl in E; lia].
    destruct (IH ls' stack ks _ h1 Hargs1 Hst1 eq_refl) as (st' & ks' & h' & Hp & Hs' & Hst' & Hks).
    exists st', ks', h'. split_and!; [done|by etransitivity|done..].
  - destruct (IH ls' (OObj (utf_type K) a :: stack) (l :: ks) (len (concat (reverse ks)) + len l) h1 Hargs1)
      as (st' & ks' & h' & Hp & Hs' & Hst' & Hks).
    + constructor; [|done]. split; [by destruct l|by exists dim].
    + rewrite reverse_cons, concat_app, length_app. cbn. rewrite app_nil_r. lia.
    + exists st', ks', h'. split_and!; [done|by etransitivity|done|].
      rewrite Hks, reverse_cons, concat_app, <- app_assoc. cbn. by rewrite app_nil_r.
Qed.

Lemma alloc_utf_self_spec n h :
  alloc_utf_self (Z.of_nat n) h = Done (match n with O => [Some 0] | S m => Some 0 :: replicate m None ++ [Some 0] end) h.
Proof.
  unfold alloc_utf_self. replace (Z.of_nat n + 1) with (Z.of_nat (S n)) by lia.
  pose proof (store_written [] [0] (new_block (Z.of_nat (S n))) h) as E.
  rewrite length_new_block in E. cbn [length] in E. change (Z.of_nat 0) with 0 in E.
  rewrite (bind_Done _ _ _ _ _ (E ltac:(lia))). unfold new_block. rewrite Nat2Z.id.
  destruct n as [|m]; [done|]. cbn [replicate drop app fmap list_fmap].
  pose proof (store_app (Some 0 :: replicate m None) [0] [None] h ltac:(done)) as E2.
  cbn [length] in E2. rewrite length_replicate in E2. cbn [app] in E2.
  rewrite <- replicate_cons_app in E2. exact E2.
Qed.

(** Concatenation of objects and strings, in a new object. *)
Lemma plus_concatenates h args ls :
  Forall2 (arg_text h) args ls →
  ∃ x h' dim, utf_plus K coerce args h = Done x h' ∧ h ⊆ h' ∧ holds K h' x (concat ls) dim.
Proof.
  intros Hargs.
  assert (Hmany : ∃ x h' dim, ('(stack, n) ← push_args K coerce args [] 0;
      self ← alloc_utf_self n; self ← pop_args K self stack n; new_utf K (Utf n n self)) h = Done x h' ∧
      h ⊆ h' ∧ holds K h' x (concat ls) dim).
  { destruct (push_args_spec args ls [] [] 0 h Hargs) as (st & ks & h1 & Hp & Hs & Hst & Hks); [constructor|done|].
    cbn in Hks. rewrite (bind_Done _ _ _ _ _ Hp), Hks, (bind_Done _ _ _ _ _ (alloc_utf_self_spec _ h1)).
    set (l := concat ls) in *.
    assert (∃ A, length A = length l ∧ match length l with
      | O => [Some 0] | S m => Some 0 :: replicate m None ++ [Some 0] end = A ++ [Some 0]) as (A & HA & ->).
    { destruct (length l) as [|m]; [by exists []|]. exists (Some 0 :: replicate m None). cbn. by rewrite length_replicate. }
    pose proof (pop_args_spec st ks A [Some 0] h1 Hst) as E. rewrite Hks, HA in E.
    rewrite (bind_Done _ _ _ _ _ (E eq_refl)). do 3 eexists. split; [done|].
    split; [etransitivity; [exact Hs|apply insert_first_free_subseteq]|].
    replace (written l ++ [Some 0]) with (written (l ++ [0])) by (by rewrite fmap_app). apply new_holds. }
  destruct args as [|x [|y args]]; cbn [utf_plus]; [exact Hmany| |exact Hmany].
  apply Forall2_cons_inv_l in Hargs as (l & ls' & Hx & Hnil & ->). apply Forall2_nil_inv_l in Hnil as ->.
  cbn [concat]. rewrite app_nil_r. pose proof (coerce_arg h x l Hx) as Hc.
  destruct (is_utf K x) eqn:Eu.
  2: { destruct Hc as (y & h1 & dim & Hc & Hs & Hy). by exists y, h1, dim. }
  clear Hc. destruct Hx as [[dim (a & rest & -> & Ha & Hd)]|(s & (Hr & _) & _)].
  2: { exfalso. unfold is_utf in Eu. apply bool_decide_eq_true in Eu.
       destruct x; try done; destruct K_type as [E|E]; cbn in Eu; congruence. }
  rewrite (bind_Done _ _ _ _ _ (read_holds _ _ _ _ _ Ha)). cbn [utf_fillp utf_self]. cbv zeta.
  rewrite (bind_Done _ _ _ _ _ (alloc_utf_self_spec (length l) h)).
  set (b := match length l with O => [Some 0] | S m => Some 0 :: replicate m None ++ [Some 0] end).
  assert (length b = S (length l)) as Hb.
  { unfold b. destruct (length l); cbn; [done|]. rewrite length_app, length_replicate. cbn. lia. }
  pose proof (copy_written [] b l (written [0] ++ rest) h) as Hcp. cbn [app length] in Hcp.
  change (Z.of_nat 0) with 0 in Hcp. rewrite (fmap_app _ l), <- (app_assoc (written l)).
  rewrite (bind_Done _ _ _ _ _ (Hcp ltac:(lia))).
  pose proof (store_end l (drop (length l) b) h) as Hse. rewrite length_drop in Hse.
  rewrite (bind_Done _ _ _ _ _ (Hse ltac:(lia))).
  rewrite (drop_ge (drop (length l) b)) by (rewrite length_drop; lia). rewrite app_nil_r.
  do 3 eexists. split; [done|]. split; [apply insert_first_free_subseteq|apply new_holds].
Qed.
End facts.
