(* ===== verification/UtfTexts.v ===== *)
(** * UtfTexts: the theorems on UTF-8 and UTF-16 *)

From S2P Require Import Prelude Words Objects Heap Numbers Segments Equal Lists Sequences Utf UtfText UtfSpecs UtfFacts.
#[local] Open Scope Z_scope.

Lemma utf_8_type : utf_type utf_8 = mkcl_t_UTF_8 ∨ utf_type utf_8 = mkcl_t_UTF_16.
Proof. by left. Qed.
Lemma utf_16_type : utf_type utf_16 = mkcl_t_UTF_8 ∨ utf_type utf_16 = mkcl_t_UTF_16.
Proof. by right. Qed.

Lemma string_of_string h x s : string_of h x s → (∃ a, x = OString a) ∨ (∃ a, x = OBaseString a).
Proof. intros (Hr & _). unfold read_string in Hr. destruct x; try done; eauto. Qed.

(** ** Strings are encoded *)

Lemma mk_si_utf_8_string fuel h x s : string_of h x s → mk_si_utf_8 fuel x h = encode_string utf_8 s h.
Proof.
  intros Hx. pose proof Hx as (Hr & _).
  destruct (string_of_string _ _ _ Hx) as [[a ->]|[a ->]]; cbn [mk_si_utf_8]; by rewrite (bind_Done _ _ _ _ _ Hr).
Qed.

Lemma utf_16_base s : Forall is_code s → Forall (λ c, c ≤ 255) s → encoding utf_16 s = s ∧ any_invalid utf_16 s = false.
Proof.
  induction 1 as [|c s Hc _ IH]; intros Hb; [done|]. apply Forall_cons in Hb as [Hc' Hb].
  destruct (IH Hb) as [E1 E2]. cbn. unfold utf_16_encoder. rewrite (proj2 (Z.leb_le c 0xFFFF)) by lia.
  cbn. split; [by f_equal|done].
Qed.

Lemma mk_si_utf_16_string fuel h x s : string_of h x s → mk_si_utf_16 fuel x h = encode_string utf_16 s h.
Proof.
  intros Hx. pose proof Hx as (Hr & Hc & Hb).
  destruct (string_of_string _ _ _ Hx) as [[a ->]|[a ->]]; cbn [mk_si_utf_16]; rewrite (bind_Done _ _ _ _ _ Hr); [done|].
  specialize (Hb (ex_intro _ a eq_refl)). destruct (utf_16_base s Hc Hb) as [E1 E2].
  rewrite encode_string_spec by done. rewrite E1, E2. cbv zeta.
  replace (len s + 1) with (Z.of_nat (S (length s))) by lia.
  pose proof (store_written [] s (new_block (Z.of_nat (S (length s)))) h) as E.
  rewrite length_new_block in E. cbn [app length] in E. change (Z.of_nat 0) with 0 in E.
  rewrite (bind_Done _ _ _ _ _ (E ltac:(lia))). unfold new_block. rewrite Nat2Z.id, drop_replicate.
  replace (S (length s) - length s)%nat with 1%nat by lia.
  rewrite (bind_Done _ _ _ _ _ (store_end s [None] h ltac:(cbn; lia))). cbn [drop]. by rewrite app_nil_r.
Qed.

(** A new object with the encoding of the string. *)
Lemma encode_string_holds K valid `{!CodecSpec K valid} h s :
  Forall is_code s →
  ∃ u h', encode_string K s h = Done (u, any_invalid K s) h' ∧ h ⊆ h' ∧
    holds K h' u (encoding K s) (len (encoding K s)).
Proof.
  intros Hs. rewrite encode_string_spec by done. do 2 eexists. split; [done|].
  split; [apply insert_first_free_subseteq|apply new_holds].
Qed.

Lemma to_string_reads K valid `{!CodecSpec K valid} fuel h u s dim :
  holds K h u (encoding K s) dim → Forall valid s → (length s < fuel)%nat →
  ∃ y h', mkcl_utf_to_string K fuel u h = Done (y, false) h' ∧ h ⊆ h' ∧ string_of h' y s.
Proof.
  intros (a & rest & -> & Ha & _) Hs Hf. unfold mkcl_utf_to_string.
  rewrite (bind_Done _ _ _ _ _ (read_holds _ _ _ _ _ Ha)), fmap_app, <- app_assoc.
  rewrite (bind_Done _ _ _ _ _ (decode_all_encoding fuel s _ _ h Hs Hf)).
  do 2 eexists. split; [done|]. split; [apply insert_first_free_subseteq|].
  split_and!; [cbn; by rewrite lookup_insert_eq|by apply valid_codes|by intros [? [=]]].
Qed.

Lemma text_roundtrip_codec K valid `{!CodecSpec K valid} fuel h s :
  Forall valid s → (length s < fuel)%nat →
  ∃ u h1 y h2, encode_string K s h = Done (u, false) h1 ∧ holds K h1 u (encoding K s) (len (encoding K s)) ∧
    mkcl_utf_to_string K fuel u h1 = Done (y, false) h2 ∧ h ⊆ h2 ∧ string_of h2 y s.
Proof.
  intros Hs Hf. destruct (encode_string_holds K valid h s (valid_codes s Hs)) as (u & h1 & He & Hs1 & Hu).
  rewrite any_invalid_valid in He by done.
  destruct (to_string_reads K valid fuel h1 u s _ Hu Hs Hf) as (y & h2 & Hd & Hs2 & Hy).
  exists u, h1, y, h2. split_and!; [done..|by etransitivity|done].
Qed.

(** C28: a string of valid characters comes back from UTF-8 and from UTF-16, with the
    flags clear; the encoded objects end with a zero and are as long as was computed. *)
Theorem text_roundtrip fuel h x s :
  string_of h x s → (length s < fuel)%nat →
  (Forall utf_8_valid s →
   ∃ u h1 y h2, mk_si_utf_8 fuel x h = Done (u, false) h1 ∧
     holds utf_8 h1 u (encoding utf_8 s) (len (encoding utf_8 s)) ∧
     mkcl_utf_8_to_string fuel u h1 = Done (y, false) h2 ∧ h ⊆ h2 ∧ string_of h2 y s) ∧
  (Forall utf_16_valid s →
   ∃ u h1 y h2, mk_si_utf_16 fuel x h = Done (u, false) h1 ∧
     holds utf_16 h1 u (encoding utf_16 s) (len (encoding utf_16 s)) ∧
     mkcl_utf_16_to_string fuel u h1 = Done (y, false) h2 ∧ h ⊆ h2 ∧ string_of h2 y s).
Proof.
  intros Hx Hf. split; intros Hs.
  - rewrite (mk_si_utf_8_string _ _ _ _ Hx). by apply (text_roundtrip_codec utf_8 utf_8_valid).
  - rewrite (mk_si_utf_16_string _ _ _ _ Hx). by apply (text_roundtrip_codec utf_16 utf_16_valid).
Qed.

(** ** What the decoder accepts *)

Definition is_byte (b : Z) : Prop := 0 ≤ b < 256.

(** A byte that is not the only one: its marks and its bits. *)
Lemma continuation_inv b : is_byte b → continuation b = true → b = Z.land b 0x3F + 128 ∧ 0 ≤ Z.land b 0x3F < 64.
Proof.
  intros Hb Hc.
  pose proof (below_all (λ b, implb (continuation b) ((b =? Z.land b 0x3F + 128) && (Z.land b 0x3F <? 64)
    && (0 <=? Z.land b 0x3F))) 256 eq_refl b Hb) as E. cbv beta in E. rewrite Hc in E. cbn [implb] in E.
  rewrite !andb_true_iff in E. destruct E as [[?%Z.eqb_eq ?%Z.ltb_lt] ?%Z.leb_le]. lia.
Qed.

Definition lead_mark (size : Z) : Z := if size =? 2 then 0xC0 else if size =? 3 then 0xE0 else 0xF0.
Definition lead_bits (size : Z) : Z := if size =? 2 then 32 else if size =? 3 then 16 else 8.

Lemma lead_byte_inv b x size :
  is_byte b → (Z.land b 0x80 =? 0) = false → (Z.land b 0x40 =? 0) = false → lead_byte b = Some (x, size) →
  b = x + lead_mark size ∧ 0 ≤ x < lead_bits size ∧ 2 ≤ size ≤ 4.
Proof.
  intros Hb H80 H40 Hl.
  pose proof (below_all (λ b, (Z.land b 0x80 =? 0) || (Z.land b 0x40 =? 0) || match lead_byte b with
    | Some (x, s) => (b =? x + lead_mark s) && (0 <=? x) && (x <? lead_bits s) && (2 <=? s) && (s <=? 4)
    | None => true end) 256 eq_refl b Hb) as E. cbv beta in E. rewrite H80, H40, Hl in E. cbn [orb] in E.
  rewrite !andb_true_iff in E. destruct E as [[[[?%Z.eqb_eq ?%Z.leb_le] ?%Z.ltb_lt] ?%Z.leb_le] ?%Z.leb_le]. lia.
Qed.

Lemma ascii_inv b : is_byte b → (Z.land b 0x80 =? 0) = true → b < 128.
Proof.
  intros Hb H80. pose proof (below_all (λ b, implb (Z.land b 0x80 =? 0) (b <? 128)) 256 eq_refl b Hb) as E.
  cbv beta in E. rewrite H80 in E. by apply Z.ltb_lt in E.
Qed.

(** The sequence of [size] bytes for the digits of [c], however long [c] is. *)
Definition sequence (size c : Z) : list Z :=
  if size =? 2 then [c / 64 + 0xC0; c mod 64 + 128]
  else if size =? 3 then [c / 4096 + 0xE0; c / 64 mod 64 + 128; c mod 64 + 128]
  else [c / 262144 + 0xF0; c / 4096 mod 64 + 128; c / 64 mod 64 + 128; c mod 64 + 128].

Lemma div_mod_digit a b : 0 ≤ b < 64 → (a * 64 + b) / 64 = a ∧ (a * 64 + b) mod 64 = b.
Proof.
  intros Hb. rewrite (Z.add_comm (a * 64)), Z.div_add, Z.mod_add, Z.div_small, Z.mod_small by lia. lia.
Qed.

Lemma tail_two_inv b0 b1 l r x c h h' :
  is_byte b1 → 0 ≤ x < 32 → b0 = x + 0xC0 →
  tail_bytes (written (b0 :: b1 :: l) ++ r) x 2 h = Done (inl c) h' →
  h' = h ∧ [b0; b1] = sequence 2 c ∧ 64 ≤ c < 0x800.
Proof.
  intros Hb1 Hx -> Ht. unfold tail_bytes in Ht. rewrite Z.eqb_refl, (bind_Done _ _ _ _ _ (load_second _ _ _ _ _)) in Ht.
  destruct (continuation b1) eqn:Hc1; [|done]. cbn [negb] in Ht.
  destruct (Z.eqb_spec x 0); [done|]. injection Ht as <- <-.
  destruct (continuation_inv b1 Hb1 Hc1) as [E Hy]. set (y := Z.land b1 63) in *.
  rewrite join_two by done. destruct (div_mod_digit x y Hy) as [Ed Em].
  split_and!; [done| |lia..]. unfold sequence. cbn. rewrite Ed, Em. by rewrite E.
Qed.

Lemma tail_three_inv b0 b1 b2 l r x c h h' :
  is_byte b1 → is_byte b2 → 0 ≤ x < 16 → b0 = x + 0xE0 →
  tail_bytes (written (b0 :: b1 :: b2 :: l) ++ r) x 3 h = Done (inl c) h' →
  h' = h ∧ [b0; b1; b2] = sequence 3 c ∧ 0x800 ≤ c < 0x10000.
Proof.
  intros Hb1 Hb2 Hx -> Ht. unfold tail_bytes in Ht. change (3 =? 2) with false in Ht. rewrite Z.eqb_refl in Ht.
  rewrite (bind_Done _ _ _ _ _ (load_second _ _ _ _ _)), (bind_Done _ _ _ _ _ (load_third _ _ _ _ _ _)) in Ht.
  destruct (continuation b1) eqn:Hc1, (continuation b2) eqn:Hc2; try done. cbn [negb] in Ht.
  destruct (continuation_inv b1 Hb1 Hc1) as [E1 Hy], (continuation_inv b2 Hb2 Hc2) as [E2 Hz].
  set (y := Z.land b1 63) in *. set (z := Z.land b2 63) in *.
  destruct ((x =? 0) && (Z.land b1 0x20 =? 0)) eqn:Eo; [done|]. injection Ht as <- <-.
  rewrite join_three by done. assert (0 < x ∨ 32 ≤ y) as Hlow.
  { destruct (Z.eqb_spec x 0); [|lia]. right. cbn [andb] in Eo. rewrite E1 in Eo.
    destruct (Z.le_gt_cases 32 y) as [|Hlt]; [done|]. exfalso.
    pose proof (below_all (λ y, Z.land (y + 128) 0x20 =? 0) 32 eq_refl y ltac:(lia)) as E. cbv beta in E. congruence. }
  split_and!; [done| |lia..]. unfold sequence. cbn.
  replace (x * 4096 + y * 64 + z) with ((x * 64 + y) * 64 + z) by lia.
  destruct (div_mod_digit (x * 64 + y) z Hz) as [Ed Em], (div_mod_digit x y Hy) as [Ed' Em'].
  change 4096 with (64 * 64). rewrite <- Z.div_div, Ed, Em, Ed', Em' by lia. by rewrite E1, E2.
Qed.

Lemma tail_four_inv b0 b1 b2 b3 l r x c h h' :
  is_byte b1 → is_byte b2 → is_byte b3 → 0 ≤ x < 8 → b0 = x + 0xF0 →
  tail_bytes (written (b0 :: b1 :: b2 :: b3 :: l) ++ r) x 4 h = Done (inl c) h' →
  h' = h ∧ [b0; b1; b2; b3] = sequence 4 c ∧ 0x10000 ≤ c < 0x200000.
Proof.
  intros Hb1 Hb2 Hb3 Hx -> Ht. unfold tail_bytes in Ht.
  change (4 =? 2) with false in Ht. change (4 =? 3) with false in Ht. cbv iota in Ht.
  rewrite (bind_Done _ _ _ _ _ (load_second _ _ _ _ _)), (bind_Done _ _ _ _ _ (load_third _ _ _ _ _ _)),
    (bind_Done _ _ _ _ _ (load_fourth _ _ _ _ _ _ _)) in Ht.
  destruct (continuation b1) eqn:Hc1, (continuation b2) eqn:Hc2, (continuation b3) eqn:Hc3; try done. cbn [negb] in Ht.
  destruct (continuation_inv b1 Hb1 Hc1) as [E1 Hy], (continuation_inv b2 Hb2 Hc2) as [E2 Hz],
    (continuation_inv b3 Hb3 Hc3) as [E3 Hw].
  set (y := Z.land b1 63) in *. set (z := Z.land b2 63) in *. set (w := Z.land b3 63) in *.
  destruct ((x =? 0) && (Z.land b1 0x30 =? 0)) eqn:Eo; [done|]. injection Ht as <- <-.
  rewrite join_four by done. assert (0 < x ∨ 16 ≤ y) as Hlow.
  { destruct (Z.eqb_spec x 0); [|lia]. right. cbn [andb] in Eo. rewrite E1 in Eo.
    destruct (Z.le_gt_cases 16 y) as [|Hlt]; [done|]. exfalso.
    pose proof (below_all (λ y, Z.land (y + 128) 0x30 =? 0) 16 eq_refl y ltac:(lia)) as E. cbv beta in E. congruence. }
  split_and!; [done| |lia..]. unfold sequence. cbn.
  replace (x * 262144 + y * 4096 + z * 64 + w) with (((x * 64 + y) * 64 + z) * 64 + w) by lia.
  destruct (div_mod_digit ((x * 64 + y) * 64 + z) w Hw) as [Ed Em],
    (div_mod_digit (x * 64 + y) z Hz) as [Ed' Em'], (div_mod_digit x y Hy) as [Ed'' Em''].
  change 262144 with (64 * (64 * 64)). change 4096 with (64 * 64).
  rewrite <- !Z.div_div, Ed, Em, Ed', Em', Ed'', Em'' by lia. by rewrite E1, E2, E3.
Qed.

(** C29: what the decoder of UTF-8 accepts is the encoding of the valid character it
    gives, except for sequences that start with C1, which are too long for the ASCII
    characters they hold, and for sequences that go beyond the last character. *)
Theorem utf_8_decoder_accepts l r max n c h h' :
  Forall is_byte l → 0 < max ≤ len l →
  utf_8_decoder (written l ++ r) max h = Done (n, c, false) h' →
  h' = h ∧ 1 ≤ n ≤ max ∧
  ((utf_8_valid c ∧ take (Z.to_nat n) l = (utf_8_encoder c).1) ∨
   (64 ≤ c < 128 ∧ take (Z.to_nat n) l = [0xC1; c + 64]) ∨
   (0x10FFFF < c < 0x200000 ∧ take (Z.to_nat n) l = sequence 4 c)).
Proof.
  intros Hb Hm Hd. destruct (utf_8_progress l r max h Hm) as (n' & c' & bad & E & Hn).
  rewrite E in Hd. injection Hd as -> -> -> <-. split_and!; [done|lia..|].
  destruct l as [|b0 l]; [simpl in Hm; lia|]. apply Forall_cons in Hb as [Hb0 Hb].
  unfold utf_8_decoder in E. rewrite (proj2 (Z.leb_gt max 0)) in E by lia.
  rewrite (bind_Done _ _ _ _ _ (load_written (b0 :: l) r 0 b0 h ltac:(lia) eq_refl)) in E.
  destruct (Z.land b0 0x80 =? 0) eqn:H80.
  { injection E as <- <-. left. apply ascii_inv in H80; [|done]. destruct Hb0.
    split; [unfold utf_8_valid; lia|]. cbn. unfold utf_8_encoder. by rewrite (proj2 (Z.leb_le b0 0x7F)) by lia. }
  destruct (Z.land b0 0x40 =? 0) eqn:H40; [done|].
  destruct (lead_byte b0) as [[x size]|] eqn:Hl; [|done].
  destruct (lead_byte_inv _ _ _ Hb0 H80 H40 Hl) as (E0 & Hx & Hs).
  destruct (Z.ltb_spec max size).
  { exfalso. revert E. destruct (1 <? max); unfold mbind, M_bind; [|done]. by destruct (swallow _ _ _ h). }
  apply bind_Done_inv in E as ([cum|i] & h1 & Ht & E); [|done].
  assert (cum = c ∧ n = size ∧ h1 = h ∧ ¬ (0xD800 ≤ c ≤ 0xDFFF) ∧ c ≠ 0xFFFE ∧ c ≠ 0xFFFF) as (-> & -> & -> & Hsur & Hn1 & Hn2).
  { revert E. destruct (Z.eqb_spec cum 0); [done|].
    destruct ((0xD800 <=? cum) && ((cum <=? 0xDFFF) || ((0xFFFE <=? cum) && (cum <=? 0xFFFF)))) eqn:Ec; [done|].
    intros [= <- <- <-]. split_and!; [done..| | |]; zbool; try done; lia. }
  clear E. assert (size = 2 ∨ size = 3 ∨ size = 4) as [-> | [-> | ->]] by lia.
  - destruct l as [|b1 l]; [simpl in Hm; lia|]. apply Forall_cons in Hb as [Hb1 _].
    destruct (tail_two_inv _ _ _ _ _ _ _ _ Hb1 Hx E0 Ht) as (_ & Eq & Hc).
    change (take (Z.to_nat 2) (b0 :: b1 :: l)) with [b0; b1]. rewrite Eq.
    destruct (Z.lt_ge_cases c 128).
    + right. left. split; [lia|]. unfold sequence. cbn [Z.eqb].
      assert (c / 64 = 1) as E1 by (pose proof (Z.div_mod c 64); pose proof (mod_64 c); lia).
      change (2 =? 2) with true. cbv iota. rewrite E1. pose proof (digits_two c). do 2 f_equal; lia.
    + left. split; [unfold utf_8_valid; lia|]. rewrite utf_8_encoder_eq by lia.
      by rewrite (proj2 (Z.leb_gt c 0x7F)), (proj2 (Z.leb_le c 0x7FF)) by lia.
  - destruct l as [|b1 [|b2 l]]; [simpl in Hm; lia..|]. rewrite !Forall_cons in Hb. destruct Hb as (Hb1 & Hb2 & _).
    destruct (tail_three_inv _ _ _ _ _ _ _ _ _ Hb1 Hb2 Hx E0 Ht) as (_ & Eq & Hc).
    change (take (Z.to_nat 3) (b0 :: b1 :: b2 :: l)) with [b0; b1; b2]. rewrite Eq.
    left. split; [unfold utf_8_valid; lia|]. rewrite utf_8_encoder_eq by lia.
    rewrite (proj2 (Z.leb_gt c 0x7F)), (proj2 (Z.leb_gt c 0x7FF)) by lia.
    by replace ((c <=? 0xD7FF) || ((0xDFFF <? c) && (c <? 0xFFFE))) with true by (zbool; lia).
  - destruct l as [|b1 [|b2 [|b3 l]]]; [simpl in Hm; lia..|]. rewrite !Forall_cons in Hb.
    destruct Hb as (Hb1 & Hb2 & Hb3 & _).
    destruct (tail_four_inv _ _ _ _ _ _ _ _ _ _ Hb1 Hb2 Hb3 Hx E0 Ht) as (_ & Eq & Hc).
    change (take (Z.to_nat 4) (b0 :: b1 :: b2 :: b3 :: l)) with [b0; b1; b2; b3]. rewrite Eq.
    destruct (Z.le_gt_cases c 0x10FFFF); [left|right; right; split; [lia|done]].
    split; [unfold utf_8_valid; lia|]. rewrite utf_8_encoder_eq by lia.
    rewrite (proj2 (Z.leb_gt c 0x7F)), (proj2 (Z.leb_gt c 0x7FF)) by lia.
    replace ((c <=? 0xD7FF) || ((0xDFFF <? c) && (c <? 0xFFFE))) with false by (zbool; lia).
    by rewrite (proj2 (Z.leb_gt c 0xFFFF)), (proj2 (Z.leb_le c 0x10FFFF)) by lia.
Qed.

(** ** Filling *)

(** C30: the functions that fill an object after a prefix leave in it the prefix and the
    encoded string, in place or in a new block; but the one that fills UTF-16 from a
    base string forgets the prefix in the fill pointer. *)
Theorem fill_writes h a fillp dim p rest x s :
  h !! a = Some (CUtf (Utf fillp dim (written p ++ rest))) → len p + len rest = dim + 1 → (0 < length rest)%nat →
  string_of h x s →
  (∃ h' dim', mkcl_fill_utf_8_from_string (OObj mkcl_t_UTF_8 a) (len p) x h = Done tt h' ∧
     holds utf_8 h' (OObj mkcl_t_UTF_8 a) (p ++ encoding utf_8 s) dim') ∧
  (Forall (λ c, c ≤ 255) s → ∃ h' dim', mkcl_fill_utf_8_from_base_string (OObj mkcl_t_UTF_8 a) (len p) x h = Done tt h' ∧
     holds utf_8 h' (OObj mkcl_t_UTF_8 a) (p ++ encoding utf_8 s) dim') ∧
  (∃ h' dim', mkcl_fill_utf_16_from_string (OObj mkcl_t_UTF_16 a) (len p) x h = Done tt h' ∧
     holds utf_16 h' (OObj mkcl_t_UTF_16 a) (p ++ encoding utf_16 s) dim') ∧
  (∃ dim' rest', mkcl_fill_utf_16_from_base_string (OObj mkcl_t_UTF_16 a) (len p) x h =
     Done tt (<[a := CUtf (Utf (len s) dim' (written (p ++ s ++ [0]) ++ rest'))]> h)).
Proof.
  intros Ha Hd Hr (Hread & Hc & _).
  assert (Hfill : ∀ K valid `{!CodecSpec K valid} most, Forall (λ c, is_code c ∧ char_size K c ≤ most) s →
    ∃ h' dim', fill_utf K most (OObj (utf_type K) a) (len p) s h = Done tt h' ∧
      holds K h' (OObj (utf_type K) a) (p ++ encoding K s) dim').
  { intros K valid ? most Hs. destruct (fill_utf_spec most a p rest fillp dim s h Ha Hd Hr Hs) as (h' & d & ? & ? & _).
    by exists h', d. }
  assert (Hmax : ∀ K valid `{!CodecSpec K valid}, Forall (λ c, is_code c ∧ char_size K c ≤ max_per_character K) s).
  { intros K valid ?. eapply Forall_impl; [exact Hc|]. intros c ?. split; [done|]. apply size_bounds. }
  split_and!.
  - unfold mkcl_fill_utf_8_from_string. rewrite (bind_Done _ _ _ _ _ Hread).
    by apply (Hfill utf_8 utf_8_valid _), (Hmax utf_8 utf_8_valid _).
  - intros Hb. unfold mkcl_fill_utf_8_from_base_string. rewrite (bind_Done _ _ _ _ _ Hread).
    apply (Hfill utf_8 utf_8_valid _). rewrite Forall_forall in *. intros c Hin. split; [by apply Hc|].
    specialize (Hb c Hin). cbv beta in Hb. cbn. unfold utf_8_size. repeat case_match; lia.
  - unfold mkcl_fill_utf_16_from_string. rewrite (bind_Done _ _ _ _ _ Hread).
    by apply (Hfill utf_16 utf_16_valid _), (Hmax utf_16 utf_16_valid _).
  - unfold mkcl_fill_utf_16_from_base_string. rewrite (bind_Done _ _ _ _ _ Hread).
    assert (read_utf utf_16 (OObj mkcl_t_UTF_16 a) h = Done (Utf fillp dim (written p ++ rest)) h) as Hu.
    { cbn. by rewrite Ha. }
    rewrite (bind_Done _ _ _ _ _ Hu). cbn [utf_dim utf_self]. cbv zeta.
    assert (∃ dim' rest1, (if dim <? len s + len p
       then self ← copy_units (new_block (len s + len p + 1)) 0 (written p ++ rest) (len p); mret (len s + len p, self)
       else mret (dim, written p ++ rest)) h = Done (dim', written p ++ rest1) h ∧ len s < len rest1)
      as (dim' & rest1 & E & Hl).
    { destruct (Z.ltb_spec dim (len s + len p)).
      - pose proof (copy_fresh p rest (length s + length p + 1) h ltac:(lia)) as E.
        replace (Z.of_nat (length s + length p + 1)) with (len s + len p + 1) in E by lia.
        rewrite (bind_Done _ _ _ _ _ E). do 2 eexists. split; [done|]. rewrite length_replicate. lia.
      - do 2 eexists. split; [done|]. lia. }
    rewrite (bind_Done _ _ _ _ _ E), (bind_Done _ _ _ _ _ (store_written p s rest1 h ltac:(lia))).
    replace (len p + len s) with (len (p ++ s)) by (rewrite length_app; lia).
    pose proof (store_end (p ++ s) (drop (length s) rest1) h) as Hse. rewrite length_drop in Hse.
    rewrite (bind_Done _ _ _ _ _ (Hse ltac:(lia))), <- app_assoc. by do 2 eexists.
Qed.

(** ** The last character *)

Lemma utf_8_char_any l r dim i inv h :
  0 ≤ i < len l → len l < word_modulus →
  ∃ n ch bad, utf_8_decoder (written (drop (Z.to_nat i) l) ++ r) (len l - i) h = Done (n, ch, bad) h ∧
    mkcl_utf_8_char (Utf (len l) dim (written l ++ r)) i inv h = Done (ch, i + n, inv || bad) h.
Proof.
  intros Hi Hw. destruct (utf_8_progress (drop (Z.to_nat i) l) r (len l - i) h) as (n & ch & bad & Hd & _).
  { rewrite length_drop. lia. }
  exists n, ch, bad. split; [done|]. unfold mkcl_utf_8_char. cbn [utf_self utf_fillp].
  rewrite uwrap_small by (unfold is_index; lia).
  assert (from (written l ++ r) i = written (drop (Z.to_nat i) l) ++ r) as ->.
  { rewrite <- (take_drop (Z.to_nat i) l) at 1.
    replace i with (len (take (Z.to_nat i) l)) at 3 by (rewrite length_take; lia). apply from_written. }
  by rewrite (bind_Done _ _ _ _ _ Hd).
Qed.

Lemma ascii_decoded c r max h : 0 ≤ c < 128 → 0 < max → utf_8_decoder (Some c :: r) max h = Done (1, c, false) h.
Proof.
  intros Hc Hm. pose proof (utf_8_reads c r max h) as E. unfold utf_8_valid, utf_8_size in E.
  unfold utf_8_encoder in E. rewrite (proj2 (Z.leb_le c 0x7F)) in E by lia. apply E; lia.
Qed.

Lemma trail_decoded x r max h :
  0 ≤ x < 64 → 0 < max → utf_8_decoder (Some (x + 128) :: r) max h = Done (1, replacement, true) h.
Proof.
  intros Hx Hm. unfold utf_8_decoder. rewrite (proj2 (Z.leb_gt max 0)) by lia.
  rewrite (bind_Done _ _ _ _ _ (load_written [x + 128] r 0 _ h ltac:(lia) eq_refl)).
  pose proof (below_all (λ x, negb (Z.land (x + 128) 0x80 =? 0) && (Z.land (x + 128) 0x40 =? 0)) 64 eq_refl x Hx) as E.
  cbv beta in E. apply andb_prop in E as [E1%negb_true_iff E2]. by rewrite E1, E2.
Qed.

(** SI:UTF-8-LAST gives the last character when it is of one byte; after two ASCII
    characters and one of two bytes, it gives the first of the three, as invalid. *)
Theorem utf_8_last_overshoots h x q d e c dim :
  0 ≤ d < 128 → len q + 4 < word_modulus →
  (holds utf_8 h x (q ++ [d]) dim → mk_si_utf_8_last x h = Done (MKCL_CODE_CHAR d, false) h) ∧
  (0x80 ≤ c ≤ 0x7FF → holds utf_8 h x (q ++ [d; e] ++ (utf_8_encoder c).1) dim →
   mk_si_utf_8_last x h = Done (MKCL_CODE_CHAR d, true) h).
Proof.
  intros Hd Hw. split.
  - intros (a & rest & -> & Ha & _). unfold mk_si_utf_8_last, mkcl_utf_8_last.
    rewrite (bind_Done _ _ _ _ _ (read_holds _ _ _ _ _ Ha)). cbn [utf_fillp].
    rewrite (proj2 (Z.eqb_neq _ _)) by (rewrite length_app; cbn; lia). rewrite fmap_app, <- app_assoc.
    destruct (utf_8_char_any (q ++ [d]) (written [0] ++ rest) dim (len (q ++ [d]) - 1) false h) as (n & ch & bad & E & Ec).
    { rewrite length_app. cbn. lia. }
    { rewrite length_app. cbn. lia. }
    replace (Z.to_nat (len (q ++ [d]) - 1)) with (length q) in E by (rewrite length_app; cbn; lia).
    rewrite drop_app_length in E. cbn [fmap list_fmap app] in E. rewrite ascii_decoded in E by lia.
    injection E as <- <- <-. cbn [last_char]. unfold mbind, M_bind. by rewrite Ec.
  - intros Hc (a & rest & -> & Ha & _). unfold mk_si_utf_8_last, mkcl_utf_8_last.
    rewrite (bind_Done _ _ _ _ _ (read_holds _ _ _ _ _ Ha)). cbn [utf_fillp].
    rewrite utf_8_encoder_eq, (proj2 (Z.leb_gt c 0x7F)), (proj2 (Z.leb_le c 0x7FF)) by lia. cbn [fst app].
    set (l := q ++ _). assert (len l = len q + 4) as Hl by (unfold l; rewrite length_app; cbn; lia).
    rewrite (proj2 (Z.eqb_neq _ _)) by lia. rewrite fmap_app, <- app_assoc.
    destruct (utf_8_char_any l (written [0] ++ rest) dim (len l - 1) false h) as (n3 & ch3 & bad3 & E3 & Ec3); [lia..|].
    destruct (utf_8_char_any l (written [0] ++ rest) dim (len l - 2) true h) as (n2 & ch2 & bad2 & E2 & Ec2); [lia..|].
    destruct (utf_8_char_any l (written [0] ++ rest) dim (len l - 3) true h) as (n1 & ch1 & bad1 & E1 & Ec1); [lia..|].
    destruct (utf_8_char_any l (written [0] ++ rest) dim (len l - 4) true h) as (n0 & ch0 & bad0 & E0 & Ec0); [lia..|].
    replace (Z.to_nat (len l - 1)) with (length (q ++ [d; e; c / 64 + 192])) in E3
      by (rewrite length_app; cbn; lia).
    replace (Z.to_nat (len l - 4)) with (length q) in E0 by lia.
    unfold l in E3 at 1, E0 at 1. rewrite drop_app_length in E0.
    replace (q ++ [d; e; c / 64 + 192; c mod 64 + 128]) with ((q ++ [d; e; c / 64 + 192]) ++ [c mod 64 + 128]) in E3
      by (by rewrite <- app_assoc).
    rewrite drop_app_length in E3. cbn [fmap list_fmap app] in E0, E3.
    rewrite trail_decoded in E3 by (apply mod_64 || lia). injection E3 as <- <- <-.
    rewrite ascii_decoded in E0 by lia. injection E0 as <- <- <-.
    replace (len l - 2) with (len l - 1 - 1) in Ec2 by lia. replace (len l - 3) with (len l - 1 - 1 - 1) in Ec1 by lia.
    replace (len l - 4) with (len l - 1 - 1 - 1 - 1) in Ec0 by lia.
    cbn [last_char orb] in *. unfold mbind, M_bind. rewrite Ec3, (proj2 (Z.ltb_lt 0 (len l - 1))) by lia.
    cbn [andb]. rewrite Ec2, (proj2 (Z.ltb_lt 0 (len l - 1 - 1))) by lia.
    cbn [andb]. rewrite Ec1, (proj2 (Z.ltb_lt 0 (len l - 1 - 1 - 1))) by lia.
    cbn [andb]. by rewrite Ec0.
Qed.

(** ** UTF-16 to UTF-8 *)

(** Characters of one element that are no halves of pairs. *)
Definition bmp (c : Z) : Prop := 0 ≤ c ≤ 0xFFFF ∧ ¬ (0xD800 ≤ c ≤ 0xDFFF).

Fixpoint every_other (s : list Z) : list Z :=
  match s with
  | c :: _ :: s' => c :: every_other s'
  | _ => s
  end.

Lemma utf_16_char_bmp p c l r dim inv h :
  bmp c → len (p ++ c :: l) < word_modulus →
  mkcl_utf_16_char (Utf (len (p ++ c :: l)) dim (written (p ++ c :: l) ++ r)) (len p) inv h =
  Done (c, len p + 1, false) h.
Proof.
  intros [Hc Hs] Hw. unfold mkcl_utf_16_char. cbn [utf_self utf_fillp].
  rewrite uwrap_small by (rewrite length_app in *; unfold is_index; lia). rewrite from_written.
  pose proof (utf_16_reads c (written l ++ r) (len (p ++ c :: l) - len p) h) as E.
  unfold utf_16_valid, utf_16_size, utf_16_encoder in E. rewrite (proj2 (Z.leb_le c 0xFFFF)) in E by lia.
  cbn [fst] in E. change (written (c :: l) ++ r) with (written [c] ++ written l ++ r).
  rewrite (bind_Done _ _ _ _ _ (E ltac:(lia) ltac:(rewrite length_app; cbn; lia))). done.
Qed.

Lemma converted_size_bmp fuel K s r dim h :
  Forall bmp s → len s < word_modulus → (length s < fuel)%nat →
  converted_size fuel K (mkcl_utf_16_char (Utf (len s) dim (written s ++ r))) (len s) false h =
  Done (add_sizes K 0 s, false) h.
Proof.
  intros Hs Hw Hf. unfold converted_size.
  eassert (wp (loop fuel _ (0, 0, false)) h (λ r h', h' = h ∧ r = (add_sizes K 0 s, false)) no_error) as Hwp.
  2: { by apply wp_done_inv in Hwp as (? & ? & E & -> & ->). }
  eapply (wp_loop (λ n '(i, d, inv) h', h' = h ∧ inv = false ∧ ∃ p t, s = p ++ t ∧ i = len p ∧
    add_sizes K 0 s = add_sizes K d t ∧ n = length t)).
  - intros n [[i d] inv] h' (-> & -> & p & t & E & -> & Hd & ->). rewrite Hd. subst s.
    destruct t as [|c t].
    { rewrite app_nil_r, (proj2 (Z.ltb_ge _ _)) by lia. by apply wp_ret. }
    apply Forall_app in Hs as [_ [Hc Hs]%Forall_cons].
    rewrite (proj2 (Z.ltb_lt _ _)) by (rewrite length_app; cbn; lia).
    apply wp_bind. eapply wp_Done; [by apply utf_16_char_bmp|]. apply wp_ret.
    exists (length t). split; [cbn; lia|]. split_and!; [done..|].
    exists (p ++ [c]), t. rewrite <- app_assoc, length_app. cbn. split_and!; [done|lia|done|done].
  - split_and!; [done..|]. by exists [], s.
  - done.
Qed.

Lemma convert_all_bmp fuel s r dim h n :
  Forall bmp s → len s < word_modulus → (length s < fuel)%nat →
  (length (encoding utf_8 (every_other s)) ≤ n)%nat →
  convert_all fuel utf_8 (mkcl_utf_16_char (Utf (len s) dim (written s ++ r))) (len s) (replicate n None) false h =
  Done (written (encoding utf_8 (every_other s)) ++ replicate (n - length (encoding utf_8 (every_other s))) None,
        len (encoding utf_8 (every_other s)), false, any_invalid utf_8 (every_other s)) h.
Proof.
  intros Hs Hw Hf Hn. unfold convert_all. set (out := every_other s) in *.
  eassert (wp (loop fuel _ (0, replicate n None, 0, false, false)) h
    (λ r h', h' = h ∧ r = (written (encoding utf_8 out) ++ replicate (n - length (encoding utf_8 out)) None,
        len (encoding utf_8 out), false, any_invalid utf_8 out)) no_error) as Hwp.
  2: { by apply wp_done_inv in Hwp as (? & ? & E & -> & ->). }
  eapply (wp_loop (λ m '(i, self, j, inv, bad) h', h' = h ∧ inv = false ∧ ∃ p t q,
    i = len p ∧ (s = p ++ t ∨ len s < len p ∧ t = []) ∧ m = length t ∧ out = q ++ every_other t ∧
    self = written (encoding utf_8 q) ++ replicate (n - length (encoding utf_8 q)) None ∧
    j = len (encoding utf_8 q) ∧ bad = any_invalid utf_8 q)).
  - intros m [[[[i self] j] inv] bad] h' (-> & -> & p & t & q & -> & Hst & -> & Hout & -> & -> & ->).
    destruct t as [|c t].
    { rewrite (proj2 (Z.ltb_ge _ _)).
      2: { destruct Hst as [-> | [? _]]; [rewrite app_nil_r; lia|lia]. }
      apply wp_ret. split; [done|]. by rewrite Hout, app_nil_r. }
    destruct Hst as [-> | [_ ?]]; [|done]. apply Forall_app in Hs as [_ [Hc Hs]%Forall_cons].
    rewrite (proj2 (Z.ltb_lt _ _)) by (rewrite length_app; cbn; lia).
    apply wp_bind. eapply wp_Done; [by apply utf_16_char_bmp|]. cbv beta iota.
    destruct (encoder utf_8 c) as [units bad'] eqn:Ec.
    assert (out = (q ++ [c]) ++ every_other (tail t)) as Hout'.
    { rewrite Hout, <- app_assoc. destruct t; [done|]. done. }
    assert (encoding utf_8 (q ++ [c]) = encoding utf_8 q ++ units) as Hq.
    { rewrite encoding_app. cbn [encoding]. rewrite encoding_cons, Ec. cbn. by rewrite app_nil_r. }
    assert (length (encoding utf_8 q) + length units ≤ n)%nat as Hfit.
    { rewrite Hout', encoding_app, Hq, !length_app in Hn. lia. }
    apply wp_bind. eapply wp_Done.
    { apply store_written. rewrite length_replicate. lia. }
    apply wp_ret. exists (length (tail t)). split; [destruct t; cbn; lia|]. split_and!; [done..|].
    exists (p ++ [c; default 0 (head t)]), (tail t), (q ++ [c]). rewrite Hq. split_and!.
    + rewrite length_app. cbn. lia.
    + destruct t as [|d t]; [right|left]; [rewrite !length_app; cbn; split; [lia|done]|by rewrite <- app_assoc].
    + done.
    + done.
    + rewrite drop_replicate, length_app. do 2 f_equal. lia.
    + rewrite length_app. lia.
    + unfold any_invalid. rewrite existsb_app. cbn [existsb]. by rewrite Ec, orb_false_r.
  - split_and!; [done..|]. exists [], s, []. split_and!; [done|by left|done..| |done|done].
    cbn. by rewrite Nat.sub_0_r.
  - done.
Qed.

Lemma length_every_other s : (length (encoding utf_8 (every_other s)) ≤ length (encoding utf_8 s))%nat.
Proof.
  assert (∀ n s, (length s ≤ n)%nat → (length (encoding utf_8 (every_other s)) ≤ length (encoding utf_8 s))%nat) as H.
  { clear s. induction n as [|n IH]; intros [|c [|d s]] Hs; cbn [length every_other] in *; try lia.
    rewrite !encoding_cons, !length_app. specialize (IH s ltac:(lia)). lia. }
  by apply (H (length s)).
Qed.

(** SI:UTF-8 of a UTF-16 object encodes every second character only, in an object
    as long as the encoding of all of them, whose end was never written. *)
Theorem utf_16_to_utf_8_drops fuel h x s dim :
  holds utf_16 h x s dim → Forall bmp s → len s < word_modulus → (length s < fuel)%nat →
  let all := length (encoding utf_8 s) in
  let half := encoding utf_8 (every_other s) in
  ∃ bad, mk_si_utf_8 fuel x h = Done (OObj mkcl_t_UTF_8 (first_free h), bad)
    (<[first_free h := CUtf (Utf (Z.of_nat all) (Z.of_nat all)
                         (written (half ++ [0]) ++ replicate (all - length half) None))]> h).
Proof.
  intros (a & rest & -> & Ha & _) Hs Hw Hf all half. exists (any_invalid utf_8 (every_other s) || false).
  cbn [mk_si_utf_8 utf_type utf_16]. unfold read_utf at 1.
  pose proof (read_holds (K := utf_16) _ _ _ _ _ Ha) as Hr. cbn [utf_type utf_16] in Hr.
  rewrite (bind_Done _ _ _ _ _ Hr). rewrite fmap_app, <- app_assoc. unfold convert. cbn [utf_fillp].
  rewrite (bind_Done _ _ _ _ _ (converted_size_bmp fuel utf_8 s _ dim h Hs Hw Hf)).
  rewrite (add_sizes_eq (K := utf_8)) by (eapply Forall_impl; [exact Hs|]; intros c [? _]; unfold is_code; lia).
  rewrite Z.add_0_l. fold all. unfold new_block.
  pose proof (length_every_other s) as Hle. fold all half in Hle.
  rewrite (bind_Done _ _ _ _ _ (convert_all_bmp fuel s _ dim h (Z.to_nat (Z.of_nat all + 1)) Hs Hw Hf ltac:(fold half; lia))).
  fold half. replace (Z.to_nat (Z.of_nat all + 1) - length half)%nat with (S (all - length half)) by lia.
  pose proof (store_end half (replicate (S (all - length half)) None) h) as Hse. rewrite length_replicate in Hse.
  rewrite (bind_Done _ _ _ _ _ (Hse ltac:(lia))).
  by rewrite drop_replicate, Nat.sub_succ, Nat.sub_0_r.
Qed.

(** ** Writing at the end, concatenation, and decoding in general *)

(** C31: a character, or the contents of an object, possibly the same one, are written
    after the contents of an object, which grows when its block is too short. *)
Theorem text_grows K fuel h x l dim :
  K = utf_8 ∨ K = utf_16 → holds K h x l dim →
  (∀ c, is_code c → has_room dim (char_size K c) l →
   ∃ h' dim', si_utf_push_extend K x (MKCL_CODE_CHAR c) h = Done (MKCL_MAKE_FIXNUM (len l)) h' ∧
     holds K h' x (l ++ (encoder K c).1) dim' ∧ updated h h' x) ∧
  (∀ y k dy, holds K h y k dy → len l + len k ≤ MKCL_ADIMLIM → (length k < fuel)%nat →
   ∃ h' dim', utf_nconc K fuel x y h = Done x h' ∧ holds K h' x (l ++ k) dim' ∧ updated h h' x).
Proof.
  intros HK Hx.
  assert (∃ valid, CodecSpec K valid ∧ max_per_character K ≤ 4) as (valid & HS & Hm).
  { destruct HK as [-> | ->]; [exists utf_8_valid|exists utf_16_valid]; (split; [apply _|done]). }
  split.
  - intros c Hc Hroom. destruct (push_extend_appends h x l dim c Hx Hc Hroom Hm) as (h' & dim' & E & ? & ?).
    exists h', dim'. split; [|done]. unfold si_utf_push_extend. rewrite (holds_is_utf _ _ _ _ Hx). cbn [negb MKCL_CODE_CHAR].
    by rewrite (bind_Done _ _ _ _ _ E).
  - intros y k dy Hy Hlim Hf. by apply (nconc_appends fuel h x y l k dim dy).
Qed.

(** SI:UTF-8+ and SI:UTF-16+ make a new object with the contents of their arguments,
    objects and strings, one after the other. *)
Theorem texts_concatenated fuel h args :
  (∀ ls, Forall2 (arg_text (K := utf_8) h) args ls →
   ∃ x h' dim, mk_si_utf_8Plus fuel args h = Done x h' ∧ h ⊆ h' ∧ holds utf_8 h' x (concat ls) dim) ∧
  (∀ ls, Forall2 (arg_text (K := utf_16) h) args ls →
   ∃ x h' dim, mk_si_utf_16Plus fuel args h = Done x h' ∧ h ⊆ h' ∧ holds utf_16 h' x (concat ls) dim).
Proof.
  split; intros ls Hargs.
  - apply (plus_concatenates utf_8_type (mk_si_utf_8 fuel)); [|done]. intros. by apply mk_si_utf_8_string.
  - apply (plus_concatenates utf_16_type (mk_si_utf_16 fuel)); [|done]. intros. by apply mk_si_utf_16_string.
Qed.

(** Decoding ends on every contents, valid or not, without an access outside of it,
    with at most as many characters as there were elements. *)
Theorem decoding_ends K fuel h x l dim :
  K = utf_8 ∨ K = utf_16 → holds K h x l dim → (length l < fuel)%nat →
  ∃ y bad h' s, mkcl_utf_to_string K fuel x h = Done (OString y, bad) h' ∧ h ⊆ h' ∧
    h' !! y = Some (CStr s) ∧ (length s ≤ length l)%nat.
Proof.
  intros HK (a & rest & -> & Ha & _) Hf.
  assert (∃ valid, CodecSpec K valid) as (valid & HS).
  { destruct HK as [-> | ->]; [exists utf_8_valid|exists utf_16_valid]; apply _. }
  destruct (decode_all_ends fuel l (written [0] ++ rest) dim h Hf) as (s & bad & E & Hlen).
  unfold mkcl_utf_to_string. rewrite (bind_Done _ _ _ _ _ (read_holds _ _ _ _ _ Ha)).
  rewrite fmap_app, <- app_assoc, (bind_Done _ _ _ _ _ E).
  exists (first_free h), bad. do 2 eexists. split; [done|].
  split; [apply insert_first_free_subseteq|]. rewrite lookup_insert_eq. by split.
Qed.
