(* ===== verification/UtfExamples.v ===== *)
(** * UtfExamples: the theorems on UTF-8 and UTF-16 at concrete inputs *)

From S2P Require Import Prelude Words Objects Heap Numbers Segments Equal Lists Sequences Utf UtfText UtfSpecs UtfFacts UtfTexts.
#[local] Open Scope Z_scope.

(** The characters a, é, the euro sign and a smiling face. *)
Definition sample : list Z := [97; 233; 8364; 128512].

(** A string, "ab" and "xyé" in UTF-8 with room for three more elements, "abc" in UTF-16. *)
Definition text_heap : heap := list_to_map [
  (1, CStr sample);
  (2, CUtf (Utf 2 5 (written [97; 98; 0] ++ replicate 3 None)));
  (3, CUtf (Utf 4 4 (written [120; 121; 0xC3; 0xA9; 0])));
  (4, CUtf (Utf 3 3 (written [97; 98; 99; 0]))) ].

Definition text2 : obj := OObj mkcl_t_UTF_8 2.
Definition text3 : obj := OObj mkcl_t_UTF_8 3.
Definition wide4 : obj := OObj mkcl_t_UTF_16 4.

(** The bytes and the pair of elements of the sample. *)
Example sample_utf_8 : encoding utf_8 sample = [97; 0xC3; 0xA9; 0xE2; 0x82; 0xAC; 0xF0; 0x9F; 0x98; 0x80].
Proof. by vm_compute. Qed.
Example sample_utf_16 : encoding utf_16 sample = [97; 233; 8364; 0xD83D; 0xDE00].
Proof. by vm_compute. Qed.

(** The decoder accepts C1 81 for the letter A, and a character that does not exist. *)
Example utf_8_overlong : utf_8_decoder (written [0xC1; 0x81]) 2 ∅ = Done (2, 65, false) ∅.
Proof. done. Qed.
Example utf_8_beyond : utf_8_decoder (written [0xF7; 0xBF; 0xBF; 0xBF]) 4 ∅ = Done (4, 0x1FFFFF, false) ∅.
Proof. done. Qed.

(** An incomplete sequence swallows the valid character after it. *)
Example utf_8_swallows : utf_8_decoder (written [0xE2; 65]) 2 ∅ = Done (2, replacement, true) ∅.
Proof. done. Qed.

(** SI:UTF-8-AS-IS turns a character beyond 255 into the one of its low byte. *)
Example as_is_truncates : utf_8_as_is_byte 0x141 = 0x41 ∧ utf_16_as_is_unit 0x10041 = 0x41 ∧ utf_16_as_is_unit 0xD800 = 0xD800.
Proof. by vm_compute. Qed.

(** The flag of SI:UTF-16-CHAR is false for half a pair. *)
Definition half_pair : heap := {[ 1 := CUtf (Utf 1 1 (written [0xD800; 0])) ]}.
Example utf_16_char_not_invalid :
  mk_si_utf_16_char (OObj mkcl_t_UTF_16 1) (OFix 0) half_pair = Done (OChar replacement, OFix 1, false) half_pair.
Proof. by vm_compute. Qed.

Lemma text2_holds : holds utf_8 text_heap text2 [97; 98] 5.
Proof. by exists 2, (replicate 3 None). Qed.
Lemma text3_holds : holds utf_8 text_heap text3 [120; 121; 0xC3; 0xA9] 4.
Proof. by exists 3, []. Qed.
Lemma wide4_holds : holds utf_16 text_heap wide4 [97; 98; 99] 3.
Proof. by exists 4, []. Qed.
Lemma sample_string : string_of text_heap (OString 1) sample.
Proof.
  split_and!; [done| |by intros [? [=]]]. unfold sample, is_code. repeat constructor; lia.
Qed.

Lemma text_roundtrip_witness :
  ∃ u h1 y h2, mk_si_utf_8 5 (OString 1) text_heap = Done (u, false) h1 ∧
    mkcl_utf_8_to_string 5 u h1 = Done (y, false) h2 ∧ string_of h2 y sample.
Proof.
  destruct (text_roundtrip 5 text_heap (OString 1) sample sample_string ltac:(cbn; lia)) as [H8 _].
  destruct H8 as (u & h1 & y & h2 & ? & _ & ? & _ & ?).
  { unfold sample, utf_8_valid. repeat constructor; lia. }
  by exists u, h1, y, h2.
Defined.

Lemma utf_8_decoder_accepts_witness : utf_8_valid 8364 ∧ take 3 [0xE2; 0x82; 0xAC; 97] = (utf_8_encoder 8364).1.
Proof.
  destruct (utf_8_decoder_accepts [0xE2; 0x82; 0xAC; 97] [] 4 3 8364 ∅ ∅) as (_ & _ & [H|[H|H]]).
  - repeat constructor; lia.
  - cbn. lia.
  - done.
  - exact H.
  - destruct H as [H _]. lia.
  - destruct H as [H _]. lia.
Defined.

Lemma fill_writes_witness :
  ∃ h' dim', mkcl_fill_utf_8_from_string text2 1 (OString 1) text_heap = Done tt h' ∧
    holds utf_8 h' text2 ([97] ++ encoding utf_8 sample) dim'.
Proof.
  destruct (fill_writes text_heap 2 2 5 [97] (written [98; 0] ++ replicate 3 None) (OString 1) sample) as (H & _).
  - done.
  - done.
  - cbn. lia.
  - apply sample_string.
  - exact H.
Defined.

Lemma utf_8_last_overshoots_witness :
  mk_si_utf_8_last text2 text_heap = Done (MKCL_CODE_CHAR 98, false) text_heap ∧
  mk_si_utf_8_last text3 text_heap = Done (MKCL_CODE_CHAR 120, true) text_heap.
Proof.
  split.
  - apply (utf_8_last_overshoots text_heap text2 [97] 98 0 0 5); [lia|done|]. exact text2_holds.
  - apply (utf_8_last_overshoots text_heap text3 [] 120 121 233 4); [lia|done|lia|]. exact text3_holds.
Defined.

Lemma utf_16_to_utf_8_drops_witness :
  ∃ bad, mk_si_utf_8 5 wide4 text_heap = Done (OObj mkcl_t_UTF_8 5, bad)
    (<[5 := CUtf (Utf 3 3 (written [97; 99; 0] ++ [None]))]> text_heap).
Proof.
  destruct (utf_16_to_utf_8_drops 5 text_heap wide4 [97; 98; 99] 3 wide4_holds) as [bad H].
  - repeat constructor; unfold bmp; lia.
  - done.
  - cbn. lia.
  - exists bad. exact H.
Defined.

Lemma text_grows_witness :
  (∃ h' dim', si_utf_push_extend utf_8 text3 (MKCL_CODE_CHAR 8364) text_heap = Done (MKCL_MAKE_FIXNUM 4) h' ∧
     holds utf_8 h' text3 [120; 121; 0xC3; 0xA9; 0xE2; 0x82; 0xAC] dim' ∧ updated text_heap h' text3) ∧
  (∃ h' dim', utf_nconc utf_8 5 text3 text3 text_heap = Done text3 h' ∧
     holds utf_8 h' text3 [120; 121; 0xC3; 0xA9; 120; 121; 0xC3; 0xA9] dim' ∧ updated text_heap h' text3).
Proof.
  split.
  - apply (text_grows utf_8 5 text_heap text3 [120; 121; 0xC3; 0xA9] 4 (or_introl eq_refl) text3_holds).
    + unfold is_code. lia.
    + right. done.
  - destruct (text_grows utf_8 5 text_heap text3 [120; 121; 0xC3; 0xA9] 4 (or_introl eq_refl) text3_holds) as [_ H].
    apply (H text3 [120; 121; 0xC3; 0xA9] 4).
    + exact text3_holds.
    + done.
    + cbn. lia.
Defined.

Lemma texts_concatenated_witness :
  ∃ x h' dim, mk_si_utf_8Plus 5 [text2; OString 1; text3] text_heap = Done x h' ∧
    holds utf_8 h' x ([97; 98] ++ encoding utf_8 sample ++ [120; 121; 0xC3; 0xA9]) dim.
Proof.
  destruct (texts_concatenated 5 text_heap [text2; OString 1; text3]) as [H _].
  destruct (H [[97; 98]; encoding utf_8 sample; [120; 121; 0xC3; 0xA9]]) as (x & h' & dim & E & _ & Hx).
  - constructor; [|constructor; [|constructor; [|constructor]]].
    + left. exists 5. exact text2_holds.
    + right. exists sample. split; [exact sample_string|done].
    + left. exists 4. exact text3_holds.
  - exists x, h', dim. split; [exact E|exact Hx].
Defined.

Lemma decoding_ends_witness :
  ∃ y bad h' s, mkcl_utf_to_string utf_16 4 wide4 text_heap = Done (OString y, bad) h' ∧
    h' !! y = Some (CStr s) ∧ (length s ≤ 3)%nat.
Proof.
  destruct (decoding_ends utf_16 4 text_heap wide4 [97; 98; 99] 3) as (y & bad & h' & s & ? & _ & ? & ?).
  - exact (or_intror eq_refl).
  - exact wide4_holds.
  - cbn. lia.
  - by exists y, bad, h', s.
Defined.
