(* ===== verification/Floats.v ===== *)
(** * Floats: the C types float and double, and the float objects

    C's arithmetic on [float] and [double] is that of IEEE 754 with rounding to the
    nearest, ties to even, as [SpecFloat] of the Standard Library defines it.  An
    operation on two C numbers converts both to the wider of their types first; an
    integer counts as narrower than a [float].

    MKCL_LONG_FLOAT is never defined (src/src/c/mkcl/config.h.in), so there are no
    objects with type [mkcl_t_longfloat] and the C code for them is not compiled.  The
    exceptions of the floating point unit are taken to be disabled, as in a new thread
    (src/src/c/threads.c). *)

From S2P Require Import Prelude Words Objects Heap.
#[local] Open Scope Z_scope.

(** ** The C types *)

(** FLT_MANT_DIG and DBL_MANT_DIG. *)
Definition mant_dig (k : float_kind) : Z := match k with SF => 24 | DF => 53 | LF => 64 end.
Definition max_exp (k : float_kind) : Z := match k with SF => 128 | DF => 1024 | LF => 16384 end.

(** [(float) n] and [(double) n] for an integer. *)
Definition fl_of_Z (k : float_kind) (n : Z) : spec_float :=
  binary_normalize (mant_dig k) (max_exp k) n 0 false.

(** [(float) f] and [(double) f]. *)
Definition fl_cvt (k : float_kind) (f : spec_float) : spec_float :=
  match f with
  | S754_finite s m e => binary_round (mant_dig k) (max_exp k) s m e
  | _ => f
  end.

Definition fl_add (k : float_kind) : spec_float → spec_float → spec_float := SFadd (mant_dig k) (max_exp k).
Definition fl_sub (k : float_kind) : spec_float → spec_float → spec_float := SFsub (mant_dig k) (max_exp k).
Definition fl_mul (k : float_kind) : spec_float → spec_float → spec_float := SFmul (mant_dig k) (max_exp k).
Definition fl_div (k : float_kind) : spec_float → spec_float → spec_float := SFdiv (mant_dig k) (max_exp k).
Definition fl_ldexp (k : float_kind) : spec_float → Z → spec_float := SFldexp (mant_dig k) (max_exp k).

(** The exponent of zero is 0; that of infinities and NaNs is left open, and 0 in the
    GNU library. *)
Definition fl_frexp (k : float_kind) (f : spec_float) : spec_float * Z :=
  match f with S754_finite _ _ _ => SFfrexp (mant_dig k) (max_exp k) f | _ => (f, 0) end.

(** FLT_MIN_EXP and DBL_MIN_EXP. *)
Definition min_exp (k : float_kind) : Z := 3 - max_exp k.

(** The sign bit; that of a NaN is not in [spec_float], and taken to be clear. *)
Definition fl_signbit (f : spec_float) : bool :=
  match f with S754_zero s | S754_infinity s | S754_finite s _ _ => s | S754_nan => false end.

(** A word as a C [int], which the second argument of [ldexp] is. *)
Definition int_wrap (z : Z) : Z := (z + 2 ^ 31) mod 2 ^ 32 - 2 ^ 31.

Definition fl_zero : spec_float := S754_zero false.
Definition fl_isinf (f : spec_float) : bool := match f with S754_infinity _ => true | _ => false end.

(** [floor] and [ceil], with the sign kept when the result is zero. *)
Definition fl_round_with (div : Z → Z → Z) (k : float_kind) (f : spec_float) : spec_float :=
  match f with
  | S754_finite s m e =>
      if 0 <=? e then f
      else binary_normalize (mant_dig k) (max_exp k) (div (cond_Zopp s (Z.pos m)) (2 ^ (- e))) 0 s
  | _ => f
  end.

Definition Zcdiv (a b : Z) : Z := - (- a / b).

Definition fl_floor : float_kind → spec_float → spec_float := fl_round_with Z.div.
Definition fl_ceil : float_kind → spec_float → spec_float := fl_round_with Zcdiv.

(** [(mkcl_word) f], in range; C leaves the other cases open, and the least word is what
    the x86-64 instruction gives for infinities and NaNs. *)
Definition fl_trunc (f : spec_float) : Z :=
  match f with
  | S754_finite s m e => cond_Zopp s (if 0 <=? e then Z.pos m * 2 ^ e else Z.pos m / 2 ^ (- e))
  | S754_zero _ => 0
  | _ => - half_modulus
  end.

(** ** Arithmetic on mixed operands *)

Inductive c_number := CWord (n : Z) | CFloat (k : float_kind) (f : spec_float).

Definition wider (k k' : float_kind) : float_kind :=
  match k, k' with SF, SF => SF | _, _ => DF end.

Definition c_to (k : float_kind) (x : c_number) : spec_float :=
  match x with CWord n => fl_of_Z k n | CFloat _ f => fl_cvt k f end.

Definition c_type (x y : c_number) : float_kind :=
  match x, y with
  | CFloat k _, CFloat k' _ => wider k k'
  | CFloat k _, CWord _ | CWord _, CFloat k _ => k
  | CWord _, CWord _ => DF
  end.

(** [x op y]: its type and its value. *)
Definition c_op (op : float_kind → spec_float → spec_float → spec_float) (x y : c_number) : float_kind * spec_float :=
  let k := c_type x y in (k, op k (c_to k x) (c_to k y)).

(** Comparison, for which float operands are converted to the wider type. *)
Definition c_compare (x y : c_number) : option comparison :=
  let k := c_type x y in SFcompare (c_to k x) (c_to k y).

(** ** Float objects, src/src/c/number.c *)

(** [mkcl_core.singlefloat_zero] and the three other constants. *)
Definition float_zero (k : float_kind) (minus : bool) : obj :=
  OFloat k (match k, minus with SF, false => -11 | SF, true => -12 | _, false => -13 | _, true => -14 end)
    (S754_zero minus).

Definition make_float (k : float_kind) (f : spec_float) : M obj :=
  match f with
  | S754_zero minus => mret (float_zero k minus)
  | _ => a ← alloc CBox; mret (OFloat k a f)
  end.

Definition mkcl_make_singlefloat (f : spec_float) : M obj := make_float SF f.
Definition mkcl_make_doublefloat (f : spec_float) : M obj := make_float DF f.

(** ** Lemmas *)

Lemma make_float_spec k f h :
  ∃ a h', make_float k f h = Done (OFloat k a f) h' ∧ h ⊆ h'.
Proof.
  destruct f as [minus| | |]; simpl; [by eexists _, h|..];
    (eexists _, _; split; [done|apply insert_first_free_subseteq]).
Qed.
