(* ===== verification/NumPred.v ===== *)
(** * NumPred: bignum arithmetic, and the predicates on numbers, src/src/c/num_pred.c

    The functions of GMP that the arithmetic calls are the interface [GMPArith], with
    their documented meaning in [GMPArithSpec].  GMP divides by zero on purpose to
    trap, so a division checks its divisor here. *)

From S2P Require Import Prelude Words Objects Heap Numbers Floats Lists.
#[local] Open Scope Z_scope.

(** ** The interface to GMP *)

Class GMPArith := {
  mpz_set_si : Z → Z;
  mpz_set_d : spec_float → option Z;     (* undefined on infinities and NaNs *)
  mpz_add : Z → Z → Z;
  mpz_sub : Z → Z → Z;
  mpz_mul : Z → Z → Z;
  mpz_add_ui : Z → Z → Z;
  mpz_sub_ui : Z → Z → Z;
  mpz_mul_si : Z → Z → Z;
  mpz_neg : Z → Z;
  mpz_gcd : Z → Z → Z;
  mpz_cmp : Z → Z → Z;
  mpz_cmp_si : Z → Z → Z;
  mpz_tdiv_q : Z → Z → Z;
  mpz_tdiv_q_ui : Z → Z → Z;
  mpz_fdiv_qr : Z → Z → Z * Z;
  mpz_cdiv_qr : Z → Z → Z * Z;
  mpz_odd_p : Z → bool;
  mpz_even_p : Z → bool;
  mpz_scan1 : Z → Z → Z;
}.

Class GMPArithSpec `{!GMP, !GMPArith} : Prop := {
  mpz_set_si_eq i : is_word i → mpz_set_si i = i;
  mpz_set_d_eq s m e : mpz_set_d (S754_finite s m e) = Some (fl_trunc (S754_finite s m e));
  mpz_add_eq x y : mpz_add x y = x + y;
  mpz_sub_eq x y : mpz_sub x y = x - y;
  mpz_mul_eq x y : mpz_mul x y = x * y;
  mpz_add_ui_eq x i : is_index i → mpz_add_ui x i = x + i;
  mpz_sub_ui_eq x i : is_index i → mpz_sub_ui x i = x - i;
  mpz_mul_si_eq x i : is_word i → mpz_mul_si x i = x * i;
  mpz_neg_eq x : mpz_neg x = - x;
  mpz_gcd_eq x y : mpz_gcd x y = Z.gcd x y;
  mpz_cmp_sgn x y : Z.sgn (mpz_cmp x y) = Z.sgn (x - y);
  mpz_cmp_si_sgn x i : is_word i → Z.sgn (mpz_cmp_si x i) = Z.sgn (x - i);
  mpz_tdiv_q_eq x y : y ≠ 0 → mpz_tdiv_q x y = Z.quot x y;
  mpz_tdiv_q_ui_eq x i : is_index i → i ≠ 0 → mpz_tdiv_q_ui x i = Z.quot x i;
  mpz_fdiv_qr_eq x y : y ≠ 0 → mpz_fdiv_qr x y = (x / y, x mod y);
  mpz_cdiv_qr_eq x y : y ≠ 0 → mpz_cdiv_qr x y = (Zcdiv x y, x - y * Zcdiv x y);
  mpz_odd_p_eq x : mpz_odd_p x = Z.odd x;
  mpz_even_p_eq x : mpz_even_p x = Z.even x;
  mpz_scan1_zero : mpz_scan1 0 0 = word_modulus - 1;
  mpz_scan1_bit x : x ≠ 0 →
    0 ≤ mpz_scan1 x 0 ∧ Z.testbit x (mpz_scan1 x 0) = true ∧
    ∀ j, 0 ≤ j < mpz_scan1 x 0 → Z.testbit x j = false;
  mp_size_pos x : 0 < x → mp_size x = Z.log2 x / 64 + 1;
}.

(** The lowest bit set from [i], among [n]. *)
Fixpoint lowest_bit (n : nat) (x i : Z) : Z :=
  match n with
  | O => i
  | S n => if Z.testbit x i then i else lowest_bit n x (i + 1)
  end.

(** A reference implementation, for the instances of the theorems. *)
#[export] Instance gmp_arith_ref : GMPArith := {
  mpz_set_si i := i;
  mpz_set_d f := match f with S754_infinity _ | S754_nan => None | _ => Some (fl_trunc f) end;
  mpz_add := Z.add;
  mpz_sub := Z.sub;
  mpz_mul := Z.mul;
  mpz_add_ui := Z.add;
  mpz_sub_ui := Z.sub;
  mpz_mul_si := Z.mul;
  mpz_neg := Z.opp;
  mpz_gcd := Z.gcd;
  mpz_cmp x y := Z.sgn (x - y);
  mpz_cmp_si x y := Z.sgn (x - y);
  mpz_tdiv_q := Z.quot;
  mpz_tdiv_q_ui := Z.quot;
  mpz_fdiv_qr x y := (x / y, x mod y);
  mpz_cdiv_qr x y := (Zcdiv x y, x - y * Zcdiv x y);
  mpz_odd_p := Z.odd;
  mpz_even_p := Z.even;
  mpz_scan1 x i := if x =? 0 then word_modulus - 1 else lowest_bit (Z.to_nat (Z.log2 (Z.abs x) + 2)) x i;
}.

Lemma lowest_bit_spec n x i :
  (∃ j, i ≤ j < i + Z.of_nat n ∧ Z.testbit x j = true) →
  i ≤ lowest_bit n x i ∧ Z.testbit x (lowest_bit n x i) = true ∧
  ∀ j, i ≤ j < lowest_bit n x i → Z.testbit x j = false.
Proof.
  revert i. induction n as [|n IH]; intros i (j & Hj & Hb); [lia|]. simpl.
  destruct (Z.testbit x i) eqn:E; [split_and!; [lia|done|intros; lia]|].
  destruct (IH (i + 1)) as (H1 & H2 & H3).
  { exists j. split; [|done]. assert (j ≠ i) by congruence. lia. }
  split_and!; [lia|done|]. intros k Hk. destruct (decide (k = i)) as [->|]; [done|]. apply H3. lia.
Qed.

Lemma top_bit x : x ≠ 0 → ∃ j, 0 ≤ j < 0 + Z.of_nat (Z.to_nat (Z.log2 (Z.abs x) + 2)) ∧ Z.testbit x j = true.
Proof.
  intros Hx. pose proof (Z.log2_nonneg (Z.abs x)). destruct (decide (0 < x)).
  - exists (Z.log2 x). rewrite Z.abs_eq by lia. split; [pose proof (Z.log2_nonneg x); lia|]. by apply Z.bit_log2.
  - exists (Z.log2 (Z.abs x) + 1). split; [lia|]. apply Z.bits_above_log2_neg; [lia|].
    apply Z.lt_le_trans with (Z.log2 (Z.abs x) + 1); [|lia].
    pose proof (Z.log2_le_mono (Z.pred (- x)) (Z.abs x)). lia.
Qed.

#[export] Instance gmp_arith_ref_spec : GMPArithSpec.
Proof.
  split; simpl; try done; try (intros; by rewrite Z.sgn_sgn).
  - intros x Hx. rewrite (proj2 (Z.eqb_neq x 0)) by done. by apply lowest_bit_spec, top_bit.
  - intros x Hx. rewrite (proj2 (Z.eqb_neq x 0)), Z.abs_eq, Z.sgn_pos by lia. lia.
Qed.

(** ** Operands *)

Section with_gmp.
Context `{!GMP, !GMPArith}.

(** The field [big.big_num]. *)
Definition big_num (x : obj) : Z := match x with OBig _ z => z | _ => 0 end.

Definition big_tdiv_q (x y : Z) : M Z := if y =? 0 then raise Sigfpe else mret (mpz_tdiv_q x y).
Definition big_tdiv_q_ui (x y : Z) : M Z := if y =? 0 then raise Sigfpe else mret (mpz_tdiv_q_ui x y).
Definition big_fdiv_qr (x y : Z) : M (Z * Z) := if y =? 0 then raise Sigfpe else mret (mpz_fdiv_qr x y).
Definition big_cdiv_qr (x y : Z) : M (Z * Z) := if y =? 0 then raise Sigfpe else mret (mpz_cdiv_qr x y).

Definition MKCL_NUMBER_TYPE_P (t : mkcl_type) : bool :=
  (type_code mkcl_t_fixnum <=? type_code t) && (type_code t <=? type_code mkcl_t_complex).
Definition MKCL_REAL_TYPE_P (t : mkcl_type) : bool :=
  (type_code mkcl_t_fixnum <=? type_code t) && (type_code t <? type_code mkcl_t_complex).

(** ** The predicates *)

Fixpoint mkcl_zerop (x : obj) : M bool :=
  match x with
  | OFix _ => mret (obj_eq x (MKCL_MAKE_FIXNUM 0))
  | OBig _ _ | ORatio _ _ _ => mret false
  | OFloat SF _ f | OFloat DF _ f => mret (SFeqb f fl_zero)
  | OComplex _ r i => andM (mkcl_zerop r) (mkcl_zerop i)
  | _ => raise (FEtype_error_number x)
  end.

Fixpoint mkcl_plusp (x : obj) : M bool :=
  match x with
  | OFix n => mret (0 <? n)
  | OBig _ z => mret (0 <? mpz_sgn z)
  | ORatio _ num _ => mkcl_plusp num
  | OFloat SF _ f | OFloat DF _ f => mret (SFltb fl_zero f)
  | _ => raise (FEtype_error_real x)
  end.

Fixpoint mkcl_minusp (x : obj) : M bool :=
  match x with
  | OFix n => mret (n <? 0)
  | OBig _ z => mret (mpz_sgn z <? 0)
  | ORatio _ num _ => mkcl_minusp num
  | OFloat SF _ f | OFloat DF _ f => mret (SFltb f fl_zero)
  | _ => raise (FEtype_error_real x)
  end.

Definition mkcl_oddp (x : obj) : M bool :=
  match x with
  | OFix n => mret (negb (Z.land n 1 =? 0))
  | OBig _ z => mret (mpz_odd_p z)
  | _ => raise (FEtype_error_integer x)
  end.

Definition mkcl_evenp (x : obj) : M bool :=
  match x with
  | OFix n => mret (negb (Z.land (Z.lnot n) 1 =? 0))
  | OBig _ z => mret (mpz_even_p z)
  | _ => raise (FEtype_error_integer x)
  end.

Definition mk_cl_zerop (x : obj) : M obj := b ← mkcl_zerop x; mret (lisp_bool b).
Definition mk_cl_plusp (x : obj) : M obj := b ← mkcl_plusp x; mret (lisp_bool b).
Definition mk_cl_minusp (x : obj) : M obj := b ← mkcl_minusp x; mret (lisp_bool b).
Definition mk_cl_oddp (x : obj) : M obj := b ← mkcl_oddp x; mret (lisp_bool b).
Definition mk_cl_evenp (x : obj) : M obj := b ← mkcl_evenp x; mret (lisp_bool b).

Definition mkcl_float_nan_p (x : obj) : bool :=
  match x with OFloat SF _ f | OFloat DF _ f => isnan f | _ => false end.
Definition mkcl_float_infinity_p (x : obj) : bool :=
  match x with OFloat SF _ f | OFloat DF _ f => fl_isinf f | _ => false end.
Definition mk_si_float_nan_p (x : obj) : obj := lisp_bool (mkcl_float_nan_p x).
Definition mk_si_float_infinity_p (x : obj) : obj := lisp_bool (mkcl_float_infinity_p x).
End with_gmp.
