(* ===== verification/Arith.v ===== *)
(** * Arith: arithmetic on numbers, src/src/c/num_arith.c

    Sums, products, differences and quotients of any two numbers, ratios and complex
    numbers (src/src/c/number.c), GCD, LCM, 1+, 1- and the functions of any number of
    arguments.  A ratio of two integers is in lowest terms with a positive denominator.

    The functions call each other on the parts of ratios and complex numbers; [fuel]
    bounds the depth of these calls.  The conversion of rational numbers to [double]
    (src/src/c/number.c) divides integers, and so uses this file in turn; it is the
    interface [ToDouble] here, and [ToFloat] has its definition.  C leaves open the
    order of the arguments of a call; here it is from left to right. *)

From S2P Require Import Prelude Words Objects Heap Numbers Floats Lists NumPred.
#[local] Open Scope Z_scope.

Class ToDouble := { to_double : obj → M spec_float; }.

Section arithmetic.
Context `{!GMP, !GMPArith, !ToDouble}.

(** ** Integers *)

Definition mkcl_word_times (i j : Z) : M obj := _mkcl_big_register_normalize (mpz_mul_si (mpz_set_si i) j).

Definition _mkcl_big_times_fix (b : obj) (i : Z) : M obj :=
  if i =? 1 then mret b
  else if i =? -1 then _mkcl_big_register_normalize (mpz_neg (big_num b))
  else _mkcl_big_register_normalize (mpz_mul_si (big_num b) i).

Definition _mkcl_big_times_big (x y : obj) : M obj :=
  _mkcl_big_register_normalize (mpz_mul (big_num x) (big_num y)).

(** A fixnum goes to a register first. *)
Definition gcd_operand (x : obj) : M Z :=
  match x with
  | OFix n => mret (mpz_set_si n)
  | OBig _ z => mret z
  | _ => raise (FEtype_error_integer x)
  end.

Definition mkcl_gcd (x y : obj) : M obj :=
  x_big ← gcd_operand x;
  y_big ← gcd_operand y;
  _mkcl_big_register_normalize (mpz_gcd x_big y_big).

Definition mkcl_integer_divide (x y : obj) : M obj :=
  match x with
  | OFix i =>
      match y with
      | OFix j =>
          if obj_eq y (MKCL_MAKE_FIXNUM 0) then raise (FEdivision_by_zero x y)
          else mret (MKCL_MAKE_FIXNUM (swrap (Z.quot i j)))
      | OBig _ z =>
          mret (if negb (mpz_cmp_si z (swrap (- i)) =? 0) then MKCL_MAKE_FIXNUM 0 else MKCL_MAKE_FIXNUM (-1))
      | _ => raise (FEtype_error_integer y)
      end
  | OBig _ z =>
      match y with
      | OBig _ w => q ← big_tdiv_q z w; _mkcl_big_register_normalize q
      | OFix j =>
          q ← big_tdiv_q_ui z (Z.abs j);
          _mkcl_big_register_normalize (if j <? 0 then mpz_neg q else q)
      | _ => raise (FEtype_error_integer y)
      end
  | _ => raise (FEtype_error_integer x)
  end.

(** ** Complex numbers, src/src/c/number.c *)

Definition new_complex (r i : obj) : M obj := a ← alloc CBox; mret (OComplex a r i).

Definition mkcl_make_complex (r i : obj) : M obj :=
  match r with
  | OFix _ | OBig _ _ | ORatio _ _ _ =>
      match i with
      | OFix _ => if obj_eq i (MKCL_MAKE_FIXNUM 0) then mret r else new_complex r i
      | OBig _ _ | ORatio _ _ _ => new_complex r i
      | OFloat SF _ _ => d ← to_double r; r ← mkcl_make_singlefloat (fl_cvt SF d); new_complex r i
      | OFloat DF _ _ => d ← to_double r; r ← mkcl_make_doublefloat d; new_complex r i
      | _ => raise (FEwrong_type_argument i)
      end
  | OFloat SF _ f =>
      match i with
      | OFix _ | OBig _ _ | ORatio _ _ _ =>
          d ← to_double i; i ← mkcl_make_singlefloat (fl_cvt SF d); new_complex r i
      | OFloat SF _ _ => new_complex r i
      | OFloat DF _ _ => r ← mkcl_make_doublefloat (fl_cvt DF f); new_complex r i
      | _ => raise (FEwrong_type_argument i)
      end
  | OFloat DF _ _ =>
      match i with
      | OFix _ | OBig _ _ | ORatio _ _ _ | OFloat SF _ _ =>
          d ← to_double i; i ← mkcl_make_doublefloat d; new_complex r i
      | OFloat DF _ _ => new_complex r i
      | _ => raise (FEwrong_type_argument i)
      end
  | _ => raise (FEwrong_type_argument r)
  end.

(** ** Negation, and ratios *)

Fixpoint mkcl_negate (x : obj) : M obj :=
  match x with
  | OFix n => mkcl_make_integer (swrap (- n))
  | OBig _ z => _mkcl_big_register_normalize (mpz_neg z)
  | ORatio _ num den => z1 ← mkcl_negate num; a ← alloc CBox; mret (ORatio a z1 den)
  | OFloat SF _ f => a ← alloc CBox; mret (OFloat SF a (SFopp f))
  | OFloat DF _ f => a ← alloc CBox; mret (OFloat DF a (SFopp f))
  | OComplex _ r i => z ← mkcl_negate r; z1 ← mkcl_negate i; mkcl_make_complex z z1
  | _ => raise (FEtype_error_number x)
  end.

(** src/src/c/number.c; [num] and [den] are integers. *)
Definition mkcl_make_ratio (num den : obj) : M obj :=
  if obj_eq den (MKCL_MAKE_FIXNUM 0) then raise (FEdivision_by_zero num den)
  else if obj_eq num (MKCL_MAKE_FIXNUM 0) || obj_eq den (MKCL_MAKE_FIXNUM 1) then mret num
  else
    minus ← mkcl_minusp den;
    p ← (if (minus : bool) then num ← mkcl_negate num; den ← mkcl_negate den; mret (num, den)
         else mret (num, den));
    let '(num, den) := (p : obj * obj) in
    g ← mkcl_gcd num den;
    p ← (if negb (obj_eq g (MKCL_MAKE_FIXNUM 1))
         then num ← mkcl_integer_divide num g; den ← mkcl_integer_divide den g; mret (num, den)
         else mret (num, den));
    let '(num, den) := (p : obj * obj) in
    if obj_eq den (MKCL_MAKE_FIXNUM 1) then mret num
    else if obj_eq den (MKCL_MAKE_FIXNUM (-1)) then mkcl_negate num
    else a ← alloc CBox; mret (ORatio a num den).

(** ** Floats

    One operand at least is a float.  C computes with the numbers [c_operand] makes of
    the objects, and the object for the result has the type of the widest float among
    the operands. *)

Definition c_operand (x : obj) : M c_number :=
  match x with
  | OFix n => mret (CWord n)
  | OFloat k _ f => mret (CFloat k f)
  | _ => d ← to_double x; mret (CFloat DF d)
  end.

Definition float_result (x y : obj) : float_kind :=
  match x, y with OFloat DF _ _, _ | _, OFloat DF _ _ => DF | _, _ => SF end.

Definition float_arith (op : float_kind → spec_float → spec_float → spec_float) (x y : obj) : M obj :=
  a ← c_operand x;
  b ← c_operand y;
  make_float (float_result x y) (fl_cvt (float_result x y) (c_op op a b).2).

(** ** Sums, differences and products *)

(** [_mkcl_big_add_ui] and [_mkcl_big_sub_ui] by the sign of the fixnum [i]. *)
Definition big_plus_fix (z i : Z) : Z := if 0 <? i then mpz_add_ui z i else mpz_sub_ui z (swrap (- i)).
Definition big_minus_fix (z i : Z) : Z := if 0 <? i then mpz_sub_ui z i else mpz_add_ui z (swrap (- i)).

Fixpoint mkcl_times (fuel : nat) (x y : obj) : M obj :=
  match fuel with
  | O => diverge
  | S fuel =>
      (* the label COMPLEX: [x] is real and [yr], [yi] are the parts of [y] *)
      let complex x yr yi := a ← mkcl_times fuel x yr; b ← mkcl_times fuel x yi; mkcl_make_complex a b in
      match x with
      | OFix i =>
          match y with
          | OFix j => mkcl_word_times i j
          | OBig _ _ => _mkcl_big_times_fix y i
          | ORatio _ num den => z ← mkcl_times fuel x num; mkcl_make_ratio z den
          | OFloat SF _ _ | OFloat DF _ _ => float_arith fl_mul x y
          | OComplex _ yr yi => complex x yr yi
          | _ => raise (FEtype_error_number y)
          end
      | OBig _ _ =>
          match y with
          | OFix j => _mkcl_big_times_fix x j
          | OBig _ _ => _mkcl_big_times_big x y
          | ORatio _ num den => z ← mkcl_times fuel x num; mkcl_make_ratio z den
          | OFloat SF _ _ | OFloat DF _ _ => float_arith fl_mul x y
          | OComplex _ yr yi => complex x yr yi
          | _ => raise (FEtype_error_number y)
          end
      | ORatio _ xn xd =>
          match y with
          | OFix _ | OBig _ _ => z ← mkcl_times fuel xn y; mkcl_make_ratio z xd
          | ORatio _ yn yd => z ← mkcl_times fuel xn yn; z1 ← mkcl_times fuel xd yd; mkcl_make_ratio z z1
          | OFloat SF _ _ | OFloat DF _ _ => float_arith fl_mul x y
          | OComplex _ yr yi => complex x yr yi
          | _ => raise (FEtype_error_number y)
          end
      | OFloat SF _ _ | OFloat DF _ _ =>
          match y with
          | OFix _ | OBig _ _ | ORatio _ _ _ | OFloat SF _ _ | OFloat DF _ _ => float_arith fl_mul x y
          | OComplex _ yr yi => complex x yr yi
          | _ => raise (FEtype_error_number y)
          end
      | OComplex _ xr xi =>
          match y with
          | OComplex _ yr yi =>
              z11 ← mkcl_times fuel xr yr;
              z12 ← mkcl_times fuel xi yi;
              z21 ← mkcl_times fuel xi yr;
              z22 ← mkcl_times fuel xr yi;
              r ← mkcl_minus fuel z11 z12;
              i ← mkcl_plus fuel z21 z22;
              mkcl_make_complex r i
          | _ => complex y xr xi
          end
      | _ => raise (FEtype_error_number x)
      end
  end
with mkcl_plus (fuel : nat) (x y : obj) : M obj :=
  match fuel with
  | O => diverge
  | S fuel =>
      let complex x yr yi := a ← mkcl_plus fuel x yr; mkcl_make_complex a yi in
      match x with
      | OFix i =>
          match y with
          | OFix j => mkcl_make_integer (swrap (i + j))
          | OBig _ z => if i =? 0 then mret y else _mkcl_big_register_normalize (big_plus_fix z i)
          | ORatio _ num den =>
              z ← mkcl_times fuel x den; z ← mkcl_plus fuel z num; mkcl_make_ratio z den
          | OFloat SF _ _ | OFloat DF _ _ => float_arith fl_add x y
          | OComplex _ yr yi => complex x yr yi
          | _ => raise (FEtype_error_number y)
          end
      | OBig _ z =>
          match y with
          | OFix j => if j =? 0 then mret x else _mkcl_big_register_normalize (big_plus_fix z j)
          | OBig _ w => _mkcl_big_register_normalize (mpz_add z w)
          | ORatio _ num den =>
              z ← mkcl_times fuel x den; z ← mkcl_plus fuel z num; mkcl_make_ratio z den
          | OFloat SF _ _ | OFloat DF _ _ => float_arith fl_add x y
          | OComplex _ yr yi => complex x yr yi
          | _ => raise (FEtype_error_number y)
          end
      | ORatio _ xn xd =>
          match y with
          | OFix _ | OBig _ _ =>
              z ← mkcl_times fuel xd y; z ← mkcl_plus fuel xn z; mkcl_make_ratio z xd
          | ORatio _ yn yd =>
              z1 ← mkcl_times fuel xn yd;
              z ← mkcl_times fuel xd yn;
              z ← mkcl_plus fuel z1 z;
              z1 ← mkcl_times fuel xd yd;
              mkcl_make_ratio z z1
          | OFloat SF _ _ | OFloat DF _ _ => float_arith fl_add x y
          | OComplex _ yr yi => complex x yr yi
          | _ => raise (FEtype_error_number y)
          end
      | OFloat SF _ _ | OFloat DF _ _ =>
          match y with
          | OFix _ | OBig _ _ | ORatio _ _ _ | OFloat SF _ _ | OFloat DF _ _ => float_arith fl_add x y
          | OComplex _ yr yi => complex x yr yi
          | _ => raise (FEtype_error_number y)
          end
      | OComplex _ xr xi =>
          match y with
          | OComplex _ yr yi => z ← mkcl_plus fuel xr yr; z1 ← mkcl_plus fuel xi yi; mkcl_make_complex z z1
          | _ => complex y xr xi
          end
      | _ => raise (FEtype_error_number x)
      end
  end
with mkcl_minus (fuel : nat) (x y : obj) : M obj :=
  match fuel with
  | O => diverge
  | S fuel =>
      let complex x yr yi := a ← mkcl_minus fuel x yr; b ← mkcl_negate yi; mkcl_make_complex a b in
      match x with
      | OFix i =>
          match y with
          | OFix j => mkcl_make_integer (swrap (i - j))
          | OBig _ z => _mkcl_big_register_normalize (mpz_neg (big_minus_fix z i))
          | ORatio _ num den =>
              z ← mkcl_times fuel x den; z ← mkcl_minus fuel z num; mkcl_make_ratio z den
          | OFloat SF _ _ | OFloat DF _ _ => float_arith fl_sub x y
          | OComplex _ yr yi => complex x yr yi
          | _ => raise (FEtype_error_number y)
          end
      | OBig _ z =>
          match y with
          | OFix j => if j =? 0 then mret x else _mkcl_big_register_normalize (big_minus_fix z j)
          | OBig _ w => _mkcl_big_register_normalize (mpz_sub z w)
          | ORatio _ num den =>
              z ← mkcl_times fuel x den; z ← mkcl_minus fuel z num; mkcl_make_ratio z den
          | OFloat SF _ _ | OFloat DF _ _ => float_arith fl_sub x y
          | OComplex _ yr yi => complex x yr yi
          | _ => raise (FEtype_error_number y)
          end
      | ORatio _ xn xd =>
          match y with
          | OFix _ | OBig _ _ =>
              z ← mkcl_times fuel xd y; z ← mkcl_minus fuel xn z; mkcl_make_ratio z xd
          | ORatio _ yn yd =>
              z ← mkcl_times fuel xn yd;
              z1 ← mkcl_times fuel xd yn;
              z ← mkcl_minus fuel z z1;
              z1 ← mkcl_times fuel xd yd;
              mkcl_make_ratio z z1
          | OFloat SF _ _ | OFloat DF _ _ => float_arith fl_sub x y
          | OComplex _ yr yi => complex x yr yi
          | _ => raise (FEtype_error_number y)
          end
      | OFloat SF _ _ | OFloat DF _ _ =>
          match y with
          | OFix _ | OBig _ _ | ORatio _ _ _ | OFloat SF _ _ | OFloat DF _ _ => float_arith fl_sub x y
          | OComplex _ yr yi => complex x yr yi
          | _ => raise (FEtype_error_number y)
          end
      | OComplex _ xr xi =>
          match y with
          | OComplex _ yr yi => z ← mkcl_minus fuel xr yr; z1 ← mkcl_minus fuel xi yi; mkcl_make_complex z z1
          | _ => z ← mkcl_minus fuel xr y; mkcl_make_complex z xi
          end
      | _ => raise (FEtype_error_number x)
      end
  end.

(** ** Quotients *)

(** An integer divided by a float goes to [double] first. *)
Definition float_divide (x y : obj) : M obj :=
  a ← (match x with OFix _ => d ← to_double x; mret (CFloat DF d) | _ => c_operand x end);
  b ← c_operand y;
  make_float (float_result x y) (fl_cvt (float_result x y) (c_op fl_div a b).2).

Fixpoint mkcl_divide (fuel : nat) (x y : obj) : M obj :=
  match fuel with
  | O => diverge
  | S fuel =>
      (* after the label COMPLEX: the parts [z1], [z2] over the norm of [y] *)
      let over_norm z1 z2 yr yi :=
        a ← mkcl_times fuel yr yr;
        b ← mkcl_times fuel yi yi;
        z ← mkcl_plus fuel a b;
        r ← mkcl_divide fuel z1 z;
        i ← mkcl_divide fuel z2 z;
        mkcl_make_complex r i in
      let complex x yr yi :=
        z1 ← mkcl_times fuel x yr;
        z2 ← mkcl_times fuel x yi;
        z2 ← mkcl_negate z2;
        over_norm z1 z2 yr yi in
      match x with
      | OFix _ | OBig _ _ =>
          match y with
          | OFix _ | OBig _ _ =>
              minus ← mkcl_minusp y;
              if (minus : bool) then x ← mkcl_negate x; y ← mkcl_negate y; mkcl_make_ratio x y
              else mkcl_make_ratio x y
          | ORatio _ num den => z ← mkcl_times fuel x den; mkcl_make_ratio z num
          | OFloat SF _ _ | OFloat DF _ _ => float_divide x y
          | OComplex _ yr yi => complex x yr yi
          | _ => raise (FEtype_error_number y)
          end
      | ORatio _ xn xd =>
          match y with
          | OFix _ | OBig _ _ => z ← mkcl_times fuel xd y; mkcl_make_ratio xn z
          | ORatio _ yn yd => z ← mkcl_times fuel xn yd; z1 ← mkcl_times fuel xd yn; mkcl_make_ratio z z1
          | OFloat SF _ _ | OFloat DF _ _ => float_divide x y
          | OComplex _ yr yi => complex x yr yi
          | _ => raise (FEtype_error_number y)
          end
      | OFloat SF _ _ | OFloat DF _ _ =>
          match y with
          | OFix _ | OBig _ _ | ORatio _ _ _ | OFloat SF _ _ | OFloat DF _ _ => float_divide x y
          | OComplex _ yr yi => complex x yr yi
          | _ => raise (FEtype_error_number y)
          end
      | OComplex _ xr xi =>
          match y with
          | OComplex _ yr yi =>
              a ← mkcl_times fuel xr yr; b ← mkcl_times fuel xi yi; z1 ← mkcl_plus fuel a b;
              a ← mkcl_times fuel xi yr; b ← mkcl_times fuel xr yi; z2 ← mkcl_minus fuel a b;
              over_norm z1 z2 yr yi
          | _ => z1 ← mkcl_divide fuel xr y; z2 ← mkcl_divide fuel xi y; mkcl_make_complex z1 z2
          end
      | _ => raise (FEtype_error_number x)
      end
  end.

(** ** One more, one less *)

Fixpoint mkcl_one_plus (fuel : nat) (x : obj) : M obj :=
  match fuel with
  | O => diverge
  | S n =>
      match x with
      | OFix i =>
          if obj_eq x (MKCL_MAKE_FIXNUM MKCL_MOST_POSITIVE_FIXNUM)
          then mkcl_make_integer (MKCL_MOST_POSITIVE_FIXNUM + 1)
          else mret (OFix (mkcl_fixnum_to_word_bits (swrap (fixnum_bits i + (fixnum_bits 1 - MKCL_FIXNUM_TAG)))))
      | OBig _ _ => mkcl_plus fuel x (MKCL_MAKE_FIXNUM 1)
      | ORatio _ num den => z ← mkcl_plus fuel num den; mkcl_make_ratio z den
      | OFloat SF _ f => a ← alloc CBox; mret (OFloat SF a (fl_add SF f (fl_of_Z SF 1)))
      | OFloat DF _ f => a ← alloc CBox; mret (OFloat DF a (fl_add DF f (fl_of_Z DF 1)))
      | OComplex _ r i => z ← mkcl_one_plus n r; mkcl_make_complex z i
      | _ => raise (FEtype_error_number x)
      end
  end.

Fixpoint mkcl_one_minus (fuel : nat) (x : obj) : M obj :=
  match fuel with
  | O => diverge
  | S n =>
      match x with
      | OFix i =>
          if obj_eq x (MKCL_MAKE_FIXNUM MKCL_MOST_NEGATIVE_FIXNUM)
          then mkcl_make_integer (MKCL_MOST_NEGATIVE_FIXNUM - 1)
          else mret (OFix (mkcl_fixnum_to_word_bits (swrap (fixnum_bits i - (fixnum_bits 1 - MKCL_FIXNUM_TAG)))))
      | OBig _ _ => mkcl_minus fuel x (MKCL_MAKE_FIXNUM 1)
      | ORatio _ num den => z ← mkcl_minus fuel num den; mkcl_make_ratio z den
      | OFloat SF _ f => a ← alloc CBox; mret (OFloat SF a (fl_sub SF f (fl_of_Z SF 1)))
      | OFloat DF _ f => a ← alloc CBox; mret (OFloat DF a (fl_sub DF f (fl_of_Z DF 1)))
      | OComplex _ r i => z ← mkcl_one_minus n r; mkcl_make_complex z i
      | _ => raise (FEtype_error_real x)
      end
  end.

Definition mk_cl_1P (fuel : nat) (x : obj) : M obj := mkcl_one_plus fuel x.
Definition mk_cl_1M (fuel : nat) (x : obj) : M obj := mkcl_one_minus fuel x.

(** ** The functions of any number of arguments *)

Definition mk_cl_conjugate (c : obj) : M obj :=
  match c with
  | OComplex _ r i => i ← mkcl_negate i; mkcl_make_complex r i
  | OFix _ | OBig _ _ | ORatio _ _ _ | OFloat SF _ _ | OFloat DF _ _ => mret c
  | _ => raise (FEtype_error_number c)
  end.

Fixpoint fold_args (f : obj → obj → M obj) (acc : obj) (nums : list obj) : M obj :=
  match nums with
  | [] => mret acc
  | num :: nums => acc ← f acc num; fold_args f acc nums
  end.

Definition mk_cl_X (fuel : nat) (nums : list obj) : M obj := fold_args (mkcl_times fuel) (MKCL_MAKE_FIXNUM 1) nums.
Definition mk_cl_P (fuel : nat) (nums : list obj) : M obj := fold_args (mkcl_plus fuel) (MKCL_MAKE_FIXNUM 0) nums.

Definition mk_cl_M (fuel : nat) (num : obj) (nums : list obj) : M obj :=
  match nums with
  | [] => mkcl_negate num
  | _ => fold_args (mkcl_minus fuel) num nums
  end.

Definition mk_cl_N (fuel : nat) (num : obj) (nums : list obj) : M obj :=
  match nums with
  | [] => mkcl_divide fuel (MKCL_MAKE_FIXNUM 1) num
  | _ => fold_args (mkcl_divide fuel) num nums
  end.

(** [mkcl_minusp(env, x) ? mkcl_negate(env, x) : x] *)
Definition without_sign (x : obj) : M obj := minus ← mkcl_minusp x; if (minus : bool) then mkcl_negate x else mret x.

Definition mk_cl_gcd (nums : list obj) : M obj :=
  match nums with
  | [] => mret (MKCL_MAKE_FIXNUM 0)
  | [gcd] => mkcl_assert_type_integer gcd;; without_sign gcd
  | gcd :: nums => fold_args mkcl_gcd gcd nums
  end.

Definition mk_cl_lcm (fuel : nat) (nums : list obj) : M obj :=
  match nums with
  | [] => mret (MKCL_MAKE_FIXNUM 1)
  | lcm :: nums =>
      mkcl_assert_type_integer lcm;;
      lcm ← fold_args (λ lcm numi,
        t ← mkcl_times fuel lcm numi;
        g ← mkcl_gcd numi lcm;
        if negb (obj_eq g (MKCL_MAKE_FIXNUM 0)) then mkcl_divide fuel t g else mret lcm) lcm nums;
      without_sign lcm
  end.
End arithmetic.
