(* ===== verification/ArithSpecs.v ===== *)
(** * ArithSpecs: exact arithmetic

    The value of an integer or a ratio object is a canonical rational [Qc].  The
    theorems hold whatever the conversion to [double], which is for floats only. *)

From S2P Require Import Prelude Words Objects Heap Numbers NumLog Lists Floats NumPred Arith.
From Stdlib Require Export QArith Qcanon.
#[local] Open Scope Z_scope.

(** ** Computations that give an object and add to the heap *)

Definition gives {A} (P : A → Prop) (m : M A) (h : heap) : Prop :=
  ∃ r h', m h = Done r h' ∧ P r ∧ h ⊆ h'.

Lemma gives_ret {A} (P : A → Prop) r h : P r → gives P (mret r) h.
Proof. intros H. by exists r, h. Qed.

Lemma gives_mono {A} (P P' : A → Prop) m h : gives P m h → (∀ r, P r → P' r) → gives P' m h.
Proof. intros (r & h' & E & Hr & Hs) HP. exists r, h'. auto. Qed.

Lemma gives_bind {A B} (P : A → Prop) (P' : B → Prop) m (k : A → M B) h :
  gives P m h → (∀ r h', P r → h ⊆ h' → gives P' (k r) h') → gives P' (m ≫= k) h.
Proof.
  intros (r & h' & E & Hr & Hs) Hk. destruct (Hk r h' Hr Hs) as (r2 & h2 & E2 & Hr2 & Hs2).
  exists r2, h2. rewrite (bind_Done _ _ _ _ _ E). split_and!; [done..|by etrans].
Qed.

Lemma gives_int_bind {A} (P : A → Prop) m (k : obj → M A) h z :
  gives_int m h z → (∀ r h', is_int r z → h ⊆ h' → gives P (k r) h') → gives P (m ≫= k) h.
Proof. apply gives_bind. Qed.

Lemma gives_bind_Done {A B} (m : M A) (k : A → M B) h a P : m h = Done a h → gives P (k a) h → gives P (m ≫= k) h.
Proof. unfold gives. intros E (r & h' & Ek & H). exists r, h'. by rewrite (bind_Done _ _ _ _ _ E). Qed.

Lemma gives_assoc {A B C} (P : C → Prop) (m : M A) (k : A → M B) (k' : B → M C) h :
  gives P (a ← m; b ← k a; k' b) h → gives P (b ← (a ← m; k a); k' b) h.
Proof. intros (r & h' & E & H). exists r, h'. by rewrite bind_assoc. Qed.

Lemma gives_alloc (P : obj → Prop) (f : Z → obj) h : (∀ a, P (f a)) → gives P (a ← alloc CBox; mret (f a)) h.
Proof. intros H. eexists _, _. split_and!; [done|apply H|apply insert_first_free_subseteq]. Qed.

Lemma gives_int_gives m h z : gives_int m h z ↔ gives (λ r, is_int r z) m h.
Proof. done. Qed.

(** ** Rational values *)

(** [num / den], zero for a zero denominator. *)
Definition frac (num den : Z) : Qc := (Qc_of_Z num / Qc_of_Z den)%Qc.

Definition is_rat (x : obj) (q : Qc) : Prop :=
  match x with
  | ORatio _ num den =>
      ∃ n d, is_int num n ∧ is_int den d ∧ 1 < d ∧ Z.gcd n d = 1 ∧ q = frac n d
  | _ => ∃ z, is_int x z ∧ q = Qc_of_Z z
  end.

Lemma Qc_of_Z_ne z : z ≠ 0 → Qc_of_Z z ≠ 0%Qc.
Proof. intros H E. apply H, Z2Qc_inj. by rewrite E, Z2Qc_inj_0. Qed.

Lemma frac_1 n : frac n 1 = Qc_of_Z n.
Proof. unfold frac. rewrite Z2Qc_inj_1. apply Qcdiv_right_id. Qed.

Lemma frac_0 d : frac 0 d = 0%Qc.
Proof. unfold frac, Qcdiv. rewrite Z2Qc_inj_0. apply Qcmult_0_l. Qed.

Lemma frac_opp n d : d ≠ 0 → frac (- n) (- d) = frac n d.
Proof.
  intros H%Qc_of_Z_ne. unfold frac. rewrite !Z2Qc_inj_opp. field. split; [done|].
  intros E. apply H. rewrite <- (Qcopp_involutive (Qc_of_Z d)), E. by apply Qc_is_canon.
Qed.

Lemma frac_cancel g n d : g ≠ 0 → d ≠ 0 → frac (n * g) (d * g) = frac n d.
Proof. intros ?%Qc_of_Z_ne ?%Qc_of_Z_ne. unfold frac. rewrite !Z2Qc_inj_mul. by field. Qed.

Lemma frac_eq n d n' d' : d ≠ 0 → d' ≠ 0 → n * d' = n' * d → frac n d = frac n' d'.
Proof.
  intros Hd Hd' E. pose proof (Qc_of_Z_ne _ Hd). pose proof (Qc_of_Z_ne _ Hd'). unfold frac.
  assert (Qc_of_Z n * Qc_of_Z d' = Qc_of_Z n' * Qc_of_Z d)%Qc as Eq by (rewrite <- !Z2Qc_inj_mul; by f_equal).
  replace (Qc_of_Z n) with (Qc_of_Z n * Qc_of_Z d' / Qc_of_Z d')%Qc by (by field).
  rewrite Eq. field. done.
Qed.

Lemma is_rat_int x z : is_int x z → is_rat x (Qc_of_Z z).
Proof. intros H. destruct x; try (by exists z). by destruct H. Qed.

Lemma is_int_cases x z : is_int x z → (∃ n, x = OFix n) ∨ (∃ a w, x = OBig a w).
Proof. destruct x; intros [H _]; try done; eauto. Qed.

(** An operand is an integer or a ratio. *)
Lemma is_rat_cases x q :
  is_rat x q →
  (∃ z, is_int x z ∧ q = Qc_of_Z z) ∨
  (∃ a num den n d, x = ORatio a num den ∧ is_int num n ∧ is_int den d ∧ 1 < d ∧ Z.gcd n d = 1 ∧ q = frac n d).
Proof. destruct x; simpl; intros H; try (by left). right. destruct H as (n & d & H). by eexists _, _, _, n, d. Qed.

Lemma is_rat_inj x p q : is_rat x p → is_rat x q → p = q.
Proof.
  assert (Hint : ∀ x z z', is_int x z → is_int x z' → z = z') by (intros ??? [H _] [H' _]; congruence).
  intros Hp Hq. destruct (is_rat_cases _ _ Hp) as [(z & Hz & ->)|(a & num & den & n & d & -> & Hn & Hd & _ & _ & ->)].
  - destruct (is_rat_cases _ _ Hq) as [(z' & Hz' & ->)|(a & num & den & n & d & -> & _)]; [|by destruct Hz].
    by rewrite (Hint _ _ _ Hz Hz').
  - destruct Hq as (n' & d' & Hn' & Hd' & _ & _ & ->). by rewrite (Hint _ _ _ Hn Hn'), (Hint _ _ _ Hd Hd').
Qed.

Lemma is_rat_int_inv x z : is_rat x (Qc_of_Z z) → is_int x z.
Proof.
  intros Hx. destruct (is_rat_cases _ _ Hx) as [(w & Hw & E)|(a & num & den & n & d & -> & Hn & Hd & Hl & Hg & E)].
  - by apply Z2Qc_inj in E as ->.
  - exfalso. pose proof (Qc_of_Z_ne d ltac:(lia)) as Hd0.
    assert (n = z * d) as ->.
    { apply Z2Qc_inj. rewrite Z2Qc_inj_mul, E. unfold frac. by field. }
    rewrite Z.mul_comm, Z.gcd_comm, Z.gcd_mul_diag_l in Hg by lia. lia.
Qed.

(** ** Integers *)

Section integers.
Context `{!GMP, !GMPSpec, !GMPArith, !GMPArithSpec, !ToDouble}.

Lemma is_int_fix_iff x z n : is_int x z → is_fixnum n → obj_eq x (MKCL_MAKE_FIXNUM n) = (z =? n).
Proof.
  intros Hx Hn. unfold MKCL_MAKE_FIXNUM. rewrite fixnum_wrap_small by done. destruct (Z.eqb_spec z n) as [->|Hne].
  - apply obj_eq_true. by apply is_int_fix_inv.
  - apply obj_eq_false. intros ->. apply Hne. destruct Hx as [[=] _]. done.
Qed.

Lemma is_int_fix_eq n z : is_int (OFix n) z → z = n ∧ is_fixnum n.
Proof. intros [E Hw]. injection E as ->. done. Qed.

Lemma is_int_big_eq a w z : is_int (OBig a w) z → z = w ∧ ¬ is_fixnum w.
Proof. intros [E Hw]. injection E as ->. done. Qed.

Lemma make_integer_spec z h : is_word z → gives_int (mkcl_make_integer z) h z.
Proof.
  intros Hz. unfold mkcl_make_integer. destruct (_ && _) eqn:E.
  - apply andb_true_iff in E as [?%Z.leb_le ?%Z.leb_le]. apply gives_int_ret, is_int_MAKE_FIXNUM. unfold is_fixnum. lia.
  - apply gives_int_alloc. apply andb_false_iff in E as [?%Z.leb_gt|?%Z.leb_gt]; unfold is_fixnum; lia.
Qed.

Lemma minusp_spec x z h : is_int x z → mkcl_minusp x h = Done (z <? 0) h.
Proof.
  intros Hx. destruct (is_int_cases _ _ Hx) as [(n & ->)|(a & w & ->)]; simpl.
  - by apply is_int_fix_eq in Hx as [-> _].
  - apply is_int_big_eq in Hx as [-> _]. rewrite mpz_sgn_eq. unfold mret, M_ret. f_equal.
    destruct (Z.ltb_spec (Z.sgn w) 0), (Z.ltb_spec w 0); try done; lia.
Qed.

Lemma negate_int x z h : is_int x z → gives_int (mkcl_negate x) h (- z).
Proof.
  intros Hx. destruct (is_int_cases _ _ Hx) as [(n & ->)|(a & w & ->)]; simpl.
  - apply is_int_fix_eq in Hx as [-> Hn]. rewrite swrap_small by (unfold_words; lia).
    apply make_integer_spec. unfold_words. lia.
  - apply is_int_big_eq in Hx as [-> _]. rewrite mpz_neg_eq. apply big_register_normalize_spec.
Qed.

Lemma gcd_operand_spec x z h : is_int x z → gcd_operand x h = Done z h.
Proof.
  intros Hx. destruct (is_int_cases _ _ Hx) as [(n & ->)|(a & w & ->)]; simpl.
  - apply is_int_fix_eq in Hx as [-> Hn]. by rewrite mpz_set_si_eq by auto with mkcl.
  - by apply is_int_big_eq in Hx as [-> _].
Qed.

Lemma gcd_spec x y zx zy h : is_int x zx → is_int y zy → gives_int (mkcl_gcd x y) h (Z.gcd zx zy).
Proof.
  intros Hx Hy. eapply gives_bind_Done; [by apply gcd_operand_spec|].
  eapply gives_bind_Done; [by apply gcd_operand_spec|]. rewrite mpz_gcd_eq. apply big_register_normalize_spec.
Qed.

(** The quotient is wrong in one case only, where it does not fit a fixnum. *)
Lemma integer_divide_spec x y zx zy h :
  is_int x zx → is_int y zy → zy ≠ 0 → ¬ (zx = MKCL_MOST_NEGATIVE_FIXNUM ∧ zy = -1) →
  gives_int (mkcl_integer_divide x y) h (Z.quot zx zy).
Proof.
  intros Hx Hy Hne Hno.
  destruct (is_int_cases _ _ Hx) as [(i & ->)|(a & w & ->)]; destruct (is_int_cases _ _ Hy) as [(j & ->)|(b & v & ->)];
    cbn [mkcl_integer_divide].
  - rewrite (is_int_fix_iff _ zy 0) by (done || (unfold_words; lia)). rewrite (proj2 (Z.eqb_neq zy 0)) by done.
    apply is_int_fix_eq in Hx as [-> Hi], Hy as [-> Hj]. 
    assert (is_fixnum (Z.quot i j)) as Hq.
    { unfold_words. pose proof (Z.quot_abs i j Hne) as Ha.
      assert (Z.abs i ÷ Z.abs j ≤ Z.abs i) by (apply Z.quot_le_upper_bound; nia).
      destruct (decide (Z.quot i j = 2 ^ 61)); [|lia]. exfalso. apply Hno.
      assert (Z.abs i = 2 ^ 61) by lia. assert (i = - 2 ^ 61) as -> by lia. split; [done|].
      pose proof (Z.quot_rem' (- 2 ^ 61) j). pose proof (Z.rem_bound_abs (- 2 ^ 61) j Hne). nia. }
    rewrite swrap_small by auto with mkcl. by apply gives_int_ret, is_int_MAKE_FIXNUM.
  - apply is_int_fix_eq in Hx as [-> Hi]. apply is_int_big_eq in Hy as [-> Hj].
    rewrite swrap_small by (unfold_words; lia).
    assert (Z.sgn (mpz_cmp_si v (- i)) = Z.sgn (v - - i)) as Hc by (apply mpz_cmp_si_sgn; unfold_words; lia).
    destruct (Z.eqb_spec (mpz_cmp_si v (- i)) 0) as [E|E]; simpl.
    + rewrite E in Hc. assert (v = - i) as -> by (simpl in Hc; lia).
      rewrite Z.quot_opp_r, Z.quot_same by lia. apply gives_int_ret, is_int_MAKE_FIXNUM. unfold_words. lia.
    + assert (v ≠ - i) by (intros ->; rewrite Z.sub_diag in Hc; simpl in Hc; lia).
      assert (Z.quot i v = 0) as ->.
      { apply Z.quot_small_iff; [done|]. unfold_words. lia. }
      apply gives_int_ret, is_int_MAKE_FIXNUM. unfold_words. lia.
  - apply is_int_fix_eq in Hy as [-> Hj]. apply is_int_big_eq in Hx as [-> _].
    unfold big_tdiv_q_ui. rewrite (proj2 (Z.eqb_neq (Z.abs j) 0)) by lia.
    eapply gives_bind_Done; [done|]. rewrite mpz_tdiv_q_ui_eq by (unfold_words; lia).
    assert ((if j <? 0 then mpz_neg (w ÷ Z.abs j) else w ÷ Z.abs j) = w ÷ j) as ->; [|apply big_register_normalize_spec].
    destruct (Z.ltb_spec j 0).
    + rewrite mpz_neg_eq, Z.abs_neq, Z.quot_opp_r by lia. lia.
    + by rewrite Z.abs_eq by lia.
  - apply is_int_big_eq in Hx as [-> _], Hy as [-> _]. unfold big_tdiv_q. rewrite (proj2 (Z.eqb_neq v 0)) by done.
    eapply gives_bind_Done; [done|]. rewrite mpz_tdiv_q_eq by done. apply big_register_normalize_spec.
Qed.
End integers.

(** ** Ratios *)

Section ratios.
Context `{!GMP, !GMPSpec, !GMPArith, !GMPArithSpec, !ToDouble}.

Lemma fix_1 : is_fixnum 1.
Proof. unfold_words. lia. Qed.
Lemma fix_0 : is_fixnum 0.
Proof. unfold_words. lia. Qed.
Lemma fix_m1 : is_fixnum (-1).
Proof. unfold_words. lia. Qed.

(** The parts in lowest terms. *)
Lemma lowest_terms num den n d h :
  is_int num n → is_int den d → 0 < d → Z.gcd n d = 1 →
  gives (λ r, is_rat r (frac n d))
    (if obj_eq den (MKCL_MAKE_FIXNUM 1) then mret num
     else if obj_eq den (MKCL_MAKE_FIXNUM (-1)) then mkcl_negate num
     else a ← alloc CBox; mret (ORatio a num den)) h.
Proof.
  intros Hn Hd Hpos Hg. rewrite (is_int_fix_iff den d 1 Hd fix_1), (is_int_fix_iff den d (-1) Hd fix_m1).
  destruct (Z.eqb_spec d 1) as [->|]; [apply gives_ret; rewrite frac_1; by apply is_rat_int|].
  rewrite (proj2 (Z.eqb_neq d (-1))) by lia. apply gives_alloc. intros a. exists n, d. split_and!; [done..|lia|done|done].
Qed.

Lemma quot_gcd n d : 0 < d → let g := Z.gcd n d in
  0 < g ∧ n = Z.quot n g * g ∧ d = Z.quot d g * g ∧ 0 < Z.quot d g ∧ Z.gcd (Z.quot n g) (Z.quot d g) = 1.
Proof.
  intros Hd g. assert (0 < g) as Hg.
  { pose proof (Z.gcd_nonneg n d). assert (g ≠ 0) by (intros E; apply Z.gcd_eq_0_r in E; lia). subst g. lia. }
  destruct (Z.gcd_divide_l n d) as [p Hp], (Z.gcd_divide_r n d) as [q Hq]. fold g in Hp, Hq.
  assert (n ÷ g = p) as -> by (rewrite Hp; apply Z.quot_mul; lia).
  assert (d ÷ g = q) as -> by (rewrite Hq; apply Z.quot_mul; lia).
  split_and!; [done..|nia|]. apply (Z.mul_reg_r _ _ g); [lia|]. rewrite Z.mul_1_l.
  rewrite <- (Z.abs_eq g) at 1 by lia. rewrite <- Z.gcd_mul_mono_r, <- Hp, <- Hq. done.
Qed.

(** What [mkcl_make_ratio] does once the denominator is positive. *)
Lemma reduce_spec num den n d h :
  is_int num n → is_int den d → 0 < d →
  gives (λ r, is_rat r (frac n d))
    (g ← mkcl_gcd num den;
     p ← (if negb (obj_eq g (MKCL_MAKE_FIXNUM 1))
          then num ← mkcl_integer_divide num g; den ← mkcl_integer_divide den g; mret (num, den)
          else mret (num, den));
     let '(num, den) := (p : obj * obj) in
     if obj_eq den (MKCL_MAKE_FIXNUM 1) then mret num
     else if obj_eq den (MKCL_MAKE_FIXNUM (-1)) then mkcl_negate num
     else a ← alloc CBox; mret (ORatio a num den)) h.
Proof.
  intros Hn Hd Hpos. destruct (quot_gcd n d Hpos) as (Hg & En & Ed & Hq & Hlow).
  eapply gives_bind; [apply gcd_spec; [exact Hn|exact Hd]|]. intros g h1 Hig _.
  rewrite (is_int_fix_iff g _ 1 Hig fix_1). destruct (Z.eqb_spec (Z.gcd n d) 1) as [E|E]; simpl negb; cbv iota.
  { by apply lowest_terms. }
  destruct (integer_divide_spec num g n _ h1 Hn Hig) as (r & h2 & E1 & Hr & Hs1); [lia|lia|].
  destruct (integer_divide_spec den g d _ h2 Hd Hig) as (s & h3 & E2 & Hs & Hs2); [lia|lia|].
  destruct (lowest_terms r s _ _ h3 Hr Hs Hq Hlow) as (t & h4 & E3 & Ht & Hs3).
  assert (frac n d = frac (n ÷ Z.gcd n d) (d ÷ Z.gcd n d)) as -> 
    by (rewrite <- (frac_cancel (Z.gcd n d) (n ÷ _) (d ÷ _)) by lia; by rewrite <- En, <- Ed).
  exists t, h4. split; [|split; [done|by etrans; [|etrans]]].
  rewrite bind_assoc, (bind_Done _ _ _ _ _ E1), bind_assoc, (bind_Done _ _ _ _ _ E2). exact E3.
Qed.

Lemma make_ratio_spec num den n d h :
  is_int num n → is_int den d → d ≠ 0 → gives (λ r, is_rat r (frac n d)) (mkcl_make_ratio num den) h.
Proof.
  intros Hn Hd Hne. unfold mkcl_make_ratio.
  rewrite (is_int_fix_iff den d 0 Hd fix_0), (is_int_fix_iff den d 1 Hd fix_1), (is_int_fix_iff num n 0 Hn fix_0).
  rewrite (proj2 (Z.eqb_neq d 0)) by done.
  destruct (Z.eqb_spec n 0) as [->|Hn0]; simpl orb; cbv iota.
  { apply gives_ret. rewrite frac_0, <- Z2Qc_inj_0. by apply is_rat_int. }
  destruct (Z.eqb_spec d 1) as [->|Hd1]; [apply gives_ret; rewrite frac_1; by apply is_rat_int|].
  eapply gives_bind_Done; [by apply minusp_spec|]. destruct (Z.ltb_spec d 0).
  - destruct (negate_int num n h Hn) as (num' & h1 & E1 & Hn' & Hs1).
    destruct (negate_int den d h1 Hd) as (den' & h2 & E2 & Hd' & Hs2).
    rewrite <- frac_opp by done. destruct (reduce_spec num' den' (- n) (- d) h2 Hn' Hd') as (r & h3 & E3 & Hr & Hs3); [lia|].
    exists r, h3. split; [|split; [done|by etrans; [|etrans]]].
    rewrite bind_assoc, (bind_Done _ _ _ _ _ E1), bind_assoc, (bind_Done _ _ _ _ _ E2). exact E3.
  - apply reduce_spec; [done..|lia].
Qed.

Lemma make_ratio_zero num den n h :
  is_int num n → is_int den 0 → mkcl_make_ratio num den h = Fail (FEdivision_by_zero num den) h.
Proof. intros Hn Hd. unfold mkcl_make_ratio. by rewrite (is_int_fix_iff den 0 0 Hd fix_0). Qed.
End ratios.

(** ** Sums, differences and products *)

Ltac frac_field :=
  unfold frac; rewrite ?Z2Qc_inj_add, ?Z2Qc_inj_sub, ?Z2Qc_inj_mul, ?Z2Qc_inj_opp; field;
  repeat split; apply Qc_of_Z_ne; lia.

Section rationals.
Context `{!GMP, !GMPSpec, !GMPArith, !GMPArithSpec, !ToDouble}.

Lemma big_plus_fix_eq z i : is_fixnum i → big_plus_fix z i = z + i.
Proof.
  intros Hi. unfold big_plus_fix. destruct (Z.ltb_spec 0 i).
  - apply mpz_add_ui_eq. unfold_words. lia.
  - rewrite swrap_small by (unfold_words; lia). rewrite mpz_sub_ui_eq by (unfold_words; lia). lia.
Qed.

Lemma big_minus_fix_eq z i : is_fixnum i → big_minus_fix z i = z - i.
Proof.
  intros Hi. unfold big_minus_fix. destruct (Z.ltb_spec 0 i).
  - apply mpz_sub_ui_eq. unfold_words. lia.
  - rewrite swrap_small by (unfold_words; lia). rewrite mpz_add_ui_eq by (unfold_words; lia). lia.
Qed.

Lemma big_times_fix_spec a w i h : ¬ is_fixnum w → is_fixnum i → gives_int (_mkcl_big_times_fix (OBig a w) i) h (w * i).
Proof.
  intros Hw Hi. unfold _mkcl_big_times_fix. simpl big_num.
  destruct (Z.eqb_spec i 1) as [->|]; [rewrite Z.mul_1_r; by apply gives_int_ret|].
  destruct (Z.eqb_spec i (-1)) as [->|].
  - rewrite mpz_neg_eq. replace (w * -1) with (- w) by lia. apply big_register_normalize_spec.
  - rewrite mpz_mul_si_eq by auto with mkcl. apply big_register_normalize_spec.
Qed.

(** Two integers, by representation. *)
Ltac int_cases Hx Hy :=
  let i := fresh "i" in let j := fresh "j" in
  destruct (is_int_cases _ _ Hx) as [(i & ->)|(? & i & ->)]; destruct (is_int_cases _ _ Hy) as [(j & ->)|(? & j & ->)];
  first [apply is_int_fix_eq in Hx as [-> Hx]|apply is_int_big_eq in Hx as [-> Hx]];
  first [apply is_int_fix_eq in Hy as [-> Hy]|apply is_int_big_eq in Hy as [-> Hy]].

Lemma times_int n x y zx zy h :
  is_int x zx → is_int y zy → gives_int (mkcl_times (S n) x y) h (zx * zy).
Proof.
  intros Hx Hy. int_cases Hx Hy; cbn [mkcl_times].
  - unfold mkcl_word_times. rewrite mpz_set_si_eq, mpz_mul_si_eq by auto with mkcl. apply big_register_normalize_spec.
  - rewrite Z.mul_comm. by apply big_times_fix_spec.
  - by apply big_times_fix_spec.
  - unfold _mkcl_big_times_big. rewrite mpz_mul_eq. apply big_register_normalize_spec.
Qed.

Lemma plus_int n x y zx zy h :
  is_int x zx → is_int y zy → gives_int (mkcl_plus (S n) x y) h (zx + zy).
Proof.
  intros Hx Hy. int_cases Hx Hy; cbn [mkcl_plus].
  - rewrite swrap_small by (unfold_words; lia). apply make_integer_spec. unfold_words. lia.
  - destruct (Z.eqb_spec i 0) as [->|]; [by apply gives_int_ret|].
    rewrite big_plus_fix_eq, Z.add_comm by done. apply big_register_normalize_spec.
  - destruct (Z.eqb_spec j 0) as [->|]; [rewrite Z.add_0_r; by apply gives_int_ret|].
    rewrite big_plus_fix_eq by done. apply big_register_normalize_spec.
  - rewrite mpz_add_eq. apply big_register_normalize_spec.
Qed.

Lemma minus_int n x y zx zy h :
  is_int x zx → is_int y zy → gives_int (mkcl_minus (S n) x y) h (zx - zy).
Proof.
  intros Hx Hy. int_cases Hx Hy; cbn [mkcl_minus].
  - rewrite swrap_small by (unfold_words; lia). apply make_integer_spec. unfold_words. lia.
  - rewrite big_minus_fix_eq, mpz_neg_eq by done. replace (i - j) with (- (j - i)) by lia. apply big_register_normalize_spec.
  - destruct (Z.eqb_spec j 0) as [->|]; [rewrite Z.sub_0_r; by apply gives_int_ret|].
    rewrite big_minus_fix_eq by done. apply big_register_normalize_spec.
  - rewrite mpz_sub_eq. apply big_register_normalize_spec.
Qed.

(** Two rational numbers, by kind: the operation on integers gives an integer, and with
    a ratio the sequence of calls that the code makes ends in [mkcl_make_ratio]. *)
Lemma times_ratio_l n x z h a num den y d :
  is_int x z → is_int num y → is_int den d → 1 < d →
  gives (λ r, is_rat r (Qc_of_Z z * frac y d)%Qc) (mkcl_times (S (S n)) x (ORatio a num den)) h.
Proof.
  intros Hx Hn Hd Hd1.
  assert (mkcl_times (S (S n)) x (ORatio a num den) = r ← mkcl_times (S n) x num; mkcl_make_ratio r den) as ->
    by (by destruct (is_int_cases _ _ Hx) as [(? & ->)|(? & ? & ->)]).
  eapply gives_int_bind; [by apply times_int|]. intros r h1 Hr _.
  replace (Qc_of_Z z * frac y d)%Qc with (frac (z * y) d) by frac_field.
  apply make_ratio_spec; [done..|lia].
Qed.

Lemma times_rat n x y p q h :
  is_rat x p → is_rat y q → gives (λ r, is_rat r (p * q)%Qc) (mkcl_times (S (S n)) x y) h.
Proof.
  intros Hx Hy.
  destruct (is_rat_cases _ _ Hx) as [(zx & Hzx & ->)|(a & xn & xd & n1 & d1 & -> & Hn1 & Hd1 & Hl1 & Hg1 & ->)];
    destruct (is_rat_cases _ _ Hy) as [(zy & Hzy & ->)|(b & yn & yd & n2 & d2 & -> & Hn2 & Hd2 & Hl2 & Hg2 & ->)].
  - eapply gives_mono; [by apply times_int|]. intros r Hr. rewrite <- Z2Qc_inj_mul. by apply is_rat_int.
  - by apply times_ratio_l.
  - assert (mkcl_times (S (S n)) (ORatio a xn xd) y = r ← mkcl_times (S n) xn y; mkcl_make_ratio r xd) as ->
      by (by destruct (is_int_cases _ _ Hzy) as [(? & ->)|(? & ? & ->)]).
    eapply gives_int_bind; [by apply times_int|]. intros r h1 Hr _.
    replace (frac n1 d1 * Qc_of_Z zy)%Qc with (frac (n1 * zy) d1) by frac_field. apply make_ratio_spec; [done..|lia].
  - cbn [mkcl_times]. eapply gives_int_bind; [by apply times_int|]. intros r h1 Hr _.
    eapply gives_int_bind; [by apply times_int|]. intros s h2 Hs _.
    replace (frac n1 d1 * frac n2 d2)%Qc with (frac (n1 * n2) (d1 * d2)) by frac_field.
    apply make_ratio_spec; [done..|nia].
Qed.

Lemma plus_rat n x y p q h :
  is_rat x p → is_rat y q → gives (λ r, is_rat r (p + q)%Qc) (mkcl_plus (S (S n)) x y) h.
Proof.
  intros Hx Hy.
  destruct (is_rat_cases _ _ Hx) as [(zx & Hzx & ->)|(a & xn & xd & n1 & d1 & -> & Hn1 & Hd1 & Hl1 & Hg1 & ->)];
    destruct (is_rat_cases _ _ Hy) as [(zy & Hzy & ->)|(b & yn & yd & n2 & d2 & -> & Hn2 & Hd2 & Hl2 & Hg2 & ->)].
  - eapply gives_mono; [by apply plus_int|]. intros r Hr. rewrite <- Z2Qc_inj_add. by apply is_rat_int.
  - assert (mkcl_plus (S (S n)) x (ORatio b yn yd) =
      z ← mkcl_times (S n) x yd; z ← mkcl_plus (S n) z yn; mkcl_make_ratio z yd) as ->
      by (by destruct (is_int_cases _ _ Hzx) as [(? & ->)|(? & ? & ->)]).
    eapply gives_int_bind; [by apply times_int|]. intros r h1 Hr _. eapply gives_int_bind; [by apply plus_int|]. intros s h2 Hs _.
    replace (Qc_of_Z zx + frac n2 d2)%Qc with (frac (zx * d2 + n2) d2) by frac_field. apply make_ratio_spec; [done..|lia].
  - assert (mkcl_plus (S (S n)) (ORatio a xn xd) y =
      z ← mkcl_times (S n) xd y; z ← mkcl_plus (S n) xn z; mkcl_make_ratio z xd) as ->
      by (by destruct (is_int_cases _ _ Hzy) as [(? & ->)|(? & ? & ->)]).
    eapply gives_int_bind; [by apply times_int|]. intros r h1 Hr _. eapply gives_int_bind; [by apply plus_int|]. intros s h2 Hs _.
    replace (frac n1 d1 + Qc_of_Z zy)%Qc with (frac (n1 + d1 * zy) d1) by frac_field. apply make_ratio_spec; [done..|lia].
  - cbn [mkcl_plus]. eapply gives_int_bind; [by apply times_int|]. intros r h1 Hr _.
    eapply gives_int_bind; [by apply times_int|]. intros s h2 Hs _. eapply gives_int_bind; [by apply plus_int|]. intros t h3 Ht _.
    eapply gives_int_bind; [by apply times_int|]. intros u h4 Hu _.
    replace (frac n1 d1 + frac n2 d2)%Qc with (frac (n1 * d2 + d1 * n2) (d1 * d2)) by frac_field.
    apply make_ratio_spec; [done..|nia].
Qed.

Lemma minus_rat n x y p q h :
  is_rat x p → is_rat y q → gives (λ r, is_rat r (p - q)%Qc) (mkcl_minus (S (S n)) x y) h.
Proof.
  intros Hx Hy.
  destruct (is_rat_cases _ _ Hx) as [(zx & Hzx & ->)|(a & xn & xd & n1 & d1 & -> & Hn1 & Hd1 & Hl1 & Hg1 & ->)];
    destruct (is_rat_cases _ _ Hy) as [(zy & Hzy & ->)|(b & yn & yd & n2 & d2 & -> & Hn2 & Hd2 & Hl2 & Hg2 & ->)].
  - eapply gives_mono; [by apply minus_int|]. intros r Hr. rewrite <- Z2Qc_inj_sub. by apply is_rat_int.
  - assert (mkcl_minus (S (S n)) x (ORatio b yn yd) =
      z ← mkcl_times (S n) x yd; z ← mkcl_minus (S n) z yn; mkcl_make_ratio z yd) as ->
      by (by destruct (is_int_cases _ _ Hzx) as [(? & ->)|(? & ? & ->)]).
    eapply gives_int_bind; [by apply times_int|]. intros r h1 Hr _. eapply gives_int_bind; [by apply minus_int|]. intros s h2 Hs _.
    replace (Qc_of_Z zx - frac n2 d2)%Qc with (frac (zx * d2 - n2) d2) by frac_field. apply make_ratio_spec; [done..|lia].
  - assert (mkcl_minus (S (S n)) (ORatio a xn xd) y =
      z ← mkcl_times (S n) xd y; z ← mkcl_minus (S n) xn z; mkcl_make_ratio z xd) as ->
      by (by destruct (is_int_cases _ _ Hzy) as [(? & ->)|(? & ? & ->)]).
    eapply gives_int_bind; [by apply times_int|]. intros r h1 Hr _. eapply gives_int_bind; [by apply minus_int|]. intros s h2 Hs _.
    replace (frac n1 d1 - Qc_of_Z zy)%Qc with (frac (n1 - d1 * zy) d1) by frac_field. apply make_ratio_spec; [done..|lia].
  - cbn [mkcl_minus]. eapply gives_int_bind; [by apply times_int|]. intros r h1 Hr _.
    eapply gives_int_bind; [by apply times_int|]. intros s h2 Hs _. eapply gives_int_bind; [by apply minus_int|]. intros t h3 Ht _.
    eapply gives_int_bind; [by apply times_int|]. intros u h4 Hu _.
    replace (frac n1 d1 - frac n2 d2)%Qc with (frac (n1 * d2 - d1 * n2) (d1 * d2)) by frac_field.
    apply make_ratio_spec; [done..|nia].
Qed.
End rationals.

(** ** The theorems on exact arithmetic *)

Section facts.
Context `{!GMP, !GMPSpec, !GMPArith, !GMPArithSpec, !ToDouble}.

(** C20: sums, differences and products of integers and ratios are those of the
    rational numbers, with results in the one form there is for each: a fixnum, a
    bignum outside the range of fixnums, or a ratio in lowest terms with a denominator
    of 2 or more. *)
Theorem rational_arithmetic fuel x y p q h :
  is_rat x p → is_rat y q → (2 ≤ fuel)%nat →
  gives (λ r, is_rat r (p + q)%Qc) (mkcl_plus fuel x y) h ∧
  gives (λ r, is_rat r (p - q)%Qc) (mkcl_minus fuel x y) h ∧
  gives (λ r, is_rat r (p * q)%Qc) (mkcl_times fuel x y) h.
Proof.
  intros Hx Hy Hf. destruct fuel as [|[|n]]; [lia..|].
  split_and!; [by apply plus_rat|by apply minus_rat|by apply times_rat].
Qed.

Lemma Qc_of_Z_zero z : Qc_of_Z z = 0%Qc ↔ z = 0.
Proof. rewrite <- Z2Qc_inj_0. apply Z2Qc_inj_iff. Qed.

Lemma frac_zero n d : d ≠ 0 → frac n d = 0%Qc ↔ n = 0.
Proof.
  intros Hd. split; [|intros ->; apply frac_0]. intros E. apply Qc_of_Z_zero.
  replace (Qc_of_Z n) with (frac n d * Qc_of_Z d)%Qc by frac_field. rewrite E. apply Qcmult_0_l.
Qed.

Lemma divide_int n x y zx zy h :
  is_int x zx → is_int y zy →
  mkcl_divide (S n) x y h = mkcl_make_ratio x y h ∨
  zy < 0 ∧ ∃ x' y' h', h ⊆ h' ∧ is_int x' (- zx) ∧ is_int y' (- zy) ∧
    mkcl_divide (S n) x y h = mkcl_make_ratio x' y' h'.
Proof.
  intros Hx Hy.
  assert (mkcl_divide (S n) x y = minus ← mkcl_minusp y;
    if (minus : bool) then x ← mkcl_negate x; y ← mkcl_negate y; mkcl_make_ratio x y else mkcl_make_ratio x y) as ->
    by (destruct (is_int_cases _ _ Hx) as [(? & ->)|(? & ? & ->)]; by destruct (is_int_cases _ _ Hy) as [(? & ->)|(? & ? & ->)]).
  rewrite (bind_Done _ _ _ _ _ (minusp_spec y zy h Hy)). destruct (Z.ltb_spec zy 0); [right|by left].
  destruct (negate_int x zx h Hx) as (x' & h1 & E1 & Hx' & Hs1).
  destruct (negate_int y zy h1 Hy) as (y' & h2 & E2 & Hy' & Hs2).
  split; [done|]. exists x', y', h2. split_and!; [by etrans|done..|].
  by rewrite (bind_Done _ _ _ _ _ E1), (bind_Done _ _ _ _ _ E2).
Qed.

Lemma divide_rat n x y p q h :
  is_rat x p → is_rat y q → q ≠ 0%Qc → gives (λ r, is_rat r (p / q)%Qc) (mkcl_divide (S (S n)) x y) h.
Proof.
  intros Hx Hy Hq.
  destruct (is_rat_cases _ _ Hx) as [(zx & Hzx & ->)|(a & xn & xd & n1 & d1 & -> & Hn1 & Hd1 & Hl1 & Hg1 & ->)];
    destruct (is_rat_cases _ _ Hy) as [(zy & Hzy & ->)|(b & yn & yd & n2 & d2 & -> & Hn2 & Hd2 & Hl2 & Hg2 & ->)];
    first [rewrite Qc_of_Z_zero in Hq|rewrite frac_zero in Hq by lia].
  - unfold gives. destruct (divide_int (S n) x y zx zy h Hzx Hzy) as [->|(_ & x' & y' & h' & Hs & Hx' & Hy' & ->)].
    + by apply make_ratio_spec.
    + destruct (make_ratio_spec x' y' _ _ h' Hx' Hy') as (r & h2 & E & Hr & Hs2); [lia|]. exists r, h2.
      rewrite frac_opp in Hr by done. split_and!; [done..|by etrans].
  - assert (mkcl_divide (S (S n)) x (ORatio b yn yd) = z ← mkcl_times (S n) x yd; mkcl_make_ratio z yn) as ->
      by (by destruct (is_int_cases _ _ Hzx) as [(? & ->)|(? & ? & ->)]).
    eapply gives_int_bind; [by apply times_int|]. intros r h1 Hr _.
    replace (Qc_of_Z zx / frac n2 d2)%Qc with (frac (zx * d2) n2) by frac_field. by apply make_ratio_spec.
  - assert (mkcl_divide (S (S n)) (ORatio a xn xd) y = z ← mkcl_times (S n) xd y; mkcl_make_ratio xn z) as ->
      by (by destruct (is_int_cases _ _ Hzy) as [(? & ->)|(? & ? & ->)]).
    eapply gives_int_bind; [by apply times_int|]. intros r h1 Hr _.
    replace (frac n1 d1 / Qc_of_Z zy)%Qc with (frac n1 (d1 * zy)) by frac_field. apply make_ratio_spec; [done..|nia].
  - cbn [mkcl_divide]. eapply gives_int_bind; [by apply times_int|]. intros r h1 Hr _.
    eapply gives_int_bind; [by apply times_int|]. intros s h2 Hs _.
    replace (frac n1 d1 / frac n2 d2)%Qc with (frac (n1 * d2) (d1 * n2)) by frac_field. apply make_ratio_spec; [done..|nia].
Qed.

Lemma is_rat_zero y : is_rat y 0%Qc → is_int y 0.
Proof.
  intros Hy. destruct (is_rat_cases _ _ Hy) as [(z & Hz & E)|(b & yn & yd & n & d & -> & Hn & Hd & Hl & Hg & E)].
  - symmetry in E. by apply Qc_of_Z_zero in E as ->.
  - symmetry in E. apply frac_zero in E as ->; [|lia]. rewrite Z.gcd_0_l in Hg. lia.
Qed.

Lemma divide_zero n x y p h :
  is_rat x p → is_rat y 0%Qc → ∃ a b h', mkcl_divide (S (S n)) x y h = Fail (FEdivision_by_zero a b) h'.
Proof.
  intros Hx Hy%is_rat_zero.
  destruct (is_rat_cases _ _ Hx) as [(zx & Hzx & ->)|(a & xn & xd & n1 & d1 & -> & Hn1 & Hd1 & Hl1 & Hg1 & ->)].
  - destruct (divide_int (S n) x y zx 0 h Hzx Hy) as [->|[? _]]; [|lia]. eexists _, _, _. by eapply make_ratio_zero.
  - assert (mkcl_divide (S (S n)) (ORatio a xn xd) y = z ← mkcl_times (S n) xd y; mkcl_make_ratio xn z) as ->
      by (by destruct (is_int_cases _ _ Hy) as [(? & ->)|(? & ? & ->)]).
    destruct (times_int n xd y _ _ h Hd1 Hy) as (z & h1 & E & Hz & _). rewrite (bind_Done _ _ _ _ _ E).
    rewrite Z.mul_0_r in Hz. eexists _, _, _. by eapply make_ratio_zero.
Qed.

(** Quotients of integers and ratios are exact, and division by zero is an error
    whatever the dividend. *)
Theorem rational_quotient fuel x y p q h :
  is_rat x p → is_rat y q → (2 ≤ fuel)%nat →
  (q ≠ 0%Qc → gives (λ r, is_rat r (p / q)%Qc) (mkcl_divide fuel x y) h) ∧
  (q = 0%Qc → ∃ a b h', mkcl_divide fuel x y h = Fail (FEdivision_by_zero a b) h').
Proof.
  intros Hx Hy Hf. destruct fuel as [|[|n]]; [lia..|]. split; [by apply divide_rat|]. intros ->. by eapply divide_zero.
Qed.

(** ** Any number of arguments *)

Lemma fold_args_spec {A} (rep rep' : obj → A → Prop) (f : obj → obj → M obj) (g : A → A → A) x a ys bs h :
  (∀ x y a b h, rep x a → rep' y b → gives (λ r, rep r (g a b)) (f x y) h) →
  rep x a → Forall2 rep' ys bs → gives (λ r, rep r (fold_left g bs a)) (fold_args f x ys) h.
Proof.
  intros Hf Hx Hys. revert x a h Hx. induction Hys as [|y b ys bs Hy _ IH]; intros x a h Hx; simpl; [by apply gives_ret|].
  eapply gives_bind; [by apply Hf|]. intros r h1 Hr _. by apply IH.
Qed.

Lemma is_rat_fix n : is_fixnum n → is_rat (MKCL_MAKE_FIXNUM n) (Qc_of_Z n).
Proof. intros. by apply is_rat_int, is_int_MAKE_FIXNUM. Qed.

Lemma negate_rat x p h : is_rat x p → gives (λ r, is_rat r (- p)%Qc) (mkcl_negate x) h.
Proof.
  intros Hx. destruct (is_rat_cases _ _ Hx) as [(z & Hz & ->)|(a & xn & xd & n & d & -> & Hn & Hd & Hl & Hg & ->)].
  - eapply gives_mono; [by apply negate_int|]. intros r Hr. rewrite <- Z2Qc_inj_opp. by apply is_rat_int.
  - cbn [mkcl_negate]. eapply gives_int_bind; [by apply negate_int|]. intros r h1 Hr _. apply gives_alloc. intros b.
    exists (- n), d. split_and!; [done..|by rewrite Z.gcd_opp_l|frac_field].
Qed.

(** [+], [*], [-] and [/] of any number of rational arguments are the sum, the
    product, and the first argument less, or divided by, each of the others in turn;
    [-] of one argument is its opposite and [/] its inverse. *)
Theorem rational_sums fuel x xs p ps h :
  is_rat x p → Forall2 is_rat xs ps → (2 ≤ fuel)%nat →
  gives (λ r, is_rat r (fold_left Qcplus (p :: ps) 0%Qc)) (mk_cl_P fuel (x :: xs)) h ∧
  gives (λ r, is_rat r (fold_left Qcmult (p :: ps) 1%Qc)) (mk_cl_X fuel (x :: xs)) h ∧
  gives (λ r, is_rat r (match ps with [] => - p | _ => fold_left Qcminus ps p end)%Qc) (mk_cl_M fuel x xs) h ∧
  (p ≠ 0%Qc → Forall (λ q, q ≠ 0%Qc) ps →
   gives (λ r, is_rat r (match ps with [] => 1 / p | _ => fold_left Qcdiv ps p end)%Qc) (mk_cl_N fuel x xs) h).
Proof.
  intros Hx Hxs Hf. destruct fuel as [|[|n]]; [lia..|]. split_and!.
  - eapply fold_args_spec; [intros; by apply plus_rat| |by constructor]. rewrite <- Z2Qc_inj_0. apply is_rat_fix, fix_0.
  - eapply fold_args_spec; [intros; by apply times_rat| |by constructor]. rewrite <- Z2Qc_inj_1. apply is_rat_fix, fix_1.
  - destruct Hxs as [|y q ys qs Hy Hys]; [by apply negate_rat|].
    apply (fold_args_spec is_rat is_rat (mkcl_minus (S (S n))) Qcminus); [intros; by apply minus_rat|done|by constructor].
  - intros Hp Hps. destruct Hxs as [|y q ys qs Hy Hys].
    + apply divide_rat; [|done..]. rewrite <- Z2Qc_inj_1. apply is_rat_fix, fix_1.
    + apply (fold_args_spec is_rat (λ y q, is_rat y q ∧ q ≠ 0%Qc) (mkcl_divide (S (S n))) Qcdiv); [|done|].
      * intros ????? ? [??]. by apply divide_rat.
      * clear Hp. assert (Forall2 is_rat (y :: ys) (q :: qs)) as Hall by by constructor.
        clear Hy Hys. revert Hall. induction 1; constructor; inversion Hps; naive_solver.
Qed.

(** ** GCD and LCM *)

Lemma without_sign_spec x z h : is_int x z → gives_int (without_sign x) h (Z.abs z).
Proof.
  intros Hx. eapply gives_bind_Done; [by apply minusp_spec|]. destruct (Z.ltb_spec z 0).
  - rewrite Z.abs_neq by lia. by apply negate_int.
  - rewrite Z.abs_eq by lia. by apply gives_int_ret.
Qed.

Lemma assert_integer_spec x z h : is_int x z → mkcl_assert_type_integer x h = Done tt h.
Proof. intros Hx. by destruct (is_int_cases _ _ Hx) as [(? & ->)|(? & ? & ->)]. Qed.

Lemma lcm_step n l m zl zm h :
  is_int l zl → is_int m zm →
  gives (λ r, ∃ z, is_int r z ∧ Z.abs z = Z.lcm zl zm)
    (t ← mkcl_times (S (S n)) l m;
     g ← mkcl_gcd m l;
     if negb (obj_eq g (MKCL_MAKE_FIXNUM 0)) then mkcl_divide (S (S n)) t g else mret l) h.
Proof.
  intros Hl Hm. eapply gives_int_bind; [by apply times_int|]. intros t h1 Ht _.
  eapply gives_int_bind; [by apply gcd_spec|]. intros g h2 Hg _. rewrite (is_int_fix_iff g _ 0 Hg fix_0).
  pose proof (Z.gcd_nonneg zm zl). destruct (Z.eqb_spec (Z.gcd zm zl) 0) as [E|E]; simpl negb; cbv iota.
  - apply gives_ret. exists zl. split; [done|]. apply Z.gcd_eq_0 in E as [-> ->]. done.
  - eapply gives_mono; [apply divide_rat; [by apply is_rat_int|by apply is_rat_int|by apply Qc_of_Z_ne]|].
    intros r Hr. cbv beta in Hr.
    assert (Qc_of_Z (zl * zm) / Qc_of_Z (Z.gcd zm zl) = Qc_of_Z (zl * (zm / Z.gcd zl zm)))%Qc as Hq.
    { rewrite Z.gcd_comm in E |- *. destruct (Z.gcd_divide_r zl zm) as [k Hk]. 
      assert (zm / Z.gcd zl zm = k) as -> by (rewrite Hk at 1; by apply Z.div_mul).
      rewrite Hk at 1. rewrite !Z2Qc_inj_mul. field. by apply Qc_of_Z_ne. }
    rewrite Hq in Hr.
    exists (zl * (zm / Z.gcd zl zm)). split; [by apply is_rat_int_inv|done].
Qed.

(** GCD is the greatest common divisor of its arguments, LCM their least common
    multiple, both without a sign. *)
Theorem gcd_lcm fuel xs zs h :
  Forall2 is_int xs zs → (2 ≤ fuel)%nat →
  gives_int (mk_cl_gcd xs) h (foldr Z.gcd 0 zs) ∧ gives_int (mk_cl_lcm fuel xs) h (foldr Z.lcm 1 zs).
Proof.
  intros Hxs Hf. destruct fuel as [|[|n]]; [lia..|]. split.
  - assert (Hfold : ∀ x z xs zs h, is_int x z → Forall2 is_int xs zs →
      gives_int (fold_args mkcl_gcd x xs) h (fold_left Z.gcd zs z)).
    { intros. eapply (fold_args_spec is_int is_int); [intros; by apply gcd_spec|done..]. }
    assert (Hgcd : ∀ zs a b, fold_left Z.gcd (b :: zs) a = Z.gcd a (foldr Z.gcd 0 (b :: zs))).
    { intros zs'. induction zs' as [|c zs' IH]; intros a b; simpl; [by rewrite Z.gcd_0_r, Z.gcd_abs_r|].
      specialize (IH (Z.gcd a b) c). simpl in IH. rewrite IH. symmetry. apply Z.gcd_assoc. }
    destruct Hxs as [|x z xs zs Hx Hxs]; [exact (gives_int_ret _ h 0 (is_int_MAKE_FIXNUM 0 fix_0))|].
    destruct Hxs as [|y w xs zs Hy Hxs].
    + simpl. rewrite Z.gcd_0_r. eapply gives_bind_Done; [by apply (assert_integer_spec x z)|]. by apply without_sign_spec.
    + change (mk_cl_gcd (x :: y :: xs)) with (fold_args mkcl_gcd x (y :: xs)).
      change (foldr Z.gcd 0 (z :: w :: zs)) with (Z.gcd z (foldr Z.gcd 0 (w :: zs))). rewrite <- Hgcd.
      apply Hfold; [done|by constructor].
  - destruct Hxs as [|x z xs zs Hx Hxs]; [exact (gives_int_ret _ h 1 (is_int_MAKE_FIXNUM 1 fix_1))|].
    eapply gives_bind_Done; [by apply (assert_integer_spec x z)|].
    eapply (gives_bind (λ r, ∃ w, is_int r w ∧ Z.abs w = Z.abs (fold_left Z.lcm zs z))).
    + apply (fold_args_spec (λ r z, ∃ w, is_int r w ∧ Z.abs w = Z.abs z) is_int _ Z.lcm); [|by exists z|done].
      intros r y a b h' (w & Hr & Hw) Hy. eapply gives_mono; [by apply lcm_step|]. intros s (v & Hs & Hv). exists v.
      split; [done|]. rewrite Hv. rewrite (Z.abs_eq (Z.lcm a b)) by apply Z.lcm_nonneg.
      by rewrite <- Z.lcm_abs_l, Hw, Z.lcm_abs_l.
    + intros r h' (w & Hr & Hw) _. apply gives_int_gives.
      assert (Z.abs (fold_left Z.lcm zs z) = foldr Z.lcm 1 (z :: zs)) as Hl.
      { clear. revert z. induction zs as [|b zs IH]; intros z; simpl; [by rewrite Z.lcm_1_r|].
        rewrite IH. simpl. symmetry. apply Z.lcm_assoc. }
      rewrite <- Hl, <- Hw. by apply without_sign_spec.
Qed.

(** ** One more, one less *)

Lemma next_fixnum i k : is_fixnum i → is_fixnum (i + k) → 
  mkcl_fixnum_to_word_bits (swrap (fixnum_bits i + 4 * k)) = i + k.
Proof.
  intros Hi Hk. rewrite fixnum_bits_eq by done. rewrite swrap_small by (unfold_words; lia).
  unfold mkcl_fixnum_to_word_bits. rewrite Z.shiftr_div_pow2 by (unfold_words; lia). unfold MKCL_TAG_BITS. change (2 ^ 2) with 4.
  replace (4 * i + 3 + 4 * k) with (3 + (i + k) * 4) by lia. rewrite Z.div_add by lia. change (3 / 4) with 0. lia.
Qed.

Lemma one_step_int x z n h :
  is_int x z →
  gives_int (mkcl_one_plus (S n) x) h (z + 1) ∧ gives_int (mkcl_one_minus (S n) x) h (z - 1).
Proof.
  intros Hz. destruct (is_int_cases _ _ Hz) as [(i & ->)|(b & w & ->)]; cbn [mkcl_one_plus mkcl_one_minus].
  - pose proof Hz as [-> Hi]%is_int_fix_eq. change (fixnum_bits 1 - MKCL_FIXNUM_TAG) with (4 * 1).
    rewrite (is_int_fix_iff (OFix i) i) by (done || (unfold_words; lia)).
    rewrite (is_int_fix_iff (OFix i) i) by (done || (unfold_words; lia)). split.
    + destruct (Z.eqb_spec i MKCL_MOST_POSITIVE_FIXNUM) as [->|]; [apply make_integer_spec; unfold_words; lia|].
      assert (is_fixnum (i + 1)) by (unfold_words; lia). rewrite next_fixnum by done. by apply gives_int_ret, is_int_fix.
    + destruct (Z.eqb_spec i MKCL_MOST_NEGATIVE_FIXNUM) as [->|]; [apply make_integer_spec; unfold_words; lia|].
      assert (is_fixnum (i + -1)) by (unfold_words; lia). 
      replace (fixnum_bits i - 4 * 1) with (fixnum_bits i + 4 * (-1)) by lia. rewrite next_fixnum by done.
      by apply gives_int_ret, is_int_fix.
  - pose proof Hz as [-> _]%is_int_big_eq. split.
    + apply plus_int; [done|apply is_int_MAKE_FIXNUM, fix_1].
    + apply minus_int; [done|apply is_int_MAKE_FIXNUM, fix_1].
Qed.

(** 1+ and 1- of a rational number add and take one, across the ends of the
    fixnums too, where the word operation of the usual case would wrap. *)
Theorem one_more_one_less fuel x p h :
  is_rat x p → (2 ≤ fuel)%nat →
  gives (λ r, is_rat r (p + 1)%Qc) (mk_cl_1P fuel x) h ∧ gives (λ r, is_rat r (p - 1)%Qc) (mk_cl_1M fuel x) h.
Proof.
  intros Hx Hf. destruct fuel as [|[|n]]; [lia..|]. rewrite <- Z2Qc_inj_1.
  destruct (is_rat_cases _ _ Hx) as [(z & Hz & ->)|(a & xn & xd & k & d & -> & Hn & Hd & Hl & Hg & ->)].
  - rewrite <- Z2Qc_inj_add, <- Z2Qc_inj_sub. destruct (one_step_int x z (S n) h Hz) as [Hplus Hminus].
    split; [eapply gives_mono; [exact Hplus|]|eapply gives_mono; [exact Hminus|]]; intros r Hr; by apply is_rat_int.
  - split.
    + change (mk_cl_1P (S (S n)) (ORatio a xn xd)) with (z ← mkcl_plus (S (S n)) xn xd; mkcl_make_ratio z xd).
      eapply gives_int_bind; [by apply plus_int|]. intros r h1 Hr _.
      replace (frac k d + Qc_of_Z 1)%Qc with (frac (k + d) d) by (rewrite Z2Qc_inj_1; frac_field).
      apply make_ratio_spec; [done..|lia].
    + change (mk_cl_1M (S (S n)) (ORatio a xn xd)) with (z ← mkcl_minus (S (S n)) xn xd; mkcl_make_ratio z xd).
      eapply gives_int_bind; [by apply minus_int|]. intros r h1 Hr _.
      replace (frac k d - Qc_of_Z 1)%Qc with (frac (k - d) d) by (rewrite Z2Qc_inj_1; frac_field).
      apply make_ratio_spec; [done..|lia].
Qed.
End facts.
