(* ===== verification/NumComp.v ===== *)
(** * NumComp: powers, the rational value of floats, and comparison

    EXPT (src/src/c/num_sfun.c), RATIONAL (src/src/c/number.c) and the comparisons of
    src/src/c/num_comp.c.  The exponential and the logarithm that EXPT uses when the
    exponent is no integer rest on the C library, and are the interface
    [Transcendental]. *)

From S2P Require Import Prelude Words Objects Heap Numbers Floats Lists NumPred Arith.
#[local] Open Scope Z_scope.

Class Transcendental := {
  mkcl_log1 : obj → M obj;
  mk_cl_exp : obj → M obj;
}.

(** [mkcl_word_expt]: [x] to the power [y], in words. *)
Definition mkcl_word_expt (fuel : nat) (x y : Z) : M Z :=
  loop fuel (λ '(x, y, z),
    if 0 <? y then
      if Z.rem y 2 =? 0 then mret (inl (swrap (x * x), Z.quot y 2, z))
      else mret (inl (x, y - 1, swrap (z * x)))
    else mret (inr z)) (x, y, 1).

Section comparison.
Context `{!GMP, !GMPArith, !ToDouble, !Transcendental}.

(** ** EXPT *)

(** A power with an exponent that is a positive integer. *)
Definition expt_loop (fuel : nat) (x y : obj) : M obj :=
  loop fuel (λ '(z, x, y),
    even ← mkcl_evenp y;
    z ← (if negb even then mkcl_times fuel z x else mret z);
    y ← mkcl_integer_divide y (MKCL_MAKE_FIXNUM 2);
    zero ← mkcl_zerop y;
    if (zero : bool) then mret (inr z)
    else x ← mkcl_times fuel x x; mret (inl (z, x, y))) (MKCL_MAKE_FIXNUM 1, x, y).

(** The real part of a complex number, other numbers as they are. *)
Definition real_or_self (x : obj) : obj := match x with OComplex _ r _ => r | _ => x end.

Fixpoint mk_cl_expt (fuel : nat) (x y : obj) : M obj :=
  match fuel with
  | O => diverge
  | S n =>
      let ty := mkcl_type_of y in
      let tx := mkcl_type_of x in
      if negb (MKCL_NUMBER_TYPE_P ty) then raise (FEwrong_type_argument y)
      else if negb (MKCL_NUMBER_TYPE_P tx) then raise (FEwrong_type_argument x)
      else
        zero_y ← mkcl_zerop y;
        if (zero_y : bool) then
          match (if type_code tx <? type_code ty then ty else tx) with
          | mkcl_t_fixnum | mkcl_t_bignum | mkcl_t_ratio => mret (MKCL_MAKE_FIXNUM 1)
          | mkcl_t_singlefloat => mkcl_make_singlefloat (fl_of_Z SF 1)
          | mkcl_t_doublefloat => mkcl_make_doublefloat (fl_of_Z DF 1)
          | mkcl_t_complex =>
              z ← mk_cl_expt n (real_or_self x) (real_or_self y);
              mkcl_make_complex z (MKCL_MAKE_FIXNUM 0)
          | _ => mret ONil
          end
        else
          zero_x ← mkcl_zerop x;
          if (zero_x : bool) then
            z ← mkcl_times fuel x y;
            plus ← mkcl_plusp (real_or_self y);
            if negb plus then mkcl_divide fuel (MKCL_MAKE_FIXNUM 1) z else mret z
          else if negb (bool_decide (ty = mkcl_t_fixnum)) && negb (bool_decide (ty = mkcl_t_bignum)) then
            z ← mkcl_log1 x;
            z ← mkcl_times fuel z y;
            mk_cl_exp z
          else
            minus ← mkcl_minusp y;
            if (minus : bool) then
              z ← mkcl_negate y;
              z ← mk_cl_expt n x z;
              mkcl_divide fuel (MKCL_MAKE_FIXNUM 1) z
            else expt_loop fuel x y
  end.

(** ** Floats as integers and rational numbers, src/src/c/number.c *)

(** [d <= MKCL_MOST_POSITIVE_FIXNUM && d >= MKCL_MOST_NEGATIVE_FIXNUM], where the
    constants are converted to the type of [d]. *)
Definition in_fixnum_range (k : float_kind) (d : spec_float) : bool :=
  SFleb d (fl_of_Z k MKCL_MOST_POSITIVE_FIXNUM) && SFleb (fl_of_Z k MKCL_MOST_NEGATIVE_FIXNUM) d.

Definition big_of_double (d : spec_float) : M obj :=
  match mpz_set_d d with
  | Some z => a ← alloc CBox; mret (OBig a z)
  | None => raise Sigfpe
  end.

Definition mkcl_double_to_integer (d : spec_float) : M obj :=
  if in_fixnum_range DF d then mret (MKCL_MAKE_FIXNUM (fl_trunc d)) else big_of_double d.

Definition mkcl_float_to_integer (d : spec_float) : M obj :=
  if in_fixnum_range SF d then mret (MKCL_MAKE_FIXNUM (fl_trunc d)) else big_of_double (fl_cvt DF d).

(** The label GO_ON, for a [double]. *)
Definition rational_of_double (fuel : nat) (d : spec_float) : M obj :=
  if SFeqb d fl_zero then mret (MKCL_MAKE_FIXNUM 0)
  else
    let '(d, e) := fl_frexp DF d in
    let e := e - mant_dig DF in
    x ← mkcl_double_to_integer (fl_ldexp DF d (mant_dig DF));
    if negb (e =? 0) then
      p ← mk_cl_expt fuel (MKCL_MAKE_FIXNUM 2) (MKCL_MAKE_FIXNUM e);
      mkcl_times fuel p x
    else mret x.

Definition mk_cl_rational (fuel : nat) (x : obj) : M obj :=
  match x with
  | OFix _ | OBig _ _ | ORatio _ _ _ => mret x
  | OFloat SF _ f => rational_of_double fuel (fl_cvt DF f)
  | OFloat DF _ f => rational_of_double fuel f
  | _ => raise (FEwrong_type_argument x)
  end.

(** ** Comparison *)

(** The word and [d] are compared as [double]s, then, when these are equal, as words. *)
Definition double_fix_compare (n : Z) (d : spec_float) : Z :=
  if SFltb (fl_of_Z DF n) d then -1
  else if SFltb d (fl_of_Z DF n) then 1
  else
    let m := fl_trunc d in
    if n =? m then 0 else if m <? n then 1 else -1.

Fixpoint mkcl_number_equalp (fuel : nat) (x y : obj) : M bool :=
  match fuel with
  | O => diverge
  | S n =>
      (* the label Y_COMPLEX *)
      let y_complex x yr yi :=
        zero ← mkcl_zerop yi;
        if negb zero then mret false else mkcl_number_equalp n x yr in
      match x with
      | OFix i =>
          match y with
          | OFix _ => mret (obj_eq x y)
          | OBig _ _ | ORatio _ _ _ => mret false
          | OFloat SF _ f => mret (double_fix_compare i (fl_cvt DF f) =? 0)
          | OFloat DF _ f => mret (double_fix_compare i f =? 0)
          | OComplex _ yr yi => y_complex x yr yi
          | _ => raise (FEtype_error_number y)
          end
      | OBig _ z =>
          match y with
          | OFix _ => mret false
          | OBig _ w => mret (mpz_cmp z w =? 0)
          | ORatio _ _ _ => mret false
          | OFloat SF _ _ | OFloat DF _ _ => y ← mk_cl_rational fuel y; mkcl_number_equalp n x y
          | OComplex _ yr yi => y_complex x yr yi
          | _ => raise (FEtype_error_number y)
          end
      | ORatio _ xn xd =>
          match y with
          | OFix _ | OBig _ _ => mret false
          | ORatio _ yn yd => andM (mkcl_number_equalp n xn yn) (mkcl_number_equalp n xd yd)
          | OFloat SF _ _ | OFloat DF _ _ => y ← mk_cl_rational fuel y; mkcl_number_equalp n x y
          | OComplex _ yr yi => y_complex x yr yi
          | _ => raise (FEtype_error_number y)
          end
      | OFloat SF _ f | OFloat DF _ f =>
          let dx := match x with OFloat SF _ _ => fl_cvt DF f | _ => f end in
          match y with
          | OFix j => mret (double_fix_compare j dx =? 0)
          | OBig _ _ | ORatio _ _ _ => x ← mk_cl_rational fuel x; mkcl_number_equalp n x y
          | OFloat SF _ g => mret (SFeqb dx (fl_cvt DF g))
          | OFloat DF _ g => mret (SFeqb dx g)
          | OComplex _ yr yi => y_complex x yr yi
          | _ => raise (FEtype_error_number y)
          end
      | OComplex _ xr xi =>
          match y with
          | OComplex _ yr yi => andM (mkcl_number_equalp n xr yr) (mkcl_number_equalp n xi yi)
          | _ =>
              if MKCL_REAL_TYPE_P (mkcl_type_of y) then
                zero ← mkcl_zerop xi;
                if (zero : bool) then mkcl_number_equalp n xr y else mret false
              else raise (FEtype_error_number y)
          end
      | _ => raise (FEtype_error_number x)
      end
  end.

Fixpoint mkcl_number_compare (fuel : nat) (x y : obj) : M Z :=
  match fuel with
  | O => diverge
  | S n =>
      match x with
      | OFix ix =>
          match y with
          | OFix iy => mret (if ix <? iy then -1 else if negb (ix =? iy) then 1 else 0)
          | OBig _ w => mret (if mpz_sgn w <? 0 then 1 else -1)
          | ORatio _ yn yd => x ← mkcl_times fuel x yd; mkcl_number_compare n x yn
          | OFloat SF _ f => mret (double_fix_compare ix (fl_cvt DF f))
          | OFloat DF _ f => mret (double_fix_compare ix f)
          | _ => raise (FEtype_error_real y)
          end
      | OBig _ z =>
          match y with
          | OFix _ => mret (if mpz_sgn z <? 0 then -1 else 1)
          | OBig _ w => mret (mpz_cmp z w)
          | ORatio _ yn yd => x ← mkcl_times fuel x yd; mkcl_number_compare n x yn
          | OFloat SF _ _ | OFloat DF _ _ => y ← mk_cl_rational fuel y; mkcl_number_compare n x y
          | _ => raise (FEtype_error_real y)
          end
      | ORatio _ xn xd =>
          match y with
          | OFix _ | OBig _ _ => y ← mkcl_times fuel y xd; mkcl_number_compare n xn y
          | ORatio _ yn yd =>
              a ← mkcl_times fuel xn yd;
              b ← mkcl_times fuel yn xd;
              mkcl_number_compare n a b
          | OFloat SF _ _ | OFloat DF _ _ => y ← mk_cl_rational fuel y; mkcl_number_compare n x y
          | _ => raise (FEtype_error_real y)
          end
      | OFloat SF _ f | OFloat DF _ f =>
          let dx := match x with OFloat SF _ _ => fl_cvt DF f | _ => f end in
          let compare dy := mret (if SFeqb dx dy then 0 else if SFltb dx dy then -1 else 1) in
          match y with
          | OFix j => mret (- double_fix_compare j dx)
          | OBig _ _ | ORatio _ _ _ => x ← mk_cl_rational fuel x; mkcl_number_compare n x y
          | OFloat SF _ g => compare (fl_cvt DF g)
          | OFloat DF _ g => compare g
          | _ => raise (FEtype_error_real y)
          end
      | _ => raise (FEtype_error_real x)
      end
  end.

(** ** The functions of any number of arguments *)

Definition mk_cl_E (fuel : nat) (num : obj) (nums : list obj) : M obj :=
  (fix go nums :=
     match nums with
     | [] => mret mk_cl_Ct
     | y :: nums => b ← mkcl_number_equalp fuel num y; if negb b then mret ONil else go nums
     end) nums.

(** Is [numi] equal to one of the numbers before it? *)
Fixpoint equal_to_one (fuel : nat) (numi : obj) (before : list obj) : M bool :=
  match before with
  | [] => mret false
  | y :: before => b ← mkcl_number_equalp fuel numi y; if (b : bool) then mret true else equal_to_one fuel numi before
  end.

Fixpoint NE_loop (fuel : nat) (before nums : list obj) : M obj :=
  match nums with
  | [] => mret mk_cl_Ct
  | numi :: nums =>
      b ← equal_to_one fuel numi before;
      if (b : bool) then mret ONil else NE_loop fuel (before ++ [numi]) nums
  end.

Definition mk_cl_NE (fuel : nat) (nums : list obj) : M obj :=
  match nums with [] => raise FEwrong_num_arguments | num :: nums => NE_loop fuel [num] nums end.

Fixpoint monotonic_loop (fuel : nat) (s t : Z) (c : obj) (nums : list obj) : M obj :=
  match nums with
  | [] => mret mk_cl_Ct
  | d :: nums =>
      r ← mkcl_number_compare fuel d c;
      if s * r <? t then mret ONil else monotonic_loop fuel s t d nums
  end.

Definition monotonic (fuel : nat) (s t : Z) (nums : list obj) : M obj :=
  match nums with [] => raise FEwrong_num_arguments | c :: nums => monotonic_loop fuel s t c nums end.

Definition mk_cl_LE (fuel : nat) (nums : list obj) : M obj := monotonic fuel 1 0 nums.
Definition mk_cl_GE (fuel : nat) (nums : list obj) : M obj := monotonic fuel (-1) 0 nums.
Definition mk_cl_L (fuel : nat) (nums : list obj) : M obj := monotonic fuel 1 1 nums.
Definition mk_cl_G (fuel : nat) (nums : list obj) : M obj := monotonic fuel (-1) 1 nums.

Definition mk_cl_max (fuel : nat) (max : obj) (nums : list obj) : M obj :=
  match nums with
  | [] => mkcl_zerop max;; mret max
  | _ => fold_args (λ max numi, c ← mkcl_number_compare fuel max numi; mret (if c <? 0 then numi else max)) max nums
  end.

Definition mk_cl_min (fuel : nat) (min : obj) (nums : list obj) : M obj :=
  match nums with
  | [] => mkcl_zerop min;; mret min
  | _ => fold_args (λ min numi, c ← mkcl_number_compare fuel min numi; mret (if 0 <? c then numi else min)) min nums
  end.
End comparison.
