(* ===== verification/NumCompSpecs.v ===== *)
(** * NumCompSpecs: comparison of rational numbers, and powers *)

From S2P Require Import Prelude Words Objects Heap Numbers Floats Lists NumPred Arith ArithSpecs NumComp.
From Stdlib Require Import Sorting.Sorted.
#[local] Open Scope Z_scope.

(** ** Order of fractions *)

Lemma frac_make n d : 0 < d → (frac n d == n # Z.to_pos d)%Q.
Proof.
  intros Hd. unfold frac, Qcdiv, Qcmult, Qcinv. simpl. rewrite !Qred_correct.
  destruct d as [|p|]; [lia| |lia]. unfold Qdiv, Qeq, Qmult, Qinv, inject_Z. simpl. lia.
Qed.

Lemma frac_compare n d n' d' : 0 < d → 0 < d' → (frac n d ?= frac n' d')%Qc = (n * d' ?= n' * d).
Proof.
  intros Hd Hd'. unfold Qccompare. rewrite (Qcompare_comp _ _ (frac_make n d Hd) _ _ (frac_make n' d' Hd')).
  unfold Qcompare. simpl. by rewrite !Z2Pos.id.
Qed.

Lemma Qc_of_Z_compare z w : (Qc_of_Z z ?= Qc_of_Z w)%Qc = (z ?= w).
Proof. rewrite <- !frac_1, frac_compare by done. by rewrite !Z.mul_1_r. Qed.

Lemma frac_pos n d : 0 < d → (0 < frac n d)%Qc ↔ 0 < n.
Proof.
  intros Hd. rewrite Qclt_alt, <- (frac_0 1), frac_compare by lia. rewrite Z.mul_0_l, Z.mul_1_r, Z.compare_lt_iff. done.
Qed.

Definition cmp_sign (c : comparison) : Z := match c with Eq => 0 | Lt => -1 | Gt => 1 end.

Lemma cmp_sign_sgn x y : cmp_sign (x ?= y) = Z.sgn (x - y).
Proof. destruct (Z.compare_spec x y); simpl; lia. Qed.

(** A rational object as a fraction with a positive denominator. *)
Lemma is_rat_frac x p : is_rat x p → ∃ n d, 0 < d ∧ p = frac n d.
Proof.
  intros Hx. destruct (is_rat_cases _ _ Hx) as [(z & _ & ->)|(? & ? & ? & n & d & -> & _ & _ & ? & _ & ->)].
  - exists z, 1. by rewrite frac_1.
  - exists n, d. split; [lia|done].
Qed.

Section comparison_facts.
Context `{!GMP, !GMPSpec, !GMPArith, !GMPArithSpec, !ToDouble, !Transcendental}.

(** ** Two numbers *)

Lemma compare_ints n x y zx zy h :
  is_int x zx → is_int y zy → gives (λ c, Z.sgn c = Z.sgn (zx - zy)) (mkcl_number_compare (S n) x y) h.
Proof.
  intros Hx Hy. cbn [mkcl_number_compare].
  destruct (is_int_cases _ _ Hx) as [(i & ->)|(a & w & ->)]; destruct (is_int_cases _ _ Hy) as [(j & ->)|(b & v & ->)];
    first [apply is_int_fix_eq in Hx as [-> Hx]|apply is_int_big_eq in Hx as [-> Hx]];
    first [apply is_int_fix_eq in Hy as [-> Hy]|apply is_int_big_eq in Hy as [-> Hy]]; apply gives_ret.
  - destruct (Z.ltb_spec i j), (Z.eqb_spec i j); simpl; lia.
  - rewrite mpz_sgn_eq. destruct (Z.ltb_spec (Z.sgn v) 0); unfold_words; lia.
  - rewrite mpz_sgn_eq. destruct (Z.ltb_spec (Z.sgn w) 0); unfold_words; lia.
  - apply mpz_cmp_sgn.
Qed.

Lemma compare_rat n x y p q h :
  is_rat x p → is_rat y q →
  gives (λ c, Z.sgn c = cmp_sign (p ?= q)%Qc) (mkcl_number_compare (S (S n)) x y) h.
Proof.
  intros Hx Hy.
  destruct (is_rat_cases _ _ Hx) as [(zx & Hzx & ->)|(a & xn & xd & n1 & d1 & -> & Hn1 & Hd1 & Hl1 & Hg1 & ->)];
    destruct (is_rat_cases _ _ Hy) as [(zy & Hzy & ->)|(b & yn & yd & n2 & d2 & -> & Hn2 & Hd2 & Hl2 & Hg2 & ->)].
  - rewrite Qc_of_Z_compare, cmp_sign_sgn. by apply compare_ints.
  - assert (mkcl_number_compare (S (S n)) x (ORatio b yn yd) =
      x ← mkcl_times (S (S n)) x yd; mkcl_number_compare (S n) x yn) as ->
      by (by destruct (is_int_cases _ _ Hzx) as [(? & ->)|(? & ? & ->)]).
    eapply gives_int_bind; [by apply times_int|]. intros r h1 Hr _.
    rewrite <- frac_1, frac_compare, cmp_sign_sgn, Z.mul_1_r by lia. by apply compare_ints.
  - assert (mkcl_number_compare (S (S n)) (ORatio a xn xd) y =
      y ← mkcl_times (S (S n)) y xd; mkcl_number_compare (S n) xn y) as ->
      by (by destruct (is_int_cases _ _ Hzy) as [(? & ->)|(? & ? & ->)]).
    eapply gives_int_bind; [by apply times_int|]. intros r h1 Hr _.
    rewrite <- (frac_1 zy), frac_compare, cmp_sign_sgn, Z.mul_1_r by lia. by apply compare_ints.
  - change (mkcl_number_compare (S (S n)) (ORatio a xn xd) (ORatio b yn yd)) with
      (a ← mkcl_times (S (S n)) xn yd; b ← mkcl_times (S (S n)) yn xd; mkcl_number_compare (S n) a b).
    eapply gives_int_bind; [by apply times_int|]. intros r h1 Hr _.
    eapply gives_int_bind; [by apply times_int|]. intros s h2 Hs _.
    rewrite frac_compare, cmp_sign_sgn by lia. by apply compare_ints.
Qed.

Lemma equalp_ints n x y zx zy h :
  is_int x zx → is_int y zy → mkcl_number_equalp (S n) x y h = Done (zx =? zy) h.
Proof.
  intros Hx Hy. cbn [mkcl_number_equalp].
  destruct (is_int_cases _ _ Hx) as [(i & ->)|(a & w & ->)]; destruct (is_int_cases _ _ Hy) as [(j & ->)|(b & v & ->)];
    first [apply is_int_fix_eq in Hx as [-> Hx]|apply is_int_big_eq in Hx as [-> Hx]];
    first [apply is_int_fix_eq in Hy as [-> Hy]|apply is_int_big_eq in Hy as [-> Hy]]; unfold mret, M_ret; f_equal.
  - destruct (Z.eqb_spec i j) as [->|]; [apply obj_eq_refl|]. apply obj_eq_false. by intros [=].
  - symmetry. apply Z.eqb_neq. by intros ->.
  - symmetry. apply Z.eqb_neq. by intros ->.
  - pose proof (mpz_cmp_sgn w v). destruct (Z.eqb_spec (mpz_cmp w v) 0), (Z.eqb_spec w v); try done; lia.
Qed.

Lemma frac_lowest_eq n d n' d' :
  1 < d → 1 < d' → Z.gcd n d = 1 → Z.gcd n' d' = 1 → frac n d = frac n' d' → n = n' ∧ d = d'.
Proof.
  intros Hd Hd' Hg Hg' E.
  assert (n * d' = n' * d) as Hx.
  { apply Z.compare_eq. rewrite <- frac_compare by lia. rewrite E. by apply Qceq_alt. }
  assert (d = d') as ->; [|split; [nia|done]].
  apply Z.divide_antisym_nonneg; [lia..| |].
  - apply (Z.gauss _ n); [|by rewrite Z.gcd_comm]. exists n'. lia.
  - apply (Z.gauss _ n'); [|by rewrite Z.gcd_comm]. exists n. lia.
Qed.

Lemma equalp_rat n x y p q h :
  is_rat x p → is_rat y q →
  ∃ b, mkcl_number_equalp (S (S n)) x y h = Done b h ∧ (b = true ↔ p = q).
Proof.
  intros Hx Hy.
  destruct (is_rat_cases _ _ Hx) as [(zx & Hzx & ->)|(a & xn & xd & n1 & d1 & -> & Hn1 & Hd1 & Hl1 & Hg1 & ->)];
    destruct (is_rat_cases _ _ Hy) as [(zy & Hzy & ->)|(b & yn & yd & n2 & d2 & -> & Hn2 & Hd2 & Hl2 & Hg2 & ->)].
  - exists (zx =? zy). split; [by apply equalp_ints|]. by rewrite Z.eqb_eq, Z2Qc_inj_iff.
  - exists false. split; [by destruct (is_int_cases _ _ Hzx) as [(? & ->)|(? & ? & ->)]|]. split; [done|]. intros E.
    rewrite <- E in Hy. by destruct (is_rat_int_inv _ _ Hy).
  - exists false. split; [by destruct (is_int_cases _ _ Hzy) as [(? & ->)|(? & ? & ->)]|]. split; [done|]. intros E.
    rewrite E in Hx. by destruct (is_rat_int_inv _ _ Hx).
  - exists ((n1 =? n2) && (d1 =? d2)). split.
    + change (mkcl_number_equalp (S (S n)) (ORatio a xn xd) (ORatio b yn yd)) with
        (andM (mkcl_number_equalp (S n) xn yn) (mkcl_number_equalp (S n) xd yd)). unfold andM.
      rewrite (bind_Done _ _ _ _ _ (equalp_ints n xn yn n1 n2 h Hn1 Hn2)). destruct (n1 =? n2); [by apply equalp_ints|done].
    + rewrite andb_true_iff, !Z.eqb_eq. split; [by intros [-> ->]|]. intros E. by apply frac_lowest_eq.
Qed.
(** ** Any number of numbers *)

(** A computation that answers whether [P]. *)
Definition answers (P : Prop) (m : M obj) (h : heap) : Prop :=
  ∃ b h', m h = Done (lisp_bool b) h' ∧ (b = true ↔ P) ∧ h ⊆ h'.

(** What MONOTONIC asks of two numbers that follow each other. *)
Definition in_order (s t : Z) (c d : Qc) : Prop := t ≤ s * cmp_sign (d ?= c)%Qc.

Lemma monotonic_spec n s t c nums p ps h :
  s = 1 ∨ s = -1 → t = 0 ∨ t = 1 → is_rat c p → Forall2 is_rat nums ps →
  answers (Sorted (in_order s t) (p :: ps)) (monotonic_loop (S (S n)) s t c nums) h.
Proof.
  intros Hs Ht Hc Hnums. revert c p h Hc. induction Hnums as [|d q nums ps Hd _ IH]; intros c p h Hc; cbn [monotonic_loop].
  { exists true, h. split; [done|]. split; [|done]. split; [by repeat constructor|done]. }
  destruct (compare_rat n d c q p h Hd Hc) as (r & h1 & E & Hr & Hs1). unfold answers. rewrite (bind_Done _ _ _ _ _ E).
  assert ((s * r <? t) = true ↔ ¬ in_order s t p q) as Hlt.
  { unfold in_order. rewrite <- Hr, Z.ltb_lt. destruct Hs as [-> | ->], Ht as [-> | ->]; lia. }
  destruct (s * r <? t).
  - exists false, h1. split; [done|]. split; [|done]. split; [done|]. intros Hsort. apply Sorted_inv in Hsort as [_ Hrel].
    apply HdRel_inv in Hrel. by apply Hlt in Hrel.
  - destruct (IH d q h1 Hd) as (b & h2 & E2 & Hb & Hs2). exists b, h2. split; [done|]. split; [|by etrans].
    assert (in_order s t p q) as Hpq by (unfold in_order in *; destruct (decide (t ≤ s * cmp_sign (q ?= p)%Qc)) as [|Hno]; [done|]; by apply Hlt in Hno).
    rewrite Hb. split; [intros Hsort; constructor; [done|by constructor]|]. by intros [? _]%Sorted_inv.
Qed.

Lemma cmp_sign_lt (p q : Qc) : 1 ≤ cmp_sign (q ?= p)%Qc ↔ (p < q)%Qc.
Proof. change (p < q)%Qc with (q > p)%Qc. rewrite Qcgt_alt. destruct (q ?= p)%Qc; simpl; split; try done; lia. Qed.
Lemma cmp_sign_le (p q : Qc) : 0 ≤ cmp_sign (q ?= p)%Qc ↔ (p <= q)%Qc.
Proof. change (p <= q)%Qc with (q >= p)%Qc. rewrite Qcge_alt. destruct (q ?= p)%Qc; simpl; split; try done; try lia. Qed.
Lemma cmp_sign_gt (p q : Qc) : 1 ≤ -1 * cmp_sign (q ?= p)%Qc ↔ (q < p)%Qc.
Proof. rewrite Qclt_alt. destruct (q ?= p)%Qc; simpl; split; try done; lia. Qed.
Lemma cmp_sign_ge (p q : Qc) : 0 ≤ -1 * cmp_sign (q ?= p)%Qc ↔ (q <= p)%Qc.
Proof. rewrite Qcle_alt. destruct (q ?= p)%Qc; simpl; split; try done; try lia. Qed.

Lemma Sorted_iff {A} (R R' : relation A) l : (∀ x y, R x y ↔ R' x y) → Sorted R l ↔ Sorted R' l.
Proof.
  intros HR. split; intros Hs.
  - induction Hs as [|x l _ IH Hd]; constructor; [done|]. destruct Hd; constructor. by apply HR.
  - induction Hs as [|x l _ IH Hd]; constructor; [done|]. destruct Hd; constructor. by apply HR.
Qed.

Lemma answers_iff P P' m h : P ↔ P' → answers P m h → answers P' m h.
Proof. intros HP (b & h' & E & Hb & Hs). exists b, h'. split_and!; [done|by rewrite Hb|done..]. Qed.

Lemma mk_cl_E_spec n x xs p ps h :
  is_rat x p → Forall2 is_rat xs ps → answers (Forall (λ q, p = q) ps) (mk_cl_E (S (S n)) x xs) h.
Proof.
  intros Hx Hxs. unfold mk_cl_E. induction Hxs as [|y q xs ps Hy _ IH].
  - exists true, h. split; [done|]. split; [|done]. split; [by constructor|done].
  - destruct (equalp_rat n x y p q h Hx Hy) as (b & E & Hb). unfold answers. rewrite (bind_Done _ _ _ _ _ E).
    destruct b; simpl negb; cbv iota.
    + destruct IH as (b & h' & E' & Hb' & Hs). exists b, h'. split_and!; [done| |done..]. rewrite Forall_cons, Hb'.
      split; [intros ?; split; [by apply Hb|done]|by intros [_ ?]].
    + exists false, h. split; [done|]. split; [|done]. rewrite Forall_cons. split; [done|]. intros [Hpq _]. by apply Hb in Hpq.
Qed.

Lemma equal_to_one_spec n x ys p qs h :
  is_rat x p → Forall2 is_rat ys qs → ∃ b, equal_to_one (S (S n)) x ys h = Done b h ∧ (b = true ↔ p ∈ qs).
Proof.
  intros Hx Hys. induction Hys as [|y q ys qs Hy _ IH]; simpl.
  - exists false. split; [done|]. by rewrite elem_of_nil.
  - destruct (equalp_rat n x y p q h Hx Hy) as (b & E & Hb). rewrite (bind_Done _ _ _ _ _ E). destruct b.
    + exists true. split; [done|]. rewrite elem_of_cons. split; [|done]. intros _. left. by apply Hb.
    + destruct IH as (b & E' & Hb'). exists b. split; [done|]. rewrite elem_of_cons, Hb'. split; [by right|].
      intros [Hpq|?]; [by apply Hb in Hpq|done].
Qed.

Lemma NE_spec n before nums ps qs h :
  Forall2 is_rat before ps → Forall2 is_rat nums qs → NoDup ps →
  answers (NoDup (ps ++ qs)) (NE_loop (S (S n)) before nums) h.
Proof.
  intros Hb Hn. revert before ps Hb. induction Hn as [|x q nums qs Hx _ IH]; intros before ps Hb Hd; simpl.
  - exists true, h. rewrite app_nil_r. done.
  - destruct (equal_to_one_spec n x before q ps h Hx Hb) as (b & E & Hin). unfold answers. rewrite (bind_Done _ _ _ _ _ E).
    destruct b.
    + exists false, h. split; [done|]. split; [|done]. split; [done|]. intros (_ & Hq & _)%NoDup_app.
      exfalso. apply (Hq q); [by apply Hin|by left].
    + rewrite (cons_middle q ps qs), (app_assoc ps [q] qs). apply IH; [apply Forall2_app; [done|by constructor]|]. apply NoDup_app. split_and!; [done| |].
      * intros r Hr ->%list_elem_of_singleton. apply Hin in Hr. done.
      * apply NoDup_singleton.
Qed.

(** C22: on rational numbers, [<], [<=], [>] and [>=] answer whether the arguments are
    in order, [=] whether they are all equal, and [/=] whether no two are. *)
Theorem comparisons_decide fuel x xs p ps h :
  is_rat x p → Forall2 is_rat xs ps → (2 ≤ fuel)%nat →
  answers (Sorted Qclt (p :: ps)) (mk_cl_L fuel (x :: xs)) h ∧
  answers (Sorted Qcle (p :: ps)) (mk_cl_LE fuel (x :: xs)) h ∧
  answers (Sorted (flip Qclt) (p :: ps)) (mk_cl_G fuel (x :: xs)) h ∧
  answers (Sorted (flip Qcle) (p :: ps)) (mk_cl_GE fuel (x :: xs)) h ∧
  answers (Forall (λ q, p = q) ps) (mk_cl_E fuel x xs) h ∧
  answers (NoDup (p :: ps)) (mk_cl_NE fuel (x :: xs)) h.
Proof.
  intros Hx Hxs Hf. destruct fuel as [|[|n]]; [lia..|].
  split_and!; [eapply answers_iff; [|apply monotonic_spec; [auto..|exact Hx|exact Hxs]]; apply Sorted_iff; intros c d..
              |by apply mk_cl_E_spec|].
  - rewrite <- cmp_sign_lt. unfold in_order. by rewrite Z.mul_1_l.
  - rewrite <- cmp_sign_le. unfold in_order. by rewrite Z.mul_1_l.
  - apply cmp_sign_gt.
  - apply cmp_sign_ge.
  - apply (NE_spec n [x] xs [p] ps h); [by constructor|done|apply NoDup_singleton].
Qed.

Lemma fold_extreme (R : relation Qc) (sel : Z → bool) n x xs p ps h :
  PreOrder R → (∀ c p q, Z.sgn c = cmp_sign (p ?= q)%Qc → if sel c then R p q else R q p) →
  is_rat x p → Forall2 is_rat xs ps →
  gives (λ r, r ∈ x :: xs ∧ ∃ q, is_rat r q ∧ Forall (λ p, R p q) (p :: ps))
    (fold_args (λ m y, c ← mkcl_number_compare (S (S n)) m y; mret (if sel c then y else m)) x xs) h.
Proof.
  intros HR Hsel Hx Hxs. revert x p h Hx. induction Hxs as [|y q xs ps Hy _ IH]; intros x p h Hx; cbn [fold_args].
  { apply gives_ret. split; [by left|]. exists p. split; [done|]. by repeat constructor. }
  destruct (compare_rat n x y p q h Hx Hy) as (c & h1 & E & Hc & Hs1). specialize (Hsel c p q Hc).
  unfold gives. rewrite bind_assoc, (bind_Done _ _ _ _ _ E). destruct (sel c).
  - destruct (IH y q h1 Hy) as (r & h2 & E2 & (Hin & m & Hr & Hall) & Hs2). exists r, h2. split_and!; [done| | |by etrans]; [by apply elem_of_cons; right|].
    exists m. split; [done|]. constructor; [|done]. inversion Hall. by etrans.
  - destruct (IH x p h1 Hx) as (r & h2 & E2 & (Hin & m & Hr & Hall) & Hs2). exists r, h2. split_and!; [done| | |by etrans].
    { apply elem_of_cons in Hin as [->|?]; [by left|]. by right; right. }
    exists m. split; [done|]. inversion Hall as [|? ? Hp Hps]. constructor; [done|]. constructor; [by etrans|done].
Qed.

Lemma zerop_rat x p h : is_rat x p → mkcl_zerop x h = Done (bool_decide (p = 0%Qc)) h.
Proof.
  intros Hx. destruct (is_rat_cases _ _ Hx) as [(z & Hz & ->)|(a & xn & xd & n & d & -> & Hn & Hd & Hl & Hg & ->)].
  - destruct (is_int_cases _ _ Hz) as [(i & ->)|(b & w & ->)]; simpl; unfold mret, M_ret; f_equal.
    + rewrite (is_int_fix_iff (OFix i) z 0 Hz fix_0). symmetry. rewrite (bool_decide_ext _ (z = 0)) by apply Qc_of_Z_zero.
      destruct (Z.eqb_spec z 0); [by apply bool_decide_eq_true|by apply bool_decide_eq_false].
    + apply is_int_big_eq in Hz as [-> Hw]. symmetry. apply bool_decide_eq_false. rewrite Qc_of_Z_zero. intros ->. apply Hw, fix_0.
  - simpl. unfold mret, M_ret. f_equal. symmetry. apply bool_decide_eq_false. rewrite frac_zero by lia. intros ->.
    rewrite Z.gcd_0_l in Hg. lia.
Qed.

(** MAX gives one of its arguments that is not less than any of them, and MIN one
    that is not greater. *)
Theorem max_min fuel x xs p ps h :
  is_rat x p → Forall2 is_rat xs ps → (2 ≤ fuel)%nat →
  gives (λ r, r ∈ x :: xs ∧ ∃ q, is_rat r q ∧ Forall (λ p, p <= q)%Qc (p :: ps)) (mk_cl_max fuel x xs) h ∧
  gives (λ r, r ∈ x :: xs ∧ ∃ q, is_rat r q ∧ Forall (λ p, q <= p)%Qc (p :: ps)) (mk_cl_min fuel x xs) h.
Proof.
  intros Hx Hxs Hf. destruct fuel as [|[|n]]; [lia..|].
  assert (PreOrder Qcle) by (split; [intros ?; apply Qcle_refl|intros ???; apply Qcle_trans]).
  assert (PreOrder (flip Qcle)) by (split; [intros ?; apply Qcle_refl|intros ??? Hab Hbc; by eapply Qcle_trans]).
  destruct Hxs as [|y q xs ps Hy Hxs].
  { unfold mk_cl_max, mk_cl_min.
    split; (eapply gives_bind_Done; [by apply (zerop_rat x p)|]; apply gives_ret; split; [by left|];
      exists p; split; [done|]; by repeat constructor). }
  split.
  - apply (fold_extreme Qcle (λ c, c <? 0) n x (y :: xs) p (q :: ps)); [done| |done|by constructor].
    intros c a b Hc. destruct (Z.ltb_spec c 0).
    + apply Qclt_le_weak. rewrite Qclt_alt. destruct (a ?= b)%Qc; simpl in Hc; [lia|done|lia].
    + change (b <= a)%Qc with (a >= b)%Qc. rewrite Qcge_alt. intros E. rewrite E in Hc. simpl in Hc. lia.
  - apply (fold_extreme (flip Qcle) (λ c, 0 <? c) n x (y :: xs) p (q :: ps)); [done| |done|by constructor].
    intros c a b Hc. destruct (Z.ltb_spec 0 c); unfold flip.
    + apply Qclt_le_weak. change (b < a)%Qc with (a > b)%Qc. rewrite Qcgt_alt. destruct (a ?= b)%Qc; simpl in Hc; [lia|lia|done].
    + rewrite Qcle_alt. intros E. rewrite E in Hc. simpl in Hc. lia.
Qed.
End comparison_facts.
