(* ===== verification/NumCo.v ===== *)
(** * NumCo: division with a remainder, src/src/c/num_co.c

    FLOOR, CEILING, TRUNCATE, ROUND, MOD and REM.  The C functions leave the remainder in
    the second of the values of the thread; here both are the result.

    [mkcl_type_error], which can be resumed with another object, is an error. *)

From S2P Require Import Prelude Words Objects Heap Numbers Floats Lists NumPred Arith NumComp.
#[local] Open Scope Z_scope.

Section division.
Context `{!GMP, !GMPArith, !ToDouble, !Transcendental}.

Definition number_remainder (fuel : nat) (x y q : obj) : M obj := z ← mkcl_times fuel q y; mkcl_minus fuel x z.

(** [mkcl_float_to_integer] and [mkcl_double_to_integer]. *)
Definition to_integer (k : float_kind) (d : spec_float) : M obj :=
  match k with SF => mkcl_float_to_integer d | _ => mkcl_double_to_integer d end.

(** ** Rounding a number

    FLOOR, CEILING and TRUNCATE differ in a division of words, of bignums and of
    floats. *)

(** A float [d] and its rounded value [y]. *)
Definition float_part (k : float_kind) (d y : spec_float) : M (obj * obj) :=
  v0 ← to_integer k y;
  v1 ← make_float k (fl_sub k d y);
  mret (v0, v1).

Definition big_qr (qr : M (Z * Z)) : M (obj * obj) :=
  p ← qr;
  v0 ← _mkcl_big_register_normalize p.1;
  v1 ← _mkcl_big_register_normalize p.2;
  mret (v0, v1).

(** [n] divides the number [a], with the remainder [(p - q) * n]. *)
Definition float_qr_factored (round : float_kind → spec_float → spec_float) (k : float_kind)
    (a : c_number) (n : spec_float) : M (obj * obj) :=
  let p := fl_cvt k (c_op fl_div a (CFloat k n)).2 in
  let q := round k p in
  v0 ← to_integer k q;
  v1 ← make_float k (fl_mul k (fl_sub k p q) n);
  mret (v0, v1).

(** The same, with the remainder [p * n - q * n]. *)
Definition float_qr (round : float_kind → spec_float → spec_float) (k : float_kind)
    (a : c_number) (n : spec_float) : M (obj * obj) :=
  let p := fl_cvt k (c_op fl_div a (CFloat k n)).2 in
  let q := round k p in
  v0 ← to_integer k q;
  v1 ← make_float k (fl_sub k (fl_mul k p n) (fl_mul k q n));
  mret (v0, v1).

(** A rational number [x] divided by the ratio of parts [yn] and [yd]: [floor2] or
    [ceiling2] of [x * yd] and [yn], with the remainder over [yd]. *)
Definition by_ratio (fuel : nat) (qr : obj → obj → M (obj * obj)) (x yn yd : obj) : M (obj * obj) :=
  a ← mkcl_times fuel x yd;
  p ← qr a yn;
  v1 ← mkcl_make_ratio p.2 yd;
  mret (p.1, v1).

(** The ratio of parts [xn] and [xd] divided by the number [y]. *)
Definition of_ratio (fuel : nat) (qr : obj → obj → M (obj * obj)) (xn xd y : obj) : M (obj * obj) :=
  match y with
  | ORatio _ yn yd =>
      a ← mkcl_times fuel xn yd;
      b ← mkcl_times fuel xd yn;
      p ← qr a b;
      d ← mkcl_times fuel xd yd;
      v1 ← mkcl_make_ratio p.2 d;
      mret (p.1, v1)
  | _ =>
      b ← mkcl_times fuel xd y;
      p ← qr xn b;
      v1 ← mkcl_divide fuel p.2 xd;
      mret (p.1, v1)
  end.

(** ** FLOOR *)

(** Two fixnums. *)
Definition fix_floor (a b : Z) : M (obj * obj) :=
  if b =? 0 then raise Sigfpe
  else
    let q := Z.quot a b in
    let r := Z.rem a b in
    if (Z.lxor r b <? 0) && negb (r =? 0)
    then mret (MKCL_MAKE_FIXNUM (q - 1), MKCL_MAKE_FIXNUM (r + b))
    else mret (MKCL_MAKE_FIXNUM q, MKCL_MAKE_FIXNUM r).

Fixpoint mkcl_floor2 (fuel : nat) (x y : obj) : M (obj * obj) :=
  match fuel with
  | O => diverge
  | S n =>
      if negb (MKCL_NUMBER_TYPE_P (mkcl_type_of y)) then raise (FEwrong_type_argument y)
      else
        match x with
        | OFix a =>
            match y with
            | OFix b => fix_floor a b
            | OBig _ w => big_qr (big_fdiv_qr (mpz_set_si a) w)
            | ORatio _ yn yd => by_ratio fuel (mkcl_floor2 n) x yn yd
            | OFloat SF _ f => float_qr_factored fl_floor SF (CWord a) f
            | OFloat DF _ f => float_qr_factored fl_floor DF (CWord a) f
            | _ => mret (ONil, ONil)
            end
        | OBig _ z =>
            match y with
            | OFix b => big_qr (big_fdiv_qr z (mpz_set_si b))
            | OBig _ w => big_qr (big_fdiv_qr z w)
            | ORatio _ yn yd => by_ratio fuel (mkcl_floor2 n) x yn yd
            | OFloat SF _ f => d ← to_double x; float_qr_factored fl_floor SF (CFloat DF d) f
            | OFloat DF _ f => d ← to_double x; float_qr_factored fl_floor DF (CFloat DF d) f
            | _ => mret (ONil, ONil)
            end
        | ORatio _ xn xd => of_ratio fuel (mkcl_floor2 n) xn xd y
        | OFloat SF _ f => d ← to_double y; float_qr fl_floor SF (CFloat SF f) (fl_cvt SF d)
        | OFloat DF _ f => d ← to_double y; float_qr fl_floor DF (CFloat DF f) d
        | _ => raise (FEwrong_type_argument x)
        end
  end.

Definition mkcl_floor1 (fuel : nat) (x : obj) : M (obj * obj) :=
  match x with
  | OFix _ | OBig _ _ => mret (x, MKCL_MAKE_FIXNUM 0)
  | ORatio _ num den => p ← mkcl_floor2 fuel num den; v1 ← mkcl_make_ratio p.2 den; mret (p.1, v1)
  | OFloat SF _ d => float_part SF d (fl_floor SF d)
  | OFloat DF _ d => float_part DF d (fl_floor DF d)
  | _ => raise (FEwrong_type_argument x)
  end.

Definition mk_cl_floor (fuel : nat) (x : obj) (y : option obj) : M (obj * obj) :=
  match y with None => mkcl_floor1 fuel x | Some y => mkcl_floor2 fuel x y end.

(** ** CEILING *)

Definition fix_ceiling (a b : Z) : M (obj * obj) :=
  if b =? 0 then raise Sigfpe
  else
    let q := Z.quot a b in
    let r := Z.rem a b in
    if (0 <? Z.lxor r b) && negb (r =? 0)
    then mret (MKCL_MAKE_FIXNUM (q + 1), MKCL_MAKE_FIXNUM (r - b))
    else mret (MKCL_MAKE_FIXNUM q, MKCL_MAKE_FIXNUM r).

Fixpoint mkcl_ceiling2 (fuel : nat) (x y : obj) : M (obj * obj) :=
  match fuel with
  | O => diverge
  | S n =>
      if negb (MKCL_NUMBER_TYPE_P (mkcl_type_of y)) then raise (FEwrong_type_argument y)
      else
        match x with
        | OFix a =>
            match y with
            | OFix b => fix_ceiling a b
            | OBig _ w => big_qr (big_cdiv_qr (mpz_set_si a) w)
            | ORatio _ yn yd => by_ratio fuel (mkcl_ceiling2 n) x yn yd
            | OFloat SF _ f => float_qr fl_ceil SF (CWord a) f
            | OFloat DF _ f => float_qr fl_ceil DF (CWord a) f
            | _ => mret (ONil, ONil)
            end
        | OBig _ z =>
            match y with
            | OFix b => big_qr (big_cdiv_qr z (mpz_set_si b))
            | OBig _ w => big_qr (big_cdiv_qr z w)
            | ORatio _ yn yd => by_ratio fuel (mkcl_ceiling2 n) x yn yd
            | OFloat SF _ f => d ← to_double x; float_qr fl_ceil SF (CFloat DF d) f
            | OFloat DF _ f => d ← to_double x; float_qr fl_ceil DF (CFloat DF d) f
            | _ => mret (ONil, ONil)
            end
        | ORatio _ xn xd => of_ratio fuel (mkcl_ceiling2 n) xn xd y
        | OFloat SF _ f => d ← to_double y; float_qr fl_ceil SF (CFloat SF f) (fl_cvt SF d)
        | OFloat DF _ f => d ← to_double y; float_qr fl_ceil DF (CFloat DF f) d
        | _ => raise (FEwrong_type_argument x)
        end
  end.

Definition mkcl_ceiling1 (fuel : nat) (x : obj) : M (obj * obj) :=
  match x with
  | OFix _ | OBig _ _ => mret (x, MKCL_MAKE_FIXNUM 0)
  | ORatio _ num den => p ← mkcl_ceiling2 fuel num den; v1 ← mkcl_make_ratio p.2 den; mret (p.1, v1)
  | OFloat SF _ d => float_part SF d (fl_ceil SF d)
  | OFloat DF _ d => float_part DF d (fl_ceil DF d)
  | _ => raise (FEwrong_type_argument x)
  end.

Definition mk_cl_ceiling (fuel : nat) (x : obj) (y : option obj) : M (obj * obj) :=
  match y with None => mkcl_ceiling1 fuel x | Some y => mkcl_ceiling2 fuel x y end.

(** ** TRUNCATE *)

Definition mkcl_truncate2 (fuel : nat) (x y : obj) : M (obj * obj) :=
  px ← mkcl_plusp x;
  py ← mkcl_plusp y;
  if negb (eqb px py) then mkcl_ceiling2 fuel x y else mkcl_floor2 fuel x y.

Definition fl_truncate (k : float_kind) (d : spec_float) : spec_float :=
  if SFltb fl_zero d then fl_floor k d else fl_ceil k d.

Definition mkcl_truncate1 (fuel : nat) (x : obj) : M (obj * obj) :=
  match x with
  | OFix _ | OBig _ _ => mret (x, MKCL_MAKE_FIXNUM 0)
  | ORatio _ num den => p ← mkcl_truncate2 fuel num den; v1 ← mkcl_make_ratio p.2 den; mret (p.1, v1)
  | OFloat SF _ d => float_part SF d (fl_truncate SF d)
  | OFloat DF _ d => float_part DF d (fl_truncate DF d)
  | _ => raise (FEwrong_type_argument x)
  end.

Definition mk_cl_truncate (fuel : nat) (x : obj) (y : option obj) : M (obj * obj) :=
  match y with None => mkcl_truncate1 fuel x | Some y => mkcl_truncate2 fuel x y end.

(** ** ROUND *)

(** [round_double] for [d >= 0]. *)
Definition round_positive (d : spec_float) : spec_float :=
  let half := S754_finite false (2 ^ 52) (-53) in
  let q := fl_floor DF (fl_add DF d half) in
  let d := fl_sub DF d q in
  if SFeqb d (SFopp half) then
    let x := fl_div DF q (fl_of_Z DF 10) in
    let i := fl_trunc (fl_mul DF (fl_of_Z DF 10) (fl_sub DF x (fl_floor DF x))) in
    if negb (Z.land i 1 =? 0) then fl_sub DF q (fl_of_Z DF 1) else q
  else q.

(** The function calls itself on the opposite of [d], and for ever on a NaN. *)
Definition round_double (d : spec_float) : M spec_float :=
  if SFleb fl_zero d then mret (round_positive d)
  else if SFleb fl_zero (SFopp d) then mret (SFopp (round_positive (SFopp d)))
  else diverge.

(** [mkcl_core.plus_half] and [mkcl_core.minus_half] *)
Definition plus_half : obj := ORatio (-15) (MKCL_MAKE_FIXNUM 1) (MKCL_MAKE_FIXNUM 2).
Definition minus_half : obj := ORatio (-16) (MKCL_MAKE_FIXNUM (-1)) (MKCL_MAKE_FIXNUM 2).

(** The label of ratios in [mkcl_round2]: the integer nearest to the ratio [q], the
    even one of two. *)
Definition round_ratio (fuel : nat) (q num den : obj) : M obj :=
  q1 ← mkcl_integer_divide num den;
  r ← mkcl_minus fuel q q1;
  minus ← mkcl_minusp r;
  if (minus : bool) then
    c ← mkcl_number_compare fuel minus_half r;
    away ← (if 0 <? c then mret true else if c =? 0 then mkcl_oddp q1 else mret false);
    if (away : bool) then mkcl_one_minus fuel q1 else mret q1
  else
    c ← mkcl_number_compare fuel r plus_half;
    away ← (if 0 <? c then mret true else if c =? 0 then mkcl_oddp q1 else mret false);
    if (away : bool) then mkcl_one_plus fuel q1 else mret q1.

(** [mkcl_round1] and [mkcl_round2] call each other; [round2] is the second. *)
Definition round1_with (round2 : obj → obj → M (obj * obj)) (x : obj) : M (obj * obj) :=
  match x with
  | OFix _ | OBig _ _ => mret (x, MKCL_MAKE_FIXNUM 0)
  | ORatio _ num den => p ← round2 num den; v1 ← mkcl_make_ratio p.2 den; mret (p.1, v1)
  | OFloat SF _ d => q ← round_double (fl_cvt DF d); float_part SF d (fl_cvt SF q)
  | OFloat DF _ d => q ← round_double d; float_part DF d q
  | _ => raise (FEwrong_type_argument x)
  end.

Fixpoint mkcl_round2 (fuel : nat) (x y : obj) : M (obj * obj) :=
  match fuel with
  | O => diverge
  | S n =>
      q ← mkcl_divide fuel x y;
      match q with
      | OFix _ | OBig _ _ => mret (q, MKCL_MAKE_FIXNUM 0)
      | ORatio _ num den =>
          q1 ← round_ratio fuel q num den;
          v1 ← number_remainder fuel x y q1;
          mret (q1, v1)
      | _ =>
          p ← round1_with (mkcl_round2 n) q;
          v1 ← number_remainder fuel x y p.1;
          mret (p.1, v1)
      end
  end.

Definition mkcl_round1 (fuel : nat) (x : obj) : M (obj * obj) := round1_with (mkcl_round2 fuel) x.

Definition mk_cl_round (fuel : nat) (x : obj) (y : option obj) : M (obj * obj) :=
  match y with None => mkcl_round1 fuel x | Some y => mkcl_round2 fuel x y end.

(** ** MOD and REM *)

Definition mk_cl_mod (fuel : nat) (x y : obj) : M obj := p ← mk_cl_floor fuel x (Some y); mret p.2.
Definition mk_cl_rem (fuel : nat) (x y : obj) : M obj := p ← mk_cl_truncate fuel x (Some y); mret p.2.
End division.
