(* ===== verification/NumCoSpecs.v ===== *)
(** * NumCoSpecs: division with a remainder is exact on rational numbers *)

From S2P Require Import Prelude Words Objects Heap Numbers Lists Floats NumPred Arith ArithSpecs.
From S2P Require Import NumComp NumCompSpecs NumCo.
From Stdlib Require Import Qround.
#[local] Open Scope Z_scope.

(** ** Rounding of rational numbers *)

Definition qfloor (q : Qc) : Z := Qfloor q.
Definition qceiling (q : Qc) : Z := - qfloor (- q).
Definition qtruncate (q : Qc) : Z := if bool_decide (0 < q)%Qc then qfloor q else qceiling q.

(** The nearest integer, the even one of two. *)
Definition qround (q : Qc) : Z :=
  let f := qfloor q in
  match (q - Qc_of_Z f ?= frac 1 2)%Qc with
  | Lt => f
  | Gt => f + 1
  | Eq => if Z.even f then f else f + 1
  end.

Lemma frac_this n d : d ≠ 0 → (frac n d == inject_Z n / inject_Z d)%Q.
Proof.
  intros Hd. unfold frac, Qcdiv, Qcmult, Qcinv. simpl. rewrite !Qred_correct. reflexivity.
Qed.

Lemma qfloor_frac n d : d ≠ 0 → qfloor (frac n d) = n / d.
Proof. intros Hd. unfold qfloor. rewrite (Qfloor_comp _ _ (frac_this n d Hd)). by rewrite <- Zdiv_Qdiv. Qed.

Lemma qceiling_frac n d : d ≠ 0 → qceiling (frac n d) = Zcdiv n d.
Proof.
  intros Hd. unfold qceiling, Zcdiv. replace (- frac n d)%Qc with (frac (- n) d) by frac_field. by rewrite qfloor_frac.
Qed.

Lemma qfloor_Z z : qfloor (Qc_of_Z z) = z.
Proof. rewrite <- frac_1, qfloor_frac, Z.div_1_r; done. Qed.
Lemma qceiling_Z z : qceiling (Qc_of_Z z) = z.
Proof. unfold qceiling. rewrite <- Z2Qc_inj_opp, qfloor_Z. lia. Qed.

(** ** The division of integers *)

(** A quotient and a remainder. *)
Definition is_qr (z : Z) (r : Qc) (p : obj * obj) : Prop := is_int p.1 z ∧ is_rat p.2 r.

Section division_facts.
Context `{!GMP, !GMPSpec, !GMPArith, !GMPArithSpec, !ToDouble, !Transcendental}.

(** The one quotient of two fixnums that does not fit a fixnum, 2^61. *)
Definition wraps (a b : Z) : Prop := a = MKCL_MOST_NEGATIVE_FIXNUM ∧ b = -1.

Lemma wraps_fixnums a b : is_fixnum a → b ≠ 0 → ¬ wraps a b → a ≠ b * 2 ^ 61.
Proof. intros Ha Hb Hno ->. apply Hno. unfold wraps. unfold_words. lia. Qed.

Lemma wraps_frac a b : wraps a b → frac a b = Qc_of_Z (2 ^ 61).
Proof. intros [-> ->]. unfold MKCL_MOST_NEGATIVE_FIXNUM. change (-1) with (- (1)). by rewrite frac_opp, frac_1. Qed.

(** Division of integers that rounds the quotient with [rnd]. *)
Definition divides_ints (rnd : Qc → Z) (qr : obj → obj → M (obj * obj)) : Prop :=
  ∀ x y zx zy h, is_int x zx → is_int y zy → zy ≠ 0 → ¬ wraps zx zy →
    gives (is_qr (rnd (frac zx zy)) (Qc_of_Z (zx - zy * rnd (frac zx zy)))) (qr x y) h.

Lemma cdiv_unique a b q r : 0 ≤ - r < b ∨ b < - r ≤ 0 → a = b * q + r → Zcdiv a b = q.
Proof. intros Hr Ha. unfold Zcdiv. rewrite <- (Z.div_unique (- a) b (- q) (- r)); lia. Qed.

Lemma quot_facts a b : b ≠ 0 →
  a = b * Z.quot a b + Z.rem a b ∧ Z.abs (Z.rem a b) < Z.abs b ∧ 0 ≤ Z.rem a b * a.
Proof.
  intros Hb. split_and!; [by rewrite <- Z.quot_rem'|by apply Z.rem_bound_abs|by apply Z.rem_sign_mul].
Qed.

Lemma lxor_sign r b : r ≠ b → (Z.lxor r b <? 0) = negb (eqb (r <? 0) (b <? 0)) ∧ (0 <? Z.lxor r b) = eqb (r <? 0) (b <? 0).
Proof.
  intros Hne. pose proof (Z.lxor_nonneg r b) as Hs. pose proof (Z.lxor_eq r b) as Heq.
  assert (Z.lxor r b ≠ 0) by (intros E; by apply Hne, Heq).
  destruct (Z.ltb_spec (Z.lxor r b) 0), (Z.ltb_spec 0 (Z.lxor r b)), (Z.ltb_spec r 0), (Z.ltb_spec b 0); simpl; lia.
Qed.

Lemma make_fixnum_qr z w r h :
  is_fixnum z → is_fixnum w → r = Qc_of_Z w →
  gives (is_qr z r) (mret (MKCL_MAKE_FIXNUM z, MKCL_MAKE_FIXNUM w)) h.
Proof. intros Hz Hw ->. apply gives_ret. split; [by apply is_int_MAKE_FIXNUM|by apply is_rat_int, is_int_MAKE_FIXNUM]. Qed.

Lemma fix_floor_spec a b h :
  is_fixnum a → is_fixnum b → b ≠ 0 → a ≠ b * 2 ^ 61 →
  gives (is_qr (a / b) (Qc_of_Z (a - b * (a / b)))) (fix_floor a b) h.
Proof.
  intros Ha Hb Hne Hno. unfold fix_floor. rewrite (proj2 (Z.eqb_neq b 0)) by done.
  destruct (quot_facts a b Hne) as (Hq & Hr & Hs). set (q := a ÷ b) in *. set (r := Z.rem a b) in *.
  destruct (lxor_sign r b) as [-> _]; [lia|].
  destruct (Z.eqb_spec r 0) as [Hr0|Hr0]; [|destruct (Z.ltb_spec r 0), (Z.ltb_spec b 0)];
    rewrite ?andb_false_r; cbn [negb eqb andb]; cbv iota.
  - assert (q = a / b) as <- by (apply (Z.div_unique a b q 0); lia). apply make_fixnum_qr; [|unfold_words; lia|f_equal; lia].
    unfold_words. split; [|destruct (decide (q = 2 ^ 61)) as [E|]; [rewrite E in Hq; lia|]]; nia.
  - assert (q = a / b) as <- by (apply (Z.div_unique a b q r); lia). apply make_fixnum_qr; [|unfold_words; lia|f_equal; lia].
    unfold_words. nia.
  - assert (q - 1 = a / b) as <- by (apply (Z.div_unique a b (q - 1) (r + b)); lia).
    apply make_fixnum_qr; [|unfold_words; lia|f_equal; lia]. unfold_words. nia.
  - assert (q - 1 = a / b) as <- by (apply (Z.div_unique a b (q - 1) (r + b)); lia).
    apply make_fixnum_qr; [|unfold_words; lia|f_equal; lia]. unfold_words. nia.
  - assert (q = a / b) as <- by (apply (Z.div_unique a b q r); lia). apply make_fixnum_qr; [|unfold_words; lia|f_equal; lia].
    unfold_words. nia.
Qed.

Lemma fix_ceiling_spec a b h :
  is_fixnum a → is_fixnum b → b ≠ 0 → a ≠ b * 2 ^ 61 →
  gives (is_qr (Zcdiv a b) (Qc_of_Z (a - b * Zcdiv a b))) (fix_ceiling a b) h.
Proof.
  intros Ha Hb Hne Hno. unfold fix_ceiling. rewrite (proj2 (Z.eqb_neq b 0)) by done.
  destruct (quot_facts a b Hne) as (Hq & Hr & Hs). set (q := a ÷ b) in *. set (r := Z.rem a b) in *.
  destruct (lxor_sign r b) as [_ ->]; [lia|].
  destruct (Z.eqb_spec r 0) as [Hr0|Hr0]; [|destruct (Z.ltb_spec r 0), (Z.ltb_spec b 0)];
    rewrite ?andb_false_r; cbn [negb eqb andb]; cbv iota.
  - rewrite (cdiv_unique a b q 0) by lia. apply make_fixnum_qr; [|unfold_words; lia|f_equal; lia].
    unfold_words. split; [|destruct (decide (q = 2 ^ 61)) as [E|]; [rewrite E in Hq; lia|]]; nia.
  - rewrite (cdiv_unique a b (q + 1) (r - b)) by lia. apply make_fixnum_qr; [|unfold_words; lia|f_equal; lia]. unfold_words. nia.
  - rewrite (cdiv_unique a b q r) by lia. apply make_fixnum_qr; [|unfold_words; lia|f_equal; lia]. unfold_words. nia.
  - rewrite (cdiv_unique a b q r) by lia. apply make_fixnum_qr; [|unfold_words; lia|f_equal; lia]. unfold_words. nia.
  - rewrite (cdiv_unique a b (q + 1) (r - b)) by lia. apply make_fixnum_qr; [|unfold_words; lia|f_equal; lia]. unfold_words. nia.
Qed.
Lemma big_qr_spec z w qr h :
  qr h = Done (z, w) h → gives (is_qr z (Qc_of_Z w)) (big_qr qr) h.
Proof.
  intros E. eapply gives_bind_Done; [exact E|]. cbn [fst snd].
  eapply gives_int_bind; [apply (big_register_normalize_spec z)|]. intros v0 h1 Hv0 _.
  eapply gives_int_bind; [apply (big_register_normalize_spec w)|]. intros v1 h2 Hv1 _.
  apply gives_ret. split; [done|by apply is_rat_int].
Qed.

Lemma fdiv_qr_spec z w h : w ≠ 0 → big_fdiv_qr z w h = Done (z / w, z - w * (z / w)) h.
Proof.
  intros Hw. unfold big_fdiv_qr. rewrite (proj2 (Z.eqb_neq w 0)), mpz_fdiv_qr_eq by done.
  unfold mret, M_ret. do 2 f_equal. pose proof (Z.div_mod z w). lia.
Qed.

Lemma cdiv_qr_spec z w h : w ≠ 0 → big_cdiv_qr z w h = Done (Zcdiv z w, z - w * Zcdiv z w) h.
Proof. intros Hw. unfold big_cdiv_qr. by rewrite (proj2 (Z.eqb_neq w 0)), mpz_cdiv_qr_eq by done. Qed.

Lemma is_int_number y z : is_int y z → MKCL_NUMBER_TYPE_P (mkcl_type_of y) = true.
Proof. intros Hy. by destruct (is_int_cases _ _ Hy) as [(? & ->)|(? & ? & ->)]. Qed.

Lemma floor_ints n : divides_ints qfloor (mkcl_floor2 (S n)).
Proof.
  intros x y zx zy h Hx Hy Hne Hno. rewrite qfloor_frac by done. cbn [mkcl_floor2]. rewrite (is_int_number _ _ Hy). cbn [negb].
  destruct (is_int_cases _ _ Hx) as [(i & ->)|(a & w & ->)]; destruct (is_int_cases _ _ Hy) as [(j & ->)|(b & v & ->)];
    cbv iota.
  - apply is_int_fix_eq in Hx as [-> Hx], Hy as [-> Hy]. apply fix_floor_spec; [done..|by apply wraps_fixnums].
  - apply is_int_fix_eq in Hx as [-> Hx]. apply is_int_big_eq in Hy as [-> Hy].
    rewrite mpz_set_si_eq by auto with mkcl. by apply big_qr_spec, fdiv_qr_spec.
  - apply is_int_fix_eq in Hy as [-> Hy]. apply is_int_big_eq in Hx as [-> Hx].
    rewrite mpz_set_si_eq by auto with mkcl. by apply big_qr_spec, fdiv_qr_spec.
  - apply is_int_big_eq in Hx as [-> _], Hy as [-> _]. by apply big_qr_spec, fdiv_qr_spec.
Qed.

Lemma ceiling_ints n : divides_ints qceiling (mkcl_ceiling2 (S n)).
Proof.
  intros x y zx zy h Hx Hy Hne Hno. rewrite qceiling_frac by done. cbn [mkcl_ceiling2]. rewrite (is_int_number _ _ Hy). cbn [negb].
  destruct (is_int_cases _ _ Hx) as [(i & ->)|(a & w & ->)]; destruct (is_int_cases _ _ Hy) as [(j & ->)|(b & v & ->)];
    cbv iota.
  - apply is_int_fix_eq in Hx as [-> Hx], Hy as [-> Hy]. apply fix_ceiling_spec; [done..|by apply wraps_fixnums].
  - apply is_int_fix_eq in Hx as [-> Hx]. apply is_int_big_eq in Hy as [-> Hy].
    rewrite mpz_set_si_eq by auto with mkcl. by apply big_qr_spec, cdiv_qr_spec.
  - apply is_int_fix_eq in Hy as [-> Hy]. apply is_int_big_eq in Hx as [-> Hx].
    rewrite mpz_set_si_eq by auto with mkcl. by apply big_qr_spec, cdiv_qr_spec.
  - apply is_int_big_eq in Hx as [-> _], Hy as [-> _]. by apply big_qr_spec, cdiv_qr_spec.
Qed.

(** ** Division of rational numbers *)

Lemma by_ratio_spec n rnd qr x yn yd z num den h :
  divides_ints rnd qr → is_int x z → is_int yn num → is_int yd den → num ≠ 0 → 1 < den →
  let q := (Qc_of_Z z / frac num den)%Qc in q ≠ Qc_of_Z (2 ^ 61) →
  gives (is_qr (rnd q) (Qc_of_Z z - frac num den * Qc_of_Z (rnd q))%Qc) (by_ratio (S n) qr x yn yd) h.
Proof.
  intros Hqr Hx Hn Hd Hn0 Hd1 q Hq.
  assert (q = frac (z * den) num) as Eq by (subst q; frac_field).
  eapply gives_int_bind; [by apply times_int|]. intros a h1 Ha _.
  eapply gives_bind; [apply (Hqr a yn _ num h1 Ha Hn Hn0)|].
  { intros E. apply Hq. rewrite Eq. by apply wraps_frac. }
  intros [v0 v1] h2 [Hv0 Hv1] _. cbn [fst snd] in *. apply is_rat_int_inv in Hv1. rewrite <- Eq in *.
  eapply gives_bind; [apply make_ratio_spec; [exact Hv1|exact Hd|lia]|]. intros r h3 Hr _. apply gives_ret.
  split; [done|]. cbn [snd]. replace (Qc_of_Z z - frac num den * Qc_of_Z (rnd q))%Qc
    with (frac (z * den - num * rnd q) den) by frac_field. done.
Qed.

Lemma of_ratio_spec n rnd qr xn xd y num den p h :
  divides_ints rnd qr → is_int xn num → is_int xd den → 1 < den → is_rat y p → p ≠ 0%Qc →
  let q := (frac num den / p)%Qc in q ≠ Qc_of_Z (2 ^ 61) →
  gives (is_qr (rnd q) (frac num den - p * Qc_of_Z (rnd q))%Qc) (of_ratio (S (S n)) qr xn xd y) h.
Proof.
  intros Hqr Hn Hd Hd1 Hy Hp q Hq.
  destruct (is_rat_cases _ _ Hy) as [(z & Hz & ->)|(b & yn & yd & n2 & d2 & -> & Hn2 & Hd2 & Hl2 & Hg2 & ->)].
  - rewrite Qc_of_Z_zero in Hp.
    assert (of_ratio (S (S n)) qr xn xd y = b ← mkcl_times (S (S n)) xd y; p ← qr xn b;
      v1 ← mkcl_divide (S (S n)) p.2 xd; mret (p.1, v1)) as ->
      by (by destruct (is_int_cases _ _ Hz) as [(? & ->)|(? & ? & ->)]).
    assert (q = frac num (den * z)) as Eq by (subst q; frac_field).
    eapply gives_int_bind; [by apply times_int|]. intros a h1 Ha _.
    eapply gives_bind; [apply (Hqr xn a num _ h1 Hn Ha); [nia|]|].
    { intros E. apply Hq. rewrite Eq. by apply wraps_frac. }
    intros [v0 v1] h2 [Hv0 Hv1] _. cbn [fst snd] in *. rewrite <- Eq in *.
    eapply gives_bind; [apply (divide_rat _ _ _ _ (Qc_of_Z den) _ Hv1); [by apply is_rat_int|apply Qc_of_Z_ne; lia]|].
    intros r h3 Hr _. apply gives_ret. split; [done|]. cbn [snd].
    replace (frac num den - Qc_of_Z z * Qc_of_Z (rnd q))%Qc with (Qc_of_Z (num - den * z * rnd q) / Qc_of_Z den)%Qc
      by frac_field. done.
  - rewrite frac_zero in Hp by lia. cbn [of_ratio].
    assert (q = frac (num * d2) (den * n2)) as Eq by (subst q; frac_field).
    eapply gives_int_bind; [by apply times_int|]. intros a h1 Ha _.
    eapply gives_int_bind; [by apply times_int|]. intros c h2 Hc _.
    eapply gives_bind; [apply (Hqr a c _ _ h2 Ha Hc); [nia|]|].
    { intros E. apply Hq. rewrite Eq. by apply wraps_frac. }
    intros [v0 v1] h3 [Hv0 Hv1] _. cbn [fst snd] in *. apply is_rat_int_inv in Hv1. rewrite <- Eq in *.
    eapply gives_int_bind; [by apply times_int|]. intros d h4 Hd' _.
    eapply gives_bind; [apply make_ratio_spec; [exact Hv1|exact Hd'|nia]|]. intros r h5 Hr _. apply gives_ret.
    split; [done|]. cbn [snd].
    replace (frac num den - frac n2 d2 * Qc_of_Z (rnd q))%Qc with (frac (num * d2 - den * n2 * rnd q) (den * d2)) by frac_field.
    done.
Qed.
End division_facts.

(** ** FLOOR, CEILING, TRUNCATE, ROUND, MOD and REM on rational numbers *)

Section division_theorems.
Context `{!GMP, !GMPSpec, !GMPArith, !GMPArithSpec, !ToDouble, !Transcendental}.

Lemma frac_neg n d : 0 < d → (frac n d < 0)%Qc ↔ n < 0.
Proof. intros Hd. rewrite Qclt_alt, <- (frac_0 1), frac_compare by lia. rewrite Z.mul_0_l, Z.mul_1_r, Z.compare_lt_iff. done. Qed.

Lemma qc_frac p : ∃ n d, 0 < d ∧ p = frac n d.
Proof.
  exists (Qnum p), (Z.pos (Qden p)). split; [done|]. apply Qc_is_canon. rewrite frac_make by done. by destruct p as [[] ?].
Qed.

Lemma is_rat_number y q : is_rat y q → MKCL_NUMBER_TYPE_P (mkcl_type_of y) = true.
Proof.
  intros Hy. destruct (is_rat_cases _ _ Hy) as [(z & Hz & _)|(? & ? & ? & ? & ? & -> & _)]; [|done].
  by eapply is_int_number.
Qed.

Lemma plusp_int x z h : is_int x z → mkcl_plusp x h = Done (0 <? z) h.
Proof.
  intros Hx. destruct (is_int_cases _ _ Hx) as [(i & ->)|(a & w & ->)].
  - by apply is_int_fix_eq in Hx as [-> _].
  - apply is_int_big_eq in Hx as [-> _]. simpl. rewrite mpz_sgn_eq. unfold mret, M_ret. f_equal.
    destruct (Z.ltb_spec 0 (Z.sgn w)), (Z.ltb_spec 0 w); try done; lia.
Qed.

Lemma plusp_rat x p h : is_rat x p → mkcl_plusp x h = Done (bool_decide (0 < p)%Qc) h.
Proof.
  intros Hx. destruct (is_rat_frac _ _ Hx) as (n & d & Hd & Hp).
  assert (∀ z, 0 < z ↔ (0 < Qc_of_Z z)%Qc) as Hz by (intros z; by rewrite <- (frac_1 z), frac_pos).
  destruct (is_rat_cases _ _ Hx) as [(z & Hz' & ->)|(a & xn & xd & m & e & -> & Hm & He & Hl & Hg & ->)].
  - rewrite (plusp_int _ _ h Hz'). f_equal. symmetry. rewrite <- (bool_decide_ext _ _ (Hz z)).
    destruct (Z.ltb_spec 0 z); [by apply bool_decide_eq_true|apply bool_decide_eq_false; lia].
  - simpl. rewrite (plusp_int _ _ h Hm). f_equal. symmetry. rewrite (bool_decide_ext _ _ (frac_pos m e ltac:(lia))).
    destruct (Z.ltb_spec 0 m); [by apply bool_decide_eq_true|apply bool_decide_eq_false; lia].
Qed.

(** ** Quotients rounded down and up *)

(** Division of rational numbers that rounds the quotient with [rnd]. *)
Definition divides_rats (rnd : Qc → Z) (qr : obj → obj → M (obj * obj)) : Prop :=
  ∀ x y p q h, is_rat x p → is_rat y q → q ≠ 0%Qc → (p / q)%Qc ≠ Qc_of_Z (2 ^ 61) →
    gives (is_qr (rnd (p / q)%Qc) (p - q * Qc_of_Z (rnd (p / q)%Qc))%Qc) (qr x y) h.

(** The cases of [mkcl_floor2] and [mkcl_ceiling2]. *)
Lemma divides_rats_cases n rnd qr qr' :
  divides_ints rnd qr' → divides_ints rnd qr →
  (∀ x z b yn yd, is_int x z → qr x (ORatio b yn yd) = by_ratio (S (S n)) qr' x yn yd) →
  (∀ a xn xd y q, is_rat y q → qr (ORatio a xn xd) y = of_ratio (S (S n)) qr' xn xd y) →
  divides_rats rnd qr.
Proof.
  intros Hq' Hq Hby Hof x y p q h Hx Hy Hne Hno.
  destruct (is_rat_cases _ _ Hx) as [(zx & Hzx & ->)|(a & xn & xd & n1 & d1 & -> & Hn1 & Hd1 & Hl1 & Hg1 & ->)].
  - destruct (is_rat_cases _ _ Hy) as [(zy & Hzy & ->)|(b & yn & yd & n2 & d2 & -> & Hn2 & Hd2 & Hl2 & Hg2 & ->)].
    + rewrite Qc_of_Z_zero in Hne. eapply gives_mono; [apply (Hq x y zx zy h Hzx Hzy Hne)|].
      { intros E. apply Hno. by apply wraps_frac. }
      intros r. fold (frac zx zy). by rewrite Z2Qc_inj_sub, Z2Qc_inj_mul.
    + rewrite (Hby x zx b yn yd Hzx). rewrite frac_zero in Hne by lia. by apply by_ratio_spec.
  - rewrite (Hof a xn xd y q Hy). by apply of_ratio_spec.
Qed.

Lemma floor_rats n : divides_rats qfloor (mkcl_floor2 (S (S n))).
Proof.
  apply (divides_rats_cases n qfloor _ (mkcl_floor2 (S n))); [apply floor_ints..| |].
  - intros x z b yn yd Hx. by destruct (is_int_cases _ _ Hx) as [(i & ->)|(a & w & ->)].
  - intros a xn xd y q Hy.
    assert (mkcl_floor2 (S (S n)) (ORatio a xn xd) y =
      if negb (MKCL_NUMBER_TYPE_P (mkcl_type_of y)) then raise (FEwrong_type_argument y)
      else of_ratio (S (S n)) (mkcl_floor2 (S n)) xn xd y) as -> by done.
    by rewrite (is_rat_number _ _ Hy).
Qed.

Lemma ceiling_rats n : divides_rats qceiling (mkcl_ceiling2 (S (S n))).
Proof.
  apply (divides_rats_cases n qceiling _ (mkcl_ceiling2 (S n))); [apply ceiling_ints..| |].
  - intros x z b yn yd Hx. by destruct (is_int_cases _ _ Hx) as [(i & ->)|(a & w & ->)].
  - intros a xn xd y q Hy.
    assert (mkcl_ceiling2 (S (S n)) (ORatio a xn xd) y =
      if negb (MKCL_NUMBER_TYPE_P (mkcl_type_of y)) then raise (FEwrong_type_argument y)
      else of_ratio (S (S n)) (mkcl_ceiling2 (S n)) xn xd y) as -> by done.
    by rewrite (is_rat_number _ _ Hy).
Qed.

Lemma minusp_rat x p h : is_rat x p → mkcl_minusp x h = Done (bool_decide (p < 0)%Qc) h.
Proof.
  intros Hx. destruct (is_rat_cases _ _ Hx) as [(z & Hz & ->)|(a & xn & xd & m & e & -> & Hm & He & Hl & Hg & ->)].
  - rewrite (minusp_spec _ _ h Hz). f_equal. symmetry. rewrite <- frac_1, (bool_decide_ext _ _ (frac_neg z 1 eq_refl)).
    destruct (Z.ltb_spec z 0); [by apply bool_decide_eq_true|apply bool_decide_eq_false; lia].
  - simpl. rewrite (minusp_spec _ _ h Hm). f_equal. symmetry. rewrite (bool_decide_ext _ _ (frac_neg m e ltac:(lia))).
    destruct (Z.ltb_spec m 0); [by apply bool_decide_eq_true|apply bool_decide_eq_false; lia].
Qed.

(** ** Quotients rounded towards zero *)

Lemma qtruncate_zero : qtruncate 0 = 0.
Proof. done. Qed.

(** The quotient is positive when both operands are, or neither is and it is not zero. *)
Lemma quotient_sign p q : q ≠ 0%Qc → p ≠ 0%Qc → (0 < p / q)%Qc ↔ (0 < p ↔ 0 < q)%Qc.
Proof.
  destruct (qc_frac p) as (n & d & Hd & ->). destruct (qc_frac q) as (m & e & He & ->).
  rewrite !frac_zero by lia. intros Hm Hn.
  destruct (decide (0 < m)).
  - replace (frac n d / frac m e)%Qc with (frac (n * e) (d * m)) by frac_field. rewrite !frac_pos by nia. split; [|intros]; nia.
  - replace (frac n d / frac m e)%Qc with (frac (- (n * e)) (- (d * m))) by (rewrite frac_opp by lia; frac_field).
    rewrite !frac_pos by nia. split; [|intros]; nia.
Qed.

Lemma truncate_rats n : divides_rats qtruncate (mkcl_truncate2 (S (S n))).
Proof.
  intros x y p q h Hx Hy Hne Hno. unfold mkcl_truncate2.
  eapply gives_bind_Done; [by apply plusp_rat|]. eapply gives_bind_Done; [by apply plusp_rat|].
  destruct (decide (p = 0%Qc)) as [->|Hp].
  { assert (0 / q = Qc_of_Z 0)%Qc as E by (unfold Qcdiv; by rewrite Qcmult_0_l, Z2Qc_inj_0).
    pose proof (floor_rats n x y 0%Qc q h Hx Hy Hne Hno) as Hf. pose proof (ceiling_rats n x y 0%Qc q h Hx Hy Hne Hno) as Hc.
    rewrite E, ?qfloor_Z, ?qceiling_Z in *. by destruct (negb _). }
  pose proof (quotient_sign p q Hne Hp) as Hs.
  unfold qtruncate. destruct (decide (0 < p / q)%Qc) as [Hlt|Hlt].
  - rewrite (bool_decide_eq_true_2 _ Hlt). rewrite (bool_decide_ext (0 < p)%Qc (0 < q)%Qc) by tauto.
    rewrite eqb_reflx. by apply floor_rats.
  - rewrite (bool_decide_eq_false_2 _ Hlt).
    assert (eqb (bool_decide (0 < p)%Qc) (bool_decide (0 < q)%Qc) = false) as ->; [|by apply ceiling_rats].
    apply eqb_false_iff. intros E. apply Hlt, Hs. rewrite <- (bool_decide_eq_true (0 < p)%Qc), E. apply bool_decide_eq_true.
Qed.

(** ** Quotients rounded to the nearest integer *)

Lemma oddp_int x z h : is_int x z → mkcl_oddp x h = Done (Z.odd z) h.
Proof.
  intros Hx. destruct (is_int_cases _ _ Hx) as [(i & ->)|(a & w & ->)]; simpl.
  - apply is_int_fix_eq in Hx as [-> _]. unfold mret, M_ret. f_equal. change 1 with (Z.ones 1). rewrite Z.land_ones, Z.pow_1_r by done. rewrite Zmod_odd. by destruct (Z.odd i).
  - apply is_int_big_eq in Hx as [-> _]. by rewrite mpz_odd_p_eq.
Qed.

Lemma plus_half_rat : is_rat plus_half (frac 1 2).
Proof. exists 1, 2. split_and!; try done; by apply is_int_MAKE_FIXNUM. Qed.
Lemma minus_half_rat : is_rat minus_half (frac (-1) 2).
Proof. exists (-1), 2. split_and!; try done; by apply is_int_MAKE_FIXNUM. Qed.

Lemma qround_frac n d : 0 < d →
  qround (frac n d) =
    match 2 * (n - d * (n / d)) ?= d with
    | Lt => n / d
    | Gt => n / d + 1
    | Eq => if Z.even (n / d) then n / d else n / d + 1
    end.
Proof.
  intros Hd. unfold qround. rewrite qfloor_frac by lia.
  replace (frac n d - Qc_of_Z (n / d))%Qc with (frac (n - d * (n / d)) d) by frac_field.
  rewrite frac_compare by lia. by replace ((n - d * (n / d)) * 2 ?= 1 * d) with (2 * (n - d * (n / d)) ?= d) by (f_equal; lia).
Qed.

(** [c] compares what is left over the half: one more step [far] away from [t]. *)
Lemma round_step (next : obj → M obj) q1 t far c h :
  is_int q1 t → gives_int (next q1) h far →
  gives (λ r, is_int r (if 0 <? c then far else if (c =? 0) && Z.odd t then far else t))
    (away ← (if 0 <? c then mret true else if c =? 0 then mkcl_oddp q1 else mret false);
     if (away : bool) then next q1 else mret q1) h.
Proof.
  intros Hq Hn. destruct (0 <? c); [by eapply gives_bind_Done|]. destruct (c =? 0); simpl.
  - eapply gives_bind_Done; [by apply oddp_int|]. destruct (Z.odd t); [done|by apply gives_int_ret].
  - eapply gives_bind_Done; [done|]. by apply gives_int_ret.
Qed.

Lemma round_ratio_spec k a num den n d h :
  is_int num n → is_int den d → 1 < d → Z.gcd n d = 1 →
  gives (λ r, is_int r (qround (frac n d))) (round_ratio (S (S k)) (ORatio a num den) num den) h.
Proof.
  intros Hn Hd Hl Hg. rewrite qround_frac by lia. unfold round_ratio.
  eapply gives_int_bind; [apply (integer_divide_spec num den n d); [done..|lia|lia]|]. intros q1 h1 Hq1 Hh1.
  destruct (quot_facts n d ltac:(lia)) as (Hnq & Hm & Hs). set (t := n ÷ d) in *. set (m := Z.rem n d) in *.
  eapply gives_bind; [apply (minus_rat k _ _ (frac n d) (Qc_of_Z t)); [by eexists n, d|by apply is_rat_int]|].
  intros r h2 Hr Hh2. replace (frac n d - Qc_of_Z t)%Qc with (frac m d) in Hr by (rewrite Hnq; frac_field).
  eapply gives_bind_Done; [by apply minusp_rat|].
  rewrite (bool_decide_ext _ _ (frac_neg m d ltac:(lia))).
  destruct (bool_decide_reflect (m < 0)).
  - eapply gives_bind; [apply (compare_rat k _ _ _ _ _ minus_half_rat Hr)|]. intros c h3 Hc Hh3.
    rewrite frac_compare, cmp_sign_sgn in Hc by lia.
    eapply gives_mono; [apply (round_step _ q1 t (t - 1)); [done|by apply one_step_int]|]. intros s. cbv beta.
    replace (n / d) with (t - 1) by (apply (Z.div_unique n d (t - 1) (m + d)); lia).
    replace (2 * (n - d * (t - 1))) with (2 * m + 2 * d) by lia.
    rewrite Z.even_sub, <- Z.negb_odd. simpl (Z.even 1).
    destruct (Z.compare_spec (2 * m + 2 * d) d), (Z.ltb_spec 0 c), (Z.eqb_spec c 0); try lia; simpl;
      destruct (Z.odd t); simpl; rewrite ?Z.sub_add; done.
  - eapply gives_bind; [apply (compare_rat k _ _ _ _ _ Hr plus_half_rat)|]. intros c h3 Hc Hh3.
    rewrite frac_compare, cmp_sign_sgn in Hc by lia.
    eapply gives_mono; [apply (round_step _ q1 t (t + 1)); [done|by apply one_step_int]|]. intros s. cbv beta.
    replace (n / d) with t by (apply (Z.div_unique n d t m); lia).
    replace (2 * (n - d * t)) with (2 * m) by lia. rewrite <- Z.negb_odd.
    destruct (Z.compare_spec (2 * m) d), (Z.ltb_spec 0 c), (Z.eqb_spec c 0); try lia; simpl;
      destruct (Z.odd t); simpl; done.
Qed.

Lemma qround_Z z : qround (Qc_of_Z z) = z.
Proof. rewrite <- frac_1, qround_frac, Z.div_1_r by done. by replace (2 * (z - 1 * z)) with 0 by lia. Qed.

Lemma round_rats n x y p q h :
  is_rat x p → is_rat y q → q ≠ 0%Qc →
  gives (is_qr (qround (p / q)%Qc) (p - q * Qc_of_Z (qround (p / q)%Qc))%Qc) (mkcl_round2 (S (S n)) x y) h.
Proof.
  intros Hx Hy Hne. change (mkcl_round2 (S (S n)) x y) with
    (q ← mkcl_divide (S (S n)) x y;
      match q with
      | OFix _ | OBig _ _ => mret (q, MKCL_MAKE_FIXNUM 0)
      | ORatio _ num den =>
          q1 ← round_ratio (S (S n)) q num den;
          v1 ← number_remainder (S (S n)) x y q1;
          mret (q1, v1)
      | _ =>
          p ← round1_with (mkcl_round2 (S n)) q;
          v1 ← number_remainder (S (S n)) x y p.1;
          mret (p.1, v1)
      end).
  eapply gives_bind; [by apply divide_rat|]. intros w h1 Hw Hh1.
  destruct (is_rat_cases _ _ Hw) as [(z & Hz & E)|(a & num & den & m & d & -> & Hn & Hd & Hl & Hg & E)].
  - rewrite E, qround_Z. replace (p - q * Qc_of_Z z)%Qc with (Qc_of_Z 0) by (rewrite <- E, Z2Qc_inj_0; by field).
    destruct (is_int_cases _ _ Hz) as [(i & ->)|(a & v & ->)]; apply gives_ret; (split; [done|]); apply is_rat_fix, fix_0.
  - rewrite E. eapply gives_bind; [by apply round_ratio_spec|]. intros q1 h2 Hq1 Hh2.
    eapply gives_bind; [|intros v h3 Hv _; apply gives_ret; split; [exact Hq1|exact Hv]].
    eapply gives_bind; [apply times_rat; [apply is_rat_int, Hq1|exact Hy]|]. intros v h3 Hv Hh3.
    eapply gives_mono; [apply minus_rat; [exact Hx|exact Hv]|]. intros s. by rewrite Qcmult_comm.
Qed.

(** C21: on rational numbers, the divisor not zero, FLOOR, CEILING, TRUNCATE and ROUND give
    the quotient rounded down, up, towards zero and to the nearest integer (the even one
    of two), and what is left of the dividend, and MOD and REM what FLOOR and TRUNCATE
    leave.  The quotient 2^61 is left out: [least_fixnum_by_minus_one] is where FLOOR,
    CEILING and TRUNCATE lose it. *)
Theorem divisions_round fuel x y p q h :
  is_rat x p → is_rat y q → q ≠ 0%Qc → (p / q)%Qc ≠ Qc_of_Z (2 ^ 61) → (2 ≤ fuel)%nat →
  let left rnd := (p - q * Qc_of_Z (rnd (p / q)%Qc))%Qc in
  let rounds rnd m := gives (is_qr (rnd (p / q)%Qc) (left rnd)) m h in
  rounds qfloor (mk_cl_floor fuel x (Some y)) ∧ rounds qceiling (mk_cl_ceiling fuel x (Some y)) ∧
  rounds qtruncate (mk_cl_truncate fuel x (Some y)) ∧ rounds qround (mk_cl_round fuel x (Some y)) ∧
  gives (λ r, is_rat r (left qfloor)) (mk_cl_mod fuel x y) h ∧
  gives (λ r, is_rat r (left qtruncate)) (mk_cl_rem fuel x y) h.
Proof.
  intros Hx Hy Hne Hno Hf left rounds. destruct fuel as [|[|n]]; [lia..|].
  split_and!; [by apply floor_rats|by apply ceiling_rats|by apply truncate_rats|by apply round_rats|..].
  - eapply gives_bind; [by apply floor_rats|]. intros [v0 v1] h' [_ Hr] _. by apply gives_ret.
  - eapply gives_bind; [by apply truncate_rats|]. intros [v0 v1] h' [_ Hr] _. by apply gives_ret.
Qed.

(** The quotient of the least fixnum by -1 is not a fixnum, and FLOOR, CEILING and
    TRUNCATE of them all give the least fixnum itself, which has the wrong sign. *)
Theorem least_fixnum_by_minus_one fuel h :
  (1 ≤ fuel)%nat →
  let least := MKCL_MAKE_FIXNUM MKCL_MOST_NEGATIVE_FIXNUM in
  let minus_one := MKCL_MAKE_FIXNUM (-1) in
  let wrong m := m h = Done (least, MKCL_MAKE_FIXNUM 0) h in
  wrong (mk_cl_floor fuel least (Some minus_one)) ∧ wrong (mk_cl_ceiling fuel least (Some minus_one)) ∧
  wrong (mk_cl_truncate fuel least (Some minus_one)) ∧
  mkcl_integer_divide least minus_one h = Done least h.
Proof. intros Hf. destruct fuel as [|n]; [lia|]. by vm_compute. Qed.

(** ** Division by zero *)

Definition traps {A} (m : M A) (h : heap) : Prop := ∃ h', m h = Fail Sigfpe h'.

Lemma floor_zero n x y z h : is_int x z → is_int y 0 → traps (mkcl_floor2 (S n) x y) h.
Proof.
  intros Hx Hy. apply (is_int_fix_inv _ 0) in Hy as ->; [|apply fix_0].
  destruct (is_int_cases _ _ Hx) as [(i & ->)|(a & w & ->)]; exists h; [done|].
  cbn [mkcl_floor2 mkcl_ceiling2 negb]. by rewrite mpz_set_si_eq by auto using fix_0 with mkcl.
Qed.

Lemma ceiling_zero n x y z h : is_int x z → is_int y 0 → traps (mkcl_ceiling2 (S n) x y) h.
Proof.
  intros Hx Hy. apply (is_int_fix_inv _ 0) in Hy as ->; [|apply fix_0].
  destruct (is_int_cases _ _ Hx) as [(i & ->)|(a & w & ->)]; exists h; [done|].
  cbn [mkcl_floor2 mkcl_ceiling2 negb]. by rewrite mpz_set_si_eq by auto using fix_0 with mkcl.
Qed.

Lemma of_ratio_zero n qr xn xd y num den h :
  (∀ x y z h, is_int x z → is_int y 0 → traps (qr x y) h) →
  is_int xn num → is_int xd den → is_int y 0 → traps (of_ratio (S n) qr xn xd y) h.
Proof.
  intros Hqr Hn Hd Hy.
  assert (of_ratio (S n) qr xn xd y = b ← mkcl_times (S n) xd y; p ← qr xn b;
    v1 ← mkcl_divide (S n) p.2 xd; mret (p.1, v1)) as ->
    by (by destruct (is_int_cases _ _ Hy) as [(? & ->)|(? & ? & ->)]).
  destruct (times_int n xd y _ _ h Hd Hy) as (b & h1 & E & Hb & _). unfold traps. rewrite (bind_Done _ _ _ _ _ E).
  rewrite Z.mul_0_r in Hb. destruct (Hqr xn b num h1 Hn Hb) as (h2 & E2). exists h2. by apply bind_Fail.
Qed.

(** Division of a rational number by zero never gives a value: FLOOR, CEILING and
    TRUNCATE trap in the machine's division and ROUND signals an error. *)
Theorem division_by_zero_fails fuel x y p h :
  is_rat x p → is_rat y 0%Qc → (2 ≤ fuel)%nat →
  (∃ h', mk_cl_floor fuel x (Some y) h = Fail Sigfpe h') ∧
  (∃ h', mk_cl_ceiling fuel x (Some y) h = Fail Sigfpe h') ∧
  (∃ h', mk_cl_truncate fuel x (Some y) h = Fail Sigfpe h') ∧
  (∃ a b h', mk_cl_round fuel x (Some y) h = Fail (FEdivision_by_zero a b) h').
Proof.
  intros Hx Hy Hf. destruct fuel as [|[|n]]; [lia..|]. pose proof (is_rat_zero _ Hy) as Hy0.
  assert (traps (mkcl_floor2 (S (S n)) x y) h) as Htf.
  { destruct (is_rat_cases _ _ Hx) as [(z & Hz & _)|(a & xn & xd & n1 & d1 & -> & Hn1 & Hd1 & _)]; [by apply (floor_zero _ x y z)|].
    assert (mkcl_floor2 (S (S n)) (ORatio a xn xd) y = of_ratio (S (S n)) (mkcl_floor2 (S n)) xn xd y) as ->
      by (by destruct (is_int_cases _ _ Hy0) as [(? & ->)|(? & ? & ->)]).
    eapply of_ratio_zero; [intros; by eapply floor_zero|done..]. }
  assert (traps (mkcl_ceiling2 (S (S n)) x y) h) as Htc.
  { destruct (is_rat_cases _ _ Hx) as [(z & Hz & _)|(a & xn & xd & n1 & d1 & -> & Hn1 & Hd1 & _)]; [by apply (ceiling_zero _ x y z)|].
    assert (mkcl_ceiling2 (S (S n)) (ORatio a xn xd) y = of_ratio (S (S n)) (mkcl_ceiling2 (S n)) xn xd y) as ->
      by (by destruct (is_int_cases _ _ Hy0) as [(? & ->)|(? & ? & ->)]).
    eapply of_ratio_zero; [intros; by eapply ceiling_zero|done..]. }
  split_and!; [exact Htf|exact Htc| |].
  - simpl mk_cl_truncate. unfold mkcl_truncate2. rewrite (bind_Done _ _ _ _ _ (plusp_rat x p h Hx)).
    rewrite (bind_Done _ _ _ _ _ (plusp_rat y 0%Qc h Hy)). by destruct (negb _).
  - destruct (divide_zero n x y p h Hx Hy) as (a & b & h' & E). exists a, b, h'.
    change (mk_cl_round (S (S n)) x (Some y)) with (mkcl_round2 (S (S n)) x y). cbn [mkcl_round2]. by apply bind_Fail.
Qed.
End division_theorems.
