(* ===== verification/NumExpt.v ===== *)
(** * NumExpt: EXPT of a rational number and an integer is exact *)

From S2P Require Import Prelude Words Objects Heap Numbers Floats Lists NumPred Arith ArithSpecs NumComp NumCompSpecs NumCo NumCoSpecs.
#[local] Open Scope Z_scope.

(** ** Powers of rational numbers *)

Lemma Qcpower_S p n : (p ^ S n = p * p ^ n)%Qc.
Proof. done. Qed.

Lemma Qcpower_add p n m : (p ^ (n + m) = p ^ n * p ^ m)%Qc.
Proof.
  induction n as [|n IH]; [by rewrite Qcmult_1_l|]. change (S n + m)%nat with (S (n + m)).
  by rewrite !Qcpower_S, IH, Qcmult_assoc.
Qed.

Lemma Qcpower_mul p q n : ((p * q) ^ n = p ^ n * q ^ n)%Qc.
Proof. induction n as [|n IH]; [done|]. rewrite !Qcpower_S, IH. ring. Qed.

(** [p] to the power [k]. *)
Definition qpow (p : Qc) (k : Z) : Qc := if k <? 0 then (1 / p ^ Z.to_nat (- k))%Qc else (p ^ Z.to_nat k)%Qc.

Lemma qpow_0 p : qpow p 0 = 1%Qc.
Proof. done. Qed.

Lemma qpow_pos p k : 0 ≤ k → qpow p k = (p ^ Z.to_nat k)%Qc.
Proof. intros Hk. unfold qpow. destruct (Z.ltb_spec k 0); [lia|done]. Qed.

Lemma qpow_of_0 k : 0 < k → qpow 0 k = 0%Qc.
Proof. intros Hk. rewrite qpow_pos by lia. replace (Z.to_nat k) with (S (Z.to_nat (k - 1))) by lia. by rewrite Qcpower_S, Qcmult_0_l. Qed.

Lemma qpow_half p k : 0 < k → (qpow p k = qpow p (k mod 2) * qpow (p * p) (k / 2))%Qc.
Proof.
  intros Hk. pose proof (Z.mod_pos_bound k 2 eq_refl). pose proof (Z.div_mod k 2 ltac:(done)).
  rewrite !qpow_pos by (try done; lia || (apply Z.div_pos; lia)). rewrite Qcpower_mul, <- !Qcpower_add. f_equal.
  rewrite <- !Z2Nat.inj_add by (try lia; apply Z.div_pos; lia). f_equal. lia.
Qed.

Section power_facts.
Context `{!GMP, !GMPSpec, !GMPArith, !GMPArithSpec, !ToDouble, !Transcendental}.

Lemma evenp_int x z h : is_int x z → mkcl_evenp x h = Done (Z.even z) h.
Proof.
  intros Hx. destruct (is_int_cases _ _ Hx) as [(i & ->)|(a & w & ->)]; simpl.
  - apply is_int_fix_eq in Hx as [-> _]. unfold mret, M_ret. f_equal. change 1 with (Z.ones 1).
    rewrite Z.land_ones, Z.pow_1_r, Zmod_even by done. unfold Z.lnot. rewrite Z.even_pred, Z.odd_opp, <- Z.negb_even. by destruct (Z.even i).
  - apply is_int_big_eq in Hx as [-> _]. by rewrite mpz_even_p_eq.
Qed.

Lemma zerop_int x z h : is_int x z → mkcl_zerop x h = Done (z =? 0) h.
Proof.
  intros Hx. rewrite (zerop_rat x (Qc_of_Z z) h) by by apply is_rat_int. f_equal.
  rewrite (bool_decide_ext _ _ (Qc_of_Z_zero z)). destruct (Z.eqb_spec z 0); [by apply bool_decide_eq_true|by apply bool_decide_eq_false].
Qed.

Lemma is_rat_type x p : is_rat x p →
  mkcl_type_of x = mkcl_t_fixnum ∨ mkcl_type_of x = mkcl_t_bignum ∨ mkcl_type_of x = mkcl_t_ratio.
Proof.
  intros Hx. destruct (is_rat_cases _ _ Hx) as [(z & Hz & _)|(? & ? & ? & ? & ? & -> & _)]; [|by auto].
  destruct (is_int_cases _ _ Hz) as [(i & ->)|(a & w & ->)]; auto.
Qed.

(** The state of the loop: the power so far, the base and the exponent left. *)
Lemma expt_steps n m z x y a p k h :
  is_rat z a → is_rat x p → is_int y k → 0 < k < 2 ^ Z.of_nat m →
  gives (λ r, is_rat r (a * qpow p k)%Qc)
    (loop m (λ '(z, x, y),
      even ← mkcl_evenp y;
      z ← (if negb even then mkcl_times (S (S n)) z x else mret z);
      y ← mkcl_integer_divide y (MKCL_MAKE_FIXNUM 2);
      zero ← mkcl_zerop y;
      if (zero : bool) then mret (inr z)
      else x ← mkcl_times (S (S n)) x x; mret (inl (z, x, y))) (z, x, y)) h.
Proof.
  revert z x y a p k h. induction m as [|m IH]; intros z x y a p k h Hz Hx Hy Hk; [simpl in Hk; lia|].
  rewrite loop_unfold. apply gives_assoc. eapply gives_bind_Done; [by apply evenp_int|]. apply gives_assoc.
  assert (is_fixnum 2) as H2f by (unfold_words; lia).
  pose proof (Z.mod_pos_bound k 2 eq_refl). pose proof (Z.div_mod k 2 ltac:(done)).
  eapply (gives_bind (λ r, is_rat r (a * qpow p (k mod 2))%Qc)).
  { rewrite Zmod_even. destruct (Z.even k); cbn [negb].
    - apply gives_ret. by rewrite qpow_0, Qcmult_1_r.
    - change (qpow p 1) with (p * 1)%Qc. rewrite Qcmult_1_r. by apply times_rat. }
  intros z' h1 Hz' _. apply gives_assoc.
  eapply gives_int_bind.
  { apply (integer_divide_spec y _ k 2); [done|by apply is_int_MAKE_FIXNUM|done|lia]. }
  intros y' h2 Hy' _. rewrite Z.quot_div_nonneg in Hy' by lia. apply gives_assoc.
  eapply gives_bind_Done; [by apply zerop_int|]. rewrite (qpow_half p k), Qcmult_assoc by lia.
  destruct (Z.eqb_spec (k / 2) 0) as [E|E].
  - eapply gives_bind_Done; [done|]. apply gives_ret. rewrite E, qpow_0, Qcmult_1_r. done.
  - apply gives_assoc. eapply gives_bind; [by apply times_rat|]. intros x' h3 Hx' _.
    eapply gives_bind_Done; [done|]. apply IH; [done..|].
    rewrite Nat2Z.inj_succ, Z.pow_succ_r in Hk by lia. split; [|apply Z.div_lt_upper_bound; lia].
    pose proof (Z.div_pos k 2). lia.
Qed.

Lemma expt_positive n x y p k h :
  is_rat x p → is_int y k → 0 < k < 2 ^ Z.of_nat (S (S n)) →
  gives (λ r, is_rat r (qpow p k)) (expt_loop (S (S n)) x y) h.
Proof.
  intros Hx Hy Hk. eapply gives_mono; [apply (expt_steps n _ _ x y 1%Qc p k); [|done..]|].
  - rewrite <- Z2Qc_inj_1. apply is_rat_fix, fix_1.
  - intros r. by rewrite Qcmult_1_l.
Qed.

Lemma expt_enough n k : Z.log2 (Z.abs k) < Z.of_nat n → Z.abs k < 2 ^ Z.of_nat n.
Proof.
  intros Hn. destruct (decide (k = 0)) as [->|]; [simpl; lia|]. apply Z.log2_lt_pow2; lia.
Qed.

Lemma expt_zero_y n x y p h :
  is_rat x p → is_int y 0 → gives (λ r, is_rat r 1%Qc) (mk_cl_expt (S n) x y) h.
Proof.
  intros Hx Hy. apply (is_int_fix_inv _ 0) in Hy as ->; [|apply fix_0]. cbn [mk_cl_expt].
  change (negb (MKCL_NUMBER_TYPE_P (mkcl_type_of (OFix 0)))) with false. cbv iota.
  rewrite (is_rat_number _ _ Hx). cbn [negb]. eapply gives_bind_Done; [done|]. cbv iota.
  destruct (is_rat_type _ _ Hx) as [-> | [-> | ->]]; apply gives_ret; rewrite <- Z2Qc_inj_1; apply is_rat_fix, fix_1.
Qed.

(** The steps of EXPT for an integer exponent that is not zero. *)
Lemma expt_nonzero n x y p k (P : obj → Prop) h :
  is_rat x p → is_int y k → k ≠ 0 →
  gives P
    (zero_x ← mkcl_zerop x;
     if (zero_x : bool) then
       z ← mkcl_times (S n) x y;
       plus ← mkcl_plusp y;
       if negb plus then mkcl_divide (S n) (MKCL_MAKE_FIXNUM 1) z else mret z
     else
       minus ← mkcl_minusp y;
       if (minus : bool) then
         z ← mkcl_negate y; z ← mk_cl_expt n x z; mkcl_divide (S n) (MKCL_MAKE_FIXNUM 1) z
       else expt_loop (S n) x y) h →
  gives P (mk_cl_expt (S n) x y) h.
Proof.
  intros Hx Hy Hk Hg. cbn [mk_cl_expt]. rewrite (is_int_number _ _ Hy), (is_rat_number _ _ Hx). cbn [negb].
  eapply gives_bind_Done; [by apply zerop_int|]. rewrite (proj2 (Z.eqb_neq k 0)) by done.
  by destruct (is_int_cases _ _ Hy) as [(i & ->)|(a & w & ->)].
Qed.

Lemma expt_nonneg n x y p k h :
  is_rat x p → is_int y k → 0 ≤ k → Z.abs k < 2 ^ Z.of_nat (S (S n)) →
  gives (λ r, is_rat r (qpow p k)) (mk_cl_expt (S (S n)) x y) h.
Proof.
  intros Hx Hy Hk Hf. destruct (decide (k = 0)) as [->|Hk0]; [by eapply expt_zero_y|].
  eapply expt_nonzero; [done..|]. eapply gives_bind_Done; [by apply zerop_rat|].
  destruct (bool_decide_reflect (p = 0%Qc)) as [->|Hp].
  - rewrite qpow_of_0 by lia.
    eapply gives_bind; [apply times_rat; [exact Hx|apply is_rat_int, Hy]|]. intros z h1 Hz _. rewrite Qcmult_0_l in Hz.
    eapply gives_bind_Done; [by apply plusp_int|]. destruct (Z.ltb_spec 0 k); [|lia]. by apply gives_ret.
  - eapply gives_bind_Done; [by apply minusp_spec|]. destruct (Z.ltb_spec k 0); [lia|]. apply expt_positive; [done..|lia].
Qed.

Lemma qcpower_ne p n : p ≠ 0%Qc → (p ^ n)%Qc ≠ 0%Qc.
Proof.
  intros Hp. induction n as [|n IH]; [done|]. rewrite Qcpower_S. intros [E|E]%Qcmult_integral; [by apply Hp|by apply IH].
Qed.

Lemma expt_rat n x y p k h :
  is_rat x p → is_int y k → Z.abs k < 2 ^ Z.of_nat (S (S n)) → p ≠ 0%Qc ∨ 0 ≤ k →
  gives (λ r, is_rat r (qpow p k)) (mk_cl_expt (S (S (S n))) x y) h.
Proof.
  intros Hx Hy Hk Hpk. destruct (decide (0 ≤ k)) as [Hpos|Hneg].
  - apply expt_nonneg; [done..|]. rewrite (Nat2Z.inj_succ (S (S n))), Z.pow_succ_r; lia.
  - destruct Hpk as [Hp|]; [|done]. eapply expt_nonzero; [done|done|lia|]. eapply gives_bind_Done; [by apply zerop_rat|].
    rewrite bool_decide_eq_false_2 by done. eapply gives_bind_Done; [by apply minusp_spec|].
    destruct (Z.ltb_spec k 0); [|lia]. eapply gives_int_bind; [by apply negate_int|]. intros z h1 Hz _.
    eapply gives_bind; [apply (expt_nonneg n x z p (- k)); [done..|lia|lia]|]. intros r h2 Hr _.
    eapply gives_mono; [apply divide_rat; [apply is_rat_fix, fix_1|exact Hr|]|].
    + rewrite qpow_pos by lia. by apply qcpower_ne.
    + intros s. rewrite Z2Qc_inj_1, (qpow_pos p (- k)) by lia. unfold qpow. by destruct (Z.ltb_spec k 0); [|lia].
Qed.

(** C23: EXPT of a rational number and an integer is the exact power, whatever the sign
    of the exponent; the squarings take one more level of fuel than the exponent has
    bits.  A negative power of zero divides by zero. *)
Theorem expt_exact fuel x y p k h :
  is_rat x p → is_int y k → (3 ≤ fuel)%nat → Z.abs k < 2 ^ (Z.of_nat fuel - 1) →
  (p ≠ 0%Qc ∨ 0 ≤ k → gives (λ r, is_rat r (qpow p k)) (mk_cl_expt fuel x y) h) ∧
  (p = 0%Qc → k < 0 → ∃ a b h', mk_cl_expt fuel x y h = Fail (FEdivision_by_zero a b) h').
Proof.
  intros Hx Hy Hf Hk. destruct fuel as [|[|[|n]]]; [lia..|].
  replace (Z.of_nat (S (S (S n))) - 1) with (Z.of_nat (S (S n))) in Hk by lia.
  split; [by apply expt_rat|].
  intros -> Hk0. destruct (times_rat (S n) x y 0%Qc (Qc_of_Z k) h Hx ltac:(by apply is_rat_int)) as (z & h1 & E & Hz & _).
  rewrite Qcmult_0_l in Hz.
  destruct (divide_zero (S n) (MKCL_MAKE_FIXNUM 1) z (Qc_of_Z 1) h1 (is_rat_fix _ fix_1) Hz) as (a & b & h2 & E2).
  exists a, b, h2. cbn [mk_cl_expt]. rewrite (is_int_number _ _ Hy), (is_rat_number _ _ Hx). cbn [negb].
  rewrite (bind_Done _ _ _ _ _ (zerop_int y k h Hy)), (proj2 (Z.eqb_neq k 0)) by lia.
  rewrite (bind_Done _ _ _ _ _ (zerop_rat x _ h Hx)), bool_decide_eq_true_2 by done.
  rewrite (bind_Done _ _ _ _ _ E).
  assert (real_or_self y = y) as -> by (by destruct (is_int_cases _ _ Hy) as [(i & ->)|(? & w & ->)]).
  rewrite (bind_Done _ _ _ _ _ (plusp_int y k h1 Hy)). by destruct (Z.ltb_spec 0 k); [lia|].
Qed.
End power_facts.
