(* ===== verification/ToFloat.v ===== *)
(** * ToFloat: the float nearest to a rational number, src/src/c/number.c

    [mkcl_to_double] divides integers and so calls the arithmetic, which calls
    [mkcl_to_double] on other operands.  [to_double_within] ties the two: its instances
    of [ToDouble] allow that many of these calls inside each other.

    GMP does not round, so the code divides integers to one bit more than the float has
    and rounds the integer it gets. *)

From S2P Require Import Prelude Words Objects Heap Numbers NumLog Floats Lists NumPred Arith NumComp NumCo.
#[local] Open Scope Z_scope.

Section to_float.
Context `{!GMP, !GMPArith, !ToDouble}.

(** The content of the register. *)
Definition into_bignum (integer : obj) : M Z :=
  match integer with
  | OFix n => mret (mpz_set_si n)
  | OBig _ z => mret z
  | _ => raise (FEtype_error_integer integer)
  end.

(** The integer without its low zeros, and minus their number. *)
Definition remove_zeros (integer : obj) : M (obj * Z) :=
  buffer ← into_bignum integer;
  let den_twos := mpz_scan1 buffer 0 in
  if den_twos <? word_modulus - 1 then
    integer ← _mkcl_big_register_normalize (mpz_div_2exp buffer den_twos);
    mret (integer, - den_twos)
  else mret (integer, 0).

(** The fraction of [digits + 1] bits and its scale. *)
Definition round_fraction (fuel : nat) (num fraction rem : obj) : M obj :=
  odd ← mkcl_oddp fraction;
  if (odd : bool) then
    minus ← mkcl_minusp num;
    let one := if (minus : bool) then MKCL_MAKE_FIXNUM (-1) else MKCL_MAKE_FIXNUM 1 in
    if obj_eq rem (MKCL_MAKE_FIXNUM 0) then
      bit ← mk_cl_logbitp (MKCL_MAKE_FIXNUM 1) fraction;
      if (bit : bool) then mkcl_plus fuel fraction one else mret fraction
    else mkcl_plus fuel fraction one
  else mret fraction.

Definition halve_until (fuel : nat) (den : obj) (digits : Z) : obj * Z → M (obj * Z) :=
  loop fuel (λ '(num, scale),
    p ← mkcl_truncate2 fuel num den;
    let '(fraction, rem) := (p : obj * obj) in
    len ← mkcl_integer_length fraction;
    if len - digits =? 1 then
      fraction ← round_fraction fuel num fraction rem;
      mret (inr (fraction, scale - (digits + 1)))
    else
      num ← mkcl_ash num (-1);
      mret (inl (num, scale + 1))).

Definition prepare_ratio_to_float (fuel : nat) (num den : obj) (digits : Z) : M (obj * Z) :=
  p ← remove_zeros den;
  let '(den, scale) := (p : obj * Z) in
  num_size ← mkcl_integer_length num;
  den_size ← mkcl_integer_length den;
  let delta := den_size - num_size in
  let scale := scale - delta in
  let adjust := digits + delta + 1 in
  num ← (if 0 <? adjust then mkcl_ash num adjust else mret num);
  den ← (if adjust <? 0 then mkcl_ash den (- adjust) else mret den);
  halve_until fuel den digits (num, scale).

(** [mkcl_fixnum_to_word]: the fraction always fits a fixnum. *)
Definition ratio_to_fl (k : float_kind) (fuel : nat) (num den : obj) : M spec_float :=
  p ← prepare_ratio_to_float fuel num den (mant_dig k);
  match p.1 with
  | OFix bits => mret (fl_ldexp k (fl_of_Z k bits) (int_wrap p.2))
  | _ => raise Segfault
  end.

Definition ratio_to_float (fuel : nat) (num den : obj) : M spec_float := ratio_to_fl SF fuel num den.
Definition ratio_to_double (fuel : nat) (num den : obj) : M spec_float := ratio_to_fl DF fuel num den.

Definition mkcl_to_float (fuel : nat) (x : obj) : M spec_float :=
  match x with
  | OFix n => mret (fl_of_Z SF n)
  | OBig _ _ => d ← ratio_to_double fuel x (MKCL_MAKE_FIXNUM 1); mret (fl_cvt SF d)
  | ORatio _ num den => ratio_to_float fuel num den
  | OFloat SF _ f => mret f
  | OFloat DF _ f => mret (fl_cvt SF f)
  | _ => raise (FEtype_error_real x)
  end.

Definition mkcl_to_double (fuel : nat) (x : obj) : M spec_float :=
  match x with
  | OFix n => mret (fl_of_Z DF n)
  | OBig _ _ => ratio_to_double fuel x (MKCL_MAKE_FIXNUM 1)
  | ORatio _ num den => ratio_to_double fuel num den
  | OFloat SF _ f => mret (fl_cvt DF f)
  | OFloat DF _ f => mret f
  | _ => raise (FEtype_error_real x)
  end.
End to_float.

Fixpoint to_double_within `{!GMP, !GMPArith} (n : nat) : ToDouble :=
  match n with
  | O => {| to_double _ := diverge |}
  | S n => {| to_double := @mkcl_to_double _ _ (to_double_within n) (S n) |}
  end.
