(* ===== verification/ToFloatSpecs.v ===== *)
(** * ToFloatSpecs: how close the float of a rational number is *)

From S2P Require Import Prelude Words Objects Heap Numbers NumLog Floats Lists NumPred Arith ArithSpecs NumComp NumCompSpecs NumCo NumCoSpecs NumExpt ToFloat.
#[local] Open Scope Z_scope.

(** ** Lengths *)

Lemma signed_length_pos z : 0 < z → 2 ^ (signed_length z - 1) ≤ z < 2 ^ signed_length z ∧ 0 < signed_length z.
Proof.
  intros Hz. unfold signed_length. destruct (Z.ltb_spec z 0); [lia|]. destruct (Z.eqb_spec z 0); [lia|].
  pose proof (Z.log2_spec z Hz). pose proof (Z.log2_nonneg z). rewrite Z.add_simpl_r, Z.add_1_r. split; [done|lia].
Qed.

Lemma signed_length_eq z l : 0 < l → 2 ^ (l - 1) ≤ z < 2 ^ l → signed_length z = l.
Proof.
  intros Hl Hz. unfold signed_length. assert (0 < 2 ^ (l - 1)) by (apply Z.pow_pos_nonneg; lia).
  destruct (Z.ltb_spec z 0); [lia|]. destruct (Z.eqb_spec z 0); [lia|].
  rewrite (Z.log2_unique z (l - 1)); [lia|lia|]. by replace (Z.succ (l - 1)) with l by lia.
Qed.

Lemma signed_length_neg z l : 0 ≤ l → - 2 ^ l ≤ z < 0 → 0 ≤ signed_length z ≤ l.
Proof.
  intros Hl Hz. unfold signed_length. destruct (Z.ltb_spec z 0); [|lia]. unfold Z.lnot. destruct (Z.eqb_spec (Z.pred (- z)) 0); [lia|].
  pose proof (Z.log2_nonneg (Z.pred (- z))). assert (Z.log2 (Z.pred (- z)) < l) by (apply Z.log2_lt_pow2; lia). lia.
Qed.

Lemma qtruncate_frac n d : 0 < d → qtruncate (frac n d) = Z.quot n d.
Proof.
  intros Hd. unfold qtruncate. rewrite (bool_decide_ext _ _ (frac_pos n d Hd)), qfloor_frac, qceiling_frac by lia.
  destruct (bool_decide_reflect (0 < n)).
  - by rewrite Z.quot_div_nonneg by lia.
  - unfold Zcdiv. rewrite <- Z.quot_div_nonneg by lia. rewrite Z.quot_opp_l by lia. lia.
Qed.

(** ** Powers of two *)

Lemma qpow_sub p i j : p ≠ 0%Qc → qpow p (Z.of_nat i - Z.of_nat j) = (p ^ i / p ^ j)%Qc.
Proof.
  intros Hp. pose proof (qcpower_ne p i Hp) as Hi. pose proof (qcpower_ne p j Hp) as Hj. unfold qpow.
  destruct (Z.ltb_spec (Z.of_nat i - Z.of_nat j) 0).
  - replace (p ^ j)%Qc with (p ^ i * p ^ Z.to_nat (- (Z.of_nat i - Z.of_nat j)))%Qc by (rewrite <- Qcpower_add; f_equal; lia).
    pose proof (qcpower_ne p (Z.to_nat (- (Z.of_nat i - Z.of_nat j))) Hp). by field.
  - replace (p ^ i)%Qc with (p ^ j * p ^ Z.to_nat (Z.of_nat i - Z.of_nat j))%Qc by (rewrite <- Qcpower_add; f_equal; lia).
    by field.
Qed.

Lemma qpow_add p a b : p ≠ 0%Qc → qpow p (a + b) = (qpow p a * qpow p b)%Qc.
Proof.
  intros Hp. assert (∀ z, ∃ i j, z = Z.of_nat i - Z.of_nat j) as Hz.
  { intros z. exists (Z.to_nat (Z.max z 0)), (Z.to_nat (Z.max (- z) 0)). lia. }
  destruct (Hz a) as (i & j & ->), (Hz b) as (k & l & ->).
  replace (Z.of_nat i - Z.of_nat j + (Z.of_nat k - Z.of_nat l)) with (Z.of_nat (i + k) - Z.of_nat (j + l)) by lia.
  rewrite !qpow_sub, !Qcpower_add by done. field. by split; apply qcpower_ne.
Qed.

Lemma Qc_of_Z_pow z k : 0 ≤ k → Qc_of_Z (z ^ k) = qpow (Qc_of_Z z) k.
Proof.
  intros Hk. rewrite qpow_pos by done. rewrite <- (Z2Nat.id k Hk) at 1. generalize (Z.to_nat k). clear k Hk. intros k.
  induction k as [|k IH]; [apply Z2Qc_inj_1|]. rewrite Nat2Z.inj_succ, Z.pow_succ_r, Z2Qc_inj_mul, IH by lia. done.
Qed.

Definition two : Qc := Qc_of_Z 2.

Lemma two_ne : two ≠ 0%Qc.
Proof. by apply Qc_of_Z_ne. Qed.

Lemma qpow_two_frac k : 0 ≤ k → qpow two k = Qc_of_Z (2 ^ k).
Proof. intros Hk. by rewrite Qc_of_Z_pow. Qed.

Lemma qpow_two_max k : qpow two k = frac (2 ^ Z.max k 0) (2 ^ Z.max (- k) 0).
Proof.
  unfold frac. rewrite !Qc_of_Z_pow by lia. rewrite (qpow_pos _ (Z.max k 0)), (qpow_pos _ (Z.max (- k) 0)) by lia.
  replace k with (Z.of_nat (Z.to_nat (Z.max k 0)) - Z.of_nat (Z.to_nat (Z.max (- k) 0))) at 1 by lia.
  apply qpow_sub, two_ne.
Qed.

Lemma qpow_two_pos k : (0 < qpow two k)%Qc.
Proof.
  rewrite qpow_two_max, frac_pos; apply Z.pow_pos_nonneg; lia.
Qed.

Section conversion.
Context `{!GMP, !GMPSpec, !GMPArith, !GMPArithSpec, !ToDouble, !Transcendental}.

Lemma truncate_ints n x y a b h :
  is_int x a → is_int y b → 0 < b → Z.quot a b ≠ 2 ^ 61 →
  gives (λ p, is_int p.1 (Z.quot a b) ∧ is_int p.2 (Z.rem a b)) (mkcl_truncate2 (S n) x y) h.
Proof.
  intros Hx Hy Hb Hno. unfold mkcl_truncate2.
  eapply gives_bind_Done; [by apply plusp_int|]. eapply gives_bind_Done; [by apply plusp_int|].
  rewrite (proj2 (Z.ltb_lt 0 b)) by done. rewrite <- (qtruncate_frac a b Hb) in Hno |- *.
  assert (¬ wraps a b) as Hno' by (intros [_ ?]; lia).
  assert (∀ rnd p, rnd (frac a b) = qtruncate (frac a b) →
    is_qr (rnd (frac a b)) (Qc_of_Z (a - b * rnd (frac a b))) p → is_int p.1 (qtruncate (frac a b)) ∧ is_int p.2 (Z.rem a b)) as Hr.
  { intros rnd [v0 v1] E [Hv0 Hv1]. rewrite E in *. split; [done|]. apply is_rat_int_inv. rewrite Z.rem_eq by lia.
    by rewrite qtruncate_frac in Hv1. }
  unfold qtruncate in *. rewrite (bool_decide_ext _ _ (frac_pos a b Hb)) in *. destruct (Z.ltb_spec 0 a).
  - rewrite (bool_decide_eq_true_2 (0 < a)) in * by done. eapply gives_mono; [apply (floor_ints n x y a b h Hx Hy ltac:(lia) Hno')|]. intros p. by apply Hr.
  - rewrite (bool_decide_eq_false_2 (0 < a)) in * by lia. eapply gives_mono; [apply (ceiling_ints n x y a b h Hx Hy ltac:(lia) Hno')|]. intros p. by apply Hr.
Qed.

Lemma length_gives x z h : is_int x z → gives (λ l, l = signed_length z) (mkcl_integer_length x) h.
Proof. intros Hx. destruct (integer_length_eq x z h Hx) as (h' & E & Hs). by exists (signed_length z), h'. Qed.

(** ** Negative numbers

    The loop wants a fraction of [digits + 1] bits, but [- 2 ^ digits], which is the
    integer part of a quotient just below it, has one bit less. *)
Lemma halve_hangs fuel den b digits x z scale h :
  0 ≤ digits → digits ≤ 60 → 0 < b → is_int den b → is_int x z → - (2 ^ digits + 1) * b < z < 0 →
  halve_until fuel den digits (x, scale) h = Diverge.
Proof.
  intros Hd Hd' Hb Hden Hx Hz. unfold halve_until. destruct fuel as [|n]; [done|]. generalize (S n) at 1. intros m.
  revert x z scale h Hx Hz. induction m as [|m IH]; intros x z scale h Hx Hz; [done|]. rewrite loop_unfold.
  assert (- 2 ^ digits ≤ Z.quot z b ≤ 0) as Hq.
  { replace z with (- (- z)) by lia. rewrite Z.quot_opp_l, Z.quot_div_nonneg by lia.
    assert (- z / b < 2 ^ digits + 1) by (apply Z.div_lt_upper_bound; lia). pose proof (Z.div_pos (- z) b). lia. }
  destruct (truncate_ints n x den z b h Hx Hden Hb ltac:(lia)) as ([f r] & h1 & E & [Hf Hr] & _). cbn [fst snd] in *.
  destruct (length_gives f _ h1 Hf) as (l & h2 & E2 & -> & _).
  assert (signed_length (Z.quot z b) ≤ digits).
  { destruct (decide (Z.quot z b = 0)) as [->|]; [unfold signed_length; simpl; lia|]. apply signed_length_neg; lia. }
  destruct (mkcl_ash_right x z (-1) h2 Hx) as (x' & h3 & E3 & Hx' & _); [unfold_words; lia|].
  rewrite !bind_assoc, (bind_Done _ _ _ _ _ E). rewrite !bind_assoc, (bind_Done _ _ _ _ _ E2).
  destruct (Z.eqb_spec (signed_length (z ÷ b) - digits) 1); [lia|]. rewrite !bind_assoc, (bind_Done _ _ _ _ _ E3), bind_ret.
  eapply IH; [exact Hx'|]. change (- -1) with 1. rewrite Z.shiftr_div_pow2, Z.pow_1_r by lia.
  assert (z ≤ z / 2) by (apply Z.div_le_lower_bound; lia). split; [lia|apply Z.div_lt_upper_bound; lia].
Qed.

(** ** The start of the division *)

Lemma low_zeros_divide z t : 0 ≤ t → (∀ j, 0 ≤ j < t → Z.testbit z j = false) → z = z / 2 ^ t * 2 ^ t.
Proof.
  intros Ht Hj. assert (0 < 2 ^ t) by (by apply Z.pow_pos_nonneg). pose proof (Z.div_mod z (2 ^ t) ltac:(lia)).
  assert (z mod 2 ^ t = 0); [|lia]. apply Z.bits_inj'. intros i Hi. rewrite Z.bits_0.
  destruct (decide (i < t)); [rewrite Z.mod_pow2_bits_low by lia; by apply Hj|by rewrite Z.mod_pow2_bits_high by lia].
Qed.

Lemma remove_zeros_spec x d h :
  is_int x d → 0 < d →
  gives (λ p, ∃ t, 0 ≤ t ∧ p.2 = - t ∧ is_int p.1 (d / 2 ^ t) ∧ d = d / 2 ^ t * 2 ^ t) (remove_zeros x) h.
Proof.
  intros Hx Hd. unfold remove_zeros.
  assert (into_bignum x h = Done d h) as E.
  { destruct (is_int_cases _ _ Hx) as [(i & ->)|(a & w & ->)]; [apply is_int_fix_eq in Hx as [-> Hi]|by apply is_int_big_eq in Hx as [-> _]].
    simpl. by rewrite mpz_set_si_eq by auto with mkcl. }
  eapply gives_bind_Done; [exact E|]. cbv zeta. destruct (mpz_scan1_bit d) as (Ht & _ & Hlow); [lia|].
  destruct (_ <? _).
  - rewrite mpz_div_2exp_eq by done. eapply gives_int_bind; [apply big_register_normalize_spec|]. intros r h1 Hr _.
    apply gives_ret. exists (mpz_scan1 d 0). split_and!; [done..|by apply low_zeros_divide].
  - apply gives_ret. exists 0. rewrite Z.div_1_r. split_and!; [done..|]. lia.
Qed.

(** [x] shifted to the left as long as it is no less than half the least fixnum. *)
Lemma shift_left_spec x n w h :
  is_int x n → - 2 ^ 60 ≤ n → gives_int (if 0 <? w then mkcl_ash x w else mret x) h (n * 2 ^ Z.max w 0).
Proof.
  intros Hx Hn. destruct (Z.ltb_spec 0 w).
  - rewrite Z.max_l, <- Z.shiftl_mul_pow2 by lia. apply mkcl_ash_left; [done..|]. unfold ash_overflows.
    destruct (is_int_cases _ _ Hx) as [(i & ->)|(a & v & ->)]; [|done]. apply is_int_fix_eq in Hx as [-> _].
    assert (2 ^ (61 - w) ≤ 2 ^ 60) by (apply Z.pow_le_mono_r; lia).
    destruct (Z.ltb_spec i (MKCL_MOST_NEGATIVE_FIXNUM + 2 ^ (MKCL_WORD_BITS - 3 - w))) as [Hlt|]; [|by rewrite andb_false_r].
    exfalso. unfold_words. replace (64 - 3 - w) with (61 - w) in Hlt by lia. lia.
  - rewrite Z.max_r, Z.mul_1_r by lia. by apply gives_int_ret.
Qed.

Lemma prepare_steps fuel x y n d digits h :
  is_int x n → is_int y d → 0 < d → - 2 ^ 60 ≤ n →
  ∃ t num den h', 0 ≤ t ∧ d = d / 2 ^ t * 2 ^ t ∧
    let delta := signed_length (d / 2 ^ t) - signed_length n in
    let adjust := digits + delta + 1 in
    is_int num (n * 2 ^ Z.max adjust 0) ∧ is_int den (d / 2 ^ t * 2 ^ Z.max (- adjust) 0) ∧ h ⊆ h' ∧
    prepare_ratio_to_float fuel x y digits h = halve_until fuel den digits (num, - t - delta) h'.
Proof.
  intros Hx Hy Hd Hn. destruct (remove_zeros_spec y d h Hy Hd) as ([den s] & h1 & E1 & (t & Ht & Hs & Hden & Hdt) & Hh1).
  cbn [fst snd] in *. subst s. exists t.
  destruct (length_gives x n h1 Hx) as (sx & h2 & E2 & -> & Hh2).
  destruct (length_gives den _ h2 Hden) as (sd & h3 & E3 & -> & Hh3).
  set (delta := signed_length (d / 2 ^ t) - signed_length n). set (adjust := digits + delta + 1).
  destruct (shift_left_spec x n adjust h3 Hx Hn) as (num' & h4 & E4 & Hnum & Hh4).
  assert (0 < d / 2 ^ t) by (assert (0 < 2 ^ t) by (by apply Z.pow_pos_nonneg); nia).
  destruct (shift_left_spec den _ (- adjust) h4 Hden) as (den' & h5 & E5 & Hden' & Hh5); [lia|].
  exists num', den', h5. split_and!; [done..|by repeat (etrans; [eassumption|])|].
  unfold prepare_ratio_to_float. rewrite (bind_Done _ _ _ _ _ E1). cbv beta iota zeta.
  rewrite (bind_Done _ _ _ _ _ E2), (bind_Done _ _ _ _ _ E3). fold delta adjust. rewrite (bind_Done _ _ _ _ _ E4).
  replace (adjust <? 0) with (0 <? - adjust) by (destruct (Z.ltb_spec adjust 0), (Z.ltb_spec 0 (- adjust)); lia).
  by rewrite (bind_Done _ _ _ _ _ E5).
Qed.

(** ** Positive numbers *)

Lemma round_fraction_spec n num f r z q h :
  is_int num z → 0 < z → is_int f q → 0 < q < 2 ^ 61 →
  gives (λ b, is_int b q ∨ is_int b (q + 1)) (round_fraction (S n) num f r) h.
Proof.
  intros Hnum Hz Hf Hq. unfold round_fraction. eapply gives_bind_Done; [by apply oddp_int|].
  destruct (Z.odd q); [|apply gives_ret; by left]. eapply gives_bind_Done; [by apply minusp_spec|].
  destruct (Z.ltb_spec z 0); [lia|]. cbv zeta.
  assert (gives (λ b, is_int b q ∨ is_int b (q + 1)) (mkcl_plus (S n) f (MKCL_MAKE_FIXNUM 1)) h) as Hp.
  { eapply gives_mono; [apply plus_int; [exact Hf|apply is_int_MAKE_FIXNUM, fix_1]|]. intros b. by right. }
  destruct (obj_eq r _); [|done]. eapply gives_bind_Done.
  { apply (logbitp_testbit _ f 1 q); [apply is_int_MAKE_FIXNUM, fix_1|done|lia|].
    rewrite Z.abs_eq by lia. assert (Z.log2 q < 61) by (apply Z.log2_lt_pow2; lia). lia. }
  destruct (Z.testbit q 1); [done|]. apply gives_ret. by left.
Qed.

Definition is_scaled (b s : Z) (p : obj * Z) : Prop := is_int p.1 b ∧ p.2 = s.

(** The last step: [a] over [b] has [digits + 1] bits before the point. *)
Lemma halve_last m n x den a b digits scale h :
  0 < digits ≤ 59 → is_int x a → is_int den b → 0 < b → 2 ^ digits * b ≤ a < 2 ^ (digits + 1) * b →
  gives (λ p, ∃ bits, is_scaled bits (scale - (digits + 1)) p ∧ 2 ^ digits ≤ bits ≤ 2 ^ (digits + 1) ∧
      (bits - 1) * b ≤ a < (bits + 1) * b)
    (loop (S m) (λ '(num, scale),
      p ← mkcl_truncate2 (S n) num den;
      let '(fraction, rem) := (p : obj * obj) in
      len ← mkcl_integer_length fraction;
      if len - digits =? 1 then
        fraction ← round_fraction (S n) num fraction rem;
        mret (inr (fraction, scale - (digits + 1)))
      else
        num ← mkcl_ash num (-1);
        mret (inl (num, scale + 1))) (x, scale)) h.
Proof.
  intros Hd Hx Hden Hb Ha. assert (0 < 2 ^ digits) by (apply Z.pow_pos_nonneg; lia).
  assert (2 ^ (digits + 1) ≤ 2 ^ 60) by (apply Z.pow_le_mono_r; lia).
  pose proof (Z.pow_succ_r 2 digits ltac:(lia)) as Hs. rewrite <- Z.add_1_r in Hs.
  assert (2 ^ digits ≤ a / b < 2 ^ (digits + 1)) as Hq by (split; [apply Z.div_le_lower_bound|apply Z.div_lt_upper_bound]; lia).
  pose proof (Z.div_mod a b ltac:(lia)) as Hm. pose proof (Z.mod_pos_bound a b Hb).
  rewrite loop_unfold. apply gives_assoc. eapply gives_bind; [apply (truncate_ints n x den a b h Hx Hden Hb)|].
  { rewrite Z.quot_div_nonneg by nia. lia. }
  intros [f r] h1 [Hf Hr] _. cbn [fst snd] in *. rewrite Z.quot_div_nonneg in Hf by nia.
  apply gives_assoc. eapply gives_bind; [by apply length_gives|]. intros l h2 -> _.
  rewrite (signed_length_eq (a / b) (digits + 1)) by (rewrite ?Z.add_simpl_r; lia).
  replace (digits + 1 - digits =? 1) with true by (symmetry; apply Z.eqb_eq; lia).
  apply gives_assoc. eapply gives_bind; [apply (round_fraction_spec n x f r a (a / b)); [done|nia|done|lia]|].
  intros bits h3 Hbits _. eapply gives_bind_Done; [done|]. apply gives_ret.
  destruct Hbits as [Hbits|Hbits]; [exists (a / b)|exists (a / b + 1)]; (split; [by split|]); (split; [lia|]); nia.
Qed.

(** There are at most two steps. *)
Lemma halve_positive m x den a b digits scale h :
  0 < digits ≤ 58 → is_int x a → is_int den b → 0 < b → 2 ^ digits * b ≤ a < 2 ^ (digits + 2) * b →
  gives (λ p, ∃ bits j, 0 ≤ j ∧ is_scaled bits (scale - (digits + 1) + j) p ∧ 2 ^ digits ≤ bits ≤ 2 ^ (digits + 1) ∧
      (bits - 1) * b * 2 ^ j ≤ a < (bits + 1) * b * 2 ^ j)
    (halve_until (S (S m)) den digits (x, scale)) h.
Proof.
  intros Hd Hx Hden Hb Ha. destruct (decide (a < 2 ^ (digits + 1) * b)) as [Hlt|Hge].
  { eapply gives_mono; [apply (halve_last (S m) (S m) x den a b digits scale h); [lia|done..|lia]|].
    intros p (bits & Hp & Hbits & Hab). exists bits, 0. rewrite Z.add_0_r, Z.mul_1_r, Z.mul_1_r. done. }
  assert (2 ^ (digits + 2) ≤ 2 ^ 60) by (apply Z.pow_le_mono_r; lia).
  assert (0 < 2 ^ digits) by (apply Z.pow_pos_nonneg; lia).
  replace (2 ^ (digits + 2)) with (4 * 2 ^ digits) in * by (rewrite Z.pow_add_r by lia; lia).
  pose proof (Z.pow_succ_r 2 digits ltac:(lia)) as Hs. rewrite <- Z.add_1_r in Hs. rewrite Hs in Hge.
  assert (2 * 2 ^ digits ≤ a / b < 4 * 2 ^ digits) as Hq by (split; [apply Z.div_le_lower_bound|apply Z.div_lt_upper_bound]; lia).
  pose proof (Z.div_mod a 2 ltac:(lia)) as Hm. pose proof (Z.mod_pos_bound a 2 eq_refl).
  unfold halve_until. rewrite loop_unfold. apply gives_assoc.
  eapply gives_bind; [apply (truncate_ints (S m) x den a b h Hx Hden Hb)|].
  { rewrite Z.quot_div_nonneg by nia. lia. }
  intros [f r] h1 [Hf Hr] _. cbn [fst snd] in *. rewrite Z.quot_div_nonneg in Hf by nia.
  apply gives_assoc. eapply gives_bind; [by apply length_gives|]. intros l h2 -> _.
  rewrite (signed_length_eq (a / b) (digits + 2)) by
    (replace (digits + 2 - 1) with (digits + 1) by lia; replace (2 ^ (digits + 2)) with (4 * 2 ^ digits) by (rewrite Z.pow_add_r by lia; lia); lia).
  replace (digits + 2 - digits =? 1) with false by (symmetry; apply Z.eqb_neq; lia).
  apply gives_assoc. eapply gives_int_bind; [apply mkcl_ash_right; [exact Hx|unfold_words; lia]|]. intros x' h3 Hx' _.
  change (- -1) with 1 in Hx'. rewrite Z.shiftr_div_pow2, Z.pow_1_r in Hx' by lia.
  eapply gives_bind_Done; [done|]. eapply gives_mono; [apply (halve_last m (S m) x' den (a / 2) b digits (scale + 1) h3); [lia|done..|nia]|].
  intros p (bits & Hp & Hbits & Hab). exists bits, 1. split_and!; [lia|by replace (scale - (digits + 1) + 1) with (scale + 1 - (digits + 1)) by lia|lia..].
Qed.

(** ** The float of a positive rational number *)

(** [bits * 2 ^ scale], where [bits] has one bit more than a float of [digits] bits or is
    the power of two after those, is at most one above [q], and less than one below it, in
    units of its last bit. *)
Definition close_to (digits : Z) (q : Qc) (bits scale : Z) : Prop :=
  2 ^ digits ≤ bits ≤ 2 ^ (digits + 1) ∧
  (Qc_of_Z (bits - 1) * qpow two scale <= q)%Qc ∧ (q < Qc_of_Z (bits + 1) * qpow two scale)%Qc.

Lemma frac_le n d n' d' : 0 < d → 0 < d' → (frac n d <= frac n' d')%Qc ↔ n * d' ≤ n' * d.
Proof. intros Hd Hd'. rewrite Qcle_alt, frac_compare by done. apply Z.compare_le_iff. Qed.

Lemma frac_lt n d n' d' : 0 < d → 0 < d' → (frac n d < frac n' d')%Qc ↔ n * d' < n' * d.
Proof. intros Hd Hd'. rewrite Qclt_alt, frac_compare by done. apply Z.compare_lt_iff. Qed.

(** Both sides shifted by the same amount. *)
Lemma shift_le x y u v u' v' :
  0 ≤ u → 0 ≤ v → 0 ≤ u' → 0 ≤ v' → u - v = u' - v' → x * 2 ^ u ≤ y * 2 ^ v → x * 2 ^ u' ≤ y * 2 ^ v'.
Proof.
  intros Hu Hv Hu' Hv' Heq Hle. assert (0 < 2 ^ v) by (by apply Z.pow_pos_nonneg). assert (0 < 2 ^ v') by (by apply Z.pow_pos_nonneg).
  apply (Z.mul_le_mono_pos_r _ _ (2 ^ v)); [done|]. apply (Z.mul_le_mono_pos_r _ _ (2 ^ v')) in Hle; [|done].
  rewrite <- !Z.mul_assoc, <- !Z.pow_add_r in * by done. replace (u' + v) with (u + v') by lia. by rewrite (Z.add_comm v' v).
Qed.

Lemma shift_lt x y u v u' v' :
  0 ≤ u → 0 ≤ v → 0 ≤ u' → 0 ≤ v' → u - v = u' - v' → x * 2 ^ u < y * 2 ^ v → x * 2 ^ u' < y * 2 ^ v'.
Proof.
  intros Hu Hv Hu' Hv' Heq Hlt. apply Z.nle_gt. intros Hle. apply (shift_le y x v' u' v u) in Hle; lia.
Qed.

Lemma scaled_frac c s : (Qc_of_Z c * qpow two s)%Qc = frac (c * 2 ^ Z.max s 0) (2 ^ Z.max (- s) 0).
Proof. rewrite qpow_two_max. unfold frac. rewrite Z2Qc_inj_mul. unfold Qcdiv. ring. Qed.

Lemma prepare_positive m x y n d digits h :
  is_int x n → is_int y d → 0 < n → 0 < d → 0 < digits ≤ 58 →
  gives (λ p, ∃ bits scale, is_scaled bits scale p ∧ close_to digits (frac n d) bits scale)
    (prepare_ratio_to_float (S (S m)) x y digits) h.
Proof.
  intros Hx Hy Hn Hd Hdig.
  destruct (prepare_steps (S (S m)) x y n d digits h Hx Hy Hd ltac:(lia)) as (t & num & den & h1 & Ht & Hdt & Hnum & Hden & Hh1 & E).
  set (b0 := d / 2 ^ t) in *. assert (0 < 2 ^ t) by (by apply Z.pow_pos_nonneg). assert (0 < b0) by nia.
  set (delta := signed_length b0 - signed_length n) in *. set (adjust := digits + delta + 1) in *.
  destruct (signed_length_pos n Hn) as [HN HN0]. destruct (signed_length_pos b0) as [HD HD0]; [done|].
  set (u := Z.max adjust 0) in *. set (v := Z.max (- adjust) 0) in *.
  assert (0 < 2 ^ u) as Hu by (apply Z.pow_pos_nonneg; lia). assert (0 < 2 ^ v) as Hv by (apply Z.pow_pos_nonneg; lia).
  assert (2 ^ digits * (b0 * 2 ^ v) ≤ n * 2 ^ u < 2 ^ (digits + 2) * (b0 * 2 ^ v)) as Hab.
  { assert (∀ c w, 0 ≤ c → 0 ≤ w → 2 ^ c * (2 ^ w * 2 ^ v) = 2 ^ (c + w + v)) as Hpow by (intros; rewrite <- !Z.pow_add_r by lia; f_equal; lia).
    assert (2 ^ (signed_length n - 1) * 2 ^ u = 2 ^ digits * (2 ^ signed_length b0 * 2 ^ v)) as E1
      by (rewrite Hpow, <- Z.pow_add_r by lia; f_equal; lia).
    assert (2 ^ signed_length n * 2 ^ u = 2 ^ (digits + 2) * (2 ^ (signed_length b0 - 1) * 2 ^ v)) as E2
      by (rewrite Hpow, <- Z.pow_add_r by lia; f_equal; lia).
    assert (0 < 2 ^ digits) by (apply Z.pow_pos_nonneg; lia). assert (0 < 2 ^ (digits + 2)) by (apply Z.pow_pos_nonneg; lia).
    split; [etrans; [|apply Z.mul_le_mono_nonneg_r, HN; lia]; rewrite E1
           |eapply Z.lt_le_trans; [apply Z.mul_lt_mono_pos_r; [done|apply HN]|]; rewrite E2];
      apply Z.mul_le_mono_nonneg_l, Z.mul_le_mono_nonneg_r; lia. }
  destruct (halve_positive m num den _ _ digits (- t - delta) h1 Hdig Hnum Hden ltac:(nia) Hab)
    as (p & h2 & E2 & (bits & j & Hj & Hp & Hbits & Hle & Hlt) & Hh2).
  exists p, h2. rewrite E. split; [done|]. split; [|by etrans]. exists bits, (- t - delta - (digits + 1) + j). split; [done|].
  split; [done|]. rewrite !scaled_frac, frac_le, frac_lt by (try done; apply Z.pow_pos_nonneg; lia).
  set (s := - t - delta - (digits + 1) + j). set (p' := Z.max s 0). set (q' := Z.max (- s) 0). rewrite Hdt.
  assert (∀ c, c * 2 ^ p' * (b0 * 2 ^ t) = c * b0 * 2 ^ (p' + t)) as -> by (intros; rewrite Z.pow_add_r by lia; ring).
  assert (∀ c, c * (b0 * 2 ^ v) * 2 ^ j = c * b0 * 2 ^ (v + j)) as Hr by (intros; rewrite Z.pow_add_r by lia; ring).
  rewrite Hr in Hle, Hlt. split; [apply (shift_le _ _ (v + j) u); [lia..|done]|].
  assert (∀ c, c * 2 ^ p' * (b0 * 2 ^ t) = c * b0 * 2 ^ (p' + t)) as -> by (intros; rewrite Z.pow_add_r by lia; ring).
  apply (shift_lt _ _ u (v + j)); [lia..|done].
Qed.

Lemma ratio_to_fl_close k m x y n d h :
  mant_dig k ≤ 58 → is_int x n → is_int y d → 0 < n → 0 < d →
  gives (λ f, ∃ bits scale, f = fl_ldexp k (fl_of_Z k bits) (int_wrap scale) ∧ close_to (mant_dig k) (frac n d) bits scale)
    (ratio_to_fl k (S (S m)) x y) h.
Proof.
  intros Hk Hx Hy Hn Hd. assert (0 < mant_dig k) by by destruct k.
  eapply gives_bind; [by apply prepare_positive|]. intros [b s] h1 (bits & scale & [Hb Hs] & Hc) _. cbn [fst snd] in *. subst s.
  assert (2 ^ (mant_dig k + 1) ≤ 2 ^ 59) by (apply Z.pow_le_mono_r; lia). destruct Hc as [Hbits Hc].
  assert (0 < 2 ^ mant_dig k) by (apply Z.pow_pos_nonneg; lia).
  rewrite (is_int_fix_inv b bits Hb) by (unfold_words; lia). apply gives_ret. by exists bits, scale.
Qed.

(** C25: the [double] of a positive bignum or ratio, and the [float] of a positive ratio,
    comes from an integer between 2^p and 2^(p+1), for a float of p bits, that is at most
    one above the number, in the unit of its last bit, and less than one below it: the
    division ends, and before the last rounding the error is at most that unit. *)
Theorem conversion_close fuel x q h :
  is_rat x q → (0 < q)%Qc → MKCL_FIXNUMP x = false → (2 ≤ fuel)%nat →
  let within k f := ∃ bits scale, f = fl_ldexp k (fl_of_Z k bits) (int_wrap scale) ∧ close_to (mant_dig k) q bits scale in
  gives (within DF) (mkcl_to_double fuel x) h ∧
  (mkcl_type_of x = mkcl_t_ratio → gives (within SF) (mkcl_to_float fuel x) h).
Proof.
  intros Hx Hq Hnf Hf. destruct fuel as [|[|m]]; [lia..|].
  destruct (is_rat_cases _ _ Hx) as [(z & Hz & ->)|(a & xn & xd & n & d & -> & Hn & Hd & Hl & Hg & ->)].
  - destruct (is_int_cases _ _ Hz) as [(i & ->)|(a & w & ->)]; [done|]. split; [|done]. 
    rewrite <- frac_1, frac_pos in Hq by done. rewrite <- frac_1.
    apply (ratio_to_fl_close DF m (OBig a w) (MKCL_MAKE_FIXNUM 1) z 1); [done..|apply is_int_MAKE_FIXNUM, fix_1|done|done].
  - rewrite frac_pos in Hq by lia. split; [|intros _]; [apply (ratio_to_fl_close DF m xn xd n d)|apply (ratio_to_fl_close SF m xn xd n d)]; solve [done|lia].
Qed.

(** C26: the conversion of the ratio [-1073741825/1073741823] to a [float] never ends,
    with however much fuel: the quotient's integer part is [-2 ^ 24], for which
    [mkcl_integer_length] counts one bit less than for [2 ^ 24]. *)
Theorem conversion_hangs fuel h :
  mkcl_to_float fuel (ORatio 1 (OFix (- (2 ^ 30 + 1))) (OFix (2 ^ 30 - 1))) h = Diverge.
Proof.
  assert (is_int (OFix (- (2 ^ 30 + 1))) (- (2 ^ 30 + 1))) as Hn by (apply is_int_fix; unfold_words; lia).
  assert (is_int (OFix (2 ^ 30 - 1)) (2 ^ 30 - 1)) as Hd by (apply is_int_fix; unfold_words; lia).
  destruct (prepare_steps fuel _ _ _ _ 24 h Hn Hd ltac:(done) ltac:(done)) as (t & num & den & h1 & Ht & Hdt & Hnum & Hden & _ & E).
  assert (t = 0) as ->.
  { destruct (decide (t = 0)); [done|]. exfalso. replace t with (1 + (t - 1)) in Hdt at 2 by lia.
    rewrite Z.pow_add_r in Hdt by lia. revert Hdt. generalize ((2 ^ 30 - 1) / 2 ^ t). intros c Hc.
    set (e := 2 ^ (t - 1)) in Hc. change (2 ^ 1) with 2 in Hc. change (2 ^ 30 - 1) with (1 + 2 * 536870911) in Hc. lia. }
  change (signed_length ((2 ^ 30 - 1) / 2 ^ 0) - signed_length (- (2 ^ 30 + 1))) with (-1) in *.
  change (Z.max (24 + -1 + 1) 0) with 24 in Hnum. change (Z.max (- (24 + -1 + 1)) 0) with 0 in Hden.
  cbn [mkcl_to_float]. unfold ratio_to_float, ratio_to_fl, mbind, M_bind. cbn [mant_dig]. rewrite E.
  by rewrite (halve_hangs fuel den (2 ^ 30 - 1) 24 num (- (2 ^ 30 + 1) * 2 ^ 24) _ h1).
Qed.
End conversion.

(** The [double] of a bignum is not always the nearest: a half is rounded up in
    -(2^62 + 2^9) but down in 2^62 + 2^9, and what is over a half in 2^62 + 2^9 + 1 is
    shifted out before it is looked at. *)
Theorem conversion_misrounds :
  let double z := ∃ h, to_double (ToDouble := to_double_within 2) (OBig 1 z) ∅ = Done (S754_finite (z <? 0) (2 ^ 52) 10) h in
  fl_of_Z DF (- (2 ^ 62 + 2 ^ 9)) = S754_finite true (2 ^ 52) 10 ∧ ¬ double (- (2 ^ 62 + 2 ^ 9)) ∧
  fl_of_Z DF (2 ^ 62 + 2 ^ 9 + 1) = S754_finite false (2 ^ 52 + 1) 10 ∧ double (2 ^ 62 + 2 ^ 9 + 1) ∧
  double (2 ^ 62 + 2 ^ 9).
Proof. vm_compute. split_and!; [done|intros [h [=]]|done|by eexists|by eexists]. Qed.
