(* ===== verification/NumFloat.v ===== *)
(** * NumFloat: the parts of floats and of other numbers, src/src/c/num_co.c

    FLOAT, the functions that take floats apart, NUMERATOR, DENOMINATOR and the parts of
    complex numbers.  A function with three values gives the three of them. *)

From S2P Require Import Prelude Words Objects Heap Numbers NumLog Floats Lists NumPred Arith NumComp NumCo ToFloat.
#[local] Open Scope Z_scope.

Section parts.
Context `{!GMP, !GMPArith, !ToDouble}.

Definition mk_cl_float (fuel : nat) (x : obj) (y : option obj) : M obj :=
  let ty := match y with Some y => mkcl_type_of y | None => mkcl_t_singlefloat end in
  let convert :=
    match ty with
    | mkcl_t_singlefloat => f ← mkcl_to_float fuel x; mkcl_make_singlefloat f
    | mkcl_t_doublefloat => d ← mkcl_to_double fuel x; mkcl_make_doublefloat d
    | _ => raise (FEwrong_type_argument (default ONil y))
    end in
  match x with
  | OFloat SF _ _ | OFloat DF _ _ =>
      if bool_decide (y = None) || bool_decide (ty = mkcl_type_of x) then mret x else convert
  | OFix _ | OBig _ _ | ORatio _ _ _ => convert
  | _ => raise (FEwrong_type_argument x)
  end.

Definition mk_cl_numerator (x : obj) : M obj :=
  match x with
  | ORatio _ num _ => mret num
  | OFix _ | OBig _ _ => mret x
  | _ => raise (FEwrong_type_argument x)
  end.

Definition mk_cl_denominator (x : obj) : M obj :=
  match x with
  | ORatio _ _ den => mret den
  | OFix _ | OBig _ _ => mret (MKCL_MAKE_FIXNUM 1)
  | _ => raise (FEwrong_type_argument x)
  end.

(** ** Significand, exponent and sign *)

Definition decode_kind (k : float_kind) (f : spec_float) : M (obj * obj * obj) :=
  let '(f, s) := if SFleb fl_zero f then (f, 1) else (SFopp f, -1) in
  let '(f, e) := fl_frexp k f in
  x ← make_float k f;
  sign ← make_float k (fl_of_Z k s);
  mret (x, MKCL_MAKE_FIXNUM e, sign).

Definition mk_cl_decode_float (x : obj) : M (obj * obj * obj) :=
  match x with
  | OFloat SF _ f => decode_kind SF f
  | OFloat DF _ d => decode_kind DF d
  | _ => raise (FEwrong_type_argument x)
  end.

Definition mk_cl_scale_float (x y : obj) : M obj :=
  match y with
  | OFix k =>
      match x with
      | OFloat SF _ f => mkcl_make_singlefloat (fl_ldexp SF f (int_wrap k))
      | OFloat DF _ d => mkcl_make_doublefloat (fl_ldexp DF d (int_wrap k))
      | _ => raise (FEwrong_type_argument x)
      end
  | _ => raise (FEwrong_type_argument y)
  end.

Definition mk_cl_float_radix (x : obj) : M obj :=
  match x with
  | OFloat _ _ _ => mret (MKCL_MAKE_FIXNUM 2)
  | _ => raise (FEwrong_type_argument x)
  end.

Definition mk_cl_float_sign (fuel : nat) (x : obj) (y : option obj) : M obj :=
  one ← mk_cl_float fuel (MKCL_MAKE_FIXNUM 1) (Some x);
  let y := default one y in
  negativep ← (match x with
    | OFloat SF _ f | OFloat DF _ f => mret (fl_signbit f)
    | _ => raise (FEwrong_type_argument x)
    end);
  match y with
  | OFloat SF _ f => if eqb (fl_signbit f) negativep then mret y else mkcl_make_singlefloat (SFopp f)
  | OFloat DF _ f => if eqb (fl_signbit f) negativep then mret y else mkcl_make_doublefloat (SFopp f)
  | _ => raise (FEwrong_type_argument y)
  end.

Definition mk_cl_float_digits (x : obj) : M obj :=
  match x with
  | OFloat SF _ _ => mret (MKCL_MAKE_FIXNUM (mant_dig SF))
  | OFloat DF _ _ => mret (MKCL_MAKE_FIXNUM (mant_dig DF))
  | _ => raise (FEwrong_type_argument x)
  end.

Definition precision_kind (k : float_kind) (f : spec_float) : Z :=
  if SFeqb f fl_zero then 0
  else
    let exp := (fl_frexp k f).2 in
    if min_exp k <=? exp then mant_dig k else mant_dig k - (min_exp k - exp).

Definition mk_cl_float_precision (x : obj) : M obj :=
  match x with
  | OFloat SF _ f => mret (MKCL_MAKE_FIXNUM (precision_kind SF f))
  | OFloat DF _ f => mret (MKCL_MAKE_FIXNUM (precision_kind DF f))
  | _ => raise (FEwrong_type_argument x)
  end.

(** [frexp] in the type of the float, [ldexp] in [double]. *)
Definition integer_decode_kind (k : float_kind) (d : spec_float) : M (obj * obj * obj) :=
  let '(s, d) := if fl_signbit d then (-1, SFopp d) else (1, d) in
  if SFeqb d fl_zero then mret (MKCL_MAKE_FIXNUM 0, MKCL_MAKE_FIXNUM 0, MKCL_MAKE_FIXNUM s)
  else
    let '(d, e) := fl_frexp k d in
    x ← mkcl_double_to_integer (fl_ldexp DF d (mant_dig k));
    mret (x, MKCL_MAKE_FIXNUM (e - mant_dig k), MKCL_MAKE_FIXNUM s).

Definition mk_cl_integer_decode_float (x : obj) : M (obj * obj * obj) :=
  match x with
  | OFloat DF _ d => integer_decode_kind DF d
  | OFloat SF _ d => integer_decode_kind SF d
  | _ => raise (FEwrong_type_argument x)
  end.

(** ** Complex numbers *)

Definition mk_cl_complex (r : obj) (i : option obj) : M obj :=
  mkcl_make_complex r (default (MKCL_MAKE_FIXNUM 0) i).

Definition mk_cl_realpart (x : obj) : M obj :=
  match x with
  | OFix _ | OBig _ _ | ORatio _ _ _ | OFloat SF _ _ | OFloat DF _ _ => mret x
  | OComplex _ r _ => mret r
  | _ => raise (FEwrong_type_argument x)
  end.

Definition mk_cl_imagpart (x : obj) : M obj :=
  match x with
  | OFix _ | OBig _ _ | ORatio _ _ _ => mret (MKCL_MAKE_FIXNUM 0)
  | OFloat SF _ f => mret (float_zero SF (fl_signbit f))
  | OFloat DF _ f => mret (float_zero DF (fl_signbit f))
  | OComplex _ _ i => mret i
  | _ => raise (FEwrong_type_argument x)
  end.
End parts.
