(* ===== verification/NumFloatSpecs.v ===== *)
(** * NumFloatSpecs: the operations on floats that are exact, and floats taken apart *)

From S2P Require Import Prelude Words Objects Heap Numbers NumLog Lists Floats NumPred Arith ArithSpecs.
From S2P Require Import NumComp NumCompSpecs NumCo NumCoSpecs NumExpt ToFloat ToFloatSpecs.
From S2P Require Import NumFloat.
#[local] Open Scope Z_scope.

(** ** Mantissas *)

Definition bits_of (m : positive) : Z := Z.pos (digits2_pos m).

Lemma bits_of_bounds m : 2 ^ (bits_of m - 1) ≤ Z.pos m < 2 ^ bits_of m.
Proof.
  unfold bits_of. induction m as [m IH|m IH|]; [| |done]; cbn [digits2_pos]; rewrite Pos2Z.inj_succ;
    (replace (Z.succ (Z.pos (digits2_pos m)) - 1) with (Z.succ (Z.pos (digits2_pos m) - 1)) by lia);
    rewrite !Z.pow_succ_r by lia; lia.
Qed.

Lemma bits_of_unique m b : 2 ^ (b - 1) ≤ Z.pos m < 2 ^ b → bits_of m = b.
Proof.
  intros Hb. pose proof (bits_of_bounds m) as Hm. assert (0 < bits_of m) by done.
  assert (0 < b) by (destruct (Z.leb_spec b 0) as [Hle|]; [|done]; exfalso;
    assert (2 ^ b ≤ 2 ^ 0) by (by apply Z.pow_le_mono_r); simpl in *; lia).
  destruct (Z.lt_trichotomy (bits_of m) b) as [Hlt|[|Hlt]]; [|done|]; exfalso.
  - assert (2 ^ bits_of m ≤ 2 ^ (b - 1)) by (apply Z.pow_le_mono_r; lia). lia.
  - assert (2 ^ b ≤ 2 ^ (bits_of m - 1)) by (apply Z.pow_le_mono_r; lia). lia.
Qed.

(** [m * 2 ^ d] *)
Definition shifted (m : positive) (d : Z) : positive := Z.to_pos (Z.pos m * 2 ^ d).

Lemma shifted_eq m d : 0 ≤ d → Z.pos (shifted m d) = Z.pos m * 2 ^ d.
Proof. intros Hd. unfold shifted. rewrite Z2Pos.id; [done|]. assert (0 < 2 ^ d) by (by apply Z.pow_pos_nonneg). nia. Qed.

Lemma shifted_0 m : shifted m 0 = m.
Proof. unfold shifted. by rewrite Z.mul_1_r. Qed.

Lemma iter_shift m d : Pos.iter xO m d = shifted m (Z.pos d).
Proof.
  apply Pos2Z.inj. rewrite shifted_eq by done. induction d as [|d IH] using Pos.peano_ind; [simpl; lia|].
  rewrite Pos.iter_succ, Pos2Z.inj_succ, Z.pow_succ_r by lia. simpl. lia.
Qed.

Lemma bits_of_shifted m d : 0 ≤ d → bits_of (shifted m d) = bits_of m + d.
Proof.
  intros Hd. apply bits_of_unique. rewrite shifted_eq by done. pose proof (bits_of_bounds m).
  assert (0 < bits_of m) by done. assert (0 < 2 ^ d) by (by apply Z.pow_pos_nonneg).
  replace (bits_of m + d - 1) with (bits_of m - 1 + d) by lia. rewrite !Z.pow_add_r by lia. nia.
Qed.

(** ** Rounding that has nothing to round *)

Section exact.
Context (prec emax : Z) (Hprec : 1 < prec) (Hemax : prec < emax).

Lemma round_aux_canonical s m e :
  fexp prec emax (bits_of m + e) = e → e ≤ emax - prec →
  binary_round_aux prec emax s (Z.pos m) e loc_Exact = S754_finite s m e.
Proof.
  intros Hc He. unfold binary_round_aux, shr_fexp. cbn [Zdigits2 shr_record_of_loc]. fold (bits_of m). rewrite Hc, Z.sub_diag.
  cbn [shr shr_m loc_of_shr_record round_nearest_even Zdigits2]. fold (bits_of m). rewrite Hc, Z.sub_diag.
  cbn [shr shr_m]. by rewrite (proj2 (Z.leb_le e (emax - prec))).
Qed.

(** A number that fits is kept, with its mantissa as long as it can be. *)
Lemma round_fits s m e :
  let e' := fexp prec emax (bits_of m + e) in
  e' ≤ e → bits_of m + e ≤ emax → binary_round prec emax s m e = S754_finite s (shifted m (e - e')) e'.
Proof.
  intros e' He Hm. unfold binary_round. fold (bits_of m). fold e'.
  assert (shl_align m e e' = (shifted m (e - e'), e')) as ->.
  { unfold shl_align. destruct (e' - e) eqn:E; [|lia|].
    - replace e' with e by lia. by rewrite Z.sub_diag, shifted_0.
    - rewrite iter_shift. do 2 f_equal. lia. }
  apply round_aux_canonical.
  - rewrite bits_of_shifted by lia. by replace (bits_of m + (e - e') + e') with (bits_of m + e) by lia.
  - unfold e', fexp, emin. lia.
Qed.

Lemma shr_zeros p m : SpecFloat.iter_pos shr_1 p {| shr_m := Z.pos (shifted m (Z.pos p)); shr_r := false; shr_s := false |} =
  {| shr_m := Z.pos m; shr_r := false; shr_s := false |}.
Proof.
  revert m. induction p as [p IH|p IH|]; intros m; cbn [SpecFloat.iter_pos].
  - assert (shifted m (Z.pos p~1) = (shifted (shifted m (Z.pos p)) (Z.pos p))~0)%positive as ->.
    { apply Pos2Z.inj. rewrite Pos2Z.inj_xO, !shifted_eq by lia. replace (Z.pos p~1) with (1 + Z.pos p + Z.pos p) by lia.
      rewrite !Z.pow_add_r by lia. lia. }
    cbn [shr_1]. by rewrite !IH.
  - assert (shifted m (Z.pos p~0) = (shifted (shifted m (Z.pos p)) (Z.pos p)))%positive as ->.
    { apply Pos2Z.inj. rewrite !shifted_eq by lia. replace (Z.pos p~0) with (Z.pos p + Z.pos p) by lia.
      rewrite !Z.pow_add_r by lia. lia. }
    by rewrite !IH.
  - assert (shifted m 1 = m~0)%positive as ->; [|done]. apply Pos2Z.inj. rewrite Pos2Z.inj_xO, shifted_eq by lia. lia.
Qed.

(** A mantissa with zeros at the end is shifted back to the canonical one. *)
Lemma round_zeros s m e c :
  0 ≤ c → bounded prec emax m e = true → binary_round prec emax s (shifted m c) (e - c) = S754_finite s m e.
Proof.
  intros Hc [Hcan Hle]%andb_true_iff. apply Z.eqb_eq in Hcan. apply Z.leb_le in Hle. fold (bits_of m) in Hcan.
  unfold binary_round. fold (bits_of (shifted m c)). rewrite bits_of_shifted by done.
  replace (bits_of m + c + (e - c)) with (bits_of m + e) by lia. rewrite Hcan.
  assert (shl_align (shifted m c) (e - c) e = (shifted m c, e - c)) as ->.
  { unfold shl_align. by destruct (e - (e - c)) eqn:E; [|done|lia]. }
  unfold binary_round_aux. unfold shr_fexp at 1. cbn [Zdigits2 shr_record_of_loc]. fold (bits_of (shifted m c)).
  rewrite bits_of_shifted by done. replace (bits_of m + c + (e - c)) with (bits_of m + e) by lia. rewrite Hcan.
  replace (e - (e - c)) with c by lia.
  assert (shr {| shr_m := Z.pos (shifted m c); shr_r := false; shr_s := false |} (e - c) c =
    ({| shr_m := Z.pos m; shr_r := false; shr_s := false |}, e)) as ->.
  { destruct c as [|c|]; [|unfold shr; rewrite shr_zeros; f_equal; lia|lia]. unfold shr. rewrite shifted_0. f_equal. lia. }
  cbn [shr_m loc_of_shr_record round_nearest_even]. unfold shr_fexp. cbn [Zdigits2 shr_record_of_loc]. fold (bits_of m).
  rewrite Hcan, Z.sub_diag. cbn [shr shr_m]. by rewrite (proj2 (Z.leb_le e (emax - prec))).
Qed.
End exact.

(** ** The value of a float *)

Definition sf_value (f : spec_float) : Qc :=
  match f with
  | S754_finite s m e => (Qc_of_Z (cond_Zopp s (Z.pos m)) * qpow two e)%Qc
  | _ => 0%Qc
  end.

(** A float of type [k] that is not an infinity nor a NaN. *)
Definition is_float (k : float_kind) (f : spec_float) : Prop :=
  match f with
  | S754_finite _ m e => bounded (mant_dig k) (max_exp k) m e = true
  | S754_zero _ => True
  | _ => False
  end.

Lemma bounded_facts k m e :
  bounded (mant_dig k) (max_exp k) m e = true →
  fexp (mant_dig k) (max_exp k) (bits_of m + e) = e ∧ e ≤ max_exp k - mant_dig k ∧
  bits_of m ≤ mant_dig k ∧ 3 - max_exp k - mant_dig k ≤ e.
Proof.
  intros [Hcan Hle]%andb_true_iff. apply Z.eqb_eq in Hcan. apply Z.leb_le in Hle. fold (bits_of m) in Hcan.
  split_and!; [done..| |]; unfold fexp, emin in Hcan; lia.
Qed.

Lemma kind_bounds k : 1 < mant_dig k ∧ mant_dig k < max_exp k.
Proof. by destruct k. Qed.

(** The mantissa as an integer, with as many bits as the type has. *)
Lemma frexp_spec k s m e :
  bits_of m ≤ mant_dig k →
  fl_frexp k (S754_finite s m e) =
    (S754_finite s (shifted m (mant_dig k - bits_of m)) (- mant_dig k), e + bits_of m).
Proof.
  intros Hm. unfold fl_frexp, SFfrexp. fold (bits_of m). destruct (Z.leb_spec (mant_dig k) (bits_of m)).
  - replace (mant_dig k - bits_of m) with 0 by lia. rewrite shifted_0. f_equal. lia.
  - rewrite iter_shift. rewrite Z2Pos.id by lia. f_equal. lia.
Qed.

(** [ldexp] to an integer, in [double] for a [float] too. *)
Lemma ldexp_integer k s m c :
  k ≠ LF → bits_of m = mant_dig k → c = mant_dig k →
  fl_ldexp DF (S754_finite s m (- mant_dig k)) c = S754_finite s (shifted m (53 - mant_dig k)) (mant_dig k - 53).
Proof.
  intros Hk Hm ->. unfold fl_ldexp, SFldexp. replace (- mant_dig k + mant_dig k) with 0 by lia.
  rewrite (round_fits 53 1024); rewrite ?Hm; destruct k; try done.
Qed.

Lemma fl_trunc_scaled s m z e : 0 ≤ e → cond_Zopp s (Z.pos m) = z → fl_trunc (S754_finite s (shifted m e) (- e)) = z.
Proof.
  intros He <-. unfold fl_trunc. destruct (Z.leb_spec 0 (- e)).
  - replace e with 0 by lia. by rewrite shifted_0, Z.mul_1_r.
  - rewrite Z.opp_involutive, shifted_eq, Z.div_mul by (try apply Z.pow_nonzero; lia). done.
Qed.

(** ** Floats taken apart and put together *)

Lemma Qc_of_Z_0 : Qc_of_Z 0 = 0%Qc.
Proof. apply Z2Qc_inj_0. Qed.

Lemma Qc_of_Z_shifted s m c :
  0 ≤ c → Qc_of_Z (cond_Zopp s (Z.pos (shifted m c))) = (Qc_of_Z (cond_Zopp s (Z.pos m)) * qpow two c)%Qc.
Proof.
  intros Hc. rewrite shifted_eq, qpow_two_frac, <- Z2Qc_inj_mul by done. f_equal. unfold cond_Zopp. destruct s; lia.
Qed.

Lemma sf_value_shift s m c e :
  0 ≤ c → sf_value (S754_finite s (shifted m c) (e - c)) = sf_value (S754_finite s m e).
Proof.
  intros Hc. unfold sf_value. rewrite Qc_of_Z_shifted by done.
  replace (qpow two e) with (qpow two (c + (e - c))) by (f_equal; lia). rewrite qpow_add by apply two_ne. ring.
Qed.

(** A [float] as a [double]. *)
Lemma cvt_double f : is_float SF f → is_float DF (fl_cvt DF f) ∧ sf_value (fl_cvt DF f) = sf_value f.
Proof.
  destruct f as [s|s| |s m e]; [done..|]. intros (Hc & He & Hm & Hmin)%bounded_facts. cbn [mant_dig max_exp] in *. cbn [fl_cvt mant_dig max_exp].
  assert (0 < bits_of m) by done.
  assert (fexp 53 1024 (bits_of m + e) ≤ e) by (unfold fexp, emin in *; lia).
  rewrite round_fits by lia. set (e' := fexp 53 1024 (bits_of m + e)) in *. split.
  - apply andb_true_iff. split; [|apply Z.leb_le; unfold e', fexp, emin in *; simpl; lia].
    apply Z.eqb_eq. fold (bits_of (shifted m (e - e'))). rewrite bits_of_shifted by lia.
    by replace (bits_of m + (e - e') + e') with (bits_of m + e) by lia.
  - replace e' with (e - (e - e')) at 2 by lia. apply sf_value_shift. lia.
Qed.

Section float_facts.
Context `{!GMP, !GMPSpec, !GMPArith, !GMPArithSpec, !ToDouble, !Transcendental}.

(** A [double] that holds an integer with at most 53 bits. *)
Lemma double_to_integer_exact s m c h :
  0 ≤ c ≤ 53 → bits_of m ≤ 53 →
  mkcl_double_to_integer (S754_finite s (shifted m c) (- c)) h = Done (OFix (cond_Zopp s (Z.pos m))) h.
Proof.
  intros Hc Hm. unfold mkcl_double_to_integer.
  assert (in_fixnum_range DF (S754_finite s (shifted m c) (- c)) = true) as ->.
  { unfold in_fixnum_range.
    change (fl_of_Z DF MKCL_MOST_POSITIVE_FIXNUM) with (S754_finite false 4503599627370496 9).
    change (fl_of_Z DF MKCL_MOST_NEGATIVE_FIXNUM) with (S754_finite true 4503599627370496 9).
    unfold SFleb, SFcompare. destruct s, (Z.compare_spec (- c) 9), (Z.compare_spec 9 (- c)); try done; lia. }
  rewrite (fl_trunc_scaled s m _ c) by (done || lia). unfold MKCL_MAKE_FIXNUM. rewrite fixnum_wrap_small; [done|].
  pose proof (bits_of_bounds m). assert (2 ^ bits_of m ≤ 2 ^ 53) by (apply Z.pow_le_mono_r; lia). unfold_words. destruct s; simpl; lia.
Qed.

Lemma rational_of_double_exact n d h :
  is_float DF d → (9 ≤ n)%nat → gives (λ r, is_rat r (sf_value d)) (rational_of_double (S (S (S n))) d) h.
Proof.
  intros Hd Hn. destruct d as [s|s| |s m e]; [|done..|].
  { apply gives_ret. cbn [sf_value]. rewrite <- Qc_of_Z_0. apply is_rat_fix, fix_0. }
  apply bounded_facts in Hd as (Hc & He & Hm & Hmin). cbn [mant_dig max_exp] in *. assert (0 < bits_of m) by done.
  unfold rational_of_double. assert (SFeqb (S754_finite s m e) fl_zero = false) as -> by (by destruct s).
  rewrite frexp_spec by done. cbn [mant_dig].
  assert (bits_of (shifted m (53 - bits_of m)) = 53) as Hb by (rewrite bits_of_shifted; lia).
  rewrite (ldexp_integer DF s _ 53) by done. cbn [mant_dig]. rewrite Z.sub_diag.
  eapply gives_bind_Done; [apply (double_to_integer_exact s _ 0); lia|].
  set (z := cond_Zopp s (Z.pos (shifted m (53 - bits_of m)))).
  assert (is_int (OFix z) z) as Hz.
  { apply is_int_fix. pose proof (bits_of_bounds (shifted m (53 - bits_of m))) as Hbb. rewrite Hb in Hbb.
    unfold z. unfold_words. destruct s; simpl; lia. }
  assert (sf_value (S754_finite s m e) = (qpow two (e + bits_of m - 53) * Qc_of_Z z)%Qc) as ->.
  { unfold z. rewrite Qc_of_Z_shifted by lia. unfold sf_value.
    replace (qpow two e) with (qpow two (53 - bits_of m + (e + bits_of m - 53))) by (f_equal; lia).
    rewrite qpow_add by apply two_ne. ring. }
  destruct (Z.eqb_spec (e + bits_of m - 53) 0) as [E|E]; cbn [negb].
  { rewrite E, qpow_0, Qcmult_1_l. apply gives_ret. by apply is_rat_int. }
  assert (2 ^ 11 ≤ 2 ^ Z.of_nat (S (S n))) by (apply Z.pow_le_mono_r; lia).
  eapply gives_bind; [apply (expt_rat n (MKCL_MAKE_FIXNUM 2) _ two (e + bits_of m - 53))|].
  - apply is_rat_fix. unfold_words. lia.
  - apply is_int_MAKE_FIXNUM. unfold_words. lia.
  - lia.
  - left. apply two_ne.
  - intros p h2 Hp _. apply times_rat; [done|by apply is_rat_int].
Qed.

(** RATIONAL of a float is its exact value, and of a rational number the number. *)
Theorem rational_exact fuel x h :
  (12 ≤ fuel)%nat →
  (∀ p, is_rat x p → gives (λ r, is_rat r p) (mk_cl_rational fuel x) h) ∧
  (∀ k a f, x = OFloat k a f → k ≠ LF → is_float k f →
     gives (λ r, is_rat r (sf_value f)) (mk_cl_rational fuel x) h).
Proof.
  intros Hf. split.
  - intros p Hp. destruct (is_rat_cases _ _ Hp) as [(z & Hz & _)|(? & ? & ? & ? & ? & -> & _)]; [|by apply gives_ret].
    destruct (is_int_cases _ _ Hz) as [(i & ->)|(a & w & ->)]; by apply gives_ret.
  - intros k a f -> Hk Hff. destruct fuel as [|[|[|n]]]; [lia..|]. destruct k; [|apply rational_of_double_exact; [done|lia]|done].
    destruct (cvt_double f Hff) as [Hd <-]. apply rational_of_double_exact; [done|lia].
Qed.

(** ** INTEGER-DECODE-FLOAT *)

Definition sign_of (f : spec_float) : Z := if fl_signbit f then -1 else 1.

(** The integers a float is taken apart into. *)
Definition decoded (k : float_kind) (f : spec_float) : Z * Z :=
  match f with
  | S754_finite _ m e => (Z.pos (shifted m (mant_dig k - bits_of m)), e + bits_of m - mant_dig k)
  | _ => (0, 0)
  end.

Lemma integer_decode_eq k a f h :
  k ≠ LF → is_float k f →
  mk_cl_integer_decode_float (OFloat k a f) h =
    Done (OFix (decoded k f).1, OFix (decoded k f).2, OFix (sign_of f)) h.
Proof.
  intros Hk Hf. assert (mk_cl_integer_decode_float (OFloat k a f) = integer_decode_kind k f) as -> by by destruct k.
  destruct f as [s|s| |s m e]; [by destruct s|done..|]. apply bounded_facts in Hf as (Hc & He & Hm & Hmin).
  assert (0 < bits_of m) by done. unfold integer_decode_kind.
  assert ((if fl_signbit (S754_finite s m e) then (-1, SFopp (S754_finite s m e)) else (1, S754_finite s m e)) =
    (sign_of (S754_finite s m e), S754_finite false m e)) as -> by by destruct s.
  change (SFeqb (S754_finite false m e) fl_zero) with false. cbv iota. rewrite frexp_spec by done.
  assert (mant_dig k ≤ 53) by by destruct k.
  rewrite ldexp_integer; [|done|rewrite bits_of_shifted; lia|done].
  replace (mant_dig k - 53) with (- (53 - mant_dig k)) by lia.
  rewrite (bind_Done _ _ _ _ _ (double_to_integer_exact false (shifted m (mant_dig k - bits_of m)) (53 - mant_dig k) h ltac:(assert (0 < mant_dig k) by (by destruct k); lia)
    ltac:(rewrite bits_of_shifted by lia; lia))).
  unfold mret, M_ret, MKCL_MAKE_FIXNUM. rewrite !fixnum_wrap_small; [done|by unfold sign_of; destruct s|].
  unfold_words. destruct k; simpl in *; lia.
Qed.

Lemma decoded_value k f : is_float k f → sf_value f = (Qc_of_Z (sign_of f * (decoded k f).1) * qpow two (decoded k f).2)%Qc.
Proof.
  destruct f as [s|s| |s m e]; [|done..|].
  - intros _. cbn [decoded fst snd]. rewrite Z.mul_0_r, Qc_of_Z_0. unfold sf_value. by rewrite Qcmult_0_l.
  - intros (Hc & He & Hm & Hmin)%bounded_facts. cbn [decoded fst snd].
    rewrite <- (sf_value_shift s m (mant_dig k - bits_of m) e) by lia. unfold sf_value.
    f_equal; [f_equal; unfold sign_of; destruct s; simpl; lia|f_equal; lia].
Qed.

Lemma decoded_bounds k f : is_float k f → 0 ≤ (decoded k f).1 < 2 ^ mant_dig k ∧ -20000 ≤ (decoded k f).2 ≤ 20000.
Proof.
  destruct f as [s|s| |s m e]; [|done..|].
  - intros _. simpl. split; [|lia]. split; [lia|]. apply Z.pow_pos_nonneg; [lia|by destruct k].
  - intros (Hc & He & Hm & Hmin)%bounded_facts. cbn [decoded fst snd]. assert (0 < bits_of m) by done.
    pose proof (bits_of_bounds (shifted m (mant_dig k - bits_of m))) as Hb. rewrite bits_of_shifted in Hb by lia.
    replace (bits_of m + (mant_dig k - bits_of m)) with (mant_dig k) in Hb by lia.
    split; [lia|]. destruct k; cbn [mant_dig max_exp] in *; lia.
Qed.

Lemma make_float_gives k f h : gives (λ r, ∃ b, r = OFloat k b f) (make_float k f) h.
Proof. destruct (make_float_spec k f h) as (b & h' & E & Hs). exists (OFloat k b f), h'. split; [done|]. split; [by exists b|done]. Qed.

(** FLOAT of a fixnum in the type of a float. *)
Lemma float_fixnum fuel k a f z h :
  k ≠ LF → gives (λ r, ∃ b, r = OFloat k b (fl_of_Z k z)) (mk_cl_float fuel (OFix z) (Some (OFloat k a f))) h.
Proof. intros Hk. destruct k; [apply (make_float_gives SF)|apply (make_float_gives DF)|done]. Qed.

Lemma scale_gives k a f e h :
  k ≠ LF → - 2 ^ 31 ≤ e < 2 ^ 31 →
  gives (λ r, ∃ b, r = OFloat k b (fl_ldexp k f e)) (mk_cl_scale_float (OFloat k a f) (OFix e)) h.
Proof.
  intros Hk He. assert (int_wrap e = e) as Hw by (unfold int_wrap; rewrite Z.mod_small; lia).
  destruct k; [..|done]; cbn [mk_cl_scale_float]; rewrite Hw; apply make_float_gives.
Qed.

Lemma float_sign_gives fuel k a b f g h :
  k ≠ LF → gives (λ r, ∃ c, r = OFloat k c (if eqb (fl_signbit g) (fl_signbit f) then g else SFopp g))
    (mk_cl_float_sign fuel (OFloat k a f) (Some (OFloat k b g))) h.
Proof.
  intros Hk. eapply gives_bind; [by apply float_fixnum|]. intros one h1 _ _.
  destruct k; [..|done]; (eapply gives_bind_Done; [done|]; unfold default; cbn [from_option id];
    destruct (eqb _ _); [apply gives_ret; by exists b|apply make_float_gives]).
Qed.

(** The magnitude of a float from the integers it is taken apart into. *)
Lemma decoded_rebuild k f :
  k ≠ LF → is_float k f →
  fl_ldexp k (fl_of_Z k (decoded k f).1) (decoded k f).2 = SFabs f.
Proof.
  intros Hk. destruct f as [s|s| |s m e]; [by destruct k|done..|]. intros Hf.
  pose proof Hf as (Hc & He & Hm & Hmin)%bounded_facts. destruct (kind_bounds k) as [Hp Hpe]. cbn [decoded fst snd].
  assert (0 < bits_of m) by done. set (c := mant_dig k - bits_of m).
  assert (bits_of (shifted m c) = mant_dig k) as Hb by (unfold c; rewrite bits_of_shifted; lia).
  assert (fexp (mant_dig k) (max_exp k) (bits_of (shifted m c) + 0) = 0) as Hz by (rewrite Hb; unfold fexp, emin; lia).
  assert (fl_of_Z k (Z.pos (shifted m c)) = S754_finite false (shifted m c) 0) as ->.
  { unfold fl_of_Z, binary_normalize. rewrite round_fits by (try done; rewrite ?Hz, ?Hb; lia). by rewrite Hz, Z.sub_diag, shifted_0. }
  unfold fl_ldexp, SFldexp. replace (0 + (e + bits_of m - mant_dig k)) with (e - c) by (unfold c; lia).
  rewrite round_zeros; [done|unfold c; lia|done].
Qed.

(** C24: INTEGER-DECODE-FLOAT gives integers [m], [e] and [s] such that the float is
    [s * m * 2 ^ e], and FLOAT, SCALE-FLOAT and FLOAT-SIGN make the same float from
    them, the zeros with their signs and the numbers below the normal range included. *)
Theorem decode_roundtrip fuel k a f h :
  k ≠ LF → is_float k f →
  ∃ m e s,
    mk_cl_integer_decode_float (OFloat k a f) h = Done (OFix m, OFix e, OFix s) h ∧
    0 ≤ m < 2 ^ mant_dig k ∧ (s = 1 ∨ s = -1) ∧ sf_value f = (Qc_of_Z (s * m) * qpow two e)%Qc ∧
    gives (λ r, ∃ b, r = OFloat k b f)
      (y ← mk_cl_float fuel (OFix m) (Some (OFloat k a f));
       z ← mk_cl_scale_float y (OFix e);
       mk_cl_float_sign fuel (OFloat k a f) (Some z)) h.
Proof.
  intros Hk Hf. exists (decoded k f).1, (decoded k f).2, (sign_of f). destruct (decoded_bounds k f Hf) as [Hm He].
  split_and!; [by apply integer_decode_eq|apply Hm..|unfold sign_of; destruct (fl_signbit f); auto|by apply decoded_value|].
  eapply gives_bind; [by apply float_fixnum|]. intros y h1 (b & ->) _.
  eapply gives_bind; [apply scale_gives; [done|lia]|]. intros z h2 (c & ->) _.
  rewrite decoded_rebuild by done. eapply gives_mono; [by apply float_sign_gives|]. intros r (d & ->). exists d. f_equal.
  destruct f as [[]|[]| |[] m e]; try done.
Qed.
End float_facts.
