(* ===== verification/NumSfun.v ===== *)
(** * NumSfun: the irrational functions, src/src/c/num_sfun.c

    The functions of the C library are the interface [LibM]; [sqrt] is the one with
    correct rounding that IEEE 754 asks for.

    [mkcl_log1] and [mk_cl_exp] are used by EXPT, EXPT by RATIONAL and that by the
    comparison of numbers, which the functions here call in turn.
    [transcendental_within] ties the knot: its instances of [Transcendental] allow that
    many of these calls inside each other.  In this file the functions call each other
    on parts of complex numbers, and [fuel] bounds the depth of these calls.

    MKCL_MATHERR_CLEAR and MKCL_MATHERR_TEST are empty where <fenv.h> has
    feenableexcept (src/src/c/mkcl/mkcl-math.h), and the exceptions are disabled. *)

From S2P Require Import Prelude Words Objects Heap Numbers NumLog Floats Lists NumPred Arith NumComp NumCo ToFloat NumFloat.
#[local] Open Scope Z_scope.

(** One function for each of the types [float] and [double]. *)
Class LibM := {
  c_exp : float_kind → spec_float → spec_float;
  c_log : float_kind → spec_float → spec_float;
  c_log1p : float_kind → spec_float → spec_float;
  c_sin : float_kind → spec_float → spec_float;
  c_cos : float_kind → spec_float → spec_float;
  c_tan : float_kind → spec_float → spec_float;
  c_sinh : float_kind → spec_float → spec_float;
  c_cosh : float_kind → spec_float → spec_float;
  c_tanh : float_kind → spec_float → spec_float;
  c_atan : spec_float → spec_float;
}.

Definition c_sqrt (k : float_kind) : spec_float → spec_float := SFsqrt (mant_dig k) (max_exp k).

Definition MKCL_PI_D : spec_float := S754_finite false 7074237752028440 (-51).
Definition MKCL_PI2_D : spec_float := S754_finite false 7074237752028440 (-52).

Definition fl_isnan (f : spec_float) : bool := match f with S754_nan => true | _ => false end.

(** [mkcl_core.imag_unit] and [mkcl_core.minus_imag_unit] *)
Definition imag_unit : obj := OComplex (-18) (float_zero SF false) (OFloat SF (-17) (S754_finite false 8388608 (-23))).
Definition minus_imag_unit : obj := OComplex (-20) (float_zero SF false) (OFloat SF (-19) (S754_finite true 8388608 (-23))).

Section functions.
Context `{!GMP, !GMPArith, !ToDouble, !LibM}.

(** A function of a real number: rational numbers go through [double] to [float]. *)
Definition real_function (f : float_kind → spec_float → spec_float) (x : obj) : M obj :=
  match x with
  | OFix _ | OBig _ _ | ORatio _ _ _ => d ← to_double x; mkcl_make_singlefloat (f SF (fl_cvt SF d))
  | OFloat SF _ v => mkcl_make_singlefloat (f SF v)
  | OFloat DF _ v => mkcl_make_doublefloat (f DF v)
  | _ => raise (FEwrong_type_argument x)
  end.

(** ** Exponential, trigonometric and hyperbolic functions *)

Fixpoint mk_cl_sin (fuel : nat) (x : obj) : M obj :=
  match fuel with
  | O => diverge
  | S n =>
      match x with
      | OComplex _ dx dy =>
          s ← mk_cl_sin n dx; c ← mk_cl_cosh n dy; a ← mkcl_times fuel s c;
          c ← mk_cl_cos n dx; s ← mk_cl_sinh n dy; b ← mkcl_times fuel c s;
          mkcl_make_complex a b
      | _ => real_function c_sin x
      end
  end
with mk_cl_cos (fuel : nat) (x : obj) : M obj :=
  match fuel with
  | O => diverge
  | S n =>
      match x with
      | OComplex _ dx dy =>
          c ← mk_cl_cos n dx; d ← mk_cl_cosh n dy; a ← mkcl_times fuel c d;
          s ← mk_cl_sin n dx; s ← mkcl_negate s; d ← mk_cl_sinh n dy; b ← mkcl_times fuel s d;
          mkcl_make_complex a b
      | _ => real_function c_cos x
      end
  end
with mk_cl_sinh (fuel : nat) (x : obj) : M obj :=
  match fuel with
  | O => diverge
  | S n =>
      match x with
      | OComplex _ dx dy =>
          s ← mk_cl_sinh n dx; c ← mk_cl_cos n dy; a ← mkcl_times fuel s c;
          c ← mk_cl_cosh n dx; s ← mk_cl_sin n dy; b ← mkcl_times fuel c s;
          mkcl_make_complex a b
      | _ => real_function c_sinh x
      end
  end
with mk_cl_cosh (fuel : nat) (x : obj) : M obj :=
  match fuel with
  | O => diverge
  | S n =>
      match x with
      | OComplex _ dx dy =>
          c ← mk_cl_cosh n dx; d ← mk_cl_cos n dy; a ← mkcl_times fuel c d;
          s ← mk_cl_sinh n dx; t ← mk_cl_sin n dy; b ← mkcl_times fuel s t;
          mkcl_make_complex a b
      | _ => real_function c_cosh x
      end
  end.

Fixpoint exp (fuel : nat) (x : obj) : M obj :=
  match fuel with
  | O => diverge
  | S n =>
      match x with
      | OComplex _ real y =>
          output ← exp n real;
          y1 ← mk_cl_cos n y;
          y ← mk_cl_sin n y;
          y ← mkcl_make_complex y1 y;
          mkcl_times fuel output y
      | _ => real_function c_exp x
      end
  end.

(** [safe_tanf] is [tan] in [double], for rational numbers and single floats. *)
Definition safe_tanf (d : spec_float) : spec_float := c_tan DF d.

Definition mk_cl_tan (fuel : nat) (x : obj) : M obj :=
  match x with
  | OFix _ | OBig _ _ | ORatio _ _ _ => d ← to_double x; mkcl_make_singlefloat (fl_cvt SF (safe_tanf d))
  | OFloat SF _ v => mkcl_make_singlefloat (fl_cvt SF (safe_tanf (fl_cvt DF v)))
  | OFloat DF _ v => mkcl_make_doublefloat (c_tan DF v)
  | OComplex _ _ _ => a ← mk_cl_sin fuel x; b ← mk_cl_cos fuel x; mkcl_divide fuel a b
  | _ => raise (FEwrong_type_argument x)
  end.

Definition mk_cl_tanh (fuel : nat) (x : obj) : M obj :=
  match x with
  | OComplex _ _ _ => a ← mk_cl_sinh fuel x; b ← mk_cl_cosh fuel x; mkcl_divide fuel a b
  | _ => real_function c_tanh x
  end.

(** ** Arc tangent *)

Definition mkcl_atan2_double (y x : spec_float) : spec_float :=
  if fl_signbit x then
    if fl_signbit y then fl_add DF (SFopp MKCL_PI_D) (c_atan (fl_div DF (SFopp y) (SFopp x)))
    else if SFeqb y fl_zero then MKCL_PI_D
    else fl_sub DF MKCL_PI_D (c_atan (fl_div DF y (SFopp x)))
  else if SFeqb x fl_zero then
    if fl_signbit y then SFopp MKCL_PI2_D
    else if SFeqb y fl_zero then fl_div DF x y
    else MKCL_PI2_D
  else
    if fl_signbit y then SFopp (c_atan (fl_div DF (SFopp y) x))
    else if SFeqb y fl_zero then fl_zero
    else c_atan (fl_div DF y x).

Definition mkcl_atan2 (y x : obj) : M obj :=
  dy ← to_double y;
  dx ← to_double x;
  let dz := mkcl_atan2_double dy dx in
  if bool_decide (mkcl_type_of x = mkcl_t_doublefloat) || bool_decide (mkcl_type_of y = mkcl_t_doublefloat)
  then mkcl_make_doublefloat dz
  else mkcl_make_singlefloat (fl_cvt SF dz).
End functions.

(** ** Absolute value, square root and logarithm *)

Section logarithms.
Context `{!GMP, !GMPArith, !ToDouble, !LibM, !Transcendental}.

(** [mkcl_log1_complex] of [r] and [i], with the logarithms [log1] and [log1p]. *)
Definition log1_complex_with (log1 log1p : obj → M obj) (fuel : nat) (r i a p : obj) : M obj :=
  rel ← mkcl_number_compare fuel a p;
  if rel =? 0 then
    a ← mkcl_times fuel a a;
    s ← mkcl_plus fuel a a;
    l ← log1 s;
    a ← mkcl_divide fuel l (MKCL_MAKE_FIXNUM 2);
    mkcl_make_complex a (MKCL_MAKE_FIXNUM 0)
  else
    let '(a, p) := if 0 <? rel then (p, a) else (a, p) in
    a ← mkcl_divide fuel a p;
    t ← mkcl_times fuel a a;
    u ← log1p t;
    h ← mkcl_divide fuel u (MKCL_MAKE_FIXNUM 2);
    l ← log1 p;
    a ← mkcl_plus fuel h l;
    p ← mkcl_atan2 i r;
    mkcl_make_complex a p.

(** The labels FIXNUM to DOUBLE of [mk_cl_sqrt], for a real number that is not negative. *)
Definition real_sqrt (x : obj) : M obj := real_function c_sqrt x.

(** [mk_cl_sqrt], [mkcl_abs], [mkcl_log1] and [mkcl_log1p] call each other, the first
    through [mk_cl_expt], which is given the logarithm of its own. *)
Fixpoint mk_cl_sqrt (fuel : nat) (x : obj) : M obj :=
  match fuel with
  | O => diverge
  | S n =>
      match x with
      | OComplex _ _ _ =>
          z ← mkcl_make_ratio (MKCL_MAKE_FIXNUM 1) (MKCL_MAKE_FIXNUM 2);
          mk_cl_expt fuel x z
      | _ =>
          if negb (MKCL_NUMBER_TYPE_P (mkcl_type_of x)) then raise (FEwrong_type_argument x)
          else
            minus ← mkcl_minusp x;
            if (minus : bool) then
              y ← mkcl_negate x;
              z ← mk_cl_sqrt n y;
              mkcl_make_complex (MKCL_MAKE_FIXNUM 0) z
            else real_sqrt x
      end
  end.

Definition mkcl_abs (fuel : nat) (x : obj) : M obj :=
  match x with
  | OComplex _ r i =>
      r ← without_sign r;
      i ← without_sign i;
      comparison ← mkcl_number_compare fuel r i;
      if comparison =? 0 then
        r ← mkcl_times fuel r r;
        s ← mkcl_plus fuel r r;
        mk_cl_sqrt fuel s
      else
        let '(r, i) := if 0 <? comparison then (i, r) else (r, i) in
        r ← mkcl_divide fuel r i;
        t ← mkcl_times fuel r r;
        r ← mkcl_plus fuel (MKCL_MAKE_FIXNUM 1) t;
        q ← mk_cl_sqrt fuel r;
        mkcl_times fuel q i
  | _ => without_sign x
  end.

Definition mk_cl_abs (fuel : nat) (x : obj) : M obj := mkcl_abs fuel x.

Fixpoint log1 (fuel : nat) (x : obj) : M obj :=
  match fuel with
  | O => diverge
  | S n =>
      let log1_complex r i := a ← mkcl_abs fuel r; p ← mkcl_abs fuel i; log1_complex_with (log1 n) (log1p n) fuel r i a p in
      let complex := log1_complex x (MKCL_MAKE_FIXNUM 0) in
      match x with
      | OFix _ | ORatio _ _ _ =>
          f ← mkcl_to_float fuel x;
          if SFltb f fl_zero then complex else mkcl_make_singlefloat (c_log SF f)
      | OBig _ _ =>
          len ← mkcl_integer_length x;
          let l := len - 1 in
          p ← mkcl_ash (MKCL_MAKE_FIXNUM 1) l;
          r ← mkcl_make_ratio x p;
          f ← mkcl_to_float fuel r;
          let d := fl_add SF (c_log SF f) (fl_mul SF (fl_of_Z SF l) (c_log SF (fl_of_Z SF 2))) in
          if SFltb d fl_zero then complex else mkcl_make_singlefloat d
      | OFloat SF _ f =>
          if fl_isnan f then mret x else if SFltb f fl_zero then complex else mkcl_make_singlefloat (c_log SF f)
      | OFloat DF _ f =>
          if fl_isnan f then mret x else if SFltb f fl_zero then complex else mkcl_make_doublefloat (c_log DF f)
      | OComplex _ r i => log1_complex r i
      | _ => raise (FEwrong_type_argument x)
      end
  end
with log1p (fuel : nat) (x : obj) : M obj :=
  match fuel with
  | O => diverge
  | S n =>
      let complex :=
        r ← mkcl_plus fuel x (MKCL_MAKE_FIXNUM 1);
        let i := MKCL_MAKE_FIXNUM 0 in
        a ← mkcl_abs fuel r; p ← mkcl_abs fuel i; log1_complex_with (log1 n) (log1p n) fuel r i a p in
      let below k f := SFltb f (fl_of_Z k (-1)) in
      match x with
      | OFix _ | OBig _ _ | ORatio _ _ _ =>
          d ← to_double x;
          let f := fl_cvt SF d in
          if below SF f then complex
          else d ← to_double x; mkcl_make_singlefloat (c_log1p SF (fl_cvt SF d))
      | OFloat SF _ f =>
          if fl_isnan f then mret x else if below SF f then complex else mkcl_make_singlefloat (c_log1p SF f)
      | OFloat DF _ f =>
          if fl_isnan f then mret x else if below DF f then complex else mkcl_make_doublefloat (c_log1p DF f)
      | OComplex _ _ _ => z ← mkcl_plus fuel (MKCL_MAKE_FIXNUM 1) x; log1 n z
      | _ => raise (FEwrong_type_argument x)
      end
  end.

Definition log1_complex (fuel : nat) (r i : obj) : M obj :=
  a ← mkcl_abs fuel r; p ← mkcl_abs fuel i; log1_complex_with (log1 fuel) (log1p fuel) fuel r i a p.

Definition mk_si_log1p (fuel : nat) (x : obj) : M obj := log1p fuel x.

Definition mkcl_log2 (fuel : nat) (x y : obj) : M obj :=
  a ← log1 fuel y; b ← log1 fuel x; mkcl_divide fuel a b.

Definition mk_cl_log (fuel : nat) (x : obj) (y : option obj) : M obj :=
  match y with None => log1 fuel x | Some y => mkcl_log2 fuel y x end.

Definition mkcl_atan1 (fuel : nat) (y : obj) : M obj :=
  match y with
  | OComplex _ _ _ =>
      z ← mkcl_times fuel imag_unit y;
      z ← mkcl_one_plus fuel z;
      z1 ← mkcl_times fuel y y;
      z1 ← mkcl_one_plus fuel z1;
      z1 ← mk_cl_sqrt fuel z1;
      z ← mkcl_divide fuel z z1;
      z ← log1 fuel z;
      mkcl_times fuel minus_imag_unit z
  | _ => mkcl_atan2 y (MKCL_MAKE_FIXNUM 1)
  end.

Definition mk_cl_atan (fuel : nat) (x : obj) (y : option obj) : M obj :=
  match y with None => mkcl_atan1 fuel x | Some y => mkcl_atan2 x y end.
End logarithms.

Fixpoint transcendental_within `{!GMP, !GMPArith, !ToDouble, !LibM} (n : nat) : Transcendental :=
  match n with
  | O => {| mkcl_log1 _ := diverge; mk_cl_exp _ := diverge |}
  | S n => {| mkcl_log1 := @log1 _ _ _ _ (transcendental_within n) (S n); mk_cl_exp := exp (S n) |}
  end.
