(* ===== verification/Rand.v ===== *)
(** * Rand: random numbers, src/src/c/num_rand.c

    A random state is the Mersenne Twister's array of 624 words of 32 bits, each in an
    unsigned long, and the index of the next one to use in a word more.  The C code
    keeps it in the bytes of a string that no other object shares; here the state is
    passed along. *)

From S2P Require Import Prelude Words Objects Heap Numbers NumLog Lists Floats NumPred Arith ArithSpecs.
From S2P Require Import NumComp NumCompSpecs NumCo NumCoSpecs ToFloatSpecs.
#[local] Open Scope Z_scope.

Definition MT_N : nat := 624.
Definition MT_M : nat := 397.
Definition MATRIX_A : Z := 0x9908b0df.
Definition UPPER_MASK : Z := 0x80000000.
Definition LOWER_MASK : Z := 0x7fffffff.

(** [mkcl_init_random_state]: from words of /dev/urandom, or from [rand] and [time] when
    it cannot be read. *)
Definition init_from_words (words : list Z) : list Z :=
  map (λ w, Z.land w 0xffffffff) words ++ [Z.of_nat MT_N + 1].

Definition init_word (prev : Z) (j : nat) : Z :=
  Z.land (uwrap (1812433253 * Z.lxor prev (Z.shiftr prev 30) + Z.of_nat j)) 0xffffffff.

Fixpoint init_words (n : nat) (prev : Z) (j : nat) : list Z :=
  match n with
  | O => []
  | S n => let w := init_word prev j in w :: init_words n w (S j)
  end.

Definition init_from_time (seed : Z) : list Z :=
  let w := Z.land seed 0xffffffff in
  (w :: init_words (MT_N - 1) w 1) ++ [Z.of_nat MT_N + 1].

(** ** The generator *)

Definition mag01 (b : Z) : Z := if b =? 0 then 0 else MATRIX_A.

(** The new word from [mt[kk]], [mt[kk+1]] and the word [MT_M] further. *)
Definition twist (u l m : Z) : Z :=
  let y := Z.lor (Z.land u UPPER_MASK) (Z.land l LOWER_MASK) in
  Z.lxor (Z.lxor m (Z.shiftr y 1)) (mag01 (Z.land y 1)).

Definition refresh_word (next far kk : nat) (mt : list Z) : list Z :=
  <[kk := twist (mt !!! kk) (mt !!! next) (mt !!! far)]> mt.

(** The three parts of the refresh. *)
Definition refresh (mt : list Z) : list Z :=
  let mt := foldl (λ mt kk, refresh_word (kk + 1) (kk + MT_M) kk mt) mt (seq 0 (MT_N - MT_M)) in
  let mt := foldl (λ mt kk, refresh_word (kk + 1) (kk + MT_M - MT_N) kk mt) mt (seq (MT_N - MT_M) (MT_M - 1)) in
  refresh_word 0 (MT_M - 1) (MT_N - 1) mt.

Definition temper (y : Z) : Z :=
  let y := Z.lxor y (Z.shiftr y 11) in
  let y := Z.lxor y (Z.land (uwrap (Z.shiftl y 7)) 0x9d2c5680) in
  let y := Z.lxor y (Z.land (uwrap (Z.shiftl y 15)) 0xefc60000) in
  Z.lxor y (Z.shiftr y 18).

Definition generate_int32 (mt : list Z) : Z * list Z :=
  let mt := if Z.of_nat MT_N <=? mt !!! MT_N then <[MT_N := 0]> (refresh mt) else mt in
  let i := mt !!! MT_N in
  (temper (mt !!! Z.to_nat i), <[MT_N := i + 1]> mt).

(** [generate_int32(state) * (1.0 / 4294967296.0)] *)
Definition generate_double (mt : list Z) : spec_float * list Z :=
  let '(y, mt) := generate_int32 mt in
  (fl_mul DF (fl_of_Z DF y) (fl_div DF (fl_of_Z DF 1) (fl_of_Z DF 4294967296)), mt).

(** The high half first. *)
Definition generate_limb (mt : list Z) : Z * list Z :=
  let '(high, mt) := generate_int32 mt in
  let '(low, mt) := generate_int32 mt in
  (Z.lor (uwrap (Z.shiftl high 32)) low, mt).

(** [n] limbs from the most significant one, and the value of the number they make. *)
Fixpoint generate_limbs (n : nat) (mt : list Z) : Z * list Z :=
  match n with
  | O => (0, mt)
  | S n =>
      let '(limb, mt) := generate_limb mt in
      let '(z, mt) := generate_limbs n mt in
      (limb * 2 ^ (64 * Z.of_nat n) + z, mt)
  end.

(** ** Random integers and floats *)

Section random.
Context `{!GMP, !GMPArith, !ToDouble}.

(** The limbs of a bignum are overwritten in place.  When the first one is zero the
    bignum is not in the form GMP asks for, and the division is left open. *)
Definition random_integer (fuel : nat) (limit : obj) (state : list Z) : M (obj * list Z) :=
  bit_length ← mkcl_integer_length limit;
  let bit_length := if bit_length <=? MKCL_WORD_BITS then MKCL_WORD_BITS else bit_length in
  buffer ← mkcl_ash (MKCL_MAKE_FIXNUM 1) bit_length;
  match buffer with
  | OBig a z =>
      let size := Z.abs (mp_size z) in
      let '(z, state) := generate_limbs (Z.to_nat size) state in
      if z <? 2 ^ (64 * (size - 1)) then raise Segfault
      else r ← mk_cl_mod fuel (OBig a z) limit; mret (r, state)
  | _ => raise Segfault
  end.

Definition rando (fuel : nat) (x : obj) (rs : list Z) : M (obj * list Z) :=
  plus ← mkcl_plusp x;
  if negb plus then raise (FEwrong_type_argument x)
  else
    match x with
    | OFix _ | OBig _ _ => random_integer fuel x rs
    | OFloat SF _ f =>
        let '(d, rs) := generate_double rs in
        z ← mkcl_make_singlefloat (fl_mul SF f (fl_cvt SF d)); mret (z, rs)
    | OFloat DF _ f =>
        let '(d, rs) := generate_double rs in
        z ← mkcl_make_doublefloat (fl_mul DF f d); mret (z, rs)
    | _ => raise (FEwrong_type_argument x)
    end.
End random.

(** ** The sequence of the generator

    The reference: words of 32 bits by their bits.  The next word of the Mersenne
    Twister takes the top bit of a word and the low bits of the one after it, shifted
    down by one, and adds the word [MT_M] further, and [MATRIX_A] if the lowest bit was
    set.  A window of [MT_N] words slides over the sequence. *)

Fixpoint bits_value (n : nat) (f : nat → bool) : Z :=
  match n with
  | O => 0
  | S n => 2 * bits_value n (λ i, f (S i)) + Z.b2z (f O)
  end.

Definition bit (z : Z) (i : nat) : bool := Z.testbit z (Z.of_nat i).

Definition next_word (u l m : Z) : Z :=
  bits_value 32 (λ i,
    xorb (bit m i)
      (xorb (if (i =? 31)%nat then false else if (i =? 30)%nat then bit u 31 else bit l (S i))
        (bit l 0 && bit MATRIX_A i))).

Definition slide (window : list Z) : list Z :=
  tail window ++ [next_word (window !!! 0%nat) (window !!! 1%nat) (window !!! MT_M)].

(** The [n]th word of the sequence that begins with the window. *)
Definition twister (window : list Z) (n : nat) : Z := Nat.iter n slide window !!! 0%nat.

(** The number that is drawn for a word. *)
Definition tempered (y : Z) : Z :=
  let low (f : nat → bool) (k i : nat) := (k <=? i)%nat && f (i - k)%nat in
  let high (f : nat → bool) (k i : nat) := (i + k <? 32)%nat && f (i + k)%nat in
  let f := λ i, xorb (bit y i) (high (bit y) 11%nat i) in
  let g := λ i, xorb (f i) (low f 7%nat i && bit 0x9d2c5680 i) in
  let k := λ i, xorb (g i) (low g 15%nat i && bit 0xefc60000 i) in
  bits_value 32 (λ i, xorb (k i) (high k 18%nat i)).

(** The words that a seed makes. *)
Fixpoint seed_word (seed : Z) (j : nat) : Z :=
  match j with
  | O => seed mod 2 ^ 32
  | S i => let w := seed_word seed i in (1812433253 * Z.lxor w (w / 2 ^ 30) + Z.of_nat j) mod 2 ^ 32
  end.

(** [n] numbers, one after the other. *)
Fixpoint generate_words (n : nat) (mt : list Z) : list Z * list Z :=
  match n with
  | O => ([], mt)
  | S n =>
      let '(y, mt) := generate_int32 mt in
      let '(ys, mt) := generate_words n mt in
      (y :: ys, mt)
  end.

(** ** The random numbers are in range *)

(** ** Words of 32 bits *)

Definition is_u32 (z : Z) : Prop := 0 ≤ z < 2 ^ 32.

Lemma u32_iff z : is_u32 z ↔ 0 ≤ z ∧ Z.shiftr z 32 = 0.
Proof.
  unfold is_u32. rewrite Z.shiftr_div_pow2 by lia. split; intros [H1 H2]; (split; [done|]).
  - by apply Z.div_small.
  - pose proof (Z.div_mod z (2 ^ 32) ltac:(lia)). pose proof (Z.mod_pos_bound z (2 ^ 32) ltac:(lia)). lia.
Qed.

Lemma u32_lxor a b : is_u32 a → is_u32 b → is_u32 (Z.lxor a b).
Proof.
  rewrite !u32_iff. intros [Ha Ha'] [Hb Hb']. rewrite Z.shiftr_lxor, Ha', Hb'. split; [by apply Z.lxor_nonneg|done].
Qed.

Lemma u32_lor a b : is_u32 a → is_u32 b → is_u32 (Z.lor a b).
Proof. rewrite !u32_iff. intros [Ha Ha'] [Hb Hb']. rewrite Z.shiftr_lor, Ha', Hb'. split; [by apply Z.lor_nonneg|done]. Qed.

Lemma u32_land a b : is_u32 b → is_u32 (Z.land a b).
Proof.
  rewrite !u32_iff. intros [Hb Hb']. rewrite Z.shiftr_land, Hb', Z.land_0_r. split; [by apply Z.land_nonneg; right|done].
Qed.

Lemma u32_shiftr a n : 0 ≤ n → is_u32 a → is_u32 (Z.shiftr a n).
Proof.
  intros Hn. rewrite !u32_iff. intros [Ha Ha']. split; [by apply Z.shiftr_nonneg|].
  rewrite Z.shiftr_shiftr, Z.add_comm, <- Z.shiftr_shiftr, Ha' by lia. apply Z.shiftr_0_l.
Qed.

Lemma u32_mask m : (0 <=? m) && (m <? 2 ^ 32) = true → is_u32 m.
Proof. intros [?%Z.leb_le ?%Z.ltb_lt]%andb_true_iff. done. Qed.

Create HintDb u32.
#[local] Hint Resolve u32_lxor u32_lor u32_land u32_shiftr : u32.
#[local] Hint Extern 1 (is_u32 _) => (apply u32_mask; reflexivity) : u32.
#[local] Hint Extern 1 (0 ≤ _) => lia : u32.

Lemma twist_u32 u l m : is_u32 u → is_u32 l → is_u32 m → is_u32 (twist u l m).
Proof. intros Hu Hl Hm. unfold twist, mag01, UPPER_MASK, LOWER_MASK, MATRIX_A. destruct (_ =? _); auto 10 with u32. Qed.

Lemma temper_u32 y : is_u32 y → is_u32 (temper y).
Proof. intros Hy. unfold temper. auto 20 with u32. Qed.

(** ** Bits *)

Lemma bits_value_bit n f i : bit (bits_value n f) i = (i <? n)%nat && f i.
Proof.
  unfold bit. revert f i. induction n as [|n IH]; intros f i; [apply Z.bits_0|]. cbn [bits_value].
  destruct i as [|i]; [apply Z.testbit_0_r|]. rewrite Nat2Z.inj_succ, Z.testbit_succ_r, IH by lia. done.
Qed.

Lemma u32_high z i : is_u32 z → (32 ≤ i)%nat → bit z i = false.
Proof.
  intros [Hz Hu] Hi. unfold bit. rewrite Z.testbit_eqb, Z.div_small; [done| |lia].
  split; [done|]. eapply Z.lt_le_trans; [exact Hu|]. apply Z.pow_le_mono_r; lia.
Qed.

(** A word of 32 bits is known by its bits. *)
Lemma u32_bits z f : is_u32 z → (∀ i, (i < 32)%nat → bit z i = f i) → z = bits_value 32 f.
Proof.
  intros Hz Hf. apply Z.bits_inj'. intros j Hj.
  pose proof (bits_value_bit 32 f (Z.to_nat j)) as Hb. unfold bit in Hb. rewrite Z2Nat.id in Hb by done. rewrite Hb.
  destruct (Nat.ltb_spec (Z.to_nat j) 32) as [Hlt|Hge]; cbn [andb].
  - rewrite <- (Hf _ Hlt). unfold bit. by rewrite Z2Nat.id.
  - pose proof (u32_high z (Z.to_nat j) Hz Hge) as Hh. unfold bit in Hh. by rewrite Z2Nat.id in Hh.
Qed.

Lemma bit_lxor a b i : bit (Z.lxor a b) i = xorb (bit a i) (bit b i).
Proof. apply Z.lxor_spec. Qed.
Lemma bit_land a b i : bit (Z.land a b) i = bit a i && bit b i.
Proof. apply Z.land_spec. Qed.
Lemma bit_lor a b i : bit (Z.lor a b) i = bit a i || bit b i.
Proof. apply Z.lor_spec. Qed.
Lemma bit_shiftr a k i : bit (Z.shiftr a (Z.of_nat k)) i = bit a (i + k).
Proof. unfold bit. rewrite Z.shiftr_spec by lia. f_equal. lia. Qed.
Lemma bit_shiftl a k i : (i < 64)%nat → bit (uwrap (Z.shiftl a (Z.of_nat k))) i = (k <=? i)%nat && bit a (i - k).
Proof.
  intros Hi. unfold bit, uwrap, word_modulus. rewrite Z.mod_pow2_bits_low by lia. rewrite Z.shiftl_spec by lia.
  destruct (Nat.leb_spec k i); cbn [andb]; [f_equal; lia|apply Z.testbit_neg_r; lia].
Qed.

Lemma upper_mask_bit i : (i < 32)%nat → bit UPPER_MASK i = (i =? 31)%nat.
Proof. intros Hi. do 32 (destruct i as [|i]; [done|]). lia. Qed.
Lemma lower_mask_bit i : (i < 32)%nat → bit LOWER_MASK i = negb (i =? 31)%nat.
Proof. intros Hi. do 32 (destruct i as [|i]; [done|]). lia. Qed.

Lemma twist_next u l m : is_u32 u → is_u32 l → is_u32 m → twist u l m = next_word u l m.
Proof.
  intros Hu Hl Hm. apply u32_bits; [by apply twist_u32|]. intros i Hi. unfold twist.
  set (y := Z.lor (Z.land u UPPER_MASK) (Z.land l LOWER_MASK)).
  assert (∀ j, (j < 32)%nat → bit y j = if (j =? 31)%nat then bit u 31 else bit l j) as Hy.
  { intros j Hj. unfold y. rewrite bit_lor, !bit_land, upper_mask_bit, lower_mask_bit by done.
    destruct (Nat.eqb_spec j 31) as [->|]; cbn [negb]; [by rewrite andb_true_r, andb_false_r, orb_false_r|].
    by rewrite andb_true_r, andb_false_r. }
  assert (bit y 32 = false) as H32.
  { unfold y. rewrite bit_lor, !bit_land, (u32_high u), (u32_high l) by (done || lia). done. }
  rewrite !bit_lxor. change 1 with (Z.of_nat 1) at 1. rewrite bit_shiftr, Nat.add_1_r, xorb_assoc. f_equal. f_equal.
  - destruct (Nat.eqb_spec i 31) as [->|]; [done|]. rewrite Hy by lia.
    destruct (Nat.eqb_spec i 30) as [->|]; [done|]. by rewrite (proj2 (Nat.eqb_neq (S i) 31)) by lia.
  - assert (Z.land y 1 = Z.b2z (bit l 0)) as ->.
    { rewrite <- (Hy 0%nat ltac:(lia) : _ = bit l 0). change 1 with (Z.ones 1). rewrite Z.land_ones by lia. change (2 ^ 1) with 2.
      unfold bit. change (Z.of_nat 0) with 0. by rewrite Z.bit0_mod. }
    unfold mag01. destruct (bit l 0); [done|]. apply Z.bits_0.
Qed.

Lemma temper_tempered y : is_u32 y → temper y = tempered y.
Proof.
  intros Hy. apply u32_bits; [by apply temper_u32|]. intros i Hi. unfold temper.
  set (y1 := Z.lxor y (Z.shiftr y 11)).
  set (y2 := Z.lxor y1 (Z.land (uwrap (Z.shiftl y1 7)) 0x9d2c5680)).
  set (y3 := Z.lxor y2 (Z.land (uwrap (Z.shiftl y2 15)) 0xefc60000)).
  assert (is_u32 y1 ∧ is_u32 y2 ∧ is_u32 y3) as (H1 & H2 & H3) by (unfold y3, y2, y1; split_and!; auto 20 with u32).
  assert (∀ z k j, is_u32 z → (j + k <? 32)%nat && bit z (j + k) = bit z (j + k)) as Hhigh.
  { intros z k j Hz. destruct (Nat.ltb_spec (j + k) 32); [done|]. by rewrite u32_high. }
  assert (∀ j, (j < 32)%nat → bit y1 j = xorb (bit y j) ((j + 11 <? 32)%nat && bit y (j + 11))) as E1.
  { intros j Hj. unfold y1. rewrite bit_lxor, Hhigh by done. f_equal. apply (bit_shiftr y 11). }
  assert (∀ j, (j < 32)%nat → bit y2 j = xorb (bit y1 j) ((7 <=? j)%nat && bit y1 (j - 7) && bit 0x9d2c5680 j)) as E2.
  { intros j Hj. unfold y2. rewrite bit_lxor, bit_land. f_equal. f_equal. apply (bit_shiftl y1 7). lia. }
  assert (∀ j, (j < 32)%nat → bit y3 j = xorb (bit y2 j) ((15 <=? j)%nat && bit y2 (j - 15) && bit 0xefc60000 j)) as E3.
  { intros j Hj. unfold y3. rewrite bit_lxor, bit_land. f_equal. f_equal. apply (bit_shiftl y2 15). lia. }
  assert (∀ j, (j < 32)%nat → bit y2 j = xorb (xorb (bit y j) ((j + 11 <? 32)%nat && bit y (j + 11)))
    ((7 <=? j)%nat && xorb (bit y (j - 7)) ((j - 7 + 11 <? 32)%nat && bit y (j - 7 + 11)) && bit 0x9d2c5680 j)) as E2'.
  { intros j Hj. rewrite E2, !E1 by lia. done. }
  rewrite bit_lxor. change 18 with (Z.of_nat 18) at 1. rewrite bit_shiftr, <- (Hhigh y3) by done.
  rewrite (E3 i Hi), !E2' by lia. f_equal.
  destruct (Nat.ltb_spec (i + 18) 32); [|done]. cbn [andb]. by rewrite (E3 (i + 18)%nat), !E2' by lia.
Qed.

(** ** The state *)

Definition word_at (mt : list Z) (i : nat) : Prop := is_u32 (mt !!! i).

Record wf_state (mt : list Z) : Prop := {
  wf_length : length mt = S MT_N;
  wf_words i : (i < MT_N)%nat → is_u32 (mt !!! i);
  wf_index : 0 ≤ mt !!! MT_N ≤ Z.of_nat MT_N + 1;
}.

Lemma insert_same (l : list Z) i z : (i < length l)%nat → <[i := z]> l !!! i = z.
Proof. intros Hi. by rewrite list_lookup_total_insert_eq. Qed.
Lemma insert_other (l : list Z) i j z : i ≠ j → <[i := z]> l !!! j = l !!! j.
Proof. intros Hi. by rewrite list_lookup_total_insert_ne. Qed.

(** ** The refresh as one loop *)

Lemma MT_sizes : (0 < MT_M < MT_N)%nat.
Proof. unfold MT_M, MT_N. lia. Qed.

#[local] Opaque MT_N MT_M.

Definition next_of (k : nat) : nat := if decide (k + 1 < MT_N)%nat then k + 1 else 0.
Definition far_of (k : nat) : nat := if decide (k < MT_N - MT_M)%nat then k + MT_M else k + MT_M - MT_N.

(** The array after [n] words. *)
Definition refresh_steps (n : nat) (mt : list Z) : list Z :=
  foldl (λ mt k, refresh_word (next_of k) (far_of k) k mt) mt (seq 0 n).

Lemma refresh_steps_S n mt : refresh_steps (S n) mt = refresh_word (next_of n) (far_of n) n (refresh_steps n mt).
Proof. unfold refresh_steps. by rewrite seq_S, foldl_app. Qed.

Lemma foldl_ext_in {A B} (f g : A → B → A) a l : (∀ x acc, x ∈ l → f acc x = g acc x) → foldl f a l = foldl g a l.
Proof.
  revert a. induction l as [|x l IH]; intros a Hfg; [done|]. simpl. rewrite Hfg by by left. apply IH. intros y acc Hy.
  apply Hfg. by right.
Qed.

Lemma seq_phases m n : (0 < m < n)%nat → seq 0 n = seq 0 (n - m) ++ seq (n - m) (m - 1) ++ seq (n - 1) 1.
Proof.
  intros Hm. replace n with ((n - m) + ((m - 1) + 1))%nat at 1 by lia. rewrite !seq_app. do 3 f_equal; lia.
Qed.

Lemma refresh_eq mt : refresh mt = refresh_steps MT_N mt.
Proof.
  pose proof MT_sizes. unfold refresh, refresh_steps.
  rewrite (seq_phases MT_M MT_N) by lia.
  rewrite !foldl_app. cbn [foldl seq]. assert (next_of (MT_N - 1) = 0%nat ∧ far_of (MT_N - 1) = (MT_M - 1)%nat) as [-> ->].
  { unfold next_of, far_of. rewrite !decide_False by lia. lia. }
  apply (f_equal (refresh_word 0 (MT_M - 1) (MT_N - 1))).
  rewrite (foldl_ext_in (λ mt k, refresh_word (next_of k) (far_of k) k mt) (λ mt kk, refresh_word (kk + 1) (kk + MT_M - MT_N) kk mt)).
  - apply (f_equal (λ mt, foldl _ mt _)). apply foldl_ext_in. intros k acc Hk%elem_of_seq. unfold next_of, far_of. by rewrite !decide_True by lia.
  - intros k acc Hk%elem_of_seq. unfold next_of, far_of. by rewrite decide_True, decide_False by lia.
Qed.

Lemma refresh_steps_length n mt : length (refresh_steps n mt) = length mt.
Proof. induction n as [|n IH]; [done|]. rewrite refresh_steps_S. unfold refresh_word. by rewrite length_insert. Qed.

(** A step writes its own word only. *)
Lemma refresh_steps_later n mt i : (n ≤ i)%nat → refresh_steps n mt !!! i = mt !!! i.
Proof.
  induction n as [|n IH]; intros Hi; [done|]. rewrite refresh_steps_S. unfold refresh_word. rewrite insert_other by lia. apply IH. lia.
Qed.

Lemma refresh_steps_earlier n m mt i : (i < n ≤ m)%nat → refresh_steps m mt !!! i = refresh_steps n mt !!! i.
Proof.
  intros [Hi Hm]. induction Hm as [|m Hm IH]; [done|]. rewrite refresh_steps_S. unfold refresh_word. by rewrite insert_other by lia.
Qed.

(** The sequence of words that the array is a window of. *)
Definition sequence (mt : list Z) (i : nat) : Z :=
  if decide (i < MT_N)%nat then mt !!! i else refresh mt !!! (i - MT_N)%nat.

Lemma refresh_word_eq mt k :
  length mt = S MT_N → (k < MT_N)%nat →
  refresh mt !!! k = twist (sequence mt k) (sequence mt (k + 1)) (sequence mt (k + MT_M)).
Proof.
  intros Hl Hk. pose proof MT_sizes. rewrite refresh_eq, (refresh_steps_earlier (S k) MT_N) by lia. rewrite refresh_steps_S. unfold refresh_word.
  rewrite insert_same by (rewrite refresh_steps_length; lia).
  assert (∀ i j, (i < MT_N + MT_N)%nat → (if decide (i < MT_N)%nat then j = i ∧ (k ≤ i)%nat else j = (i - MT_N)%nat ∧ (j < k)%nat) →
    refresh_steps k mt !!! j = sequence mt i) as Hs.
  { intros i j Hi Hj. unfold sequence. destruct (decide _) as [Hlt|Hge]; destruct Hj as [-> Hj].
    - by apply refresh_steps_later.
    - rewrite refresh_eq. symmetry. apply refresh_steps_earlier. lia. }
  pose proof MT_sizes. unfold next_of, far_of. f_equal; apply Hs; repeat destruct (decide _); lia.
Qed.

Lemma refresh_length mt : length (refresh mt) = length mt.
Proof. rewrite refresh_eq. apply refresh_steps_length. Qed.

Lemma refresh_words mt k : wf_state mt → (k < MT_N)%nat → is_u32 (refresh mt !!! k).
Proof.
  intros [Hl Hw _]. pose proof MT_sizes. induction (lt_wf k) as [k _ IH]. intros Hk. rewrite refresh_word_eq by done.
  assert (∀ i, (i < MT_N + k)%nat → is_u32 (sequence mt i)) as Hs.
  { intros i Hi. unfold sequence. destruct (decide _); [by apply Hw|]. apply IH; lia. }
  apply twist_u32; apply Hs; lia.
Qed.

(** ** The generator keeps the state well formed *)

Lemma next_index_wf mt i :
  wf_state mt → 0 ≤ i ≤ Z.of_nat MT_N + 1 → wf_state (<[MT_N := i]> mt).
Proof.
  intros [Hl Hw _] Hi. split.
  - by rewrite length_insert.
  - intros j Hj. rewrite insert_other by lia. by apply Hw.
  - by rewrite insert_same by lia.
Qed.

Lemma generate_int32_wf mt :
  wf_state mt → is_u32 (generate_int32 mt).1 ∧ wf_state (generate_int32 mt).2.
Proof.
  intros Hwf. unfold generate_int32.
  set (mt' := if Z.of_nat MT_N <=? mt !!! MT_N then <[MT_N:=0]> (refresh mt) else mt).
  assert (wf_state mt' ∧ mt' !!! MT_N < Z.of_nat MT_N) as [Hwf' Hi].
  { pose proof MT_sizes. destruct Hwf as [Hl Hw Hi]. unfold mt'. destruct (Z.leb_spec (Z.of_nat MT_N) (mt !!! MT_N)); [|done]. split.
    - apply next_index_wf; [|lia]. split; [by rewrite refresh_length| |].
      + intros i. by apply refresh_words.
      + by rewrite refresh_eq, refresh_steps_later.
    - rewrite insert_same by (rewrite refresh_length; lia). lia. }
  pose proof (wf_index _ Hwf'). cbn [fst snd]. split; [apply temper_u32, (wf_words _ Hwf'); lia|apply next_index_wf; [done|lia]].
Qed.

Lemma generate_limb_wf mt : wf_state mt → 0 ≤ (generate_limb mt).1 < 2 ^ 64 ∧ wf_state (generate_limb mt).2.
Proof.
  intros Hwf. unfold generate_limb. pose proof (generate_int32_wf mt Hwf) as [Hh Hwf1].
  destruct (generate_int32 mt) as [high mt1]. cbn [fst snd] in *. pose proof (generate_int32_wf mt1 Hwf1) as [Hl Hwf2].
  destruct (generate_int32 mt1) as [low mt2]. cbn [fst snd] in *. split; [|done]. unfold is_u32 in *.
  rewrite Z.shiftl_mul_pow2 by lia. unfold uwrap, word_modulus. rewrite Z.mod_small by lia.
  replace (Z.lor (high * 2 ^ 32) low) with (high * 2 ^ 32 + low); [lia|].
  rewrite <- Z.shiftl_mul_pow2 by lia. rewrite <- Z.lxor_lor, Z.add_nocarry_lxor; [done|..];
    (apply Z.bits_inj'; intros i Hi; rewrite Z.land_spec, Z.bits_0, Z.shiftl_spec by done;
     destruct (decide (i < 32)); [by rewrite Z.testbit_neg_r by lia|];
     rewrite (Z.bits_above_log2 low i), andb_false_r; [done|lia|];
     destruct (decide (low = 0)) as [->|]; [simpl; lia|]; assert (Z.log2 low < 32) by (apply Z.log2_lt_pow2; lia); lia).
Qed.

Lemma generate_limbs_wf n mt :
  wf_state mt → 0 ≤ (generate_limbs n mt).1 < 2 ^ (64 * Z.of_nat n) ∧ wf_state (generate_limbs n mt).2.
Proof.
  revert mt. induction n as [|n IH]; intros mt Hwf; [done|]. cbn [generate_limbs].
  pose proof (generate_limb_wf mt Hwf) as [Hl Hwf1]. destruct (generate_limb mt) as [limb mt1]. cbn [fst snd] in *.
  pose proof (IH mt1 Hwf1) as [Hz Hwf2]. destruct (generate_limbs n mt1) as [z mt2]. cbn [fst snd] in *. split; [|done].
  replace (64 * Z.of_nat (S n)) with (64 + 64 * Z.of_nat n) by lia. rewrite Z.pow_add_r by lia. nia.
Qed.

(** ** The numbers drawn are those of the sequence *)

(** The words of a state, and where in their sequence the next one is. *)
Definition window (mt : list Z) : list Z := take MT_N mt.
Definition position (mt : list Z) : nat := Z.to_nat (Z.min (mt !!! MT_N) (Z.of_nat MT_N)).

Lemma slide_length w : w ≠ [] → length (slide w) = length w.
Proof. destruct w; [done|]. intros _. unfold slide. rewrite length_app. simpl. lia. Qed.

Lemma slide_lookup w i : (S i < length w)%nat → slide w !!! i = w !!! S i.
Proof. destruct w as [|x w]; simpl; [lia|]. intros Hi. unfold slide. simpl tail. by rewrite lookup_total_app_l by lia. Qed.

Lemma slide_last w i : length w = S i → slide w !!! i = next_word (w !!! 0%nat) (w !!! 1%nat) (w !!! MT_M).
Proof.
  intros Hl. unfold slide. assert (length (tail w) = i) as Ht by (destruct w; simpl in *; lia).
  rewrite lookup_total_app_r by lia. by rewrite Ht, Nat.sub_diag.
Qed.

Lemma iter_length n w : w ≠ [] → length (Nat.iter n slide w) = length w.
Proof.
  intros Hw. induction n as [|n IH]; [done|]. rewrite Nat.iter_succ, slide_length; [done|].
  intros E. rewrite E in IH. by destruct w.
Qed.

Lemma iter_lookup n w i : w ≠ [] → (i < length w)%nat → Nat.iter n slide w !!! i = twister w (n + i).
Proof.
  intros Hw. revert n. induction i as [|i IH]; intros n Hi; [by rewrite Nat.add_0_r|].
  rewrite <- slide_lookup by (by rewrite iter_length). rewrite <- Nat.iter_succ, IH by lia. f_equal. lia.
Qed.

Lemma twister_add w m n : twister (Nat.iter m slide w) n = twister w (m + n).
Proof. unfold twister. rewrite Nat.add_comm. by rewrite Nat.iter_add. Qed.

(** The recurrence of the sequence. *)
Lemma twister_next w k : length w = MT_N →
  twister w (k + MT_N) = next_word (twister w k) (twister w (k + 1)) (twister w (k + MT_M)).
Proof.
  intros Hl. pose proof MT_sizes. assert (w ≠ []) as Hw by (by intros ->; simpl in Hl; lia).
  replace (k + MT_N)%nat with (S k + (MT_N - 1))%nat by lia. rewrite <- iter_lookup, Nat.iter_succ by (done || lia).
  rewrite slide_last by (rewrite iter_length by done; lia). rewrite !iter_lookup by (done || lia). by rewrite Nat.add_0_r.
Qed.

Lemma window_length mt : wf_state mt → length (window mt) = MT_N.
Proof. intros [Hl _ _]. unfold window. rewrite length_take. lia. Qed.

Lemma window_lookup mt i : (i < MT_N)%nat → window mt !!! i = mt !!! i.
Proof. intros Hi. rewrite !list_lookup_total_alt. unfold window. by rewrite lookup_take_lt. Qed.

Lemma window_some mt : wf_state mt → window mt ≠ [].
Proof. intros Hwf E. pose proof (window_length mt Hwf) as Hl. rewrite E in Hl. pose proof MT_sizes. simpl in Hl. lia. Qed.

Lemma twister_window mt i : wf_state mt → (i < MT_N)%nat → twister (window mt) i = mt !!! i.
Proof.
  intros Hwf Hi. rewrite <- (window_lookup mt i Hi). symmetry.
  apply (iter_lookup 0); [by apply window_some|by rewrite window_length].
Qed.

Lemma sequence_twister mt i : wf_state mt → (i < MT_N + MT_N)%nat → sequence mt i = twister (window mt) i.
Proof.
  intros Hwf. pose proof MT_sizes. induction (lt_wf i) as [i _ IH]. intros Hi. unfold sequence at 1.
  destruct (decide (i < MT_N)%nat); [by rewrite twister_window|].
  assert (∀ j, (j < MT_N + MT_N)%nat → is_u32 (sequence mt j)) as Hu.
  { intros j Hj. unfold sequence. destruct (decide _); [by apply (wf_words _ Hwf)|apply refresh_words; [done|lia]]. }
  rewrite refresh_word_eq by (apply (wf_length _ Hwf) || lia). rewrite twist_next by (apply Hu; lia). rewrite !IH by lia.
  replace i with (i - MT_N + MT_N)%nat at 4 by lia. by rewrite twister_next by (by apply window_length).
Qed.

Lemma refresh_wf mt : wf_state mt → wf_state (refresh mt).
Proof.
  intros Hwf. split.
  - rewrite refresh_length. apply Hwf.
  - intros i. by apply refresh_words.
  - rewrite refresh_eq, refresh_steps_later by lia. apply Hwf.
Qed.

(** The refresh slides the window by its length. *)
Lemma refresh_window mt : wf_state mt → window (refresh mt) = Nat.iter MT_N slide (window mt).
Proof.
  intros Hwf. pose proof (refresh_wf mt Hwf) as Hwf'. pose proof (window_some mt Hwf) as Hne.
  apply list_eq_same_length with MT_N; [by rewrite iter_length, window_length|by apply window_length|].
  intros i x y Hi Hx Hy. apply list_lookup_total_correct in Hx as <-, Hy as <-.
  rewrite iter_lookup by (rewrite ?window_length by done; done). rewrite window_lookup by done.
  rewrite <- sequence_twister by (done || lia). unfold sequence. rewrite decide_False by lia. f_equal. lia.
Qed.

Lemma window_insert mt i : window (<[MT_N := i]> mt) = window mt.
Proof. unfold window. by apply take_insert_ge. Qed.

Lemma generate_step mt : wf_state mt →
  (generate_int32 mt).1 = tempered (twister (window mt) (position mt)) ∧
  ∀ k, twister (window (generate_int32 mt).2) (position (generate_int32 mt).2 + k) = twister (window mt) (position mt + S k).
Proof.
  intros Hwf. pose proof MT_sizes. pose proof (refresh_wf mt Hwf) as Hr. pose proof (wf_index _ Hwf).
  pose proof (wf_length _ Hwf). unfold generate_int32, position.
  destruct (Z.leb_spec (Z.of_nat MT_N) (mt !!! MT_N)); cbn [fst snd].
  - rewrite (insert_same (refresh mt)) by (rewrite refresh_length; lia). rewrite insert_same by (rewrite length_insert, refresh_length; lia).
    rewrite insert_other by lia. rewrite !window_insert, refresh_window by done. change (Z.to_nat 0) with 0%nat.
    rewrite Z.min_r by lia. rewrite Nat2Z.id. split.
    + rewrite temper_tempered by (apply (wf_words _ Hr); lia). f_equal.
      rewrite <- (twister_window (refresh mt) 0), refresh_window, twister_add by (done || lia). f_equal; lia.
    + intros k. rewrite twister_add. f_equal; lia.
  - rewrite insert_same by lia. rewrite window_insert. split.
    + rewrite temper_tempered by (apply (wf_words _ Hwf); lia). rewrite twister_window by (done || lia). by rewrite Z.min_l by lia.
    + intros k. f_equal; lia.
Qed.

Lemma generate_words_spec n mt : wf_state mt →
  let '(ys, mt') := generate_words n mt in
  wf_state mt' ∧ Forall is_u32 ys ∧ ys = map (λ k, tempered (twister (window mt) (position mt + k))) (seq 0 n) ∧
  ∀ k, twister (window mt') (position mt' + k) = twister (window mt) (position mt + n + k).
Proof.
  revert mt. induction n as [|n IH]; intros mt Hwf; cbn [generate_words].
  { split_and!; [done|done|done|]. intros k. by rewrite Nat.add_0_r. }
  destruct (generate_int32_wf mt Hwf) as [Hu Hwf1], (generate_step mt Hwf) as [Hy Hnext].
  destruct (generate_int32 mt) as [y mt1]. cbn [fst snd] in *. specialize (IH mt1 Hwf1).
  destruct (generate_words n mt1) as [ys mt2]. destruct IH as (Hwf2 & Hus & -> & Hk). split_and!; [done|by constructor| |].
  - cbn [seq map]. rewrite Nat.add_0_r, Hy. f_equal. rewrite <- seq_shift, map_map. apply map_ext. intros k. by rewrite Hnext.
  - intros k. rewrite Hk, <- Nat.add_assoc, Hnext. f_equal. lia.
Qed.

(** ** Initial states *)

Lemma init_words_spec n prev j : length (init_words n prev j) = n ∧ Forall is_u32 (init_words n prev j).
Proof.
  revert prev j. induction n as [|n IH]; intros prev j; simpl; [done|]. destruct (IH (init_word prev j) (S j)) as [Hl Hw].
  rewrite Hl. split; [done|]. constructor; [|done]. unfold init_word. auto with u32.
Qed.

Lemma init_wf words i :
  length words = MT_N → Forall is_u32 words → 0 ≤ i ≤ Z.of_nat MT_N + 1 → wf_state (words ++ [i]).
Proof.
  intros Hl Hw Hi. split.
  - rewrite length_app, Hl. simpl. lia.
  - intros j Hj. rewrite lookup_total_app_l by lia. apply (Forall_lookup_total_1 _ _ _ Hw). lia.
  - rewrite lookup_total_app_r by lia. rewrite Hl, Nat.sub_diag. simpl. lia.
Qed.

Lemma land_low w : Z.land w 0xffffffff = w mod 2 ^ 32.
Proof. change 0xffffffff with (Z.ones 32). by apply Z.land_ones. Qed.

Lemma init_word_eq w j : init_word w j = (1812433253 * Z.lxor w (w / 2 ^ 30) + Z.of_nat j) mod 2 ^ 32.
Proof.
  unfold init_word, uwrap, word_modulus. rewrite land_low, Z.shiftr_div_pow2 by lia.
  apply Z.mod_mod_divide. by exists (2 ^ 32).
Qed.

Lemma init_words_eq n seed j : init_words n (seed_word seed j) (S j) = map (seed_word seed) (seq (S j) n).
Proof.
  revert j. induction n as [|n IH]; intros j; [done|]. cbn [init_words seq map].
  assert (init_word (seed_word seed j) (S j) = seed_word seed (S j)) as -> by apply init_word_eq. cbv zeta. by rewrite IH.
Qed.

(** A state that begins with [words] refreshes them before it draws a number. *)
Lemma init_window words : length words = MT_N →
  window (words ++ [Z.of_nat MT_N + 1]) = words ∧ position (words ++ [Z.of_nat MT_N + 1]) = MT_N.
Proof.
  intros Hl. unfold window, position. split; [by rewrite take_app_length'|].
  rewrite lookup_total_app_r by lia. rewrite Hl, Nat.sub_diag. simpl. lia.
Qed.

(** C27: the numbers that are drawn from a state are the tempered words, one after the
    other, of the sequence of the Mersenne Twister whose window the state holds; the
    words of /dev/urandom modulo 2^32, or those made from a seed, are the first 624 words
    of the sequence, and the 625th is the first that is used; the state stays an array
    of 624 words of 32 bits with an index in it. *)
Theorem twister_state mt n :
  (∀ words, length words = MT_N → let mt := init_from_words words in
     wf_state mt ∧ window mt = map (λ w, w mod 2 ^ 32) words ∧ position mt = MT_N) ∧
  (∀ seed, let mt := init_from_time seed in
     wf_state mt ∧ window mt = map (seed_word seed) (seq 0 MT_N) ∧ position mt = MT_N) ∧
  (wf_state mt → let '(ys, mt') := generate_words n mt in
     wf_state mt' ∧ Forall is_u32 ys ∧ ys = map (λ k, tempered (twister (window mt) (position mt + k))) (seq 0 n) ∧
     ∀ k, twister (window mt') (position mt' + k) = twister (window mt) (position mt + n + k)).
Proof.
  pose proof MT_sizes. split_and!.
  - intros words Hw. cbv zeta. split.
    + apply init_wf; [by rewrite length_map| |lia]. apply Forall_map, Forall_true. intros w. auto with u32.
    + destruct (init_window (map (λ w, Z.land w 0xffffffff) words)) as [Ew Ep]; [by rewrite length_map|].
      split; [|exact Ep]. unfold init_from_words. rewrite Ew. apply map_ext, land_low.
  - intros seed. cbv zeta. destruct (init_words_spec (MT_N - 1) (Z.land seed 0xffffffff) 1) as [Hl Hw].
    assert (length (Z.land seed 0xffffffff :: init_words (MT_N - 1) (Z.land seed 0xffffffff) 1) = MT_N) as Hn by (simpl; lia).
    split.
    + apply init_wf; [done| |lia]. constructor; [auto with u32|done].
    + destruct (init_window _ Hn) as [Ew Ep]. split; [|exact Ep]. unfold init_from_time. rewrite Ew, land_low.
      change (seed mod 2 ^ 32) with (seed_word seed 0). rewrite (init_words_eq (MT_N - 1) seed 0). by replace MT_N with (S (MT_N - 1)) at 2 by lia.
  - apply generate_words_spec.
Qed.

(** ** Random integers *)

Section random_facts.
Context `{!GMP, !GMPSpec, !GMPArith, !GMPArithSpec, !ToDouble}.

(** The limbs drawn for a number below [n]. *)
Definition limbs_for (n : Z) : nat := Z.to_nat (Z.max 64 (signed_length n) / 64 + 1).

Lemma buffer_spec n h :
  0 < n →
  gives (λ b, ∃ a z, b = OBig a z ∧ Z.abs (mp_size z) = Z.of_nat (limbs_for n))
    (mkcl_ash (MKCL_MAKE_FIXNUM 1) (Z.max 64 (signed_length n))) h.
Proof.
  intros Hn. set (w := Z.max 64 (signed_length n)). assert (64 ≤ w) by lia.
  eapply gives_mono; [apply mkcl_ash_left; [apply is_int_MAKE_FIXNUM, fix_1|lia|]|].
  { unfold ash_overflows. cbn [MKCL_MAKE_FIXNUM fixnum_wrap].
    assert ((w <? MKCL_WORD_BITS - 2) = false) as -> by (apply Z.ltb_ge; unfold_words; lia). by destruct (0 <? w). }
  intros b Hb. rewrite Z.shiftl_mul_pow2, Z.mul_1_l in Hb by lia. assert (0 < 2 ^ w) by (apply Z.pow_pos_nonneg; lia).
  assert (2 ^ 64 ≤ 2 ^ w) by (apply Z.pow_le_mono_r; lia).
  destruct (is_int_cases _ _ Hb) as [(i & ->)|(a & z & ->)].
  - apply is_int_fix_eq in Hb as [<- Hi]. unfold_words. lia.
  - apply is_int_big_eq in Hb as [<- _]. exists a, (2 ^ w). split; [done|]. rewrite mp_size_pos by done. rewrite Z.log2_pow2 by lia.
    unfold limbs_for. fold w. assert (0 ≤ w / 64) by (apply Z.div_pos; lia). lia.
Qed.

(** RANDOM of a positive integer [n] draws limbs for the bits of [n] and one limb
    more, and gives what they leave when divided by [n], so a number from 0 up to but
    without [n]; unless the first limb is zero, which GMP does not allow. *)
Theorem random_integer_below fuel x n mt h :
  is_int x n → 0 < n → (1 ≤ fuel)%nat → wf_state mt →
  let drawn := generate_limbs (limbs_for n) mt in
  wf_state drawn.2 ∧ 0 ≤ drawn.1 < 2 ^ (64 * Z.of_nat (limbs_for n)) ∧ 0 ≤ drawn.1 mod n < n ∧
  (2 ^ (64 * (Z.of_nat (limbs_for n) - 1)) ≤ drawn.1 →
   gives (λ p, is_int p.1 (drawn.1 mod n) ∧ p.2 = drawn.2) (rando fuel x mt) h).
Proof.
  intros Hx Hn Hf Hwf. destruct fuel as [|m]; [lia|]. destruct (generate_limbs_wf (limbs_for n) mt Hwf) as [Hb Hwf']. 
  split_and!; [done|apply Hb..|by apply Z.mod_pos_bound|by apply Z.mod_pos_bound|]. intros Htop.
  assert (rando (S m) x mt = plus ← mkcl_plusp x;
    if negb plus then raise (FEwrong_type_argument x) else random_integer (S m) x mt) as ->
    by (by destruct (is_int_cases _ _ Hx) as [(? & ->)|(? & ? & ->)]).
  eapply gives_bind_Done; [by apply plusp_int|]. destruct (Z.ltb_spec 0 n); [|lia]. cbn [negb].
  unfold random_integer. eapply gives_bind; [by apply length_gives|]. intros l h1 -> _.
  assert ((if signed_length n <=? MKCL_WORD_BITS then MKCL_WORD_BITS else signed_length n) = Z.max 64 (signed_length n)) as ->
    by (unfold_words; destruct (Z.leb_spec (signed_length n) 64); lia).
  eapply gives_bind; [by apply buffer_spec|]. intros b h2 (a & z & -> & Hs) _. cbv iota zeta. rewrite Hs, Nat2Z.id.
  destruct (generate_limbs (limbs_for n) mt) as [v mt'] eqn:E. cbn [fst snd] in *.
  assert (2 ^ 64 ≤ 2 ^ (64 * (Z.of_nat (limbs_for n) - 1))).
  { apply Z.pow_le_mono_r; [lia|]. unfold limbs_for. assert (1 ≤ Z.max 64 (signed_length n) / 64) by (apply Z.div_le_lower_bound; lia). lia. }
  destruct (Z.ltb_spec v (2 ^ (64 * (Z.of_nat (limbs_for n) - 1)))); [lia|].
  eapply gives_bind; [|intros r h3 Hr _; apply gives_ret; split; [exact Hr|done]].
  eapply gives_bind; [apply (floor_ints m (OBig a v) x v n); [|done|lia|]|].
  - split; [done|]. cbn [int_wf]. unfold is_fixnum, MKCL_MOST_POSITIVE_FIXNUM. lia.
  - intros [E1 E2]. lia.
  - intros [q r] h3 [_ Hr] _. apply gives_ret. cbn [snd] in *. apply is_rat_int_inv.
    rewrite qfloor_frac in Hr by lia. by rewrite Z.mod_eq by lia.
Qed.
End random_facts.

(** A state whose next number has all its 32 bits set. *)
Definition all_ones_next : list Z := 316513203 :: replicate (MT_N - 1) 0 ++ [0].

Lemma all_ones_wf : wf_state all_ones_next.
Proof.
  apply (init_wf (316513203 :: replicate (MT_N - 1) 0) 0); [|constructor; [done|by apply Forall_replicate]|lia].
  pose proof MT_sizes. cbn [length]. rewrite length_replicate. lia.
Qed.

(** RANDOM of the single float 1.0 can give 1.0 itself, which is not below the limit:
    a [double] just below one becomes one as a [float]. *)
Theorem random_single_limit `{!GMP, !GMPArith, !ToDouble} fuel a h :
  wf_state all_ones_next ∧
  let one := S754_finite false 8388608 (-23) in
  ∃ b mt h', rando fuel (OFloat SF a one) all_ones_next h = Done (OFloat SF b one, mt) h'.
Proof.
  split.
  - apply all_ones_wf.
  - vm_compute. by eexists _, _, _.
Qed.
