(* ===== verification/NumExamples.v ===== *)
(** * NumExamples: the theorems on numbers at concrete inputs *)

From S2P Require Import Prelude Words Objects Heap Numbers NumLog Floats Lists NumPred Arith ArithSpecs NumComp NumCompSpecs NumCo NumCoSpecs NumExpt ToFloat ToFloatSpecs NumFloatSpecs NumFloat NumSfun Rand.
From Stdlib Require Import Sorting.Sorted.
#[local] Open Scope Z_scope.

(** ** The interfaces, instantiated *)

(** A mathematical library without an accurate function. *)
#[local] Instance libm_nan : LibM := {
  c_exp _ _ := S754_nan; c_log _ _ := S754_nan; c_log1p _ _ := S754_nan; c_sin _ _ := S754_nan; c_cos _ _ := S754_nan;
  c_tan _ _ := S754_nan; c_sinh _ _ := S754_nan; c_cosh _ _ := S754_nan; c_tanh _ _ := S754_nan; c_atan _ := S754_nan;
}.
#[local] Instance to_double_3 : ToDouble := to_double_within 3.
#[local] Instance transcendental_3 : Transcendental := transcendental_within 3.

(** ** Objects *)

Definition half : obj := ORatio 50 (OFix 1) (OFix 2).
Definition minus_third : obj := ORatio 51 (OFix (-1)) (OFix 3).

Lemma half_rat : is_rat half (frac 1 2).
Proof. exists 1, 2. by split_and!. Qed.
Lemma minus_third_rat : is_rat minus_third (frac (-1) 3).
Proof. exists (-1), 3. by split_and!. Qed.
Lemma seven_rat : is_rat (OFix 7) (Qc_of_Z 7).
Proof. by apply is_rat_int. Qed.
Lemma big_int : is_int (OBig 52 (2 ^ 70)) (2 ^ 70).
Proof. split; [done|]. unfold int_wf, is_fixnum, MKCL_MOST_POSITIVE_FIXNUM. lia. Qed.

Lemma frac_ne n d : 0 < d → n ≠ 0 → frac n d ≠ 0%Qc.
Proof. intros Hd Hn. by rewrite frac_zero by lia. Qed.

(** ** Witnesses *)

Lemma rational_arithmetic_witness :
  gives (λ r, is_rat r (frac 1 2 + frac (-1) 3)%Qc) (mkcl_plus 2 half minus_third) ∅.
Proof. destruct (rational_arithmetic 2 half minus_third _ _ ∅ half_rat minus_third_rat ltac:(lia)) as [H _]. exact H. Defined.

Lemma rational_quotient_witness :
  gives (λ r, is_rat r (frac 1 2 / frac (-1) 3)%Qc) (mkcl_divide 2 half minus_third) ∅.
Proof.
  destruct (rational_quotient 2 half minus_third _ _ ∅ half_rat minus_third_rat ltac:(lia)) as [H _]. apply H, frac_ne; lia.
Defined.

Lemma gcd_lcm_witness : gives_int (mk_cl_gcd [OFix 12; OFix (-18); OBig 52 (2 ^ 70)]) ∅ 2.
Proof.
  assert (Forall2 is_int [OFix 12; OFix (-18); OBig 52 (2 ^ 70)] [12; -18; 2 ^ 70]) as Hxs
    by (constructor; [done|constructor; [done|constructor; [apply big_int|constructor]]]).
  destruct (gcd_lcm 3 _ _ ∅ Hxs ltac:(lia)) as [H _]. exact H.
Defined.

Lemma comparisons_decide_witness :
  answers (Sorted Qclt [frac (-1) 3; frac 1 2; Qc_of_Z 7]) (mk_cl_L 2 [minus_third; half; OFix 7]) ∅.
Proof.
  assert (Forall2 is_rat [half; OFix 7] [frac 1 2; Qc_of_Z 7]) as Hxs
    by (constructor; [exact half_rat|constructor; [exact seven_rat|constructor]]).
  destruct (comparisons_decide 2 minus_third _ _ _ ∅ minus_third_rat Hxs ltac:(lia)) as [H _]. exact H.
Defined.

Lemma divisions_round_witness :
  gives (is_qr (qround (Qc_of_Z 7 / frac 1 2)) (Qc_of_Z 7 - frac 1 2 * Qc_of_Z (qround (Qc_of_Z 7 / frac 1 2)))%Qc)
    (mk_cl_round 2 (OFix 7) (Some half)) ∅.
Proof.
  assert ((Qc_of_Z 7 / frac 1 2)%Qc ≠ Qc_of_Z (2 ^ 61)) as Hno.
  { replace (Qc_of_Z 7 / frac 1 2)%Qc with (Qc_of_Z 14) by (by apply Qc_is_canon). intros E%Z2Qc_inj. done. }
  destruct (divisions_round 2 (OFix 7) half _ _ ∅ seven_rat half_rat ltac:(by apply frac_ne) Hno ltac:(lia)) as (_ & _ & _ & H & _).
  exact H.
Defined.

Lemma expt_exact_witness : gives (λ r, is_rat r (qpow (frac 1 2) (-5))) (mk_cl_expt 4 half (OFix (-5))) ∅.
Proof.
  destruct (expt_exact 4 half (OFix (-5)) _ (-5) ∅ half_rat ltac:(done) ltac:(lia) ltac:(done)) as [H _]. apply H. left. by apply frac_ne.
Defined.

Lemma conversion_close_witness :
  gives (λ f, ∃ bits scale, f = fl_ldexp DF (fl_of_Z DF bits) (int_wrap scale) ∧ close_to 53 (frac 1 2) bits scale)
    (mkcl_to_double 2 half) ∅.
Proof. destruct (conversion_close 2 half _ ∅ half_rat ltac:(by apply frac_pos) ltac:(done) ltac:(lia)) as [H _]. exact H. Defined.

Lemma conversion_hangs_witness :
  mkcl_to_float 1000 (ORatio 1 (OFix (- (2 ^ 30 + 1))) (OFix (2 ^ 30 - 1))) ∅ = Diverge.
Proof. apply (conversion_hangs 1000 ∅). Defined.

(** A [float] below the normal range. *)
Lemma decode_roundtrip_witness :
  ∃ m e s, mk_cl_integer_decode_float (OFloat SF 60 (S754_finite true 5 (-149))) ∅ = Done (OFix m, OFix e, OFix s) ∅.
Proof.
  destruct (decode_roundtrip 2 SF 60 (S754_finite true 5 (-149)) ∅) as (m & e & s & E & _); [done..|]. by exists m, e, s.
Defined.

Lemma rational_exact_witness :
  gives (λ r, is_rat r (sf_value (S754_finite true 5 (-149)))) (mk_cl_rational 12 (OFloat SF 60 (S754_finite true 5 (-149)))) ∅.
Proof.
  destruct (rational_exact 12 (OFloat SF 60 (S754_finite true 5 (-149))) ∅ ltac:(lia)) as [_ H]. by apply (H SF 60).
Defined.

(** The first and the tenth number for the seed 5489, as the reference implementation of
    the generator gives them. *)
Example twister_known :
  (generate_words 10 (init_from_time 5489)).1 !! 0%nat = Some 3499211612 ∧
  (generate_words 10 (init_from_time 5489)).1 !! 9%nat = Some 1323567403.
Proof. split; by vm_compute. Qed.

Lemma twister_state_witness :
  (generate_words 1 all_ones_next).1 = [tempered (twister (window all_ones_next) 0)] ∧ (generate_words 1 all_ones_next).1 = [2 ^ 32 - 1].
Proof.
  split; [|by vm_compute]. destruct (twister_state all_ones_next 1) as (_ & _ & H). specialize (H all_ones_wf).
  destruct (generate_words 1 all_ones_next) as [ys mt'] eqn:E. destruct H as (_ & _ & -> & _). simpl fst. by vm_compute.
Defined.

Lemma random_integer_below_witness :
  gives (λ p, is_int p.1 ((generate_limbs 2 all_ones_next).1 mod 10) ∧ p.2 = (generate_limbs 2 all_ones_next).2)
    (rando 1 (OFix 10) all_ones_next) ∅.
Proof.
  destruct (random_integer_below 1 (OFix 10) 10 all_ones_next ∅ ltac:(done) ltac:(lia) ltac:(lia) all_ones_wf) as (_ & _ & _ & H).
  apply H. by vm_compute.
Defined.
