(* ===== verification/Hash.v ===== *)
(** * Hash: hash values of objects, src/src/c/newhash.h and src/src/c/hash.c

    The mixing functions on 64-bit words, and the hash functions behind the EQ,
    EQL and EQUAL hash tables and SXHASH.  A memory region is the list of its
    bytes.  The address an object has in memory is the allocator's choice, so
    it is a parameter, as are the bytes of a NaN; every other object is hashed
    by its contents.  The hash function of EQUALP tables reads arrays and
    Unicode tables and is not modelled. *)

From S2P Require Import Prelude Words Objects Heap Numbers Segments Equal.
#[local] Open Scope Z_scope.

(** ** Newhash.h, 64 bit version *)

Definition GOLDEN_RATIO : Z := 0x9e3779b97f4a7c13.

Definition sub64 (a b : Z) : Z := uwrap (a - b).
Definition add64 (a b : Z) : Z := uwrap (a + b).
Definition shl64 (a n : Z) : Z := uwrap (Z.shiftl a n).

Definition mix (abc : Z * Z * Z) : Z * Z * Z :=
  let '(a, b, c) := abc in
  let a := sub64 a b in let a := sub64 a c in let a := Z.lxor a (Z.shiftr c 43) in
  let b := sub64 b c in let b := sub64 b a in let b := Z.lxor b (shl64 a 9) in
  let c := sub64 c a in let c := sub64 c b in let c := Z.lxor c (Z.shiftr b 8) in
  let a := sub64 a b in let a := sub64 a c in let a := Z.lxor a (Z.shiftr c 38) in
  let b := sub64 b c in let b := sub64 b a in let b := Z.lxor b (shl64 a 23) in
  let c := sub64 c a in let c := sub64 c b in let c := Z.lxor c (Z.shiftr b 5) in
  let a := sub64 a b in let a := sub64 a c in let a := Z.lxor a (Z.shiftr c 35) in
  let b := sub64 b c in let b := sub64 b a in let b := Z.lxor b (shl64 a 49) in
  let c := sub64 c a in let c := sub64 c b in let c := Z.lxor c (Z.shiftr b 11) in
  let a := sub64 a b in let a := sub64 a c in let a := Z.lxor a (Z.shiftr c 12) in
  let b := sub64 b c in let b := sub64 b a in let b := Z.lxor b (shl64 a 18) in
  let c := sub64 c a in let c := sub64 c b in let c := Z.lxor c (Z.shiftr b 22) in
  (a, b, c).

(** The byte [i] of the region, 0 past its end. *)
Definition byte_at (k : list Z) (i : nat) : Z := nth i k 0.

(** The last byte is shifted by 52 where 56 would follow. *)
Definition word_shifts : list Z := [0; 8; 16; 24; 32; 40; 48; 52].

(** [acc], with the byte [i + j] of [k] shifted by the [j]-th of the shifts added
    to it, for the bytes below [len]. *)
Fixpoint add_bytes (acc : Z) (k : list Z) (len i : nat) (shifts : list Z) : Z :=
  match shifts with
  | [] => acc
  | s :: shifts' =>
      let acc := add_bytes acc k len (S i) shifts' in
      if (i <? len)%nat then add64 acc (shl64 (byte_at k i) s) else acc
  end.

Definition extract_word (k : list Z) : Z := add_bytes 0 k 8 0 word_shifts.

(** [for (len = length; len >= 24; len -= 24)], and the pointer it leaves. *)
Fixpoint mem_region_loop (n : nat) (abc : Z * Z * Z) (k : list Z) : Z * Z * Z * list Z :=
  match n with
  | O => (abc, k)
  | S n =>
      let '(a, b, c) := abc in
      let a := add64 a (extract_word k) in
      let b := add64 b (extract_word (drop 8 k)) in
      let c := add64 c (extract_word (drop 16 k)) in
      mem_region_loop n (mix (a, b, c)) (drop 24 k)
  end.

(** The bytes of [c] are shifted by 8 at least: its first is kept for the length. *)
Definition hash_mem_region (initval : Z) (k : list Z) : Z :=
  let length := length k in
  let '(a, b, c, k) := mem_region_loop (length / 24) (GOLDEN_RATIO, GOLDEN_RATIO, initval) k in
  let len := (length mod 24)%nat in
  let c := add64 c (Z.of_nat length) in
  let c := add_bytes c k len 16 [8; 16; 24; 32; 40; 48; 52] in
  let b := add_bytes b k len 8 word_shifts in
  let a := add_bytes a k len 0 word_shifts in
  (mix (a, b, c)).2.

Definition hash_word (c w : Z) : Z :=
  (mix (add64 w GOLDEN_RATIO, GOLDEN_RATIO, c)).2.

(** ** Hash.c *)

(** [HASH_XXXX_STRING_BODY]: three characters at a time, then the last ones. *)
Definition add_chars (abH : Z * Z * Z) (c1 c2 c3 : Z) : Z * Z * Z :=
  (add64 abH.1.1 c1, add64 abH.1.2 c2, add64 abH.2 c3).

Fixpoint hash_string_loop (abH : Z * Z * Z) (s : list Z) : Z * Z * Z :=
  match s with
  | c1 :: c2 :: c3 :: s' => hash_string_loop (mix (add_chars abH c1 c2 c3)) s'
  | [c1; c2] => add_chars abH c1 c2 0
  | [c1] => add_chars abH 0 c1 0
  | [] => abH
  end.

Definition HASH_XXXX_STRING_BODY (s : list Z) (H : Z) : Z :=
  let '(a, b, H) := hash_string_loop (GOLDEN_RATIO, GOLDEN_RATIO, H) s in
  (mix (a, b, add64 H (Z.of_nat (length s)))).2.

Definition mkcl_hash_base_string (s : list Z) (h : Z) : Z := HASH_XXXX_STRING_BODY s h.
Definition mkcl_hash_full_string (s : list Z) (h : Z) : Z := HASH_XXXX_STRING_BODY s h.

(** ** The bytes of numbers *)

(** Little endian, as on x86. *)
Fixpoint le_bytes (n : nat) (z : Z) : list Z :=
  match n with O => [] | S n => z mod 256 :: le_bytes n (z / 256) end.

Class Memory := {
  machine_address : Z → Z;          (* where the object at an address of the model is *)
  nan_bytes : float_kind → list Z;
}.

(** The IEEE 754 encodings of 32 and 64 bits, and the 80 bits of x87, whose
    leading bit of the significand is explicit. *)
Definition float_format (k : float_kind) : Z * Z * nat :=
  match k with SF => (24, 128, 4%nat) | DF => (53, 1024, 8%nat) | LF => (64, 16384, 10%nat) end.

Section with_memory.
Context `{!GMP, !Memory}.

Definition float_bytes (k : float_kind) (f : spec_float) : list Z :=
  let '(prec, emax, n) := float_format k in
  let explicit_bit := if k is LF then 2 ^ 63 else 0 in
  let mant_bits := if k is LF then 64 else prec - 1 in
  let encode (s : bool) (ex mant : Z) :=
    le_bytes n ((if s then 2 ^ (8 * Z.of_nat n - 1) else 0) + ex * 2 ^ mant_bits + mant) in
  match f with
  | S754_zero s => encode s 0 0
  | S754_infinity s => encode s (2 * emax - 1) explicit_bit
  | S754_nan => nan_bytes k
  | S754_finite s m e =>
      if Z.pos m <? 2 ^ (prec - 1) then encode s 0 (Z.pos m)
      else encode s (e - (3 - emax - prec) + 1) (Z.pos m - 2 ^ (prec - 1) + explicit_bit)
  end.

(** The limbs of a bignum. *)
Definition big_bytes (z : Z) : list Z :=
  concat ((λ i, le_bytes 8 (mp_limb z i)) <$> seq 0 (Z.to_nat (Z.abs (mp_size z)))).

(** ** Hash functions *)

(** [(mkcl_hash_value)x]: the word of a reference. *)
Definition object_word (x : obj) : Z :=
  match x with
  | ONil => 0
  | OFix n => uwrap (fixnum_bits n)
  | OChar c => uwrap (Z.lor (Z.shiftl c 8) 2)
  | OBig a _ | ORatio a _ _ | OFloat _ a _ | OComplex a _ _
  | OSym a | OCons a | OString a | OBaseString a | OObj _ a => machine_address a
  end.

Definition hash_eq (x : obj) : Z := Z.shiftr (object_word x) 2.

Fixpoint hash_eql_aux (h : Z) (x : obj) : Z :=
  match x with
  | OBig _ z => hash_mem_region h (big_bytes z)
  | ORatio _ num den => let h := hash_eql_aux h num in hash_eql_aux h den
  | OFloat k _ f => hash_mem_region h (float_bytes k f)
  | OComplex _ real imag => let h := hash_eql_aux h real in hash_eql_aux h imag
  | OChar c => hash_word h c
  | _ => hash_word h (Z.shiftr (object_word x) 2)
  end.

Definition hash_eql (x : obj) : Z := hash_eql_aux 0 x.

(** The first [n] bytes of the bits of a bit vector. *)
Fixpoint bit_bytes (n : nat) (bits : list bool) : list Z :=
  match n with
  | O => []
  | S n => foldr (λ (b : bool) v, 2 * v + if b then 1 else 0) 0 (take 8 bits) :: bit_bytes n (drop 8 bits)
  end.

Definition symbol_name_of (a : Z) : M obj := λ h,
  match h !! a with Some (CSym sy) => Done (sym_name sy) h | _ => Fail Segfault h end.

(** The switch is on the type tag: NIL, whose tag is not that of symbols, goes
    to the default case.  The bytes of a bit vector are taken from the start of
    its storage, whatever its bit offset.  The fuel [n] bounds the pathnames
    that are components of pathnames. *)
Fixpoint hash_equal_aux (n : nat) (depth : Z) (hv : Z) (x : obj) : M Z :=
  match n with
  | O => diverge
  | S n =>
      match x with
      | OCons _ =>
          let depth := depth - 1 in
          if depth =? 0 then mret hv
          else
            a ← MKCL_CONS_CAR x; hv ← hash_equal_aux n depth hv a;
            d ← MKCL_CONS_CDR x; hash_equal_aux n depth hv d
      | OSym a => s ← symbol_name_of a; hash_equal_aux n depth hv s
      | OBaseString _ => s ← read_string x; mret (mkcl_hash_base_string s hv)
      | OString _ => s ← read_string x; mret (mkcl_hash_full_string s hv)
      | OObj mkcl_t_pathname a => λ h,
          match h !! a with
          | Some (CPathname _ host device directory name type version) =>
              (hv ← hash_equal_aux n 2 hv directory;
               hv ← hash_equal_aux n 2 hv name;
               hv ← hash_equal_aux n 2 hv type;
               hv ← hash_equal_aux n 2 hv host;
               hv ← hash_equal_aux n 2 hv device;
               hash_equal_aux n 2 hv version) h
          | _ => Fail Segfault h
          end
      | OObj mkcl_t_bitvector a => λ h,
          match h !! a with
          | Some (CBits bit_offset fillp storage) =>
              Done (hash_mem_region hv (bit_bytes (fillp / 8) storage)) h
          | _ => Fail Segfault h
          end
      | OObj mkcl_t_random a => λ h,
          match h !! a with
          | Some (CRandom v) => hash_equal_aux n 1 hv v h
          | _ => Fail Segfault h
          end
      | OFloat k _ f => mret (hash_mem_region hv (float_bytes k f))
      | OComplex _ real imag => hv ← hash_equal_aux n depth hv real; hash_equal_aux n depth hv imag
      | _ => mret (hash_eql_aux hv x)
      end
  end.

Definition hash_equal (n : nat) (x : obj) : M Z := hash_equal_aux n 3 0 x.

Definition mkcl_hash_equal_package (x : obj) : M Z :=
  match x with
  | OSym a =>
      nm ← symbol_name_of a;
      if MKCL_STRINGP nm then s ← read_string nm; mret (HASH_XXXX_STRING_BODY s 0)
      else raise (FEerror "incompatible key type ~S, for package hashtable ~S" [nm])
  | OBaseString _ => s ← read_string x; mret (mkcl_hash_base_string s 0)
  | OString _ => s ← read_string x; mret (mkcl_hash_full_string s 0)
  | _ => raise (FEerror "incompatible key type ~S, for package hashtable ~S" [x])
  end.

Definition mk_cl_sxhash (n : nat) (key : obj) : M obj :=
  output ← hash_equal n key;
  let mask := Z.shiftl 1 (MKCL_WORD_BITS - 3) - 1 in
  mret (MKCL_MAKE_FIXNUM (Z.land output mask)).

(** The values of the rest arguments are hashed one after the other. *)
Definition mk_si_hash_eql (args : list obj) : M obj :=
  mret (MKCL_MAKE_FIXNUM (foldl hash_eql_aux 0 args)).

Fixpoint hash_equal_args (n : nat) (h : Z) (args : list obj) : M Z :=
  match args with
  | [] => mret h
  | o :: args' => h ← hash_equal_aux n 3 h o; hash_equal_args n h args'
  end.

Definition mk_si_hash_equal (n : nat) (args : list obj) : M obj :=
  h ← hash_equal_args n 0 args; mret (MKCL_MAKE_FIXNUM h).
End with_memory.
