(* ===== verification/HashLaws.v ===== *)
(** * HashLaws: hash values agree with the tests of the tables

    Objects that a test identifies have the same hash value: always for EQL,
    and for EQUAL on finite trees without foreign objects, random states and bit
    vectors that start inside a byte.  Two examples show that the exceptions for
    bit vectors and foreign objects are real. *)

From S2P Require Import Prelude Words Objects Heap Numbers Segments Equal Hash.
#[local] Open Scope Z_scope.

(** ** Hash values are words *)

Lemma lxor_index a b : is_index a → is_index b → is_index (Z.lxor a b).
Proof.
  unfold_words. intros Ha Hb. split; [apply Z.lxor_nonneg; lia|].
  destruct (decide (Z.lxor a b = 0)) as [->|Hn]; [lia|].
  assert (0 ≤ Z.lxor a b) by (apply Z.lxor_nonneg; lia).
  apply Z.log2_lt_pow2; [lia|].
  eapply Z.le_lt_trans; [apply Z.log2_lxor; lia|].
  assert (∀ x, 0 ≤ x < 2 ^ 64 → Z.log2 x < 64) as Hl.
  { intros x Hx. destruct (decide (x = 0)) as [->|]; [done|]. apply Z.log2_lt_pow2; lia. }
  apply Z.max_lub_lt; apply Hl; lia.
Qed.

Lemma shiftr_index a n : 0 ≤ n → is_index a → is_index (Z.shiftr a n).
Proof.
  unfold_words. intros Hn Ha. rewrite Z.shiftr_div_pow2 by done.
  split; [apply Z.div_pos; lia|]. eapply Z.le_lt_trans; [|apply Ha].
  apply Z.div_le_upper_bound; [lia|]. nia.
Qed.

Lemma mix_range a b c :
  is_index c → let r := mix (a, b, c) in is_index r.1.1 ∧ is_index r.1.2 ∧ is_index r.2.
Proof.
  intros Hc. unfold mix, sub64, shl64. cbn [fst snd].
  repeat match goal with
  | |- context [uwrap ?e] => let u := fresh "u" in let Hu := fresh "Hu" in
      pose proof (uwrap_range e) as Hu; set (u := uwrap e) in *; clearbody u
  end.
  split_and!; repeat (apply lxor_index || apply shiftr_index || done || lia).
Qed.

Lemma mem_region_loop_range n abc k :
  is_index abc.2 → is_index (mem_region_loop n abc k).1.2.
Proof.
  revert abc k. induction n as [|n IH]; intros [[a b] c] k Hc; [done|].
  cbn [mem_region_loop]. apply IH. apply mix_range, uwrap_range.
Qed.

Lemma hash_mem_region_range h k : is_index (hash_mem_region h k).
Proof.
  unfold hash_mem_region. destruct (mem_region_loop _ _ _) as [[[a b] c] k'].
  apply mix_range.
  assert (∀ shifts acc i, is_index acc → is_index (add_bytes acc k' (length k mod 24) i shifts)) as Hadd.
  { induction shifts as [|s shifts IH]; intros acc i Hacc; simpl; [done|].
    destruct (_ <? _)%nat; [apply uwrap_range|by apply IH]. }
  apply Hadd, uwrap_range.
Qed.

Lemma hash_word_range h w : is_index h → is_index (hash_word h w).
Proof. intros Hh. unfold hash_word. by apply mix_range. Qed.

Lemma hash_string_range s h : is_index (HASH_XXXX_STRING_BODY s h).
Proof.
  unfold HASH_XXXX_STRING_BODY. destruct (hash_string_loop _ s) as [[a b] H].
  apply mix_range, uwrap_range.
Qed.

(** From here on the mixing functions are only known by their lemmas. *)
#[global] Opaque mix hash_mem_region hash_word HASH_XXXX_STRING_BODY.

Section with_memory.
Context `{!GMP, !Memory}.

Lemma hash_eql_aux_range h x : is_index h → is_index (hash_eql_aux h x).
Proof.
  revert h. induction x; intros h Hh; simpl; auto using hash_word_range, hash_mem_region_range.
Qed.

Lemma ret_index (v : Z) (h : heap) (r : Z) h' : is_index v → (mret v : M Z) h = Done r h' → is_index r.
Proof. by intros Hv [= <- <-]. Qed.

Lemma hash_equal_aux_range n depth hv x h r h' :
  is_index hv → hash_equal_aux n depth hv x h = Done r h' → is_index r.
Proof.
  revert depth hv x h r h'. induction n as [|n IH]; intros depth hv x h r h' Hv; [done|].
  assert (Hd : ∀ x, is_index (hash_eql_aux hv x)) by (intros; by apply hash_eql_aux_range).
  destruct x as [| | | | | |a re im|a|a|a|a|t a]; cbn [hash_equal_aux];
    try match goal with
        | |- mret (hash_eql_aux hv ?x) _ = _ → _ => exact (ret_index _ _ _ _ (Hd x))
        end.
  - apply ret_index, hash_mem_region_range.
  - intros (v & h1 & E1 & E2)%bind_Done_inv. eauto.
  - intros (s & h1 & E1 & E2)%bind_Done_inv. eauto.
  - destruct (depth - 1 =? 0); [by apply ret_index|].
    intros (x & h1 & _ & (v & h2 & E2 & (y & h3 & _ & E4)%bind_Done_inv)%bind_Done_inv)%bind_Done_inv.
    eauto.
  - intros (s & h1 & E1 & E2)%bind_Done_inv. revert E2. apply ret_index, hash_string_range.
  - intros (s & h1 & E1 & E2)%bind_Done_inv. revert E2. apply ret_index, hash_string_range.
  - destruct t; try match goal with
        | |- mret (hash_eql_aux hv ?x) _ = _ → _ => exact (ret_index _ _ _ _ (Hd x))
        end.
    + destruct (h !! a) as [[]|]; try done. apply ret_index, hash_mem_region_range.
    + destruct (h !! a) as [[]|]; try done. eauto.
    + destruct (h !! a) as [[]|]; try done.
      intros (v1 & h1 & E1 & (v2 & h2 & E2 & (v3 & h3 & E3 & (v4 & h4 & E4 &
        (v5 & h5 & E5 & E6)%bind_Done_inv)%bind_Done_inv)%bind_Done_inv)%bind_Done_inv)%bind_Done_inv.
      eapply IH; [|exact E6]. do 4 (eapply IH; [|eassumption]). eauto.
Qed.

(** SXHASH is a non-negative fixnum. *)
Theorem sxhash_is_fixnum n key h r h' :
  mk_cl_sxhash n key h = Done r h' →
  ∃ z, r = OFix z ∧ 0 ≤ z ≤ MKCL_MOST_POSITIVE_FIXNUM.
Proof.
  unfold mk_cl_sxhash. intros (v & h1 & E & [= <- <-])%bind_Done_inv.
  apply hash_equal_aux_range in E; [|done]. cbv zeta.
  assert (Z.shiftl 1 (MKCL_WORD_BITS - 3) - 1 = Z.ones 61) as -> by done.
  rewrite Z.land_ones by done. pose proof (Z.mod_pos_bound v (2 ^ 61)).
  exists (v mod 2 ^ 61). unfold MKCL_MAKE_FIXNUM. rewrite fixnum_wrap_small by (unfold_words; lia).
  split; [done|]. unfold_words. lia.
Qed.

(** ** EQL *)

Lemma hash_eql_key h x y : eql_key x = eql_key y → hash_eql_aux h x = hash_eql_aux h y.
Proof.
  revert h y. induction x as [|c|n|a z|a n IHn d IHd|k a f|a r IHr i IHi|a|a|a|a|t a];
    intros h y; destruct y; simpl; try congruence; intros [=]; subst; try done.
  - rewrite (IHn h y1) by done. by apply IHd.
  - rewrite (IHr h y1) by done. by apply IHi.
Qed.

(** EQL objects have the same EQL hash value. *)
Theorem hash_eql_respects x y : mkcl_eql x y = true → hash_eql x = hash_eql y.
Proof. rewrite mkcl_eql_key, bool_decide_eq_true. apply hash_eql_key. Qed.

(** ** EQUAL *)

Definition is_real (x : obj) : bool :=
  match x with OFix _ | OBig _ _ | ORatio _ _ _ | OFloat _ _ _ => true | _ => false end.

(** The objects whose contents the hash function reads are in the heap. *)
Definition hash_leaf (h : heap) (x : obj) : Prop :=
  match x with
  | OSym a => ∃ sy b s, h !! a = Some (CSym sy) ∧
      (sym_name sy = OBaseString b ∨ sym_name sy = OString b) ∧ h !! b = Some (CStr s)
  | OComplex _ r i => is_real r = true ∧ is_real i = true
  | OObj mkcl_t_bitvector a => ∃ n b, h !! a = Some (CBits 0 n b) ∧ (n ≤ length b)%nat
  | OObj mkcl_t_random _ => False
  | _ => True
  end.

Fixpoint hash_leaves (h : heap) (t : tree) : Prop :=
  match t with Leaf x => hash_leaf h x | Node l r => hash_leaves h l ∧ hash_leaves h r end.

Lemma hash_real n d hv x h :
  is_real x = true → hash_equal_aux (S n) d hv x h = Done (hash_eql_aux hv x) h.
Proof. by destruct x. Qed.

Lemma is_real_key x y : eql_key x = eql_key y → is_real x = is_real y.
Proof. by destruct x, y. Qed.

Lemma bit_bytes_take n bits m : (8 * n ≤ m)%nat → bit_bytes n (take m bits) = bit_bytes n bits.
Proof.
  revert bits m. induction n as [|n IH]; intros bits m Hm; [done|]. cbn [bit_bytes].
  rewrite take_take, Nat.min_l by lia. f_equal. rewrite skipn_firstn_comm. apply IH. lia.
Qed.

(** The hash value of a leaf depends on its key only. *)
Lemma hash_equal_leaf n d hv h x y :
  MKCL_CONSP x = false → MKCL_CONSP y = false → leaf_ok h x → leaf_ok h y →
  hash_leaf h x → hash_leaf h y → key_of h x = key_of h y →
  ∃ r, hash_equal_aux (S (S n)) d hv x h = Done r h ∧ hash_equal_aux (S (S n)) d hv y h = Done r h.
Proof.
  intros Hcx Hcy Hx Hy Lx Ly Hk. destruct (plain x) eqn:Ep.
  - assert (Hkey : eql_key x = eql_key y) by (by eapply key_of_type_eq).
    destruct x as [|c|z|a z|a p q|k a f|a p q|a|a|a|a|t a]; try done;
      destruct y as [|c'|z'|a' z'|a' p' q'|k' a' f'|a' p' q'|a'|a'|a'|a'|t' a']; try done;
      try (simpl in Hkey; injection Hkey as; subst; eexists; split; reflexivity).
    + eexists. split; reflexivity.
    + eexists. split; [reflexivity|]. cbn [hash_equal_aux]. by rewrite (hash_eql_key hv (ORatio a p q) _ Hkey).
    + simpl in Hkey. injection Hkey as Hp Hq. destruct Lx, Ly.
      cbn [hash_equal_aux]. exists (hash_eql_aux (hash_eql_aux hv p) q).
      split; (erewrite bind_Done; [|by apply hash_real]).
      * by apply hash_real.
      * rewrite (hash_eql_key hv _ _ Hp), (hash_eql_key _ _ _ Hq). by apply hash_real.
    + simpl in Hkey. injection Hkey as <-.
      destruct Lx as (sy & b & s & Hs & Hnm & Hb). exists (HASH_XXXX_STRING_BODY s hv).
      assert (hash_equal_aux (S (S n)) d hv (OSym a) h = Done (HASH_XXXX_STRING_BODY s hv) h); [|done].
      cbn [hash_equal_aux]. unfold symbol_name_of, mbind, M_bind. rewrite Hs.
      destruct Hnm as [-> | ->]; unfold read_string; by rewrite Hb.
    + simpl in Hkey. injection Hkey as <- <-. destruct t; try done; eexists; split; reflexivity.
  - assert (Hs : ∀ z s, MKCL_STRINGP z = true → key_of h z = KString s →
      hash_equal_aux (S (S n)) d hv z h = Done (HASH_XXXX_STRING_BODY s hv) h).
    { intros z s Hz Kz. destruct z as [| | | | | | | | |a|a|]; try done; simpl in Kz;
        cbn [hash_equal_aux]; unfold read_string, mbind, M_bind;
        destruct (h !! a) as [[]|]; simplify_eq; done. }
    assert (Hst : ∀ s, key_of h x = KString s → MKCL_STRINGP x = true → MKCL_STRINGP y = true).
    { intros s Kx Hx'. rewrite Hk in Kx. destruct y as [| | | | | | | | | | |t b]; try done.
      destruct t; try done. simpl in Kx. destruct (h !! b) as [[]|]; congruence. }
    destruct x as [| | | | | | | | |a|a|t a]; try done.
    1,2: destruct Hx as [s Hs'];
         match goal with |- ∃ _, hash_equal_aux _ _ _ ?z _ = _ ∧ _ =>
           assert (key_of h z = KString s) as Kx by (simpl; by rewrite Hs') end;
         exists (HASH_XXXX_STRING_BODY s hv); split;
         [by apply Hs|apply Hs; [by apply (Hst s)|congruence]].
    destruct t; try done. destruct Lx as (m & bx & Hbx & Hm).
    assert (key_of h (OObj mkcl_t_bitvector a) = KBits (take m bx)) as Kx
      by (simpl; by rewrite Hbx, drop_0).
    rewrite Kx in Hk.
    destruct y as [| | | | | | | | |b|b|t b]; try done.
    1,2: simpl in Hk, Hy; destruct Hy as [s' Hs']; by rewrite Hs' in Hk.
    destruct t; try done. destruct Ly as (m' & bY & HbY & Hm').
    simpl in Hk. rewrite HbY, drop_0 in Hk. injection Hk as Hk.
    pose proof (f_equal length Hk) as Hl. rewrite !length_take in Hl. assert (m = m') as <- by lia.
    eexists. cbn [hash_equal_aux]. rewrite Hbx, HbY. split; [reflexivity|].
    assert (8 * (m / 8) ≤ m)%nat by (apply Nat.Div0.mul_div_le).
    rewrite <- (bit_bytes_take _ bx m), <- (bit_bytes_take _ bY m), Hk by done. done.
Qed.

Lemma hash_equal_tree n d hv h x y tx ty :
  reps anywhere h x tx → reps anywhere h y ty → leaves_ok h tx → leaves_ok h ty →
  hash_leaves h tx → hash_leaves h ty → key_of_tree h tx = key_of_tree h ty →
  (S (height tx) < n)%nat →
  ∃ r, hash_equal_aux n d hv x h = Done r h ∧ hash_equal_aux n d hv y h = Done r h.
Proof.
  revert n d hv x y ty. induction tx as [x0|l IHl r IHr]; intros n d hv x y ty Hx Hy Ox Oy Lx Ly Hk Hn;
    destruct ty as [y0|l' r']; try done.
  - destruct Hx as [-> Hcx], Hy as [-> Hcy]. simpl in Hk. injection Hk as Hk.
    destruct n as [|[|n]]; [simpl in Hn; lia..|]. by apply hash_equal_leaf.
  - destruct Hx as (a & v & e & -> & _ & Ha & Hl & Hr), Hy as (b & w & f & -> & _ & Hb & Hl' & Hr').
    destruct Ox, Oy, Lx, Ly. simpl in Hk. injection Hk as Hkl Hkr. simpl in Hn.
    destruct n as [|n]; [lia|]. cbn [hash_equal_aux].
    destruct (d - 1 =? 0); [by eexists|].
    rewrite (bind_Done _ _ _ _ _ (CAR_eq _ _ _ _ Ha)), (bind_Done _ _ _ _ _ (CAR_eq _ _ _ _ Hb)).
    destruct (IHl n (d - 1) hv v w l') as (r1 & E1 & E1'); try done; [lia|].
    rewrite (bind_Done _ _ _ _ _ E1), (bind_Done _ _ _ _ _ E1').
    rewrite (bind_Done _ _ _ _ _ (CDR_eq _ _ _ _ Ha)), (bind_Done _ _ _ _ _ (CDR_eq _ _ _ _ Hb)).
    apply (IHr n (d - 1) r1 e f r'); try done. lia.
Qed.

(** C10: EQUAL trees have the same hash value, whose depth limit of three levels of
    conses loses contents but never separates them.  Left out are pathnames and
    foreign objects, random states, and bit vectors displaced inside a byte. *)
Theorem hash_equal_respects n h x y tx ty :
  reps anywhere h x tx → reps anywhere h y ty → leaves_ok h tx → leaves_ok h ty →
  hash_leaves h tx → hash_leaves h ty → (S (height tx) < n)%nat →
  mkcl_equal n x y h = Done true h →
  ∃ r, hash_equal n x h = Done r h ∧ hash_equal n y h = Done r h.
Proof.
  intros Hx Hy Ox Oy Lx Ly Hn He.
  rewrite (mkcl_equal_keys n h x y tx ty) in He by (done || lia). injection He as He.
  apply bool_decide_eq_true in He. by apply (hash_equal_tree n 3 0 h x y tx ty).
Qed.
End with_memory.

(** ** Instances and exceptions *)

#[export] Instance memory_ref : Memory := {
  machine_address a := 16 * a;
  nan_bytes k := replicate (match k with SF => 4%nat | DF => 8%nat | LF => 10%nat end) 255;
}.

(** The bits 1 0 1 0 1 0 1 0, at the start of their storage and one bit later,
    and two foreign objects for the same memory. *)
Definition exception_heap : heap := list_to_map
  [(1, CBits 0 8 [true; false; true; false; true; false; true; false]);
   (2, CBits 1 8 [true; true; false; true; false; true; false; true; false]);
   (3, CForeign 4096 8 ONil); (4, CForeign 4096 8 ONil)].

(** The hash function of EQUAL tables separates EQUAL bit vectors when one is
    displaced inside a byte, and EQUAL foreign objects. *)
Theorem hash_equal_separates_equal :
  (mkcl_equal 1 (OObj mkcl_t_bitvector 1) (OObj mkcl_t_bitvector 2) exception_heap
     = Done true exception_heap ∧
   ∃ v w, v ≠ w ∧ hash_equal 1 (OObj mkcl_t_bitvector 1) exception_heap = Done v exception_heap ∧
     hash_equal 1 (OObj mkcl_t_bitvector 2) exception_heap = Done w exception_heap) ∧
  (mkcl_equal 2 (OObj mkcl_t_foreign 3) (OObj mkcl_t_foreign 4) exception_heap
     = Done true exception_heap ∧
   ∃ v w, v ≠ w ∧ hash_equal 1 (OObj mkcl_t_foreign 3) exception_heap = Done v exception_heap ∧
     hash_equal 1 (OObj mkcl_t_foreign 4) exception_heap = Done w exception_heap).
Proof.
  split; (split; [reflexivity|]).
  - exists (hash_mem_region 0 [85]), (hash_mem_region 0 [171]).
    split; [vm_compute; congruence|]. split; reflexivity.
  - exists (hash_word 0 12), (hash_word 0 16).
    split; [vm_compute; congruence|]. split; reflexivity.
Qed.

(** The list [("AB" 5 foo)] twice, with strings of the two types. *)
Definition hash_heap : heap := list_to_map
  [(1, CCons (OString 10) (OCons 2)); (2, CCons (OFix 5) (OCons 3)); (3, CCons (OSym 20) ONil);
   (4, CCons (OBaseString 11) (OCons 5)); (5, CCons (OFix 5) (OCons 6)); (6, CCons (OSym 20) ONil);
   (10, CStr [65; 66]); (11, CStr [65; 66]); (12, CStr [102; 111; 111]);
   (20, CSym {| sym_name := OBaseString 12; sym_plist := ONil; sym_hpack := ONil;
                sym_stype := 0; sym_value := None |})].
Definition hash_tree1 : tree := list_tree [Leaf (OString 10); Leaf (OFix 5); Leaf (OSym 20)] ONil.
Definition hash_tree2 : tree := list_tree [Leaf (OBaseString 11); Leaf (OFix 5); Leaf (OSym 20)] ONil.

Ltac reps_eval := repeat (do 3 eexists; do 3 (split; [done|]); split; [done|]); done.

Lemma hash_equal_respects_witness :
  ∃ r, hash_equal 6 (OCons 1) hash_heap = Done r hash_heap ∧
       hash_equal 6 (OCons 4) hash_heap = Done r hash_heap.
Proof.
  apply (hash_equal_respects 6 hash_heap (OCons 1) (OCons 4) hash_tree1 hash_tree2);
    [reps_eval|reps_eval| | | | |simpl; lia|reflexivity].
  - split; [by eexists|done].
  - split; [by eexists|done].
  - do 2 (split; [done|]). split; [|done]. do 3 eexists. split; [reflexivity|]. split; [by left|done].
  - do 2 (split; [done|]). split; [|done]. do 3 eexists. split; [reflexivity|]. split; [by left|done].
Defined.

Lemma hash_eql_respects_witness : hash_eql (OBig 1 (2 ^ 70)) = hash_eql (OBig 2 (2 ^ 70)).
Proof. apply (hash_eql_respects (OBig 1 (2 ^ 70)) (OBig 2 (2 ^ 70))). reflexivity. Defined.

Lemma sxhash_is_fixnum_witness :
  ∃ z, OFix 27772162738739335 = OFix z ∧ 0 ≤ z ≤ MKCL_MOST_POSITIVE_FIXNUM.
Proof.
  apply (sxhash_is_fixnum 2 (OBaseString 11) hash_heap _ hash_heap). vm_compute. reflexivity.
Defined.
