(* ===== verification/HashTable.v ===== *)
(** * HashTable: hash tables, src/src/c/hash.c

    A table object refers to a header cell [CHash], which refers to a vector of
    chains [CChains]; the entries of a chain are cells linked by their [next]
    field, as are the free entries kept for later.  The operations are those of
    the C code on these cells: they relink entries and never copy them, except
    to copy a table.

    The arithmetic that makes sizes out of rehash sizes and thresholds is that of
    the number modules and is the interface [RealArith] here; so is the hash
    function of EQUALP tables. *)

From S2P Require Import Prelude Words Objects Heap Numbers Segments Equal Lists ListSearch Hash.
#[local] Open Scope Z_scope.

(** What the number modules provide: src/src/c/num_pred.c, num_comp.c,
    num_arith.c and num_co.c. *)
Class RealArith := {
  mkcl_plusp : obj → M bool;
  mkcl_minusp : obj → M bool;
  mkcl_number_compare : obj → obj → M Z;
  mkcl_times : obj → obj → M obj;
  mkcl_ceiling1 : obj → M obj;
  mkcl_round1 : obj → M obj;
  mkcl_to_double : obj → M obj;       (* boxed again, by [mkcl_make_doublefloat] *)
}.

(** The symbols that name the tests, and the hash function of EQUALP tables. *)
Class HashEnv := {
  MK_CL_eq : obj;
  MK_CL_eql : obj;
  MK_CL_equal : obj;
  MK_CL_equalp : obj;
  hash_equalp : obj → M Z;
}.

Definition mkcl_floatp (x : obj) : bool := match x with OFloat _ _ _ => true | _ => false end.
Definition mkcl_realp (x : obj) : bool :=
  match x with OFix _ | OBig _ _ | ORatio _ _ _ | OFloat _ _ _ => true | _ => false end.

(** ** Access to the cells *)

Definition table_addr (x : obj) : option Z :=
  match x with OObj mkcl_t_hashtable a => Some a | _ => None end.

Definition mkcl_assert_type_hash_table (x : obj) : M unit :=
  match table_addr x with Some _ => mret tt | None => raise (FEtype_error_hash_table x) end.

Definition read_hash (x : obj) : M hashtable := λ h,
  match table_addr x with
  | Some a => match h !! a with Some (CHash t) => Done t h | _ => Fail Segfault h end
  | None => Fail Segfault h
  end.

Definition write_hash (x : obj) (t : hashtable) : M unit :=
  match table_addr x with Some a => write_cell a (CHash t) | None => raise Segfault end.

Definition read_chains (a : Z) : M (list (option Z)) := λ h,
  match h !! a with Some (CChains roots) => Done roots h | _ => Fail Segfault h end.

(** [data[i]] *)
Definition read_root (data : Z) (i : nat) : M (option Z) :=
  roots ← read_chains data;
  match roots !! i with Some p => mret p | None => raise Segfault end.
Definition write_root (data : Z) (i : nat) (p : option Z) : M unit :=
  roots ← read_chains data;
  match roots !! i with
  | Some _ => write_cell data (CChains (<[i := p]> roots))
  | None => raise Segfault
  end.

(** An entry: [next], [key], [hashed_key], [value]. *)
Definition entry : Type := option Z * option obj * Z * option obj.
Definition read_entry (a : Z) : M entry := λ h,
  match h !! a with Some (CEntry n k hk v) => Done (n, k, hk, v) h | _ => Fail Segfault h end.

(** [e->next = p] *)
Definition write_next (a : Z) (p : option Z) : M unit :=
  e ← read_entry a; let '(_, k, hk, v) := e in write_cell a (CEntry p k hk v).

(** [hashed_key % hsize]; a division by zero is a fault. *)
Definition chain_index (hashed_key hsize : Z) : M nat :=
  if hsize =? 0 then raise Segfault else mret (Z.to_nat (hashed_key mod hsize)).

(** [for (i = 0; i < n; i++) body(i);] *)
Fixpoint for_loop (i n : nat) (body : nat → M unit) : M unit :=
  match n with O => mret tt | S n => body i;; for_loop (S i) n body end.

(** The changes of one field. *)
Definition set_entries (t : hashtable) (n : Z) : hashtable :=
  {| hash_test := hash_test t; hash_data := hash_data t; hash_entries := n; hash_size := hash_size t;
     hash_rehash_size := hash_rehash_size t; hash_threshold := hash_threshold t;
     hash_factor_of_16th := hash_factor_of_16th t; hash_free_bucket := hash_free_bucket t |}.
Definition set_free_bucket (t : hashtable) (p : option Z) : hashtable :=
  {| hash_test := hash_test t; hash_data := hash_data t; hash_entries := hash_entries t;
     hash_size := hash_size t; hash_rehash_size := hash_rehash_size t;
     hash_threshold := hash_threshold t; hash_factor_of_16th := hash_factor_of_16th t;
     hash_free_bucket := p |}.
Definition set_data_size (t : hashtable) (data size : Z) : hashtable :=
  {| hash_test := hash_test t; hash_data := data; hash_entries := hash_entries t;
     hash_size := size; hash_rehash_size := hash_rehash_size t;
     hash_threshold := hash_threshold t; hash_factor_of_16th := hash_factor_of_16th t;
     hash_free_bucket := hash_free_bucket t |}.

Section with_runtime.
Context `{!GMP, !Memory, !Runtime, !RealArith, !HashEnv} (fuel : nat).

(** ** The functions a table uses for its keys *)

Definition equality_fun (t : httest) (x y : obj) : M bool :=
  match t with
  | mkcl_htt_eq => mret (obj_eq x y)
  | mkcl_htt_eql => mret (mkcl_eql x y)
  | mkcl_htt_equal => mkcl_equal fuel x y
  | mkcl_htt_equalp => mkcl_equalp x y
  | mkcl_htt_package => mkcl_string_E x y
  end.

Definition hash_fun (t : httest) (x : obj) : M Z :=
  match t with
  | mkcl_htt_eq => mret (hash_eq x)
  | mkcl_htt_eql => mret (hash_eql x)
  | mkcl_htt_equal => hash_equal fuel x
  | mkcl_htt_equalp => hash_equalp x
  | mkcl_htt_package => mkcl_hash_equal_package x
  end.

(** ** Search *)

(** An entry of a chain has a key: only removed entries have MKCL_OBJNULL. *)
Definition key_test (t : httest) (key : obj) (k : option obj) : M bool :=
  match k with Some k => equality_fun t key k | None => raise Segfault end.

Definition search_chain (t : httest) (key : obj) (e : option Z) : M (option Z) :=
  loop fuel (λ e : option Z,
    match e with
    | None => mret (inr None)
    | Some a =>
        en ← read_entry a; let '(next, k, _, _) := en in
        b ← key_test t key k;
        if (b : bool) then mret (inr (Some a)) else mret (inl next)
    end) e.

(** The result is the address of the entry. *)
Definition _search_hash (hashed_key : Z) (key ht : obj) : M (option Z) :=
  t ← read_hash ht;
  i ← chain_index hashed_key (hash_size t);
  e ← read_root (hash_data t) i;
  search_chain (hash_test t) key e.

Definition mkcl_search_hash (key ht : obj) : M (option Z) :=
  t ← read_hash ht; hk ← hash_fun (hash_test t) key; _search_hash hk key ht.

Definition entry_value (a : Z) : M (option obj) := e ← read_entry a; mret e.2.

Definition value_or (e : option Z) (def : obj) : M obj :=
  match e with
  | Some a => v ← entry_value a; match v with Some v => mret v | None => raise Segfault end
  | None => mret def
  end.

(** [None] is MKCL_OBJNULL. *)
Definition mkcl_package_gethash (name ht : obj) (hashed_name : Z) : M (option obj) :=
  e ← _search_hash hashed_name name ht;
  match e with Some a => entry_value a | None => mret None end.

Definition mkcl_gethash_safe (key ht def : obj) : M obj :=
  mkcl_assert_type_hash_table ht;; e ← mkcl_search_hash key ht; value_or e def.

Definition mk_cl_gethash (key ht no_value : obj) : M (obj * obj) :=
  mkcl_assert_type_hash_table ht;;
  e ← mkcl_search_hash key ht;
  v ← value_or e no_value;
  mret (v, lisp_bool (bool_decide (is_Some e))).

(** ** Growth *)

Definition new_hash_size (t : hashtable) : M Z :=
  let old_size := hash_size t in
  new_size_obj ← (match hash_rehash_size t with
                  | OFix r => mkcl_make_integer (r + fixnum_wrap old_size)   (* mkcl_plus *)
                  | r => x ← mkcl_times r (MKCL_MAKE_FIXNUM old_size); mkcl_ceiling1 x
                  end);
  match new_size_obj with
  | OFix n => mret (uwrap n)
  | _ => mret (uwrap (old_size * 2))
  end.

(** [for (; e != NULL; e = old_e_next)]: the entries of a chain are pushed on the
    chains of the new vector. *)
Definition move_chain (new_data new_size : Z) (e : option Z) : M unit :=
  loop fuel (λ e : option Z,
    match e with
    | None => mret (inr tt)
    | Some a =>
        en ← read_entry a; let '(old_e_next, _, hk, _) := en in
        i ← chain_index hk new_size;
        root ← read_root new_data i;
        write_next a root;;
        write_root new_data i (Some a);;
        mret (inl old_e_next)
    end) e.

Definition mkcl_extend_hashtable (ht : obj) : M unit :=
  mkcl_assert_type_hash_table ht;;
  t ← read_hash ht;
  let old_size := hash_size t in
  new_size ← new_hash_size t;
  new_data ← alloc (CChains (replicate (Z.to_nat new_size) None));
  for_loop 0 (Z.to_nat old_size) (λ i,
    e ← read_root (hash_data t) i; move_chain new_data new_size e);;
  write_hash ht (set_data_size t new_data new_size).

Definition must_extend (t : hashtable) : bool :=
  let i := hash_entries t + 1 in
  (hash_size t <=? i) ||
  ((Z.land i (uwrap (Z.shiftl (-1) (MKCL_WORD_BITS - 4))) =? 0) &&
   (uwrap (hash_size t * hash_factor_of_16th t) <=? uwrap (i * 16))).

(** ** Insertion *)

(** A free entry of the table, or a new one. *)
Definition take_entry (ht : obj) : M Z :=
  t ← read_hash ht;
  match hash_free_bucket t with
  | Some a =>
      en ← read_entry a; let '(next, _, _, _) := en in
      write_hash ht (set_free_bucket t next);; mret a
  | None => alloc (CEntry None None 0 None)
  end.

Definition add_new_to_hash (hashed_key : Z) (key ht value : obj) : M unit :=
  t ← read_hash ht;
  when (must_extend t) (mkcl_extend_hashtable ht);;
  t ← read_hash ht;
  i ← chain_index hashed_key (hash_size t);
  e ← take_entry ht;
  t ← read_hash ht;
  write_hash ht (set_entries t (hash_entries t + 1));;
  root ← read_root (hash_data t) i;
  write_cell e (CEntry root (Some key) hashed_key (Some value));;
  write_root (hash_data t) i (Some e).

(** [e->value = value] *)
Definition write_value (a : Z) (value : obj) : M unit :=
  en ← read_entry a; let '(next, k, hk, _) := en in write_cell a (CEntry next k hk (Some value)).

Definition mkcl_sethash (key ht value : obj) : M unit :=
  t ← read_hash ht;
  hashed_key ← hash_fun (hash_test t) key;
  e ← _search_hash hashed_key key ht;
  match e with
  | Some a => write_value a value
  | None => add_new_to_hash hashed_key key ht value
  end.

Definition mkcl_package_sethash_new (key ht value : obj) (hashed_key : Z) : M unit :=
  add_new_to_hash hashed_key key ht value.

Definition mk_si_hash_set (key ht val : obj) : M obj :=
  mkcl_assert_type_hash_table ht;; mkcl_sethash key ht val;; mret val.

(** ** Removal *)

(** A pointer to a pointer to an entry: a root of the vector, or the [next] field
    of an entry. *)
Inductive entry_slot := SlotRoot (data : Z) (i : nat) | SlotNext (e : Z).

Definition write_slot (s : entry_slot) (p : option Z) : M unit :=
  match s with SlotRoot d i => write_root d i p | SlotNext e => write_next e p end.

(** Put on the free list, with its contents erased. *)
Definition free_entry (ht : obj) (a : Z) : M unit :=
  t ← read_hash ht;
  write_cell a (CEntry (hash_free_bucket t) None 0 None);;
  write_hash ht (set_free_bucket t (Some a)).

Definition mkcl_remhash (key ht : obj) : M bool :=
  mkcl_assert_type_hash_table ht;;
  t0 ← read_hash ht;
  hk ← hash_fun (hash_test t0) key;
  i ← chain_index hk (hash_size t0);
  t ← read_hash ht;
  e ← read_root (hash_data t) i;
  loop fuel (λ '(root, e),
    match e with
    | None => mret (inr false)
    | Some a =>
        en ← read_entry a; let '(next, k, _, _) := en in
        b ← key_test (hash_test t) key k;
        if (b : bool) then
          write_slot root next;;
          t ← read_hash ht;
          write_hash ht (set_entries t (hash_entries t - 1));;
          free_entry ht a;;
          mret (inr true)
        else mret (inl (SlotNext a, next))
    end) (SlotRoot (hash_data t) i, e).

Definition mk_cl_remhash (key ht : obj) : M obj :=
  b ← mkcl_remhash key ht; mret (lisp_bool b).

Definition do_clrhash (ht : obj) : M unit :=
  t ← read_hash ht;
  write_hash ht (set_entries t 0);;
  for_loop 0 (Z.to_nat (hash_size t)) (λ i,
    e ← read_root (hash_data t) i;
    loop fuel (λ e : option Z,
      match e with
      | None => mret (inr tt)
      | Some a =>
          en ← read_entry a; let '(old_e_next, _, _, _) := en in
          free_entry ht a;; mret (inl old_e_next)
      end) e;;
    write_root (hash_data t) i None).

Definition mk_cl_clrhash (ht : obj) : M obj :=
  mkcl_assert_type_hash_table ht;;
  t ← read_hash ht;
  when (negb (hash_entries t =? 0)) (do_clrhash ht);;
  mret ht.
End with_runtime.
