(* ===== verification/HashMore.v ===== *)
(** * HashMore: making, reading, iterating and copying tables, src/src/c/hash.c

    The state of an iterator is the pair of variables of the closure that the C
    code makes: the entry to resume from and the index of its chain. *)

From S2P Require Import Prelude Words Objects Heap Numbers Segments Equal Lists ListSearch Hash.
From S2P Require Import HashTable.
#[local] Open Scope Z_scope.

Section with_runtime.
Context `{!GMP, !Memory, !Runtime, !RealArith, !HashEnv} (fuel : nat).

(** ** Making a table *)

(** The table of the symbols of a package: [rehash_size] and [threshold] are the
    single floats 1.5 and 0.75, and nothing is checked. *)
Definition mkcl_make_hashtable_for_package (hsize : Z) (f1_5 f0_75 : obj) : M obj :=
  d ← alloc (CChains (replicate (Z.to_nat hsize) None));
  a ← alloc (CHash {| hash_test := mkcl_htt_package; hash_data := d; hash_entries := 0;
                      hash_size := hsize; hash_rehash_size := f1_5; hash_threshold := f0_75;
                      hash_factor_of_16th := 12; hash_free_bucket := None |});
  mret (OObj mkcl_t_hashtable a).

(** The symbol that names the test, or the function. *)
Definition find_httest (test : obj) : option httest :=
  if obj_eq test MK_CL_eq || obj_eq test fun_eq then Some mkcl_htt_eq
  else if obj_eq test MK_CL_eql || obj_eq test fun_eql then Some mkcl_htt_eql
  else if obj_eq test MK_CL_equal || obj_eq test fun_equal then Some mkcl_htt_equal
  else if obj_eq test MK_CL_equalp || obj_eq test fun_equalp then Some mkcl_htt_equalp
  else None.

(** Type errors that another value can repair are errors here. *)
Definition check_rehash_size (rehash_size : obj) : M obj :=
  p ← mkcl_plusp rehash_size;
  if negb p then raise (FEtype_error_rehash_size rehash_size)
  else if mkcl_floatp rehash_size then
    c ← mkcl_number_compare rehash_size (MKCL_MAKE_FIXNUM 1);
    if c <=? 0 then raise (FEtype_error_rehash_size rehash_size) else mkcl_to_double rehash_size
  else if negb (MKCL_FIXNUMP rehash_size) then raise (FEtype_error_rehash_size rehash_size)
  else mret rehash_size.

Definition check_rehash_threshold (rehash_threshold : obj) : M unit :=
  if negb (mkcl_realp rehash_threshold) then raise (FEtype_error_rehash_threshold rehash_threshold)
  else
    m ← mkcl_minusp rehash_threshold;
    if (m : bool) then raise (FEtype_error_rehash_threshold rehash_threshold)
    else
      c ← mkcl_number_compare rehash_threshold (MKCL_MAKE_FIXNUM 1);
      if 0 <? c then raise (FEtype_error_rehash_threshold rehash_threshold) else mret tt.

(** The header is allocated when all its fields are known. *)
Definition mk_cl__make_hash_table (test size rehash_size rehash_threshold : obj) : M obj :=
  match find_httest test with
  | None => raise (FEerror "~S is an illegal hash-table test function." [test])
  | Some htt =>
      hsize ← mkcl_fixnum_in_range size 0 MKCL_MOST_POSITIVE_FIXNUM;
      let hsize := if hsize <? 16 then 16 else hsize in
      rehash_size ← check_rehash_size rehash_size;
      check_rehash_threshold rehash_threshold;;
      d ← alloc (CChains (replicate (Z.to_nat hsize) None));
      x ← mkcl_times rehash_threshold (MKCL_MAKE_FIXNUM 16);
      factor ← mkcl_round1 x;
      factor ← mkcl_integer_to_index factor;
      let factor := if factor =? 0 then 1 else factor in
      a ← alloc (CHash {| hash_test := htt; hash_data := d; hash_entries := 0; hash_size := hsize;
                          hash_rehash_size := rehash_size; hash_threshold := rehash_threshold;
                          hash_factor_of_16th := factor; hash_free_bucket := None |});
      mret (OObj mkcl_t_hashtable a)
  end.

(** The keyword arguments, and the single floats 1.5 and 0.7 that are defaults. *)
Definition mk_cl_make_hash_table (test size rehash_size rehash_threshold : option obj) (f1_5 f0_7 : obj) : M obj :=
  mk_cl__make_hash_table (default MK_CL_eql test) (default (MKCL_MAKE_FIXNUM 1024) size)
    (default f1_5 rehash_size) (default f0_7 rehash_threshold).

(** ** Fields *)

Definition mk_cl_hash_table_p (ht : obj) : M obj :=
  mret (lisp_bool (bool_decide (mkcl_type_of ht = mkcl_t_hashtable))).

Definition table_field {A} (f : hashtable → A) (ht : obj) : M A :=
  mkcl_assert_type_hash_table ht;; t ← read_hash ht; mret (f t).

Definition mk_cl_hash_table_test (ht : obj) : M obj :=
  table_field (λ t, match hash_test t with
                    | mkcl_htt_eq => MK_CL_eq
                    | mkcl_htt_eql => MK_CL_eql
                    | mkcl_htt_equal => MK_CL_equal
                    | mkcl_htt_equalp => MK_CL_equalp
                    | mkcl_htt_package => MK_CL_equal
                    end) ht.
Definition mk_cl_hash_table_size (ht : obj) : M obj :=
  table_field (λ t, MKCL_MAKE_FIXNUM (hash_size t)) ht.
Definition mk_cl_hash_table_count (ht : obj) : M obj :=
  table_field (λ t, MKCL_MAKE_FIXNUM (hash_entries t)) ht.
Definition mk_cl_hash_table_rehash_size (ht : obj) : M obj := table_field hash_rehash_size ht.
Definition mk_cl_hash_table_rehash_threshold (ht : obj) : M obj := table_field hash_threshold ht.

(** ** Iteration *)

(** The first entry of a chain with a key: its key, its value, and the next one. *)
Definition scan_chain (e : option Z) : M (option (obj * obj * option Z)) :=
  loop fuel (λ e : option Z,
    match e with
    | None => mret (inr None)
    | Some a =>
        en ← read_entry a; let '(next, k, _, v) := en in
        match k with
        | Some k =>
            match v with
            | Some v => mret (inr (Some (k, v, next)))
            | None => raise Segfault
            end
        | None => mret (inl next)
        end
    end) e.

(** [for (; bucket_index < hsize; bucket_index++)] over the [n] chains left. *)
Fixpoint scan_chains (data : Z) (bucket_index n : nat) :
    M (option (obj * obj) * (option Z * nat)) :=
  match n with
  | O => mret (None, (None, bucket_index))
  | S n =>
      e ← read_root data bucket_index;
      r ← scan_chain e;
      match r with
      | Some (k, v, next) => mret (Some (k, v), (next, bucket_index))
      | None => scan_chains data (S bucket_index) n
      end
  end.

Definition mkcl_hash_table_iterate (ht : obj) (state : option Z * nat) :
    M (option (obj * obj) * (option Z * nat)) :=
  let '(next, bucket_index) := state in
  t ← read_hash ht;
  let hsize := Z.to_nat (hash_size t) in
  let rest bucket_index := scan_chains (hash_data t) bucket_index (hsize - bucket_index) in
  match next with
  | Some a =>
      r ← scan_chain next;
      match r with
      | Some (k, v, next) => mret (Some (k, v), (next, bucket_index))
      | None => rest bucket_index
      end
  | None => rest (if (bucket_index <? hsize)%nat then S bucket_index else bucket_index)
  end.

(** The state of a new iterator. *)
Definition mk_si_hash_table_iterator (ht : obj) : M (option Z * nat) :=
  mkcl_assert_type_hash_table ht;;
  t ← read_hash ht; e ← read_root (hash_data t) 0; mret (e, 0%nat).

(** The next entry is read before the call, which may remove the current one. *)
Definition mk_cl_maphash (fn ht : obj) : M obj :=
  mkcl_assert_type_hash_table ht;;
  t ← read_hash ht;
  for_loop 0 (Z.to_nat (hash_size t)) (λ i,
    e ← read_root (hash_data t) i;
    loop fuel (λ e : option Z,
      match e with
      | None => mret (inr tt)
      | Some a =>
          en ← read_entry a; let '(next, k, _, v) := en in
          match k, v with
          | None, _ => mret (inl next)
          | Some k, Some v => _ ← call_function fn [k; v]; mret (inl next)
          | Some _, None => raise Segfault
          end
      end) e);;
  mret ONil.

(** ** Copy *)

Definition copy_entry (a : Z) : M (Z * option Z) :=
  en ← read_entry a; let '(next, k, hk, v) := en in
  e ← alloc (CEntry None k hk v); mret (e, next).

Definition copy_hash_table_chain (chain : option Z) : M (option Z) :=
  match chain with
  | None => mret None
  | Some a =>
      c ← copy_entry a; let '(root, chain) := c in
      loop fuel (λ '(head, chain),
        match chain with
        | None => mret (inr tt)
        | Some a =>
            c ← copy_entry a; let '(this, next) := c in
            write_next head (Some this);;
            mret (inl (this, next))
        end) (root, chain);;
      mret (Some root)
  end.

Definition mk_si_copy_hash_table (orig : obj) : M obj :=
  test ← mk_cl_hash_table_test orig;
  size ← mk_cl_hash_table_size orig;
  rehash_size ← mk_cl_hash_table_rehash_size orig;
  threshold ← mk_cl_hash_table_rehash_threshold orig;
  hash ← mk_cl__make_hash_table test size rehash_size threshold;
  t ← read_hash orig;
  for_loop 0 (Z.to_nat (hash_size t)) (λ i,
    e ← read_root (hash_data t) i;
    c ← copy_hash_table_chain e;
    th ← read_hash hash;
    write_root (hash_data th) i c);;
  t ← read_hash orig;
  th ← read_hash hash;
  write_hash hash (set_entries th (hash_entries t));;
  mret hash.
End with_runtime.
