(* ===== verification/HashSpecs.v ===== *)
(** * HashSpecs: entry chains in the heap, and rules for the cells of hash tables

    A chain is the list of its nodes: the address of an entry with what it holds.
    The rules are the weakest preconditions of the accesses of HashTable.v. *)

From S2P Require Import Prelude Words Objects Heap Numbers Segments Equal Lists ListSearch Hash HashTable.
#[local] Open Scope Z_scope.

Record node := Node { n_addr : Z; n_hash : Z; n_key : obj; n_val : obj }.

#[export] Instance node_eq_dec : EqDecision node.
Proof. solve_decision. Defined.

(** The entries from [p] on, to the null pointer. *)
Fixpoint chain (h : heap) (p : option Z) (ns : list node) : Prop :=
  match ns with
  | [] => p = None
  | n :: ns' => p = Some (n_addr n) ∧ ∃ q,
      h !! n_addr n = Some (CEntry q (Some (n_key n)) (n_hash n) (Some (n_val n))) ∧ chain h q ns'
  end.

(** The free entries from [p] on. *)
Fixpoint free_chain (h : heap) (p : option Z) (fs : list Z) : Prop :=
  match fs with
  | [] => p = None
  | a :: fs' => p = Some a ∧ ∃ q, h !! a = Some (CEntry q None 0 None) ∧ free_chain h q fs'
  end.

(** Outside the cells [F], what is in [h] is in [h']. *)
Definition only_cells (F : list Z) (h h' : heap) : Prop :=
  ∀ c x, h !! c = Some x → c ∉ F → h' !! c = Some x.

Lemma only_cells_refl F h : only_cells F h h.
Proof. by intros c x Hc _. Qed.

Lemma only_cells_trans F h h1 h2 :
  only_cells F h h1 → only_cells F h1 h2 → only_cells F h h2.
Proof. intros H1 H2 c x Hc Hn. by apply H2; [apply H1|]. Qed.

(** The second step may also change what the first one made. *)
Lemma only_cells_new F F' h h1 h2 :
  only_cells F h h1 → only_cells F' h1 h2 → (∀ c, c ∈ F' → c ∈ F ∨ h !! c = None) →
  only_cells F h h2.
Proof.
  intros H1 H2 HF c x Hc Hn. apply H2; [by apply H1|]. intros [?|?]%HF; [done|congruence].
Qed.

Lemma only_cells_mono F F' h h' : (∀ c, c ∈ F → c ∈ F') → only_cells F h h' → only_cells F' h h'.
Proof. intros HF H c x Hc Hn. apply H; [done|]. auto. Qed.

Lemma only_cells_insert F h c x : c ∈ F → only_cells F h (<[c := x]> h).
Proof. intros HF d y Hd Hn. rewrite lookup_insert_ne; [done|]. by intros ->. Qed.

Lemma only_cells_subseteq F h h' : h ⊆ h' → only_cells F h h'.
Proof. intros Hs c x Hc _. by eapply lookup_weaken. Qed.

Lemma chain_agree h h' p ns :
  (∀ n x, n ∈ ns → h !! n_addr n = Some x → h' !! n_addr n = Some x) → chain h p ns → chain h' p ns.
Proof.
  revert p. induction ns as [|n ns IH]; intros p Hh; simpl; [done|].
  intros (-> & q & Hn & Hc). split; [done|]. exists q. split.
  - apply Hh; [by left|done].
  - apply IH; [|done]. intros m x Hm. apply Hh. by right.
Qed.

Lemma chain_only h h' F p ns :
  only_cells F h h' → (∀ n, n ∈ ns → n_addr n ∉ F) → chain h p ns → chain h' p ns.
Proof. intros Ho HF. apply chain_agree. intros n x Hn Hx. apply Ho; [done|]. by apply HF. Qed.

Lemma chain_elem h p ns n :
  chain h p ns → n ∈ ns →
  ∃ q, h !! n_addr n = Some (CEntry q (Some (n_key n)) (n_hash n) (Some (n_val n))).
Proof.
  revert p. induction ns as [|m ns IH]; intros p; simpl; [by intros _ ?%elem_of_nil|].
  intros (-> & q & Hm & Hc) [->|Hn]%elem_of_cons; eauto.
Qed.

Lemma free_chain_agree h h' p fs :
  (∀ a x, a ∈ fs → h !! a = Some x → h' !! a = Some x) → free_chain h p fs → free_chain h' p fs.
Proof.
  revert p. induction fs as [|a fs IH]; intros p Hh; simpl; [done|].
  intros (-> & q & Ha & Hc). split; [done|]. exists q. split.
  - apply Hh; [by left|done].
  - apply IH; [|done]. intros b x Hb. apply Hh. by right.
Qed.

Lemma free_chain_only h h' F p fs :
  only_cells F h h' → (∀ a, a ∈ fs → a ∉ F) → free_chain h p fs → free_chain h' p fs.
Proof. intros Ho HF. apply free_chain_agree. intros a x Ha Hx. apply Ho; [done|]. by apply HF. Qed.

Lemma free_chain_elem h p fs a :
  free_chain h p fs → a ∈ fs → ∃ q, h !! a = Some (CEntry q None 0 None).
Proof.
  revert p. induction fs as [|b fs IH]; intros p; simpl; [by intros _ ?%elem_of_nil|].
  intros (-> & q & Hb & Hc) [->|Ha]%elem_of_cons; eauto.
Qed.

(** An entry in the middle of a chain: written with another value, or skipped. *)
Lemma chain_set_val h p ns1 n ns2 v q :
  chain h p (ns1 ++ n :: ns2) → NoDup (n_addr <$> ns1 ++ n :: ns2) →
  h !! n_addr n = Some (CEntry q (Some (n_key n)) (n_hash n) (Some (n_val n))) →
  chain (<[n_addr n := CEntry q (Some (n_key n)) (n_hash n) (Some v)]> h) p
    (ns1 ++ Node (n_addr n) (n_hash n) (n_key n) v :: ns2).
Proof.
  revert p. induction ns1 as [|m ns1 IH]; intros p; simpl.
  - intros (-> & q' & Hn & Hc) [Hnin Hnd]%NoDup_cons Hq. rewrite Hn in Hq. injection Hq as ->.
    split; [done|]. exists q. rewrite lookup_insert_eq. split; [done|].
    eapply chain_agree; [|done]. intros m x Hm Hx. rewrite lookup_insert_ne; [done|].
    intros Heq. apply Hnin. rewrite Heq. by apply list_elem_of_fmap_2.
  - intros (-> & q' & Hm & Hc) [Hnin Hnd]%NoDup_cons Hq. split; [done|]. exists q'. split; [|by apply IH].
    rewrite lookup_insert_ne; [done|]. intros Heq. apply Hnin. rewrite <- Heq, fmap_app.
    apply elem_of_app. right. by left.
Qed.

Lemma chain_skip h p ns0 m n ns q q' :
  chain h p (ns0 ++ m :: n :: ns) → NoDup (n_addr <$> ns0 ++ m :: n :: ns) →
  h !! n_addr n = Some (CEntry q (Some (n_key n)) (n_hash n) (Some (n_val n))) →
  h !! n_addr m = Some (CEntry q' (Some (n_key m)) (n_hash m) (Some (n_val m))) →
  chain (<[n_addr m := CEntry q (Some (n_key m)) (n_hash m) (Some (n_val m))]> h) p (ns0 ++ m :: ns).
Proof.
  revert p. induction ns0 as [|m0 ns0 IH]; intros p; simpl.
  - intros (-> & q1 & Hm & -> & q2 & Hn & Hc) [Hnin Hnd]%NoDup_cons Hq Hq'.
    rewrite Hn in Hq. injection Hq as ->.
    split; [done|]. exists q. rewrite lookup_insert_eq. split; [done|].
    eapply chain_agree; [|done]. intros x y Hx Hy. rewrite lookup_insert_ne; [done|].
    intros Heq. apply Hnin. rewrite Heq. right. by apply list_elem_of_fmap_2.
  - intros (-> & q1 & Hm & Hc) [Hnin Hnd]%NoDup_cons Hq Hq'. split; [done|]. exists q1.
    split; [|by apply IH]. rewrite lookup_insert_ne; [done|]. intros Heq. apply Hnin.
    rewrite <- Heq, fmap_app. apply elem_of_app. right. by left.
Qed.

Lemma chain_next h p ns1 n ns2 q :
  chain h p (ns1 ++ n :: ns2) →
  h !! n_addr n = Some (CEntry q (Some (n_key n)) (n_hash n) (Some (n_val n))) → chain h q ns2.
Proof.
  revert p. induction ns1 as [|m ns1 IH]; intros p; simpl.
  - intros (_ & q' & Hn & Hc) Hq. rewrite Hn in Hq. by injection Hq as ->.
  - intros (_ & q' & _ & Hc). by eapply IH.
Qed.

(** ** Rules *)

Section rules.
Context (fuel : nat).
Implicit Types (E : lisp_error → heap → Prop).

Lemma wp_read_hash a t h Q E :
  h !! a = Some (CHash t) → Q t h → wp (read_hash (OObj mkcl_t_hashtable a)) h Q E.
Proof. intros Ha. unfold wp, read_hash. simpl. by rewrite Ha. Qed.

Lemma wp_write_hash a t h (Q : unit → heap → Prop) E :
  Q tt (<[a := CHash t]> h) → wp (write_hash (OObj mkcl_t_hashtable a) t) h Q E.
Proof. done. Qed.

Lemma wp_read_root d roots i p h Q E :
  h !! d = Some (CChains roots) → roots !! i = Some p → Q p h → wp (read_root d i) h Q E.
Proof.
  intros Hd Hi HQ. unfold wp, read_root, read_chains, mbind, M_bind. by rewrite Hd, Hi.
Qed.

Lemma wp_write_root d roots i p q h (Q : unit → heap → Prop) E :
  h !! d = Some (CChains roots) → roots !! i = Some p →
  Q tt (<[d := CChains (<[i := q]> roots)]> h) → wp (write_root d i q) h Q E.
Proof.
  intros Hd Hi HQ. unfold wp, write_root, read_chains, mbind, M_bind. by rewrite Hd, Hi.
Qed.

Lemma wp_read_entry a n k hk v h (Q : entry → heap → Prop) E :
  h !! a = Some (CEntry n k hk v) → Q (n, k, hk, v) h → wp (read_entry a) h Q E.
Proof. intros Ha. unfold wp, read_entry. by rewrite Ha. Qed.

Lemma wp_write_next a n k hk v p h (Q : unit → heap → Prop) E :
  h !! a = Some (CEntry n k hk v) → Q tt (<[a := CEntry p k hk v]> h) →
  wp (write_next a p) h Q E.
Proof. intros Ha HQ. apply wp_bind. eapply wp_read_entry; [done|]. done. Qed.

Lemma wp_write_value a n k hk v w h (Q : unit → heap → Prop) E :
  h !! a = Some (CEntry n k hk v) → Q tt (<[a := CEntry n k hk (Some w)]> h) →
  wp (write_value a w) h Q E.
Proof. intros Ha HQ. apply wp_bind. eapply wp_read_entry; [done|]. done. Qed.

Lemma wp_write_cell a c h (Q : unit → heap → Prop) E :
  Q tt (<[a := c]> h) → wp (write_cell a c) h Q E.
Proof. done. Qed.

Lemma wp_alloc c h (Q : Z → heap → Prop) E :
  Q (first_free h) (<[first_free h := c]> h) → wp (alloc c) h Q E.
Proof. done. Qed.

Lemma wp_chain_index hk sz h Q E :
  0 < sz → Q (Z.to_nat (hk mod sz)) h → wp (chain_index hk sz) h Q E.
Proof. intros Hs HQ. unfold chain_index. destruct (Z.eqb_spec sz 0); [lia|]. done. Qed.

Lemma wp_for (I : nat → heap → Prop) i n body h (Q : unit → heap → Prop) E :
  (∀ j h, (i ≤ j < i + n)%nat → I j h → wp (body j) h (λ _ h', I (S j) h') E) →
  I i h → (∀ h', I (i + n)%nat h' → Q tt h') → wp (for_loop i n body) h Q E.
Proof.
  revert i h. induction n as [|n IH]; intros i h Hb Hi HQ; simpl.
  - apply wp_ret, HQ. by rewrite Nat.add_0_r.
  - apply wp_bind. eapply wp_mono; [apply Hb; [lia|done]| |done]. intros u h' HI. simpl in HI.
    apply IH; [|done|].
    + intros j h1 Hj. apply Hb. lia.
    + intros h1 H1. apply HQ. by replace (i + S n)%nat with (S i + n)%nat by lia.
Qed.
End rules.

Ltac hash_step :=
  match goal with
  | |- wp (read_hash _) _ _ _ => eapply wp_read_hash; [eassumption|]
  | |- wp (write_hash _ _) _ _ _ => apply wp_write_hash
  | |- wp (read_entry _) _ _ _ => eapply wp_read_entry; [eassumption|]
  | |- wp (write_cell _ _) _ _ _ => apply wp_write_cell
  | |- wp (alloc _) _ _ _ => apply wp_alloc
  | |- wp (mkcl_assert_type_hash_table (OObj mkcl_t_hashtable _)) _ _ _ => apply wp_ret
  | |- wp (chain_index _ _) _ _ _ => apply wp_chain_index; [lia|]
  | _ => wp_step
  end; cbv beta iota.

Ltac hash_go := repeat hash_step.

(** ** Hash tables implement finite maps

    [TestSpec] is what a table needs of its test: on the keys of a set [K] the
    test is an equivalence that the heap of the table cannot influence, and it is
    finer than the hash function.  Against this interface, a well formed table
    ([table_wf]) has contents, a function from keys to values, and the operations
    change it as those of a finite map; growth and the free list do not show. *)

(** The cells that hash tables are made of. *)
Definition hash_cell (c : cell) : bool :=
  match c with CEntry _ _ _ _ | CChains _ | CHash _ => true | _ => false end.

(** Every object of [h0] that is no part of a hash table is unchanged in [h]. *)
Definition kept (h0 h : heap) : Prop :=
  ∀ a c, h0 !! a = Some c → hash_cell c = false → h !! a = Some c.

Lemma kept_refl h : kept h h.
Proof. by intros a c. Qed.

Class TestSpec `{!GMP, !Memory, !Runtime, !RealArith, !HashEnv} (fuel : nat) (tst : httest)
    (h0 : heap) (K : obj → Prop) (same : obj → obj → bool) (hv : obj → Z) : Prop := {
  ts_eq h x y : kept h0 h → K x → K y → equality_fun fuel tst x y h = Done (same x y) h;
  ts_hash h x : kept h0 h → K x → hash_fun fuel tst x h = Done (hv x) h;
  ts_refl x : K x → same x x = true;
  ts_sym x y : K x → K y → same x y = same y x;
  ts_trans x y z : K x → K y → K z → same x y = true → same y z = true → same x z = true;
  ts_respects x y : K x → K y → same x y = true → hv x = hv y;
}.

(** ** Nodes by their keys *)

Section nodes.
Context (K : obj → Prop) (same : obj → obj → bool).
Hypothesis same_refl : ∀ x, K x → same x x = true.
Hypothesis same_sym : ∀ x y, K x → K y → same x y = same y x.
Hypothesis same_trans : ∀ x y z,
  K x → K y → K z → same x y = true → same y z = true → same x z = true.

Definition find_node (ns : list node) (k : obj) : option node :=
  List.find (λ n, same k (n_key n)) ns.

(** The finite map that a set of entries stands for. *)
Definition contents (ns : list node) (k : obj) : option obj := n_val <$> find_node ns k.

(** Keys of [K], no two of which are the same. *)
Fixpoint uniq (ks : list obj) : Prop :=
  match ks with
  | [] => True
  | k :: ks' => K k ∧ Forall (λ k', same k k' = false) ks' ∧ uniq ks'
  end.

Lemma uniq_K ks k : uniq ks → k ∈ ks → K k.
Proof.
  induction ks as [|k' ks IH]; simpl; [by intros _ ?%elem_of_nil|].
  intros (Hk & _ & Hu) [->|Hin]%elem_of_cons; auto.
Qed.

Lemma uniq_perm ks ks' : ks ≡ₚ ks' → uniq ks → uniq ks'.
Proof.
  induction 1 as [|k ks1 ks2 Hp IH|x y ks|ks1 ks2 ks3 _ IH1 _ IH2]; [done| | |by auto].
  - intros (Hk & Hf & Hu). split_and!; [done|by rewrite <- Hp|auto].
  - simpl. rewrite !Forall_cons. intros (Hy & [Hyx Hfy] & Hx & Hfx & Hu).
    split_and!; [done|by rewrite same_sym|done..].
Qed.

Lemma find_node_some ns k n :
  uniq (n_key <$> ns) → K k → (find_node ns k = Some n ↔ n ∈ ns ∧ same k (n_key n) = true).
Proof.
  intros Hu Hk. induction ns as [|m ns IH]; simpl.
  { split; [done|]. by intros [?%elem_of_nil _]. }
  destruct Hu as (Hm & Hf & Hu). specialize (IH Hu). unfold find_node in *. simpl.
  rewrite elem_of_cons. destruct (same k (n_key m)) eqn:E.
  - split; [intros [= ->]; auto|]. intros [[->|Hn] Hs]; [done|]. exfalso.
    assert (Hkn : K (n_key n)) by (eapply uniq_K; [done|]; by apply list_elem_of_fmap_2).
    rewrite Forall_fmap, Forall_forall in Hf. specialize (Hf n Hn). simpl in Hf.
    assert (same (n_key m) (n_key n) = true) as Ht; [|congruence].
    apply (same_trans _ k); auto. by rewrite same_sym.
  - rewrite IH. split; [naive_solver|]. intros [[->|Hn] Hs]; [congruence|done].
Qed.

Lemma find_node_none ns k :
  find_node ns k = None ↔ Forall (λ k', same k k' = false) (n_key <$> ns).
Proof.
  unfold find_node. induction ns as [|m ns IH]; simpl; [split; [constructor|done]|].
  rewrite Forall_cons. destruct (same k (n_key m)); [split; [done|by intros [? _]]|].
  rewrite IH. naive_solver.
Qed.

Lemma find_node_perm ns ms k :
  ns ≡ₚ ms → uniq (n_key <$> ns) → K k → find_node ns k = find_node ms k.
Proof.
  intros Hp Hu Hk.
  assert (Hu' : uniq (n_key <$> ms)) by (eapply uniq_perm; [|done]; by rewrite Hp).
  destruct (find_node ns k) as [n|] eqn:E.
  - apply find_node_some in E as [Hn Hs]; [|done..]. symmetry. apply find_node_some; [done..|].
    by rewrite <- Hp.
  - symmetry. apply find_node_none. apply find_node_none in E. by rewrite <- Hp.
Qed.

Lemma contents_perm ns ms k :
  ns ≡ₚ ms → uniq (n_key <$> ns) → K k → contents ns k = contents ms k.
Proof. intros. unfold contents. by rewrite (find_node_perm ns ms). Qed.

Lemma contents_cons n ns k : contents (n :: ns) k =
  if same k (n_key n) then Some (n_val n) else contents ns k.
Proof. unfold contents, find_node. simpl. by destruct (same k (n_key n)). Qed.

Lemma contents_none ns k : Forall (λ k', same k k' = false) (n_key <$> ns) → contents ns k = None.
Proof. intros H. unfold contents. by rewrite (proj2 (find_node_none ns k) H). Qed.

(** Keys that the test identifies have the same entry. *)
Lemma same_same k k' x : K k → K k' → K x → same k k' = true → same k x = same k' x.
Proof.
  intros Hk Hk' Hx Hs. destruct (same k' x) eqn:E; [by apply (same_trans k k' x)|].
  destruct (same k x) eqn:E'; [|done]. rewrite <- E. symmetry.
  apply (same_trans k' k x); auto. by rewrite same_sym.
Qed.

(** The contents after the entry of [k] got a value, was removed, or was added. *)
Lemma contents_insert n ns k v k' :
  uniq (n_key <$> n :: ns) → K k → K k' → same k (n_key n) = true →
  contents (Node (n_addr n) (n_hash n) (n_key n) v :: ns) k' =
  if same k k' then Some v else contents (n :: ns) k'.
Proof.
  intros (Hn & Hf & Hu) Hk Hk' Hs. rewrite !contents_cons. simpl.
  assert (same k' (n_key n) = same k k') as ->.
  { rewrite (same_sym k' (n_key n)), (same_sym k k') by done.
    rewrite (same_sym k' k) by done. symmetry. by apply same_same. }
  by destruct (same k k').
Qed.

Lemma contents_delete n ns k k' :
  uniq (n_key <$> n :: ns) → K k → K k' → same k (n_key n) = true →
  contents ns k' = if same k k' then None else contents (n :: ns) k'.
Proof.
  intros (Hn & Hf & Hu) Hk Hk' Hs. rewrite contents_cons.
  assert (Heq : same k' (n_key n) = same k k').
  { rewrite (same_sym k' (n_key n)) by done. symmetry. by apply same_same. }
  rewrite Heq. destruct (same k k') eqn:E; [|done].
  apply contents_none. rewrite Forall_forall in Hf |- *. intros x Hx.
  rewrite <- (same_same (n_key n) k'); auto.
  - by eapply uniq_K.
  - by rewrite same_sym.
Qed.

Lemma contents_add n ns k' :
  K (n_key n) → K k' →
  contents (n :: ns) k' = if same (n_key n) k' then Some (n_val n) else contents ns k'.
Proof. intros Hn Hk'. rewrite contents_cons. by rewrite same_sym. Qed.
End nodes.

(** ** Well formed tables *)

Section tables.
Context `{!GMP, !Memory, !Runtime, !RealArith, !HashEnv} (fuel : nat) (tst : httest) (h0 : heap).
Context (K : obj → Prop) (same : obj → obj → bool) (hv : obj → Z).
Context `{!TestSpec fuel tst h0 K same hv}.

Definition bucket (size : Z) (n : node) : nat := Z.to_nat (n_hash n mod size).

(** The table at [a] with header [t] has the chains [bs] and the free list [fs]. *)
Record table_wf (h : heap) (a : Z) (t : hashtable) (bs : list (list node)) (fs : list Z) : Prop := {
  tw_head : h !! a = Some (CHash t);
  tw_test : hash_test t = tst;
  tw_size : 0 < hash_size t;
  tw_data : ∃ roots, h !! hash_data t = Some (CChains roots) ∧ Forall2 (chain h) roots bs;
  tw_length : length bs = Z.to_nat (hash_size t);
  tw_free : free_chain h (hash_free_bucket t) fs;
  tw_NoDup : NoDup ((n_addr <$> concat bs) ++ fs);
  tw_count : hash_entries t = Z.of_nat (length (concat bs));
  tw_place : ∀ i b n, bs !! i = Some b → n ∈ b →
    n_hash n = hv (n_key n) ∧ bucket (hash_size t) n = i;
  tw_uniq : uniq K same (n_key <$> concat bs);
}.

(** The cells of the table. *)
Definition footprint (a : Z) (t : hashtable) (bs : list (list node)) (fs : list Z) : list Z :=
  a :: hash_data t :: (n_addr <$> concat bs) ++ fs.

Lemma bucket_lt size n : 0 < size → (bucket size n < Z.to_nat size)%nat.
Proof. intros Hs. unfold bucket. pose proof (Z.mod_pos_bound (n_hash n) size Hs). lia. Qed.

Lemma table_chain h a t bs fs i b :
  table_wf h a t bs fs → bs !! i = Some b →
  ∃ roots p, h !! hash_data t = Some (CChains roots) ∧ roots !! i = Some p ∧ chain h p b.
Proof.
  intros [] Hb. destruct tw_data0 as (roots & Hd & Hch).
  destruct (Forall2_lookup_r _ _ _ _ _ Hch Hb) as (p & Hp & Hc). eauto.
Qed.

Lemma concat_elem {A} (bs : list (list A)) n : n ∈ concat bs ↔ ∃ i b, bs !! i = Some b ∧ n ∈ b.
Proof.
  rewrite list_elem_of_In, in_concat. split.
  - intros (b & Hb & Hn). apply list_elem_of_In, list_elem_of_lookup in Hb as [i Hi].
    exists i, b. split; [done|]. by apply list_elem_of_In.
  - intros (i & b & Hi & Hn). exists b. split; apply list_elem_of_In; [|done].
    apply list_elem_of_lookup. eauto.
Qed.

Lemma table_node h a t bs fs n :
  table_wf h a t bs fs → n ∈ concat bs →
  ∃ q, h !! n_addr n = Some (CEntry q (Some (n_key n)) (n_hash n) (Some (n_val n))).
Proof.
  intros Hw (i & b & Hb & Hn)%concat_elem.
  destruct (table_chain _ _ _ _ _ _ _ Hw Hb) as (roots & p & _ & _ & Hc).
  by eapply chain_elem.
Qed.

Lemma table_cells h a t bs fs c :
  table_wf h a t bs fs → c ∈ footprint a t bs fs → ∃ x, h !! c = Some x ∧ hash_cell x = true.
Proof.
  intros Hw Hc. unfold footprint in Hc. rewrite !elem_of_cons, elem_of_app in Hc.
  destruct Hc as [->|[->|[Hc|Hc]]].
  - exists (CHash t). split; [apply Hw|done].
  - destruct (tw_data _ _ _ _ _ Hw) as (roots & Hd & _). eauto.
  - apply list_elem_of_fmap in Hc as (n & -> & Hn).
    destruct (table_node _ _ _ _ _ _ Hw Hn) as [q Hq]. eauto.
  - destruct (free_chain_elem _ _ _ _ (tw_free _ _ _ _ _ Hw) Hc) as [q Hq]. eauto.
Qed.

Lemma kept_only h a t bs fs h' :
  table_wf h a t bs fs → kept h0 h → only_cells (footprint a t bs fs) h h' → kept h0 h'.
Proof.
  intros Hw Hk Ho c x Hc Hx. apply Ho; [by apply Hk|].
  intros Hin. destruct (table_cells _ _ _ _ _ _ Hw Hin) as (y & Hy & Hhc).
  rewrite (Hk c x Hc Hx) in Hy. congruence.
Qed.

Lemma kept_subseteq h h' : kept h0 h → h ⊆ h' → kept h0 h'.
Proof. intros Hk Hs c x Hc Hx. eapply lookup_weaken; [by apply Hk|done]. Qed.

Lemma table_wf_mono h h' a t bs fs : h ⊆ h' → table_wf h a t bs fs → table_wf h' a t bs fs.
Proof.
  intros Hs []. destruct tw_data0 as (roots & Hd & Hch). constructor; try done.
  - by eapply lookup_weaken.
  - exists roots. split; [by eapply lookup_weaken|].
    eapply Forall2_impl; [exact Hch|]. intros p b. apply chain_agree. intros n x _ Hx. by eapply lookup_weaken.
  - eapply free_chain_agree; [|done]. intros c x _ Hx. by eapply lookup_weaken.
Qed.

(** ** Search *)

Lemma key_test_spec h key k :
  kept h0 h → K key → K k → key_test fuel tst key (Some k) h = Done (same key k) h.
Proof. intros. simpl. by apply ts_eq. Qed.

Lemma search_chain_spec h key p ns :
  chain h p ns → kept h0 h → K key → (∀ m, m ∈ ns → K (n_key m)) → (length ns < fuel)%nat →
  search_chain fuel tst key p h = Done (n_addr <$> find_node same ns key) h.
Proof.
  intros Hc Hk Hkey HK Hn.
  destruct (wp_done_inv (search_chain fuel tst key p) h
    (λ r h', h' = h ∧ r = n_addr <$> find_node same ns key)) as (r & h' & E & -> & ->); [|done].
  unfold search_chain.
  apply (wp_loop (λ m e h', ∃ ns2, chain h e ns2 ∧ m = length ns2 ∧ h' = h ∧
    (∀ m, m ∈ ns2 → K (n_key m)) ∧ find_node same ns key = find_node same ns2 key))
    with (n := length ns); [|by exists ns|done].
  intros m e h1 (ns2 & Hc2 & -> & -> & HK2 & ->). destruct ns2 as [|n ns2].
  - simpl in Hc2. subst e. by wp_go.
  - destruct Hc2 as (-> & q & Hq & Hc2). hash_go.
    eapply wp_Done; [apply key_test_spec; [done..|apply HK2; by left]|].
    unfold find_node. simpl. destruct (same key (n_key n)); hash_go; [done|].
    exists (length ns2). split; [simpl; lia|]. exists ns2. split_and!; try done.
    intros x Hx. apply HK2. by right.
Qed.

(** The entry of a key is in the chain of its hash value. *)
Lemma find_node_bucket h a t bs fs key b :
  table_wf h a t bs fs → K key → bs !! Z.to_nat (hv key mod hash_size t) = Some b →
  find_node same (concat bs) key = find_node same b key.
Proof.
  intros Hw Hkey Hb. pose proof (tw_uniq _ _ _ _ _ Hw) as Hu.
  destruct (find_node same b key) as [n|] eqn:E.
  - unfold find_node in E. apply List.find_some in E as [Hn Hs]. apply list_elem_of_In in Hn.
    apply (find_node_some K); try done; [apply ts_sym|apply ts_trans|].
    split; [|done]. apply concat_elem. eauto.
  - apply (find_node_none same) in E. apply (find_node_none same).
    apply Forall_fmap, Forall_forall. intros n Hn. simpl.
    destruct (same key (n_key n)) eqn:Es; [|done]. exfalso.
    assert (Hkn : K (n_key n)) by (eapply uniq_K; [done|]; by apply list_elem_of_fmap_2).
    apply concat_elem in Hn as (i & b' & Hb' & Hn).
    destruct (tw_place _ _ _ _ _ Hw _ _ _ Hb' Hn) as [Hh Hi].
    unfold bucket in Hi. rewrite Hh, <- (ts_respects key) in Hi by done.
    subst i. simplify_eq. rewrite Forall_fmap, Forall_forall in E.
    specialize (E n Hn). simpl in E. congruence.
Qed.

Lemma bucket_exists h a t bs fs hk :
  table_wf h a t bs fs → is_Some (bs !! Z.to_nat (hk mod hash_size t)).
Proof.
  intros Hw. pose proof (tw_size _ _ _ _ _ Hw) as Hs. apply lookup_lt_is_Some_2.
  rewrite (tw_length _ _ _ _ _ Hw). pose proof (Z.mod_pos_bound hk (hash_size t) Hs). lia.
Qed.

Lemma search_hash_spec h a t bs fs key :
  table_wf h a t bs fs → kept h0 h → K key → (length (concat bs) < fuel)%nat →
  _search_hash fuel (hv key) key (OObj mkcl_t_hashtable a) h =
  Done (n_addr <$> find_node same (concat bs) key) h.
Proof.
  intros Hw Hk Hkey Hf.
  destruct (bucket_exists _ _ _ _ _ (hv key) Hw) as [b Hb].
  destruct (table_chain _ _ _ _ _ _ _ Hw Hb) as (roots & p & Hd & Hp & Hc).
  destruct (wp_done_inv (_search_hash fuel (hv key) key (OObj mkcl_t_hashtable a)) h
    (λ r h', h' = h ∧ r = n_addr <$> find_node same (concat bs) key)) as (r & h' & E & -> & ->); [|done].
  pose proof (tw_head _ _ _ _ _ Hw). pose proof (tw_size _ _ _ _ _ Hw).
  unfold _search_hash. hash_go. eapply wp_read_root; [done..|]. rewrite (tw_test _ _ _ _ _ Hw).
  eapply wp_Done; [apply search_chain_spec; try done|].
  - intros m Hm. eapply uniq_K; [apply Hw|]. apply list_elem_of_fmap_2, concat_elem. eauto.
  - eapply Nat.le_lt_trans; [|exact Hf]. rewrite <- (take_drop_middle bs _ b Hb).
    rewrite concat_app. simpl. rewrite !length_app. lia.
  - split; [done|]. by rewrite (find_node_bucket _ _ _ _ _ _ _ Hw Hkey Hb).
Qed.

Lemma mkcl_search_hash_spec h a t bs fs key :
  table_wf h a t bs fs → kept h0 h → K key → (length (concat bs) < fuel)%nat →
  mkcl_search_hash fuel key (OObj mkcl_t_hashtable a) h =
  Done (n_addr <$> find_node same (concat bs) key) h.
Proof.
  intros Hw Hk Hkey Hf. rewrite <- (search_hash_spec h a t bs fs key) by done.
  unfold mkcl_search_hash, read_hash at 1, mbind, M_bind. simpl.
  by rewrite (tw_head _ _ _ _ _ Hw), (tw_test _ _ _ _ _ Hw), ts_hash.
Qed.

(** C5: GETHASH gives the value of the key in the contents of the table and T, or
    the default and NIL; it changes nothing. *)
Theorem gethash_contents h a t bs fs key def :
  table_wf h a t bs fs → kept h0 h → K key → (length (concat bs) < fuel)%nat →
  mk_cl_gethash fuel key (OObj mkcl_t_hashtable a) def h =
  Done (match contents same (concat bs) key with
        | Some v => (v, mk_cl_Ct)
        | None => (def, ONil)
        end) h.
Proof.
  intros Hw Hk Hkey Hf. unfold mk_cl_gethash. rewrite (bind_Done _ _ h tt h) by done.
  rewrite (bind_Done _ _ _ _ _ (mkcl_search_hash_spec _ _ _ _ _ _ Hw Hk Hkey Hf)).
  unfold contents. destruct (find_node same (concat bs) key) as [n|] eqn:E; simpl; [|done].
  assert (Hn : n ∈ concat bs) by (apply List.find_some in E as [? _]; by apply list_elem_of_In).
  destruct (table_node _ _ _ _ _ _ Hw Hn) as [q Hq].
  unfold entry_value, read_entry, mbind, M_bind. by rewrite Hq.
Qed.
End tables.
