(* ===== verification/HashUpdate.v ===== *)
(** * HashUpdate: insertion, growth and replacement in hash tables

    SETHASH on a well formed table is insertion in its contents, whether the
    entry is overwritten, taken from the free list or allocated, and whether the
    table grows or not. *)

From S2P Require Import Prelude Words Objects Heap Numbers Segments Equal Lists ListSearch Hash.
From S2P Require Import HashTable HashSpecs.
#[local] Open Scope Z_scope.

(** The elements of one chain and those of the others. *)
Lemma concat_split {A} (bs : list (list A)) i b :
  bs !! i = Some b →
  ∃ rest, concat bs ≡ₚ b ++ rest ∧ ∀ b', concat (<[i := b']> bs) ≡ₚ b' ++ rest.
Proof.
  intros Hb. exists (concat (take i bs) ++ concat (drop (S i) bs)).
  pose proof (lookup_lt_Some _ _ _ Hb) as Hi. split.
  - rewrite <- (take_drop_middle bs i b Hb) at 1. rewrite concat_app. simpl.
    by rewrite !app_assoc, (Permutation_app_comm (concat _) b).
  - intros b'. rewrite insert_take_drop by done. rewrite concat_app. simpl.
    by rewrite !app_assoc, (Permutation_app_comm (concat _) b').
Qed.

Lemma alter_insert {A} (f : A → A) (l : list A) i x : l !! i = Some x → alter f i l = <[i := f x]> l.
Proof.
  intros Hx. apply list_eq. intros j. destruct (decide (i = j)) as [<-|Hij].
  - rewrite list_lookup_alter_eq, Hx, list_lookup_insert_eq; [done|]. by eapply lookup_lt_Some.
  - by rewrite list_lookup_alter_ne, list_lookup_insert_ne.
Qed.

Section tables.
Context `{!GMP, !Memory, !Runtime, !RealArith, !HashEnv} (fuel : nat) (tst : httest) (h0 : heap).
Context (K : obj → Prop) (same : obj → obj → bool) (hv : obj → Z).
Context `{!TestSpec fuel tst h0 K same hv}.

#[local] Abbreviation wf := (table_wf tst K same hv).

Lemma table_addr_inj h a t bs fs n m :
  wf h a t bs fs → n ∈ concat bs → m ∈ concat bs → n_addr n = n_addr m → n = m.
Proof.
  intros Hw Hn Hm Heq. pose proof (tw_NoDup _ _ _ _ _ _ _ _ _ Hw) as (Hnd & _ & _)%NoDup_app.
  apply list_elem_of_lookup in Hn as [i Hi], Hm as [j Hj].
  assert (i = j) as ->; [|congruence].
  apply (NoDup_lookup _ _ _ (n_addr n) Hnd); rewrite list_lookup_fmap; [by rewrite Hi|].
  rewrite Hj. simpl. congruence.
Qed.

Lemma table_other_chain h a t bs fs i j b b' n m :
  wf h a t bs fs → bs !! i = Some b → bs !! j = Some b' → i ≠ j → n ∈ b → m ∈ b' →
  n_addr n ≠ n_addr m.
Proof.
  intros Hw Hb Hb' Hij Hn Hm Heq.
  assert (n = m) as <- by (eapply table_addr_inj; [done|apply concat_elem; eauto..|done]).
  destruct (tw_place _ _ _ _ _ _ _ _ _ Hw _ _ _ Hb Hn) as [_ Hi].
  destruct (tw_place _ _ _ _ _ _ _ _ _ Hw _ _ _ Hb' Hm) as [_ Hj]. congruence.
Qed.

(** A table with one chain, the header and the free list changed. *)
Lemma table_update h h' a t t' bs fs fs' i b b' roots p' F :
  wf h a t bs fs → bs !! i = Some b → h !! hash_data t = Some (CChains roots) →
  h' !! a = Some (CHash t') → hash_test t' = tst → hash_size t' = hash_size t →
  h' !! hash_data t' = Some (CChains (<[i := p']> roots)) → chain h' p' b' →
  only_cells F h h' → (∀ j c n, j ≠ i → bs !! j = Some c → n ∈ c → n_addr n ∉ F) →
  free_chain h' (hash_free_bucket t') fs' →
  NoDup ((n_addr <$> concat (<[i := b']> bs)) ++ fs') →
  hash_entries t' = Z.of_nat (length (concat (<[i := b']> bs))) →
  (∀ n, n ∈ b' → n_hash n = hv (n_key n) ∧ bucket (hash_size t) n = i) →
  uniq K same (n_key <$> concat (<[i := b']> bs)) →
  wf h' a t' (<[i := b']> bs) fs'.
Proof.
  intros Hw Hb Hd Ha Ht Hs Hd' Hc Ho HF Hfree Hnd Hn Hpl Hu.
  pose proof (tw_data _ _ _ _ _ _ _ _ _ Hw) as (roots0 & Hd0 & Hch). simplify_eq.
  constructor; try done.
  - rewrite Hs. apply Hw.
  - exists (<[i := p']> roots). split; [done|]. apply Forall2_same_length_lookup.
    split; [rewrite !length_insert; by eapply Forall2_length|].
    intros j p c Hp Hcj. destruct (decide (j = i)) as [->|Hij].
    + rewrite list_lookup_insert_eq in Hcj by (by eapply lookup_lt_Some).
      rewrite list_lookup_insert_eq in Hp.
      2: { erewrite Forall2_length by exact Hch. by eapply lookup_lt_Some. }
      by simplify_eq.
    + rewrite list_lookup_insert_ne in Hp by done. rewrite list_lookup_insert_ne in Hcj by done.
      eapply chain_only; [done| |by eapply Forall2_lookup_lr].
      intros n Hn'. by eapply HF.
  - rewrite length_insert, Hs. apply Hw.
  - intros j c n Hcj Hn'. rewrite Hs. destruct (decide (j = i)) as [->|Hij].
    + rewrite list_lookup_insert_eq in Hcj by (by eapply lookup_lt_Some).
      simplify_eq. by apply Hpl.
    + rewrite list_lookup_insert_ne in Hcj by done. by apply (tw_place _ _ _ _ _ _ _ _ _ Hw _ c).
Qed.

(** ** An entry overwritten *)

Lemma table_set_val h a t bs fs n v :
  wf h a t bs fs → n ∈ concat bs →
  ∃ q bs' rest, let n' := Node (n_addr n) (n_hash n) (n_key n) v in
    h !! n_addr n = Some (CEntry q (Some (n_key n)) (n_hash n) (Some (n_val n))) ∧
    wf (<[n_addr n := CEntry q (Some (n_key n)) (n_hash n) (Some v)]> h) a t bs' fs ∧
    concat bs ≡ₚ n :: rest ∧ concat bs' ≡ₚ n' :: rest.
Proof.
  intros Hw Hn. pose proof Hn as (i & b & Hb & Hnb)%concat_elem.
  destruct (table_node _ _ _ _ _ _ _ _ _ _ Hw Hn) as [q Hq].
  apply list_elem_of_split in Hnb as (b1 & b2 & ->).
  set (n' := Node (n_addr n) (n_hash n) (n_key n) v).
  destruct (concat_split bs i _ Hb) as (rest & Hp & Hp').
  exists q, (<[i := b1 ++ n' :: b2]> bs), (b1 ++ b2 ++ rest). cbv zeta.
  assert (Hperm : concat bs ≡ₚ n :: b1 ++ b2 ++ rest).
  { rewrite Hp, <- app_assoc. simpl. symmetry. apply Permutation_middle. }
  assert (Hperm' : concat (<[i := b1 ++ n' :: b2]> bs) ≡ₚ n' :: b1 ++ b2 ++ rest).
  { rewrite Hp', <- app_assoc. simpl. symmetry. apply Permutation_middle. }
  split_and!; [done| |done|done].
  destruct (table_chain _ _ _ _ _ _ _ _ _ _ _ Hw Hb) as (roots & p & Hd & Hpi & Hc).
  assert (Hi : hash_data t ≠ n_addr n) by congruence.
  apply (table_update h _ a t t bs fs fs i (b1 ++ n :: b2) (b1 ++ n' :: b2) roots p [n_addr n]); try done; try apply Hw.
  - rewrite lookup_insert_ne; [apply Hw|]. intros Heq.
    pose proof (tw_head _ _ _ _ _ _ _ _ _ Hw). congruence.
  - rewrite lookup_insert_ne by congruence. by rewrite list_insert_id.
  - apply chain_set_val; [done| |done].
    pose proof (tw_NoDup _ _ _ _ _ _ _ _ _ Hw) as (Hnd & _ & _)%NoDup_app.
    rewrite Hp, fmap_app in Hnd. by apply NoDup_app in Hnd as (? & _ & _).
  - apply only_cells_insert. by left.
  - intros j c m Hj Hcj Hm Heq. apply list_elem_of_singleton in Heq.
    refine (table_other_chain _ _ _ _ _ j i c _ m n Hw Hcj Hb Hj Hm _ Heq).
    apply elem_of_app. right. by left.
  - eapply free_chain_only; [apply (only_cells_insert [n_addr n]); by left| |apply Hw].
    intros c Hc' Heq. apply list_elem_of_singleton in Heq as ->.
    pose proof (tw_NoDup _ _ _ _ _ _ _ _ _ Hw) as (_ & Hd' & _)%NoDup_app.
    apply (Hd' (n_addr n)); [by apply list_elem_of_fmap_2|done].
  - rewrite Hperm'. simpl. pose proof (tw_NoDup _ _ _ _ _ _ _ _ _ Hw) as Hnd.
    by rewrite Hperm in Hnd.
  - rewrite (tw_count _ _ _ _ _ _ _ _ _ Hw). by rewrite Hperm, Hperm'.
  - intros m Hm. destruct (tw_place _ _ _ _ _ _ _ _ _ Hw i _ n Hb) as [Hh Hbu].
    { apply elem_of_app. right. by left. }
    apply elem_of_app in Hm as [Hm|[->|Hm]%elem_of_cons].
    + apply (tw_place _ _ _ _ _ _ _ _ _ Hw i _ m Hb). apply elem_of_app. by left.
    + done.
    + apply (tw_place _ _ _ _ _ _ _ _ _ Hw i _ m Hb). apply elem_of_app. right. by right.
  - pose proof (tw_uniq _ _ _ _ _ _ _ _ _ Hw) as Hu.
    eapply uniq_perm; [apply ts_sym| |exact Hu]. by rewrite Hperm, Hperm'.
Qed.

(** ** Growth *)

Definition push (size : Z) (bs : list (list node)) (n : node) : list (list node) :=
  alter (cons n) (bucket size n) bs.
Definition push_all (size : Z) (ns : list node) (bs : list (list node)) : list (list node) :=
  foldl (push size) bs ns.

Lemma push_all_length size ns bs : length (push_all size ns bs) = length bs.
Proof.
  revert bs. induction ns as [|n ns IH]; intros bs; [done|]. unfold push_all in *. simpl.
  rewrite IH. apply length_alter.
Qed.

Lemma push_all_snoc size ns n bs : push_all size (ns ++ [n]) bs = push size (push_all size ns bs) n.
Proof. unfold push_all. by rewrite foldl_app. Qed.

Lemma push_all_app size ns ms bs :
  push_all size (ns ++ ms) bs = push_all size ms (push_all size ns bs).
Proof. unfold push_all. by rewrite foldl_app. Qed.

Lemma push_perm size bs n :
  0 < size → length bs = Z.to_nat size → concat (push size bs n) ≡ₚ n :: concat bs.
Proof.
  intros Hs Hl. destruct (lookup_lt_is_Some_2 bs (bucket size n)) as [b Hb].
  { rewrite Hl. by apply bucket_lt. }
  destruct (concat_split bs _ b Hb) as (rest & Hp & Hp'). unfold push.
  rewrite (alter_insert _ _ _ _ Hb), Hp', Hp. done.
Qed.

Lemma push_all_perm size ns bs :
  0 < size → length bs = Z.to_nat size → concat (push_all size ns bs) ≡ₚ ns ++ concat bs.
Proof.
  intros Hs. revert bs. induction ns as [|n ns IH]; intros bs Hl; [done|].
  unfold push_all in *. simpl. rewrite IH by (unfold push; by rewrite length_alter).
  rewrite push_perm by done. symmetry. apply Permutation_middle.
Qed.

Lemma push_all_place size ns bs i b n :
  push_all size ns bs !! i = Some b → n ∈ b →
  (∃ c, bs !! i = Some c ∧ n ∈ c) ∨ (n ∈ ns ∧ bucket size n = i).
Proof.
  revert bs. induction ns as [|m ns IH]; intros bs Hb Hn; [eauto|]. unfold push_all in *. simpl in Hb.
  destruct (IH _ Hb Hn) as [(c & Hc & Hnc)|[? ?]]; [|right; split; [by right|done]].
  unfold push in Hc. destruct (decide (bucket size m = i)) as [<-|Hi].
  - rewrite list_lookup_alter_eq in Hc. apply fmap_Some in Hc as (d & Hd & ->).
    apply elem_of_cons in Hnc as [->|Hnc]; [right; split; [by left|done]|left; eauto].
  - rewrite list_lookup_alter_ne in Hc by done. eauto.
Qed.

(** An entry pushed on its chain. *)
Lemma push_chains h size roots bs n p :
  0 < size → length bs = Z.to_nat size → Forall2 (chain h) roots bs →
  roots !! bucket size n = Some p →
  h !! n_addr n = Some (CEntry p (Some (n_key n)) (n_hash n) (Some (n_val n))) →
  Forall2 (chain h) (<[bucket size n := Some (n_addr n)]> roots) (push size bs n).
Proof.
  intros Hs Hl Hch Hp Hn. unfold push.
  destruct (Forall2_lookup_l _ _ _ _ _ Hch Hp) as (b & Hb & Hc).
  rewrite (alter_insert _ _ _ _ Hb). apply Forall2_insert; [done|]. simpl. eauto.
Qed.

Lemma chains_only h h' F roots bs :
  only_cells F h h' → (∀ n, n ∈ concat bs → n_addr n ∉ F) →
  Forall2 (chain h) roots bs → Forall2 (chain h') roots bs.
Proof.
  intros Ho HF Hch. eapply Forall2_impl_elem; [done|]. intros p b _ Hb Hc.
  eapply chain_only; [done| |done]. intros n Hn. apply HF, concat_elem.
  apply list_elem_of_lookup in Hb as [i Hi]. eauto.
Qed.

Lemma NoDup_not_elem (ns : list node) n ms :
  NoDup (n_addr <$> ns ++ n :: ms) → (∀ m, m ∈ ns ∨ m ∈ ms → n_addr m ≠ n_addr n).
Proof.
  rewrite fmap_app. simpl. intros (_ & Hd & [Hn _]%NoDup_cons)%NoDup_app m [Hm|Hm] Heq.
  - apply (Hd (n_addr m)); [by apply list_elem_of_fmap_2|]. rewrite Heq. by left.
  - apply Hn. rewrite <- Heq. by apply list_elem_of_fmap_2.
Qed.

Lemma move_chain_spec h nd size roots bs p ns :
  chain h p ns → h !! nd = Some (CChains roots) → Forall2 (chain h) roots bs →
  length bs = Z.to_nat size → 0 < size → NoDup (n_addr <$> ns ++ concat bs) →
  (length ns < fuel)%nat →
  wp (move_chain fuel nd size p) h
    (λ _ h', ∃ roots', h' !! nd = Some (CChains roots') ∧
       Forall2 (chain h') roots' (push_all size ns bs) ∧
       only_cells (nd :: (n_addr <$> ns)) h h') no_error.
Proof.
  intros Hc Hnd Hch Hl Hs Hdup Hf. unfold move_chain.
  apply (wp_loop (λ m e h1, ∃ ns1 ns2 roots1, ns = ns1 ++ ns2 ∧ m = length ns2 ∧ chain h1 e ns2 ∧
    h1 !! nd = Some (CChains roots1) ∧ Forall2 (chain h1) roots1 (push_all size ns1 bs) ∧
    only_cells (nd :: (n_addr <$> ns1)) h h1)) with (n := length ns); [| |done].
  2: { exists [], ns, roots. split_and!; [done..|apply only_cells_refl]. }
  intros m e h1 (ns1 & ns2 & roots1 & -> & -> & Hc2 & Hnd1 & Hch1 & Ho). destruct ns2 as [|n ns2].
  { simpl in Hc2. subst e. wp_go. rewrite app_nil_r in *. eauto. }
  destruct Hc2 as (-> & q & Hn & Hc2). hash_go.
  assert (Hlen : length (push_all size ns1 bs) = Z.to_nat size) by (by rewrite push_all_length).
  assert (∃ r, roots1 !! bucket size n = Some r) as [r Hr].
  { apply lookup_lt_is_Some_2. rewrite (Forall2_length _ _ _ Hch1), Hlen. by apply bucket_lt. }
  assert (Hne : n_addr n ≠ nd) by (intros Heq; rewrite Heq in Hn; congruence).
  eapply wp_read_root; [done..|]. hash_go. eapply wp_write_next; [done|]. hash_go.
  set (h2 := <[n_addr n := _]> h1).
  eapply wp_write_root; [unfold h2; by rewrite lookup_insert_ne|done|]. hash_go.
  set (h3 := <[nd := _]> h2).
  assert (Ho13 : only_cells [nd; n_addr n] h1 h3).
  { eapply only_cells_trans; [apply (only_cells_insert _ h1 (n_addr n)); by right; left|].
    apply only_cells_insert. by left. }
  assert (Hdup' : NoDup (n_addr <$> ns1 ++ n :: ns2 ++ concat bs)) by (by rewrite <- app_assoc in Hdup).
  pose proof (NoDup_not_elem _ _ _ Hdup') as Hfresh.
  assert (Hcell : ∀ m : node, (∃ q, h1 !! n_addr m = Some (CEntry q (Some (n_key m)) (n_hash m) (Some (n_val m)))) →
    n_addr m ≠ nd) by (intros m0 [q0 Hq0] Heq; rewrite Heq in Hq0; congruence).
  exists (length ns2). split; [simpl; lia|].
  exists (ns1 ++ [n]), ns2, (<[bucket size n := Some (n_addr n)]> roots1). split_and!.
  - by rewrite <- app_assoc.
  - done.
  - eapply chain_only; [exact Ho13| |done]. intros m Hm. rewrite !elem_of_cons, elem_of_nil.
    intros [Heq|[Heq|?]]; [|apply (Hfresh m); [right; apply elem_of_app; by left|done]|done].
    eapply Hcell; [by eapply chain_elem|done].
  - apply lookup_insert_eq.
  - rewrite push_all_snoc. apply (push_chains _ _ _ _ _ r); try done.
    + eapply chains_only; [exact Ho13| |done]. intros m Hm.
      assert (Hm' : m ∈ ns1 ++ concat bs) by (revert Hm; by rewrite push_all_perm).
      rewrite !elem_of_cons, elem_of_nil. intros [Heq|[Heq|?]]; [| |done].
      * apply concat_elem in Hm as (i & b & Hb & Hmb).
        destruct (Forall2_lookup_r _ _ _ _ _ Hch1 Hb) as (p0 & _ & Hp0).
        eapply Hcell; [by eapply chain_elem|done].
      * apply (Hfresh m); [|done]. apply elem_of_app in Hm' as [?|?]; [by left|].
        right. apply elem_of_app. by right.
    + unfold h3, h2. rewrite lookup_insert_ne by done. apply lookup_insert_eq.
  - eapply only_cells_trans; [eapply only_cells_mono; [|exact Ho]|eapply only_cells_mono; [|exact Ho13]].
    + intros c. rewrite fmap_app, !elem_of_cons, elem_of_app. naive_solver.
    + intros c. rewrite fmap_app, !elem_of_cons, elem_of_app, elem_of_nil. simpl.
      rewrite list_elem_of_singleton. naive_solver.
Qed.

(** The next size is computed without an error and is not zero. *)
Definition can_grow (h : heap) (t : hashtable) : Prop :=
  ∃ n h1, new_hash_size t h = Done n h1 ∧ h ⊆ h1 ∧ 0 < n.

Lemma table_node_data h a t bs fs n :
  wf h a t bs fs → n ∈ concat bs → n_addr n ≠ hash_data t ∧ n_addr n ≠ a.
Proof.
  intros Hw Hn. destruct (table_node _ _ _ _ _ _ _ _ _ _ Hw Hn) as [q Hq].
  pose proof (tw_head _ _ _ _ _ _ _ _ _ Hw).
  destruct (tw_data _ _ _ _ _ _ _ _ _ Hw) as (roots & Hd & _). split; congruence.
Qed.

Lemma extend_loop h a t bs fs nd size :
  wf h a t bs fs → (length (concat bs) < fuel)%nat → 0 < size → nd ≠ hash_data t →
  h !! nd = Some (CChains (replicate (Z.to_nat size) None)) →
  wp (for_loop 0 (Z.to_nat (hash_size t)) (λ i,
        e ← read_root (hash_data t) i; move_chain fuel nd size e)) h
    (λ _ h', ∃ roots', h' !! nd = Some (CChains roots') ∧
       Forall2 (chain h') roots' (push_all size (concat bs) (replicate (Z.to_nat size) [])) ∧
       only_cells (nd :: (n_addr <$> concat bs)) h h') no_error.
Proof.
  intros Hw Hf Hs Hne Hnd. set (empty := replicate (Z.to_nat size) ([] : list node)).
  apply (wp_for (λ i h', ∃ roots', h' !! nd = Some (CChains roots') ∧
    Forall2 (chain h') roots' (push_all size (concat (take i bs)) empty) ∧
    only_cells (nd :: (n_addr <$> concat (take i bs))) h h')).
  - intros i h1 Hi (roots1 & Hnd1 & Hch1 & Ho1).
    destruct (lookup_lt_is_Some_2 bs i) as [b Hb]; [rewrite (tw_length _ _ _ _ _ _ _ _ _ Hw); lia|].
    destruct (table_chain _ _ _ _ _ _ _ _ _ _ _ Hw Hb) as (roots & p & Hd & Hp & Hc).
    assert (Hall : concat bs = concat (take i bs) ++ b ++ concat (drop (S i) bs)).
    { rewrite <- (take_drop_middle bs i b Hb) at 1. by rewrite concat_app. }
    assert (Hdup : NoDup (n_addr <$> concat (take i bs) ++ b)).
    { pose proof (tw_NoDup _ _ _ _ _ _ _ _ _ Hw) as (Hnd' & _ & _)%NoDup_app.
      rewrite Hall, app_assoc, fmap_app in Hnd'. by apply NoDup_app in Hnd' as (? & _ & _). }
    assert (Hb_in : ∀ n, n ∈ b → n ∈ concat bs) by (intros n Hn; apply concat_elem; eauto).
    assert (Ht_in : ∀ n, n ∈ concat (take i bs) → n ∈ concat bs).
    { intros n Hn. rewrite Hall. apply elem_of_app. by left. }
    assert (Hnode_nd : ∀ n, n ∈ concat bs → n_addr n ≠ nd).
    { intros n Hn Heq. destruct (table_node _ _ _ _ _ _ _ _ _ _ Hw Hn) as [q Hq]. congruence. }
    apply wp_bind. eapply (wp_read_root _ roots _ p); [apply Ho1; [done|]|done|].
    { rewrite elem_of_cons. intros [?|Hin]; [congruence|].
      apply list_elem_of_fmap in Hin as (n & Heq & Hn).
      destruct (table_node_data _ _ _ _ _ n Hw) as [? _]; [auto|congruence]. }
    cbv beta. eapply wp_mono; [eapply (move_chain_spec _ _ _ _ (push_all size (concat (take i bs)) empty))| |done].
    + eapply chain_only; [exact Ho1| |exact Hc]. intros n Hn.
      rewrite elem_of_cons. intros [Heq|Hin]; [by apply (Hnode_nd n); [auto|]|].
      apply list_elem_of_fmap in Hin as (m & Heq & Hm). rewrite fmap_app in Hdup.
      apply NoDup_app in Hdup as (_ & Hdis & _). apply (Hdis (n_addr n)); [rewrite Heq|];
        by apply list_elem_of_fmap_2.
    + done.
    + done.
    + rewrite push_all_length. apply length_replicate.
    + done.
    + rewrite (push_all_perm size) by (done || apply length_replicate).
      assert (concat empty = []) as -> by (unfold empty; clear; by induction (Z.to_nat size)).
      by rewrite app_nil_r, (Permutation_app_comm b).
    + rewrite Hall, !length_app in Hf. lia.
    + intros u h2 (roots2 & Hnd2 & Hch2 & Ho2). exists roots2.
      assert (Htk : concat (take (S i) bs) = concat (take i bs) ++ b).
      { rewrite (take_S_r _ _ _ Hb), concat_app. simpl. by rewrite app_nil_r. }
      rewrite Htk, push_all_app. split_and!; [done..|].
      eapply only_cells_trans; eapply only_cells_mono; [|exact Ho1| |exact Ho2];
        intros c; rewrite fmap_app, !elem_of_cons, elem_of_app; naive_solver.
  - exists (replicate (Z.to_nat size) None). split_and!; [done| |apply only_cells_refl].
    simpl. unfold empty. clear. induction (Z.to_nat size); simpl; constructor; done.
  - intros h' (roots' & Hnd' & Hch' & Ho'). exists roots'.
    rewrite take_ge in Hch', Ho' by (rewrite (tw_length _ _ _ _ _ _ _ _ _ Hw); lia). done.
Qed.

(** Growing relinks the entries in a new vector: the table has the same entries. *)
Lemma extend_spec h a t bs fs :
  wf h a t bs fs → can_grow h t → (length (concat bs) < fuel)%nat →
  ∃ h' t' bs', mkcl_extend_hashtable fuel (OObj mkcl_t_hashtable a) h = Done tt h' ∧
    wf h' a t' bs' fs ∧ concat bs' ≡ₚ concat bs ∧
    only_cells (footprint a t bs fs) h h' ∧ (hash_data t' = hash_data t ∨ h !! hash_data t' = None).
Proof.
  intros Hw (n & h1 & En & Hs1 & Hn) Hf.
  assert (Hw1 : wf h1 a t bs fs) by (by eapply table_wf_mono).
  set (nd := first_free h1). set (h2 := <[nd := CChains (replicate (Z.to_nat n) None)]> h1).
  assert (Hs2 : h1 ⊆ h2) by apply insert_first_free_subseteq.
  assert (Hw2 : wf h2 a t bs fs) by (by eapply table_wf_mono).
  assert (Hfr : h !! nd = None) by (by apply first_free_None).
  assert (Hnd : nd ≠ hash_data t ∧ nd ≠ a).
  { destruct (tw_data _ _ _ _ _ _ _ _ _ Hw) as (roots & Hd & _).
    pose proof (tw_head _ _ _ _ _ _ _ _ _ Hw). split; congruence. }
  destruct Hnd as [Hnd Hnda].
  set (bs' := push_all n (concat bs) (replicate (Z.to_nat n) [])).
  set (t' := set_data_size t nd n).
  assert (Hperm : concat bs' ≡ₚ concat bs).
  { unfold bs'. rewrite push_all_perm by (done || apply length_replicate).
    assert (concat (replicate (Z.to_nat n) ([] : list node)) = []) as ->
      by (clear; by induction (Z.to_nat n)).
    by rewrite app_nil_r. }
  destruct (wp_done_inv (mkcl_extend_hashtable fuel (OObj mkcl_t_hashtable a)) h
    (λ _ h', wf h' a t' bs' fs ∧ only_cells (footprint a t bs fs) h h')) as ([] & h' & E & Hw' & Ho).
  2: { exists h', t', bs'. split_and!; [done..|]. by right. }
  pose proof (tw_head _ _ _ _ _ _ _ _ _ Hw). unfold mkcl_extend_hashtable. hash_go.
  eapply wp_Done; [exact En|]. hash_go. fold nd h2.
  eapply wp_mono; [apply (extend_loop h2 a t bs fs); try done; unfold h2; apply lookup_insert_eq| |done].
  intros u h3 (roots' & Hd3 & Hch3 & Ho3). hash_go. fold t'. unfold nd in Hd3. fold nd in Hd3.
  assert (Hn_in : ∀ m, m ∈ concat bs' → m ∈ concat bs) by (intros m; by rewrite Hperm).
  assert (Ho4 : only_cells [a] h3 (<[a := CHash t']> h3)) by (apply only_cells_insert; by left).
  split.
  - constructor; try (apply Hw).
    + apply lookup_insert_eq.
    + done.
    + exists roots'. split; [by rewrite lookup_insert_ne|].
      eapply chains_only; [exact Ho4| |done]. intros m Hm Heq%list_elem_of_singleton.
      destruct (table_node_data _ _ _ _ _ m Hw) as [_ ?]; auto.
    + unfold bs'. rewrite push_all_length. apply length_replicate.
    + assert (Hfs : ∀ c, c ∈ fs → c ≠ a ∧ c ≠ nd ∧ c ∉ n_addr <$> concat bs).
      { intros c Hc. pose proof (tw_NoDup _ _ _ _ _ _ _ _ _ Hw) as (_ & Hd' & _)%NoDup_app.
        destruct (free_chain_elem _ _ _ _ (tw_free _ _ _ _ _ _ _ _ _ Hw) Hc) as [q Hq].
        split_and!; [congruence..|]. intros Hin. by apply (Hd' c). }
      eapply free_chain_only; [exact Ho4| |].
      { intros c Hc Heq%list_elem_of_singleton. by destruct (Hfs c Hc) as [? _]. }
      eapply free_chain_only; [exact Ho3| |apply Hw2].
      intros c Hc. rewrite elem_of_cons. destruct (Hfs c Hc) as (_ & ? & ?). tauto.
    + pose proof (tw_NoDup _ _ _ _ _ _ _ _ _ Hw) as Hdup. by rewrite <- Hperm in Hdup.
    + simpl. rewrite (tw_count _ _ _ _ _ _ _ _ _ Hw). by rewrite Hperm.
    + intros i b m Hb Hm. destruct (push_all_place _ _ _ _ _ _ Hb Hm) as [(c & Hc & Hmc)|[Hmc Hi]].
      * apply lookup_replicate in Hc as [-> _]. by apply elem_of_nil in Hmc.
      * split; [|done]. apply concat_elem in Hmc as (j & c & Hc & Hmc).
        by apply (tw_place _ _ _ _ _ _ _ _ _ Hw _ _ _ Hc Hmc).
    + eapply uniq_perm; [apply ts_sym| |apply (tw_uniq _ _ _ _ _ _ _ _ _ Hw)]. by rewrite Hperm.
  - eapply only_cells_trans; [|eapply only_cells_mono; [|exact Ho4]].
    + eapply (only_cells_new _ _ h h2); [apply only_cells_subseteq; by transitivity h1|exact Ho3|].
      intros c. rewrite elem_of_cons. unfold footprint. intros [->|Hc]; [by right|left].
      do 2 right. apply elem_of_app. by left.
    + intros c ->%list_elem_of_singleton. by left.
Qed.

(** ** A new entry *)

Lemma table_push h h' a t t' bs fs fs' b roots p e key v :
  let i := Z.to_nat (hv key mod hash_size t) in
  wf h a t bs fs → K key → find_node same (concat bs) key = None → bs !! i = Some b →
  h !! hash_data t = Some (CChains roots) → roots !! i = Some p →
  h' !! a = Some (CHash t') → hash_test t' = tst → hash_size t' = hash_size t →
  hash_data t' = hash_data t → hash_entries t' = hash_entries t + 1 →
  h' !! hash_data t = Some (CChains (<[i := Some e]> roots)) →
  h' !! e = Some (CEntry p (Some key) (hv key) (Some v)) →
  only_cells [a; hash_data t; e] h h' → e ∉ n_addr <$> concat bs →
  free_chain h' (hash_free_bucket t') fs' → NoDup fs' → (∀ c, c ∈ fs' → c ∈ fs ∧ c ≠ e) →
  wf h' a t' (<[i := Node e (hv key) key v :: b]> bs) fs'.
Proof.
  intros i Hw Hkey Hnone Hb Hd Hp Ha Ht Hs Hdt Hn Hd' He Ho Hnew Hfree Hndf Hfs.
  destruct (concat_split bs i b Hb) as (rest & Hperm & Hperm').
  specialize (Hperm' (Node e (hv key) key v :: b)). simpl in Hperm'. rewrite <- Hperm in Hperm'.
  assert (Hother : ∀ n, n ∈ concat bs → n_addr n ∉ [a; hash_data t; e]).
  { intros n Hin. rewrite !elem_of_cons, elem_of_nil.
    destruct (table_node_data _ _ _ _ _ n Hw Hin) as [? ?].
    intros [?|[?|[Heq|?]]]; try done. apply Hnew. rewrite <- Heq. by apply list_elem_of_fmap_2. }
  assert (Hbin : ∀ n, n ∈ b → n ∈ concat bs) by (intros n Hnb; apply concat_elem; eauto).
  pose proof (tw_NoDup _ _ _ _ _ _ _ _ _ Hw) as (Hd1 & Hd2 & Hd3)%NoDup_app.
  apply (table_update h h' a t t' bs fs fs' i b _ roots (Some e) [a; hash_data t; e]); try done.
  - by rewrite Hdt.
  - simpl. split; [done|]. exists p. split; [done|].
    destruct (table_chain _ _ _ _ _ _ _ _ _ _ _ Hw Hb) as (roots0 & p0 & Hd0 & Hp0 & Hc). simplify_eq.
    eapply chain_only; [done| |done]. auto.
  - intros j c n _ Hc Hnc. apply Hother, concat_elem. eauto.
  - rewrite Hperm'. simpl. apply NoDup_cons. split.
    + rewrite elem_of_app. intros [?|Hin]; [done|]. by destruct (Hfs _ Hin).
    + apply NoDup_app. split_and!; [done| |done]. intros c Hc Hcf. apply (Hd2 c Hc). by apply Hfs.
  - rewrite Hn, (tw_count _ _ _ _ _ _ _ _ _ Hw), Hperm'. simpl. lia.
  - intros n [->|Hnb]%elem_of_cons; [done|]. by apply (tw_place _ _ _ _ _ _ _ _ _ Hw i b).
  - eapply (uniq_perm K same); [apply ts_sym|by rewrite Hperm'|]. simpl. split_and!; [done| |apply Hw].
    by apply (find_node_none same) in Hnone.
Qed.

(** What follows the growth: an entry is taken, filled and linked. *)
Lemma link_entry_spec h a t bs fs key v :
  let ht := OObj mkcl_t_hashtable a in
  wf h a t bs fs → K key → find_node same (concat bs) key = None →
  wp (i ← chain_index (hv key) (hash_size t);
      e ← take_entry ht;
      t ← read_hash ht;
      write_hash ht (set_entries t (hash_entries t + 1));;
      root ← read_root (hash_data t) i;
      write_cell e (CEntry root (Some key) (hv key) (Some v));;
      write_root (hash_data t) i (Some e)) h
    (λ _ h', ∃ t' bs' fs' n, wf h' a t' bs' fs' ∧ concat bs' ≡ₚ n :: concat bs ∧
       n_key n = key ∧ n_val n = v ∧ only_cells (footprint a t bs fs) h h') no_error.
Proof.
  intros ht Hw Hkey Hnone. pose proof (tw_head _ _ _ _ _ _ _ _ _ Hw) as Ha.
  pose proof (tw_size _ _ _ _ _ _ _ _ _ Hw) as Hs.
  destruct (bucket_exists _ _ _ _ _ _ _ _ _ (hv key) Hw) as [b Hb].
  destruct (table_chain _ _ _ _ _ _ _ _ _ _ _ Hw Hb) as (roots & p & Hd & Hp & _).
  set (i := Z.to_nat (hv key mod hash_size t)) in *.
  destruct (concat_split bs i b Hb) as (rest & Hperm & Hperm').
  assert (Hdone : ∀ h' t' fs' e, wf h' a t' (<[i := Node e (hv key) key v :: b]> bs) fs' →
    only_cells (footprint a t bs fs) h h' →
    ∃ t' bs' fs' n, wf h' a t' bs' fs' ∧ concat bs' ≡ₚ n :: concat bs ∧
       n_key n = key ∧ n_val n = v ∧ only_cells (footprint a t bs fs) h h').
  { intros h' t' fs' e Hw' Ho. exists t', (<[i := Node e (hv key) key v :: b]> bs), fs', (Node e (hv key) key v).
    split_and!; try done. rewrite Hperm', Hperm. done. }
  hash_go. fold i. unfold take_entry, ht. hash_go.
  assert (Had : a ≠ hash_data t) by congruence.
  pose proof (tw_free _ _ _ _ _ _ _ _ _ Hw) as Hfree.
  pose proof (tw_NoDup _ _ _ _ _ _ _ _ _ Hw) as (Hd1 & Hd2 & Hd3)%NoDup_app.
  destruct fs as [|e fs]; simpl in Hfree.
  - rewrite Hfree. hash_go. set (e := first_free h). set (h1 := <[e := _]> h).
    pose proof (first_free_fresh h) as He. fold e in He.
    assert (a ≠ e ∧ hash_data t ≠ e) as [Hae Hde] by (split; congruence).
    eapply wp_read_hash; [unfold h1; by rewrite lookup_insert_ne|]. hash_go.
    eapply (wp_read_root _ roots i p);
      [unfold h1; by rewrite !lookup_insert_ne|done|]. hash_go.
    eapply (wp_write_root _ roots i p);
      [unfold h1; by rewrite !lookup_insert_ne|done|].
    cbn [hash_data set_free_bucket set_entries hash_entries].
    set (h' := <[hash_data t := CChains (<[i := Some e]> roots)]> (_ : heap)).
    assert (Ho : only_cells [a; hash_data t; e] h h').
    { unfold h', h1. do 3 (eapply only_cells_trans; [|apply only_cells_insert; set_solver]).
      apply only_cells_insert. set_solver. }
    apply (Hdone h' (set_entries t (hash_entries t + 1)) [] e).
    + eapply (table_push h h' a t _ bs [] [] b roots p e); try done;
        try (by constructor); try (by intros ? ?%elem_of_nil); unfold h', h1.
      * rewrite lookup_insert_ne, lookup_insert_ne by done. apply lookup_insert_eq.
      * apply Hw.
      * apply lookup_insert_eq.
      * rewrite lookup_insert_ne by done. apply lookup_insert_eq.
      * intros (n & Heq & Hn)%list_elem_of_fmap.
        destruct (table_node _ _ _ _ _ _ _ _ _ _ Hw Hn) as [q Hq]. congruence.
    + eapply only_cells_new; [apply only_cells_refl|exact Ho|]. intros c.
      rewrite !elem_of_cons, elem_of_nil. unfold footprint. rewrite !elem_of_cons.
      naive_solver.
  - destruct Hfree as (-> & q & He & Hfree). hash_go.
    assert (a ≠ e ∧ hash_data t ≠ e) as [Hae Hde] by (split; congruence).
    eapply wp_read_hash; [apply lookup_insert_eq|]. hash_go.
    eapply (wp_read_root _ roots i p);
      [by rewrite !lookup_insert_ne|done|]. hash_go.
    eapply (wp_write_root _ roots i p); [by rewrite !lookup_insert_ne|done|].
    cbn [hash_data set_free_bucket set_entries hash_entries].
    set (h' := <[hash_data t := CChains (<[i := Some e]> roots)]> (_ : heap)).
    assert (Ho : only_cells [a; hash_data t; e] h h').
    { unfold h'. do 3 (eapply only_cells_trans; [|apply only_cells_insert; set_solver]).
      apply only_cells_insert. set_solver. }
    apply NoDup_cons in Hd3 as [Hefs Hd3].
    apply (Hdone h' (set_entries (set_free_bucket t q) (hash_entries t + 1)) fs e).
    + eapply (table_push h h' a t _ bs (e :: fs) fs b roots p e); try done; unfold h'.
      * rewrite lookup_insert_ne, lookup_insert_ne by done. apply lookup_insert_eq.
      * apply Hw.
      * apply lookup_insert_eq.
      * rewrite lookup_insert_ne by done. apply lookup_insert_eq.
      * intros Hin. apply (Hd2 e Hin). by left.
      * eapply free_chain_only; [exact Ho| |done]. intros c Hc.
        destruct (free_chain_elem _ _ _ _ Hfree Hc) as [q' Hq'].
        rewrite !elem_of_cons, elem_of_nil. intros [->|[->|[->|?]]]; congruence || done.
      * intros c Hc. split; [by right|]. by intros ->.
    + eapply only_cells_mono; [|exact Ho]. intros c. unfold footprint.
      rewrite !elem_of_cons, elem_of_nil, elem_of_app, elem_of_cons. naive_solver.
Qed.

Lemma add_new_to_hash_spec h a t bs fs key v :
  wf h a t bs fs → can_grow h t → K key → find_node same (concat bs) key = None →
  (length (concat bs) < fuel)%nat →
  ∃ h', add_new_to_hash fuel (hv key) key (OObj mkcl_t_hashtable a) v h = Done tt h' ∧
    ∃ t' bs' fs' n, wf h' a t' bs' fs' ∧ concat bs' ≡ₚ n :: concat bs ∧ n_key n = key ∧ n_val n = v ∧
    only_cells (footprint a t bs fs) h h'.
Proof.
  intros Hw Hg Hkey Hnone Hf.
  destruct (wp_done_inv (add_new_to_hash fuel (hv key) key (OObj mkcl_t_hashtable a) v) h
    (λ _ h', ∃ t' bs' fs' n, wf h' a t' bs' fs' ∧ concat bs' ≡ₚ n :: concat bs ∧
       n_key n = key ∧ n_val n = v ∧ only_cells (footprint a t bs fs) h h')) as ([] & h' & E & HQ); [|eauto].
  pose proof (tw_head _ _ _ _ _ _ _ _ _ Hw) as Ha. unfold add_new_to_hash. hash_go.
  apply (wp_mono _ h (λ _ h1, ∃ t1 bs1, wf h1 a t1 bs1 fs ∧ concat bs1 ≡ₚ concat bs ∧
    only_cells (footprint a t bs fs) h h1 ∧
    (hash_data t1 = hash_data t ∨ h !! hash_data t1 = None)) _ no_error); [| |done].
  - unfold when. destruct (must_extend t).
    + destruct (extend_spec h a t bs fs Hw Hg Hf) as (h1 & t1 & bs1 & E & ? & ? & ? & ?).
      eapply wp_Done; [exact E|]. eauto 10.
    + wp_go. exists t, bs. split_and!; [done|done|apply only_cells_refl|by left].
  - intros u h1 (t1 & bs1 & Hw1 & Hp1 & Ho1 & Hd1).
    pose proof (tw_head _ _ _ _ _ _ _ _ _ Hw1) as Ha1. hash_step. hash_step.
    eapply wp_mono; [apply (link_entry_spec h1 a t1 bs1 fs); try done| |done].
    + rewrite <- Hnone. symmetry. apply (find_node_perm K same); try done; [apply ts_sym|apply ts_trans|apply Hw].
    + intros u' h2 (t' & bs' & fs' & n & Hw' & Hp' & ? & ? & Ho'). exists t', bs', fs', n.
      split_and!; try done; [by rewrite Hp', Hp1|].
      eapply only_cells_new; [done..|]. unfold footprint. intros c.
      rewrite !elem_of_cons, !elem_of_app, Hp1. intros [?|[->|?]]; [auto| |auto].
      destruct Hd1 as [->|?]; auto.
Qed.

(** C3: (SETF GETHASH) on a well formed table is insertion in its contents.  It
    counts a new key and writes only cells of the table and new ones; the table
    may have grown. *)
Theorem sethash_inserts h a t bs fs key v :
  wf h a t bs fs → kept h0 h → can_grow h t → K key → (length (concat bs) < fuel)%nat →
  ∃ h' t' bs' fs', mkcl_sethash fuel key (OObj mkcl_t_hashtable a) v h = Done tt h' ∧
    wf h' a t' bs' fs' ∧ kept h0 h' ∧ only_cells (footprint a t bs fs) h h' ∧
    hash_entries t' = hash_entries t + (match contents same (concat bs) key with Some _ => 0 | None => 1 end) ∧
    ∀ k, K k → contents same (concat bs') k = if same key k then Some v else contents same (concat bs) k.
Proof.
  intros Hw Hk Hg Hkey Hf. pose proof (tw_uniq _ _ _ _ _ _ _ _ _ Hw) as Hu.
  assert (Hstart : mkcl_sethash fuel key (OObj mkcl_t_hashtable a) v h =
    (match n_addr <$> find_node same (concat bs) key with
     | Some c => write_value c v
     | None => add_new_to_hash fuel (hv key) key (OObj mkcl_t_hashtable a) v
     end) h).
  { unfold mkcl_sethash, read_hash at 1, mbind at 1, M_bind at 1. simpl.
    rewrite (tw_head _ _ _ _ _ _ _ _ _ Hw), (tw_test _ _ _ _ _ _ _ _ _ Hw).
    rewrite (bind_Done _ _ _ _ _ (ts_hash h key Hk Hkey)).
    by rewrite (bind_Done _ _ _ _ _ (search_hash_spec _ _ _ _ _ _ _ _ _ _ _ _ Hw Hk Hkey Hf)). }
  rewrite Hstart. unfold contents at 1.
  destruct (find_node same (concat bs) key) as [n|] eqn:En; simpl.
  - apply (find_node_some K) in En as [Hn Hs]; try done; [|apply ts_sym|apply ts_trans].
    destruct (table_set_val h a t bs fs n v Hw Hn) as (q & bs' & rest & Hq & Hw' & Hp & Hp').
    set (h' := <[n_addr n := _]> h) in *.
    assert (Ho : only_cells (footprint a t bs fs) h h').
    { apply only_cells_insert. do 2 right. apply elem_of_app. left. by apply list_elem_of_fmap_2. }
    exists h', t, bs', fs. split_and!; [|done|exact (kept_only _ _ _ _ _ _ _ _ _ _ _ Hw Hk Ho)|done|lia|].
    + unfold write_value, read_entry, mbind, M_bind. by rewrite Hq.
    + intros k Hkk. pose proof (tw_uniq _ _ _ _ _ _ _ _ _ Hw') as Hu'.
      assert (Hur : uniq K same (n_key <$> n :: rest))
        by (eapply (uniq_perm K same); [apply ts_sym|by rewrite <- Hp|done]).
      rewrite (contents_perm K same ts_sym ts_trans _ _ k Hp Hu Hkk).
      rewrite (contents_perm K same ts_sym ts_trans _ _ k Hp' Hu' Hkk).
      by apply (contents_insert K same ts_sym ts_trans).
  - destruct (add_new_to_hash_spec h a t bs fs key v Hw Hg Hkey En Hf)
      as (h' & E & t' & bs' & fs' & n & Hw' & Hp & Hnk & Hnv & Ho).
    exists h', t', bs', fs'. split_and!; [done|done|exact (kept_only _ _ _ _ _ _ _ _ _ _ _ Hw Hk Ho)|done| |].
    + rewrite (tw_count _ _ _ _ _ _ _ _ _ Hw), (tw_count _ _ _ _ _ _ _ _ _ Hw'), Hp. simpl. lia.
    + intros k Hkk. pose proof (tw_uniq _ _ _ _ _ _ _ _ _ Hw') as Hu'.
      rewrite (contents_perm K same ts_sym ts_trans _ _ k Hp Hu' Hkk).
      rewrite (contents_add K same ts_sym) by (by rewrite ?Hnk). by rewrite Hnk, Hnv.
Qed.
End tables.
