(* ===== verification/HashRemove.v ===== *)
(** * HashRemove: removal from hash tables

    REMHASH is deletion from the contents and CLRHASH empties them; the entries
    removed go to the free list. *)

From S2P Require Import Prelude Words Objects Heap Numbers Segments Equal Lists ListSearch Hash.
From S2P Require Import HashTable HashSpecs HashUpdate.
#[local] Open Scope Z_scope.

Section tables.
Context `{!GMP, !Memory, !Runtime, !RealArith, !HashEnv} (fuel : nat) (tst : httest) (h0 : heap).
Context (K : obj → Prop) (same : obj → obj → bool) (hv : obj → Z).
Context `{!TestSpec fuel tst h0 K same hv}.

#[local] Abbreviation wf := (table_wf tst K same hv).

(** The slot that points to what follows [ns1] in the chain [i]. *)
Definition slot_after (data : Z) (i : nat) (ns1 : list node) : entry_slot :=
  match last ns1 with Some m => SlotNext (n_addr m) | None => SlotRoot data i end.

(** Writing the slot before [n] takes [n] out of its chain. *)
Lemma wp_unlink h data i roots p ns1 n ns2 q (Q : unit → heap → Prop) :
  h !! data = Some (CChains roots) → roots !! i = Some p → chain h p (ns1 ++ n :: ns2) →
  NoDup (n_addr <$> ns1 ++ n :: ns2) →
  h !! n_addr n = Some (CEntry q (Some (n_key n)) (n_hash n) (Some (n_val n))) →
  (∀ h1 p', h1 !! data = Some (CChains (<[i := p']> roots)) → chain h1 p' (ns1 ++ ns2) →
     only_cells (data :: (n_addr <$> ns1)) h h1 → Q tt h1) →
  wp (write_slot (slot_after data i ns1) q) h Q no_error.
Proof.
  intros Hd Hp Hc Hnd Hn HQ. unfold slot_after.
  destruct (snoc_inv ns1) as [->|(ns0 & m & ->)].
  - simpl. eapply wp_write_root; [done..|]. apply (HQ _ q); [apply lookup_insert_eq| |].
    + apply (chain_next _ _ [] n ns2 q) in Hc; [|done]. eapply chain_agree; [|exact Hc].
      intros m x Hm Hx. destruct (chain_elem _ _ _ _ Hc Hm) as [q' Hq'].
      rewrite lookup_insert_ne; [done|]. intros ->. congruence.
    + apply only_cells_insert. by left.
  - rewrite last_snoc. rewrite <- app_assoc in Hc, Hnd. simpl in Hc, Hnd.
    assert (m ∈ ns0 ++ m :: n :: ns2) as Hm by (apply elem_of_app; right; by left).
    destruct (chain_elem _ _ _ _ Hc Hm) as [q' Hq'].
    simpl. eapply wp_write_next; [done|].
    apply (HQ _ p).
    + rewrite lookup_insert_ne by congruence. by rewrite list_insert_id.
    + rewrite <- app_assoc. simpl. by eapply chain_skip.
    + apply only_cells_insert. right. rewrite fmap_app. apply elem_of_app. right. by left.
Qed.

Lemma uniq_sub (n : node) (ns rest : list node) :
  ns ≡ₚ n :: rest → uniq K same (n_key <$> ns) → uniq K same (n_key <$> rest).
Proof using TestSpec0.
  intros Hp Hu. eapply (uniq_perm K same) in Hu; [|apply ts_sym|by rewrite Hp]. by destruct Hu as (_ & _ & ?).
Qed.

(** The table without an entry that is unlinked and freed. *)
Lemma free_entry_wf h h1 a t bs fs i ns1 n ns2 roots p' :
  wf h a t bs fs → bs !! i = Some (ns1 ++ n :: ns2) → h !! hash_data t = Some (CChains roots) →
  h1 !! hash_data t = Some (CChains (<[i := p']> roots)) → chain h1 p' (ns1 ++ ns2) →
  only_cells (hash_data t :: (n_addr <$> ns1)) h h1 →
  let t' := set_free_bucket (set_entries t (hash_entries t - 1)) (Some (n_addr n)) in
  let h' := <[a := CHash t']> (<[n_addr n := CEntry (hash_free_bucket t) None 0 None]>
              (<[a := CHash (set_entries t (hash_entries t - 1))]> h1)) in
  wf h' a t' (<[i := ns1 ++ ns2]> bs) (n_addr n :: fs) ∧ only_cells (footprint a t bs fs) h h'.
Proof.
  intros Hw Hb Hd Hd1 Hc1 Ho1 t' h'.
  destruct (concat_split bs i _ Hb) as (rest & Hp & Hp').
  assert (Hperm : concat bs ≡ₚ n :: concat (<[i := ns1 ++ ns2]> bs)).
  { rewrite Hp, Hp', <- !app_assoc. simpl. symmetry. apply Permutation_middle. }
  assert (Hin : ∀ m, m ∈ ns1 ++ n :: ns2 → m ∈ concat bs) by (intros m Hm; apply concat_elem; eauto).
  assert (Hn : n ∈ concat bs) by (apply Hin, elem_of_app; right; by left).
  destruct (table_node_data _ _ _ _ _ _ _ _ _ n Hw Hn) as [Hnd Hna].
  pose proof (tw_head _ _ _ _ _ _ _ _ _ Hw) as Ha.
  assert (Had : a ≠ hash_data t) by congruence.
  pose proof (tw_NoDup _ _ _ _ _ _ _ _ _ Hw) as Hdup. rewrite Hperm in Hdup. csimpl in Hdup.
  apply NoDup_cons in Hdup as [Hnin (Hdn & Hdis & Hdf)%NoDup_app].
  rewrite elem_of_app in Hnin.
  assert (Ho2 : only_cells [a; n_addr n] h1 h').
  { unfold h'. eapply only_cells_trans; [eapply only_cells_trans|]; apply only_cells_insert; set_solver. }
  set (F := a :: hash_data t :: n_addr n :: (n_addr <$> ns1)).
  assert (Ho : only_cells F h h').
  { eapply only_cells_trans; eapply only_cells_mono; [|exact Ho1| |exact Ho2]; unfold F; intros c; set_solver. }
  assert (HF : ∀ c, c ∈ F → c ∈ footprint a t bs fs).
  { unfold F, footprint. intros c. rewrite !elem_of_cons, elem_of_app.
    intros [?|[?|[->|(m & -> & Hm)%list_elem_of_fmap]]]; [tauto..| |]; right; right; left.
    - by apply list_elem_of_fmap_2.
    - apply list_elem_of_fmap_2, Hin, elem_of_app. by left. }
  split; [|by eapply only_cells_mono].
  pose proof (tw_free _ _ _ _ _ _ _ _ _ Hw) as Hfree.
  assert (Hfs : ∀ c, c ∈ fs → c ∉ F).
  { intros c Hc. destruct (free_chain_elem _ _ _ _ Hfree Hc) as [q Hq]. unfold F.
    rewrite !elem_of_cons. intros [->|[->|[->|(m & Heq & Hm)%list_elem_of_fmap]]]; [congruence..| |].
    - tauto.
    - apply (Hdis c); [|done]. rewrite Heq, Hp'. apply list_elem_of_fmap_2.
      rewrite !elem_of_app. tauto. }
  apply (table_update fuel tst h0 K same hv h h' a t t' bs fs _ i (ns1 ++ n :: ns2) _ roots p' F); try done.
  - apply lookup_insert_eq.
  - apply Hw.
  - unfold h'. by rewrite !lookup_insert_ne.
  - eapply chain_only; [exact Ho2| |done]. intros m Hm.
    assert (m ∈ concat (<[i := ns1 ++ ns2]> bs)) as Hm' by (rewrite Hp'; apply elem_of_app; by left).
    rewrite !elem_of_cons, elem_of_nil. intros [Heq|[Heq|?]]; [| |done].
    + destruct (table_node_data _ _ _ _ _ _ _ _ _ m Hw) as [_ ?]; [|done]. rewrite Hperm. by right.
    + apply Hnin. left. rewrite <- Heq. by apply list_elem_of_fmap_2.
  - intros j c m Hj Hcj Hm. assert (m ∈ concat bs) as Hmc by (apply concat_elem; eauto).
    destruct (table_node_data _ _ _ _ _ _ _ _ _ m Hw Hmc) as [? ?]. unfold F.
    rewrite !elem_of_cons. intros [?|[?|Hm']]; [done..|].
    assert (∃ n', n' ∈ ns1 ++ n :: ns2 ∧ n_addr m = n_addr n') as (n' & Hn' & Heq).
    { destruct Hm' as [?|(n' & ? & ?)%list_elem_of_fmap]; [exists n|exists n'];
        rewrite elem_of_app, elem_of_cons; tauto. }
    by eapply (table_other_chain tst K same hv _ _ _ _ _ j i c _ m n' Hw Hcj Hb).
  - simpl. split; [done|]. exists (hash_free_bucket t). split.
    + unfold h'. rewrite lookup_insert_ne by done. apply lookup_insert_eq.
    + by eapply free_chain_only; [exact Ho|exact Hfs|].
  - apply NoDup_app. split_and!; [done| |apply NoDup_cons; tauto].
    intros c Hc [->|Hcf]%elem_of_cons; [tauto|]. by apply (Hdis c).
  - simpl. rewrite (tw_count _ _ _ _ _ _ _ _ _ Hw), Hperm. simpl. lia.
  - intros m Hm. apply (tw_place _ _ _ _ _ _ _ _ _ Hw i _ m Hb).
    rewrite elem_of_app, elem_of_cons. apply elem_of_app in Hm. tauto.
  - eapply uniq_sub; [exact Hperm|apply Hw].
Qed.

(** C4: REMHASH tells whether the key was there and deletes it from the contents;
    it writes only cells of the table, and the entry goes to the free list. *)
Theorem remhash_deletes h a t bs fs key :
  wf h a t bs fs → kept h0 h → K key → (length (concat bs) < fuel)%nat →
  let found := match contents same (concat bs) key with Some _ => true | None => false end in
  ∃ h' t' bs' fs', mkcl_remhash fuel key (OObj mkcl_t_hashtable a) h = Done found h' ∧
    wf h' a t' bs' fs' ∧ kept h0 h' ∧ only_cells (footprint a t bs fs) h h' ∧
    hash_entries t' = hash_entries t - (if found then 1 else 0) ∧
    length fs' = (length fs + if found then 1 else 0)%nat ∧
    ∀ k, K k → contents same (concat bs') k = if same key k then None else contents same (concat bs) k.
Proof.
  intros Hw Hk Hkey Hf found.
  pose proof (tw_head _ _ _ _ _ _ _ _ _ Hw) as Ha. pose proof (tw_size _ _ _ _ _ _ _ _ _ Hw) as Hs.
  pose proof (tw_uniq _ _ _ _ _ _ _ _ _ Hw) as Hu.
  destruct (bucket_exists _ _ _ _ _ _ _ _ _ (hv key) Hw) as [b Hb].
  destruct (table_chain _ _ _ _ _ _ _ _ _ _ _ Hw Hb) as (roots & p & Hd & Hp & Hc).
  pose proof (find_node_bucket fuel tst h0 K same hv _ _ _ _ _ _ _ Hw Hkey Hb) as Hfind.
  set (i := Z.to_nat (hv key mod hash_size t)) in *.
  assert (Hin : ∀ m, m ∈ b → m ∈ concat bs) by (intros m Hm; apply concat_elem; eauto).
  destruct (wp_done_inv (mkcl_remhash fuel key (OObj mkcl_t_hashtable a)) h
    (λ r h', r = found ∧ ∃ t' bs' fs', wf h' a t' bs' fs' ∧ only_cells (footprint a t bs fs) h h' ∧
       hash_entries t' = hash_entries t - (if found then 1 else 0) ∧
       length fs' = (length fs + if found then 1 else 0)%nat ∧
       match find_node same (concat bs) key with
       | Some n => concat bs ≡ₚ n :: concat bs'
       | None => concat bs' = concat bs
       end)) as (r & h' & E & -> & t' & bs' & fs' & Hw' & Ho & Hn & Hl & Hcs).
  2: { exists h', t', bs', fs'.
       split_and!; [done|done|exact (kept_only _ _ _ _ _ _ _ _ _ _ _ Hw Hk Ho)|done..|].
       intros k Hkk. destruct (find_node same (concat bs) key) as [n|] eqn:En.
       - apply (find_node_some K) in En as [_ Hsn]; try done; [|apply ts_sym|apply ts_trans].
         rewrite (contents_perm K same ts_sym ts_trans _ _ k Hcs Hu Hkk).
         apply (contents_delete K same ts_sym ts_trans); try done.
         eapply (uniq_perm K same); [apply ts_sym|by rewrite <- Hcs|done].
       - rewrite Hcs. destruct (same key k) eqn:Es; [|done]. apply (find_node_none same) in En.
         apply contents_none. rewrite Forall_forall in En |- *. intros x Hx.
         assert (K x) by (by eapply uniq_K).
         rewrite <- (same_same K same ts_sym ts_trans key k) by done. by apply En. }
  unfold mkcl_remhash. hash_go. rewrite (tw_test _ _ _ _ _ _ _ _ _ Hw).
  eapply wp_Done; [by apply ts_hash|]. hash_go. rewrite (tw_test _ _ _ _ _ _ _ _ _ Hw).
  eapply wp_read_root; [done..|]. hash_go.
  apply (wp_loop (λ m s h1, ∃ ns1 ns2, b = ns1 ++ ns2 ∧ m = length ns2 ∧ h1 = h ∧ chain h s.2 ns2 ∧
    s.1 = slot_after (hash_data t) i ns1 ∧ find_node same b key = find_node same ns2 key))
    with (n := length b); [| |].
  2: { exists [], b. done. }
  2: { eapply Nat.le_lt_trans; [|exact Hf]. destruct (concat_split bs i b Hb) as (rest & Hpm & _).
       rewrite Hpm, length_app. lia. }
  intros m [root e] h1 (ns1 & ns2 & Heq & -> & -> & Hc2 & Hroot & Hfn). cbn [fst snd] in *. subst root.
  destruct ns2 as [|n ns2].
  - simpl in Hc2. subst e. hash_go. unfold found, contents. rewrite Hfind, Hfn. simpl.
    split; [done|]. exists t, bs, fs. split_and!; [done|apply only_cells_refl|lia|lia|done].
  - destruct Hc2 as (-> & q & Hq & Hc2). hash_go.
    assert (Hnb : n ∈ concat bs) by (apply Hin; rewrite Heq; apply elem_of_app; right; by left).
    eapply wp_Done; [apply (key_test_spec fuel tst h0 K same hv); try done|].
    { eapply uniq_K; [done|]. by apply list_elem_of_fmap_2. }
    unfold find_node in Hfn. simpl in Hfn. destruct (same key (n_key n)) eqn:Es.
    + hash_go. rewrite Heq in Hc.
      assert (Hdup : NoDup (n_addr <$> ns1 ++ n :: ns2)).
      { pose proof (tw_NoDup _ _ _ _ _ _ _ _ _ Hw) as (Hnd' & _ & _)%NoDup_app.
        destruct (concat_split bs i b Hb) as (rest & Hpm & _).
        rewrite Hpm, fmap_app, Heq in Hnd'. by apply NoDup_app in Hnd' as (? & _ & _). }
      eapply (wp_unlink h _ i roots p ns1 n ns2); [done..|].
      intros h1 p' Hd1 Hc1 Ho1.
      assert (Ha1 : h1 !! a = Some (CHash t)).
      { apply Ho1; [done|]. rewrite elem_of_cons. intros [?|(m & Heqm & Hm)%list_elem_of_fmap]; [congruence|].
        destruct (table_node_data _ _ _ _ _ _ _ _ _ m Hw) as [_ ?]; [|done].
        apply Hin. rewrite Heq. apply elem_of_app. by left. }
      rewrite Heq in Hb.
      destruct (free_entry_wf h h1 a t bs fs i ns1 n ns2 roots p') as [Hw' Ho']; try done.
      hash_go. unfold free_entry. hash_go. eapply wp_read_hash; [apply lookup_insert_eq|]. hash_go.
      unfold found, contents. rewrite Hfind. unfold find_node. rewrite Hfn.
      split; [done|]. do 3 eexists. split_and!; [exact Hw'|exact Ho'|simpl; lia|simpl; lia|].
      destruct (concat_split bs i _ Hb) as (rest & Hpm & Hpm').
      rewrite Hpm, Hpm', <- !app_assoc. simpl. symmetry. apply Permutation_middle.
    + hash_go. exists (length ns2). split; [simpl; lia|]. exists (ns1 ++ [n]), ns2.
      split_and!; try done; [by rewrite <- app_assoc|]. unfold slot_after. by rewrite last_snoc.
Qed.

(** ** CLRHASH *)

Lemma free_loop_spec h a t1 fs1 p ns :
  h !! a = Some (CHash t1) → free_chain h (hash_free_bucket t1) fs1 → chain h p ns →
  NoDup ((n_addr <$> ns) ++ fs1) → (length ns < fuel)%nat →
  wp (loop fuel (λ e : option Z,
        match e with
        | None => mret (inr tt)
        | Some c =>
            en ← read_entry c; let '(old_e_next, _, _, _) := en in
            free_entry (OObj mkcl_t_hashtable a) c;; mret (inl old_e_next)
        end) p) h
    (λ _ h', ∃ q fs', h' !! a = Some (CHash (set_free_bucket t1 q)) ∧ free_chain h' q fs' ∧
       fs' ≡ₚ (n_addr <$> ns) ++ fs1 ∧ only_cells (a :: (n_addr <$> ns)) h h') no_error.
Proof.
  intros Ha Hfree Hc Hdup Hf.
  apply (wp_loop (λ m e h', ∃ ns1 ns2 q fs', ns = ns1 ++ ns2 ∧ m = length ns2 ∧ chain h' e ns2 ∧
    h' !! a = Some (CHash (set_free_bucket t1 q)) ∧ free_chain h' q fs' ∧
    fs' ≡ₚ (n_addr <$> ns1) ++ fs1 ∧ only_cells (a :: (n_addr <$> ns1)) h h')) with (n := length ns); [| |done].
  2: { exists [], ns, (hash_free_bucket t1), fs1. split_and!; try done; [by destruct t1|apply only_cells_refl]. }
  intros m e h1 (ns1 & ns2 & q & fs' & -> & -> & Hc2 & Ha1 & Hfree1 & Hp1 & Ho1). destruct ns2 as [|n ns2].
  { simpl in Hc2. subst e. wp_go. rewrite app_nil_r in *. eauto 7. }
  destruct Hc2 as (-> & next & Hn & Hc2). hash_go. unfold free_entry. hash_go.
  assert (Hna : n_addr n ≠ a) by congruence.
  cbn [set_free_bucket hash_free_bucket]. set (h2 := <[a := _]> _).
  assert (Ho2 : only_cells [a; n_addr n] h1 h2).
  { unfold h2. eapply only_cells_trans; apply only_cells_insert; set_solver. }
  rewrite fmap_app in Hdup. csimpl in Hdup. rewrite <- app_assoc in Hdup.
  apply NoDup_app in Hdup as (_ & Hd1 & [Hd2 Hd3]%NoDup_cons).
  exists (length ns2). split; [simpl; lia|].
  exists (ns1 ++ [n]), ns2, (Some (n_addr n)), (n_addr n :: fs'). split_and!.
  - by rewrite <- app_assoc.
  - done.
  - eapply chain_only; [exact Ho2| |done]. intros m Hm. rewrite !elem_of_cons, elem_of_nil.
    destruct (chain_elem _ _ _ _ Hc2 Hm) as [q' Hq'].
    intros [?|[Heq|?]]; [congruence| |done]. apply Hd2, elem_of_app. left. rewrite <- Heq.
    by apply list_elem_of_fmap_2.
  - apply lookup_insert_eq.
  - simpl. split; [done|]. exists q. split.
    + unfold h2. rewrite lookup_insert_ne by done. apply lookup_insert_eq.
    + eapply free_chain_only; [exact Ho2| |done]. intros c Hc'. rewrite !elem_of_cons, elem_of_nil.
      destruct (free_chain_elem _ _ _ _ Hfree1 Hc') as [q' Hq'].
      intros [->|[->|?]]; [congruence| |done]. rewrite Hp1 in Hc'.
      apply elem_of_app in Hc' as [Hc'|Hc']; [|apply Hd2, elem_of_app; by right].
      apply (Hd1 _ Hc'). by left.
  - rewrite fmap_app, Hp1. simpl. rewrite <- app_assoc. simpl. apply Permutation_middle.
  - rewrite fmap_app. eapply only_cells_trans; eapply only_cells_mono; [|exact Ho1| |exact Ho2];
      intros c; rewrite !elem_of_cons, ?elem_of_app, ?elem_of_nil; simpl; rewrite ?list_elem_of_singleton;
      tauto.
Qed.

(** CLRHASH empties the contents of a table; every entry goes to the free list
    and the size stays. *)
Theorem clrhash_empties h a t bs fs :
  wf h a t bs fs → (length (concat bs) < fuel)%nat →
  ∃ h' t' bs' fs', mk_cl_clrhash fuel (OObj mkcl_t_hashtable a) h = Done (OObj mkcl_t_hashtable a) h' ∧
    wf h' a t' bs' fs' ∧ only_cells (footprint a t bs fs) h h' ∧ hash_entries t' = 0 ∧
    hash_size t' = hash_size t ∧ concat bs' = [] ∧ fs' ≡ₚ (n_addr <$> concat bs) ++ fs.
Proof.
  intros Hw Hf. pose proof (tw_head _ _ _ _ _ _ _ _ _ Hw) as Ha.
  pose proof (tw_count _ _ _ _ _ _ _ _ _ Hw) as Hcount.
  destruct (wp_done_inv (mk_cl_clrhash fuel (OObj mkcl_t_hashtable a)) h
    (λ r h', r = OObj mkcl_t_hashtable a ∧ ∃ t' bs' fs', wf h' a t' bs' fs' ∧
       only_cells (footprint a t bs fs) h h' ∧ hash_entries t' = 0 ∧ hash_size t' = hash_size t ∧
       concat bs' = [] ∧ fs' ≡ₚ (n_addr <$> concat bs) ++ fs)) as (r & h' & E & -> & ?); [|naive_solver].
  unfold mk_cl_clrhash. hash_go. unfold when.
  destruct (Z.eqb_spec (hash_entries t) 0) as [Hz|Hz]; simpl.
  { hash_go. split; [done|]. exists t, bs, fs.
    assert (concat bs = []) as Hnil by (apply length_zero_iff_nil; lia).
    split_and!; try done; [apply only_cells_refl|by rewrite Hnil]. }
  unfold do_clrhash. hash_go.
  pose proof (tw_data _ _ _ _ _ _ _ _ _ Hw) as (roots & Hd & Hch).
  pose proof (tw_length _ _ _ _ _ _ _ _ _ Hw) as Hlen.
  pose proof (Forall2_length _ _ _ Hch) as Hlr.
  assert (Had : a ≠ hash_data t) by congruence.
  set (h1 := <[a := _]> h).
  assert (Hnode : ∀ n, n ∈ concat bs → n_addr n ≠ hash_data t ∧ n_addr n ≠ a)
    by (intros n Hn; by eapply table_node_data).
  apply (wp_for (λ i h', ∃ q fs' roots', h' !! a = Some (CHash (set_free_bucket (set_entries t 0) q)) ∧
    free_chain h' q fs' ∧ fs' ≡ₚ (n_addr <$> concat (take i bs)) ++ fs ∧
    h' !! hash_data t = Some (CChains roots') ∧ roots' = replicate i None ++ drop i roots ∧
    Forall2 (chain h') (drop i roots) (drop i bs) ∧ only_cells (footprint a t bs fs) h h')).
  - intros i h2 Hi (q & fs' & roots' & Ha2 & Hfree2 & Hp2 & Hd2 & Hr2 & Hch2 & Ho2).
    destruct (lookup_lt_is_Some_2 bs i) as [b Hb]; [lia|].
    destruct (lookup_lt_is_Some_2 roots i) as [p Hp]; [lia|].
    rewrite (drop_S _ _ _ Hb), (drop_S _ _ _ Hp) in Hch2. apply Forall2_cons in Hch2 as [Hc2 Hch2].
    assert (Hri : roots' !! i = Some p).
    { rewrite Hr2, lookup_app_r; rewrite length_replicate; [|lia].
      rewrite Nat.sub_diag, lookup_drop, Nat.add_0_r. done. }
    assert (Hall : concat bs = concat (take i bs) ++ b ++ concat (drop (S i) bs)).
    { rewrite <- (take_drop_middle bs i b Hb) at 1. by rewrite concat_app. }
    pose proof (tw_NoDup _ _ _ _ _ _ _ _ _ Hw) as Hdup.
    rewrite Hall, !fmap_app, <- !app_assoc in Hdup.
    assert (Hdup' : NoDup ((n_addr <$> b) ++ fs')).
    { rewrite Hp2. revert Hdup. rewrite !NoDup_app. set_solver. }
    hash_go. eapply wp_read_root; [done..|]. hash_go.
    eapply wp_mono; [eapply (free_loop_spec h2 a _ fs' p b); try done| |done].
    { rewrite Hall, !length_app in Hf. lia. }
    intros u h3 (q3 & fs3 & Ha3 & Hfree3 & Hp3 & Ho3).
    assert (Hd3 : h3 !! hash_data t = Some (CChains roots')).
    { apply Ho3; [done|]. rewrite elem_of_cons. intros [?|(m & Heq & Hm)%list_elem_of_fmap]; [congruence|].
      destruct (Hnode m); [|congruence]. rewrite Hall, !elem_of_app. tauto. }
    eapply wp_write_root; [done..|]. set (h4 := <[hash_data t := _]> h3).
    assert (Ho4 : only_cells [hash_data t] h3 h4) by (apply only_cells_insert; by left).
    exists q3, fs3, (<[i := None]> roots'). split_and!.
    + unfold h4. by rewrite lookup_insert_ne.
    + eapply free_chain_only; [exact Ho4| |done]. intros c Hc ->%list_elem_of_singleton.
      destruct (free_chain_elem _ _ _ _ Hfree3 Hc) as [q' Hq']. congruence.
    + rewrite Hp3, Hp2, (take_S_r _ _ _ Hb), concat_app, fmap_app. simpl. rewrite app_nil_r.
      rewrite !app_assoc. f_equiv. apply Permutation_app_comm.
    + apply lookup_insert_eq.
    + rewrite Hr2, replicate_S_end, <- app_assoc, (drop_S _ _ _ Hp).
      rewrite insert_app_r_alt by (rewrite length_replicate; lia).
      by rewrite length_replicate, Nat.sub_diag.
    + eapply Forall2_impl_elem; [exact Hch2|]. intros p0 c _ Hc Hc0.
      assert (Hin : ∀ m, m ∈ c → m ∈ concat (drop (S i) bs)).
      { intros m Hm. apply list_elem_of_lookup in Hc as [j Hj]. apply concat_elem. eauto. }
      assert (Hin' : ∀ m, m ∈ c → m ∈ concat bs).
      { intros m Hm. rewrite Hall, !elem_of_app. auto. }
      eapply chain_only; [exact Ho4| |eapply chain_only; [exact Ho3| |exact Hc0]].
      * intros m Hm Heq%list_elem_of_singleton. by destruct (Hnode m); [auto|].
      * intros m Hm. rewrite elem_of_cons. intros [Heq|Hmb]; [by destruct (Hnode m); [auto|]|].
        assert (n_addr m ∈ n_addr <$> concat (drop (S i) bs)) by (apply list_elem_of_fmap_2; auto).
        revert Hdup. rewrite !NoDup_app. set_solver.
    + eapply only_cells_trans; [exact Ho2|].
      eapply only_cells_trans; eapply only_cells_mono; [|exact Ho3| |exact Ho4]; unfold footprint;
        intros c; rewrite ?elem_of_cons, ?elem_of_nil; [|tauto].
      intros [?|Hc]; [tauto|]. do 2 right. rewrite Hall, !fmap_app, !elem_of_app. tauto.
  - exists (hash_free_bucket t), fs, roots.
    assert (Ho : only_cells [a] h h1) by (apply only_cells_insert; by left).
    split_and!; try done; [apply lookup_insert_eq| |unfold h1; by rewrite lookup_insert_ne| |].
    + eapply free_chain_only; [exact Ho| |apply Hw]. intros c Hc ->%list_elem_of_singleton.
      destruct (free_chain_elem _ _ _ _ (tw_free _ _ _ _ _ _ _ _ _ Hw) Hc) as [q' Hq']. congruence.
    + eapply chains_only; [exact Ho| |done]. intros n Hn Heq%list_elem_of_singleton.
      by destruct (Hnode n Hn).
    + eapply only_cells_mono; [|exact Ho]. intros c ->%list_elem_of_singleton. by left.
  - intros h2 (q & fs' & roots' & Ha2 & Hfree2 & Hp2 & Hd2 & -> & _ & Ho2). hash_go. split; [done|].
    rewrite Nat.add_0_l, take_ge in Hp2 by lia. rewrite Nat.add_0_l, drop_ge, app_nil_r in Hd2 by lia.
    exists (set_free_bucket (set_entries t 0) q), (replicate (Z.to_nat (hash_size t)) []), fs'.
    assert (Hnil : ∀ n, concat (replicate n ([] : list node)) = []) by (by induction n).
    split_and!; try done. constructor; try done; try apply Hw.
    + exists (replicate (Z.to_nat (hash_size t)) None). split; [done|].
      apply Forall2_same_length_lookup. rewrite !length_replicate. split; [done|].
      intros j x y [-> _]%lookup_replicate [-> _]%lookup_replicate. done.
    + simpl. by rewrite length_replicate.
    + rewrite Hnil. simpl. rewrite Hp2. apply Hw.
    + simpl. by rewrite Hnil.
    + intros i b n [-> _]%lookup_replicate ?%elem_of_nil. done.
    + by rewrite Hnil.
Qed.
End tables.
