(* ===== verification/HashIter.v ===== *)
(** * HashIter: iterating over hash tables

    The iterator of WITH-HASH-TABLE-ITERATOR goes through the entries of a table
    that nobody changes once each, in the order of the chains, and MAPHASH is the
    sequence of the calls on those entries as long as the calls leave the cells
    of the table alone. *)

From S2P Require Import Prelude Words Objects Heap Numbers Segments Equal Lists ListSearch Hash.
From S2P Require Import HashTable HashMore HashSpecs HashUpdate.
#[local] Open Scope Z_scope.

Section tables.
Context `{!GMP, !Memory, !Runtime, !RealArith, !HashEnv} (fuel : nat) (tst : httest).
Context (K : obj → Prop) (same : obj → obj → bool) (hv : obj → Z).

#[local] Abbreviation wf := (table_wf tst K same hv).

Definition node_kv (n : node) : obj * obj := (n_key n, n_val n).

(** ** The iterator *)

Lemma scan_chain_spec h p ns :
  chain h p ns → (0 < fuel)%nat →
  ∃ q, scan_chain fuel p h =
       Done (match ns with [] => None | n :: _ => Some (n_key n, n_val n, q) end) h ∧
       chain h q (tail ns).
Proof.
  intros Hc Hf. destruct fuel as [|f]; [lia|]. destruct ns as [|n ns].
  - simpl in Hc. subst p. by exists None.
  - destruct Hc as (-> & q & Hn & Hc). exists q. split; [|done]. unfold scan_chain. simpl.
    unfold read_entry, mbind, M_bind. by rewrite Hn.
Qed.

(** The entries that an iterator has still to give. *)
Definition iter_rest (h : heap) (bs : list (list node)) (st : option Z * nat) (rest : list node) : Prop :=
  let '(next, i) := st in
  (∃ ns b, bs !! i = Some b ∧ chain h next ns ∧ rest = ns ++ concat (drop (S i) bs)) ∨
  (length bs ≤ i ∧ next = None ∧ rest = [])%nat.

Lemma scan_chains_spec h data roots bs n i :
  h !! data = Some (CChains roots) → Forall2 (chain h) roots bs → (n + i = length bs)%nat → (0 < fuel)%nat →
  ∃ st', scan_chains fuel data i n h =
         Done (node_kv <$> head (concat (drop i bs)), st') h ∧
         iter_rest h bs st' (tail (concat (drop i bs))).
Proof.
  intros Hd Hch. revert i. induction n as [|n IH]; intros i Hi Hf.
  - exists (None, i). rewrite drop_ge by lia. split; [done|]. right. split_and!; [lia|done..].
  - destruct (lookup_lt_is_Some_2 bs i) as [b Hb]; [lia|].
    destruct (Forall2_lookup_r _ _ _ _ _ Hch Hb) as (p & Hp & Hc).
    cbn [scan_chains]. unfold read_root, read_chains, mbind, M_bind. rewrite Hd, Hp.
    destruct (scan_chain_spec h p b Hc Hf) as (q & E & Hq). cbn. rewrite E.
    rewrite (drop_S _ _ _ Hb). simpl. destruct b as [|m b]; simpl.
    + destruct (IH (S i)) as (st' & E' & Hst); [lia|done|]. exists st'. split; [exact E'|done].
    + exists (q, i). split; [done|]. left. exists b, (m :: b). done.
Qed.

Lemma iterate_spec h a t bs fs st rest :
  wf h a t bs fs → iter_rest h bs st rest → (0 < fuel)%nat →
  ∃ st', mkcl_hash_table_iterate fuel (OObj mkcl_t_hashtable a) st h =
         Done (node_kv <$> head rest, st') h ∧ iter_rest h bs st' (tail rest).
Proof.
  intros Hw Hst Hf. destruct st as [next i].
  pose proof (tw_length _ _ _ _ _ _ _ _ _ Hw) as Hlen.
  destruct (tw_data _ _ _ _ _ _ _ _ _ Hw) as (roots & Hd & Hch).
  unfold mkcl_hash_table_iterate, read_hash at 1, mbind at 1, M_bind at 1. simpl.
  rewrite (tw_head _ _ _ _ _ _ _ _ _ Hw), <- Hlen.
  destruct Hst as [(ns & b & Hb & Hc & ->)|(Hi & -> & ->)].
  - pose proof (lookup_lt_Some _ _ _ Hb) as Hi.
    destruct ns as [|n ns].
    + simpl in Hc. subst next. rewrite (proj2 (Nat.ltb_lt _ _) Hi). simpl.
      apply (scan_chains_spec h _ roots bs); [done..|lia|done].
    + destruct Hc as (-> & q & Hn & Hc).
      destruct (scan_chain_spec h (Some (n_addr n)) (n :: ns)) as (q' & E & Hq'); [by split; eauto|done|].
      unfold mbind, M_bind. rewrite E. exists (q', i). split; [done|]. left. by exists ns, b.
  - rewrite (proj2 (Nat.ltb_ge _ _) Hi). replace (length bs - i)%nat with 0%nat by lia.
    exists (None, i). split; [done|]. by right.
Qed.

(** The iterator called until it answers that there is nothing more. *)
Fixpoint run_iterator (n : nat) (ht : obj) (st : option Z * nat) : M (list (obj * obj)) :=
  match n with
  | O => diverge
  | S n =>
      r ← mkcl_hash_table_iterate fuel ht st;
      match r.1 with
      | None => mret []
      | Some kv => l ← run_iterator n ht r.2; mret (kv :: l)
      end
  end.

Lemma run_iterator_spec h a t bs fs n st rest :
  wf h a t bs fs → (0 < fuel)%nat → iter_rest h bs st rest → (length rest < n)%nat →
  run_iterator n (OObj mkcl_t_hashtable a) st h = Done (node_kv <$> rest) h.
Proof.
  intros Hw Hf. revert st rest. induction n as [|n IH]; intros st rest Hst Hn; [lia|].
  destruct (iterate_spec h a t bs fs st rest Hw Hst Hf) as (st' & E & Hst').
  cbn [run_iterator]. rewrite (bind_Done _ _ _ _ _ E).
  destruct rest as [|m rest]; simpl; [done|].
  rewrite (bind_Done _ _ _ _ _ (IH st' rest Hst' ltac:(simpl in Hn; lia))). done.
Qed.

(** C9: The iterator of a table that is not changed gives each of its entries
    once, in the order of its chains, and then ends. *)
Theorem iterator_enumerates h a t bs fs n :
  wf h a t bs fs → (0 < fuel)%nat → (length (concat bs) < n)%nat →
  (st ← mk_si_hash_table_iterator (OObj mkcl_t_hashtable a);
   run_iterator n (OObj mkcl_t_hashtable a) st) h = Done (node_kv <$> concat bs) h.
Proof.
  intros Hw Hf Hn.
  destruct (lookup_lt_is_Some_2 bs 0) as [b Hb].
  { rewrite (tw_length _ _ _ _ _ _ _ _ _ Hw). pose proof (tw_size _ _ _ _ _ _ _ _ _ Hw). lia. }
  destruct (table_chain _ _ _ _ _ _ _ _ _ _ _ Hw Hb) as (roots & p & Hd & Hp & Hc).
  assert (mk_si_hash_table_iterator (OObj mkcl_t_hashtable a) h = Done (p, 0%nat) h) as E.
  { unfold mk_si_hash_table_iterator. rewrite (bind_Done _ _ h tt h) by done.
    unfold read_hash, read_root, read_chains, mbind, M_bind. simpl.
    rewrite (tw_head _ _ _ _ _ _ _ _ _ Hw), Hd, Hp. done. }
  rewrite (bind_Done _ _ _ _ _ E). eapply run_iterator_spec; [done..| |done].
  left. exists b, b. split_and!; [done..|]. rewrite <- (take_drop_middle bs 0 b Hb) at 1. done.
Qed.

(** ** MAPHASH *)

Fixpoint map_calls (fn : obj) (kvs : list (obj * obj)) : M unit :=
  match kvs with
  | [] => mret tt
  | (k, v) :: kvs' => _ ← call_function fn [k; v]; map_calls fn kvs'
  end.

Lemma map_calls_app fn kvs1 kvs2 h :
  map_calls fn (kvs1 ++ kvs2) h = (map_calls fn kvs1;; map_calls fn kvs2) h.
Proof.
  revert h. induction kvs1 as [|[k v] kvs1 IH]; intros h; [done|]. simpl.
  unfold mbind, M_bind in *. destruct (call_function fn [k; v] h) as [r h1|e h1|]; [|done..]. apply IH.
Qed.

(** The cells [F] hold in [h1] what they hold in [h]. *)
Definition same_cells (F : list Z) (h h1 : heap) : Prop := ∀ c, c ∈ F → h1 !! c = h !! c.

(** The calls of [fn] leave the cells [F] alone. *)
Definition calls_keep (F : list Z) (h : heap) (fn : obj) : Prop :=
  ∀ k v h1 r h2, same_cells F h h1 → call_function fn [k; v] h1 = Done r h2 → same_cells F h h2.

Lemma map_calls_keep F h fn kvs h1 h2 :
  calls_keep F h fn → same_cells F h h1 → map_calls fn kvs h1 = Done tt h2 → same_cells F h h2.
Proof.
  intros Hk. revert h1. induction kvs as [|[k v] kvs IH]; intros h1 Hs; [by intros [= <-]|].
  simpl. intros (r & h3 & E & E')%bind_Done_inv. eapply IH; [|done]. by eapply Hk.
Qed.

Lemma maphash_chain F h fn h1 p ns n :
  calls_keep F h fn → (∀ m, m ∈ ns → n_addr m ∈ F) → chain h p ns → same_cells F h h1 →
  (length ns < n)%nat →
  loop n (λ e : option Z,
      match e with
      | None => mret (inr tt)
      | Some a =>
          en ← read_entry a; let '(next, k, _, v) := en in
          match k, v with
          | None, _ => mret (inl next)
          | Some k, Some v => _ ← call_function fn [k; v]; mret (inl next)
          | Some _, None => raise Segfault
          end
      end) p h1 = map_calls fn (node_kv <$> ns) h1.
Proof.
  intros Hk. revert p h1 n. induction ns as [|m ns IH]; intros p h1 n HF Hc Hs Hn;
    (destruct n as [|n]; [simpl in Hn; lia|]).
  - simpl in Hc. by subst p.
  - destruct Hc as (-> & q & Hm & Hc).
    assert (read_entry (n_addr m) h1 = Done (q, Some (n_key m), n_hash m, Some (n_val m)) h1) as E.
    { unfold read_entry. by rewrite (Hs (n_addr m)), Hm by (apply HF; by left). }
    rewrite loop_unfold, (bind_assoc _ _ _ _). rewrite (bind_Done _ _ _ _ _ E). csimpl.
    unfold mbind, M_bind. destruct (call_function fn [n_key m; n_val m] h1) as [r h2|e h2|] eqn:Ec; [|done..].
    csimpl. apply IH; [|done| |simpl in Hn; lia]; [intros x Hx; apply HF; by right|by eapply Hk].
Qed.

(** MAPHASH with a function whose calls leave the table alone is the sequence
    of its calls on the entries; an error or a divergence of a call is its own. *)
Theorem maphash_calls h a t bs fs fn :
  wf h a t bs fs → calls_keep (footprint a t bs fs) h fn → (length (concat bs) < fuel)%nat →
  mk_cl_maphash fuel fn (OObj mkcl_t_hashtable a) h =
  (map_calls fn (node_kv <$> concat bs);; mret ONil) h.
Proof.
  intros Hw Hk Hf. pose proof (tw_length _ _ _ _ _ _ _ _ _ Hw) as Hlen.
  destruct (tw_data _ _ _ _ _ _ _ _ _ Hw) as (roots & Hd & Hch).
  unfold mk_cl_maphash. rewrite (bind_Done _ _ h tt h) by done.
  unfold read_hash. unfold mbind at 1, M_bind at 1. simpl. rewrite (tw_head _ _ _ _ _ _ _ _ _ Hw), <- Hlen.
  set (body := λ i : nat, _).
  assert (Hloop : ∀ n i h1, (i + n = length bs)%nat → same_cells (footprint a t bs fs) h h1 →
    for_loop i n body h1 = map_calls fn (node_kv <$> concat (drop i bs)) h1).
  { induction n as [|n IH]; intros i h1 Hi Hs; [by rewrite drop_ge by lia|].
    destruct (lookup_lt_is_Some_2 bs i) as [b Hb]; [lia|].
    destruct (Forall2_lookup_r _ _ _ _ _ Hch Hb) as (p & Hp & Hc).
    assert (Hin : ∀ m, m ∈ b → m ∈ concat bs) by (intros m Hm; apply concat_elem; eauto).
    rewrite (drop_S _ _ _ Hb). simpl. rewrite fmap_app, map_calls_app.
    assert (Hbody : body i h1 = map_calls fn (node_kv <$> b) h1).
    { unfold body. assert (read_root (hash_data t) i h1 = Done p h1) as E.
      { unfold read_root, read_chains, mbind, M_bind.
        rewrite (Hs (hash_data t)), Hd by (right; by left). by rewrite Hp. }
      rewrite (bind_Done _ _ _ _ _ E).
      apply (maphash_chain (footprint a t bs fs) h fn); [done| |done|done|].
      - intros m Hm. do 2 right. apply elem_of_app. left. apply list_elem_of_fmap_2. auto.
      - destruct (concat_split bs i b Hb) as (rest & Hpm & _). rewrite Hpm, length_app in Hf. lia. }
    unfold mbind, M_bind. rewrite Hbody.
    destruct (map_calls fn (node_kv <$> b) h1) as [[] h2|e h2|] eqn:E; [|done..].
    apply IH; [lia|]. by eapply map_calls_keep. }
  unfold mbind at 1, M_bind at 1. rewrite (Hloop _ 0%nat h) by (done || lia).
  by unfold mbind, M_bind.
Qed.
End tables.
