(* ===== verification/HashTests.v ===== *)
(** * HashTests: the tests of hash tables satisfy the interface of HashSpecs

    EQ and EQL tables take any key; EQUAL tables the trees whose strings, symbols
    and bit vectors are in the heap; the tables of packages take strings.  The
    last two read the heap, which the operations on a table leave alone outside of
    tables. *)

From S2P Require Import Prelude Words Objects Heap Numbers Segments Equal Lists ListSearch Hash HashLaws.
From S2P Require Import HashTable HashSpecs.
#[local] Open Scope Z_scope.

(** [m] only reads, and reads the same in a larger heap. *)
Definition stable {A} (m : M A) : Prop :=
  ∀ h r h', m h = Done r h' → h' = h ∧ ∀ h2, h ⊆ h2 → m h2 = Done r h2.

Lemma stable_ret {A} (a : A) : stable (mret a).
Proof. by intros h r h' [= <- <-]. Qed.

Lemma stable_raise {A} e : stable (raise e : M A).
Proof. by intros h r h'. Qed.

Lemma stable_bind {A B} (m : M A) (k : A → M B) :
  stable m → (∀ a, stable (k a)) → stable (m ≫= k).
Proof.
  intros Hm Hk h r h' (a & h1 & E & E')%bind_Done_inv. apply Hm in E as [-> Hm'].
  apply Hk in E' as [-> Hk']. split; [done|]. intros h2 Hs.
  by rewrite (bind_Done _ _ _ _ _ (Hm' h2 Hs)), Hk'.
Qed.

(** Reading cells. *)
Lemma stable_lam {A} (m : M A) :
  (∀ h, (∃ k, m h = k h ∧ stable k ∧ ∀ h2, h ⊆ h2 → m h2 = k h2) ∨ ∃ e h', m h = Fail e h') → stable m.
Proof.
  intros Hm h r h' E. destruct (Hm h) as [(k & Ek & Hk & Hk2)|(e & h1 & E')]; [|congruence].
  rewrite Ek in E. apply Hk in E as [-> E]. split; [done|]. intros h2 Hs. rewrite Hk2 by done. auto.
Qed.

Lemma stable_cons x : stable (read_cons x).
Proof.
  destruct x; try (by intros h r h'). intros h r h'. simpl. repeat case_match; try done.
  intros [= <- <-]. split; [done|]. intros h2 Hs. simpl. by erewrite lookup_weaken by done.
Qed.

Lemma stable_CAR x : stable (MKCL_CAR x).
Proof.
  unfold MKCL_CAR, MKCL_CONS_CAR. case_match; [apply stable_ret|].
  apply stable_bind; [apply stable_cons|intros; apply stable_ret].
Qed.
Lemma stable_CDR x : stable (MKCL_CDR x).
Proof.
  unfold MKCL_CDR, MKCL_CONS_CDR. case_match; [apply stable_ret|].
  apply stable_bind; [apply stable_cons|intros; apply stable_ret].
Qed.
Lemma stable_CONS_CAR x : stable (MKCL_CONS_CAR x).
Proof. apply stable_bind; [apply stable_cons|intros; apply stable_ret]. Qed.
Lemma stable_CONS_CDR x : stable (MKCL_CONS_CDR x).
Proof. apply stable_bind; [apply stable_cons|intros; apply stable_ret]. Qed.

Lemma stable_read_string x : stable (read_string x).
Proof.
  intros h r h'. unfold read_string. repeat case_match; try done; intros [= <- <-];
    (split; [done|]); intros h2 Hs; by erewrite lookup_weaken by done.
Qed.

Lemma stable_read_bits x : stable (read_bits x).
Proof.
  intros h r h'. unfold read_bits. repeat case_match; try done; intros [= <- <-];
    (split; [done|]); intros h2 Hs; by erewrite lookup_weaken by done.
Qed.

Lemma stable_symbol_name a : stable (symbol_name_of a).
Proof.
  intros h r h'. unfold symbol_name_of. repeat case_match; try done; intros [= <- <-];
    (split; [done|]); intros h2 Hs; by erewrite lookup_weaken by done.
Qed.

Create HintDb stable.
#[export] Hint Resolve stable_ret stable_raise stable_CAR stable_CDR stable_CONS_CAR stable_CONS_CDR
  stable_read_string stable_read_bits stable_symbol_name : stable.

(** Along the syntax of a computation. *)
Ltac stable_go :=
  repeat first
    [ progress intros
    | solve [eauto with stable]
    | apply stable_bind
    | match goal with |- stable (if ?b then _ else _) => destruct b end
    | match goal with |- stable (match ?x with _ => _ end) => destruct x end ].

Lemma stable_string_E x y : stable (mkcl_string_E x y).
Proof. unfold mkcl_string_E. stable_go. Qed.

Lemma stable_andM m1 m2 : stable m1 → stable m2 → stable (andM m1 m2).
Proof. intros. unfold andM. stable_go. Qed.
#[export] Hint Resolve stable_string_E stable_andM : stable.

(** A cell read in the middle of a computation. *)
Ltac stable_read :=
  apply stable_lam; intros h;
  repeat match goal with
  | |- context [match h !! ?a with _ => _ end] => destruct (h !! a) as [[]|] eqn:?; try (by eauto)
  end;
  left; eexists; (split; [reflexivity|split; [stable_go; auto 10 with stable|intros h2 Hs;
    by repeat match goal with E : h !! _ = Some _ |- _ => rewrite (lookup_weaken _ _ _ _ E Hs); clear E end]]).

Lemma stable_equal n x y : stable (mkcl_equal n x y).
Proof.
  revert x y. induction n as [|n IH]; intros x y; [by intros h r h'|]. cbn [mkcl_equal].
  destruct (obj_eq x y); [auto with stable|].
  destruct x as [| | | | | | | | | | |t a]; [stable_go..|]. destruct t; try solve [auto with stable].
  all: destruct y as [| | | | | | | | | | |t' b]; try solve [auto with stable];
    destruct t'; try solve [auto with stable].
  - stable_go.
  - stable_read.
  - stable_read.
Qed.

Lemma stable_hash_equal `{!GMP, !Memory} n d hv x : stable (hash_equal_aux n d hv x).
Proof.
  revert d hv x. induction n as [|n IH]; intros d hv x; [by intros h r h'|]. cbn [hash_equal_aux].
  destruct x as [| | | | | | | | | | |t a]; [stable_go..|].
  destruct t; try solve [auto with stable]; stable_read.
Qed.

(** ** The objects a table does not touch *)

Definition outside_tables (h : heap) : heap := filter (λ p, hash_cell p.2 = false) h.

Lemma kept_outside h0 h : kept h0 h ↔ outside_tables h0 ⊆ h.
Proof.
  rewrite map_subseteq_spec. unfold kept, outside_tables. split.
  - intros Hk a c [Ha Hc]%map_lookup_filter_Some. by apply Hk.
  - intros Hs a c Ha Hc. apply Hs, map_lookup_filter_Some. done.
Qed.

Definition result_or {A} (d : A) (o : outcome A) : A := match o with Done a _ => a | _ => d end.

Section tests.
Context `{!GMP, !Memory, !Runtime, !RealArith, !HashEnv} (fuel : nat) (h0 : heap).

#[export] Instance eq_test : TestSpec fuel mkcl_htt_eq h0 (λ _, True) obj_eq hash_eq.
Proof.
  constructor; try done; unfold obj_eq; intros; simpl.
  - by apply bool_decide_eq_true.
  - by apply bool_decide_ext.
  - rewrite bool_decide_eq_true in *. congruence.
  - rewrite bool_decide_eq_true in *. congruence.
Qed.

#[export] Instance eql_test : TestSpec fuel mkcl_htt_eql h0 (λ _, True) mkcl_eql hash_eql.
Proof.
  constructor; try done; intros; simpl.
  - apply mkcl_eql_refl.
  - apply mkcl_eql_sym.
  - by eapply mkcl_eql_trans.
  - by apply hash_eql_respects.
Qed.

(** The characters of a string. *)
Definition chars_of (h : heap) (x : obj) : list Z := result_or [] (read_string x h).
Definition has_chars (h : heap) (x : obj) : Prop := ∃ s, read_string x h = Done s h.

Lemma has_chars_outside h x :
  has_chars (outside_tables h0) x → kept h0 h →
  read_string x h = Done (chars_of (outside_tables h0) x) h ∧ MKCL_STRINGP x = true.
Proof.
  intros [s E] Hk%kept_outside. apply stable_read_string in E as E'. destruct E' as [_ E'].
  unfold chars_of. rewrite E, (E' h Hk). split; [done|]. by destruct x.
Qed.

#[export] Instance package_test :
  TestSpec fuel mkcl_htt_package h0 (has_chars (outside_tables h0))
    (λ x y, bool_decide (chars_of (outside_tables h0) x = chars_of (outside_tables h0) y))
    (λ x, HASH_XXXX_STRING_BODY (chars_of (outside_tables h0) x) 0).
Proof.
  constructor.
  - intros h x y Hk Hx Hy. simpl. unfold mkcl_string_E.
    destruct (has_chars_outside h x Hx Hk) as [Ex ->], (has_chars_outside h y Hy Hk) as [Ey ->]. simpl.
    rewrite (bind_Done _ _ _ _ _ Ex), (bind_Done _ _ _ _ _ Ey). rewrite chars_equal_spec.
    case_match eqn:El; simpl; [|done]. apply negb_true_iff, Nat.eqb_neq in El.
    rewrite bool_decide_eq_false_2; [done|congruence].
  - intros h x Hk Hx. destruct (has_chars_outside h x Hx Hk) as [Ex Hs]. simpl.
    destruct x; try done; simpl; by rewrite (bind_Done _ _ _ _ _ Ex).
  - intros x _. by apply bool_decide_eq_true.
  - intros x y _ _. by apply bool_decide_ext.
  - intros x y z _ _ _. rewrite !bool_decide_eq_true. congruence.
  - intros x y _ _ Heq%bool_decide_eq_true. by rewrite Heq.
Qed.

(** The keys of an EQUAL table. *)
Definition equal_key (h : heap) (x : obj) : Prop :=
  ∃ t, reps anywhere h x t ∧ leaves_ok h t ∧ hash_leaves h t ∧ (S (height t) < fuel)%nat.
Definition equal_in (h : heap) (x y : obj) : bool := result_or false (mkcl_equal fuel x y h).
Definition hash_in (h : heap) (x : obj) : Z := result_or 0 (hash_equal fuel x h).

Lemma equal_in_keys h x y :
  equal_key h x → equal_key h y →
  ∃ tx ty, reps anywhere h x tx ∧ reps anywhere h y ty ∧
    mkcl_equal fuel x y h = Done (bool_decide (key_of_tree h tx = key_of_tree h ty)) h.
Proof.
  intros (tx & Hx & Hl & _ & Hf) (ty & Hy & Hl' & _ & _). exists tx, ty. split_and!; [done..|].
  apply mkcl_equal_keys; try done. lia.
Qed.

Lemma equal_in_eq h x y :
  equal_key h x → equal_key h y → mkcl_equal fuel x y h = Done (equal_in h x y) h.
Proof. intros Hx Hy. destruct (equal_in_keys h x y Hx Hy) as (? & ? & _ & _ & E). unfold equal_in. by rewrite E. Qed.

Lemma equal_in_true h x y tx ty :
  equal_key h x → equal_key h y → reps anywhere h x tx → reps anywhere h y ty →
  equal_in h x y = bool_decide (key_of_tree h tx = key_of_tree h ty).
Proof.
  intros Hx Hy Htx Hty. destruct (equal_in_keys h x y Hx Hy) as (tx' & ty' & Hx' & Hy' & E).
  unfold equal_in. by rewrite E, (reps_det _ _ _ _ _ _ Htx Hx'), (reps_det _ _ _ _ _ _ Hty Hy').
Qed.

Lemma hash_in_eq h x : equal_key h x → hash_equal fuel x h = Done (hash_in h x) h.
Proof.
  intros (t & Hx & Hl & Hh & Hf).
  destruct (hash_equal_tree fuel 3 0 h x x t t) as (r & E & _); try done.
  unfold hash_in, hash_equal. by rewrite E.
Qed.

#[export] Instance equal_test :
  TestSpec fuel mkcl_htt_equal h0 (equal_key (outside_tables h0))
    (equal_in (outside_tables h0)) (hash_in (outside_tables h0)).
Proof.
  constructor.
  - intros h x y Hk%kept_outside Hx Hy. simpl. pose proof (equal_in_eq _ _ _ Hx Hy) as E.
    apply stable_equal in E as [_ E]. by apply E.
  - intros h x Hk%kept_outside Hx. simpl. pose proof (hash_in_eq _ _ Hx) as E.
    destruct (stable_hash_equal fuel 3 0 x _ _ _ E) as [_ Es]. by apply Es.
  - intros x Hx. pose proof Hx as (t & Ht & _). rewrite (equal_in_true _ _ _ t t) by done.
    by apply bool_decide_eq_true.
  - intros x y Hx Hy. pose proof Hx as (tx & Htx & _). pose proof Hy as (ty & Hty & _).
    rewrite (equal_in_true _ _ _ tx ty), (equal_in_true _ _ _ ty tx) by done. by apply bool_decide_ext.
  - intros x y z Hx Hy Hz. pose proof Hx as (tx & Htx & _). pose proof Hy as (ty & Hty & _).
    pose proof Hz as (tz & Htz & _).
    rewrite (equal_in_true _ _ _ tx ty), (equal_in_true _ _ _ ty tz), (equal_in_true _ _ _ tx tz) by done.
    rewrite !bool_decide_eq_true. congruence.
  - intros x y Hx Hy He. pose proof Hx as (tx & Htx & Hlx & Hhx & Hf). pose proof Hy as (ty & Hty & Hly & Hhy & _).
    rewrite (equal_in_true _ _ _ tx ty), bool_decide_eq_true in He by done.
    destruct (hash_equal_tree fuel 3 0 (outside_tables h0) x y tx ty) as (r & E & E'); try done.
    unfold hash_in, hash_equal. by rewrite E, E'.
Qed.
End tests.
