(* ===== verification/HashExamples.v ===== *)
(** * HashExamples: the theorems on hash tables at a concrete table *)

From S2P Require Import Prelude Words Objects Heap Numbers Segments Equal.
From S2P Require Import Lists ListSearch ListExamples Hash HashLaws.
From S2P Require Import HashTable HashMore HashSpecs HashUpdate HashRemove HashIter HashTests.
#[local] Open Scope Z_scope.

(** A table that grows by a fixnum can grow, whatever its arithmetic. *)
Lemma can_grow_fixnum `{!GMP, !RealArith} h t r :
  hash_rehash_size t = OFix r → 0 < r → 0 < hash_size t < 2 ^ 61 → can_grow h t.
Proof.
  intros Hr Hr0 Hs. unfold can_grow, new_hash_size. rewrite Hr, fixnum_wrap_small by (unfold_words; lia). unfold mkcl_make_integer.
  destruct ((_ <=? _) && _) eqn:E.
  - apply andb_true_iff in E as [_ E%Z.leb_le]. eexists _, _. split; [reflexivity|]. split; [done|].
    unfold MKCL_MAKE_FIXNUM. rewrite fixnum_wrap_small by (unfold_words; lia).
    unfold uwrap. rewrite Z.mod_small by (unfold_words; lia). lia.
  - eexists _, _. split; [reflexivity|]. split; [apply insert_first_free_subseteq|].
    unfold uwrap. rewrite Z.mod_small by (unfold_words; lia). lia.
Qed.

(** The number functions on integers. *)
Definition int_or0 (x : obj) : Z := default 0 (int_val x).
#[export] Instance real_int : RealArith := {
  mkcl_plusp x := mret (0 <? int_or0 x);
  mkcl_minusp x := mret (int_or0 x <? 0);
  mkcl_number_compare x y := mret (Z.sgn (int_or0 x - int_or0 y));
  mkcl_times x y := mkcl_make_integer (int_or0 x * int_or0 y);
  mkcl_ceiling1 x := mret x;
  mkcl_round1 x := mret x;
  mkcl_to_double x := mret x;
}.
#[export] Instance env_t : HashEnv := {
  MK_CL_eq := OSym (-1);
  MK_CL_eql := OSym (-2);
  MK_CL_equal := OSym (-3);
  MK_CL_equalp := OSym (-4);
  hash_equalp x := mret (hash_eql x);
}.

(** An EQ table of 16 chains, with 5 -> 50 and 21 -> 210 in the same chain, and a
    free entry. *)
Definition eq_table : hashtable :=
  {| hash_test := mkcl_htt_eq; hash_data := 2; hash_entries := 2; hash_size := 16;
     hash_rehash_size := OFix 8; hash_threshold := OFix 1; hash_factor_of_16th := 16;
     hash_free_bucket := Some 5 |}.
Definition eq_heap : heap := list_to_map
  [(1, CHash eq_table); (2, CChains (<[5%nat := Some 3]> (replicate 16 None)));
   (3, CEntry (Some 4) (Some (OFix 5)) 5 (Some (OFix 50)));
   (4, CEntry None (Some (OFix 21)) 21 (Some (OFix 210))); (5, CEntry None None 0 None)].
Definition eq_node5 : node := Node 3 5 (OFix 5) (OFix 50).
Definition eq_node21 : node := Node 4 21 (OFix 21) (OFix 210).
Definition eq_nodes : list (list node) := <[5%nat := [eq_node5; eq_node21]]> (replicate 16 []).

Lemma eq_table_wf : table_wf mkcl_htt_eq (λ _, True) obj_eq hash_eq eq_heap 1 eq_table eq_nodes [5].
Proof.
  constructor; try done.
  - exists (<[5%nat := Some 3]> (replicate 16 None)). split; [done|].
    apply Forall2_insert;
      [|by split; [done|]; exists (Some 4); split; [done|]; split; [done|]; exists None].
    apply Forall2_same_length_lookup. rewrite !length_replicate. split; [done|].
    intros j x y [-> _]%lookup_replicate [-> _]%lookup_replicate. done.
  - split; [done|]. by exists None.
  - apply (bool_decide_unpack _). vm_compute. done.
  - intros i b n Hb Hn. destruct (decide (i = 5%nat)) as [->|Hi].
    + injection Hb as <-. apply elem_of_cons in Hn as [->|[->|Hn%elem_of_nil]%elem_of_cons]; [..|done];
        split; vm_compute; reflexivity.
    + unfold eq_nodes in Hb. rewrite list_lookup_insert_ne in Hb by done.
      apply lookup_replicate in Hb as [-> _]. by apply elem_of_nil in Hn.
  - change (uniq (λ _, True) obj_eq [OFix 5; OFix 21]). repeat constructor.
Qed.

Definition eq_ht : obj := OObj mkcl_t_hashtable 1.

Lemma gethash_contents_witness :
  mk_cl_gethash 3 (OFix 21) eq_ht ONil eq_heap = Done (OFix 210, mk_cl_Ct) eq_heap.
Proof.
  apply (gethash_contents 3 mkcl_htt_eq eq_heap (λ _, True) obj_eq hash_eq eq_heap 1 eq_table eq_nodes [5]
    (OFix 21) ONil); [exact eq_table_wf|apply kept_refl|done|vm_compute; lia].
Defined.

Lemma eq_can_grow : can_grow eq_heap eq_table.
Proof. apply (can_grow_fixnum _ _ 8); [done|lia|simpl; lia]. Qed.

Lemma sethash_inserts_witness :
  ∃ h' t' bs' fs', mkcl_sethash 3 (OFix 7) eq_ht (OFix 70) eq_heap = Done tt h' ∧
    table_wf mkcl_htt_eq (λ _, True) obj_eq hash_eq h' 1 t' bs' fs' ∧ kept eq_heap h' ∧
    only_cells (footprint 1 eq_table eq_nodes [5]) eq_heap h' ∧ hash_entries t' = 2 + 1 ∧
    ∀ k, True → contents obj_eq (concat bs') k =
      if obj_eq (OFix 7) k then Some (OFix 70) else contents obj_eq (concat eq_nodes) k.
Proof.
  apply (sethash_inserts 3 mkcl_htt_eq eq_heap (λ _, True) obj_eq hash_eq eq_heap 1 eq_table eq_nodes [5]
    (OFix 7) (OFix 70)); [exact eq_table_wf|apply kept_refl|exact eq_can_grow|done|vm_compute; lia].
Defined.

Lemma remhash_deletes_witness :
  ∃ h' t' bs' fs', mkcl_remhash 3 (OFix 21) eq_ht eq_heap = Done true h' ∧
    table_wf mkcl_htt_eq (λ _, True) obj_eq hash_eq h' 1 t' bs' fs' ∧ kept eq_heap h' ∧
    only_cells (footprint 1 eq_table eq_nodes [5]) eq_heap h' ∧ hash_entries t' = 2 - 1 ∧
    length fs' = 2%nat ∧
    ∀ k, True → contents obj_eq (concat bs') k =
      if obj_eq (OFix 21) k then None else contents obj_eq (concat eq_nodes) k.
Proof.
  apply (remhash_deletes 3 mkcl_htt_eq eq_heap (λ _, True) obj_eq hash_eq eq_heap 1 eq_table eq_nodes [5]
    (OFix 21)); [exact eq_table_wf|apply kept_refl|done|vm_compute; lia].
Defined.

Lemma clrhash_empties_witness :
  ∃ h' t' bs' fs', mk_cl_clrhash 3 eq_ht eq_heap = Done eq_ht h' ∧
    table_wf mkcl_htt_eq (λ _, True) obj_eq hash_eq h' 1 t' bs' fs' ∧
    only_cells (footprint 1 eq_table eq_nodes [5]) eq_heap h' ∧ hash_entries t' = 0 ∧
    hash_size t' = 16 ∧ concat bs' = [] ∧ fs' ≡ₚ [3; 4; 5].
Proof.
  apply (clrhash_empties 3 mkcl_htt_eq eq_heap (λ _, True) obj_eq hash_eq eq_heap 1 eq_table eq_nodes [5]);
    [exact eq_table_wf|vm_compute; lia].
Defined.

Lemma iterator_enumerates_witness :
  (st ← mk_si_hash_table_iterator eq_ht; run_iterator 3 3 eq_ht st) eq_heap =
  Done [(OFix 5, OFix 50); (OFix 21, OFix 210)] eq_heap.
Proof.
  apply (iterator_enumerates 3 mkcl_htt_eq (λ _, True) obj_eq hash_eq eq_heap 1 eq_table eq_nodes [5] 3);
    [exact eq_table_wf|lia|vm_compute; lia].
Defined.

(** A function that answers T, and leaves the heap alone. *)
Lemma maphash_calls_witness :
  mk_cl_maphash 3 (OObj mkcl_t_cfun (-20)) eq_ht eq_heap =
  (map_calls (OObj mkcl_t_cfun (-20)) [(OFix 5, OFix 50); (OFix 21, OFix 210)];; mret ONil) eq_heap.
Proof.
  apply (maphash_calls 3 mkcl_htt_eq (λ _, True) obj_eq hash_eq eq_heap 1 eq_table eq_nodes [5]);
    [exact eq_table_wf| |vm_compute; lia].
  intros k v h1 r h2 Hs [= <- <-]. exact Hs.
Defined.
