(* ===== verification/Plist.v ===== *)
(** * Plist: symbols and property lists, src/src/c/symbol.c

    GETF, the function behind (SETF GETF), REMF and GET-PROPERTIES on property
    lists; GET, the functions behind (SETF GET), REMPROP, SYMBOL-PLIST and the
    other fields of symbols.  The loops guard against circular lists with a
    second pointer at half speed.  A variable whose address the C code passes
    is an argument and a result here.

    [mkcl_type_error], which can be resumed with another object, is an error. *)

From S2P Require Import Prelude Words Objects Heap Numbers Segments.
From S2P Require Import Lists ListSpecs ListDestr ListSearch.
#[local] Open Scope Z_scope.

(** The symbol object that stands for NIL. *)
Definition mk_cl_Cnil_symbol : Z := -2.

(** [enum mkcl_stype] *)
Definition mkcl_stp_ordinary : Z := 0.
Definition mkcl_stp_constant : Z := 1.
Definition mkcl_stp_special : Z := 2.

(** ** Symbols *)

Definition symbol_addr (s : obj) : option Z :=
  match s with ONil => Some mk_cl_Cnil_symbol | OSym a => Some a | _ => None end.

Definition read_symbol (s : obj) : M (Z * symbol) := λ h,
  match symbol_addr s with
  | Some a => match h !! a with Some (CSym sy) => Done (a, sy) h | _ => Fail Segfault h end
  | None => Fail (FEtype_error_symbol s) h
  end.

Definition mkcl_symbol_package (s : obj) : M obj := p ← read_symbol s; mret (sym_hpack p.2).
Definition mkcl_symbol_type (s : obj) : M Z := p ← read_symbol s; mret (sym_stype p.2).
Definition mkcl_symbol_name (s : obj) : M obj := p ← read_symbol s; mret (sym_name p.2).

(** The function has no error: it repeats its two tests for ever on an object
    that is no symbol. *)
Definition mkcl_symbol_type_set (s : obj) (type : Z) : M unit :=
  match symbol_addr s with
  | None => diverge
  | Some _ =>
      p ← read_symbol s;
      let '(a, sy) := p in
      write_cell a (CSym {| sym_name := sym_name sy; sym_plist := sym_plist sy;
                            sym_hpack := sym_hpack sy; sym_stype := type;
                            sym_value := sym_value sy |})
  end.

(** [*mkcl_symbol_plist(env, s)], read and written. *)
Definition mkcl_symbol_plist (s : obj) : M obj := p ← read_symbol s; mret (sym_plist p.2).
Definition set_symbol_plist (s : obj) (plist : obj) : M unit :=
  p ← read_symbol s;
  let '(a, sy) := p in
  write_cell a (CSym {| sym_name := sym_name sy; sym_plist := plist;
                        sym_hpack := sym_hpack sy; sym_stype := sym_stype sy;
                        sym_value := sym_value sy |}).

Section with_fuel.
Context (fuel : nat).

(** ** Property lists *)

(** The loop of [mkcl_getf], [mk_si_put_f] and [mk_cl_get_properties]; [hit]
    is its test at the cons [l] of an indicator and the cons [cdr_l] of the
    value, with what the function returns there. *)
Definition plist_loop {R} (hit : obj → obj → M (option R)) (fin : M R) (place : obj) : M R :=
  let finish l := if negb (mkcl_Null l) then raise (FEtype_error_plist place) else fin in
  loop fuel (λ '(n, l, slow_l),
    if MKCL_CONSP l then
      cdr_l ← MKCL_CONS_CDR l;
      if negb (MKCL_CONSP cdr_l) then r ← finish l; mret (inr r)
      else
        o ← hit l cdr_l;
        match o with
        | Some r => mret (inr r)
        | None =>
            if obj_eq slow_l l && negb (n =? 0) then raise (FEcircular_list place)
            else
              slow_l ← (if Z.odd n then d ← MKCL_CONS_CDR slow_l; MKCL_CONS_CDR d
                        else mret slow_l);
              l ← MKCL_CONS_CDR cdr_l;
              mret (inl (n + 1, l, slow_l))
        end
    else r ← finish l; mret (inr r)) (0, place, place).

Definition mkcl_getf (place indicator deflt : obj) : M obj :=
  plist_loop (λ l cdr_l,
    i ← MKCL_CONS_CAR l;
    if obj_eq i indicator then v ← MKCL_CONS_CAR cdr_l; mret (Some v) else mret None)
    (mret deflt) place.

Definition mk_si_put_f (place value indicator : obj) : M obj :=
  plist_loop (λ l cdr_l,
    i ← MKCL_CONS_CAR l;
    if obj_eq i indicator then MKCL_RPLACA cdr_l value;; mret (Some place) else mret None)
    (place ← mkcl_cons value place; mkcl_cons indicator place) place.

(** The three values: the indicator, its value and the tail of the list. *)
Definition mk_cl_get_properties (place indicator_list : obj) : M (obj * obj * obj) :=
  plist_loop (λ l cdr_l,
    i ← MKCL_CONS_CAR l;
    b ← mkcl_member_eq fuel i indicator_list;
    if (b : bool) then v ← MKCL_CONS_CAR cdr_l; mret (Some (i, v, l)) else mret None)
    (mret (ONil, ONil, ONil)) place.

(** The flag, and the new value of [*place]. *)
Definition remf (place indicator : obj) : M (bool * obj) :=
  loop fuel (λ '(n, l, tail, slow_l),
    if negb (mkcl_Null l) then
      if negb (MKCL_LISTP l) then raise (FEtype_error_plist place)
      else if obj_eq slow_l l && negb (n =? 0) then raise (FEcircular_list place)
      else
        ind ← MKCL_CONS_CAR l;
        l ← MKCL_CONS_CDR l;
        if negb (MKCL_CONSP l) then raise (FEtype_error_plist place)
        else if obj_eq ind indicator then
          l ← MKCL_CONS_CDR l;
          if mkcl_Null tail then mret (inr (true, l))
          else MKCL_RPLACD tail l;; mret (inr (true, place))
        else
          slow_l ← (if Z.odd n then d ← MKCL_CONS_CDR slow_l; MKCL_CONS_CDR d
                    else mret slow_l);
          let tail := l in
          l ← MKCL_CONS_CDR l;
          mret (inl (n + 1, l, tail, slow_l))
    else mret (inr (false, place))) (0, place, ONil, place).

Definition mk_cl_getf (place indicator deflt : obj) : M obj := mkcl_getf place indicator deflt.

Definition mk_si_rem_f (plist indicator : obj) : M (obj * obj) :=
  r ← remf plist indicator; let '(found, plist) := r in mret (plist, lisp_bool found).

(** ** The property list of a symbol *)

Definition mkcl_get (s p d : obj) : M obj :=
  plist ← mkcl_symbol_plist s; mkcl_getf plist p d.

Definition mk_cl_get (sym indicator deflt : obj) : M obj :=
  plist ← mkcl_symbol_plist sym; mkcl_getf plist indicator deflt.

(** [remf] writes [*place] only when it removes the first property. *)
Definition mk_cl_remprop (sym prop : obj) : M obj :=
  plist ← mkcl_symbol_plist sym;
  r ← remf plist prop;
  let '(found, plist) := r in
  set_symbol_plist sym plist;;
  mret (lisp_bool found).

Definition mk_cl_symbol_plist (sym : obj) : M obj := mkcl_symbol_plist sym.

Definition mk_si_set_symbol_plist (sym plist : obj) : M obj :=
  set_symbol_plist sym plist;; mret plist.

Definition mk_si_putprop (sym value indicator : obj) : M obj :=
  plist ← mkcl_symbol_plist sym;
  plist ← mk_si_put_f plist value indicator;
  set_symbol_plist sym plist;;
  mret value.

(** The arguments after the symbol, two by two; an odd last one is ignored. *)
Fixpoint mk_si_put_properties (sym : obj) (ind_values : list obj) : M obj :=
  match ind_values with
  | prop :: value :: rest => _ ← mk_si_putprop sym value prop; mk_si_put_properties sym rest
  | _ => mret sym
  end.

(** ** Other fields *)

Definition mk_cl_symbol_name (x : obj) : M obj := mkcl_symbol_name x.
Definition mk_cl_symbol_package (sym : obj) : M obj := mkcl_symbol_package sym.

(** [keyword_package] is [mkcl_core.keyword_package]. *)
Definition mkcl_keywordp (keyword_package s : obj) : M bool :=
  match s with
  | OSym _ => p ← read_symbol s; mret (obj_eq (sym_hpack p.2) keyword_package)
  | _ => mret false
  end.

Definition mk_cl_keywordp (keyword_package s : obj) : M obj :=
  b ← mkcl_keywordp keyword_package s; mret (lisp_bool b).

(** [symbol_macro] is the symbol SI::SYMBOL-MACRO. *)
Definition mk_si_Xmake_special (symbol_macro sym : obj) : M obj :=
  type ← mkcl_symbol_type sym;
  if negb (Z.land type mkcl_stp_constant =? 0) then raise (FEerror "~S is a constant." [sym])
  else
    mkcl_symbol_type_set sym (Z.lor type mkcl_stp_special);;
    _ ← mk_cl_remprop sym symbol_macro;
    mret sym.

Definition set_symbol_value (s v : obj) : M unit :=
  p ← read_symbol s;
  let '(a, sy) := p in
  write_cell a (CSym {| sym_name := sym_name sy; sym_plist := sym_plist sy;
                        sym_hpack := sym_hpack sy; sym_stype := sym_stype sy;
                        sym_value := Some v |}).

Definition mk_si_Xmake_constant (sym val : obj) : M obj :=
  type ← mkcl_symbol_type sym;
  if negb (Z.land type mkcl_stp_special =? 0)
  then raise (FEerror "The argument ~S to DEFCONSTANT is a special variable." [sym])
  else
    mkcl_symbol_type_set sym (Z.lor type mkcl_stp_constant);;
    set_symbol_value sym val;;
    mret sym.
End with_fuel.
