(* ===== verification/PlistSpecs.v ===== *)
(** * PlistSpecs: what the functions of Plist.v compute

    A property list is a chain of pairs of conses ([pseg]), and stands for the
    list of its indicators with their values ([plist_of]).  On those lists
    GETF, the function behind (SETF GETF) and REMF implement [al_get], [al_put]
    and [al_rem]; their loops stop on every heap.  Then the error of GETF and its
    companions on circular lists, the operations on the property lists of symbols over
    the abstract ones, and concrete instances. *)

From S2P Require Import Prelude Words Objects Heap Numbers Segments.
From S2P Require Import Lists ListSpecs ListDestr ListSearch Plist.
#[local] Open Scope Z_scope.

(** ** The abstract operations *)

Fixpoint al_get (kvs : list (obj * obj)) (i d : obj) : obj :=
  match kvs with
  | [] => d
  | (j, v) :: kvs' => if obj_eq j i then v else al_get kvs' i d
  end.

(** The value of the first property with the indicator, replaced. *)
Fixpoint al_set (kvs : list (obj * obj)) (i v : obj) : option (list (obj * obj)) :=
  match kvs with
  | [] => None
  | (j, w) :: kvs' =>
      if obj_eq j i then Some ((j, v) :: kvs') else cons (j, w) <$> al_set kvs' i v
  end.

Definition al_put (kvs : list (obj * obj)) (i v : obj) : list (obj * obj) :=
  default ((i, v) :: kvs) (al_set kvs i v).

(** The first property with the indicator, removed. *)
Fixpoint al_rem (kvs : list (obj * obj)) (i : obj) : bool * list (obj * obj) :=
  match kvs with
  | [] => (false, [])
  | (j, w) :: kvs' =>
      if obj_eq j i then (true, kvs')
      else let r := al_rem kvs' i in (r.1, (j, w) :: r.2)
  end.

(** ** Property lists in the heap *)

(** The two conses of a property, with the indicator and the value. *)
Abbreviation prop_cells := (Z * obj * Z * obj)%type.

Fixpoint pseg (h : heap) (x : obj) (ps : list prop_cells) (y : obj) : Prop :=
  match ps with
  | [] => x = y
  | (a, i, b, v) :: ps' =>
      x = OCons a ∧ ∃ d, h !! a = Some (CCons i (OCons b)) ∧ h !! b = Some (CCons v d) ∧
                         pseg h d ps' y
  end.

Definition prop_kv (p : prop_cells) : obj * obj := let '(_, i, _, v) := p in (i, v).
Definition prop_ind (p : prop_cells) : obj := (prop_kv p).1.

(** [x] is a property list with the indicators and values [kvs]. *)
Definition plist_of (h : heap) (x : obj) (kvs : list (obj * obj)) : Prop :=
  ∃ ps, pseg h x ps ONil ∧ prop_kv <$> ps = kvs.

(** The same conses, as a segment of a list. *)
Definition prop_lseg (p : prop_cells) : cells := let '(a, i, b, v) := p in [(a, i); (b, v)].

Lemma pseg_lseg h x ps y : pseg h x ps y → lseg h x (ps ≫= prop_lseg) y.
Proof.
  revert x. induction ps as [|[[[a i] b] v] ps IH]; intros x; simpl; [done|].
  intros (-> & d & Ha & Hb & Hd). split; [done|]. exists (OCons b). split; [done|].
  split; [done|]. exists d. split; [done|]. by apply IH.
Qed.

Lemma pseg_app h x ps1 ps2 y :
  pseg h x (ps1 ++ ps2) y ↔ ∃ z, pseg h x ps1 z ∧ pseg h z ps2 y.
Proof.
  revert x. induction ps1 as [|[[[a i] b] v] ps1 IH]; intros x; simpl; [naive_solver|].
  split.
  - intros (-> & d & Ha & Hb & (z & ? & ?)%IH). exists z. eauto 7.
  - intros (z & (-> & d & Ha & Hb & Hd) & Hz). split; [done|]. exists d.
    split_and!; [done..|]. apply IH. eauto.
Qed.

Lemma pseg_agree h h' x ps y :
  (∀ a, a ∈ (ps ≫= prop_lseg).*1 → h !! a = h' !! a) → pseg h x ps y → pseg h' x ps y.
Proof.
  revert x. induction ps as [|[[[a i] b] v] ps IH]; intros x Hh; simpl; [done|].
  intros (-> & d & Ha & Hb & Hd). split; [done|]. exists d.
  rewrite <- !Hh by (simpl; set_solver). split_and!; [done..|].
  apply IH; [|done]. intros c Hc. apply Hh. simpl. set_solver.
Qed.

Lemma pseg_mono h h' x ps y : h ⊆ h' → pseg h x ps y → pseg h' x ps y.
Proof.
  intros Hs Hp. eapply pseg_agree; [|done]. intros a Ha.
  destruct (lseg_elem _ _ _ _ _ (pseg_lseg _ _ _ _ Hp) Ha) as [c Hc].
  rewrite Hc. symmetry. by eapply lookup_weaken.
Qed.

Lemma pseg_insert_ne h c w x ps y :
  c ∉ (ps ≫= prop_lseg).*1 → pseg h x ps y → pseg (<[c := w]> h) x ps y.
Proof.
  intros Hc. apply pseg_agree. intros a Ha. rewrite lookup_insert_ne; [done|]. by intros ->.
Qed.

Lemma pseg_length h x ps : pseg h x ps ONil → (2 * length ps ≤ size h)%nat.
Proof.
  intros Hl%pseg_lseg%lseg_length; [|done]. revert Hl.
  replace (length (ps ≫= prop_lseg)) with (2 * length ps)%nat; [done|].
  induction ps as [|[[[a i] b] v] ps IH]; [done|].
  rewrite bind_cons, length_app. simpl in *. lia.
Qed.

(** The start of a rest of a list is none of the conses before it. *)
Lemma pseg_no_loop h x ps1 l2 y a :
  pseg h x ps1 (OCons a) → ps1 ≠ [] → lseg h (OCons a) l2 y → MKCL_CONSP y = false →
  x ≠ OCons a.
Proof.
  intros L1%pseg_lseg Hne L2 Hy ->.
  assert (lseg h (OCons a) ((ps1 ≫= prop_lseg) ++ l2) y) as L by (apply lseg_app; eauto).
  destruct (lseg_atom_unique h (OCons a) _ _ y y Hy Hy L2 L) as [Heq _].
  apply (f_equal length) in Heq. rewrite length_app in Heq.
  destruct ps1 as [|[[[? ?] ?] ?] ps1]; [done|]. rewrite bind_cons, length_app in Heq.
  simpl in Heq. lia.
Qed.

(** The second pointer of the loops, at the property [n / 2]. *)
Definition slow_at (h : heap) (place : obj) (ps1 : list prop_cells) (n : Z) (l slow : obj) : Prop :=
  n = Z.of_nat (length ps1) ∧ pseg h place ps1 l ∧
  ∃ q1 q2, ps1 = q1 ++ q2 ∧ length q1 = (length ps1 / 2)%nat ∧ pseg h place q1 slow ∧ pseg h slow q2 l.

Lemma slow_at_start h place : slow_at h place [] 0 place place.
Proof. split_and!; [done..|]. by exists [], []. Qed.

Lemma slow_at_apart h place ps1 n a slow l2 y :
  slow_at h place ps1 n (OCons a) slow → lseg h (OCons a) l2 y → MKCL_CONSP y = false →
  obj_eq slow (OCons a) && negb (n =? 0) = false.
Proof.
  intros (-> & H1 & q1 & q2 & -> & Hq & Hq1 & Hq2) H2 Hy.
  apply not_true_iff_false. intros [Heq Hn]%andb_true_iff. apply obj_eq_true in Heq as ->.
  apply negb_true_iff, Z.eqb_neq in Hn.
  refine (pseg_no_loop _ _ _ _ _ _ Hq2 _ H2 Hy eq_refl). intros ->.
  rewrite app_nil_r in *. assert (length q1 / 2 < length q1)%nat by (apply Nat.div_lt; lia). lia.
Qed.

Lemma slow_at_step h place ps1 n a slow i b v d :
  slow_at h place ps1 n (OCons a) slow →
  h !! a = Some (CCons i (OCons b)) → h !! b = Some (CCons v d) →
  wp (if Z.odd n then d ← MKCL_CONS_CDR slow; MKCL_CONS_CDR d else mret slow) h
    (λ slow' h', h' = h ∧ slow_at h place (ps1 ++ [(a, i, b, v)]) (n + 1) d slow') no_error.
Proof.
  intros (-> & H1 & q1 & q2 & -> & Hq & Hq1 & Hq2) Ha Hb.
  assert (Hz : Z.of_nat (length (q1 ++ q2)) + 1 = Z.of_nat (length ((q1 ++ q2) ++ [(a, i, b, v)])))
    by (rewrite (length_app (q1 ++ q2)); simpl; lia).
  assert (Hall : pseg h place ((q1 ++ q2) ++ [(a, i, b, v)]) d).
  { apply pseg_app. exists (OCons a). simpl. eauto 7. }
  pose proof (odd_beat_half (length (q1 ++ q2))) as Hh.
  assert (Hlen : length ((q1 ++ q2) ++ [(a, i, b, v)]) = S (length (q1 ++ q2)))
    by (rewrite (length_app (q1 ++ q2)); simpl; lia).
  destruct (Z.odd (Z.of_nat (length (q1 ++ q2)))) eqn:Eo.
  - destruct q2 as [|[[[a' i'] b'] v'] q2].
    { exfalso. rewrite app_nil_r in *. destruct q1; [done|].
      assert (length (p :: q1) / 2 < length (p :: q1))%nat by (apply Nat.div_lt; simpl; lia). lia. }
    destruct Hq2 as (-> & d' & Ha' & Hb' & Hd').
    wp_go. split; [done|]. split_and!; [done..|].
    exists (q1 ++ [(a', i', b', v')]), (q2 ++ [(a, i, b, v)]).
    split_and!; [by rewrite <- !app_assoc|rewrite Hlen, Hh, <- Hq, length_app; simpl; lia| |].
    + apply pseg_app. eexists. split; [done|]. simpl. eauto 7.
    + apply pseg_app. eexists. split; [done|]. simpl. eauto 7.
  - wp_go. split; [done|]. split_and!; [done..|]. exists q1, (q2 ++ [(a, i, b, v)]).
    split_and!; [by rewrite <- app_assoc|by rewrite Hlen, Hh|done|].
    apply pseg_app. eexists. split; [done|]. simpl. eauto 7.
Qed.

(** What follows the last pair of a list: an atom, or one cons more. *)
Definition plist_end (h : heap) (y : obj) : Prop :=
  ∃ l z, lseg h y l z ∧ MKCL_CONSP z = false ∧ (length l ≤ 1)%nat.

Lemma plist_end_nil h : plist_end h ONil.
Proof. exists [], ONil. split_and!; [done|done|simpl; lia]. Qed.

Definition no_prop (f : obj → bool) (ps : list prop_cells) : Prop :=
  Forall (λ p, f (prop_ind p) = false) ps.

Lemma plist_loop_spec {R} fuel h place ps y f (hit : obj → obj → M (option R)) fin Q E :
  pseg h place ps y → plist_end h y → (length ps < fuel)%nat →
  (∀ ps1 a i b v ps2, ps = ps1 ++ (a, i, b, v) :: ps2 → no_prop f ps1 →
     h !! a = Some (CCons i (OCons b)) → (∃ d, h !! b = Some (CCons v d)) →
     wp (hit (OCons a) (OCons b)) h
       (λ o h', match o with Some r => Q r h' | None => h' = h ∧ f i = false end) E) →
  (no_prop f ps → y = ONil → wp fin h Q E) →
  (no_prop f ps → y ≠ ONil → E (FEtype_error_plist place) h) →
  wp (plist_loop fuel hit fin place) h Q E.
Proof.
  intros Hps (ly & z & Hly & Hz & Hlen) Hf Hhit Hfin Herr. unfold plist_loop.
  apply (wp_loop (λ m s h', ∃ ps1 ps2, ps = ps1 ++ ps2 ∧ m = length ps2 ∧ h' = h ∧
    slow_at h place ps1 s.1.1 s.1.2 s.2 ∧ pseg h s.1.2 ps2 y ∧ no_prop f ps1)) with (n := length ps); [| |done].
  2: { exists [], ps. split_and!; [done..|apply slow_at_start|done|constructor]. }
  intros m [[n l] slow] h1 (ps1 & ps2 & Heq & -> & -> & Hs & H2 & Hno). cbn [fst snd] in *.
  assert (Hfinish : ps2 = [] → wp (if negb (mkcl_Null l) then raise (FEtype_error_plist place) else fin)
    h Q E).
  { intros ->. rewrite app_nil_r in Heq. subst ps1. simpl in H2. subst y.
    destruct (mkcl_Null l) eqn:En; simpl.
    - apply Null_true in En. by apply Hfin.
    - apply wp_raise, Herr; [done|]. by intros ->. }
  destruct ps2 as [|[[[a i] b] v] ps2].
  - specialize (Hfinish eq_refl). simpl in H2. subst y.
    destruct (MKCL_CONSP l) eqn:Ec.
    + destruct ly as [|[c w] ly]; [simpl in Hly; congruence|].
      destruct Hly as (-> & d & Hc & Hd). apply wp_bind. eapply wp_cdr; [done|].
      destruct ly; [simpl in Hd; subst d|simpl in Hlen; lia]. rewrite Hz. simpl.
      apply wp_bind. eapply wp_mono; [exact Hfinish| |done]. intros r h' Hr. by wp_go.
    + apply wp_bind. eapply wp_mono; [exact Hfinish| |done]. intros r h' Hr. by wp_go.
  - destruct H2 as (-> & d & Ha & Hb & Hd). wp_go.
    eapply wp_mono; [by apply (Hhit ps1 a i b v ps2); eauto| |done].
    intros [r|] h' Hr; [by wp_go|]. destruct Hr as [-> Hfi].
    assert (L2 : lseg h (OCons a) ((((a, i, b, v) :: ps2) ≫= prop_lseg) ++ ly) z).
    { apply lseg_app. exists y. split; [|done]. apply pseg_lseg. simpl. eauto. }
    rewrite (slow_at_apart _ _ _ _ _ _ _ _ Hs L2 Hz). apply wp_bind.
    eapply wp_mono; [by eapply slow_at_step| |done]. intros slow' h' [-> Hs']. wp_go.
    exists (length ps2). split; [simpl; lia|]. exists (ps1 ++ [(a, i, b, v)]), ps2.
    rewrite <- app_assoc. split_and!; [done..|]. apply Forall_app. split; [done|]. by constructor.
Qed.

(** ** Refinement of the abstract operations *)

(** The first property with an indicator. *)
Lemma prop_first (i : obj) (ps : list prop_cells) :
  no_prop (λ j, obj_eq j i) ps ∨
  ∃ ps1 a j b v ps2, ps = ps1 ++ (a, j, b, v) :: ps2 ∧ no_prop (λ j, obj_eq j i) ps1 ∧ obj_eq j i = true.
Proof.
  induction ps as [|[[[a j] b] v] ps IH]; [left; constructor|].
  destruct (obj_eq j i) eqn:Ej; [right; exists [], a, j, b, v, ps; split_and!; [done|constructor|done]|].
  destruct IH as [H|(ps1 & a' & j' & b' & v' & ps2 & -> & H & ?)]; [left; by constructor|].
  right. exists ((a, j, b, v) :: ps1), a', j', b', v', ps2. split_and!; [done|by constructor|done].
Qed.

Lemma al_get_none i d ps :
  no_prop (λ j, obj_eq j i) ps → al_get (prop_kv <$> ps) i d = d.
Proof.
  induction 1 as [|[[[a j] b] v] ps Hj _ IH]; [done|]. unfold prop_ind in Hj. csimpl in *. by rewrite Hj.
Qed.

Lemma al_get_some i d ps1 a j b v ps2 :
  no_prop (λ j, obj_eq j i) ps1 → obj_eq j i = true →
  al_get (prop_kv <$> (ps1 ++ (a, j, b, v) :: ps2)) i d = v.
Proof.
  intros H Hj. induction H as [|[[[a' j'] b'] v'] ps Hj' _ IH]; csimpl; [by rewrite Hj|].
  unfold prop_ind in Hj'. csimpl in *. by rewrite Hj'.
Qed.

Lemma al_put_none i w ps :
  no_prop (λ j, obj_eq j i) ps → al_put (prop_kv <$> ps) i w = (i, w) :: (prop_kv <$> ps).
Proof.
  intros H. unfold al_put. assert (al_set (prop_kv <$> ps) i w = None) as ->; [|done].
  induction H as [|[[[a j] b] v] ps Hj _ IH]; [done|]. unfold prop_ind in Hj. csimpl in *.
  by rewrite Hj, IH.
Qed.

Lemma al_put_some i w ps1 a j b v ps2 :
  no_prop (λ j, obj_eq j i) ps1 → obj_eq j i = true →
  al_put (prop_kv <$> (ps1 ++ (a, j, b, v) :: ps2)) i w =
  prop_kv <$> (ps1 ++ (a, j, b, w) :: ps2).
Proof.
  intros H Hj. unfold al_put.
  assert (al_set (prop_kv <$> (ps1 ++ (a, j, b, v) :: ps2)) i w =
          Some (prop_kv <$> (ps1 ++ (a, j, b, w) :: ps2))) as ->; [|done].
  induction H as [|[[[a' j'] b'] v'] ps Hj' _ IH]; csimpl; [by rewrite Hj|].
  unfold prop_ind in Hj'. csimpl in *. by rewrite Hj', IH.
Qed.

Lemma al_rem_none i ps :
  no_prop (λ j, obj_eq j i) ps → al_rem (prop_kv <$> ps) i = (false, prop_kv <$> ps).
Proof.
  induction 1 as [|[[[a j] b] v] ps Hj _ IH]; [done|]. unfold prop_ind in Hj. csimpl in *.
  by rewrite Hj, IH.
Qed.

Lemma al_rem_some i ps1 a j b v ps2 :
  no_prop (λ j, obj_eq j i) ps1 → obj_eq j i = true →
  al_rem (prop_kv <$> (ps1 ++ (a, j, b, v) :: ps2)) i = (true, prop_kv <$> (ps1 ++ ps2)).
Proof.
  intros H Hj. induction H as [|[[[a' j'] b'] v'] ps Hj' _ IH]; csimpl; [by rewrite Hj|].
  unfold prop_ind in Hj'. csimpl in *. by rewrite Hj', IH.
Qed.

Lemma no_prop_not (i : obj) ps1 a j b v ps2 ps :
  ps = ps1 ++ (a, j, b, v) :: ps2 → obj_eq j i = true → ¬ no_prop (λ j, obj_eq j i) ps.
Proof.
  intros -> Hj [_ H]%Forall_app. inversion H as [|? ? Hc]; subst.
  unfold prop_ind in Hc. simpl in Hc. congruence.
Qed.

(** The cell of a value, written: with another value, or another rest. *)
Lemma pseg_relink h x ps1 a i b w d ps2 y :
  pseg h x ps1 (OCons a) → h !! a = Some (CCons i (OCons b)) → pseg h d ps2 y →
  NoDup ((ps1 ≫= prop_lseg).*1 ++ a :: b :: (ps2 ≫= prop_lseg).*1) →
  pseg (<[b := CCons w d]> h) x (ps1 ++ (a, i, b, w) :: ps2) y.
Proof.
  intros H1 Ha H2 (Hnd1 & Hd & Hnd2)%NoDup_app.
  apply NoDup_cons in Hnd2 as [Hab [Hb _]%NoDup_cons].
  apply pseg_app. exists (OCons a). split.
  - apply pseg_insert_ne; [|done]. intros Hin. apply (Hd b Hin). by right; left.
  - simpl. split; [done|]. exists d. rewrite lookup_insert_ne by (intros ->; apply Hab; by left).
    rewrite lookup_insert_eq. split_and!; [done..|]. by apply pseg_insert_ne.
Qed.

Lemma pseg_NoDup h x ps1 a i b v ps2 y :
  pseg h x (ps1 ++ (a, i, b, v) :: ps2) y → MKCL_CONSP y = false →
  NoDup ((ps1 ≫= prop_lseg).*1 ++ a :: b :: (ps2 ≫= prop_lseg).*1).
Proof.
  intros H%pseg_lseg Hy. apply lseg_NoDup in H; [|done].
  by rewrite bind_app, fmap_app in H.
Qed.

(** Only the conses of the list at [place] are written. *)
Definition others_kept (h h' : heap) (place : obj) : Prop :=
  ∀ ps, pseg h place ps ONil →
    ∀ c w, h !! c = Some w → c ∉ (ps ≫= prop_lseg).*1 → h' !! c = Some w.

Lemma pseg_unique h x ps ps' : pseg h x ps ONil → pseg h x ps' ONil → ps = ps'.
Proof.
  revert x ps'. induction ps as [|[[[a i] b] v] ps IH]; intros x ps'; simpl.
  - intros ->. destruct ps' as [|[[[a' i'] b'] v'] ps']; simpl; [done|]. by intros [[=] _].
  - intros (-> & d & Ha & Hb & Hd). destruct ps' as [|[[[a' i'] b'] v'] ps']; simpl; [done|].
    intros ([= <-] & d' & Ha' & Hb' & Hd'). simplify_eq. f_equal. by eapply IH.
Qed.

Lemma others_kept_refl h place : others_kept h h place.
Proof. by intros ps _ c w Hc _. Qed.

Lemma others_kept_insert h place ps b w :
  pseg h place ps ONil → b ∈ (ps ≫= prop_lseg).*1 → others_kept h (<[b := w]> h) place.
Proof.
  intros Hps Hb ps' Hps' c w' Hc Hnin. rewrite (pseg_unique _ _ _ _ Hps' Hps) in Hnin.
  rewrite lookup_insert_ne; [done|]. by intros ->.
Qed.

Lemma others_kept_subseteq h h' place : h ⊆ h' → others_kept h h' place.
Proof. intros Hs ps _ c w Hc _. by eapply lookup_weaken. Qed.

Lemma val_cell_elem ps1 a i b v ps2 : b ∈ ((ps1 ++ (a, i, b, v) :: ps2) ≫= prop_lseg).*1.
Proof. rewrite bind_app, fmap_app, bind_cons. simpl. set_solver. Qed.

(** ** Termination *)

(** The cons two cdrs further. *)
Definition next_prop (h : heap) (x : obj) : obj := next_cdr h (next_cdr h x).

Lemma CDR_Done_inv x h d h' :
  MKCL_CONS_CDR x h = Done d h' → h' = h ∧ d = next_cdr h x ∧ x ∈ cons_refs h.
Proof.
  destruct (read_cons_cases x h) as [(a & v & d' & -> & Ha)|[_ ->]]; [|done].
  rewrite (CDR_eq _ _ _ _ Ha). intros [= <- <-]. simpl. rewrite Ha.
  split_and!; [done..|by eapply cons_refs_elem].
Qed.

Lemma CAR_Done_inv x v h h' : MKCL_CONS_CAR x h = Done v h' → h' = h.
Proof.
  unfold MKCL_CONS_CAR, read_cons, mbind, M_bind. intros E.
  destruct x; try done. destruct (h !! a) as [[]|]; try done. by injection E.
Qed.

Lemma slow_step_inv (n : Z) slow h slow' h' :
  (if Z.odd n then d ← MKCL_CONS_CDR slow; MKCL_CONS_CDR d else mret slow) h = Done slow' h' →
  h' = h ∧ slow' = if Z.odd n then next_prop h slow else slow.
Proof.
  destruct (Z.odd n); [|by intros [= <- <-]].
  intros (d & h1 & (-> & -> & _)%CDR_Done_inv & (-> & -> & _)%CDR_Done_inv)%bind_Done_inv. done.
Qed.

Lemma not_meeting slow l n :
  obj_eq slow l && negb (n =? 0) = false → ¬ (slow = l ∧ n ≠ 0).
Proof.
  intros Hm [-> Hn]. rewrite obj_eq_refl in Hm. simpl in Hm.
  by rewrite (proj2 (Z.eqb_neq n 0) Hn) in Hm.
Qed.

Ltac total_step :=
  unfold mbind, M_bind, MKCL_RPLACA, MKCL_RPLACD, MKCL_CONS_CDR, MKCL_CONS_CAR, read_cons,
    write_cell, mbind, M_bind;
  repeat (case_match; try done); congruence.

Lemma plist_loop_total {R} fuel (hit : obj → obj → M (option R)) fin place h :
  (2 * size h < fuel)%nat → fin h ≠ Diverge →
  (∀ l cdr_l, hit l cdr_l h ≠ Diverge ∧ ∀ h', hit l cdr_l h = Done None h' → h' = h) →
  plist_loop fuel hit fin place h ≠ Diverge.
Proof.
  intros Hf Hfin Hhit. rewrite <- cons_refs_length in Hf. unfold plist_loop.
  set (body := λ s : Z * obj * obj, _).
  apply (tortoise_loop_terminates body h (λ s, s.1.1) (λ s, s.1.2) (λ s, s.2)
           (next_prop h) (cons_refs h)); [| |done..].
  - intros [[n l] slow]. unfold body. destruct (MKCL_CONSP l).
    + destruct (read_cons_cases l h) as [(a & v & d & -> & Ha)|[_ Hs]];
        [|by rewrite (bind_Fail _ _ _ _ _ Hs)].
      rewrite (bind_Done _ _ _ _ _ (CDR_eq _ _ _ _ Ha)).
      destruct (negb (MKCL_CONSP d)); [done|]. destruct (Hhit (OCons a) d) as [Hn Hnone].
      unfold mbind, M_bind at 1. destruct (hit (OCons a) d h) as [[r|] h1|e h1|] eqn:E; try done.
      rewrite (Hnone h1) by done. total_step.
    + destruct (negb (mkcl_Null l)); [done|]. unfold mbind, M_bind. by destruct (fin h).
  - intros [[n l] slow] s' h'. unfold body. cbn [fst snd].
    destruct (MKCL_CONSP l); [|by intros (r & h1 & _ & [=])%bind_Done_inv].
    intros (d & h1 & (-> & -> & HD)%CDR_Done_inv & Hs)%bind_Done_inv.
    destruct (negb (MKCL_CONSP (next_cdr h l))); [by apply bind_Done_inv in Hs as (r & h1 & _ & [=])|].
    apply bind_Done_inv in Hs as ([r|] & h1 & E & Hs); [done|].
    apply (proj2 (Hhit _ _)) in E as ->.
    destruct (obj_eq slow l && negb (n =? 0)) eqn:Em; [done|].
    apply bind_Done_inv in Hs as (slow' & h1 & [-> Hslow]%slow_step_inv & Hs).
    apply bind_Done_inv in Hs as (l' & h1 & (-> & -> & _)%CDR_Done_inv & [= <- <-]).
    cbn [fst snd]. split_and!; [done|done|by apply not_meeting|done|done|done].
Qed.

Lemma remf_total fuel place indicator h :
  (2 * size h < fuel)%nat → remf fuel place indicator h ≠ Diverge.
Proof.
  intros Hf. rewrite <- cons_refs_length in Hf. unfold remf.
  set (body := λ s : Z * obj * obj * obj, _).
  apply (tortoise_loop_terminates body h (λ s, s.1.1.1) (λ s, s.1.1.2) (λ s, s.2)
           (next_prop h) (cons_refs h)); [| |done..].
  - intros [[[n l] tail] slow]. unfold body. total_step.
  - intros [[[n l] tail] slow] s' h'. unfold body. cbn [fst snd].
    destruct (mkcl_Null l); [done|]. destruct (MKCL_LISTP l); [|done]. simpl negb. cbv iota.
    destruct (obj_eq slow l && negb (n =? 0)) eqn:Em; [done|].
    intros (ind & h1 & E & Hs)%bind_Done_inv.
    assert (h1 = h) as ->.
    { by eapply CAR_Done_inv. }
    apply bind_Done_inv in Hs as (d & h1 & (-> & -> & HD)%CDR_Done_inv & Hs).
    destruct (negb (MKCL_CONSP (next_cdr h l))); [done|].
    destruct (obj_eq ind indicator).
    { apply bind_Done_inv in Hs as (r & h1 & _ & Hs).
      destruct (mkcl_Null tail); [done|]. by apply bind_Done_inv in Hs as (u & h2 & _ & [=]). }
    apply bind_Done_inv in Hs as (slow' & h1 & [-> Hslow]%slow_step_inv & Hs).
    apply bind_Done_inv in Hs as (l' & h1 & (-> & -> & _)%CDR_Done_inv & [= <- <-]).
    cbn [fst snd]. split_and!; [done|done|by apply not_meeting|done|done|done].
Qed.

Section with_fuel.
Context (fuel : nat).

(** GETF on a chain of properties gives the value of the first with the
    indicator.  Without one it gives the default on a proper property list, and
    signals a malformed property list on a dotted list or one of odd length. *)
Theorem getf_finds h place ps y indicator deflt :
  pseg h place ps y → plist_end h y → (length ps < fuel)%nat →
  mkcl_getf fuel place indicator deflt h =
  (if existsb (λ p, obj_eq (prop_ind p) indicator) ps || mkcl_Null y
   then Done (al_get (prop_kv <$> ps) indicator deflt) h
   else Fail (FEtype_error_plist place) h).
Proof.
  intros Hps Hy Hf.
  set (found := existsb _ _).
  assert (Hfound : no_prop (λ j, obj_eq j indicator) ps ↔ found = false).
  { unfold found, no_prop. clear. induction ps as [|p ps IH]; simpl; [split; [done|constructor]|].
    rewrite Forall_cons, orb_false_iff. naive_solver. }
  assert (wp (mkcl_getf fuel place indicator deflt) h
    (λ r h', found || mkcl_Null y = true ∧ r = al_get (prop_kv <$> ps) indicator deflt ∧ h' = h)
    (λ e h', found || mkcl_Null y = false ∧ e = FEtype_error_plist place ∧ h' = h)) as Hwp.
  2: { unfold wp in Hwp. destruct (mkcl_getf fuel place indicator deflt h).
       - by destruct Hwp as (-> & -> & ->).
       - by destruct Hwp as (-> & -> & ->).
       - done. }
  unfold mkcl_getf. apply (plist_loop_spec _ _ _ ps y (λ j, obj_eq j indicator)); try done.
  - intros ps1 a i b v ps2 Heq Hno Ha [d Hb]. wp_go.
    destruct (obj_eq i indicator) eqn:Ei; wp_go; [|done].
    split_and!; [|by rewrite Heq, al_get_some|done].
    destruct found; [done|]. exfalso. eapply no_prop_not; [done|done|by apply Hfound].
  - intros Hno ->. wp_go. rewrite orb_true_r, al_get_none; done.
  - intros Hno Hne. apply Hfound in Hno as ->. split_and!; [|done|done].
    by destruct y.
Qed.

(** C12: The function behind (SETF GETF) on a proper property list: the value of the
    first property with the indicator is replaced in place, or a property is
    added in front; no other object is written. *)
Theorem put_f_refines h place kvs indicator value :
  plist_of h place kvs → (length kvs < fuel)%nat →
  ∃ r h', mk_si_put_f fuel place value indicator h = Done r h' ∧
    plist_of h' r (al_put kvs indicator value) ∧ others_kept h h' place.
Proof.
  intros (ps & Hps & <-) Hf. rewrite length_fmap in Hf.
  apply wp_done_inv. unfold mk_si_put_f.
  apply (plist_loop_spec _ _ _ ps ONil (λ j, obj_eq j indicator)); try done; [apply plist_end_nil| |].
  - intros ps1 a i b v ps2 Heq Hno Ha [d Hb]. wp_go.
    destruct (obj_eq i indicator) eqn:Ei; wp_go; [|done]. rewrite Heq in *.
    split; [|by eapply others_kept_insert, val_cell_elem].
    rewrite al_put_some by done. eexists. split; [|done].
    pose proof Hps as (z & Hz1 & -> & d' & Ha' & Hb' & Hd')%pseg_app. rewrite Hb in Hb'. simplify_eq.
    by eapply pseg_relink, pseg_NoDup.
  - intros Hno _. wp_go. rewrite al_put_none by done.
    set (h1 := <[first_free h:=CCons value place]> h).
    assert (Hs : h ⊆ <[first_free h1 := CCons indicator (OCons (first_free h))]> h1)
      by (apply subseteq_alloc, insert_first_free_subseteq).
    split; [|by apply others_kept_subseteq].
    exists ((first_free h1, indicator, first_free h, value) :: ps). split; [|done].
    simpl. split; [done|]. exists place. rewrite lookup_insert_eq. split; [done|].
    split; [|by eapply pseg_mono].
    rewrite lookup_insert_ne; [by apply lookup_insert_eq|].
    intros Heq. pose proof (first_free_fresh h1) as Hn. rewrite Heq in Hn. unfold h1 in Hn.
    by rewrite lookup_insert_eq in Hn.
Qed.

(** The last cons of the properties before the current one. *)
Definition tail_of (ps1 : list prop_cells) : obj :=
  match last ps1 with Some (_, _, b, _) => OCons b | None => ONil end.

(** REMF on a proper property list unlinks the first property with the
    indicator and tells whether there was one; it allocates nothing and writes
    no other object. *)
Theorem remf_refines h place kvs indicator :
  plist_of h place kvs → (length kvs < fuel)%nat →
  ∃ r h', remf fuel place indicator h = Done ((al_rem kvs indicator).1, r) h' ∧
    plist_of h' r (al_rem kvs indicator).2 ∧ others_kept h h' place.
Proof.
  intros (ps & Hps & <-) Hf. rewrite length_fmap in Hf.
  destruct (wp_done_inv (remf fuel place indicator) h (λ r h',
     r.1 = (al_rem (prop_kv <$> ps) indicator).1 ∧
     plist_of h' r.2 (al_rem (prop_kv <$> ps) indicator).2 ∧ others_kept h h' place))
    as ([found r] & h' & E & <- & Hr & Ho); [|by eauto].
  unfold remf.
  apply (wp_loop (λ m s h', ∃ ps1 ps2, ps = ps1 ++ ps2 ∧ m = length ps2 ∧ h' = h ∧
    slow_at h place ps1 s.1.1.1 s.1.1.2 s.2 ∧ pseg h s.1.1.2 ps2 ONil ∧ s.1.2 = tail_of ps1 ∧
    no_prop (λ j, obj_eq j indicator) ps1)) with (n := length ps); [| |done].
  2: { exists [], ps. split_and!; [done..|apply slow_at_start|done|done|constructor]. }
  intros m [[[n l] tail] slow] h1 (ps1 & ps2 & Heq & -> & -> & Hs & H2 & Ht & Hno). cbn [fst snd] in *.
  subst tail.
  destruct ps2 as [|[[[a i] b] v] ps2].
  { rewrite app_nil_r in Heq. subst ps1. simpl in H2. subst l. wp_cond. wp_go.
    rewrite al_rem_none by done. split_and!; [done|by exists ps|apply others_kept_refl]. }
  pose proof H2 as (-> & d & Ha & Hb & Hd). wp_cond.
  rewrite (slow_at_apart _ _ _ _ _ _ (((a, i, b, v) :: ps2) ≫= prop_lseg) ONil Hs) by
    (try apply pseg_lseg; done).
  wp_go. destruct (obj_eq i indicator) eqn:Ei.
  - wp_go. rewrite Heq, al_rem_some by done.
    destruct (snoc_inv ps1) as [->|(ps0 & [[[a0 i0] b0] v0] & ->)].
    + wp_go. split_and!; [done|by exists ps2|apply others_kept_refl].
    + unfold tail_of. rewrite last_snoc. wp_cond.
      destruct Hs as (_ & Hl & _). apply pseg_app in Hl as (z & Hz & -> & d0 & Ha0 & Hb0 & Hd0).
      simpl in Hd0. subst d0. wp_go. rewrite <- app_assoc in Heq. simpl in Heq.
      split_and!; [done| |by eapply (others_kept_insert _ _ ps); [done|]; rewrite Heq; apply val_cell_elem].
      eexists. split; [|done]. rewrite <- app_assoc. simpl.
      rewrite Heq in Hps. apply pseg_NoDup in Hps; [|done]. eapply pseg_relink; try done.
      revert Hps. rewrite bind_cons, fmap_app. simpl. rewrite !NoDup_app, !NoDup_cons. set_solver.
  - apply wp_bind. eapply wp_mono; [by eapply slow_at_step| |done]. intros slow' h' [-> Hs']. wp_go.
    exists (length ps2). split; [simpl; lia|]. exists (ps1 ++ [(a, i, b, v)]), ps2.
    rewrite <- app_assoc. unfold tail_of. rewrite last_snoc.
    split_and!; [done..|]. apply Forall_app. split; [done|]. by constructor.
Qed.

Lemma getf_put_f_total h place indicator value deflt :
  (2 * size h < fuel)%nat →
  mkcl_getf fuel place indicator deflt h ≠ Diverge ∧
  mk_si_put_f fuel place value indicator h ≠ Diverge.
Proof.
  intros Hf. split.
  - apply plist_loop_total; [done..|]. intros l cdr_l. split; [total_step|].
    intros h' (i & h1 & ->%CAR_Done_inv & Hs)%bind_Done_inv.
    destruct (obj_eq i indicator); [by apply bind_Done_inv in Hs as (v & h1 & _ & [=])|by injection Hs].
  - apply plist_loop_total; [done..|]. intros l cdr_l. split; [total_step|].
    intros h' (i & h1 & ->%CAR_Done_inv & Hs)%bind_Done_inv.
    destruct (obj_eq i indicator); [by apply bind_Done_inv in Hs as (v & h1 & _ & [=])|by injection Hs].
Qed.

(** GETF, the function behind (SETF GETF) and REMF stop on every object and
    every heap: circular, dotted and odd lists, and lists whose values lead
    back to them. *)
Theorem plist_operations_stop h place indicator value deflt :
  (2 * size h < fuel)%nat →
  mkcl_getf fuel place indicator deflt h ≠ Diverge ∧
  mk_si_put_f fuel place value indicator h ≠ Diverge ∧
  remf fuel place indicator h ≠ Diverge.
Proof.
  intros Hf. pose proof (getf_put_f_total h place indicator value deflt Hf) as [? ?].
  split_and!; [done..|by apply remf_total].
Qed.
End with_fuel.


(** ** Circular lists *)

(** A list on which one meets properties for ever, none with the indicator. *)
Definition endless (h : heap) (place indicator : obj) : Prop :=
  ∀ n : nat, ∃ ps l, length ps = n ∧ pseg h place ps l ∧ no_prop (λ j, obj_eq j indicator) ps.

Lemma pseg_det h x ps1 ps2 y1 y2 :
  length ps1 = length ps2 → pseg h x ps1 y1 → pseg h x ps2 y2 → ps1 = ps2 ∧ y1 = y2.
Proof.
  revert x ps2. induction ps1 as [|[[[a i] b] v] ps1 IH]; intros x [|[[[a' i'] b'] v'] ps2] Hl; try done.
  - simpl. by intros -> ->.
  - simpl. intros (-> & d & Ha & Hb & Hd) ([= <-] & d' & Ha' & Hb' & Hd'). simplify_eq/=.
    destruct (IH d ps2) as [-> ->]; [lia|done|done|done].
Qed.

(** The next property of an endless list. *)
Lemma endless_next h place indicator ps l :
  endless h place indicator → pseg h place ps l →
  ∃ a i b v d, l = OCons a ∧ h !! a = Some (CCons i (OCons b)) ∧ h !! b = Some (CCons v d) ∧
               obj_eq i indicator = false.
Proof.
  intros He Hps. destruct (He (S (length ps))) as (ps' & l' & Hlen & Hps' & Hno).
  destruct (snoc_inv ps') as [->|(q & [[[a i] b] v] & ->)]; [done|].
  apply pseg_app in Hps' as (z & Hq & -> & d & Ha & Hb & Hd).
  rewrite length_app in Hlen. simpl in Hlen.
  destruct (pseg_det h place q ps (OCons a) l) as [-> <-]; [lia|done|done|].
  apply Forall_app in Hno as [_ Hno]. apply Forall_cons in Hno as [Hno _]. by exists a, i, b, v, d.
Qed.

Section with_fuel.
Context (fuel : nat).

Lemma plist_loop_endless {R} (hit : obj → obj → M (option R)) fin h place indicator :
  plist_loop fuel hit fin place h ≠ Diverge → endless h place indicator →
  (∀ a i b, h !! a = Some (CCons i (OCons b)) → obj_eq i indicator = false →
     hit (OCons a) (OCons b) h = Done None h) →
  plist_loop fuel hit fin place h = Fail (FEcircular_list place) h.
Proof.
  intros Ht He Hhit.
  destruct (wp_fail_inv (plist_loop fuel hit fin place) h
    (λ e h', e = FEcircular_list place ∧ h' = h)) as (e & h' & E & -> & ->); [|done].
  unfold plist_loop in *.
  apply (wp_loop_total (λ s h', h' = h ∧ ∃ ps, slow_at h place ps s.1.1 s.1.2 s.2)); [done| |].
  - intros [[n l] slow] h1 [-> [ps Hs]] _. cbn [fst snd] in *.
    destruct (endless_next h place indicator ps l He (proj1 (proj2 Hs)))
      as (a & i & b & v & d & -> & Ha & Hb & Hi).
    wp_go. eapply wp_Done; [by eapply Hhit|].
    destruct (obj_eq slow (OCons a) && negb (n =? 0)); [by wp_go|].
    apply wp_bind. eapply wp_mono; [by eapply slow_at_step| |done]. intros slow' h' [-> Hs']. wp_go.
    split; [done|]. eauto.
  - split; [done|]. exists []. apply slow_at_start.
Qed.

Lemma remf_endless h place indicator :
  (2 * size h < fuel)%nat → endless h place indicator →
  remf fuel place indicator h = Fail (FEcircular_list place) h.
Proof.
  intros Hf He. pose proof (remf_total fuel place indicator h Hf) as Ht.
  destruct (wp_fail_inv (remf fuel place indicator) h
    (λ e h', e = FEcircular_list place ∧ h' = h)) as (e & h' & E & -> & ->); [|done].
  unfold remf in *.
  apply (wp_loop_total (λ s h', h' = h ∧ ∃ ps, slow_at h place ps s.1.1.1 s.1.1.2 s.2)); [done| |].
  - intros [[[n l] tail] slow] h1 [-> [ps Hs]] _. cbn [fst snd] in *.
    destruct (endless_next h place indicator ps l He (proj1 (proj2 Hs)))
      as (a & i & b & v & d & -> & Ha & Hb & Hi).
    wp_cond. destruct (obj_eq slow (OCons a) && negb (n =? 0)); [by wp_go|].
    wp_go. rewrite Hi.
    apply wp_bind. eapply wp_mono; [by eapply slow_at_step| |done]. intros slow' h' [-> Hs']. wp_go.
    split; [done|]. eauto.
  - split; [done|]. exists []. apply slow_at_start.
Qed.

(** On a circular property list without the indicator, GETF, the function
    behind (SETF GETF) and REMF signal a circular list, and write nothing. *)
Theorem plist_circular h place indicator value deflt :
  (2 * size h < fuel)%nat → endless h place indicator →
  mkcl_getf fuel place indicator deflt h = Fail (FEcircular_list place) h ∧
  mk_si_put_f fuel place value indicator h = Fail (FEcircular_list place) h ∧
  remf fuel place indicator h = Fail (FEcircular_list place) h.
Proof.
  intros Hf He. destruct (getf_put_f_total fuel h place indicator value deflt Hf) as [H1 H2].
  split_and!; [..|by apply remf_endless];
    (apply (plist_loop_endless _ _ h place indicator); [done..|]; intros a i b Ha Hi;
     rewrite (bind_Done _ _ _ _ _ (CAR_eq _ _ _ _ Ha)); by rewrite Hi).
Qed.
End with_fuel.

(** ** Symbols *)

(** The symbol [s] is in the heap and has the properties [kvs]. *)
Definition symbol_props (h : heap) (s : obj) (kvs : list (obj * obj)) : Prop :=
  ∃ a sy, symbol_addr s = Some a ∧ h !! a = Some (CSym sy) ∧ plist_of h (sym_plist sy) kvs.

(** The other symbols are the same objects as before. *)
Definition other_symbols_kept (h h' : heap) (s : obj) : Prop :=
  ∀ a sy, symbol_addr s ≠ Some a → h !! a = Some (CSym sy) → h' !! a = Some (CSym sy).

Lemma wp_read_symbol s a sy h (Q : Z * symbol → heap → Prop) E :
  symbol_addr s = Some a → h !! a = Some (CSym sy) → Q (a, sy) h → wp (read_symbol s) h Q E.
Proof. intros Ha Hh HQ. unfold wp, read_symbol. by rewrite Ha, Hh. Qed.

Lemma wp_set_symbol_plist s a sy p h (Q : unit → heap → Prop) E :
  symbol_addr s = Some a → h !! a = Some (CSym sy) →
  Q tt (<[a := CSym {| sym_name := sym_name sy; sym_plist := p; sym_hpack := sym_hpack sy;
                       sym_stype := sym_stype sy; sym_value := sym_value sy |}]> h) →
  wp (set_symbol_plist s p) h Q E.
Proof. intros Ha Hh HQ. apply wp_bind. by eapply wp_read_symbol. Qed.

Lemma pseg_not_symbol h x ps y a sy :
  pseg h x ps y → h !! a = Some (CSym sy) → a ∉ (ps ≫= prop_lseg).*1.
Proof.
  revert x. induction ps as [|[[[b i] c] v] ps IH]; intros x; simpl; [by intros _ _ ?%elem_of_nil|].
  intros (-> & d & Hb & Hc & Hd) Ha. rewrite !not_elem_of_cons.
  split_and!; [intros ->; congruence..|by eapply IH].
Qed.

(** The heap after the property list of a symbol was changed and stored. *)
Lemma symbol_props_stored h h1 s a sy kvs p kvs' :
  symbol_addr s = Some a → h !! a = Some (CSym sy) → plist_of h (sym_plist sy) kvs →
  others_kept h h1 (sym_plist sy) → plist_of h1 p kvs' →
  h1 !! a = Some (CSym sy) ∧
  ∀ sy', sym_plist sy' = p → symbol_props (<[a := CSym sy']> h1) s kvs' ∧
         other_symbols_kept h (<[a := CSym sy']> h1) s.
Proof.
  intros Ha Hs (ps & Hps & _) Hk (ps' & Hps' & <-).
  assert (Hkept : ∀ b sy', h !! b = Some (CSym sy') → h1 !! b = Some (CSym sy')).
  { intros b sy' Hb. eapply Hk; [done|done|]. by eapply pseg_not_symbol. }
  split; [by apply Hkept|]. intros sy' Hsy'. split.
  - exists a, sy'. rewrite lookup_insert_eq. split_and!; [done..|]. exists ps'. split; [|done].
    rewrite Hsy'. apply pseg_insert_ne; [|done]. eapply pseg_not_symbol; [done|]. by apply Hkept.
  - intros b sy1 Hb Hb1. rewrite lookup_insert_ne; [by apply Hkept|]. intros ->. congruence.
Qed.

(** ** The laws of the abstract operations *)

Lemma al_get_put kvs i v j d :
  al_get (al_put kvs i v) j d = if obj_eq i j then v else al_get kvs j d.
Proof.
  unfold al_put. destruct (al_set kvs i v) as [kvs'|] eqn:E; [|done]. simpl.
  revert kvs' E. induction kvs as [|[k w] kvs IH]; intros kvs'; simpl; [done|].
  destruct (obj_eq k i) eqn:Ek; [intros [= <-]|intros (kvs2 & E & ->)%fmap_Some]; simpl.
  - apply obj_eq_true in Ek as ->. by destruct (obj_eq i j).
  - rewrite (IH _ E). destruct (obj_eq k j) eqn:Ekj, (obj_eq i j) eqn:Eij; try done.
    apply obj_eq_true in Ekj as ->. apply obj_eq_true in Eij as ->. by rewrite obj_eq_refl in Ek.
Qed.

Lemma al_get_absent kvs i d : i ∉ kvs.*1 → al_get kvs i d = d.
Proof.
  induction kvs as [|[k w] kvs IH]; simpl; [done|]. intros [Hk Hi]%not_elem_of_cons.
  destruct (obj_eq k i) eqn:E; [by apply obj_eq_true in E as ->|]. by apply IH.
Qed.

Lemma al_get_rem kvs i j d :
  NoDup kvs.*1 → al_get (al_rem kvs i).2 j d = if obj_eq i j then d else al_get kvs j d.
Proof.
  induction kvs as [|[k w] kvs IH]; simpl; [by destruct (obj_eq i j)|].
  intros [Hk Hnd]%NoDup_cons. destruct (obj_eq k i) eqn:Ek; simpl.
  - apply obj_eq_true in Ek as ->. destruct (obj_eq i j) eqn:Eij; [|done].
    apply obj_eq_true in Eij as ->. by apply al_get_absent.
  - rewrite IH by done. destruct (obj_eq k j) eqn:Ekj, (obj_eq i j) eqn:Eij; try done.
    apply obj_eq_true in Ekj as ->. apply obj_eq_true in Eij as ->. by rewrite obj_eq_refl in Ek.
Qed.

Lemma al_set_length kvs i v kvs' : al_set kvs i v = Some kvs' → length kvs' = length kvs.
Proof.
  revert kvs'. induction kvs as [|[k w] kvs IH]; intros kvs'; simpl; [done|].
  destruct (obj_eq k i); [by intros [= <-]|]. intros (kvs2 & E & ->)%fmap_Some. simpl. f_equal. by apply IH.
Qed.

Lemma al_put_length kvs i v : (length (al_put kvs i v) ≤ S (length kvs))%nat.
Proof.
  unfold al_put. destruct (al_set kvs i v) eqn:E; simpl; [|lia]. apply al_set_length in E. lia.
Qed.

Lemma al_rem_length kvs i : (length (al_rem kvs i).2 ≤ length kvs)%nat.
Proof. induction kvs as [|[k w] kvs IH]; simpl; [lia|]. destruct (obj_eq k i); simpl; lia. Qed.

(** ** GET, its setter, and REMPROP *)

Section with_symbols.
Context (fuel : nat).

Lemma putprop_spec h s kvs i v :
  symbol_props h s kvs → (length kvs < fuel)%nat →
  ∃ h', mk_si_putprop fuel s v i h = Done v h' ∧ symbol_props h' s (al_put kvs i v) ∧
        other_symbols_kept h h' s.
Proof.
  intros (a & sy & Ha & Hs & Hp) Hf.
  destruct (put_f_refines fuel h (sym_plist sy) kvs i v Hp Hf) as (r & h1 & E & Hr & Hk).
  destruct (symbol_props_stored h h1 s a sy kvs r (al_put kvs i v)) as [Hs1 Hst]; [done..|].
  destruct (wp_done_inv (mk_si_putprop fuel s v i) h
    (λ r h', r = v ∧ symbol_props h' s (al_put kvs i v) ∧ other_symbols_kept h h' s))
    as (r' & h' & E' & -> & ? & ?); [|eauto].
  unfold mk_si_putprop, mkcl_symbol_plist. wp_go. eapply wp_read_symbol; [done..|]. wp_go.
  eapply wp_Done; [done|]. wp_go. eapply wp_set_symbol_plist; [done..|]. wp_go.
  split; [done|]. by apply Hst.
Qed.

Lemma get_spec h s kvs i d :
  symbol_props h s kvs → (length kvs < fuel)%nat →
  mk_cl_get fuel s i d h = Done (al_get kvs i d) h.
Proof.
  intros (a & sy & Ha & Hs & ps & Hps & <-) Hf. rewrite length_fmap in Hf.
  unfold mk_cl_get, mkcl_symbol_plist, read_symbol, mbind, M_bind. rewrite Ha, Hs. cbn.
  rewrite (getf_finds fuel h (sym_plist sy) ps ONil) by (done || apply plist_end_nil).
  by rewrite orb_true_r.
Qed.

(** After (SETF (GET S I) V), GET gives V for the indicator I and what it gave
    before for every other one; the other symbols are not touched. *)
Theorem get_putprop h s kvs i v :
  symbol_props h s kvs → (S (length kvs) < fuel)%nat →
  ∃ h', mk_si_putprop fuel s v i h = Done v h' ∧ other_symbols_kept h h' s ∧
    ∀ j d, mk_cl_get fuel s j d h = Done (al_get kvs j d) h ∧
           mk_cl_get fuel s j d h' = Done (if obj_eq i j then v else al_get kvs j d) h'.
Proof.
  intros Hs Hf. destruct (putprop_spec h s kvs i v) as (h' & E & Hs' & Hk); [done|lia|].
  exists h'. split_and!; [done..|]. intros j d. split; [apply get_spec; [done|lia]|].
  rewrite (get_spec h' s (al_put kvs i v)) by (done || (pose proof (al_put_length kvs i v); lia)).
  by rewrite al_get_put.
Qed.

(** REMPROP tells whether the symbol had the property.  When no indicator
    occurs twice, GET then gives the default for it and what it gave before for
    every other one. *)
Theorem get_remprop h s kvs i :
  symbol_props h s kvs → NoDup kvs.*1 → (length kvs < fuel)%nat →
  ∃ h', mk_cl_remprop fuel s i h = Done (lisp_bool (al_rem kvs i).1) h' ∧
    other_symbols_kept h h' s ∧
    ∀ j d, mk_cl_get fuel s j d h' = Done (if obj_eq i j then d else al_get kvs j d) h'.
Proof.
  intros (a & sy & Ha & Hs & Hp) Hnd Hf.
  destruct (remf_refines fuel h (sym_plist sy) kvs i Hp Hf) as (r & h1 & E & Hr & Hk).
  destruct (symbol_props_stored h h1 s a sy kvs r (al_rem kvs i).2) as [Hs1 Hst]; [done..|].
  destruct (wp_done_inv (mk_cl_remprop fuel s i) h
    (λ r h', r = lisp_bool (al_rem kvs i).1 ∧ symbol_props h' s (al_rem kvs i).2 ∧
             other_symbols_kept h h' s)) as (r' & h' & E' & -> & Hs' & ?).
  - unfold mk_cl_remprop, mkcl_symbol_plist. wp_go. eapply wp_read_symbol; [done..|]. wp_go.
    eapply wp_Done; [done|]. wp_go. eapply wp_set_symbol_plist; [done..|]. wp_go.
    split; [done|]. by apply Hst.
  - exists h'. split_and!; [done..|]. intros j d.
    rewrite (get_spec h' s (al_rem kvs i).2) by (done || (pose proof (al_rem_length kvs i); lia)).
    by rewrite al_get_rem.
Qed.

(** The indicators and values among the arguments, an odd one left out. *)
Fixpoint arg_pairs (args : list obj) : list (obj * obj) :=
  match args with p :: v :: rest => (p, v) :: arg_pairs rest | _ => [] end.

(** PUT-PROPERTIES stores its indicators and values from left to right, and
    ignores an odd last argument. *)
Theorem put_properties_folds args h s kvs :
  symbol_props h s kvs → (length kvs + length args < fuel)%nat →
  ∃ h', mk_si_put_properties fuel s args h = Done s h' ∧
    symbol_props h' s (foldl (λ kvs kv, al_put kvs kv.1 kv.2) kvs (arg_pairs args)) ∧
    other_symbols_kept h h' s.
Proof.
  revert h kvs. induction args as [args IH] using (induction_ltof1 _ length).
  intros h kvs Hs Hf. destruct args as [|p [|v rest]]; [..|].
  1-2: by exists h; split_and!; [done..|by intros ?].
  destruct (putprop_spec h s kvs p v) as (h1 & E & Hs1 & Hk1); [done|simpl in Hf; lia|].
  destruct (IH rest ltac:(unfold ltof; simpl; lia) h1 (al_put kvs p v)) as (h2 & E2 & Hs2 & Hk2).
  { done. }
  { pose proof (al_put_length kvs p v). simpl in Hf. lia. }
  exists h2. cbn [mk_si_put_properties]. rewrite (bind_Done _ _ _ _ _ E). split_and!; [done..|].
  intros b sy Hb Hsy. by apply Hk2, Hk1.
Qed.
End with_symbols.

(** The setter of the type flags has no answer on an object that is no symbol. *)
Lemma mkcl_symbol_type_set_diverges x type h :
  symbol_addr x = None → mkcl_symbol_type_set x type h = Diverge.
Proof. intros Hx. unfold mkcl_symbol_type_set. by rewrite Hx. Qed.

(** ** Instances *)

(** The property list [(:a 1 :b 2)] at 1, a list of odd length at 5, a circular
    one at 8, and a symbol at 20 with the first for its properties. *)
Definition ka : obj := OSym 30.
Definition kb : obj := OSym 31.
Definition kc : obj := OSym 32.
Definition ex_symbol : symbol :=
  {| sym_name := OBaseString 40; sym_plist := OCons 1; sym_hpack := ONil;
     sym_stype := mkcl_stp_ordinary; sym_value := None |}.
Definition plist_heap : heap := list_to_map
  [(1, CCons ka (OCons 2)); (2, CCons (OFix 1) (OCons 3));
   (3, CCons kb (OCons 4)); (4, CCons (OFix 2) ONil);
   (5, CCons ka (OCons 6)); (6, CCons (OFix 1) (OCons 7)); (7, CCons kb ONil);
   (8, CCons ka (OCons 9)); (9, CCons (OFix 1) (OCons 8));
   (20, CSym ex_symbol)].
Definition ex_props : list prop_cells := [(1, ka, 2, OFix 1); (3, kb, 4, OFix 2)].
Definition ex_kvs : list (obj * obj) := [(ka, OFix 1); (kb, OFix 2)].

Lemma ex_pseg : pseg plist_heap (OCons 1) ex_props ONil.
Proof. repeat (split; [done|]; eexists; split; [done|]; split; [done|]); done. Defined.

Lemma ex_plist_of : plist_of plist_heap (OCons 1) ex_kvs.
Proof. exists ex_props. split; [exact ex_pseg|done]. Defined.

Lemma ex_symbol_props : symbol_props plist_heap (OSym 20) ex_kvs.
Proof. exists 20, ex_symbol. split; [done|]. split; [done|exact ex_plist_of]. Defined.

Lemma ex_endless : endless plist_heap (OCons 8) kb.
Proof.
  intros n. exists (replicate n (8, ka, 9, OFix 1)), (OCons 8). split; [apply length_replicate|].
  split.
  - induction n as [|n IH]; simpl; [done|]. split; [done|]. exists (OCons 8). done.
  - apply Forall_replicate. done.
Defined.

Lemma getf_finds_witness :
  mkcl_getf 3 (OCons 5) kb ONil plist_heap = Fail (FEtype_error_plist (OCons 5)) plist_heap.
Proof.
  apply (getf_finds 3 plist_heap (OCons 5) [(5, ka, 6, OFix 1)] (OCons 7) kb ONil);
    [|exists [(7, kb)], ONil|simpl; lia].
  - split; [done|]. by exists (OCons 7).
  - split; [split; [done|by exists ONil]|split; [done|simpl; lia]].
Defined.

Lemma put_f_refines_witness :
  ∃ r h', mk_si_put_f 3 (OCons 1) (OFix 7) kb plist_heap = Done r h' ∧
    plist_of h' r [(ka, OFix 1); (kb, OFix 7)] ∧ others_kept plist_heap h' (OCons 1).
Proof. apply (put_f_refines 3 plist_heap (OCons 1) ex_kvs kb (OFix 7)); [exact ex_plist_of|simpl; lia]. Defined.

Lemma remf_refines_witness :
  ∃ r h', remf 3 (OCons 1) kb plist_heap = Done (true, r) h' ∧
    plist_of h' r [(ka, OFix 1)] ∧ others_kept plist_heap h' (OCons 1).
Proof. apply (remf_refines 3 plist_heap (OCons 1) ex_kvs kb); [exact ex_plist_of|simpl; lia]. Defined.

Lemma plist_operations_stop_witness :
  mkcl_getf 30 (OCons 8) kb ONil plist_heap ≠ Diverge ∧
  mk_si_put_f 30 (OCons 8) ONil kb plist_heap ≠ Diverge ∧
  remf 30 (OCons 8) kb plist_heap ≠ Diverge.
Proof. apply (plist_operations_stop 30 plist_heap (OCons 8) kb ONil ONil). vm_compute. lia. Defined.

Lemma plist_circular_witness :
  mkcl_getf 30 (OCons 8) kb ONil plist_heap = Fail (FEcircular_list (OCons 8)) plist_heap ∧
  mk_si_put_f 30 (OCons 8) ONil kb plist_heap = Fail (FEcircular_list (OCons 8)) plist_heap ∧
  remf 30 (OCons 8) kb plist_heap = Fail (FEcircular_list (OCons 8)) plist_heap.
Proof. apply (plist_circular 30 plist_heap (OCons 8) kb ONil ONil); [vm_compute; lia|exact ex_endless]. Defined.

Lemma get_putprop_witness :
  ∃ h', mk_si_putprop 4 (OSym 20) (OFix 9) kb plist_heap = Done (OFix 9) h' ∧
    other_symbols_kept plist_heap h' (OSym 20) ∧
    ∀ j d, mk_cl_get 4 (OSym 20) j d plist_heap = Done (al_get ex_kvs j d) plist_heap ∧
           mk_cl_get 4 (OSym 20) j d h' = Done (if obj_eq kb j then OFix 9 else al_get ex_kvs j d) h'.
Proof. apply (get_putprop 4 plist_heap (OSym 20) ex_kvs kb (OFix 9)); [exact ex_symbol_props|simpl; lia]. Defined.

Lemma get_remprop_witness :
  ∃ h', mk_cl_remprop 4 (OSym 20) ka plist_heap = Done mk_cl_Ct h' ∧
    other_symbols_kept plist_heap h' (OSym 20) ∧
    ∀ j d, mk_cl_get 4 (OSym 20) j d h' = Done (if obj_eq ka j then d else al_get ex_kvs j d) h'.
Proof.
  apply (get_remprop 4 plist_heap (OSym 20) ex_kvs ka); [exact ex_symbol_props| |simpl; lia].
  by apply (bool_decide_unpack (NoDup ex_kvs.*1)).
Defined.

Lemma put_properties_folds_witness :
  ∃ h', mk_si_put_properties 8 (OSym 20) [kc; OFix 3; ka; OFix 4; kb] plist_heap = Done (OSym 20) h' ∧
    symbol_props h' (OSym 20) [(kc, OFix 3); (ka, OFix 4); (kb, OFix 2)] ∧
    other_symbols_kept plist_heap h' (OSym 20).
Proof.
  apply (put_properties_folds 8 [kc; OFix 3; ka; OFix 4; kb] plist_heap (OSym 20) ex_kvs);
    [exact ex_symbol_props|simpl; lia].
Defined.
