(* ===== verification/Backq.v ===== *)
(** * Backq: the expansion of backquote, src/src/c/backq.c

    The reader turns a backquoted template, its commas and its spliced commas into lists
    that start with the symbols SI:QUASIQUOTE, SI:UNQUOTE, SI:UNQUOTE-SPLICE and
    SI:UNQUOTE-NSPLICE.  The macro SI:QUASIQUOTE turns a template into a form that
    makes the list, out of QUOTE, LIST, LIST*, APPEND and NCONC.

    The C functions leave the form in the variable whose address they get, and return
    what is to be done with it; here both are results.  [fuel] bounds the depth of
    the mutual recursion. *)

From S2P Require Import Prelude Words Objects Heap Numbers Segments Lists Plist Sequences.
#[local] Open Scope Z_scope.

(** The symbols, by address, and the package KEYWORD. *)
Class BackqSymbols := {
  CL_quote : Z;
  CL_list : Z;
  CL_listX : Z;
  CL_append : Z;
  CL_nconc : Z;
  SI_quasiquote : Z;
  SI_unquote : Z;
  SI_unquote_splice : Z;
  SI_unquote_nsplice : Z;
  keyword_pack : obj;
}.

(** What is to be done with a form. *)
Inductive backq_op := QUOTE | EVAL | LIST | LISTX | APPEND | NCONC.

#[export] Instance backq_op_eq_dec : EqDecision backq_op.
Proof. solve_decision. Defined.

Section with_symbols.
Context `{!BackqSymbols, !GMP, !Vectors}.

Definition MK_CL_quote : obj := OSym CL_quote.
Definition MK_CL_list : obj := OSym CL_list.
Definition MK_CL_listX : obj := OSym CL_listX.
Definition MK_CL_append : obj := OSym CL_append.
Definition MK_CL_nconc : obj := OSym CL_nconc.
Definition MK_SI_quasiquote : obj := OSym SI_quasiquote.
Definition MK_SI_unquote : obj := OSym SI_unquote.
Definition MK_SI_unquote_splice : obj := OSym SI_unquote_splice.
Definition MK_SI_unquote_nsplice : obj := OSym SI_unquote_nsplice.

Definition MKCL_CADR (x : obj) : M obj := d ← MKCL_CDR x; MKCL_CAR d.

Definition mkcl_lose {R} (msg : string) : M R := raise (Lost msg).

Definition illegal_position : lisp_error :=
  FEerror ",@ or ,. has appeared in an illegal position." [].

Definition kwote (x : obj) : M obj :=
  let t := mkcl_type_of x in
  symbol ← (if bool_decide (t = mkcl_t_symbol) && negb (mkcl_Null x)
            then k ← mkcl_keywordp keyword_pack x; mret (negb k)
            else mret false);
  if (symbol : bool) || bool_decide (t = mkcl_t_cons) || bool_decide (t = mkcl_t_vector) then
    l ← mkcl_list1 x; mkcl_cons MK_CL_quote l
  else mret x.

(** [*px = MKCL_CONS(env, ax, dx); return out;] *)
Definition backq_output (out : backq_op) (ax dx : obj) : M (backq_op * obj) :=
  p ← mkcl_cons ax dx; mret (out, p).

(** Before a rest that is a form: as an element, or spliced. *)
Definition backq_before_form (a : backq_op) (ax dx : obj) : M (backq_op * obj) :=
  match a with
  | QUOTE => ax ← kwote ax; dx ← mkcl_list1 dx; backq_output LISTX ax dx
  | EVAL => dx ← mkcl_list1 dx; backq_output LISTX ax dx
  | APPEND | NCONC => dx ← mkcl_list1 dx; backq_output a ax dx
  | _ => mkcl_lose "backquote botch"
  end.

(** Before a rest that is a list of arguments of [out], LIST or LIST*, whose symbol is
    [fn]. *)
Definition backq_before_args (a : backq_op) (ax : obj) (out : backq_op) (fn dx : obj) : M (backq_op * obj) :=
  match a with
  | QUOTE => ax ← kwote ax; backq_output out ax dx
  | EVAL => backq_output out ax dx
  | _ => dx ← mkcl_cons fn dx; backq_before_form a ax dx
  end.

(** [_mkcl_backq_cdr] after its recursive calls on the car and the cdr of [x]. *)
Definition backq_join (x : obj) (a : backq_op) (ax : obj) (d : backq_op) (dx : obj) : M (backq_op * obj) :=
  if bool_decide (d = QUOTE) then
    match a with
    | QUOTE => mret (QUOTE, x)
    | EVAL =>
        if mkcl_Null dx then backq_output LIST ax dx
        else
          single ← (if MKCL_CONSP dx then r ← MKCL_CDR dx; mret (mkcl_Null r) else mret false);
          if (single : bool) then
            y ← MKCL_CAR dx; y ← kwote y; dx ← mkcl_list1 y; backq_output LIST ax dx
          else
            y ← kwote dx; dx ← mkcl_list1 y; backq_output LISTX ax dx
    | APPEND | NCONC =>
        if mkcl_Null dx then mret (EVAL, ax)
        else y ← kwote dx; dx ← mkcl_list1 y; backq_output a ax dx
    | _ => mkcl_lose "backquote botch"
    end
  else if bool_decide (d = EVAL) then backq_before_form a ax dx
  else if bool_decide (d = a) then backq_output d ax dx
  else
    match d with
    | LIST => backq_before_args a ax LIST MK_CL_list dx
    | LISTX => backq_before_args a ax LISTX MK_CL_listX dx
    | APPEND => dx ← mkcl_cons MK_CL_append dx; backq_before_form a ax dx
    | NCONC => dx ← mkcl_cons MK_CL_nconc dx; backq_before_form a ax dx
    | _ => mkcl_lose "backquote botch"
    end.

(** The end of [_mkcl_backq_car]: a call of the function for the arguments. *)
Definition backq_call (d : backq_op) (x : obj) : M (backq_op * obj) :=
  match d with
  | QUOTE | EVAL => mret (d, x)
  | LIST => x ← mkcl_cons MK_CL_list x; mret (EVAL, x)
  | LISTX => x ← mkcl_cons MK_CL_listX x; mret (EVAL, x)
  | APPEND => x ← mkcl_cons MK_CL_append x; mret (EVAL, x)
  | NCONC => x ← mkcl_cons MK_CL_nconc x; mret (EVAL, x)
  end.

(** The end of [backq]. *)
Definition backq_finish (r : backq_op * obj) : M obj :=
  match r.1 with
  | APPEND | NCONC => raise illegal_position
  | QUOTE => kwote r.2
  | _ => mret r.2
  end.

Fixpoint _mkcl_backq_cdr (fuel : nat) (x : obj) : M (backq_op * obj) :=
  match fuel with
  | O => diverge
  | S fuel =>
      if MKCL_ATOM x then mret (QUOTE, x)
      else
        c ← MKCL_CAR x;
        if obj_eq c MK_SI_unquote then y ← MKCL_CADR x; mret (EVAL, y)
        else if obj_eq c MK_SI_unquote_splice || obj_eq c MK_SI_unquote_nsplice then raise illegal_position
        else
          ax ← MKCL_CAR x; dx ← MKCL_CDR x;
          ra ← _mkcl_backq_car fuel ax;
          rd ← _mkcl_backq_cdr fuel dx;
          backq_join x ra.1 ra.2 rd.1 rd.2
  end
with _mkcl_backq_car (fuel : nat) (x : obj) : M (backq_op * obj) :=
  match fuel with
  | O => diverge
  | S fuel =>
      if MKCL_ATOM x then mret (QUOTE, x)
      else
        c ← MKCL_CAR x;
        if obj_eq c MK_SI_quasiquote then
          y ← MKCL_CADR x; r ← _mkcl_backq_car fuel y; y ← backq_finish r; _mkcl_backq_car fuel y
        else if obj_eq c MK_SI_unquote then y ← MKCL_CADR x; mret (EVAL, y)
        else if obj_eq c MK_SI_unquote_splice then y ← MKCL_CADR x; mret (APPEND, y)
        else if obj_eq c MK_SI_unquote_nsplice then y ← MKCL_CADR x; mret (NCONC, y)
        else r ← _mkcl_backq_cdr fuel x; backq_call r.1 r.2
  end.

Definition backq (fuel : nat) (x : obj) : M obj := r ← _mkcl_backq_car fuel x; backq_finish r.

(** The expander of the macro, whose argument is the whole form. *)
Definition quasiquote_macro (fuel : nat) (whole : obj) : M obj :=
  n ← mkcl_length fuel whole;
  if negb (n =? 2) then raise (FEprogram_error whole)
  else y ← MKCL_CADR whole; backq fuel y.
End with_symbols.
