(* ===== verification/BackqSpecs.v ===== *)
(** * BackqSpecs: what a backquoted template stands for, and the pieces of its expansion

    Templates, the forms made of them and the values of the forms are finite trees.
    [fill] says what a template stands for, without any expansion: the form after a
    comma stands for its value, the one after ,@ or ,. for the elements of its value,
    and everything else for itself.  The evaluator is the interface [Evaluator]; of it
    the theorems use the three laws of [EvaluatorSpec], on QUOTE, on objects that
    evaluate to themselves and on calls of LIST, LIST*, APPEND and NCONC.

    The results of the C functions pair a form with what is to be done with it;
    [means] is the value of such a pair, and [join_spec] says that [backq_join] makes
    the value of a cons of the values of its parts.  [apply_op], the value of a call,
    describes results; it says nothing of the cells that NCONC writes. *)

From S2P Require Import Prelude Words Objects Heap Numbers Segments Lists ListSpecs ListCopies ListDestr ListSearch TreeSpecs.
From S2P Require Import Plist Sequences SeqCopies Backq.
#[local] Open Scope Z_scope.

(** ** Values of calls *)

(** The forms of a proper list of forms. *)
Fixpoint tree_list (t : tree) : option (list tree) :=
  match t with
  | Leaf ONil => Some []
  | Leaf _ => None
  | Node a d => ts ← tree_list d; Some (a :: ts)
  end.

Fixpoint append_val (v w : tree) : option tree :=
  match v with
  | Leaf ONil => Some w
  | Leaf _ => None
  | Node a d => u ← append_val d w; Some (Node a u)
  end.

Fixpoint put_end (v w : tree) : tree :=
  match v with Leaf _ => w | Node a d => Node a (put_end d w) end.

Definition nconc_val (v w : tree) : option tree :=
  match v with
  | Leaf ONil => Some w
  | Leaf _ => None
  | Node _ _ => Some (put_end v w)
  end.

Fixpoint join_vals (f : tree → tree → option tree) (vs : list tree) : option tree :=
  match vs with
  | [] => Some (Leaf ONil)
  | [v] => Some v
  | v :: vs => w ← join_vals f vs; f v w
  end.

Fixpoint listX_val (vs : list tree) : option tree :=
  match vs with
  | [] => None
  | [v] => Some v
  | v :: vs => w ← listX_val vs; Some (Node v w)
  end.

(** The value of the call of a function on the values of its arguments. *)
Definition apply_op (op : backq_op) (vs : list tree) : option tree :=
  match op with
  | LIST => Some (list_tree vs ONil)
  | LISTX => listX_val vs
  | APPEND => join_vals append_val vs
  | NCONC => join_vals nconc_val vs
  | _ => None
  end.

(** ** Evaluation *)

Class Evaluator := { ev : tree → option tree; }.

Section specs.
Context `{!BackqSymbols, !GMP, !Vectors, !Evaluator}.

(** What [op] makes of the form [f]. *)
Definition means (op : backq_op) (f : tree) : option tree :=
  match op with
  | QUOTE => Some f
  | EVAL => ev f
  | _ => fs ← tree_list f; vs ← mapM ev fs; apply_op op vs
  end.

Definition op_symbol (op : backq_op) : obj :=
  match op with
  | LIST => MK_CL_list
  | LISTX => MK_CL_listX
  | APPEND => MK_CL_append
  | NCONC => MK_CL_nconc
  | _ => MK_CL_quote
  end.

Definition is_call (op : backq_op) : Prop := op ≠ QUOTE ∧ op ≠ EVAL.

(** What is asked of the evaluator: QUOTE, objects that evaluate to themselves, and the
    calls of the four functions. *)
Class EvaluatorSpec := {
  ev_quote t : ev (Node (Leaf MK_CL_quote) (Node t (Leaf ONil))) = Some t;
  ev_atom x : MKCL_CONSP x = false → (∀ a, x ≠ OSym a) → mkcl_type_of x ≠ mkcl_t_vector →
    ev (Leaf x) = Some (Leaf x);
  ev_call op args : is_call op → is_Some (tree_list args) →
    ev (Node (Leaf (op_symbol op)) args) = means op args;
}.

(** ** What a template stands for *)

Definition form_of (r : tree) : tree := match r with Node f _ => f | Leaf x => Leaf x end.

Definition is_splice (x : obj) : bool := obj_eq x MK_SI_unquote_splice || obj_eq x MK_SI_unquote_nsplice.

Fixpoint fill (t : tree) : option tree :=
  match t with
  | Leaf x => Some (Leaf x)
  | Node a d =>
      match a with
      | Leaf s => if obj_eq s MK_SI_unquote then ev (form_of d) else w ← fill d; Some (Node (Leaf s) w)
      | Node c r =>
          let element := v ← fill a; w ← fill d; Some (Node v w) in
          match c with
          | Leaf s =>
              if is_splice s then
                if bool_decide (d = Leaf ONil) then ev (form_of r)
                else
                  v ← ev (form_of r); w ← fill d;
                  (if obj_eq s MK_SI_unquote_splice then append_val else nconc_val) v w
              else element
          | _ => element
          end
      end
  end.

(** A splice where there is no list to splice in. *)
Fixpoint misplaced (t : tree) : bool :=
  match t with
  | Leaf _ => false
  | Node a d =>
      match a with
      | Leaf s => if obj_eq s MK_SI_unquote then false else if is_splice s then true else misplaced d
      | Node c r =>
          match c with
          | Leaf s => if is_splice s then false else misplaced a
          | _ => misplaced a
          end || misplaced d
      end
  end.

(** A comma has a form, and no element is a backquote. *)
Definition has_form (r : tree) : Prop := match r with Leaf x => x = ONil | Node _ _ => True end.

Fixpoint simple_template (t : tree) : Prop :=
  match t with
  | Leaf _ => True
  | Node a d =>
      match a with
      | Leaf s => if obj_eq s MK_SI_unquote then has_form d else simple_template d
      | Node c r =>
          match c with
          | Leaf s => if obj_eq s MK_SI_quasiquote then False
                      else if is_splice s then has_form r else simple_template a
          | _ => simple_template a
          end ∧ simple_template d
      end
  end.

(** As an element. *)
Definition simple_element (t : tree) : Prop :=
  match t with
  | Node (Leaf s) r => if obj_eq s MK_SI_quasiquote then False
                       else if is_splice s then has_form r else simple_template t
  | _ => simple_template t
  end.

(** The symbols of a template exist, and its keywords evaluate to themselves. *)
Definition leaf_known (h : heap) (x : obj) : Prop :=
  match x with
  | OSym a => ∃ sy, h !! a = Some (CSym sy) ∧ (sym_hpack sy = keyword_pack → ev (Leaf x) = Some (Leaf x))
  | _ => True
  end.

Fixpoint leaves_known (h : heap) (t : tree) : Prop :=
  match t with Leaf x => leaf_known h x | Node l r => leaves_known h l ∧ leaves_known h r end.

Lemma leaves_known_mono h h' t : h ⊆ h' → leaves_known h t → leaves_known h' t.
Proof.
  intros Hs. induction t as [x|l IHl r IHr]; simpl; [|naive_solver].
  destruct x; simpl; try done. intros (sy & ? & ?). exists sy. split; [by eapply lookup_weaken|done].
Qed.

Context `{!EvaluatorSpec}.

(** ** The pieces *)

Lemma wp_new h a d ta td (Q : obj → heap → Prop) E :
  reps anywhere h a ta → reps anywhere h d td →
  (∀ x h', h ⊆ h' → reps anywhere h' x (Node ta td) → Q x h') → wp (mkcl_cons a d) h Q E.
Proof.
  intros Ha Hd HQ. apply wp_cons. pose proof (insert_first_free_subseteq h (CCons a d)) as Hs.
  apply HQ; [done|]. exists (first_free h), a, d. split_and!; [done..| | |].
  - apply lookup_insert_eq.
  - by eapply reps_heap.
  - by eapply reps_heap.
Qed.

Lemma reps_nil h : reps anywhere h ONil (Leaf ONil).
Proof. done. Qed.

Lemma wp_new1 h a ta (Q : obj → heap → Prop) E :
  reps anywhere h a ta →
  (∀ x h', h ⊆ h' → reps anywhere h' x (Node ta (Leaf ONil)) → Q x h') → wp (mkcl_list1 a) h Q E.
Proof. intros Ha HQ. eapply wp_new; [exact Ha|apply reps_nil|exact HQ]. Qed.

Lemma kwote_spec h x t (Q : obj → heap → Prop) E :
  reps anywhere h x t → leaves_known h t →
  (∀ y h' f, h ⊆ h' → reps anywhere h' y f → ev f = Some t → Q y h') → wp (kwote x) h Q E.
Proof.
  intros Hx Hk HQ.
  assert (Hquote : wp (l ← mkcl_list1 x; mkcl_cons MK_CL_quote l) h Q E).
  { apply wp_bind. eapply wp_new1; [exact Hx|]. intros l h1 Hs1 Hl.
    eapply (wp_new _ _ _ (Leaf MK_CL_quote)); [done|exact Hl|]. intros y h2 Hs2 Hy.
    eapply HQ; [by etrans|exact Hy|apply ev_quote]. }
  unfold kwote. destruct t as [y|l r].
  - destruct Hx as [-> Hc].
    assert (Hself : (∀ a, y ≠ OSym a) → mkcl_type_of y ≠ mkcl_t_vector → Q y h)
      by (intros Hns Hnv; eapply HQ; [done| |by apply ev_atom]; done).
    destruct y as [| | | | |[] ? ?| |a| | | |ty a]; try done;
      try (by simpl; apply wp_bind, wp_ret; simpl; apply wp_ret, Hself); simpl.
    + destruct Hk as (sy & Hsy & Hkey).
      assert (E1 : (p ← read_symbol (OSym a); mret (obj_eq (sym_hpack p.2) keyword_pack)) h
        = Done (obj_eq (sym_hpack sy) keyword_pack) h).
      { unfold read_symbol, mbind, M_bind. simpl. by rewrite Hsy. }
      apply wp_bind, wp_bind. eapply wp_Done; [exact E1|]. apply wp_ret.
      destruct (obj_eq (sym_hpack sy) keyword_pack) eqn:Ek; [|exact Hquote]. simpl. apply wp_ret.
      apply obj_eq_true in Ek. eapply HQ; [done| |by apply Hkey]. done.
    + apply wp_bind. destruct (bool_decide (ty = mkcl_t_symbol)); simpl.
      { apply wp_bind, wp_ret, wp_ret. exact Hquote. }
      apply wp_ret. simpl. destruct (bool_decide (ty = mkcl_t_cons)); [exact Hquote|].
      case_bool_decide as Hv; [exact Hquote|]. by apply wp_ret, Hself.
  - destruct Hx as (a & v & d & -> & Hx). simpl. wp_step. wp_step. exact Hquote.
Qed.

(** ** Values of lists of forms *)

(** What an element, or a list to splice, makes with the value of the rest. *)
Definition join_val (op : backq_op) (v w : tree) : option tree :=
  match op with
  | APPEND => append_val v w
  | NCONC => nconc_val v w
  | _ => Some (Node v w)
  end.

Definition has_args (f : tree) : Prop := ∃ fs, tree_list f = Some fs ∧ fs ≠ [].

Lemma has_args_cons fa fd fs : tree_list fd = Some fs → has_args (Node fa fd).
Proof. intros E. exists (fa :: fs). simpl. by rewrite E. Qed.

Lemma mapM_not_nil {A B} (f : A → option B) l k : mapM f l = Some k → l ≠ [] → k ≠ [].
Proof. intros E. apply length_mapM in E. destruct l, k; try done. Qed.

Lemma apply_op_cons op v vs :
  is_call op → vs ≠ [] → apply_op op (v :: vs) = w ← apply_op op vs; join_val op v w.
Proof. intros [H4 H5] Hv. destruct op; try done; by destruct vs. Qed.

Lemma means_cons op fa fd :
  is_call op → has_args fd → means op (Node fa fd) = v ← ev fa; w ← means op fd; join_val op v w.
Proof.
  intros Hc (fs & E & Hne).
  assert (∀ f, means op f = fs ← tree_list f; vs ← mapM ev fs; apply_op op vs) as Hm
    by (intros f; destruct Hc; by destruct op).
  rewrite !Hm. simpl. rewrite E. simpl. destruct (ev fa) as [v|]; simpl; [|done].
  destruct (mapM ev fs) as [vs|] eqn:Em; simpl; [|done].
  rewrite apply_op_cons; [done..|by eapply mapM_not_nil].
Qed.

Lemma means_two op fa f :
  is_call op → op ≠ LIST → means op (Node fa (Node f (Leaf ONil))) = v ← ev fa; w ← ev f; join_val op v w.
Proof.
  intros Hc Hl. rewrite means_cons; [|done|by exists [f]].
  destruct (ev fa) as [v|]; simpl; [|done]. destruct Hc, op; try done; simpl; by destruct (ev f).
Qed.

(** ** The results of the C functions *)

Definition good (op : backq_op) (f : tree) : Prop := is_call op → has_args f.

(** The form of a result, which is not a quoted one, means [o]. *)
Definition gives (h : heap) (o : option tree) (r : backq_op * obj) (h' : heap) : Prop :=
  h ⊆ h' ∧ r.1 ≠ QUOTE ∧ ∃ f, reps anywhere h' r.2 f ∧ good r.1 f ∧ means r.1 f = o.

(** How an element is to be taken: as it is, by its value, or spliced. *)
Definition element_op (op : backq_op) : Prop := op ≠ LIST ∧ op ≠ LISTX.

Definition element_val (op : backq_op) (f : tree) : option tree :=
  match op with QUOTE => Some f | _ => ev f end.

Lemma output_spec h0 h out ax dx fa fd o :
  h0 ⊆ h → reps anywhere h ax fa → reps anywhere h dx fd → is_Some (tree_list fd) →
  out ≠ QUOTE → means out (Node fa fd) = o → wp (backq_output out ax dx) h (gives h0 o) no_error.
Proof.
  intros Hs Ha Hd [fs Hfs] Hq Ho. apply wp_bind. eapply wp_new; [exact Ha|exact Hd|].
  intros x h' Hs' Hx. apply wp_ret. split_and!; [by etrans|done|]. exists (Node fa fd). split_and!; [done| |done].
  intros _. by eapply has_args_cons.
Qed.

Lemma before_form_spec h0 h a ax dx fa fd :
  h0 ⊆ h → element_op a → reps anywhere h ax fa → reps anywhere h dx fd → (a = QUOTE → leaves_known h fa) →
  wp (backq_before_form a ax dx) h (gives h0 (v ← element_val a fa; w ← ev fd; join_val a v w)) no_error.
Proof.
  intros Hs [Hl Hx] Ha Hd Hk.
  assert (Hgo : ∀ h1 ax f out, h ⊆ h1 → reps anywhere h1 ax f → is_call out → out ≠ LIST →
    (v ← ev f; w ← ev fd; join_val out v w) = (v ← element_val a fa; w ← ev fd; join_val a v w) →
    wp (dx ← mkcl_list1 dx; backq_output out ax dx) h1
      (gives h0 (v ← element_val a fa; w ← ev fd; join_val a v w)) no_error).
  { intros h1 ax1 f out Hs1 Hf Hc Hnl Heq. apply wp_bind. eapply wp_new1; [eapply reps_heap; [exact Hs1|exact Hd]|].
    intros y h2 Hs2 Hy. eapply output_spec; [by etrans; [|etrans]|eapply reps_heap; [exact Hs2|exact Hf]|exact Hy|by eexists|by destruct Hc|].
    rewrite <- Heq. by apply means_two. }
  destruct a; try done; simpl backq_before_form.
  - apply wp_bind. eapply kwote_spec; [exact Ha|by apply Hk|]. intros y h1 f Hs1 Hy Hf.
    eapply Hgo; [done|exact Hy|done|done|]. by rewrite Hf.
  - by eapply Hgo.
  - by eapply Hgo.
  - by eapply Hgo.
Qed.

Lemma before_args_spec h0 h a ax out dx fa fd :
  h0 ⊆ h → element_op a → reps anywhere h ax fa → reps anywhere h dx fd → (a = QUOTE → leaves_known h fa) →
  out = LIST ∨ out = LISTX → has_args fd →
  wp (backq_before_args a ax out (op_symbol out) dx) h
    (gives h0 (v ← element_val a fa; w ← means out fd; join_val a v w)) no_error.
Proof.
  intros Hs He Ha Hd Hk Hout Hargs. pose proof Hargs as (fs & Hfs & Hne).
  assert (Hcall : is_call out) by (destruct Hout as [-> | ->]; done).
  assert (Hcons : ∀ h1 ax f, h ⊆ h1 → reps anywhere h1 ax f → a = QUOTE ∨ a = EVAL → ev f = element_val a fa →
    wp (backq_output out ax dx) h1 (gives h0 (v ← element_val a fa; w ← means out fd; join_val a v w)) no_error).
  { intros h1 ax1 f Hs1 Hf Hqe Heq. eapply output_spec; [by etrans|exact Hf|by eapply reps_heap|by eexists|by destruct Hcall|].
    rewrite means_cons by done. rewrite Heq. by destruct Hout as [-> | ->], Hqe as [-> | ->]. }
  assert (Hform : wp (dx ← mkcl_cons (op_symbol out) dx; backq_before_form a ax dx) h
    (gives h0 (v ← element_val a fa; w ← means out fd; join_val a v w)) no_error).
  { apply wp_bind. eapply (wp_new _ _ _ (Leaf (op_symbol out)));
      [by destruct Hout as [-> | ->]|exact Hd|]. intros y h1 Hs1 Hy.
    rewrite <- (ev_call out fd Hcall) by eauto.
    eapply before_form_spec; [by etrans|done|by eapply reps_heap|exact Hy|].
    intros Hq. eapply leaves_known_mono; [exact Hs1|by apply Hk]. }
  destruct a; try done.
  - simpl. apply wp_bind. eapply kwote_spec; [exact Ha|by apply Hk|]. intros y h1 f Hs1 Hy Hf.
    eapply Hcons; [done|exact Hy|by left|done].
  - eapply Hcons; [done|exact Ha|by right|done].
Qed.

(** Nothing to splice in front of. *)
Definition splice_last (a d : backq_op) (fd : tree) : bool :=
  bool_decide (a = APPEND ∨ a = NCONC) && bool_decide (d = QUOTE ∧ fd = Leaf ONil).

Definition join_target (a d : backq_op) (fa fd : tree) : option tree :=
  if splice_last a d fd then ev fa else v ← element_val a fa; w ← means d fd; join_val a v w.

(** The rest is quoted. *)
Lemma join_quoted_spec h x a ax dx fa fd :
  element_op a → reps anywhere h ax fa → reps anywhere h dx fd → leaves_known h fd →
  a ≠ QUOTE →
  wp (backq_join x a ax QUOTE dx) h (gives h (join_target a QUOTE fa fd)) no_error.
Proof.
  intros He Ha Hd Hkd Hnq. unfold backq_join. rewrite bool_decide_eq_true_2 by done.
  assert (Hnull : mkcl_Null dx = bool_decide (fd = Leaf ONil)).
  { destruct fd as [y|l r]; simpl in Hd.
    - destruct Hd as [-> _]. symmetry. destruct y; simpl; try (by apply bool_decide_eq_false_2); done.
    - destruct Hd as (b & v & d & -> & _). by rewrite bool_decide_eq_false_2. }
  assert (Hquoted : ∀ out y g, reps anywhere h y g → leaves_known h g → 
    out ≠ QUOTE →
    (∀ f, ev f = Some g → means out (Node fa (Node f (Leaf ONil))) = join_target a QUOTE fa fd) →
    wp (y ← kwote y; dx ← mkcl_list1 y; backq_output out ax dx) h (gives h (join_target a QUOTE fa fd)) no_error).
  { intros out y g Hy Hk Hoq Hm. apply wp_bind. eapply kwote_spec; [exact Hy|exact Hk|]. intros q h1 f Hs1 Hq Hf.
    apply wp_bind. eapply wp_new1; [exact Hq|]. intros l h2 Hs2 Hl.
    eapply output_spec; [by etrans|eapply reps_heap; [|exact Ha]; by etrans|exact Hl|by eexists|done|by apply Hm]. }
  assert (Hsplice : a = APPEND ∨ a = NCONC →
    wp (if mkcl_Null dx then mret (EVAL, ax)
        else y ← kwote dx; dx ← mkcl_list1 y; backq_output a ax dx) h
      (gives h (join_target a QUOTE fa fd)) no_error).
  { intros Ha'. assert (Hc : is_call a ∧ a ≠ LIST ∧ element_val a fa = ev fa) by (by destruct Ha' as [-> | ->]).
    destruct Hc as (Hc & Hnl & Hv). rewrite Hnull.
    assert (Ht : join_target a QUOTE fa fd = if bool_decide (fd = Leaf ONil) then ev fa
                                             else v ← element_val a fa; w ← means QUOTE fd; join_val a v w).
    { unfold join_target, splice_last. rewrite bool_decide_eq_true_2 by done. simpl andb.
      by rewrite (bool_decide_ext (QUOTE = QUOTE ∧ fd = Leaf ONil) (fd = Leaf ONil)) by naive_solver. }
    destruct (bool_decide (fd = Leaf ONil)) eqn:En.
    - apply wp_ret. split_and!; [done..|]. exists fa. split_and!; [done|by intros [_ ?]|by rewrite Ht].
    - apply (Hquoted _ _ _ Hd Hkd); [by destruct Hc|]. intros f Hf. rewrite Ht, means_two, Hf by done. simpl. by rewrite Hv. }
  destruct a; try (by destruct He); try done; [|by apply Hsplice; left|by apply Hsplice; right].
  - rewrite Hnull. change (join_target EVAL QUOTE fa fd) with (v ← ev fa; Some (Node v fd)) in *.
    case_bool_decide as Hn.
    { subst fd. eapply output_spec; [done|exact Ha|exact Hd|by eexists|done|].
      simpl. by destruct (ev fa). }
    assert (Hx2 : wp (y ← kwote dx; dx ← mkcl_list1 y; backq_output LISTX ax dx) h
      (gives h (v ← ev fa; Some (Node v fd))) no_error).
    { apply (Hquoted _ _ _ Hd Hkd); [done|]. intros f Hf. rewrite means_two, Hf by done. done. }
    destruct fd as [y|l r]; simpl in Hd.
    + destruct Hd as [-> Hc]. rewrite Hc. apply wp_bind, wp_ret. exact Hx2.
    + destruct Hd as (b & v & d & -> & _ & Hb & Hl & Hr). simpl MKCL_CONSP. cbv iota. wp_go.
      destruct (mkcl_Null d) eqn:En; [|exact Hx2]. apply Null_true in En as ->. apply wp_bind. eapply wp_car; [exact Hb|].
      destruct r as [r|]; [|by destruct Hr as (? & ? & ? & [=] & _)]. destruct Hr as [<- _].
      apply (Hquoted _ _ _ Hl); [by destruct Hkd|done|]. intros f Hf. simpl. rewrite Hf. by destruct (ev fa).
Qed.

Lemma join_spec h x a ax d dx fa fd :
  element_op a → reps anywhere h ax fa → reps anywhere h dx fd → good d fd →
  (a = QUOTE → leaves_known h fa) → (d = QUOTE → leaves_known h fd) →
  ¬ (a = QUOTE ∧ d = QUOTE) →
  wp (backq_join x a ax d dx) h (gives h (join_target a d fa fd)) no_error.
Proof.
  intros He Ha Hd Hg Hka Hkd Hx. destruct (decide (d = QUOTE)) as [->|Hdq].
  { apply join_quoted_spec; naive_solver. }
  assert (join_target a d fa fd = v ← element_val a fa; w ← means d fd; join_val a v w) as ->.
  { unfold join_target, splice_last. rewrite (bool_decide_eq_false_2 (d = _ ∧ _)) by naive_solver.
    by rewrite andb_false_r. }
  unfold backq_join. rewrite bool_decide_eq_false_2 by done.
  case_bool_decide as Hde; [subst d; by apply before_form_spec|].
  assert (Hc : is_call d) by done. destruct (Hg Hc) as (fs & Hfs & Hne).
  case_bool_decide as Hda.
  { subst d. eapply output_spec; [done|exact Ha|exact Hd|by eexists|done|].
    rewrite means_cons by (done || by exists fs). by destruct a. }
  assert (Hform : wp (dx ← mkcl_cons (op_symbol d) dx; backq_before_form a ax dx) h
    (gives h (v ← element_val a fa; w ← means d fd; join_val a v w)) no_error).
  { apply wp_bind. eapply (wp_new _ _ _ (Leaf (op_symbol d))); [by destruct d|exact Hd|]. intros y h1 Hs1 Hy.
    rewrite <- (ev_call d fd Hc) by eauto. eapply before_form_spec; [done|done|by eapply reps_heap|exact Hy|].
    intros Hq. eapply leaves_known_mono; [exact Hs1|by apply Hka]. }
  destruct d; try done.
  - apply (before_args_spec h h a ax LIST); [done..|by left|by exists fs].
  - apply (before_args_spec h h a ax LISTX); [done..|by right|by exists fs].
Qed.
End specs.
