(* ===== verification/BackqFacts.v ===== *)
(** * BackqFacts: the expansion of backquote evaluates to what the template stands for

    [backq_spec] is the contract of the two functions of the mutual recursion; the
    theorems follow.  [calls_compute] relates the calls in expansions to list.c. *)

From S2P Require Import Prelude Words Objects Heap Numbers Segments Lists ListSpecs ListCopies ListDestr ListSearch TreeSpecs.
From S2P Require Import Plist Sequences SeqCopies Backq BackqSpecs.
#[local] Open Scope Z_scope.

(** The symbols of the syntax that the C code tells apart. *)
Class DistinctSymbols `{!BackqSymbols} := {
  unquote_splice_ne : SI_unquote ≠ SI_unquote_splice;
  unquote_nsplice_ne : SI_unquote ≠ SI_unquote_nsplice;
  quasi_unquote_ne : SI_quasiquote ≠ SI_unquote;
}.

Section specs.
Context `{!BackqSymbols, !GMP, !Vectors, !Evaluator, !EvaluatorSpec}.

(** ** The two functions *)

Definition cdr_post (h : heap) (t : tree) (r : backq_op * obj) (h' : heap) : Prop :=
  h ⊆ h' ∧ ∃ f, reps anywhere h' r.2 f ∧ good r.1 f ∧ means r.1 f = fill t ∧
    (r.1 = QUOTE → f = t) ∧ (t = Leaf ONil → r.1 = QUOTE).

(** An element: what it is spliced with, if it is. *)
Definition splice_op (t : tree) : option backq_op :=
  match t with
  | Node (Leaf s) _ => if obj_eq s MK_SI_unquote_splice then Some APPEND
                       else if obj_eq s MK_SI_unquote_nsplice then Some NCONC else None
  | _ => None
  end.

Definition element_form (t : tree) : tree := match t with Node _ r => form_of r | _ => t end.

(** A template on its own has no list to splice in. *)
Definition misplaced_top (t : tree) : bool :=
  match splice_op t with Some _ => true | None => misplaced t end.

Definition misplaced_element (t : tree) : bool :=
  match splice_op t with Some _ => false | None => misplaced t end.

Definition car_post (h : heap) (t : tree) (r : backq_op * obj) (h' : heap) : Prop :=
  h ⊆ h' ∧ ∃ f, reps anywhere h' r.2 f ∧
    match splice_op t with
    | Some op => r.1 = op ∧ f = element_form t
    | None => (r.1 = QUOTE ∨ r.1 = EVAL) ∧ element_val r.1 f = fill t ∧ (r.1 = QUOTE → f = t)
    end.

Lemma fill_join a d ra fa rd fd :
  match splice_op a with
  | Some op => ra = op ∧ fa = element_form a
  | None => (ra = QUOTE ∨ ra = EVAL) ∧ element_val ra fa = fill a
  end →
  (∀ s, a = Leaf s → obj_eq s MK_SI_unquote = false) →
  means rd fd = fill d → (rd = QUOTE → fd = d) → (d = Leaf ONil → rd = QUOTE) →
  join_target ra rd fa fd = fill (Node a d).
Proof.
  intros Ha Hu Hd Hq Hn.
  assert (Hlast : splice_last ra rd fd = bool_decide (ra = APPEND ∨ ra = NCONC) && bool_decide (d = Leaf ONil)).
  { unfold splice_last. f_equal. apply bool_decide_ext. split; [intros [-> ->]; by rewrite Hq in *|].
    intros Hl. split; [by apply Hn|]. rewrite Hq; [done|by apply Hn]. }
  assert (Helem : splice_op a = None → join_target ra rd fa fd = v ← fill a; w ← fill d; Some (Node v w)).
  { intros E. rewrite E in Ha. destruct Ha as [Hop Hv]. unfold join_target. rewrite Hlast.
    rewrite bool_decide_eq_false_2 by (destruct Hop as [-> | ->]; naive_solver).
    rewrite Hd, Hv. by destruct Hop as [-> | ->]. }
  destruct a as [s|c r].
  { rewrite Helem by done. cbn [fill]. rewrite (Hu s) by done. done. }
  destruct c as [s|c1 c2]; [|by rewrite Helem].
  cbn [splice_op] in Ha, Helem. cbn [fill]. unfold is_splice. fold fill.
  assert (Hsp : ∀ op, ra = op ∧ fa = form_of r → op = APPEND ∨ op = NCONC →
    join_target ra rd fa fd = if bool_decide (d = Leaf ONil) then ev (form_of r)
                              else v ← ev (form_of r); w ← fill d; join_val op v w).
  { intros op [-> ->] Hop. unfold join_target. rewrite Hlast, (bool_decide_eq_true_2 (op = _ ∨ _)), Hd by done.
    simpl. by destruct Hop as [-> | ->]. }
  destruct (obj_eq s MK_SI_unquote_splice); [by apply (Hsp APPEND); [|left]|].
  destruct (obj_eq s MK_SI_unquote_nsplice); [by apply (Hsp NCONC); [|right]|].
  by rewrite Helem.
Qed.

Lemma cadr_spec h x ta td :
  reps anywhere h x (Node ta td) → has_form td →
  ∃ y, MKCL_CADR x h = Done y h ∧ reps anywhere h y (form_of td).
Proof.
  intros (a & v & d & -> & _ & Ha & _ & Hd) Hf. unfold MKCL_CADR, MKCL_CDR, MKCL_CAR.
  rewrite (bind_Done _ _ _ _ _ (CDR_eq _ _ _ _ Ha)).
  destruct td as [z|f r]; simpl in Hf.
  - subst z. destruct Hd as [-> _]. by exists ONil.
  - destruct Hd as (b & w & e & -> & _ & Hb & Hw & _). exists w. split; [|done]. by apply (CAR_eq _ _ e).
Qed.

(** A car is a symbol of the syntax when its tree is. *)
Lemma car_symbol h v ta k :
  reps anywhere h v ta → MKCL_CONSP k = false →
  obj_eq v k = match ta with Leaf y => obj_eq y k | Node _ _ => false end.
Proof.
  destruct ta as [y|l r]; [by intros [-> _]|]. intros (a & w & d & -> & _) Hk. apply obj_eq_false.
  by intros <-.
Qed.

Context `{!DistinctSymbols}.

Lemma splice_op_splice s r : splice_op (Node (Leaf s) r) = None ↔ is_splice s = false.
Proof. simpl. unfold is_splice. destruct (obj_eq s _), (obj_eq s _); naive_solver. Qed.

(** The part of the template that an element is. *)
Lemma simple_parts a d :
  (∀ s, a = Leaf s → obj_eq s MK_SI_unquote = false ∧ is_splice s = false) → simple_template (Node a d) →
  simple_element a ∧ simple_template d ∧ misplaced (Node a d) = misplaced_element a || misplaced d.
Proof.
  intros Hs Hd. destruct a as [s|c r].
  { destruct (Hs s eq_refl) as [Hu Hp]. simpl in Hd |- *. rewrite Hu, Hp in *. done. }
  cbn [simple_template] in Hd. destruct Hd as [Hc Hd]. split_and!; [|done|].
  - destruct c as [s|]; [|exact Hc]. unfold simple_element. by destruct (obj_eq s MK_SI_quasiquote).
  - cbn [misplaced]. unfold misplaced_element. destruct c as [s|]; [|done].
    destruct (is_splice s) eqn:Es.
    + destruct (splice_op (Node (Leaf s) r)) eqn:E; [done|]. apply splice_op_splice in E. congruence.
    + rewrite (proj2 (splice_op_splice s r) Es). simpl. by rewrite Es.
Qed.

(** The contracts of the two functions. *)
Definition cdr_correct (n : nat) : Prop :=
  ∀ x t h, reps anywhere h x t → simple_template t → leaves_known h t → (2 * height t < n)%nat →
    wp (_mkcl_backq_cdr n x) h (λ r h', misplaced t = false ∧ cdr_post h t r h')
      (λ e _, misplaced t = true ∧ e = illegal_position).

Definition car_correct (n : nat) : Prop :=
  ∀ x t h, reps anywhere h x t → simple_element t → leaves_known h t → (2 * height t + 1 < n)%nat →
    wp (_mkcl_backq_car n x) h (λ r h', misplaced_element t = false ∧ car_post h t r h')
      (λ e _, misplaced_element t = true ∧ e = illegal_position).

Lemma cdr_step n : cdr_correct n → car_correct n → cdr_correct (S n).
Proof.
  intros IHd IHa x t h Hx Ht Hk Hn.
  destruct t as [y|a d].
  { destruct Hx as [-> Hc]. simpl. unfold MKCL_ATOM. rewrite Hc. apply wp_ret. split; [done|].
    split; [done|]. exists (Leaf y). split_and!; [done|by intros [? _]|done..]. }
  pose proof Hx as (b & v & w & -> & _ & Hb & Hv & Hw). cbn [_mkcl_backq_cdr MKCL_ATOM MKCL_CONSP negb]; cbv iota.
  apply wp_bind. eapply wp_car; [exact Hb|]. rewrite !(car_symbol _ _ _ _ Hv) by done. destruct (match a with Leaf y => obj_eq y MK_SI_unquote | _ => false end) eqn:Eu.
  { destruct a as [s|]; [|done]. cbn [simple_template] in Ht. rewrite Eu in Ht.
    destruct (cadr_spec _ _ _ _ Hx Ht) as (y & E & Hy). apply wp_bind. eapply wp_Done; [exact E|]. apply wp_ret.
    simpl. rewrite Eu. split; [done|]. split; [done|]. exists (form_of d).
    split_and!; [done|by intros [_ ?]|simpl; by rewrite Eu|done..]. }
  destruct (_ || _) eqn:Es.
  { apply wp_raise. destruct a as [s|]; [|done]. simpl. rewrite Eu. unfold is_splice. by rewrite Es. }
  assert (Hns : ∀ s, a = Leaf s → obj_eq s MK_SI_unquote = false ∧ is_splice s = false)
    by (intros s ->; by split).
  destruct (simple_parts a d Hns Ht) as (Ha & Hd & Hmis). simpl in Hn. destruct Hk as [Hka Hkd].
  apply wp_bind. eapply wp_car; [exact Hb|]. apply wp_bind. eapply wp_cdr; [exact Hb|].
  apply wp_bind. eapply wp_mono; [apply (IHa v a h Hv Ha Hka); lia| |intros e _ [Hm ->]; by rewrite Hmis, Hm].
  intros ra h1 (Hma & Hs1 & fa & Hfa & Hca). apply wp_bind.
  eapply wp_mono; [apply (IHd w d h1); [by eapply reps_heap|done|by eapply leaves_known_mono|lia]| |
    intros e _ [Hm ->]; by rewrite Hmis, Hma, Hm].
  intros rd h2 (Hmd & Hs2 & fd & Hfd & Hgd & Hvd & Hqd & Hnd). rewrite Hmis, Hma, Hmd.
  assert (Hop : element_op ra.1 ∧ (ra.1 = QUOTE → fa = a)).
  { destruct (splice_op a) as [op|] eqn:E.
    - destruct Hca as [-> _]. destruct a as [|[s|] r]; simpl in E; try done.
      destruct (obj_eq s _); [by injection E as <-|]. destruct (obj_eq s _); [by injection E as <-|done].
    - destruct Hca as ([-> | ->] & _ & Hq); by split. }
  destruct Hop as [Hop Hqa].
  assert (Hfill : join_target ra.1 rd.1 fa fd = fill (Node a d)).
  { apply fill_join; try done; [|intros s ->; by apply Hns]. destruct (splice_op a); naive_solver. }
  destruct (decide (ra.1 = QUOTE ∧ rd.1 = QUOTE)) as [[Hq1 Hq2]|Hnq].
  + rewrite Hq1, Hq2. apply wp_ret. split; [done|]. split; [by etrans|]. exists (Node a d). split_and!; try done.
    * eapply reps_heap; [|exact Hx]. by etrans.
    * by intros [? _].
    * rewrite <- Hfill, Hq1, Hq2, (Hqa Hq1), (Hqd Hq2). done.
  + eapply wp_mono; [apply (join_spec h2 (OCons b) ra.1 ra.2 rd.1 rd.2 fa fd); try done| |done].
    * by eapply reps_heap.
    * intros Hq. rewrite (Hqa Hq). eapply leaves_known_mono; [|exact Hka]. by etrans.
    * intros Hq. rewrite (Hqd Hq). eapply leaves_known_mono; [|exact Hkd]. by etrans.
    * intros r h3 (Hs3 & Hrq & f & Hf & Hg & Hm). split; [done|]. split; [by etrans; [|etrans]|]. exists f.
      split_and!; [done..|by rewrite Hm|done|done].
Qed.

Definition car_contract (h : heap) (t : tree) (m : M (backq_op * obj)) : Prop :=
  wp m h (λ r h', misplaced_element t = false ∧ car_post h t r h')
    (λ e _, misplaced_element t = true ∧ e = illegal_position).

(** The end of the function: the list of arguments becomes a call. *)
Lemma call_spec h0 h t r :
  splice_op t = None → h0 ⊆ h → misplaced t = false → cdr_post h0 t r h →
  wp (backq_call r.1 r.2) h (λ r h', misplaced_element t = false ∧ car_post h0 t r h') no_error.
Proof.
  intros Hsp Hs0 Hm (Hs1 & f & Hf & Hg & Hv & Hq & _). unfold misplaced_element, car_post. rewrite Hsp.
  assert (Hcall : is_call r.1 → wp (x ← mkcl_cons (op_symbol r.1) r.2; mret (EVAL, x)) h
    (λ r h', misplaced t = false ∧ h0 ⊆ h' ∧ ∃ f, reps anywhere h' r.2 f ∧
       (r.1 = QUOTE ∨ r.1 = EVAL) ∧ element_val r.1 f = fill t ∧ (r.1 = QUOTE → f = t)) no_error).
  { intros Hc. destruct (Hg Hc) as (fs & Hfs & _). apply wp_bind.
    eapply (wp_new _ _ _ (Leaf (op_symbol r.1))); [by destruct r.1|exact Hf|]. intros y h2 Hs2 Hy.
    apply wp_ret. split_and!; [done|by etrans|]. eexists. split_and!; [exact Hy|by right| |done].
    simpl element_val. rewrite ev_call by eauto. done. }
  destruct r as [op y]. cbn [fst snd] in *.
  destruct op; try (by apply Hcall); apply wp_ret; split_and!; try done; exists f; split_and!; try done;
    first [by left|by right].
Qed.

(** A comma. *)
Lemma comma_spec h x s d op :
  reps anywhere h x (Node (Leaf s) d) → has_form d →
  match op with
  | APPEND | NCONC => splice_op (Node (Leaf s) d) = Some op
  | _ => op = EVAL ∧ obj_eq s MK_SI_unquote = true
  end →
  car_contract h (Node (Leaf s) d) (y ← MKCL_CADR x; mret (op, y)).
Proof.
  intros Hx Hf Hop. destruct (cadr_spec _ _ _ _ Hx Hf) as (y & E & Hy).
  apply wp_bind. eapply wp_Done; [exact E|]. apply wp_ret. unfold misplaced_element, car_post.
  assert (Hspliced : splice_op (Node (Leaf s) d) = Some op →
    match splice_op (Node (Leaf s) d) with Some _ => false | None => misplaced (Node (Leaf s) d) end = false ∧
    h ⊆ h ∧ ∃ f, reps anywhere h y f ∧
      match splice_op (Node (Leaf s) d) with
      | Some op' => op = op' ∧ f = form_of d
      | None => (op = QUOTE ∨ op = EVAL) ∧ element_val op f = fill (Node (Leaf s) d) ∧ (op = QUOTE → f = Node (Leaf s) d)
      end) by (intros ->; split_and!; [done..|by exists (form_of d)]).
  assert (Hu : op = EVAL ∧ obj_eq s MK_SI_unquote = true → splice_op (Node (Leaf s) d) = None).
  { intros [_ ->%obj_eq_true]. simpl. rewrite !(proj2 (obj_eq_false _ _)); [done|..].
    - intros [=]. by apply unquote_nsplice_ne.
    - intros [=]. by apply unquote_splice_ne. }
  destruct op; try (by apply Hspliced); try (by destruct Hop). pose proof (Hu Hop) as ->. destruct Hop as [_ Hs].
  split; [simpl; by rewrite Hs|]. split; [done|]. exists (form_of d).
  split_and!; [done|by right|simpl; by rewrite Hs|done].
Qed.

Lemma car_step n : cdr_correct n → car_correct (S n).
Proof.
  intros IHd x t h Hx Ht Hk Hn. fold (car_contract h t (_mkcl_backq_car (S n) x)).
  destruct t as [y|a d].
  { destruct Hx as [-> Hc]. simpl. unfold MKCL_ATOM. rewrite Hc. apply wp_ret. split; [done|].
    split; [done|]. exists (Leaf y). split; [done|]. simpl. split_and!; [by left|done..]. }
  pose proof Hx as (b & v & w & -> & _ & Hb & Hv & Hw). cbn [_mkcl_backq_car MKCL_ATOM MKCL_CONSP negb]; cbv iota.
  apply wp_bind. eapply wp_car; [exact Hb|]. rewrite !(car_symbol _ _ _ _ Hv) by done.
  change (car_contract h (Node a d)
    (if match a with Leaf y => obj_eq y MK_SI_quasiquote | _ => false end
     then y ← MKCL_CADR (OCons b); r ← _mkcl_backq_car n y; y ← backq_finish r; _mkcl_backq_car n y
     else if match a with Leaf y => obj_eq y MK_SI_unquote | _ => false end
     then y ← MKCL_CADR (OCons b); mret (EVAL, y)
     else if match a with Leaf y => obj_eq y MK_SI_unquote_splice | _ => false end
     then y ← MKCL_CADR (OCons b); mret (APPEND, y)
     else if match a with Leaf y => obj_eq y MK_SI_unquote_nsplice | _ => false end
     then y ← MKCL_CADR (OCons b); mret (NCONC, y)
     else r ← _mkcl_backq_cdr n (OCons b); backq_call r.1 r.2)).
  assert (Hend : splice_op (Node a d) = None → simple_template (Node a d) →
    car_contract h (Node a d) (r ← _mkcl_backq_cdr n (OCons b); backq_call r.1 r.2)).
  { intros Hsp Ht'. apply wp_bind. eapply wp_mono; [apply (IHd _ _ _ Hx Ht' Hk); lia| |
      intros e h1 Hm; unfold misplaced_element; by rewrite Hsp].
    intros r h1 (Hm & Hr). pose proof Hr as [Hs1 _].
    eapply wp_mono; [by apply (call_spec h h1 (Node a d))|done|by intros]. }
  destruct a as [s|]; [|by apply Hend]. cbn [simple_element] in Ht.
  destruct (obj_eq s MK_SI_quasiquote) eqn:Eq; [done|].
  destruct (is_splice s) eqn:Es.
  - pose proof Es as Es'. unfold is_splice in Es'.
    destruct (obj_eq s MK_SI_unquote) eqn:Eu; [|].
    { apply comma_spec; done. }
    destruct (obj_eq s MK_SI_unquote_splice) eqn:E1; [apply comma_spec; [done..|simpl; by rewrite E1]|].
    destruct (obj_eq s MK_SI_unquote_nsplice) eqn:E2; [apply comma_spec; [done..|simpl; by rewrite E1, E2]|done].
  - pose proof Es as [E1 E2]%orb_false_elim. rewrite E1, E2. destruct (obj_eq s MK_SI_unquote) eqn:Eu.
    + simpl in Ht. rewrite Eu in Ht. by apply comma_spec.
    + apply Hend; [simpl; by rewrite E1, E2|done].
Qed.

Lemma backq_spec n : cdr_correct n ∧ car_correct n.
Proof.
  induction n as [|n [IHd IHa]]; [split; intros x t h; lia|]. split; [by apply cdr_step|by apply car_step].
Qed.

(** C8: the form that backquote makes of a template evaluates to what the template stands
    for, whatever the forms after its commas, lists that are no lists included: the
    simplifications (quoted parts, LIST against LIST*, a last splice that is its own
    form) keep the value.  A splice where there is no list to splice in is an error. *)
Theorem backq_evaluates fuel h x t :
  reps anywhere h x t → simple_element t → leaves_known h t → (2 * height t + 1 < fuel)%nat →
  if misplaced_top t then ∃ h', backq fuel x h = Fail illegal_position h'
  else ∃ r h' f, backq fuel x h = Done r h' ∧ h ⊆ h' ∧ reps anywhere h' r f ∧ ev f = fill t.
Proof.
  intros Hx Ht Hk Hf. pose proof (proj2 (backq_spec fuel) x t h Hx Ht Hk Hf) as Hw.
  unfold wp in Hw. unfold backq, mbind, M_bind, misplaced_top, misplaced_element, car_post in *.
  destruct (_mkcl_backq_car fuel x h) as [[op y] h1|e h1|]; [| |done].
  2: { destruct Hw as [Hm ->]. destruct (splice_op t); [done|]. rewrite Hm. by exists h1. }
  destruct Hw as (Hm & Hs & f & Hy & Hcase). unfold backq_finish. simpl in *.
  destruct (splice_op t) as [sop|] eqn:E.
  - destruct Hcase as [-> _]. exists h1. destruct t as [|[s|] r]; simpl in E; try done.
    destruct (obj_eq s _); [by injection E as <-|]. destruct (obj_eq s _); [by injection E as <-|done].
  - rewrite Hm. destruct Hcase as (Hop & Hv & Hq). destruct Hop as [-> | ->].
    + specialize (Hq eq_refl) as ->.
      assert (wp (kwote y) h1 (λ r h', h ⊆ h' ∧ ∃ g, reps anywhere h' r g ∧ ev g = Some t) no_error) as Hkw.
      { eapply kwote_spec; [exact Hy|by eapply leaves_known_mono|]. intros z h2 g Hs2 Hz Hg. split; [by etrans|eauto]. }
      apply wp_done_inv in Hkw as (r & h2 & -> & Hs2 & g & Hr & Hg). exists r, h2, g. rewrite Hg, <- Hv. done.
    + exists y, h1, f. done.
Qed.

(** The macro wants exactly one argument, and is backquote on it. *)
Theorem quasiquote_macro_expands fuel h whole vs :
  is_list h whole vs → (length vs < fuel)%nat →
  match vs with
  | [_; template] => quasiquote_macro fuel whole h = backq fuel template h
  | _ => quasiquote_macro fuel whole h = Fail (FEprogram_error whole) h
  end.
Proof.
  intros Hl Hf. assert (E : mkcl_length fuel whole h = Done (Z.of_nat (length vs)) h).
  { destruct Hl as (l & Hl & <-). rewrite length_fmap in *. destruct l as [|[a v] l].
    - simpl in Hl. by subst.
    - apply length_loop_proper; [done..|]. by destruct Hl as [-> _]. }
  assert (Hbad : length vs ≠ 2%nat → quasiquote_macro fuel whole h = Fail (FEprogram_error whole) h).
  { intros Hn. unfold quasiquote_macro. rewrite (bind_Done _ _ _ _ _ E).
    by rewrite (proj2 (Z.eqb_neq _ 2)) by lia. }
  destruct vs as [|q [|v [|]]]; try (by apply Hbad).
  destruct Hl as ([|[a w] [|[b w2] [|]]] & Hl & Hv); simplify_eq/=.
  destruct Hl as (-> & d & Ha & -> & e & Hb & ->). unfold quasiquote_macro. rewrite (bind_Done _ _ _ _ _ E). simpl.
  unfold MKCL_CADR, MKCL_CDR, MKCL_CAR. rewrite !bind_assoc. simpl.
  rewrite (bind_Done _ _ _ _ _ (CDR_eq _ _ _ _ Ha)). by rewrite (bind_Done _ _ _ _ _ (CAR_eq _ _ _ _ Hb)).
Qed.
End specs.

(** ** The functions that are called *)

Section calls.
Context `{!GMP}.

Definition call_op (fuel : nat) (op : backq_op) (args : list obj) : M obj :=
  match op with
  | LIST => mk_cl_list args
  | LISTX => mk_cl_listX args
  | APPEND => mk_cl_append fuel args
  | NCONC => mk_cl_nconc fuel args
  | _ => raise Segfault
  end.

Lemma append_val_list v w u :
  append_val v w = Some u → ∃ us, v = list_tree us ONil ∧ u = spine_tree us w.
Proof.
  revert u. induction v as [x|a IHa d IHd]; intros u; simpl.
  - destruct x; try done. intros [= ->]. by exists [].
  - destruct (append_val d w) as [u'|]; simpl; [|done]. intros [= <-].
    destruct (IHd u' eq_refl) as (us & -> & ->). by exists (a :: us).
Qed.

Lemma join_append_lists vs w u :
  join_vals append_val (vs ++ [w]) = Some u →
  ∃ uss, vs = (λ us, list_tree us ONil) <$> uss ∧ u = spine_tree (concat uss) w.
Proof.
  revert u. induction vs as [|v vs IH]; intros u.
  - simpl. intros [= ->]. by exists [].
  - assert (join_vals append_val ((v :: vs) ++ [w]) = x ← join_vals append_val (vs ++ [w]); append_val v x) as ->
      by by destruct vs.
    destruct (join_vals append_val (vs ++ [w])) as [x|]; simpl; [|done]. intros (us & -> & ->)%append_val_list.
    destruct (IH x eq_refl) as (uss & -> & ->). exists (us :: uss). split; [done|]. simpl. by rewrite spine_tree_app.
Qed.

Lemma reps_list h x us :
  reps anywhere h x (list_tree us ONil) → ∃ l, lseg h x l ONil ∧ Forall2 (reps anywhere h) l.*2 us.
Proof.
  revert x. induction us as [|u us IH]; intros x; simpl.
  - intros [-> _]. exists []. by repeat constructor.
  - intros (a & v & d & -> & _ & Ha & Hv & Hd). destruct (IH d Hd) as (l & Hl & Hus).
    exists ((a, v) :: l). split; [simpl; eauto|]. by constructor.
Qed.

Lemma fresh_lseg_reps h h' r args x vs t :
  fresh_lseg h h' r args x → Forall2 (reps anywhere h) args vs → reps anywhere h x t →
  reps anywhere h' r (spine_tree vs t).
Proof.
  intros (Hs & l & Hl & <- & _) Hvs Ht. eapply lseg_reps; [exact Hl|done| |by eapply reps_heap].
  eapply Forall2_impl; [exact Hvs|]. intros y u Hy. by eapply reps_heap.
Qed.

Lemma list_tree_spine us x : list_tree us x = spine_tree us (Leaf x).
Proof. induction us as [|u us IH]; simpl; [done|]. by rewrite IH. Qed.

Lemma listX_val_spine vs v : listX_val (vs ++ [v]) = Some (spine_tree vs v).
Proof.
  induction vs as [|u vs IH]; [done|].
  assert (listX_val ((u :: vs) ++ [v]) = w ← listX_val (vs ++ [v]); Some (Node u w)) as -> by by destruct vs.
  by rewrite IH.
Qed.

(** LIST, LIST* and APPEND of list.c compute on their arguments the values that the
    evaluation of an expansion counts on, without changing what was in the heap. *)
Theorem calls_compute fuel op h args vs v :
  op = LIST ∨ op = LISTX ∨ op = APPEND → Forall2 (reps anywhere h) args vs → (size h < fuel)%nat →
  apply_op op vs = Some v →
  ∃ r h', call_op fuel op args h = Done r h' ∧ h ⊆ h' ∧ reps anywhere h' r v.
Proof.
  intros Hop Hargs Hf Hv. destruct Hop as [-> |Hop].
  { injection Hv as <-. destruct (list_builds args ONil h) as [(r & h' & E & Hfr) _].
    exists r, h'. split; [done|]. split; [by eapply fresh_lseg_subseteq|]. rewrite list_tree_spine.
    by eapply fresh_lseg_reps. }
  destruct (snoc_inv vs) as [->|(vs' & w & ->)].
  { apply Forall2_nil_inv_r in Hargs as ->. destruct Hop as [-> | ->]; [done|]. injection Hv as <-.
    exists ONil, h. done. }
  apply Forall2_app_inv_r in Hargs as (args' & last & Hargs & Hlast & ->).
  apply Forall2_cons_inv_r in Hlast as (x & l' & Hx & Hnil & ->). apply Forall2_nil_inv_r in Hnil as ->.
  destruct Hop as [-> | ->]; simpl in Hv.
  - rewrite listX_val_spine in Hv. injection Hv as <-. destruct (list_builds args' x h) as [_ [(r & h' & E & Hfr) _]].
    exists r, h'. split; [done|]. split; [by eapply fresh_lseg_subseteq|by eapply fresh_lseg_reps].
  - apply join_append_lists in Hv as (uss & -> & ->).
    assert (∃ ws, Forall2 (is_list h) args' ws ∧ Forall2 (Forall2 (reps anywhere h)) ws uss) as (ws & Hls & Hws).
    { clear Hx. remember ((λ us, list_tree us ONil) <$> uss) as ts eqn:Ets. revert uss Ets.
      induction Hargs as [|y t args' ts Hy _ IH]; intros [|us uss]; intros Ets; simplify_eq/=; [by exists []|].
      destruct (IH uss eq_refl) as (ws & ? & ?). apply reps_list in Hy as (l & Hl & Hus).
      exists (l.*2 :: ws). split; constructor; try done. by exists l. }
    assert (wp (call_op fuel APPEND (args' ++ [x])) h (λ r h', fresh_lseg h h' r (concat ws) x) no_error) as Hwp.
    { simpl. destruct args' as [|y args'].
      - apply Forall2_nil_inv_l in Hls as ->. simpl. apply fresh_lseg_nil.
      - assert (mk_cl_append fuel ((y :: args') ++ [x]) = append_loop fuel ONil ONil ((y :: args') ++ [x]))
          as -> by by destruct args'.
        apply (append_loop_spec fuel h h ONil ONil [] (y :: args') ws); [by left|done|].
        clear -Hls Hf. induction Hls as [|z w l k Hz _ IH]; constructor; [|done].
        apply is_list_size in Hz. lia. }
    apply wp_done_inv in Hwp as (r & h' & E & Hfr). exists r, h'. split; [done|].
    split; [by eapply fresh_lseg_subseteq|]. eapply fresh_lseg_reps; [exact Hfr| |exact Hx].
    clear -Hws. induction Hws; simpl; [constructor|]. by apply Forall2_app.
Qed.
End calls.
