(* ===== verification/BackqExamples.v ===== *)
(** * BackqExamples: an evaluator, and the theorems on backquote at concrete templates *)

From S2P Require Import Prelude Words Objects Heap Numbers Segments Lists ListSpecs ListCopies ListDestr ListSearch TreeSpecs.
From S2P Require Import Plist Sequences SeqCopies ListExamples Backq BackqSpecs BackqFacts.
#[local] Open Scope Z_scope.

#[export] Instance symbols_t : BackqSymbols := {|
  CL_quote := 101; CL_list := 102; CL_listX := 103; CL_append := 104; CL_nconc := 105;
  SI_quasiquote := 106; SI_unquote := 107; SI_unquote_splice := 108; SI_unquote_nsplice := 109;
  keyword_pack := OObj mkcl_t_package 200;
|}.

#[export] Instance distinct_t : DistinctSymbols.
Proof. by split. Qed.

(** ** A reference evaluator

    It knows two variables, X and L, the keyword of address 112, and the special form
    and the functions of expansions. *)
Definition variable (a : Z) : option tree :=
  if a =? 110 then Some (Leaf (OFix 7))
  else if a =? 111 then Some (list_tree [Leaf (OFix 8); Leaf (OFix 9)] ONil)
  else if a =? 112 then Some (Leaf (OSym 112))
  else None.

Definition op_of (a : Z) : option backq_op :=
  if a =? CL_list then Some LIST
  else if a =? CL_listX then Some LISTX
  else if a =? CL_append then Some APPEND
  else if a =? CL_nconc then Some NCONC
  else None.

Fixpoint tree_eval (t : tree) : option tree :=
  match t with
  | Leaf (OSym a) => variable a
  | Leaf x => Some (Leaf x)
  | Node (Leaf (OSym a)) args =>
      if a =? CL_quote then match args with Node t (Leaf ONil) => Some t | _ => None end
      else
        op ← op_of a;
        vs ← (fix eval_args (t : tree) : option (list tree) :=
                match t with
                | Leaf ONil => Some []
                | Leaf _ => None
                | Node a d => v ← tree_eval a; vs ← eval_args d; Some (v :: vs)
                end) args;
        apply_op op vs
  | _ => None
  end.

#[export] Instance evaluator_t : Evaluator := {| ev := tree_eval |}.

#[export] Instance evaluator_spec_t : EvaluatorSpec.
Proof.
  split.
  - done.
  - intros x Hc Hs Hv. destruct x; try done. by destruct (Hs a).
  - intros op args [Hq He] [fs E].
    assert (Hargs : (fix eval_args (t : tree) : option (list tree) :=
      match t with
      | Leaf ONil => Some []
      | Leaf _ => None
      | Node a d => v ← tree_eval a; vs ← eval_args d; Some (v :: vs)
      end) args = mapM tree_eval fs).
    { revert fs E. induction args as [x|a _ d IH]; intros fs E; simpl in E.
      - destruct x; try done. by injection E as <-.
      - destruct (tree_list d) as [ts|]; [|done]. injection E as <-. simpl. by rewrite (IH ts). }
    destruct op; try done; cbn -[mapM] ; rewrite Hargs, E; done.
Qed.

(** ** Templates *)

Definition a_symbol (pack : obj) : cell :=
  CSym {| sym_name := ONil; sym_plist := ONil; sym_hpack := pack; sym_stype := 0; sym_value := None |}.

(** `(1 ,x ,@l :k) at 1, the form (quasiquote <it>) at 20, and (,@l) after a dot, as
    in `(1 . ,@l), at 30. *)
Definition template_heap : heap := list_to_map
  [(1, CCons (OFix 1) (OCons 2)); (2, CCons (OCons 5) (OCons 3)); (3, CCons (OCons 7) (OCons 4));
   (4, CCons (OSym 112) ONil);
   (5, CCons (OSym 107) (OCons 6)); (6, CCons (OSym 110) ONil);
   (7, CCons (OSym 108) (OCons 8)); (8, CCons (OSym 111) ONil);
   (20, CCons (OSym 106) (OCons 21)); (21, CCons (OCons 1) ONil);
   (30, CCons (OFix 1) (OCons 7));
   (107, a_symbol ONil); (108, a_symbol ONil); (110, a_symbol ONil); (111, a_symbol ONil);
   (112, a_symbol (OObj mkcl_t_package 200))].

Definition comma (s : Z) (a : Z) : tree := Node (Leaf (OSym s)) (Node (Leaf (OSym a)) (Leaf ONil)).

Definition template : tree :=
  list_tree [Leaf (OFix 1); comma SI_unquote 110; comma SI_unquote_splice 111; Leaf (OSym 112)] ONil.

Definition bad_template : tree := Node (Leaf (OFix 1)) (comma SI_unquote_splice 111).

Ltac reps_eval := simpl; repeat first [by split|do 3 eexists; do 3 (split; [done|])|split].

Lemma template_reps : reps anywhere template_heap (OCons 1) template.
Proof. reps_eval. Qed.
Lemma bad_template_reps : reps anywhere template_heap (OCons 30) bad_template.
Proof. reps_eval. Qed.

Lemma symbol_known a :
  existsb (Z.eqb a) [107; 108; 110; 111; 112] = true → leaf_known template_heap (OSym a).
Proof.
  simpl. destruct (Z.eqb_spec a 107) as [->|]; [intros _; eexists; (split; [reflexivity|]); done|].
  destruct (Z.eqb_spec a 108) as [->|]; [intros _; eexists; (split; [reflexivity|]); done|].
  destruct (Z.eqb_spec a 110) as [->|]; [intros _; eexists; (split; [reflexivity|]); done|].
  destruct (Z.eqb_spec a 111) as [->|]; [intros _; eexists; (split; [reflexivity|]); done|].
  destruct (Z.eqb_spec a 112) as [->|]; [intros _; eexists; (split; [reflexivity|]); done|]. done.
Qed.

Ltac known_eval := repeat first [apply conj|exact I|by apply symbol_known].

Lemma template_known : leaves_known template_heap template.
Proof. cbn [template bad_template comma list_tree leaves_known]. known_eval. Qed.
Lemma bad_template_known : leaves_known template_heap bad_template.
Proof. cbn [template bad_template comma list_tree leaves_known]. known_eval. Qed.

Lemma template_simple : simple_element template.
Proof. vm_compute. tauto. Qed.
Lemma bad_template_simple : simple_element bad_template.
Proof. vm_compute. tauto. Qed.

Lemma backq_evaluates_witness :
  (∃ r h' f, backq 20 (OCons 1) template_heap = Done r h' ∧ template_heap ⊆ h' ∧ reps anywhere h' r f ∧
     ev f = Some (list_tree [Leaf (OFix 1); Leaf (OFix 7); Leaf (OFix 8); Leaf (OFix 9); Leaf (OSym 112)] ONil)) ∧
  (∃ h', backq 20 (OCons 30) template_heap = Fail illegal_position h').
Proof.
  split.
  - pose proof (backq_evaluates 20 template_heap (OCons 1) template template_reps template_simple template_known) as H.
    replace (misplaced_top template) with false in H by by vm_compute.
    replace (fill template) with
      (Some (list_tree [Leaf (OFix 1); Leaf (OFix 7); Leaf (OFix 8); Leaf (OFix 9); Leaf (OSym 112)] ONil)) in H
      by by vm_compute.
    apply H. simpl. lia.
  - pose proof (backq_evaluates 20 template_heap (OCons 30) bad_template bad_template_reps bad_template_simple bad_template_known) as H.
    replace (misplaced_top bad_template) with true in H by by vm_compute. apply H. simpl. lia.
Defined.

Lemma quasiquote_macro_expands_witness :
  quasiquote_macro 20 (OCons 20) template_heap = backq 20 (OCons 1) template_heap ∧
  quasiquote_macro 20 (OCons 8) template_heap = Fail (FEprogram_error (OCons 8)) template_heap.
Proof.
  split.
  - apply (quasiquote_macro_expands 20 template_heap (OCons 20) [OSym 106; OCons 1]); [|simpl; lia].
    exists [(20, OSym 106); (21, OCons 1)]. split; [|done]. lseg_eval.
  - apply (quasiquote_macro_expands 20 template_heap (OCons 8) [OSym 111]); [|simpl; lia].
    exists [(8, OSym 111)]. split; [|done]. lseg_eval.
Defined.

Lemma calls_compute_witness :
  ∃ r h', call_op 20 APPEND [OCons 6; OCons 8; OFix 3] template_heap = Done r h' ∧ template_heap ⊆ h' ∧
    reps anywhere h' r (list_tree [Leaf (OSym 110); Leaf (OSym 111)] (OFix 3)).
Proof.
  apply (calls_compute 20 APPEND template_heap [OCons 6; OCons 8; OFix 3]
    [list_tree [Leaf (OSym 110)] ONil; list_tree [Leaf (OSym 111)] ONil; Leaf (OFix 3)]).
  - by right; right.
  - repeat constructor; reps_eval.
  - apply Nat.ltb_lt. vm_compute. done.
  - done.
Defined.
