(* ===== verification/Packages.v ===== *)
(** * Packages: the package system, src/src/c/package.c

    Packages and symbols are named by numbers; a name is the list of its
    characters.  The two tables of a package are the finite maps that its hash
    tables represent ([PackTables]); its lists are never changed in place, so they
    are values.  The locks serialise the operations, and one operation is one
    computation here.

    A continuable error asks the handler: [on_cerror] gives the state in which the
    CONTINUE restart was taken, or no state for a non-local exit. *)

From S2P Require Import Prelude Words.
#[local] Open Scope Z_scope.

Abbreviation name := (list Z).
Abbreviation pid := Z (only parsing).
Abbreviation sym := Z (only parsing).

(** ** State *)

(** [struct mkcl_package]; the name is NIL once the package is deleted. *)
Record package := Package {
  pack_name : option name;
  pack_nicknames : list name;
  pack_shadowings : list sym;
  pack_uses : list pid;
  pack_usedby : list pid;
  pack_internal : gmap name sym;
  pack_external : gmap name sym;
  pack_closed : bool;
}.

(** The fields of symbols that packages read and write. *)
Record psymbol := PSymbol {
  psym_name : name;
  psym_hpack : option pid;
  psym_constant : bool;
  psym_value : option sym;
}.

(** The packages and the symbols, [mkcl_core.packages],
    [mkcl_core.packages_to_be_created] and the value of *PACKAGE*. *)
Record pstate := PState {
  st_packages : gmap pid package;
  st_symbols : gmap sym psymbol;
  st_list : list pid;
  st_waiting : list (name * pid);
  st_current : option pid;           (* [None]: not a package *)
}.

(** The packages COMMON-LISP, KEYWORD and COMMON-LISP-USER, and the symbol NIL. *)
Class Core := {
  lisp_package : pid;
  keyword_package : pid;
  user_package : pid;
  sym_nil : sym;
}.

(** ** Errors *)

(** What a caller may give for a name or a package. *)
Inductive designator :=
| DPackage (p : pid) | DString (n : name) | DSymbol (s : sym) | DChar (c : Z) | DOther.

Inductive perror :=
| FEtype_error_string (d : designator)
| FEtype_error_size (size : Z)
| FEnot_a_package
| name_exists (other : pid) (n : name)
| no_package (d : designator)
| closed_package (p : pid)
| cannot_remove (p : pid)
| package_used_by (p : pid) (users : list pid)
| not_accessible (s : sym) (p : pid)
| export_present (s : sym) (p : pid)
| export_conflict (s : sym) (p q : pid)
| unexport_keyword
| not_in_package (s : sym) (p : pid)
| import_conflict (s : sym) (p : pid)
| unintern_conflict (s : sym) (p : pid) (x y : sym)
| use_keyword
| use_in_keyword
| use_conflict (x p : pid) (here there : sym)
| dangling.                          (* no such package or symbol *)

Inductive presult (A : Type) :=
| PDone (a : A) (st : pstate)
| PFail (e : perror) (st : pstate)
| PDiverge.
Arguments PDone {A} _ _.
Arguments PFail {A} _ _.
Arguments PDiverge {A}.

Definition PM (A : Type) : Type := pstate → presult A.
#[export] Instance PM_ret : MRet PM := λ A a st, PDone a st.
#[export] Instance PM_bind : MBind PM := λ A B k m st,
  match m st with
  | PDone a st' => k a st'
  | PFail e st' => PFail e st'
  | PDiverge => PDiverge
  end.

Definition perr {A} (e : perror) : PM A := λ st, PFail e st.
Definition pwhen (b : bool) (m : PM unit) : PM unit := if b then m else mret tt.
Fixpoint piter {A} (f : A → PM unit) (l : list A) : PM unit :=
  match l with [] => mret tt | x :: l' => f x;; piter f l' end.

Class Restarts := { on_cerror : perror → pstate → option pstate }.

(** [mkcl_CEpackage_error] *)
Definition mkcl_CEpackage_error `{!Restarts} (e : perror) : PM unit := λ st,
  match on_cerror e st with Some st' => PDone tt st' | None => PFail e st end.

(** ** Access *)

Definition get_state : PM pstate := λ st, PDone st st.
Definition read_pack (p : pid) : PM package := λ st,
  match st_packages st !! p with Some pk => PDone pk st | None => PFail dangling st end.
Definition read_sym (s : sym) : PM psymbol := λ st,
  match st_symbols st !! s with Some sy => PDone sy st | None => PFail dangling st end.

Definition set_packages (f : gmap pid package → gmap pid package) (st : pstate) : pstate :=
  PState (f (st_packages st)) (st_symbols st) (st_list st) (st_waiting st) (st_current st).
Definition set_symbols (f : gmap sym psymbol → gmap sym psymbol) (st : pstate) : pstate :=
  PState (st_packages st) (f (st_symbols st)) (st_list st) (st_waiting st) (st_current st).
Definition set_list (l : list pid) (st : pstate) : pstate :=
  PState (st_packages st) (st_symbols st) l (st_waiting st) (st_current st).
Definition set_waiting (l : list (name * pid)) (st : pstate) : pstate :=
  PState (st_packages st) (st_symbols st) (st_list st) l (st_current st).
Definition set_current (p : option pid) (st : pstate) : pstate :=
  PState (st_packages st) (st_symbols st) (st_list st) (st_waiting st) p.

Definition modify (f : pstate → pstate) : PM unit := λ st, PDone tt (f st).
Definition upd_pack (p : pid) (f : package → package) : PM unit := modify (set_packages (alter f p)).
Definition upd_sym (s : sym) (f : psymbol → psymbol) : PM unit := modify (set_symbols (alter f s)).

(** Changes of one field. *)
Definition with_name (n : option name) (pk : package) : package :=
  Package n (pack_nicknames pk) (pack_shadowings pk) (pack_uses pk) (pack_usedby pk)
    (pack_internal pk) (pack_external pk) (pack_closed pk).
Definition with_nicknames (l : list name) (pk : package) : package :=
  Package (pack_name pk) l (pack_shadowings pk) (pack_uses pk) (pack_usedby pk)
    (pack_internal pk) (pack_external pk) (pack_closed pk).
Definition with_shadowings (f : list sym → list sym) (pk : package) : package :=
  Package (pack_name pk) (pack_nicknames pk) (f (pack_shadowings pk)) (pack_uses pk) (pack_usedby pk)
    (pack_internal pk) (pack_external pk) (pack_closed pk).
Definition with_uses (f : list pid → list pid) (pk : package) : package :=
  Package (pack_name pk) (pack_nicknames pk) (pack_shadowings pk) (f (pack_uses pk)) (pack_usedby pk)
    (pack_internal pk) (pack_external pk) (pack_closed pk).
Definition with_usedby (f : list pid → list pid) (pk : package) : package :=
  Package (pack_name pk) (pack_nicknames pk) (pack_shadowings pk) (pack_uses pk) (f (pack_usedby pk))
    (pack_internal pk) (pack_external pk) (pack_closed pk).
Definition with_internal (f : gmap name sym → gmap name sym) (pk : package) : package :=
  Package (pack_name pk) (pack_nicknames pk) (pack_shadowings pk) (pack_uses pk) (pack_usedby pk)
    (f (pack_internal pk)) (pack_external pk) (pack_closed pk).
Definition with_external (f : gmap name sym → gmap name sym) (pk : package) : package :=
  Package (pack_name pk) (pack_nicknames pk) (pack_shadowings pk) (pack_uses pk) (pack_usedby pk)
    (pack_internal pk) (f (pack_external pk)) (pack_closed pk).
Definition with_closed (b : bool) (pk : package) : package :=
  Package (pack_name pk) (pack_nicknames pk) (pack_shadowings pk) (pack_uses pk) (pack_usedby pk)
    (pack_internal pk) (pack_external pk) b.

(** What FIND-SYMBOL and INTERN say of where a symbol is. *)
Inductive intern_flag :=
| SYMBOL_IS_NEW              (* 0: not found, or made by INTERN *)
| SYMBOL_IS_INTERNAL
| SYMBOL_IS_EXTERNAL
| SYMBOL_IS_INHERITED.

#[export] Instance intern_flag_eq_dec : EqDecision intern_flag.
Proof. solve_decision. Defined.

Section with_core.
Context `{!Core, !Restarts} (fuel : nat).

(** ** Designators *)

Definition mk_cl_string (d : designator) : PM name :=
  match d with
  | DString n => mret n
  | DSymbol s => sy ← read_sym s; mret (psym_name sy)
  | DChar c => mret [c]
  | DPackage _ | DOther => perr (FEtype_error_string d)
  end.

Definition mkcl_check_type_string (d : designator) : PM name :=
  match d with DString n => mret n | _ => perr (FEtype_error_string d) end.

Fixpoint member_string_E (x : name) (l : list name) : bool :=
  match l with [] => false | y :: l' => if bool_decide (x = y) then true else member_string_E x l' end.

Definition has_name (x : name) (pk : package) : bool :=
  bool_decide (pack_name pk = Some x) || member_string_E x (pack_nicknames pk).

Fixpoint find_in_list (x : name) (l : list pid) : PM (option pid) :=
  match l with
  | [] => mret None
  | p :: l' => pk ← read_pack p; if has_name x pk then mret (Some p) else find_in_list x l'
  end.

Definition mkcl_find_package_nolock (d : designator) : PM (option pid) :=
  match d with
  | DPackage p => mret (Some p)
  | _ => x ← mk_cl_string d; st ← get_state; find_in_list x (st_list st)
  end.

Definition mk_si_coerce_to_package (d : designator) : PM pid :=
  pp ← mkcl_find_package_nolock d;
  match pp with Some p => mret p | None => perr (no_package d) end.

Definition mkcl_current_package : PM pid :=
  st ← get_state;
  match st_current st with
  | Some p => mret p
  | None => modify (set_current (Some user_package));; perr FEnot_a_package
  end.

(** The optional package argument. *)
Definition package_arg (d : option designator) : PM designator :=
  match d with Some d => mret d | None => p ← mkcl_current_package; mret (DPackage p) end.

(** [if (p->pack.closed) mkcl_CEpackage_error(...)], where the error is signalled
    once and then ignored. *)
Definition check_open (p : pid) : PM unit :=
  pk ← read_pack p; pwhen (pack_closed pk) (mkcl_CEpackage_error (closed_package p)).

(** ** Making and renaming packages *)

Definition _mkcl_alloc_sized_package (n : name) (external_size internal_size : Z) : PM pid := λ st,
  let p := first_free (st_packages st) in
  PDone p (set_packages <[p := Package (Some n) [] [] [] [] ∅ ∅ false]> st).

Definition size_in_range (size : Z) : PM Z :=
  if (0 <=? size) && (size <=? MKCL_MOST_POSITIVE_FIXNUM) then mret size else perr (FEtype_error_size size).

(** [(member other_name nicknames :test #'string=)] *)
Fixpoint member_nickname (other_name : name) (nicknames : list designator) : PM bool :=
  match nicknames with
  | [] => mret false
  | d :: l => n ← mk_cl_string d; if bool_decide (other_name = n) then mret true else member_nickname other_name l
  end.

(** The first package to be created under the name or a nickname, and the others. *)
Fixpoint find_waiting (n : name) (nicknames : list designator) (l : list (name * pid)) :
    PM (option (pid * list (name * pid))) :=
  match l with
  | [] => mret None
  | (other_name, p) :: next =>
      b ← (if bool_decide (other_name = n) then mret true else member_nickname other_name nicknames);
      if (b : bool) then mret (Some (p, next))
      else
        r ← find_waiting n nicknames next;
        mret (match r with Some (q, l') => Some (q, (other_name, p) :: l') | None => None end)
  end.

(** The nicknames, the last first, or the first that names a package, with it. *)
Fixpoint check_nicknames (nicknames : list designator) (good : list name) : PM (list name + pid * name) :=
  match nicknames with
  | [] => mret (inl good)
  | d :: l =>
      nick ← mk_cl_string d;
      other ← mkcl_find_package_nolock (DString nick);
      match other with
      | Some o => mret (inr (o, nick))
      | None => check_nicknames l (nick :: good)
      end
  end.

Definition use_in_new (x : pid) (d : designator) : PM unit :=
  y ← mk_si_coerce_to_package d;
  upd_pack x (with_uses (cons y));;
  upd_pack y (with_usedby (cons x)).

(** A package of that name, or what is to be used under it, with its names and its
    uses; [inr] is a package in the way. *)
Definition make_package_body (n : name) (nicknames use_list : list designator)
    (external_size internal_size : Z) : PM (pid + pid * name) :=
  st ← get_state;
  w ← find_waiting n nicknames (st_waiting st);
  x ← (match w with
       | Some (p, l) => modify (set_waiting l);; mret (inl p)
       | None =>
           other ← mkcl_find_package_nolock (DString n);
           match other with
           | Some o => mret (inr (o, n))
           | None =>
               esize ← size_in_range external_size;
               isize ← size_in_range internal_size;
               p ← _mkcl_alloc_sized_package n esize isize; mret (inl p)
           end
       end);
  match x with
  | inr o => mret (inr o)
  | inl x =>
      good ← check_nicknames nicknames [];
      match good with
      | inr o => mret (inr o)
      | inl good_nicknames =>
          upd_pack x (with_nicknames good_nicknames);;
          piter (use_in_new x) use_list;;
          st ← get_state;
          modify (set_list (x :: st_list st));;
          mret (inl x)
      end
  end.

Definition mkcl_make_sized_package (d : designator) (nicknames use_list : list designator)
    (external_size internal_size : Z) : PM pid :=
  n ← mk_cl_string d;
  r ← make_package_body n nicknames use_list external_size internal_size;
  match r with
  | inl x => mret x
  | inr (other, n) => mkcl_CEpackage_error (name_exists other n);; mret other
  end.

Definition mkcl_make_package (d : designator) (nicknames use_list : list designator) : PM pid :=
  mkcl_make_sized_package d nicknames use_list 129 129.

Definition mk_cl_make_package (d : designator) (nicknames : list designator)
    (use : option (list designator)) (external_size internal_size : option Z) : PM pid :=
  mkcl_make_sized_package d nicknames (default [DPackage lisp_package] use)
    (default 129 external_size) (default 129 internal_size).

Definition add_nickname (x : pid) (d : designator) : PM unit :=
  y ← mkcl_find_package_nolock d;
  if bool_decide (y = Some x) then mret tt
  else n ← mk_cl_string d; upd_pack x (λ pk, with_nicknames (n :: pack_nicknames pk) pk).

Definition mkcl_rename_package (dx : designator) (dn : designator) (nicknames : list designator) : PM pid :=
  n ← mk_cl_string dn;
  x ← mk_si_coerce_to_package dx;
  check_open x;;
  y ← mkcl_find_package_nolock (DString n);
  if bool_decide (y = None ∨ y = Some x) then
    upd_pack x (with_name (Some n));;
    upd_pack x (with_nicknames []);;
    piter (add_nickname x) nicknames;;
    mret x
  else perr (name_exists x n).

(** ** Finding and interning symbols *)

Fixpoint find_inherited (n : name) (ul : list pid) : PM (option sym) :=
  match ul with
  | [] => mret None
  | q :: ul' =>
      qk ← read_pack q;
      match pack_external qk !! n with Some s => mret (Some s) | None => find_inherited n ul' end
  end.

Definition mkcl_find_symbol_nolock (n : name) (p : pid) : PM (sym * intern_flag) :=
  pk ← read_pack p;
  match pack_external pk !! n with
  | Some s => mret (s, SYMBOL_IS_EXTERNAL)
  | None =>
      if p =? keyword_package then mret (sym_nil, SYMBOL_IS_NEW)
      else
        match pack_internal pk !! n with
        | Some s => mret (s, SYMBOL_IS_INTERNAL)
        | None =>
            r ← find_inherited n (pack_uses pk);
            mret (match r with
                  | Some s => (s, SYMBOL_IS_INHERITED)
                  | None => (sym_nil, SYMBOL_IS_NEW)
                  end)
        end
  end.

Definition mkcl_find_symbol (dn dp : designator) : PM (sym * intern_flag) :=
  n ← mk_cl_string dn; p ← mk_si_coerce_to_package dp; mkcl_find_symbol_nolock n p.

Definition mk_cl_make_symbol (n : name) : PM sym := λ st,
  let s := first_free (st_symbols st) in
  PDone s (set_symbols <[s := PSymbol n None false None]> st).

Definition set_hpack (p : option pid) (sy : psymbol) : psymbol :=
  PSymbol (psym_name sy) p (psym_constant sy) (psym_value sy).
Definition set_self_constant (s : sym) (sy : psymbol) : psymbol :=
  PSymbol (psym_name sy) (psym_hpack sy) true (Some s).

(** The symbol that [mkcl_intern] makes. *)
Definition intern_new (n : name) (p : pid) : PM (sym * intern_flag) :=
  s ← mk_cl_make_symbol n;
  upd_sym s (set_hpack (Some p));;
  (if p =? keyword_package then
     upd_sym s (set_self_constant s);; upd_pack p (with_external <[n := s]>)
   else upd_pack p (with_internal <[n := s]>));;
  mret (s, SYMBOL_IS_NEW).

(** When the package is closed and the error is ignored, all is tried again. *)
Fixpoint mkcl_intern_loop (fuel : nat) (n : name) (p : pid) : PM (sym * intern_flag) :=
  match fuel with
  | O => λ _, PDiverge
  | S fuel =>
      r ← mkcl_find_symbol_nolock n p;
      if bool_decide (r.2 = SYMBOL_IS_NEW) then
        pk ← read_pack p;
        if pack_closed pk then
          mkcl_CEpackage_error (closed_package p);; mkcl_intern_loop fuel n p
        else intern_new n p
      else mret r
  end.

Definition mkcl_intern (dn dp : designator) : PM (sym * intern_flag) :=
  n ← mkcl_check_type_string dn; p ← mk_si_coerce_to_package dp; mkcl_intern_loop fuel n p.

(** ** Removing a symbol *)

Definition homeless_if (p : pid) (sy : psymbol) : psymbol :=
  if bool_decide (psym_hpack sy = Some p) then set_hpack None sy else sy.
Definition home_if_homeless (p : pid) (sy : psymbol) : psymbol :=
  if bool_decide (psym_hpack sy = None) then set_hpack (Some p) sy else sy.

Definition make_resident_symbol_homeless (s : sym) (p : pid) : PM unit := upd_sym s (homeless_if p).
Definition set_symbol_home_if_homeless (s : sym) (p : pid) : PM unit := upd_sym s (home_if_homeless p).

Definition member_eq (x : Z) (l : list Z) : bool := bool_decide (x ∈ l).
Definition remove_eq (x : Z) (l : list Z) : list Z := filter (λ y, y ≠ x) l.

(** The symbols that [s] shadows in [p] must be one and the same. *)
Fixpoint check_uncovered (s : sym) (p : pid) (n : name) (x : option sym) (ul : list pid) : PM unit :=
  match ul with
  | [] => mret tt
  | q :: ul' =>
      qk ← read_pack q;
      match pack_external qk !! n, x with
      | None, _ => check_uncovered s p n x ul'
      | Some y, None => check_uncovered s p n (Some y) ul'
      | Some y, Some x' =>
          if x' =? y then check_uncovered s p n x ul' else perr (unintern_conflict s p x' y)
      end
  end.

Fixpoint mkcl_unintern_loop (fuel : nat) (s : sym) (n : name) (p : pid) : PM bool :=
  match fuel with
  | O => λ _, PDiverge
  | S fuel =>
      pk ← read_pack p;
      let internal := bool_decide (pack_internal pk !! n = Some s) in
      if negb internal && negb (bool_decide (pack_external pk !! n = Some s)) then mret false
      else if pack_closed pk then
        mkcl_CEpackage_error (closed_package p);; mkcl_unintern_loop fuel s n p
      else
        pwhen (member_eq s (pack_shadowings pk))
          (check_uncovered s p n None (pack_uses pk);;
           upd_pack p (with_shadowings (remove_eq s)));;
        upd_pack p (if internal then with_internal (delete n) else with_external (delete n));;
        make_resident_symbol_homeless s p;;
        mret true
  end.

Definition mkcl_unintern (s : sym) (dp : designator) : PM bool :=
  sy ← read_sym s; p ← mk_si_coerce_to_package dp; mkcl_unintern_loop fuel s (psym_name sy) p.

(** ** Exporting and importing *)

(** No user of [p] has another symbol of that name that it does not shadow. *)
Fixpoint check_users (s : sym) (p : pid) (n : name) (l : list pid) : PM unit :=
  match l with
  | [] => mret tt
  | q :: l' =>
      r ← mkcl_find_symbol_nolock n q;
      qk ← read_pack q;
      if negb (bool_decide (r.2 = SYMBOL_IS_NEW)) && negb (s =? r.1) &&
         negb (member_eq r.1 (pack_shadowings qk))
      then perr (export_conflict s p q)
      else check_users s p n l'
  end.

Definition mkcl_export2 (s : sym) (dp : designator) : PM unit :=
  sy ← read_sym s; let n := psym_name sy in
  p ← mk_si_coerce_to_package dp;
  check_open p;;
  r ← mkcl_find_symbol_nolock n p; let '(x, flag) := r in
  pwhen (bool_decide (flag = SYMBOL_IS_NEW)) (mkcl_CEpackage_error (not_accessible s p));;
  if negb (x =? s) then perr (export_present s p)
  else if bool_decide (flag = SYMBOL_IS_EXTERNAL) then mret tt
  else
    pk ← read_pack p;
    check_users s p n (pack_usedby pk);;
    pwhen (bool_decide (flag = SYMBOL_IS_INTERNAL)) (upd_pack p (with_internal (delete n)));;
    upd_pack p (with_external <[n := s]>).

Definition mkcl_unexport2 (s : sym) (dp : designator) : PM unit :=
  sy ← read_sym s; let n := psym_name sy in
  p ← mk_si_coerce_to_package dp;
  pwhen (p =? keyword_package) (perr unexport_keyword);;
  check_open p;;
  r ← mkcl_find_symbol_nolock n p; let '(x, flag) := r in
  if bool_decide (flag = SYMBOL_IS_NEW) || negb (x =? s) then perr (not_in_package s p)
  else if negb (bool_decide (flag = SYMBOL_IS_EXTERNAL)) then mret tt
  else
    upd_pack p (with_external (delete n));;
    upd_pack p (with_internal <[n := s]>).

Definition mkcl_import2 (s : sym) (dp : designator) : PM unit :=
  sy ← read_sym s; let n := psym_name sy in
  p ← mk_si_coerce_to_package dp;
  check_open p;;
  r ← mkcl_find_symbol_nolock n p; let '(x, flag) := r in
  let add :=
    upd_pack p (with_internal <[n := s]>);; set_symbol_home_if_homeless s p in
  if bool_decide (flag = SYMBOL_IS_NEW) then add
  else
    pwhen (negb (x =? s)) (mkcl_CEpackage_error (import_conflict s p));;
    if bool_decide (flag = SYMBOL_IS_INHERITED) then add else mret tt.

(** ** Shadowing *)

Definition mkcl_shadowing_import (s : sym) (dp : designator) : PM unit :=
  sy ← read_sym s; let n := psym_name sy in
  p ← mk_si_coerce_to_package dp;
  check_open p;;
  r ← mkcl_find_symbol_nolock n p; let '(x, flag) := r in
  pk ← read_pack p;
  let add :=
    upd_pack p (with_shadowings (cons s));;
    upd_pack p (with_internal <[n := s]>);;
    set_symbol_home_if_homeless s p in
  if bool_decide (flag = SYMBOL_IS_INTERNAL ∨ flag = SYMBOL_IS_EXTERNAL) then
    if x =? s then
      pwhen (negb (member_eq x (pack_shadowings pk))) (upd_pack p (with_shadowings (cons x)))
    else
      pwhen (member_eq x (pack_shadowings pk)) (upd_pack p (with_shadowings (remove_eq x)));;
      upd_pack p (if bool_decide (flag = SYMBOL_IS_INTERNAL)
                  then with_internal (delete n) else with_external (delete n));;
      make_resident_symbol_homeless x p;;
      add
  else add.

Definition mkcl_shadow (ds dp : designator) : PM unit :=
  n ← mk_cl_string ds;
  p ← mk_si_coerce_to_package dp;
  check_open p;;
  r ← mkcl_find_symbol_nolock n p;
  x ← (if bool_decide (r.2 = SYMBOL_IS_INTERNAL ∨ r.2 = SYMBOL_IS_EXTERNAL) then mret r.1
       else
         x ← mk_cl_make_symbol n;
         upd_pack p (with_internal <[n := x]>);;
         upd_sym x (set_hpack (Some p));;
         mret x);
  upd_pack p (with_shadowings (cons x)).

(** ** Use lists *)

(** No external symbol of [x] meets another symbol of its name in [p] that [p] does
    not shadow.  The symbols come in the order of the table. *)
Fixpoint check_use (x p : pid) (l : list (name * sym)) : PM unit :=
  match l with
  | [] => mret tt
  | (_, here) :: l' =>
      sy ← read_sym here;
      r ← mkcl_find_symbol_nolock (psym_name sy) p;
      pk ← read_pack p;
      if negb (bool_decide (r.2 = SYMBOL_IS_NEW)) && negb (here =? r.1) &&
         negb (member_eq r.1 (pack_shadowings pk))
      then perr (use_conflict x p here r.1)
      else check_use x p l'
  end.

Definition mkcl_use_package (dx dp : designator) : PM unit :=
  x ← mk_si_coerce_to_package dx;
  pwhen (x =? keyword_package) (perr use_keyword);;
  p ← mk_si_coerce_to_package dp;
  check_open p;;
  pwhen (p =? keyword_package) (perr use_in_keyword);;
  if p =? x then mret tt
  else
    pk ← read_pack p;
    if member_eq x (pack_uses pk) then mret tt
    else
      xk ← read_pack x;
      check_use x p (map_to_list (pack_external xk));;
      upd_pack p (with_uses (cons x));;
      upd_pack x (with_usedby (cons p)).

Definition mkcl_unuse_package (dx dp : designator) : PM unit :=
  x ← mk_si_coerce_to_package dx;
  p ← mk_si_coerce_to_package dp;
  check_open p;;
  upd_pack p (with_uses (remove_eq x));;
  upd_pack x (with_usedby (remove_eq p)).

(** ** Deleting a package *)

Definition mk_cl_delete_package (dp : designator) : PM bool :=
  r ← mkcl_find_package_nolock dp;
  match r with
  | None => mkcl_CEpackage_error (no_package dp);; mret false
  | Some p =>
      check_open p;;
      pwhen ((p =? lisp_package) || (p =? keyword_package)) (perr (cannot_remove p));;
      pk ← read_pack p;
      match pack_name pk with
      | None => mret false
      | Some _ =>
          piter (λ q, mkcl_unuse_package (DPackage q) (DPackage p)) (pack_uses pk);;
          pk ← read_pack p;
          let users := pack_usedby pk in
          pwhen (negb (bool_decide (users = [])))
            (mkcl_CEpackage_error (package_used_by p users);;
             piter (λ q, mkcl_unuse_package (DPackage p) (DPackage q)) users);;
          st ← get_state;
          modify (set_list (remove_eq p (st_list st)));;
          upd_pack p (with_name None);;
          mret true
      end
  end.

(** ** The functions of Common Lisp *)

(** A symbol, a list of symbols, or something else. *)
Inductive symbols_arg := OneSymbol (s : sym) | SymbolList (l : list sym) | NoSymbols.

Definition for_symbols (f : sym → designator → PM unit) (symbols : symbols_arg) (pack : option designator) :
    PM unit :=
  pack ← package_arg pack;
  match symbols with
  | OneSymbol s => f s pack
  | SymbolList l => p ← mk_si_coerce_to_package pack; piter (λ s, f s (DPackage p)) l
  | NoSymbols => perr (FEtype_error_string DOther)
  end.

Definition mk_cl_export := for_symbols mkcl_export2.
Definition mk_cl_unexport := for_symbols mkcl_unexport2.
Definition mk_cl_import := for_symbols mkcl_import2.
Definition mk_cl_shadowing_import := for_symbols mkcl_shadowing_import.

(** A designator or a list of them. *)
Definition for_designators (f : designator → designator → PM unit) (ds : designator + list designator)
    (pack : option designator) : PM unit :=
  pack ← package_arg pack;
  match ds with
  | inl d => f d pack
  | inr l => p ← mk_si_coerce_to_package pack; piter (λ d, f d (DPackage p)) l
  end.

Definition mk_cl_shadow (symbols : designator + list designator) (pack : option designator) : PM unit :=
  match symbols with
  | inl (DPackage p) => pack ← package_arg pack; perr (FEtype_error_string (DPackage p))
  | inl DOther => pack ← package_arg pack; perr (FEtype_error_string DOther)
  | _ => for_designators mkcl_shadow symbols pack
  end.
Definition mk_cl_use_package (pack : designator + list designator) (pa : option designator) : PM unit :=
  match pack with
  | inl DOther => pa ← package_arg pa; perr FEnot_a_package
  | _ => for_designators mkcl_use_package pack pa
  end.
Definition mk_cl_unuse_package (pack : designator + list designator) (pa : option designator) : PM unit :=
  match pack with
  | inl DOther => pa ← package_arg pa; perr FEnot_a_package
  | _ => for_designators mkcl_unuse_package pack pa
  end.

Definition mk_cl_intern (strng : designator) (p : option designator) : PM (sym * intern_flag) :=
  p ← package_arg p; mkcl_intern strng p.
(** The second value NIL of FIND-SYMBOL comes with the first value NIL. *)
Definition mk_cl_find_symbol (strng : designator) (p : option designator) : PM (sym * intern_flag) :=
  p ← package_arg p;
  r ← mkcl_find_symbol strng p;
  mret (if bool_decide (r.2 = SYMBOL_IS_NEW) then (sym_nil, SYMBOL_IS_NEW) else r).
Definition mk_cl_unintern (symbl : sym) (p : option designator) : PM bool :=
  p ← package_arg p; mkcl_unintern symbl p.

Definition mk_si_select_package (d : designator) : PM pid :=
  p ← mk_si_coerce_to_package d; modify (set_current (Some p));; mret p.
Definition mk_cl_find_package (d : designator) : PM (option pid) := mkcl_find_package_nolock d.

Definition pack_field {A} (f : package → A) (d : designator) : PM A :=
  p ← mk_si_coerce_to_package d; pk ← read_pack p; mret (f pk).
Definition mk_cl_package_name (d : designator) : PM name :=
  n ← pack_field pack_name d;
  match n with Some n => mret n | None => perr (FEtype_error_string DOther) end.
Definition mk_cl_package_nicknames : designator → PM (list name) := pack_field pack_nicknames.
Definition mk_cl_package_use_list : designator → PM (list pid) := pack_field pack_uses.
Definition mk_cl_package_used_by_list : designator → PM (list pid) := pack_field pack_usedby.
Definition mk_cl_package_shadowing_symbols : designator → PM (list sym) := pack_field pack_shadowings.
Definition mk_si_package_closed_p : designator → PM bool := pack_field pack_closed.
Definition mk_cl_rename_package (d new_name : designator) (new_nicknames : list designator) : PM pid :=
  mkcl_rename_package d new_name new_nicknames.

Definition mk_si_close_package (d : designator) : PM pid :=
  p ← mk_si_coerce_to_package d; upd_pack p (with_closed true);; mret p.
Definition mk_si_reopen_package (d : designator) : PM pid :=
  p ← mk_si_coerce_to_package d; upd_pack p (with_closed false);; mret p.

Definition mk_cl_list_all_packages : PM (list pid) := st ← get_state; mret (st_list st).
Definition mk_si_packages_in_waiting : PM (list (name * pid)) := st ← get_state; mret (st_waiting st).
(** Copies of the tables, and of the list of used packages. *)
Definition mk_si_package_hash_tables (p : pid) : PM (gmap name sym * gmap name sym * list pid) :=
  pk ← read_pack p; mret (pack_external pk, pack_internal pk, pack_uses pk).
End with_core.
