(* ===== verification/PackSpecs.v ===== *)
(** * PackSpecs: the invariant of the package system

    [pinv] says what holds between the operations: tables hold symbols under their
    names, a name is internal or external, shadowing symbols are present, the use
    lists and used-by lists agree, and no package has a name conflict that it does
    not shadow.  The KEYWORD package, whose internal table the code never reads, is
    only the home of its external symbols. *)

From S2P Require Import Prelude Words Packages.
#[local] Open Scope Z_scope.

(** ** Access to symbols *)

(** [s] is present in [pk]; is exported by [q]; is accessible in [pk]. *)
Definition pres (pk : package) (n : name) (s : sym) : Prop :=
  pack_external pk !! n = Some s ∨ pack_internal pk !! n = Some s.
Definition exported (ps : gmap pid package) (q : pid) (n : name) (s : sym) : Prop :=
  ∃ qk, ps !! q = Some qk ∧ pack_external qk !! n = Some s.
Definition acc (ps : gmap pid package) (pk : package) (n : name) (s : sym) : Prop :=
  pres pk n s ∨ ∃ q, q ∈ pack_uses pk ∧ exported ps q n s.

(** The symbols of a name accessible in a package are one, or one is present and
    shadows the others. *)
Definition consistent_at (ps : gmap pid package) (pk : package) (n : name) : Prop :=
  ∀ s1 s2, acc ps pk n s1 → acc ps pk n s2 →
    s1 = s2 ∨ ∃ s, pres pk n s ∧ s ∈ pack_shadowings pk.

Definition named (syms : gmap sym psymbol) (s : sym) (n : name) : Prop :=
  ∃ sy, syms !! s = Some sy ∧ psym_name sy = n.

Section with_core.
Context `{!Core}.

(** What holds of one package. *)
Record pack_ok (syms : gmap sym psymbol) (p : pid) (pk : package) : Prop := {
  po_named n s : pres pk n s → named syms s n;
  po_disjoint n : p ≠ keyword_package → pack_external pk !! n = None ∨ pack_internal pk !! n = None;
  po_shadow s : p ≠ keyword_package → s ∈ pack_shadowings pk → ∃ n, pres pk n s;
}.

Record pinv (st : pstate) : Prop := {
  pi_ok p pk : st_packages st !! p = Some pk → pack_ok (st_symbols st) p pk;
  pi_consistent p pk n : st_packages st !! p = Some pk → p ≠ keyword_package →
    consistent_at (st_packages st) pk n;
  pi_uses p pk q : st_packages st !! p = Some pk → q ∈ pack_uses pk →
    q ≠ keyword_package ∧ ∃ qk, st_packages st !! q = Some qk ∧ p ∈ pack_usedby qk;
  pi_usedby q qk p : st_packages st !! q = Some qk → p ∈ pack_usedby qk →
    ∃ pk, st_packages st !! p = Some pk ∧ q ∈ pack_uses pk;
  pi_list p : p ∈ st_list st → is_Some (st_packages st !! p);
  pi_keyword : is_Some (st_packages st !! keyword_package);
}.

(** ** Facts *)

Lemma named_fun syms s n m : named syms s n → named syms s m → n = m.
Proof. intros (sy & Hs & <-) (sy' & Hs' & <-). congruence. Qed.

Lemma acc_named st p pk n s :
  pinv st → st_packages st !! p = Some pk → acc (st_packages st) pk n s → named (st_symbols st) s n.
Proof.
  intros Hi Hp [Hs|(q & Hq & qk & Hqk & Hs)]; [by eapply po_named; [eapply pi_ok|]|].
  eapply po_named; [by eapply pi_ok|]. by left.
Qed.

Lemma pres_fun syms p pk n s s' :
  pack_ok syms p pk → p ≠ keyword_package → pres pk n s → pres pk n s' → s = s'.
Proof.
  intros Hok Hp. unfold pres. destruct (po_disjoint _ _ _ Hok n Hp) as [E|E]; rewrite E; naive_solver.
Qed.

(** A shadowing symbol is present under its name. *)
Lemma shadow_pres syms p pk n s :
  pack_ok syms p pk → p ≠ keyword_package → s ∈ pack_shadowings pk → named syms s n → pres pk n s.
Proof.
  intros Hok Hp Hs Hn. destruct (po_shadow _ _ _ Hok s Hp Hs) as [m Hm].
  by rewrite (named_fun _ _ _ _ Hn (po_named _ _ _ Hok _ _ Hm)).
Qed.

(** What FIND-SYMBOL finds. *)
Inductive found (ps : gmap pid package) (p : pid) (pk : package) (n : name) : sym → intern_flag → Prop :=
| found_external s : pack_external pk !! n = Some s → found ps p pk n s SYMBOL_IS_EXTERNAL
| found_internal s : p ≠ keyword_package → pack_external pk !! n = None →
    pack_internal pk !! n = Some s → found ps p pk n s SYMBOL_IS_INTERNAL
| found_inherited q s : p ≠ keyword_package → pack_external pk !! n = None → pack_internal pk !! n = None →
    q ∈ pack_uses pk → exported ps q n s → found ps p pk n s SYMBOL_IS_INHERITED
| found_none : pack_external pk !! n = None →
    (p ≠ keyword_package → ∀ s, ¬ acc ps pk n s) → found ps p pk n sym_nil SYMBOL_IS_NEW.

Lemma find_inherited_spec st n ul :
  (∀ q, q ∈ ul → is_Some (st_packages st !! q)) →
  ∃ r, find_inherited n ul st = PDone r st ∧
    match r with
    | Some s => ∃ q, q ∈ ul ∧ exported (st_packages st) q n s
    | None => ∀ q s, q ∈ ul → ¬ exported (st_packages st) q n s
    end.
Proof.
  induction ul as [|q ul IH]; intros Hul; simpl.
  { exists None. split; [done|]. by intros q s ?%elem_of_nil. }
  destruct (Hul q) as [qk Hqk]; [by left|]. unfold read_pack, mbind, PM_bind. rewrite Hqk.
  destruct (pack_external qk !! n) as [s|] eqn:E.
  - exists (Some s). split; [done|]. exists q. split; [by left|]. by exists qk.
  - destruct IH as (r & -> & Hr); [intros q' Hq'; apply Hul; by right|]. exists r. split; [done|].
    destruct r as [s|].
    + destruct Hr as (q' & ? & ?). exists q'. split; [by right|done].
    + intros q' s [->|Hq']%elem_of_cons; [|by apply Hr]. intros (qk' & ? & ?). congruence.
Qed.

Lemma find_symbol_spec st p pk n :
  pinv st → st_packages st !! p = Some pk →
  ∃ s f, mkcl_find_symbol_nolock n p st = PDone (s, f) st ∧ found (st_packages st) p pk n s f.
Proof.
  intros Hi Hp. unfold mkcl_find_symbol_nolock, read_pack, mbind at 1, PM_bind at 1. rewrite Hp.
  destruct (pack_external pk !! n) as [s|] eqn:Ee; [do 2 eexists; split; [done|by constructor]|].
  destruct (Z.eqb_spec p keyword_package) as [->|Hk].
  { do 2 eexists; split; [done|]. by constructor. }
  destruct (pack_internal pk !! n) as [s|] eqn:Ei; [do 2 eexists; split; [done|by constructor]|].
  destruct (find_inherited_spec st n (pack_uses pk)) as (r & E & Hr).
  { intros q Hq. destruct (pi_uses _ Hi _ _ _ Hp Hq) as (_ & qk & ? & _). by exists qk. }
  unfold mbind, PM_bind. rewrite E. destruct r as [s|].
  - destruct Hr as (q & ? & ?). do 2 eexists; split; [done|]. by eapply found_inherited.
  - do 2 eexists; split; [done|]. apply found_none; [done|].
    intros _ s [[?|?]|(q & Hq & Hs)]; [congruence..|]. by eapply Hr.
Qed.

Lemma found_acc ps p pk n s f : found ps p pk n s f → f ≠ SYMBOL_IS_NEW → acc ps pk n s.
Proof. destruct 1; intros Hf; [left; by left|left; by right|right; eauto|done]. Qed.

(** ** Changes of one package *)

(** Symbols are made and change home; they keep their names. *)
Definition syms_ext (syms syms' : gmap sym psymbol) : Prop :=
  ∀ s n, named syms s n → named syms' s n.

Lemma syms_ext_refl syms : syms_ext syms syms.
Proof. by intros s n. Qed.

Lemma syms_ext_alter syms s f :
  (∀ sy, psym_name (f sy) = psym_name sy) → syms_ext syms (alter f s syms).
Proof.
  intros Hf t n (sy & Hs & <-). destruct (decide (s = t)) as [->|Hst].
  - exists (f sy). by rewrite lookup_alter_eq, Hs, Hf.
  - exists sy. by rewrite lookup_alter_ne.
Qed.

Lemma syms_ext_fresh (syms : gmap sym psymbol) sy : syms_ext syms (<[first_free syms := sy]> syms).
Proof.
  intros t n (sy' & Hs & <-). exists sy'. split; [|done]. rewrite lookup_insert_ne; [done|].
  intros <-. by rewrite first_free_fresh in Hs.
Qed.

Lemma syms_ext_trans s1 s2 s3 : syms_ext s1 s2 → syms_ext s2 s3 → syms_ext s1 s3.
Proof. unfold syms_ext. auto. Qed.

Lemma pack_ok_ext syms syms' p pk : syms_ext syms syms' → pack_ok syms p pk → pack_ok syms' p pk.
Proof. intros He []. constructor; eauto. Qed.

(** Less is accessible, and what shadowed is still there. *)
Lemma consistent_sub ps ps' pk pk' n :
  (∀ s, acc ps' pk' n s → acc ps pk n s) →
  (∀ s, pres pk n s → s ∈ pack_shadowings pk → pres pk' n s ∧ s ∈ pack_shadowings pk') →
  consistent_at ps pk n → consistent_at ps' pk' n.
Proof.
  intros Ha Hs Hc s1 s2 H1 H2. destruct (Hc s1 s2) as [?|(s & ? & ?)]; [auto..|by left|].
  right. exists s. by apply Hs.
Qed.

(** A symbol that is present and shadows, or is all that is accessible. *)
Lemma consistent_shadow ps pk n s : pres pk n s → s ∈ pack_shadowings pk → consistent_at ps pk n.
Proof. intros Hp Hs s1 s2 _ _. right. by exists s. Qed.

Lemma consistent_one ps pk n s : (∀ s', acc ps pk n s' → s' = s) → consistent_at ps pk n.
Proof. intros Ha s1 s2 H1 H2. left. by rewrite (Ha s1), (Ha s2). Qed.

(** The tables of [pk] and [pk'] hold the same under [m]. *)
Definition same_at (m : name) (pk pk' : package) : Prop :=
  pack_external pk' !! m = pack_external pk !! m ∧ pack_internal pk' !! m = pack_internal pk !! m ∧
  ∀ s, pres pk m s → s ∈ pack_shadowings pk → s ∈ pack_shadowings pk'.

Lemma exported_insert ps p pk pk' q m s :
  ps !! p = Some pk → pack_external pk' !! m = pack_external pk !! m →
  exported (<[p := pk']> ps) q m s ↔ exported ps q m s.
Proof.
  intros Hp Hm. unfold exported. destruct (decide (p = q)) as [<-|Hpq].
  - rewrite lookup_insert_eq, Hp. split; intros (? & [= <-] & ?); eexists; split; [done|congruence|done|congruence].
  - by rewrite lookup_insert_ne.
Qed.

Lemma pinv_tables st st' p pk pk' n :
  pinv st → st_packages st !! p = Some pk →
  st_packages st' = <[p := pk']> (st_packages st) → st_list st' = st_list st →
  syms_ext (st_symbols st) (st_symbols st') →
  pack_uses pk' = pack_uses pk → pack_usedby pk' = pack_usedby pk →
  pack_ok (st_symbols st') p pk' →
  (∀ m, m ≠ n → same_at m pk pk') →
  (p ≠ keyword_package → consistent_at (st_packages st') pk' n) →
  (∀ q qk, q ≠ p → q ≠ keyword_package → st_packages st !! q = Some qk → p ∈ pack_uses qk →
     q ∈ pack_usedby pk → consistent_at (st_packages st') qk n) →
  pinv st'.
Proof.
  intros Hi Hp Hps Hl Hs Hu Hb Hok Hsame Hcp Hcq.
  assert (Hexp : ∀ q m s, m ≠ n → exported (st_packages st') q m s → exported (st_packages st) q m s).
  { intros q m s Hm. rewrite Hps. destruct (Hsame m Hm) as (He & _ & _).
    by rewrite (exported_insert _ p pk pk'). }
  assert (Hlook : ∀ q qk', st_packages st' !! q = Some qk' →
    ∃ qk, st_packages st !! q = Some qk ∧ pack_uses qk' = pack_uses qk ∧ pack_usedby qk' = pack_usedby qk).
  { intros q qk'. rewrite Hps. destruct (decide (p = q)) as [<-|Hpq].
    - rewrite lookup_insert_eq. intros [= <-]. eauto.
    - rewrite lookup_insert_ne by done. eauto. }
  assert (Hlook' : ∀ q qk, st_packages st !! q = Some qk →
    ∃ qk', st_packages st' !! q = Some qk' ∧ pack_uses qk' = pack_uses qk ∧ pack_usedby qk' = pack_usedby qk).
  { intros q qk Hq. rewrite Hps. destruct (decide (p = q)) as [<-|Hpq].
    - rewrite lookup_insert_eq. exists pk'. naive_solver.
    - rewrite lookup_insert_ne by done. eauto. }
  constructor.
  - intros q qk. rewrite Hps. destruct (decide (p = q)) as [<-|Hpq].
    + rewrite lookup_insert_eq. by intros [= <-].
    + rewrite lookup_insert_ne by done. intros Hq. eapply pack_ok_ext; [done|]. by eapply pi_ok.
  - intros q qk m Hq Hk. destruct (decide (m = n)) as [->|Hm].
    + rewrite Hps in Hq. destruct (decide (p = q)) as [<-|Hpq].
      { rewrite lookup_insert_eq in Hq. injection Hq as <-. auto. }
      rewrite lookup_insert_ne in Hq by done.
      destruct (decide (p ∈ pack_uses qk)) as [Hpu|Hpu].
      { apply (Hcq q); try done. destruct (pi_uses _ Hi _ _ _ Hq Hpu) as (_ & pk0 & Hp0 & ?). congruence. }
      eapply consistent_sub; [|intros s ? ?; split; done|by eapply (pi_consistent _ Hi)].
      intros s [?|(q' & Hq' & Hs')]; [by left|]. right. exists q'. split; [done|].
      rewrite Hps in Hs'. unfold exported in *. rewrite lookup_insert_ne in Hs'; [done|]. naive_solver.
    + rewrite Hps in Hq. destruct (decide (p = q)) as [<-|Hpq].
      * rewrite lookup_insert_eq in Hq. injection Hq as <-. destruct (Hsame m Hm) as (He & Hin & Hsh).
        eapply consistent_sub; [| |by eapply (pi_consistent _ Hi p pk)].
        -- intros s [Hpr|(q' & Hq' & Hs')]; [left|right].
           ++ unfold pres in *. by rewrite <- He, <- Hin.
           ++ exists q'. rewrite <- Hu. split; [done|]. by apply Hexp.
        -- intros s Hpr Hsd. split; [|by apply Hsh]. unfold pres in *. by rewrite He, Hin.
      * rewrite lookup_insert_ne in Hq by done.
        eapply consistent_sub; [|intros s ? ?; split; done|by eapply (pi_consistent _ Hi)].
        intros s [?|(q' & Hq' & Hs')]; [by left|]. right. exists q'. split; [done|]. by apply Hexp.
  - intros q qk' u Hq Hin. destruct (Hlook _ _ Hq) as (qk & Hq0 & Hqu & Hqb). rewrite Hqu in Hin.
    destruct (pi_uses _ Hi _ _ _ Hq0 Hin) as (? & uk & Huk & ?). split; [done|].
    destruct (Hlook' _ _ Huk) as (uk' & ? & _ & Hub). exists uk'. by rewrite Hub.
  - intros q qk' u Hq Hin. destruct (Hlook _ _ Hq) as (qk & Hq0 & Hqu & Hqb). rewrite Hqb in Hin.
    destruct (pi_usedby _ Hi _ _ _ Hq0 Hin) as (uk & Huk & ?).
    destruct (Hlook' _ _ Huk) as (uk' & ? & Huu & _). exists uk'. by rewrite Huu.
  - intros q. rewrite Hl. intros Hq%(pi_list _ Hi). destruct Hq as [qk Hq].
    destruct (Hlook' _ _ Hq) as (qk' & ? & _). by exists qk'.
  - destruct (pi_keyword _ Hi) as [kk Hk]. destruct (Hlook' _ _ Hk) as (kk' & ? & _). by exists kk'.
Qed.

Lemma exported_shrink ps p pk pk' q n s :
  ps !! p = Some pk → (∀ s, pack_external pk' !! n = Some s → pack_external pk !! n = Some s) →
  exported (<[p := pk']> ps) q n s → exported ps q n s.
Proof.
  intros Hp He (qk & Hq & Hs). destruct (decide (p = q)) as [<-|Hpq].
  - rewrite lookup_insert_eq in Hq. injection Hq as <-. exists pk. auto.
  - rewrite lookup_insert_ne in Hq by done. by exists qk.
Qed.

(** The users of [p] do not see a change of its internal symbols, or less of its
    external ones. *)
Lemma pinv_local st st' p pk pk' n :
  pinv st → st_packages st !! p = Some pk →
  st_packages st' = <[p := pk']> (st_packages st) → st_list st' = st_list st →
  syms_ext (st_symbols st) (st_symbols st') →
  pack_uses pk' = pack_uses pk → pack_usedby pk' = pack_usedby pk →
  pack_ok (st_symbols st') p pk' →
  (∀ m, m ≠ n → same_at m pk pk') →
  (p ≠ keyword_package → consistent_at (st_packages st') pk' n) →
  (∀ s, pack_external pk' !! n = Some s → pack_external pk !! n = Some s) →
  pinv st'.
Proof.
  intros Hi Hp Hps Hl Hs Hu Hb Hok Hsame Hcp He. eapply pinv_tables; try done.
  intros q qk Hqp Hqk Hq _ _. eapply consistent_sub; [|intros s ? ?; split; done|by eapply (pi_consistent _ Hi)].
  intros s [?|(q' & Hq' & Hs')]; [by left|]. right. exists q'. split; [done|].
  rewrite Hps in Hs'. exact (exported_shrink _ _ _ _ _ _ _ Hp He Hs').
Qed.

(** What is accessible after a change of [p] that its externals do not grow by. *)
Lemma acc_local ps p pk pk' n s :
  ps !! p = Some pk → pack_uses pk' = pack_uses pk →
  (∀ s, pack_external pk' !! n = Some s → pack_external pk !! n = Some s) →
  acc (<[p := pk']> ps) pk' n s → pres pk' n s ∨ ∃ q, q ∈ pack_uses pk ∧ exported ps q n s.
Proof.
  intros Hp Hu He [?|(q & Hq & Hs)]; [by left|]. right. exists q. rewrite <- Hu. split; [done|].
  exact (exported_shrink _ _ _ _ _ _ _ Hp He Hs).
Qed.

(** ** Computations that keep the invariant *)

Definition keeps {A} (m : PM A) (st : pstate) (Q : A → pstate → Prop) : Prop :=
  match m st with PDone a st' => Q a st' | PFail _ st' => pinv st' | PDiverge => True end.

Lemma keeps_bind {A B} (m : PM A) (k : A → PM B) st Q :
  keeps m st (λ a st', keeps (k a) st' Q) → keeps (m ≫= k) st Q.
Proof. unfold keeps, mbind, PM_bind. by destruct (m st). Qed.

Lemma keeps_mono {A} (m : PM A) st (Q Q' : A → pstate → Prop) :
  keeps m st Q → (∀ a st', Q a st' → Q' a st') → keeps m st Q'.
Proof. unfold keeps. destruct (m st); auto. Qed.

Lemma keeps_ret {A} (a : A) st (Q : A → pstate → Prop) : Q a st → keeps (mret a) st Q.
Proof. done. Qed.
Lemma keeps_err {A} e st (Q : A → pstate → Prop) : pinv st → keeps (perr e) st Q.
Proof. done. Qed.
Lemma keeps_modify f st (Q : unit → pstate → Prop) : Q tt (f st) → keeps (modify f) st Q.
Proof. done. Qed.
Lemma keeps_read_pack p st (Q : package → pstate → Prop) :
  pinv st → (∀ pk, st_packages st !! p = Some pk → Q pk st) → keeps (read_pack p) st Q.
Proof. unfold keeps, read_pack. destruct (st_packages st !! p); auto. Qed.
Lemma keeps_read_sym s st (Q : psymbol → pstate → Prop) :
  pinv st → (∀ sy, st_symbols st !! s = Some sy → Q sy st) → keeps (read_sym s) st Q.
Proof. unfold keeps, read_sym. destruct (st_symbols st !! s); auto. Qed.

(** Computations that only read. *)
Definition reads {A} (m : PM A) : Prop :=
  ∀ st, match m st with PDone _ st' | PFail _ st' => st' = st | PDiverge => True end.

Lemma reads_ret {A} (a : A) : reads (mret a).
Proof. done. Qed.
Lemma reads_err {A} e : reads (perr e : PM A).
Proof. done. Qed.
Lemma reads_bind {A B} (m : PM A) (k : A → PM B) : reads m → (∀ a, reads (k a)) → reads (m ≫= k).
Proof.
  intros Hm Hk st. specialize (Hm st). unfold mbind, PM_bind. destruct (m st) as [a st'|e st'|]; [|done..].
  subst st'. apply Hk.
Qed.
Lemma reads_pack p : reads (read_pack p).
Proof. intros st. unfold read_pack. by destruct (st_packages st !! p). Qed.
Lemma reads_sym s : reads (read_sym s).
Proof. intros st. unfold read_sym. by destruct (st_symbols st !! s). Qed.
Lemma reads_state : reads get_state.
Proof. done. Qed.

Lemma keeps_reads {A} (m : PM A) st (Q : A → pstate → Prop) :
  reads m → pinv st → (∀ a, m st = PDone a st → Q a st) → keeps m st Q.
Proof.
  intros Hm Hi HQ. specialize (Hm st). unfold keeps. destruct (m st) eqn:E; [|by subst|done].
  subst. auto.
Qed.
End with_core.

Create HintDb reads.
#[export] Hint Resolve reads_ret reads_err reads_bind reads_pack reads_sym reads_state : reads.

Ltac reads_go :=
  repeat first
    [ progress intros
    | solve [auto with reads]
    | apply reads_bind
    | match goal with |- reads (if ?b then _ else _) => destruct b end
    | match goal with |- reads (match ?x with _ => _ end) => destruct x end ].

Section reading.
Context `{!Core, !Restarts} (fuel : nat).

Lemma reads_find_in_list x l : reads (find_in_list x l).
Proof. induction l; cbn [find_in_list]; reads_go. Qed.
Lemma reads_string d : reads (mk_cl_string d).
Proof. unfold mk_cl_string. reads_go. Qed.
Lemma reads_check_string d : reads (mkcl_check_type_string d).
Proof. unfold mkcl_check_type_string. reads_go. Qed.
#[local] Hint Resolve reads_find_in_list reads_string : reads.

Lemma reads_find_package d : reads (mkcl_find_package_nolock d).
Proof. unfold mkcl_find_package_nolock. reads_go. Qed.
#[local] Hint Resolve reads_find_package : reads.

Lemma reads_coerce d : reads (mk_si_coerce_to_package d).
Proof. unfold mk_si_coerce_to_package. reads_go. Qed.

Lemma reads_find_inherited n ul : reads (find_inherited n ul).
Proof. induction ul; cbn [find_inherited]; reads_go. Qed.
#[local] Hint Resolve reads_find_inherited : reads.

Lemma reads_find_symbol n p : reads (mkcl_find_symbol_nolock n p).
Proof.
  unfold mkcl_find_symbol_nolock. reads_go.
Qed.
#[local] Hint Resolve reads_find_symbol : reads.

Lemma reads_check_users s p n l : reads (check_users s p n l).
Proof. induction l; cbn [check_users]; reads_go. Qed.
Lemma reads_check_use x p l : reads (check_use x p l).
Proof. induction l as [|[n here] l IH]; cbn [check_use]; reads_go. Qed.
Lemma reads_check_uncovered s p n x l : reads (check_uncovered s p n x l).
Proof. revert x. induction l; intros x; cbn [check_uncovered]; reads_go. Qed.
Lemma reads_check_nicknames nicks good : reads (check_nicknames nicks good).
Proof. revert good. induction nicks; intros good; cbn [check_nicknames]; reads_go. Qed.
Lemma reads_size z : reads (size_in_range z).
Proof. unfold size_in_range. reads_go. Qed.
End reading.
#[export] Hint Resolve reads_find_in_list reads_string reads_check_string reads_find_package reads_coerce
  reads_find_inherited reads_find_symbol reads_check_users reads_check_use reads_check_uncovered
  reads_check_nicknames reads_size : reads.

(** ** The operations on packages keep the invariant

    Each operation is reduced to one change of one package, at one name.  At the
    end, the steps of the package system and the states that they reach. *)

Section with_core.
Context `{!Core}.

Lemma alter_eq (ps : gmap pid package) p pk f : ps !! p = Some pk → alter f p ps = <[p := f pk]> ps.
Proof.
  intros Hp. apply map_eq. intros q. destruct (decide (p = q)) as [<-|Hpq].
  - by rewrite lookup_alter_eq, lookup_insert_eq, Hp.
  - by rewrite lookup_alter_ne, lookup_insert_ne.
Qed.

(** A change of the tables at [n] and of the shadowing symbols. *)
Lemma pack_ok_change syms p pk pk' n :
  pack_ok syms p pk →
  (∀ m, m ≠ n → pack_external pk' !! m = pack_external pk !! m ∧
                pack_internal pk' !! m = pack_internal pk !! m) →
  (∀ s, pres pk' n s → named syms s n) →
  (p ≠ keyword_package → pack_external pk' !! n = None ∨ pack_internal pk' !! n = None) →
  (p ≠ keyword_package → ∀ s, s ∈ pack_shadowings pk' → (∃ m, m ≠ n ∧ pres pk m s) ∨ pres pk' n s) →
  pack_ok syms p pk'.
Proof.
  intros Hok Hne Hn Hd Hs. constructor.
  - intros m s Hm. destruct (decide (m = n)) as [->|Hmn]; [auto|]. apply (po_named _ _ _ Hok).
    destruct (Hne m Hmn) as [He Hi]. unfold pres in *. by rewrite <- He, <- Hi.
  - intros m Hp. destruct (decide (m = n)) as [->|Hmn]; [auto|].
    destruct (Hne m Hmn) as [-> ->]. by apply (po_disjoint _ _ _ Hok).
  - intros s Hp Hsh. destruct (Hs Hp s Hsh) as [(m & Hmn & Hm)|Hm]; [|eauto].
    exists m. destruct (Hne m Hmn) as [He Hi]. unfold pres in *. by rewrite He, Hi.
Qed.

(** Where the shadowing symbols of [pk] are when those of [n] are looked at apart. *)
Lemma shadow_at syms p pk n s :
  pack_ok syms p pk → p ≠ keyword_package → s ∈ pack_shadowings pk →
  (∃ m, m ≠ n ∧ pres pk m s) ∨ pres pk n s.
Proof.
  intros Hok Hp Hs. destruct (po_shadow _ _ _ Hok s Hp Hs) as [m Hm].
  destruct (decide (m = n)) as [->|Hmn]; eauto.
Qed.

(** ** INTERN *)

Lemma new_symbol_ext syms n p :
  let s := first_free syms in
  syms_ext syms (alter (set_hpack p) s (<[s := PSymbol n None false None]> syms)) ∧
  named (alter (set_hpack p) s (<[s := PSymbol n None false None]> syms)) s n.
Proof.
  intros s. split.
  - eapply syms_ext_trans; [apply syms_ext_fresh|by apply syms_ext_alter].
  - eexists. rewrite lookup_alter_eq, lookup_insert_eq. done.
Qed.

Lemma intern_new_inv st p pk n s0 r st' :
  pinv st → st_packages st !! p = Some pk → found (st_packages st) p pk n s0 SYMBOL_IS_NEW →
  intern_new n p st = PDone r st' → pinv st'.
Proof.
  intros Hi Hp Hf. pose proof (pi_ok _ Hi _ _ Hp) as Hok. inversion Hf as [| | |He Hn]; subst.
  unfold intern_new. set (s := first_free (st_symbols st)).
  destruct (new_symbol_ext (st_symbols st) n (Some p)) as [Hext Hnamed]. fold s in Hext, Hnamed.
  unfold mbind, PM_bind. simpl. destruct (Z.eqb_spec p keyword_package) as [->|Hk]; simpl; intros [= <- <-].
  - eapply (pinv_tables st _ keyword_package pk (with_external <[n := s]> pk) n); try done.
    + simpl. by rewrite (alter_eq _ _ _ _ Hp).
    + simpl. eapply syms_ext_trans; [exact Hext|by apply syms_ext_alter].
    + eapply (pack_ok_change _ _ pk _ n); [|simpl..].
      * simpl. eapply pack_ok_ext; [|done]. eapply syms_ext_trans; [exact Hext|by apply syms_ext_alter].
      * intros m Hm. by rewrite lookup_insert_ne.
      * unfold pres. simpl. intros t [Ht|Ht].
        -- rewrite lookup_insert_eq in Ht. injection Ht as <-. by apply syms_ext_alter.
        -- apply syms_ext_alter; [done|]. apply Hext, (po_named _ _ _ Hok). by right.
      * done.
      * done.
    + intros m Hm. split_and!; simpl; [by rewrite lookup_insert_ne|done..].
    + intros q qk Hq _ Hqk Hpu _. by destruct (pi_uses _ Hi _ _ _ Hqk Hpu).
  - assert (Hno : ∀ t, ¬ acc (st_packages st) pk n t) by auto.
    eapply (pinv_local st _ p pk (with_internal <[n := s]> pk) n); try done.
    + simpl. by rewrite (alter_eq _ _ _ _ Hp).
    + eapply (pack_ok_change _ _ pk _ n); [by eapply pack_ok_ext|simpl..].
      * intros m Hm. by rewrite lookup_insert_ne.
      * unfold pres. simpl. rewrite He, lookup_insert_eq. intros t [?|[= <-]]; [done|exact Hnamed].
      * by left.
      * intros _ t Ht. destruct (shadow_at _ _ _ n _ Hok Hk Ht) as [?|Hpr]; [by left|].
        destruct (Hno t). by left.
    + intros m Hm. split_and!; simpl; [done|by rewrite lookup_insert_ne|done].
    + intros _. apply (consistent_one _ _ _ s). simpl. rewrite (alter_eq _ _ _ _ Hp).
      intros t [Ht|Ht]%(acc_local _ _ pk); [| |done..].
      * unfold pres in Ht. simpl in Ht. rewrite He, lookup_insert_eq in Ht. by destruct Ht as [?|[= <-]].
      * destruct (Hno t). by right.
Qed.

(** ** What the checks check *)

Lemma check_uncovered_spec s p n x ul st :
  (∀ q, q ∈ ul → is_Some (st_packages st !! q)) →
  check_uncovered s p n x ul st = PDone tt st →
  ∃ z, (∀ q t, q ∈ ul → exported (st_packages st) q n t → t = z) ∧ (∀ x', x = Some x' → z = x').
Proof.
  revert x. induction ul as [|q ul IH]; intros x Hul.
  { intros _. exists (default 0 x). split; [by intros ? ? ?%elem_of_nil|]. by intros x' ->. }
  destruct (Hul q) as [qk Hq]; [by left|].
  assert (Hul' : ∀ q, q ∈ ul → is_Some (st_packages st !! q)) by (intros; apply Hul; by right).
  cbn [check_uncovered]. unfold read_pack, mbind, PM_bind. rewrite Hq.
  assert (Hq' : ∀ t, exported (st_packages st) q n t → pack_external qk !! n = Some t)
    by (intros t (qk' & ? & ?); congruence).
  destruct (pack_external qk !! n) as [y|] eqn:Ey; [destruct x as [x'|]; [destruct (Z.eqb_spec x' y) as [->|]|]|].
  - intros (z & Hz & Hx)%IH; [|done]. exists z. split; [|done]. intros q' t [->|Hin]%elem_of_cons Ht; [|eauto].
    specialize (Hx y eq_refl) as ->. apply Hq' in Ht. congruence.
  - done.
  - intros (z & Hz & Hx)%IH; [|done]. exists z. split; [|done]. intros q' t [->|Hin]%elem_of_cons Ht; [|eauto].
    specialize (Hx y eq_refl) as ->. apply Hq' in Ht. congruence.
  - intros (z & Hz & Hx)%IH; [|done]. exists z. split; [|done]. intros q' t [->|Hin]%elem_of_cons Ht; [|eauto].
    apply Hq' in Ht. congruence.
Qed.

(** Either nothing is found, or [s], or a symbol that is shadowed. *)
Definition no_conflict (ps : gmap pid package) (p : pid) (pk : package) (n : name) (s : sym) : Prop :=
  ∃ x f, found ps p pk n x f ∧ (f = SYMBOL_IS_NEW ∨ s = x ∨ x ∈ pack_shadowings pk).

Lemma conflict_test st p pk n s x f :
  found (st_packages st) p pk n x f →
  negb (bool_decide (f = SYMBOL_IS_NEW)) && negb (s =? x) && negb (member_eq x (pack_shadowings pk)) = false →
  no_conflict (st_packages st) p pk n s.
Proof.
  intros Hf Ht. exists x, f. split; [done|]. unfold member_eq in Ht.
  destruct (decide (f = SYMBOL_IS_NEW)) as [|Hn]; [by left|]. right.
  rewrite (bool_decide_eq_false_2 _ Hn) in Ht. destruct (Z.eqb_spec s x); [by left|]. right.
  simpl in Ht. by apply negb_false_iff, bool_decide_eq_true in Ht.
Qed.

Lemma check_users_spec s p n l st :
  pinv st → (∀ q, q ∈ l → is_Some (st_packages st !! q)) →
  check_users s p n l st = PDone tt st →
  ∀ q qk, q ∈ l → st_packages st !! q = Some qk → no_conflict (st_packages st) q qk n s.
Proof.
  intros Hi. induction l as [|q l IH]; intros Hl; [by intros _ ? ? ?%elem_of_nil|].
  destruct (Hl q) as [qk Hq]; [by left|]. cbn [check_users].
  destruct (find_symbol_spec st q qk n Hi Hq) as (x & f & E & Hf).
  unfold mbind, PM_bind. rewrite E. unfold read_pack. rewrite Hq. cbn [fst snd].
  destruct (negb _ && _ && _) eqn:Et; [done|]. intros Hr q' qk' [->|Hin]%elem_of_cons Hq'.
  - assert (qk' = qk) as -> by congruence. by eapply conflict_test.
  - apply (IH (λ q Hin, Hl q (proj2 (elem_of_cons _ _ _) (or_intror Hin))) Hr q' qk' Hin Hq').
Qed.

Lemma check_use_spec x p pk l st :
  pinv st → st_packages st !! p = Some pk →
  check_use x p l st = PDone tt st →
  ∀ m here n, (m, here) ∈ l → named (st_symbols st) here n → no_conflict (st_packages st) p pk n here.
Proof.
  intros Hi Hp. induction l as [|[m0 here0] l IH]; [by intros _ ? ? ? ?%elem_of_nil|]. cbn [check_use].
  unfold mbind, PM_bind, read_sym. destruct (st_symbols st !! here0) as [sy|] eqn:Es; [|done].
  destruct (find_symbol_spec st p pk (psym_name sy) Hi Hp) as (y & f & E & Hf). rewrite E.
  unfold read_pack. rewrite Hp. cbn [fst snd].
  destruct (negb _ && _ && _) eqn:Et; [done|]. intros Hr m here n [[= -> ->]|Hin]%elem_of_cons Hn.
  - assert (psym_name sy = n) as <- by (eapply named_fun; [|done]; by exists sy). by eapply conflict_test.
  - by eapply IH.
Qed.

(** ** UNINTERN *)

(** [s] taken from the table that holds it, and from the shadowing symbols. *)
Definition take_out (internal : bool) (n : name) (sh : list sym) (pk : package) : package :=
  (if internal then with_internal (delete n) else with_external (delete n)) (with_shadowings (λ _, sh) pk).

Lemma take_out_fields internal n sh pk :
  pack_uses (take_out internal n sh pk) = pack_uses pk ∧
  pack_usedby (take_out internal n sh pk) = pack_usedby pk ∧
  pack_shadowings (take_out internal n sh pk) = sh ∧
  (∀ m, m ≠ n → pack_external (take_out internal n sh pk) !! m = pack_external pk !! m ∧
                pack_internal (take_out internal n sh pk) !! m = pack_internal pk !! m) ∧
  (∀ s, pack_external (take_out internal n sh pk) !! n = Some s → pack_external pk !! n = Some s) ∧
  (∀ s, pres (take_out internal n sh pk) n s → pres pk n s).
Proof.
  unfold take_out, pres. destruct internal; simpl; split_and!; try done;
    try (by intros m Hm; rewrite lookup_delete_ne); intros t; rewrite lookup_delete_eq; naive_solver.
Qed.

Lemma take_out_none syms p pk (internal : bool) n sh s :
  pack_ok syms p pk → p ≠ keyword_package →
  (if internal then pack_internal pk !! n = Some s else pack_external pk !! n = Some s) →
  ∀ t, ¬ pres (take_out internal n sh pk) n t.
Proof.
  intros Hok Hp Hs t. unfold take_out, pres. destruct (po_disjoint _ _ _ Hok n Hp) as [E|E];
    destruct internal; simpl; rewrite lookup_delete_eq; intros [Ht|Ht]; congruence.
Qed.

Lemma take_out_inv st st' p pk (internal : bool) n sh s :
  pinv st → st_packages st !! p = Some pk → named (st_symbols st) s n →
  (if internal then pack_internal pk !! n = Some s else pack_external pk !! n = Some s) →
  s ∉ sh → (∀ t, t ≠ s → (t ∈ sh ↔ t ∈ pack_shadowings pk)) →
  (p ≠ keyword_package → s ∈ pack_shadowings pk →
     ∃ z, ∀ q t, q ∈ pack_uses pk → exported (st_packages st) q n t → t = z) →
  st_packages st' = <[p := take_out internal n sh pk]> (st_packages st) → st_list st' = st_list st →
  syms_ext (st_symbols st) (st_symbols st') → pinv st'.
Proof.
  intros Hi Hp Hn Hs Hsh Hsh' Hz Hps Hl Hext. pose proof (pi_ok _ Hi _ _ Hp) as Hok.
  destruct (take_out_fields internal n sh pk) as (Hu & Hb & Hsd & Hne & Hshrink & Hsub).
  assert (Hpr : pres pk n s) by (destruct internal; [by right|by left]).
  assert (Hsh1 : ∀ t, t ∈ sh → t ∈ pack_shadowings pk ∧ t ≠ s).
  { intros t Ht. assert (t ≠ s) by congruence. split; [by apply Hsh'|done]. }
  eapply (pinv_local st st' p pk _ n); try done.
  - eapply (pack_ok_change _ _ pk _ n); [by eapply pack_ok_ext|done|..].
    + intros t Ht%Hsub. by apply Hext, (po_named _ _ _ Hok).
    + intros Hk. destruct (po_disjoint _ _ _ Hok n Hk) as [E|E]; [left|right].
      * destruct (pack_external (take_out internal n sh pk) !! n) as [t|] eqn:E'; [|done].
        specialize (Hshrink t eq_refl). congruence.
      * unfold take_out. destruct internal; simpl; [apply lookup_delete_eq|done].
    + intros Hk t. rewrite Hsd. intros [Ht Hts]%Hsh1. left.
      destruct (shadow_at _ _ _ n _ Hok Hk Ht) as [?|Hprt]; [done|]. by destruct Hts; eapply pres_fun.
  - intros m Hm. unfold same_at. destruct (Hne m Hm) as [-> ->]. split_and!; [done..|]. intros t Ht Hts. rewrite Hsd.
    apply Hsh'; [|done]. intros ->. apply Hm. by eapply named_fun; [by eapply (po_named _ _ _ Hok)|].
  - intros Hk. rewrite Hps.
    assert (Hacc : ∀ t, acc (<[p := take_out internal n sh pk]> (st_packages st)) (take_out internal n sh pk) n t →
      ∃ q, q ∈ pack_uses pk ∧ exported (st_packages st) q n t).
    { intros t Ht%(acc_local _ _ pk); [|done..]. destruct Ht as [Ht|?]; [|done].
      by destruct (take_out_none _ _ _ internal n sh s Hok Hk Hs t). }
    destruct (decide (s ∈ pack_shadowings pk)) as [Hin|Hin].
    + destruct (Hz Hk Hin) as [z Hz']. apply (consistent_one _ _ _ z). intros t Ht%Hacc. naive_solver.
    + intros t1 t2 (q1 & ? & ?)%Hacc (q2 & ? & ?)%Hacc. left.
      destruct (pi_consistent _ Hi _ _ n Hp Hk t1 t2) as [?|(u & Hu1 & Hu2)]; [right; eauto..|done|].
      by rewrite (pres_fun _ _ _ _ _ _ Hok Hk Hpr Hu1) in Hin.
Qed.

(** ** A symbol placed in a package *)

(** Under [n], [s] and nothing else is present in [pk']. *)
Definition placed (pk' : package) (n : name) (s : sym) : Prop :=
  (pack_external pk' !! n = None ∧ pack_internal pk' !! n = Some s) ∨
  (pack_external pk' !! n = Some s ∧ pack_internal pk' !! n = None).

Lemma placed_pres pk' n s : placed pk' n s → pres pk' n s.
Proof. unfold placed, pres. naive_solver. Qed.
Lemma placed_eq pk' n s t : placed pk' n s → pres pk' n t → t = s.
Proof. unfold placed, pres. intros [[-> ->]|[-> ->]]; naive_solver. Qed.

(** One symbol more is accessible: it is all that is, or it was already, or it is
    shadowed. *)
Lemma one_more_consistent st ps' p pk pk' n s :
  pinv st → st_packages st !! p = Some pk → p ≠ keyword_package →
  (∀ t, acc ps' pk' n t → t = s ∨ acc (st_packages st) pk n t) →
  (∀ t, pres pk n t → pres pk' n t) → pack_shadowings pk' = pack_shadowings pk →
  no_conflict (st_packages st) p pk n s → consistent_at ps' pk' n.
Proof.
  intros Hi Hp Hk Hacc Hpr Hsh (x & f & Hf & Hx).
  destruct (decide (f = SYMBOL_IS_NEW)) as [->|Hnew].
  { inversion Hf as [| | |_ Hn]; subst. apply (consistent_one _ _ _ s). intros t [?|Ht]%Hacc; [done|].
    by destruct (Hn Hk t). }
  pose proof (found_acc _ _ _ _ _ _ Hf Hnew) as Hax. destruct Hx as [?|[->|Hx]]; [done|..].
  - eapply consistent_sub; [| |by eapply (pi_consistent _ Hi)].
    + intros t [->|?]%Hacc; done.
    + intros t Ht Hts. rewrite Hsh. auto.
  - eapply (consistent_shadow _ _ _ x); [|by rewrite Hsh]. apply Hpr.
    eapply shadow_pres; [by eapply (pi_ok _ Hi)|done..|]. by eapply acc_named.
Qed.

(** A user sees a new external symbol of [p]. *)
Lemma user_consistent st p pk pk' q qk n s :
  pinv st → st_packages st !! p = Some pk → st_packages st !! q = Some qk → q ≠ keyword_package →
  (∀ t, pack_external pk' !! n = Some t → t = s) →
  no_conflict (st_packages st) q qk n s →
  consistent_at (<[p := pk']> (st_packages st)) qk n.
Proof.
  intros Hi Hp Hq Hqk He Hc. eapply (one_more_consistent st _ q qk qk); try done.
  intros t [Ht|(u & Hu & uk & Huk & Ht)]; [right; by left|]. destruct (decide (p = u)) as [<-|Hpu].
  - rewrite lookup_insert_eq in Huk. injection Huk as <-. left. auto.
  - rewrite lookup_insert_ne in Huk by done. right. right. exists u. split; [done|by exists uk].
Qed.

Lemma place_inv st st' p pk pk' n s :
  pinv st → st_packages st !! p = Some pk →
  st_packages st' = <[p := pk']> (st_packages st) → st_list st' = st_list st →
  syms_ext (st_symbols st) (st_symbols st') → named (st_symbols st') s n →
  pack_uses pk' = pack_uses pk → pack_usedby pk' = pack_usedby pk →
  (∀ m, m ≠ n → pack_external pk' !! m = pack_external pk !! m ∧
                pack_internal pk' !! m = pack_internal pk !! m) →
  (∀ t, pres pk' n t → t = s ∨ pres pk n t) →
  (p ≠ keyword_package → placed pk' n s) →
  (∀ m t, m ≠ n → pres pk m t → t ∈ pack_shadowings pk → t ∈ pack_shadowings pk') →
  (p ≠ keyword_package → ∀ t, t ∈ pack_shadowings pk' → t = s ∨ ∃ m, m ≠ n ∧ pres pk m t) →
  (p ≠ keyword_package → s ∈ pack_shadowings pk' ∨ ∀ t, acc (st_packages st) pk n t → t = s) →
  (∀ t, pack_external pk' !! n = Some t → pack_external pk !! n = Some t) ∨
    (p ≠ keyword_package ∧ ∀ q qk, q ∈ pack_usedby pk → st_packages st !! q = Some qk →
       no_conflict (st_packages st) q qk n s) →
  pinv st'.
Proof.
  intros Hi Hp Hps Hl Hext Hn Hu Hb Hne Hpr Hpl Hsh Hsh' Hcp Husers. pose proof (pi_ok _ Hi _ _ Hp) as Hok.
  eapply (pinv_tables st st' p pk pk' n); try done.
  - eapply (pack_ok_change _ _ pk _ n); [by eapply pack_ok_ext|done|..].
    + intros t [->|Ht]%Hpr; [done|]. by apply Hext, (po_named _ _ _ Hok).
    + intros Hk. destruct (Hpl Hk) as [[? ?]|[? ?]]; auto.
    + intros Hk t [->|?]%(Hsh' Hk); [right; by apply placed_pres, Hpl|by left].
  - intros m Hm. unfold same_at. destruct (Hne m Hm) as [-> ->]. split_and!; eauto.
  - intros Hk. rewrite Hps. destruct (Hcp Hk) as [Hin|Hone].
    + eapply consistent_shadow; [|exact Hin]. by apply placed_pres, Hpl.
    + apply (consistent_one _ _ _ s). intros t [Ht|(q & Hq & qk & Hqk & Ht)].
      * by eapply placed_eq; [apply Hpl|].
      * destruct (decide (p = q)) as [<-|Hpq].
        -- rewrite lookup_insert_eq in Hqk. injection Hqk as <-. eapply placed_eq; [by apply Hpl|by left].
        -- rewrite lookup_insert_ne in Hqk by done. apply Hone. right. exists q. rewrite <- Hu. split; [done|by exists qk].
  - intros q qk Hqp Hqk Hq Hpu Hqb. rewrite Hps. destruct Husers as [Hsub|[Hk Hc]].
    + eapply consistent_sub; [|intros t ? ?; split; done|by eapply (pi_consistent _ Hi)].
      intros t [?|(u & Hu' & Ht)]; [by left|]. right. exists u. split; [done|].
      exact (exported_shrink _ _ _ _ _ _ _ Hp Hsub Ht).
    + eapply user_consistent; eauto. intros t Ht. eapply placed_eq; [by apply Hpl|by left].
Qed.
End with_core.
