(* ===== verification/PackOps.v ===== *)
(** * PackOps: the steps of the package system

    Every operation keeps the invariant of [PackSpecs], also when it ends in an
    error, as long as the handler of continuable errors keeps it and no name
    conflict of IMPORT is ignored.  Hence no state that the steps reach has a name
    conflict that is not shadowed. *)

From S2P Require Import Prelude Words Packages PackSpecs.
#[local] Open Scope Z_scope.

(** Continuing is sound for these errors. *)
Definition continuable (e : perror) : Prop :=
  match e with
  | closed_package _ | package_used_by _ _ | name_exists _ _ | no_package _ => True
  | _ => False
  end.

(** The handler may change the state as long as it keeps the invariant; the name of
    a symbol never changes. *)
Definition tame `{!Core, !Restarts} : Prop :=
  ∀ e st st', on_cerror e st = Some st' → pinv st →
  pinv st' ∧ continuable e ∧ syms_ext (st_symbols st) (st_symbols st').

Section with_core.
Context `{!Core, !Restarts} (fuel : nat).
Hypothesis Htame : tame.

Lemma keeps_cerror e st (Q : unit → pstate → Prop) :
  pinv st → (∀ st', pinv st' → continuable e → syms_ext (st_symbols st) (st_symbols st') → Q tt st') → keeps (mkcl_CEpackage_error e) st Q.
Proof.
  intros Hi HQ. unfold keeps, mkcl_CEpackage_error. destruct (on_cerror e st) as [st'|] eqn:E; [|done].
  destruct (Htame _ _ _ E Hi) as (? & ? & ?). auto.
Qed.

Lemma keeps_check_open p st (Q : unit → pstate → Prop) :
  pinv st → (∀ st', pinv st' → syms_ext (st_symbols st) (st_symbols st') → Q tt st') →
  keeps (check_open p) st Q.
Proof.
  intros Hi HQ. unfold check_open. apply keeps_bind, keeps_read_pack; [done|]. intros pk _.
  unfold pwhen. destruct (pack_closed pk); [|by apply HQ, syms_ext_refl]. apply keeps_cerror; auto.
Qed.

Lemma keeps_coerce d st (Q : pid → pstate → Prop) :
  pinv st → (∀ p, Q p st) → keeps (mk_si_coerce_to_package d) st Q.
Proof. intros Hi HQ. apply keeps_reads; auto with reads. Qed.

Lemma keeps_find n p pk st (Q : sym * intern_flag → pstate → Prop) :
  pinv st → st_packages st !! p = Some pk →
  (∀ x f, found (st_packages st) p pk n x f → Q (x, f) st) → keeps (mkcl_find_symbol_nolock n p) st Q.
Proof.
  intros Hi Hp HQ. destruct (find_symbol_spec st p pk n Hi Hp) as (x & f & E & Hf).
  unfold keeps. rewrite E. auto.
Qed.

(** The package is there when a search in it gave something. *)
Lemma keeps_find_any n p st (Q : sym * intern_flag → pstate → Prop) :
  pinv st → (∀ pk x f, st_packages st !! p = Some pk → found (st_packages st) p pk n x f → Q (x, f) st) →
  keeps (mkcl_find_symbol_nolock n p) st Q.
Proof.
  intros Hi HQ. destruct (st_packages st !! p) as [pk|] eqn:Hp.
  - by eapply keeps_find; eauto.
  - unfold keeps, mkcl_find_symbol_nolock, read_pack, mbind, PM_bind. by rewrite Hp.
Qed.

Ltac keep :=
  repeat first
    [ progress intros
    | apply keeps_bind
    | apply keeps_coerce; [done|]
    | apply keeps_check_open; [done|]
    | apply keeps_read_sym; [done|]
    | apply keeps_read_pack; [done|]
    | apply keeps_find_any; [done|] ].

Definition inv {A} : A → pstate → Prop := λ _, pinv.

(** ** INTERN *)

Lemma intern_new_done n p st : ∃ r st', intern_new n p st = PDone r st'.
Proof. unfold intern_new, mbind, PM_bind. simpl. destruct (p =? keyword_package); eauto. Qed.

Lemma intern_keeps dn dp st : pinv st → keeps (mkcl_intern fuel dn dp) st inv.
Proof.
  intros Hi. unfold mkcl_intern. apply keeps_bind, keeps_reads; [auto with reads|done|]. intros n _.
  apply keeps_bind, keeps_coerce; [done|]. intros p. revert st Hi.
  induction fuel as [|f IH]; intros st Hi; [done|]. cbn [mkcl_intern_loop].
  apply keeps_bind, keeps_find_any; [done|]. intros pk x fl Hp Hf. simpl. case_bool_decide; [subst|done].
  apply keeps_bind, keeps_read_pack; [done|]. intros pk' _. destruct (pack_closed pk').
  - apply keeps_bind, keeps_cerror; [done|]. auto.
  - destruct (intern_new_done n p st) as (r & st' & E). unfold keeps. rewrite E. by eapply intern_new_inv.
Qed.

(** ** UNINTERN *)

Lemma remove_eq_elem s l t : t ∈ remove_eq s l ↔ t ≠ s ∧ t ∈ l.
Proof. unfold remove_eq. by rewrite list_elem_of_filter. Qed.

Lemma keeps_upd_pack p f st (Q : unit → pstate → Prop) :
  Q tt (set_packages (alter f p) st) → keeps (upd_pack p f) st Q.
Proof. done. Qed.
Lemma keeps_upd_sym p f st (Q : unit → pstate → Prop) :
  Q tt (set_symbols (alter f p) st) → keeps (upd_sym p f) st Q.
Proof. done. Qed.

Lemma homeless_name p sy : psym_name (homeless_if p sy) = psym_name sy.
Proof. unfold homeless_if. by case_bool_decide. Qed.
Lemma home_name p sy : psym_name (home_if_homeless p sy) = psym_name sy.
Proof. unfold home_if_homeless. by case_bool_decide. Qed.

Lemma uses_exist st p pk q :
  pinv st → st_packages st !! p = Some pk → q ∈ pack_uses pk → is_Some (st_packages st !! q).
Proof. intros Hi Hp Hq. destruct (pi_uses _ Hi _ _ _ Hp Hq) as (_ & qk & ? & _). by exists qk. Qed.

Lemma unintern_keeps s dp st : pinv st → keeps (mkcl_unintern fuel s dp) st inv.
Proof.
  intros Hi. unfold mkcl_unintern. apply keeps_bind, keeps_read_sym; [done|]. intros sy Hsy.
  assert (Hn : named (st_symbols st) s (psym_name sy)) by (by exists sy). revert Hn. generalize (psym_name sy) as n.
  intros n Hn. apply keeps_bind, keeps_coerce; [done|]. intros p. clear sy Hsy. revert st Hi Hn.
  induction fuel as [|f IH]; intros st Hi Hn; [done|]. cbn [mkcl_unintern_loop].
  apply keeps_bind, keeps_read_pack; [done|]. intros pk Hp.
  set (internal := bool_decide (pack_internal pk !! n = Some s)).
  destruct (negb internal && _) eqn:Es; [done|].
  assert (Hs : if internal then pack_internal pk !! n = Some s else pack_external pk !! n = Some s).
  { unfold internal in *. case_bool_decide; [done|]. simpl in Es. by apply negb_false_iff, bool_decide_eq_true in Es. }
  destruct (pack_closed pk).
  { apply keeps_bind, keeps_cerror; [done|]. intros st' Hi' _ Hext. apply IH; [done|by apply Hext]. }
  apply keeps_bind. unfold pwhen. destruct (member_eq s (pack_shadowings pk)) eqn:Em.
  - apply bool_decide_eq_true in Em. apply keeps_bind, keeps_reads; [auto with reads|done|]. intros [] Ec.
    apply check_uncovered_spec in Ec as (z & Hz & _); [|by intros; eapply uses_exist].
    apply keeps_upd_pack, keeps_bind, keeps_upd_pack, keeps_bind, keeps_upd_sym, keeps_ret.
    apply (take_out_inv st _ p pk internal n (remove_eq s (pack_shadowings pk)) s); try done.
    + rewrite remove_eq_elem. naive_solver.
    + intros t Ht. rewrite remove_eq_elem. naive_solver.
    + intros _ _. exists z. eauto.
    + simpl. rewrite (alter_eq _ _ _ _ Hp). erewrite alter_eq by apply lookup_insert_eq.
      rewrite insert_insert_eq. by destruct internal.
    + apply syms_ext_alter, homeless_name.
  - apply bool_decide_eq_false in Em. apply keeps_ret, keeps_bind, keeps_upd_pack, keeps_bind, keeps_upd_sym, keeps_ret.
    apply (take_out_inv st _ p pk internal n (pack_shadowings pk) s); try done.
    + simpl. rewrite (alter_eq _ _ _ _ Hp). by destruct internal, pk.
    + apply syms_ext_alter, homeless_name.
Qed.

(** ** EXPORT and UNEXPORT *)

Lemma found_absent ps p pk n x f t :
  found ps p pk n x f → p ≠ keyword_package → f = SYMBOL_IS_INHERITED ∨ f = SYMBOL_IS_NEW → ¬ pres pk n t.
Proof.
  intros Hf Hp Hfl Ht. inversion Hf as [| |q s0 ? He Hin|He Hn]; subst; [naive_solver..| |].
  - unfold pres in Ht. rewrite He, Hin in Ht. naive_solver.
  - destruct (Hn Hp t). by left.
Qed.

Lemma found_present ps p pk n x f :
  found ps p pk n x f → f = SYMBOL_IS_INTERNAL ∨ f = SYMBOL_IS_EXTERNAL → pres pk n x.
Proof. destruct 1; intros [|]; try done; [by left|by right]. Qed.

(** What shadows under [n] can only be what is found there. *)
Lemma shadow_found syms ps p pk n x f t :
  pack_ok syms p pk → found ps p pk n x f → p ≠ keyword_package → t ∈ pack_shadowings pk →
  (t = x ∧ (f = SYMBOL_IS_INTERNAL ∨ f = SYMBOL_IS_EXTERNAL)) ∨ ∃ m, m ≠ n ∧ pres pk m t.
Proof.
  intros Hok Hf Hp Ht. destruct (shadow_at _ _ _ n _ Hok Hp Ht) as [?|Hpr]; [by right|]. left.
  destruct f; try (by destruct (found_absent _ _ _ _ _ _ _ Hf Hp ltac:(auto) Hpr));
    (split; [|by auto]); symmetry; (eapply pres_fun; [done..| |done]); eapply found_present; eauto.
Qed.

(** What is found shadows, or is all that is accessible. *)
Lemma found_consistent st p pk n s f :
  pinv st → st_packages st !! p = Some pk → p ≠ keyword_package →
  found (st_packages st) p pk n s f → f ≠ SYMBOL_IS_NEW →
  s ∈ pack_shadowings pk ∨ ∀ t, acc (st_packages st) pk n t → t = s.
Proof.
  intros Hi Hp Hk Hf Hn. destruct (decide (s ∈ pack_shadowings pk)) as [|Hs]; [by left|]. right. intros t Ht.
  destruct (pi_consistent _ Hi _ _ n Hp Hk t s Ht) as [?|(w & Hw & Hws)]; [by eapply found_acc|done|].
  destruct f; [done|..]; try (by destruct (found_absent _ _ _ _ _ _ _ Hf Hk ltac:(auto) Hw));
    destruct Hs; (replace s with w; [done|]);
    (eapply (pres_fun _ _ _ n); [exact (pi_ok _ Hi _ _ Hp)|done..|eapply found_present; eauto]).
Qed.

Lemma export_inv st p pk n s f :
  pinv st → st_packages st !! p = Some pk → named (st_symbols st) s n →
  found (st_packages st) p pk n s f → f = SYMBOL_IS_INTERNAL ∨ f = SYMBOL_IS_INHERITED →
  check_users s p n (pack_usedby pk) st = PDone tt st →
  let pk1 := if bool_decide (f = SYMBOL_IS_INTERNAL) then with_internal (delete n) pk else pk in
  pinv (set_packages <[p := with_external <[n := s]> pk1]> st).
Proof.
  intros Hi Hp Hn Hf Hfl Hc pk1.
  assert (Hk : p ≠ keyword_package) by (destruct Hfl as [-> | ->]; by inversion Hf).
  assert (Hin : pack_internal pk1 !! n = None).
  { unfold pk1. destruct Hfl as [-> | ->]; simpl; [apply lookup_delete_eq|by inversion Hf]. }
  assert (Hfields : pack_uses pk1 = pack_uses pk ∧ pack_usedby pk1 = pack_usedby pk ∧
    pack_shadowings pk1 = pack_shadowings pk ∧ pack_external pk1 = pack_external pk ∧
    ∀ m, m ≠ n → pack_internal pk1 !! m = pack_internal pk !! m).
  { unfold pk1. case_bool_decide; simpl; split_and!; try done. intros m Hm. by rewrite lookup_delete_ne. }
  destruct Hfields as (Hu & Hb & Hsh & He & Hne).
  assert (Hpl : placed (with_external <[n := s]> pk1) n s) by (right; simpl; by rewrite lookup_insert_eq).
  eapply (place_inv st _ p pk (with_external <[n := s]> pk1) n s); try done.
  - apply syms_ext_refl.
  - intros m Hm. simpl. rewrite lookup_insert_ne, He by done. auto.
  - intros t Ht. left. by eapply placed_eq.
  - intros m t _ _. simpl. by rewrite Hsh.
  - intros _ t. simpl. rewrite Hsh. intros Ht.
    destruct (shadow_found _ _ _ _ _ _ _ _ (pi_ok _ Hi _ _ Hp) Hf Hk Ht) as [[? _]|?]; auto.
  - intros _. simpl. rewrite Hsh. eapply found_consistent; eauto. by destruct Hfl as [-> | ->].
  - right. split; [done|]. intros q qk Hq Hqk. eapply check_users_spec; [done| |exact Hc|done|done].
    intros q' Hq'. destruct (pi_usedby _ Hi _ _ _ Hp Hq') as (? & ? & _). eauto.
Qed.

Lemma export_keeps s dp st : pinv st → keeps (mkcl_export2 s dp) st inv.
Proof.
  intros Hi. unfold mkcl_export2. apply keeps_bind, keeps_read_sym; [done|]. intros sy Hsy.
  assert (Hn : named (st_symbols st) s (psym_name sy)) by (by exists sy).
  apply keeps_bind, keeps_coerce; [done|]. intros p.
  apply keeps_bind, keeps_check_open; [done|]. clear Hi. intros st1 Hi Hext. apply Hext in Hn. clear Hext.
  apply keeps_bind, keeps_find_any; [done|]. intros pk x f Hp Hf.
  apply keeps_bind. unfold pwhen. case_bool_decide as Hnew.
  { apply keeps_cerror; [done|]. by intros st' _ []. }
  apply keeps_ret. destruct (Z.eqb_spec x s) as [->|Hx]; simpl; [|by apply keeps_err].
  case_bool_decide as Hfe; [done|]. apply keeps_bind, keeps_read_pack; [done|]. intros pk' Hp'. simplify_eq.
  apply keeps_bind, keeps_reads; [auto with reads|done|]. intros [] Hc.
  pose proof (export_inv _ _ _ _ _ _ Hi Hp Hn Hf ltac:(destruct f; auto; done) Hc) as Hinv.
  case_bool_decide; apply keeps_bind.
  - apply keeps_upd_pack, keeps_upd_pack. unfold inv. revert Hinv. unfold set_packages. simpl.
    rewrite (alter_eq _ _ _ _ Hp). erewrite alter_eq by apply lookup_insert_eq. by rewrite insert_insert_eq.
  - apply keeps_ret, keeps_upd_pack. unfold inv. revert Hinv. unfold set_packages. simpl. by rewrite (alter_eq _ _ _ _ Hp).
Qed.

Lemma unexport_keeps s dp st : pinv st → keeps (mkcl_unexport2 s dp) st inv.
Proof.
  intros Hi. unfold mkcl_unexport2. apply keeps_bind, keeps_read_sym; [done|]. intros sy Hsy.
  assert (Hn : named (st_symbols st) s (psym_name sy)) by (by exists sy). revert Hn. generalize (psym_name sy) as n.
  intros n Hn. apply keeps_bind, keeps_coerce; [done|]. intros p.
  apply keeps_bind. unfold pwhen. destruct (Z.eqb_spec p keyword_package) as [|Hk]; [by apply keeps_err|].
  apply keeps_ret, keeps_bind, keeps_check_open; [done|]. clear Hi. intros st1 Hi Hext. apply Hext in Hn. clear Hext.
  apply keeps_bind, keeps_find_any; [done|]. intros pk x f Hp Hf.
  destruct (_ || _) eqn:Ex; [by apply keeps_err|]. apply orb_false_iff in Ex as [_ Ex].
  apply negb_false_iff, Z.eqb_eq in Ex as ->. case_bool_decide as Hfe; [subst f; simpl|done].
  apply keeps_bind, keeps_upd_pack, keeps_upd_pack. unfold inv.
  set (pk' := with_internal <[n := s]> (with_external (delete n) pk)).
  assert (Hpl : placed pk' n s) by (left; simpl; by rewrite lookup_delete_eq, lookup_insert_eq).
  eapply (place_inv st1 _ p pk pk' n s); try done.
  - simpl. rewrite (alter_eq _ _ _ _ Hp). erewrite alter_eq by apply lookup_insert_eq. by rewrite insert_insert_eq.
  - apply syms_ext_refl.
  - intros m Hm. simpl. by rewrite lookup_delete_ne, lookup_insert_ne.
  - intros t Ht. left. by eapply placed_eq.
  - intros _ t Ht. destruct (shadow_found _ _ _ _ _ _ _ _ (pi_ok _ Hi _ _ Hp) Hf Hk Ht) as [[? _]|?]; auto.
  - intros _. exact (found_consistent _ _ _ _ _ _ Hi Hp Hk Hf ltac:(done)).
  - left. intros t. simpl. by rewrite lookup_delete_eq.
Qed.

(** ** IMPORT *)

(** [s] becomes an internal symbol where nothing of its name is present. *)
Lemma import_inv st st' p pk n s x f :
  pinv st → st_packages st !! p = Some pk → named (st_symbols st') s n →
  found (st_packages st) p pk n x f → f = SYMBOL_IS_NEW ∨ (f = SYMBOL_IS_INHERITED ∧ x = s) →
  st_packages st' = <[p := with_internal <[n := s]> pk]> (st_packages st) → st_list st' = st_list st →
  syms_ext (st_symbols st) (st_symbols st') → pinv st'.
Proof.
  intros Hi Hp Hn Hf Hfl Hps Hl Hext.
  assert (He : pack_external pk !! n = None) by (destruct Hfl as [->|[-> _]]; by inversion Hf).
  set (pk' := with_internal <[n := s]> pk).
  assert (Hpl : placed pk' n s) by (left; simpl; by rewrite lookup_insert_eq).
  eapply (place_inv st st' p pk pk' n s); try done.
  - intros m Hm. simpl. by rewrite lookup_insert_ne.
  - intros t Ht. left. by eapply placed_eq.
  - intros Hk t Ht. right. destruct (shadow_found _ _ _ _ _ _ _ _ (pi_ok _ Hi _ _ Hp) Hf Hk Ht) as [[_ [|]]|?]; [| |done];
      naive_solver.
  - intros Hk. destruct Hfl as [->|[-> ->]].
    + right. intros t Ht. inversion Hf as [| | |_ Hno]; subst. by destruct (Hno Hk t).
    + exact (found_consistent _ _ _ _ _ _ Hi Hp Hk Hf ltac:(done)).
  - by left.
Qed.

Lemma import_keeps s dp st : pinv st → keeps (mkcl_import2 s dp) st inv.
Proof.
  intros Hi. unfold mkcl_import2. apply keeps_bind, keeps_read_sym; [done|]. intros sy Hsy.
  assert (Hn : named (st_symbols st) s (psym_name sy)) by (by exists sy). revert Hn. generalize (psym_name sy) as n.
  intros n Hn. apply keeps_bind, keeps_coerce; [done|]. intros p.
  apply keeps_bind, keeps_check_open; [done|]. clear Hi. intros st1 Hi Hext. apply Hext in Hn. clear Hext.
  apply keeps_bind, keeps_find_any; [done|]. intros pk x f Hp Hf.
  assert (Hadd : f = SYMBOL_IS_NEW ∨ (f = SYMBOL_IS_INHERITED ∧ x = s) →
    keeps (upd_pack p (with_internal <[n := s]>);; set_symbol_home_if_homeless s p) st1 inv).
  { intros Hfl. apply keeps_bind, keeps_upd_pack, keeps_upd_sym. unfold inv.
    assert (syms_ext (st_symbols st1) (alter (home_if_homeless p) s (st_symbols st1)))
      by (apply syms_ext_alter, home_name).
    eapply (import_inv st1 _ p pk n s x f); auto. simpl. by rewrite (alter_eq _ _ _ _ Hp). }
  case_bool_decide as Hnew; [auto|]. apply keeps_bind. unfold pwhen.
  destruct (Z.eqb_spec x s) as [->|Hx]; simpl; [|apply keeps_cerror; [done|by intros ? _ []]].
  apply keeps_ret. case_bool_decide; [auto|done].
Qed.

(** ** SHADOWING-IMPORT and SHADOW *)

(** [s] is placed in [p], and it shadows, under [n]. *)
Lemma shadowing_inv st st' p pk pk' n s :
  pinv st → st_packages st !! p = Some pk → named (st_symbols st') s n →
  st_packages st' = <[p := pk']> (st_packages st) → st_list st' = st_list st →
  syms_ext (st_symbols st) (st_symbols st') →
  pack_uses pk' = pack_uses pk → pack_usedby pk' = pack_usedby pk →
  (∀ m, m ≠ n → pack_external pk' !! m = pack_external pk !! m ∧
                pack_internal pk' !! m = pack_internal pk !! m) →
  (∀ t, pres pk' n t → t = s ∨ pres pk n t) →
  (p ≠ keyword_package → placed pk' n s) →
  (∀ t, pack_external pk' !! n = Some t → pack_external pk !! n = Some t) →
  s ∈ pack_shadowings pk' →
  (∀ t, t ∈ pack_shadowings pk' → t = s ∨ t ∈ pack_shadowings pk) →
  (∀ t, t ∈ pack_shadowings pk → t ∈ pack_shadowings pk' ∨ pres pk n t) →
  (p ≠ keyword_package → ∀ t, t ∈ pack_shadowings pk' → pres pk n t → t = s) →
  pinv st'.
Proof.
  intros Hi Hp Hn Hps Hl Hext Hu Hb Hne Hpr Hpl He Hs Hsh1 Hsh2 Hsh3. pose proof (pi_ok _ Hi _ _ Hp) as Hok.
  eapply (place_inv st st' p pk pk' n s); try done; [..|by left].
  - intros m t Hm Hprm Ht. destruct (Hsh2 t Ht) as [?|Hprn]; [done|]. destruct Hm.
    eapply named_fun; by eapply (po_named _ _ _ Hok).
  - intros Hk t Ht. destruct (Hsh1 t Ht) as [?|Hts]; [by left|].
    destruct (shadow_at _ _ _ n _ Hok Hk Hts) as [?|Hprn]; [by right|]. left. eauto.
  - intros _. by left.
Qed.

Lemma found_placed st p pk n x f :
  pinv st → st_packages st !! p = Some pk → found (st_packages st) p pk n x f →
  f = SYMBOL_IS_INTERNAL ∨ f = SYMBOL_IS_EXTERNAL → p ≠ keyword_package → placed pk n x.
Proof.
  intros Hi Hp Hf Hfl Hk. destruct Hfl as [-> | ->]; inversion Hf as [? He|? _ He Hin| |]; subst; [by left|].
  right. split; [done|]. destruct (po_disjoint _ _ _ (pi_ok _ Hi _ _ Hp) n Hk); congruence.
Qed.

(** What is present shadows from now on. *)
Lemma shadow_present_inv st st' p pk n x f :
  pinv st → st_packages st !! p = Some pk → found (st_packages st) p pk n x f →
  f = SYMBOL_IS_INTERNAL ∨ f = SYMBOL_IS_EXTERNAL →
  st_packages st' = <[p := with_shadowings (cons x) pk]> (st_packages st) → st_list st' = st_list st →
  st_symbols st' = st_symbols st → pinv st'.
Proof.
  intros Hi Hp Hf Hfl Hps Hl Hsy. pose proof (found_present _ _ _ _ _ _ Hf Hfl) as Hpr.
  pose proof (pi_ok _ Hi _ _ Hp) as Hok.
  eapply (shadowing_inv st st' p pk _ n x); try done.
  - rewrite Hsy. by apply (po_named _ _ _ Hok).
  - rewrite Hsy. apply syms_ext_refl.
  - by right.
  - exact (found_placed _ _ _ _ _ _ Hi Hp Hf Hfl).
  - by left.
  - simpl. intros t. rewrite elem_of_cons. auto.
  - simpl. intros t Ht. left. by right.
  - intros Hk t _ Ht. exact (pres_fun _ _ _ _ _ _ Hok Hk Ht Hpr).
Qed.

(** [s] takes the place of [x], or an empty place. *)
Lemma shadow_new_inv st st' p pk pk1 n s x f (internal : bool) sh :
  pinv st → st_packages st !! p = Some pk → found (st_packages st) p pk n x f →
  ((f = SYMBOL_IS_INHERITED ∨ f = SYMBOL_IS_NEW) ∧ pk1 = pk) ∨
    (f = (if internal then SYMBOL_IS_INTERNAL else SYMBOL_IS_EXTERNAL) ∧ x ∉ sh ∧ x ≠ s ∧
    (∀ t, t ≠ x → (t ∈ sh ↔ t ∈ pack_shadowings pk)) ∧ pk1 = take_out internal n sh pk) →
  named (st_symbols st') s n →
  st_packages st' = <[p := with_internal <[n := s]> (with_shadowings (cons s) pk1)]> (st_packages st) →
  st_list st' = st_list st → syms_ext (st_symbols st) (st_symbols st') → pinv st'.
Proof.
  intros Hi Hp Hf Hcase Hn Hps Hl Hext. pose proof (pi_ok _ Hi _ _ Hp) as Hok.
  assert (Hpk1 : pack_uses pk1 = pack_uses pk ∧ pack_usedby pk1 = pack_usedby pk ∧
    (∀ m, m ≠ n → pack_external pk1 !! m = pack_external pk !! m ∧ pack_internal pk1 !! m = pack_internal pk !! m) ∧
    (∀ t, pack_external pk1 !! n = Some t → pack_external pk !! n = Some t) ∧
    (p ≠ keyword_package → pack_external pk1 !! n = None) ∧
    (∀ t, t ∈ pack_shadowings pk1 → t ∈ pack_shadowings pk) ∧
    (∀ t, t ∈ pack_shadowings pk → t ∈ pack_shadowings pk1 ∨ pres pk n t) ∧
    (p ≠ keyword_package → ∀ t, t ∈ pack_shadowings pk1 → ¬ pres pk n t)).
  { destruct Hcase as [[Hfl ->]|(-> & Hx & _ & Hsh & ->)].
    - split_and!; try done; auto.
      + intros Hk. destruct Hfl as [-> | ->]; by inversion Hf.
      + intros Hk t _ Ht. exact (found_absent _ _ _ _ _ _ _ Hf Hk Hfl Ht).
    - destruct (take_out_fields internal n sh pk) as (? & ? & -> & ? & ? & ?).
      assert (Hpr : pres pk n x) by (eapply found_present; [done|]; destruct internal; auto).
      assert (Hxs : ∀ t, t ∈ sh → t ≠ x) by congruence.
      split_and!; try done.
      + intros Hk. destruct internal; simpl; [by inversion Hf|apply lookup_delete_eq].
      + intros t Ht. apply Hsh; auto.
      + intros t Ht. destruct (decide (t = x)) as [->|Htx]; [by right|left; by apply Hsh].
      + intros Hk t Ht Hprt. apply (Hxs t Ht). exact (pres_fun _ _ _ _ _ _ Hok Hk Hprt Hpr). }
  destruct Hpk1 as (Hu & Hb & Hne & He & Hnone & Hsh1 & Hsh2 & Hsh3).
  eapply (shadowing_inv st st' p pk _ n s); try done.
  - intros m Hm. simpl. rewrite lookup_insert_ne by done. by apply Hne.
  - intros t [Ht|Ht]; simpl in Ht; [right; left; auto|]. rewrite lookup_insert_eq in Ht. left. congruence.
  - intros Hk. left. simpl. rewrite lookup_insert_eq. auto.
  - by left.
  - simpl. intros t [->|Ht]%elem_of_cons; auto.
  - simpl. intros t Ht. rewrite elem_of_cons. destruct (Hsh2 t Ht); auto.
  - simpl. intros Hk t [->|Ht]%elem_of_cons Hpr; [done|]. by destruct (Hsh3 Hk t Ht).
Qed.

Lemma alter_alter_eq (ps : gmap pid package) p f g pk :
  ps !! p = Some pk → alter f p (alter g p ps) = <[p := f (g pk)]> ps.
Proof.
  intros Hp. rewrite (alter_eq _ _ _ g Hp). erewrite alter_eq by apply lookup_insert_eq. apply insert_insert_eq.
Qed.

Lemma shadowing_import_keeps s dp st : pinv st → keeps (mkcl_shadowing_import s dp) st inv.
Proof.
  intros Hi. unfold mkcl_shadowing_import. apply keeps_bind, keeps_read_sym; [done|]. intros sy Hsy.
  assert (Hn : named (st_symbols st) s (psym_name sy)) by (by exists sy). revert Hn. generalize (psym_name sy) as n.
  intros n Hn. apply keeps_bind, keeps_coerce; [done|]. intros p.
  apply keeps_bind, keeps_check_open; [done|]. clear Hi. intros st1 Hi Hext. apply Hext in Hn. clear Hext.
  apply keeps_bind, keeps_find_any; [done|]. intros pk x f Hp Hf.
  apply keeps_bind, keeps_read_pack; [done|]. intros pk' Hp'. simplify_eq.
  assert (Hhome : ∀ syms, syms_ext syms (alter (home_if_homeless p) s syms))
    by (intros; apply syms_ext_alter, home_name).
  case_bool_decide as Hfl.
  - destruct (Z.eqb_spec x s) as [->|Hx].
    + unfold pwhen. destruct (negb _); [|done]. apply keeps_upd_pack. unfold inv.
      eapply (shadow_present_inv st1 _ p pk n s f); try done. simpl. by rewrite (alter_eq _ _ _ _ Hp).
    + set (internal := bool_decide (f = SYMBOL_IS_INTERNAL)).
      assert (Hf' : f = if internal then SYMBOL_IS_INTERNAL else SYMBOL_IS_EXTERNAL)
        by (unfold internal; case_bool_decide; naive_solver).
      assert (Hhs : ∀ syms, syms_ext syms (alter (home_if_homeless p) s (alter (homeless_if p) x syms))).
      { intros syms. eapply syms_ext_trans; [apply syms_ext_alter, homeless_name|apply Hhome]. }
      assert (Hrun : ∀ sh st2, x ∉ sh → (∀ t, t ≠ x → (t ∈ sh ↔ t ∈ pack_shadowings pk)) →
        st_packages st2 = <[p := with_shadowings (λ _, sh) pk]> (st_packages st1) →
        st_list st2 = st_list st1 → st_symbols st2 = st_symbols st1 →
        keeps (upd_pack p (if internal then with_internal (delete n) else with_external (delete n));;
               make_resident_symbol_homeless x p;;
               upd_pack p (with_shadowings (cons s));; upd_pack p (with_internal <[n := s]>);;
               set_symbol_home_if_homeless s p) st2 inv).
      { intros sh st2 Hxs Hsh Hps Hl Hsyms.
        apply keeps_bind, keeps_upd_pack, keeps_bind, keeps_upd_sym.
        apply keeps_bind, keeps_upd_pack, keeps_bind, keeps_upd_pack, keeps_upd_sym. unfold inv.
        eapply (shadow_new_inv st1 _ p pk _ n s x f internal sh); try done; [by right| | |]; simpl; rewrite ?Hsyms.
        - by apply Hhs.
        - rewrite Hps. rewrite (alter_eq (<[p:=_]> _) _ _ _ (lookup_insert_eq _ _ _)), insert_insert_eq.
          rewrite (alter_alter_eq _ _ _ _ _ (lookup_insert_eq _ _ _)), insert_insert_eq. by destruct internal.
        - apply Hhs. }
      apply keeps_bind. unfold pwhen. destruct (member_eq x (pack_shadowings pk)) eqn:Em.
      * apply keeps_upd_pack, (Hrun (remove_eq x (pack_shadowings pk))); try done.
        -- rewrite remove_eq_elem. naive_solver.
        -- intros t Ht. rewrite remove_eq_elem. naive_solver.
        -- simpl. by rewrite (alter_eq _ _ _ _ Hp).
      * apply bool_decide_eq_false in Em. apply keeps_ret, (Hrun (pack_shadowings pk)); try done.
        rewrite insert_id; [done|]. by destruct pk.
  - apply keeps_bind, keeps_upd_pack, keeps_bind, keeps_upd_pack, keeps_upd_sym. unfold inv.
    eapply (shadow_new_inv st1 _ p pk pk n s x f true []); try done; [left; split; [|done]|..].
    + destruct f; naive_solver.
    + by apply Hhome.
    + simpl. by rewrite (alter_alter_eq _ _ _ _ _ Hp).
Qed.

Lemma shadow_keeps ds dp st : pinv st → keeps (mkcl_shadow ds dp) st inv.
Proof.
  intros Hi. unfold mkcl_shadow. apply keeps_bind, keeps_reads; [auto with reads|done|]. intros n _.
  apply keeps_bind, keeps_coerce; [done|]. intros p.
  apply keeps_bind, keeps_check_open; [done|]. clear Hi. intros st1 Hi _.
  apply keeps_bind, keeps_find_any; [done|]. intros pk x f Hp Hf. cbn [fst snd].
  apply keeps_bind. case_bool_decide as Hfl.
  - apply keeps_ret, keeps_upd_pack. unfold inv.
    eapply (shadow_present_inv st1 _ p pk n x f); try done. simpl. by rewrite (alter_eq _ _ _ _ Hp).
  - unfold mk_cl_make_symbol. apply keeps_bind. unfold keeps at 1.
    apply keeps_bind, keeps_upd_pack, keeps_bind, keeps_upd_sym, keeps_ret, keeps_upd_pack. unfold inv.
    destruct (new_symbol_ext (st_symbols st1) n (Some p)) as [Hext Hnamed].
    eapply (shadow_new_inv st1 _ p pk pk n _ x f true []); try done; [left; split; [|done]|].
    + destruct f; naive_solver.
    + simpl. by rewrite (alter_alter_eq _ _ _ _ _ Hp).
Qed.

(** ** USE-PACKAGE and UNUSE-PACKAGE *)

(** [ps'] differs from [ps] in the lists of used and using packages. *)
Definition same_tables (ps ps' : gmap pid package) : Prop :=
  ∀ q, match ps !! q, ps' !! q with
       | Some qk, Some qk' => pack_external qk' = pack_external qk ∧ pack_internal qk' = pack_internal qk ∧
                              pack_shadowings qk' = pack_shadowings qk
       | None, None => True
       | _, _ => False
       end.

Lemma same_tables_alter ps p f :
  (∀ pk, pack_external (f pk) = pack_external pk ∧ pack_internal (f pk) = pack_internal pk ∧
         pack_shadowings (f pk) = pack_shadowings pk) →
  same_tables ps (alter f p ps).
Proof.
  intros Hf q. destruct (decide (p = q)) as [<-|Hpq].
  - rewrite lookup_alter_eq. destruct (ps !! p); simpl; [apply Hf|done].
  - rewrite lookup_alter_ne by done. by destruct (ps !! q).
Qed.

Lemma same_tables_trans ps1 ps2 ps3 : same_tables ps1 ps2 → same_tables ps2 ps3 → same_tables ps1 ps3.
Proof.
  intros H12 H23 q. specialize (H12 q). specialize (H23 q).
  destruct (ps1 !! q), (ps2 !! q), (ps3 !! q); try done.
  destruct H23 as (-> & -> & ->). done.
Qed.

Lemma same_tables_exported ps ps' q n s : same_tables ps ps' → exported ps' q n s ↔ exported ps q n s.
Proof.
  intros Hs. specialize (Hs q). unfold exported.
  destruct (ps !! q) as [qk|], (ps' !! q) as [qk'|]; try done.
  destruct Hs as (He & _). split; intros (? & [= <-] & ?); eexists; (split; [done|]); congruence.
Qed.

Lemma lists_inv st st' :
  pinv st → same_tables (st_packages st) (st_packages st') → st_symbols st' = st_symbols st →
  (∀ p, p ∈ st_list st' → p ∈ st_list st) →
  (∀ p pk pk', st_packages st !! p = Some pk → st_packages st' !! p = Some pk' → p ≠ keyword_package →
     (∀ q, q ∈ pack_uses pk' → q ∈ pack_uses pk) ∨ ∀ n, consistent_at (st_packages st') pk' n) →
  (∀ p pk q, st_packages st' !! p = Some pk → q ∈ pack_uses pk →
     q ≠ keyword_package ∧ ∃ qk, st_packages st' !! q = Some qk ∧ p ∈ pack_usedby qk) →
  (∀ q qk p, st_packages st' !! q = Some qk → p ∈ pack_usedby qk →
     ∃ pk, st_packages st' !! p = Some pk ∧ q ∈ pack_uses pk) →
  pinv st'.
Proof.
  intros Hi Hs Hsy Hl Hc Hu Hb.
  assert (Hold : ∀ p pk', st_packages st' !! p = Some pk' → ∃ pk, st_packages st !! p = Some pk ∧
    pack_external pk' = pack_external pk ∧ pack_internal pk' = pack_internal pk ∧
    pack_shadowings pk' = pack_shadowings pk).
  { intros p pk' Hp. specialize (Hs p). rewrite Hp in Hs. destruct (st_packages st !! p); [eauto|done]. }
  constructor; try done.
  - intros p pk' Hp. destruct (Hold _ _ Hp) as (pk & Hp0 & He & Hin & Hsh). rewrite Hsy.
    destruct (pi_ok _ Hi _ _ Hp0) as [H1 H2 H3].
    constructor; unfold pres in *; rewrite ?He, ?Hin, ?Hsh; auto.
  - intros p pk' n Hp Hk. destruct (Hold _ _ Hp) as (pk & Hp0 & He & Hin & Hsh).
    destruct (Hc _ _ _ Hp0 Hp Hk) as [Hsub|?]; [|done].
    eapply consistent_sub; [| |by eapply (pi_consistent _ Hi p pk)].
    + intros s [Hpr|(q & Hq & Hex)]; [left|right; exists q]; unfold pres in *.
      * by rewrite <- He, <- Hin.
      * split; [by apply Hsub|]. by rewrite <- same_tables_exported.
    + intros s Hpr Hss. unfold pres in *. by rewrite He, Hin, Hsh.
  - intros p Hp%Hl%(pi_list _ Hi). destruct Hp as [pk Hp]. specialize (Hs p). rewrite Hp in Hs.
    by destruct (st_packages st' !! p).
  - destruct (pi_keyword _ Hi) as [kk Hkk]. specialize (Hs keyword_package). rewrite Hkk in Hs.
    by destruct (st_packages st' !! keyword_package).
Qed.

Lemma alter2_lookup (ps : gmap pid package) x p f g q qk' :
  alter g x (alter f p ps) !! q = Some qk' ↔
  ∃ qk, ps !! q = Some qk ∧
        qk' = (if decide (x = q) then g else id) ((if decide (p = q) then f else id) qk).
Proof.
  destruct (decide (x = q)) as [<-|Hx]; [rewrite lookup_alter_eq|rewrite lookup_alter_ne by done];
    (destruct (decide (p = _)) as [<-|Hp]; [rewrite lookup_alter_eq|rewrite lookup_alter_ne by done]);
    destruct (ps !! _); simpl; naive_solver.
Qed.

(** A relation of use that changes: [uses'] and [usedby'] are what it becomes. *)
Lemma use_lists_inv st st' x p (f g : list pid → list pid) :
  pinv st →
  st_packages st' = alter (with_usedby g) x (alter (with_uses f) p (st_packages st)) →
  st_symbols st' = st_symbols st → st_list st' = st_list st →
  (∀ pk q, st_packages st !! p = Some pk → q ∈ f (pack_uses pk) →
     (q ≠ x ∧ q ∈ pack_uses pk) ∨
     (q = x ∧ x ≠ keyword_package ∧ is_Some (st_packages st !! x) ∧ ∀ l, p ∈ g l)) →
  (∀ xk q, st_packages st !! x = Some xk → q ∈ g (pack_usedby xk) →
     (q ≠ p ∧ q ∈ pack_usedby xk) ∨ (q = p ∧ is_Some (st_packages st !! p) ∧ ∀ l, x ∈ f l)) →
  (∀ l q, q ≠ x → q ∈ l → q ∈ f l) → (∀ l q, q ≠ p → q ∈ l → q ∈ g l) →
  (∀ pk, st_packages st !! p = Some pk → p ≠ keyword_package →
     (∀ q, q ∈ f (pack_uses pk) → q ∈ pack_uses pk) ∨
     ∀ pk' n, st_packages st' !! p = Some pk' → consistent_at (st_packages st') pk' n) →
  pinv st'.
Proof.
  intros Hi Hps Hsy Hl Hf Hg Hf' Hg' Hc.
  assert (Hst : same_tables (st_packages st) (st_packages st')).
  { rewrite Hps. eapply same_tables_trans; by apply same_tables_alter. }
  apply (lists_inv st st'); try done; [by rewrite Hl|..].
  - intros q qk qk' Hq Hq' Hk. destruct (decide (p = q)) as [<-|Hpq].
    + destruct (Hc _ Hq Hk) as [Hsub|?]; [left|right; eauto]. intros u Hu. apply Hsub.
      rewrite Hps in Hq'. apply alter2_lookup in Hq' as (qk0 & ? & ->). simplify_eq.
      rewrite (decide_True_pi (P := p = p) eq_refl) in Hu. by destruct (decide (x = p)).
    + left. intros u Hu. rewrite Hps in Hq'. apply alter2_lookup in Hq' as (qk0 & ? & ->). simplify_eq.
      rewrite (decide_False (P := p = q)) in Hu by done. by destruct (decide (x = q)).
  - intros q qk' u Hq Hu. rewrite Hps in Hq. apply alter2_lookup in Hq as (qk & Hq & ->).
    assert (Hcase : (u ≠ x ∨ q ≠ p) ∧ u ∈ pack_uses qk ∨
      (q = p ∧ u = x ∧ x ≠ keyword_package ∧ is_Some (st_packages st !! x) ∧ ∀ l, p ∈ g l)).
    { destruct (decide (p = q)) as [<-|Hpq].
      - destruct (Hf qk u Hq) as [[? ?]|(? & ? & ? & ?)]; [by destruct (decide (x = p))|left; auto|right; auto].
      - left. split; [auto|]. by destruct (decide (x = q)). }
    destruct Hcase as [[Hne Huq]|(-> & -> & Hk & [xk Hx] & Hgl)].
    + destruct (pi_uses _ Hi _ _ _ Hq Huq) as (Hk & uk & Huk & Hqu). split; [done|].
      rewrite Hps. eexists. split; [apply alter2_lookup; eauto|].
      destruct (decide (x = u)) as [<-|]; simpl; [|by destruct (decide (p = u))].
      assert (q ≠ p) by naive_solver. destruct (decide (p = x)); simpl; apply Hg'; done.
    + split; [done|]. rewrite Hps. eexists. split; [apply alter2_lookup; eauto|].
      rewrite (decide_True_pi (P := x = x) eq_refl). apply Hgl.
  - intros q qk' u Hq Hu. rewrite Hps in Hq. apply alter2_lookup in Hq as (qk & Hq & ->).
    assert (Hcase : (u ≠ p ∨ q ≠ x) ∧ u ∈ pack_usedby qk ∨
      (q = x ∧ u = p ∧ is_Some (st_packages st !! p) ∧ ∀ l, x ∈ f l)).
    { destruct (decide (x = q)) as [<-|Hxq]; simpl in Hu.
      - assert (Hb : pack_usedby ((if decide (p = x) then with_uses f else id) qk) = pack_usedby qk)
          by (by destruct (decide (p = x))).
        rewrite Hb in Hu. destruct (Hg qk u Hq Hu) as [[? ?]|(? & ? & ?)]; [left; auto|right; auto].
      - left. split; [auto|]. by destruct (decide (p = q)). }
    destruct Hcase as [[Hne Huq]|(-> & -> & [pk Hp] & Hfl)].
    + destruct (pi_usedby _ Hi _ _ _ Hq Huq) as (uk & Huk & Hqu).
      rewrite Hps. eexists. split; [apply alter2_lookup; eauto|].
      destruct (decide (p = u)) as [<-|]; [|by destruct (decide (x = u))].
      assert (q ≠ x) by naive_solver. destruct (decide (x = p)); simpl; apply Hf'; done.
    + rewrite Hps. eexists. split; [apply alter2_lookup; eauto|].
      rewrite (decide_True_pi (P := p = p) eq_refl). destruct (decide (x = p)); simpl; apply Hfl.
Qed.

Lemma use_inv st st' x p pk xk :
  pinv st → st_packages st !! p = Some pk → st_packages st !! x = Some xk →
  p ≠ x → x ≠ keyword_package → p ≠ keyword_package →
  (∀ n s, pack_external xk !! n = Some s → no_conflict (st_packages st) p pk n s) →
  st_packages st' = alter (with_usedby (cons p)) x (alter (with_uses (cons x)) p (st_packages st)) →
  st_symbols st' = st_symbols st → st_list st' = st_list st → pinv st'.
Proof.
  intros Hi Hp Hx Hpx Hxk Hpk Hnc Hps Hsy Hl.
  apply (use_lists_inv st st' x p (cons x) (cons p)); try done.
  - intros pk' q Hp' Hq. destruct (decide (q = x)) as [->|Hqx]; [right|left].
    + split_and!; [done|done|by exists xk|]. intros l. by left.
    + split; [done|]. by apply elem_of_cons in Hq as [?|?].
  - intros xk' q Hx' Hq. destruct (decide (q = p)) as [->|Hqp]; [right|left].
    + split_and!; [done|by exists pk|]. intros l. by left.
    + split; [done|]. by apply elem_of_cons in Hq as [?|?].
  - intros l q _ Hq. by right.
  - intros l q _ Hq. by right.
  - intros pk0 Hp0 _. assert (pk0 = pk) as -> by congruence. clear Hp0. right. intros pk' n Hp'.
    assert (Hst : same_tables (st_packages st) (st_packages st')).
    { rewrite Hps. eapply same_tables_trans; by apply same_tables_alter. }
    rewrite Hps in Hp'. apply alter2_lookup in Hp' as (pk0 & Hp0 & ->).
    assert (pk0 = pk) as -> by congruence. clear Hp0.
    rewrite (decide_True_pi (P := p = p) eq_refl), (decide_False (P := x = p)) by done. simpl.
    assert (Hacc : ∀ t, acc (st_packages st') (with_uses (cons x) pk) n t →
      pack_external xk !! n = Some t ∨ acc (st_packages st) pk n t).
    { intros t [Ht|(q & Hq & Ht)]; [right; by left|]. apply (same_tables_exported _ _ _ _ _ Hst) in Ht.
      simpl in Hq. apply elem_of_cons in Hq as [->|Hq]; [left|right; right; eauto].
      destruct Ht as (xk' & ? & ?). congruence. }
    destruct (pack_external xk !! n) as [s|] eqn:Es.
    + eapply (one_more_consistent st _ p pk _ n s); try done; [|by apply Hnc].
      intros t [[= ->]|?]%Hacc; auto.
    + apply (consistent_sub (st_packages st) _ pk); [|done|by apply (pi_consistent _ Hi p pk)].
      intros t [?|?]%Hacc; done.
Qed.

Lemma use_keeps dx dp st : pinv st → keeps (mkcl_use_package dx dp) st inv.
Proof.
  intros Hi. unfold mkcl_use_package. apply keeps_bind, keeps_coerce; [done|]. intros x.
  apply keeps_bind. unfold pwhen. destruct (Z.eqb_spec x keyword_package) as [|Hx]; [by apply keeps_err|].
  apply keeps_ret, keeps_bind, keeps_coerce; [done|]. intros p.
  apply keeps_bind, keeps_check_open; [done|]. clear Hi. intros st1 Hi _.
  apply keeps_bind. destruct (Z.eqb_spec p keyword_package) as [|Hp]; [by apply keeps_err|].
  apply keeps_ret. destruct (Z.eqb_spec p x) as [|Hpx]; [done|].
  apply keeps_bind, keeps_read_pack; [done|]. intros pk Hpk. destruct (member_eq x (pack_uses pk)); [done|].
  apply keeps_bind, keeps_read_pack; [done|]. intros xk Hxk.
  apply keeps_bind, keeps_reads; [auto with reads|done|]. intros [] Hc.
  apply keeps_bind, keeps_upd_pack, keeps_upd_pack. unfold inv.
  eapply (use_inv st1 _ x p pk xk); try done. intros n s Hs.
  eapply (check_use_spec x p pk _ st1 Hi Hpk Hc n); [by apply elem_of_map_to_list|].
  eapply (po_named _ _ _ (pi_ok _ Hi _ _ Hxk)). by left.
Qed.

Lemma unuse_keeps dx dp st : pinv st → keeps (mkcl_unuse_package dx dp) st inv.
Proof.
  intros Hi. unfold mkcl_unuse_package. apply keeps_bind, keeps_coerce; [done|]. intros x.
  apply keeps_bind, keeps_coerce; [done|]. intros p.
  apply keeps_bind, keeps_check_open; [done|]. clear Hi. intros st1 Hi _.
  apply keeps_bind, keeps_upd_pack, keeps_upd_pack. unfold inv.
  eapply (use_lists_inv st1 _ x p (remove_eq x) (remove_eq p)); try done;
    intros *; rewrite ?remove_eq_elem; try naive_solver.
  intros _ _. left. intros q. rewrite remove_eq_elem. naive_solver.
Qed.

(** ** The other operations *)

Lemma piter_keeps {A} (f : A → PM unit) l st :
  (∀ x st, pinv st → keeps (f x) st inv) → pinv st → keeps (piter f l) st inv.
Proof.
  intros Hf. revert st. induction l as [|x l IH]; intros st Hi; simpl; [done|].
  apply keeps_bind. eapply keeps_mono; [by apply Hf|]. intros u st' Hi'. by apply IH.
Qed.

(** A change of the name, the nicknames or the closing of a package. *)
Lemma rest_inv st p f :
  pinv st →
  (∀ pk, pack_external (f pk) = pack_external pk ∧ pack_internal (f pk) = pack_internal pk ∧
         pack_shadowings (f pk) = pack_shadowings pk) →
  (∀ pk, pack_uses (f pk) = pack_uses pk ∧ pack_usedby (f pk) = pack_usedby pk) →
  pinv (set_packages (alter f p) st).
Proof.
  intros Hi Hf Hg.
  assert (Hlook : ∀ q qk', alter f p (st_packages st) !! q = Some qk' → ∃ qk, st_packages st !! q = Some qk ∧
    pack_uses qk' = pack_uses qk ∧ pack_usedby qk' = pack_usedby qk).
  { intros q qk' Hq. destruct (decide (p = q)) as [<-|Hpq].
    - rewrite lookup_alter_eq in Hq. apply fmap_Some in Hq as (qk & ? & ->). exists qk. by destruct (Hg qk).
    - rewrite lookup_alter_ne in Hq by done. eauto. }
  assert (Hlook' : ∀ q qk, st_packages st !! q = Some qk → ∃ qk', alter f p (st_packages st) !! q = Some qk' ∧
    pack_uses qk' = pack_uses qk ∧ pack_usedby qk' = pack_usedby qk).
  { intros q qk Hq. destruct (decide (p = q)) as [<-|Hpq].
    - rewrite lookup_alter_eq, Hq. exists (f qk). by destruct (Hg qk).
    - rewrite lookup_alter_ne by done. eauto. }
  apply (lists_inv st); try done; simpl.
  - by apply same_tables_alter.
  - intros q qk qk' Hq Hq' _. left. intros u. destruct (Hlook _ _ Hq') as (qk0 & ? & -> & _). by simplify_eq.
  - intros q qk' u Hq Hu. destruct (Hlook _ _ Hq) as (qk & Hq0 & Hqu & _). rewrite Hqu in Hu.
    destruct (pi_uses _ Hi _ _ _ Hq0 Hu) as (? & uk & Huk & ?). split; [done|].
    destruct (Hlook' _ _ Huk) as (uk' & ? & _ & Hub). exists uk'. by rewrite Hub.
  - intros q qk' u Hq Hu. destruct (Hlook _ _ Hq) as (qk & Hq0 & _ & Hqb). rewrite Hqb in Hu.
    destruct (pi_usedby _ Hi _ _ _ Hq0 Hu) as (uk & Huk & ?).
    destruct (Hlook' _ _ Huk) as (uk' & ? & Huu & _). exists uk'. by rewrite Huu.
Qed.

Lemma set_list_inv st l : pinv st → (∀ p, p ∈ l → is_Some (st_packages st !! p)) → pinv (set_list l st).
Proof. intros [] Hl. by constructor. Qed.

Lemma delete_keeps dp st : pinv st → keeps (mk_cl_delete_package dp) st inv.
Proof.
  intros Hi. unfold mk_cl_delete_package. apply keeps_bind, keeps_reads; [auto with reads|done|].
  intros [p|] _; [|apply keeps_bind, keeps_cerror; [done|]; by intros st' ? _ _].
  apply keeps_bind, keeps_check_open; [done|]. clear Hi. intros st1 Hi _.
  apply keeps_bind. unfold pwhen. destruct (_ || _); [by apply keeps_err|]. apply keeps_ret.
  apply keeps_bind, keeps_read_pack; [done|]. intros pk Hp. destruct (pack_name pk); [|done].
  apply keeps_bind. eapply keeps_mono; [apply piter_keeps; [|done]; intros; by apply unuse_keeps|].
  clear Hi Hp. intros u st2 Hi. apply keeps_bind, keeps_read_pack; [done|]. intros pk2 _.
  apply keeps_bind. eapply (keeps_mono _ _ inv).
  - destruct (negb _); [|done]. apply keeps_bind, keeps_cerror; [done|]. intros st3 Hi3 _ _.
    apply piter_keeps; [|done]. intros; by apply unuse_keeps.
  - clear Hi. intros u3 st3 Hi. apply keeps_bind, keeps_reads; [auto with reads|done|]. intros st' [= <-].
    apply keeps_bind, keeps_modify, keeps_bind, keeps_upd_pack, keeps_ret.
    apply rest_inv; [|done|done]. apply set_list_inv; [done|]. intros q [_ Hq]%remove_eq_elem.
    by apply (pi_list _ Hi).
Qed.

Lemma rename_keeps dx dn nicks st : pinv st → keeps (mkcl_rename_package dx dn nicks) st inv.
Proof.
  intros Hi. unfold mkcl_rename_package. apply keeps_bind, keeps_reads; [auto with reads|done|]. intros n _.
  apply keeps_bind, keeps_coerce; [done|]. intros x.
  apply keeps_bind, keeps_check_open; [done|]. clear Hi. intros st1 Hi _.
  apply keeps_bind, keeps_reads; [auto with reads|done|]. intros y _. case_bool_decide; [|by apply keeps_err].
  apply keeps_bind, keeps_upd_pack, keeps_bind, keeps_upd_pack, keeps_bind.
  eapply keeps_mono; [apply piter_keeps|done].
  - intros d st2 Hi2. unfold add_nickname. apply keeps_bind, keeps_reads; [auto with reads|done|]. intros y' _.
    case_bool_decide; [done|]. apply keeps_bind, keeps_reads; [auto with reads|done|]. intros m _.
    apply keeps_upd_pack. by apply rest_inv.
  - apply rest_inv; [|done|done]. by apply rest_inv.
Qed.
End with_core.
