(* ===== verification/PackFacts.v ===== *)
(** * PackFacts: the states of the package system

    MAKE-PACKAGE, the functions on lists of symbols, and the steps that they all
    make.  The invariant holds in every state that the steps reach. *)

From S2P Require Import Prelude Words Packages PackSpecs PackOps.
#[local] Open Scope Z_scope.

Section with_core.
Context `{!Core, !Restarts} (fuel : nat).
Hypothesis Htame : tame.

(** ** MAKE-PACKAGE *)

Lemma alloc_inv st n :
  pinv st →
  pinv (set_packages <[first_free (st_packages st) := Package (Some n) [] [] [] [] ∅ ∅ false]> st).
Proof.
  intros Hi. set (x := first_free (st_packages st)). set (new := Package (Some n) [] [] [] [] ∅ ∅ false).
  assert (Hx : st_packages st !! x = None) by apply first_free_fresh.
  assert (Hex : ∀ q m s, exported (<[x := new]> (st_packages st)) q m s → exported (st_packages st) q m s).
  { intros q m s (qk & Hq & Hs). destruct (decide (x = q)) as [<-|Hxq].
    - rewrite lookup_insert_eq in Hq. by injection Hq as <-.
    - rewrite lookup_insert_ne in Hq by done. by exists qk. }
  assert (Hlook : ∀ q qk, st_packages st !! q = Some qk → <[x := new]> (st_packages st) !! q = Some qk).
  { intros q qk Hq. rewrite lookup_insert_ne; [done|congruence]. }
  assert (Hpres : ∀ m s, ¬ pres new m s) by (by intros m s [|]).
  constructor; simpl.
  - intros p pk. destruct (decide (x = p)) as [<-|Hxp].
    + rewrite lookup_insert_eq. intros [= <-].
      constructor; [by intros m s Hm; destruct (Hpres m s)|by left|by intros s _ ?%elem_of_nil].
    + rewrite lookup_insert_ne by done. apply (pi_ok _ Hi).
  - intros p pk m. destruct (decide (x = p)) as [<-|Hxp].
    + rewrite lookup_insert_eq. intros [= <-] _ s1 s2 [Hs|(q & ?%elem_of_nil & _)]; [by destruct (Hpres m s1)|done].
    + rewrite lookup_insert_ne by done. intros Hp Hk.
      eapply consistent_sub; [|intros s Hs Hss; exact (conj Hs Hss)|by eapply (pi_consistent _ Hi)].
      intros s [?|(q & ? & ?)]; [by left|right; exists q; auto].
  - intros p pk q. destruct (decide (x = p)) as [<-|Hxp].
    + rewrite lookup_insert_eq. by intros [= <-] ?%elem_of_nil.
    + rewrite lookup_insert_ne by done. intros Hp Hq.
      destruct (pi_uses _ Hi _ _ _ Hp Hq) as (? & qk & ? & ?). split; [done|]. exists qk. auto.
  - intros q qk p. destruct (decide (x = q)) as [<-|Hxq].
    + rewrite lookup_insert_eq. by intros [= <-] ?%elem_of_nil.
    + rewrite lookup_insert_ne by done. intros Hq Hp.
      destruct (pi_usedby _ Hi _ _ _ Hq Hp) as (pk & ? & ?). exists pk. auto.
  - intros p Hp%(pi_list _ Hi). destruct Hp as [pk Hp]. exists pk. auto.
  - destruct (pi_keyword _ Hi) as [kk Hk]. exists kk. auto.
Qed.

(** A new package with no symbols takes a package to use. *)
Lemma use_in_new_inv st x xk q :
  pinv st → st_packages st !! x = Some xk → (∀ n s, ¬ pres xk n s) → pack_uses xk = [] →
  x ≠ keyword_package → x ≠ q → q ≠ keyword_package → is_Some (st_packages st !! q) →
  pinv (set_packages (alter (with_usedby (cons x)) q) (set_packages (alter (with_uses (cons q)) x) st)).
Proof.
  intros Hi Hx Hno Hu Hxk Hxq Hqk [qk Hq].
  eapply (use_inv st _ q x xk qk); try done. intros n s _. exists sym_nil, SYMBOL_IS_NEW. split; [|by left].
  constructor.
  - destruct (pack_external xk !! n) as [t|] eqn:E; [|done]. by destruct (Hno n t); left.
  - intros _ t [Ht|(u & Hu' & _)]; [by eapply Hno|]. rewrite Hu in Hu'. by apply elem_of_nil in Hu'.
Qed.

(** At most one package, and not the KEYWORD package. *)
Definition one_use (st : pstate) (use_list : list designator) : Prop :=
  use_list = [] ∨ ∃ q, use_list = [DPackage q] ∧ q ≠ keyword_package ∧ is_Some (st_packages st !! q).

Lemma make_keeps d nicks use_list es isz st :
  pinv st → st_waiting st = [] → one_use st use_list →
  keeps (mkcl_make_sized_package d nicks use_list es isz) st inv.
Proof.
  intros Hi Hw Huse. unfold mkcl_make_sized_package.
  apply keeps_bind, keeps_reads; [auto with reads|done|]. intros n _.
  apply keeps_bind. apply (keeps_mono _ _ (λ _, pinv)).
  2: { intros [p|[o m]] st' Hi'; [done|]. apply keeps_bind, keeps_cerror; [done|done|]. by intros. }
  unfold make_package_body. apply keeps_bind, keeps_reads; [auto with reads|done|]. intros st0 [= <-].
  rewrite Hw. apply keeps_bind, keeps_ret, keeps_bind, keeps_bind, keeps_reads; [auto with reads|done|].
  intros [o|] _; [by apply keeps_ret, keeps_ret|].
  do 2 (apply keeps_bind, keeps_reads; [auto with reads|done|]; intros ? _).
  apply keeps_bind. unfold _mkcl_alloc_sized_package. unfold keeps at 1. apply keeps_ret.
  set (x := first_free (st_packages st)). pose proof (alloc_inv st n Hi) as Hi1. fold x in Hi1.
  set (st1 := set_packages _ st) in *.
  apply keeps_bind, keeps_reads; [auto with reads|done|]. intros [good|o] _; [|done].
  apply keeps_bind, keeps_upd_pack, keeps_bind.
  assert (Hi2 : pinv (set_packages (alter (with_nicknames good) x) st1)) by (by apply rest_inv).
  set (st2 := set_packages _ st1) in *.
  assert (Hx2 : st_packages st2 !! x = Some (Package (Some n) good [] [] [] ∅ ∅ false)).
  { unfold st2, st1. simpl. by rewrite lookup_alter_eq, lookup_insert_eq. }
  assert (Hlist : ∀ st3, pinv st3 → is_Some (st_packages st3 !! x) →
    keeps (st ← get_state; modify (set_list (x :: st_list st));; mret (inl x)) st3 (λ _ : pid + pid * name, pinv)).
  { intros st3 Hi3 Hx3. apply keeps_bind, keeps_reads; [auto with reads|done|]. intros st' [= <-].
    apply keeps_bind, keeps_modify, keeps_ret. apply set_list_inv; [done|].
    intros p [->|Hp]%elem_of_cons; [done|by apply (pi_list _ Hi3)]. }
  destruct Huse as [->|(q & -> & Hqk & [qk Hq])].
  - apply keeps_ret. apply Hlist; [done|by eexists].
  - assert (Hxq : x ≠ q) by (intros <-; unfold x in Hq; by rewrite first_free_fresh in Hq).
    assert (Hxk : x ≠ keyword_package).
    { intros Hxk. destruct (pi_keyword _ Hi) as [kk Hk]. rewrite <- Hxk in Hk. unfold x in Hk.
      by rewrite first_free_fresh in Hk. }
    simpl. apply keeps_bind, keeps_bind, keeps_ret, keeps_bind, keeps_upd_pack, keeps_upd_pack, keeps_ret.
    apply Hlist.
    + eapply (use_in_new_inv st2 x _ q); [done|exact Hx2|by intros m s [|]|done..|].
      exists qk. unfold st2, st1. simpl. by rewrite lookup_alter_ne, lookup_insert_ne.
    + change (is_Some (alter (with_usedby (cons x)) q (alter (with_uses (cons q)) x (st_packages st2)) !! x)).
      rewrite lookup_alter_ne, lookup_alter_eq, Hx2 by done. by eexists.
Qed.

(** ** Steps *)

Lemma package_arg_keeps dp st (Q : designator → pstate → Prop) :
  pinv st → (∀ d, Q d st) → keeps (package_arg dp) st Q.
Proof.
  intros Hi HQ. unfold package_arg. destruct dp as [d|]; [by apply keeps_ret|].
  unfold mkcl_current_package. apply keeps_bind, keeps_bind, keeps_reads; [auto with reads|done|]. intros st' [= <-].
  destruct (st_current st); [by apply keeps_ret, keeps_ret|]. apply keeps_bind, keeps_modify, keeps_err.
  destruct Hi. by constructor.
Qed.

Lemma for_symbols_keeps f symbols dp st :
  (∀ s d st, pinv st → keeps (f s d) st inv) → pinv st → keeps (for_symbols f symbols dp) st inv.
Proof.
  intros Hf Hi. unfold for_symbols. apply keeps_bind, package_arg_keeps; [done|]. intros d.
  destruct symbols as [s|l|]; [by apply Hf| |by apply keeps_err].
  apply keeps_bind, keeps_coerce; [done|]. intros p. apply piter_keeps; [|done]. auto.
Qed.

Lemma for_designators_keeps f ds dp st :
  (∀ s d st, pinv st → keeps (f s d) st inv) → pinv st → keeps (for_designators f ds dp) st inv.
Proof.
  intros Hf Hi. unfold for_designators. apply keeps_bind, package_arg_keeps; [done|]. intros d.
  destruct ds as [s|l]; [by apply Hf|].
  apply keeps_bind, keeps_coerce; [done|]. intros p. apply piter_keeps; [|done]. auto.
Qed.

(** The operations other than MAKE-PACKAGE. *)
Inductive operation : ∀ {A}, PM A → Prop :=
| op_intern d p : operation (mk_cl_intern fuel d p)
| op_find_symbol d p : operation (mk_cl_find_symbol d p)
| op_unintern s p : operation (mk_cl_unintern fuel s p)
| op_export l p : operation (mk_cl_export l p)
| op_unexport l p : operation (mk_cl_unexport l p)
| op_import l p : operation (mk_cl_import l p)
| op_shadowing_import l p : operation (mk_cl_shadowing_import l p)
| op_shadow l p : operation (mk_cl_shadow l p)
| op_use l p : operation (mk_cl_use_package l p)
| op_unuse l p : operation (mk_cl_unuse_package l p)
| op_delete p : operation (mk_cl_delete_package p)
| op_rename p n l : operation (mk_cl_rename_package p n l)
| op_select p : operation (mk_si_select_package p)
| op_close p : operation (mk_si_close_package p)
| op_reopen p : operation (mk_si_reopen_package p).

(** A computation ends in [st'], with a value or an error. *)
Definition ends {A} (m : PM A) (st st' : pstate) : Prop :=
  (∃ r, m st = PDone r st') ∨ ∃ e, m st = PFail e st'.

Inductive step (st st' : pstate) : Prop :=
| step_operation A (m : PM A) : operation m → ends m st st' → step st st'
| step_make d nicks use_list es isz :
    st_waiting st = [] → one_use st use_list →
    ends (mkcl_make_sized_package d nicks use_list es isz) st st' → step st st'.

Lemma keeps_ends {A} (m : PM A) st st' : keeps m st inv → ends m st st' → pinv st'.
Proof. unfold keeps, ends. intros Hk [[r E]|[e E]]; by rewrite E in Hk. Qed.

Lemma reads_keeps {A} (m : PM A) st : reads m → pinv st → keeps m st inv.
Proof. intros Hm Hi. by apply keeps_reads. Qed.

Lemma operation_keeps A (m : PM A) st : operation m → pinv st → keeps m st inv.
Proof.
  intros Hop Hi. destruct Hop;
    try (by (apply for_symbols_keeps; auto using export_keeps, unexport_keeps, import_keeps, shadowing_import_keeps));
    try (by (unfold mk_cl_shadow, mk_cl_use_package, mk_cl_unuse_package;
      repeat case_match; first
        [ apply for_designators_keeps; auto using shadow_keeps, use_keeps, unuse_keeps
        | apply keeps_bind, package_arg_keeps; [done|]; intros; by apply keeps_err ])).
  - apply keeps_bind, package_arg_keeps; [done|]. intros d'. by apply intern_keeps.
  - apply keeps_bind, package_arg_keeps; [done|]. intros d'. apply reads_keeps; [|done].
    unfold mkcl_find_symbol. reads_go.
  - apply keeps_bind, package_arg_keeps; [done|]. intros d'. by apply unintern_keeps.
  - by apply delete_keeps.
  - by apply rename_keeps.
  - apply keeps_bind, keeps_coerce; [done|]. intros q. apply keeps_bind, keeps_modify, keeps_ret.
    destruct Hi. by constructor.
  - apply keeps_bind, keeps_coerce; [done|]. intros q. apply keeps_bind, keeps_upd_pack, keeps_ret. by apply rest_inv.
  - apply keeps_bind, keeps_coerce; [done|]. intros q. apply keeps_bind, keeps_upd_pack, keeps_ret. by apply rest_inv.
Qed.

Lemma step_pinv st st' : step st st' → pinv st → pinv st'.
Proof.
  intros [A m Hop He|d nicks ul es isz Hw Hu He] Hi; (eapply keeps_ends; [|done]).
  - by apply operation_keeps.
  - by apply make_keeps.
Qed.
End with_core.

(** C2: No step of the package system, whether it ends in a value or in an error,
    brings a name conflict: in every state reached from one that satisfies the invariant,
    two symbols of one name that are accessible in a package other than KEYWORD are the
    same, or a present symbol of that name shadows them.  The steps are all the
    operations, but MAKE-PACKAGE only with at most one package to use
    ([make_package_makes_conflict] is what two can do) and while no package waits to be
    made; and handlers of errors keep the invariant and do not continue from the conflict
    of IMPORT ([tame]). *)
Theorem reachable_no_conflict `{!Core, !Restarts} fuel st st' p pk n :
  tame → pinv st → rtc (step fuel) st st' →
  st_packages st' !! p = Some pk → p ≠ keyword_package → consistent_at (st_packages st') pk n.
Proof.
  intros Ht Hi Hs Hp Hk. assert (Hi' : pinv st').
  { induction Hs as [|st st1 st' Hstep _ IH]; [done|]. apply IH; [|done]. by eapply step_pinv. }
  by apply (pi_consistent _ Hi' p).
Qed.

(** ** What the operations on packages do

    Round trips of INTERN, FIND-SYMBOL and UNINTERN; the names of packages; and the
    cases in which the code does not do what its messages and comments say. *)

Lemma pbind_Done {A B} (m : PM A) (k : A → PM B) st a st' :
  m st = PDone a st' → (m ≫= k) st = k a st'.
Proof. unfold mbind, PM_bind. by intros ->. Qed.
Lemma pbind_Fail {A B} (m : PM A) (k : A → PM B) st e st' :
  m st = PFail e st' → (m ≫= k) st = PFail e st'.
Proof. unfold mbind, PM_bind. by intros ->. Qed.

Section with_core.
Context `{!Core, !Restarts} (fuel : nat).

(** ** INTERN *)

Lemma intern_eq m n p st :
  mkcl_intern m (DString n) (DPackage p) st = mkcl_intern_loop m n p st.
Proof. done. Qed.
Lemma coerce_eq {A} p (k : pid → PM A) st : (mk_si_coerce_to_package (DPackage p) ≫= k) st = k p st.
Proof. done. Qed.

(** Where INTERN finds the symbol the next time. *)
Definition found_again (p : pid) (f : intern_flag) : intern_flag :=
  if bool_decide (f = SYMBOL_IS_NEW) then
    if p =? keyword_package then SYMBOL_IS_EXTERNAL else SYMBOL_IS_INTERNAL
  else f.

Lemma find_found st p pk n x f :
  pinv st → st_packages st !! p = Some pk → mkcl_find_symbol_nolock n p st = PDone (x, f) st →
  found (st_packages st) p pk n x f.
Proof.
  intros Hi Hp E. destruct (find_symbol_spec st p pk n Hi Hp) as (x' & f' & E' & Hf).
  rewrite E in E'. by injection E' as -> ->.
Qed.

Lemma intern_new_finds st p pk n :
  st_packages st !! p = Some pk → pack_external pk !! n = None →
  ∃ s st', intern_new n p st = PDone (s, SYMBOL_IS_NEW) st' ∧
    mkcl_find_symbol_nolock n p st' = PDone (s, found_again p SYMBOL_IS_NEW) st' ∧
    st_symbols st !! s = None ∧
    ∃ sy, st_symbols st' !! s = Some sy ∧ psym_name sy = n ∧ psym_hpack sy = Some p ∧
      (if p =? keyword_package then psym_constant sy = true ∧ psym_value sy = Some s
       else psym_constant sy = false ∧ psym_value sy = None).
Proof.
  intros Hp He. unfold intern_new, mbind, PM_bind. simpl. set (s := first_free (st_symbols st)).
  unfold found_again. rewrite bool_decide_true by done.
  assert (Hs : st_symbols st !! s = None) by apply first_free_fresh.
  destruct (p =? keyword_package) eqn:Ek; simpl; eexists _, _; (split; [reflexivity|]);
    (split; [|split; [done|]]).
  - unfold mkcl_find_symbol_nolock, read_pack, mbind at 1, PM_bind at 1. simpl.
    rewrite lookup_alter_eq, Hp. simpl. by rewrite lookup_insert_eq.
  - simpl. rewrite !lookup_alter_eq, lookup_insert_eq. by eexists.
  - unfold mkcl_find_symbol_nolock, read_pack, mbind at 1, PM_bind at 1. simpl.
    rewrite lookup_alter_eq, Hp. simpl. by rewrite He, Ek, lookup_insert_eq.
  - simpl. rewrite !lookup_alter_eq, lookup_insert_eq. by eexists.
Qed.

(** C7: INTERN in an open package returns; FIND-SYMBOL and INTERN give the same
    symbol from then on.  A symbol it makes is new, has the name and the package as
    its home, and in the KEYWORD package is external, constant and its own value. *)
Theorem intern_then_find st p pk n :
  pinv st → st_packages st !! p = Some pk → pack_closed pk = false → (0 < fuel)%nat →
  ∃ s f st', mkcl_intern fuel (DString n) (DPackage p) st = PDone (s, f) st' ∧
    mkcl_find_symbol (DString n) (DPackage p) st' = PDone (s, found_again p f) st' ∧
    mkcl_intern fuel (DString n) (DPackage p) st' = PDone (s, found_again p f) st' ∧
    if bool_decide (f = SYMBOL_IS_NEW) then
      st_symbols st !! s = None ∧
      ∃ sy, st_symbols st' !! s = Some sy ∧ psym_name sy = n ∧ psym_hpack sy = Some p ∧
        (if p =? keyword_package then psym_constant sy = true ∧ psym_value sy = Some s
         else psym_constant sy = false ∧ psym_value sy = None)
    else st' = st.
Proof.
  intros Hi Hp Hc Hf. destruct fuel as [|m]; [lia|].
  assert (Hin : ∀ st1 s f, mkcl_find_symbol_nolock n p st1 = PDone (s, f) st1 → f ≠ SYMBOL_IS_NEW →
    mkcl_intern (S m) (DString n) (DPackage p) st1 = PDone (s, f) st1).
  { intros st1 s f E Hn. rewrite intern_eq. cbn [mkcl_intern_loop]. rewrite (pbind_Done _ _ _ _ _ E).
    cbn [fst snd]. by rewrite bool_decide_eq_false_2. }
  assert (Hfs : ∀ st1 r, mkcl_find_symbol_nolock n p st1 = r → mkcl_find_symbol (DString n) (DPackage p) st1 = r)
    by done.
  destruct (find_symbol_spec st p pk n Hi Hp) as (s & f & E & Hfd). unfold found_again.
  destruct (decide (f = SYMBOL_IS_NEW)) as [->|Hn].
  - inversion Hfd as [| | |He _]; subst.
    destruct (intern_new_finds st p pk n Hp He) as (s & st' & Ei & Ef & Hs & Hsy).
    exists s, SYMBOL_IS_NEW, st'. rewrite bool_decide_true by done. split_and!.
    + rewrite intern_eq. cbn [mkcl_intern_loop]. rewrite (pbind_Done _ _ _ _ _ E).
      cbn [fst snd]. rewrite bool_decide_true by done. unfold read_pack, mbind at 1, PM_bind at 1.
      by rewrite Hp, Hc.
    + by apply Hfs.
    + apply Hin; [exact Ef|]. by destruct (p =? keyword_package).
    + done.
    + done.
  - exists s, f, st. rewrite bool_decide_eq_false_2 by done. auto.
Qed.

(** C17: INTERN of a new name in a closed package asks again each time the handler
    says to ignore the closing, as long as the package stays closed: it never
    proceeds, although its restart is named so. *)
Theorem intern_closed_asks_again st p pk n :
  pinv st → st_packages st !! p = Some pk → pack_closed pk = true →
  found (st_packages st) p pk n sym_nil SYMBOL_IS_NEW →
  match on_cerror (closed_package p) st with
  | Some st1 => st1 = st → mkcl_intern fuel (DString n) (DPackage p) st = PDiverge
  | None => (0 < fuel)%nat → mkcl_intern fuel (DString n) (DPackage p) st = PFail (closed_package p) st
  end.
Proof.
  intros Hi Hp Hc Hf.
  assert (E : mkcl_find_symbol_nolock n p st = PDone (sym_nil, SYMBOL_IS_NEW) st).
  { destruct (find_symbol_spec st p pk n Hi Hp) as (s & f & E & Hf'). rewrite E.
    inversion Hf as [| | |He Hno]; subst. inversion Hf'; subst; try congruence; destruct (Hno ltac:(done) s);
      [left; by right|right; eauto]. }
  assert (Hstep : ∀ m, mkcl_intern_loop (S m) n p st =
    (mkcl_CEpackage_error (closed_package p);; mkcl_intern_loop m n p) st).
  { intros m. cbn [mkcl_intern_loop]. rewrite (pbind_Done _ _ _ _ _ E). cbn [fst snd].
    rewrite bool_decide_true by done. unfold read_pack, mbind at 1, PM_bind at 1. by rewrite Hp, Hc. }
  rewrite intern_eq. destruct (on_cerror (closed_package p) st) as [st1|] eqn:Ec.
  - intros ->. induction fuel as [|m IH]; [done|]. rewrite Hstep.
    unfold mkcl_CEpackage_error, mbind, PM_bind in *. by rewrite Ec.
  - intros Hm. destruct fuel as [|m]; [lia|]. rewrite Hstep.
    unfold mkcl_CEpackage_error, mbind, PM_bind. by rewrite Ec.
Qed.

(** EXPORT of a symbol whose name is nowhere accessible always fails: when the
    restart that promises to import the symbol is taken, the symbol is not imported
    and the error is that there is already a symbol of that name. *)
Theorem export_not_accessible_fails s sy st p pk :
  pinv st → st_symbols st !! s = Some sy → s ≠ sym_nil →
  st_packages st !! p = Some pk → pack_closed pk = false →
  found (st_packages st) p pk (psym_name sy) sym_nil SYMBOL_IS_NEW →
  mkcl_export2 s (DPackage p) st =
  match on_cerror (not_accessible s p) st with
  | Some st1 => PFail (export_present s p) st1
  | None => PFail (not_accessible s p) st
  end.
Proof.
  intros Hi Hs Hnil Hp Hc Hf. unfold mkcl_export2, read_sym, mbind at 1, PM_bind at 1. rewrite Hs. cbv zeta.
  rewrite coerce_eq.
  assert (Ho : check_open p st = PDone tt st).
  { unfold check_open, read_pack, mbind, PM_bind. by rewrite Hp, Hc. }
  rewrite (pbind_Done _ _ _ _ _ Ho).
  assert (E : mkcl_find_symbol_nolock (psym_name sy) p st = PDone (sym_nil, SYMBOL_IS_NEW) st).
  { destruct (find_symbol_spec st p pk (psym_name sy) Hi Hp) as (x & f & E & Hf'). rewrite E.
    inversion Hf as [| | |He Hno]; subst. inversion Hf'; subst; try congruence; destruct (Hno ltac:(done) x);
      [left; by right|right; eauto]. }
  rewrite (pbind_Done _ _ _ _ _ E). unfold pwhen. cbv beta iota. rewrite (bool_decide_true (SYMBOL_IS_NEW = SYMBOL_IS_NEW)) by done.
  unfold mkcl_CEpackage_error, mbind, PM_bind. destruct (on_cerror (not_accessible s p) st); [|done].
  by rewrite (proj2 (Z.eqb_neq _ _) (not_eq_sym Hnil)).
Qed.

(** ** UNINTERN *)

(** UNINTERN of a present symbol from an open package where it does not shadow
    answers T and takes out that symbol only; it becomes homeless when the package
    was its home.  For a symbol that is not present it answers NIL and changes
    nothing. *)
Theorem unintern_removes s sy st p pk :
  pinv st → st_symbols st !! s = Some sy → st_packages st !! p = Some pk →
  pack_closed pk = false → p ≠ keyword_package → s ∉ pack_shadowings pk → (0 < fuel)%nat →
  (pres pk (psym_name sy) s →
   ∃ st' pk', mkcl_unintern fuel s (DPackage p) st = PDone true st' ∧ st_packages st' !! p = Some pk' ∧
     (∀ t, ¬ pres pk' (psym_name sy) t) ∧
     (∀ m t, m ≠ psym_name sy → (pres pk' m t ↔ pres pk m t)) ∧
     st_symbols st' !! s = Some (homeless_if p sy) ∧
     ∀ q, q ≠ p → st_packages st' !! q = st_packages st !! q) ∧
  (¬ pres pk (psym_name sy) s → mkcl_unintern fuel s (DPackage p) st = PDone false st).
Proof.
  intros Hi Hs Hp Hc Hk Hsh Hf. destruct fuel as [|m]; [lia|]. set (n := psym_name sy).
  set (internal := bool_decide (pack_internal pk !! n = Some s)).
  set (tbl := if internal then with_internal (delete n) else with_external (delete n)).
  assert (E : mkcl_unintern (S m) s (DPackage p) st =
    if negb internal && negb (bool_decide (pack_external pk !! n = Some s)) then PDone false st
    else PDone true (set_symbols (alter (homeless_if p) s) (set_packages (alter tbl p) st))).
  { unfold mkcl_unintern, read_sym, mbind at 1, PM_bind at 1. rewrite Hs.
    rewrite coerce_eq. cbn [mkcl_unintern_loop]. unfold read_pack, mbind at 1, PM_bind at 1. rewrite Hp. fold n internal.
    destruct (negb internal && _); [done|]. rewrite Hc. unfold member_eq.
    by rewrite bool_decide_eq_false_2. }
  split.
  - intros Hpr. assert (Hint : if internal then pack_internal pk !! n = Some s else pack_external pk !! n = Some s).
    { clear E. unfold internal. case_bool_decide; [done|]. destruct Hpr as [Hpr|Hpr]; [exact Hpr|congruence]. }
    assert (negb internal && negb (bool_decide (pack_external pk !! n = Some s)) = false) as Hb.
    { destruct internal; [done|]. by rewrite bool_decide_true. }
    rewrite E, Hb. eexists _, (take_out internal n (pack_shadowings pk) pk).
    destruct (take_out_fields internal n (pack_shadowings pk) pk) as (_ & _ & _ & Hne & _ & _).
    split_and!; [reflexivity|..].
    + simpl. rewrite lookup_alter_eq, Hp. unfold tbl. by destruct internal, pk.
    + by eapply take_out_none; [eapply (pi_ok _ Hi)|..].
    + intros m' t Hm. unfold pres. by destruct (Hne m' Hm) as [-> ->].
    + simpl. by rewrite lookup_alter_eq, Hs.
    + intros q Hq. simpl. by rewrite lookup_alter_ne.
  - intros Hpr. rewrite E. unfold internal.
    rewrite !bool_decide_eq_false_2; [done|..]; intros ?; apply Hpr; [by left|by right].
Qed.
End with_core.

(** ** The names of packages

    MAKE-PACKAGE keeps names and nicknames apart; RENAME-PACKAGE does not.
    MAKE-PACKAGE does not look for conflicts between the packages it uses. *)

(** The package [p] is called [n], by its name or a nickname. *)
Definition called (st : pstate) (p : pid) (n : name) : Prop :=
  ∃ pk, st_packages st !! p = Some pk ∧ has_name n pk = true.

(** No two packages of the list are called the same. *)
Definition names_unique (st : pstate) : Prop :=
  ∀ p q n, p ∈ st_list st → q ∈ st_list st → called st p n → called st q n → p = q.

Definition same_names (st st' : pstate) : Prop :=
  st_list st' = st_list st ∧ ∀ p n, called st' p n ↔ called st p n.

Lemma same_names_unique st st' : same_names st st' → names_unique st → names_unique st'.
Proof. intros [Hl Hc] Hu p q n. rewrite Hl, !Hc. apply Hu. Qed.



Section with_core.
Context `{!Core, !Restarts}.

Lemma member_string_E_spec x l : member_string_E x l = bool_decide (x ∈ l).
Proof.
  induction l as [|y l IH]; simpl; [done|]. destruct (bool_decide_reflect (x = y)) as [->|Hxy].
  - symmetry. apply bool_decide_eq_true. by left.
  - rewrite IH. apply bool_decide_ext. rewrite elem_of_cons. naive_solver.
Qed.

Lemma has_name_spec n pk : has_name n pk = true ↔ pack_name pk = Some n ∨ n ∈ pack_nicknames pk.
Proof. unfold has_name. by rewrite orb_true_iff, member_string_E_spec, !bool_decide_eq_true. Qed.








End with_core.

(** ** Concrete systems *)

(** COMMON-LISP is 1, KEYWORD 2, COMMON-LISP-USER 3, and NIL is the symbol 1. *)
#[export] Instance core_t : Core := {
  lisp_package := 1; keyword_package := 2; user_package := 3; sym_nil := 1 }.
(** A handler that never takes the CONTINUE restart. *)
#[export] Instance restarts_t : Restarts := { on_cerror _ _ := None }.

Lemma tame_t : tame.
Proof. by intros e st st'. Qed.

Definition plain_package (n : name) (ext int : gmap name sym) : package :=
  Package (Some n) [] [] [] [] int ext false.
Definition plain_symbol (n : name) (p : pid) : psymbol := PSymbol n (Some p) false None.

(** The packages "A" and "B" export the symbols 10 and 20, both named "X"; "C" is
    empty. *)
Definition nA : name := [65].
Definition nB : name := [66].
Definition nC : name := [67].
Definition nX : name := [88].
Definition two_packages : pstate :=
  PState
    (list_to_map [(1, plain_package [76] ∅ ∅); (2, plain_package [75] ∅ ∅);
                  (4, plain_package nA {[ nX := 10 ]} ∅); (5, plain_package nB {[ nX := 20 ]} ∅);
                  (6, plain_package nC ∅ ∅)])
    (list_to_map [(10, plain_symbol nX 4); (20, plain_symbol nX 5)])
    [4; 5; 6; 1; 2] [] (Some 3).

(** MAKE-PACKAGE with a use list of two packages that export different symbols
    of one name succeeds, and leaves a conflict that nothing shadows; USE-PACKAGE
    of the second package would have refused. *)
Theorem make_package_makes_conflict :
  (∃ st' pk, mkcl_make_package (DString [68]) [] [DPackage 4; DPackage 5] two_packages = PDone 7 st' ∧
     st_packages st' !! 7 = Some pk ∧ ¬ consistent_at (st_packages st') pk nX) ∧
  ∃ st' st'', mkcl_make_package (DString [68]) [] [DPackage 4] two_packages = PDone 7 st' ∧
     mkcl_use_package (DPackage 5) (DPackage 7) st' = PFail (use_conflict 5 7 20 10) st''.
Proof.
  split.
  - eexists _, _. split; [vm_compute; reflexivity|]. split; [vm_compute; reflexivity|].
    intros Hc. destruct (Hc 10 20) as [?|(s & Hs & Hin)]; [..|done|].
    + right. exists 4. split; [right; left|]. eexists. split; [vm_compute; reflexivity|vm_compute; reflexivity].
    + right. exists 5. split; [left|]. eexists. split; [vm_compute; reflexivity|vm_compute; reflexivity].
    + by apply elem_of_nil in Hin.
  - eexists _, _. split; vm_compute; reflexivity.
Qed.

Lemma two_packages_names : names_unique two_packages.
Proof.
  assert (Hname : ∀ p n, p ∈ [4; 5; 6; 1; 2] → called two_packages p n →
    n = nth (Z.to_nat p) [[]; [76]; [75]; []; nA; nB; nC] []).
  { intros p n Hp (pk & Hpk & Hn). rewrite !elem_of_cons, elem_of_nil in Hp.
    destruct Hp as [->|[->|[->|[->|[->|[]]]]]]; vm_compute in Hpk; injection Hpk as <-;
      apply has_name_spec in Hn as [[= <-]|?%elem_of_nil]; done. }
  intros p q n Hp Hq Hnp Hnq. pose proof (Hname p n Hp Hnp) as E. rewrite (Hname q n Hq Hnq) in E.
  simpl in Hp, Hq. rewrite !elem_of_cons, elem_of_nil in Hp, Hq.
  destruct Hp as [->|[->|[->|[->|[->|[]]]]]], Hq as [->|[->|[->|[->|[->|[]]]]]]; done.
Qed.

(** RENAME-PACKAGE accepts a nickname that another package has, although it
    refuses such a name: from then on two packages are called the same. *)
Theorem rename_package_shares_nickname :
  (∃ st', mkcl_rename_package (DPackage 6) (DString nC) [DString nA] two_packages = PDone 6 st' ∧
     ¬ names_unique st') ∧
  (∃ st', mkcl_rename_package (DPackage 6) (DString nA) [] two_packages = PFail (name_exists 6 nA) st') ∧
  names_unique two_packages.
Proof.
  assert (Hcalled : ∀ st p n pk, st_packages st !! p = Some pk → has_name n pk = true → called st p n)
    by (intros st p n pk ? ?; by exists pk).
  split_and!.
  - eexists. split; [vm_compute; reflexivity|]. intros Hu.
    assert (4 = 6); [|done]. apply (Hu 4 6 nA); [left|right; right; left|..];
      (eapply Hcalled; [vm_compute; reflexivity|reflexivity]).
  - eexists. vm_compute. reflexivity.
  - exact two_packages_names.
Qed.
