(* ===== verification/PackTables.v ===== *)
(** * PackTables: hash tables of packages refine finite maps

    [Packages] takes the tables of a package to be finite maps from names to
    symbols.  Here a hash table of package test represents such a map
    ([table_map]), and GETHASH, SETHASH and REMHASH with a string are lookup,
    insertion and deletion at its characters, in any heap and with any later
    strings.  A table of size 0, which MAKE-PACKAGE accepts, represents nothing. *)

From S2P Require Import Prelude Words Objects Heap Numbers Segments Equal Lists ListSearch Hash HashLaws.
From S2P Require Import HashTable HashMore HashSpecs HashUpdate HashRemove HashTests.
#[local] Open Scope Z_scope.

Section tables.
Context `{!GMP, !Memory, !Runtime, !RealArith, !HashEnv} (fuel : nat).

Definition is_string (h : heap) : obj → Prop := has_chars (outside_tables h).
Definition string_of (h : heap) : obj → list Z := chars_of (outside_tables h).
Definition same_string (h : heap) (x y : obj) : bool := bool_decide (string_of h x = string_of h y).
Definition string_hash (h : heap) (x : obj) : Z := HASH_XXXX_STRING_BODY (string_of h x) 0.

#[local] Abbreviation pwf h := (table_wf mkcl_htt_package (is_string h) (same_string h) (string_hash h)).

(** The value under a name. *)
Definition name_lookup (h : heap) (ns : list node) (n : list Z) : option obj :=
  n_val <$> List.find (λ e, bool_decide (n = string_of h (n_key e))) ns.

Definition table_map (h : heap) (ht : obj) (m : gmap (list Z) obj) : Prop :=
  ∃ a t bs fs, ht = OObj mkcl_t_hashtable a ∧ pwf h h a t bs fs ∧
    hash_entries t = Z.of_nat (size m) ∧ ∀ n, m !! n = name_lookup h (concat bs) n.

Lemma contents_name h ns k : contents (same_string h) ns k = name_lookup h ns (string_of h k).
Proof. done. Qed.

Lemma outside_mono h h' : kept h h' → outside_tables h ⊆ outside_tables h'.
Proof.
  intros Hk. apply map_subseteq_spec. unfold outside_tables. intros a c [Ha Hc]%map_lookup_filter_Some.
  apply map_lookup_filter_Some. split; [by apply Hk|done].
Qed.

Lemma string_mono h h' x : kept h h' → is_string h x → is_string h' x ∧ string_of h' x = string_of h x.
Proof.
  intros Hk%outside_mono [s E]. destruct (stable_read_string _ _ _ _ E) as [_ E'].
  specialize (E' _ Hk). split; [by exists s|]. unfold string_of, chars_of. by rewrite E, E'.
Qed.

(** The invariant of a table with the strings of a later heap. *)
Lemma pwf_later h h' a t bs fs :
  kept h h' → table_wf mkcl_htt_package (is_string h) (same_string h) (string_hash h) h' a t bs fs →
  pwf h' h' a t bs fs.
Proof.
  intros Hk Hw. pose proof (tw_uniq _ _ _ _ _ _ _ _ _ Hw) as Hu.
  assert (HK : ∀ n, n ∈ concat bs → is_string h (n_key n)).
  { intros n Hn. eapply uniq_K; [exact Hu|]. by apply list_elem_of_fmap_2. }
  destruct Hw as [T1 T2 T3 T4 T5 T6 T7 T8 Hpl _]. refine (Build_table_wf _ _ _ _ _ _ _ _ _ T1 T2 T3 T4 T5 T6 T7 T8 _ _).
  - intros i b n Hb Hn. destruct (Hpl i b n Hb Hn) as [Hh Hi]. split; [|done]. rewrite Hh.
    assert (Hin : n ∈ concat bs) by (apply concat_elem; eauto).
    destruct (string_mono h h' (n_key n) Hk (HK n Hin)) as [_ E]. unfold string_hash. by rewrite E.
  - clear -Hk Hu. induction (n_key <$> concat bs) as [|k ks IH]; [done|].
    destruct Hu as (HKk & Hf & Hu). destruct (string_mono h h' k Hk HKk) as [HK' E]. split_and!; [done| |auto].
    clear IH. induction ks as [|k' ks IH]; [constructor|]. apply Forall_cons in Hf as [Hk1 Hf].
    destruct Hu as (HKk' & Hf' & Hu). constructor; [|by apply IH].
    destruct (string_mono h h' k' Hk HKk') as [_ E']. unfold same_string in *. by rewrite E, E'.
Qed.

Lemma name_lookup_later h h' ns n :
  kept h h' → (∀ e, e ∈ ns → is_string h (n_key e)) → name_lookup h' ns n = name_lookup h ns n.
Proof.
  intros Hk. unfold name_lookup. induction ns as [|e ns IH]; intros HK; [done|]. simpl.
  destruct (string_mono h h' (n_key e) Hk) as [_ ->]; [apply HK; by left|].
  case_bool_decide; [done|]. apply IH. intros x Hx. apply HK. by right.
Qed.

Lemma name_lookup_some h ns n v :
  name_lookup h ns n = Some v → ∃ e, e ∈ ns ∧ string_of h (n_key e) = n.
Proof.
  unfold name_lookup. intros (e & He & _)%fmap_Some. apply List.find_some in He as [He Hn].
  exists e. split; [by apply list_elem_of_In|]. symmetry. by apply bool_decide_eq_true in Hn.
Qed.

(** From the keys that are strings of the heap to all names. *)
Lemma names_by_strings h bs bs' key (r : option obj) :
  uniq (is_string h) (same_string h) (n_key <$> concat bs) →
  uniq (is_string h) (same_string h) (n_key <$> concat bs') → is_string h key →
  (∀ k, is_string h k → contents (same_string h) (concat bs') k =
     if same_string h key k then r else contents (same_string h) (concat bs) k) →
  ∀ n, name_lookup h (concat bs') n = if bool_decide (string_of h key = n) then r else name_lookup h (concat bs) n.
Proof.
  intros Hu Hu' Hkey Hc n.
  assert (Hk : ∀ k, is_string h k → string_of h k = n → name_lookup h (concat bs') n =
    if bool_decide (string_of h key = n) then r else name_lookup h (concat bs) n) by (by intros k Hk <-; apply Hc).
  case_bool_decide as Hn; [by rewrite <- (Hk key Hkey Hn)|].
  destruct (name_lookup h (concat bs') n) as [v|] eqn:E'.
  - destruct (name_lookup_some _ _ _ _ E') as (e & He & Hen). rewrite <- (Hk (n_key e)); [done| |done].
    eapply uniq_K; [exact Hu'|]. by apply list_elem_of_fmap_2.
  - destruct (name_lookup h (concat bs) n) as [v|] eqn:E; [|done].
    destruct (name_lookup_some _ _ _ _ E) as (e & He & Hen). rewrite (Hk (n_key e)); [done| |done].
    eapply uniq_K; [exact Hu|]. by apply list_elem_of_fmap_2.
Qed.

Lemma table_map_fuel (h : heap) (a : Z) (t : hashtable) (bs : list (list node)) (fs : list Z) (m : gmap (list Z) obj) :
  pwf h h a t bs fs → hash_entries t = Z.of_nat (size m) → (size m < fuel)%nat → (length (concat bs) < fuel)%nat.
Proof. intros Hw Hn Hf. rewrite (tw_count _ _ _ _ _ _ _ _ _ Hw) in Hn. lia. Qed.

(** GETHASH with a string is lookup of its characters in the map of the table. *)
Theorem package_gethash_lookup h ht m k def :
  table_map h ht m → is_string h k → (size m < fuel)%nat →
  mkcl_gethash_safe fuel k ht def h = Done (default def (m !! string_of h k)) h.
Proof.
  intros (a & t & bs & fs & -> & Hw & Hn & Hm) Hk Hf. pose proof (table_map_fuel _ _ _ _ _ _ Hw Hn Hf) as Hf'.
  unfold mkcl_gethash_safe. rewrite (bind_Done _ _ h tt h) by done.
  rewrite (bind_Done _ _ _ _ _ (mkcl_search_hash_spec fuel mkcl_htt_package h _ _ _ _ _ _ _ _ _ Hw (kept_refl h) Hk Hf')).
  rewrite Hm. change (name_lookup h (concat bs) (string_of h k)) with (n_val <$> find_node (same_string h) (concat bs) k).
  destruct (find_node _ _ _) as [e|] eqn:E; simpl; [|done].
  assert (He : e ∈ concat bs) by (apply List.find_some in E as [? _]; by apply list_elem_of_In).
  destruct (table_node _ _ _ _ _ _ _ _ _ _ Hw He) as [q Hq].
  unfold entry_value, read_entry, mbind, M_bind. by rewrite Hq.
Qed.

(** The growth of a table of a package, by the factor 1.5. *)
Definition map_can_grow (h : heap) (ht : obj) : Prop :=
  ∀ a t, ht = OObj mkcl_t_hashtable a → h !! a = Some (CHash t) → can_grow h t.

(** C6: SETHASH with a string inserts in the map of the table. *)
Theorem package_sethash_inserts h ht m k v :
  table_map h ht m → is_string h k → map_can_grow h ht → (size m < fuel)%nat →
  ∃ h', mkcl_sethash fuel k ht v h = Done tt h' ∧ table_map h' ht (<[string_of h k := v]> m) ∧ kept h h'.
Proof.
  intros (a & t & bs & fs & -> & Hw & Hn & Hm) Hk Hg Hf. pose proof (table_map_fuel _ _ _ _ _ _ Hw Hn Hf) as Hf'.
  destruct (sethash_inserts fuel mkcl_htt_package h _ _ _ h a t bs fs k v Hw (kept_refl h)
    (Hg a t eq_refl (tw_head _ _ _ _ _ _ _ _ _ Hw)) Hk Hf')
    as (h' & t' & bs' & fs' & E & Hw' & Hkept & _ & Hn' & Hc).
  exists h'. split_and!; [done| |done]. exists a, t', bs', fs'. split_and!; [done|by eapply pwf_later|..].
  - rewrite Hn', Hn, contents_name. fold (string_of h k). rewrite <- Hm. destruct (m !! string_of h k) as [w|] eqn:Em.
    + rewrite map_size_insert_Some by done. lia.
    + rewrite map_size_insert_None by done. lia.
  - intros n. rewrite (name_lookup_later h h'); [|done|].
    2: { intros e He. eapply uniq_K; [exact (tw_uniq _ _ _ _ _ _ _ _ _ Hw')|by apply list_elem_of_fmap_2]. }
    rewrite (names_by_strings h bs bs' k (Some v)); [|apply Hw|apply Hw'|done|exact Hc].
    case_bool_decide as Hkn; [subst n; apply lookup_insert_eq|]. by rewrite lookup_insert_ne, Hm.
Qed.

(** REMHASH with a string deletes it from the map of the table, and answers
    whether it was there. *)
Theorem package_remhash_deletes h ht m k :
  table_map h ht m → is_string h k → (size m < fuel)%nat →
  ∃ h', mkcl_remhash fuel k ht h = Done (bool_decide (is_Some (m !! string_of h k))) h' ∧
    table_map h' ht (delete (string_of h k) m) ∧ kept h h'.
Proof.
  intros (a & t & bs & fs & -> & Hw & Hn & Hm) Hk Hf. pose proof (table_map_fuel _ _ _ _ _ _ Hw Hn Hf) as Hf'.
  destruct (remhash_deletes fuel mkcl_htt_package h _ _ _ h a t bs fs k Hw (kept_refl h) Hk Hf')
    as (h' & t' & bs' & fs' & E & Hw' & Hkept & _ & Hn' & _ & Hc).
  rewrite contents_name in E, Hn'. fold (string_of h k) in E, Hn'. rewrite <- Hm in E, Hn'.
  exists h'. split_and!; [|exists a, t', bs', fs'; split_and!; [done|by eapply pwf_later|..]|done].
  - rewrite E. by destruct (m !! string_of h k).
  - rewrite Hn', Hn, map_size_delete. destruct (m !! string_of h k) as [w|] eqn:Em; simpl; [|lia].
    assert (size m ≠ 0%nat) by (intros Hz%map_size_empty_iff; rewrite Hz in Em; done). lia.
  - intros n. rewrite (name_lookup_later h h'); [|done|].
    2: { intros e He. eapply uniq_K; [exact (tw_uniq _ _ _ _ _ _ _ _ _ Hw')|by apply list_elem_of_fmap_2]. }
    rewrite (names_by_strings h bs bs' k None); [|apply Hw|apply Hw'|done|exact Hc].
    case_bool_decide as Hkn; [subst n; apply lookup_delete_eq|]. by rewrite lookup_delete_ne, Hm.
Qed.

Lemma make_package_table hsize f g h :
  ∃ a d h1 h2, h1 = <[d := CChains (replicate (Z.to_nat hsize) None)]> h ∧
    h2 = <[a := CHash {| hash_test := mkcl_htt_package; hash_data := d; hash_entries := 0;
                         hash_size := hsize; hash_rehash_size := f; hash_threshold := g;
                         hash_factor_of_16th := 12; hash_free_bucket := None |}]> h1 ∧
    h !! d = None ∧ h1 !! a = None ∧
    mkcl_make_hashtable_for_package hsize f g h = Done (OObj mkcl_t_hashtable a) h2.
Proof.
  eexists _, _, _, _. split; [reflexivity|]. split; [reflexivity|].
  split; [apply first_free_fresh|]. split; [apply first_free_fresh|]. reflexivity.
Qed.

(** A new table for a package with a positive size represents the empty map. *)
Lemma package_table_empty hsize f g h :
  0 < hsize →
  ∃ ht h', mkcl_make_hashtable_for_package hsize f g h = Done ht h' ∧ table_map h' ht ∅ ∧ h ⊆ h'.
Proof.
  intros Hs. destruct (make_package_table hsize f g h) as (a & d & h1 & h2 & -> & -> & Hd & Ha & ->).
  assert (Had : a ≠ d) by (intros ->; by rewrite lookup_insert_eq in Ha).
  set (t := {| hash_test := mkcl_htt_package |}). eexists _, _. split; [reflexivity|]. split.
  - exists a, t, (replicate (Z.to_nat hsize) []), []. split; [done|].
    assert (Hnil : concat (replicate (Z.to_nat hsize) ([] : list node)) = [])
      by (generalize (Z.to_nat hsize) as n; by induction n).
    split_and!; [|by rewrite map_size_empty|intros n; by rewrite Hnil].
    constructor; simpl; try done.
    + by rewrite lookup_insert_eq.
    + exists (replicate (Z.to_nat hsize) None). rewrite lookup_insert_ne, lookup_insert_eq by done. split; [done|].
      apply Forall2_same_length_lookup. rewrite !length_replicate. split; [done|].
      intros j x y [-> _]%lookup_replicate [-> _]%lookup_replicate. done.
    + by rewrite length_replicate.
    + rewrite Hnil. constructor.
    + by rewrite Hnil.
    + intros i b n [-> _]%lookup_replicate Hn. by apply elem_of_nil in Hn.
    + by rewrite Hnil.
  - etrans; by apply insert_subseteq.
Qed.

(** The size 0, which MAKE-PACKAGE accepts, makes a table in which every search
    for a string divides by zero. *)
Theorem package_table_size_zero f g h :
  ∃ ht h', mkcl_make_hashtable_for_package 0 f g h = Done ht h' ∧
    ∀ k def, is_string h' k → mkcl_gethash_safe fuel k ht def h' = Fail Segfault h'.
Proof.
  destruct (make_package_table 0 f g h) as (a & d & h1 & h2 & -> & -> & Hd & Ha & ->).
  eexists _, _. split; [reflexivity|]. intros k def Hk.
  set (h' := <[a := _]> _) in *. pose proof (package_test fuel h') as Htest.
  unfold mkcl_gethash_safe. rewrite (bind_Done _ _ h' tt h') by done. apply bind_Fail.
  assert (Hread : ∃ t, read_hash (OObj mkcl_t_hashtable a) h' = Done t h' ∧ hash_size t = 0 ∧
    hash_test t = mkcl_htt_package).
  { unfold read_hash, h'. simpl. rewrite lookup_insert_eq. by eexists. }
  destruct Hread as (t & Hr & Hs & Ht). unfold mkcl_search_hash. rewrite (bind_Done _ _ _ _ _ Hr), Ht.
  rewrite (bind_Done _ _ _ _ _ (ts_hash h' k (kept_refl h') Hk)).
  unfold _search_hash. rewrite (bind_Done _ _ _ _ _ Hr). apply bind_Fail. unfold chain_index. by rewrite Hs.
Qed.
End tables.
