(* ===== verification/PackExamples.v ===== *)
(** * PackExamples: the theorems on packages at concrete systems *)

From S2P Require Import Prelude Words Objects Heap Numbers Segments Equal.
From S2P Require Import Lists ListSearch ListExamples Hash HashLaws HashTable HashMore HashSpecs HashTests HashExamples.
From S2P Require Import Packages PackSpecs PackOps PackFacts PackTables.
#[local] Open Scope Z_scope.

(** The packages of the example. *)
Lemma two_packages_cases p pk :
  st_packages two_packages !! p = Some pk →
  (p = 1 ∧ pk = plain_package [76] ∅ ∅) ∨ (p = 2 ∧ pk = plain_package [75] ∅ ∅) ∨
  (p = 4 ∧ pk = plain_package nA {[ nX := 10 ]} ∅) ∨
  (p = 5 ∧ pk = plain_package nB {[ nX := 20 ]} ∅) ∨ (p = 6 ∧ pk = plain_package nC ∅ ∅).
Proof.
  unfold two_packages. cbn [st_packages list_to_map foldr fst snd].
  rewrite !lookup_insert_Some, lookup_empty. naive_solver.
Qed.

Ltac by_cases := repeat match goal with
  | H : st_packages two_packages !! _ = Some _ |- _ =>
      apply two_packages_cases in H as [[-> ->]|[[-> ->]|[[-> ->]|[[-> ->]|[-> ->]]]]]
  end.

Lemma two_packages_pinv : pinv two_packages.
Proof.
  assert (Huses : ∀ p pk, st_packages two_packages !! p = Some pk → pack_uses pk = [] ∧ pack_usedby pk = [] ∧
    pack_shadowings pk = []) by (intros p pk Hp; by by_cases).
  assert (Hpres : ∀ p pk n s, st_packages two_packages !! p = Some pk → pres pk n s →
    n = nX ∧ pack_external pk = {[ nX := s ]} ∧ pack_internal pk = ∅ ∧ (s = 10 ∨ s = 20)).
  { intros p pk n s Hp [Hs|Hs]; by_cases; simpl in Hs;
      try (by rewrite lookup_empty in Hs); apply lookup_singleton_Some in Hs as [<- <-]; auto. }
  constructor.
  - intros p pk Hp. constructor.
    + intros n s Hs. destruct (Hpres _ _ _ _ Hp Hs) as (-> & _ & _ & [->| ->]); by eexists.
    + intros n _. destruct (pack_external pk !! n) as [s|] eqn:E; [|by left]. right.
      destruct (Hpres p pk n s Hp) as (_ & _ & -> & _); [by left|done].
    + intros s _. destruct (Huses _ _ Hp) as (_ & _ & ->). by intros ?%elem_of_nil.
  - intros p pk n Hp _ s1 s2 [H1|(q & Hq & _)] [H2|(q' & Hq' & _)];
      destruct (Huses _ _ Hp) as (Hu & _ & _); try (by rewrite Hu in *; set_solver).
    left. destruct (Hpres _ _ _ _ Hp H1) as (-> & E1 & _), (Hpres _ _ _ _ Hp H2) as (_ & E2 & _).
    rewrite E1 in E2. apply (f_equal (λ m, m !! nX)) in E2. rewrite !lookup_singleton_eq in E2. congruence.
  - intros p pk q Hp. destruct (Huses _ _ Hp) as (-> & _). by intros ?%elem_of_nil.
  - intros q qk p Hq. destruct (Huses _ _ Hq) as (_ & -> & _). by intros ?%elem_of_nil.
  - intros p. simpl. rewrite !elem_of_cons, elem_of_nil. intros [->|[->|[->|[->|[->|[]]]]]]; by eexists.
  - by eexists.
Qed.

Lemma not_found_spec p pk n :
  st_packages two_packages !! p = Some pk → pack_external pk !! n = None → pack_internal pk !! n = None →
  found (st_packages two_packages) p pk n sym_nil SYMBOL_IS_NEW.
Proof.
  intros Hp He Hn. constructor; [done|]. intros _ s [[?|?]|(q & Hq & _)]; [congruence..|].
  assert (pack_uses pk = []) as Hu by (by by_cases). rewrite Hu in Hq. by apply elem_of_nil in Hq.
Qed.

(** After "C" uses "A". *)
Definition used_packages : pstate :=
  match mkcl_use_package (DPackage 4) (DPackage 6) two_packages with
  | PDone _ st => st | _ => two_packages end.

Lemma used_lookup : ∃ pk, st_packages used_packages !! 6 = Some pk.
Proof. eexists. vm_compute. reflexivity. Defined.

Lemma used_reached : rtc (step 1) two_packages used_packages.
Proof.
  eapply rtc_l; [|apply rtc_refl].
  apply (step_operation _ _ _ _ (mk_cl_use_package (inl (DPackage 4)) (Some (DPackage 6)))).
  - constructor.
  - left. eexists. vm_compute. reflexivity.
Qed.

Lemma reachable_no_conflict_witness :
  ∃ pk, st_packages used_packages !! 6 = Some pk ∧ consistent_at (st_packages used_packages) pk nX.
Proof.
  destruct used_lookup as [pk Hpk]. exists pk. split; [exact Hpk|].
  apply (reachable_no_conflict 1 two_packages used_packages 6 pk nX);
    [exact tame_t|exact two_packages_pinv|exact used_reached|exact Hpk|simpl; lia].
Defined.

Lemma intern_then_find_witness :
  ∃ s f st', mkcl_intern 1 (DString nX) (DPackage 6) two_packages = PDone (s, f) st' ∧
    mkcl_find_symbol (DString nX) (DPackage 6) st' = PDone (s, found_again 6 f) st'.
Proof.
  destruct (intern_then_find 1 two_packages 6 (plain_package nC ∅ ∅) nX) as (s & f & st' & E & Ef & _);
    [exact two_packages_pinv|reflexivity|reflexivity|lia|]. by exists s, f, st'.
Defined.

(** "C" is closed. *)
Definition closed_packages : pstate := set_packages (alter (with_closed true) 6) two_packages.

Lemma closed_packages_pinv : pinv closed_packages.
Proof. apply rest_inv; [exact two_packages_pinv|done|done]. Qed.

(** A handler that takes the restart of every error, and nothing else. *)
Definition proceeds : Restarts := {| on_cerror := λ _ st, Some st |}.

Lemma intern_closed_asks_again_witness :
  mkcl_intern (H0 := proceeds) 1000 (DString nX) (DPackage 6) closed_packages = PDiverge.
Proof.
  refine (intern_closed_asks_again (H0 := proceeds) 1000 closed_packages 6
    (with_closed true (plain_package nC ∅ ∅)) nX _ _ _ _ eq_refl);
    [exact closed_packages_pinv|reflexivity|reflexivity|].
  constructor; [reflexivity|]. intros _ s [[|]|(q & ?%elem_of_nil & _)]; done.
Defined.

Lemma export_not_accessible_fails_witness :
  mkcl_export2 10 (DPackage 6) two_packages = PFail (not_accessible 10 6) two_packages.
Proof.
  refine (export_not_accessible_fails 10 (plain_symbol nX 4) two_packages 6 (plain_package nC ∅ ∅) _ _ _ _ _ _);
    [exact two_packages_pinv|reflexivity|done|reflexivity|reflexivity|].
  apply not_found_spec; reflexivity.
Defined.

Lemma unintern_removes_witness :
  ∃ st' pk', mkcl_unintern 1 10 (DPackage 4) two_packages = PDone true st' ∧ st_packages st' !! 4 = Some pk' ∧
    (∀ t, ¬ pres pk' nX t).
Proof.
  destruct (unintern_removes 1 10 (plain_symbol nX 4) two_packages 4 (plain_package nA {[ nX := 10 ]} ∅))
    as [Hpr _]; [exact two_packages_pinv|reflexivity|reflexivity|reflexivity|simpl; lia|apply not_elem_of_nil|lia|].
  destruct Hpr as (st' & pk' & ? & ? & ? & _); [left; reflexivity|]. by exists st', pk'.
Defined.


(** ** Tables of packages *)

(** A table of 129 chains in a heap with the string "X" at 7. *)
Definition string_heap : heap := {[ 7 := CStr nX ]}.
Definition table_result : obj * heap :=
  match mkcl_make_hashtable_for_package 129 (OFix 8) (OFix 1) string_heap with
  | Done ht h => (ht, h) | _ => (ONil, ∅) end.

Lemma table_result_map : table_map table_result.2 table_result.1 ∅.
Proof.
  destruct (package_table_empty 129 (OFix 8) (OFix 1) string_heap) as (ht & h & E & Hm & _); [lia|].
  unfold table_result. by rewrite E.
Qed.

Lemma string_7 : is_string table_result.2 (OString 7).
Proof. exists nX. vm_compute. reflexivity. Qed.

Lemma package_gethash_lookup_witness :
  mkcl_gethash_safe 1 (OString 7) table_result.1 ONil table_result.2 = Done ONil table_result.2.
Proof.
  refine (package_gethash_lookup 1 table_result.2 table_result.1 ∅ (OString 7) ONil _ _ _);
    [exact table_result_map|exact string_7|vm_compute; lia].
Defined.

Lemma package_sethash_inserts_witness :
  ∃ h', mkcl_sethash 1 (OString 7) table_result.1 (OFix 3) table_result.2 = Done tt h' ∧
        table_map h' table_result.1 (<[string_of table_result.2 (OString 7) := OFix 3]> ∅) ∧ kept table_result.2 h'.
Proof.
  apply (package_sethash_inserts 1 table_result.2 table_result.1 ∅ (OString 7) (OFix 3));
    [exact table_result_map|exact string_7| |vm_compute; lia].
  intros a t Ha Ht. vm_compute in Ha. injection Ha as <-. vm_compute in Ht. injection Ht as <-.
  apply (can_grow_fixnum _ _ 8); [done|lia|simpl; lia].
Defined.

Lemma package_remhash_deletes_witness :
  ∃ h', mkcl_remhash 1 (OString 7) table_result.1 table_result.2 = Done false h' ∧
        table_map h' table_result.1 (delete (string_of table_result.2 (OString 7)) ∅) ∧ kept table_result.2 h'.
Proof.
  refine (package_remhash_deletes 1 table_result.2 table_result.1 ∅ (OString 7) _ _ _);
    [exact table_result_map|exact string_7|vm_compute; lia].
Defined.
