(* ===== verification/UniTables.v ===== *)
(** * UniTables: the tables of src/src/c/unicode.c

    The classes of characters, the page of each block of 256 characters, and the
    pages, as they are in the source.  A class has the general category, the value as a
    decimal digit and the value as a digit, 255 for none.  An entry of a page has the
    number of the class of a character, and the character of the other case when the
    class is 0 or 1. *)

From S2P Require Import Prelude.
#[local] Open Scope Z_scope.

(** [enum mkcl_ucd_general_category], src/src/c/mkcl/mkcl-unicode.h *)
Inductive general_category : Set :=
| mkcl_ucd_Uppercase_Letter
| mkcl_ucd_Lowercase_Letter
| mkcl_ucd_Titlecase_Letter
| mkcl_ucd_Modified_Letter
| mkcl_ucd_Other_Letter
| mkcl_ucd_Control
| mkcl_ucd_Format
| mkcl_ucd_Private_Use
| mkcl_ucd_Surrogate
| mkcl_ucd_Spacing_Mark
| mkcl_ucd_Enclosing_Mark
| mkcl_ucd_Nonspacing_Mark
| mkcl_ucd_Decimal_Number
| mkcl_ucd_Letter_Number
| mkcl_ucd_Other_Number
| mkcl_ucd_Connector_Punctuation
| mkcl_ucd_Dash_Punctuation
| mkcl_ucd_Close_Punctuation
| mkcl_ucd_Final_Punctuation
| mkcl_ucd_Initial_Punctuation
| mkcl_ucd_Other_Punctuation
| mkcl_ucd_Open_Punctuation
| mkcl_ucd_Currency_Symbol
| mkcl_ucd_Modifier_Symbol
| mkcl_ucd_Math_Symbol
| mkcl_ucd_Other_Symbol
| mkcl_ucd_Line_Separator
| mkcl_ucd_Paragraph_Separator
| mkcl_ucd_Space_Separator.

(** [enum mkcl_ucd_bidi_class] *)
Inductive bidi_class : Set :=
| mkcl_ucd_bidi_Arabic_Letter
| mkcl_ucd_bidi_Arabic_Number
| mkcl_ucd_bidi_Paragraph_Separator
| mkcl_ucd_bidi_Boundary_Neutral
| mkcl_ucd_bidi_Common_Separator
| mkcl_ucd_bidi_European_Number
| mkcl_ucd_bidi_European_Separator
| mkcl_ucd_bidi_European_Terminator
| mkcl_ucd_bidi_Left_To_Right
| mkcl_ucd_bidi_Left_To_Right_Embedding
| mkcl_ucd_bidi_Left_To_Right_Override
| mkcl_ucd_bidi_Nonspacing_Mark
| mkcl_ucd_bidi_Other_Neutral
| mkcl_ucd_bidi_Pop_Directional_Format
| mkcl_ucd_bidi_Right_To_Left
| mkcl_ucd_bidi_Right_To_Left_Embedding
| mkcl_ucd_bidi_Right_To_Left_Override
| mkcl_ucd_bidi_Segment_Separator
| mkcl_ucd_bidi_White_Space.

#[export] Instance general_category_eq_dec : EqDecision general_category.
Proof. solve_decision. Defined.

(** [struct mkcl_unichar_properties_signature] *)
Record signature := Signature {
  sig_general_category : general_category;
  sig_bidi : bidi_class;
  sig_canonical_combining_class : Z;
  sig_decimal_digit : Z;
  sig_digit : Z;
  sig_bidi_mirrored : bool;
}.

(** [struct mkcl_unichar_info] *)
Record unichar := Unichar {
  properties_signature_index : Z;
  transform : Z;
}.

(** ** The tables *)

Definition properties_signatures : list signature := [
  Signature mkcl_ucd_Uppercase_Letter mkcl_ucd_bidi_Left_To_Right 0 255 255 false;
  Signature mkcl_ucd_Lowercase_Letter mkcl_ucd_bidi_Left_To_Right 0 255 255 false;
  Signature mkcl_ucd_Uppercase_Letter mkcl_ucd_bidi_Left_To_Right 0 255 255 false;
  Signature mkcl_ucd_Lowercase_Letter mkcl_ucd_bidi_Left_To_Right 0 255 255 false;
  Signature mkcl_ucd_Titlecase_Letter mkcl_ucd_bidi_Left_To_Right 0 255 255 false;
  Signature mkcl_ucd_Modified_Letter mkcl_ucd_bidi_Arabic_Letter 0 255 255 false;
  Signature mkcl_ucd_Modified_Letter mkcl_ucd_bidi_Left_To_Right 0 255 255 false;
  Signature mkcl_ucd_Modified_Letter mkcl_ucd_bidi_Other_Neutral 0 255 255 false;
  Signature mkcl_ucd_Modified_Letter mkcl_ucd_bidi_Right_To_Left 0 255 255 false;
  Signature mkcl_ucd_Other_Letter mkcl_ucd_bidi_Arabic_Letter 0 255 255 false;
  Signature mkcl_ucd_Other_Letter mkcl_ucd_bidi_Left_To_Right 0 255 255 false;
  Signature mkcl_ucd_Other_Letter mkcl_ucd_bidi_Right_To_Left 0 255 255 false;
  Signature mkcl_ucd_Control mkcl_ucd_bidi_Paragraph_Separator 0 255 255 false;
  Signature mkcl_ucd_Control mkcl_ucd_bidi_Boundary_Neutral 0 255 255 false;
  Signature mkcl_ucd_Control mkcl_ucd_bidi_Segment_Separator 0 255 255 false;
  Signature mkcl_ucd_Control mkcl_ucd_bidi_White_Space 0 255 255 false;
  Signature mkcl_ucd_Format mkcl_ucd_bidi_Arabic_Letter 0 255 255 false;
  Signature mkcl_ucd_Format mkcl_ucd_bidi_Arabic_Number 0 255 255 false;
  Signature mkcl_ucd_Format mkcl_ucd_bidi_Boundary_Neutral 0 255 255 false;
  Signature mkcl_ucd_Format mkcl_ucd_bidi_Left_To_Right 0 255 255 false;
  Signature mkcl_ucd_Format mkcl_ucd_bidi_Left_To_Right_Embedding 0 255 255 false;
  Signature mkcl_ucd_Format mkcl_ucd_bidi_Left_To_Right_Override 0 255 255 false;
  Signature mkcl_ucd_Format mkcl_ucd_bidi_Other_Neutral 0 255 255 false;
  Signature mkcl_ucd_Format mkcl_ucd_bidi_Pop_Directional_Format 0 255 255 false;
  Signature mkcl_ucd_Format mkcl_ucd_bidi_Right_To_Left 0 255 255 false;
  Signature mkcl_ucd_Format mkcl_ucd_bidi_Right_To_Left_Embedding 0 255 255 false;
  Signature mkcl_ucd_Format mkcl_ucd_bidi_Right_To_Left_Override 0 255 255 false;
  Signature mkcl_ucd_Private_Use mkcl_ucd_bidi_Left_To_Right 0 255 255 false;
  Signature mkcl_ucd_Surrogate mkcl_ucd_bidi_Left_To_Right 0 255 255 false;
  Signature mkcl_ucd_Spacing_Mark mkcl_ucd_bidi_Left_To_Right 0 255 255 false;
  Signature mkcl_ucd_Spacing_Mark mkcl_ucd_bidi_Left_To_Right 9 255 255 false;
  Signature mkcl_ucd_Spacing_Mark mkcl_ucd_bidi_Left_To_Right 216 255 255 false;
  Signature mkcl_ucd_Spacing_Mark mkcl_ucd_bidi_Left_To_Right 224 255 255 false;
  Signature mkcl_ucd_Spacing_Mark mkcl_ucd_bidi_Left_To_Right 226 255 255 false;
  Signature mkcl_ucd_Enclosing_Mark mkcl_ucd_bidi_Nonspacing_Mark 0 255 255 false;
  Signature mkcl_ucd_Nonspacing_Mark mkcl_ucd_bidi_Left_To_Right 0 255 255 false;
  Signature mkcl_ucd_Nonspacing_Mark mkcl_ucd_bidi_Nonspacing_Mark 0 255 255 false;
  Signature mkcl_ucd_Nonspacing_Mark mkcl_ucd_bidi_Nonspacing_Mark 1 255 255 false;
  Signature mkcl_ucd_Nonspacing_Mark mkcl_ucd_bidi_Nonspacing_Mark 7 255 255 false;
  Signature mkcl_ucd_Nonspacing_Mark mkcl_ucd_bidi_Nonspacing_Mark 8 255 255 false;
  Signature mkcl_ucd_Nonspacing_Mark mkcl_ucd_bidi_Nonspacing_Mark 9 255 255 false;
  Signature mkcl_ucd_Nonspacing_Mark mkcl_ucd_bidi_Nonspacing_Mark 10 255 255 false;
  Signature mkcl_ucd_Nonspacing_Mark mkcl_ucd_bidi_Nonspacing_Mark 11 255 255 false;
  Signature mkcl_ucd_Nonspacing_Mark mkcl_ucd_bidi_Nonspacing_Mark 12 255 255 false;
  Signature mkcl_ucd_Nonspacing_Mark mkcl_ucd_bidi_Nonspacing_Mark 13 255 255 false;
  Signature mkcl_ucd_Nonspacing_Mark mkcl_ucd_bidi_Nonspacing_Mark 14 255 255 false;
  Signature mkcl_ucd_Nonspacing_Mark mkcl_ucd_bidi_Nonspacing_Mark 15 255 255 false;
  Signature mkcl_ucd_Nonspacing_Mark mkcl_ucd_bidi_Nonspacing_Mark 16 255 255 false;
  Signature mkcl_ucd_Nonspacing_Mark mkcl_ucd_bidi_Nonspacing_Mark 17 255 255 false;
  Signature mkcl_ucd_Nonspacing_Mark mkcl_ucd_bidi_Nonspacing_Mark 18 255 255 false;
  Signature mkcl_ucd_Nonspacing_Mark mkcl_ucd_bidi_Nonspacing_Mark 19 255 255 false;
  Signature mkcl_ucd_Nonspacing_Mark mkcl_ucd_bidi_Nonspacing_Mark 20 255 255 false;
  Signature mkcl_ucd_Nonspacing_Mark mkcl_ucd_bidi_Nonspacing_Mark 21 255 255 false;
  Signature mkcl_ucd_Nonspacing_Mark mkcl_ucd_bidi_Nonspacing_Mark 22 255 255 false;
  Signature mkcl_ucd_Nonspacing_Mark mkcl_ucd_bidi_Nonspacing_Mark 23 255 255 false;
  Signature mkcl_ucd_Nonspacing_Mark mkcl_ucd_bidi_Nonspacing_Mark 24 255 255 false;
  Signature mkcl_ucd_Nonspacing_Mark mkcl_ucd_bidi_Nonspacing_Mark 25 255 255 false;
  Signature mkcl_ucd_Nonspacing_Mark mkcl_ucd_bidi_Nonspacing_Mark 26 255 255 false;
  Signature mkcl_ucd_Nonspacing_Mark mkcl_ucd_bidi_Nonspacing_Mark 27 255 255 false;
  Signature mkcl_ucd_Nonspacing_Mark mkcl_ucd_bidi_Nonspacing_Mark 28 255 255 false;
  Signature mkcl_ucd_Nonspacing_Mark mkcl_ucd_bidi_Nonspacing_Mark 29 255 255 false;
  Signature mkcl_ucd_Nonspacing_Mark mkcl_ucd_bidi_Nonspacing_Mark 30 255 255 false;
  Signature mkcl_ucd_Nonspacing_Mark mkcl_ucd_bidi_Nonspacing_Mark 31 255 255 false;
  Signature mkcl_ucd_Nonspacing_Mark mkcl_ucd_bidi_Nonspacing_Mark 32 255 255 false;
  Signature mkcl_ucd_Nonspacing_Mark mkcl_ucd_bidi_Nonspacing_Mark 33 255 255 false;
  Signature mkcl_ucd_Nonspacing_Mark mkcl_ucd_bidi_Nonspacing_Mark 34 255 255 false;
  Signature mkcl_ucd_Nonspacing_Mark mkcl_ucd_bidi_Nonspacing_Mark 35 255 255 false;
  Signature mkcl_ucd_Nonspacing_Mark mkcl_ucd_bidi_Nonspacing_Mark 36 255 255 false;
  Signature mkcl_ucd_Nonspacing_Mark mkcl_ucd_bidi_Nonspacing_Mark 84 255 255 false;
  Signature mkcl_ucd_Nonspacing_Mark mkcl_ucd_bidi_Nonspacing_Mark 91 255 255 false;
  Signature mkcl_ucd_Nonspacing_Mark mkcl_ucd_bidi_Nonspacing_Mark 103 255 255 false;
  Signature mkcl_ucd_Nonspacing_Mark mkcl_ucd_bidi_Nonspacing_Mark 107 255 255 false;
  Signature mkcl_ucd_Nonspacing_Mark mkcl_ucd_bidi_Nonspacing_Mark 118 255 255 false;
  Signature mkcl_ucd_Nonspacing_Mark mkcl_ucd_bidi_Nonspacing_Mark 122 255 255 false;
  Signature mkcl_ucd_Nonspacing_Mark mkcl_ucd_bidi_Nonspacing_Mark 129 255 255 false;
  Signature mkcl_ucd_Nonspacing_Mark mkcl_ucd_bidi_Nonspacing_Mark 130 255 255 false;
  Signature mkcl_ucd_Nonspacing_Mark mkcl_ucd_bidi_Nonspacing_Mark 132 255 255 false;
  Signature mkcl_ucd_Nonspacing_Mark mkcl_ucd_bidi_Nonspacing_Mark 202 255 255 false;
  Signature mkcl_ucd_Nonspacing_Mark mkcl_ucd_bidi_Nonspacing_Mark 214 255 255 false;
  Signature mkcl_ucd_Nonspacing_Mark mkcl_ucd_bidi_Nonspacing_Mark 216 255 255 false;
  Signature mkcl_ucd_Nonspacing_Mark mkcl_ucd_bidi_Nonspacing_Mark 218 255 255 false;
  Signature mkcl_ucd_Nonspacing_Mark mkcl_ucd_bidi_Nonspacing_Mark 220 255 255 false;
  Signature mkcl_ucd_Nonspacing_Mark mkcl_ucd_bidi_Nonspacing_Mark 222 255 255 false;
  Signature mkcl_ucd_Nonspacing_Mark mkcl_ucd_bidi_Nonspacing_Mark 228 255 255 false;
  Signature mkcl_ucd_Nonspacing_Mark mkcl_ucd_bidi_Nonspacing_Mark 230 255 255 false;
  Signature mkcl_ucd_Nonspacing_Mark mkcl_ucd_bidi_Nonspacing_Mark 232 255 255 false;
  Signature mkcl_ucd_Nonspacing_Mark mkcl_ucd_bidi_Nonspacing_Mark 233 255 255 false;
  Signature mkcl_ucd_Nonspacing_Mark mkcl_ucd_bidi_Nonspacing_Mark 234 255 255 false;
  Signature mkcl_ucd_Nonspacing_Mark mkcl_ucd_bidi_Nonspacing_Mark 240 255 255 false;
  Signature mkcl_ucd_Decimal_Number mkcl_ucd_bidi_Arabic_Number 0 0 0 false;
  Signature mkcl_ucd_Decimal_Number mkcl_ucd_bidi_Arabic_Number 0 1 1 false;
  Signature mkcl_ucd_Decimal_Number mkcl_ucd_bidi_Arabic_Number 0 2 2 false;
  Signature mkcl_ucd_Decimal_Number mkcl_ucd_bidi_Arabic_Number 0 3 3 false;
  Signature mkcl_ucd_Decimal_Number mkcl_ucd_bidi_Arabic_Number 0 4 4 false;
  Signature mkcl_ucd_Decimal_Number mkcl_ucd_bidi_Arabic_Number 0 5 5 false;
  Signature mkcl_ucd_Decimal_Number mkcl_ucd_bidi_Arabic_Number 0 6 6 false;
  Signature mkcl_ucd_Decimal_Number mkcl_ucd_bidi_Arabic_Number 0 7 7 false;
  Signature mkcl_ucd_Decimal_Number mkcl_ucd_bidi_Arabic_Number 0 8 8 false;
  Signature mkcl_ucd_Decimal_Number mkcl_ucd_bidi_Arabic_Number 0 9 9 false;
  Signature mkcl_ucd_Decimal_Number mkcl_ucd_bidi_European_Number 0 0 0 false;
  Signature mkcl_ucd_Decimal_Number mkcl_ucd_bidi_European_Number 0 1 1 false;
  Signature mkcl_ucd_Decimal_Number mkcl_ucd_bidi_European_Number 0 2 2 false;
  Signature mkcl_ucd_Decimal_Number mkcl_ucd_bidi_European_Number 0 3 3 false;
  Signature mkcl_ucd_Decimal_Number mkcl_ucd_bidi_European_Number 0 4 4 false;
  Signature mkcl_ucd_Decimal_Number mkcl_ucd_bidi_European_Number 0 5 5 false;
  Signature mkcl_ucd_Decimal_Number mkcl_ucd_bidi_European_Number 0 6 6 false;
  Signature mkcl_ucd_Decimal_Number mkcl_ucd_bidi_European_Number 0 7 7 false;
  Signature mkcl_ucd_Decimal_Number mkcl_ucd_bidi_European_Number 0 8 8 false;
  Signature mkcl_ucd_Decimal_Number mkcl_ucd_bidi_European_Number 0 9 9 false;
  Signature mkcl_ucd_Decimal_Number mkcl_ucd_bidi_Left_To_Right 0 0 0 false;
  Signature mkcl_ucd_Decimal_Number mkcl_ucd_bidi_Left_To_Right 0 1 1 false;
  Signature mkcl_ucd_Decimal_Number mkcl_ucd_bidi_Left_To_Right 0 2 2 false;
  Signature mkcl_ucd_Decimal_Number mkcl_ucd_bidi_Left_To_Right 0 3 3 false;
  Signature mkcl_ucd_Decimal_Number mkcl_ucd_bidi_Left_To_Right 0 4 4 false;
  Signature mkcl_ucd_Decimal_Number mkcl_ucd_bidi_Left_To_Right 0 5 5 false;
  Signature mkcl_ucd_Decimal_Number mkcl_ucd_bidi_Left_To_Right 0 6 6 false;
  Signature mkcl_ucd_Decimal_Number mkcl_ucd_bidi_Left_To_Right 0 7 7 false;
  Signature mkcl_ucd_Decimal_Number mkcl_ucd_bidi_Left_To_Right 0 8 8 false;
  Signature mkcl_ucd_Decimal_Number mkcl_ucd_bidi_Left_To_Right 0 9 9 false;
  Signature mkcl_ucd_Decimal_Number mkcl_ucd_bidi_Right_To_Left 0 0 0 false;
  Signature mkcl_ucd_Decimal_Number mkcl_ucd_bidi_Right_To_Left 0 1 1 false;
  Signature mkcl_ucd_Decimal_Number mkcl_ucd_bidi_Right_To_Left 0 2 2 false;
  Signature mkcl_ucd_Decimal_Number mkcl_ucd_bidi_Right_To_Left 0 3 3 false;
  Signature mkcl_ucd_Decimal_Number mkcl_ucd_bidi_Right_To_Left 0 4 4 false;
  Signature mkcl_ucd_Decimal_Number mkcl_ucd_bidi_Right_To_Left 0 5 5 false;
  Signature mkcl_ucd_Decimal_Number mkcl_ucd_bidi_Right_To_Left 0 6 6 false;
  Signature mkcl_ucd_Decimal_Number mkcl_ucd_bidi_Right_To_Left 0 7 7 false;
  Signature mkcl_ucd_Decimal_Number mkcl_ucd_bidi_Right_To_Left 0 8 8 false;
  Signature mkcl_ucd_Decimal_Number mkcl_ucd_bidi_Right_To_Left 0 9 9 false;
  Signature mkcl_ucd_Letter_Number mkcl_ucd_bidi_Left_To_Right 0 255 255 false;
  Signature mkcl_ucd_Letter_Number mkcl_ucd_bidi_Other_Neutral 0 255 255 false;
  Signature mkcl_ucd_Other_Number mkcl_ucd_bidi_Arabic_Number 0 255 255 false;
  Signature mkcl_ucd_Other_Number mkcl_ucd_bidi_Arabic_Number 0 255 1 false;
  Signature mkcl_ucd_Other_Number mkcl_ucd_bidi_Arabic_Number 0 255 2 false;
  Signature mkcl_ucd_Other_Number mkcl_ucd_bidi_Arabic_Number 0 255 3 false;
  Signature mkcl_ucd_Other_Number mkcl_ucd_bidi_Arabic_Number 0 255 4 false;
  Signature mkcl_ucd_Other_Number mkcl_ucd_bidi_Arabic_Number 0 255 5 false;
  Signature mkcl_ucd_Other_Number mkcl_ucd_bidi_Arabic_Number 0 255 6 false;
  Signature mkcl_ucd_Other_Number mkcl_ucd_bidi_Arabic_Number 0 255 7 false;
  Signature mkcl_ucd_Other_Number mkcl_ucd_bidi_Arabic_Number 0 255 8 false;
  Signature mkcl_ucd_Other_Number mkcl_ucd_bidi_Arabic_Number 0 255 9 false;
  Signature mkcl_ucd_Other_Number mkcl_ucd_bidi_European_Number 0 255 255 false;
  Signature mkcl_ucd_Other_Number mkcl_ucd_bidi_European_Number 0 255 0 false;
  Signature mkcl_ucd_Other_Number mkcl_ucd_bidi_European_Number 0 255 1 false;
  Signature mkcl_ucd_Other_Number mkcl_ucd_bidi_European_Number 0 255 2 false;
  Signature mkcl_ucd_Other_Number mkcl_ucd_bidi_European_Number 0 255 3 false;
  Signature mkcl_ucd_Other_Number mkcl_ucd_bidi_European_Number 0 255 4 false;
  Signature mkcl_ucd_Other_Number mkcl_ucd_bidi_European_Number 0 255 5 false;
  Signature mkcl_ucd_Other_Number mkcl_ucd_bidi_European_Number 0 255 6 false;
  Signature mkcl_ucd_Other_Number mkcl_ucd_bidi_European_Number 0 255 7 false;
  Signature mkcl_ucd_Other_Number mkcl_ucd_bidi_European_Number 0 255 8 false;
  Signature mkcl_ucd_Other_Number mkcl_ucd_bidi_European_Number 0 255 9 false;
  Signature mkcl_ucd_Other_Number mkcl_ucd_bidi_Left_To_Right 0 255 255 false;
  Signature mkcl_ucd_Other_Number mkcl_ucd_bidi_Left_To_Right 0 255 1 false;
  Signature mkcl_ucd_Other_Number mkcl_ucd_bidi_Left_To_Right 0 255 2 false;
  Signature mkcl_ucd_Other_Number mkcl_ucd_bidi_Left_To_Right 0 255 3 false;
  Signature mkcl_ucd_Other_Number mkcl_ucd_bidi_Left_To_Right 0 255 4 false;
  Signature mkcl_ucd_Other_Number mkcl_ucd_bidi_Left_To_Right 0 255 5 false;
  Signature mkcl_ucd_Other_Number mkcl_ucd_bidi_Left_To_Right 0 255 6 false;
  Signature mkcl_ucd_Other_Number mkcl_ucd_bidi_Left_To_Right 0 255 7 false;
  Signature mkcl_ucd_Other_Number mkcl_ucd_bidi_Left_To_Right 0 255 8 false;
  Signature mkcl_ucd_Other_Number mkcl_ucd_bidi_Left_To_Right 0 255 9 false;
  Signature mkcl_ucd_Other_Number mkcl_ucd_bidi_Other_Neutral 0 255 255 false;
  Signature mkcl_ucd_Other_Number mkcl_ucd_bidi_Other_Neutral 0 255 0 false;
  Signature mkcl_ucd_Other_Number mkcl_ucd_bidi_Other_Neutral 0 255 1 false;
  Signature mkcl_ucd_Other_Number mkcl_ucd_bidi_Other_Neutral 0 255 2 false;
  Signature mkcl_ucd_Other_Number mkcl_ucd_bidi_Other_Neutral 0 255 3 false;
  Signature mkcl_ucd_Other_Number mkcl_ucd_bidi_Other_Neutral 0 255 4 false;
  Signature mkcl_ucd_Other_Number mkcl_ucd_bidi_Other_Neutral 0 255 5 false;
  Signature mkcl_ucd_Other_Number mkcl_ucd_bidi_Other_Neutral 0 255 6 false;
  Signature mkcl_ucd_Other_Number mkcl_ucd_bidi_Other_Neutral 0 255 7 false;
  Signature mkcl_ucd_Other_Number mkcl_ucd_bidi_Other_Neutral 0 255 8 false;
  Signature mkcl_ucd_Other_Number mkcl_ucd_bidi_Other_Neutral 0 255 9 false;
  Signature mkcl_ucd_Other_Number mkcl_ucd_bidi_Right_To_Left 0 255 255 false;
  Signature mkcl_ucd_Other_Number mkcl_ucd_bidi_Right_To_Left 0 255 1 false;
  Signature mkcl_ucd_Other_Number mkcl_ucd_bidi_Right_To_Left 0 255 2 false;
  Signature mkcl_ucd_Other_Number mkcl_ucd_bidi_Right_To_Left 0 255 3 false;
  Signature mkcl_ucd_Other_Number mkcl_ucd_bidi_Right_To_Left 0 255 4 false;
  Signature mkcl_ucd_Connector_Punctuation mkcl_ucd_bidi_Other_Neutral 0 255 255 false;
  Signature mkcl_ucd_Dash_Punctuation mkcl_ucd_bidi_European_Separator 0 255 255 false;
  Signature mkcl_ucd_Dash_Punctuation mkcl_ucd_bidi_Other_Neutral 0 255 255 false;
  Signature mkcl_ucd_Dash_Punctuation mkcl_ucd_bidi_Right_To_Left 0 255 255 false;
  Signature mkcl_ucd_Close_Punctuation mkcl_ucd_bidi_Other_Neutral 0 255 255 false;
  Signature mkcl_ucd_Close_Punctuation mkcl_ucd_bidi_Other_Neutral 0 255 255 true;
  Signature mkcl_ucd_Final_Punctuation mkcl_ucd_bidi_Other_Neutral 0 255 255 false;
  Signature mkcl_ucd_Final_Punctuation mkcl_ucd_bidi_Other_Neutral 0 255 255 true;
  Signature mkcl_ucd_Initial_Punctuation mkcl_ucd_bidi_Other_Neutral 0 255 255 false;
  Signature mkcl_ucd_Initial_Punctuation mkcl_ucd_bidi_Other_Neutral 0 255 255 true;
  Signature mkcl_ucd_Other_Punctuation mkcl_ucd_bidi_Arabic_Letter 0 255 255 false;
  Signature mkcl_ucd_Other_Punctuation mkcl_ucd_bidi_Arabic_Number 0 255 255 false;
  Signature mkcl_ucd_Other_Punctuation mkcl_ucd_bidi_Common_Separator 0 255 255 false;
  Signature mkcl_ucd_Other_Punctuation mkcl_ucd_bidi_European_Terminator 0 255 255 false;
  Signature mkcl_ucd_Other_Punctuation mkcl_ucd_bidi_Left_To_Right 0 255 255 false;
  Signature mkcl_ucd_Other_Punctuation mkcl_ucd_bidi_Other_Neutral 0 255 255 false;
  Signature mkcl_ucd_Other_Punctuation mkcl_ucd_bidi_Right_To_Left 0 255 255 false;
  Signature mkcl_ucd_Open_Punctuation mkcl_ucd_bidi_Other_Neutral 0 255 255 false;
  Signature mkcl_ucd_Open_Punctuation mkcl_ucd_bidi_Other_Neutral 0 255 255 true;
  Signature mkcl_ucd_Currency_Symbol mkcl_ucd_bidi_Arabic_Letter 0 255 255 false;
  Signature mkcl_ucd_Currency_Symbol mkcl_ucd_bidi_European_Terminator 0 255 255 false;
  Signature mkcl_ucd_Modifier_Symbol mkcl_ucd_bidi_Arabic_Letter 0 255 255 false;
  Signature mkcl_ucd_Modifier_Symbol mkcl_ucd_bidi_Left_To_Right 0 255 255 false;
  Signature mkcl_ucd_Modifier_Symbol mkcl_ucd_bidi_Other_Neutral 0 255 255 false;
  Signature mkcl_ucd_Math_Symbol mkcl_ucd_bidi_Arabic_Letter 0 255 255 false;
  Signature mkcl_ucd_Math_Symbol mkcl_ucd_bidi_Common_Separator 0 255 255 false;
  Signature mkcl_ucd_Math_Symbol mkcl_ucd_bidi_European_Separator 0 255 255 false;
  Signature mkcl_ucd_Math_Symbol mkcl_ucd_bidi_European_Terminator 0 255 255 false;
  Signature mkcl_ucd_Math_Symbol mkcl_ucd_bidi_Left_To_Right 0 255 255 false;
  Signature mkcl_ucd_Math_Symbol mkcl_ucd_bidi_Other_Neutral 0 255 255 false;
  Signature mkcl_ucd_Math_Symbol mkcl_ucd_bidi_Other_Neutral 0 255 255 true;
  Signature mkcl_ucd_Other_Symbol mkcl_ucd_bidi_Arabic_Letter 0 255 255 false;
  Signature mkcl_ucd_Other_Symbol mkcl_ucd_bidi_European_Terminator 0 255 255 false;
  Signature mkcl_ucd_Other_Symbol mkcl_ucd_bidi_Left_To_Right 0 255 255 false;
  Signature mkcl_ucd_Other_Symbol mkcl_ucd_bidi_Other_Neutral 0 255 255 false;
  Signature mkcl_ucd_Line_Separator mkcl_ucd_bidi_White_Space 0 255 255 false;
  Signature mkcl_ucd_Paragraph_Separator mkcl_ucd_bidi_Paragraph_Separator 0 255 255 false;
  Signature mkcl_ucd_Space_Separator mkcl_ucd_bidi_Common_Separator 0 255 255 false;
  Signature mkcl_ucd_Space_Separator mkcl_ucd_bidi_White_Space 0 255 255 false
].

Definition info_pages : list Z := [
  0; 1; 2; 3; 4; 5; 6; 7; 8; 9; 10; 11; 12; 13; 14; 15; 16; 17; 18; 19; 20; 17; 21; 22; 23; 24; 25; 26; 27; 28; 29; 30;
  31; 32; 33; 34; 35; 36; 37; 38; 39; 40; 41; 42; 43; 44; 45; 46; 47; 48; 49; 50; 17; 17; 17; 17; 17; 17; 17; 17; 17; 17; 17; 17;
  17; 17; 17; 17; 17; 17; 17; 17; 17; 17; 17; 17; 17; 51; 17; 17; 17; 17; 17; 17; 17; 17; 17; 17; 17; 17; 17; 17; 17; 17; 17; 17;
  17; 17; 17; 17; 17; 17; 17; 17; 17; 17; 17; 17; 17; 17; 17; 17; 17; 17; 17; 17; 17; 17; 17; 17; 17; 17; 17; 17; 17; 17; 17; 17;
  17; 17; 17; 17; 17; 17; 17; 17; 17; 17; 17; 17; 17; 17; 17; 17; 17; 17; 17; 17; 17; 17; 17; 17; 17; 17; 17; 17; 17; 17; 17; 52;
  53; 17; 17; 17; 54; 17; 55; 56; 57; 58; 59; 60; 17; 17; 17; 17; 17; 17; 17; 17; 17; 17; 17; 17; 17; 17; 17; 17; 17; 17; 17; 17;
  17; 17; 17; 17; 17; 17; 17; 17; 17; 17; 17; 17; 17; 17; 17; 17; 17; 17; 17; 17; 17; 17; 17; 61; 62; 62; 62; 62; 62; 62; 62; 62;
  63; 63; 63; 63; 63; 63; 63; 63; 63; 63; 63; 63; 63; 63; 63; 63; 63; 63; 63; 63; 63; 63; 63; 63; 63; 17; 64; 65; 66; 67; 68; 69;
  70; 71; 72; 73; 74; 0; 0; 0; 75; 76; 77; 78; 79; 0; 80; 0; 81; 82; 0; 0; 0; 0; 83; 0; 0; 0; 0; 0; 0; 0; 0; 0;
  17; 17; 17; 84; 85; 0; 0; 0; 0; 0; 0; 0; 0; 0; 0; 0; 17; 17; 17; 17; 86; 0; 0; 0; 0; 0; 0; 0; 0; 0; 0; 0;
  0; 0; 0; 0; 0; 0; 0; 0; 0; 0; 0; 0; 0; 0; 0; 0; 0; 0; 0; 0; 0; 0; 0; 0; 0; 0; 0; 0; 0; 0; 0; 0;
  0; 0; 0; 0; 0; 0; 0; 0; 17; 17; 87; 0; 0; 0; 0; 88; 0; 0; 0; 0; 0; 0; 0; 0; 0; 0; 0; 0; 0; 0; 0; 0;
  0; 0; 0; 0; 0; 0; 0; 0; 0; 0; 0; 0; 0; 0; 0; 0; 0; 0; 0; 0; 0; 0; 0; 0; 0; 0; 0; 0; 0; 0; 0; 0;
  0; 0; 0; 0; 0; 0; 0; 0; 0; 0; 0; 0; 0; 0; 0; 0; 89; 0; 0; 0; 0; 0; 0; 0; 0; 0; 0; 0; 0; 0; 0; 0;
  0; 0; 0; 0; 0; 0; 0; 0; 0; 0; 0; 0; 0; 0; 0; 0; 90; 91; 92; 93; 94; 95; 96; 97; 0; 0; 0; 0; 0; 0; 0; 0;
  0; 0; 0; 0; 0; 0; 0; 0; 0; 0; 0; 0; 0; 0; 98; 0; 99; 100; 101; 102; 103; 104; 105; 106; 0; 0; 0; 0; 0; 0; 0; 0;
  17; 17; 17; 17; 17; 17; 17; 17; 17; 17; 17; 17; 17; 17; 17; 17; 17; 17; 17; 17; 17; 17; 17; 17; 17; 17; 17; 17; 17; 17; 17; 17;
  17; 17; 17; 17; 17; 17; 17; 17; 17; 17; 17; 17; 17; 17; 17; 17; 17; 17; 17; 17; 17; 17; 17; 17; 17; 17; 17; 17; 17; 17; 17; 17;
  17; 17; 17; 17; 17; 17; 17; 17; 17; 17; 17; 17; 17; 17; 17; 17; 17; 17; 17; 17; 17; 17; 17; 17; 17; 17; 17; 17; 17; 17; 17; 17;
  17; 17; 17; 17; 17; 17; 17; 17; 17; 17; 17; 17; 17; 17; 17; 17; 17; 17; 17; 17; 17; 17; 17; 17; 17; 17; 17; 17; 17; 17; 17; 17;
  17; 17; 17; 17; 17; 17; 17; 17; 17; 17; 17; 17; 17; 17; 17; 17; 17; 17; 17; 17; 17; 17; 17; 17; 17; 17; 17; 17; 17; 17; 17; 17;
  17; 17; 17; 17; 17; 17; 107; 17; 17; 17; 17; 17; 17; 17; 17; 17; 17; 17; 17; 17; 17; 17; 17; 108; 109; 0; 0; 0; 0; 0; 0; 0;
  0; 0; 0; 0; 0; 0; 0; 0; 0; 0; 0; 0; 0; 0; 0; 0; 0; 0; 0; 0; 0; 0; 0; 0; 0; 0; 0; 0; 0; 0; 0; 0;
  0; 0; 0; 0; 0; 0; 0; 0; 0; 0; 0; 0; 0; 0; 0; 0; 0; 0; 0; 0; 0; 0; 0; 0; 17; 17; 109; 0; 0; 0; 0; 0;
  0; 0; 0; 0; 0; 0; 0; 0; 0; 0; 0; 0; 0; 0; 0; 0; 0; 0; 0; 0; 0; 0; 0; 0; 0; 0; 0; 0; 0; 0; 0; 0;
  0; 0; 0; 0; 0; 0; 0; 0; 0; 0; 0; 0; 0; 0; 0; 0; 0; 0; 0; 0; 0; 0; 0; 0; 0; 0; 0; 0; 0; 0; 0; 0;
  0; 0; 0; 0; 0; 0; 0; 0; 0; 0; 0; 0; 0; 0; 0; 0; 0; 0; 0; 0; 0; 0; 0; 0; 0; 0; 0; 0; 0; 0; 0; 0;
  0; 0; 0; 0; 0; 0; 0; 0; 0; 0; 0; 0; 0; 0; 0; 0; 0; 0; 0; 0; 0; 0; 0; 0; 0; 0; 0; 0; 0; 0; 0; 0;
  0; 0; 0; 0; 0; 0; 0; 0; 0; 0; 0; 0; 0; 0; 0; 0; 0; 0; 0; 0; 0; 0; 0; 0; 0; 0; 0; 0; 0; 0; 0; 0;
  0; 0; 0; 0; 0; 0; 0; 0; 0; 0; 0; 0; 0; 0; 0; 0; 0; 0; 0; 0; 0; 0; 0; 0; 0; 0; 0; 0; 0; 0; 0; 0;
  0; 0; 0; 0; 0; 0; 0; 0; 0; 0; 0; 0; 0; 0; 0; 0; 0; 0; 0; 0; 0; 0; 0; 0; 0; 0; 0; 0; 0; 0; 0; 0;
  0; 0; 0; 0; 0; 0; 0; 0; 0; 0; 0; 0; 0; 0; 0; 0; 0; 0; 0; 0; 0; 0; 0; 0; 0; 0; 0; 0; 0; 0; 0; 0;
  0; 0; 0; 0; 0; 0; 0; 0; 0; 0; 0; 0; 0; 0; 0; 0; 0; 0; 0; 0; 0; 0; 0; 0; 0; 0; 0; 0; 0; 0; 0; 0;
  0; 0; 0; 0; 0; 0; 0; 0; 0; 0; 0; 0; 0; 0; 0; 0; 0; 0; 0; 0; 0; 0; 0; 0; 0; 0; 0; 0; 0; 0; 0; 0;
  0; 0; 0; 0; 0; 0; 0; 0; 0; 0; 0; 0; 0; 0; 0; 0; 0; 0; 0; 0; 0; 0; 0; 0; 0; 0; 0; 0; 0; 0; 0; 0;
  0; 0; 0; 0; 0; 0; 0; 0; 0; 0; 0; 0; 0; 0; 0; 0; 0; 0; 0; 0; 0; 0; 0; 0; 0; 0; 0; 0; 0; 0; 0; 0;
  0; 0; 0; 0; 0; 0; 0; 0; 0; 0; 0; 0; 0; 0; 0; 0; 0; 0; 0; 0; 0; 0; 0; 0; 0; 0; 0; 0; 0; 0; 0; 0;
  0; 0; 0; 0; 0; 0; 0; 0; 0; 0; 0; 0; 0; 0; 0; 0; 0; 0; 0; 0; 0; 0; 0; 0; 0; 0; 0; 0; 0; 0; 0; 0;
  0; 0; 0; 0; 0; 0; 0; 0; 0; 0; 0; 0; 0; 0; 0; 0; 0; 0; 0; 0; 0; 0; 0; 0; 0; 0; 0; 0; 0; 0; 0; 0;
  0; 0; 0; 0; 0; 0; 0; 0; 0; 0; 0; 0; 0; 0; 0; 0; 0; 0; 0; 0; 0; 0; 0; 0; 0; 0; 0; 0; 0; 0; 0; 0;
  0; 0; 0; 0; 0; 0; 0; 0; 0; 0; 0; 0; 0; 0; 0; 0; 0; 0; 0; 0; 0; 0; 0; 0; 0; 0; 0; 0; 0; 0; 0; 0;
  0; 0; 0; 0; 0; 0; 0; 0; 0; 0; 0; 0; 0; 0; 0; 0; 0; 0; 0; 0; 0; 0; 0; 0; 0; 0; 0; 0; 0; 0; 0; 0;
  0; 0; 0; 0; 0; 0; 0; 0; 0; 0; 0; 0; 0; 0; 0; 0; 0; 0; 0; 0; 0; 0; 0; 0; 0; 0; 0; 0; 0; 0; 0; 0;
  0; 0; 0; 0; 0; 0; 0; 0; 0; 0; 0; 0; 0; 0; 0; 0; 0; 0; 0; 0; 0; 0; 0; 0; 0; 0; 0; 0; 0; 0; 0; 0;
  0; 0; 0; 0; 0; 0; 0; 0; 0; 0; 0; 0; 0; 0; 0; 0; 0; 0; 0; 0; 0; 0; 0; 0; 0; 0; 0; 0; 0; 0; 0; 0;
  0; 0; 0; 0; 0; 0; 0; 0; 0; 0; 0; 0; 0; 0; 0; 0; 0; 0; 0; 0; 0; 0; 0; 0; 0; 0; 0; 0; 0; 0; 0; 0;
  0; 0; 0; 0; 0; 0; 0; 0; 0; 0; 0; 0; 0; 0; 0; 0; 0; 0; 0; 0; 0; 0; 0; 0; 0; 0; 0; 0; 0; 0; 0; 0;
  0; 0; 0; 0; 0; 0; 0; 0; 0; 0; 0; 0; 0; 0; 0; 0; 0; 0; 0; 0; 0; 0; 0; 0; 0; 0; 0; 0; 0; 0; 0; 0;
  0; 0; 0; 0; 0; 0; 0; 0; 0; 0; 0; 0; 0; 0; 0; 0; 0; 0; 0; 0; 0; 0; 0; 0; 0; 0; 0; 0; 0; 0; 0; 0;
  0; 0; 0; 0; 0; 0; 0; 0; 0; 0; 0; 0; 0; 0; 0; 0; 0; 0; 0; 0; 0; 0; 0; 0; 0; 0; 0; 0; 0; 0; 0; 0;
  0; 0; 0; 0; 0; 0; 0; 0; 0; 0; 0; 0; 0; 0; 0; 0; 0; 0; 0; 0; 0; 0; 0; 0; 0; 0; 0; 0; 0; 0; 0; 0;
  0; 0; 0; 0; 0; 0; 0; 0; 0; 0; 0; 0; 0; 0; 0; 0; 0; 0; 0; 0; 0; 0; 0; 0; 0; 0; 0; 0; 0; 0; 0; 0;
  0; 0; 0; 0; 0; 0; 0; 0; 0; 0; 0; 0; 0; 0; 0; 0; 0; 0; 0; 0; 0; 0; 0; 0; 0; 0; 0; 0; 0; 0; 0; 0;
  0; 0; 0; 0; 0; 0; 0; 0; 0; 0; 0; 0; 0; 0; 0; 0; 0; 0; 0; 0; 0; 0; 0; 0; 0; 0; 0; 0; 0; 0; 0; 0;
  0; 0; 0; 0; 0; 0; 0; 0; 0; 0; 0; 0; 0; 0; 0; 0; 0; 0; 0; 0; 0; 0; 0; 0; 0; 0; 0; 0; 0; 0; 0; 0;
  0; 0; 0; 0; 0; 0; 0; 0; 0; 0; 0; 0; 0; 0; 0; 0; 0; 0; 0; 0; 0; 0; 0; 0; 0; 0; 0; 0; 0; 0; 0; 0;
  0; 0; 0; 0; 0; 0; 0; 0; 0; 0; 0; 0; 0; 0; 0; 0; 0; 0; 0; 0; 0; 0; 0; 0; 0; 0; 0; 0; 0; 0; 0; 0;
  0; 0; 0; 0; 0; 0; 0; 0; 0; 0; 0; 0; 0; 0; 0; 0; 0; 0; 0; 0; 0; 0; 0; 0; 0; 0; 0; 0; 0; 0; 0; 0;
  0; 0; 0; 0; 0; 0; 0; 0; 0; 0; 0; 0; 0; 0; 0; 0; 0; 0; 0; 0; 0; 0; 0; 0; 0; 0; 0; 0; 0; 0; 0; 0;
  0; 0; 0; 0; 0; 0; 0; 0; 0; 0; 0; 0; 0; 0; 0; 0; 0; 0; 0; 0; 0; 0; 0; 0; 0; 0; 0; 0; 0; 0; 0; 0;
  0; 0; 0; 0; 0; 0; 0; 0; 0; 0; 0; 0; 0; 0; 0; 0; 0; 0; 0; 0; 0; 0; 0; 0; 0; 0; 0; 0; 0; 0; 0; 0;
  0; 0; 0; 0; 0; 0; 0; 0; 0; 0; 0; 0; 0; 0; 0; 0; 0; 0; 0; 0; 0; 0; 0; 0; 0; 0; 0; 0; 0; 0; 0; 0;
  0; 0; 0; 0; 0; 0; 0; 0; 0; 0; 0; 0; 0; 0; 0; 0; 0; 0; 0; 0; 0; 0; 0; 0; 0; 0; 0; 0; 0; 0; 0; 0;
  0; 0; 0; 0; 0; 0; 0; 0; 0; 0; 0; 0; 0; 0; 0; 0; 0; 0; 0; 0; 0; 0; 0; 0; 0; 0; 0; 0; 0; 0; 0; 0;
  0; 0; 0; 0; 0; 0; 0; 0; 0; 0; 0; 0; 0; 0; 0; 0; 0; 0; 0; 0; 0; 0; 0; 0; 0; 0; 0; 0; 0; 0; 0; 0;
  0; 0; 0; 0; 0; 0; 0; 0; 0; 0; 0; 0; 0; 0; 0; 0; 0; 0; 0; 0; 0; 0; 0; 0; 0; 0; 0; 0; 0; 0; 0; 0;
  0; 0; 0; 0; 0; 0; 0; 0; 0; 0; 0; 0; 0; 0; 0; 0; 0; 0; 0; 0; 0; 0; 0; 0; 0; 0; 0; 0; 0; 0; 0; 0;
  0; 0; 0; 0; 0; 0; 0; 0; 0; 0; 0; 0; 0; 0; 0; 0; 0; 0; 0; 0; 0; 0; 0; 0; 0; 0; 0; 0; 0; 0; 0; 0;
  0; 0; 0; 0; 0; 0; 0; 0; 0; 0; 0; 0; 0; 0; 0; 0; 0; 0; 0; 0; 0; 0; 0; 0; 0; 0; 0; 0; 0; 0; 0; 0;
  0; 0; 0; 0; 0; 0; 0; 0; 0; 0; 0; 0; 0; 0; 0; 0; 0; 0; 0; 0; 0; 0; 0; 0; 0; 0; 0; 0; 0; 0; 0; 0;
  0; 0; 0; 0; 0; 0; 0; 0; 0; 0; 0; 0; 0; 0; 0; 0; 0; 0; 0; 0; 0; 0; 0; 0; 0; 0; 0; 0; 0; 0; 0; 0;
  0; 0; 0; 0; 0; 0; 0; 0; 0; 0; 0; 0; 0; 0; 0; 0; 0; 0; 0; 0; 0; 0; 0; 0; 0; 0; 0; 0; 0; 0; 0; 0;
  0; 0; 0; 0; 0; 0; 0; 0; 0; 0; 0; 0; 0; 0; 0; 0; 0; 0; 0; 0; 0; 0; 0; 0; 0; 0; 0; 0; 0; 0; 0; 0;
  0; 0; 0; 0; 0; 0; 0; 0; 0; 0; 0; 0; 0; 0; 0; 0; 0; 0; 0; 0; 0; 0; 0; 0; 0; 0; 0; 0; 0; 0; 0; 0;
  0; 0; 0; 0; 0; 0; 0; 0; 0; 0; 0; 0; 0; 0; 0; 0; 0; 0; 0; 0; 0; 0; 0; 0; 0; 0; 0; 0; 0; 0; 0; 0;
  0; 0; 0; 0; 0; 0; 0; 0; 0; 0; 0; 0; 0; 0; 0; 0; 0; 0; 0; 0; 0; 0; 0; 0; 0; 0; 0; 0; 0; 0; 0; 0;
  0; 0; 0; 0; 0; 0; 0; 0; 0; 0; 0; 0; 0; 0; 0; 0; 0; 0; 0; 0; 0; 0; 0; 0; 0; 0; 0; 0; 0; 0; 0; 0;
  0; 0; 0; 0; 0; 0; 0; 0; 0; 0; 0; 0; 0; 0; 0; 0; 0; 0; 0; 0; 0; 0; 0; 0; 0; 0; 0; 0; 0; 0; 0; 0;
  0; 0; 0; 0; 0; 0; 0; 0; 0; 0; 0; 0; 0; 0; 0; 0; 0; 0; 0; 0; 0; 0; 0; 0; 0; 0; 0; 0; 0; 0; 0; 0;
  0; 0; 0; 0; 0; 0; 0; 0; 0; 0; 0; 0; 0; 0; 0; 0; 0; 0; 0; 0; 0; 0; 0; 0; 0; 0; 0; 0; 0; 0; 0; 0;
  0; 0; 0; 0; 0; 0; 0; 0; 0; 0; 0; 0; 0; 0; 0; 0; 0; 0; 0; 0; 0; 0; 0; 0; 0; 0; 0; 0; 0; 0; 0; 0;
  0; 0; 0; 0; 0; 0; 0; 0; 0; 0; 0; 0; 0; 0; 0; 0; 0; 0; 0; 0; 0; 0; 0; 0; 0; 0; 0; 0; 0; 0; 0; 0;
  0; 0; 0; 0; 0; 0; 0; 0; 0; 0; 0; 0; 0; 0; 0; 0; 0; 0; 0; 0; 0; 0; 0; 0; 0; 0; 0; 0; 0; 0; 0; 0;
  0; 0; 0; 0; 0; 0; 0; 0; 0; 0; 0; 0; 0; 0; 0; 0; 0; 0; 0; 0; 0; 0; 0; 0; 0; 0; 0; 0; 0; 0; 0; 0;
  0; 0; 0; 0; 0; 0; 0; 0; 0; 0; 0; 0; 0; 0; 0; 0; 0; 0; 0; 0; 0; 0; 0; 0; 0; 0; 0; 0; 0; 0; 0; 0;
  0; 0; 0; 0; 0; 0; 0; 0; 0; 0; 0; 0; 0; 0; 0; 0; 0; 0; 0; 0; 0; 0; 0; 0; 0; 0; 0; 0; 0; 0; 0; 0;
  0; 0; 0; 0; 0; 0; 0; 0; 0; 0; 0; 0; 0; 0; 0; 0; 0; 0; 0; 0; 0; 0; 0; 0; 0; 0; 0; 0; 0; 0; 0; 0;
  0; 0; 0; 0; 0; 0; 0; 0; 0; 0; 0; 0; 0; 0; 0; 0; 0; 0; 0; 0; 0; 0; 0; 0; 0; 0; 0; 0; 0; 0; 0; 0;
  0; 0; 0; 0; 0; 0; 0; 0; 0; 0; 0; 0; 0; 0; 0; 0; 0; 0; 0; 0; 0; 0; 0; 0; 0; 0; 0; 0; 0; 0; 0; 0;
  0; 0; 0; 0; 0; 0; 0; 0; 0; 0; 0; 0; 0; 0; 0; 0; 0; 0; 0; 0; 0; 0; 0; 0; 0; 0; 0; 0; 0; 0; 0; 0;
  0; 0; 0; 0; 0; 0; 0; 0; 0; 0; 0; 0; 0; 0; 0; 0; 0; 0; 0; 0; 0; 0; 0; 0; 0; 0; 0; 0; 0; 0; 0; 0;
  0; 0; 0; 0; 0; 0; 0; 0; 0; 0; 0; 0; 0; 0; 0; 0; 0; 0; 0; 0; 0; 0; 0; 0; 0; 0; 0; 0; 0; 0; 0; 0;
  0; 0; 0; 0; 0; 0; 0; 0; 0; 0; 0; 0; 0; 0; 0; 0; 0; 0; 0; 0; 0; 0; 0; 0; 0; 0; 0; 0; 0; 0; 0; 0;
  0; 0; 0; 0; 0; 0; 0; 0; 0; 0; 0; 0; 0; 0; 0; 0; 0; 0; 0; 0; 0; 0; 0; 0; 0; 0; 0; 0; 0; 0; 0; 0;
  0; 0; 0; 0; 0; 0; 0; 0; 0; 0; 0; 0; 0; 0; 0; 0; 0; 0; 0; 0; 0; 0; 0; 0; 0; 0; 0; 0; 0; 0; 0; 0;
  0; 0; 0; 0; 0; 0; 0; 0; 0; 0; 0; 0; 0; 0; 0; 0; 0; 0; 0; 0; 0; 0; 0; 0; 0; 0; 0; 0; 0; 0; 0; 0;
  0; 0; 0; 0; 0; 0; 0; 0; 0; 0; 0; 0; 0; 0; 0; 0; 0; 0; 0; 0; 0; 0; 0; 0; 0; 0; 0; 0; 0; 0; 0; 0;
  0; 0; 0; 0; 0; 0; 0; 0; 0; 0; 0; 0; 0; 0; 0; 0; 0; 0; 0; 0; 0; 0; 0; 0; 0; 0; 0; 0; 0; 0; 0; 0;
  0; 0; 0; 0; 0; 0; 0; 0; 0; 0; 0; 0; 0; 0; 0; 0; 0; 0; 0; 0; 0; 0; 0; 0; 0; 0; 0; 0; 0; 0; 0; 0;
  0; 0; 0; 0; 0; 0; 0; 0; 0; 0; 0; 0; 0; 0; 0; 0; 0; 0; 0; 0; 0; 0; 0; 0; 0; 0; 0; 0; 0; 0; 0; 0;
  0; 0; 0; 0; 0; 0; 0; 0; 0; 0; 0; 0; 0; 0; 0; 0; 0; 0; 0; 0; 0; 0; 0; 0; 0; 0; 0; 0; 0; 0; 0; 0;
  0; 0; 0; 0; 0; 0; 0; 0; 0; 0; 0; 0; 0; 0; 0; 0; 0; 0; 0; 0; 0; 0; 0; 0; 0; 0; 0; 0; 0; 0; 0; 0;
  0; 0; 0; 0; 0; 0; 0; 0; 0; 0; 0; 0; 0; 0; 0; 0; 0; 0; 0; 0; 0; 0; 0; 0; 0; 0; 0; 0; 0; 0; 0; 0;
  0; 0; 0; 0; 0; 0; 0; 0; 0; 0; 0; 0; 0; 0; 0; 0; 0; 0; 0; 0; 0; 0; 0; 0; 0; 0; 0; 0; 0; 0; 0; 0;
  0; 0; 0; 0; 0; 0; 0; 0; 0; 0; 0; 0; 0; 0; 0; 0; 0; 0; 0; 0; 0; 0; 0; 0; 0; 0; 0; 0; 0; 0; 0; 0;
  0; 0; 0; 0; 0; 0; 0; 0; 0; 0; 0; 0; 0; 0; 0; 0; 0; 0; 0; 0; 0; 0; 0; 0; 0; 0; 0; 0; 0; 0; 0; 0;
  0; 0; 0; 0; 0; 0; 0; 0; 0; 0; 0; 0; 0; 0; 0; 0; 0; 0; 0; 0; 0; 0; 0; 0; 0; 0; 0; 0; 0; 0; 0; 0;
  0; 0; 0; 0; 0; 0; 0; 0; 0; 0; 0; 0; 0; 0; 0; 0; 0; 0; 0; 0; 0; 0; 0; 0; 0; 0; 0; 0; 0; 0; 0; 0;
  0; 0; 0; 0; 0; 0; 0; 0; 0; 0; 0; 0; 0; 0; 0; 0; 0; 0; 0; 0; 0; 0; 0; 0; 0; 0; 0; 0; 0; 0; 0; 0;
  0; 0; 0; 0; 0; 0; 0; 0; 0; 0; 0; 0; 0; 0; 0; 0; 0; 0; 0; 0; 0; 0; 0; 0; 0; 0; 0; 0; 0; 0; 0; 0;
  0; 0; 0; 0; 0; 0; 0; 0; 0; 0; 0; 0; 0; 0; 0; 0; 0; 0; 0; 0; 0; 0; 0; 0; 0; 0; 0; 0; 0; 0; 0; 0;
  0; 0; 0; 0; 0; 0; 0; 0; 0; 0; 0; 0; 0; 0; 0; 0; 0; 0; 0; 0; 0; 0; 0; 0; 0; 0; 0; 0; 0; 0; 0; 0;
  110; 111; 0; 0; 0; 0; 0; 0; 0; 0; 0; 0; 0; 0; 0; 0; 0; 0; 0; 0; 0; 0; 0; 0; 0; 0; 0; 0; 0; 0; 0; 0;
  0; 0; 0; 0; 0; 0; 0; 0; 0; 0; 0; 0; 0; 0; 0; 0; 0; 0; 0; 0; 0; 0; 0; 0; 0; 0; 0; 0; 0; 0; 0; 0;
  0; 0; 0; 0; 0; 0; 0; 0; 0; 0; 0; 0; 0; 0; 0; 0; 0; 0; 0; 0; 0; 0; 0; 0; 0; 0; 0; 0; 0; 0; 0; 0;
  0; 0; 0; 0; 0; 0; 0; 0; 0; 0; 0; 0; 0; 0; 0; 0; 0; 0; 0; 0; 0; 0; 0; 0; 0; 0; 0; 0; 0; 0; 0; 0;
  0; 0; 0; 0; 0; 0; 0; 0; 0; 0; 0; 0; 0; 0; 0; 0; 0; 0; 0; 0; 0; 0; 0; 0; 0; 0; 0; 0; 0; 0; 0; 0;
  0; 0; 0; 0; 0; 0; 0; 0; 0; 0; 0; 0; 0; 0; 0; 0; 0; 0; 0; 0; 0; 0; 0; 0; 0; 0; 0; 0; 0; 0; 0; 0;
  0; 0; 0; 0; 0; 0; 0; 0; 0; 0; 0; 0; 0; 0; 0; 0; 0; 0; 0; 0; 0; 0; 0; 0; 0; 0; 0; 0; 0; 0; 0; 0;
  0; 0; 0; 0; 0; 0; 0; 0; 0; 0; 0; 0; 0; 0; 0; 0; 0; 0; 0; 0; 0; 0; 0; 0; 0; 0; 0; 0; 0; 0; 0; 0;
  63; 63; 63; 63; 63; 63; 63; 63; 63; 63; 63; 63; 63; 63; 63; 63; 63; 63; 63; 63; 63; 63; 63; 63; 63; 63; 63; 63; 63; 63; 63; 63;
  63; 63; 63; 63; 63; 63; 63; 63; 63; 63; 63; 63; 63; 63; 63; 63; 63; 63; 63; 63; 63; 63; 63; 63; 63; 63; 63; 63; 63; 63; 63; 63;
  63; 63; 63; 63; 63; 63; 63; 63; 63; 63; 63; 63; 63; 63; 63; 63; 63; 63; 63; 63; 63; 63; 63; 63; 63; 63; 63; 63; 63; 63; 63; 63;
  63; 63; 63; 63; 63; 63; 63; 63; 63; 63; 63; 63; 63; 63; 63; 63; 63; 63; 63; 63; 63; 63; 63; 63; 63; 63; 63; 63; 63; 63; 63; 63;
  63; 63; 63; 63; 63; 63; 63; 63; 63; 63; 63; 63; 63; 63; 63; 63; 63; 63; 63; 63; 63; 63; 63; 63; 63; 63; 63; 63; 63; 63; 63; 63;
  63; 63; 63; 63; 63; 63; 63; 63; 63; 63; 63; 63; 63; 63; 63; 63; 63; 63; 63; 63; 63; 63; 63; 63; 63; 63; 63; 63; 63; 63; 63; 63;
  63; 63; 63; 63; 63; 63; 63; 63; 63; 63; 63; 63; 63; 63; 63; 63; 63; 63; 63; 63; 63; 63; 63; 63; 63; 63; 63; 63; 63; 63; 63; 63;
  63; 63; 63; 63; 63; 63; 63; 63; 63; 63; 63; 63; 63; 63; 63; 63; 63; 63; 63; 63; 63; 63; 63; 63; 63; 63; 63; 63; 63; 63; 63; 112;
  63; 63; 63; 63; 63; 63; 63; 63; 63; 63; 63; 63; 63; 63; 63; 63; 63; 63; 63; 63; 63; 63; 63; 63; 63; 63; 63; 63; 63; 63; 63; 63;
  63; 63; 63; 63; 63; 63; 63; 63; 63; 63; 63; 63; 63; 63; 63; 63; 63; 63; 63; 63; 63; 63; 63; 63; 63; 63; 63; 63; 63; 63; 63; 63;
  63; 63; 63; 63; 63; 63; 63; 63; 63; 63; 63; 63; 63; 63; 63; 63; 63; 63; 63; 63; 63; 63; 63; 63; 63; 63; 63; 63; 63; 63; 63; 63;
  63; 63; 63; 63; 63; 63; 63; 63; 63; 63; 63; 63; 63; 63; 63; 63; 63; 63; 63; 63; 63; 63; 63; 63; 63; 63; 63; 63; 63; 63; 63; 63;
  63; 63; 63; 63; 63; 63; 63; 63; 63; 63; 63; 63; 63; 63; 63; 63; 63; 63; 63; 63; 63; 63; 63; 63; 63; 63; 63; 63; 63; 63; 63; 63;
  63; 63; 63; 63; 63; 63; 63; 63; 63; 63; 63; 63; 63; 63; 63; 63; 63; 63; 63; 63; 63; 63; 63; 63; 63; 63; 63; 63; 63; 63; 63; 63;
  63; 63; 63; 63; 63; 63; 63; 63; 63; 63; 63; 63; 63; 63; 63; 63; 63; 63; 63; 63; 63; 63; 63; 63; 63; 63; 63; 63; 63; 63; 63; 63;
  63; 63; 63; 63; 63; 63; 63; 63; 63; 63; 63; 63; 63; 63; 63; 63; 63; 63; 63; 63; 63; 63; 63; 63; 63; 63; 63; 63; 63; 63; 63; 112
].

(** An entry of a page. *)
#[local] Abbreviation e := Unichar (only parsing).

Definition page_0 : list unichar := [
  e 13 0x0; e 13 0x0; e 13 0x0; e 13 0x0; e 13 0x0; e 13 0x0; e 13 0x0; e 13 0x0;
  e 13 0x0; e 14 0x0; e 12 0x0; e 14 0x0; e 15 0x0; e 12 0x0; e 13 0x0; e 13 0x0;
  e 13 0x0; e 13 0x0; e 13 0x0; e 13 0x0; e 13 0x0; e 13 0x0; e 13 0x0; e 13 0x0;
  e 13 0x0; e 13 0x0; e 13 0x0; e 13 0x0; e 12 0x0; e 12 0x0; e 12 0x0; e 14 0x0;
  e 216 0x0; e 193 0x0; e 193 0x0; e 191 0x0; e 198 0x0; e 191 0x0; e 193 0x0; e 193 0x0;
  e 196 0x0; e 183 0x0; e 193 0x0; e 204 0x0; e 190 0x0; e 179 0x0; e 190 0x0; e 190 0x0;
  e 99 0x0; e 100 0x0; e 101 0x0; e 102 0x0; e 103 0x0; e 104 0x0; e 105 0x0; e 106 0x0;
  e 107 0x0; e 108 0x0; e 190 0x0; e 193 0x0; e 208 0x0; e 207 0x0; e 208 0x0; e 193 0x0;
  e 193 0x0; e 0 0x61; e 0 0x62; e 0 0x63; e 0 0x64; e 0 0x65; e 0 0x66; e 0 0x67;
  e 0 0x68; e 0 0x69; e 0 0x6A; e 0 0x6B; e 0 0x6C; e 0 0x6D; e 0 0x6E; e 0 0x6F;
  e 0 0x70; e 0 0x71; e 0 0x72; e 0 0x73; e 0 0x74; e 0 0x75; e 0 0x76; e 0 0x77;
  e 0 0x78; e 0 0x79; e 0 0x7A; e 196 0x0; e 193 0x0; e 183 0x0; e 201 0x0; e 178 0x0;
  e 201 0x0; e 1 0x41; e 1 0x42; e 1 0x43; e 1 0x44; e 1 0x45; e 1 0x46; e 1 0x47;
  e 1 0x48; e 1 0x49; e 1 0x4A; e 1 0x4B; e 1 0x4C; e 1 0x4D; e 1 0x4E; e 1 0x4F;
  e 1 0x50; e 1 0x51; e 1 0x52; e 1 0x53; e 1 0x54; e 1 0x55; e 1 0x56; e 1 0x57;
  e 1 0x58; e 1 0x59; e 1 0x5A; e 196 0x0; e 207 0x0; e 183 0x0; e 207 0x0; e 13 0x0;
  e 13 0x0; e 13 0x0; e 13 0x0; e 13 0x0; e 13 0x0; e 12 0x0; e 13 0x0; e 13 0x0;
  e 13 0x0; e 13 0x0; e 13 0x0; e 13 0x0; e 13 0x0; e 13 0x0; e 13 0x0; e 13 0x0;
  e 13 0x0; e 13 0x0; e 13 0x0; e 13 0x0; e 13 0x0; e 13 0x0; e 13 0x0; e 13 0x0;
  e 13 0x0; e 13 0x0; e 13 0x0; e 13 0x0; e 13 0x0; e 13 0x0; e 13 0x0; e 13 0x0;
  e 215 0x0; e 193 0x0; e 198 0x0; e 198 0x0; e 198 0x0; e 198 0x0; e 212 0x0; e 193 0x0;
  e 201 0x0; e 212 0x0; e 10 0x0; e 187 0x0; e 207 0x0; e 18 0x0; e 212 0x0; e 201 0x0;
  e 210 0x0; e 205 0x0; e 144 0x0; e 145 0x0; e 201 0x0; e 3 0x39C; e 193 0x0; e 193 0x0;
  e 201 0x0; e 143 0x0; e 10 0x0; e 185 0x0; e 162 0x0; e 162 0x0; e 162 0x0; e 193 0x0;
  e 0 0xE0; e 0 0xE1; e 0 0xE2; e 0 0xE3; e 0 0xE4; e 0 0xE5; e 0 0xE6; e 0 0xE7;
  e 0 0xE8; e 0 0xE9; e 0 0xEA; e 0 0xEB; e 0 0xEC; e 0 0xED; e 0 0xEE; e 0 0xEF;
  e 0 0xF0; e 0 0xF1; e 0 0xF2; e 0 0xF3; e 0 0xF4; e 0 0xF5; e 0 0xF6; e 207 0x0;
  e 0 0xF8; e 0 0xF9; e 0 0xFA; e 0 0xFB; e 0 0xFC; e 0 0xFD; e 0 0xFE; e 3 0x0;
  e 1 0xC0; e 1 0xC1; e 1 0xC2; e 1 0xC3; e 1 0xC4; e 1 0xC5; e 1 0xC6; e 1 0xC7;
  e 1 0xC8; e 1 0xC9; e 1 0xCA; e 1 0xCB; e 1 0xCC; e 1 0xCD; e 1 0xCE; e 1 0xCF;
  e 1 0xD0; e 1 0xD1; e 1 0xD2; e 1 0xD3; e 1 0xD4; e 1 0xD5; e 1 0xD6; e 207 0x0;
  e 1 0xD8; e 1 0xD9; e 1 0xDA; e 1 0xDB; e 1 0xDC; e 1 0xDD; e 1 0xDE; e 1 0x178
].

Definition page_1 : list unichar := [
  e 0 0x101; e 1 0x100; e 0 0x103; e 1 0x102; e 0 0x105; e 1 0x104; e 0 0x107; e 1 0x106;
  e 0 0x109; e 1 0x108; e 0 0x10B; e 1 0x10A; e 0 0x10D; e 1 0x10C; e 0 0x10F; e 1 0x10E;
  e 0 0x111; e 1 0x110; e 0 0x113; e 1 0x112; e 0 0x115; e 1 0x114; e 0 0x117; e 1 0x116;
  e 0 0x119; e 1 0x118; e 0 0x11B; e 1 0x11A; e 0 0x11D; e 1 0x11C; e 0 0x11F; e 1 0x11E;
  e 0 0x121; e 1 0x120; e 0 0x123; e 1 0x122; e 0 0x125; e 1 0x124; e 0 0x127; e 1 0x126;
  e 0 0x129; e 1 0x128; e 0 0x12B; e 1 0x12A; e 0 0x12D; e 1 0x12C; e 0 0x12F; e 1 0x12E;
  e 2 0x69; e 3 0x49; e 0 0x133; e 1 0x132; e 0 0x135; e 1 0x134; e 0 0x137; e 1 0x136;
  e 3 0x0; e 0 0x13A; e 1 0x139; e 0 0x13C; e 1 0x13B; e 0 0x13E; e 1 0x13D; e 0 0x140;
  e 1 0x13F; e 0 0x142; e 1 0x141; e 0 0x144; e 1 0x143; e 0 0x146; e 1 0x145; e 0 0x148;
  e 1 0x147; e 3 0x0; e 0 0x14B; e 1 0x14A; e 0 0x14D; e 1 0x14C; e 0 0x14F; e 1 0x14E;
  e 0 0x151; e 1 0x150; e 0 0x153; e 1 0x152; e 0 0x155; e 1 0x154; e 0 0x157; e 1 0x156;
  e 0 0x159; e 1 0x158; e 0 0x15B; e 1 0x15A; e 0 0x15D; e 1 0x15C; e 0 0x15F; e 1 0x15E;
  e 0 0x161; e 1 0x160; e 0 0x163; e 1 0x162; e 0 0x165; e 1 0x164; e 0 0x167; e 1 0x166;
  e 0 0x169; e 1 0x168; e 0 0x16B; e 1 0x16A; e 0 0x16D; e 1 0x16C; e 0 0x16F; e 1 0x16E;
  e 0 0x171; e 1 0x170; e 0 0x173; e 1 0x172; e 0 0x175; e 1 0x174; e 0 0x177; e 1 0x176;
  e 0 0xFF; e 0 0x17A; e 1 0x179; e 0 0x17C; e 1 0x17B; e 0 0x17E; e 1 0x17D; e 3 0x53;
  e 1 0x243; e 0 0x253; e 0 0x183; e 1 0x182; e 0 0x185; e 1 0x184; e 0 0x254; e 0 0x188;
  e 1 0x187; e 0 0x256; e 0 0x257; e 0 0x18C; e 1 0x18B; e 3 0x0; e 0 0x1DD; e 0 0x259;
  e 0 0x25B; e 0 0x192; e 1 0x191; e 0 0x260; e 0 0x263; e 1 0x1F6; e 0 0x269; e 0 0x268;
  e 0 0x199; e 1 0x198; e 1 0x23D; e 3 0x0; e 0 0x26F; e 0 0x272; e 1 0x220; e 0 0x275;
  e 0 0x1A1; e 1 0x1A0; e 0 0x1A3; e 1 0x1A2; e 0 0x1A5; e 1 0x1A4; e 0 0x280; e 0 0x1A8;
  e 1 0x1A7; e 0 0x283; e 3 0x0; e 3 0x0; e 0 0x1AD; e 1 0x1AC; e 0 0x288; e 0 0x1B0;
  e 1 0x1AF; e 0 0x28A; e 0 0x28B; e 0 0x1B4; e 1 0x1B3; e 0 0x1B6; e 1 0x1B5; e 0 0x292;
  e 0 0x1B9; e 1 0x1B8; e 3 0x0; e 10 0x0; e 0 0x1BD; e 1 0x1BC; e 3 0x0; e 1 0x1F7;
  e 10 0x0; e 10 0x0; e 10 0x0; e 10 0x0; e 0 0x1C6; e 4 0x1C4; e 1 0x1C4; e 0 0x1C9;
  e 4 0x1C7; e 1 0x1C7; e 0 0x1CC; e 4 0x1CA; e 1 0x1CA; e 0 0x1CE; e 1 0x1CD; e 0 0x1D0;
  e 1 0x1CF; e 0 0x1D2; e 1 0x1D1; e 0 0x1D4; e 1 0x1D3; e 0 0x1D6; e 1 0x1D5; e 0 0x1D8;
  e 1 0x1D7; e 0 0x1DA; e 1 0x1D9; e 0 0x1DC; e 1 0x1DB; e 1 0x18E; e 0 0x1DF; e 1 0x1DE;
  e 0 0x1E1; e 1 0x1E0; e 0 0x1E3; e 1 0x1E2; e 0 0x1E5; e 1 0x1E4; e 0 0x1E7; e 1 0x1E6;
  e 0 0x1E9; e 1 0x1E8; e 0 0x1EB; e 1 0x1EA; e 0 0x1ED; e 1 0x1EC; e 0 0x1EF; e 1 0x1EE;
  e 3 0x0; e 0 0x1F3; e 4 0x1F1; e 1 0x1F1; e 0 0x1F5; e 1 0x1F4; e 0 0x195; e 0 0x1BF;
  e 0 0x1F9; e 1 0x1F8; e 0 0x1FB; e 1 0x1FA; e 0 0x1FD; e 1 0x1FC; e 0 0x1FF; e 1 0x1FE
].

Definition page_2 : list unichar := [
  e 0 0x201; e 1 0x200; e 0 0x203; e 1 0x202; e 0 0x205; e 1 0x204; e 0 0x207; e 1 0x206;
  e 0 0x209; e 1 0x208; e 0 0x20B; e 1 0x20A; e 0 0x20D; e 1 0x20C; e 0 0x20F; e 1 0x20E;
  e 0 0x211; e 1 0x210; e 0 0x213; e 1 0x212; e 0 0x215; e 1 0x214; e 0 0x217; e 1 0x216;
  e 0 0x219; e 1 0x218; e 0 0x21B; e 1 0x21A; e 0 0x21D; e 1 0x21C; e 0 0x21F; e 1 0x21E;
  e 0 0x19E; e 3 0x0; e 0 0x223; e 1 0x222; e 0 0x225; e 1 0x224; e 0 0x227; e 1 0x226;
  e 0 0x229; e 1 0x228; e 0 0x22B; e 1 0x22A; e 0 0x22D; e 1 0x22C; e 0 0x22F; e 1 0x22E;
  e 0 0x231; e 1 0x230; e 0 0x233; e 1 0x232; e 3 0x0; e 3 0x0; e 3 0x0; e 3 0x0;
  e 3 0x0; e 3 0x0; e 0 0x2C65; e 0 0x23C; e 1 0x23B; e 0 0x19A; e 0 0x2C66; e 1 0x2C7E;
  e 1 0x2C7F; e 0 0x242; e 1 0x241; e 0 0x180; e 0 0x289; e 0 0x28C; e 0 0x247; e 1 0x246;
  e 0 0x249; e 1 0x248; e 0 0x24B; e 1 0x24A; e 0 0x24D; e 1 0x24C; e 0 0x24F; e 1 0x24E;
  e 1 0x2C6F; e 1 0x2C6D; e 1 0x2C70; e 1 0x181; e 1 0x186; e 3 0x0; e 1 0x189; e 1 0x18A;
  e 3 0x0; e 1 0x18F; e 3 0x0; e 1 0x190; e 3 0x0; e 3 0x0; e 3 0x0; e 3 0x0;
  e 1 0x193; e 3 0x0; e 3 0x0; e 1 0x194; e 3 0x0; e 1 0xA78D; e 1 0xA7AA; e 3 0x0;
  e 1 0x197; e 1 0x196; e 3 0x0; e 1 0x2C62; e 3 0x0; e 3 0x0; e 3 0x0; e 1 0x19C;
  e 3 0x0; e 1 0x2C6E; e 1 0x19D; e 3 0x0; e 3 0x0; e 1 0x19F; e 3 0x0; e 3 0x0;
  e 3 0x0; e 3 0x0; e 3 0x0; e 3 0x0; e 3 0x0; e 1 0x2C64; e 3 0x0; e 3 0x0;
  e 1 0x1A6; e 3 0x0; e 3 0x0; e 1 0x1A9; e 3 0x0; e 3 0x0; e 3 0x0; e 3 0x0;
  e 1 0x1AE; e 1 0x244; e 1 0x1B1; e 1 0x1B2; e 1 0x245; e 3 0x0; e 3 0x0; e 3 0x0;
  e 3 0x0; e 3 0x0; e 1 0x1B7; e 3 0x0; e 10 0x0; e 3 0x0; e 3 0x0; e 3 0x0;
  e 3 0x0; e 3 0x0; e 3 0x0; e 3 0x0; e 3 0x0; e 3 0x0; e 3 0x0; e 3 0x0;
  e 3 0x0; e 3 0x0; e 3 0x0; e 3 0x0; e 3 0x0; e 3 0x0; e 3 0x0; e 3 0x0;
  e 3 0x0; e 3 0x0; e 3 0x0; e 3 0x0; e 3 0x0; e 3 0x0; e 3 0x0; e 3 0x0;
  e 6 0x0; e 6 0x0; e 6 0x0; e 6 0x0; e 6 0x0; e 6 0x0; e 6 0x0; e 6 0x0;
  e 6 0x0; e 7 0x0; e 7 0x0; e 6 0x0; e 6 0x0; e 6 0x0; e 6 0x0; e 6 0x0;
  e 6 0x0; e 6 0x0; e 201 0x0; e 201 0x0; e 201 0x0; e 201 0x0; e 7 0x0; e 7 0x0;
  e 7 0x0; e 7 0x0; e 7 0x0; e 7 0x0; e 7 0x0; e 7 0x0; e 7 0x0; e 7 0x0;
  e 6 0x0; e 6 0x0; e 201 0x0; e 201 0x0; e 201 0x0; e 201 0x0; e 201 0x0; e 201 0x0;
  e 201 0x0; e 201 0x0; e 201 0x0; e 201 0x0; e 201 0x0; e 201 0x0; e 201 0x0; e 201 0x0;
  e 6 0x0; e 6 0x0; e 6 0x0; e 6 0x0; e 6 0x0; e 201 0x0; e 201 0x0; e 201 0x0;
  e 201 0x0; e 201 0x0; e 201 0x0; e 201 0x0; e 7 0x0; e 201 0x0; e 6 0x0; e 201 0x0;
  e 201 0x0; e 201 0x0; e 201 0x0; e 201 0x0; e 201 0x0; e 201 0x0; e 201 0x0; e 201 0x0;
  e 201 0x0; e 201 0x0; e 201 0x0; e 201 0x0; e 201 0x0; e 201 0x0; e 201 0x0; e 201 0x0
].

Definition page_3 : list unichar := [
  e 84 0x0; e 84 0x0; e 84 0x0; e 84 0x0; e 84 0x0; e 84 0x0; e 84 0x0; e 84 0x0;
  e 84 0x0; e 84 0x0; e 84 0x0; e 84 0x0; e 84 0x0; e 84 0x0; e 84 0x0; e 84 0x0;
  e 84 0x0; e 84 0x0; e 84 0x0; e 84 0x0; e 84 0x0; e 85 0x0; e 81 0x0; e 81 0x0;
  e 81 0x0; e 81 0x0; e 85 0x0; e 79 0x0; e 81 0x0; e 81 0x0; e 81 0x0; e 81 0x0;
  e 81 0x0; e 77 0x0; e 77 0x0; e 81 0x0; e 81 0x0; e 81 0x0; e 81 0x0; e 77 0x0;
  e 77 0x0; e 81 0x0; e 81 0x0; e 81 0x0; e 81 0x0; e 81 0x0; e 81 0x0; e 81 0x0;
  e 81 0x0; e 81 0x0; e 81 0x0; e 81 0x0; e 37 0x0; e 37 0x0; e 37 0x0; e 37 0x0;
  e 37 0x0; e 81 0x0; e 81 0x0; e 81 0x0; e 81 0x0; e 84 0x0; e 84 0x0; e 84 0x0;
  e 84 0x0; e 84 0x0; e 84 0x0; e 84 0x0; e 84 0x0; e 88 0x399; e 84 0x0; e 81 0x0;
  e 81 0x0; e 81 0x0; e 84 0x0; e 84 0x0; e 84 0x0; e 81 0x0; e 81 0x0; e 36 0x0;
  e 84 0x0; e 84 0x0; e 84 0x0; e 81 0x0; e 81 0x0; e 81 0x0; e 81 0x0; e 84 0x0;
  e 85 0x0; e 81 0x0; e 81 0x0; e 84 0x0; e 86 0x0; e 87 0x0; e 87 0x0; e 86 0x0;
  e 87 0x0; e 87 0x0; e 86 0x0; e 84 0x0; e 84 0x0; e 84 0x0; e 84 0x0; e 84 0x0;
  e 84 0x0; e 84 0x0; e 84 0x0; e 84 0x0; e 84 0x0; e 84 0x0; e 84 0x0; e 84 0x0;
  e 0 0x371; e 1 0x370; e 0 0x373; e 1 0x372; e 7 0x0; e 201 0x0; e 0 0x377; e 1 0x376;
  e 255 0x0; e 255 0x0; e 6 0x0; e 1 0x3FD; e 1 0x3FE; e 1 0x3FF; e 193 0x0; e 255 0x0;
  e 255 0x0; e 255 0x0; e 255 0x0; e 255 0x0; e 201 0x0; e 201 0x0; e 0 0x3AC; e 193 0x0;
  e 0 0x3AD; e 0 0x3AE; e 0 0x3AF; e 255 0x0; e 0 0x3CC; e 255 0x0; e 0 0x3CD; e 0 0x3CE;
  e 3 0x0; e 0 0x3B1; e 0 0x3B2; e 0 0x3B3; e 0 0x3B4; e 0 0x3B5; e 0 0x3B6; e 0 0x3B7;
  e 0 0x3B8; e 0 0x3B9; e 0 0x3BA; e 0 0x3BB; e 0 0x3BC; e 0 0x3BD; e 0 0x3BE; e 0 0x3BF;
  e 0 0x3C0; e 0 0x3C1; e 255 0x0; e 0 0x3C3; e 0 0x3C4; e 0 0x3C5; e 0 0x3C6; e 0 0x3C7;
  e 0 0x3C8; e 0 0x3C9; e 0 0x3CA; e 0 0x3CB; e 1 0x386; e 1 0x388; e 1 0x389; e 1 0x38A;
  e 3 0x0; e 1 0x391; e 1 0x392; e 1 0x393; e 1 0x394; e 1 0x395; e 1 0x396; e 1 0x397;
  e 1 0x398; e 1 0x399; e 1 0x39A; e 1 0x39B; e 1 0x39C; e 1 0x39D; e 1 0x39E; e 1 0x39F;
  e 1 0x3A0; e 1 0x3A1; e 3 0x3A3; e 1 0x3A3; e 1 0x3A4; e 1 0x3A5; e 1 0x3A6; e 1 0x3A7;
  e 1 0x3A8; e 1 0x3A9; e 1 0x3AA; e 1 0x3AB; e 1 0x38C; e 1 0x38E; e 1 0x38F; e 0 0x3D7;
  e 3 0x392; e 3 0x398; e 2 0x0; e 2 0x0; e 2 0x0; e 3 0x3A6; e 3 0x3A0; e 1 0x3CF;
  e 0 0x3D9; e 1 0x3D8; e 0 0x3DB; e 1 0x3DA; e 0 0x3DD; e 1 0x3DC; e 0 0x3DF; e 1 0x3DE;
  e 0 0x3E1; e 1 0x3E0; e 0 0x3E3; e 1 0x3E2; e 0 0x3E5; e 1 0x3E4; e 0 0x3E7; e 1 0x3E6;
  e 0 0x3E9; e 1 0x3E8; e 0 0x3EB; e 1 0x3EA; e 0 0x3ED; e 1 0x3EC; e 0 0x3EF; e 1 0x3EE;
  e 3 0x39A; e 3 0x3A1; e 1 0x3F9; e 3 0x0; e 2 0x3B8; e 3 0x395; e 207 0x0; e 0 0x3F8;
  e 1 0x3F7; e 0 0x3F2; e 0 0x3FB; e 1 0x3FA; e 3 0x0; e 0 0x37B; e 0 0x37C; e 0 0x37D
].

Definition page_4 : list unichar := [
  e 0 0x450; e 0 0x451; e 0 0x452; e 0 0x453; e 0 0x454; e 0 0x455; e 0 0x456; e 0 0x457;
  e 0 0x458; e 0 0x459; e 0 0x45A; e 0 0x45B; e 0 0x45C; e 0 0x45D; e 0 0x45E; e 0 0x45F;
  e 0 0x430; e 0 0x431; e 0 0x432; e 0 0x433; e 0 0x434; e 0 0x435; e 0 0x436; e 0 0x437;
  e 0 0x438; e 0 0x439; e 0 0x43A; e 0 0x43B; e 0 0x43C; e 0 0x43D; e 0 0x43E; e 0 0x43F;
  e 0 0x440; e 0 0x441; e 0 0x442; e 0 0x443; e 0 0x444; e 0 0x445; e 0 0x446; e 0 0x447;
  e 0 0x448; e 0 0x449; e 0 0x44A; e 0 0x44B; e 0 0x44C; e 0 0x44D; e 0 0x44E; e 0 0x44F;
  e 1 0x410; e 1 0x411; e 1 0x412; e 1 0x413; e 1 0x414; e 1 0x415; e 1 0x416; e 1 0x417;
  e 1 0x418; e 1 0x419; e 1 0x41A; e 1 0x41B; e 1 0x41C; e 1 0x41D; e 1 0x41E; e 1 0x41F;
  e 1 0x420; e 1 0x421; e 1 0x422; e 1 0x423; e 1 0x424; e 1 0x425; e 1 0x426; e 1 0x427;
  e 1 0x428; e 1 0x429; e 1 0x42A; e 1 0x42B; e 1 0x42C; e 1 0x42D; e 1 0x42E; e 1 0x42F;
  e 1 0x400; e 1 0x401; e 1 0x402; e 1 0x403; e 1 0x404; e 1 0x405; e 1 0x406; e 1 0x407;
  e 1 0x408; e 1 0x409; e 1 0x40A; e 1 0x40B; e 1 0x40C; e 1 0x40D; e 1 0x40E; e 1 0x40F;
  e 0 0x461; e 1 0x460; e 0 0x463; e 1 0x462; e 0 0x465; e 1 0x464; e 0 0x467; e 1 0x466;
  e 0 0x469; e 1 0x468; e 0 0x46B; e 1 0x46A; e 0 0x46D; e 1 0x46C; e 0 0x46F; e 1 0x46E;
  e 0 0x471; e 1 0x470; e 0 0x473; e 1 0x472; e 0 0x475; e 1 0x474; e 0 0x477; e 1 0x476;
  e 0 0x479; e 1 0x478; e 0 0x47B; e 1 0x47A; e 0 0x47D; e 1 0x47C; e 0 0x47F; e 1 0x47E;
  e 0 0x481; e 1 0x480; e 211 0x0; e 84 0x0; e 84 0x0; e 84 0x0; e 84 0x0; e 84 0x0;
  e 34 0x0; e 34 0x0; e 0 0x48B; e 1 0x48A; e 0 0x48D; e 1 0x48C; e 0 0x48F; e 1 0x48E;
  e 0 0x491; e 1 0x490; e 0 0x493; e 1 0x492; e 0 0x495; e 1 0x494; e 0 0x497; e 1 0x496;
  e 0 0x499; e 1 0x498; e 0 0x49B; e 1 0x49A; e 0 0x49D; e 1 0x49C; e 0 0x49F; e 1 0x49E;
  e 0 0x4A1; e 1 0x4A0; e 0 0x4A3; e 1 0x4A2; e 0 0x4A5; e 1 0x4A4; e 0 0x4A7; e 1 0x4A6;
  e 0 0x4A9; e 1 0x4A8; e 0 0x4AB; e 1 0x4AA; e 0 0x4AD; e 1 0x4AC; e 0 0x4AF; e 1 0x4AE;
  e 0 0x4B1; e 1 0x4B0; e 0 0x4B3; e 1 0x4B2; e 0 0x4B5; e 1 0x4B4; e 0 0x4B7; e 1 0x4B6;
  e 0 0x4B9; e 1 0x4B8; e 0 0x4BB; e 1 0x4BA; e 0 0x4BD; e 1 0x4BC; e 0 0x4BF; e 1 0x4BE;
  e 0 0x4CF; e 0 0x4C2; e 1 0x4C1; e 0 0x4C4; e 1 0x4C3; e 0 0x4C6; e 1 0x4C5; e 0 0x4C8;
  e 1 0x4C7; e 0 0x4CA; e 1 0x4C9; e 0 0x4CC; e 1 0x4CB; e 0 0x4CE; e 1 0x4CD; e 1 0x4C0;
  e 0 0x4D1; e 1 0x4D0; e 0 0x4D3; e 1 0x4D2; e 0 0x4D5; e 1 0x4D4; e 0 0x4D7; e 1 0x4D6;
  e 0 0x4D9; e 1 0x4D8; e 0 0x4DB; e 1 0x4DA; e 0 0x4DD; e 1 0x4DC; e 0 0x4DF; e 1 0x4DE;
  e 0 0x4E1; e 1 0x4E0; e 0 0x4E3; e 1 0x4E2; e 0 0x4E5; e 1 0x4E4; e 0 0x4E7; e 1 0x4E6;
  e 0 0x4E9; e 1 0x4E8; e 0 0x4EB; e 1 0x4EA; e 0 0x4ED; e 1 0x4EC; e 0 0x4EF; e 1 0x4EE;
  e 0 0x4F1; e 1 0x4F0; e 0 0x4F3; e 1 0x4F2; e 0 0x4F5; e 1 0x4F4; e 0 0x4F7; e 1 0x4F6;
  e 0 0x4F9; e 1 0x4F8; e 0 0x4FB; e 1 0x4FA; e 0 0x4FD; e 1 0x4FC; e 0 0x4FF; e 1 0x4FE
].

Definition page_5 : list unichar := [
  e 0 0x501; e 1 0x500; e 0 0x503; e 1 0x502; e 0 0x505; e 1 0x504; e 0 0x507; e 1 0x506;
  e 0 0x509; e 1 0x508; e 0 0x50B; e 1 0x50A; e 0 0x50D; e 1 0x50C; e 0 0x50F; e 1 0x50E;
  e 0 0x511; e 1 0x510; e 0 0x513; e 1 0x512; e 0 0x515; e 1 0x514; e 0 0x517; e 1 0x516;
  e 0 0x519; e 1 0x518; e 0 0x51B; e 1 0x51A; e 0 0x51D; e 1 0x51C; e 0 0x51F; e 1 0x51E;
  e 0 0x521; e 1 0x520; e 0 0x523; e 1 0x522; e 0 0x525; e 1 0x524; e 0 0x527; e 1 0x526;
  e 255 0x0; e 255 0x0; e 255 0x0; e 255 0x0; e 255 0x0; e 255 0x0; e 255 0x0; e 255 0x0;
  e 255 0x0; e 0 0x561; e 0 0x562; e 0 0x563; e 0 0x564; e 0 0x565; e 0 0x566; e 0 0x567;
  e 0 0x568; e 0 0x569; e 0 0x56A; e 0 0x56B; e 0 0x56C; e 0 0x56D; e 0 0x56E; e 0 0x56F;
  e 0 0x570; e 0 0x571; e 0 0x572; e 0 0x573; e 0 0x574; e 0 0x575; e 0 0x576; e 0 0x577;
  e 0 0x578; e 0 0x579; e 0 0x57A; e 0 0x57B; e 0 0x57C; e 0 0x57D; e 0 0x57E; e 0 0x57F;
  e 0 0x580; e 0 0x581; e 0 0x582; e 0 0x583; e 0 0x584; e 0 0x585; e 0 0x586; e 255 0x0;
  e 255 0x0; e 6 0x0; e 192 0x0; e 192 0x0; e 192 0x0; e 192 0x0; e 192 0x0; e 192 0x0;
  e 255 0x0; e 1 0x531; e 1 0x532; e 1 0x533; e 1 0x534; e 1 0x535; e 1 0x536; e 1 0x537;
  e 1 0x538; e 1 0x539; e 1 0x53A; e 1 0x53B; e 1 0x53C; e 1 0x53D; e 1 0x53E; e 1 0x53F;
  e 1 0x540; e 1 0x541; e 1 0x542; e 1 0x543; e 1 0x544; e 1 0x545; e 1 0x546; e 1 0x547;
  e 1 0x548; e 1 0x549; e 1 0x54A; e 1 0x54B; e 1 0x54C; e 1 0x54D; e 1 0x54E; e 1 0x54F;
  e 1 0x550; e 1 0x551; e 1 0x552; e 1 0x553; e 1 0x554; e 1 0x555; e 1 0x556; e 3 0x0;
  e 255 0x0; e 192 0x0; e 180 0x0; e 255 0x0; e 255 0x0; e 255 0x0; e 255 0x0; e 198 0x0;
  e 255 0x0; e 81 0x0; e 84 0x0; e 84 0x0; e 84 0x0; e 84 0x0; e 81 0x0; e 84 0x0;
  e 84 0x0; e 84 0x0; e 82 0x0; e 81 0x0; e 84 0x0; e 84 0x0; e 84 0x0; e 84 0x0;
  e 84 0x0; e 84 0x0; e 81 0x0; e 81 0x0; e 81 0x0; e 81 0x0; e 81 0x0; e 81 0x0;
  e 84 0x0; e 84 0x0; e 81 0x0; e 84 0x0; e 84 0x0; e 82 0x0; e 83 0x0; e 84 0x0;
  e 41 0x0; e 42 0x0; e 43 0x0; e 44 0x0; e 45 0x0; e 46 0x0; e 47 0x0; e 48 0x0;
  e 49 0x0; e 50 0x0; e 50 0x0; e 51 0x0; e 52 0x0; e 53 0x0; e 181 0x0; e 54 0x0;
  e 194 0x0; e 55 0x0; e 56 0x0; e 194 0x0; e 84 0x0; e 81 0x0; e 194 0x0; e 49 0x0;
  e 255 0x0; e 255 0x0; e 255 0x0; e 255 0x0; e 255 0x0; e 255 0x0; e 255 0x0; e 255 0x0;
  e 11 0x0; e 11 0x0; e 11 0x0; e 11 0x0; e 11 0x0; e 11 0x0; e 11 0x0; e 11 0x0;
  e 11 0x0; e 11 0x0; e 11 0x0; e 11 0x0; e 11 0x0; e 11 0x0; e 11 0x0; e 11 0x0;
  e 11 0x0; e 11 0x0; e 11 0x0; e 11 0x0; e 11 0x0; e 11 0x0; e 11 0x0; e 11 0x0;
  e 11 0x0; e 11 0x0; e 11 0x0; e 255 0x0; e 255 0x0; e 255 0x0; e 255 0x0; e 255 0x0;
  e 11 0x0; e 11 0x0; e 11 0x0; e 194 0x0; e 194 0x0; e 255 0x0; e 255 0x0; e 255 0x0;
  e 255 0x0; e 255 0x0; e 255 0x0; e 255 0x0; e 255 0x0; e 255 0x0; e 255 0x0; e 255 0x0
].

Definition page_6 : list unichar := [
  e 17 0x0; e 17 0x0; e 17 0x0; e 17 0x0; e 17 0x0; e 255 0x0; e 207 0x0; e 207 0x0;
  e 202 0x0; e 191 0x0; e 191 0x0; e 197 0x0; e 190 0x0; e 188 0x0; e 212 0x0; e 212 0x0;
  e 84 0x0; e 84 0x0; e 84 0x0; e 84 0x0; e 84 0x0; e 84 0x0; e 84 0x0; e 84 0x0;
  e 61 0x0; e 62 0x0; e 63 0x0; e 188 0x0; e 255 0x0; e 255 0x0; e 188 0x0; e 188 0x0;
  e 9 0x0; e 9 0x0; e 9 0x0; e 9 0x0; e 9 0x0; e 9 0x0; e 9 0x0; e 9 0x0;
  e 9 0x0; e 9 0x0; e 9 0x0; e 9 0x0; e 9 0x0; e 9 0x0; e 9 0x0; e 9 0x0;
  e 9 0x0; e 9 0x0; e 9 0x0; e 9 0x0; e 9 0x0; e 9 0x0; e 9 0x0; e 9 0x0;
  e 9 0x0; e 9 0x0; e 9 0x0; e 9 0x0; e 9 0x0; e 9 0x0; e 9 0x0; e 9 0x0;
  e 5 0x0; e 9 0x0; e 9 0x0; e 9 0x0; e 9 0x0; e 9 0x0; e 9 0x0; e 9 0x0;
  e 9 0x0; e 9 0x0; e 9 0x0; e 58 0x0; e 59 0x0; e 60 0x0; e 61 0x0; e 62 0x0;
  e 63 0x0; e 64 0x0; e 65 0x0; e 84 0x0; e 84 0x0; e 81 0x0; e 81 0x0; e 84 0x0;
  e 84 0x0; e 84 0x0; e 84 0x0; e 84 0x0; e 81 0x0; e 84 0x0; e 84 0x0; e 81 0x0;
  e 89 0x0; e 90 0x0; e 91 0x0; e 92 0x0; e 93 0x0; e 94 0x0; e 95 0x0; e 96 0x0;
  e 97 0x0; e 98 0x0; e 191 0x0; e 189 0x0; e 189 0x0; e 188 0x0; e 9 0x0; e 9 0x0;
  e 66 0x0; e 9 0x0; e 9 0x0; e 9 0x0; e 9 0x0; e 9 0x0; e 9 0x0; e 9 0x0;
  e 9 0x0; e 9 0x0; e 9 0x0; e 9 0x0; e 9 0x0; e 9 0x0; e 9 0x0; e 9 0x0;
  e 9 0x0; e 9 0x0; e 9 0x0; e 9 0x0; e 9 0x0; e 9 0x0; e 9 0x0; e 9 0x0;
  e 9 0x0; e 9 0x0; e 9 0x0; e 9 0x0; e 9 0x0; e 9 0x0; e 9 0x0; e 9 0x0;
  e 9 0x0; e 9 0x0; e 9 0x0; e 9 0x0; e 9 0x0; e 9 0x0; e 9 0x0; e 9 0x0;
  e 9 0x0; e 9 0x0; e 9 0x0; e 9 0x0; e 9 0x0; e 9 0x0; e 9 0x0; e 9 0x0;
  e 9 0x0; e 9 0x0; e 9 0x0; e 9 0x0; e 9 0x0; e 9 0x0; e 9 0x0; e 9 0x0;
  e 9 0x0; e 9 0x0; e 9 0x0; e 9 0x0; e 9 0x0; e 9 0x0; e 9 0x0; e 9 0x0;
  e 9 0x0; e 9 0x0; e 9 0x0; e 9 0x0; e 9 0x0; e 9 0x0; e 9 0x0; e 9 0x0;
  e 9 0x0; e 9 0x0; e 9 0x0; e 9 0x0; e 9 0x0; e 9 0x0; e 9 0x0; e 9 0x0;
  e 9 0x0; e 9 0x0; e 9 0x0; e 9 0x0; e 9 0x0; e 9 0x0; e 9 0x0; e 9 0x0;
  e 9 0x0; e 9 0x0; e 9 0x0; e 9 0x0; e 9 0x0; e 9 0x0; e 9 0x0; e 9 0x0;
  e 9 0x0; e 9 0x0; e 9 0x0; e 9 0x0; e 188 0x0; e 9 0x0; e 84 0x0; e 84 0x0;
  e 84 0x0; e 84 0x0; e 84 0x0; e 84 0x0; e 84 0x0; e 17 0x0; e 212 0x0; e 84 0x0;
  e 84 0x0; e 84 0x0; e 84 0x0; e 81 0x0; e 84 0x0; e 5 0x0; e 5 0x0; e 84 0x0;
  e 84 0x0; e 212 0x0; e 81 0x0; e 84 0x0; e 84 0x0; e 81 0x0; e 9 0x0; e 9 0x0;
  e 99 0x0; e 100 0x0; e 101 0x0; e 102 0x0; e 103 0x0; e 104 0x0; e 105 0x0; e 106 0x0;
  e 107 0x0; e 108 0x0; e 9 0x0; e 9 0x0; e 9 0x0; e 209 0x0; e 209 0x0; e 9 0x0
].

Definition page_7 : list unichar := [
  e 188 0x0; e 188 0x0; e 188 0x0; e 188 0x0; e 188 0x0; e 188 0x0; e 188 0x0; e 188 0x0;
  e 188 0x0; e 188 0x0; e 188 0x0; e 188 0x0; e 188 0x0; e 188 0x0; e 255 0x0; e 16 0x0;
  e 9 0x0; e 67 0x0; e 9 0x0; e 9 0x0; e 9 0x0; e 9 0x0; e 9 0x0; e 9 0x0;
  e 9 0x0; e 9 0x0; e 9 0x0; e 9 0x0; e 9 0x0; e 9 0x0; e 9 0x0; e 9 0x0;
  e 9 0x0; e 9 0x0; e 9 0x0; e 9 0x0; e 9 0x0; e 9 0x0; e 9 0x0; e 9 0x0;
  e 9 0x0; e 9 0x0; e 9 0x0; e 9 0x0; e 9 0x0; e 9 0x0; e 9 0x0; e 9 0x0;
  e 84 0x0; e 81 0x0; e 84 0x0; e 84 0x0; e 81 0x0; e 84 0x0; e 84 0x0; e 81 0x0;
  e 81 0x0; e 81 0x0; e 84 0x0; e 81 0x0; e 81 0x0; e 84 0x0; e 81 0x0; e 84 0x0;
  e 84 0x0; e 84 0x0; e 81 0x0; e 84 0x0; e 81 0x0; e 84 0x0; e 81 0x0; e 84 0x0;
  e 81 0x0; e 84 0x0; e 84 0x0; e 255 0x0; e 255 0x0; e 9 0x0; e 9 0x0; e 9 0x0;
  e 9 0x0; e 9 0x0; e 9 0x0; e 9 0x0; e 9 0x0; e 9 0x0; e 9 0x0; e 9 0x0;
  e 9 0x0; e 9 0x0; e 9 0x0; e 9 0x0; e 9 0x0; e 9 0x0; e 9 0x0; e 9 0x0;
  e 9 0x0; e 9 0x0; e 9 0x0; e 9 0x0; e 9 0x0; e 9 0x0; e 9 0x0; e 9 0x0;
  e 9 0x0; e 9 0x0; e 9 0x0; e 9 0x0; e 9 0x0; e 9 0x0; e 9 0x0; e 9 0x0;
  e 9 0x0; e 9 0x0; e 9 0x0; e 9 0x0; e 9 0x0; e 9 0x0; e 9 0x0; e 9 0x0;
  e 9 0x0; e 9 0x0; e 9 0x0; e 9 0x0; e 9 0x0; e 9 0x0; e 9 0x0; e 9 0x0;
  e 9 0x0; e 9 0x0; e 9 0x0; e 9 0x0; e 9 0x0; e 9 0x0; e 9 0x0; e 9 0x0;
  e 9 0x0; e 9 0x0; e 9 0x0; e 9 0x0; e 9 0x0; e 9 0x0; e 9 0x0; e 9 0x0;
  e 9 0x0; e 9 0x0; e 9 0x0; e 9 0x0; e 9 0x0; e 9 0x0; e 9 0x0; e 9 0x0;
  e 9 0x0; e 9 0x0; e 9 0x0; e 9 0x0; e 9 0x0; e 9 0x0; e 9 0x0; e 9 0x0;
  e 9 0x0; e 9 0x0; e 9 0x0; e 9 0x0; e 9 0x0; e 9 0x0; e 36 0x0; e 36 0x0;
  e 36 0x0; e 36 0x0; e 36 0x0; e 36 0x0; e 36 0x0; e 36 0x0; e 36 0x0; e 36 0x0;
  e 36 0x0; e 9 0x0; e 255 0x0; e 255 0x0; e 255 0x0; e 255 0x0; e 255 0x0; e 255 0x0;
  e 255 0x0; e 255 0x0; e 255 0x0; e 255 0x0; e 255 0x0; e 255 0x0; e 255 0x0; e 255 0x0;
  e 119 0x0; e 120 0x0; e 121 0x0; e 122 0x0; e 123 0x0; e 124 0x0; e 125 0x0; e 126 0x0;
  e 127 0x0; e 128 0x0; e 11 0x0; e 11 0x0; e 11 0x0; e 11 0x0; e 11 0x0; e 11 0x0;
  e 11 0x0; e 11 0x0; e 11 0x0; e 11 0x0; e 11 0x0; e 11 0x0; e 11 0x0; e 11 0x0;
  e 11 0x0; e 11 0x0; e 11 0x0; e 11 0x0; e 11 0x0; e 11 0x0; e 11 0x0; e 11 0x0;
  e 11 0x0; e 11 0x0; e 11 0x0; e 11 0x0; e 11 0x0; e 11 0x0; e 11 0x0; e 11 0x0;
  e 11 0x0; e 11 0x0; e 11 0x0; e 84 0x0; e 84 0x0; e 84 0x0; e 84 0x0; e 84 0x0;
  e 84 0x0; e 84 0x0; e 81 0x0; e 84 0x0; e 8 0x0; e 8 0x0; e 212 0x0; e 193 0x0;
  e 193 0x0; e 193 0x0; e 8 0x0; e 255 0x0; e 255 0x0; e 255 0x0; e 255 0x0; e 255 0x0
].

Definition page_8 : list unichar := [
  e 11 0x0; e 11 0x0; e 11 0x0; e 11 0x0; e 11 0x0; e 11 0x0; e 11 0x0; e 11 0x0;
  e 11 0x0; e 11 0x0; e 11 0x0; e 11 0x0; e 11 0x0; e 11 0x0; e 11 0x0; e 11 0x0;
  e 11 0x0; e 11 0x0; e 11 0x0; e 11 0x0; e 11 0x0; e 11 0x0; e 84 0x0; e 84 0x0;
  e 84 0x0; e 84 0x0; e 8 0x0; e 84 0x0; e 84 0x0; e 84 0x0; e 84 0x0; e 84 0x0;
  e 84 0x0; e 84 0x0; e 84 0x0; e 84 0x0; e 8 0x0; e 84 0x0; e 84 0x0; e 84 0x0;
  e 8 0x0; e 84 0x0; e 84 0x0; e 84 0x0; e 84 0x0; e 84 0x0; e 255 0x0; e 255 0x0;
  e 194 0x0; e 194 0x0; e 194 0x0; e 194 0x0; e 194 0x0; e 194 0x0; e 194 0x0; e 194 0x0;
  e 194 0x0; e 194 0x0; e 194 0x0; e 194 0x0; e 194 0x0; e 194 0x0; e 194 0x0; e 255 0x0;
  e 11 0x0; e 11 0x0; e 11 0x0; e 11 0x0; e 11 0x0; e 11 0x0; e 11 0x0; e 11 0x0;
  e 11 0x0; e 11 0x0; e 11 0x0; e 11 0x0; e 11 0x0; e 11 0x0; e 11 0x0; e 11 0x0;
  e 11 0x0; e 11 0x0; e 11 0x0; e 11 0x0; e 11 0x0; e 11 0x0; e 11 0x0; e 11 0x0;
  e 11 0x0; e 81 0x0; e 81 0x0; e 81 0x0; e 255 0x0; e 255 0x0; e 194 0x0; e 255 0x0;
  e 255 0x0; e 255 0x0; e 255 0x0; e 255 0x0; e 255 0x0; e 255 0x0; e 255 0x0; e 255 0x0;
  e 255 0x0; e 255 0x0; e 255 0x0; e 255 0x0; e 255 0x0; e 255 0x0; e 255 0x0; e 255 0x0;
  e 255 0x0; e 255 0x0; e 255 0x0; e 255 0x0; e 255 0x0; e 255 0x0; e 255 0x0; e 255 0x0;
  e 255 0x0; e 255 0x0; e 255 0x0; e 255 0x0; e 255 0x0; e 255 0x0; e 255 0x0; e 255 0x0;
  e 255 0x0; e 255 0x0; e 255 0x0; e 255 0x0; e 255 0x0; e 255 0x0; e 255 0x0; e 255 0x0;
  e 255 0x0; e 255 0x0; e 255 0x0; e 255 0x0; e 255 0x0; e 255 0x0; e 255 0x0; e 255 0x0;
  e 255 0x0; e 255 0x0; e 255 0x0; e 255 0x0; e 255 0x0; e 255 0x0; e 255 0x0; e 255 0x0;
  e 255 0x0; e 255 0x0; e 255 0x0; e 255 0x0; e 255 0x0; e 255 0x0; e 255 0x0; e 255 0x0;
  e 9 0x0; e 255 0x0; e 9 0x0; e 9 0x0; e 9 0x0; e 9 0x0; e 9 0x0; e 9 0x0;
  e 9 0x0; e 9 0x0; e 9 0x0; e 9 0x0; e 9 0x0; e 255 0x0; e 255 0x0; e 255 0x0;
  e 255 0x0; e 255 0x0; e 255 0x0; e 255 0x0; e 255 0x0; e 255 0x0; e 255 0x0; e 255 0x0;
  e 255 0x0; e 255 0x0; e 255 0x0; e 255 0x0; e 255 0x0; e 255 0x0; e 255 0x0; e 255 0x0;
  e 255 0x0; e 255 0x0; e 255 0x0; e 255 0x0; e 255 0x0; e 255 0x0; e 255 0x0; e 255 0x0;
  e 255 0x0; e 255 0x0; e 255 0x0; e 255 0x0; e 255 0x0; e 255 0x0; e 255 0x0; e 255 0x0;
  e 255 0x0; e 255 0x0; e 255 0x0; e 255 0x0; e 255 0x0; e 255 0x0; e 255 0x0; e 255 0x0;
  e 255 0x0; e 255 0x0; e 255 0x0; e 255 0x0; e 255 0x0; e 255 0x0; e 255 0x0; e 255 0x0;
  e 255 0x0; e 255 0x0; e 255 0x0; e 255 0x0; e 84 0x0; e 84 0x0; e 81 0x0; e 84 0x0;
  e 84 0x0; e 81 0x0; e 84 0x0; e 84 0x0; e 84 0x0; e 81 0x0; e 81 0x0; e 81 0x0;
  e 58 0x0; e 59 0x0; e 60 0x0; e 84 0x0; e 84 0x0; e 84 0x0; e 81 0x0; e 84 0x0;
  e 84 0x0; e 81 0x0; e 81 0x0; e 84 0x0; e 84 0x0; e 84 0x0; e 84 0x0; e 255 0x0
].

Definition page_9 : list unichar := [
  e 36 0x0; e 36 0x0; e 36 0x0; e 29 0x0; e 10 0x0; e 10 0x0; e 10 0x0; e 10 0x0;
  e 10 0x0; e 10 0x0; e 10 0x0; e 10 0x0; e 10 0x0; e 10 0x0; e 10 0x0; e 10 0x0;
  e 10 0x0; e 10 0x0; e 10 0x0; e 10 0x0; e 10 0x0; e 10 0x0; e 10 0x0; e 10 0x0;
  e 10 0x0; e 10 0x0; e 10 0x0; e 10 0x0; e 10 0x0; e 10 0x0; e 10 0x0; e 10 0x0;
  e 10 0x0; e 10 0x0; e 10 0x0; e 10 0x0; e 10 0x0; e 10 0x0; e 10 0x0; e 10 0x0;
  e 10 0x0; e 10 0x0; e 10 0x0; e 10 0x0; e 10 0x0; e 10 0x0; e 10 0x0; e 10 0x0;
  e 10 0x0; e 10 0x0; e 10 0x0; e 10 0x0; e 10 0x0; e 10 0x0; e 10 0x0; e 10 0x0;
  e 10 0x0; e 10 0x0; e 36 0x0; e 29 0x0; e 38 0x0; e 10 0x0; e 29 0x0; e 29 0x0;
  e 29 0x0; e 36 0x0; e 36 0x0; e 36 0x0; e 36 0x0; e 36 0x0; e 36 0x0; e 36 0x0;
  e 36 0x0; e 29 0x0; e 29 0x0; e 29 0x0; e 29 0x0; e 40 0x0; e 29 0x0; e 29 0x0;
  e 10 0x0; e 84 0x0; e 81 0x0; e 84 0x0; e 84 0x0; e 36 0x0; e 36 0x0; e 36 0x0;
  e 10 0x0; e 10 0x0; e 10 0x0; e 10 0x0; e 10 0x0; e 10 0x0; e 10 0x0; e 10 0x0;
  e 10 0x0; e 10 0x0; e 36 0x0; e 36 0x0; e 192 0x0; e 192 0x0; e 109 0x0; e 110 0x0;
  e 111 0x0; e 112 0x0; e 113 0x0; e 114 0x0; e 115 0x0; e 116 0x0; e 117 0x0; e 118 0x0;
  e 192 0x0; e 6 0x0; e 10 0x0; e 10 0x0; e 10 0x0; e 10 0x0; e 10 0x0; e 10 0x0;
  e 255 0x0; e 10 0x0; e 10 0x0; e 10 0x0; e 10 0x0; e 10 0x0; e 10 0x0; e 10 0x0;
  e 255 0x0; e 36 0x0; e 29 0x0; e 29 0x0; e 255 0x0; e 10 0x0; e 10 0x0; e 10 0x0;
  e 10 0x0; e 10 0x0; e 10 0x0; e 10 0x0; e 10 0x0; e 255 0x0; e 255 0x0; e 10 0x0;
  e 10 0x0; e 255 0x0; e 255 0x0; e 10 0x0; e 10 0x0; e 10 0x0; e 10 0x0; e 10 0x0;
  e 10 0x0; e 10 0x0; e 10 0x0; e 10 0x0; e 10 0x0; e 10 0x0; e 10 0x0; e 10 0x0;
  e 10 0x0; e 10 0x0; e 10 0x0; e 10 0x0; e 10 0x0; e 10 0x0; e 10 0x0; e 10 0x0;
  e 10 0x0; e 255 0x0; e 10 0x0; e 10 0x0; e 10 0x0; e 10 0x0; e 10 0x0; e 10 0x0;
  e 10 0x0; e 255 0x0; e 10 0x0; e 255 0x0; e 255 0x0; e 255 0x0; e 10 0x0; e 10 0x0;
  e 10 0x0; e 10 0x0; e 255 0x0; e 255 0x0; e 38 0x0; e 10 0x0; e 29 0x0; e 29 0x0;
  e 29 0x0; e 36 0x0; e 36 0x0; e 36 0x0; e 36 0x0; e 255 0x0; e 255 0x0; e 29 0x0;
  e 29 0x0; e 255 0x0; e 255 0x0; e 29 0x0; e 29 0x0; e 40 0x0; e 10 0x0; e 255 0x0;
  e 255 0x0; e 255 0x0; e 255 0x0; e 255 0x0; e 255 0x0; e 255 0x0; e 255 0x0; e 29 0x0;
  e 255 0x0; e 255 0x0; e 255 0x0; e 255 0x0; e 10 0x0; e 10 0x0; e 255 0x0; e 10 0x0;
  e 10 0x0; e 10 0x0; e 36 0x0; e 36 0x0; e 255 0x0; e 255 0x0; e 109 0x0; e 110 0x0;
  e 111 0x0; e 112 0x0; e 113 0x0; e 114 0x0; e 115 0x0; e 116 0x0; e 117 0x0; e 118 0x0;
  e 10 0x0; e 10 0x0; e 198 0x0; e 198 0x0; e 152 0x0; e 152 0x0; e 152 0x0; e 152 0x0;
  e 152 0x0; e 152 0x0; e 211 0x0; e 198 0x0; e 255 0x0; e 255 0x0; e 255 0x0; e 255 0x0
].

Definition page_10 : list unichar := [
  e 255 0x0; e 36 0x0; e 36 0x0; e 29 0x0; e 255 0x0; e 10 0x0; e 10 0x0; e 10 0x0;
  e 10 0x0; e 10 0x0; e 10 0x0; e 255 0x0; e 255 0x0; e 255 0x0; e 255 0x0; e 10 0x0;
  e 10 0x0; e 255 0x0; e 255 0x0; e 10 0x0; e 10 0x0; e 10 0x0; e 10 0x0; e 10 0x0;
  e 10 0x0; e 10 0x0; e 10 0x0; e 10 0x0; e 10 0x0; e 10 0x0; e 10 0x0; e 10 0x0;
  e 10 0x0; e 10 0x0; e 10 0x0; e 10 0x0; e 10 0x0; e 10 0x0; e 10 0x0; e 10 0x0;
  e 10 0x0; e 255 0x0; e 10 0x0; e 10 0x0; e 10 0x0; e 10 0x0; e 10 0x0; e 10 0x0;
  e 10 0x0; e 255 0x0; e 10 0x0; e 10 0x0; e 255 0x0; e 10 0x0; e 10 0x0; e 255 0x0;
  e 10 0x0; e 10 0x0; e 255 0x0; e 255 0x0; e 38 0x0; e 255 0x0; e 29 0x0; e 29 0x0;
  e 29 0x0; e 36 0x0; e 36 0x0; e 255 0x0; e 255 0x0; e 255 0x0; e 255 0x0; e 36 0x0;
  e 36 0x0; e 255 0x0; e 255 0x0; e 36 0x0; e 36 0x0; e 40 0x0; e 255 0x0; e 255 0x0;
  e 255 0x0; e 36 0x0; e 255 0x0; e 255 0x0; e 255 0x0; e 255 0x0; e 255 0x0; e 255 0x0;
  e 255 0x0; e 10 0x0; e 10 0x0; e 10 0x0; e 10 0x0; e 255 0x0; e 10 0x0; e 255 0x0;
  e 255 0x0; e 255 0x0; e 255 0x0; e 255 0x0; e 255 0x0; e 255 0x0; e 109 0x0; e 110 0x0;
  e 111 0x0; e 112 0x0; e 113 0x0; e 114 0x0; e 115 0x0; e 116 0x0; e 117 0x0; e 118 0x0;
  e 36 0x0; e 36 0x0; e 10 0x0; e 10 0x0; e 10 0x0; e 36 0x0; e 255 0x0; e 255 0x0;
  e 255 0x0; e 255 0x0; e 255 0x0; e 255 0x0; e 255 0x0; e 255 0x0; e 255 0x0; e 255 0x0;
  e 255 0x0; e 36 0x0; e 36 0x0; e 29 0x0; e 255 0x0; e 10 0x0; e 10 0x0; e 10 0x0;
  e 10 0x0; e 10 0x0; e 10 0x0; e 10 0x0; e 10 0x0; e 10 0x0; e 255 0x0; e 10 0x0;
  e 10 0x0; e 10 0x0; e 255 0x0; e 10 0x0; e 10 0x0; e 10 0x0; e 10 0x0; e 10 0x0;
  e 10 0x0; e 10 0x0; e 10 0x0; e 10 0x0; e 10 0x0; e 10 0x0; e 10 0x0; e 10 0x0;
  e 10 0x0; e 10 0x0; e 10 0x0; e 10 0x0; e 10 0x0; e 10 0x0; e 10 0x0; e 10 0x0;
  e 10 0x0; e 255 0x0; e 10 0x0; e 10 0x0; e 10 0x0; e 10 0x0; e 10 0x0; e 10 0x0;
  e 10 0x0; e 255 0x0; e 10 0x0; e 10 0x0; e 255 0x0; e 10 0x0; e 10 0x0; e 10 0x0;
  e 10 0x0; e 10 0x0; e 255 0x0; e 255 0x0; e 38 0x0; e 10 0x0; e 29 0x0; e 29 0x0;
  e 29 0x0; e 36 0x0; e 36 0x0; e 36 0x0; e 36 0x0; e 36 0x0; e 255 0x0; e 36 0x0;
  e 36 0x0; e 29 0x0; e 255 0x0; e 29 0x0; e 29 0x0; e 40 0x0; e 255 0x0; e 255 0x0;
  e 10 0x0; e 255 0x0; e 255 0x0; e 255 0x0; e 255 0x0; e 255 0x0; e 255 0x0; e 255 0x0;
  e 255 0x0; e 255 0x0; e 255 0x0; e 255 0x0; e 255 0x0; e 255 0x0; e 255 0x0; e 255 0x0;
  e 10 0x0; e 10 0x0; e 36 0x0; e 36 0x0; e 255 0x0; e 255 0x0; e 109 0x0; e 110 0x0;
  e 111 0x0; e 112 0x0; e 113 0x0; e 114 0x0; e 115 0x0; e 116 0x0; e 117 0x0; e 118 0x0;
  e 192 0x0; e 198 0x0; e 255 0x0; e 255 0x0; e 255 0x0; e 255 0x0; e 255 0x0; e 255 0x0;
  e 255 0x0; e 255 0x0; e 255 0x0; e 255 0x0; e 255 0x0; e 255 0x0; e 255 0x0; e 255 0x0
].

Definition page_11 : list unichar := [
  e 255 0x0; e 36 0x0; e 29 0x0; e 29 0x0; e 255 0x0; e 10 0x0; e 10 0x0; e 10 0x0;
  e 10 0x0; e 10 0x0; e 10 0x0; e 10 0x0; e 10 0x0; e 255 0x0; e 255 0x0; e 10 0x0;
  e 10 0x0; e 255 0x0; e 255 0x0; e 10 0x0; e 10 0x0; e 10 0x0; e 10 0x0; e 10 0x0;
  e 10 0x0; e 10 0x0; e 10 0x0; e 10 0x0; e 10 0x0; e 10 0x0; e 10 0x0; e 10 0x0;
  e 10 0x0; e 10 0x0; e 10 0x0; e 10 0x0; e 10 0x0; e 10 0x0; e 10 0x0; e 10 0x0;
  e 10 0x0; e 255 0x0; e 10 0x0; e 10 0x0; e 10 0x0; e 10 0x0; e 10 0x0; e 10 0x0;
  e 10 0x0; e 255 0x0; e 10 0x0; e 10 0x0; e 255 0x0; e 10 0x0; e 10 0x0; e 10 0x0;
  e 10 0x0; e 10 0x0; e 255 0x0; e 255 0x0; e 38 0x0; e 10 0x0; e 29 0x0; e 36 0x0;
  e 29 0x0; e 36 0x0; e 36 0x0; e 36 0x0; e 36 0x0; e 255 0x0; e 255 0x0; e 29 0x0;
  e 29 0x0; e 255 0x0; e 255 0x0; e 29 0x0; e 29 0x0; e 40 0x0; e 255 0x0; e 255 0x0;
  e 255 0x0; e 255 0x0; e 255 0x0; e 255 0x0; e 255 0x0; e 255 0x0; e 36 0x0; e 29 0x0;
  e 255 0x0; e 255 0x0; e 255 0x0; e 255 0x0; e 10 0x0; e 10 0x0; e 255 0x0; e 10 0x0;
  e 10 0x0; e 10 0x0; e 36 0x0; e 36 0x0; e 255 0x0; e 255 0x0; e 109 0x0; e 110 0x0;
  e 111 0x0; e 112 0x0; e 113 0x0; e 114 0x0; e 115 0x0; e 116 0x0; e 117 0x0; e 118 0x0;
  e 211 0x0; e 10 0x0; e 152 0x0; e 152 0x0; e 152 0x0; e 152 0x0; e 152 0x0; e 152 0x0;
  e 255 0x0; e 255 0x0; e 255 0x0; e 255 0x0; e 255 0x0; e 255 0x0; e 255 0x0; e 255 0x0;
  e 255 0x0; e 255 0x0; e 36 0x0; e 10 0x0; e 255 0x0; e 10 0x0; e 10 0x0; e 10 0x0;
  e 10 0x0; e 10 0x0; e 10 0x0; e 255 0x0; e 255 0x0; e 255 0x0; e 10 0x0; e 10 0x0;
  e 10 0x0; e 255 0x0; e 10 0x0; e 10 0x0; e 10 0x0; e 10 0x0; e 255 0x0; e 255 0x0;
  e 255 0x0; e 10 0x0; e 10 0x0; e 255 0x0; e 10 0x0; e 255 0x0; e 10 0x0; e 10 0x0;
  e 255 0x0; e 255 0x0; e 255 0x0; e 10 0x0; e 10 0x0; e 255 0x0; e 255 0x0; e 255 0x0;
  e 10 0x0; e 10 0x0; e 10 0x0; e 255 0x0; e 255 0x0; e 255 0x0; e 10 0x0; e 10 0x0;
  e 10 0x0; e 10 0x0; e 10 0x0; e 10 0x0; e 10 0x0; e 10 0x0; e 10 0x0; e 10 0x0;
  e 10 0x0; e 10 0x0; e 255 0x0; e 255 0x0; e 255 0x0; e 255 0x0; e 29 0x0; e 29 0x0;
  e 36 0x0; e 29 0x0; e 29 0x0; e 255 0x0; e 255 0x0; e 255 0x0; e 29 0x0; e 29 0x0;
  e 29 0x0; e 255 0x0; e 29 0x0; e 29 0x0; e 29 0x0; e 40 0x0; e 255 0x0; e 255 0x0;
  e 10 0x0; e 255 0x0; e 255 0x0; e 255 0x0; e 255 0x0; e 255 0x0; e 255 0x0; e 29 0x0;
  e 255 0x0; e 255 0x0; e 255 0x0; e 255 0x0; e 255 0x0; e 255 0x0; e 255 0x0; e 255 0x0;
  e 255 0x0; e 255 0x0; e 255 0x0; e 255 0x0; e 255 0x0; e 255 0x0; e 109 0x0; e 110 0x0;
  e 111 0x0; e 112 0x0; e 113 0x0; e 114 0x0; e 115 0x0; e 116 0x0; e 117 0x0; e 118 0x0;
  e 152 0x0; e 152 0x0; e 152 0x0; e 212 0x0; e 212 0x0; e 212 0x0; e 212 0x0; e 212 0x0;
  e 212 0x0; e 198 0x0; e 212 0x0; e 255 0x0; e 255 0x0; e 255 0x0; e 255 0x0; e 255 0x0
].

Definition page_12 : list unichar := [
  e 255 0x0; e 29 0x0; e 29 0x0; e 29 0x0; e 255 0x0; e 10 0x0; e 10 0x0; e 10 0x0;
  e 10 0x0; e 10 0x0; e 10 0x0; e 10 0x0; e 10 0x0; e 255 0x0; e 10 0x0; e 10 0x0;
  e 10 0x0; e 255 0x0; e 10 0x0; e 10 0x0; e 10 0x0; e 10 0x0; e 10 0x0; e 10 0x0;
  e 10 0x0; e 10 0x0; e 10 0x0; e 10 0x0; e 10 0x0; e 10 0x0; e 10 0x0; e 10 0x0;
  e 10 0x0; e 10 0x0; e 10 0x0; e 10 0x0; e 10 0x0; e 10 0x0; e 10 0x0; e 10 0x0;
  e 10 0x0; e 255 0x0; e 10 0x0; e 10 0x0; e 10 0x0; e 10 0x0; e 10 0x0; e 10 0x0;
  e 10 0x0; e 10 0x0; e 10 0x0; e 10 0x0; e 255 0x0; e 10 0x0; e 10 0x0; e 10 0x0;
  e 10 0x0; e 10 0x0; e 255 0x0; e 255 0x0; e 255 0x0; e 10 0x0; e 36 0x0; e 36 0x0;
  e 36 0x0; e 29 0x0; e 29 0x0; e 29 0x0; e 29 0x0; e 255 0x0; e 36 0x0; e 36 0x0;
  e 36 0x0; e 255 0x0; e 36 0x0; e 36 0x0; e 36 0x0; e 40 0x0; e 255 0x0; e 255 0x0;
  e 255 0x0; e 255 0x0; e 255 0x0; e 255 0x0; e 255 0x0; e 68 0x0; e 69 0x0; e 255 0x0;
  e 10 0x0; e 10 0x0; e 255 0x0; e 255 0x0; e 255 0x0; e 255 0x0; e 255 0x0; e 255 0x0;
  e 10 0x0; e 10 0x0; e 36 0x0; e 36 0x0; e 255 0x0; e 255 0x0; e 109 0x0; e 110 0x0;
  e 111 0x0; e 112 0x0; e 113 0x0; e 114 0x0; e 115 0x0; e 116 0x0; e 117 0x0; e 118 0x0;
  e 255 0x0; e 255 0x0; e 255 0x0; e 255 0x0; e 255 0x0; e 255 0x0; e 255 0x0; e 255 0x0;
  e 162 0x0; e 162 0x0; e 162 0x0; e 162 0x0; e 162 0x0; e 162 0x0; e 162 0x0; e 211 0x0;
  e 255 0x0; e 255 0x0; e 29 0x0; e 29 0x0; e 255 0x0; e 10 0x0; e 10 0x0; e 10 0x0;
  e 10 0x0; e 10 0x0; e 10 0x0; e 10 0x0; e 10 0x0; e 255 0x0; e 10 0x0; e 10 0x0;
  e 10 0x0; e 255 0x0; e 10 0x0; e 10 0x0; e 10 0x0; e 10 0x0; e 10 0x0; e 10 0x0;
  e 10 0x0; e 10 0x0; e 10 0x0; e 10 0x0; e 10 0x0; e 10 0x0; e 10 0x0; e 10 0x0;
  e 10 0x0; e 10 0x0; e 10 0x0; e 10 0x0; e 10 0x0; e 10 0x0; e 10 0x0; e 10 0x0;
  e 10 0x0; e 255 0x0; e 10 0x0; e 10 0x0; e 10 0x0; e 10 0x0; e 10 0x0; e 10 0x0;
  e 10 0x0; e 10 0x0; e 10 0x0; e 10 0x0; e 255 0x0; e 10 0x0; e 10 0x0; e 10 0x0;
  e 10 0x0; e 10 0x0; e 255 0x0; e 255 0x0; e 38 0x0; e 10 0x0; e 29 0x0; e 35 0x0;
  e 29 0x0; e 29 0x0; e 29 0x0; e 29 0x0; e 29 0x0; e 255 0x0; e 35 0x0; e 29 0x0;
  e 29 0x0; e 255 0x0; e 29 0x0; e 29 0x0; e 36 0x0; e 40 0x0; e 255 0x0; e 255 0x0;
  e 255 0x0; e 255 0x0; e 255 0x0; e 255 0x0; e 255 0x0; e 29 0x0; e 29 0x0; e 255 0x0;
  e 255 0x0; e 255 0x0; e 255 0x0; e 255 0x0; e 255 0x0; e 255 0x0; e 10 0x0; e 255 0x0;
  e 10 0x0; e 10 0x0; e 36 0x0; e 36 0x0; e 255 0x0; e 255 0x0; e 109 0x0; e 110 0x0;
  e 111 0x0; e 112 0x0; e 113 0x0; e 114 0x0; e 115 0x0; e 116 0x0; e 117 0x0; e 118 0x0;
  e 255 0x0; e 10 0x0; e 10 0x0; e 255 0x0; e 255 0x0; e 255 0x0; e 255 0x0; e 255 0x0;
  e 255 0x0; e 255 0x0; e 255 0x0; e 255 0x0; e 255 0x0; e 255 0x0; e 255 0x0; e 255 0x0
].

Definition page_13 : list unichar := [
  e 255 0x0; e 255 0x0; e 29 0x0; e 29 0x0; e 255 0x0; e 10 0x0; e 10 0x0; e 10 0x0;
  e 10 0x0; e 10 0x0; e 10 0x0; e 10 0x0; e 10 0x0; e 255 0x0; e 10 0x0; e 10 0x0;
  e 10 0x0; e 255 0x0; e 10 0x0; e 10 0x0; e 10 0x0; e 10 0x0; e 10 0x0; e 10 0x0;
  e 10 0x0; e 10 0x0; e 10 0x0; e 10 0x0; e 10 0x0; e 10 0x0; e 10 0x0; e 10 0x0;
  e 10 0x0; e 10 0x0; e 10 0x0; e 10 0x0; e 10 0x0; e 10 0x0; e 10 0x0; e 10 0x0;
  e 10 0x0; e 10 0x0; e 10 0x0; e 10 0x0; e 10 0x0; e 10 0x0; e 10 0x0; e 10 0x0;
  e 10 0x0; e 10 0x0; e 10 0x0; e 10 0x0; e 10 0x0; e 10 0x0; e 10 0x0; e 10 0x0;
  e 10 0x0; e 10 0x0; e 10 0x0; e 255 0x0; e 255 0x0; e 10 0x0; e 29 0x0; e 29 0x0;
  e 29 0x0; e 36 0x0; e 36 0x0; e 36 0x0; e 36 0x0; e 255 0x0; e 29 0x0; e 29 0x0;
  e 29 0x0; e 255 0x0; e 29 0x0; e 29 0x0; e 29 0x0; e 40 0x0; e 10 0x0; e 255 0x0;
  e 255 0x0; e 255 0x0; e 255 0x0; e 255 0x0; e 255 0x0; e 255 0x0; e 255 0x0; e 29 0x0;
  e 255 0x0; e 255 0x0; e 255 0x0; e 255 0x0; e 255 0x0; e 255 0x0; e 255 0x0; e 255 0x0;
  e 10 0x0; e 10 0x0; e 36 0x0; e 36 0x0; e 255 0x0; e 255 0x0; e 109 0x0; e 110 0x0;
  e 111 0x0; e 112 0x0; e 113 0x0; e 114 0x0; e 115 0x0; e 116 0x0; e 117 0x0; e 118 0x0;
  e 152 0x0; e 152 0x0; e 152 0x0; e 152 0x0; e 152 0x0; e 152 0x0; e 255 0x0; e 255 0x0;
  e 255 0x0; e 211 0x0; e 10 0x0; e 10 0x0; e 10 0x0; e 10 0x0; e 10 0x0; e 10 0x0;
  e 255 0x0; e 255 0x0; e 29 0x0; e 29 0x0; e 255 0x0; e 10 0x0; e 10 0x0; e 10 0x0;
  e 10 0x0; e 10 0x0; e 10 0x0; e 10 0x0; e 10 0x0; e 10 0x0; e 10 0x0; e 10 0x0;
  e 10 0x0; e 10 0x0; e 10 0x0; e 10 0x0; e 10 0x0; e 10 0x0; e 10 0x0; e 255 0x0;
  e 255 0x0; e 255 0x0; e 10 0x0; e 10 0x0; e 10 0x0; e 10 0x0; e 10 0x0; e 10 0x0;
  e 10 0x0; e 10 0x0; e 10 0x0; e 10 0x0; e 10 0x0; e 10 0x0; e 10 0x0; e 10 0x0;
  e 10 0x0; e 10 0x0; e 10 0x0; e 10 0x0; e 10 0x0; e 10 0x0; e 10 0x0; e 10 0x0;
  e 10 0x0; e 10 0x0; e 255 0x0; e 10 0x0; e 10 0x0; e 10 0x0; e 10 0x0; e 10 0x0;
  e 10 0x0; e 10 0x0; e 10 0x0; e 10 0x0; e 255 0x0; e 10 0x0; e 255 0x0; e 255 0x0;
  e 10 0x0; e 10 0x0; e 10 0x0; e 10 0x0; e 10 0x0; e 10 0x0; e 10 0x0; e 255 0x0;
  e 255 0x0; e 255 0x0; e 40 0x0; e 255 0x0; e 255 0x0; e 255 0x0; e 255 0x0; e 29 0x0;
  e 29 0x0; e 29 0x0; e 36 0x0; e 36 0x0; e 36 0x0; e 255 0x0; e 36 0x0; e 255 0x0;
  e 29 0x0; e 29 0x0; e 29 0x0; e 29 0x0; e 29 0x0; e 29 0x0; e 29 0x0; e 29 0x0;
  e 255 0x0; e 255 0x0; e 255 0x0; e 255 0x0; e 255 0x0; e 255 0x0; e 255 0x0; e 255 0x0;
  e 255 0x0; e 255 0x0; e 255 0x0; e 255 0x0; e 255 0x0; e 255 0x0; e 255 0x0; e 255 0x0;
  e 255 0x0; e 255 0x0; e 29 0x0; e 29 0x0; e 192 0x0; e 255 0x0; e 255 0x0; e 255 0x0;
  e 255 0x0; e 255 0x0; e 255 0x0; e 255 0x0; e 255 0x0; e 255 0x0; e 255 0x0; e 255 0x0
].

Definition page_14 : list unichar := [
  e 255 0x0; e 10 0x0; e 10 0x0; e 10 0x0; e 10 0x0; e 10 0x0; e 10 0x0; e 10 0x0;
  e 10 0x0; e 10 0x0; e 10 0x0; e 10 0x0; e 10 0x0; e 10 0x0; e 10 0x0; e 10 0x0;
  e 10 0x0; e 10 0x0; e 10 0x0; e 10 0x0; e 10 0x0; e 10 0x0; e 10 0x0; e 10 0x0;
  e 10 0x0; e 10 0x0; e 10 0x0; e 10 0x0; e 10 0x0; e 10 0x0; e 10 0x0; e 10 0x0;
  e 10 0x0; e 10 0x0; e 10 0x0; e 10 0x0; e 10 0x0; e 10 0x0; e 10 0x0; e 10 0x0;
  e 10 0x0; e 10 0x0; e 10 0x0; e 10 0x0; e 10 0x0; e 10 0x0; e 10 0x0; e 10 0x0;
  e 10 0x0; e 36 0x0; e 10 0x0; e 10 0x0; e 36 0x0; e 36 0x0; e 36 0x0; e 36 0x0;
  e 70 0x0; e 70 0x0; e 40 0x0; e 255 0x0; e 255 0x0; e 255 0x0; e 255 0x0; e 198 0x0;
  e 10 0x0; e 10 0x0; e 10 0x0; e 10 0x0; e 10 0x0; e 10 0x0; e 6 0x0; e 36 0x0;
  e 71 0x0; e 71 0x0; e 71 0x0; e 71 0x0; e 36 0x0; e 36 0x0; e 36 0x0; e 192 0x0;
  e 109 0x0; e 110 0x0; e 111 0x0; e 112 0x0; e 113 0x0; e 114 0x0; e 115 0x0; e 116 0x0;
  e 117 0x0; e 118 0x0; e 192 0x0; e 192 0x0; e 255 0x0; e 255 0x0; e 255 0x0; e 255 0x0;
  e 255 0x0; e 255 0x0; e 255 0x0; e 255 0x0; e 255 0x0; e 255 0x0; e 255 0x0; e 255 0x0;
  e 255 0x0; e 255 0x0; e 255 0x0; e 255 0x0; e 255 0x0; e 255 0x0; e 255 0x0; e 255 0x0;
  e 255 0x0; e 255 0x0; e 255 0x0; e 255 0x0; e 255 0x0; e 255 0x0; e 255 0x0; e 255 0x0;
  e 255 0x0; e 255 0x0; e 255 0x0; e 255 0x0; e 255 0x0; e 255 0x0; e 255 0x0; e 255 0x0;
  e 255 0x0; e 10 0x0; e 10 0x0; e 255 0x0; e 10 0x0; e 255 0x0; e 255 0x0; e 10 0x0;
  e 10 0x0; e 255 0x0; e 10 0x0; e 255 0x0; e 255 0x0; e 10 0x0; e 255 0x0; e 255 0x0;
  e 255 0x0; e 255 0x0; e 255 0x0; e 255 0x0; e 10 0x0; e 10 0x0; e 10 0x0; e 10 0x0;
  e 255 0x0; e 10 0x0; e 10 0x0; e 10 0x0; e 10 0x0; e 10 0x0; e 10 0x0; e 10 0x0;
  e 255 0x0; e 10 0x0; e 10 0x0; e 10 0x0; e 255 0x0; e 10 0x0; e 255 0x0; e 10 0x0;
  e 255 0x0; e 255 0x0; e 10 0x0; e 10 0x0; e 255 0x0; e 10 0x0; e 10 0x0; e 10 0x0;
  e 10 0x0; e 36 0x0; e 10 0x0; e 10 0x0; e 36 0x0; e 36 0x0; e 36 0x0; e 36 0x0;
  e 72 0x0; e 72 0x0; e 255 0x0; e 36 0x0; e 36 0x0; e 10 0x0; e 255 0x0; e 255 0x0;
  e 10 0x0; e 10 0x0; e 10 0x0; e 10 0x0; e 10 0x0; e 255 0x0; e 6 0x0; e 255 0x0;
  e 73 0x0; e 73 0x0; e 73 0x0; e 73 0x0; e 36 0x0; e 36 0x0; e 255 0x0; e 255 0x0;
  e 109 0x0; e 110 0x0; e 111 0x0; e 112 0x0; e 113 0x0; e 114 0x0; e 115 0x0; e 116 0x0;
  e 117 0x0; e 118 0x0; e 255 0x0; e 255 0x0; e 10 0x0; e 10 0x0; e 10 0x0; e 10 0x0;
  e 255 0x0; e 255 0x0; e 255 0x0; e 255 0x0; e 255 0x0; e 255 0x0; e 255 0x0; e 255 0x0;
  e 255 0x0; e 255 0x0; e 255 0x0; e 255 0x0; e 255 0x0; e 255 0x0; e 255 0x0; e 255 0x0;
  e 255 0x0; e 255 0x0; e 255 0x0; e 255 0x0; e 255 0x0; e 255 0x0; e 255 0x0; e 255 0x0;
  e 255 0x0; e 255 0x0; e 255 0x0; e 255 0x0; e 255 0x0; e 255 0x0; e 255 0x0; e 255 0x0
].

Definition page_15 : list unichar := [
  e 10 0x0; e 211 0x0; e 211 0x0; e 211 0x0; e 192 0x0; e 192 0x0; e 192 0x0; e 192 0x0;
  e 192 0x0; e 192 0x0; e 192 0x0; e 192 0x0; e 192 0x0; e 192 0x0; e 192 0x0; e 192 0x0;
  e 192 0x0; e 192 0x0; e 192 0x0; e 211 0x0; e 192 0x0; e 211 0x0; e 211 0x0; e 211 0x0;
  e 81 0x0; e 81 0x0; e 211 0x0; e 211 0x0; e 211 0x0; e 211 0x0; e 211 0x0; e 211 0x0;
  e 109 0x0; e 110 0x0; e 111 0x0; e 112 0x0; e 113 0x0; e 114 0x0; e 115 0x0; e 116 0x0;
  e 117 0x0; e 118 0x0; e 152 0x0; e 152 0x0; e 152 0x0; e 152 0x0; e 152 0x0; e 152 0x0;
  e 152 0x0; e 152 0x0; e 152 0x0; e 152 0x0; e 211 0x0; e 81 0x0; e 211 0x0; e 81 0x0;
  e 211 0x0; e 79 0x0; e 196 0x0; e 183 0x0; e 196 0x0; e 183 0x0; e 29 0x0; e 29 0x0;
  e 10 0x0; e 10 0x0; e 10 0x0; e 10 0x0; e 10 0x0; e 10 0x0; e 10 0x0; e 10 0x0;
  e 255 0x0; e 10 0x0; e 10 0x0; e 10 0x0; e 10 0x0; e 10 0x0; e 10 0x0; e 10 0x0;
  e 10 0x0; e 10 0x0; e 10 0x0; e 10 0x0; e 10 0x0; e 10 0x0; e 10 0x0; e 10 0x0;
  e 10 0x0; e 10 0x0; e 10 0x0; e 10 0x0; e 10 0x0; e 10 0x0; e 10 0x0; e 10 0x0;
  e 10 0x0; e 10 0x0; e 10 0x0; e 10 0x0; e 10 0x0; e 10 0x0; e 10 0x0; e 10 0x0;
  e 10 0x0; e 10 0x0; e 10 0x0; e 10 0x0; e 10 0x0; e 255 0x0; e 255 0x0; e 255 0x0;
  e 255 0x0; e 74 0x0; e 75 0x0; e 36 0x0; e 76 0x0; e 36 0x0; e 36 0x0; e 36 0x0;
  e 36 0x0; e 36 0x0; e 75 0x0; e 75 0x0; e 75 0x0; e 75 0x0; e 36 0x0; e 29 0x0;
  e 75 0x0; e 36 0x0; e 84 0x0; e 84 0x0; e 40 0x0; e 192 0x0; e 84 0x0; e 84 0x0;
  e 10 0x0; e 10 0x0; e 10 0x0; e 10 0x0; e 10 0x0; e 36 0x0; e 36 0x0; e 36 0x0;
  e 36 0x0; e 36 0x0; e 36 0x0; e 36 0x0; e 36 0x0; e 36 0x0; e 36 0x0; e 36 0x0;
  e 255 0x0; e 36 0x0; e 36 0x0; e 36 0x0; e 36 0x0; e 36 0x0; e 36 0x0; e 36 0x0;
  e 36 0x0; e 36 0x0; e 36 0x0; e 36 0x0; e 36 0x0; e 36 0x0; e 36 0x0; e 36 0x0;
  e 36 0x0; e 36 0x0; e 36 0x0; e 36 0x0; e 36 0x0; e 36 0x0; e 36 0x0; e 36 0x0;
  e 36 0x0; e 36 0x0; e 36 0x0; e 36 0x0; e 36 0x0; e 36 0x0; e 36 0x0; e 36 0x0;
  e 36 0x0; e 36 0x0; e 36 0x0; e 36 0x0; e 36 0x0; e 255 0x0; e 211 0x0; e 211 0x0;
  e 211 0x0; e 211 0x0; e 211 0x0; e 211 0x0; e 211 0x0; e 211 0x0; e 81 0x0; e 211 0x0;
  e 211 0x0; e 211 0x0; e 211 0x0; e 211 0x0; e 211 0x0; e 255 0x0; e 211 0x0; e 211 0x0;
  e 192 0x0; e 192 0x0; e 192 0x0; e 192 0x0; e 192 0x0; e 211 0x0; e 211 0x0; e 211 0x0;
  e 211 0x0; e 192 0x0; e 192 0x0; e 255 0x0; e 255 0x0; e 255 0x0; e 255 0x0; e 255 0x0;
  e 255 0x0; e 255 0x0; e 255 0x0; e 255 0x0; e 255 0x0; e 255 0x0; e 255 0x0; e 255 0x0;
  e 255 0x0; e 255 0x0; e 255 0x0; e 255 0x0; e 255 0x0; e 255 0x0; e 255 0x0; e 255 0x0;
  e 255 0x0; e 255 0x0; e 255 0x0; e 255 0x0; e 255 0x0; e 255 0x0; e 255 0x0; e 255 0x0;
  e 255 0x0; e 255 0x0; e 255 0x0; e 255 0x0; e 255 0x0; e 255 0x0; e 255 0x0; e 255 0x0
].

Definition page_16 : list unichar := [
  e 10 0x0; e 10 0x0; e 10 0x0; e 10 0x0; e 10 0x0; e 10 0x0; e 10 0x0; e 10 0x0;
  e 10 0x0; e 10 0x0; e 10 0x0; e 10 0x0; e 10 0x0; e 10 0x0; e 10 0x0; e 10 0x0;
  e 10 0x0; e 10 0x0; e 10 0x0; e 10 0x0; e 10 0x0; e 10 0x0; e 10 0x0; e 10 0x0;
  e 10 0x0; e 10 0x0; e 10 0x0; e 10 0x0; e 10 0x0; e 10 0x0; e 10 0x0; e 10 0x0;
  e 10 0x0; e 10 0x0; e 10 0x0; e 10 0x0; e 10 0x0; e 10 0x0; e 10 0x0; e 10 0x0;
  e 10 0x0; e 10 0x0; e 10 0x0; e 29 0x0; e 29 0x0; e 36 0x0; e 36 0x0; e 36 0x0;
  e 36 0x0; e 29 0x0; e 36 0x0; e 36 0x0; e 36 0x0; e 36 0x0; e 36 0x0; e 38 0x0;
  e 29 0x0; e 40 0x0; e 40 0x0; e 29 0x0; e 29 0x0; e 36 0x0; e 36 0x0; e 10 0x0;
  e 109 0x0; e 110 0x0; e 111 0x0; e 112 0x0; e 113 0x0; e 114 0x0; e 115 0x0; e 116 0x0;
  e 117 0x0; e 118 0x0; e 192 0x0; e 192 0x0; e 192 0x0; e 192 0x0; e 192 0x0; e 192 0x0;
  e 10 0x0; e 10 0x0; e 10 0x0; e 10 0x0; e 10 0x0; e 10 0x0; e 29 0x0; e 29 0x0;
  e 36 0x0; e 36 0x0; e 10 0x0; e 10 0x0; e 10 0x0; e 10 0x0; e 36 0x0; e 36 0x0;
  e 36 0x0; e 10 0x0; e 29 0x0; e 29 0x0; e 29 0x0; e 10 0x0; e 10 0x0; e 29 0x0;
  e 29 0x0; e 29 0x0; e 29 0x0; e 29 0x0; e 29 0x0; e 29 0x0; e 10 0x0; e 10 0x0;
  e 10 0x0; e 36 0x0; e 36 0x0; e 36 0x0; e 36 0x0; e 10 0x0; e 10 0x0; e 10 0x0;
  e 10 0x0; e 10 0x0; e 10 0x0; e 10 0x0; e 10 0x0; e 10 0x0; e 10 0x0; e 10 0x0;
  e 10 0x0; e 10 0x0; e 36 0x0; e 29 0x0; e 29 0x0; e 36 0x0; e 36 0x0; e 29 0x0;
  e 29 0x0; e 29 0x0; e 29 0x0; e 29 0x0; e 29 0x0; e 81 0x0; e 10 0x0; e 29 0x0;
  e 109 0x0; e 110 0x0; e 111 0x0; e 112 0x0; e 113 0x0; e 114 0x0; e 115 0x0; e 116 0x0;
  e 117 0x0; e 118 0x0; e 29 0x0; e 29 0x0; e 29 0x0; e 36 0x0; e 211 0x0; e 211 0x0;
  e 0 0x2D00; e 0 0x2D01; e 0 0x2D02; e 0 0x2D03; e 0 0x2D04; e 0 0x2D05; e 0 0x2D06; e 0 0x2D07;
  e 0 0x2D08; e 0 0x2D09; e 0 0x2D0A; e 0 0x2D0B; e 0 0x2D0C; e 0 0x2D0D; e 0 0x2D0E; e 0 0x2D0F;
  e 0 0x2D10; e 0 0x2D11; e 0 0x2D12; e 0 0x2D13; e 0 0x2D14; e 0 0x2D15; e 0 0x2D16; e 0 0x2D17;
  e 0 0x2D18; e 0 0x2D19; e 0 0x2D1A; e 0 0x2D1B; e 0 0x2D1C; e 0 0x2D1D; e 0 0x2D1E; e 0 0x2D1F;
  e 0 0x2D20; e 0 0x2D21; e 0 0x2D22; e 0 0x2D23; e 0 0x2D24; e 0 0x2D25; e 255 0x0; e 0 0x2D27;
  e 255 0x0; e 255 0x0; e 255 0x0; e 255 0x0; e 255 0x0; e 0 0x2D2D; e 255 0x0; e 255 0x0;
  e 10 0x0; e 10 0x0; e 10 0x0; e 10 0x0; e 10 0x0; e 10 0x0; e 10 0x0; e 10 0x0;
  e 10 0x0; e 10 0x0; e 10 0x0; e 10 0x0; e 10 0x0; e 10 0x0; e 10 0x0; e 10 0x0;
  e 10 0x0; e 10 0x0; e 10 0x0; e 10 0x0; e 10 0x0; e 10 0x0; e 10 0x0; e 10 0x0;
  e 10 0x0; e 10 0x0; e 10 0x0; e 10 0x0; e 10 0x0; e 10 0x0; e 10 0x0; e 10 0x0;
  e 10 0x0; e 10 0x0; e 10 0x0; e 10 0x0; e 10 0x0; e 10 0x0; e 10 0x0; e 10 0x0;
  e 10 0x0; e 10 0x0; e 10 0x0; e 192 0x0; e 6 0x0; e 10 0x0; e 10 0x0; e 10 0x0
].

Definition page_17 : list unichar := [
  e 10 0x0; e 10 0x0; e 10 0x0; e 10 0x0; e 10 0x0; e 10 0x0; e 10 0x0; e 10 0x0;
  e 10 0x0; e 10 0x0; e 10 0x0; e 10 0x0; e 10 0x0; e 10 0x0; e 10 0x0; e 10 0x0;
  e 10 0x0; e 10 0x0; e 10 0x0; e 10 0x0; e 10 0x0; e 10 0x0; e 10 0x0; e 10 0x0;
  e 10 0x0; e 10 0x0; e 10 0x0; e 10 0x0; e 10 0x0; e 10 0x0; e 10 0x0; e 10 0x0;
  e 10 0x0; e 10 0x0; e 10 0x0; e 10 0x0; e 10 0x0; e 10 0x0; e 10 0x0; e 10 0x0;
  e 10 0x0; e 10 0x0; e 10 0x0; e 10 0x0; e 10 0x0; e 10 0x0; e 10 0x0; e 10 0x0;
  e 10 0x0; e 10 0x0; e 10 0x0; e 10 0x0; e 10 0x0; e 10 0x0; e 10 0x0; e 10 0x0;
  e 10 0x0; e 10 0x0; e 10 0x0; e 10 0x0; e 10 0x0; e 10 0x0; e 10 0x0; e 10 0x0;
  e 10 0x0; e 10 0x0; e 10 0x0; e 10 0x0; e 10 0x0; e 10 0x0; e 10 0x0; e 10 0x0;
  e 10 0x0; e 10 0x0; e 10 0x0; e 10 0x0; e 10 0x0; e 10 0x0; e 10 0x0; e 10 0x0;
  e 10 0x0; e 10 0x0; e 10 0x0; e 10 0x0; e 10 0x0; e 10 0x0; e 10 0x0; e 10 0x0;
  e 10 0x0; e 10 0x0; e 10 0x0; e 10 0x0; e 10 0x0; e 10 0x0; e 10 0x0; e 10 0x0;
  e 10 0x0; e 10 0x0; e 10 0x0; e 10 0x0; e 10 0x0; e 10 0x0; e 10 0x0; e 10 0x0;
  e 10 0x0; e 10 0x0; e 10 0x0; e 10 0x0; e 10 0x0; e 10 0x0; e 10 0x0; e 10 0x0;
  e 10 0x0; e 10 0x0; e 10 0x0; e 10 0x0; e 10 0x0; e 10 0x0; e 10 0x0; e 10 0x0;
  e 10 0x0; e 10 0x0; e 10 0x0; e 10 0x0; e 10 0x0; e 10 0x0; e 10 0x0; e 10 0x0;
  e 10 0x0; e 10 0x0; e 10 0x0; e 10 0x0; e 10 0x0; e 10 0x0; e 10 0x0; e 10 0x0;
  e 10 0x0; e 10 0x0; e 10 0x0; e 10 0x0; e 10 0x0; e 10 0x0; e 10 0x0; e 10 0x0;
  e 10 0x0; e 10 0x0; e 10 0x0; e 10 0x0; e 10 0x0; e 10 0x0; e 10 0x0; e 10 0x0;
  e 10 0x0; e 10 0x0; e 10 0x0; e 10 0x0; e 10 0x0; e 10 0x0; e 10 0x0; e 10 0x0;
  e 10 0x0; e 10 0x0; e 10 0x0; e 10 0x0; e 10 0x0; e 10 0x0; e 10 0x0; e 10 0x0;
  e 10 0x0; e 10 0x0; e 10 0x0; e 10 0x0; e 10 0x0; e 10 0x0; e 10 0x0; e 10 0x0;
  e 10 0x0; e 10 0x0; e 10 0x0; e 10 0x0; e 10 0x0; e 10 0x0; e 10 0x0; e 10 0x0;
  e 10 0x0; e 10 0x0; e 10 0x0; e 10 0x0; e 10 0x0; e 10 0x0; e 10 0x0; e 10 0x0;
  e 10 0x0; e 10 0x0; e 10 0x0; e 10 0x0; e 10 0x0; e 10 0x0; e 10 0x0; e 10 0x0;
  e 10 0x0; e 10 0x0; e 10 0x0; e 10 0x0; e 10 0x0; e 10 0x0; e 10 0x0; e 10 0x0;
  e 10 0x0; e 10 0x0; e 10 0x0; e 10 0x0; e 10 0x0; e 10 0x0; e 10 0x0; e 10 0x0;
  e 10 0x0; e 10 0x0; e 10 0x0; e 10 0x0; e 10 0x0; e 10 0x0; e 10 0x0; e 10 0x0;
  e 10 0x0; e 10 0x0; e 10 0x0; e 10 0x0; e 10 0x0; e 10 0x0; e 10 0x0; e 10 0x0;
  e 10 0x0; e 10 0x0; e 10 0x0; e 10 0x0; e 10 0x0; e 10 0x0; e 10 0x0; e 10 0x0;
  e 10 0x0; e 10 0x0; e 10 0x0; e 10 0x0; e 10 0x0; e 10 0x0; e 10 0x0; e 10 0x0;
  e 10 0x0; e 10 0x0; e 10 0x0; e 10 0x0; e 10 0x0; e 10 0x0; e 10 0x0; e 10 0x0
].

Definition page_18 : list unichar := [
  e 10 0x0; e 10 0x0; e 10 0x0; e 10 0x0; e 10 0x0; e 10 0x0; e 10 0x0; e 10 0x0;
  e 10 0x0; e 10 0x0; e 10 0x0; e 10 0x0; e 10 0x0; e 10 0x0; e 10 0x0; e 10 0x0;
  e 10 0x0; e 10 0x0; e 10 0x0; e 10 0x0; e 10 0x0; e 10 0x0; e 10 0x0; e 10 0x0;
  e 10 0x0; e 10 0x0; e 10 0x0; e 10 0x0; e 10 0x0; e 10 0x0; e 10 0x0; e 10 0x0;
  e 10 0x0; e 10 0x0; e 10 0x0; e 10 0x0; e 10 0x0; e 10 0x0; e 10 0x0; e 10 0x0;
  e 10 0x0; e 10 0x0; e 10 0x0; e 10 0x0; e 10 0x0; e 10 0x0; e 10 0x0; e 10 0x0;
  e 10 0x0; e 10 0x0; e 10 0x0; e 10 0x0; e 10 0x0; e 10 0x0; e 10 0x0; e 10 0x0;
  e 10 0x0; e 10 0x0; e 10 0x0; e 10 0x0; e 10 0x0; e 10 0x0; e 10 0x0; e 10 0x0;
  e 10 0x0; e 10 0x0; e 10 0x0; e 10 0x0; e 10 0x0; e 10 0x0; e 10 0x0; e 10 0x0;
  e 10 0x0; e 255 0x0; e 10 0x0; e 10 0x0; e 10 0x0; e 10 0x0; e 255 0x0; e 255 0x0;
  e 10 0x0; e 10 0x0; e 10 0x0; e 10 0x0; e 10 0x0; e 10 0x0; e 10 0x0; e 255 0x0;
  e 10 0x0; e 255 0x0; e 10 0x0; e 10 0x0; e 10 0x0; e 10 0x0; e 255 0x0; e 255 0x0;
  e 10 0x0; e 10 0x0; e 10 0x0; e 10 0x0; e 10 0x0; e 10 0x0; e 10 0x0; e 10 0x0;
  e 10 0x0; e 10 0x0; e 10 0x0; e 10 0x0; e 10 0x0; e 10 0x0; e 10 0x0; e 10 0x0;
  e 10 0x0; e 10 0x0; e 10 0x0; e 10 0x0; e 10 0x0; e 10 0x0; e 10 0x0; e 10 0x0;
  e 10 0x0; e 10 0x0; e 10 0x0; e 10 0x0; e 10 0x0; e 10 0x0; e 10 0x0; e 10 0x0;
  e 10 0x0; e 10 0x0; e 10 0x0; e 10 0x0; e 10 0x0; e 10 0x0; e 10 0x0; e 10 0x0;
  e 10 0x0; e 255 0x0; e 10 0x0; e 10 0x0; e 10 0x0; e 10 0x0; e 255 0x0; e 255 0x0;
  e 10 0x0; e 10 0x0; e 10 0x0; e 10 0x0; e 10 0x0; e 10 0x0; e 10 0x0; e 10 0x0;
  e 10 0x0; e 10 0x0; e 10 0x0; e 10 0x0; e 10 0x0; e 10 0x0; e 10 0x0; e 10 0x0;
  e 10 0x0; e 10 0x0; e 10 0x0; e 10 0x0; e 10 0x0; e 10 0x0; e 10 0x0; e 10 0x0;
  e 10 0x0; e 10 0x0; e 10 0x0; e 10 0x0; e 10 0x0; e 10 0x0; e 10 0x0; e 10 0x0;
  e 10 0x0; e 255 0x0; e 10 0x0; e 10 0x0; e 10 0x0; e 10 0x0; e 255 0x0; e 255 0x0;
  e 10 0x0; e 10 0x0; e 10 0x0; e 10 0x0; e 10 0x0; e 10 0x0; e 10 0x0; e 255 0x0;
  e 10 0x0; e 255 0x0; e 10 0x0; e 10 0x0; e 10 0x0; e 10 0x0; e 255 0x0; e 255 0x0;
  e 10 0x0; e 10 0x0; e 10 0x0; e 10 0x0; e 10 0x0; e 10 0x0; e 10 0x0; e 10 0x0;
  e 10 0x0; e 10 0x0; e 10 0x0; e 10 0x0; e 10 0x0; e 10 0x0; e 10 0x0; e 255 0x0;
  e 10 0x0; e 10 0x0; e 10 0x0; e 10 0x0; e 10 0x0; e 10 0x0; e 10 0x0; e 10 0x0;
  e 10 0x0; e 10 0x0; e 10 0x0; e 10 0x0; e 10 0x0; e 10 0x0; e 10 0x0; e 10 0x0;
  e 10 0x0; e 10 0x0; e 10 0x0; e 10 0x0; e 10 0x0; e 10 0x0; e 10 0x0; e 10 0x0;
  e 10 0x0; e 10 0x0; e 10 0x0; e 10 0x0; e 10 0x0; e 10 0x0; e 10 0x0; e 10 0x0;
  e 10 0x0; e 10 0x0; e 10 0x0; e 10 0x0; e 10 0x0; e 10 0x0; e 10 0x0; e 10 0x0
].

Definition page_19 : list unichar := [
  e 10 0x0; e 10 0x0; e 10 0x0; e 10 0x0; e 10 0x0; e 10 0x0; e 10 0x0; e 10 0x0;
  e 10 0x0; e 10 0x0; e 10 0x0; e 10 0x0; e 10 0x0; e 10 0x0; e 10 0x0; e 10 0x0;
  e 10 0x0; e 255 0x0; e 10 0x0; e 10 0x0; e 10 0x0; e 10 0x0; e 255 0x0; e 255 0x0;
  e 10 0x0; e 10 0x0; e 10 0x0; e 10 0x0; e 10 0x0; e 10 0x0; e 10 0x0; e 10 0x0;
  e 10 0x0; e 10 0x0; e 10 0x0; e 10 0x0; e 10 0x0; e 10 0x0; e 10 0x0; e 10 0x0;
  e 10 0x0; e 10 0x0; e 10 0x0; e 10 0x0; e 10 0x0; e 10 0x0; e 10 0x0; e 10 0x0;
  e 10 0x0; e 10 0x0; e 10 0x0; e 10 0x0; e 10 0x0; e 10 0x0; e 10 0x0; e 10 0x0;
  e 10 0x0; e 10 0x0; e 10 0x0; e 10 0x0; e 10 0x0; e 10 0x0; e 10 0x0; e 10 0x0;
  e 10 0x0; e 10 0x0; e 10 0x0; e 10 0x0; e 10 0x0; e 10 0x0; e 10 0x0; e 10 0x0;
  e 10 0x0; e 10 0x0; e 10 0x0; e 10 0x0; e 10 0x0; e 10 0x0; e 10 0x0; e 10 0x0;
  e 10 0x0; e 10 0x0; e 10 0x0; e 10 0x0; e 10 0x0; e 10 0x0; e 10 0x0; e 10 0x0;
  e 10 0x0; e 10 0x0; e 10 0x0; e 255 0x0; e 255 0x0; e 84 0x0; e 84 0x0; e 84 0x0;
  e 192 0x0; e 192 0x0; e 192 0x0; e 192 0x0; e 192 0x0; e 192 0x0; e 192 0x0; e 192 0x0;
  e 192 0x0; e 153 0x0; e 154 0x0; e 155 0x0; e 156 0x0; e 157 0x0; e 158 0x0; e 159 0x0;
  e 160 0x0; e 161 0x0; e 152 0x0; e 152 0x0; e 152 0x0; e 152 0x0; e 152 0x0; e 152 0x0;
  e 152 0x0; e 152 0x0; e 152 0x0; e 152 0x0; e 152 0x0; e 255 0x0; e 255 0x0; e 255 0x0;
  e 10 0x0; e 10 0x0; e 10 0x0; e 10 0x0; e 10 0x0; e 10 0x0; e 10 0x0; e 10 0x0;
  e 10 0x0; e 10 0x0; e 10 0x0; e 10 0x0; e 10 0x0; e 10 0x0; e 10 0x0; e 10 0x0;
  e 212 0x0; e 212 0x0; e 212 0x0; e 212 0x0; e 212 0x0; e 212 0x0; e 212 0x0; e 212 0x0;
  e 212 0x0; e 212 0x0; e 255 0x0; e 255 0x0; e 255 0x0; e 255 0x0; e 255 0x0; e 255 0x0;
  e 10 0x0; e 10 0x0; e 10 0x0; e 10 0x0; e 10 0x0; e 10 0x0; e 10 0x0; e 10 0x0;
  e 10 0x0; e 10 0x0; e 10 0x0; e 10 0x0; e 10 0x0; e 10 0x0; e 10 0x0; e 10 0x0;
  e 10 0x0; e 10 0x0; e 10 0x0; e 10 0x0; e 10 0x0; e 10 0x0; e 10 0x0; e 10 0x0;
  e 10 0x0; e 10 0x0; e 10 0x0; e 10 0x0; e 10 0x0; e 10 0x0; e 10 0x0; e 10 0x0;
  e 10 0x0; e 10 0x0; e 10 0x0; e 10 0x0; e 10 0x0; e 10 0x0; e 10 0x0; e 10 0x0;
  e 10 0x0; e 10 0x0; e 10 0x0; e 10 0x0; e 10 0x0; e 10 0x0; e 10 0x0; e 10 0x0;
  e 10 0x0; e 10 0x0; e 10 0x0; e 10 0x0; e 10 0x0; e 10 0x0; e 10 0x0; e 10 0x0;
  e 10 0x0; e 10 0x0; e 10 0x0; e 10 0x0; e 10 0x0; e 10 0x0; e 10 0x0; e 10 0x0;
  e 10 0x0; e 10 0x0; e 10 0x0; e 10 0x0; e 10 0x0; e 10 0x0; e 10 0x0; e 10 0x0;
  e 10 0x0; e 10 0x0; e 10 0x0; e 10 0x0; e 10 0x0; e 10 0x0; e 10 0x0; e 10 0x0;
  e 10 0x0; e 10 0x0; e 10 0x0; e 10 0x0; e 10 0x0; e 255 0x0; e 255 0x0; e 255 0x0;
  e 255 0x0; e 255 0x0; e 255 0x0; e 255 0x0; e 255 0x0; e 255 0x0; e 255 0x0; e 255 0x0
].

Definition page_20 : list unichar := [
  e 180 0x0; e 10 0x0; e 10 0x0; e 10 0x0; e 10 0x0; e 10 0x0; e 10 0x0; e 10 0x0;
  e 10 0x0; e 10 0x0; e 10 0x0; e 10 0x0; e 10 0x0; e 10 0x0; e 10 0x0; e 10 0x0;
  e 10 0x0; e 10 0x0; e 10 0x0; e 10 0x0; e 10 0x0; e 10 0x0; e 10 0x0; e 10 0x0;
  e 10 0x0; e 10 0x0; e 10 0x0; e 10 0x0; e 10 0x0; e 10 0x0; e 10 0x0; e 10 0x0;
  e 10 0x0; e 10 0x0; e 10 0x0; e 10 0x0; e 10 0x0; e 10 0x0; e 10 0x0; e 10 0x0;
  e 10 0x0; e 10 0x0; e 10 0x0; e 10 0x0; e 10 0x0; e 10 0x0; e 10 0x0; e 10 0x0;
  e 10 0x0; e 10 0x0; e 10 0x0; e 10 0x0; e 10 0x0; e 10 0x0; e 10 0x0; e 10 0x0;
  e 10 0x0; e 10 0x0; e 10 0x0; e 10 0x0; e 10 0x0; e 10 0x0; e 10 0x0; e 10 0x0;
  e 10 0x0; e 10 0x0; e 10 0x0; e 10 0x0; e 10 0x0; e 10 0x0; e 10 0x0; e 10 0x0;
  e 10 0x0; e 10 0x0; e 10 0x0; e 10 0x0; e 10 0x0; e 10 0x0; e 10 0x0; e 10 0x0;
  e 10 0x0; e 10 0x0; e 10 0x0; e 10 0x0; e 10 0x0; e 10 0x0; e 10 0x0; e 10 0x0;
  e 10 0x0; e 10 0x0; e 10 0x0; e 10 0x0; e 10 0x0; e 10 0x0; e 10 0x0; e 10 0x0;
  e 10 0x0; e 10 0x0; e 10 0x0; e 10 0x0; e 10 0x0; e 10 0x0; e 10 0x0; e 10 0x0;
  e 10 0x0; e 10 0x0; e 10 0x0; e 10 0x0; e 10 0x0; e 10 0x0; e 10 0x0; e 10 0x0;
  e 10 0x0; e 10 0x0; e 10 0x0; e 10 0x0; e 10 0x0; e 10 0x0; e 10 0x0; e 10 0x0;
  e 10 0x0; e 10 0x0; e 10 0x0; e 10 0x0; e 10 0x0; e 10 0x0; e 10 0x0; e 10 0x0;
  e 10 0x0; e 10 0x0; e 10 0x0; e 10 0x0; e 10 0x0; e 10 0x0; e 10 0x0; e 10 0x0;
  e 10 0x0; e 10 0x0; e 10 0x0; e 10 0x0; e 10 0x0; e 10 0x0; e 10 0x0; e 10 0x0;
  e 10 0x0; e 10 0x0; e 10 0x0; e 10 0x0; e 10 0x0; e 10 0x0; e 10 0x0; e 10 0x0;
  e 10 0x0; e 10 0x0; e 10 0x0; e 10 0x0; e 10 0x0; e 10 0x0; e 10 0x0; e 10 0x0;
  e 10 0x0; e 10 0x0; e 10 0x0; e 10 0x0; e 10 0x0; e 10 0x0; e 10 0x0; e 10 0x0;
  e 10 0x0; e 10 0x0; e 10 0x0; e 10 0x0; e 10 0x0; e 10 0x0; e 10 0x0; e 10 0x0;
  e 10 0x0; e 10 0x0; e 10 0x0; e 10 0x0; e 10 0x0; e 10 0x0; e 10 0x0; e 10 0x0;
  e 10 0x0; e 10 0x0; e 10 0x0; e 10 0x0; e 10 0x0; e 10 0x0; e 10 0x0; e 10 0x0;
  e 10 0x0; e 10 0x0; e 10 0x0; e 10 0x0; e 10 0x0; e 10 0x0; e 10 0x0; e 10 0x0;
  e 10 0x0; e 10 0x0; e 10 0x0; e 10 0x0; e 10 0x0; e 10 0x0; e 10 0x0; e 10 0x0;
  e 10 0x0; e 10 0x0; e 10 0x0; e 10 0x0; e 10 0x0; e 10 0x0; e 10 0x0; e 10 0x0;
  e 10 0x0; e 10 0x0; e 10 0x0; e 10 0x0; e 10 0x0; e 10 0x0; e 10 0x0; e 10 0x0;
  e 10 0x0; e 10 0x0; e 10 0x0; e 10 0x0; e 10 0x0; e 10 0x0; e 10 0x0; e 10 0x0;
  e 10 0x0; e 10 0x0; e 10 0x0; e 10 0x0; e 10 0x0; e 10 0x0; e 10 0x0; e 10 0x0;
  e 10 0x0; e 10 0x0; e 10 0x0; e 10 0x0; e 10 0x0; e 10 0x0; e 10 0x0; e 10 0x0;
  e 10 0x0; e 10 0x0; e 10 0x0; e 10 0x0; e 10 0x0; e 10 0x0; e 10 0x0; e 10 0x0
].

Definition page_21 : list unichar := [
  e 10 0x0; e 10 0x0; e 10 0x0; e 10 0x0; e 10 0x0; e 10 0x0; e 10 0x0; e 10 0x0;
  e 10 0x0; e 10 0x0; e 10 0x0; e 10 0x0; e 10 0x0; e 10 0x0; e 10 0x0; e 10 0x0;
  e 10 0x0; e 10 0x0; e 10 0x0; e 10 0x0; e 10 0x0; e 10 0x0; e 10 0x0; e 10 0x0;
  e 10 0x0; e 10 0x0; e 10 0x0; e 10 0x0; e 10 0x0; e 10 0x0; e 10 0x0; e 10 0x0;
  e 10 0x0; e 10 0x0; e 10 0x0; e 10 0x0; e 10 0x0; e 10 0x0; e 10 0x0; e 10 0x0;
  e 10 0x0; e 10 0x0; e 10 0x0; e 10 0x0; e 10 0x0; e 10 0x0; e 10 0x0; e 10 0x0;
  e 10 0x0; e 10 0x0; e 10 0x0; e 10 0x0; e 10 0x0; e 10 0x0; e 10 0x0; e 10 0x0;
  e 10 0x0; e 10 0x0; e 10 0x0; e 10 0x0; e 10 0x0; e 10 0x0; e 10 0x0; e 10 0x0;
  e 10 0x0; e 10 0x0; e 10 0x0; e 10 0x0; e 10 0x0; e 10 0x0; e 10 0x0; e 10 0x0;
  e 10 0x0; e 10 0x0; e 10 0x0; e 10 0x0; e 10 0x0; e 10 0x0; e 10 0x0; e 10 0x0;
  e 10 0x0; e 10 0x0; e 10 0x0; e 10 0x0; e 10 0x0; e 10 0x0; e 10 0x0; e 10 0x0;
  e 10 0x0; e 10 0x0; e 10 0x0; e 10 0x0; e 10 0x0; e 10 0x0; e 10 0x0; e 10 0x0;
  e 10 0x0; e 10 0x0; e 10 0x0; e 10 0x0; e 10 0x0; e 10 0x0; e 10 0x0; e 10 0x0;
  e 10 0x0; e 10 0x0; e 10 0x0; e 10 0x0; e 10 0x0; e 192 0x0; e 192 0x0; e 10 0x0;
  e 10 0x0; e 10 0x0; e 10 0x0; e 10 0x0; e 10 0x0; e 10 0x0; e 10 0x0; e 10 0x0;
  e 10 0x0; e 10 0x0; e 10 0x0; e 10 0x0; e 10 0x0; e 10 0x0; e 10 0x0; e 10 0x0;
  e 216 0x0; e 10 0x0; e 10 0x0; e 10 0x0; e 10 0x0; e 10 0x0; e 10 0x0; e 10 0x0;
  e 10 0x0; e 10 0x0; e 10 0x0; e 10 0x0; e 10 0x0; e 10 0x0; e 10 0x0; e 10 0x0;
  e 10 0x0; e 10 0x0; e 10 0x0; e 10 0x0; e 10 0x0; e 10 0x0; e 10 0x0; e 10 0x0;
  e 10 0x0; e 10 0x0; e 10 0x0; e 196 0x0; e 183 0x0; e 255 0x0; e 255 0x0; e 255 0x0;
  e 10 0x0; e 10 0x0; e 10 0x0; e 10 0x0; e 10 0x0; e 10 0x0; e 10 0x0; e 10 0x0;
  e 10 0x0; e 10 0x0; e 10 0x0; e 10 0x0; e 10 0x0; e 10 0x0; e 10 0x0; e 10 0x0;
  e 10 0x0; e 10 0x0; e 10 0x0; e 10 0x0; e 10 0x0; e 10 0x0; e 10 0x0; e 10 0x0;
  e 10 0x0; e 10 0x0; e 10 0x0; e 10 0x0; e 10 0x0; e 10 0x0; e 10 0x0; e 10 0x0;
  e 10 0x0; e 10 0x0; e 10 0x0; e 10 0x0; e 10 0x0; e 10 0x0; e 10 0x0; e 10 0x0;
  e 10 0x0; e 10 0x0; e 10 0x0; e 10 0x0; e 10 0x0; e 10 0x0; e 10 0x0; e 10 0x0;
  e 10 0x0; e 10 0x0; e 10 0x0; e 10 0x0; e 10 0x0; e 10 0x0; e 10 0x0; e 10 0x0;
  e 10 0x0; e 10 0x0; e 10 0x0; e 10 0x0; e 10 0x0; e 10 0x0; e 10 0x0; e 10 0x0;
  e 10 0x0; e 10 0x0; e 10 0x0; e 10 0x0; e 10 0x0; e 10 0x0; e 10 0x0; e 10 0x0;
  e 10 0x0; e 10 0x0; e 10 0x0; e 192 0x0; e 192 0x0; e 192 0x0; e 129 0x0; e 129 0x0;
  e 129 0x0; e 255 0x0; e 255 0x0; e 255 0x0; e 255 0x0; e 255 0x0; e 255 0x0; e 255 0x0;
  e 255 0x0; e 255 0x0; e 255 0x0; e 255 0x0; e 255 0x0; e 255 0x0; e 255 0x0; e 255 0x0
].

Definition page_22 : list unichar := [
  e 10 0x0; e 10 0x0; e 10 0x0; e 10 0x0; e 10 0x0; e 10 0x0; e 10 0x0; e 10 0x0;
  e 10 0x0; e 10 0x0; e 10 0x0; e 10 0x0; e 10 0x0; e 255 0x0; e 10 0x0; e 10 0x0;
  e 10 0x0; e 10 0x0; e 36 0x0; e 36 0x0; e 40 0x0; e 255 0x0; e 255 0x0; e 255 0x0;
  e 255 0x0; e 255 0x0; e 255 0x0; e 255 0x0; e 255 0x0; e 255 0x0; e 255 0x0; e 255 0x0;
  e 10 0x0; e 10 0x0; e 10 0x0; e 10 0x0; e 10 0x0; e 10 0x0; e 10 0x0; e 10 0x0;
  e 10 0x0; e 10 0x0; e 10 0x0; e 10 0x0; e 10 0x0; e 10 0x0; e 10 0x0; e 10 0x0;
  e 10 0x0; e 10 0x0; e 36 0x0; e 36 0x0; e 40 0x0; e 192 0x0; e 192 0x0; e 255 0x0;
  e 255 0x0; e 255 0x0; e 255 0x0; e 255 0x0; e 255 0x0; e 255 0x0; e 255 0x0; e 255 0x0;
  e 10 0x0; e 10 0x0; e 10 0x0; e 10 0x0; e 10 0x0; e 10 0x0; e 10 0x0; e 10 0x0;
  e 10 0x0; e 10 0x0; e 10 0x0; e 10 0x0; e 10 0x0; e 10 0x0; e 10 0x0; e 10 0x0;
  e 10 0x0; e 10 0x0; e 36 0x0; e 36 0x0; e 255 0x0; e 255 0x0; e 255 0x0; e 255 0x0;
  e 255 0x0; e 255 0x0; e 255 0x0; e 255 0x0; e 255 0x0; e 255 0x0; e 255 0x0; e 255 0x0;
  e 10 0x0; e 10 0x0; e 10 0x0; e 10 0x0; e 10 0x0; e 10 0x0; e 10 0x0; e 10 0x0;
  e 10 0x0; e 10 0x0; e 10 0x0; e 10 0x0; e 10 0x0; e 255 0x0; e 10 0x0; e 10 0x0;
  e 10 0x0; e 255 0x0; e 36 0x0; e 36 0x0; e 255 0x0; e 255 0x0; e 255 0x0; e 255 0x0;
  e 255 0x0; e 255 0x0; e 255 0x0; e 255 0x0; e 255 0x0; e 255 0x0; e 255 0x0; e 255 0x0;
  e 10 0x0; e 10 0x0; e 10 0x0; e 10 0x0; e 10 0x0; e 10 0x0; e 10 0x0; e 10 0x0;
  e 10 0x0; e 10 0x0; e 10 0x0; e 10 0x0; e 10 0x0; e 10 0x0; e 10 0x0; e 10 0x0;
  e 10 0x0; e 10 0x0; e 10 0x0; e 10 0x0; e 10 0x0; e 10 0x0; e 10 0x0; e 10 0x0;
  e 10 0x0; e 10 0x0; e 10 0x0; e 10 0x0; e 10 0x0; e 10 0x0; e 10 0x0; e 10 0x0;
  e 10 0x0; e 10 0x0; e 10 0x0; e 10 0x0; e 10 0x0; e 10 0x0; e 10 0x0; e 10 0x0;
  e 10 0x0; e 10 0x0; e 10 0x0; e 10 0x0; e 10 0x0; e 10 0x0; e 10 0x0; e 10 0x0;
  e 10 0x0; e 10 0x0; e 10 0x0; e 10 0x0; e 36 0x0; e 36 0x0; e 29 0x0; e 36 0x0;
  e 36 0x0; e 36 0x0; e 36 0x0; e 36 0x0; e 36 0x0; e 36 0x0; e 29 0x0; e 29 0x0;
  e 29 0x0; e 29 0x0; e 29 0x0; e 29 0x0; e 29 0x0; e 29 0x0; e 36 0x0; e 29 0x0;
  e 29 0x0; e 36 0x0; e 36 0x0; e 36 0x0; e 36 0x0; e 36 0x0; e 36 0x0; e 36 0x0;
  e 36 0x0; e 36 0x0; e 40 0x0; e 36 0x0; e 192 0x0; e 192 0x0; e 192 0x0; e 6 0x0;
  e 192 0x0; e 192 0x0; e 192 0x0; e 198 0x0; e 10 0x0; e 84 0x0; e 255 0x0; e 255 0x0;
  e 109 0x0; e 110 0x0; e 111 0x0; e 112 0x0; e 113 0x0; e 114 0x0; e 115 0x0; e 116 0x0;
  e 117 0x0; e 118 0x0; e 255 0x0; e 255 0x0; e 255 0x0; e 255 0x0; e 255 0x0; e 255 0x0;
  e 162 0x0; e 162 0x0; e 162 0x0; e 162 0x0; e 162 0x0; e 162 0x0; e 162 0x0; e 162 0x0;
  e 162 0x0; e 162 0x0; e 255 0x0; e 255 0x0; e 255 0x0; e 255 0x0; e 255 0x0; e 255 0x0
].

Definition page_23 : list unichar := [
  e 193 0x0; e 193 0x0; e 193 0x0; e 193 0x0; e 193 0x0; e 193 0x0; e 180 0x0; e 193 0x0;
  e 193 0x0; e 193 0x0; e 193 0x0; e 36 0x0; e 36 0x0; e 36 0x0; e 216 0x0; e 255 0x0;
  e 109 0x0; e 110 0x0; e 111 0x0; e 112 0x0; e 113 0x0; e 114 0x0; e 115 0x0; e 116 0x0;
  e 117 0x0; e 118 0x0; e 255 0x0; e 255 0x0; e 255 0x0; e 255 0x0; e 255 0x0; e 255 0x0;
  e 10 0x0; e 10 0x0; e 10 0x0; e 10 0x0; e 10 0x0; e 10 0x0; e 10 0x0; e 10 0x0;
  e 10 0x0; e 10 0x0; e 10 0x0; e 10 0x0; e 10 0x0; e 10 0x0; e 10 0x0; e 10 0x0;
  e 10 0x0; e 10 0x0; e 10 0x0; e 10 0x0; e 10 0x0; e 10 0x0; e 10 0x0; e 10 0x0;
  e 10 0x0; e 10 0x0; e 10 0x0; e 10 0x0; e 10 0x0; e 10 0x0; e 10 0x0; e 10 0x0;
  e 10 0x0; e 10 0x0; e 10 0x0; e 6 0x0; e 10 0x0; e 10 0x0; e 10 0x0; e 10 0x0;
  e 10 0x0; e 10 0x0; e 10 0x0; e 10 0x0; e 10 0x0; e 10 0x0; e 10 0x0; e 10 0x0;
  e 10 0x0; e 10 0x0; e 10 0x0; e 10 0x0; e 10 0x0; e 10 0x0; e 10 0x0; e 10 0x0;
  e 10 0x0; e 10 0x0; e 10 0x0; e 10 0x0; e 10 0x0; e 10 0x0; e 10 0x0; e 10 0x0;
  e 10 0x0; e 10 0x0; e 10 0x0; e 10 0x0; e 10 0x0; e 10 0x0; e 10 0x0; e 10 0x0;
  e 10 0x0; e 10 0x0; e 10 0x0; e 10 0x0; e 10 0x0; e 10 0x0; e 10 0x0; e 10 0x0;
  e 10 0x0; e 10 0x0; e 10 0x0; e 10 0x0; e 10 0x0; e 10 0x0; e 10 0x0; e 10 0x0;
  e 255 0x0; e 255 0x0; e 255 0x0; e 255 0x0; e 255 0x0; e 255 0x0; e 255 0x0; e 255 0x0;
  e 10 0x0; e 10 0x0; e 10 0x0; e 10 0x0; e 10 0x0; e 10 0x0; e 10 0x0; e 10 0x0;
  e 10 0x0; e 10 0x0; e 10 0x0; e 10 0x0; e 10 0x0; e 10 0x0; e 10 0x0; e 10 0x0;
  e 10 0x0; e 10 0x0; e 10 0x0; e 10 0x0; e 10 0x0; e 10 0x0; e 10 0x0; e 10 0x0;
  e 10 0x0; e 10 0x0; e 10 0x0; e 10 0x0; e 10 0x0; e 10 0x0; e 10 0x0; e 10 0x0;
  e 10 0x0; e 10 0x0; e 10 0x0; e 10 0x0; e 10 0x0; e 10 0x0; e 10 0x0; e 10 0x0;
  e 10 0x0; e 83 0x0; e 10 0x0; e 255 0x0; e 255 0x0; e 255 0x0; e 255 0x0; e 255 0x0;
  e 10 0x0; e 10 0x0; e 10 0x0; e 10 0x0; e 10 0x0; e 10 0x0; e 10 0x0; e 10 0x0;
  e 10 0x0; e 10 0x0; e 10 0x0; e 10 0x0; e 10 0x0; e 10 0x0; e 10 0x0; e 10 0x0;
  e 10 0x0; e 10 0x0; e 10 0x0; e 10 0x0; e 10 0x0; e 10 0x0; e 10 0x0; e 10 0x0;
  e 10 0x0; e 10 0x0; e 10 0x0; e 10 0x0; e 10 0x0; e 10 0x0; e 10 0x0; e 10 0x0;
  e 10 0x0; e 10 0x0; e 10 0x0; e 10 0x0; e 10 0x0; e 10 0x0; e 10 0x0; e 10 0x0;
  e 10 0x0; e 10 0x0; e 10 0x0; e 10 0x0; e 10 0x0; e 10 0x0; e 10 0x0; e 10 0x0;
  e 10 0x0; e 10 0x0; e 10 0x0; e 10 0x0; e 10 0x0; e 10 0x0; e 10 0x0; e 10 0x0;
  e 10 0x0; e 10 0x0; e 10 0x0; e 10 0x0; e 10 0x0; e 10 0x0; e 10 0x0; e 10 0x0;
  e 10 0x0; e 10 0x0; e 10 0x0; e 10 0x0; e 10 0x0; e 10 0x0; e 255 0x0; e 255 0x0;
  e 255 0x0; e 255 0x0; e 255 0x0; e 255 0x0; e 255 0x0; e 255 0x0; e 255 0x0; e 255 0x0
].

Definition page_24 : list unichar := [
  e 10 0x0; e 10 0x0; e 10 0x0; e 10 0x0; e 10 0x0; e 10 0x0; e 10 0x0; e 10 0x0;
  e 10 0x0; e 10 0x0; e 10 0x0; e 10 0x0; e 10 0x0; e 10 0x0; e 10 0x0; e 10 0x0;
  e 10 0x0; e 10 0x0; e 10 0x0; e 10 0x0; e 10 0x0; e 10 0x0; e 10 0x0; e 10 0x0;
  e 10 0x0; e 10 0x0; e 10 0x0; e 10 0x0; e 10 0x0; e 255 0x0; e 255 0x0; e 255 0x0;
  e 36 0x0; e 36 0x0; e 36 0x0; e 29 0x0; e 29 0x0; e 29 0x0; e 29 0x0; e 36 0x0;
  e 36 0x0; e 29 0x0; e 29 0x0; e 29 0x0; e 255 0x0; e 255 0x0; e 255 0x0; e 255 0x0;
  e 29 0x0; e 29 0x0; e 36 0x0; e 29 0x0; e 29 0x0; e 29 0x0; e 29 0x0; e 29 0x0;
  e 29 0x0; e 82 0x0; e 84 0x0; e 81 0x0; e 255 0x0; e 255 0x0; e 255 0x0; e 255 0x0;
  e 212 0x0; e 255 0x0; e 255 0x0; e 255 0x0; e 193 0x0; e 193 0x0; e 109 0x0; e 110 0x0;
  e 111 0x0; e 112 0x0; e 113 0x0; e 114 0x0; e 115 0x0; e 116 0x0; e 117 0x0; e 118 0x0;
  e 10 0x0; e 10 0x0; e 10 0x0; e 10 0x0; e 10 0x0; e 10 0x0; e 10 0x0; e 10 0x0;
  e 10 0x0; e 10 0x0; e 10 0x0; e 10 0x0; e 10 0x0; e 10 0x0; e 10 0x0; e 10 0x0;
  e 10 0x0; e 10 0x0; e 10 0x0; e 10 0x0; e 10 0x0; e 10 0x0; e 10 0x0; e 10 0x0;
  e 10 0x0; e 10 0x0; e 10 0x0; e 10 0x0; e 10 0x0; e 10 0x0; e 255 0x0; e 255 0x0;
  e 10 0x0; e 10 0x0; e 10 0x0; e 10 0x0; e 10 0x0; e 255 0x0; e 255 0x0; e 255 0x0;
  e 255 0x0; e 255 0x0; e 255 0x0; e 255 0x0; e 255 0x0; e 255 0x0; e 255 0x0; e 255 0x0;
  e 10 0x0; e 10 0x0; e 10 0x0; e 10 0x0; e 10 0x0; e 10 0x0; e 10 0x0; e 10 0x0;
  e 10 0x0; e 10 0x0; e 10 0x0; e 10 0x0; e 10 0x0; e 10 0x0; e 10 0x0; e 10 0x0;
  e 10 0x0; e 10 0x0; e 10 0x0; e 10 0x0; e 10 0x0; e 10 0x0; e 10 0x0; e 10 0x0;
  e 10 0x0; e 10 0x0; e 10 0x0; e 10 0x0; e 10 0x0; e 10 0x0; e 10 0x0; e 10 0x0;
  e 10 0x0; e 10 0x0; e 10 0x0; e 10 0x0; e 10 0x0; e 10 0x0; e 10 0x0; e 10 0x0;
  e 10 0x0; e 10 0x0; e 10 0x0; e 10 0x0; e 255 0x0; e 255 0x0; e 255 0x0; e 255 0x0;
  e 29 0x0; e 29 0x0; e 29 0x0; e 29 0x0; e 29 0x0; e 29 0x0; e 29 0x0; e 29 0x0;
  e 29 0x0; e 29 0x0; e 29 0x0; e 29 0x0; e 29 0x0; e 29 0x0; e 29 0x0; e 29 0x0;
  e 29 0x0; e 10 0x0; e 10 0x0; e 10 0x0; e 10 0x0; e 10 0x0; e 10 0x0; e 10 0x0;
  e 29 0x0; e 29 0x0; e 255 0x0; e 255 0x0; e 255 0x0; e 255 0x0; e 255 0x0; e 255 0x0;
  e 109 0x0; e 110 0x0; e 111 0x0; e 112 0x0; e 113 0x0; e 114 0x0; e 115 0x0; e 116 0x0;
  e 117 0x0; e 118 0x0; e 153 0x0; e 255 0x0; e 255 0x0; e 255 0x0; e 212 0x0; e 212 0x0;
  e 212 0x0; e 212 0x0; e 212 0x0; e 212 0x0; e 212 0x0; e 212 0x0; e 212 0x0; e 212 0x0;
  e 212 0x0; e 212 0x0; e 212 0x0; e 212 0x0; e 212 0x0; e 212 0x0; e 212 0x0; e 212 0x0;
  e 212 0x0; e 212 0x0; e 212 0x0; e 212 0x0; e 212 0x0; e 212 0x0; e 212 0x0; e 212 0x0;
  e 212 0x0; e 212 0x0; e 212 0x0; e 212 0x0; e 212 0x0; e 212 0x0; e 212 0x0; e 212 0x0
].

Definition page_25 : list unichar := [
  e 10 0x0; e 10 0x0; e 10 0x0; e 10 0x0; e 10 0x0; e 10 0x0; e 10 0x0; e 10 0x0;
  e 10 0x0; e 10 0x0; e 10 0x0; e 10 0x0; e 10 0x0; e 10 0x0; e 10 0x0; e 10 0x0;
  e 10 0x0; e 10 0x0; e 10 0x0; e 10 0x0; e 10 0x0; e 10 0x0; e 10 0x0; e 84 0x0;
  e 81 0x0; e 29 0x0; e 29 0x0; e 29 0x0; e 255 0x0; e 255 0x0; e 192 0x0; e 192 0x0;
  e 10 0x0; e 10 0x0; e 10 0x0; e 10 0x0; e 10 0x0; e 10 0x0; e 10 0x0; e 10 0x0;
  e 10 0x0; e 10 0x0; e 10 0x0; e 10 0x0; e 10 0x0; e 10 0x0; e 10 0x0; e 10 0x0;
  e 10 0x0; e 10 0x0; e 10 0x0; e 10 0x0; e 10 0x0; e 10 0x0; e 10 0x0; e 10 0x0;
  e 10 0x0; e 10 0x0; e 10 0x0; e 10 0x0; e 10 0x0; e 10 0x0; e 10 0x0; e 10 0x0;
  e 10 0x0; e 10 0x0; e 10 0x0; e 10 0x0; e 10 0x0; e 10 0x0; e 10 0x0; e 10 0x0;
  e 10 0x0; e 10 0x0; e 10 0x0; e 10 0x0; e 10 0x0; e 10 0x0; e 10 0x0; e 10 0x0;
  e 10 0x0; e 10 0x0; e 10 0x0; e 10 0x0; e 10 0x0; e 29 0x0; e 36 0x0; e 29 0x0;
  e 36 0x0; e 36 0x0; e 36 0x0; e 36 0x0; e 36 0x0; e 36 0x0; e 36 0x0; e 255 0x0;
  e 40 0x0; e 29 0x0; e 36 0x0; e 29 0x0; e 29 0x0; e 36 0x0; e 36 0x0; e 36 0x0;
  e 36 0x0; e 36 0x0; e 36 0x0; e 36 0x0; e 36 0x0; e 29 0x0; e 29 0x0; e 29 0x0;
  e 29 0x0; e 29 0x0; e 29 0x0; e 36 0x0; e 36 0x0; e 84 0x0; e 84 0x0; e 84 0x0;
  e 84 0x0; e 84 0x0; e 84 0x0; e 84 0x0; e 84 0x0; e 255 0x0; e 255 0x0; e 81 0x0;
  e 109 0x0; e 110 0x0; e 111 0x0; e 112 0x0; e 113 0x0; e 114 0x0; e 115 0x0; e 116 0x0;
  e 117 0x0; e 118 0x0; e 255 0x0; e 255 0x0; e 255 0x0; e 255 0x0; e 255 0x0; e 255 0x0;
  e 109 0x0; e 110 0x0; e 111 0x0; e 112 0x0; e 113 0x0; e 114 0x0; e 115 0x0; e 116 0x0;
  e 117 0x0; e 118 0x0; e 255 0x0; e 255 0x0; e 255 0x0; e 255 0x0; e 255 0x0; e 255 0x0;
  e 192 0x0; e 192 0x0; e 192 0x0; e 192 0x0; e 192 0x0; e 192 0x0; e 192 0x0; e 6 0x0;
  e 192 0x0; e 192 0x0; e 192 0x0; e 192 0x0; e 192 0x0; e 192 0x0; e 255 0x0; e 255 0x0;
  e 255 0x0; e 255 0x0; e 255 0x0; e 255 0x0; e 255 0x0; e 255 0x0; e 255 0x0; e 255 0x0;
  e 255 0x0; e 255 0x0; e 255 0x0; e 255 0x0; e 255 0x0; e 255 0x0; e 255 0x0; e 255 0x0;
  e 255 0x0; e 255 0x0; e 255 0x0; e 255 0x0; e 255 0x0; e 255 0x0; e 255 0x0; e 255 0x0;
  e 255 0x0; e 255 0x0; e 255 0x0; e 255 0x0; e 255 0x0; e 255 0x0; e 255 0x0; e 255 0x0;
  e 255 0x0; e 255 0x0; e 255 0x0; e 255 0x0; e 255 0x0; e 255 0x0; e 255 0x0; e 255 0x0;
  e 255 0x0; e 255 0x0; e 255 0x0; e 255 0x0; e 255 0x0; e 255 0x0; e 255 0x0; e 255 0x0;
  e 255 0x0; e 255 0x0; e 255 0x0; e 255 0x0; e 255 0x0; e 255 0x0; e 255 0x0; e 255 0x0;
  e 255 0x0; e 255 0x0; e 255 0x0; e 255 0x0; e 255 0x0; e 255 0x0; e 255 0x0; e 255 0x0;
  e 255 0x0; e 255 0x0; e 255 0x0; e 255 0x0; e 255 0x0; e 255 0x0; e 255 0x0; e 255 0x0;
  e 255 0x0; e 255 0x0; e 255 0x0; e 255 0x0; e 255 0x0; e 255 0x0; e 255 0x0; e 255 0x0
].

Definition page_26 : list unichar := [
  e 36 0x0; e 36 0x0; e 36 0x0; e 36 0x0; e 29 0x0; e 10 0x0; e 10 0x0; e 10 0x0;
  e 10 0x0; e 10 0x0; e 10 0x0; e 10 0x0; e 10 0x0; e 10 0x0; e 10 0x0; e 10 0x0;
  e 10 0x0; e 10 0x0; e 10 0x0; e 10 0x0; e 10 0x0; e 10 0x0; e 10 0x0; e 10 0x0;
  e 10 0x0; e 10 0x0; e 10 0x0; e 10 0x0; e 10 0x0; e 10 0x0; e 10 0x0; e 10 0x0;
  e 10 0x0; e 10 0x0; e 10 0x0; e 10 0x0; e 10 0x0; e 10 0x0; e 10 0x0; e 10 0x0;
  e 10 0x0; e 10 0x0; e 10 0x0; e 10 0x0; e 10 0x0; e 10 0x0; e 10 0x0; e 10 0x0;
  e 10 0x0; e 10 0x0; e 10 0x0; e 10 0x0; e 38 0x0; e 29 0x0; e 36 0x0; e 36 0x0;
  e 36 0x0; e 36 0x0; e 36 0x0; e 29 0x0; e 36 0x0; e 29 0x0; e 29 0x0; e 29 0x0;
  e 29 0x0; e 29 0x0; e 36 0x0; e 29 0x0; e 30 0x0; e 10 0x0; e 10 0x0; e 10 0x0;
  e 10 0x0; e 10 0x0; e 10 0x0; e 10 0x0; e 255 0x0; e 255 0x0; e 255 0x0; e 255 0x0;
  e 109 0x0; e 110 0x0; e 111 0x0; e 112 0x0; e 113 0x0; e 114 0x0; e 115 0x0; e 116 0x0;
  e 117 0x0; e 118 0x0; e 192 0x0; e 192 0x0; e 192 0x0; e 192 0x0; e 192 0x0; e 192 0x0;
  e 192 0x0; e 211 0x0; e 211 0x0; e 211 0x0; e 211 0x0; e 211 0x0; e 211 0x0; e 211 0x0;
  e 211 0x0; e 211 0x0; e 211 0x0; e 84 0x0; e 81 0x0; e 84 0x0; e 84 0x0; e 84 0x0;
  e 84 0x0; e 84 0x0; e 84 0x0; e 84 0x0; e 211 0x0; e 211 0x0; e 211 0x0; e 211 0x0;
  e 211 0x0; e 211 0x0; e 211 0x0; e 211 0x0; e 211 0x0; e 255 0x0; e 255 0x0; e 255 0x0;
  e 36 0x0; e 36 0x0; e 29 0x0; e 10 0x0; e 10 0x0; e 10 0x0; e 10 0x0; e 10 0x0;
  e 10 0x0; e 10 0x0; e 10 0x0; e 10 0x0; e 10 0x0; e 10 0x0; e 10 0x0; e 10 0x0;
  e 10 0x0; e 10 0x0; e 10 0x0; e 10 0x0; e 10 0x0; e 10 0x0; e 10 0x0; e 10 0x0;
  e 10 0x0; e 10 0x0; e 10 0x0; e 10 0x0; e 10 0x0; e 10 0x0; e 10 0x0; e 10 0x0;
  e 10 0x0; e 29 0x0; e 36 0x0; e 36 0x0; e 36 0x0; e 36 0x0; e 29 0x0; e 29 0x0;
  e 36 0x0; e 36 0x0; e 30 0x0; e 40 0x0; e 29 0x0; e 29 0x0; e 10 0x0; e 10 0x0;
  e 109 0x0; e 110 0x0; e 111 0x0; e 112 0x0; e 113 0x0; e 114 0x0; e 115 0x0; e 116 0x0;
  e 117 0x0; e 118 0x0; e 10 0x0; e 10 0x0; e 10 0x0; e 10 0x0; e 10 0x0; e 10 0x0;
  e 10 0x0; e 10 0x0; e 10 0x0; e 10 0x0; e 10 0x0; e 10 0x0; e 10 0x0; e 10 0x0;
  e 10 0x0; e 10 0x0; e 10 0x0; e 10 0x0; e 10 0x0; e 10 0x0; e 10 0x0; e 10 0x0;
  e 10 0x0; e 10 0x0; e 10 0x0; e 10 0x0; e 10 0x0; e 10 0x0; e 10 0x0; e 10 0x0;
  e 10 0x0; e 10 0x0; e 10 0x0; e 10 0x0; e 10 0x0; e 10 0x0; e 10 0x0; e 10 0x0;
  e 10 0x0; e 10 0x0; e 10 0x0; e 10 0x0; e 10 0x0; e 10 0x0; e 38 0x0; e 29 0x0;
  e 36 0x0; e 36 0x0; e 29 0x0; e 29 0x0; e 29 0x0; e 36 0x0; e 29 0x0; e 36 0x0;
  e 36 0x0; e 36 0x0; e 30 0x0; e 30 0x0; e 255 0x0; e 255 0x0; e 255 0x0; e 255 0x0;
  e 255 0x0; e 255 0x0; e 255 0x0; e 255 0x0; e 192 0x0; e 192 0x0; e 192 0x0; e 192 0x0
].

Definition page_27 : list unichar := [
  e 10 0x0; e 10 0x0; e 10 0x0; e 10 0x0; e 10 0x0; e 10 0x0; e 10 0x0; e 10 0x0;
  e 10 0x0; e 10 0x0; e 10 0x0; e 10 0x0; e 10 0x0; e 10 0x0; e 10 0x0; e 10 0x0;
  e 10 0x0; e 10 0x0; e 10 0x0; e 10 0x0; e 10 0x0; e 10 0x0; e 10 0x0; e 10 0x0;
  e 10 0x0; e 10 0x0; e 10 0x0; e 10 0x0; e 10 0x0; e 10 0x0; e 10 0x0; e 10 0x0;
  e 10 0x0; e 10 0x0; e 10 0x0; e 10 0x0; e 29 0x0; e 29 0x0; e 29 0x0; e 29 0x0;
  e 29 0x0; e 29 0x0; e 29 0x0; e 29 0x0; e 36 0x0; e 36 0x0; e 36 0x0; e 36 0x0;
  e 36 0x0; e 36 0x0; e 36 0x0; e 36 0x0; e 29 0x0; e 29 0x0; e 36 0x0; e 38 0x0;
  e 255 0x0; e 255 0x0; e 255 0x0; e 192 0x0; e 192 0x0; e 192 0x0; e 192 0x0; e 192 0x0;
  e 109 0x0; e 110 0x0; e 111 0x0; e 112 0x0; e 113 0x0; e 114 0x0; e 115 0x0; e 116 0x0;
  e 117 0x0; e 118 0x0; e 255 0x0; e 255 0x0; e 255 0x0; e 10 0x0; e 10 0x0; e 10 0x0;
  e 109 0x0; e 110 0x0; e 111 0x0; e 112 0x0; e 113 0x0; e 114 0x0; e 115 0x0; e 116 0x0;
  e 117 0x0; e 118 0x0; e 10 0x0; e 10 0x0; e 10 0x0; e 10 0x0; e 10 0x0; e 10 0x0;
  e 10 0x0; e 10 0x0; e 10 0x0; e 10 0x0; e 10 0x0; e 10 0x0; e 10 0x0; e 10 0x0;
  e 10 0x0; e 10 0x0; e 10 0x0; e 10 0x0; e 10 0x0; e 10 0x0; e 10 0x0; e 10 0x0;
  e 10 0x0; e 10 0x0; e 10 0x0; e 10 0x0; e 10 0x0; e 10 0x0; e 10 0x0; e 10 0x0;
  e 6 0x0; e 6 0x0; e 6 0x0; e 6 0x0; e 6 0x0; e 6 0x0; e 192 0x0; e 192 0x0;
  e 255 0x0; e 255 0x0; e 255 0x0; e 255 0x0; e 255 0x0; e 255 0x0; e 255 0x0; e 255 0x0;
  e 255 0x0; e 255 0x0; e 255 0x0; e 255 0x0; e 255 0x0; e 255 0x0; e 255 0x0; e 255 0x0;
  e 255 0x0; e 255 0x0; e 255 0x0; e 255 0x0; e 255 0x0; e 255 0x0; e 255 0x0; e 255 0x0;
  e 255 0x0; e 255 0x0; e 255 0x0; e 255 0x0; e 255 0x0; e 255 0x0; e 255 0x0; e 255 0x0;
  e 255 0x0; e 255 0x0; e 255 0x0; e 255 0x0; e 255 0x0; e 255 0x0; e 255 0x0; e 255 0x0;
  e 255 0x0; e 255 0x0; e 255 0x0; e 255 0x0; e 255 0x0; e 255 0x0; e 255 0x0; e 255 0x0;
  e 255 0x0; e 255 0x0; e 255 0x0; e 255 0x0; e 255 0x0; e 255 0x0; e 255 0x0; e 255 0x0;
  e 255 0x0; e 255 0x0; e 255 0x0; e 255 0x0; e 255 0x0; e 255 0x0; e 255 0x0; e 255 0x0;
  e 192 0x0; e 192 0x0; e 192 0x0; e 192 0x0; e 192 0x0; e 192 0x0; e 192 0x0; e 192 0x0;
  e 255 0x0; e 255 0x0; e 255 0x0; e 255 0x0; e 255 0x0; e 255 0x0; e 255 0x0; e 255 0x0;
  e 84 0x0; e 84 0x0; e 84 0x0; e 192 0x0; e 37 0x0; e 81 0x0; e 81 0x0; e 81 0x0;
  e 81 0x0; e 81 0x0; e 84 0x0; e 84 0x0; e 81 0x0; e 81 0x0; e 81 0x0; e 81 0x0;
  e 84 0x0; e 29 0x0; e 37 0x0; e 37 0x0; e 37 0x0; e 37 0x0; e 37 0x0; e 37 0x0;
  e 37 0x0; e 10 0x0; e 10 0x0; e 10 0x0; e 10 0x0; e 81 0x0; e 10 0x0; e 10 0x0;
  e 10 0x0; e 10 0x0; e 29 0x0; e 29 0x0; e 84 0x0; e 10 0x0; e 10 0x0; e 255 0x0;
  e 255 0x0; e 255 0x0; e 255 0x0; e 255 0x0; e 255 0x0; e 255 0x0; e 255 0x0; e 255 0x0
].

Definition page_28 : list unichar := [
  e 3 0x0; e 3 0x0; e 3 0x0; e 3 0x0; e 3 0x0; e 3 0x0; e 3 0x0; e 3 0x0;
  e 3 0x0; e 3 0x0; e 3 0x0; e 3 0x0; e 3 0x0; e 3 0x0; e 3 0x0; e 3 0x0;
  e 3 0x0; e 3 0x0; e 3 0x0; e 3 0x0; e 3 0x0; e 3 0x0; e 3 0x0; e 3 0x0;
  e 3 0x0; e 3 0x0; e 3 0x0; e 3 0x0; e 3 0x0; e 3 0x0; e 3 0x0; e 3 0x0;
  e 3 0x0; e 3 0x0; e 3 0x0; e 3 0x0; e 3 0x0; e 3 0x0; e 3 0x0; e 3 0x0;
  e 3 0x0; e 3 0x0; e 3 0x0; e 3 0x0; e 6 0x0; e 6 0x0; e 6 0x0; e 6 0x0;
  e 6 0x0; e 6 0x0; e 6 0x0; e 6 0x0; e 6 0x0; e 6 0x0; e 6 0x0; e 6 0x0;
  e 6 0x0; e 6 0x0; e 6 0x0; e 6 0x0; e 6 0x0; e 6 0x0; e 6 0x0; e 6 0x0;
  e 6 0x0; e 6 0x0; e 6 0x0; e 6 0x0; e 6 0x0; e 6 0x0; e 6 0x0; e 6 0x0;
  e 6 0x0; e 6 0x0; e 6 0x0; e 6 0x0; e 6 0x0; e 6 0x0; e 6 0x0; e 6 0x0;
  e 6 0x0; e 6 0x0; e 6 0x0; e 6 0x0; e 6 0x0; e 6 0x0; e 6 0x0; e 6 0x0;
  e 6 0x0; e 6 0x0; e 6 0x0; e 6 0x0; e 6 0x0; e 6 0x0; e 6 0x0; e 6 0x0;
  e 6 0x0; e 6 0x0; e 6 0x0; e 6 0x0; e 6 0x0; e 6 0x0; e 6 0x0; e 6 0x0;
  e 6 0x0; e 6 0x0; e 6 0x0; e 3 0x0; e 3 0x0; e 3 0x0; e 3 0x0; e 3 0x0;
  e 3 0x0; e 3 0x0; e 3 0x0; e 3 0x0; e 3 0x0; e 3 0x0; e 3 0x0; e 3 0x0;
  e 6 0x0; e 1 0xA77D; e 3 0x0; e 3 0x0; e 3 0x0; e 1 0x2C63; e 3 0x0; e 3 0x0;
  e 3 0x0; e 3 0x0; e 3 0x0; e 3 0x0; e 3 0x0; e 3 0x0; e 3 0x0; e 3 0x0;
  e 3 0x0; e 3 0x0; e 3 0x0; e 3 0x0; e 3 0x0; e 3 0x0; e 3 0x0; e 3 0x0;
  e 3 0x0; e 3 0x0; e 3 0x0; e 3 0x0; e 3 0x0; e 3 0x0; e 3 0x0; e 3 0x0;
  e 3 0x0; e 3 0x0; e 3 0x0; e 6 0x0; e 6 0x0; e 6 0x0; e 6 0x0; e 6 0x0;
  e 6 0x0; e 6 0x0; e 6 0x0; e 6 0x0; e 6 0x0; e 6 0x0; e 6 0x0; e 6 0x0;
  e 6 0x0; e 6 0x0; e 6 0x0; e 6 0x0; e 6 0x0; e 6 0x0; e 6 0x0; e 6 0x0;
  e 6 0x0; e 6 0x0; e 6 0x0; e 6 0x0; e 6 0x0; e 6 0x0; e 6 0x0; e 6 0x0;
  e 6 0x0; e 6 0x0; e 6 0x0; e 6 0x0; e 6 0x0; e 6 0x0; e 6 0x0; e 6 0x0;
  e 84 0x0; e 84 0x0; e 81 0x0; e 84 0x0; e 84 0x0; e 84 0x0; e 84 0x0; e 84 0x0;
  e 84 0x0; e 84 0x0; e 81 0x0; e 84 0x0; e 84 0x0; e 87 0x0; e 78 0x0; e 81 0x0;
  e 77 0x0; e 84 0x0; e 84 0x0; e 84 0x0; e 84 0x0; e 84 0x0; e 84 0x0; e 84 0x0;
  e 84 0x0; e 84 0x0; e 84 0x0; e 84 0x0; e 84 0x0; e 84 0x0; e 84 0x0; e 84 0x0;
  e 84 0x0; e 84 0x0; e 84 0x0; e 84 0x0; e 84 0x0; e 84 0x0; e 84 0x0; e 255 0x0;
  e 255 0x0; e 255 0x0; e 255 0x0; e 255 0x0; e 255 0x0; e 255 0x0; e 255 0x0; e 255 0x0;
  e 255 0x0; e 255 0x0; e 255 0x0; e 255 0x0; e 255 0x0; e 255 0x0; e 255 0x0; e 255 0x0;
  e 255 0x0; e 255 0x0; e 255 0x0; e 255 0x0; e 86 0x0; e 81 0x0; e 84 0x0; e 81 0x0
].

Definition page_29 : list unichar := [
  e 0 0x1E01; e 1 0x1E00; e 0 0x1E03; e 1 0x1E02; e 0 0x1E05; e 1 0x1E04; e 0 0x1E07; e 1 0x1E06;
  e 0 0x1E09; e 1 0x1E08; e 0 0x1E0B; e 1 0x1E0A; e 0 0x1E0D; e 1 0x1E0C; e 0 0x1E0F; e 1 0x1E0E;
  e 0 0x1E11; e 1 0x1E10; e 0 0x1E13; e 1 0x1E12; e 0 0x1E15; e 1 0x1E14; e 0 0x1E17; e 1 0x1E16;
  e 0 0x1E19; e 1 0x1E18; e 0 0x1E1B; e 1 0x1E1A; e 0 0x1E1D; e 1 0x1E1C; e 0 0x1E1F; e 1 0x1E1E;
  e 0 0x1E21; e 1 0x1E20; e 0 0x1E23; e 1 0x1E22; e 0 0x1E25; e 1 0x1E24; e 0 0x1E27; e 1 0x1E26;
  e 0 0x1E29; e 1 0x1E28; e 0 0x1E2B; e 1 0x1E2A; e 0 0x1E2D; e 1 0x1E2C; e 0 0x1E2F; e 1 0x1E2E;
  e 0 0x1E31; e 1 0x1E30; e 0 0x1E33; e 1 0x1E32; e 0 0x1E35; e 1 0x1E34; e 0 0x1E37; e 1 0x1E36;
  e 0 0x1E39; e 1 0x1E38; e 0 0x1E3B; e 1 0x1E3A; e 0 0x1E3D; e 1 0x1E3C; e 0 0x1E3F; e 1 0x1E3E;
  e 0 0x1E41; e 1 0x1E40; e 0 0x1E43; e 1 0x1E42; e 0 0x1E45; e 1 0x1E44; e 0 0x1E47; e 1 0x1E46;
  e 0 0x1E49; e 1 0x1E48; e 0 0x1E4B; e 1 0x1E4A; e 0 0x1E4D; e 1 0x1E4C; e 0 0x1E4F; e 1 0x1E4E;
  e 0 0x1E51; e 1 0x1E50; e 0 0x1E53; e 1 0x1E52; e 0 0x1E55; e 1 0x1E54; e 0 0x1E57; e 1 0x1E56;
  e 0 0x1E59; e 1 0x1E58; e 0 0x1E5B; e 1 0x1E5A; e 0 0x1E5D; e 1 0x1E5C; e 0 0x1E5F; e 1 0x1E5E;
  e 0 0x1E61; e 1 0x1E60; e 0 0x1E63; e 1 0x1E62; e 0 0x1E65; e 1 0x1E64; e 0 0x1E67; e 1 0x1E66;
  e 0 0x1E69; e 1 0x1E68; e 0 0x1E6B; e 1 0x1E6A; e 0 0x1E6D; e 1 0x1E6C; e 0 0x1E6F; e 1 0x1E6E;
  e 0 0x1E71; e 1 0x1E70; e 0 0x1E73; e 1 0x1E72; e 0 0x1E75; e 1 0x1E74; e 0 0x1E77; e 1 0x1E76;
  e 0 0x1E79; e 1 0x1E78; e 0 0x1E7B; e 1 0x1E7A; e 0 0x1E7D; e 1 0x1E7C; e 0 0x1E7F; e 1 0x1E7E;
  e 0 0x1E81; e 1 0x1E80; e 0 0x1E83; e 1 0x1E82; e 0 0x1E85; e 1 0x1E84; e 0 0x1E87; e 1 0x1E86;
  e 0 0x1E89; e 1 0x1E88; e 0 0x1E8B; e 1 0x1E8A; e 0 0x1E8D; e 1 0x1E8C; e 0 0x1E8F; e 1 0x1E8E;
  e 0 0x1E91; e 1 0x1E90; e 0 0x1E93; e 1 0x1E92; e 0 0x1E95; e 1 0x1E94; e 3 0x0; e 3 0x0;
  e 3 0x0; e 3 0x0; e 3 0x0; e 3 0x1E60; e 3 0x0; e 3 0x0; e 2 0xDF; e 3 0x0;
  e 0 0x1EA1; e 1 0x1EA0; e 0 0x1EA3; e 1 0x1EA2; e 0 0x1EA5; e 1 0x1EA4; e 0 0x1EA7; e 1 0x1EA6;
  e 0 0x1EA9; e 1 0x1EA8; e 0 0x1EAB; e 1 0x1EAA; e 0 0x1EAD; e 1 0x1EAC; e 0 0x1EAF; e 1 0x1EAE;
  e 0 0x1EB1; e 1 0x1EB0; e 0 0x1EB3; e 1 0x1EB2; e 0 0x1EB5; e 1 0x1EB4; e 0 0x1EB7; e 1 0x1EB6;
  e 0 0x1EB9; e 1 0x1EB8; e 0 0x1EBB; e 1 0x1EBA; e 0 0x1EBD; e 1 0x1EBC; e 0 0x1EBF; e 1 0x1EBE;
  e 0 0x1EC1; e 1 0x1EC0; e 0 0x1EC3; e 1 0x1EC2; e 0 0x1EC5; e 1 0x1EC4; e 0 0x1EC7; e 1 0x1EC6;
  e 0 0x1EC9; e 1 0x1EC8; e 0 0x1ECB; e 1 0x1ECA; e 0 0x1ECD; e 1 0x1ECC; e 0 0x1ECF; e 1 0x1ECE;
  e 0 0x1ED1; e 1 0x1ED0; e 0 0x1ED3; e 1 0x1ED2; e 0 0x1ED5; e 1 0x1ED4; e 0 0x1ED7; e 1 0x1ED6;
  e 0 0x1ED9; e 1 0x1ED8; e 0 0x1EDB; e 1 0x1EDA; e 0 0x1EDD; e 1 0x1EDC; e 0 0x1EDF; e 1 0x1EDE;
  e 0 0x1EE1; e 1 0x1EE0; e 0 0x1EE3; e 1 0x1EE2; e 0 0x1EE5; e 1 0x1EE4; e 0 0x1EE7; e 1 0x1EE6;
  e 0 0x1EE9; e 1 0x1EE8; e 0 0x1EEB; e 1 0x1EEA; e 0 0x1EED; e 1 0x1EEC; e 0 0x1EEF; e 1 0x1EEE;
  e 0 0x1EF1; e 1 0x1EF0; e 0 0x1EF3; e 1 0x1EF2; e 0 0x1EF5; e 1 0x1EF4; e 0 0x1EF7; e 1 0x1EF6;
  e 0 0x1EF9; e 1 0x1EF8; e 0 0x1EFB; e 1 0x1EFA; e 0 0x1EFD; e 1 0x1EFC; e 0 0x1EFF; e 1 0x1EFE
].

Definition page_30 : list unichar := [
  e 1 0x1F08; e 1 0x1F09; e 1 0x1F0A; e 1 0x1F0B; e 1 0x1F0C; e 1 0x1F0D; e 1 0x1F0E; e 1 0x1F0F;
  e 0 0x1F00; e 0 0x1F01; e 0 0x1F02; e 0 0x1F03; e 0 0x1F04; e 0 0x1F05; e 0 0x1F06; e 0 0x1F07;
  e 1 0x1F18; e 1 0x1F19; e 1 0x1F1A; e 1 0x1F1B; e 1 0x1F1C; e 1 0x1F1D; e 255 0x0; e 255 0x0;
  e 0 0x1F10; e 0 0x1F11; e 0 0x1F12; e 0 0x1F13; e 0 0x1F14; e 0 0x1F15; e 255 0x0; e 255 0x0;
  e 1 0x1F28; e 1 0x1F29; e 1 0x1F2A; e 1 0x1F2B; e 1 0x1F2C; e 1 0x1F2D; e 1 0x1F2E; e 1 0x1F2F;
  e 0 0x1F20; e 0 0x1F21; e 0 0x1F22; e 0 0x1F23; e 0 0x1F24; e 0 0x1F25; e 0 0x1F26; e 0 0x1F27;
  e 1 0x1F38; e 1 0x1F39; e 1 0x1F3A; e 1 0x1F3B; e 1 0x1F3C; e 1 0x1F3D; e 1 0x1F3E; e 1 0x1F3F;
  e 0 0x1F30; e 0 0x1F31; e 0 0x1F32; e 0 0x1F33; e 0 0x1F34; e 0 0x1F35; e 0 0x1F36; e 0 0x1F37;
  e 1 0x1F48; e 1 0x1F49; e 1 0x1F4A; e 1 0x1F4B; e 1 0x1F4C; e 1 0x1F4D; e 255 0x0; e 255 0x0;
  e 0 0x1F40; e 0 0x1F41; e 0 0x1F42; e 0 0x1F43; e 0 0x1F44; e 0 0x1F45; e 255 0x0; e 255 0x0;
  e 3 0x0; e 1 0x1F59; e 3 0x0; e 1 0x1F5B; e 3 0x0; e 1 0x1F5D; e 3 0x0; e 1 0x1F5F;
  e 255 0x0; e 0 0x1F51; e 255 0x0; e 0 0x1F53; e 255 0x0; e 0 0x1F55; e 255 0x0; e 0 0x1F57;
  e 1 0x1F68; e 1 0x1F69; e 1 0x1F6A; e 1 0x1F6B; e 1 0x1F6C; e 1 0x1F6D; e 1 0x1F6E; e 1 0x1F6F;
  e 0 0x1F60; e 0 0x1F61; e 0 0x1F62; e 0 0x1F63; e 0 0x1F64; e 0 0x1F65; e 0 0x1F66; e 0 0x1F67;
  e 1 0x1FBA; e 1 0x1FBB; e 1 0x1FC8; e 1 0x1FC9; e 1 0x1FCA; e 1 0x1FCB; e 1 0x1FDA; e 1 0x1FDB;
  e 1 0x1FF8; e 1 0x1FF9; e 1 0x1FEA; e 1 0x1FEB; e 1 0x1FFA; e 1 0x1FFB; e 255 0x0; e 255 0x0;
  e 1 0x1F88; e 1 0x1F89; e 1 0x1F8A; e 1 0x1F8B; e 1 0x1F8C; e 1 0x1F8D; e 1 0x1F8E; e 1 0x1F8F;
  e 4 0x1F80; e 4 0x1F81; e 4 0x1F82; e 4 0x1F83; e 4 0x1F84; e 4 0x1F85; e 4 0x1F86; e 4 0x1F87;
  e 1 0x1F98; e 1 0x1F99; e 1 0x1F9A; e 1 0x1F9B; e 1 0x1F9C; e 1 0x1F9D; e 1 0x1F9E; e 1 0x1F9F;
  e 4 0x1F90; e 4 0x1F91; e 4 0x1F92; e 4 0x1F93; e 4 0x1F94; e 4 0x1F95; e 4 0x1F96; e 4 0x1F97;
  e 1 0x1FA8; e 1 0x1FA9; e 1 0x1FAA; e 1 0x1FAB; e 1 0x1FAC; e 1 0x1FAD; e 1 0x1FAE; e 1 0x1FAF;
  e 4 0x1FA0; e 4 0x1FA1; e 4 0x1FA2; e 4 0x1FA3; e 4 0x1FA4; e 4 0x1FA5; e 4 0x1FA6; e 4 0x1FA7;
  e 1 0x1FB8; e 1 0x1FB9; e 3 0x0; e 1 0x1FBC; e 3 0x0; e 255 0x0; e 3 0x0; e 3 0x0;
  e 0 0x1FB0; e 0 0x1FB1; e 0 0x1F70; e 0 0x1F71; e 4 0x1FB3; e 201 0x0; e 3 0x399; e 201 0x0;
  e 201 0x0; e 201 0x0; e 3 0x0; e 1 0x1FCC; e 3 0x0; e 255 0x0; e 3 0x0; e 3 0x0;
  e 0 0x1F72; e 0 0x1F73; e 0 0x1F74; e 0 0x1F75; e 4 0x1FC3; e 201 0x0; e 201 0x0; e 201 0x0;
  e 1 0x1FD8; e 1 0x1FD9; e 3 0x0; e 3 0x0; e 255 0x0; e 255 0x0; e 3 0x0; e 3 0x0;
  e 0 0x1FD0; e 0 0x1FD1; e 0 0x1F76; e 0 0x1F77; e 255 0x0; e 201 0x0; e 201 0x0; e 201 0x0;
  e 1 0x1FE8; e 1 0x1FE9; e 3 0x0; e 3 0x0; e 3 0x0; e 1 0x1FEC; e 3 0x0; e 3 0x0;
  e 0 0x1FE0; e 0 0x1FE1; e 0 0x1F7A; e 0 0x1F7B; e 0 0x1FE5; e 201 0x0; e 201 0x0; e 201 0x0;
  e 255 0x0; e 255 0x0; e 3 0x0; e 1 0x1FFC; e 3 0x0; e 255 0x0; e 3 0x0; e 3 0x0;
  e 0 0x1F78; e 0 0x1F79; e 0 0x1F7C; e 0 0x1F7D; e 4 0x1FF3; e 201 0x0; e 201 0x0; e 255 0x0
].

Definition page_31 : list unichar := [
  e 216 0x0; e 216 0x0; e 216 0x0; e 216 0x0; e 216 0x0; e 216 0x0; e 216 0x0; e 216 0x0;
  e 216 0x0; e 216 0x0; e 216 0x0; e 18 0x0; e 18 0x0; e 18 0x0; e 19 0x0; e 24 0x0;
  e 180 0x0; e 180 0x0; e 180 0x0; e 180 0x0; e 180 0x0; e 180 0x0; e 193 0x0; e 193 0x0;
  e 186 0x0; e 184 0x0; e 195 0x0; e 186 0x0; e 186 0x0; e 184 0x0; e 195 0x0; e 186 0x0;
  e 193 0x0; e 193 0x0; e 193 0x0; e 193 0x0; e 193 0x0; e 193 0x0; e 193 0x0; e 193 0x0;
  e 213 0x0; e 214 0x0; e 20 0x0; e 25 0x0; e 23 0x0; e 21 0x0; e 26 0x0; e 215 0x0;
  e 191 0x0; e 191 0x0; e 191 0x0; e 191 0x0; e 191 0x0; e 193 0x0; e 193 0x0; e 193 0x0;
  e 193 0x0; e 187 0x0; e 185 0x0; e 193 0x0; e 193 0x0; e 193 0x0; e 193 0x0; e 178 0x0;
  e 178 0x0; e 193 0x0; e 193 0x0; e 193 0x0; e 203 0x0; e 196 0x0; e 183 0x0; e 193 0x0;
  e 193 0x0; e 193 0x0; e 193 0x0; e 193 0x0; e 193 0x0; e 193 0x0; e 193 0x0; e 193 0x0;
  e 193 0x0; e 193 0x0; e 207 0x0; e 193 0x0; e 178 0x0; e 193 0x0; e 193 0x0; e 193 0x0;
  e 193 0x0; e 193 0x0; e 193 0x0; e 193 0x0; e 193 0x0; e 193 0x0; e 193 0x0; e 216 0x0;
  e 18 0x0; e 18 0x0; e 18 0x0; e 18 0x0; e 18 0x0; e 255 0x0; e 255 0x0; e 255 0x0;
  e 255 0x0; e 255 0x0; e 18 0x0; e 18 0x0; e 18 0x0; e 18 0x0; e 18 0x0; e 18 0x0;
  e 142 0x0; e 6 0x0; e 255 0x0; e 255 0x0; e 146 0x0; e 147 0x0; e 148 0x0; e 149 0x0;
  e 150 0x0; e 151 0x0; e 204 0x0; e 204 0x0; e 207 0x0; e 196 0x0; e 183 0x0; e 6 0x0;
  e 142 0x0; e 143 0x0; e 144 0x0; e 145 0x0; e 146 0x0; e 147 0x0; e 148 0x0; e 149 0x0;
  e 150 0x0; e 151 0x0; e 204 0x0; e 204 0x0; e 207 0x0; e 196 0x0; e 183 0x0; e 255 0x0;
  e 6 0x0; e 6 0x0; e 6 0x0; e 6 0x0; e 6 0x0; e 6 0x0; e 6 0x0; e 6 0x0;
  e 6 0x0; e 6 0x0; e 6 0x0; e 6 0x0; e 6 0x0; e 255 0x0; e 255 0x0; e 255 0x0;
  e 198 0x0; e 198 0x0; e 198 0x0; e 198 0x0; e 198 0x0; e 198 0x0; e 198 0x0; e 198 0x0;
  e 198 0x0; e 198 0x0; e 198 0x0; e 198 0x0; e 198 0x0; e 198 0x0; e 198 0x0; e 198 0x0;
  e 198 0x0; e 198 0x0; e 198 0x0; e 198 0x0; e 198 0x0; e 198 0x0; e 198 0x0; e 198 0x0;
  e 198 0x0; e 198 0x0; e 198 0x0; e 255 0x0; e 255 0x0; e 255 0x0; e 255 0x0; e 255 0x0;
  e 255 0x0; e 255 0x0; e 255 0x0; e 255 0x0; e 255 0x0; e 255 0x0; e 255 0x0; e 255 0x0;
  e 255 0x0; e 255 0x0; e 255 0x0; e 255 0x0; e 255 0x0; e 255 0x0; e 255 0x0; e 255 0x0;
  e 84 0x0; e 84 0x0; e 37 0x0; e 37 0x0; e 84 0x0; e 84 0x0; e 84 0x0; e 84 0x0;
  e 37 0x0; e 37 0x0; e 37 0x0; e 84 0x0; e 84 0x0; e 34 0x0; e 34 0x0; e 34 0x0;
  e 34 0x0; e 84 0x0; e 34 0x0; e 34 0x0; e 34 0x0; e 37 0x0; e 37 0x0; e 84 0x0;
  e 81 0x0; e 84 0x0; e 37 0x0; e 37 0x0; e 81 0x0; e 81 0x0; e 81 0x0; e 81 0x0;
  e 84 0x0; e 255 0x0; e 255 0x0; e 255 0x0; e 255 0x0; e 255 0x0; e 255 0x0; e 255 0x0;
  e 255 0x0; e 255 0x0; e 255 0x0; e 255 0x0; e 255 0x0; e 255 0x0; e 255 0x0; e 255 0x0
].

Definition page_32 : list unichar := [
  e 212 0x0; e 212 0x0; e 2 0x0; e 212 0x0; e 212 0x0; e 212 0x0; e 212 0x0; e 2 0x0;
  e 212 0x0; e 212 0x0; e 3 0x0; e 2 0x0; e 2 0x0; e 2 0x0; e 3 0x0; e 3 0x0;
  e 2 0x0; e 2 0x0; e 2 0x0; e 3 0x0; e 212 0x0; e 2 0x0; e 212 0x0; e 212 0x0;
  e 207 0x0; e 2 0x0; e 2 0x0; e 2 0x0; e 2 0x0; e 2 0x0; e 212 0x0; e 212 0x0;
  e 212 0x0; e 212 0x0; e 212 0x0; e 212 0x0; e 2 0x0; e 212 0x0; e 2 0x3C9; e 212 0x0;
  e 2 0x0; e 212 0x0; e 2 0x6B; e 2 0xE5; e 2 0x0; e 2 0x0; e 210 0x0; e 3 0x0;
  e 2 0x0; e 2 0x0; e 0 0x214E; e 2 0x0; e 3 0x0; e 10 0x0; e 10 0x0; e 10 0x0;
  e 10 0x0; e 3 0x0; e 212 0x0; e 212 0x0; e 3 0x0; e 3 0x0; e 2 0x0; e 2 0x0;
  e 208 0x0; e 207 0x0; e 207 0x0; e 207 0x0; e 207 0x0; e 2 0x0; e 3 0x0; e 3 0x0;
  e 3 0x0; e 3 0x0; e 212 0x0; e 207 0x0; e 212 0x0; e 212 0x0; e 1 0x2132; e 211 0x0;
  e 162 0x0; e 162 0x0; e 162 0x0; e 162 0x0; e 162 0x0; e 162 0x0; e 162 0x0; e 162 0x0;
  e 162 0x0; e 162 0x0; e 162 0x0; e 162 0x0; e 162 0x0; e 162 0x0; e 162 0x0; e 162 0x0;
  e 129 0x2170; e 129 0x2171; e 129 0x2172; e 129 0x2173; e 129 0x2174; e 129 0x2175; e 129 0x2176; e 129 0x2177;
  e 129 0x2178; e 129 0x2179; e 129 0x217A; e 129 0x217B; e 129 0x217C; e 129 0x217D; e 129 0x217E; e 129 0x217F;
  e 129 0x2160; e 129 0x2161; e 129 0x2162; e 129 0x2163; e 129 0x2164; e 129 0x2165; e 129 0x2166; e 129 0x2167;
  e 129 0x2168; e 129 0x2169; e 129 0x216A; e 129 0x216B; e 129 0x216C; e 129 0x216D; e 129 0x216E; e 129 0x216F;
  e 129 0x0; e 129 0x0; e 129 0x0; e 0 0x2184; e 1 0x2183; e 129 0x0; e 129 0x0; e 129 0x0;
  e 129 0x0; e 162 0x0; e 255 0x0; e 255 0x0; e 255 0x0; e 255 0x0; e 255 0x0; e 255 0x0;
  e 207 0x0; e 207 0x0; e 207 0x0; e 207 0x0; e 207 0x0; e 212 0x0; e 212 0x0; e 212 0x0;
  e 212 0x0; e 212 0x0; e 207 0x0; e 207 0x0; e 212 0x0; e 212 0x0; e 212 0x0; e 212 0x0;
  e 207 0x0; e 212 0x0; e 212 0x0; e 207 0x0; e 212 0x0; e 212 0x0; e 207 0x0; e 212 0x0;
  e 212 0x0; e 212 0x0; e 212 0x0; e 212 0x0; e 212 0x0; e 212 0x0; e 207 0x0; e 212 0x0;
  e 212 0x0; e 212 0x0; e 212 0x0; e 212 0x0; e 212 0x0; e 212 0x0; e 212 0x0; e 212 0x0;
  e 212 0x0; e 212 0x0; e 212 0x0; e 212 0x0; e 212 0x0; e 212 0x0; e 212 0x0; e 212 0x0;
  e 212 0x0; e 212 0x0; e 212 0x0; e 212 0x0; e 212 0x0; e 212 0x0; e 212 0x0; e 212 0x0;
  e 212 0x0; e 212 0x0; e 212 0x0; e 212 0x0; e 212 0x0; e 212 0x0; e 207 0x0; e 207 0x0;
  e 212 0x0; e 212 0x0; e 207 0x0; e 212 0x0; e 207 0x0; e 212 0x0; e 212 0x0; e 212 0x0;
  e 212 0x0; e 212 0x0; e 212 0x0; e 212 0x0; e 212 0x0; e 212 0x0; e 212 0x0; e 212 0x0;
  e 212 0x0; e 212 0x0; e 212 0x0; e 212 0x0; e 212 0x0; e 212 0x0; e 212 0x0; e 212 0x0;
  e 212 0x0; e 212 0x0; e 212 0x0; e 212 0x0; e 212 0x0; e 212 0x0; e 212 0x0; e 212 0x0;
  e 212 0x0; e 212 0x0; e 212 0x0; e 212 0x0; e 207 0x0; e 207 0x0; e 207 0x0; e 207 0x0;
  e 207 0x0; e 207 0x0; e 207 0x0; e 207 0x0; e 207 0x0; e 207 0x0; e 207 0x0; e 207 0x0
].

Definition page_33 : list unichar := [
  e 207 0x0; e 208 0x0; e 208 0x0; e 208 0x0; e 208 0x0; e 207 0x0; e 207 0x0; e 207 0x0;
  e 208 0x0; e 208 0x0; e 208 0x0; e 208 0x0; e 208 0x0; e 208 0x0; e 207 0x0; e 207 0x0;
  e 207 0x0; e 208 0x0; e 204 0x0; e 205 0x0; e 207 0x0; e 208 0x0; e 208 0x0; e 207 0x0;
  e 207 0x0; e 207 0x0; e 208 0x0; e 208 0x0; e 208 0x0; e 208 0x0; e 207 0x0; e 208 0x0;
  e 208 0x0; e 208 0x0; e 208 0x0; e 207 0x0; e 208 0x0; e 207 0x0; e 208 0x0; e 207 0x0;
  e 207 0x0; e 207 0x0; e 207 0x0; e 208 0x0; e 208 0x0; e 208 0x0; e 208 0x0; e 208 0x0;
  e 208 0x0; e 208 0x0; e 208 0x0; e 208 0x0; e 207 0x0; e 207 0x0; e 207 0x0; e 207 0x0;
  e 207 0x0; e 208 0x0; e 207 0x0; e 208 0x0; e 208 0x0; e 208 0x0; e 208 0x0; e 208 0x0;
  e 208 0x0; e 208 0x0; e 208 0x0; e 208 0x0; e 208 0x0; e 208 0x0; e 208 0x0; e 208 0x0;
  e 208 0x0; e 208 0x0; e 208 0x0; e 208 0x0; e 208 0x0; e 207 0x0; e 207 0x0; e 207 0x0;
  e 207 0x0; e 207 0x0; e 208 0x0; e 208 0x0; e 208 0x0; e 208 0x0; e 207 0x0; e 207 0x0;
  e 207 0x0; e 207 0x0; e 207 0x0; e 207 0x0; e 207 0x0; e 207 0x0; e 207 0x0; e 208 0x0;
  e 208 0x0; e 207 0x0; e 208 0x0; e 207 0x0; e 208 0x0; e 208 0x0; e 208 0x0; e 208 0x0;
  e 208 0x0; e 208 0x0; e 208 0x0; e 208 0x0; e 207 0x0; e 207 0x0; e 208 0x0; e 208 0x0;
  e 208 0x0; e 208 0x0; e 208 0x0; e 208 0x0; e 208 0x0; e 208 0x0; e 208 0x0; e 208 0x0;
  e 208 0x0; e 208 0x0; e 208 0x0; e 208 0x0; e 208 0x0; e 208 0x0; e 208 0x0; e 208 0x0;
  e 208 0x0; e 208 0x0; e 208 0x0; e 208 0x0; e 208 0x0; e 208 0x0; e 208 0x0; e 208 0x0;
  e 208 0x0; e 208 0x0; e 208 0x0; e 208 0x0; e 208 0x0; e 207 0x0; e 207 0x0; e 208 0x0;
  e 208 0x0; e 208 0x0; e 208 0x0; e 207 0x0; e 207 0x0; e 207 0x0; e 207 0x0; e 207 0x0;
  e 208 0x0; e 207 0x0; e 207 0x0; e 207 0x0; e 207 0x0; e 207 0x0; e 207 0x0; e 207 0x0;
  e 207 0x0; e 207 0x0; e 208 0x0; e 208 0x0; e 207 0x0; e 207 0x0; e 208 0x0; e 208 0x0;
  e 208 0x0; e 208 0x0; e 208 0x0; e 208 0x0; e 208 0x0; e 208 0x0; e 208 0x0; e 208 0x0;
  e 208 0x0; e 208 0x0; e 208 0x0; e 208 0x0; e 208 0x0; e 208 0x0; e 208 0x0; e 208 0x0;
  e 208 0x0; e 207 0x0; e 207 0x0; e 207 0x0; e 207 0x0; e 207 0x0; e 208 0x0; e 208 0x0;
  e 207 0x0; e 207 0x0; e 207 0x0; e 207 0x0; e 207 0x0; e 207 0x0; e 207 0x0; e 207 0x0;
  e 207 0x0; e 208 0x0; e 208 0x0; e 208 0x0; e 208 0x0; e 208 0x0; e 207 0x0; e 207 0x0;
  e 208 0x0; e 208 0x0; e 207 0x0; e 207 0x0; e 207 0x0; e 207 0x0; e 208 0x0; e 208 0x0;
  e 208 0x0; e 208 0x0; e 208 0x0; e 208 0x0; e 208 0x0; e 208 0x0; e 208 0x0; e 208 0x0;
  e 208 0x0; e 208 0x0; e 208 0x0; e 208 0x0; e 208 0x0; e 208 0x0; e 208 0x0; e 208 0x0;
  e 208 0x0; e 208 0x0; e 208 0x0; e 208 0x0; e 208 0x0; e 208 0x0; e 207 0x0; e 207 0x0;
  e 208 0x0; e 208 0x0; e 208 0x0; e 208 0x0; e 208 0x0; e 208 0x0; e 208 0x0; e 208 0x0;
  e 208 0x0; e 208 0x0; e 208 0x0; e 208 0x0; e 208 0x0; e 208 0x0; e 208 0x0; e 208 0x0
].

Definition page_34 : list unichar := [
  e 212 0x0; e 212 0x0; e 212 0x0; e 212 0x0; e 212 0x0; e 212 0x0; e 212 0x0; e 212 0x0;
  e 208 0x0; e 208 0x0; e 208 0x0; e 208 0x0; e 212 0x0; e 212 0x0; e 212 0x0; e 212 0x0;
  e 212 0x0; e 212 0x0; e 212 0x0; e 212 0x0; e 212 0x0; e 212 0x0; e 212 0x0; e 212 0x0;
  e 212 0x0; e 212 0x0; e 212 0x0; e 212 0x0; e 212 0x0; e 212 0x0; e 212 0x0; e 212 0x0;
  e 208 0x0; e 208 0x0; e 212 0x0; e 212 0x0; e 212 0x0; e 212 0x0; e 212 0x0; e 212 0x0;
  e 212 0x0; e 196 0x0; e 183 0x0; e 212 0x0; e 212 0x0; e 212 0x0; e 212 0x0; e 212 0x0;
  e 212 0x0; e 212 0x0; e 212 0x0; e 212 0x0; e 212 0x0; e 212 0x0; e 211 0x0; e 211 0x0;
  e 211 0x0; e 211 0x0; e 211 0x0; e 211 0x0; e 211 0x0; e 211 0x0; e 211 0x0; e 211 0x0;
  e 211 0x0; e 211 0x0; e 211 0x0; e 211 0x0; e 211 0x0; e 211 0x0; e 211 0x0; e 211 0x0;
  e 211 0x0; e 211 0x0; e 211 0x0; e 211 0x0; e 211 0x0; e 211 0x0; e 211 0x0; e 211 0x0;
  e 211 0x0; e 211 0x0; e 211 0x0; e 211 0x0; e 211 0x0; e 211 0x0; e 211 0x0; e 211 0x0;
  e 211 0x0; e 211 0x0; e 211 0x0; e 211 0x0; e 211 0x0; e 211 0x0; e 211 0x0; e 211 0x0;
  e 211 0x0; e 211 0x0; e 211 0x0; e 211 0x0; e 211 0x0; e 211 0x0; e 211 0x0; e 211 0x0;
  e 211 0x0; e 211 0x0; e 211 0x0; e 211 0x0; e 211 0x0; e 211 0x0; e 211 0x0; e 211 0x0;
  e 211 0x0; e 211 0x0; e 211 0x0; e 211 0x0; e 211 0x0; e 211 0x0; e 211 0x0; e 211 0x0;
  e 211 0x0; e 211 0x0; e 211 0x0; e 212 0x0; e 207 0x0; e 212 0x0; e 212 0x0; e 212 0x0;
  e 212 0x0; e 212 0x0; e 212 0x0; e 212 0x0; e 212 0x0; e 212 0x0; e 212 0x0; e 212 0x0;
  e 212 0x0; e 212 0x0; e 212 0x0; e 212 0x0; e 212 0x0; e 212 0x0; e 212 0x0; e 212 0x0;
  e 212 0x0; e 212 0x0; e 212 0x0; e 212 0x0; e 212 0x0; e 211 0x0; e 212 0x0; e 212 0x0;
  e 212 0x0; e 212 0x0; e 212 0x0; e 207 0x0; e 207 0x0; e 207 0x0; e 207 0x0; e 207 0x0;
  e 207 0x0; e 207 0x0; e 207 0x0; e 207 0x0; e 207 0x0; e 207 0x0; e 207 0x0; e 207 0x0;
  e 207 0x0; e 207 0x0; e 207 0x0; e 207 0x0; e 207 0x0; e 207 0x0; e 207 0x0; e 207 0x0;
  e 207 0x0; e 207 0x0; e 207 0x0; e 207 0x0; e 212 0x0; e 212 0x0; e 212 0x0; e 212 0x0;
  e 212 0x0; e 212 0x0; e 212 0x0; e 212 0x0; e 212 0x0; e 212 0x0; e 212 0x0; e 212 0x0;
  e 212 0x0; e 212 0x0; e 212 0x0; e 212 0x0; e 212 0x0; e 212 0x0; e 212 0x0; e 212 0x0;
  e 212 0x0; e 212 0x0; e 212 0x0; e 212 0x0; e 212 0x0; e 212 0x0; e 212 0x0; e 212 0x0;
  e 212 0x0; e 212 0x0; e 212 0x0; e 212 0x0; e 212 0x0; e 212 0x0; e 212 0x0; e 212 0x0;
  e 212 0x0; e 212 0x0; e 212 0x0; e 212 0x0; e 207 0x0; e 207 0x0; e 207 0x0; e 207 0x0;
  e 207 0x0; e 207 0x0; e 212 0x0; e 212 0x0; e 212 0x0; e 212 0x0; e 212 0x0; e 212 0x0;
  e 212 0x0; e 212 0x0; e 212 0x0; e 212 0x0; e 212 0x0; e 212 0x0; e 212 0x0; e 212 0x0;
  e 212 0x0; e 212 0x0; e 212 0x0; e 212 0x0; e 255 0x0; e 255 0x0; e 255 0x0; e 255 0x0;
  e 255 0x0; e 255 0x0; e 255 0x0; e 255 0x0; e 255 0x0; e 255 0x0; e 255 0x0; e 255 0x0
].

Definition page_35 : list unichar := [
  e 212 0x0; e 212 0x0; e 212 0x0; e 212 0x0; e 212 0x0; e 212 0x0; e 212 0x0; e 212 0x0;
  e 212 0x0; e 212 0x0; e 212 0x0; e 212 0x0; e 212 0x0; e 212 0x0; e 212 0x0; e 212 0x0;
  e 212 0x0; e 212 0x0; e 212 0x0; e 212 0x0; e 212 0x0; e 212 0x0; e 212 0x0; e 212 0x0;
  e 212 0x0; e 212 0x0; e 212 0x0; e 212 0x0; e 212 0x0; e 212 0x0; e 212 0x0; e 212 0x0;
  e 212 0x0; e 212 0x0; e 212 0x0; e 212 0x0; e 212 0x0; e 212 0x0; e 212 0x0; e 255 0x0;
  e 255 0x0; e 255 0x0; e 255 0x0; e 255 0x0; e 255 0x0; e 255 0x0; e 255 0x0; e 255 0x0;
  e 255 0x0; e 255 0x0; e 255 0x0; e 255 0x0; e 255 0x0; e 255 0x0; e 255 0x0; e 255 0x0;
  e 255 0x0; e 255 0x0; e 255 0x0; e 255 0x0; e 255 0x0; e 255 0x0; e 255 0x0; e 255 0x0;
  e 212 0x0; e 212 0x0; e 212 0x0; e 212 0x0; e 212 0x0; e 212 0x0; e 212 0x0; e 212 0x0;
  e 212 0x0; e 212 0x0; e 212 0x0; e 255 0x0; e 255 0x0; e 255 0x0; e 255 0x0; e 255 0x0;
  e 255 0x0; e 255 0x0; e 255 0x0; e 255 0x0; e 255 0x0; e 255 0x0; e 255 0x0; e 255 0x0;
  e 255 0x0; e 255 0x0; e 255 0x0; e 255 0x0; e 255 0x0; e 255 0x0; e 255 0x0; e 255 0x0;
  e 164 0x0; e 165 0x0; e 166 0x0; e 167 0x0; e 168 0x0; e 169 0x0; e 170 0x0; e 171 0x0;
  e 172 0x0; e 162 0x0; e 162 0x0; e 162 0x0; e 162 0x0; e 162 0x0; e 162 0x0; e 162 0x0;
  e 162 0x0; e 162 0x0; e 162 0x0; e 162 0x0; e 164 0x0; e 165 0x0; e 166 0x0; e 167 0x0;
  e 168 0x0; e 169 0x0; e 170 0x0; e 171 0x0; e 172 0x0; e 162 0x0; e 162 0x0; e 162 0x0;
  e 162 0x0; e 162 0x0; e 162 0x0; e 162 0x0; e 162 0x0; e 162 0x0; e 162 0x0; e 162 0x0;
  e 143 0x0; e 144 0x0; e 145 0x0; e 146 0x0; e 147 0x0; e 148 0x0; e 149 0x0; e 150 0x0;
  e 151 0x0; e 141 0x0; e 141 0x0; e 141 0x0; e 141 0x0; e 141 0x0; e 141 0x0; e 141 0x0;
  e 141 0x0; e 141 0x0; e 141 0x0; e 141 0x0; e 211 0x0; e 211 0x0; e 211 0x0; e 211 0x0;
  e 211 0x0; e 211 0x0; e 211 0x0; e 211 0x0; e 211 0x0; e 211 0x0; e 211 0x0; e 211 0x0;
  e 211 0x0; e 211 0x0; e 211 0x0; e 211 0x0; e 211 0x0; e 211 0x0; e 211 0x0; e 211 0x0;
  e 211 0x0; e 211 0x0; e 211 0x0; e 211 0x0; e 211 0x0; e 211 0x0; e 211 0x24D0; e 211 0x24D1;
  e 211 0x24D2; e 211 0x24D3; e 211 0x24D4; e 211 0x24D5; e 211 0x24D6; e 211 0x24D7; e 211 0x24D8; e 211 0x24D9;
  e 211 0x24DA; e 211 0x24DB; e 211 0x24DC; e 211 0x24DD; e 211 0x24DE; e 211 0x24DF; e 211 0x24E0; e 211 0x24E1;
  e 211 0x24E2; e 211 0x24E3; e 211 0x24E4; e 211 0x24E5; e 211 0x24E6; e 211 0x24E7; e 211 0x24E8; e 211 0x24E9;
  e 211 0x24B6; e 211 0x24B7; e 211 0x24B8; e 211 0x24B9; e 211 0x24BA; e 211 0x24BB; e 211 0x24BC; e 211 0x24BD;
  e 211 0x24BE; e 211 0x24BF; e 211 0x24C0; e 211 0x24C1; e 211 0x24C2; e 211 0x24C3; e 211 0x24C4; e 211 0x24C5;
  e 211 0x24C6; e 211 0x24C7; e 211 0x24C8; e 211 0x24C9; e 211 0x24CA; e 211 0x24CB; e 211 0x24CC; e 211 0x24CD;
  e 211 0x24CE; e 211 0x24CF; e 163 0x0; e 162 0x0; e 162 0x0; e 162 0x0; e 162 0x0; e 162 0x0;
  e 162 0x0; e 162 0x0; e 162 0x0; e 162 0x0; e 162 0x0; e 164 0x0; e 165 0x0; e 166 0x0;
  e 167 0x0; e 168 0x0; e 169 0x0; e 170 0x0; e 171 0x0; e 172 0x0; e 162 0x0; e 163 0x0
].

Definition page_36 : list unichar := [
  e 212 0x0; e 212 0x0; e 212 0x0; e 212 0x0; e 212 0x0; e 212 0x0; e 212 0x0; e 212 0x0;
  e 212 0x0; e 212 0x0; e 212 0x0; e 212 0x0; e 212 0x0; e 212 0x0; e 212 0x0; e 212 0x0;
  e 212 0x0; e 212 0x0; e 212 0x0; e 212 0x0; e 212 0x0; e 212 0x0; e 212 0x0; e 212 0x0;
  e 212 0x0; e 212 0x0; e 212 0x0; e 212 0x0; e 212 0x0; e 212 0x0; e 212 0x0; e 212 0x0;
  e 212 0x0; e 212 0x0; e 212 0x0; e 212 0x0; e 212 0x0; e 212 0x0; e 212 0x0; e 212 0x0;
  e 212 0x0; e 212 0x0; e 212 0x0; e 212 0x0; e 212 0x0; e 212 0x0; e 212 0x0; e 212 0x0;
  e 212 0x0; e 212 0x0; e 212 0x0; e 212 0x0; e 212 0x0; e 212 0x0; e 212 0x0; e 212 0x0;
  e 212 0x0; e 212 0x0; e 212 0x0; e 212 0x0; e 212 0x0; e 212 0x0; e 212 0x0; e 212 0x0;
  e 212 0x0; e 212 0x0; e 212 0x0; e 212 0x0; e 212 0x0; e 212 0x0; e 212 0x0; e 212 0x0;
  e 212 0x0; e 212 0x0; e 212 0x0; e 212 0x0; e 212 0x0; e 212 0x0; e 212 0x0; e 212 0x0;
  e 212 0x0; e 212 0x0; e 212 0x0; e 212 0x0; e 212 0x0; e 212 0x0; e 212 0x0; e 212 0x0;
  e 212 0x0; e 212 0x0; e 212 0x0; e 212 0x0; e 212 0x0; e 212 0x0; e 212 0x0; e 212 0x0;
  e 212 0x0; e 212 0x0; e 212 0x0; e 212 0x0; e 212 0x0; e 212 0x0; e 212 0x0; e 212 0x0;
  e 212 0x0; e 212 0x0; e 212 0x0; e 212 0x0; e 212 0x0; e 212 0x0; e 212 0x0; e 212 0x0;
  e 212 0x0; e 212 0x0; e 212 0x0; e 212 0x0; e 212 0x0; e 212 0x0; e 212 0x0; e 212 0x0;
  e 212 0x0; e 212 0x0; e 212 0x0; e 212 0x0; e 212 0x0; e 212 0x0; e 212 0x0; e 212 0x0;
  e 212 0x0; e 212 0x0; e 212 0x0; e 212 0x0; e 212 0x0; e 212 0x0; e 212 0x0; e 212 0x0;
  e 212 0x0; e 212 0x0; e 212 0x0; e 212 0x0; e 212 0x0; e 212 0x0; e 212 0x0; e 212 0x0;
  e 212 0x0; e 212 0x0; e 212 0x0; e 212 0x0; e 212 0x0; e 212 0x0; e 212 0x0; e 212 0x0;
  e 212 0x0; e 212 0x0; e 212 0x0; e 212 0x0; e 212 0x0; e 212 0x0; e 212 0x0; e 212 0x0;
  e 212 0x0; e 212 0x0; e 212 0x0; e 212 0x0; e 212 0x0; e 212 0x0; e 212 0x0; e 212 0x0;
  e 212 0x0; e 212 0x0; e 212 0x0; e 212 0x0; e 212 0x0; e 212 0x0; e 212 0x0; e 212 0x0;
  e 212 0x0; e 212 0x0; e 212 0x0; e 212 0x0; e 212 0x0; e 212 0x0; e 212 0x0; e 207 0x0;
  e 212 0x0; e 212 0x0; e 212 0x0; e 212 0x0; e 212 0x0; e 212 0x0; e 212 0x0; e 212 0x0;
  e 212 0x0; e 207 0x0; e 212 0x0; e 212 0x0; e 212 0x0; e 212 0x0; e 212 0x0; e 212 0x0;
  e 212 0x0; e 212 0x0; e 212 0x0; e 212 0x0; e 212 0x0; e 212 0x0; e 212 0x0; e 212 0x0;
  e 212 0x0; e 212 0x0; e 212 0x0; e 212 0x0; e 212 0x0; e 212 0x0; e 212 0x0; e 212 0x0;
  e 212 0x0; e 212 0x0; e 212 0x0; e 212 0x0; e 212 0x0; e 212 0x0; e 212 0x0; e 212 0x0;
  e 212 0x0; e 212 0x0; e 212 0x0; e 212 0x0; e 212 0x0; e 212 0x0; e 212 0x0; e 212 0x0;
  e 212 0x0; e 212 0x0; e 212 0x0; e 212 0x0; e 212 0x0; e 212 0x0; e 212 0x0; e 212 0x0;
  e 212 0x0; e 212 0x0; e 212 0x0; e 212 0x0; e 212 0x0; e 212 0x0; e 212 0x0; e 212 0x0;
  e 207 0x0; e 207 0x0; e 207 0x0; e 207 0x0; e 207 0x0; e 207 0x0; e 207 0x0; e 207 0x0
].

Definition page_37 : list unichar := [
  e 212 0x0; e 212 0x0; e 212 0x0; e 212 0x0; e 212 0x0; e 212 0x0; e 212 0x0; e 212 0x0;
  e 212 0x0; e 212 0x0; e 212 0x0; e 212 0x0; e 212 0x0; e 212 0x0; e 212 0x0; e 212 0x0;
  e 212 0x0; e 212 0x0; e 212 0x0; e 212 0x0; e 212 0x0; e 212 0x0; e 212 0x0; e 212 0x0;
  e 212 0x0; e 212 0x0; e 212 0x0; e 212 0x0; e 212 0x0; e 212 0x0; e 212 0x0; e 212 0x0;
  e 212 0x0; e 212 0x0; e 212 0x0; e 212 0x0; e 212 0x0; e 212 0x0; e 212 0x0; e 212 0x0;
  e 212 0x0; e 212 0x0; e 212 0x0; e 212 0x0; e 212 0x0; e 212 0x0; e 212 0x0; e 212 0x0;
  e 212 0x0; e 212 0x0; e 212 0x0; e 212 0x0; e 212 0x0; e 212 0x0; e 212 0x0; e 212 0x0;
  e 212 0x0; e 212 0x0; e 212 0x0; e 212 0x0; e 212 0x0; e 212 0x0; e 212 0x0; e 212 0x0;
  e 212 0x0; e 212 0x0; e 212 0x0; e 212 0x0; e 212 0x0; e 212 0x0; e 212 0x0; e 212 0x0;
  e 212 0x0; e 212 0x0; e 212 0x0; e 212 0x0; e 212 0x0; e 212 0x0; e 212 0x0; e 212 0x0;
  e 212 0x0; e 212 0x0; e 212 0x0; e 212 0x0; e 212 0x0; e 212 0x0; e 212 0x0; e 212 0x0;
  e 212 0x0; e 212 0x0; e 212 0x0; e 212 0x0; e 212 0x0; e 212 0x0; e 212 0x0; e 212 0x0;
  e 212 0x0; e 212 0x0; e 212 0x0; e 212 0x0; e 212 0x0; e 212 0x0; e 212 0x0; e 212 0x0;
  e 212 0x0; e 212 0x0; e 212 0x0; e 212 0x0; e 212 0x0; e 212 0x0; e 212 0x0; e 207 0x0;
  e 212 0x0; e 212 0x0; e 212 0x0; e 212 0x0; e 212 0x0; e 212 0x0; e 212 0x0; e 212 0x0;
  e 212 0x0; e 212 0x0; e 212 0x0; e 212 0x0; e 212 0x0; e 212 0x0; e 212 0x0; e 212 0x0;
  e 212 0x0; e 212 0x0; e 212 0x0; e 212 0x0; e 212 0x0; e 212 0x0; e 212 0x0; e 212 0x0;
  e 212 0x0; e 212 0x0; e 212 0x0; e 212 0x0; e 212 0x0; e 212 0x0; e 212 0x0; e 212 0x0;
  e 212 0x0; e 212 0x0; e 212 0x0; e 212 0x0; e 212 0x0; e 212 0x0; e 212 0x0; e 212 0x0;
  e 212 0x0; e 212 0x0; e 212 0x0; e 212 0x0; e 212 0x0; e 212 0x0; e 212 0x0; e 212 0x0;
  e 212 0x0; e 212 0x0; e 212 0x0; e 212 0x0; e 212 0x0; e 212 0x0; e 212 0x0; e 212 0x0;
  e 212 0x0; e 212 0x0; e 212 0x0; e 212 0x0; e 211 0x0; e 212 0x0; e 212 0x0; e 212 0x0;
  e 212 0x0; e 212 0x0; e 212 0x0; e 212 0x0; e 212 0x0; e 212 0x0; e 212 0x0; e 212 0x0;
  e 212 0x0; e 212 0x0; e 212 0x0; e 212 0x0; e 212 0x0; e 212 0x0; e 212 0x0; e 212 0x0;
  e 212 0x0; e 212 0x0; e 212 0x0; e 212 0x0; e 212 0x0; e 212 0x0; e 212 0x0; e 212 0x0;
  e 212 0x0; e 212 0x0; e 212 0x0; e 212 0x0; e 212 0x0; e 212 0x0; e 212 0x0; e 212 0x0;
  e 212 0x0; e 212 0x0; e 212 0x0; e 212 0x0; e 212 0x0; e 212 0x0; e 212 0x0; e 212 0x0;
  e 212 0x0; e 212 0x0; e 212 0x0; e 212 0x0; e 212 0x0; e 212 0x0; e 212 0x0; e 212 0x0;
  e 212 0x0; e 212 0x0; e 212 0x0; e 212 0x0; e 212 0x0; e 212 0x0; e 212 0x0; e 212 0x0;
  e 212 0x0; e 212 0x0; e 212 0x0; e 212 0x0; e 212 0x0; e 212 0x0; e 212 0x0; e 212 0x0;
  e 212 0x0; e 212 0x0; e 212 0x0; e 212 0x0; e 212 0x0; e 212 0x0; e 212 0x0; e 212 0x0;
  e 212 0x0; e 212 0x0; e 212 0x0; e 212 0x0; e 212 0x0; e 212 0x0; e 212 0x0; e 212 0x0
].

Definition page_38 : list unichar := [
  e 255 0x0; e 212 0x0; e 212 0x0; e 212 0x0; e 212 0x0; e 212 0x0; e 212 0x0; e 212 0x0;
  e 212 0x0; e 212 0x0; e 212 0x0; e 212 0x0; e 212 0x0; e 212 0x0; e 212 0x0; e 212 0x0;
  e 212 0x0; e 212 0x0; e 212 0x0; e 212 0x0; e 212 0x0; e 212 0x0; e 212 0x0; e 212 0x0;
  e 212 0x0; e 212 0x0; e 212 0x0; e 212 0x0; e 212 0x0; e 212 0x0; e 212 0x0; e 212 0x0;
  e 212 0x0; e 212 0x0; e 212 0x0; e 212 0x0; e 212 0x0; e 212 0x0; e 212 0x0; e 212 0x0;
  e 212 0x0; e 212 0x0; e 212 0x0; e 212 0x0; e 212 0x0; e 212 0x0; e 212 0x0; e 212 0x0;
  e 212 0x0; e 212 0x0; e 212 0x0; e 212 0x0; e 212 0x0; e 212 0x0; e 212 0x0; e 212 0x0;
  e 212 0x0; e 212 0x0; e 212 0x0; e 212 0x0; e 212 0x0; e 212 0x0; e 212 0x0; e 212 0x0;
  e 212 0x0; e 212 0x0; e 212 0x0; e 212 0x0; e 212 0x0; e 212 0x0; e 212 0x0; e 212 0x0;
  e 212 0x0; e 212 0x0; e 212 0x0; e 212 0x0; e 212 0x0; e 212 0x0; e 212 0x0; e 212 0x0;
  e 212 0x0; e 212 0x0; e 212 0x0; e 212 0x0; e 212 0x0; e 212 0x0; e 212 0x0; e 212 0x0;
  e 212 0x0; e 212 0x0; e 212 0x0; e 212 0x0; e 212 0x0; e 212 0x0; e 212 0x0; e 212 0x0;
  e 212 0x0; e 212 0x0; e 212 0x0; e 212 0x0; e 212 0x0; e 212 0x0; e 212 0x0; e 212 0x0;
  e 196 0x0; e 183 0x0; e 196 0x0; e 183 0x0; e 196 0x0; e 183 0x0; e 196 0x0; e 183 0x0;
  e 196 0x0; e 183 0x0; e 196 0x0; e 183 0x0; e 196 0x0; e 183 0x0; e 164 0x0; e 165 0x0;
  e 166 0x0; e 167 0x0; e 168 0x0; e 169 0x0; e 170 0x0; e 171 0x0; e 172 0x0; e 162 0x0;
  e 164 0x0; e 165 0x0; e 166 0x0; e 167 0x0; e 168 0x0; e 169 0x0; e 170 0x0; e 171 0x0;
  e 172 0x0; e 162 0x0; e 164 0x0; e 165 0x0; e 166 0x0; e 167 0x0; e 168 0x0; e 169 0x0;
  e 170 0x0; e 171 0x0; e 172 0x0; e 162 0x0; e 212 0x0; e 212 0x0; e 212 0x0; e 212 0x0;
  e 212 0x0; e 212 0x0; e 212 0x0; e 212 0x0; e 212 0x0; e 212 0x0; e 212 0x0; e 212 0x0;
  e 212 0x0; e 212 0x0; e 212 0x0; e 212 0x0; e 212 0x0; e 212 0x0; e 212 0x0; e 212 0x0;
  e 212 0x0; e 212 0x0; e 212 0x0; e 212 0x0; e 212 0x0; e 212 0x0; e 212 0x0; e 212 0x0;
  e 212 0x0; e 212 0x0; e 212 0x0; e 212 0x0; e 212 0x0; e 212 0x0; e 212 0x0; e 212 0x0;
  e 212 0x0; e 212 0x0; e 212 0x0; e 212 0x0; e 212 0x0; e 212 0x0; e 212 0x0; e 212 0x0;
  e 208 0x0; e 207 0x0; e 207 0x0; e 208 0x0; e 208 0x0; e 196 0x0; e 183 0x0; e 207 0x0;
  e 208 0x0; e 208 0x0; e 207 0x0; e 208 0x0; e 208 0x0; e 208 0x0; e 207 0x0; e 207 0x0;
  e 207 0x0; e 207 0x0; e 207 0x0; e 208 0x0; e 208 0x0; e 208 0x0; e 208 0x0; e 207 0x0;
  e 207 0x0; e 207 0x0; e 207 0x0; e 207 0x0; e 208 0x0; e 208 0x0; e 208 0x0; e 207 0x0;
  e 207 0x0; e 207 0x0; e 208 0x0; e 208 0x0; e 208 0x0; e 208 0x0; e 196 0x0; e 183 0x0;
  e 196 0x0; e 183 0x0; e 196 0x0; e 183 0x0; e 196 0x0; e 183 0x0; e 196 0x0; e 183 0x0;
  e 207 0x0; e 207 0x0; e 207 0x0; e 207 0x0; e 207 0x0; e 207 0x0; e 207 0x0; e 207 0x0;
  e 207 0x0; e 207 0x0; e 207 0x0; e 207 0x0; e 207 0x0; e 207 0x0; e 207 0x0; e 207 0x0
].

Definition page_39 : list unichar := [
  e 211 0x0; e 211 0x0; e 211 0x0; e 211 0x0; e 211 0x0; e 211 0x0; e 211 0x0; e 211 0x0;
  e 211 0x0; e 211 0x0; e 211 0x0; e 211 0x0; e 211 0x0; e 211 0x0; e 211 0x0; e 211 0x0;
  e 211 0x0; e 211 0x0; e 211 0x0; e 211 0x0; e 211 0x0; e 211 0x0; e 211 0x0; e 211 0x0;
  e 211 0x0; e 211 0x0; e 211 0x0; e 211 0x0; e 211 0x0; e 211 0x0; e 211 0x0; e 211 0x0;
  e 211 0x0; e 211 0x0; e 211 0x0; e 211 0x0; e 211 0x0; e 211 0x0; e 211 0x0; e 211 0x0;
  e 211 0x0; e 211 0x0; e 211 0x0; e 211 0x0; e 211 0x0; e 211 0x0; e 211 0x0; e 211 0x0;
  e 211 0x0; e 211 0x0; e 211 0x0; e 211 0x0; e 211 0x0; e 211 0x0; e 211 0x0; e 211 0x0;
  e 211 0x0; e 211 0x0; e 211 0x0; e 211 0x0; e 211 0x0; e 211 0x0; e 211 0x0; e 211 0x0;
  e 211 0x0; e 211 0x0; e 211 0x0; e 211 0x0; e 211 0x0; e 211 0x0; e 211 0x0; e 211 0x0;
  e 211 0x0; e 211 0x0; e 211 0x0; e 211 0x0; e 211 0x0; e 211 0x0; e 211 0x0; e 211 0x0;
  e 211 0x0; e 211 0x0; e 211 0x0; e 211 0x0; e 211 0x0; e 211 0x0; e 211 0x0; e 211 0x0;
  e 211 0x0; e 211 0x0; e 211 0x0; e 211 0x0; e 211 0x0; e 211 0x0; e 211 0x0; e 211 0x0;
  e 211 0x0; e 211 0x0; e 211 0x0; e 211 0x0; e 211 0x0; e 211 0x0; e 211 0x0; e 211 0x0;
  e 211 0x0; e 211 0x0; e 211 0x0; e 211 0x0; e 211 0x0; e 211 0x0; e 211 0x0; e 211 0x0;
  e 211 0x0; e 211 0x0; e 211 0x0; e 211 0x0; e 211 0x0; e 211 0x0; e 211 0x0; e 211 0x0;
  e 211 0x0; e 211 0x0; e 211 0x0; e 211 0x0; e 211 0x0; e 211 0x0; e 211 0x0; e 211 0x0;
  e 211 0x0; e 211 0x0; e 211 0x0; e 211 0x0; e 211 0x0; e 211 0x0; e 211 0x0; e 211 0x0;
  e 211 0x0; e 211 0x0; e 211 0x0; e 211 0x0; e 211 0x0; e 211 0x0; e 211 0x0; e 211 0x0;
  e 211 0x0; e 211 0x0; e 211 0x0; e 211 0x0; e 211 0x0; e 211 0x0; e 211 0x0; e 211 0x0;
  e 211 0x0; e 211 0x0; e 211 0x0; e 211 0x0; e 211 0x0; e 211 0x0; e 211 0x0; e 211 0x0;
  e 211 0x0; e 211 0x0; e 211 0x0; e 211 0x0; e 211 0x0; e 211 0x0; e 211 0x0; e 211 0x0;
  e 211 0x0; e 211 0x0; e 211 0x0; e 211 0x0; e 211 0x0; e 211 0x0; e 211 0x0; e 211 0x0;
  e 211 0x0; e 211 0x0; e 211 0x0; e 211 0x0; e 211 0x0; e 211 0x0; e 211 0x0; e 211 0x0;
  e 211 0x0; e 211 0x0; e 211 0x0; e 211 0x0; e 211 0x0; e 211 0x0; e 211 0x0; e 211 0x0;
  e 211 0x0; e 211 0x0; e 211 0x0; e 211 0x0; e 211 0x0; e 211 0x0; e 211 0x0; e 211 0x0;
  e 211 0x0; e 211 0x0; e 211 0x0; e 211 0x0; e 211 0x0; e 211 0x0; e 211 0x0; e 211 0x0;
  e 211 0x0; e 211 0x0; e 211 0x0; e 211 0x0; e 211 0x0; e 211 0x0; e 211 0x0; e 211 0x0;
  e 211 0x0; e 211 0x0; e 211 0x0; e 211 0x0; e 211 0x0; e 211 0x0; e 211 0x0; e 211 0x0;
  e 211 0x0; e 211 0x0; e 211 0x0; e 211 0x0; e 211 0x0; e 211 0x0; e 211 0x0; e 211 0x0;
  e 211 0x0; e 211 0x0; e 211 0x0; e 211 0x0; e 211 0x0; e 211 0x0; e 211 0x0; e 211 0x0;
  e 211 0x0; e 211 0x0; e 211 0x0; e 211 0x0; e 211 0x0; e 211 0x0; e 211 0x0; e 211 0x0;
  e 211 0x0; e 211 0x0; e 211 0x0; e 211 0x0; e 211 0x0; e 211 0x0; e 211 0x0; e 211 0x0
].

Definition page_40 : list unichar := [
  e 207 0x0; e 207 0x0; e 207 0x0; e 207 0x0; e 207 0x0; e 207 0x0; e 207 0x0; e 207 0x0;
  e 207 0x0; e 207 0x0; e 207 0x0; e 207 0x0; e 207 0x0; e 207 0x0; e 207 0x0; e 207 0x0;
  e 207 0x0; e 207 0x0; e 207 0x0; e 207 0x0; e 207 0x0; e 207 0x0; e 207 0x0; e 207 0x0;
  e 207 0x0; e 207 0x0; e 207 0x0; e 207 0x0; e 207 0x0; e 207 0x0; e 207 0x0; e 207 0x0;
  e 207 0x0; e 207 0x0; e 207 0x0; e 207 0x0; e 207 0x0; e 207 0x0; e 207 0x0; e 207 0x0;
  e 207 0x0; e 207 0x0; e 207 0x0; e 207 0x0; e 207 0x0; e 207 0x0; e 207 0x0; e 207 0x0;
  e 207 0x0; e 207 0x0; e 207 0x0; e 207 0x0; e 207 0x0; e 207 0x0; e 207 0x0; e 207 0x0;
  e 207 0x0; e 207 0x0; e 207 0x0; e 207 0x0; e 207 0x0; e 207 0x0; e 207 0x0; e 207 0x0;
  e 207 0x0; e 207 0x0; e 207 0x0; e 207 0x0; e 207 0x0; e 207 0x0; e 207 0x0; e 207 0x0;
  e 207 0x0; e 207 0x0; e 207 0x0; e 207 0x0; e 207 0x0; e 207 0x0; e 207 0x0; e 207 0x0;
  e 207 0x0; e 207 0x0; e 207 0x0; e 207 0x0; e 207 0x0; e 207 0x0; e 207 0x0; e 207 0x0;
  e 207 0x0; e 207 0x0; e 207 0x0; e 207 0x0; e 207 0x0; e 207 0x0; e 207 0x0; e 207 0x0;
  e 207 0x0; e 207 0x0; e 207 0x0; e 207 0x0; e 207 0x0; e 207 0x0; e 207 0x0; e 207 0x0;
  e 207 0x0; e 207 0x0; e 207 0x0; e 207 0x0; e 207 0x0; e 207 0x0; e 207 0x0; e 207 0x0;
  e 207 0x0; e 207 0x0; e 207 0x0; e 207 0x0; e 207 0x0; e 207 0x0; e 207 0x0; e 207 0x0;
  e 207 0x0; e 207 0x0; e 207 0x0; e 207 0x0; e 207 0x0; e 207 0x0; e 207 0x0; e 207 0x0;
  e 207 0x0; e 207 0x0; e 207 0x0; e 196 0x0; e 183 0x0; e 196 0x0; e 183 0x0; e 196 0x0;
  e 183 0x0; e 196 0x0; e 183 0x0; e 196 0x0; e 183 0x0; e 196 0x0; e 183 0x0; e 196 0x0;
  e 183 0x0; e 196 0x0; e 183 0x0; e 196 0x0; e 183 0x0; e 196 0x0; e 183 0x0; e 196 0x0;
  e 183 0x0; e 207 0x0; e 207 0x0; e 208 0x0; e 208 0x0; e 208 0x0; e 208 0x0; e 208 0x0;
  e 208 0x0; e 208 0x0; e 208 0x0; e 208 0x0; e 208 0x0; e 208 0x0; e 208 0x0; e 208 0x0;
  e 208 0x0; e 208 0x0; e 208 0x0; e 208 0x0; e 208 0x0; e 208 0x0; e 208 0x0; e 208 0x0;
  e 207 0x0; e 207 0x0; e 207 0x0; e 207 0x0; e 207 0x0; e 207 0x0; e 207 0x0; e 207 0x0;
  e 208 0x0; e 207 0x0; e 207 0x0; e 207 0x0; e 207 0x0; e 207 0x0; e 207 0x0; e 207 0x0;
  e 208 0x0; e 208 0x0; e 208 0x0; e 208 0x0; e 208 0x0; e 208 0x0; e 207 0x0; e 207 0x0;
  e 207 0x0; e 208 0x0; e 207 0x0; e 207 0x0; e 207 0x0; e 207 0x0; e 208 0x0; e 208 0x0;
  e 208 0x0; e 208 0x0; e 208 0x0; e 207 0x0; e 208 0x0; e 208 0x0; e 207 0x0; e 207 0x0;
  e 196 0x0; e 183 0x0; e 196 0x0; e 183 0x0; e 208 0x0; e 207 0x0; e 207 0x0; e 207 0x0;
  e 207 0x0; e 208 0x0; e 207 0x0; e 208 0x0; e 208 0x0; e 208 0x0; e 207 0x0; e 207 0x0;
  e 208 0x0; e 208 0x0; e 207 0x0; e 207 0x0; e 207 0x0; e 207 0x0; e 207 0x0; e 207 0x0;
  e 207 0x0; e 207 0x0; e 207 0x0; e 207 0x0; e 208 0x0; e 208 0x0; e 208 0x0; e 208 0x0;
  e 208 0x0; e 208 0x0; e 207 0x0; e 207 0x0; e 196 0x0; e 183 0x0; e 207 0x0; e 207 0x0
].

Definition page_41 : list unichar := [
  e 207 0x0; e 207 0x0; e 207 0x0; e 207 0x0; e 207 0x0; e 207 0x0; e 207 0x0; e 207 0x0;
  e 207 0x0; e 207 0x0; e 208 0x0; e 208 0x0; e 208 0x0; e 208 0x0; e 208 0x0; e 208 0x0;
  e 208 0x0; e 208 0x0; e 208 0x0; e 208 0x0; e 208 0x0; e 208 0x0; e 208 0x0; e 208 0x0;
  e 208 0x0; e 208 0x0; e 208 0x0; e 208 0x0; e 208 0x0; e 207 0x0; e 208 0x0; e 208 0x0;
  e 208 0x0; e 208 0x0; e 207 0x0; e 207 0x0; e 208 0x0; e 207 0x0; e 208 0x0; e 207 0x0;
  e 207 0x0; e 208 0x0; e 207 0x0; e 208 0x0; e 208 0x0; e 208 0x0; e 208 0x0; e 207 0x0;
  e 207 0x0; e 207 0x0; e 207 0x0; e 207 0x0; e 208 0x0; e 208 0x0; e 207 0x0; e 207 0x0;
  e 207 0x0; e 207 0x0; e 207 0x0; e 207 0x0; e 208 0x0; e 208 0x0; e 208 0x0; e 207 0x0;
  e 207 0x0; e 207 0x0; e 207 0x0; e 207 0x0; e 207 0x0; e 207 0x0; e 207 0x0; e 207 0x0;
  e 207 0x0; e 207 0x0; e 207 0x0; e 207 0x0; e 207 0x0; e 207 0x0; e 207 0x0; e 207 0x0;
  e 207 0x0; e 207 0x0; e 207 0x0; e 207 0x0; e 207 0x0; e 207 0x0; e 207 0x0; e 208 0x0;
  e 208 0x0; e 207 0x0; e 207 0x0; e 207 0x0; e 207 0x0; e 207 0x0; e 207 0x0; e 207 0x0;
  e 207 0x0; e 207 0x0; e 207 0x0; e 207 0x0; e 208 0x0; e 208 0x0; e 207 0x0; e 207 0x0;
  e 207 0x0; e 207 0x0; e 208 0x0; e 208 0x0; e 208 0x0; e 208 0x0; e 207 0x0; e 208 0x0;
  e 208 0x0; e 207 0x0; e 207 0x0; e 208 0x0; e 208 0x0; e 207 0x0; e 207 0x0; e 207 0x0;
  e 207 0x0; e 208 0x0; e 208 0x0; e 208 0x0; e 208 0x0; e 208 0x0; e 208 0x0; e 208 0x0;
  e 208 0x0; e 208 0x0; e 208 0x0; e 208 0x0; e 208 0x0; e 208 0x0; e 208 0x0; e 208 0x0;
  e 208 0x0; e 208 0x0; e 208 0x0; e 208 0x0; e 208 0x0; e 208 0x0; e 208 0x0; e 208 0x0;
  e 208 0x0; e 208 0x0; e 208 0x0; e 208 0x0; e 208 0x0; e 208 0x0; e 208 0x0; e 208 0x0;
  e 208 0x0; e 208 0x0; e 208 0x0; e 208 0x0; e 208 0x0; e 208 0x0; e 208 0x0; e 208 0x0;
  e 208 0x0; e 208 0x0; e 208 0x0; e 208 0x0; e 207 0x0; e 207 0x0; e 208 0x0; e 208 0x0;
  e 208 0x0; e 208 0x0; e 208 0x0; e 208 0x0; e 208 0x0; e 208 0x0; e 207 0x0; e 208 0x0;
  e 208 0x0; e 208 0x0; e 208 0x0; e 208 0x0; e 208 0x0; e 208 0x0; e 208 0x0; e 208 0x0;
  e 208 0x0; e 208 0x0; e 208 0x0; e 208 0x0; e 208 0x0; e 208 0x0; e 208 0x0; e 208 0x0;
  e 208 0x0; e 208 0x0; e 208 0x0; e 208 0x0; e 208 0x0; e 208 0x0; e 208 0x0; e 208 0x0;
  e 208 0x0; e 208 0x0; e 208 0x0; e 208 0x0; e 208 0x0; e 208 0x0; e 208 0x0; e 208 0x0;
  e 208 0x0; e 208 0x0; e 208 0x0; e 208 0x0; e 208 0x0; e 208 0x0; e 208 0x0; e 207 0x0;
  e 207 0x0; e 207 0x0; e 207 0x0; e 207 0x0; e 208 0x0; e 207 0x0; e 208 0x0; e 207 0x0;
  e 207 0x0; e 207 0x0; e 208 0x0; e 208 0x0; e 208 0x0; e 208 0x0; e 208 0x0; e 207 0x0;
  e 207 0x0; e 207 0x0; e 207 0x0; e 207 0x0; e 208 0x0; e 208 0x0; e 208 0x0; e 207 0x0;
  e 207 0x0; e 207 0x0; e 207 0x0; e 208 0x0; e 207 0x0; e 207 0x0; e 207 0x0; e 208 0x0;
  e 208 0x0; e 208 0x0; e 208 0x0; e 208 0x0; e 207 0x0; e 208 0x0; e 207 0x0; e 207 0x0
].

Definition page_42 : list unichar := [
  e 212 0x0; e 212 0x0; e 212 0x0; e 212 0x0; e 212 0x0; e 212 0x0; e 212 0x0; e 212 0x0;
  e 212 0x0; e 212 0x0; e 212 0x0; e 212 0x0; e 212 0x0; e 212 0x0; e 212 0x0; e 212 0x0;
  e 212 0x0; e 212 0x0; e 212 0x0; e 212 0x0; e 212 0x0; e 212 0x0; e 212 0x0; e 212 0x0;
  e 212 0x0; e 212 0x0; e 212 0x0; e 212 0x0; e 212 0x0; e 212 0x0; e 212 0x0; e 212 0x0;
  e 212 0x0; e 212 0x0; e 212 0x0; e 212 0x0; e 212 0x0; e 212 0x0; e 212 0x0; e 212 0x0;
  e 212 0x0; e 212 0x0; e 212 0x0; e 212 0x0; e 212 0x0; e 212 0x0; e 212 0x0; e 212 0x0;
  e 207 0x0; e 207 0x0; e 207 0x0; e 207 0x0; e 207 0x0; e 207 0x0; e 207 0x0; e 207 0x0;
  e 207 0x0; e 207 0x0; e 207 0x0; e 207 0x0; e 207 0x0; e 207 0x0; e 207 0x0; e 207 0x0;
  e 207 0x0; e 207 0x0; e 207 0x0; e 207 0x0; e 207 0x0; e 212 0x0; e 212 0x0; e 207 0x0;
  e 207 0x0; e 207 0x0; e 207 0x0; e 207 0x0; e 207 0x0; e 255 0x0; e 255 0x0; e 255 0x0;
  e 212 0x0; e 212 0x0; e 212 0x0; e 212 0x0; e 212 0x0; e 212 0x0; e 212 0x0; e 212 0x0;
  e 212 0x0; e 212 0x0; e 255 0x0; e 255 0x0; e 255 0x0; e 255 0x0; e 255 0x0; e 255 0x0;
  e 255 0x0; e 255 0x0; e 255 0x0; e 255 0x0; e 255 0x0; e 255 0x0; e 255 0x0; e 255 0x0;
  e 255 0x0; e 255 0x0; e 255 0x0; e 255 0x0; e 255 0x0; e 255 0x0; e 255 0x0; e 255 0x0;
  e 255 0x0; e 255 0x0; e 255 0x0; e 255 0x0; e 255 0x0; e 255 0x0; e 255 0x0; e 255 0x0;
  e 255 0x0; e 255 0x0; e 255 0x0; e 255 0x0; e 255 0x0; e 255 0x0; e 255 0x0; e 255 0x0;
  e 255 0x0; e 255 0x0; e 255 0x0; e 255 0x0; e 255 0x0; e 255 0x0; e 255 0x0; e 255 0x0;
  e 255 0x0; e 255 0x0; e 255 0x0; e 255 0x0; e 255 0x0; e 255 0x0; e 255 0x0; e 255 0x0;
  e 255 0x0; e 255 0x0; e 255 0x0; e 255 0x0; e 255 0x0; e 255 0x0; e 255 0x0; e 255 0x0;
  e 255 0x0; e 255 0x0; e 255 0x0; e 255 0x0; e 255 0x0; e 255 0x0; e 255 0x0; e 255 0x0;
  e 255 0x0; e 255 0x0; e 255 0x0; e 255 0x0; e 255 0x0; e 255 0x0; e 255 0x0; e 255 0x0;
  e 255 0x0; e 255 0x0; e 255 0x0; e 255 0x0; e 255 0x0; e 255 0x0; e 255 0x0; e 255 0x0;
  e 255 0x0; e 255 0x0; e 255 0x0; e 255 0x0; e 255 0x0; e 255 0x0; e 255 0x0; e 255 0x0;
  e 255 0x0; e 255 0x0; e 255 0x0; e 255 0x0; e 255 0x0; e 255 0x0; e 255 0x0; e 255 0x0;
  e 255 0x0; e 255 0x0; e 255 0x0; e 255 0x0; e 255 0x0; e 255 0x0; e 255 0x0; e 255 0x0;
  e 255 0x0; e 255 0x0; e 255 0x0; e 255 0x0; e 255 0x0; e 255 0x0; e 255 0x0; e 255 0x0;
  e 255 0x0; e 255 0x0; e 255 0x0; e 255 0x0; e 255 0x0; e 255 0x0; e 255 0x0; e 255 0x0;
  e 255 0x0; e 255 0x0; e 255 0x0; e 255 0x0; e 255 0x0; e 255 0x0; e 255 0x0; e 255 0x0;
  e 255 0x0; e 255 0x0; e 255 0x0; e 255 0x0; e 255 0x0; e 255 0x0; e 255 0x0; e 255 0x0;
  e 255 0x0; e 255 0x0; e 255 0x0; e 255 0x0; e 255 0x0; e 255 0x0; e 255 0x0; e 255 0x0;
  e 255 0x0; e 255 0x0; e 255 0x0; e 255 0x0; e 255 0x0; e 255 0x0; e 255 0x0; e 255 0x0;
  e 255 0x0; e 255 0x0; e 255 0x0; e 255 0x0; e 255 0x0; e 255 0x0; e 255 0x0; e 255 0x0
].

Definition page_43 : list unichar := [
  e 0 0x2C30; e 0 0x2C31; e 0 0x2C32; e 0 0x2C33; e 0 0x2C34; e 0 0x2C35; e 0 0x2C36; e 0 0x2C37;
  e 0 0x2C38; e 0 0x2C39; e 0 0x2C3A; e 0 0x2C3B; e 0 0x2C3C; e 0 0x2C3D; e 0 0x2C3E; e 0 0x2C3F;
  e 0 0x2C40; e 0 0x2C41; e 0 0x2C42; e 0 0x2C43; e 0 0x2C44; e 0 0x2C45; e 0 0x2C46; e 0 0x2C47;
  e 0 0x2C48; e 0 0x2C49; e 0 0x2C4A; e 0 0x2C4B; e 0 0x2C4C; e 0 0x2C4D; e 0 0x2C4E; e 0 0x2C4F;
  e 0 0x2C50; e 0 0x2C51; e 0 0x2C52; e 0 0x2C53; e 0 0x2C54; e 0 0x2C55; e 0 0x2C56; e 0 0x2C57;
  e 0 0x2C58; e 0 0x2C59; e 0 0x2C5A; e 0 0x2C5B; e 0 0x2C5C; e 0 0x2C5D; e 0 0x2C5E; e 255 0x0;
  e 1 0x2C00; e 1 0x2C01; e 1 0x2C02; e 1 0x2C03; e 1 0x2C04; e 1 0x2C05; e 1 0x2C06; e 1 0x2C07;
  e 1 0x2C08; e 1 0x2C09; e 1 0x2C0A; e 1 0x2C0B; e 1 0x2C0C; e 1 0x2C0D; e 1 0x2C0E; e 1 0x2C0F;
  e 1 0x2C10; e 1 0x2C11; e 1 0x2C12; e 1 0x2C13; e 1 0x2C14; e 1 0x2C15; e 1 0x2C16; e 1 0x2C17;
  e 1 0x2C18; e 1 0x2C19; e 1 0x2C1A; e 1 0x2C1B; e 1 0x2C1C; e 1 0x2C1D; e 1 0x2C1E; e 1 0x2C1F;
  e 1 0x2C20; e 1 0x2C21; e 1 0x2C22; e 1 0x2C23; e 1 0x2C24; e 1 0x2C25; e 1 0x2C26; e 1 0x2C27;
  e 1 0x2C28; e 1 0x2C29; e 1 0x2C2A; e 1 0x2C2B; e 1 0x2C2C; e 1 0x2C2D; e 1 0x2C2E; e 255 0x0;
  e 0 0x2C61; e 1 0x2C60; e 0 0x26B; e 0 0x1D7D; e 0 0x27D; e 1 0x23A; e 1 0x23E; e 0 0x2C68;
  e 1 0x2C67; e 0 0x2C6A; e 1 0x2C69; e 0 0x2C6C; e 1 0x2C6B; e 0 0x251; e 0 0x271; e 0 0x250;
  e 0 0x252; e 3 0x0; e 0 0x2C73; e 1 0x2C72; e 3 0x0; e 0 0x2C76; e 1 0x2C75; e 3 0x0;
  e 3 0x0; e 3 0x0; e 3 0x0; e 3 0x0; e 6 0x0; e 6 0x0; e 0 0x23F; e 0 0x240;
  e 0 0x2C81; e 1 0x2C80; e 0 0x2C83; e 1 0x2C82; e 0 0x2C85; e 1 0x2C84; e 0 0x2C87; e 1 0x2C86;
  e 0 0x2C89; e 1 0x2C88; e 0 0x2C8B; e 1 0x2C8A; e 0 0x2C8D; e 1 0x2C8C; e 0 0x2C8F; e 1 0x2C8E;
  e 0 0x2C91; e 1 0x2C90; e 0 0x2C93; e 1 0x2C92; e 0 0x2C95; e 1 0x2C94; e 0 0x2C97; e 1 0x2C96;
  e 0 0x2C99; e 1 0x2C98; e 0 0x2C9B; e 1 0x2C9A; e 0 0x2C9D; e 1 0x2C9C; e 0 0x2C9F; e 1 0x2C9E;
  e 0 0x2CA1; e 1 0x2CA0; e 0 0x2CA3; e 1 0x2CA2; e 0 0x2CA5; e 1 0x2CA4; e 0 0x2CA7; e 1 0x2CA6;
  e 0 0x2CA9; e 1 0x2CA8; e 0 0x2CAB; e 1 0x2CAA; e 0 0x2CAD; e 1 0x2CAC; e 0 0x2CAF; e 1 0x2CAE;
  e 0 0x2CB1; e 1 0x2CB0; e 0 0x2CB3; e 1 0x2CB2; e 0 0x2CB5; e 1 0x2CB4; e 0 0x2CB7; e 1 0x2CB6;
  e 0 0x2CB9; e 1 0x2CB8; e 0 0x2CBB; e 1 0x2CBA; e 0 0x2CBD; e 1 0x2CBC; e 0 0x2CBF; e 1 0x2CBE;
  e 0 0x2CC1; e 1 0x2CC0; e 0 0x2CC3; e 1 0x2CC2; e 0 0x2CC5; e 1 0x2CC4; e 0 0x2CC7; e 1 0x2CC6;
  e 0 0x2CC9; e 1 0x2CC8; e 0 0x2CCB; e 1 0x2CCA; e 0 0x2CCD; e 1 0x2CCC; e 0 0x2CCF; e 1 0x2CCE;
  e 0 0x2CD1; e 1 0x2CD0; e 0 0x2CD3; e 1 0x2CD2; e 0 0x2CD5; e 1 0x2CD4; e 0 0x2CD7; e 1 0x2CD6;
  e 0 0x2CD9; e 1 0x2CD8; e 0 0x2CDB; e 1 0x2CDA; e 0 0x2CDD; e 1 0x2CDC; e 0 0x2CDF; e 1 0x2CDE;
  e 0 0x2CE1; e 1 0x2CE0; e 0 0x2CE3; e 1 0x2CE2; e 3 0x0; e 212 0x0; e 212 0x0; e 212 0x0;
  e 212 0x0; e 212 0x0; e 212 0x0; e 0 0x2CEC; e 1 0x2CEB; e 0 0x2CEE; e 1 0x2CED; e 84 0x0;
  e 84 0x0; e 84 0x0; e 0 0x2CF3; e 1 0x2CF2; e 255 0x0; e 255 0x0; e 255 0x0; e 255 0x0;
  e 255 0x0; e 193 0x0; e 193 0x0; e 193 0x0; e 193 0x0; e 162 0x0; e 193 0x0; e 193 0x0
].

Definition page_44 : list unichar := [
  e 1 0x10A0; e 1 0x10A1; e 1 0x10A2; e 1 0x10A3; e 1 0x10A4; e 1 0x10A5; e 1 0x10A6; e 1 0x10A7;
  e 1 0x10A8; e 1 0x10A9; e 1 0x10AA; e 1 0x10AB; e 1 0x10AC; e 1 0x10AD; e 1 0x10AE; e 1 0x10AF;
  e 1 0x10B0; e 1 0x10B1; e 1 0x10B2; e 1 0x10B3; e 1 0x10B4; e 1 0x10B5; e 1 0x10B6; e 1 0x10B7;
  e 1 0x10B8; e 1 0x10B9; e 1 0x10BA; e 1 0x10BB; e 1 0x10BC; e 1 0x10BD; e 1 0x10BE; e 1 0x10BF;
  e 1 0x10C0; e 1 0x10C1; e 1 0x10C2; e 1 0x10C3; e 1 0x10C4; e 1 0x10C5; e 255 0x0; e 1 0x10C7;
  e 255 0x0; e 255 0x0; e 255 0x0; e 255 0x0; e 255 0x0; e 1 0x10CD; e 255 0x0; e 255 0x0;
  e 10 0x0; e 10 0x0; e 10 0x0; e 10 0x0; e 10 0x0; e 10 0x0; e 10 0x0; e 10 0x0;
  e 10 0x0; e 10 0x0; e 10 0x0; e 10 0x0; e 10 0x0; e 10 0x0; e 10 0x0; e 10 0x0;
  e 10 0x0; e 10 0x0; e 10 0x0; e 10 0x0; e 10 0x0; e 10 0x0; e 10 0x0; e 10 0x0;
  e 10 0x0; e 10 0x0; e 10 0x0; e 10 0x0; e 10 0x0; e 10 0x0; e 10 0x0; e 10 0x0;
  e 10 0x0; e 10 0x0; e 10 0x0; e 10 0x0; e 10 0x0; e 10 0x0; e 10 0x0; e 10 0x0;
  e 10 0x0; e 10 0x0; e 10 0x0; e 10 0x0; e 10 0x0; e 10 0x0; e 10 0x0; e 10 0x0;
  e 10 0x0; e 10 0x0; e 10 0x0; e 10 0x0; e 10 0x0; e 10 0x0; e 10 0x0; e 10 0x0;
  e 255 0x0; e 255 0x0; e 255 0x0; e 255 0x0; e 255 0x0; e 255 0x0; e 255 0x0; e 6 0x0;
  e 192 0x0; e 255 0x0; e 255 0x0; e 255 0x0; e 255 0x0; e 255 0x0; e 255 0x0; e 255 0x0;
  e 255 0x0; e 255 0x0; e 255 0x0; e 255 0x0; e 255 0x0; e 255 0x0; e 255 0x0; e 40 0x0;
  e 10 0x0; e 10 0x0; e 10 0x0; e 10 0x0; e 10 0x0; e 10 0x0; e 10 0x0; e 10 0x0;
  e 10 0x0; e 10 0x0; e 10 0x0; e 10 0x0; e 10 0x0; e 10 0x0; e 10 0x0; e 10 0x0;
  e 10 0x0; e 10 0x0; e 10 0x0; e 10 0x0; e 10 0x0; e 10 0x0; e 10 0x0; e 255 0x0;
  e 255 0x0; e 255 0x0; e 255 0x0; e 255 0x0; e 255 0x0; e 255 0x0; e 255 0x0; e 255 0x0;
  e 10 0x0; e 10 0x0; e 10 0x0; e 10 0x0; e 10 0x0; e 10 0x0; e 10 0x0; e 255 0x0;
  e 10 0x0; e 10 0x0; e 10 0x0; e 10 0x0; e 10 0x0; e 10 0x0; e 10 0x0; e 255 0x0;
  e 10 0x0; e 10 0x0; e 10 0x0; e 10 0x0; e 10 0x0; e 10 0x0; e 10 0x0; e 255 0x0;
  e 10 0x0; e 10 0x0; e 10 0x0; e 10 0x0; e 10 0x0; e 10 0x0; e 10 0x0; e 255 0x0;
  e 10 0x0; e 10 0x0; e 10 0x0; e 10 0x0; e 10 0x0; e 10 0x0; e 10 0x0; e 255 0x0;
  e 10 0x0; e 10 0x0; e 10 0x0; e 10 0x0; e 10 0x0; e 10 0x0; e 10 0x0; e 255 0x0;
  e 10 0x0; e 10 0x0; e 10 0x0; e 10 0x0; e 10 0x0; e 10 0x0; e 10 0x0; e 255 0x0;
  e 10 0x0; e 10 0x0; e 10 0x0; e 10 0x0; e 10 0x0; e 10 0x0; e 10 0x0; e 255 0x0;
  e 84 0x0; e 84 0x0; e 84 0x0; e 84 0x0; e 84 0x0; e 84 0x0; e 84 0x0; e 84 0x0;
  e 84 0x0; e 84 0x0; e 84 0x0; e 84 0x0; e 84 0x0; e 84 0x0; e 84 0x0; e 84 0x0;
  e 84 0x0; e 84 0x0; e 84 0x0; e 84 0x0; e 84 0x0; e 84 0x0; e 84 0x0; e 84 0x0;
  e 84 0x0; e 84 0x0; e 84 0x0; e 84 0x0; e 84 0x0; e 84 0x0; e 84 0x0; e 84 0x0
].

Definition page_45 : list unichar := [
  e 193 0x0; e 193 0x0; e 187 0x0; e 185 0x0; e 187 0x0; e 185 0x0; e 193 0x0; e 193 0x0;
  e 193 0x0; e 187 0x0; e 185 0x0; e 193 0x0; e 187 0x0; e 185 0x0; e 193 0x0; e 193 0x0;
  e 193 0x0; e 193 0x0; e 193 0x0; e 193 0x0; e 193 0x0; e 193 0x0; e 193 0x0; e 180 0x0;
  e 193 0x0; e 193 0x0; e 180 0x0; e 193 0x0; e 187 0x0; e 185 0x0; e 193 0x0; e 193 0x0;
  e 187 0x0; e 185 0x0; e 196 0x0; e 183 0x0; e 196 0x0; e 183 0x0; e 196 0x0; e 183 0x0;
  e 196 0x0; e 183 0x0; e 193 0x0; e 193 0x0; e 193 0x0; e 193 0x0; e 193 0x0; e 7 0x0;
  e 193 0x0; e 193 0x0; e 193 0x0; e 193 0x0; e 193 0x0; e 193 0x0; e 193 0x0; e 193 0x0;
  e 193 0x0; e 193 0x0; e 180 0x0; e 180 0x0; e 255 0x0; e 255 0x0; e 255 0x0; e 255 0x0;
  e 255 0x0; e 255 0x0; e 255 0x0; e 255 0x0; e 255 0x0; e 255 0x0; e 255 0x0; e 255 0x0;
  e 255 0x0; e 255 0x0; e 255 0x0; e 255 0x0; e 255 0x0; e 255 0x0; e 255 0x0; e 255 0x0;
  e 255 0x0; e 255 0x0; e 255 0x0; e 255 0x0; e 255 0x0; e 255 0x0; e 255 0x0; e 255 0x0;
  e 255 0x0; e 255 0x0; e 255 0x0; e 255 0x0; e 255 0x0; e 255 0x0; e 255 0x0; e 255 0x0;
  e 255 0x0; e 255 0x0; e 255 0x0; e 255 0x0; e 255 0x0; e 255 0x0; e 255 0x0; e 255 0x0;
  e 255 0x0; e 255 0x0; e 255 0x0; e 255 0x0; e 255 0x0; e 255 0x0; e 255 0x0; e 255 0x0;
  e 255 0x0; e 255 0x0; e 255 0x0; e 255 0x0; e 255 0x0; e 255 0x0; e 255 0x0; e 255 0x0;
  e 255 0x0; e 255 0x0; e 255 0x0; e 255 0x0; e 255 0x0; e 255 0x0; e 255 0x0; e 255 0x0;
  e 212 0x0; e 212 0x0; e 212 0x0; e 212 0x0; e 212 0x0; e 212 0x0; e 212 0x0; e 212 0x0;
  e 212 0x0; e 212 0x0; e 212 0x0; e 212 0x0; e 212 0x0; e 212 0x0; e 212 0x0; e 212 0x0;
  e 212 0x0; e 212 0x0; e 212 0x0; e 212 0x0; e 212 0x0; e 212 0x0; e 212 0x0; e 212 0x0;
  e 212 0x0; e 212 0x0; e 255 0x0; e 212 0x0; e 212 0x0; e 212 0x0; e 212 0x0; e 212 0x0;
  e 212 0x0; e 212 0x0; e 212 0x0; e 212 0x0; e 212 0x0; e 212 0x0; e 212 0x0; e 212 0x0;
  e 212 0x0; e 212 0x0; e 212 0x0; e 212 0x0; e 212 0x0; e 212 0x0; e 212 0x0; e 212 0x0;
  e 212 0x0; e 212 0x0; e 212 0x0; e 212 0x0; e 212 0x0; e 212 0x0; e 212 0x0; e 212 0x0;
  e 212 0x0; e 212 0x0; e 212 0x0; e 212 0x0; e 212 0x0; e 212 0x0; e 212 0x0; e 212 0x0;
  e 212 0x0; e 212 0x0; e 212 0x0; e 212 0x0; e 212 0x0; e 212 0x0; e 212 0x0; e 212 0x0;
  e 212 0x0; e 212 0x0; e 212 0x0; e 212 0x0; e 212 0x0; e 212 0x0; e 212 0x0; e 212 0x0;
  e 212 0x0; e 212 0x0; e 212 0x0; e 212 0x0; e 212 0x0; e 212 0x0; e 212 0x0; e 212 0x0;
  e 212 0x0; e 212 0x0; e 212 0x0; e 212 0x0; e 212 0x0; e 212 0x0; e 212 0x0; e 212 0x0;
  e 212 0x0; e 212 0x0; e 212 0x0; e 212 0x0; e 212 0x0; e 212 0x0; e 212 0x0; e 212 0x0;
  e 212 0x0; e 212 0x0; e 212 0x0; e 212 0x0; e 212 0x0; e 212 0x0; e 212 0x0; e 212 0x0;
  e 212 0x0; e 212 0x0; e 212 0x0; e 212 0x0; e 255 0x0; e 255 0x0; e 255 0x0; e 255 0x0;
  e 255 0x0; e 255 0x0; e 255 0x0; e 255 0x0; e 255 0x0; e 255 0x0; e 255 0x0; e 255 0x0
].

Definition page_46 : list unichar := [
  e 212 0x0; e 212 0x0; e 212 0x0; e 212 0x0; e 212 0x0; e 212 0x0; e 212 0x0; e 212 0x0;
  e 212 0x0; e 212 0x0; e 212 0x0; e 212 0x0; e 212 0x0; e 212 0x0; e 212 0x0; e 212 0x0;
  e 212 0x0; e 212 0x0; e 212 0x0; e 212 0x0; e 212 0x0; e 212 0x0; e 212 0x0; e 212 0x0;
  e 212 0x0; e 212 0x0; e 212 0x0; e 212 0x0; e 212 0x0; e 212 0x0; e 212 0x0; e 212 0x0;
  e 212 0x0; e 212 0x0; e 212 0x0; e 212 0x0; e 212 0x0; e 212 0x0; e 212 0x0; e 212 0x0;
  e 212 0x0; e 212 0x0; e 212 0x0; e 212 0x0; e 212 0x0; e 212 0x0; e 212 0x0; e 212 0x0;
  e 212 0x0; e 212 0x0; e 212 0x0; e 212 0x0; e 212 0x0; e 212 0x0; e 212 0x0; e 212 0x0;
  e 212 0x0; e 212 0x0; e 212 0x0; e 212 0x0; e 212 0x0; e 212 0x0; e 212 0x0; e 212 0x0;
  e 212 0x0; e 212 0x0; e 212 0x0; e 212 0x0; e 212 0x0; e 212 0x0; e 212 0x0; e 212 0x0;
  e 212 0x0; e 212 0x0; e 212 0x0; e 212 0x0; e 212 0x0; e 212 0x0; e 212 0x0; e 212 0x0;
  e 212 0x0; e 212 0x0; e 212 0x0; e 212 0x0; e 212 0x0; e 212 0x0; e 212 0x0; e 212 0x0;
  e 212 0x0; e 212 0x0; e 212 0x0; e 212 0x0; e 212 0x0; e 212 0x0; e 212 0x0; e 212 0x0;
  e 212 0x0; e 212 0x0; e 212 0x0; e 212 0x0; e 212 0x0; e 212 0x0; e 212 0x0; e 212 0x0;
  e 212 0x0; e 212 0x0; e 212 0x0; e 212 0x0; e 212 0x0; e 212 0x0; e 212 0x0; e 212 0x0;
  e 212 0x0; e 212 0x0; e 212 0x0; e 212 0x0; e 212 0x0; e 212 0x0; e 212 0x0; e 212 0x0;
  e 212 0x0; e 212 0x0; e 212 0x0; e 212 0x0; e 212 0x0; e 212 0x0; e 212 0x0; e 212 0x0;
  e 212 0x0; e 212 0x0; e 212 0x0; e 212 0x0; e 212 0x0; e 212 0x0; e 212 0x0; e 212 0x0;
  e 212 0x0; e 212 0x0; e 212 0x0; e 212 0x0; e 212 0x0; e 212 0x0; e 212 0x0; e 212 0x0;
  e 212 0x0; e 212 0x0; e 212 0x0; e 212 0x0; e 212 0x0; e 212 0x0; e 212 0x0; e 212 0x0;
  e 212 0x0; e 212 0x0; e 212 0x0; e 212 0x0; e 212 0x0; e 212 0x0; e 212 0x0; e 212 0x0;
  e 212 0x0; e 212 0x0; e 212 0x0; e 212 0x0; e 212 0x0; e 212 0x0; e 212 0x0; e 212 0x0;
  e 212 0x0; e 212 0x0; e 212 0x0; e 212 0x0; e 212 0x0; e 212 0x0; e 212 0x0; e 212 0x0;
  e 212 0x0; e 212 0x0; e 212 0x0; e 212 0x0; e 212 0x0; e 212 0x0; e 212 0x0; e 212 0x0;
  e 212 0x0; e 212 0x0; e 212 0x0; e 212 0x0; e 212 0x0; e 212 0x0; e 212 0x0; e 212 0x0;
  e 212 0x0; e 212 0x0; e 212 0x0; e 212 0x0; e 212 0x0; e 212 0x0; e 212 0x0; e 212 0x0;
  e 212 0x0; e 212 0x0; e 212 0x0; e 212 0x0; e 212 0x0; e 212 0x0; e 212 0x0; e 212 0x0;
  e 212 0x0; e 212 0x0; e 212 0x0; e 212 0x0; e 212 0x0; e 212 0x0; e 255 0x0; e 255 0x0;
  e 255 0x0; e 255 0x0; e 255 0x0; e 255 0x0; e 255 0x0; e 255 0x0; e 255 0x0; e 255 0x0;
  e 255 0x0; e 255 0x0; e 255 0x0; e 255 0x0; e 255 0x0; e 255 0x0; e 255 0x0; e 255 0x0;
  e 255 0x0; e 255 0x0; e 255 0x0; e 255 0x0; e 255 0x0; e 255 0x0; e 255 0x0; e 255 0x0;
  e 212 0x0; e 212 0x0; e 212 0x0; e 212 0x0; e 212 0x0; e 212 0x0; e 212 0x0; e 212 0x0;
  e 212 0x0; e 212 0x0; e 212 0x0; e 212 0x0; e 255 0x0; e 255 0x0; e 255 0x0; e 255 0x0
].

Definition page_47 : list unichar := [
  e 216 0x0; e 193 0x0; e 193 0x0; e 193 0x0; e 212 0x0; e 6 0x0; e 10 0x0; e 129 0x0;
  e 196 0x0; e 183 0x0; e 196 0x0; e 183 0x0; e 196 0x0; e 183 0x0; e 196 0x0; e 183 0x0;
  e 196 0x0; e 183 0x0; e 212 0x0; e 212 0x0; e 196 0x0; e 183 0x0; e 196 0x0; e 183 0x0;
  e 196 0x0; e 183 0x0; e 196 0x0; e 183 0x0; e 180 0x0; e 195 0x0; e 182 0x0; e 182 0x0;
  e 212 0x0; e 129 0x0; e 129 0x0; e 129 0x0; e 129 0x0; e 129 0x0; e 129 0x0; e 129 0x0;
  e 129 0x0; e 129 0x0; e 80 0x0; e 83 0x0; e 85 0x0; e 82 0x0; e 32 0x0; e 32 0x0;
  e 180 0x0; e 6 0x0; e 6 0x0; e 6 0x0; e 6 0x0; e 6 0x0; e 212 0x0; e 212 0x0;
  e 129 0x0; e 129 0x0; e 129 0x0; e 6 0x0; e 10 0x0; e 193 0x0; e 212 0x0; e 212 0x0;
  e 255 0x0; e 10 0x0; e 10 0x0; e 10 0x0; e 10 0x0; e 10 0x0; e 10 0x0; e 10 0x0;
  e 10 0x0; e 10 0x0; e 10 0x0; e 10 0x0; e 10 0x0; e 10 0x0; e 10 0x0; e 10 0x0;
  e 10 0x0; e 10 0x0; e 10 0x0; e 10 0x0; e 10 0x0; e 10 0x0; e 10 0x0; e 10 0x0;
  e 10 0x0; e 10 0x0; e 10 0x0; e 10 0x0; e 10 0x0; e 10 0x0; e 10 0x0; e 10 0x0;
  e 10 0x0; e 10 0x0; e 10 0x0; e 10 0x0; e 10 0x0; e 10 0x0; e 10 0x0; e 10 0x0;
  e 10 0x0; e 10 0x0; e 10 0x0; e 10 0x0; e 10 0x0; e 10 0x0; e 10 0x0; e 10 0x0;
  e 10 0x0; e 10 0x0; e 10 0x0; e 10 0x0; e 10 0x0; e 10 0x0; e 10 0x0; e 10 0x0;
  e 10 0x0; e 10 0x0; e 10 0x0; e 10 0x0; e 10 0x0; e 10 0x0; e 10 0x0; e 10 0x0;
  e 10 0x0; e 10 0x0; e 10 0x0; e 10 0x0; e 10 0x0; e 10 0x0; e 10 0x0; e 10 0x0;
  e 10 0x0; e 10 0x0; e 10 0x0; e 10 0x0; e 10 0x0; e 10 0x0; e 10 0x0; e 10 0x0;
  e 10 0x0; e 10 0x0; e 10 0x0; e 10 0x0; e 10 0x0; e 10 0x0; e 10 0x0; e 255 0x0;
  e 255 0x0; e 39 0x0; e 39 0x0; e 201 0x0; e 201 0x0; e 6 0x0; e 6 0x0; e 10 0x0;
  e 180 0x0; e 10 0x0; e 10 0x0; e 10 0x0; e 10 0x0; e 10 0x0; e 10 0x0; e 10 0x0;
  e 10 0x0; e 10 0x0; e 10 0x0; e 10 0x0; e 10 0x0; e 10 0x0; e 10 0x0; e 10 0x0;
  e 10 0x0; e 10 0x0; e 10 0x0; e 10 0x0; e 10 0x0; e 10 0x0; e 10 0x0; e 10 0x0;
  e 10 0x0; e 10 0x0; e 10 0x0; e 10 0x0; e 10 0x0; e 10 0x0; e 10 0x0; e 10 0x0;
  e 10 0x0; e 10 0x0; e 10 0x0; e 10 0x0; e 10 0x0; e 10 0x0; e 10 0x0; e 10 0x0;
  e 10 0x0; e 10 0x0; e 10 0x0; e 10 0x0; e 10 0x0; e 10 0x0; e 10 0x0; e 10 0x0;
  e 10 0x0; e 10 0x0; e 10 0x0; e 10 0x0; e 10 0x0; e 10 0x0; e 10 0x0; e 10 0x0;
  e 10 0x0; e 10 0x0; e 10 0x0; e 10 0x0; e 10 0x0; e 10 0x0; e 10 0x0; e 10 0x0;
  e 10 0x0; e 10 0x0; e 10 0x0; e 10 0x0; e 10 0x0; e 10 0x0; e 10 0x0; e 10 0x0;
  e 10 0x0; e 10 0x0; e 10 0x0; e 10 0x0; e 10 0x0; e 10 0x0; e 10 0x0; e 10 0x0;
  e 10 0x0; e 10 0x0; e 10 0x0; e 10 0x0; e 10 0x0; e 10 0x0; e 10 0x0; e 10 0x0;
  e 10 0x0; e 10 0x0; e 10 0x0; e 193 0x0; e 6 0x0; e 6 0x0; e 6 0x0; e 10 0x0
].

Definition page_48 : list unichar := [
  e 255 0x0; e 255 0x0; e 255 0x0; e 255 0x0; e 255 0x0; e 10 0x0; e 10 0x0; e 10 0x0;
  e 10 0x0; e 10 0x0; e 10 0x0; e 10 0x0; e 10 0x0; e 10 0x0; e 10 0x0; e 10 0x0;
  e 10 0x0; e 10 0x0; e 10 0x0; e 10 0x0; e 10 0x0; e 10 0x0; e 10 0x0; e 10 0x0;
  e 10 0x0; e 10 0x0; e 10 0x0; e 10 0x0; e 10 0x0; e 10 0x0; e 10 0x0; e 10 0x0;
  e 10 0x0; e 10 0x0; e 10 0x0; e 10 0x0; e 10 0x0; e 10 0x0; e 10 0x0; e 10 0x0;
  e 10 0x0; e 10 0x0; e 10 0x0; e 10 0x0; e 10 0x0; e 10 0x0; e 255 0x0; e 255 0x0;
  e 255 0x0; e 10 0x0; e 10 0x0; e 10 0x0; e 10 0x0; e 10 0x0; e 10 0x0; e 10 0x0;
  e 10 0x0; e 10 0x0; e 10 0x0; e 10 0x0; e 10 0x0; e 10 0x0; e 10 0x0; e 10 0x0;
  e 10 0x0; e 10 0x0; e 10 0x0; e 10 0x0; e 10 0x0; e 10 0x0; e 10 0x0; e 10 0x0;
  e 10 0x0; e 10 0x0; e 10 0x0; e 10 0x0; e 10 0x0; e 10 0x0; e 10 0x0; e 10 0x0;
  e 10 0x0; e 10 0x0; e 10 0x0; e 10 0x0; e 10 0x0; e 10 0x0; e 10 0x0; e 10 0x0;
  e 10 0x0; e 10 0x0; e 10 0x0; e 10 0x0; e 10 0x0; e 10 0x0; e 10 0x0; e 10 0x0;
  e 10 0x0; e 10 0x0; e 10 0x0; e 10 0x0; e 10 0x0; e 10 0x0; e 10 0x0; e 10 0x0;
  e 10 0x0; e 10 0x0; e 10 0x0; e 10 0x0; e 10 0x0; e 10 0x0; e 10 0x0; e 10 0x0;
  e 10 0x0; e 10 0x0; e 10 0x0; e 10 0x0; e 10 0x0; e 10 0x0; e 10 0x0; e 10 0x0;
  e 10 0x0; e 10 0x0; e 10 0x0; e 10 0x0; e 10 0x0; e 10 0x0; e 10 0x0; e 10 0x0;
  e 10 0x0; e 10 0x0; e 10 0x0; e 10 0x0; e 10 0x0; e 10 0x0; e 10 0x0; e 10 0x0;
  e 10 0x0; e 10 0x0; e 10 0x0; e 10 0x0; e 10 0x0; e 10 0x0; e 10 0x0; e 255 0x0;
  e 211 0x0; e 211 0x0; e 152 0x0; e 152 0x0; e 152 0x0; e 152 0x0; e 211 0x0; e 211 0x0;
  e 211 0x0; e 211 0x0; e 211 0x0; e 211 0x0; e 211 0x0; e 211 0x0; e 211 0x0; e 211 0x0;
  e 10 0x0; e 10 0x0; e 10 0x0; e 10 0x0; e 10 0x0; e 10 0x0; e 10 0x0; e 10 0x0;
  e 10 0x0; e 10 0x0; e 10 0x0; e 10 0x0; e 10 0x0; e 10 0x0; e 10 0x0; e 10 0x0;
  e 10 0x0; e 10 0x0; e 10 0x0; e 10 0x0; e 10 0x0; e 10 0x0; e 10 0x0; e 10 0x0;
  e 10 0x0; e 10 0x0; e 10 0x0; e 255 0x0; e 255 0x0; e 255 0x0; e 255 0x0; e 255 0x0;
  e 212 0x0; e 212 0x0; e 212 0x0; e 212 0x0; e 212 0x0; e 212 0x0; e 212 0x0; e 212 0x0;
  e 212 0x0; e 212 0x0; e 212 0x0; e 212 0x0; e 212 0x0; e 212 0x0; e 212 0x0; e 212 0x0;
  e 212 0x0; e 212 0x0; e 212 0x0; e 212 0x0; e 212 0x0; e 212 0x0; e 212 0x0; e 212 0x0;
  e 212 0x0; e 212 0x0; e 212 0x0; e 212 0x0; e 212 0x0; e 212 0x0; e 212 0x0; e 212 0x0;
  e 212 0x0; e 212 0x0; e 212 0x0; e 212 0x0; e 255 0x0; e 255 0x0; e 255 0x0; e 255 0x0;
  e 255 0x0; e 255 0x0; e 255 0x0; e 255 0x0; e 255 0x0; e 255 0x0; e 255 0x0; e 255 0x0;
  e 10 0x0; e 10 0x0; e 10 0x0; e 10 0x0; e 10 0x0; e 10 0x0; e 10 0x0; e 10 0x0;
  e 10 0x0; e 10 0x0; e 10 0x0; e 10 0x0; e 10 0x0; e 10 0x0; e 10 0x0; e 10 0x0
].

Definition page_49 : list unichar := [
  e 211 0x0; e 211 0x0; e 211 0x0; e 211 0x0; e 211 0x0; e 211 0x0; e 211 0x0; e 211 0x0;
  e 211 0x0; e 211 0x0; e 211 0x0; e 211 0x0; e 211 0x0; e 211 0x0; e 211 0x0; e 211 0x0;
  e 211 0x0; e 211 0x0; e 211 0x0; e 211 0x0; e 211 0x0; e 211 0x0; e 211 0x0; e 211 0x0;
  e 211 0x0; e 211 0x0; e 211 0x0; e 211 0x0; e 211 0x0; e 212 0x0; e 212 0x0; e 255 0x0;
  e 152 0x0; e 152 0x0; e 152 0x0; e 152 0x0; e 152 0x0; e 152 0x0; e 152 0x0; e 152 0x0;
  e 152 0x0; e 152 0x0; e 211 0x0; e 211 0x0; e 211 0x0; e 211 0x0; e 211 0x0; e 211 0x0;
  e 211 0x0; e 211 0x0; e 211 0x0; e 211 0x0; e 211 0x0; e 211 0x0; e 211 0x0; e 211 0x0;
  e 211 0x0; e 211 0x0; e 211 0x0; e 211 0x0; e 211 0x0; e 211 0x0; e 211 0x0; e 211 0x0;
  e 211 0x0; e 211 0x0; e 211 0x0; e 211 0x0; e 211 0x0; e 211 0x0; e 211 0x0; e 211 0x0;
  e 152 0x0; e 152 0x0; e 152 0x0; e 152 0x0; e 152 0x0; e 152 0x0; e 152 0x0; e 152 0x0;
  e 212 0x0; e 162 0x0; e 162 0x0; e 162 0x0; e 162 0x0; e 162 0x0; e 162 0x0; e 162 0x0;
  e 162 0x0; e 162 0x0; e 162 0x0; e 162 0x0; e 162 0x0; e 162 0x0; e 162 0x0; e 162 0x0;
  e 211 0x0; e 211 0x0; e 211 0x0; e 211 0x0; e 211 0x0; e 211 0x0; e 211 0x0; e 211 0x0;
  e 211 0x0; e 211 0x0; e 211 0x0; e 211 0x0; e 211 0x0; e 211 0x0; e 211 0x0; e 211 0x0;
  e 211 0x0; e 211 0x0; e 211 0x0; e 211 0x0; e 211 0x0; e 211 0x0; e 211 0x0; e 211 0x0;
  e 211 0x0; e 211 0x0; e 211 0x0; e 211 0x0; e 212 0x0; e 212 0x0; e 212 0x0; e 211 0x0;
  e 152 0x0; e 152 0x0; e 152 0x0; e 152 0x0; e 152 0x0; e 152 0x0; e 152 0x0; e 152 0x0;
  e 152 0x0; e 152 0x0; e 211 0x0; e 211 0x0; e 211 0x0; e 211 0x0; e 211 0x0; e 211 0x0;
  e 211 0x0; e 211 0x0; e 211 0x0; e 211 0x0; e 211 0x0; e 211 0x0; e 211 0x0; e 211 0x0;
  e 211 0x0; e 211 0x0; e 211 0x0; e 211 0x0; e 211 0x0; e 211 0x0; e 211 0x0; e 211 0x0;
  e 211 0x0; e 211 0x0; e 211 0x0; e 211 0x0; e 211 0x0; e 211 0x0; e 211 0x0; e 211 0x0;
  e 211 0x0; e 211 0x0; e 211 0x0; e 211 0x0; e 211 0x0; e 211 0x0; e 211 0x0; e 211 0x0;
  e 211 0x0; e 162 0x0; e 162 0x0; e 162 0x0; e 162 0x0; e 162 0x0; e 162 0x0; e 162 0x0;
  e 162 0x0; e 162 0x0; e 162 0x0; e 162 0x0; e 162 0x0; e 162 0x0; e 162 0x0; e 162 0x0;
  e 211 0x0; e 211 0x0; e 211 0x0; e 211 0x0; e 211 0x0; e 211 0x0; e 211 0x0; e 211 0x0;
  e 211 0x0; e 211 0x0; e 211 0x0; e 211 0x0; e 212 0x0; e 212 0x0; e 212 0x0; e 212 0x0;
  e 211 0x0; e 211 0x0; e 211 0x0; e 211 0x0; e 211 0x0; e 211 0x0; e 211 0x0; e 211 0x0;
  e 211 0x0; e 211 0x0; e 211 0x0; e 211 0x0; e 211 0x0; e 211 0x0; e 211 0x0; e 211 0x0;
  e 211 0x0; e 211 0x0; e 211 0x0; e 211 0x0; e 211 0x0; e 211 0x0; e 211 0x0; e 211 0x0;
  e 211 0x0; e 211 0x0; e 211 0x0; e 211 0x0; e 211 0x0; e 211 0x0; e 211 0x0; e 211 0x0;
  e 211 0x0; e 211 0x0; e 211 0x0; e 211 0x0; e 211 0x0; e 211 0x0; e 211 0x0; e 211 0x0;
  e 211 0x0; e 211 0x0; e 211 0x0; e 211 0x0; e 211 0x0; e 211 0x0; e 211 0x0; e 255 0x0
].

Definition page_50 : list unichar := [
  e 211 0x0; e 211 0x0; e 211 0x0; e 211 0x0; e 211 0x0; e 211 0x0; e 211 0x0; e 211 0x0;
  e 211 0x0; e 211 0x0; e 211 0x0; e 211 0x0; e 211 0x0; e 211 0x0; e 211 0x0; e 211 0x0;
  e 211 0x0; e 211 0x0; e 211 0x0; e 211 0x0; e 211 0x0; e 211 0x0; e 211 0x0; e 211 0x0;
  e 211 0x0; e 211 0x0; e 211 0x0; e 211 0x0; e 211 0x0; e 211 0x0; e 211 0x0; e 211 0x0;
  e 211 0x0; e 211 0x0; e 211 0x0; e 211 0x0; e 211 0x0; e 211 0x0; e 211 0x0; e 211 0x0;
  e 211 0x0; e 211 0x0; e 211 0x0; e 211 0x0; e 211 0x0; e 211 0x0; e 211 0x0; e 211 0x0;
  e 211 0x0; e 211 0x0; e 211 0x0; e 211 0x0; e 211 0x0; e 211 0x0; e 211 0x0; e 211 0x0;
  e 211 0x0; e 211 0x0; e 211 0x0; e 211 0x0; e 211 0x0; e 211 0x0; e 211 0x0; e 211 0x0;
  e 211 0x0; e 211 0x0; e 211 0x0; e 211 0x0; e 211 0x0; e 211 0x0; e 211 0x0; e 211 0x0;
  e 211 0x0; e 211 0x0; e 211 0x0; e 211 0x0; e 211 0x0; e 211 0x0; e 211 0x0; e 211 0x0;
  e 211 0x0; e 211 0x0; e 211 0x0; e 211 0x0; e 211 0x0; e 211 0x0; e 211 0x0; e 211 0x0;
  e 211 0x0; e 211 0x0; e 211 0x0; e 211 0x0; e 211 0x0; e 211 0x0; e 211 0x0; e 211 0x0;
  e 211 0x0; e 211 0x0; e 211 0x0; e 211 0x0; e 211 0x0; e 211 0x0; e 211 0x0; e 211 0x0;
  e 211 0x0; e 211 0x0; e 211 0x0; e 211 0x0; e 211 0x0; e 211 0x0; e 211 0x0; e 211 0x0;
  e 211 0x0; e 211 0x0; e 211 0x0; e 211 0x0; e 211 0x0; e 211 0x0; e 211 0x0; e 212 0x0;
  e 212 0x0; e 212 0x0; e 212 0x0; e 211 0x0; e 211 0x0; e 211 0x0; e 211 0x0; e 211 0x0;
  e 211 0x0; e 211 0x0; e 211 0x0; e 211 0x0; e 211 0x0; e 211 0x0; e 211 0x0; e 211 0x0;
  e 211 0x0; e 211 0x0; e 211 0x0; e 211 0x0; e 211 0x0; e 211 0x0; e 211 0x0; e 211 0x0;
  e 211 0x0; e 211 0x0; e 211 0x0; e 211 0x0; e 211 0x0; e 211 0x0; e 211 0x0; e 211 0x0;
  e 211 0x0; e 211 0x0; e 211 0x0; e 211 0x0; e 211 0x0; e 211 0x0; e 211 0x0; e 211 0x0;
  e 211 0x0; e 211 0x0; e 211 0x0; e 211 0x0; e 211 0x0; e 211 0x0; e 211 0x0; e 211 0x0;
  e 211 0x0; e 211 0x0; e 211 0x0; e 211 0x0; e 211 0x0; e 211 0x0; e 211 0x0; e 211 0x0;
  e 211 0x0; e 211 0x0; e 211 0x0; e 211 0x0; e 211 0x0; e 211 0x0; e 211 0x0; e 211 0x0;
  e 211 0x0; e 211 0x0; e 211 0x0; e 211 0x0; e 211 0x0; e 211 0x0; e 211 0x0; e 211 0x0;
  e 211 0x0; e 211 0x0; e 211 0x0; e 211 0x0; e 211 0x0; e 211 0x0; e 211 0x0; e 211 0x0;
  e 211 0x0; e 211 0x0; e 211 0x0; e 211 0x0; e 211 0x0; e 211 0x0; e 211 0x0; e 211 0x0;
  e 211 0x0; e 211 0x0; e 211 0x0; e 211 0x0; e 211 0x0; e 211 0x0; e 211 0x0; e 211 0x0;
  e 211 0x0; e 211 0x0; e 211 0x0; e 211 0x0; e 211 0x0; e 211 0x0; e 212 0x0; e 212 0x0;
  e 211 0x0; e 211 0x0; e 211 0x0; e 211 0x0; e 211 0x0; e 211 0x0; e 211 0x0; e 211 0x0;
  e 211 0x0; e 211 0x0; e 211 0x0; e 211 0x0; e 211 0x0; e 211 0x0; e 211 0x0; e 211 0x0;
  e 211 0x0; e 211 0x0; e 211 0x0; e 211 0x0; e 211 0x0; e 211 0x0; e 211 0x0; e 211 0x0;
  e 211 0x0; e 211 0x0; e 211 0x0; e 211 0x0; e 211 0x0; e 211 0x0; e 211 0x0; e 212 0x0
].

Definition page_51 : list unichar := [
  e 10 0x0; e 10 0x0; e 10 0x0; e 10 0x0; e 10 0x0; e 10 0x0; e 10 0x0; e 10 0x0;
  e 10 0x0; e 10 0x0; e 10 0x0; e 10 0x0; e 10 0x0; e 10 0x0; e 10 0x0; e 10 0x0;
  e 10 0x0; e 10 0x0; e 10 0x0; e 10 0x0; e 10 0x0; e 10 0x0; e 10 0x0; e 10 0x0;
  e 10 0x0; e 10 0x0; e 10 0x0; e 10 0x0; e 10 0x0; e 10 0x0; e 10 0x0; e 10 0x0;
  e 10 0x0; e 10 0x0; e 10 0x0; e 10 0x0; e 10 0x0; e 10 0x0; e 10 0x0; e 10 0x0;
  e 10 0x0; e 10 0x0; e 10 0x0; e 10 0x0; e 10 0x0; e 10 0x0; e 10 0x0; e 10 0x0;
  e 10 0x0; e 10 0x0; e 10 0x0; e 10 0x0; e 10 0x0; e 10 0x0; e 10 0x0; e 10 0x0;
  e 10 0x0; e 10 0x0; e 10 0x0; e 10 0x0; e 10 0x0; e 10 0x0; e 10 0x0; e 10 0x0;
  e 10 0x0; e 10 0x0; e 10 0x0; e 10 0x0; e 10 0x0; e 10 0x0; e 10 0x0; e 10 0x0;
  e 10 0x0; e 10 0x0; e 10 0x0; e 10 0x0; e 10 0x0; e 10 0x0; e 10 0x0; e 10 0x0;
  e 10 0x0; e 10 0x0; e 10 0x0; e 10 0x0; e 10 0x0; e 10 0x0; e 10 0x0; e 10 0x0;
  e 10 0x0; e 10 0x0; e 10 0x0; e 10 0x0; e 10 0x0; e 10 0x0; e 10 0x0; e 10 0x0;
  e 10 0x0; e 10 0x0; e 10 0x0; e 10 0x0; e 10 0x0; e 10 0x0; e 10 0x0; e 10 0x0;
  e 10 0x0; e 10 0x0; e 10 0x0; e 10 0x0; e 10 0x0; e 10 0x0; e 10 0x0; e 10 0x0;
  e 10 0x0; e 10 0x0; e 10 0x0; e 10 0x0; e 10 0x0; e 10 0x0; e 10 0x0; e 10 0x0;
  e 10 0x0; e 10 0x0; e 10 0x0; e 10 0x0; e 10 0x0; e 10 0x0; e 10 0x0; e 10 0x0;
  e 10 0x0; e 10 0x0; e 10 0x0; e 10 0x0; e 10 0x0; e 10 0x0; e 10 0x0; e 10 0x0;
  e 10 0x0; e 10 0x0; e 10 0x0; e 10 0x0; e 10 0x0; e 10 0x0; e 10 0x0; e 10 0x0;
  e 10 0x0; e 10 0x0; e 10 0x0; e 10 0x0; e 10 0x0; e 10 0x0; e 10 0x0; e 10 0x0;
  e 10 0x0; e 10 0x0; e 10 0x0; e 10 0x0; e 10 0x0; e 10 0x0; e 10 0x0; e 10 0x0;
  e 10 0x0; e 10 0x0; e 10 0x0; e 10 0x0; e 10 0x0; e 10 0x0; e 10 0x0; e 10 0x0;
  e 10 0x0; e 10 0x0; e 10 0x0; e 10 0x0; e 10 0x0; e 10 0x0; e 10 0x0; e 10 0x0;
  e 10 0x0; e 10 0x0; e 10 0x0; e 10 0x0; e 10 0x0; e 10 0x0; e 255 0x0; e 255 0x0;
  e 255 0x0; e 255 0x0; e 255 0x0; e 255 0x0; e 255 0x0; e 255 0x0; e 255 0x0; e 255 0x0;
  e 212 0x0; e 212 0x0; e 212 0x0; e 212 0x0; e 212 0x0; e 212 0x0; e 212 0x0; e 212 0x0;
  e 212 0x0; e 212 0x0; e 212 0x0; e 212 0x0; e 212 0x0; e 212 0x0; e 212 0x0; e 212 0x0;
  e 212 0x0; e 212 0x0; e 212 0x0; e 212 0x0; e 212 0x0; e 212 0x0; e 212 0x0; e 212 0x0;
  e 212 0x0; e 212 0x0; e 212 0x0; e 212 0x0; e 212 0x0; e 212 0x0; e 212 0x0; e 212 0x0;
  e 212 0x0; e 212 0x0; e 212 0x0; e 212 0x0; e 212 0x0; e 212 0x0; e 212 0x0; e 212 0x0;
  e 212 0x0; e 212 0x0; e 212 0x0; e 212 0x0; e 212 0x0; e 212 0x0; e 212 0x0; e 212 0x0;
  e 212 0x0; e 212 0x0; e 212 0x0; e 212 0x0; e 212 0x0; e 212 0x0; e 212 0x0; e 212 0x0;
  e 212 0x0; e 212 0x0; e 212 0x0; e 212 0x0; e 212 0x0; e 212 0x0; e 212 0x0; e 212 0x0
].

Definition page_52 : list unichar := [
  e 10 0x0; e 10 0x0; e 10 0x0; e 10 0x0; e 10 0x0; e 10 0x0; e 10 0x0; e 10 0x0;
  e 10 0x0; e 10 0x0; e 10 0x0; e 10 0x0; e 10 0x0; e 10 0x0; e 10 0x0; e 10 0x0;
  e 10 0x0; e 10 0x0; e 10 0x0; e 10 0x0; e 10 0x0; e 10 0x0; e 10 0x0; e 10 0x0;
  e 10 0x0; e 10 0x0; e 10 0x0; e 10 0x0; e 10 0x0; e 10 0x0; e 10 0x0; e 10 0x0;
  e 10 0x0; e 10 0x0; e 10 0x0; e 10 0x0; e 10 0x0; e 10 0x0; e 10 0x0; e 10 0x0;
  e 10 0x0; e 10 0x0; e 10 0x0; e 10 0x0; e 10 0x0; e 10 0x0; e 10 0x0; e 10 0x0;
  e 10 0x0; e 10 0x0; e 10 0x0; e 10 0x0; e 10 0x0; e 10 0x0; e 10 0x0; e 10 0x0;
  e 10 0x0; e 10 0x0; e 10 0x0; e 10 0x0; e 10 0x0; e 10 0x0; e 10 0x0; e 10 0x0;
  e 10 0x0; e 10 0x0; e 10 0x0; e 10 0x0; e 10 0x0; e 10 0x0; e 10 0x0; e 10 0x0;
  e 10 0x0; e 10 0x0; e 10 0x0; e 10 0x0; e 10 0x0; e 10 0x0; e 10 0x0; e 10 0x0;
  e 10 0x0; e 10 0x0; e 10 0x0; e 10 0x0; e 10 0x0; e 10 0x0; e 10 0x0; e 10 0x0;
  e 10 0x0; e 10 0x0; e 10 0x0; e 10 0x0; e 10 0x0; e 10 0x0; e 10 0x0; e 10 0x0;
  e 10 0x0; e 10 0x0; e 10 0x0; e 10 0x0; e 10 0x0; e 10 0x0; e 10 0x0; e 10 0x0;
  e 10 0x0; e 10 0x0; e 10 0x0; e 10 0x0; e 10 0x0; e 10 0x0; e 10 0x0; e 10 0x0;
  e 10 0x0; e 10 0x0; e 10 0x0; e 10 0x0; e 10 0x0; e 10 0x0; e 10 0x0; e 10 0x0;
  e 10 0x0; e 10 0x0; e 10 0x0; e 10 0x0; e 10 0x0; e 10 0x0; e 10 0x0; e 10 0x0;
  e 10 0x0; e 10 0x0; e 10 0x0; e 10 0x0; e 10 0x0; e 10 0x0; e 10 0x0; e 10 0x0;
  e 10 0x0; e 10 0x0; e 10 0x0; e 10 0x0; e 10 0x0; e 10 0x0; e 10 0x0; e 10 0x0;
  e 10 0x0; e 10 0x0; e 10 0x0; e 10 0x0; e 10 0x0; e 10 0x0; e 10 0x0; e 10 0x0;
  e 10 0x0; e 10 0x0; e 10 0x0; e 10 0x0; e 10 0x0; e 10 0x0; e 10 0x0; e 10 0x0;
  e 10 0x0; e 10 0x0; e 10 0x0; e 10 0x0; e 10 0x0; e 10 0x0; e 10 0x0; e 10 0x0;
  e 10 0x0; e 10 0x0; e 10 0x0; e 10 0x0; e 10 0x0; e 10 0x0; e 10 0x0; e 10 0x0;
  e 10 0x0; e 10 0x0; e 10 0x0; e 10 0x0; e 10 0x0; e 10 0x0; e 10 0x0; e 10 0x0;
  e 10 0x0; e 10 0x0; e 10 0x0; e 10 0x0; e 10 0x0; e 10 0x0; e 10 0x0; e 10 0x0;
  e 10 0x0; e 10 0x0; e 10 0x0; e 10 0x0; e 10 0x0; e 10 0x0; e 10 0x0; e 10 0x0;
  e 10 0x0; e 10 0x0; e 10 0x0; e 10 0x0; e 10 0x0; e 255 0x0; e 255 0x0; e 255 0x0;
  e 255 0x0; e 255 0x0; e 255 0x0; e 255 0x0; e 255 0x0; e 255 0x0; e 255 0x0; e 255 0x0;
  e 255 0x0; e 255 0x0; e 255 0x0; e 255 0x0; e 255 0x0; e 255 0x0; e 255 0x0; e 255 0x0;
  e 255 0x0; e 255 0x0; e 255 0x0; e 255 0x0; e 255 0x0; e 255 0x0; e 255 0x0; e 255 0x0;
  e 255 0x0; e 255 0x0; e 255 0x0; e 255 0x0; e 255 0x0; e 255 0x0; e 255 0x0; e 255 0x0;
  e 255 0x0; e 255 0x0; e 255 0x0; e 255 0x0; e 255 0x0; e 255 0x0; e 255 0x0; e 255 0x0;
  e 255 0x0; e 255 0x0; e 255 0x0; e 255 0x0; e 255 0x0; e 255 0x0; e 255 0x0; e 255 0x0
].

Definition page_53 : list unichar := [
  e 10 0x0; e 10 0x0; e 10 0x0; e 10 0x0; e 10 0x0; e 10 0x0; e 10 0x0; e 10 0x0;
  e 10 0x0; e 10 0x0; e 10 0x0; e 10 0x0; e 10 0x0; e 10 0x0; e 10 0x0; e 10 0x0;
  e 10 0x0; e 10 0x0; e 10 0x0; e 10 0x0; e 10 0x0; e 6 0x0; e 10 0x0; e 10 0x0;
  e 10 0x0; e 10 0x0; e 10 0x0; e 10 0x0; e 10 0x0; e 10 0x0; e 10 0x0; e 10 0x0;
  e 10 0x0; e 10 0x0; e 10 0x0; e 10 0x0; e 10 0x0; e 10 0x0; e 10 0x0; e 10 0x0;
  e 10 0x0; e 10 0x0; e 10 0x0; e 10 0x0; e 10 0x0; e 10 0x0; e 10 0x0; e 10 0x0;
  e 10 0x0; e 10 0x0; e 10 0x0; e 10 0x0; e 10 0x0; e 10 0x0; e 10 0x0; e 10 0x0;
  e 10 0x0; e 10 0x0; e 10 0x0; e 10 0x0; e 10 0x0; e 10 0x0; e 10 0x0; e 10 0x0;
  e 10 0x0; e 10 0x0; e 10 0x0; e 10 0x0; e 10 0x0; e 10 0x0; e 10 0x0; e 10 0x0;
  e 10 0x0; e 10 0x0; e 10 0x0; e 10 0x0; e 10 0x0; e 10 0x0; e 10 0x0; e 10 0x0;
  e 10 0x0; e 10 0x0; e 10 0x0; e 10 0x0; e 10 0x0; e 10 0x0; e 10 0x0; e 10 0x0;
  e 10 0x0; e 10 0x0; e 10 0x0; e 10 0x0; e 10 0x0; e 10 0x0; e 10 0x0; e 10 0x0;
  e 10 0x0; e 10 0x0; e 10 0x0; e 10 0x0; e 10 0x0; e 10 0x0; e 10 0x0; e 10 0x0;
  e 10 0x0; e 10 0x0; e 10 0x0; e 10 0x0; e 10 0x0; e 10 0x0; e 10 0x0; e 10 0x0;
  e 10 0x0; e 10 0x0; e 10 0x0; e 10 0x0; e 10 0x0; e 10 0x0; e 10 0x0; e 10 0x0;
  e 10 0x0; e 10 0x0; e 10 0x0; e 10 0x0; e 10 0x0; e 10 0x0; e 10 0x0; e 10 0x0;
  e 10 0x0; e 10 0x0; e 10 0x0; e 10 0x0; e 10 0x0; e 10 0x0; e 10 0x0; e 10 0x0;
  e 10 0x0; e 10 0x0; e 10 0x0; e 10 0x0; e 10 0x0; e 10 0x0; e 10 0x0; e 10 0x0;
  e 10 0x0; e 10 0x0; e 10 0x0; e 10 0x0; e 10 0x0; e 10 0x0; e 10 0x0; e 10 0x0;
  e 10 0x0; e 10 0x0; e 10 0x0; e 10 0x0; e 10 0x0; e 10 0x0; e 10 0x0; e 10 0x0;
  e 10 0x0; e 10 0x0; e 10 0x0; e 10 0x0; e 10 0x0; e 10 0x0; e 10 0x0; e 10 0x0;
  e 10 0x0; e 10 0x0; e 10 0x0; e 10 0x0; e 10 0x0; e 10 0x0; e 10 0x0; e 10 0x0;
  e 10 0x0; e 10 0x0; e 10 0x0; e 10 0x0; e 10 0x0; e 10 0x0; e 10 0x0; e 10 0x0;
  e 10 0x0; e 10 0x0; e 10 0x0; e 10 0x0; e 10 0x0; e 10 0x0; e 10 0x0; e 10 0x0;
  e 10 0x0; e 10 0x0; e 10 0x0; e 10 0x0; e 10 0x0; e 10 0x0; e 10 0x0; e 10 0x0;
  e 10 0x0; e 10 0x0; e 10 0x0; e 10 0x0; e 10 0x0; e 10 0x0; e 10 0x0; e 10 0x0;
  e 10 0x0; e 10 0x0; e 10 0x0; e 10 0x0; e 10 0x0; e 10 0x0; e 10 0x0; e 10 0x0;
  e 10 0x0; e 10 0x0; e 10 0x0; e 10 0x0; e 10 0x0; e 10 0x0; e 10 0x0; e 10 0x0;
  e 10 0x0; e 10 0x0; e 10 0x0; e 10 0x0; e 10 0x0; e 10 0x0; e 10 0x0; e 10 0x0;
  e 10 0x0; e 10 0x0; e 10 0x0; e 10 0x0; e 10 0x0; e 10 0x0; e 10 0x0; e 10 0x0;
  e 10 0x0; e 10 0x0; e 10 0x0; e 10 0x0; e 10 0x0; e 10 0x0; e 10 0x0; e 10 0x0;
  e 10 0x0; e 10 0x0; e 10 0x0; e 10 0x0; e 10 0x0; e 10 0x0; e 10 0x0; e 10 0x0
].

Definition page_54 : list unichar := [
  e 10 0x0; e 10 0x0; e 10 0x0; e 10 0x0; e 10 0x0; e 10 0x0; e 10 0x0; e 10 0x0;
  e 10 0x0; e 10 0x0; e 10 0x0; e 10 0x0; e 10 0x0; e 10 0x0; e 10 0x0; e 10 0x0;
  e 10 0x0; e 10 0x0; e 10 0x0; e 10 0x0; e 10 0x0; e 10 0x0; e 10 0x0; e 10 0x0;
  e 10 0x0; e 10 0x0; e 10 0x0; e 10 0x0; e 10 0x0; e 10 0x0; e 10 0x0; e 10 0x0;
  e 10 0x0; e 10 0x0; e 10 0x0; e 10 0x0; e 10 0x0; e 10 0x0; e 10 0x0; e 10 0x0;
  e 10 0x0; e 10 0x0; e 10 0x0; e 10 0x0; e 10 0x0; e 10 0x0; e 10 0x0; e 10 0x0;
  e 10 0x0; e 10 0x0; e 10 0x0; e 10 0x0; e 10 0x0; e 10 0x0; e 10 0x0; e 10 0x0;
  e 10 0x0; e 10 0x0; e 10 0x0; e 10 0x0; e 10 0x0; e 10 0x0; e 10 0x0; e 10 0x0;
  e 10 0x0; e 10 0x0; e 10 0x0; e 10 0x0; e 10 0x0; e 10 0x0; e 10 0x0; e 10 0x0;
  e 10 0x0; e 10 0x0; e 10 0x0; e 10 0x0; e 10 0x0; e 10 0x0; e 10 0x0; e 10 0x0;
  e 10 0x0; e 10 0x0; e 10 0x0; e 10 0x0; e 10 0x0; e 10 0x0; e 10 0x0; e 10 0x0;
  e 10 0x0; e 10 0x0; e 10 0x0; e 10 0x0; e 10 0x0; e 10 0x0; e 10 0x0; e 10 0x0;
  e 10 0x0; e 10 0x0; e 10 0x0; e 10 0x0; e 10 0x0; e 10 0x0; e 10 0x0; e 10 0x0;
  e 10 0x0; e 10 0x0; e 10 0x0; e 10 0x0; e 10 0x0; e 10 0x0; e 10 0x0; e 10 0x0;
  e 10 0x0; e 10 0x0; e 10 0x0; e 10 0x0; e 10 0x0; e 10 0x0; e 10 0x0; e 10 0x0;
  e 10 0x0; e 10 0x0; e 10 0x0; e 10 0x0; e 10 0x0; e 10 0x0; e 10 0x0; e 10 0x0;
  e 10 0x0; e 10 0x0; e 10 0x0; e 10 0x0; e 10 0x0; e 10 0x0; e 10 0x0; e 10 0x0;
  e 10 0x0; e 10 0x0; e 10 0x0; e 10 0x0; e 10 0x0; e 255 0x0; e 255 0x0; e 255 0x0;
  e 212 0x0; e 212 0x0; e 212 0x0; e 212 0x0; e 212 0x0; e 212 0x0; e 212 0x0; e 212 0x0;
  e 212 0x0; e 212 0x0; e 212 0x0; e 212 0x0; e 212 0x0; e 212 0x0; e 212 0x0; e 212 0x0;
  e 212 0x0; e 212 0x0; e 212 0x0; e 212 0x0; e 212 0x0; e 212 0x0; e 212 0x0; e 212 0x0;
  e 212 0x0; e 212 0x0; e 212 0x0; e 212 0x0; e 212 0x0; e 212 0x0; e 212 0x0; e 212 0x0;
  e 212 0x0; e 212 0x0; e 212 0x0; e 212 0x0; e 212 0x0; e 212 0x0; e 212 0x0; e 212 0x0;
  e 212 0x0; e 212 0x0; e 212 0x0; e 212 0x0; e 212 0x0; e 212 0x0; e 212 0x0; e 212 0x0;
  e 212 0x0; e 212 0x0; e 212 0x0; e 212 0x0; e 212 0x0; e 212 0x0; e 212 0x0; e 255 0x0;
  e 255 0x0; e 255 0x0; e 255 0x0; e 255 0x0; e 255 0x0; e 255 0x0; e 255 0x0; e 255 0x0;
  e 10 0x0; e 10 0x0; e 10 0x0; e 10 0x0; e 10 0x0; e 10 0x0; e 10 0x0; e 10 0x0;
  e 10 0x0; e 10 0x0; e 10 0x0; e 10 0x0; e 10 0x0; e 10 0x0; e 10 0x0; e 10 0x0;
  e 10 0x0; e 10 0x0; e 10 0x0; e 10 0x0; e 10 0x0; e 10 0x0; e 10 0x0; e 10 0x0;
  e 10 0x0; e 10 0x0; e 10 0x0; e 10 0x0; e 10 0x0; e 10 0x0; e 10 0x0; e 10 0x0;
  e 10 0x0; e 10 0x0; e 10 0x0; e 10 0x0; e 10 0x0; e 10 0x0; e 10 0x0; e 10 0x0;
  e 6 0x0; e 6 0x0; e 6 0x0; e 6 0x0; e 6 0x0; e 6 0x0; e 192 0x0; e 192 0x0
].

Definition page_55 : list unichar := [
  e 10 0x0; e 10 0x0; e 10 0x0; e 10 0x0; e 10 0x0; e 10 0x0; e 10 0x0; e 10 0x0;
  e 10 0x0; e 10 0x0; e 10 0x0; e 10 0x0; e 6 0x0; e 193 0x0; e 193 0x0; e 193 0x0;
  e 10 0x0; e 10 0x0; e 10 0x0; e 10 0x0; e 10 0x0; e 10 0x0; e 10 0x0; e 10 0x0;
  e 10 0x0; e 10 0x0; e 10 0x0; e 10 0x0; e 10 0x0; e 10 0x0; e 10 0x0; e 10 0x0;
  e 109 0x0; e 110 0x0; e 111 0x0; e 112 0x0; e 113 0x0; e 114 0x0; e 115 0x0; e 116 0x0;
  e 117 0x0; e 118 0x0; e 10 0x0; e 10 0x0; e 255 0x0; e 255 0x0; e 255 0x0; e 255 0x0;
  e 255 0x0; e 255 0x0; e 255 0x0; e 255 0x0; e 255 0x0; e 255 0x0; e 255 0x0; e 255 0x0;
  e 255 0x0; e 255 0x0; e 255 0x0; e 255 0x0; e 255 0x0; e 255 0x0; e 255 0x0; e 255 0x0;
  e 0 0xA641; e 1 0xA640; e 0 0xA643; e 1 0xA642; e 0 0xA645; e 1 0xA644; e 0 0xA647; e 1 0xA646;
  e 0 0xA649; e 1 0xA648; e 0 0xA64B; e 1 0xA64A; e 0 0xA64D; e 1 0xA64C; e 0 0xA64F; e 1 0xA64E;
  e 0 0xA651; e 1 0xA650; e 0 0xA653; e 1 0xA652; e 0 0xA655; e 1 0xA654; e 0 0xA657; e 1 0xA656;
  e 0 0xA659; e 1 0xA658; e 0 0xA65B; e 1 0xA65A; e 0 0xA65D; e 1 0xA65C; e 0 0xA65F; e 1 0xA65E;
  e 0 0xA661; e 1 0xA660; e 0 0xA663; e 1 0xA662; e 0 0xA665; e 1 0xA664; e 0 0xA667; e 1 0xA666;
  e 0 0xA669; e 1 0xA668; e 0 0xA66B; e 1 0xA66A; e 0 0xA66D; e 1 0xA66C; e 10 0x0; e 84 0x0;
  e 34 0x0; e 34 0x0; e 34 0x0; e 193 0x0; e 84 0x0; e 84 0x0; e 84 0x0; e 84 0x0;
  e 84 0x0; e 84 0x0; e 84 0x0; e 84 0x0; e 84 0x0; e 84 0x0; e 193 0x0; e 7 0x0;
  e 0 0xA681; e 1 0xA680; e 0 0xA683; e 1 0xA682; e 0 0xA685; e 1 0xA684; e 0 0xA687; e 1 0xA686;
  e 0 0xA689; e 1 0xA688; e 0 0xA68B; e 1 0xA68A; e 0 0xA68D; e 1 0xA68C; e 0 0xA68F; e 1 0xA68E;
  e 0 0xA691; e 1 0xA690; e 0 0xA693; e 1 0xA692; e 0 0xA695; e 1 0xA694; e 0 0xA697; e 1 0xA696;
  e 255 0x0; e 255 0x0; e 255 0x0; e 255 0x0; e 255 0x0; e 255 0x0; e 255 0x0; e 84 0x0;
  e 10 0x0; e 10 0x0; e 10 0x0; e 10 0x0; e 10 0x0; e 10 0x0; e 10 0x0; e 10 0x0;
  e 10 0x0; e 10 0x0; e 10 0x0; e 10 0x0; e 10 0x0; e 10 0x0; e 10 0x0; e 10 0x0;
  e 10 0x0; e 10 0x0; e 10 0x0; e 10 0x0; e 10 0x0; e 10 0x0; e 10 0x0; e 10 0x0;
  e 10 0x0; e 10 0x0; e 10 0x0; e 10 0x0; e 10 0x0; e 10 0x0; e 10 0x0; e 10 0x0;
  e 10 0x0; e 10 0x0; e 10 0x0; e 10 0x0; e 10 0x0; e 10 0x0; e 10 0x0; e 10 0x0;
  e 10 0x0; e 10 0x0; e 10 0x0; e 10 0x0; e 10 0x0; e 10 0x0; e 10 0x0; e 10 0x0;
  e 10 0x0; e 10 0x0; e 10 0x0; e 10 0x0; e 10 0x0; e 10 0x0; e 10 0x0; e 10 0x0;
  e 10 0x0; e 10 0x0; e 10 0x0; e 10 0x0; e 10 0x0; e 10 0x0; e 10 0x0; e 10 0x0;
  e 10 0x0; e 10 0x0; e 10 0x0; e 10 0x0; e 10 0x0; e 10 0x0; e 129 0x0; e 129 0x0;
  e 129 0x0; e 129 0x0; e 129 0x0; e 129 0x0; e 129 0x0; e 129 0x0; e 129 0x0; e 129 0x0;
  e 84 0x0; e 84 0x0; e 192 0x0; e 192 0x0; e 192 0x0; e 192 0x0; e 192 0x0; e 192 0x0;
  e 255 0x0; e 255 0x0; e 255 0x0; e 255 0x0; e 255 0x0; e 255 0x0; e 255 0x0; e 255 0x0
].

Definition page_56 : list unichar := [
  e 201 0x0; e 201 0x0; e 201 0x0; e 201 0x0; e 201 0x0; e 201 0x0; e 201 0x0; e 201 0x0;
  e 201 0x0; e 201 0x0; e 201 0x0; e 201 0x0; e 201 0x0; e 201 0x0; e 201 0x0; e 201 0x0;
  e 201 0x0; e 201 0x0; e 201 0x0; e 201 0x0; e 201 0x0; e 201 0x0; e 201 0x0; e 7 0x0;
  e 7 0x0; e 7 0x0; e 7 0x0; e 7 0x0; e 7 0x0; e 7 0x0; e 7 0x0; e 7 0x0;
  e 201 0x0; e 201 0x0; e 0 0xA723; e 1 0xA722; e 0 0xA725; e 1 0xA724; e 0 0xA727; e 1 0xA726;
  e 0 0xA729; e 1 0xA728; e 0 0xA72B; e 1 0xA72A; e 0 0xA72D; e 1 0xA72C; e 0 0xA72F; e 1 0xA72E;
  e 3 0x0; e 3 0x0; e 0 0xA733; e 1 0xA732; e 0 0xA735; e 1 0xA734; e 0 0xA737; e 1 0xA736;
  e 0 0xA739; e 1 0xA738; e 0 0xA73B; e 1 0xA73A; e 0 0xA73D; e 1 0xA73C; e 0 0xA73F; e 1 0xA73E;
  e 0 0xA741; e 1 0xA740; e 0 0xA743; e 1 0xA742; e 0 0xA745; e 1 0xA744; e 0 0xA747; e 1 0xA746;
  e 0 0xA749; e 1 0xA748; e 0 0xA74B; e 1 0xA74A; e 0 0xA74D; e 1 0xA74C; e 0 0xA74F; e 1 0xA74E;
  e 0 0xA751; e 1 0xA750; e 0 0xA753; e 1 0xA752; e 0 0xA755; e 1 0xA754; e 0 0xA757; e 1 0xA756;
  e 0 0xA759; e 1 0xA758; e 0 0xA75B; e 1 0xA75A; e 0 0xA75D; e 1 0xA75C; e 0 0xA75F; e 1 0xA75E;
  e 0 0xA761; e 1 0xA760; e 0 0xA763; e 1 0xA762; e 0 0xA765; e 1 0xA764; e 0 0xA767; e 1 0xA766;
  e 0 0xA769; e 1 0xA768; e 0 0xA76B; e 1 0xA76A; e 0 0xA76D; e 1 0xA76C; e 0 0xA76F; e 1 0xA76E;
  e 6 0x0; e 3 0x0; e 3 0x0; e 3 0x0; e 3 0x0; e 3 0x0; e 3 0x0; e 3 0x0;
  e 3 0x0; e 0 0xA77A; e 1 0xA779; e 0 0xA77C; e 1 0xA77B; e 0 0x1D79; e 0 0xA77F; e 1 0xA77E;
  e 0 0xA781; e 1 0xA780; e 0 0xA783; e 1 0xA782; e 0 0xA785; e 1 0xA784; e 0 0xA787; e 1 0xA786;
  e 7 0x0; e 200 0x0; e 200 0x0; e 0 0xA78C; e 1 0xA78B; e 0 0x265; e 3 0x0; e 255 0x0;
  e 0 0xA791; e 1 0xA790; e 0 0xA793; e 1 0xA792; e 255 0x0; e 255 0x0; e 255 0x0; e 255 0x0;
  e 255 0x0; e 255 0x0; e 255 0x0; e 255 0x0; e 255 0x0; e 255 0x0; e 255 0x0; e 255 0x0;
  e 0 0xA7A1; e 1 0xA7A0; e 0 0xA7A3; e 1 0xA7A2; e 0 0xA7A5; e 1 0xA7A4; e 0 0xA7A7; e 1 0xA7A6;
  e 0 0xA7A9; e 1 0xA7A8; e 0 0x266; e 255 0x0; e 255 0x0; e 255 0x0; e 255 0x0; e 255 0x0;
  e 255 0x0; e 255 0x0; e 255 0x0; e 255 0x0; e 255 0x0; e 255 0x0; e 255 0x0; e 255 0x0;
  e 255 0x0; e 255 0x0; e 255 0x0; e 255 0x0; e 255 0x0; e 255 0x0; e 255 0x0; e 255 0x0;
  e 255 0x0; e 255 0x0; e 255 0x0; e 255 0x0; e 255 0x0; e 255 0x0; e 255 0x0; e 255 0x0;
  e 255 0x0; e 255 0x0; e 255 0x0; e 255 0x0; e 255 0x0; e 255 0x0; e 255 0x0; e 255 0x0;
  e 255 0x0; e 255 0x0; e 255 0x0; e 255 0x0; e 255 0x0; e 255 0x0; e 255 0x0; e 255 0x0;
  e 255 0x0; e 255 0x0; e 255 0x0; e 255 0x0; e 255 0x0; e 255 0x0; e 255 0x0; e 255 0x0;
  e 255 0x0; e 255 0x0; e 255 0x0; e 255 0x0; e 255 0x0; e 255 0x0; e 255 0x0; e 255 0x0;
  e 255 0x0; e 255 0x0; e 255 0x0; e 255 0x0; e 255 0x0; e 255 0x0; e 255 0x0; e 255 0x0;
  e 255 0x0; e 255 0x0; e 255 0x0; e 255 0x0; e 255 0x0; e 255 0x0; e 255 0x0; e 255 0x0;
  e 6 0x0; e 6 0x0; e 3 0x0; e 10 0x0; e 10 0x0; e 10 0x0; e 10 0x0; e 10 0x0
].

Definition page_57 : list unichar := [
  e 10 0x0; e 10 0x0; e 36 0x0; e 10 0x0; e 10 0x0; e 10 0x0; e 40 0x0; e 10 0x0;
  e 10 0x0; e 10 0x0; e 10 0x0; e 36 0x0; e 10 0x0; e 10 0x0; e 10 0x0; e 10 0x0;
  e 10 0x0; e 10 0x0; e 10 0x0; e 10 0x0; e 10 0x0; e 10 0x0; e 10 0x0; e 10 0x0;
  e 10 0x0; e 10 0x0; e 10 0x0; e 10 0x0; e 10 0x0; e 10 0x0; e 10 0x0; e 10 0x0;
  e 10 0x0; e 10 0x0; e 10 0x0; e 29 0x0; e 29 0x0; e 36 0x0; e 36 0x0; e 29 0x0;
  e 212 0x0; e 212 0x0; e 212 0x0; e 212 0x0; e 255 0x0; e 255 0x0; e 255 0x0; e 255 0x0;
  e 152 0x0; e 152 0x0; e 152 0x0; e 152 0x0; e 152 0x0; e 152 0x0; e 211 0x0; e 211 0x0;
  e 198 0x0; e 210 0x0; e 255 0x0; e 255 0x0; e 255 0x0; e 255 0x0; e 255 0x0; e 255 0x0;
  e 10 0x0; e 10 0x0; e 10 0x0; e 10 0x0; e 10 0x0; e 10 0x0; e 10 0x0; e 10 0x0;
  e 10 0x0; e 10 0x0; e 10 0x0; e 10 0x0; e 10 0x0; e 10 0x0; e 10 0x0; e 10 0x0;
  e 10 0x0; e 10 0x0; e 10 0x0; e 10 0x0; e 10 0x0; e 10 0x0; e 10 0x0; e 10 0x0;
  e 10 0x0; e 10 0x0; e 10 0x0; e 10 0x0; e 10 0x0; e 10 0x0; e 10 0x0; e 10 0x0;
  e 10 0x0; e 10 0x0; e 10 0x0; e 10 0x0; e 10 0x0; e 10 0x0; e 10 0x0; e 10 0x0;
  e 10 0x0; e 10 0x0; e 10 0x0; e 10 0x0; e 10 0x0; e 10 0x0; e 10 0x0; e 10 0x0;
  e 10 0x0; e 10 0x0; e 10 0x0; e 10 0x0; e 193 0x0; e 193 0x0; e 193 0x0; e 193 0x0;
  e 255 0x0; e 255 0x0; e 255 0x0; e 255 0x0; e 255 0x0; e 255 0x0; e 255 0x0; e 255 0x0;
  e 29 0x0; e 29 0x0; e 10 0x0; e 10 0x0; e 10 0x0; e 10 0x0; e 10 0x0; e 10 0x0;
  e 10 0x0; e 10 0x0; e 10 0x0; e 10 0x0; e 10 0x0; e 10 0x0; e 10 0x0; e 10 0x0;
  e 10 0x0; e 10 0x0; e 10 0x0; e 10 0x0; e 10 0x0; e 10 0x0; e 10 0x0; e 10 0x0;
  e 10 0x0; e 10 0x0; e 10 0x0; e 10 0x0; e 10 0x0; e 10 0x0; e 10 0x0; e 10 0x0;
  e 10 0x0; e 10 0x0; e 10 0x0; e 10 0x0; e 10 0x0; e 10 0x0; e 10 0x0; e 10 0x0;
  e 10 0x0; e 10 0x0; e 10 0x0; e 10 0x0; e 10 0x0; e 10 0x0; e 10 0x0; e 10 0x0;
  e 10 0x0; e 10 0x0; e 10 0x0; e 10 0x0; e 29 0x0; e 29 0x0; e 29 0x0; e 29 0x0;
  e 29 0x0; e 29 0x0; e 29 0x0; e 29 0x0; e 29 0x0; e 29 0x0; e 29 0x0; e 29 0x0;
  e 29 0x0; e 29 0x0; e 29 0x0; e 29 0x0; e 40 0x0; e 255 0x0; e 255 0x0; e 255 0x0;
  e 255 0x0; e 255 0x0; e 255 0x0; e 255 0x0; e 255 0x0; e 255 0x0; e 192 0x0; e 192 0x0;
  e 109 0x0; e 110 0x0; e 111 0x0; e 112 0x0; e 113 0x0; e 114 0x0; e 115 0x0; e 116 0x0;
  e 117 0x0; e 118 0x0; e 255 0x0; e 255 0x0; e 255 0x0; e 255 0x0; e 255 0x0; e 255 0x0;
  e 84 0x0; e 84 0x0; e 84 0x0; e 84 0x0; e 84 0x0; e 84 0x0; e 84 0x0; e 84 0x0;
  e 84 0x0; e 84 0x0; e 84 0x0; e 84 0x0; e 84 0x0; e 84 0x0; e 84 0x0; e 84 0x0;
  e 84 0x0; e 84 0x0; e 10 0x0; e 10 0x0; e 10 0x0; e 10 0x0; e 10 0x0; e 10 0x0;
  e 192 0x0; e 192 0x0; e 192 0x0; e 10 0x0; e 255 0x0; e 255 0x0; e 255 0x0; e 255 0x0
].

Definition page_58 : list unichar := [
  e 109 0x0; e 110 0x0; e 111 0x0; e 112 0x0; e 113 0x0; e 114 0x0; e 115 0x0; e 116 0x0;
  e 117 0x0; e 118 0x0; e 10 0x0; e 10 0x0; e 10 0x0; e 10 0x0; e 10 0x0; e 10 0x0;
  e 10 0x0; e 10 0x0; e 10 0x0; e 10 0x0; e 10 0x0; e 10 0x0; e 10 0x0; e 10 0x0;
  e 10 0x0; e 10 0x0; e 10 0x0; e 10 0x0; e 10 0x0; e 10 0x0; e 10 0x0; e 10 0x0;
  e 10 0x0; e 10 0x0; e 10 0x0; e 10 0x0; e 10 0x0; e 10 0x0; e 36 0x0; e 36 0x0;
  e 36 0x0; e 36 0x0; e 36 0x0; e 81 0x0; e 81 0x0; e 81 0x0; e 192 0x0; e 192 0x0;
  e 10 0x0; e 10 0x0; e 10 0x0; e 10 0x0; e 10 0x0; e 10 0x0; e 10 0x0; e 10 0x0;
  e 10 0x0; e 10 0x0; e 10 0x0; e 10 0x0; e 10 0x0; e 10 0x0; e 10 0x0; e 10 0x0;
  e 10 0x0; e 10 0x0; e 10 0x0; e 10 0x0; e 10 0x0; e 10 0x0; e 10 0x0; e 36 0x0;
  e 36 0x0; e 36 0x0; e 36 0x0; e 36 0x0; e 36 0x0; e 36 0x0; e 36 0x0; e 36 0x0;
  e 36 0x0; e 36 0x0; e 29 0x0; e 30 0x0; e 255 0x0; e 255 0x0; e 255 0x0; e 255 0x0;
  e 255 0x0; e 255 0x0; e 255 0x0; e 255 0x0; e 255 0x0; e 255 0x0; e 255 0x0; e 192 0x0;
  e 10 0x0; e 10 0x0; e 10 0x0; e 10 0x0; e 10 0x0; e 10 0x0; e 10 0x0; e 10 0x0;
  e 10 0x0; e 10 0x0; e 10 0x0; e 10 0x0; e 10 0x0; e 10 0x0; e 10 0x0; e 10 0x0;
  e 10 0x0; e 10 0x0; e 10 0x0; e 10 0x0; e 10 0x0; e 10 0x0; e 10 0x0; e 10 0x0;
  e 10 0x0; e 10 0x0; e 10 0x0; e 10 0x0; e 10 0x0; e 255 0x0; e 255 0x0; e 255 0x0;
  e 36 0x0; e 36 0x0; e 36 0x0; e 29 0x0; e 10 0x0; e 10 0x0; e 10 0x0; e 10 0x0;
  e 10 0x0; e 10 0x0; e 10 0x0; e 10 0x0; e 10 0x0; e 10 0x0; e 10 0x0; e 10 0x0;
  e 10 0x0; e 10 0x0; e 10 0x0; e 10 0x0; e 10 0x0; e 10 0x0; e 10 0x0; e 10 0x0;
  e 10 0x0; e 10 0x0; e 10 0x0; e 10 0x0; e 10 0x0; e 10 0x0; e 10 0x0; e 10 0x0;
  e 10 0x0; e 10 0x0; e 10 0x0; e 10 0x0; e 10 0x0; e 10 0x0; e 10 0x0; e 10 0x0;
  e 10 0x0; e 10 0x0; e 10 0x0; e 10 0x0; e 10 0x0; e 10 0x0; e 10 0x0; e 10 0x0;
  e 10 0x0; e 10 0x0; e 10 0x0; e 38 0x0; e 29 0x0; e 29 0x0; e 36 0x0; e 36 0x0;
  e 36 0x0; e 36 0x0; e 29 0x0; e 29 0x0; e 36 0x0; e 29 0x0; e 29 0x0; e 29 0x0;
  e 30 0x0; e 192 0x0; e 192 0x0; e 192 0x0; e 192 0x0; e 192 0x0; e 192 0x0; e 192 0x0;
  e 192 0x0; e 192 0x0; e 192 0x0; e 192 0x0; e 192 0x0; e 192 0x0; e 255 0x0; e 6 0x0;
  e 109 0x0; e 110 0x0; e 111 0x0; e 112 0x0; e 113 0x0; e 114 0x0; e 115 0x0; e 116 0x0;
  e 117 0x0; e 118 0x0; e 255 0x0; e 255 0x0; e 255 0x0; e 255 0x0; e 192 0x0; e 192 0x0;
  e 255 0x0; e 255 0x0; e 255 0x0; e 255 0x0; e 255 0x0; e 255 0x0; e 255 0x0; e 255 0x0;
  e 255 0x0; e 255 0x0; e 255 0x0; e 255 0x0; e 255 0x0; e 255 0x0; e 255 0x0; e 255 0x0;
  e 255 0x0; e 255 0x0; e 255 0x0; e 255 0x0; e 255 0x0; e 255 0x0; e 255 0x0; e 255 0x0;
  e 255 0x0; e 255 0x0; e 255 0x0; e 255 0x0; e 255 0x0; e 255 0x0; e 255 0x0; e 255 0x0
].

Definition page_59 : list unichar := [
  e 10 0x0; e 10 0x0; e 10 0x0; e 10 0x0; e 10 0x0; e 10 0x0; e 10 0x0; e 10 0x0;
  e 10 0x0; e 10 0x0; e 10 0x0; e 10 0x0; e 10 0x0; e 10 0x0; e 10 0x0; e 10 0x0;
  e 10 0x0; e 10 0x0; e 10 0x0; e 10 0x0; e 10 0x0; e 10 0x0; e 10 0x0; e 10 0x0;
  e 10 0x0; e 10 0x0; e 10 0x0; e 10 0x0; e 10 0x0; e 10 0x0; e 10 0x0; e 10 0x0;
  e 10 0x0; e 10 0x0; e 10 0x0; e 10 0x0; e 10 0x0; e 10 0x0; e 10 0x0; e 10 0x0;
  e 10 0x0; e 36 0x0; e 36 0x0; e 36 0x0; e 36 0x0; e 36 0x0; e 36 0x0; e 29 0x0;
  e 29 0x0; e 36 0x0; e 36 0x0; e 29 0x0; e 29 0x0; e 36 0x0; e 36 0x0; e 255 0x0;
  e 255 0x0; e 255 0x0; e 255 0x0; e 255 0x0; e 255 0x0; e 255 0x0; e 255 0x0; e 255 0x0;
  e 10 0x0; e 10 0x0; e 10 0x0; e 36 0x0; e 10 0x0; e 10 0x0; e 10 0x0; e 10 0x0;
  e 10 0x0; e 10 0x0; e 10 0x0; e 10 0x0; e 36 0x0; e 29 0x0; e 255 0x0; e 255 0x0;
  e 109 0x0; e 110 0x0; e 111 0x0; e 112 0x0; e 113 0x0; e 114 0x0; e 115 0x0; e 116 0x0;
  e 117 0x0; e 118 0x0; e 255 0x0; e 255 0x0; e 192 0x0; e 192 0x0; e 192 0x0; e 192 0x0;
  e 10 0x0; e 10 0x0; e 10 0x0; e 10 0x0; e 10 0x0; e 10 0x0; e 10 0x0; e 10 0x0;
  e 10 0x0; e 10 0x0; e 10 0x0; e 10 0x0; e 10 0x0; e 10 0x0; e 10 0x0; e 10 0x0;
  e 6 0x0; e 10 0x0; e 10 0x0; e 10 0x0; e 10 0x0; e 10 0x0; e 10 0x0; e 211 0x0;
  e 211 0x0; e 211 0x0; e 10 0x0; e 29 0x0; e 255 0x0; e 255 0x0; e 255 0x0; e 255 0x0;
  e 10 0x0; e 10 0x0; e 10 0x0; e 10 0x0; e 10 0x0; e 10 0x0; e 10 0x0; e 10 0x0;
  e 10 0x0; e 10 0x0; e 10 0x0; e 10 0x0; e 10 0x0; e 10 0x0; e 10 0x0; e 10 0x0;
  e 10 0x0; e 10 0x0; e 10 0x0; e 10 0x0; e 10 0x0; e 10 0x0; e 10 0x0; e 10 0x0;
  e 10 0x0; e 10 0x0; e 10 0x0; e 10 0x0; e 10 0x0; e 10 0x0; e 10 0x0; e 10 0x0;
  e 10 0x0; e 10 0x0; e 10 0x0; e 10 0x0; e 10 0x0; e 10 0x0; e 10 0x0; e 10 0x0;
  e 10 0x0; e 10 0x0; e 10 0x0; e 10 0x0; e 10 0x0; e 10 0x0; e 10 0x0; e 10 0x0;
  e 84 0x0; e 10 0x0; e 84 0x0; e 84 0x0; e 81 0x0; e 10 0x0; e 10 0x0; e 84 0x0;
  e 84 0x0; e 10 0x0; e 10 0x0; e 10 0x0; e 10 0x0; e 10 0x0; e 84 0x0; e 84 0x0;
  e 10 0x0; e 84 0x0; e 10 0x0; e 255 0x0; e 255 0x0; e 255 0x0; e 255 0x0; e 255 0x0;
  e 255 0x0; e 255 0x0; e 255 0x0; e 255 0x0; e 255 0x0; e 255 0x0; e 255 0x0; e 255 0x0;
  e 255 0x0; e 255 0x0; e 255 0x0; e 255 0x0; e 255 0x0; e 255 0x0; e 255 0x0; e 255 0x0;
  e 255 0x0; e 255 0x0; e 255 0x0; e 10 0x0; e 10 0x0; e 6 0x0; e 192 0x0; e 192 0x0;
  e 10 0x0; e 10 0x0; e 10 0x0; e 10 0x0; e 10 0x0; e 10 0x0; e 10 0x0; e 10 0x0;
  e 10 0x0; e 10 0x0; e 10 0x0; e 29 0x0; e 36 0x0; e 36 0x0; e 29 0x0; e 29 0x0;
  e 192 0x0; e 192 0x0; e 10 0x0; e 6 0x0; e 6 0x0; e 29 0x0; e 40 0x0; e 255 0x0;
  e 255 0x0; e 255 0x0; e 255 0x0; e 255 0x0; e 255 0x0; e 255 0x0; e 255 0x0; e 255 0x0
].

Definition page_60 : list unichar := [
  e 255 0x0; e 10 0x0; e 10 0x0; e 10 0x0; e 10 0x0; e 10 0x0; e 10 0x0; e 255 0x0;
  e 255 0x0; e 10 0x0; e 10 0x0; e 10 0x0; e 10 0x0; e 10 0x0; e 10 0x0; e 255 0x0;
  e 255 0x0; e 10 0x0; e 10 0x0; e 10 0x0; e 10 0x0; e 10 0x0; e 10 0x0; e 255 0x0;
  e 255 0x0; e 255 0x0; e 255 0x0; e 255 0x0; e 255 0x0; e 255 0x0; e 255 0x0; e 255 0x0;
  e 10 0x0; e 10 0x0; e 10 0x0; e 10 0x0; e 10 0x0; e 10 0x0; e 10 0x0; e 255 0x0;
  e 10 0x0; e 10 0x0; e 10 0x0; e 10 0x0; e 10 0x0; e 10 0x0; e 10 0x0; e 255 0x0;
  e 255 0x0; e 255 0x0; e 255 0x0; e 255 0x0; e 255 0x0; e 255 0x0; e 255 0x0; e 255 0x0;
  e 255 0x0; e 255 0x0; e 255 0x0; e 255 0x0; e 255 0x0; e 255 0x0; e 255 0x0; e 255 0x0;
  e 255 0x0; e 255 0x0; e 255 0x0; e 255 0x0; e 255 0x0; e 255 0x0; e 255 0x0; e 255 0x0;
  e 255 0x0; e 255 0x0; e 255 0x0; e 255 0x0; e 255 0x0; e 255 0x0; e 255 0x0; e 255 0x0;
  e 255 0x0; e 255 0x0; e 255 0x0; e 255 0x0; e 255 0x0; e 255 0x0; e 255 0x0; e 255 0x0;
  e 255 0x0; e 255 0x0; e 255 0x0; e 255 0x0; e 255 0x0; e 255 0x0; e 255 0x0; e 255 0x0;
  e 255 0x0; e 255 0x0; e 255 0x0; e 255 0x0; e 255 0x0; e 255 0x0; e 255 0x0; e 255 0x0;
  e 255 0x0; e 255 0x0; e 255 0x0; e 255 0x0; e 255 0x0; e 255 0x0; e 255 0x0; e 255 0x0;
  e 255 0x0; e 255 0x0; e 255 0x0; e 255 0x0; e 255 0x0; e 255 0x0; e 255 0x0; e 255 0x0;
  e 255 0x0; e 255 0x0; e 255 0x0; e 255 0x0; e 255 0x0; e 255 0x0; e 255 0x0; e 255 0x0;
  e 255 0x0; e 255 0x0; e 255 0x0; e 255 0x0; e 255 0x0; e 255 0x0; e 255 0x0; e 255 0x0;
  e 255 0x0; e 255 0x0; e 255 0x0; e 255 0x0; e 255 0x0; e 255 0x0; e 255 0x0; e 255 0x0;
  e 255 0x0; e 255 0x0; e 255 0x0; e 255 0x0; e 255 0x0; e 255 0x0; e 255 0x0; e 255 0x0;
  e 255 0x0; e 255 0x0; e 255 0x0; e 255 0x0; e 255 0x0; e 255 0x0; e 255 0x0; e 255 0x0;
  e 255 0x0; e 255 0x0; e 255 0x0; e 255 0x0; e 255 0x0; e 255 0x0; e 255 0x0; e 255 0x0;
  e 255 0x0; e 255 0x0; e 255 0x0; e 255 0x0; e 255 0x0; e 255 0x0; e 255 0x0; e 255 0x0;
  e 255 0x0; e 255 0x0; e 255 0x0; e 255 0x0; e 255 0x0; e 255 0x0; e 255 0x0; e 255 0x0;
  e 255 0x0; e 255 0x0; e 255 0x0; e 255 0x0; e 255 0x0; e 255 0x0; e 255 0x0; e 255 0x0;
  e 10 0x0; e 10 0x0; e 10 0x0; e 10 0x0; e 10 0x0; e 10 0x0; e 10 0x0; e 10 0x0;
  e 10 0x0; e 10 0x0; e 10 0x0; e 10 0x0; e 10 0x0; e 10 0x0; e 10 0x0; e 10 0x0;
  e 10 0x0; e 10 0x0; e 10 0x0; e 10 0x0; e 10 0x0; e 10 0x0; e 10 0x0; e 10 0x0;
  e 10 0x0; e 10 0x0; e 10 0x0; e 10 0x0; e 10 0x0; e 10 0x0; e 10 0x0; e 10 0x0;
  e 10 0x0; e 10 0x0; e 10 0x0; e 29 0x0; e 29 0x0; e 36 0x0; e 29 0x0; e 29 0x0;
  e 36 0x0; e 29 0x0; e 29 0x0; e 192 0x0; e 29 0x0; e 40 0x0; e 255 0x0; e 255 0x0;
  e 109 0x0; e 110 0x0; e 111 0x0; e 112 0x0; e 113 0x0; e 114 0x0; e 115 0x0; e 116 0x0;
  e 117 0x0; e 118 0x0; e 255 0x0; e 255 0x0; e 255 0x0; e 255 0x0; e 255 0x0; e 255 0x0
].

Definition page_61 : list unichar := [
  e 10 0x0; e 10 0x0; e 10 0x0; e 10 0x0; e 10 0x0; e 10 0x0; e 10 0x0; e 10 0x0;
  e 10 0x0; e 10 0x0; e 10 0x0; e 10 0x0; e 10 0x0; e 10 0x0; e 10 0x0; e 10 0x0;
  e 10 0x0; e 10 0x0; e 10 0x0; e 10 0x0; e 10 0x0; e 10 0x0; e 10 0x0; e 10 0x0;
  e 10 0x0; e 10 0x0; e 10 0x0; e 10 0x0; e 10 0x0; e 10 0x0; e 10 0x0; e 10 0x0;
  e 10 0x0; e 10 0x0; e 10 0x0; e 10 0x0; e 10 0x0; e 10 0x0; e 10 0x0; e 10 0x0;
  e 10 0x0; e 10 0x0; e 10 0x0; e 10 0x0; e 10 0x0; e 10 0x0; e 10 0x0; e 10 0x0;
  e 10 0x0; e 10 0x0; e 10 0x0; e 10 0x0; e 10 0x0; e 10 0x0; e 10 0x0; e 10 0x0;
  e 10 0x0; e 10 0x0; e 10 0x0; e 10 0x0; e 10 0x0; e 10 0x0; e 10 0x0; e 10 0x0;
  e 10 0x0; e 10 0x0; e 10 0x0; e 10 0x0; e 10 0x0; e 10 0x0; e 10 0x0; e 10 0x0;
  e 10 0x0; e 10 0x0; e 10 0x0; e 10 0x0; e 10 0x0; e 10 0x0; e 10 0x0; e 10 0x0;
  e 10 0x0; e 10 0x0; e 10 0x0; e 10 0x0; e 10 0x0; e 10 0x0; e 10 0x0; e 10 0x0;
  e 10 0x0; e 10 0x0; e 10 0x0; e 10 0x0; e 10 0x0; e 10 0x0; e 10 0x0; e 10 0x0;
  e 10 0x0; e 10 0x0; e 10 0x0; e 10 0x0; e 10 0x0; e 10 0x0; e 10 0x0; e 10 0x0;
  e 10 0x0; e 10 0x0; e 10 0x0; e 10 0x0; e 10 0x0; e 10 0x0; e 10 0x0; e 10 0x0;
  e 10 0x0; e 10 0x0; e 10 0x0; e 10 0x0; e 10 0x0; e 10 0x0; e 10 0x0; e 10 0x0;
  e 10 0x0; e 10 0x0; e 10 0x0; e 10 0x0; e 10 0x0; e 10 0x0; e 10 0x0; e 10 0x0;
  e 10 0x0; e 10 0x0; e 10 0x0; e 10 0x0; e 10 0x0; e 10 0x0; e 10 0x0; e 10 0x0;
  e 10 0x0; e 10 0x0; e 10 0x0; e 10 0x0; e 10 0x0; e 10 0x0; e 10 0x0; e 10 0x0;
  e 10 0x0; e 10 0x0; e 10 0x0; e 10 0x0; e 10 0x0; e 10 0x0; e 10 0x0; e 10 0x0;
  e 10 0x0; e 10 0x0; e 10 0x0; e 10 0x0; e 10 0x0; e 10 0x0; e 10 0x0; e 10 0x0;
  e 10 0x0; e 10 0x0; e 10 0x0; e 10 0x0; e 255 0x0; e 255 0x0; e 255 0x0; e 255 0x0;
  e 255 0x0; e 255 0x0; e 255 0x0; e 255 0x0; e 255 0x0; e 255 0x0; e 255 0x0; e 255 0x0;
  e 10 0x0; e 10 0x0; e 10 0x0; e 10 0x0; e 10 0x0; e 10 0x0; e 10 0x0; e 10 0x0;
  e 10 0x0; e 10 0x0; e 10 0x0; e 10 0x0; e 10 0x0; e 10 0x0; e 10 0x0; e 10 0x0;
  e 10 0x0; e 10 0x0; e 10 0x0; e 10 0x0; e 10 0x0; e 10 0x0; e 10 0x0; e 255 0x0;
  e 255 0x0; e 255 0x0; e 255 0x0; e 10 0x0; e 10 0x0; e 10 0x0; e 10 0x0; e 10 0x0;
  e 10 0x0; e 10 0x0; e 10 0x0; e 10 0x0; e 10 0x0; e 10 0x0; e 10 0x0; e 10 0x0;
  e 10 0x0; e 10 0x0; e 10 0x0; e 10 0x0; e 10 0x0; e 10 0x0; e 10 0x0; e 10 0x0;
  e 10 0x0; e 10 0x0; e 10 0x0; e 10 0x0; e 10 0x0; e 10 0x0; e 10 0x0; e 10 0x0;
  e 10 0x0; e 10 0x0; e 10 0x0; e 10 0x0; e 10 0x0; e 10 0x0; e 10 0x0; e 10 0x0;
  e 10 0x0; e 10 0x0; e 10 0x0; e 10 0x0; e 10 0x0; e 10 0x0; e 10 0x0; e 10 0x0;
  e 10 0x0; e 10 0x0; e 10 0x0; e 10 0x0; e 255 0x0; e 255 0x0; e 255 0x0; e 255 0x0
].

Definition page_62 : list unichar := [
  e 28 0x0; e 28 0x0; e 28 0x0; e 28 0x0; e 28 0x0; e 28 0x0; e 28 0x0; e 28 0x0;
  e 28 0x0; e 28 0x0; e 28 0x0; e 28 0x0; e 28 0x0; e 28 0x0; e 28 0x0; e 28 0x0;
  e 28 0x0; e 28 0x0; e 28 0x0; e 28 0x0; e 28 0x0; e 28 0x0; e 28 0x0; e 28 0x0;
  e 28 0x0; e 28 0x0; e 28 0x0; e 28 0x0; e 28 0x0; e 28 0x0; e 28 0x0; e 28 0x0;
  e 28 0x0; e 28 0x0; e 28 0x0; e 28 0x0; e 28 0x0; e 28 0x0; e 28 0x0; e 28 0x0;
  e 28 0x0; e 28 0x0; e 28 0x0; e 28 0x0; e 28 0x0; e 28 0x0; e 28 0x0; e 28 0x0;
  e 28 0x0; e 28 0x0; e 28 0x0; e 28 0x0; e 28 0x0; e 28 0x0; e 28 0x0; e 28 0x0;
  e 28 0x0; e 28 0x0; e 28 0x0; e 28 0x0; e 28 0x0; e 28 0x0; e 28 0x0; e 28 0x0;
  e 28 0x0; e 28 0x0; e 28 0x0; e 28 0x0; e 28 0x0; e 28 0x0; e 28 0x0; e 28 0x0;
  e 28 0x0; e 28 0x0; e 28 0x0; e 28 0x0; e 28 0x0; e 28 0x0; e 28 0x0; e 28 0x0;
  e 28 0x0; e 28 0x0; e 28 0x0; e 28 0x0; e 28 0x0; e 28 0x0; e 28 0x0; e 28 0x0;
  e 28 0x0; e 28 0x0; e 28 0x0; e 28 0x0; e 28 0x0; e 28 0x0; e 28 0x0; e 28 0x0;
  e 28 0x0; e 28 0x0; e 28 0x0; e 28 0x0; e 28 0x0; e 28 0x0; e 28 0x0; e 28 0x0;
  e 28 0x0; e 28 0x0; e 28 0x0; e 28 0x0; e 28 0x0; e 28 0x0; e 28 0x0; e 28 0x0;
  e 28 0x0; e 28 0x0; e 28 0x0; e 28 0x0; e 28 0x0; e 28 0x0; e 28 0x0; e 28 0x0;
  e 28 0x0; e 28 0x0; e 28 0x0; e 28 0x0; e 28 0x0; e 28 0x0; e 28 0x0; e 28 0x0;
  e 28 0x0; e 28 0x0; e 28 0x0; e 28 0x0; e 28 0x0; e 28 0x0; e 28 0x0; e 28 0x0;
  e 28 0x0; e 28 0x0; e 28 0x0; e 28 0x0; e 28 0x0; e 28 0x0; e 28 0x0; e 28 0x0;
  e 28 0x0; e 28 0x0; e 28 0x0; e 28 0x0; e 28 0x0; e 28 0x0; e 28 0x0; e 28 0x0;
  e 28 0x0; e 28 0x0; e 28 0x0; e 28 0x0; e 28 0x0; e 28 0x0; e 28 0x0; e 28 0x0;
  e 28 0x0; e 28 0x0; e 28 0x0; e 28 0x0; e 28 0x0; e 28 0x0; e 28 0x0; e 28 0x0;
  e 28 0x0; e 28 0x0; e 28 0x0; e 28 0x0; e 28 0x0; e 28 0x0; e 28 0x0; e 28 0x0;
  e 28 0x0; e 28 0x0; e 28 0x0; e 28 0x0; e 28 0x0; e 28 0x0; e 28 0x0; e 28 0x0;
  e 28 0x0; e 28 0x0; e 28 0x0; e 28 0x0; e 28 0x0; e 28 0x0; e 28 0x0; e 28 0x0;
  e 28 0x0; e 28 0x0; e 28 0x0; e 28 0x0; e 28 0x0; e 28 0x0; e 28 0x0; e 28 0x0;
  e 28 0x0; e 28 0x0; e 28 0x0; e 28 0x0; e 28 0x0; e 28 0x0; e 28 0x0; e 28 0x0;
  e 28 0x0; e 28 0x0; e 28 0x0; e 28 0x0; e 28 0x0; e 28 0x0; e 28 0x0; e 28 0x0;
  e 28 0x0; e 28 0x0; e 28 0x0; e 28 0x0; e 28 0x0; e 28 0x0; e 28 0x0; e 28 0x0;
  e 28 0x0; e 28 0x0; e 28 0x0; e 28 0x0; e 28 0x0; e 28 0x0; e 28 0x0; e 28 0x0;
  e 28 0x0; e 28 0x0; e 28 0x0; e 28 0x0; e 28 0x0; e 28 0x0; e 28 0x0; e 28 0x0;
  e 28 0x0; e 28 0x0; e 28 0x0; e 28 0x0; e 28 0x0; e 28 0x0; e 28 0x0; e 28 0x0;
  e 28 0x0; e 28 0x0; e 28 0x0; e 28 0x0; e 28 0x0; e 28 0x0; e 28 0x0; e 28 0x0
].

Definition page_63 : list unichar := [
  e 27 0x0; e 27 0x0; e 27 0x0; e 27 0x0; e 27 0x0; e 27 0x0; e 27 0x0; e 27 0x0;
  e 27 0x0; e 27 0x0; e 27 0x0; e 27 0x0; e 27 0x0; e 27 0x0; e 27 0x0; e 27 0x0;
  e 27 0x0; e 27 0x0; e 27 0x0; e 27 0x0; e 27 0x0; e 27 0x0; e 27 0x0; e 27 0x0;
  e 27 0x0; e 27 0x0; e 27 0x0; e 27 0x0; e 27 0x0; e 27 0x0; e 27 0x0; e 27 0x0;
  e 27 0x0; e 27 0x0; e 27 0x0; e 27 0x0; e 27 0x0; e 27 0x0; e 27 0x0; e 27 0x0;
  e 27 0x0; e 27 0x0; e 27 0x0; e 27 0x0; e 27 0x0; e 27 0x0; e 27 0x0; e 27 0x0;
  e 27 0x0; e 27 0x0; e 27 0x0; e 27 0x0; e 27 0x0; e 27 0x0; e 27 0x0; e 27 0x0;
  e 27 0x0; e 27 0x0; e 27 0x0; e 27 0x0; e 27 0x0; e 27 0x0; e 27 0x0; e 27 0x0;
  e 27 0x0; e 27 0x0; e 27 0x0; e 27 0x0; e 27 0x0; e 27 0x0; e 27 0x0; e 27 0x0;
  e 27 0x0; e 27 0x0; e 27 0x0; e 27 0x0; e 27 0x0; e 27 0x0; e 27 0x0; e 27 0x0;
  e 27 0x0; e 27 0x0; e 27 0x0; e 27 0x0; e 27 0x0; e 27 0x0; e 27 0x0; e 27 0x0;
  e 27 0x0; e 27 0x0; e 27 0x0; e 27 0x0; e 27 0x0; e 27 0x0; e 27 0x0; e 27 0x0;
  e 27 0x0; e 27 0x0; e 27 0x0; e 27 0x0; e 27 0x0; e 27 0x0; e 27 0x0; e 27 0x0;
  e 27 0x0; e 27 0x0; e 27 0x0; e 27 0x0; e 27 0x0; e 27 0x0; e 27 0x0; e 27 0x0;
  e 27 0x0; e 27 0x0; e 27 0x0; e 27 0x0; e 27 0x0; e 27 0x0; e 27 0x0; e 27 0x0;
  e 27 0x0; e 27 0x0; e 27 0x0; e 27 0x0; e 27 0x0; e 27 0x0; e 27 0x0; e 27 0x0;
  e 27 0x0; e 27 0x0; e 27 0x0; e 27 0x0; e 27 0x0; e 27 0x0; e 27 0x0; e 27 0x0;
  e 27 0x0; e 27 0x0; e 27 0x0; e 27 0x0; e 27 0x0; e 27 0x0; e 27 0x0; e 27 0x0;
  e 27 0x0; e 27 0x0; e 27 0x0; e 27 0x0; e 27 0x0; e 27 0x0; e 27 0x0; e 27 0x0;
  e 27 0x0; e 27 0x0; e 27 0x0; e 27 0x0; e 27 0x0; e 27 0x0; e 27 0x0; e 27 0x0;
  e 27 0x0; e 27 0x0; e 27 0x0; e 27 0x0; e 27 0x0; e 27 0x0; e 27 0x0; e 27 0x0;
  e 27 0x0; e 27 0x0; e 27 0x0; e 27 0x0; e 27 0x0; e 27 0x0; e 27 0x0; e 27 0x0;
  e 27 0x0; e 27 0x0; e 27 0x0; e 27 0x0; e 27 0x0; e 27 0x0; e 27 0x0; e 27 0x0;
  e 27 0x0; e 27 0x0; e 27 0x0; e 27 0x0; e 27 0x0; e 27 0x0; e 27 0x0; e 27 0x0;
  e 27 0x0; e 27 0x0; e 27 0x0; e 27 0x0; e 27 0x0; e 27 0x0; e 27 0x0; e 27 0x0;
  e 27 0x0; e 27 0x0; e 27 0x0; e 27 0x0; e 27 0x0; e 27 0x0; e 27 0x0; e 27 0x0;
  e 27 0x0; e 27 0x0; e 27 0x0; e 27 0x0; e 27 0x0; e 27 0x0; e 27 0x0; e 27 0x0;
  e 27 0x0; e 27 0x0; e 27 0x0; e 27 0x0; e 27 0x0; e 27 0x0; e 27 0x0; e 27 0x0;
  e 27 0x0; e 27 0x0; e 27 0x0; e 27 0x0; e 27 0x0; e 27 0x0; e 27 0x0; e 27 0x0;
  e 27 0x0; e 27 0x0; e 27 0x0; e 27 0x0; e 27 0x0; e 27 0x0; e 27 0x0; e 27 0x0;
  e 27 0x0; e 27 0x0; e 27 0x0; e 27 0x0; e 27 0x0; e 27 0x0; e 27 0x0; e 27 0x0;
  e 27 0x0; e 27 0x0; e 27 0x0; e 27 0x0; e 27 0x0; e 27 0x0; e 27 0x0; e 27 0x0
].

Definition page_64 : list unichar := [
  e 10 0x0; e 10 0x0; e 10 0x0; e 10 0x0; e 10 0x0; e 10 0x0; e 10 0x0; e 10 0x0;
  e 10 0x0; e 10 0x0; e 10 0x0; e 10 0x0; e 10 0x0; e 10 0x0; e 10 0x0; e 10 0x0;
  e 10 0x0; e 10 0x0; e 10 0x0; e 10 0x0; e 10 0x0; e 10 0x0; e 10 0x0; e 10 0x0;
  e 10 0x0; e 10 0x0; e 10 0x0; e 10 0x0; e 10 0x0; e 10 0x0; e 10 0x0; e 10 0x0;
  e 10 0x0; e 10 0x0; e 10 0x0; e 10 0x0; e 10 0x0; e 10 0x0; e 10 0x0; e 10 0x0;
  e 10 0x0; e 10 0x0; e 10 0x0; e 10 0x0; e 10 0x0; e 10 0x0; e 10 0x0; e 10 0x0;
  e 10 0x0; e 10 0x0; e 10 0x0; e 10 0x0; e 10 0x0; e 10 0x0; e 10 0x0; e 10 0x0;
  e 10 0x0; e 10 0x0; e 10 0x0; e 10 0x0; e 10 0x0; e 10 0x0; e 10 0x0; e 10 0x0;
  e 10 0x0; e 10 0x0; e 10 0x0; e 10 0x0; e 10 0x0; e 10 0x0; e 10 0x0; e 10 0x0;
  e 10 0x0; e 10 0x0; e 10 0x0; e 10 0x0; e 10 0x0; e 10 0x0; e 10 0x0; e 10 0x0;
  e 10 0x0; e 10 0x0; e 10 0x0; e 10 0x0; e 10 0x0; e 10 0x0; e 10 0x0; e 10 0x0;
  e 10 0x0; e 10 0x0; e 10 0x0; e 10 0x0; e 10 0x0; e 10 0x0; e 10 0x0; e 10 0x0;
  e 10 0x0; e 10 0x0; e 10 0x0; e 10 0x0; e 10 0x0; e 10 0x0; e 10 0x0; e 10 0x0;
  e 10 0x0; e 10 0x0; e 10 0x0; e 10 0x0; e 10 0x0; e 10 0x0; e 255 0x0; e 255 0x0;
  e 10 0x0; e 10 0x0; e 10 0x0; e 10 0x0; e 10 0x0; e 10 0x0; e 10 0x0; e 10 0x0;
  e 10 0x0; e 10 0x0; e 10 0x0; e 10 0x0; e 10 0x0; e 10 0x0; e 10 0x0; e 10 0x0;
  e 10 0x0; e 10 0x0; e 10 0x0; e 10 0x0; e 10 0x0; e 10 0x0; e 10 0x0; e 10 0x0;
  e 10 0x0; e 10 0x0; e 10 0x0; e 10 0x0; e 10 0x0; e 10 0x0; e 10 0x0; e 10 0x0;
  e 10 0x0; e 10 0x0; e 10 0x0; e 10 0x0; e 10 0x0; e 10 0x0; e 10 0x0; e 10 0x0;
  e 10 0x0; e 10 0x0; e 10 0x0; e 10 0x0; e 10 0x0; e 10 0x0; e 10 0x0; e 10 0x0;
  e 10 0x0; e 10 0x0; e 10 0x0; e 10 0x0; e 10 0x0; e 10 0x0; e 10 0x0; e 10 0x0;
  e 10 0x0; e 10 0x0; e 10 0x0; e 10 0x0; e 10 0x0; e 10 0x0; e 10 0x0; e 10 0x0;
  e 10 0x0; e 10 0x0; e 10 0x0; e 10 0x0; e 10 0x0; e 10 0x0; e 10 0x0; e 10 0x0;
  e 10 0x0; e 10 0x0; e 10 0x0; e 10 0x0; e 10 0x0; e 10 0x0; e 10 0x0; e 10 0x0;
  e 10 0x0; e 10 0x0; e 10 0x0; e 10 0x0; e 10 0x0; e 10 0x0; e 10 0x0; e 10 0x0;
  e 10 0x0; e 10 0x0; e 10 0x0; e 10 0x0; e 10 0x0; e 10 0x0; e 10 0x0; e 10 0x0;
  e 10 0x0; e 10 0x0; e 10 0x0; e 10 0x0; e 10 0x0; e 10 0x0; e 10 0x0; e 10 0x0;
  e 10 0x0; e 10 0x0; e 255 0x0; e 255 0x0; e 255 0x0; e 255 0x0; e 255 0x0; e 255 0x0;
  e 255 0x0; e 255 0x0; e 255 0x0; e 255 0x0; e 255 0x0; e 255 0x0; e 255 0x0; e 255 0x0;
  e 255 0x0; e 255 0x0; e 255 0x0; e 255 0x0; e 255 0x0; e 255 0x0; e 255 0x0; e 255 0x0;
  e 255 0x0; e 255 0x0; e 255 0x0; e 255 0x0; e 255 0x0; e 255 0x0; e 255 0x0; e 255 0x0;
  e 255 0x0; e 255 0x0; e 255 0x0; e 255 0x0; e 255 0x0; e 255 0x0; e 255 0x0; e 255 0x0
].

Definition page_65 : list unichar := [
  e 3 0x0; e 3 0x0; e 3 0x0; e 3 0x0; e 3 0x0; e 3 0x0; e 3 0x0; e 255 0x0;
  e 255 0x0; e 255 0x0; e 255 0x0; e 255 0x0; e 255 0x0; e 255 0x0; e 255 0x0; e 255 0x0;
  e 255 0x0; e 255 0x0; e 255 0x0; e 3 0x0; e 3 0x0; e 3 0x0; e 3 0x0; e 3 0x0;
  e 255 0x0; e 255 0x0; e 255 0x0; e 255 0x0; e 255 0x0; e 11 0x0; e 57 0x0; e 11 0x0;
  e 11 0x0; e 11 0x0; e 11 0x0; e 11 0x0; e 11 0x0; e 11 0x0; e 11 0x0; e 11 0x0;
  e 11 0x0; e 204 0x0; e 11 0x0; e 11 0x0; e 11 0x0; e 11 0x0; e 11 0x0; e 11 0x0;
  e 11 0x0; e 11 0x0; e 11 0x0; e 11 0x0; e 11 0x0; e 11 0x0; e 11 0x0; e 255 0x0;
  e 11 0x0; e 11 0x0; e 11 0x0; e 11 0x0; e 11 0x0; e 255 0x0; e 11 0x0; e 255 0x0;
  e 11 0x0; e 11 0x0; e 255 0x0; e 11 0x0; e 11 0x0; e 255 0x0; e 11 0x0; e 11 0x0;
  e 11 0x0; e 11 0x0; e 11 0x0; e 11 0x0; e 11 0x0; e 11 0x0; e 11 0x0; e 11 0x0;
  e 9 0x0; e 9 0x0; e 9 0x0; e 9 0x0; e 9 0x0; e 9 0x0; e 9 0x0; e 9 0x0;
  e 9 0x0; e 9 0x0; e 9 0x0; e 9 0x0; e 9 0x0; e 9 0x0; e 9 0x0; e 9 0x0;
  e 9 0x0; e 9 0x0; e 9 0x0; e 9 0x0; e 9 0x0; e 9 0x0; e 9 0x0; e 9 0x0;
  e 9 0x0; e 9 0x0; e 9 0x0; e 9 0x0; e 9 0x0; e 9 0x0; e 9 0x0; e 9 0x0;
  e 9 0x0; e 9 0x0; e 9 0x0; e 9 0x0; e 9 0x0; e 9 0x0; e 9 0x0; e 9 0x0;
  e 9 0x0; e 9 0x0; e 9 0x0; e 9 0x0; e 9 0x0; e 9 0x0; e 9 0x0; e 9 0x0;
  e 9 0x0; e 9 0x0; e 9 0x0; e 9 0x0; e 9 0x0; e 9 0x0; e 9 0x0; e 9 0x0;
  e 9 0x0; e 9 0x0; e 9 0x0; e 9 0x0; e 9 0x0; e 9 0x0; e 9 0x0; e 9 0x0;
  e 9 0x0; e 9 0x0; e 9 0x0; e 9 0x0; e 9 0x0; e 9 0x0; e 9 0x0; e 9 0x0;
  e 9 0x0; e 9 0x0; e 9 0x0; e 9 0x0; e 9 0x0; e 9 0x0; e 9 0x0; e 9 0x0;
  e 9 0x0; e 9 0x0; e 9 0x0; e 9 0x0; e 9 0x0; e 9 0x0; e 9 0x0; e 9 0x0;
  e 9 0x0; e 9 0x0; e 9 0x0; e 9 0x0; e 9 0x0; e 9 0x0; e 9 0x0; e 9 0x0;
  e 9 0x0; e 9 0x0; e 199 0x0; e 199 0x0; e 199 0x0; e 199 0x0; e 199 0x0; e 199 0x0;
  e 199 0x0; e 199 0x0; e 199 0x0; e 199 0x0; e 199 0x0; e 199 0x0; e 199 0x0; e 199 0x0;
  e 199 0x0; e 199 0x0; e 255 0x0; e 255 0x0; e 255 0x0; e 255 0x0; e 255 0x0; e 255 0x0;
  e 255 0x0; e 255 0x0; e 255 0x0; e 255 0x0; e 255 0x0; e 255 0x0; e 255 0x0; e 255 0x0;
  e 255 0x0; e 255 0x0; e 255 0x0; e 9 0x0; e 9 0x0; e 9 0x0; e 9 0x0; e 9 0x0;
  e 9 0x0; e 9 0x0; e 9 0x0; e 9 0x0; e 9 0x0; e 9 0x0; e 9 0x0; e 9 0x0;
  e 9 0x0; e 9 0x0; e 9 0x0; e 9 0x0; e 9 0x0; e 9 0x0; e 9 0x0; e 9 0x0;
  e 9 0x0; e 9 0x0; e 9 0x0; e 9 0x0; e 9 0x0; e 9 0x0; e 9 0x0; e 9 0x0;
  e 9 0x0; e 9 0x0; e 9 0x0; e 9 0x0; e 9 0x0; e 9 0x0; e 9 0x0; e 9 0x0;
  e 9 0x0; e 9 0x0; e 9 0x0; e 9 0x0; e 9 0x0; e 9 0x0; e 9 0x0; e 9 0x0
].

Definition page_66 : list unichar := [
  e 9 0x0; e 9 0x0; e 9 0x0; e 9 0x0; e 9 0x0; e 9 0x0; e 9 0x0; e 9 0x0;
  e 9 0x0; e 9 0x0; e 9 0x0; e 9 0x0; e 9 0x0; e 9 0x0; e 9 0x0; e 9 0x0;
  e 9 0x0; e 9 0x0; e 9 0x0; e 9 0x0; e 9 0x0; e 9 0x0; e 9 0x0; e 9 0x0;
  e 9 0x0; e 9 0x0; e 9 0x0; e 9 0x0; e 9 0x0; e 9 0x0; e 9 0x0; e 9 0x0;
  e 9 0x0; e 9 0x0; e 9 0x0; e 9 0x0; e 9 0x0; e 9 0x0; e 9 0x0; e 9 0x0;
  e 9 0x0; e 9 0x0; e 9 0x0; e 9 0x0; e 9 0x0; e 9 0x0; e 9 0x0; e 9 0x0;
  e 9 0x0; e 9 0x0; e 9 0x0; e 9 0x0; e 9 0x0; e 9 0x0; e 9 0x0; e 9 0x0;
  e 9 0x0; e 9 0x0; e 9 0x0; e 9 0x0; e 9 0x0; e 9 0x0; e 9 0x0; e 9 0x0;
  e 9 0x0; e 9 0x0; e 9 0x0; e 9 0x0; e 9 0x0; e 9 0x0; e 9 0x0; e 9 0x0;
  e 9 0x0; e 9 0x0; e 9 0x0; e 9 0x0; e 9 0x0; e 9 0x0; e 9 0x0; e 9 0x0;
  e 9 0x0; e 9 0x0; e 9 0x0; e 9 0x0; e 9 0x0; e 9 0x0; e 9 0x0; e 9 0x0;
  e 9 0x0; e 9 0x0; e 9 0x0; e 9 0x0; e 9 0x0; e 9 0x0; e 9 0x0; e 9 0x0;
  e 9 0x0; e 9 0x0; e 9 0x0; e 9 0x0; e 9 0x0; e 9 0x0; e 9 0x0; e 9 0x0;
  e 9 0x0; e 9 0x0; e 9 0x0; e 9 0x0; e 9 0x0; e 9 0x0; e 9 0x0; e 9 0x0;
  e 9 0x0; e 9 0x0; e 9 0x0; e 9 0x0; e 9 0x0; e 9 0x0; e 9 0x0; e 9 0x0;
  e 9 0x0; e 9 0x0; e 9 0x0; e 9 0x0; e 9 0x0; e 9 0x0; e 9 0x0; e 9 0x0;
  e 9 0x0; e 9 0x0; e 9 0x0; e 9 0x0; e 9 0x0; e 9 0x0; e 9 0x0; e 9 0x0;
  e 9 0x0; e 9 0x0; e 9 0x0; e 9 0x0; e 9 0x0; e 9 0x0; e 9 0x0; e 9 0x0;
  e 9 0x0; e 9 0x0; e 9 0x0; e 9 0x0; e 9 0x0; e 9 0x0; e 9 0x0; e 9 0x0;
  e 9 0x0; e 9 0x0; e 9 0x0; e 9 0x0; e 9 0x0; e 9 0x0; e 9 0x0; e 9 0x0;
  e 9 0x0; e 9 0x0; e 9 0x0; e 9 0x0; e 9 0x0; e 9 0x0; e 9 0x0; e 9 0x0;
  e 9 0x0; e 9 0x0; e 9 0x0; e 9 0x0; e 9 0x0; e 9 0x0; e 9 0x0; e 9 0x0;
  e 9 0x0; e 9 0x0; e 9 0x0; e 9 0x0; e 9 0x0; e 9 0x0; e 9 0x0; e 9 0x0;
  e 9 0x0; e 9 0x0; e 9 0x0; e 9 0x0; e 9 0x0; e 9 0x0; e 9 0x0; e 9 0x0;
  e 9 0x0; e 9 0x0; e 9 0x0; e 9 0x0; e 9 0x0; e 9 0x0; e 9 0x0; e 9 0x0;
  e 9 0x0; e 9 0x0; e 9 0x0; e 9 0x0; e 9 0x0; e 9 0x0; e 9 0x0; e 9 0x0;
  e 9 0x0; e 9 0x0; e 9 0x0; e 9 0x0; e 9 0x0; e 9 0x0; e 9 0x0; e 9 0x0;
  e 9 0x0; e 9 0x0; e 9 0x0; e 9 0x0; e 9 0x0; e 9 0x0; e 9 0x0; e 9 0x0;
  e 9 0x0; e 9 0x0; e 9 0x0; e 9 0x0; e 9 0x0; e 9 0x0; e 9 0x0; e 9 0x0;
  e 9 0x0; e 9 0x0; e 9 0x0; e 9 0x0; e 9 0x0; e 9 0x0; e 9 0x0; e 9 0x0;
  e 9 0x0; e 9 0x0; e 9 0x0; e 9 0x0; e 9 0x0; e 9 0x0; e 9 0x0; e 9 0x0;
  e 9 0x0; e 9 0x0; e 9 0x0; e 9 0x0; e 9 0x0; e 9 0x0; e 9 0x0; e 9 0x0
].

Definition page_67 : list unichar := [
  e 9 0x0; e 9 0x0; e 9 0x0; e 9 0x0; e 9 0x0; e 9 0x0; e 9 0x0; e 9 0x0;
  e 9 0x0; e 9 0x0; e 9 0x0; e 9 0x0; e 9 0x0; e 9 0x0; e 9 0x0; e 9 0x0;
  e 9 0x0; e 9 0x0; e 9 0x0; e 9 0x0; e 9 0x0; e 9 0x0; e 9 0x0; e 9 0x0;
  e 9 0x0; e 9 0x0; e 9 0x0; e 9 0x0; e 9 0x0; e 9 0x0; e 9 0x0; e 9 0x0;
  e 9 0x0; e 9 0x0; e 9 0x0; e 9 0x0; e 9 0x0; e 9 0x0; e 9 0x0; e 9 0x0;
  e 9 0x0; e 9 0x0; e 9 0x0; e 9 0x0; e 9 0x0; e 9 0x0; e 9 0x0; e 9 0x0;
  e 9 0x0; e 9 0x0; e 9 0x0; e 9 0x0; e 9 0x0; e 9 0x0; e 9 0x0; e 9 0x0;
  e 9 0x0; e 9 0x0; e 9 0x0; e 9 0x0; e 9 0x0; e 9 0x0; e 195 0x0; e 182 0x0;
  e 255 0x0; e 255 0x0; e 255 0x0; e 255 0x0; e 255 0x0; e 255 0x0; e 255 0x0; e 255 0x0;
  e 255 0x0; e 255 0x0; e 255 0x0; e 255 0x0; e 255 0x0; e 255 0x0; e 255 0x0; e 255 0x0;
  e 9 0x0; e 9 0x0; e 9 0x0; e 9 0x0; e 9 0x0; e 9 0x0; e 9 0x0; e 9 0x0;
  e 9 0x0; e 9 0x0; e 9 0x0; e 9 0x0; e 9 0x0; e 9 0x0; e 9 0x0; e 9 0x0;
  e 9 0x0; e 9 0x0; e 9 0x0; e 9 0x0; e 9 0x0; e 9 0x0; e 9 0x0; e 9 0x0;
  e 9 0x0; e 9 0x0; e 9 0x0; e 9 0x0; e 9 0x0; e 9 0x0; e 9 0x0; e 9 0x0;
  e 9 0x0; e 9 0x0; e 9 0x0; e 9 0x0; e 9 0x0; e 9 0x0; e 9 0x0; e 9 0x0;
  e 9 0x0; e 9 0x0; e 9 0x0; e 9 0x0; e 9 0x0; e 9 0x0; e 9 0x0; e 9 0x0;
  e 9 0x0; e 9 0x0; e 9 0x0; e 9 0x0; e 9 0x0; e 9 0x0; e 9 0x0; e 9 0x0;
  e 9 0x0; e 9 0x0; e 9 0x0; e 9 0x0; e 9 0x0; e 9 0x0; e 9 0x0; e 9 0x0;
  e 255 0x0; e 255 0x0; e 9 0x0; e 9 0x0; e 9 0x0; e 9 0x0; e 9 0x0; e 9 0x0;
  e 9 0x0; e 9 0x0; e 9 0x0; e 9 0x0; e 9 0x0; e 9 0x0; e 9 0x0; e 9 0x0;
  e 9 0x0; e 9 0x0; e 9 0x0; e 9 0x0; e 9 0x0; e 9 0x0; e 9 0x0; e 9 0x0;
  e 9 0x0; e 9 0x0; e 9 0x0; e 9 0x0; e 9 0x0; e 9 0x0; e 9 0x0; e 9 0x0;
  e 9 0x0; e 9 0x0; e 9 0x0; e 9 0x0; e 9 0x0; e 9 0x0; e 9 0x0; e 9 0x0;
  e 9 0x0; e 9 0x0; e 9 0x0; e 9 0x0; e 9 0x0; e 9 0x0; e 9 0x0; e 9 0x0;
  e 9 0x0; e 9 0x0; e 9 0x0; e 9 0x0; e 9 0x0; e 9 0x0; e 9 0x0; e 9 0x0;
  e 255 0x0; e 255 0x0; e 255 0x0; e 255 0x0; e 255 0x0; e 255 0x0; e 255 0x0; e 255 0x0;
  e 255 0x0; e 255 0x0; e 255 0x0; e 255 0x0; e 255 0x0; e 255 0x0; e 255 0x0; e 255 0x0;
  e 255 0x0; e 255 0x0; e 255 0x0; e 255 0x0; e 255 0x0; e 255 0x0; e 255 0x0; e 255 0x0;
  e 255 0x0; e 255 0x0; e 255 0x0; e 255 0x0; e 255 0x0; e 255 0x0; e 255 0x0; e 255 0x0;
  e 255 0x0; e 255 0x0; e 255 0x0; e 255 0x0; e 255 0x0; e 255 0x0; e 255 0x0; e 255 0x0;
  e 9 0x0; e 9 0x0; e 9 0x0; e 9 0x0; e 9 0x0; e 9 0x0; e 9 0x0; e 9 0x0;
  e 9 0x0; e 9 0x0; e 9 0x0; e 9 0x0; e 197 0x0; e 212 0x0; e 255 0x0; e 255 0x0
].

Definition page_68 : list unichar := [
  e 36 0x0; e 36 0x0; e 36 0x0; e 36 0x0; e 36 0x0; e 36 0x0; e 36 0x0; e 36 0x0;
  e 36 0x0; e 36 0x0; e 36 0x0; e 36 0x0; e 36 0x0; e 36 0x0; e 36 0x0; e 36 0x0;
  e 193 0x0; e 193 0x0; e 193 0x0; e 193 0x0; e 193 0x0; e 193 0x0; e 193 0x0; e 195 0x0;
  e 182 0x0; e 193 0x0; e 255 0x0; e 255 0x0; e 255 0x0; e 255 0x0; e 255 0x0; e 255 0x0;
  e 84 0x0; e 84 0x0; e 84 0x0; e 84 0x0; e 84 0x0; e 84 0x0; e 84 0x0; e 255 0x0;
  e 255 0x0; e 255 0x0; e 255 0x0; e 255 0x0; e 255 0x0; e 255 0x0; e 255 0x0; e 255 0x0;
  e 193 0x0; e 180 0x0; e 180 0x0; e 178 0x0; e 178 0x0; e 195 0x0; e 182 0x0; e 195 0x0;
  e 182 0x0; e 195 0x0; e 182 0x0; e 195 0x0; e 182 0x0; e 195 0x0; e 182 0x0; e 195 0x0;
  e 182 0x0; e 195 0x0; e 182 0x0; e 195 0x0; e 182 0x0; e 193 0x0; e 193 0x0; e 195 0x0;
  e 182 0x0; e 193 0x0; e 193 0x0; e 193 0x0; e 193 0x0; e 178 0x0; e 178 0x0; e 178 0x0;
  e 190 0x0; e 193 0x0; e 190 0x0; e 255 0x0; e 193 0x0; e 190 0x0; e 193 0x0; e 193 0x0;
  e 180 0x0; e 196 0x0; e 183 0x0; e 196 0x0; e 183 0x0; e 196 0x0; e 183 0x0; e 191 0x0;
  e 193 0x0; e 193 0x0; e 204 0x0; e 179 0x0; e 208 0x0; e 208 0x0; e 207 0x0; e 255 0x0;
  e 193 0x0; e 198 0x0; e 191 0x0; e 193 0x0; e 255 0x0; e 255 0x0; e 255 0x0; e 255 0x0;
  e 9 0x0; e 9 0x0; e 9 0x0; e 9 0x0; e 9 0x0; e 255 0x0; e 9 0x0; e 9 0x0;
  e 9 0x0; e 9 0x0; e 9 0x0; e 9 0x0; e 9 0x0; e 9 0x0; e 9 0x0; e 9 0x0;
  e 9 0x0; e 9 0x0; e 9 0x0; e 9 0x0; e 9 0x0; e 9 0x0; e 9 0x0; e 9 0x0;
  e 9 0x0; e 9 0x0; e 9 0x0; e 9 0x0; e 9 0x0; e 9 0x0; e 9 0x0; e 9 0x0;
  e 9 0x0; e 9 0x0; e 9 0x0; e 9 0x0; e 9 0x0; e 9 0x0; e 9 0x0; e 9 0x0;
  e 9 0x0; e 9 0x0; e 9 0x0; e 9 0x0; e 9 0x0; e 9 0x0; e 9 0x0; e 9 0x0;
  e 9 0x0; e 9 0x0; e 9 0x0; e 9 0x0; e 9 0x0; e 9 0x0; e 9 0x0; e 9 0x0;
  e 9 0x0; e 9 0x0; e 9 0x0; e 9 0x0; e 9 0x0; e 9 0x0; e 9 0x0; e 9 0x0;
  e 9 0x0; e 9 0x0; e 9 0x0; e 9 0x0; e 9 0x0; e 9 0x0; e 9 0x0; e 9 0x0;
  e 9 0x0; e 9 0x0; e 9 0x0; e 9 0x0; e 9 0x0; e 9 0x0; e 9 0x0; e 9 0x0;
  e 9 0x0; e 9 0x0; e 9 0x0; e 9 0x0; e 9 0x0; e 9 0x0; e 9 0x0; e 9 0x0;
  e 9 0x0; e 9 0x0; e 9 0x0; e 9 0x0; e 9 0x0; e 9 0x0; e 9 0x0; e 9 0x0;
  e 9 0x0; e 9 0x0; e 9 0x0; e 9 0x0; e 9 0x0; e 9 0x0; e 9 0x0; e 9 0x0;
  e 9 0x0; e 9 0x0; e 9 0x0; e 9 0x0; e 9 0x0; e 9 0x0; e 9 0x0; e 9 0x0;
  e 9 0x0; e 9 0x0; e 9 0x0; e 9 0x0; e 9 0x0; e 9 0x0; e 9 0x0; e 9 0x0;
  e 9 0x0; e 9 0x0; e 9 0x0; e 9 0x0; e 9 0x0; e 9 0x0; e 9 0x0; e 9 0x0;
  e 9 0x0; e 9 0x0; e 9 0x0; e 9 0x0; e 9 0x0; e 9 0x0; e 9 0x0; e 9 0x0;
  e 9 0x0; e 9 0x0; e 9 0x0; e 9 0x0; e 9 0x0; e 255 0x0; e 255 0x0; e 18 0x0
].

Definition page_69 : list unichar := [
  e 255 0x0; e 193 0x0; e 193 0x0; e 191 0x0; e 198 0x0; e 191 0x0; e 193 0x0; e 193 0x0;
  e 196 0x0; e 183 0x0; e 193 0x0; e 204 0x0; e 190 0x0; e 179 0x0; e 190 0x0; e 190 0x0;
  e 99 0x0; e 100 0x0; e 101 0x0; e 102 0x0; e 103 0x0; e 104 0x0; e 105 0x0; e 106 0x0;
  e 107 0x0; e 108 0x0; e 190 0x0; e 193 0x0; e 208 0x0; e 207 0x0; e 208 0x0; e 193 0x0;
  e 193 0x0; e 0 0xFF41; e 0 0xFF42; e 0 0xFF43; e 0 0xFF44; e 0 0xFF45; e 0 0xFF46; e 0 0xFF47;
  e 0 0xFF48; e 0 0xFF49; e 0 0xFF4A; e 0 0xFF4B; e 0 0xFF4C; e 0 0xFF4D; e 0 0xFF4E; e 0 0xFF4F;
  e 0 0xFF50; e 0 0xFF51; e 0 0xFF52; e 0 0xFF53; e 0 0xFF54; e 0 0xFF55; e 0 0xFF56; e 0 0xFF57;
  e 0 0xFF58; e 0 0xFF59; e 0 0xFF5A; e 196 0x0; e 193 0x0; e 183 0x0; e 201 0x0; e 178 0x0;
  e 201 0x0; e 1 0xFF21; e 1 0xFF22; e 1 0xFF23; e 1 0xFF24; e 1 0xFF25; e 1 0xFF26; e 1 0xFF27;
  e 1 0xFF28; e 1 0xFF29; e 1 0xFF2A; e 1 0xFF2B; e 1 0xFF2C; e 1 0xFF2D; e 1 0xFF2E; e 1 0xFF2F;
  e 1 0xFF30; e 1 0xFF31; e 1 0xFF32; e 1 0xFF33; e 1 0xFF34; e 1 0xFF35; e 1 0xFF36; e 1 0xFF37;
  e 1 0xFF38; e 1 0xFF39; e 1 0xFF3A; e 196 0x0; e 207 0x0; e 183 0x0; e 207 0x0; e 196 0x0;
  e 183 0x0; e 193 0x0; e 196 0x0; e 183 0x0; e 193 0x0; e 193 0x0; e 10 0x0; e 10 0x0;
  e 10 0x0; e 10 0x0; e 10 0x0; e 10 0x0; e 10 0x0; e 10 0x0; e 10 0x0; e 10 0x0;
  e 6 0x0; e 10 0x0; e 10 0x0; e 10 0x0; e 10 0x0; e 10 0x0; e 10 0x0; e 10 0x0;
  e 10 0x0; e 10 0x0; e 10 0x0; e 10 0x0; e 10 0x0; e 10 0x0; e 10 0x0; e 10 0x0;
  e 10 0x0; e 10 0x0; e 10 0x0; e 10 0x0; e 10 0x0; e 10 0x0; e 10 0x0; e 10 0x0;
  e 10 0x0; e 10 0x0; e 10 0x0; e 10 0x0; e 10 0x0; e 10 0x0; e 10 0x0; e 10 0x0;
  e 10 0x0; e 10 0x0; e 10 0x0; e 10 0x0; e 10 0x0; e 10 0x0; e 10 0x0; e 10 0x0;
  e 10 0x0; e 10 0x0; e 10 0x0; e 10 0x0; e 10 0x0; e 10 0x0; e 6 0x0; e 6 0x0;
  e 10 0x0; e 10 0x0; e 10 0x0; e 10 0x0; e 10 0x0; e 10 0x0; e 10 0x0; e 10 0x0;
  e 10 0x0; e 10 0x0; e 10 0x0; e 10 0x0; e 10 0x0; e 10 0x0; e 10 0x0; e 10 0x0;
  e 10 0x0; e 10 0x0; e 10 0x0; e 10 0x0; e 10 0x0; e 10 0x0; e 10 0x0; e 10 0x0;
  e 10 0x0; e 10 0x0; e 10 0x0; e 10 0x0; e 10 0x0; e 10 0x0; e 10 0x0; e 255 0x0;
  e 255 0x0; e 255 0x0; e 10 0x0; e 10 0x0; e 10 0x0; e 10 0x0; e 10 0x0; e 10 0x0;
  e 255 0x0; e 255 0x0; e 10 0x0; e 10 0x0; e 10 0x0; e 10 0x0; e 10 0x0; e 10 0x0;
  e 255 0x0; e 255 0x0; e 10 0x0; e 10 0x0; e 10 0x0; e 10 0x0; e 10 0x0; e 10 0x0;
  e 255 0x0; e 255 0x0; e 10 0x0; e 10 0x0; e 10 0x0; e 255 0x0; e 255 0x0; e 255 0x0;
  e 198 0x0; e 198 0x0; e 207 0x0; e 201 0x0; e 212 0x0; e 198 0x0; e 198 0x0; e 255 0x0;
  e 212 0x0; e 207 0x0; e 207 0x0; e 207 0x0; e 207 0x0; e 212 0x0; e 212 0x0; e 255 0x0;
  e 255 0x0; e 255 0x0; e 255 0x0; e 255 0x0; e 255 0x0; e 255 0x0; e 255 0x0; e 255 0x0;
  e 255 0x0; e 22 0x0; e 22 0x0; e 22 0x0; e 212 0x0; e 212 0x0; e 255 0x0; e 255 0x0
].

Definition page_70 : list unichar := [
  e 10 0x0; e 10 0x0; e 10 0x0; e 10 0x0; e 10 0x0; e 10 0x0; e 10 0x0; e 10 0x0;
  e 10 0x0; e 10 0x0; e 10 0x0; e 10 0x0; e 255 0x0; e 10 0x0; e 10 0x0; e 10 0x0;
  e 10 0x0; e 10 0x0; e 10 0x0; e 10 0x0; e 10 0x0; e 10 0x0; e 10 0x0; e 10 0x0;
  e 10 0x0; e 10 0x0; e 10 0x0; e 10 0x0; e 10 0x0; e 10 0x0; e 10 0x0; e 10 0x0;
  e 10 0x0; e 10 0x0; e 10 0x0; e 10 0x0; e 10 0x0; e 10 0x0; e 10 0x0; e 255 0x0;
  e 10 0x0; e 10 0x0; e 10 0x0; e 10 0x0; e 10 0x0; e 10 0x0; e 10 0x0; e 10 0x0;
  e 10 0x0; e 10 0x0; e 10 0x0; e 10 0x0; e 10 0x0; e 10 0x0; e 10 0x0; e 10 0x0;
  e 10 0x0; e 10 0x0; e 10 0x0; e 255 0x0; e 10 0x0; e 10 0x0; e 255 0x0; e 10 0x0;
  e 10 0x0; e 10 0x0; e 10 0x0; e 10 0x0; e 10 0x0; e 10 0x0; e 10 0x0; e 10 0x0;
  e 10 0x0; e 10 0x0; e 10 0x0; e 10 0x0; e 10 0x0; e 10 0x0; e 255 0x0; e 255 0x0;
  e 10 0x0; e 10 0x0; e 10 0x0; e 10 0x0; e 10 0x0; e 10 0x0; e 10 0x0; e 10 0x0;
  e 10 0x0; e 10 0x0; e 10 0x0; e 10 0x0; e 10 0x0; e 10 0x0; e 255 0x0; e 255 0x0;
  e 255 0x0; e 255 0x0; e 255 0x0; e 255 0x0; e 255 0x0; e 255 0x0; e 255 0x0; e 255 0x0;
  e 255 0x0; e 255 0x0; e 255 0x0; e 255 0x0; e 255 0x0; e 255 0x0; e 255 0x0; e 255 0x0;
  e 255 0x0; e 255 0x0; e 255 0x0; e 255 0x0; e 255 0x0; e 255 0x0; e 255 0x0; e 255 0x0;
  e 255 0x0; e 255 0x0; e 255 0x0; e 255 0x0; e 255 0x0; e 255 0x0; e 255 0x0; e 255 0x0;
  e 10 0x0; e 10 0x0; e 10 0x0; e 10 0x0; e 10 0x0; e 10 0x0; e 10 0x0; e 10 0x0;
  e 10 0x0; e 10 0x0; e 10 0x0; e 10 0x0; e 10 0x0; e 10 0x0; e 10 0x0; e 10 0x0;
  e 10 0x0; e 10 0x0; e 10 0x0; e 10 0x0; e 10 0x0; e 10 0x0; e 10 0x0; e 10 0x0;
  e 10 0x0; e 10 0x0; e 10 0x0; e 10 0x0; e 10 0x0; e 10 0x0; e 10 0x0; e 10 0x0;
  e 10 0x0; e 10 0x0; e 10 0x0; e 10 0x0; e 10 0x0; e 10 0x0; e 10 0x0; e 10 0x0;
  e 10 0x0; e 10 0x0; e 10 0x0; e 10 0x0; e 10 0x0; e 10 0x0; e 10 0x0; e 10 0x0;
  e 10 0x0; e 10 0x0; e 10 0x0; e 10 0x0; e 10 0x0; e 10 0x0; e 10 0x0; e 10 0x0;
  e 10 0x0; e 10 0x0; e 10 0x0; e 10 0x0; e 10 0x0; e 10 0x0; e 10 0x0; e 10 0x0;
  e 10 0x0; e 10 0x0; e 10 0x0; e 10 0x0; e 10 0x0; e 10 0x0; e 10 0x0; e 10 0x0;
  e 10 0x0; e 10 0x0; e 10 0x0; e 10 0x0; e 10 0x0; e 10 0x0; e 10 0x0; e 10 0x0;
  e 10 0x0; e 10 0x0; e 10 0x0; e 10 0x0; e 10 0x0; e 10 0x0; e 10 0x0; e 10 0x0;
  e 10 0x0; e 10 0x0; e 10 0x0; e 10 0x0; e 10 0x0; e 10 0x0; e 10 0x0; e 10 0x0;
  e 10 0x0; e 10 0x0; e 10 0x0; e 10 0x0; e 10 0x0; e 10 0x0; e 10 0x0; e 10 0x0;
  e 10 0x0; e 10 0x0; e 10 0x0; e 10 0x0; e 10 0x0; e 10 0x0; e 10 0x0; e 10 0x0;
  e 10 0x0; e 10 0x0; e 10 0x0; e 10 0x0; e 10 0x0; e 10 0x0; e 10 0x0; e 10 0x0;
  e 10 0x0; e 10 0x0; e 10 0x0; e 255 0x0; e 255 0x0; e 255 0x0; e 255 0x0; e 255 0x0
].

Definition page_71 : list unichar := [
  e 192 0x0; e 193 0x0; e 192 0x0; e 255 0x0; e 255 0x0; e 255 0x0; e 255 0x0; e 152 0x0;
  e 152 0x0; e 152 0x0; e 152 0x0; e 152 0x0; e 152 0x0; e 152 0x0; e 152 0x0; e 152 0x0;
  e 152 0x0; e 152 0x0; e 152 0x0; e 152 0x0; e 152 0x0; e 152 0x0; e 152 0x0; e 152 0x0;
  e 152 0x0; e 152 0x0; e 152 0x0; e 152 0x0; e 152 0x0; e 152 0x0; e 152 0x0; e 152 0x0;
  e 152 0x0; e 152 0x0; e 152 0x0; e 152 0x0; e 152 0x0; e 152 0x0; e 152 0x0; e 152 0x0;
  e 152 0x0; e 152 0x0; e 152 0x0; e 152 0x0; e 152 0x0; e 152 0x0; e 152 0x0; e 152 0x0;
  e 152 0x0; e 152 0x0; e 152 0x0; e 152 0x0; e 255 0x0; e 255 0x0; e 255 0x0; e 211 0x0;
  e 211 0x0; e 211 0x0; e 211 0x0; e 211 0x0; e 211 0x0; e 211 0x0; e 211 0x0; e 211 0x0;
  e 130 0x0; e 130 0x0; e 130 0x0; e 130 0x0; e 130 0x0; e 130 0x0; e 130 0x0; e 130 0x0;
  e 130 0x0; e 130 0x0; e 130 0x0; e 130 0x0; e 130 0x0; e 130 0x0; e 130 0x0; e 130 0x0;
  e 130 0x0; e 130 0x0; e 130 0x0; e 130 0x0; e 130 0x0; e 130 0x0; e 130 0x0; e 130 0x0;
  e 130 0x0; e 130 0x0; e 130 0x0; e 130 0x0; e 130 0x0; e 130 0x0; e 130 0x0; e 130 0x0;
  e 130 0x0; e 130 0x0; e 130 0x0; e 130 0x0; e 130 0x0; e 130 0x0; e 130 0x0; e 130 0x0;
  e 130 0x0; e 130 0x0; e 130 0x0; e 130 0x0; e 130 0x0; e 130 0x0; e 130 0x0; e 130 0x0;
  e 130 0x0; e 130 0x0; e 130 0x0; e 130 0x0; e 130 0x0; e 162 0x0; e 162 0x0; e 162 0x0;
  e 162 0x0; e 212 0x0; e 212 0x0; e 212 0x0; e 212 0x0; e 212 0x0; e 212 0x0; e 212 0x0;
  e 212 0x0; e 212 0x0; e 212 0x0; e 212 0x0; e 212 0x0; e 212 0x0; e 212 0x0; e 212 0x0;
  e 212 0x0; e 212 0x0; e 162 0x0; e 255 0x0; e 255 0x0; e 255 0x0; e 255 0x0; e 255 0x0;
  e 212 0x0; e 212 0x0; e 212 0x0; e 212 0x0; e 212 0x0; e 212 0x0; e 212 0x0; e 212 0x0;
  e 212 0x0; e 212 0x0; e 212 0x0; e 212 0x0; e 255 0x0; e 255 0x0; e 255 0x0; e 255 0x0;
  e 255 0x0; e 255 0x0; e 255 0x0; e 255 0x0; e 255 0x0; e 255 0x0; e 255 0x0; e 255 0x0;
  e 255 0x0; e 255 0x0; e 255 0x0; e 255 0x0; e 255 0x0; e 255 0x0; e 255 0x0; e 255 0x0;
  e 255 0x0; e 255 0x0; e 255 0x0; e 255 0x0; e 255 0x0; e 255 0x0; e 255 0x0; e 255 0x0;
  e 255 0x0; e 255 0x0; e 255 0x0; e 255 0x0; e 255 0x0; e 255 0x0; e 255 0x0; e 255 0x0;
  e 255 0x0; e 255 0x0; e 255 0x0; e 255 0x0; e 255 0x0; e 255 0x0; e 255 0x0; e 255 0x0;
  e 255 0x0; e 255 0x0; e 255 0x0; e 255 0x0; e 255 0x0; e 255 0x0; e 255 0x0; e 255 0x0;
  e 211 0x0; e 211 0x0; e 211 0x0; e 211 0x0; e 211 0x0; e 211 0x0; e 211 0x0; e 211 0x0;
  e 211 0x0; e 211 0x0; e 211 0x0; e 211 0x0; e 211 0x0; e 211 0x0; e 211 0x0; e 211 0x0;
  e 211 0x0; e 211 0x0; e 211 0x0; e 211 0x0; e 211 0x0; e 211 0x0; e 211 0x0; e 211 0x0;
  e 211 0x0; e 211 0x0; e 211 0x0; e 211 0x0; e 211 0x0; e 211 0x0; e 211 0x0; e 211 0x0;
  e 211 0x0; e 211 0x0; e 211 0x0; e 211 0x0; e 211 0x0; e 211 0x0; e 211 0x0; e 211 0x0;
  e 211 0x0; e 211 0x0; e 211 0x0; e 211 0x0; e 211 0x0; e 81 0x0; e 255 0x0; e 255 0x0
].

Definition page_72 : list unichar := [
  e 255 0x0; e 255 0x0; e 255 0x0; e 255 0x0; e 255 0x0; e 255 0x0; e 255 0x0; e 255 0x0;
  e 255 0x0; e 255 0x0; e 255 0x0; e 255 0x0; e 255 0x0; e 255 0x0; e 255 0x0; e 255 0x0;
  e 255 0x0; e 255 0x0; e 255 0x0; e 255 0x0; e 255 0x0; e 255 0x0; e 255 0x0; e 255 0x0;
  e 255 0x0; e 255 0x0; e 255 0x0; e 255 0x0; e 255 0x0; e 255 0x0; e 255 0x0; e 255 0x0;
  e 255 0x0; e 255 0x0; e 255 0x0; e 255 0x0; e 255 0x0; e 255 0x0; e 255 0x0; e 255 0x0;
  e 255 0x0; e 255 0x0; e 255 0x0; e 255 0x0; e 255 0x0; e 255 0x0; e 255 0x0; e 255 0x0;
  e 255 0x0; e 255 0x0; e 255 0x0; e 255 0x0; e 255 0x0; e 255 0x0; e 255 0x0; e 255 0x0;
  e 255 0x0; e 255 0x0; e 255 0x0; e 255 0x0; e 255 0x0; e 255 0x0; e 255 0x0; e 255 0x0;
  e 255 0x0; e 255 0x0; e 255 0x0; e 255 0x0; e 255 0x0; e 255 0x0; e 255 0x0; e 255 0x0;
  e 255 0x0; e 255 0x0; e 255 0x0; e 255 0x0; e 255 0x0; e 255 0x0; e 255 0x0; e 255 0x0;
  e 255 0x0; e 255 0x0; e 255 0x0; e 255 0x0; e 255 0x0; e 255 0x0; e 255 0x0; e 255 0x0;
  e 255 0x0; e 255 0x0; e 255 0x0; e 255 0x0; e 255 0x0; e 255 0x0; e 255 0x0; e 255 0x0;
  e 255 0x0; e 255 0x0; e 255 0x0; e 255 0x0; e 255 0x0; e 255 0x0; e 255 0x0; e 255 0x0;
  e 255 0x0; e 255 0x0; e 255 0x0; e 255 0x0; e 255 0x0; e 255 0x0; e 255 0x0; e 255 0x0;
  e 255 0x0; e 255 0x0; e 255 0x0; e 255 0x0; e 255 0x0; e 255 0x0; e 255 0x0; e 255 0x0;
  e 255 0x0; e 255 0x0; e 255 0x0; e 255 0x0; e 255 0x0; e 255 0x0; e 255 0x0; e 255 0x0;
  e 10 0x0; e 10 0x0; e 10 0x0; e 10 0x0; e 10 0x0; e 10 0x0; e 10 0x0; e 10 0x0;
  e 10 0x0; e 10 0x0; e 10 0x0; e 10 0x0; e 10 0x0; e 10 0x0; e 10 0x0; e 10 0x0;
  e 10 0x0; e 10 0x0; e 10 0x0; e 10 0x0; e 10 0x0; e 10 0x0; e 10 0x0; e 10 0x0;
  e 10 0x0; e 10 0x0; e 10 0x0; e 10 0x0; e 10 0x0; e 255 0x0; e 255 0x0; e 255 0x0;
  e 10 0x0; e 10 0x0; e 10 0x0; e 10 0x0; e 10 0x0; e 10 0x0; e 10 0x0; e 10 0x0;
  e 10 0x0; e 10 0x0; e 10 0x0; e 10 0x0; e 10 0x0; e 10 0x0; e 10 0x0; e 10 0x0;
  e 10 0x0; e 10 0x0; e 10 0x0; e 10 0x0; e 10 0x0; e 10 0x0; e 10 0x0; e 10 0x0;
  e 10 0x0; e 10 0x0; e 10 0x0; e 10 0x0; e 10 0x0; e 10 0x0; e 10 0x0; e 10 0x0;
  e 10 0x0; e 10 0x0; e 10 0x0; e 10 0x0; e 10 0x0; e 10 0x0; e 10 0x0; e 10 0x0;
  e 10 0x0; e 10 0x0; e 10 0x0; e 10 0x0; e 10 0x0; e 10 0x0; e 10 0x0; e 10 0x0;
  e 10 0x0; e 255 0x0; e 255 0x0; e 255 0x0; e 255 0x0; e 255 0x0; e 255 0x0; e 255 0x0;
  e 255 0x0; e 255 0x0; e 255 0x0; e 255 0x0; e 255 0x0; e 255 0x0; e 255 0x0; e 255 0x0;
  e 255 0x0; e 255 0x0; e 255 0x0; e 255 0x0; e 255 0x0; e 255 0x0; e 255 0x0; e 255 0x0;
  e 255 0x0; e 255 0x0; e 255 0x0; e 255 0x0; e 255 0x0; e 255 0x0; e 255 0x0; e 255 0x0;
  e 255 0x0; e 255 0x0; e 255 0x0; e 255 0x0; e 255 0x0; e 255 0x0; e 255 0x0; e 255 0x0;
  e 255 0x0; e 255 0x0; e 255 0x0; e 255 0x0; e 255 0x0; e 255 0x0; e 255 0x0; e 255 0x0
].

Definition page_73 : list unichar := [
  e 10 0x0; e 10 0x0; e 10 0x0; e 10 0x0; e 10 0x0; e 10 0x0; e 10 0x0; e 10 0x0;
  e 10 0x0; e 10 0x0; e 10 0x0; e 10 0x0; e 10 0x0; e 10 0x0; e 10 0x0; e 10 0x0;
  e 10 0x0; e 10 0x0; e 10 0x0; e 10 0x0; e 10 0x0; e 10 0x0; e 10 0x0; e 10 0x0;
  e 10 0x0; e 10 0x0; e 10 0x0; e 10 0x0; e 10 0x0; e 10 0x0; e 10 0x0; e 255 0x0;
  e 152 0x0; e 152 0x0; e 152 0x0; e 152 0x0; e 255 0x0; e 255 0x0; e 255 0x0; e 255 0x0;
  e 255 0x0; e 255 0x0; e 255 0x0; e 255 0x0; e 255 0x0; e 255 0x0; e 255 0x0; e 255 0x0;
  e 10 0x0; e 10 0x0; e 10 0x0; e 10 0x0; e 10 0x0; e 10 0x0; e 10 0x0; e 10 0x0;
  e 10 0x0; e 10 0x0; e 10 0x0; e 10 0x0; e 10 0x0; e 10 0x0; e 10 0x0; e 10 0x0;
  e 10 0x0; e 129 0x0; e 10 0x0; e 10 0x0; e 10 0x0; e 10 0x0; e 10 0x0; e 10 0x0;
  e 10 0x0; e 10 0x0; e 129 0x0; e 255 0x0; e 255 0x0; e 255 0x0; e 255 0x0; e 255 0x0;
  e 255 0x0; e 255 0x0; e 255 0x0; e 255 0x0; e 255 0x0; e 255 0x0; e 255 0x0; e 255 0x0;
  e 255 0x0; e 255 0x0; e 255 0x0; e 255 0x0; e 255 0x0; e 255 0x0; e 255 0x0; e 255 0x0;
  e 255 0x0; e 255 0x0; e 255 0x0; e 255 0x0; e 255 0x0; e 255 0x0; e 255 0x0; e 255 0x0;
  e 255 0x0; e 255 0x0; e 255 0x0; e 255 0x0; e 255 0x0; e 255 0x0; e 255 0x0; e 255 0x0;
  e 255 0x0; e 255 0x0; e 255 0x0; e 255 0x0; e 255 0x0; e 255 0x0; e 255 0x0; e 255 0x0;
  e 255 0x0; e 255 0x0; e 255 0x0; e 255 0x0; e 255 0x0; e 255 0x0; e 255 0x0; e 255 0x0;
  e 10 0x0; e 10 0x0; e 10 0x0; e 10 0x0; e 10 0x0; e 10 0x0; e 10 0x0; e 10 0x0;
  e 10 0x0; e 10 0x0; e 10 0x0; e 10 0x0; e 10 0x0; e 10 0x0; e 10 0x0; e 10 0x0;
  e 10 0x0; e 10 0x0; e 10 0x0; e 10 0x0; e 10 0x0; e 10 0x0; e 10 0x0; e 10 0x0;
  e 10 0x0; e 10 0x0; e 10 0x0; e 10 0x0; e 10 0x0; e 10 0x0; e 255 0x0; e 192 0x0;
  e 10 0x0; e 10 0x0; e 10 0x0; e 10 0x0; e 10 0x0; e 10 0x0; e 10 0x0; e 10 0x0;
  e 10 0x0; e 10 0x0; e 10 0x0; e 10 0x0; e 10 0x0; e 10 0x0; e 10 0x0; e 10 0x0;
  e 10 0x0; e 10 0x0; e 10 0x0; e 10 0x0; e 10 0x0; e 10 0x0; e 10 0x0; e 10 0x0;
  e 10 0x0; e 10 0x0; e 10 0x0; e 10 0x0; e 10 0x0; e 10 0x0; e 10 0x0; e 10 0x0;
  e 10 0x0; e 10 0x0; e 10 0x0; e 10 0x0; e 255 0x0; e 255 0x0; e 255 0x0; e 255 0x0;
  e 10 0x0; e 10 0x0; e 10 0x0; e 10 0x0; e 10 0x0; e 10 0x0; e 10 0x0; e 10 0x0;
  e 192 0x0; e 129 0x0; e 129 0x0; e 129 0x0; e 129 0x0; e 129 0x0; e 255 0x0; e 255 0x0;
  e 255 0x0; e 255 0x0; e 255 0x0; e 255 0x0; e 255 0x0; e 255 0x0; e 255 0x0; e 255 0x0;
  e 255 0x0; e 255 0x0; e 255 0x0; e 255 0x0; e 255 0x0; e 255 0x0; e 255 0x0; e 255 0x0;
  e 255 0x0; e 255 0x0; e 255 0x0; e 255 0x0; e 255 0x0; e 255 0x0; e 255 0x0; e 255 0x0;
  e 255 0x0; e 255 0x0; e 255 0x0; e 255 0x0; e 255 0x0; e 255 0x0; e 255 0x0; e 255 0x0;
  e 255 0x0; e 255 0x0; e 255 0x0; e 255 0x0; e 255 0x0; e 255 0x0; e 255 0x0; e 255 0x0
].

Definition page_74 : list unichar := [
  e 0 0x10428; e 0 0x10429; e 0 0x1042A; e 0 0x1042B; e 0 0x1042C; e 0 0x1042D; e 0 0x1042E; e 0 0x1042F;
  e 0 0x10430; e 0 0x10431; e 0 0x10432; e 0 0x10433; e 0 0x10434; e 0 0x10435; e 0 0x10436; e 0 0x10437;
  e 0 0x10438; e 0 0x10439; e 0 0x1043A; e 0 0x1043B; e 0 0x1043C; e 0 0x1043D; e 0 0x1043E; e 0 0x1043F;
  e 0 0x10440; e 0 0x10441; e 0 0x10442; e 0 0x10443; e 0 0x10444; e 0 0x10445; e 0 0x10446; e 0 0x10447;
  e 0 0x10448; e 0 0x10449; e 0 0x1044A; e 0 0x1044B; e 0 0x1044C; e 0 0x1044D; e 0 0x1044E; e 0 0x1044F;
  e 1 0x10400; e 1 0x10401; e 1 0x10402; e 1 0x10403; e 1 0x10404; e 1 0x10405; e 1 0x10406; e 1 0x10407;
  e 1 0x10408; e 1 0x10409; e 1 0x1040A; e 1 0x1040B; e 1 0x1040C; e 1 0x1040D; e 1 0x1040E; e 1 0x1040F;
  e 1 0x10410; e 1 0x10411; e 1 0x10412; e 1 0x10413; e 1 0x10414; e 1 0x10415; e 1 0x10416; e 1 0x10417;
  e 1 0x10418; e 1 0x10419; e 1 0x1041A; e 1 0x1041B; e 1 0x1041C; e 1 0x1041D; e 1 0x1041E; e 1 0x1041F;
  e 1 0x10420; e 1 0x10421; e 1 0x10422; e 1 0x10423; e 1 0x10424; e 1 0x10425; e 1 0x10426; e 1 0x10427;
  e 10 0x0; e 10 0x0; e 10 0x0; e 10 0x0; e 10 0x0; e 10 0x0; e 10 0x0; e 10 0x0;
  e 10 0x0; e 10 0x0; e 10 0x0; e 10 0x0; e 10 0x0; e 10 0x0; e 10 0x0; e 10 0x0;
  e 10 0x0; e 10 0x0; e 10 0x0; e 10 0x0; e 10 0x0; e 10 0x0; e 10 0x0; e 10 0x0;
  e 10 0x0; e 10 0x0; e 10 0x0; e 10 0x0; e 10 0x0; e 10 0x0; e 10 0x0; e 10 0x0;
  e 10 0x0; e 10 0x0; e 10 0x0; e 10 0x0; e 10 0x0; e 10 0x0; e 10 0x0; e 10 0x0;
  e 10 0x0; e 10 0x0; e 10 0x0; e 10 0x0; e 10 0x0; e 10 0x0; e 10 0x0; e 10 0x0;
  e 10 0x0; e 10 0x0; e 10 0x0; e 10 0x0; e 10 0x0; e 10 0x0; e 10 0x0; e 10 0x0;
  e 10 0x0; e 10 0x0; e 10 0x0; e 10 0x0; e 10 0x0; e 10 0x0; e 10 0x0; e 10 0x0;
  e 10 0x0; e 10 0x0; e 10 0x0; e 10 0x0; e 10 0x0; e 10 0x0; e 10 0x0; e 10 0x0;
  e 10 0x0; e 10 0x0; e 10 0x0; e 10 0x0; e 10 0x0; e 10 0x0; e 255 0x0; e 255 0x0;
  e 109 0x0; e 110 0x0; e 111 0x0; e 112 0x0; e 113 0x0; e 114 0x0; e 115 0x0; e 116 0x0;
  e 117 0x0; e 118 0x0; e 255 0x0; e 255 0x0; e 255 0x0; e 255 0x0; e 255 0x0; e 255 0x0;
  e 255 0x0; e 255 0x0; e 255 0x0; e 255 0x0; e 255 0x0; e 255 0x0; e 255 0x0; e 255 0x0;
  e 255 0x0; e 255 0x0; e 255 0x0; e 255 0x0; e 255 0x0; e 255 0x0; e 255 0x0; e 255 0x0;
  e 255 0x0; e 255 0x0; e 255 0x0; e 255 0x0; e 255 0x0; e 255 0x0; e 255 0x0; e 255 0x0;
  e 255 0x0; e 255 0x0; e 255 0x0; e 255 0x0; e 255 0x0; e 255 0x0; e 255 0x0; e 255 0x0;
  e 255 0x0; e 255 0x0; e 255 0x0; e 255 0x0; e 255 0x0; e 255 0x0; e 255 0x0; e 255 0x0;
  e 255 0x0; e 255 0x0; e 255 0x0; e 255 0x0; e 255 0x0; e 255 0x0; e 255 0x0; e 255 0x0;
  e 255 0x0; e 255 0x0; e 255 0x0; e 255 0x0; e 255 0x0; e 255 0x0; e 255 0x0; e 255 0x0;
  e 255 0x0; e 255 0x0; e 255 0x0; e 255 0x0; e 255 0x0; e 255 0x0; e 255 0x0; e 255 0x0;
  e 255 0x0; e 255 0x0; e 255 0x0; e 255 0x0; e 255 0x0; e 255 0x0; e 255 0x0; e 255 0x0;
  e 255 0x0; e 255 0x0; e 255 0x0; e 255 0x0; e 255 0x0; e 255 0x0; e 255 0x0; e 255 0x0
].

Definition page_75 : list unichar := [
  e 11 0x0; e 11 0x0; e 11 0x0; e 11 0x0; e 11 0x0; e 11 0x0; e 255 0x0; e 255 0x0;
  e 11 0x0; e 255 0x0; e 11 0x0; e 11 0x0; e 11 0x0; e 11 0x0; e 11 0x0; e 11 0x0;
  e 11 0x0; e 11 0x0; e 11 0x0; e 11 0x0; e 11 0x0; e 11 0x0; e 11 0x0; e 11 0x0;
  e 11 0x0; e 11 0x0; e 11 0x0; e 11 0x0; e 11 0x0; e 11 0x0; e 11 0x0; e 11 0x0;
  e 11 0x0; e 11 0x0; e 11 0x0; e 11 0x0; e 11 0x0; e 11 0x0; e 11 0x0; e 11 0x0;
  e 11 0x0; e 11 0x0; e 11 0x0; e 11 0x0; e 11 0x0; e 11 0x0; e 11 0x0; e 11 0x0;
  e 11 0x0; e 11 0x0; e 11 0x0; e 11 0x0; e 11 0x0; e 11 0x0; e 255 0x0; e 11 0x0;
  e 11 0x0; e 255 0x0; e 255 0x0; e 255 0x0; e 11 0x0; e 255 0x0; e 255 0x0; e 11 0x0;
  e 11 0x0; e 11 0x0; e 11 0x0; e 11 0x0; e 11 0x0; e 11 0x0; e 11 0x0; e 11 0x0;
  e 11 0x0; e 11 0x0; e 11 0x0; e 11 0x0; e 11 0x0; e 11 0x0; e 11 0x0; e 11 0x0;
  e 11 0x0; e 11 0x0; e 11 0x0; e 11 0x0; e 11 0x0; e 11 0x0; e 255 0x0; e 194 0x0;
  e 173 0x0; e 173 0x0; e 173 0x0; e 173 0x0; e 173 0x0; e 173 0x0; e 173 0x0; e 173 0x0;
  e 255 0x0; e 255 0x0; e 255 0x0; e 255 0x0; e 255 0x0; e 255 0x0; e 255 0x0; e 255 0x0;
  e 255 0x0; e 255 0x0; e 255 0x0; e 255 0x0; e 255 0x0; e 255 0x0; e 255 0x0; e 255 0x0;
  e 255 0x0; e 255 0x0; e 255 0x0; e 255 0x0; e 255 0x0; e 255 0x0; e 255 0x0; e 255 0x0;
  e 255 0x0; e 255 0x0; e 255 0x0; e 255 0x0; e 255 0x0; e 255 0x0; e 255 0x0; e 255 0x0;
  e 255 0x0; e 255 0x0; e 255 0x0; e 255 0x0; e 255 0x0; e 255 0x0; e 255 0x0; e 255 0x0;
  e 255 0x0; e 255 0x0; e 255 0x0; e 255 0x0; e 255 0x0; e 255 0x0; e 255 0x0; e 255 0x0;
  e 255 0x0; e 255 0x0; e 255 0x0; e 255 0x0; e 255 0x0; e 255 0x0; e 255 0x0; e 255 0x0;
  e 255 0x0; e 255 0x0; e 255 0x0; e 255 0x0; e 255 0x0; e 255 0x0; e 255 0x0; e 255 0x0;
  e 255 0x0; e 255 0x0; e 255 0x0; e 255 0x0; e 255 0x0; e 255 0x0; e 255 0x0; e 255 0x0;
  e 255 0x0; e 255 0x0; e 255 0x0; e 255 0x0; e 255 0x0; e 255 0x0; e 255 0x0; e 255 0x0;
  e 255 0x0; e 255 0x0; e 255 0x0; e 255 0x0; e 255 0x0; e 255 0x0; e 255 0x0; e 255 0x0;
  e 255 0x0; e 255 0x0; e 255 0x0; e 255 0x0; e 255 0x0; e 255 0x0; e 255 0x0; e 255 0x0;
  e 255 0x0; e 255 0x0; e 255 0x0; e 255 0x0; e 255 0x0; e 255 0x0; e 255 0x0; e 255 0x0;
  e 255 0x0; e 255 0x0; e 255 0x0; e 255 0x0; e 255 0x0; e 255 0x0; e 255 0x0; e 255 0x0;
  e 255 0x0; e 255 0x0; e 255 0x0; e 255 0x0; e 255 0x0; e 255 0x0; e 255 0x0; e 255 0x0;
  e 255 0x0; e 255 0x0; e 255 0x0; e 255 0x0; e 255 0x0; e 255 0x0; e 255 0x0; e 255 0x0;
  e 255 0x0; e 255 0x0; e 255 0x0; e 255 0x0; e 255 0x0; e 255 0x0; e 255 0x0; e 255 0x0;
  e 255 0x0; e 255 0x0; e 255 0x0; e 255 0x0; e 255 0x0; e 255 0x0; e 255 0x0; e 255 0x0;
  e 255 0x0; e 255 0x0; e 255 0x0; e 255 0x0; e 255 0x0; e 255 0x0; e 255 0x0; e 255 0x0;
  e 255 0x0; e 255 0x0; e 255 0x0; e 255 0x0; e 255 0x0; e 255 0x0; e 255 0x0; e 255 0x0
].

Definition page_76 : list unichar := [
  e 11 0x0; e 11 0x0; e 11 0x0; e 11 0x0; e 11 0x0; e 11 0x0; e 11 0x0; e 11 0x0;
  e 11 0x0; e 11 0x0; e 11 0x0; e 11 0x0; e 11 0x0; e 11 0x0; e 11 0x0; e 11 0x0;
  e 11 0x0; e 11 0x0; e 11 0x0; e 11 0x0; e 11 0x0; e 11 0x0; e 173 0x0; e 173 0x0;
  e 173 0x0; e 173 0x0; e 173 0x0; e 173 0x0; e 255 0x0; e 255 0x0; e 255 0x0; e 193 0x0;
  e 11 0x0; e 11 0x0; e 11 0x0; e 11 0x0; e 11 0x0; e 11 0x0; e 11 0x0; e 11 0x0;
  e 11 0x0; e 11 0x0; e 11 0x0; e 11 0x0; e 11 0x0; e 11 0x0; e 11 0x0; e 11 0x0;
  e 11 0x0; e 11 0x0; e 11 0x0; e 11 0x0; e 11 0x0; e 11 0x0; e 11 0x0; e 11 0x0;
  e 11 0x0; e 11 0x0; e 255 0x0; e 255 0x0; e 255 0x0; e 255 0x0; e 255 0x0; e 194 0x0;
  e 255 0x0; e 255 0x0; e 255 0x0; e 255 0x0; e 255 0x0; e 255 0x0; e 255 0x0; e 255 0x0;
  e 255 0x0; e 255 0x0; e 255 0x0; e 255 0x0; e 255 0x0; e 255 0x0; e 255 0x0; e 255 0x0;
  e 255 0x0; e 255 0x0; e 255 0x0; e 255 0x0; e 255 0x0; e 255 0x0; e 255 0x0; e 255 0x0;
  e 255 0x0; e 255 0x0; e 255 0x0; e 255 0x0; e 255 0x0; e 255 0x0; e 255 0x0; e 255 0x0;
  e 255 0x0; e 255 0x0; e 255 0x0; e 255 0x0; e 255 0x0; e 255 0x0; e 255 0x0; e 255 0x0;
  e 255 0x0; e 255 0x0; e 255 0x0; e 255 0x0; e 255 0x0; e 255 0x0; e 255 0x0; e 255 0x0;
  e 255 0x0; e 255 0x0; e 255 0x0; e 255 0x0; e 255 0x0; e 255 0x0; e 255 0x0; e 255 0x0;
  e 255 0x0; e 255 0x0; e 255 0x0; e 255 0x0; e 255 0x0; e 255 0x0; e 255 0x0; e 255 0x0;
  e 11 0x0; e 11 0x0; e 11 0x0; e 11 0x0; e 11 0x0; e 11 0x0; e 11 0x0; e 11 0x0;
  e 11 0x0; e 11 0x0; e 11 0x0; e 11 0x0; e 11 0x0; e 11 0x0; e 11 0x0; e 11 0x0;
  e 11 0x0; e 11 0x0; e 11 0x0; e 11 0x0; e 11 0x0; e 11 0x0; e 11 0x0; e 11 0x0;
  e 11 0x0; e 11 0x0; e 11 0x0; e 11 0x0; e 11 0x0; e 11 0x0; e 11 0x0; e 11 0x0;
  e 11 0x0; e 11 0x0; e 11 0x0; e 11 0x0; e 11 0x0; e 11 0x0; e 11 0x0; e 11 0x0;
  e 11 0x0; e 11 0x0; e 11 0x0; e 11 0x0; e 11 0x0; e 11 0x0; e 11 0x0; e 11 0x0;
  e 11 0x0; e 11 0x0; e 11 0x0; e 11 0x0; e 11 0x0; e 11 0x0; e 11 0x0; e 11 0x0;
  e 255 0x0; e 255 0x0; e 255 0x0; e 255 0x0; e 255 0x0; e 255 0x0; e 11 0x0; e 11 0x0;
  e 255 0x0; e 255 0x0; e 255 0x0; e 255 0x0; e 255 0x0; e 255 0x0; e 255 0x0; e 255 0x0;
  e 255 0x0; e 255 0x0; e 255 0x0; e 255 0x0; e 255 0x0; e 255 0x0; e 255 0x0; e 255 0x0;
  e 255 0x0; e 255 0x0; e 255 0x0; e 255 0x0; e 255 0x0; e 255 0x0; e 255 0x0; e 255 0x0;
  e 255 0x0; e 255 0x0; e 255 0x0; e 255 0x0; e 255 0x0; e 255 0x0; e 255 0x0; e 255 0x0;
  e 255 0x0; e 255 0x0; e 255 0x0; e 255 0x0; e 255 0x0; e 255 0x0; e 255 0x0; e 255 0x0;
  e 255 0x0; e 255 0x0; e 255 0x0; e 255 0x0; e 255 0x0; e 255 0x0; e 255 0x0; e 255 0x0;
  e 255 0x0; e 255 0x0; e 255 0x0; e 255 0x0; e 255 0x0; e 255 0x0; e 255 0x0; e 255 0x0;
  e 255 0x0; e 255 0x0; e 255 0x0; e 255 0x0; e 255 0x0; e 255 0x0; e 255 0x0; e 255 0x0
].

Definition page_77 : list unichar := [
  e 11 0x0; e 36 0x0; e 36 0x0; e 36 0x0; e 255 0x0; e 36 0x0; e 36 0x0; e 255 0x0;
  e 255 0x0; e 255 0x0; e 255 0x0; e 255 0x0; e 36 0x0; e 81 0x0; e 36 0x0; e 84 0x0;
  e 11 0x0; e 11 0x0; e 11 0x0; e 11 0x0; e 255 0x0; e 11 0x0; e 11 0x0; e 11 0x0;
  e 255 0x0; e 11 0x0; e 11 0x0; e 11 0x0; e 11 0x0; e 11 0x0; e 11 0x0; e 11 0x0;
  e 11 0x0; e 11 0x0; e 11 0x0; e 11 0x0; e 11 0x0; e 11 0x0; e 11 0x0; e 11 0x0;
  e 11 0x0; e 11 0x0; e 11 0x0; e 11 0x0; e 11 0x0; e 11 0x0; e 11 0x0; e 11 0x0;
  e 11 0x0; e 11 0x0; e 11 0x0; e 11 0x0; e 255 0x0; e 255 0x0; e 255 0x0; e 255 0x0;
  e 84 0x0; e 37 0x0; e 81 0x0; e 255 0x0; e 255 0x0; e 255 0x0; e 255 0x0; e 40 0x0;
  e 174 0x0; e 175 0x0; e 176 0x0; e 177 0x0; e 173 0x0; e 173 0x0; e 173 0x0; e 173 0x0;
  e 255 0x0; e 255 0x0; e 255 0x0; e 255 0x0; e 255 0x0; e 255 0x0; e 255 0x0; e 255 0x0;
  e 194 0x0; e 194 0x0; e 194 0x0; e 194 0x0; e 194 0x0; e 194 0x0; e 194 0x0; e 194 0x0;
  e 194 0x0; e 255 0x0; e 255 0x0; e 255 0x0; e 255 0x0; e 255 0x0; e 255 0x0; e 255 0x0;
  e 11 0x0; e 11 0x0; e 11 0x0; e 11 0x0; e 11 0x0; e 11 0x0; e 11 0x0; e 11 0x0;
  e 11 0x0; e 11 0x0; e 11 0x0; e 11 0x0; e 11 0x0; e 11 0x0; e 11 0x0; e 11 0x0;
  e 11 0x0; e 11 0x0; e 11 0x0; e 11 0x0; e 11 0x0; e 11 0x0; e 11 0x0; e 11 0x0;
  e 11 0x0; e 11 0x0; e 11 0x0; e 11 0x0; e 11 0x0; e 173 0x0; e 173 0x0; e 194 0x0;
  e 255 0x0; e 255 0x0; e 255 0x0; e 255 0x0; e 255 0x0; e 255 0x0; e 255 0x0; e 255 0x0;
  e 255 0x0; e 255 0x0; e 255 0x0; e 255 0x0; e 255 0x0; e 255 0x0; e 255 0x0; e 255 0x0;
  e 255 0x0; e 255 0x0; e 255 0x0; e 255 0x0; e 255 0x0; e 255 0x0; e 255 0x0; e 255 0x0;
  e 255 0x0; e 255 0x0; e 255 0x0; e 255 0x0; e 255 0x0; e 255 0x0; e 255 0x0; e 255 0x0;
  e 255 0x0; e 255 0x0; e 255 0x0; e 255 0x0; e 255 0x0; e 255 0x0; e 255 0x0; e 255 0x0;
  e 255 0x0; e 255 0x0; e 255 0x0; e 255 0x0; e 255 0x0; e 255 0x0; e 255 0x0; e 255 0x0;
  e 255 0x0; e 255 0x0; e 255 0x0; e 255 0x0; e 255 0x0; e 255 0x0; e 255 0x0; e 255 0x0;
  e 255 0x0; e 255 0x0; e 255 0x0; e 255 0x0; e 255 0x0; e 255 0x0; e 255 0x0; e 255 0x0;
  e 255 0x0; e 255 0x0; e 255 0x0; e 255 0x0; e 255 0x0; e 255 0x0; e 255 0x0; e 255 0x0;
  e 255 0x0; e 255 0x0; e 255 0x0; e 255 0x0; e 255 0x0; e 255 0x0; e 255 0x0; e 255 0x0;
  e 255 0x0; e 255 0x0; e 255 0x0; e 255 0x0; e 255 0x0; e 255 0x0; e 255 0x0; e 255 0x0;
  e 255 0x0; e 255 0x0; e 255 0x0; e 255 0x0; e 255 0x0; e 255 0x0; e 255 0x0; e 255 0x0;
  e 255 0x0; e 255 0x0; e 255 0x0; e 255 0x0; e 255 0x0; e 255 0x0; e 255 0x0; e 255 0x0;
  e 255 0x0; e 255 0x0; e 255 0x0; e 255 0x0; e 255 0x0; e 255 0x0; e 255 0x0; e 255 0x0;
  e 255 0x0; e 255 0x0; e 255 0x0; e 255 0x0; e 255 0x0; e 255 0x0; e 255 0x0; e 255 0x0;
  e 255 0x0; e 255 0x0; e 255 0x0; e 255 0x0; e 255 0x0; e 255 0x0; e 255 0x0; e 255 0x0
].

Definition page_78 : list unichar := [
  e 11 0x0; e 11 0x0; e 11 0x0; e 11 0x0; e 11 0x0; e 11 0x0; e 11 0x0; e 11 0x0;
  e 11 0x0; e 11 0x0; e 11 0x0; e 11 0x0; e 11 0x0; e 11 0x0; e 11 0x0; e 11 0x0;
  e 11 0x0; e 11 0x0; e 11 0x0; e 11 0x0; e 11 0x0; e 11 0x0; e 11 0x0; e 11 0x0;
  e 11 0x0; e 11 0x0; e 11 0x0; e 11 0x0; e 11 0x0; e 11 0x0; e 11 0x0; e 11 0x0;
  e 11 0x0; e 11 0x0; e 11 0x0; e 11 0x0; e 11 0x0; e 11 0x0; e 11 0x0; e 11 0x0;
  e 11 0x0; e 11 0x0; e 11 0x0; e 11 0x0; e 11 0x0; e 11 0x0; e 11 0x0; e 11 0x0;
  e 11 0x0; e 11 0x0; e 11 0x0; e 11 0x0; e 11 0x0; e 11 0x0; e 255 0x0; e 255 0x0;
  e 255 0x0; e 193 0x0; e 193 0x0; e 193 0x0; e 193 0x0; e 193 0x0; e 193 0x0; e 193 0x0;
  e 11 0x0; e 11 0x0; e 11 0x0; e 11 0x0; e 11 0x0; e 11 0x0; e 11 0x0; e 11 0x0;
  e 11 0x0; e 11 0x0; e 11 0x0; e 11 0x0; e 11 0x0; e 11 0x0; e 11 0x0; e 11 0x0;
  e 11 0x0; e 11 0x0; e 11 0x0; e 11 0x0; e 11 0x0; e 11 0x0; e 255 0x0; e 255 0x0;
  e 173 0x0; e 173 0x0; e 173 0x0; e 173 0x0; e 173 0x0; e 173 0x0; e 173 0x0; e 173 0x0;
  e 11 0x0; e 11 0x0; e 11 0x0; e 11 0x0; e 11 0x0; e 11 0x0; e 11 0x0; e 11 0x0;
  e 11 0x0; e 11 0x0; e 11 0x0; e 11 0x0; e 11 0x0; e 11 0x0; e 11 0x0; e 11 0x0;
  e 11 0x0; e 11 0x0; e 11 0x0; e 255 0x0; e 255 0x0; e 255 0x0; e 255 0x0; e 255 0x0;
  e 173 0x0; e 173 0x0; e 173 0x0; e 173 0x0; e 173 0x0; e 173 0x0; e 173 0x0; e 173 0x0;
  e 255 0x0; e 255 0x0; e 255 0x0; e 255 0x0; e 255 0x0; e 255 0x0; e 255 0x0; e 255 0x0;
  e 255 0x0; e 255 0x0; e 255 0x0; e 255 0x0; e 255 0x0; e 255 0x0; e 255 0x0; e 255 0x0;
  e 255 0x0; e 255 0x0; e 255 0x0; e 255 0x0; e 255 0x0; e 255 0x0; e 255 0x0; e 255 0x0;
  e 255 0x0; e 255 0x0; e 255 0x0; e 255 0x0; e 255 0x0; e 255 0x0; e 255 0x0; e 255 0x0;
  e 255 0x0; e 255 0x0; e 255 0x0; e 255 0x0; e 255 0x0; e 255 0x0; e 255 0x0; e 255 0x0;
  e 255 0x0; e 255 0x0; e 255 0x0; e 255 0x0; e 255 0x0; e 255 0x0; e 255 0x0; e 255 0x0;
  e 255 0x0; e 255 0x0; e 255 0x0; e 255 0x0; e 255 0x0; e 255 0x0; e 255 0x0; e 255 0x0;
  e 255 0x0; e 255 0x0; e 255 0x0; e 255 0x0; e 255 0x0; e 255 0x0; e 255 0x0; e 255 0x0;
  e 255 0x0; e 255 0x0; e 255 0x0; e 255 0x0; e 255 0x0; e 255 0x0; e 255 0x0; e 255 0x0;
  e 255 0x0; e 255 0x0; e 255 0x0; e 255 0x0; e 255 0x0; e 255 0x0; e 255 0x0; e 255 0x0;
  e 255 0x0; e 255 0x0; e 255 0x0; e 255 0x0; e 255 0x0; e 255 0x0; e 255 0x0; e 255 0x0;
  e 255 0x0; e 255 0x0; e 255 0x0; e 255 0x0; e 255 0x0; e 255 0x0; e 255 0x0; e 255 0x0;
  e 255 0x0; e 255 0x0; e 255 0x0; e 255 0x0; e 255 0x0; e 255 0x0; e 255 0x0; e 255 0x0;
  e 255 0x0; e 255 0x0; e 255 0x0; e 255 0x0; e 255 0x0; e 255 0x0; e 255 0x0; e 255 0x0;
  e 255 0x0; e 255 0x0; e 255 0x0; e 255 0x0; e 255 0x0; e 255 0x0; e 255 0x0; e 255 0x0;
  e 255 0x0; e 255 0x0; e 255 0x0; e 255 0x0; e 255 0x0; e 255 0x0; e 255 0x0; e 255 0x0
].

Definition page_79 : list unichar := [
  e 11 0x0; e 11 0x0; e 11 0x0; e 11 0x0; e 11 0x0; e 11 0x0; e 11 0x0; e 11 0x0;
  e 11 0x0; e 11 0x0; e 11 0x0; e 11 0x0; e 11 0x0; e 11 0x0; e 11 0x0; e 11 0x0;
  e 11 0x0; e 11 0x0; e 11 0x0; e 11 0x0; e 11 0x0; e 11 0x0; e 11 0x0; e 11 0x0;
  e 11 0x0; e 11 0x0; e 11 0x0; e 11 0x0; e 11 0x0; e 11 0x0; e 11 0x0; e 11 0x0;
  e 11 0x0; e 11 0x0; e 11 0x0; e 11 0x0; e 11 0x0; e 11 0x0; e 11 0x0; e 11 0x0;
  e 11 0x0; e 11 0x0; e 11 0x0; e 11 0x0; e 11 0x0; e 11 0x0; e 11 0x0; e 11 0x0;
  e 11 0x0; e 11 0x0; e 11 0x0; e 11 0x0; e 11 0x0; e 11 0x0; e 11 0x0; e 11 0x0;
  e 11 0x0; e 11 0x0; e 11 0x0; e 11 0x0; e 11 0x0; e 11 0x0; e 11 0x0; e 11 0x0;
  e 11 0x0; e 11 0x0; e 11 0x0; e 11 0x0; e 11 0x0; e 11 0x0; e 11 0x0; e 11 0x0;
  e 11 0x0; e 255 0x0; e 255 0x0; e 255 0x0; e 255 0x0; e 255 0x0; e 255 0x0; e 255 0x0;
  e 255 0x0; e 255 0x0; e 255 0x0; e 255 0x0; e 255 0x0; e 255 0x0; e 255 0x0; e 255 0x0;
  e 255 0x0; e 255 0x0; e 255 0x0; e 255 0x0; e 255 0x0; e 255 0x0; e 255 0x0; e 255 0x0;
  e 255 0x0; e 255 0x0; e 255 0x0; e 255 0x0; e 255 0x0; e 255 0x0; e 255 0x0; e 255 0x0;
  e 255 0x0; e 255 0x0; e 255 0x0; e 255 0x0; e 255 0x0; e 255 0x0; e 255 0x0; e 255 0x0;
  e 255 0x0; e 255 0x0; e 255 0x0; e 255 0x0; e 255 0x0; e 255 0x0; e 255 0x0; e 255 0x0;
  e 255 0x0; e 255 0x0; e 255 0x0; e 255 0x0; e 255 0x0; e 255 0x0; e 255 0x0; e 255 0x0;
  e 255 0x0; e 255 0x0; e 255 0x0; e 255 0x0; e 255 0x0; e 255 0x0; e 255 0x0; e 255 0x0;
  e 255 0x0; e 255 0x0; e 255 0x0; e 255 0x0; e 255 0x0; e 255 0x0; e 255 0x0; e 255 0x0;
  e 255 0x0; e 255 0x0; e 255 0x0; e 255 0x0; e 255 0x0; e 255 0x0; e 255 0x0; e 255 0x0;
  e 255 0x0; e 255 0x0; e 255 0x0; e 255 0x0; e 255 0x0; e 255 0x0; e 255 0x0; e 255 0x0;
  e 255 0x0; e 255 0x0; e 255 0x0; e 255 0x0; e 255 0x0; e 255 0x0; e 255 0x0; e 255 0x0;
  e 255 0x0; e 255 0x0; e 255 0x0; e 255 0x0; e 255 0x0; e 255 0x0; e 255 0x0; e 255 0x0;
  e 255 0x0; e 255 0x0; e 255 0x0; e 255 0x0; e 255 0x0; e 255 0x0; e 255 0x0; e 255 0x0;
  e 255 0x0; e 255 0x0; e 255 0x0; e 255 0x0; e 255 0x0; e 255 0x0; e 255 0x0; e 255 0x0;
  e 255 0x0; e 255 0x0; e 255 0x0; e 255 0x0; e 255 0x0; e 255 0x0; e 255 0x0; e 255 0x0;
  e 255 0x0; e 255 0x0; e 255 0x0; e 255 0x0; e 255 0x0; e 255 0x0; e 255 0x0; e 255 0x0;
  e 255 0x0; e 255 0x0; e 255 0x0; e 255 0x0; e 255 0x0; e 255 0x0; e 255 0x0; e 255 0x0;
  e 255 0x0; e 255 0x0; e 255 0x0; e 255 0x0; e 255 0x0; e 255 0x0; e 255 0x0; e 255 0x0;
  e 255 0x0; e 255 0x0; e 255 0x0; e 255 0x0; e 255 0x0; e 255 0x0; e 255 0x0; e 255 0x0;
  e 255 0x0; e 255 0x0; e 255 0x0; e 255 0x0; e 255 0x0; e 255 0x0; e 255 0x0; e 255 0x0;
  e 255 0x0; e 255 0x0; e 255 0x0; e 255 0x0; e 255 0x0; e 255 0x0; e 255 0x0; e 255 0x0;
  e 255 0x0; e 255 0x0; e 255 0x0; e 255 0x0; e 255 0x0; e 255 0x0; e 255 0x0; e 255 0x0
].

Definition page_80 : list unichar := [
  e 255 0x0; e 255 0x0; e 255 0x0; e 255 0x0; e 255 0x0; e 255 0x0; e 255 0x0; e 255 0x0;
  e 255 0x0; e 255 0x0; e 255 0x0; e 255 0x0; e 255 0x0; e 255 0x0; e 255 0x0; e 255 0x0;
  e 255 0x0; e 255 0x0; e 255 0x0; e 255 0x0; e 255 0x0; e 255 0x0; e 255 0x0; e 255 0x0;
  e 255 0x0; e 255 0x0; e 255 0x0; e 255 0x0; e 255 0x0; e 255 0x0; e 255 0x0; e 255 0x0;
  e 255 0x0; e 255 0x0; e 255 0x0; e 255 0x0; e 255 0x0; e 255 0x0; e 255 0x0; e 255 0x0;
  e 255 0x0; e 255 0x0; e 255 0x0; e 255 0x0; e 255 0x0; e 255 0x0; e 255 0x0; e 255 0x0;
  e 255 0x0; e 255 0x0; e 255 0x0; e 255 0x0; e 255 0x0; e 255 0x0; e 255 0x0; e 255 0x0;
  e 255 0x0; e 255 0x0; e 255 0x0; e 255 0x0; e 255 0x0; e 255 0x0; e 255 0x0; e 255 0x0;
  e 255 0x0; e 255 0x0; e 255 0x0; e 255 0x0; e 255 0x0; e 255 0x0; e 255 0x0; e 255 0x0;
  e 255 0x0; e 255 0x0; e 255 0x0; e 255 0x0; e 255 0x0; e 255 0x0; e 255 0x0; e 255 0x0;
  e 255 0x0; e 255 0x0; e 255 0x0; e 255 0x0; e 255 0x0; e 255 0x0; e 255 0x0; e 255 0x0;
  e 255 0x0; e 255 0x0; e 255 0x0; e 255 0x0; e 255 0x0; e 255 0x0; e 255 0x0; e 255 0x0;
  e 132 0x0; e 133 0x0; e 134 0x0; e 135 0x0; e 136 0x0; e 137 0x0; e 138 0x0; e 139 0x0;
  e 140 0x0; e 131 0x0; e 131 0x0; e 131 0x0; e 131 0x0; e 131 0x0; e 131 0x0; e 131 0x0;
  e 131 0x0; e 131 0x0; e 131 0x0; e 131 0x0; e 131 0x0; e 131 0x0; e 131 0x0; e 131 0x0;
  e 131 0x0; e 131 0x0; e 131 0x0; e 131 0x0; e 131 0x0; e 131 0x0; e 131 0x0; e 255 0x0;
  e 255 0x0; e 255 0x0; e 255 0x0; e 255 0x0; e 255 0x0; e 255 0x0; e 255 0x0; e 255 0x0;
  e 255 0x0; e 255 0x0; e 255 0x0; e 255 0x0; e 255 0x0; e 255 0x0; e 255 0x0; e 255 0x0;
  e 255 0x0; e 255 0x0; e 255 0x0; e 255 0x0; e 255 0x0; e 255 0x0; e 255 0x0; e 255 0x0;
  e 255 0x0; e 255 0x0; e 255 0x0; e 255 0x0; e 255 0x0; e 255 0x0; e 255 0x0; e 255 0x0;
  e 255 0x0; e 255 0x0; e 255 0x0; e 255 0x0; e 255 0x0; e 255 0x0; e 255 0x0; e 255 0x0;
  e 255 0x0; e 255 0x0; e 255 0x0; e 255 0x0; e 255 0x0; e 255 0x0; e 255 0x0; e 255 0x0;
  e 255 0x0; e 255 0x0; e 255 0x0; e 255 0x0; e 255 0x0; e 255 0x0; e 255 0x0; e 255 0x0;
  e 255 0x0; e 255 0x0; e 255 0x0; e 255 0x0; e 255 0x0; e 255 0x0; e 255 0x0; e 255 0x0;
  e 255 0x0; e 255 0x0; e 255 0x0; e 255 0x0; e 255 0x0; e 255 0x0; e 255 0x0; e 255 0x0;
  e 255 0x0; e 255 0x0; e 255 0x0; e 255 0x0; e 255 0x0; e 255 0x0; e 255 0x0; e 255 0x0;
  e 255 0x0; e 255 0x0; e 255 0x0; e 255 0x0; e 255 0x0; e 255 0x0; e 255 0x0; e 255 0x0;
  e 255 0x0; e 255 0x0; e 255 0x0; e 255 0x0; e 255 0x0; e 255 0x0; e 255 0x0; e 255 0x0;
  e 255 0x0; e 255 0x0; e 255 0x0; e 255 0x0; e 255 0x0; e 255 0x0; e 255 0x0; e 255 0x0;
  e 255 0x0; e 255 0x0; e 255 0x0; e 255 0x0; e 255 0x0; e 255 0x0; e 255 0x0; e 255 0x0;
  e 255 0x0; e 255 0x0; e 255 0x0; e 255 0x0; e 255 0x0; e 255 0x0; e 255 0x0; e 255 0x0;
  e 255 0x0; e 255 0x0; e 255 0x0; e 255 0x0; e 255 0x0; e 255 0x0; e 255 0x0; e 255 0x0
].

Definition page_81 : list unichar := [
  e 29 0x0; e 36 0x0; e 29 0x0; e 10 0x0; e 10 0x0; e 10 0x0; e 10 0x0; e 10 0x0;
  e 10 0x0; e 10 0x0; e 10 0x0; e 10 0x0; e 10 0x0; e 10 0x0; e 10 0x0; e 10 0x0;
  e 10 0x0; e 10 0x0; e 10 0x0; e 10 0x0; e 10 0x0; e 10 0x0; e 10 0x0; e 10 0x0;
  e 10 0x0; e 10 0x0; e 10 0x0; e 10 0x0; e 10 0x0; e 10 0x0; e 10 0x0; e 10 0x0;
  e 10 0x0; e 10 0x0; e 10 0x0; e 10 0x0; e 10 0x0; e 10 0x0; e 10 0x0; e 10 0x0;
  e 10 0x0; e 10 0x0; e 10 0x0; e 10 0x0; e 10 0x0; e 10 0x0; e 10 0x0; e 10 0x0;
  e 10 0x0; e 10 0x0; e 10 0x0; e 10 0x0; e 10 0x0; e 10 0x0; e 10 0x0; e 10 0x0;
  e 36 0x0; e 36 0x0; e 36 0x0; e 36 0x0; e 36 0x0; e 36 0x0; e 36 0x0; e 36 0x0;
  e 36 0x0; e 36 0x0; e 36 0x0; e 36 0x0; e 36 0x0; e 36 0x0; e 40 0x0; e 192 0x0;
  e 192 0x0; e 192 0x0; e 192 0x0; e 192 0x0; e 192 0x0; e 192 0x0; e 255 0x0; e 255 0x0;
  e 255 0x0; e 255 0x0; e 164 0x0; e 165 0x0; e 166 0x0; e 167 0x0; e 168 0x0; e 169 0x0;
  e 170 0x0; e 171 0x0; e 172 0x0; e 162 0x0; e 162 0x0; e 162 0x0; e 162 0x0; e 162 0x0;
  e 162 0x0; e 162 0x0; e 162 0x0; e 162 0x0; e 162 0x0; e 162 0x0; e 109 0x0; e 110 0x0;
  e 111 0x0; e 112 0x0; e 113 0x0; e 114 0x0; e 115 0x0; e 116 0x0; e 117 0x0; e 118 0x0;
  e 255 0x0; e 255 0x0; e 255 0x0; e 255 0x0; e 255 0x0; e 255 0x0; e 255 0x0; e 255 0x0;
  e 255 0x0; e 255 0x0; e 255 0x0; e 255 0x0; e 255 0x0; e 255 0x0; e 255 0x0; e 255 0x0;
  e 36 0x0; e 36 0x0; e 29 0x0; e 10 0x0; e 10 0x0; e 10 0x0; e 10 0x0; e 10 0x0;
  e 10 0x0; e 10 0x0; e 10 0x0; e 10 0x0; e 10 0x0; e 10 0x0; e 10 0x0; e 10 0x0;
  e 10 0x0; e 10 0x0; e 10 0x0; e 10 0x0; e 10 0x0; e 10 0x0; e 10 0x0; e 10 0x0;
  e 10 0x0; e 10 0x0; e 10 0x0; e 10 0x0; e 10 0x0; e 10 0x0; e 10 0x0; e 10 0x0;
  e 10 0x0; e 10 0x0; e 10 0x0; e 10 0x0; e 10 0x0; e 10 0x0; e 10 0x0; e 10 0x0;
  e 10 0x0; e 10 0x0; e 10 0x0; e 10 0x0; e 10 0x0; e 10 0x0; e 10 0x0; e 10 0x0;
  e 29 0x0; e 29 0x0; e 29 0x0; e 36 0x0; e 36 0x0; e 36 0x0; e 36 0x0; e 29 0x0;
  e 29 0x0; e 40 0x0; e 38 0x0; e 192 0x0; e 192 0x0; e 19 0x0; e 192 0x0; e 192 0x0;
  e 192 0x0; e 192 0x0; e 255 0x0; e 255 0x0; e 255 0x0; e 255 0x0; e 255 0x0; e 255 0x0;
  e 255 0x0; e 255 0x0; e 255 0x0; e 255 0x0; e 255 0x0; e 255 0x0; e 255 0x0; e 255 0x0;
  e 10 0x0; e 10 0x0; e 10 0x0; e 10 0x0; e 10 0x0; e 10 0x0; e 10 0x0; e 10 0x0;
  e 10 0x0; e 10 0x0; e 10 0x0; e 10 0x0; e 10 0x0; e 10 0x0; e 10 0x0; e 10 0x0;
  e 10 0x0; e 10 0x0; e 10 0x0; e 10 0x0; e 10 0x0; e 10 0x0; e 10 0x0; e 10 0x0;
  e 10 0x0; e 255 0x0; e 255 0x0; e 255 0x0; e 255 0x0; e 255 0x0; e 255 0x0; e 255 0x0;
  e 109 0x0; e 110 0x0; e 111 0x0; e 112 0x0; e 113 0x0; e 114 0x0; e 115 0x0; e 116 0x0;
  e 117 0x0; e 118 0x0; e 255 0x0; e 255 0x0; e 255 0x0; e 255 0x0; e 255 0x0; e 255 0x0
].

Definition page_82 : list unichar := [
  e 84 0x0; e 84 0x0; e 84 0x0; e 10 0x0; e 10 0x0; e 10 0x0; e 10 0x0; e 10 0x0;
  e 10 0x0; e 10 0x0; e 10 0x0; e 10 0x0; e 10 0x0; e 10 0x0; e 10 0x0; e 10 0x0;
  e 10 0x0; e 10 0x0; e 10 0x0; e 10 0x0; e 10 0x0; e 10 0x0; e 10 0x0; e 10 0x0;
  e 10 0x0; e 10 0x0; e 10 0x0; e 10 0x0; e 10 0x0; e 10 0x0; e 10 0x0; e 10 0x0;
  e 10 0x0; e 10 0x0; e 10 0x0; e 10 0x0; e 10 0x0; e 10 0x0; e 10 0x0; e 36 0x0;
  e 36 0x0; e 36 0x0; e 36 0x0; e 36 0x0; e 29 0x0; e 36 0x0; e 36 0x0; e 36 0x0;
  e 36 0x0; e 36 0x0; e 36 0x0; e 40 0x0; e 40 0x0; e 255 0x0; e 109 0x0; e 110 0x0;
  e 111 0x0; e 112 0x0; e 113 0x0; e 114 0x0; e 115 0x0; e 116 0x0; e 117 0x0; e 118 0x0;
  e 192 0x0; e 192 0x0; e 192 0x0; e 192 0x0; e 255 0x0; e 255 0x0; e 255 0x0; e 255 0x0;
  e 255 0x0; e 255 0x0; e 255 0x0; e 255 0x0; e 255 0x0; e 255 0x0; e 255 0x0; e 255 0x0;
  e 255 0x0; e 255 0x0; e 255 0x0; e 255 0x0; e 255 0x0; e 255 0x0; e 255 0x0; e 255 0x0;
  e 255 0x0; e 255 0x0; e 255 0x0; e 255 0x0; e 255 0x0; e 255 0x0; e 255 0x0; e 255 0x0;
  e 255 0x0; e 255 0x0; e 255 0x0; e 255 0x0; e 255 0x0; e 255 0x0; e 255 0x0; e 255 0x0;
  e 255 0x0; e 255 0x0; e 255 0x0; e 255 0x0; e 255 0x0; e 255 0x0; e 255 0x0; e 255 0x0;
  e 255 0x0; e 255 0x0; e 255 0x0; e 255 0x0; e 255 0x0; e 255 0x0; e 255 0x0; e 255 0x0;
  e 255 0x0; e 255 0x0; e 255 0x0; e 255 0x0; e 255 0x0; e 255 0x0; e 255 0x0; e 255 0x0;
  e 36 0x0; e 36 0x0; e 29 0x0; e 10 0x0; e 10 0x0; e 10 0x0; e 10 0x0; e 10 0x0;
  e 10 0x0; e 10 0x0; e 10 0x0; e 10 0x0; e 10 0x0; e 10 0x0; e 10 0x0; e 10 0x0;
  e 10 0x0; e 10 0x0; e 10 0x0; e 10 0x0; e 10 0x0; e 10 0x0; e 10 0x0; e 10 0x0;
  e 10 0x0; e 10 0x0; e 10 0x0; e 10 0x0; e 10 0x0; e 10 0x0; e 10 0x0; e 10 0x0;
  e 10 0x0; e 10 0x0; e 10 0x0; e 10 0x0; e 10 0x0; e 10 0x0; e 10 0x0; e 10 0x0;
  e 10 0x0; e 10 0x0; e 10 0x0; e 10 0x0; e 10 0x0; e 10 0x0; e 10 0x0; e 10 0x0;
  e 10 0x0; e 10 0x0; e 10 0x0; e 29 0x0; e 29 0x0; e 29 0x0; e 36 0x0; e 36 0x0;
  e 36 0x0; e 36 0x0; e 36 0x0; e 36 0x0; e 36 0x0; e 36 0x0; e 36 0x0; e 29 0x0;
  e 30 0x0; e 10 0x0; e 10 0x0; e 10 0x0; e 10 0x0; e 192 0x0; e 192 0x0; e 192 0x0;
  e 192 0x0; e 255 0x0; e 255 0x0; e 255 0x0; e 255 0x0; e 255 0x0; e 255 0x0; e 255 0x0;
  e 109 0x0; e 110 0x0; e 111 0x0; e 112 0x0; e 113 0x0; e 114 0x0; e 115 0x0; e 116 0x0;
  e 117 0x0; e 118 0x0; e 255 0x0; e 255 0x0; e 255 0x0; e 255 0x0; e 255 0x0; e 255 0x0;
  e 255 0x0; e 255 0x0; e 255 0x0; e 255 0x0; e 255 0x0; e 255 0x0; e 255 0x0; e 255 0x0;
  e 255 0x0; e 255 0x0; e 255 0x0; e 255 0x0; e 255 0x0; e 255 0x0; e 255 0x0; e 255 0x0;
  e 255 0x0; e 255 0x0; e 255 0x0; e 255 0x0; e 255 0x0; e 255 0x0; e 255 0x0; e 255 0x0;
  e 255 0x0; e 255 0x0; e 255 0x0; e 255 0x0; e 255 0x0; e 255 0x0; e 255 0x0; e 255 0x0
].

Definition page_83 : list unichar := [
  e 255 0x0; e 255 0x0; e 255 0x0; e 255 0x0; e 255 0x0; e 255 0x0; e 255 0x0; e 255 0x0;
  e 255 0x0; e 255 0x0; e 255 0x0; e 255 0x0; e 255 0x0; e 255 0x0; e 255 0x0; e 255 0x0;
  e 255 0x0; e 255 0x0; e 255 0x0; e 255 0x0; e 255 0x0; e 255 0x0; e 255 0x0; e 255 0x0;
  e 255 0x0; e 255 0x0; e 255 0x0; e 255 0x0; e 255 0x0; e 255 0x0; e 255 0x0; e 255 0x0;
  e 255 0x0; e 255 0x0; e 255 0x0; e 255 0x0; e 255 0x0; e 255 0x0; e 255 0x0; e 255 0x0;
  e 255 0x0; e 255 0x0; e 255 0x0; e 255 0x0; e 255 0x0; e 255 0x0; e 255 0x0; e 255 0x0;
  e 255 0x0; e 255 0x0; e 255 0x0; e 255 0x0; e 255 0x0; e 255 0x0; e 255 0x0; e 255 0x0;
  e 255 0x0; e 255 0x0; e 255 0x0; e 255 0x0; e 255 0x0; e 255 0x0; e 255 0x0; e 255 0x0;
  e 255 0x0; e 255 0x0; e 255 0x0; e 255 0x0; e 255 0x0; e 255 0x0; e 255 0x0; e 255 0x0;
  e 255 0x0; e 255 0x0; e 255 0x0; e 255 0x0; e 255 0x0; e 255 0x0; e 255 0x0; e 255 0x0;
  e 255 0x0; e 255 0x0; e 255 0x0; e 255 0x0; e 255 0x0; e 255 0x0; e 255 0x0; e 255 0x0;
  e 255 0x0; e 255 0x0; e 255 0x0; e 255 0x0; e 255 0x0; e 255 0x0; e 255 0x0; e 255 0x0;
  e 255 0x0; e 255 0x0; e 255 0x0; e 255 0x0; e 255 0x0; e 255 0x0; e 255 0x0; e 255 0x0;
  e 255 0x0; e 255 0x0; e 255 0x0; e 255 0x0; e 255 0x0; e 255 0x0; e 255 0x0; e 255 0x0;
  e 255 0x0; e 255 0x0; e 255 0x0; e 255 0x0; e 255 0x0; e 255 0x0; e 255 0x0; e 255 0x0;
  e 255 0x0; e 255 0x0; e 255 0x0; e 255 0x0; e 255 0x0; e 255 0x0; e 255 0x0; e 255 0x0;
  e 10 0x0; e 10 0x0; e 10 0x0; e 10 0x0; e 10 0x0; e 10 0x0; e 10 0x0; e 10 0x0;
  e 10 0x0; e 10 0x0; e 10 0x0; e 10 0x0; e 10 0x0; e 10 0x0; e 10 0x0; e 10 0x0;
  e 10 0x0; e 10 0x0; e 10 0x0; e 10 0x0; e 10 0x0; e 10 0x0; e 10 0x0; e 10 0x0;
  e 10 0x0; e 10 0x0; e 10 0x0; e 10 0x0; e 10 0x0; e 10 0x0; e 10 0x0; e 10 0x0;
  e 10 0x0; e 10 0x0; e 10 0x0; e 10 0x0; e 10 0x0; e 10 0x0; e 10 0x0; e 10 0x0;
  e 10 0x0; e 10 0x0; e 10 0x0; e 36 0x0; e 29 0x0; e 36 0x0; e 29 0x0; e 29 0x0;
  e 36 0x0; e 36 0x0; e 36 0x0; e 36 0x0; e 36 0x0; e 36 0x0; e 30 0x0; e 38 0x0;
  e 255 0x0; e 255 0x0; e 255 0x0; e 255 0x0; e 255 0x0; e 255 0x0; e 255 0x0; e 255 0x0;
  e 109 0x0; e 110 0x0; e 111 0x0; e 112 0x0; e 113 0x0; e 114 0x0; e 115 0x0; e 116 0x0;
  e 117 0x0; e 118 0x0; e 255 0x0; e 255 0x0; e 255 0x0; e 255 0x0; e 255 0x0; e 255 0x0;
  e 255 0x0; e 255 0x0; e 255 0x0; e 255 0x0; e 255 0x0; e 255 0x0; e 255 0x0; e 255 0x0;
  e 255 0x0; e 255 0x0; e 255 0x0; e 255 0x0; e 255 0x0; e 255 0x0; e 255 0x0; e 255 0x0;
  e 255 0x0; e 255 0x0; e 255 0x0; e 255 0x0; e 255 0x0; e 255 0x0; e 255 0x0; e 255 0x0;
  e 255 0x0; e 255 0x0; e 255 0x0; e 255 0x0; e 255 0x0; e 255 0x0; e 255 0x0; e 255 0x0;
  e 255 0x0; e 255 0x0; e 255 0x0; e 255 0x0; e 255 0x0; e 255 0x0; e 255 0x0; e 255 0x0;
  e 255 0x0; e 255 0x0; e 255 0x0; e 255 0x0; e 255 0x0; e 255 0x0; e 255 0x0; e 255 0x0
].

Definition page_84 : list unichar := [
  e 10 0x0; e 10 0x0; e 10 0x0; e 10 0x0; e 10 0x0; e 10 0x0; e 10 0x0; e 10 0x0;
  e 10 0x0; e 10 0x0; e 10 0x0; e 10 0x0; e 10 0x0; e 10 0x0; e 10 0x0; e 10 0x0;
  e 10 0x0; e 10 0x0; e 10 0x0; e 10 0x0; e 10 0x0; e 10 0x0; e 10 0x0; e 10 0x0;
  e 10 0x0; e 10 0x0; e 10 0x0; e 10 0x0; e 10 0x0; e 10 0x0; e 10 0x0; e 10 0x0;
  e 10 0x0; e 10 0x0; e 10 0x0; e 10 0x0; e 10 0x0; e 10 0x0; e 10 0x0; e 10 0x0;
  e 10 0x0; e 10 0x0; e 10 0x0; e 10 0x0; e 10 0x0; e 10 0x0; e 10 0x0; e 10 0x0;
  e 10 0x0; e 10 0x0; e 10 0x0; e 10 0x0; e 10 0x0; e 10 0x0; e 10 0x0; e 10 0x0;
  e 10 0x0; e 10 0x0; e 10 0x0; e 10 0x0; e 10 0x0; e 10 0x0; e 10 0x0; e 10 0x0;
  e 10 0x0; e 10 0x0; e 10 0x0; e 10 0x0; e 10 0x0; e 10 0x0; e 10 0x0; e 10 0x0;
  e 10 0x0; e 10 0x0; e 10 0x0; e 10 0x0; e 10 0x0; e 10 0x0; e 10 0x0; e 10 0x0;
  e 10 0x0; e 10 0x0; e 10 0x0; e 10 0x0; e 10 0x0; e 10 0x0; e 10 0x0; e 10 0x0;
  e 10 0x0; e 10 0x0; e 10 0x0; e 10 0x0; e 10 0x0; e 10 0x0; e 10 0x0; e 10 0x0;
  e 10 0x0; e 10 0x0; e 10 0x0; e 10 0x0; e 10 0x0; e 10 0x0; e 10 0x0; e 10 0x0;
  e 10 0x0; e 10 0x0; e 10 0x0; e 10 0x0; e 10 0x0; e 10 0x0; e 10 0x0; e 255 0x0;
  e 255 0x0; e 255 0x0; e 255 0x0; e 255 0x0; e 255 0x0; e 255 0x0; e 255 0x0; e 255 0x0;
  e 255 0x0; e 255 0x0; e 255 0x0; e 255 0x0; e 255 0x0; e 255 0x0; e 255 0x0; e 255 0x0;
  e 255 0x0; e 255 0x0; e 255 0x0; e 255 0x0; e 255 0x0; e 255 0x0; e 255 0x0; e 255 0x0;
  e 255 0x0; e 255 0x0; e 255 0x0; e 255 0x0; e 255 0x0; e 255 0x0; e 255 0x0; e 255 0x0;
  e 255 0x0; e 255 0x0; e 255 0x0; e 255 0x0; e 255 0x0; e 255 0x0; e 255 0x0; e 255 0x0;
  e 255 0x0; e 255 0x0; e 255 0x0; e 255 0x0; e 255 0x0; e 255 0x0; e 255 0x0; e 255 0x0;
  e 255 0x0; e 255 0x0; e 255 0x0; e 255 0x0; e 255 0x0; e 255 0x0; e 255 0x0; e 255 0x0;
  e 255 0x0; e 255 0x0; e 255 0x0; e 255 0x0; e 255 0x0; e 255 0x0; e 255 0x0; e 255 0x0;
  e 255 0x0; e 255 0x0; e 255 0x0; e 255 0x0; e 255 0x0; e 255 0x0; e 255 0x0; e 255 0x0;
  e 255 0x0; e 255 0x0; e 255 0x0; e 255 0x0; e 255 0x0; e 255 0x0; e 255 0x0; e 255 0x0;
  e 255 0x0; e 255 0x0; e 255 0x0; e 255 0x0; e 255 0x0; e 255 0x0; e 255 0x0; e 255 0x0;
  e 255 0x0; e 255 0x0; e 255 0x0; e 255 0x0; e 255 0x0; e 255 0x0; e 255 0x0; e 255 0x0;
  e 255 0x0; e 255 0x0; e 255 0x0; e 255 0x0; e 255 0x0; e 255 0x0; e 255 0x0; e 255 0x0;
  e 255 0x0; e 255 0x0; e 255 0x0; e 255 0x0; e 255 0x0; e 255 0x0; e 255 0x0; e 255 0x0;
  e 255 0x0; e 255 0x0; e 255 0x0; e 255 0x0; e 255 0x0; e 255 0x0; e 255 0x0; e 255 0x0;
  e 255 0x0; e 255 0x0; e 255 0x0; e 255 0x0; e 255 0x0; e 255 0x0; e 255 0x0; e 255 0x0;
  e 255 0x0; e 255 0x0; e 255 0x0; e 255 0x0; e 255 0x0; e 255 0x0; e 255 0x0; e 255 0x0;
  e 255 0x0; e 255 0x0; e 255 0x0; e 255 0x0; e 255 0x0; e 255 0x0; e 255 0x0; e 255 0x0
].

Definition page_85 : list unichar := [
  e 129 0x0; e 129 0x0; e 129 0x0; e 129 0x0; e 129 0x0; e 129 0x0; e 129 0x0; e 129 0x0;
  e 129 0x0; e 129 0x0; e 129 0x0; e 129 0x0; e 129 0x0; e 129 0x0; e 129 0x0; e 129 0x0;
  e 129 0x0; e 129 0x0; e 129 0x0; e 129 0x0; e 129 0x0; e 129 0x0; e 129 0x0; e 129 0x0;
  e 129 0x0; e 129 0x0; e 129 0x0; e 129 0x0; e 129 0x0; e 129 0x0; e 129 0x0; e 129 0x0;
  e 129 0x0; e 129 0x0; e 129 0x0; e 129 0x0; e 129 0x0; e 129 0x0; e 129 0x0; e 129 0x0;
  e 129 0x0; e 129 0x0; e 129 0x0; e 129 0x0; e 129 0x0; e 129 0x0; e 129 0x0; e 129 0x0;
  e 129 0x0; e 129 0x0; e 129 0x0; e 129 0x0; e 129 0x0; e 129 0x0; e 129 0x0; e 129 0x0;
  e 129 0x0; e 129 0x0; e 129 0x0; e 129 0x0; e 129 0x0; e 129 0x0; e 129 0x0; e 129 0x0;
  e 129 0x0; e 129 0x0; e 129 0x0; e 129 0x0; e 129 0x0; e 129 0x0; e 129 0x0; e 129 0x0;
  e 129 0x0; e 129 0x0; e 129 0x0; e 129 0x0; e 129 0x0; e 129 0x0; e 129 0x0; e 129 0x0;
  e 129 0x0; e 129 0x0; e 129 0x0; e 129 0x0; e 129 0x0; e 129 0x0; e 129 0x0; e 129 0x0;
  e 129 0x0; e 129 0x0; e 129 0x0; e 129 0x0; e 129 0x0; e 129 0x0; e 129 0x0; e 129 0x0;
  e 129 0x0; e 129 0x0; e 129 0x0; e 255 0x0; e 255 0x0; e 255 0x0; e 255 0x0; e 255 0x0;
  e 255 0x0; e 255 0x0; e 255 0x0; e 255 0x0; e 255 0x0; e 255 0x0; e 255 0x0; e 255 0x0;
  e 192 0x0; e 192 0x0; e 192 0x0; e 192 0x0; e 255 0x0; e 255 0x0; e 255 0x0; e 255 0x0;
  e 255 0x0; e 255 0x0; e 255 0x0; e 255 0x0; e 255 0x0; e 255 0x0; e 255 0x0; e 255 0x0;
  e 255 0x0; e 255 0x0; e 255 0x0; e 255 0x0; e 255 0x0; e 255 0x0; e 255 0x0; e 255 0x0;
  e 255 0x0; e 255 0x0; e 255 0x0; e 255 0x0; e 255 0x0; e 255 0x0; e 255 0x0; e 255 0x0;
  e 255 0x0; e 255 0x0; e 255 0x0; e 255 0x0; e 255 0x0; e 255 0x0; e 255 0x0; e 255 0x0;
  e 255 0x0; e 255 0x0; e 255 0x0; e 255 0x0; e 255 0x0; e 255 0x0; e 255 0x0; e 255 0x0;
  e 255 0x0; e 255 0x0; e 255 0x0; e 255 0x0; e 255 0x0; e 255 0x0; e 255 0x0; e 255 0x0;
  e 255 0x0; e 255 0x0; e 255 0x0; e 255 0x0; e 255 0x0; e 255 0x0; e 255 0x0; e 255 0x0;
  e 255 0x0; e 255 0x0; e 255 0x0; e 255 0x0; e 255 0x0; e 255 0x0; e 255 0x0; e 255 0x0;
  e 255 0x0; e 255 0x0; e 255 0x0; e 255 0x0; e 255 0x0; e 255 0x0; e 255 0x0; e 255 0x0;
  e 255 0x0; e 255 0x0; e 255 0x0; e 255 0x0; e 255 0x0; e 255 0x0; e 255 0x0; e 255 0x0;
  e 255 0x0; e 255 0x0; e 255 0x0; e 255 0x0; e 255 0x0; e 255 0x0; e 255 0x0; e 255 0x0;
  e 255 0x0; e 255 0x0; e 255 0x0; e 255 0x0; e 255 0x0; e 255 0x0; e 255 0x0; e 255 0x0;
  e 255 0x0; e 255 0x0; e 255 0x0; e 255 0x0; e 255 0x0; e 255 0x0; e 255 0x0; e 255 0x0;
  e 255 0x0; e 255 0x0; e 255 0x0; e 255 0x0; e 255 0x0; e 255 0x0; e 255 0x0; e 255 0x0;
  e 255 0x0; e 255 0x0; e 255 0x0; e 255 0x0; e 255 0x0; e 255 0x0; e 255 0x0; e 255 0x0;
  e 255 0x0; e 255 0x0; e 255 0x0; e 255 0x0; e 255 0x0; e 255 0x0; e 255 0x0; e 255 0x0;
  e 255 0x0; e 255 0x0; e 255 0x0; e 255 0x0; e 255 0x0; e 255 0x0; e 255 0x0; e 255 0x0
].

Definition page_86 : list unichar := [
  e 10 0x0; e 10 0x0; e 10 0x0; e 10 0x0; e 10 0x0; e 10 0x0; e 10 0x0; e 10 0x0;
  e 10 0x0; e 10 0x0; e 10 0x0; e 10 0x0; e 10 0x0; e 10 0x0; e 10 0x0; e 10 0x0;
  e 10 0x0; e 10 0x0; e 10 0x0; e 10 0x0; e 10 0x0; e 10 0x0; e 10 0x0; e 10 0x0;
  e 10 0x0; e 10 0x0; e 10 0x0; e 10 0x0; e 10 0x0; e 10 0x0; e 10 0x0; e 10 0x0;
  e 10 0x0; e 10 0x0; e 10 0x0; e 10 0x0; e 10 0x0; e 10 0x0; e 10 0x0; e 10 0x0;
  e 10 0x0; e 10 0x0; e 10 0x0; e 10 0x0; e 10 0x0; e 10 0x0; e 10 0x0; e 255 0x0;
  e 255 0x0; e 255 0x0; e 255 0x0; e 255 0x0; e 255 0x0; e 255 0x0; e 255 0x0; e 255 0x0;
  e 255 0x0; e 255 0x0; e 255 0x0; e 255 0x0; e 255 0x0; e 255 0x0; e 255 0x0; e 255 0x0;
  e 255 0x0; e 255 0x0; e 255 0x0; e 255 0x0; e 255 0x0; e 255 0x0; e 255 0x0; e 255 0x0;
  e 255 0x0; e 255 0x0; e 255 0x0; e 255 0x0; e 255 0x0; e 255 0x0; e 255 0x0; e 255 0x0;
  e 255 0x0; e 255 0x0; e 255 0x0; e 255 0x0; e 255 0x0; e 255 0x0; e 255 0x0; e 255 0x0;
  e 255 0x0; e 255 0x0; e 255 0x0; e 255 0x0; e 255 0x0; e 255 0x0; e 255 0x0; e 255 0x0;
  e 255 0x0; e 255 0x0; e 255 0x0; e 255 0x0; e 255 0x0; e 255 0x0; e 255 0x0; e 255 0x0;
  e 255 0x0; e 255 0x0; e 255 0x0; e 255 0x0; e 255 0x0; e 255 0x0; e 255 0x0; e 255 0x0;
  e 255 0x0; e 255 0x0; e 255 0x0; e 255 0x0; e 255 0x0; e 255 0x0; e 255 0x0; e 255 0x0;
  e 255 0x0; e 255 0x0; e 255 0x0; e 255 0x0; e 255 0x0; e 255 0x0; e 255 0x0; e 255 0x0;
  e 255 0x0; e 255 0x0; e 255 0x0; e 255 0x0; e 255 0x0; e 255 0x0; e 255 0x0; e 255 0x0;
  e 255 0x0; e 255 0x0; e 255 0x0; e 255 0x0; e 255 0x0; e 255 0x0; e 255 0x0; e 255 0x0;
  e 255 0x0; e 255 0x0; e 255 0x0; e 255 0x0; e 255 0x0; e 255 0x0; e 255 0x0; e 255 0x0;
  e 255 0x0; e 255 0x0; e 255 0x0; e 255 0x0; e 255 0x0; e 255 0x0; e 255 0x0; e 255 0x0;
  e 255 0x0; e 255 0x0; e 255 0x0; e 255 0x0; e 255 0x0; e 255 0x0; e 255 0x0; e 255 0x0;
  e 255 0x0; e 255 0x0; e 255 0x0; e 255 0x0; e 255 0x0; e 255 0x0; e 255 0x0; e 255 0x0;
  e 255 0x0; e 255 0x0; e 255 0x0; e 255 0x0; e 255 0x0; e 255 0x0; e 255 0x0; e 255 0x0;
  e 255 0x0; e 255 0x0; e 255 0x0; e 255 0x0; e 255 0x0; e 255 0x0; e 255 0x0; e 255 0x0;
  e 255 0x0; e 255 0x0; e 255 0x0; e 255 0x0; e 255 0x0; e 255 0x0; e 255 0x0; e 255 0x0;
  e 255 0x0; e 255 0x0; e 255 0x0; e 255 0x0; e 255 0x0; e 255 0x0; e 255 0x0; e 255 0x0;
  e 255 0x0; e 255 0x0; e 255 0x0; e 255 0x0; e 255 0x0; e 255 0x0; e 255 0x0; e 255 0x0;
  e 255 0x0; e 255 0x0; e 255 0x0; e 255 0x0; e 255 0x0; e 255 0x0; e 255 0x0; e 255 0x0;
  e 255 0x0; e 255 0x0; e 255 0x0; e 255 0x0; e 255 0x0; e 255 0x0; e 255 0x0; e 255 0x0;
  e 255 0x0; e 255 0x0; e 255 0x0; e 255 0x0; e 255 0x0; e 255 0x0; e 255 0x0; e 255 0x0;
  e 255 0x0; e 255 0x0; e 255 0x0; e 255 0x0; e 255 0x0; e 255 0x0; e 255 0x0; e 255 0x0;
  e 255 0x0; e 255 0x0; e 255 0x0; e 255 0x0; e 255 0x0; e 255 0x0; e 255 0x0; e 255 0x0
].

Definition page_87 : list unichar := [
  e 10 0x0; e 10 0x0; e 10 0x0; e 10 0x0; e 10 0x0; e 10 0x0; e 10 0x0; e 10 0x0;
  e 10 0x0; e 10 0x0; e 10 0x0; e 10 0x0; e 10 0x0; e 10 0x0; e 10 0x0; e 10 0x0;
  e 10 0x0; e 10 0x0; e 10 0x0; e 10 0x0; e 10 0x0; e 10 0x0; e 10 0x0; e 10 0x0;
  e 10 0x0; e 10 0x0; e 10 0x0; e 10 0x0; e 10 0x0; e 10 0x0; e 10 0x0; e 10 0x0;
  e 10 0x0; e 10 0x0; e 10 0x0; e 10 0x0; e 10 0x0; e 10 0x0; e 10 0x0; e 10 0x0;
  e 10 0x0; e 10 0x0; e 10 0x0; e 10 0x0; e 10 0x0; e 10 0x0; e 10 0x0; e 10 0x0;
  e 10 0x0; e 10 0x0; e 10 0x0; e 10 0x0; e 10 0x0; e 10 0x0; e 10 0x0; e 10 0x0;
  e 10 0x0; e 255 0x0; e 255 0x0; e 255 0x0; e 255 0x0; e 255 0x0; e 255 0x0; e 255 0x0;
  e 255 0x0; e 255 0x0; e 255 0x0; e 255 0x0; e 255 0x0; e 255 0x0; e 255 0x0; e 255 0x0;
  e 255 0x0; e 255 0x0; e 255 0x0; e 255 0x0; e 255 0x0; e 255 0x0; e 255 0x0; e 255 0x0;
  e 255 0x0; e 255 0x0; e 255 0x0; e 255 0x0; e 255 0x0; e 255 0x0; e 255 0x0; e 255 0x0;
  e 255 0x0; e 255 0x0; e 255 0x0; e 255 0x0; e 255 0x0; e 255 0x0; e 255 0x0; e 255 0x0;
  e 255 0x0; e 255 0x0; e 255 0x0; e 255 0x0; e 255 0x0; e 255 0x0; e 255 0x0; e 255 0x0;
  e 255 0x0; e 255 0x0; e 255 0x0; e 255 0x0; e 255 0x0; e 255 0x0; e 255 0x0; e 255 0x0;
  e 255 0x0; e 255 0x0; e 255 0x0; e 255 0x0; e 255 0x0; e 255 0x0; e 255 0x0; e 255 0x0;
  e 255 0x0; e 255 0x0; e 255 0x0; e 255 0x0; e 255 0x0; e 255 0x0; e 255 0x0; e 255 0x0;
  e 255 0x0; e 255 0x0; e 255 0x0; e 255 0x0; e 255 0x0; e 255 0x0; e 255 0x0; e 255 0x0;
  e 255 0x0; e 255 0x0; e 255 0x0; e 255 0x0; e 255 0x0; e 255 0x0; e 255 0x0; e 255 0x0;
  e 255 0x0; e 255 0x0; e 255 0x0; e 255 0x0; e 255 0x0; e 255 0x0; e 255 0x0; e 255 0x0;
  e 255 0x0; e 255 0x0; e 255 0x0; e 255 0x0; e 255 0x0; e 255 0x0; e 255 0x0; e 255 0x0;
  e 255 0x0; e 255 0x0; e 255 0x0; e 255 0x0; e 255 0x0; e 255 0x0; e 255 0x0; e 255 0x0;
  e 255 0x0; e 255 0x0; e 255 0x0; e 255 0x0; e 255 0x0; e 255 0x0; e 255 0x0; e 255 0x0;
  e 255 0x0; e 255 0x0; e 255 0x0; e 255 0x0; e 255 0x0; e 255 0x0; e 255 0x0; e 255 0x0;
  e 255 0x0; e 255 0x0; e 255 0x0; e 255 0x0; e 255 0x0; e 255 0x0; e 255 0x0; e 255 0x0;
  e 255 0x0; e 255 0x0; e 255 0x0; e 255 0x0; e 255 0x0; e 255 0x0; e 255 0x0; e 255 0x0;
  e 255 0x0; e 255 0x0; e 255 0x0; e 255 0x0; e 255 0x0; e 255 0x0; e 255 0x0; e 255 0x0;
  e 255 0x0; e 255 0x0; e 255 0x0; e 255 0x0; e 255 0x0; e 255 0x0; e 255 0x0; e 255 0x0;
  e 255 0x0; e 255 0x0; e 255 0x0; e 255 0x0; e 255 0x0; e 255 0x0; e 255 0x0; e 255 0x0;
  e 255 0x0; e 255 0x0; e 255 0x0; e 255 0x0; e 255 0x0; e 255 0x0; e 255 0x0; e 255 0x0;
  e 255 0x0; e 255 0x0; e 255 0x0; e 255 0x0; e 255 0x0; e 255 0x0; e 255 0x0; e 255 0x0;
  e 255 0x0; e 255 0x0; e 255 0x0; e 255 0x0; e 255 0x0; e 255 0x0; e 255 0x0; e 255 0x0;
  e 255 0x0; e 255 0x0; e 255 0x0; e 255 0x0; e 255 0x0; e 255 0x0; e 255 0x0; e 255 0x0
].

Definition page_88 : list unichar := [
  e 10 0x0; e 10 0x0; e 10 0x0; e 10 0x0; e 10 0x0; e 10 0x0; e 10 0x0; e 10 0x0;
  e 10 0x0; e 10 0x0; e 10 0x0; e 10 0x0; e 10 0x0; e 10 0x0; e 10 0x0; e 10 0x0;
  e 10 0x0; e 10 0x0; e 10 0x0; e 10 0x0; e 10 0x0; e 10 0x0; e 10 0x0; e 10 0x0;
  e 10 0x0; e 10 0x0; e 10 0x0; e 10 0x0; e 10 0x0; e 10 0x0; e 10 0x0; e 10 0x0;
  e 10 0x0; e 10 0x0; e 10 0x0; e 10 0x0; e 10 0x0; e 10 0x0; e 10 0x0; e 10 0x0;
  e 10 0x0; e 10 0x0; e 10 0x0; e 10 0x0; e 10 0x0; e 10 0x0; e 10 0x0; e 10 0x0;
  e 10 0x0; e 10 0x0; e 10 0x0; e 10 0x0; e 10 0x0; e 10 0x0; e 10 0x0; e 10 0x0;
  e 10 0x0; e 10 0x0; e 10 0x0; e 10 0x0; e 10 0x0; e 10 0x0; e 10 0x0; e 10 0x0;
  e 10 0x0; e 10 0x0; e 10 0x0; e 10 0x0; e 10 0x0; e 255 0x0; e 255 0x0; e 255 0x0;
  e 255 0x0; e 255 0x0; e 255 0x0; e 255 0x0; e 255 0x0; e 255 0x0; e 255 0x0; e 255 0x0;
  e 10 0x0; e 29 0x0; e 29 0x0; e 29 0x0; e 29 0x0; e 29 0x0; e 29 0x0; e 29 0x0;
  e 29 0x0; e 29 0x0; e 29 0x0; e 29 0x0; e 29 0x0; e 29 0x0; e 29 0x0; e 29 0x0;
  e 29 0x0; e 29 0x0; e 29 0x0; e 29 0x0; e 29 0x0; e 29 0x0; e 29 0x0; e 29 0x0;
  e 29 0x0; e 29 0x0; e 29 0x0; e 29 0x0; e 29 0x0; e 29 0x0; e 29 0x0; e 29 0x0;
  e 29 0x0; e 29 0x0; e 29 0x0; e 29 0x0; e 29 0x0; e 29 0x0; e 29 0x0; e 29 0x0;
  e 29 0x0; e 29 0x0; e 29 0x0; e 29 0x0; e 29 0x0; e 29 0x0; e 29 0x0; e 255 0x0;
  e 255 0x0; e 255 0x0; e 255 0x0; e 255 0x0; e 255 0x0; e 255 0x0; e 255 0x0; e 255 0x0;
  e 255 0x0; e 255 0x0; e 255 0x0; e 255 0x0; e 255 0x0; e 255 0x0; e 255 0x0; e 36 0x0;
  e 36 0x0; e 36 0x0; e 36 0x0; e 6 0x0; e 6 0x0; e 6 0x0; e 6 0x0; e 6 0x0;
  e 6 0x0; e 6 0x0; e 6 0x0; e 6 0x0; e 6 0x0; e 6 0x0; e 6 0x0; e 6 0x0;
  e 255 0x0; e 255 0x0; e 255 0x0; e 255 0x0; e 255 0x0; e 255 0x0; e 255 0x0; e 255 0x0;
  e 255 0x0; e 255 0x0; e 255 0x0; e 255 0x0; e 255 0x0; e 255 0x0; e 255 0x0; e 255 0x0;
  e 255 0x0; e 255 0x0; e 255 0x0; e 255 0x0; e 255 0x0; e 255 0x0; e 255 0x0; e 255 0x0;
  e 255 0x0; e 255 0x0; e 255 0x0; e 255 0x0; e 255 0x0; e 255 0x0; e 255 0x0; e 255 0x0;
  e 255 0x0; e 255 0x0; e 255 0x0; e 255 0x0; e 255 0x0; e 255 0x0; e 255 0x0; e 255 0x0;
  e 255 0x0; e 255 0x0; e 255 0x0; e 255 0x0; e 255 0x0; e 255 0x0; e 255 0x0; e 255 0x0;
  e 255 0x0; e 255 0x0; e 255 0x0; e 255 0x0; e 255 0x0; e 255 0x0; e 255 0x0; e 255 0x0;
  e 255 0x0; e 255 0x0; e 255 0x0; e 255 0x0; e 255 0x0; e 255 0x0; e 255 0x0; e 255 0x0;
  e 255 0x0; e 255 0x0; e 255 0x0; e 255 0x0; e 255 0x0; e 255 0x0; e 255 0x0; e 255 0x0;
  e 255 0x0; e 255 0x0; e 255 0x0; e 255 0x0; e 255 0x0; e 255 0x0; e 255 0x0; e 255 0x0;
  e 255 0x0; e 255 0x0; e 255 0x0; e 255 0x0; e 255 0x0; e 255 0x0; e 255 0x0; e 255 0x0;
  e 255 0x0; e 255 0x0; e 255 0x0; e 255 0x0; e 255 0x0; e 255 0x0; e 255 0x0; e 255 0x0
].

Definition page_89 : list unichar := [
  e 10 0x0; e 10 0x0; e 255 0x0; e 255 0x0; e 255 0x0; e 255 0x0; e 255 0x0; e 255 0x0;
  e 255 0x0; e 255 0x0; e 255 0x0; e 255 0x0; e 255 0x0; e 255 0x0; e 255 0x0; e 255 0x0;
  e 255 0x0; e 255 0x0; e 255 0x0; e 255 0x0; e 255 0x0; e 255 0x0; e 255 0x0; e 255 0x0;
  e 255 0x0; e 255 0x0; e 255 0x0; e 255 0x0; e 255 0x0; e 255 0x0; e 255 0x0; e 255 0x0;
  e 255 0x0; e 255 0x0; e 255 0x0; e 255 0x0; e 255 0x0; e 255 0x0; e 255 0x0; e 255 0x0;
  e 255 0x0; e 255 0x0; e 255 0x0; e 255 0x0; e 255 0x0; e 255 0x0; e 255 0x0; e 255 0x0;
  e 255 0x0; e 255 0x0; e 255 0x0; e 255 0x0; e 255 0x0; e 255 0x0; e 255 0x0; e 255 0x0;
  e 255 0x0; e 255 0x0; e 255 0x0; e 255 0x0; e 255 0x0; e 255 0x0; e 255 0x0; e 255 0x0;
  e 255 0x0; e 255 0x0; e 255 0x0; e 255 0x0; e 255 0x0; e 255 0x0; e 255 0x0; e 255 0x0;
  e 255 0x0; e 255 0x0; e 255 0x0; e 255 0x0; e 255 0x0; e 255 0x0; e 255 0x0; e 255 0x0;
  e 255 0x0; e 255 0x0; e 255 0x0; e 255 0x0; e 255 0x0; e 255 0x0; e 255 0x0; e 255 0x0;
  e 255 0x0; e 255 0x0; e 255 0x0; e 255 0x0; e 255 0x0; e 255 0x0; e 255 0x0; e 255 0x0;
  e 255 0x0; e 255 0x0; e 255 0x0; e 255 0x0; e 255 0x0; e 255 0x0; e 255 0x0; e 255 0x0;
  e 255 0x0; e 255 0x0; e 255 0x0; e 255 0x0; e 255 0x0; e 255 0x0; e 255 0x0; e 255 0x0;
  e 255 0x0; e 255 0x0; e 255 0x0; e 255 0x0; e 255 0x0; e 255 0x0; e 255 0x0; e 255 0x0;
  e 255 0x0; e 255 0x0; e 255 0x0; e 255 0x0; e 255 0x0; e 255 0x0; e 255 0x0; e 255 0x0;
  e 255 0x0; e 255 0x0; e 255 0x0; e 255 0x0; e 255 0x0; e 255 0x0; e 255 0x0; e 255 0x0;
  e 255 0x0; e 255 0x0; e 255 0x0; e 255 0x0; e 255 0x0; e 255 0x0; e 255 0x0; e 255 0x0;
  e 255 0x0; e 255 0x0; e 255 0x0; e 255 0x0; e 255 0x0; e 255 0x0; e 255 0x0; e 255 0x0;
  e 255 0x0; e 255 0x0; e 255 0x0; e 255 0x0; e 255 0x0; e 255 0x0; e 255 0x0; e 255 0x0;
  e 255 0x0; e 255 0x0; e 255 0x0; e 255 0x0; e 255 0x0; e 255 0x0; e 255 0x0; e 255 0x0;
  e 255 0x0; e 255 0x0; e 255 0x0; e 255 0x0; e 255 0x0; e 255 0x0; e 255 0x0; e 255 0x0;
  e 255 0x0; e 255 0x0; e 255 0x0; e 255 0x0; e 255 0x0; e 255 0x0; e 255 0x0; e 255 0x0;
  e 255 0x0; e 255 0x0; e 255 0x0; e 255 0x0; e 255 0x0; e 255 0x0; e 255 0x0; e 255 0x0;
  e 255 0x0; e 255 0x0; e 255 0x0; e 255 0x0; e 255 0x0; e 255 0x0; e 255 0x0; e 255 0x0;
  e 255 0x0; e 255 0x0; e 255 0x0; e 255 0x0; e 255 0x0; e 255 0x0; e 255 0x0; e 255 0x0;
  e 255 0x0; e 255 0x0; e 255 0x0; e 255 0x0; e 255 0x0; e 255 0x0; e 255 0x0; e 255 0x0;
  e 255 0x0; e 255 0x0; e 255 0x0; e 255 0x0; e 255 0x0; e 255 0x0; e 255 0x0; e 255 0x0;
  e 255 0x0; e 255 0x0; e 255 0x0; e 255 0x0; e 255 0x0; e 255 0x0; e 255 0x0; e 255 0x0;
  e 255 0x0; e 255 0x0; e 255 0x0; e 255 0x0; e 255 0x0; e 255 0x0; e 255 0x0; e 255 0x0;
  e 255 0x0; e 255 0x0; e 255 0x0; e 255 0x0; e 255 0x0; e 255 0x0; e 255 0x0; e 255 0x0;
  e 255 0x0; e 255 0x0; e 255 0x0; e 255 0x0; e 255 0x0; e 255 0x0; e 255 0x0; e 255 0x0
].

Definition page_90 : list unichar := [
  e 211 0x0; e 211 0x0; e 211 0x0; e 211 0x0; e 211 0x0; e 211 0x0; e 211 0x0; e 211 0x0;
  e 211 0x0; e 211 0x0; e 211 0x0; e 211 0x0; e 211 0x0; e 211 0x0; e 211 0x0; e 211 0x0;
  e 211 0x0; e 211 0x0; e 211 0x0; e 211 0x0; e 211 0x0; e 211 0x0; e 211 0x0; e 211 0x0;
  e 211 0x0; e 211 0x0; e 211 0x0; e 211 0x0; e 211 0x0; e 211 0x0; e 211 0x0; e 211 0x0;
  e 211 0x0; e 211 0x0; e 211 0x0; e 211 0x0; e 211 0x0; e 211 0x0; e 211 0x0; e 211 0x0;
  e 211 0x0; e 211 0x0; e 211 0x0; e 211 0x0; e 211 0x0; e 211 0x0; e 211 0x0; e 211 0x0;
  e 211 0x0; e 211 0x0; e 211 0x0; e 211 0x0; e 211 0x0; e 211 0x0; e 211 0x0; e 211 0x0;
  e 211 0x0; e 211 0x0; e 211 0x0; e 211 0x0; e 211 0x0; e 211 0x0; e 211 0x0; e 211 0x0;
  e 211 0x0; e 211 0x0; e 211 0x0; e 211 0x0; e 211 0x0; e 211 0x0; e 211 0x0; e 211 0x0;
  e 211 0x0; e 211 0x0; e 211 0x0; e 211 0x0; e 211 0x0; e 211 0x0; e 211 0x0; e 211 0x0;
  e 211 0x0; e 211 0x0; e 211 0x0; e 211 0x0; e 211 0x0; e 211 0x0; e 211 0x0; e 211 0x0;
  e 211 0x0; e 211 0x0; e 211 0x0; e 211 0x0; e 211 0x0; e 211 0x0; e 211 0x0; e 211 0x0;
  e 211 0x0; e 211 0x0; e 211 0x0; e 211 0x0; e 211 0x0; e 211 0x0; e 211 0x0; e 211 0x0;
  e 211 0x0; e 211 0x0; e 211 0x0; e 211 0x0; e 211 0x0; e 211 0x0; e 211 0x0; e 211 0x0;
  e 211 0x0; e 211 0x0; e 211 0x0; e 211 0x0; e 211 0x0; e 211 0x0; e 211 0x0; e 211 0x0;
  e 211 0x0; e 211 0x0; e 211 0x0; e 211 0x0; e 211 0x0; e 211 0x0; e 211 0x0; e 211 0x0;
  e 211 0x0; e 211 0x0; e 211 0x0; e 211 0x0; e 211 0x0; e 211 0x0; e 211 0x0; e 211 0x0;
  e 211 0x0; e 211 0x0; e 211 0x0; e 211 0x0; e 211 0x0; e 211 0x0; e 211 0x0; e 211 0x0;
  e 211 0x0; e 211 0x0; e 211 0x0; e 211 0x0; e 211 0x0; e 211 0x0; e 211 0x0; e 211 0x0;
  e 211 0x0; e 211 0x0; e 211 0x0; e 211 0x0; e 211 0x0; e 211 0x0; e 211 0x0; e 211 0x0;
  e 211 0x0; e 211 0x0; e 211 0x0; e 211 0x0; e 211 0x0; e 211 0x0; e 211 0x0; e 211 0x0;
  e 211 0x0; e 211 0x0; e 211 0x0; e 211 0x0; e 211 0x0; e 211 0x0; e 211 0x0; e 211 0x0;
  e 211 0x0; e 211 0x0; e 211 0x0; e 211 0x0; e 211 0x0; e 211 0x0; e 211 0x0; e 211 0x0;
  e 211 0x0; e 211 0x0; e 211 0x0; e 211 0x0; e 211 0x0; e 211 0x0; e 211 0x0; e 211 0x0;
  e 211 0x0; e 211 0x0; e 211 0x0; e 211 0x0; e 211 0x0; e 211 0x0; e 211 0x0; e 211 0x0;
  e 211 0x0; e 211 0x0; e 211 0x0; e 211 0x0; e 211 0x0; e 211 0x0; e 211 0x0; e 211 0x0;
  e 211 0x0; e 211 0x0; e 211 0x0; e 211 0x0; e 211 0x0; e 211 0x0; e 211 0x0; e 211 0x0;
  e 211 0x0; e 211 0x0; e 211 0x0; e 211 0x0; e 211 0x0; e 211 0x0; e 211 0x0; e 211 0x0;
  e 211 0x0; e 211 0x0; e 211 0x0; e 211 0x0; e 211 0x0; e 211 0x0; e 211 0x0; e 211 0x0;
  e 211 0x0; e 211 0x0; e 211 0x0; e 211 0x0; e 211 0x0; e 211 0x0; e 211 0x0; e 211 0x0;
  e 211 0x0; e 211 0x0; e 211 0x0; e 211 0x0; e 211 0x0; e 211 0x0; e 255 0x0; e 255 0x0;
  e 255 0x0; e 255 0x0; e 255 0x0; e 255 0x0; e 255 0x0; e 255 0x0; e 255 0x0; e 255 0x0
].

Definition page_91 : list unichar := [
  e 211 0x0; e 211 0x0; e 211 0x0; e 211 0x0; e 211 0x0; e 211 0x0; e 211 0x0; e 211 0x0;
  e 211 0x0; e 211 0x0; e 211 0x0; e 211 0x0; e 211 0x0; e 211 0x0; e 211 0x0; e 211 0x0;
  e 211 0x0; e 211 0x0; e 211 0x0; e 211 0x0; e 211 0x0; e 211 0x0; e 211 0x0; e 211 0x0;
  e 211 0x0; e 211 0x0; e 211 0x0; e 211 0x0; e 211 0x0; e 211 0x0; e 211 0x0; e 211 0x0;
  e 211 0x0; e 211 0x0; e 211 0x0; e 211 0x0; e 211 0x0; e 211 0x0; e 211 0x0; e 255 0x0;
  e 255 0x0; e 211 0x0; e 211 0x0; e 211 0x0; e 211 0x0; e 211 0x0; e 211 0x0; e 211 0x0;
  e 211 0x0; e 211 0x0; e 211 0x0; e 211 0x0; e 211 0x0; e 211 0x0; e 211 0x0; e 211 0x0;
  e 211 0x0; e 211 0x0; e 211 0x0; e 211 0x0; e 211 0x0; e 211 0x0; e 211 0x0; e 211 0x0;
  e 211 0x0; e 211 0x0; e 211 0x0; e 211 0x0; e 211 0x0; e 211 0x0; e 211 0x0; e 211 0x0;
  e 211 0x0; e 211 0x0; e 211 0x0; e 211 0x0; e 211 0x0; e 211 0x0; e 211 0x0; e 211 0x0;
  e 211 0x0; e 211 0x0; e 211 0x0; e 211 0x0; e 211 0x0; e 211 0x0; e 211 0x0; e 211 0x0;
  e 211 0x0; e 211 0x0; e 211 0x0; e 211 0x0; e 211 0x0; e 211 0x0; e 211 0x0; e 211 0x0;
  e 211 0x0; e 211 0x0; e 211 0x0; e 211 0x0; e 211 0x0; e 31 0x0; e 31 0x0; e 37 0x0;
  e 37 0x0; e 37 0x0; e 211 0x0; e 211 0x0; e 211 0x0; e 33 0x0; e 31 0x0; e 31 0x0;
  e 31 0x0; e 31 0x0; e 31 0x0; e 18 0x0; e 18 0x0; e 18 0x0; e 18 0x0; e 18 0x0;
  e 18 0x0; e 18 0x0; e 18 0x0; e 81 0x0; e 81 0x0; e 81 0x0; e 81 0x0; e 81 0x0;
  e 81 0x0; e 81 0x0; e 81 0x0; e 211 0x0; e 211 0x0; e 84 0x0; e 84 0x0; e 84 0x0;
  e 84 0x0; e 84 0x0; e 81 0x0; e 81 0x0; e 211 0x0; e 211 0x0; e 211 0x0; e 211 0x0;
  e 211 0x0; e 211 0x0; e 211 0x0; e 211 0x0; e 211 0x0; e 211 0x0; e 211 0x0; e 211 0x0;
  e 211 0x0; e 211 0x0; e 211 0x0; e 211 0x0; e 211 0x0; e 211 0x0; e 211 0x0; e 211 0x0;
  e 211 0x0; e 211 0x0; e 211 0x0; e 211 0x0; e 211 0x0; e 211 0x0; e 211 0x0; e 211 0x0;
  e 211 0x0; e 211 0x0; e 84 0x0; e 84 0x0; e 84 0x0; e 84 0x0; e 211 0x0; e 211 0x0;
  e 211 0x0; e 211 0x0; e 211 0x0; e 211 0x0; e 211 0x0; e 211 0x0; e 211 0x0; e 211 0x0;
  e 211 0x0; e 211 0x0; e 211 0x0; e 211 0x0; e 211 0x0; e 211 0x0; e 211 0x0; e 211 0x0;
  e 211 0x0; e 211 0x0; e 211 0x0; e 211 0x0; e 211 0x0; e 211 0x0; e 211 0x0; e 211 0x0;
  e 211 0x0; e 211 0x0; e 211 0x0; e 211 0x0; e 211 0x0; e 211 0x0; e 211 0x0; e 211 0x0;
  e 211 0x0; e 211 0x0; e 211 0x0; e 211 0x0; e 211 0x0; e 211 0x0; e 211 0x0; e 211 0x0;
  e 211 0x0; e 211 0x0; e 211 0x0; e 211 0x0; e 211 0x0; e 211 0x0; e 255 0x0; e 255 0x0;
  e 255 0x0; e 255 0x0; e 255 0x0; e 255 0x0; e 255 0x0; e 255 0x0; e 255 0x0; e 255 0x0;
  e 255 0x0; e 255 0x0; e 255 0x0; e 255 0x0; e 255 0x0; e 255 0x0; e 255 0x0; e 255 0x0;
  e 255 0x0; e 255 0x0; e 255 0x0; e 255 0x0; e 255 0x0; e 255 0x0; e 255 0x0; e 255 0x0;
  e 255 0x0; e 255 0x0; e 255 0x0; e 255 0x0; e 255 0x0; e 255 0x0; e 255 0x0; e 255 0x0
].

Definition page_92 : list unichar := [
  e 212 0x0; e 212 0x0; e 212 0x0; e 212 0x0; e 212 0x0; e 212 0x0; e 212 0x0; e 212 0x0;
  e 212 0x0; e 212 0x0; e 212 0x0; e 212 0x0; e 212 0x0; e 212 0x0; e 212 0x0; e 212 0x0;
  e 212 0x0; e 212 0x0; e 212 0x0; e 212 0x0; e 212 0x0; e 212 0x0; e 212 0x0; e 212 0x0;
  e 212 0x0; e 212 0x0; e 212 0x0; e 212 0x0; e 212 0x0; e 212 0x0; e 212 0x0; e 212 0x0;
  e 212 0x0; e 212 0x0; e 212 0x0; e 212 0x0; e 212 0x0; e 212 0x0; e 212 0x0; e 212 0x0;
  e 212 0x0; e 212 0x0; e 212 0x0; e 212 0x0; e 212 0x0; e 212 0x0; e 212 0x0; e 212 0x0;
  e 212 0x0; e 212 0x0; e 212 0x0; e 212 0x0; e 212 0x0; e 212 0x0; e 212 0x0; e 212 0x0;
  e 212 0x0; e 212 0x0; e 212 0x0; e 212 0x0; e 212 0x0; e 212 0x0; e 212 0x0; e 212 0x0;
  e 212 0x0; e 212 0x0; e 84 0x0; e 84 0x0; e 84 0x0; e 212 0x0; e 255 0x0; e 255 0x0;
  e 255 0x0; e 255 0x0; e 255 0x0; e 255 0x0; e 255 0x0; e 255 0x0; e 255 0x0; e 255 0x0;
  e 255 0x0; e 255 0x0; e 255 0x0; e 255 0x0; e 255 0x0; e 255 0x0; e 255 0x0; e 255 0x0;
  e 255 0x0; e 255 0x0; e 255 0x0; e 255 0x0; e 255 0x0; e 255 0x0; e 255 0x0; e 255 0x0;
  e 255 0x0; e 255 0x0; e 255 0x0; e 255 0x0; e 255 0x0; e 255 0x0; e 255 0x0; e 255 0x0;
  e 255 0x0; e 255 0x0; e 255 0x0; e 255 0x0; e 255 0x0; e 255 0x0; e 255 0x0; e 255 0x0;
  e 255 0x0; e 255 0x0; e 255 0x0; e 255 0x0; e 255 0x0; e 255 0x0; e 255 0x0; e 255 0x0;
  e 255 0x0; e 255 0x0; e 255 0x0; e 255 0x0; e 255 0x0; e 255 0x0; e 255 0x0; e 255 0x0;
  e 255 0x0; e 255 0x0; e 255 0x0; e 255 0x0; e 255 0x0; e 255 0x0; e 255 0x0; e 255 0x0;
  e 255 0x0; e 255 0x0; e 255 0x0; e 255 0x0; e 255 0x0; e 255 0x0; e 255 0x0; e 255 0x0;
  e 255 0x0; e 255 0x0; e 255 0x0; e 255 0x0; e 255 0x0; e 255 0x0; e 255 0x0; e 255 0x0;
  e 255 0x0; e 255 0x0; e 255 0x0; e 255 0x0; e 255 0x0; e 255 0x0; e 255 0x0; e 255 0x0;
  e 255 0x0; e 255 0x0; e 255 0x0; e 255 0x0; e 255 0x0; e 255 0x0; e 255 0x0; e 255 0x0;
  e 255 0x0; e 255 0x0; e 255 0x0; e 255 0x0; e 255 0x0; e 255 0x0; e 255 0x0; e 255 0x0;
  e 255 0x0; e 255 0x0; e 255 0x0; e 255 0x0; e 255 0x0; e 255 0x0; e 255 0x0; e 255 0x0;
  e 255 0x0; e 255 0x0; e 255 0x0; e 255 0x0; e 255 0x0; e 255 0x0; e 255 0x0; e 255 0x0;
  e 255 0x0; e 255 0x0; e 255 0x0; e 255 0x0; e 255 0x0; e 255 0x0; e 255 0x0; e 255 0x0;
  e 255 0x0; e 255 0x0; e 255 0x0; e 255 0x0; e 255 0x0; e 255 0x0; e 255 0x0; e 255 0x0;
  e 255 0x0; e 255 0x0; e 255 0x0; e 255 0x0; e 255 0x0; e 255 0x0; e 255 0x0; e 255 0x0;
  e 255 0x0; e 255 0x0; e 255 0x0; e 255 0x0; e 255 0x0; e 255 0x0; e 255 0x0; e 255 0x0;
  e 255 0x0; e 255 0x0; e 255 0x0; e 255 0x0; e 255 0x0; e 255 0x0; e 255 0x0; e 255 0x0;
  e 255 0x0; e 255 0x0; e 255 0x0; e 255 0x0; e 255 0x0; e 255 0x0; e 255 0x0; e 255 0x0;
  e 255 0x0; e 255 0x0; e 255 0x0; e 255 0x0; e 255 0x0; e 255 0x0; e 255 0x0; e 255 0x0;
  e 255 0x0; e 255 0x0; e 255 0x0; e 255 0x0; e 255 0x0; e 255 0x0; e 255 0x0; e 255 0x0
].

Definition page_93 : list unichar := [
  e 212 0x0; e 212 0x0; e 212 0x0; e 212 0x0; e 212 0x0; e 212 0x0; e 212 0x0; e 212 0x0;
  e 212 0x0; e 212 0x0; e 212 0x0; e 212 0x0; e 212 0x0; e 212 0x0; e 212 0x0; e 212 0x0;
  e 212 0x0; e 212 0x0; e 212 0x0; e 212 0x0; e 212 0x0; e 212 0x0; e 212 0x0; e 212 0x0;
  e 212 0x0; e 212 0x0; e 212 0x0; e 212 0x0; e 212 0x0; e 212 0x0; e 212 0x0; e 212 0x0;
  e 212 0x0; e 212 0x0; e 212 0x0; e 212 0x0; e 212 0x0; e 212 0x0; e 212 0x0; e 212 0x0;
  e 212 0x0; e 212 0x0; e 212 0x0; e 212 0x0; e 212 0x0; e 212 0x0; e 212 0x0; e 212 0x0;
  e 212 0x0; e 212 0x0; e 212 0x0; e 212 0x0; e 212 0x0; e 212 0x0; e 212 0x0; e 212 0x0;
  e 212 0x0; e 212 0x0; e 212 0x0; e 212 0x0; e 212 0x0; e 212 0x0; e 212 0x0; e 212 0x0;
  e 212 0x0; e 212 0x0; e 212 0x0; e 212 0x0; e 212 0x0; e 212 0x0; e 212 0x0; e 212 0x0;
  e 212 0x0; e 212 0x0; e 212 0x0; e 212 0x0; e 212 0x0; e 212 0x0; e 212 0x0; e 212 0x0;
  e 212 0x0; e 212 0x0; e 212 0x0; e 212 0x0; e 212 0x0; e 212 0x0; e 212 0x0; e 255 0x0;
  e 255 0x0; e 255 0x0; e 255 0x0; e 255 0x0; e 255 0x0; e 255 0x0; e 255 0x0; e 255 0x0;
  e 152 0x0; e 152 0x0; e 152 0x0; e 152 0x0; e 152 0x0; e 152 0x0; e 152 0x0; e 152 0x0;
  e 152 0x0; e 152 0x0; e 152 0x0; e 152 0x0; e 152 0x0; e 152 0x0; e 152 0x0; e 152 0x0;
  e 152 0x0; e 152 0x0; e 255 0x0; e 255 0x0; e 255 0x0; e 255 0x0; e 255 0x0; e 255 0x0;
  e 255 0x0; e 255 0x0; e 255 0x0; e 255 0x0; e 255 0x0; e 255 0x0; e 255 0x0; e 255 0x0;
  e 255 0x0; e 255 0x0; e 255 0x0; e 255 0x0; e 255 0x0; e 255 0x0; e 255 0x0; e 255 0x0;
  e 255 0x0; e 255 0x0; e 255 0x0; e 255 0x0; e 255 0x0; e 255 0x0; e 255 0x0; e 255 0x0;
  e 255 0x0; e 255 0x0; e 255 0x0; e 255 0x0; e 255 0x0; e 255 0x0; e 255 0x0; e 255 0x0;
  e 255 0x0; e 255 0x0; e 255 0x0; e 255 0x0; e 255 0x0; e 255 0x0; e 255 0x0; e 255 0x0;
  e 255 0x0; e 255 0x0; e 255 0x0; e 255 0x0; e 255 0x0; e 255 0x0; e 255 0x0; e 255 0x0;
  e 255 0x0; e 255 0x0; e 255 0x0; e 255 0x0; e 255 0x0; e 255 0x0; e 255 0x0; e 255 0x0;
  e 255 0x0; e 255 0x0; e 255 0x0; e 255 0x0; e 255 0x0; e 255 0x0; e 255 0x0; e 255 0x0;
  e 255 0x0; e 255 0x0; e 255 0x0; e 255 0x0; e 255 0x0; e 255 0x0; e 255 0x0; e 255 0x0;
  e 255 0x0; e 255 0x0; e 255 0x0; e 255 0x0; e 255 0x0; e 255 0x0; e 255 0x0; e 255 0x0;
  e 255 0x0; e 255 0x0; e 255 0x0; e 255 0x0; e 255 0x0; e 255 0x0; e 255 0x0; e 255 0x0;
  e 255 0x0; e 255 0x0; e 255 0x0; e 255 0x0; e 255 0x0; e 255 0x0; e 255 0x0; e 255 0x0;
  e 255 0x0; e 255 0x0; e 255 0x0; e 255 0x0; e 255 0x0; e 255 0x0; e 255 0x0; e 255 0x0;
  e 255 0x0; e 255 0x0; e 255 0x0; e 255 0x0; e 255 0x0; e 255 0x0; e 255 0x0; e 255 0x0;
  e 255 0x0; e 255 0x0; e 255 0x0; e 255 0x0; e 255 0x0; e 255 0x0; e 255 0x0; e 255 0x0;
  e 255 0x0; e 255 0x0; e 255 0x0; e 255 0x0; e 255 0x0; e 255 0x0; e 255 0x0; e 255 0x0;
  e 255 0x0; e 255 0x0; e 255 0x0; e 255 0x0; e 255 0x0; e 255 0x0; e 255 0x0; e 255 0x0
].

Definition page_94 : list unichar := [
  e 2 0x0; e 2 0x0; e 2 0x0; e 2 0x0; e 2 0x0; e 2 0x0; e 2 0x0; e 2 0x0;
  e 2 0x0; e 2 0x0; e 2 0x0; e 2 0x0; e 2 0x0; e 2 0x0; e 2 0x0; e 2 0x0;
  e 2 0x0; e 2 0x0; e 2 0x0; e 2 0x0; e 2 0x0; e 2 0x0; e 2 0x0; e 2 0x0;
  e 2 0x0; e 2 0x0; e 3 0x0; e 3 0x0; e 3 0x0; e 3 0x0; e 3 0x0; e 3 0x0;
  e 3 0x0; e 3 0x0; e 3 0x0; e 3 0x0; e 3 0x0; e 3 0x0; e 3 0x0; e 3 0x0;
  e 3 0x0; e 3 0x0; e 3 0x0; e 3 0x0; e 3 0x0; e 3 0x0; e 3 0x0; e 3 0x0;
  e 3 0x0; e 3 0x0; e 3 0x0; e 3 0x0; e 2 0x0; e 2 0x0; e 2 0x0; e 2 0x0;
  e 2 0x0; e 2 0x0; e 2 0x0; e 2 0x0; e 2 0x0; e 2 0x0; e 2 0x0; e 2 0x0;
  e 2 0x0; e 2 0x0; e 2 0x0; e 2 0x0; e 2 0x0; e 2 0x0; e 2 0x0; e 2 0x0;
  e 2 0x0; e 2 0x0; e 2 0x0; e 2 0x0; e 2 0x0; e 2 0x0; e 3 0x0; e 3 0x0;
  e 3 0x0; e 3 0x0; e 3 0x0; e 3 0x0; e 3 0x0; e 255 0x0; e 3 0x0; e 3 0x0;
  e 3 0x0; e 3 0x0; e 3 0x0; e 3 0x0; e 3 0x0; e 3 0x0; e 3 0x0; e 3 0x0;
  e 3 0x0; e 3 0x0; e 3 0x0; e 3 0x0; e 3 0x0; e 3 0x0; e 3 0x0; e 3 0x0;
  e 2 0x0; e 2 0x0; e 2 0x0; e 2 0x0; e 2 0x0; e 2 0x0; e 2 0x0; e 2 0x0;
  e 2 0x0; e 2 0x0; e 2 0x0; e 2 0x0; e 2 0x0; e 2 0x0; e 2 0x0; e 2 0x0;
  e 2 0x0; e 2 0x0; e 2 0x0; e 2 0x0; e 2 0x0; e 2 0x0; e 2 0x0; e 2 0x0;
  e 2 0x0; e 2 0x0; e 3 0x0; e 3 0x0; e 3 0x0; e 3 0x0; e 3 0x0; e 3 0x0;
  e 3 0x0; e 3 0x0; e 3 0x0; e 3 0x0; e 3 0x0; e 3 0x0; e 3 0x0; e 3 0x0;
  e 3 0x0; e 3 0x0; e 3 0x0; e 3 0x0; e 3 0x0; e 3 0x0; e 3 0x0; e 3 0x0;
  e 3 0x0; e 3 0x0; e 3 0x0; e 3 0x0; e 2 0x0; e 255 0x0; e 2 0x0; e 2 0x0;
  e 255 0x0; e 255 0x0; e 2 0x0; e 255 0x0; e 255 0x0; e 2 0x0; e 2 0x0; e 255 0x0;
  e 255 0x0; e 2 0x0; e 2 0x0; e 2 0x0; e 2 0x0; e 255 0x0; e 2 0x0; e 2 0x0;
  e 2 0x0; e 2 0x0; e 2 0x0; e 2 0x0; e 2 0x0; e 2 0x0; e 3 0x0; e 3 0x0;
  e 3 0x0; e 3 0x0; e 255 0x0; e 3 0x0; e 255 0x0; e 3 0x0; e 3 0x0; e 3 0x0;
  e 3 0x0; e 3 0x0; e 3 0x0; e 3 0x0; e 255 0x0; e 3 0x0; e 3 0x0; e 3 0x0;
  e 3 0x0; e 3 0x0; e 3 0x0; e 3 0x0; e 3 0x0; e 3 0x0; e 3 0x0; e 3 0x0;
  e 2 0x0; e 2 0x0; e 2 0x0; e 2 0x0; e 2 0x0; e 2 0x0; e 2 0x0; e 2 0x0;
  e 2 0x0; e 2 0x0; e 2 0x0; e 2 0x0; e 2 0x0; e 2 0x0; e 2 0x0; e 2 0x0;
  e 2 0x0; e 2 0x0; e 2 0x0; e 2 0x0; e 2 0x0; e 2 0x0; e 2 0x0; e 2 0x0;
  e 2 0x0; e 2 0x0; e 3 0x0; e 3 0x0; e 3 0x0; e 3 0x0; e 3 0x0; e 3 0x0;
  e 3 0x0; e 3 0x0; e 3 0x0; e 3 0x0; e 3 0x0; e 3 0x0; e 3 0x0; e 3 0x0;
  e 3 0x0; e 3 0x0; e 3 0x0; e 3 0x0; e 3 0x0; e 3 0x0; e 3 0x0; e 3 0x0
].

Definition page_95 : list unichar := [
  e 3 0x0; e 3 0x0; e 3 0x0; e 3 0x0; e 2 0x0; e 2 0x0; e 255 0x0; e 2 0x0;
  e 2 0x0; e 2 0x0; e 2 0x0; e 255 0x0; e 255 0x0; e 2 0x0; e 2 0x0; e 2 0x0;
  e 2 0x0; e 2 0x0; e 2 0x0; e 2 0x0; e 2 0x0; e 255 0x0; e 2 0x0; e 2 0x0;
  e 2 0x0; e 2 0x0; e 2 0x0; e 2 0x0; e 2 0x0; e 255 0x0; e 3 0x0; e 3 0x0;
  e 3 0x0; e 3 0x0; e 3 0x0; e 3 0x0; e 3 0x0; e 3 0x0; e 3 0x0; e 3 0x0;
  e 3 0x0; e 3 0x0; e 3 0x0; e 3 0x0; e 3 0x0; e 3 0x0; e 3 0x0; e 3 0x0;
  e 3 0x0; e 3 0x0; e 3 0x0; e 3 0x0; e 3 0x0; e 3 0x0; e 3 0x0; e 3 0x0;
  e 2 0x0; e 2 0x0; e 255 0x0; e 2 0x0; e 2 0x0; e 2 0x0; e 2 0x0; e 255 0x0;
  e 2 0x0; e 2 0x0; e 2 0x0; e 2 0x0; e 2 0x0; e 255 0x0; e 2 0x0; e 255 0x0;
  e 255 0x0; e 255 0x0; e 2 0x0; e 2 0x0; e 2 0x0; e 2 0x0; e 2 0x0; e 2 0x0;
  e 2 0x0; e 255 0x0; e 3 0x0; e 3 0x0; e 3 0x0; e 3 0x0; e 3 0x0; e 3 0x0;
  e 3 0x0; e 3 0x0; e 3 0x0; e 3 0x0; e 3 0x0; e 3 0x0; e 3 0x0; e 3 0x0;
  e 3 0x0; e 3 0x0; e 3 0x0; e 3 0x0; e 3 0x0; e 3 0x0; e 3 0x0; e 3 0x0;
  e 3 0x0; e 3 0x0; e 3 0x0; e 3 0x0; e 2 0x0; e 2 0x0; e 2 0x0; e 2 0x0;
  e 2 0x0; e 2 0x0; e 2 0x0; e 2 0x0; e 2 0x0; e 2 0x0; e 2 0x0; e 2 0x0;
  e 2 0x0; e 2 0x0; e 2 0x0; e 2 0x0; e 2 0x0; e 2 0x0; e 2 0x0; e 2 0x0;
  e 2 0x0; e 2 0x0; e 2 0x0; e 2 0x0; e 2 0x0; e 2 0x0; e 3 0x0; e 3 0x0;
  e 3 0x0; e 3 0x0; e 3 0x0; e 3 0x0; e 3 0x0; e 3 0x0; e 3 0x0; e 3 0x0;
  e 3 0x0; e 3 0x0; e 3 0x0; e 3 0x0; e 3 0x0; e 3 0x0; e 3 0x0; e 3 0x0;
  e 3 0x0; e 3 0x0; e 3 0x0; e 3 0x0; e 3 0x0; e 3 0x0; e 3 0x0; e 3 0x0;
  e 2 0x0; e 2 0x0; e 2 0x0; e 2 0x0; e 2 0x0; e 2 0x0; e 2 0x0; e 2 0x0;
  e 2 0x0; e 2 0x0; e 2 0x0; e 2 0x0; e 2 0x0; e 2 0x0; e 2 0x0; e 2 0x0;
  e 2 0x0; e 2 0x0; e 2 0x0; e 2 0x0; e 2 0x0; e 2 0x0; e 2 0x0; e 2 0x0;
  e 2 0x0; e 2 0x0; e 3 0x0; e 3 0x0; e 3 0x0; e 3 0x0; e 3 0x0; e 3 0x0;
  e 3 0x0; e 3 0x0; e 3 0x0; e 3 0x0; e 3 0x0; e 3 0x0; e 3 0x0; e 3 0x0;
  e 3 0x0; e 3 0x0; e 3 0x0; e 3 0x0; e 3 0x0; e 3 0x0; e 3 0x0; e 3 0x0;
  e 3 0x0; e 3 0x0; e 3 0x0; e 3 0x0; e 2 0x0; e 2 0x0; e 2 0x0; e 2 0x0;
  e 2 0x0; e 2 0x0; e 2 0x0; e 2 0x0; e 2 0x0; e 2 0x0; e 2 0x0; e 2 0x0;
  e 2 0x0; e 2 0x0; e 2 0x0; e 2 0x0; e 2 0x0; e 2 0x0; e 2 0x0; e 2 0x0;
  e 2 0x0; e 2 0x0; e 2 0x0; e 2 0x0; e 2 0x0; e 2 0x0; e 3 0x0; e 3 0x0;
  e 3 0x0; e 3 0x0; e 3 0x0; e 3 0x0; e 3 0x0; e 3 0x0; e 3 0x0; e 3 0x0;
  e 3 0x0; e 3 0x0; e 3 0x0; e 3 0x0; e 3 0x0; e 3 0x0; e 3 0x0; e 3 0x0
].

Definition page_96 : list unichar := [
  e 3 0x0; e 3 0x0; e 3 0x0; e 3 0x0; e 3 0x0; e 3 0x0; e 3 0x0; e 3 0x0;
  e 2 0x0; e 2 0x0; e 2 0x0; e 2 0x0; e 2 0x0; e 2 0x0; e 2 0x0; e 2 0x0;
  e 2 0x0; e 2 0x0; e 2 0x0; e 2 0x0; e 2 0x0; e 2 0x0; e 2 0x0; e 2 0x0;
  e 2 0x0; e 2 0x0; e 2 0x0; e 2 0x0; e 2 0x0; e 2 0x0; e 2 0x0; e 2 0x0;
  e 2 0x0; e 2 0x0; e 3 0x0; e 3 0x0; e 3 0x0; e 3 0x0; e 3 0x0; e 3 0x0;
  e 3 0x0; e 3 0x0; e 3 0x0; e 3 0x0; e 3 0x0; e 3 0x0; e 3 0x0; e 3 0x0;
  e 3 0x0; e 3 0x0; e 3 0x0; e 3 0x0; e 3 0x0; e 3 0x0; e 3 0x0; e 3 0x0;
  e 3 0x0; e 3 0x0; e 3 0x0; e 3 0x0; e 2 0x0; e 2 0x0; e 2 0x0; e 2 0x0;
  e 2 0x0; e 2 0x0; e 2 0x0; e 2 0x0; e 2 0x0; e 2 0x0; e 2 0x0; e 2 0x0;
  e 2 0x0; e 2 0x0; e 2 0x0; e 2 0x0; e 2 0x0; e 2 0x0; e 2 0x0; e 2 0x0;
  e 2 0x0; e 2 0x0; e 2 0x0; e 2 0x0; e 2 0x0; e 2 0x0; e 3 0x0; e 3 0x0;
  e 3 0x0; e 3 0x0; e 3 0x0; e 3 0x0; e 3 0x0; e 3 0x0; e 3 0x0; e 3 0x0;
  e 3 0x0; e 3 0x0; e 3 0x0; e 3 0x0; e 3 0x0; e 3 0x0; e 3 0x0; e 3 0x0;
  e 3 0x0; e 3 0x0; e 3 0x0; e 3 0x0; e 3 0x0; e 3 0x0; e 3 0x0; e 3 0x0;
  e 2 0x0; e 2 0x0; e 2 0x0; e 2 0x0; e 2 0x0; e 2 0x0; e 2 0x0; e 2 0x0;
  e 2 0x0; e 2 0x0; e 2 0x0; e 2 0x0; e 2 0x0; e 2 0x0; e 2 0x0; e 2 0x0;
  e 2 0x0; e 2 0x0; e 2 0x0; e 2 0x0; e 2 0x0; e 2 0x0; e 2 0x0; e 2 0x0;
  e 2 0x0; e 2 0x0; e 3 0x0; e 3 0x0; e 3 0x0; e 3 0x0; e 3 0x0; e 3 0x0;
  e 3 0x0; e 3 0x0; e 3 0x0; e 3 0x0; e 3 0x0; e 3 0x0; e 3 0x0; e 3 0x0;
  e 3 0x0; e 3 0x0; e 3 0x0; e 3 0x0; e 3 0x0; e 3 0x0; e 3 0x0; e 3 0x0;
  e 3 0x0; e 3 0x0; e 3 0x0; e 3 0x0; e 3 0x0; e 3 0x0; e 255 0x0; e 255 0x0;
  e 2 0x0; e 2 0x0; e 2 0x0; e 2 0x0; e 2 0x0; e 2 0x0; e 2 0x0; e 2 0x0;
  e 2 0x0; e 2 0x0; e 2 0x0; e 2 0x0; e 2 0x0; e 2 0x0; e 2 0x0; e 2 0x0;
  e 2 0x0; e 2 0x0; e 2 0x0; e 2 0x0; e 2 0x0; e 2 0x0; e 2 0x0; e 2 0x0;
  e 2 0x0; e 206 0x0; e 3 0x0; e 3 0x0; e 3 0x0; e 3 0x0; e 3 0x0; e 3 0x0;
  e 3 0x0; e 3 0x0; e 3 0x0; e 3 0x0; e 3 0x0; e 3 0x0; e 3 0x0; e 3 0x0;
  e 3 0x0; e 3 0x0; e 3 0x0; e 3 0x0; e 3 0x0; e 3 0x0; e 3 0x0; e 3 0x0;
  e 3 0x0; e 3 0x0; e 3 0x0; e 208 0x0; e 3 0x0; e 3 0x0; e 3 0x0; e 3 0x0;
  e 3 0x0; e 3 0x0; e 2 0x0; e 2 0x0; e 2 0x0; e 2 0x0; e 2 0x0; e 2 0x0;
  e 2 0x0; e 2 0x0; e 2 0x0; e 2 0x0; e 2 0x0; e 2 0x0; e 2 0x0; e 2 0x0;
  e 2 0x0; e 2 0x0; e 2 0x0; e 2 0x0; e 2 0x0; e 2 0x0; e 2 0x0; e 2 0x0;
  e 2 0x0; e 2 0x0; e 2 0x0; e 206 0x0; e 3 0x0; e 3 0x0; e 3 0x0; e 3 0x0
].

Definition page_97 : list unichar := [
  e 3 0x0; e 3 0x0; e 3 0x0; e 3 0x0; e 3 0x0; e 3 0x0; e 3 0x0; e 3 0x0;
  e 3 0x0; e 3 0x0; e 3 0x0; e 3 0x0; e 3 0x0; e 3 0x0; e 3 0x0; e 3 0x0;
  e 3 0x0; e 3 0x0; e 3 0x0; e 3 0x0; e 3 0x0; e 208 0x0; e 3 0x0; e 3 0x0;
  e 3 0x0; e 3 0x0; e 3 0x0; e 3 0x0; e 2 0x0; e 2 0x0; e 2 0x0; e 2 0x0;
  e 2 0x0; e 2 0x0; e 2 0x0; e 2 0x0; e 2 0x0; e 2 0x0; e 2 0x0; e 2 0x0;
  e 2 0x0; e 2 0x0; e 2 0x0; e 2 0x0; e 2 0x0; e 2 0x0; e 2 0x0; e 2 0x0;
  e 2 0x0; e 2 0x0; e 2 0x0; e 2 0x0; e 2 0x0; e 206 0x0; e 3 0x0; e 3 0x0;
  e 3 0x0; e 3 0x0; e 3 0x0; e 3 0x0; e 3 0x0; e 3 0x0; e 3 0x0; e 3 0x0;
  e 3 0x0; e 3 0x0; e 3 0x0; e 3 0x0; e 3 0x0; e 3 0x0; e 3 0x0; e 3 0x0;
  e 3 0x0; e 3 0x0; e 3 0x0; e 3 0x0; e 3 0x0; e 3 0x0; e 3 0x0; e 208 0x0;
  e 3 0x0; e 3 0x0; e 3 0x0; e 3 0x0; e 3 0x0; e 3 0x0; e 2 0x0; e 2 0x0;
  e 2 0x0; e 2 0x0; e 2 0x0; e 2 0x0; e 2 0x0; e 2 0x0; e 2 0x0; e 2 0x0;
  e 2 0x0; e 2 0x0; e 2 0x0; e 2 0x0; e 2 0x0; e 2 0x0; e 2 0x0; e 2 0x0;
  e 2 0x0; e 2 0x0; e 2 0x0; e 2 0x0; e 2 0x0; e 2 0x0; e 2 0x0; e 206 0x0;
  e 3 0x0; e 3 0x0; e 3 0x0; e 3 0x0; e 3 0x0; e 3 0x0; e 3 0x0; e 3 0x0;
  e 3 0x0; e 3 0x0; e 3 0x0; e 3 0x0; e 3 0x0; e 3 0x0; e 3 0x0; e 3 0x0;
  e 3 0x0; e 3 0x0; e 3 0x0; e 3 0x0; e 3 0x0; e 3 0x0; e 3 0x0; e 3 0x0;
  e 3 0x0; e 208 0x0; e 3 0x0; e 3 0x0; e 3 0x0; e 3 0x0; e 3 0x0; e 3 0x0;
  e 2 0x0; e 2 0x0; e 2 0x0; e 2 0x0; e 2 0x0; e 2 0x0; e 2 0x0; e 2 0x0;
  e 2 0x0; e 2 0x0; e 2 0x0; e 2 0x0; e 2 0x0; e 2 0x0; e 2 0x0; e 2 0x0;
  e 2 0x0; e 2 0x0; e 2 0x0; e 2 0x0; e 2 0x0; e 2 0x0; e 2 0x0; e 2 0x0;
  e 2 0x0; e 206 0x0; e 3 0x0; e 3 0x0; e 3 0x0; e 3 0x0; e 3 0x0; e 3 0x0;
  e 3 0x0; e 3 0x0; e 3 0x0; e 3 0x0; e 3 0x0; e 3 0x0; e 3 0x0; e 3 0x0;
  e 3 0x0; e 3 0x0; e 3 0x0; e 3 0x0; e 3 0x0; e 3 0x0; e 3 0x0; e 3 0x0;
  e 3 0x0; e 3 0x0; e 3 0x0; e 208 0x0; e 3 0x0; e 3 0x0; e 3 0x0; e 3 0x0;
  e 3 0x0; e 3 0x0; e 2 0x0; e 3 0x0; e 255 0x0; e 255 0x0; e 99 0x0; e 100 0x0;
  e 101 0x0; e 102 0x0; e 103 0x0; e 104 0x0; e 105 0x0; e 106 0x0; e 107 0x0; e 108 0x0;
  e 99 0x0; e 100 0x0; e 101 0x0; e 102 0x0; e 103 0x0; e 104 0x0; e 105 0x0; e 106 0x0;
  e 107 0x0; e 108 0x0; e 99 0x0; e 100 0x0; e 101 0x0; e 102 0x0; e 103 0x0; e 104 0x0;
  e 105 0x0; e 106 0x0; e 107 0x0; e 108 0x0; e 99 0x0; e 100 0x0; e 101 0x0; e 102 0x0;
  e 103 0x0; e 104 0x0; e 105 0x0; e 106 0x0; e 107 0x0; e 108 0x0; e 99 0x0; e 100 0x0;
  e 101 0x0; e 102 0x0; e 103 0x0; e 104 0x0; e 105 0x0; e 106 0x0; e 107 0x0; e 108 0x0
].

Definition page_98 : list unichar := [
  e 9 0x0; e 9 0x0; e 9 0x0; e 9 0x0; e 255 0x0; e 9 0x0; e 9 0x0; e 9 0x0;
  e 9 0x0; e 9 0x0; e 9 0x0; e 9 0x0; e 9 0x0; e 9 0x0; e 9 0x0; e 9 0x0;
  e 9 0x0; e 9 0x0; e 9 0x0; e 9 0x0; e 9 0x0; e 9 0x0; e 9 0x0; e 9 0x0;
  e 9 0x0; e 9 0x0; e 9 0x0; e 9 0x0; e 9 0x0; e 9 0x0; e 9 0x0; e 9 0x0;
  e 255 0x0; e 9 0x0; e 9 0x0; e 255 0x0; e 9 0x0; e 255 0x0; e 255 0x0; e 9 0x0;
  e 255 0x0; e 9 0x0; e 9 0x0; e 9 0x0; e 9 0x0; e 9 0x0; e 9 0x0; e 9 0x0;
  e 9 0x0; e 9 0x0; e 9 0x0; e 255 0x0; e 9 0x0; e 9 0x0; e 9 0x0; e 9 0x0;
  e 255 0x0; e 9 0x0; e 255 0x0; e 9 0x0; e 255 0x0; e 255 0x0; e 255 0x0; e 255 0x0;
  e 255 0x0; e 255 0x0; e 9 0x0; e 255 0x0; e 255 0x0; e 255 0x0; e 255 0x0; e 9 0x0;
  e 255 0x0; e 9 0x0; e 255 0x0; e 9 0x0; e 255 0x0; e 9 0x0; e 9 0x0; e 9 0x0;
  e 255 0x0; e 9 0x0; e 9 0x0; e 255 0x0; e 9 0x0; e 255 0x0; e 255 0x0; e 9 0x0;
  e 255 0x0; e 9 0x0; e 255 0x0; e 9 0x0; e 255 0x0; e 9 0x0; e 255 0x0; e 9 0x0;
  e 255 0x0; e 9 0x0; e 9 0x0; e 255 0x0; e 9 0x0; e 255 0x0; e 255 0x0; e 9 0x0;
  e 9 0x0; e 9 0x0; e 9 0x0; e 255 0x0; e 9 0x0; e 9 0x0; e 9 0x0; e 9 0x0;
  e 9 0x0; e 9 0x0; e 9 0x0; e 255 0x0; e 9 0x0; e 9 0x0; e 9 0x0; e 9 0x0;
  e 255 0x0; e 9 0x0; e 9 0x0; e 9 0x0; e 9 0x0; e 255 0x0; e 9 0x0; e 255 0x0;
  e 9 0x0; e 9 0x0; e 9 0x0; e 9 0x0; e 9 0x0; e 9 0x0; e 9 0x0; e 9 0x0;
  e 9 0x0; e 9 0x0; e 255 0x0; e 9 0x0; e 9 0x0; e 9 0x0; e 9 0x0; e 9 0x0;
  e 9 0x0; e 9 0x0; e 9 0x0; e 9 0x0; e 9 0x0; e 9 0x0; e 9 0x0; e 9 0x0;
  e 9 0x0; e 9 0x0; e 9 0x0; e 9 0x0; e 255 0x0; e 255 0x0; e 255 0x0; e 255 0x0;
  e 255 0x0; e 9 0x0; e 9 0x0; e 9 0x0; e 255 0x0; e 9 0x0; e 9 0x0; e 9 0x0;
  e 9 0x0; e 9 0x0; e 255 0x0; e 9 0x0; e 9 0x0; e 9 0x0; e 9 0x0; e 9 0x0;
  e 9 0x0; e 9 0x0; e 9 0x0; e 9 0x0; e 9 0x0; e 9 0x0; e 9 0x0; e 9 0x0;
  e 9 0x0; e 9 0x0; e 9 0x0; e 9 0x0; e 255 0x0; e 255 0x0; e 255 0x0; e 255 0x0;
  e 255 0x0; e 255 0x0; e 255 0x0; e 255 0x0; e 255 0x0; e 255 0x0; e 255 0x0; e 255 0x0;
  e 255 0x0; e 255 0x0; e 255 0x0; e 255 0x0; e 255 0x0; e 255 0x0; e 255 0x0; e 255 0x0;
  e 255 0x0; e 255 0x0; e 255 0x0; e 255 0x0; e 255 0x0; e 255 0x0; e 255 0x0; e 255 0x0;
  e 255 0x0; e 255 0x0; e 255 0x0; e 255 0x0; e 255 0x0; e 255 0x0; e 255 0x0; e 255 0x0;
  e 255 0x0; e 255 0x0; e 255 0x0; e 255 0x0; e 255 0x0; e 255 0x0; e 255 0x0; e 255 0x0;
  e 255 0x0; e 255 0x0; e 255 0x0; e 255 0x0; e 255 0x0; e 255 0x0; e 255 0x0; e 255 0x0;
  e 207 0x0; e 207 0x0; e 255 0x0; e 255 0x0; e 255 0x0; e 255 0x0; e 255 0x0; e 255 0x0;
  e 255 0x0; e 255 0x0; e 255 0x0; e 255 0x0; e 255 0x0; e 255 0x0; e 255 0x0; e 255 0x0
].

Definition page_99 : list unichar := [
  e 212 0x0; e 212 0x0; e 212 0x0; e 212 0x0; e 212 0x0; e 212 0x0; e 212 0x0; e 212 0x0;
  e 212 0x0; e 212 0x0; e 212 0x0; e 212 0x0; e 212 0x0; e 212 0x0; e 212 0x0; e 212 0x0;
  e 212 0x0; e 212 0x0; e 212 0x0; e 212 0x0; e 212 0x0; e 212 0x0; e 212 0x0; e 212 0x0;
  e 212 0x0; e 212 0x0; e 212 0x0; e 212 0x0; e 212 0x0; e 212 0x0; e 212 0x0; e 212 0x0;
  e 212 0x0; e 212 0x0; e 212 0x0; e 212 0x0; e 212 0x0; e 212 0x0; e 212 0x0; e 212 0x0;
  e 212 0x0; e 212 0x0; e 212 0x0; e 212 0x0; e 255 0x0; e 255 0x0; e 255 0x0; e 255 0x0;
  e 212 0x0; e 212 0x0; e 212 0x0; e 212 0x0; e 212 0x0; e 212 0x0; e 212 0x0; e 212 0x0;
  e 212 0x0; e 212 0x0; e 212 0x0; e 212 0x0; e 212 0x0; e 212 0x0; e 212 0x0; e 212 0x0;
  e 212 0x0; e 212 0x0; e 212 0x0; e 212 0x0; e 212 0x0; e 212 0x0; e 212 0x0; e 212 0x0;
  e 212 0x0; e 212 0x0; e 212 0x0; e 212 0x0; e 212 0x0; e 212 0x0; e 212 0x0; e 212 0x0;
  e 212 0x0; e 212 0x0; e 212 0x0; e 212 0x0; e 212 0x0; e 212 0x0; e 212 0x0; e 212 0x0;
  e 212 0x0; e 212 0x0; e 212 0x0; e 212 0x0; e 212 0x0; e 212 0x0; e 212 0x0; e 212 0x0;
  e 212 0x0; e 212 0x0; e 212 0x0; e 212 0x0; e 212 0x0; e 212 0x0; e 212 0x0; e 212 0x0;
  e 212 0x0; e 212 0x0; e 212 0x0; e 212 0x0; e 212 0x0; e 212 0x0; e 212 0x0; e 212 0x0;
  e 212 0x0; e 212 0x0; e 212 0x0; e 212 0x0; e 212 0x0; e 212 0x0; e 212 0x0; e 212 0x0;
  e 212 0x0; e 212 0x0; e 212 0x0; e 212 0x0; e 212 0x0; e 212 0x0; e 212 0x0; e 212 0x0;
  e 212 0x0; e 212 0x0; e 212 0x0; e 212 0x0; e 212 0x0; e 212 0x0; e 212 0x0; e 212 0x0;
  e 212 0x0; e 212 0x0; e 212 0x0; e 212 0x0; e 212 0x0; e 212 0x0; e 212 0x0; e 212 0x0;
  e 212 0x0; e 212 0x0; e 212 0x0; e 212 0x0; e 255 0x0; e 255 0x0; e 255 0x0; e 255 0x0;
  e 255 0x0; e 255 0x0; e 255 0x0; e 255 0x0; e 255 0x0; e 255 0x0; e 255 0x0; e 255 0x0;
  e 212 0x0; e 212 0x0; e 212 0x0; e 212 0x0; e 212 0x0; e 212 0x0; e 212 0x0; e 212 0x0;
  e 212 0x0; e 212 0x0; e 212 0x0; e 212 0x0; e 212 0x0; e 212 0x0; e 212 0x0; e 255 0x0;
  e 255 0x0; e 212 0x0; e 212 0x0; e 212 0x0; e 212 0x0; e 212 0x0; e 212 0x0; e 212 0x0;
  e 212 0x0; e 212 0x0; e 212 0x0; e 212 0x0; e 212 0x0; e 212 0x0; e 212 0x0; e 255 0x0;
  e 255 0x0; e 212 0x0; e 212 0x0; e 212 0x0; e 212 0x0; e 212 0x0; e 212 0x0; e 212 0x0;
  e 212 0x0; e 212 0x0; e 212 0x0; e 212 0x0; e 212 0x0; e 212 0x0; e 212 0x0; e 212 0x0;
  e 255 0x0; e 212 0x0; e 212 0x0; e 212 0x0; e 212 0x0; e 212 0x0; e 212 0x0; e 212 0x0;
  e 212 0x0; e 212 0x0; e 212 0x0; e 212 0x0; e 212 0x0; e 212 0x0; e 212 0x0; e 212 0x0;
  e 255 0x0; e 255 0x0; e 255 0x0; e 255 0x0; e 255 0x0; e 255 0x0; e 255 0x0; e 255 0x0;
  e 255 0x0; e 255 0x0; e 255 0x0; e 255 0x0; e 255 0x0; e 255 0x0; e 255 0x0; e 255 0x0;
  e 255 0x0; e 255 0x0; e 255 0x0; e 255 0x0; e 255 0x0; e 255 0x0; e 255 0x0; e 255 0x0;
  e 255 0x0; e 255 0x0; e 255 0x0; e 255 0x0; e 255 0x0; e 255 0x0; e 255 0x0; e 255 0x0
].

Definition page_100 : list unichar := [
  e 142 0x0; e 142 0x0; e 143 0x0; e 144 0x0; e 145 0x0; e 146 0x0; e 147 0x0; e 148 0x0;
  e 149 0x0; e 150 0x0; e 151 0x0; e 255 0x0; e 255 0x0; e 255 0x0; e 255 0x0; e 255 0x0;
  e 211 0x0; e 211 0x0; e 211 0x0; e 211 0x0; e 211 0x0; e 211 0x0; e 211 0x0; e 211 0x0;
  e 211 0x0; e 211 0x0; e 211 0x0; e 211 0x0; e 211 0x0; e 211 0x0; e 211 0x0; e 211 0x0;
  e 211 0x0; e 211 0x0; e 211 0x0; e 211 0x0; e 211 0x0; e 211 0x0; e 211 0x0; e 211 0x0;
  e 211 0x0; e 211 0x0; e 211 0x0; e 211 0x0; e 211 0x0; e 211 0x0; e 211 0x0; e 255 0x0;
  e 211 0x0; e 211 0x0; e 211 0x0; e 211 0x0; e 211 0x0; e 211 0x0; e 211 0x0; e 211 0x0;
  e 211 0x0; e 211 0x0; e 211 0x0; e 211 0x0; e 211 0x0; e 211 0x0; e 211 0x0; e 211 0x0;
  e 211 0x0; e 211 0x0; e 211 0x0; e 211 0x0; e 211 0x0; e 211 0x0; e 211 0x0; e 211 0x0;
  e 211 0x0; e 211 0x0; e 211 0x0; e 211 0x0; e 211 0x0; e 211 0x0; e 211 0x0; e 211 0x0;
  e 211 0x0; e 211 0x0; e 211 0x0; e 211 0x0; e 211 0x0; e 211 0x0; e 211 0x0; e 211 0x0;
  e 211 0x0; e 211 0x0; e 211 0x0; e 211 0x0; e 211 0x0; e 211 0x0; e 211 0x0; e 211 0x0;
  e 211 0x0; e 211 0x0; e 211 0x0; e 211 0x0; e 211 0x0; e 211 0x0; e 211 0x0; e 211 0x0;
  e 211 0x0; e 211 0x0; e 212 0x0; e 212 0x0; e 255 0x0; e 255 0x0; e 255 0x0; e 255 0x0;
  e 211 0x0; e 211 0x0; e 211 0x0; e 211 0x0; e 211 0x0; e 211 0x0; e 211 0x0; e 211 0x0;
  e 211 0x0; e 211 0x0; e 211 0x0; e 211 0x0; e 211 0x0; e 211 0x0; e 211 0x0; e 211 0x0;
  e 211 0x0; e 211 0x0; e 211 0x0; e 211 0x0; e 211 0x0; e 211 0x0; e 211 0x0; e 211 0x0;
  e 211 0x0; e 211 0x0; e 211 0x0; e 211 0x0; e 211 0x0; e 211 0x0; e 211 0x0; e 211 0x0;
  e 211 0x0; e 211 0x0; e 211 0x0; e 211 0x0; e 211 0x0; e 211 0x0; e 211 0x0; e 211 0x0;
  e 211 0x0; e 211 0x0; e 211 0x0; e 255 0x0; e 255 0x0; e 255 0x0; e 255 0x0; e 255 0x0;
  e 255 0x0; e 255 0x0; e 255 0x0; e 255 0x0; e 255 0x0; e 255 0x0; e 255 0x0; e 255 0x0;
  e 255 0x0; e 255 0x0; e 255 0x0; e 255 0x0; e 255 0x0; e 255 0x0; e 255 0x0; e 255 0x0;
  e 255 0x0; e 255 0x0; e 255 0x0; e 255 0x0; e 255 0x0; e 255 0x0; e 255 0x0; e 255 0x0;
  e 255 0x0; e 255 0x0; e 255 0x0; e 255 0x0; e 255 0x0; e 255 0x0; e 255 0x0; e 255 0x0;
  e 255 0x0; e 255 0x0; e 255 0x0; e 255 0x0; e 255 0x0; e 255 0x0; e 255 0x0; e 255 0x0;
  e 255 0x0; e 255 0x0; e 255 0x0; e 255 0x0; e 255 0x0; e 255 0x0; e 255 0x0; e 255 0x0;
  e 255 0x0; e 255 0x0; e 255 0x0; e 255 0x0; e 255 0x0; e 255 0x0; e 255 0x0; e 255 0x0;
  e 255 0x0; e 255 0x0; e 255 0x0; e 255 0x0; e 255 0x0; e 255 0x0; e 255 0x0; e 255 0x0;
  e 255 0x0; e 255 0x0; e 255 0x0; e 255 0x0; e 255 0x0; e 255 0x0; e 211 0x0; e 211 0x0;
  e 211 0x0; e 211 0x0; e 211 0x0; e 211 0x0; e 211 0x0; e 211 0x0; e 211 0x0; e 211 0x0;
  e 211 0x0; e 211 0x0; e 211 0x0; e 211 0x0; e 211 0x0; e 211 0x0; e 211 0x0; e 211 0x0;
  e 211 0x0; e 211 0x0; e 211 0x0; e 211 0x0; e 211 0x0; e 211 0x0; e 211 0x0; e 211 0x0
].

Definition page_101 : list unichar := [
  e 211 0x0; e 211 0x0; e 211 0x0; e 255 0x0; e 255 0x0; e 255 0x0; e 255 0x0; e 255 0x0;
  e 255 0x0; e 255 0x0; e 255 0x0; e 255 0x0; e 255 0x0; e 255 0x0; e 255 0x0; e 255 0x0;
  e 211 0x0; e 211 0x0; e 211 0x0; e 211 0x0; e 211 0x0; e 211 0x0; e 211 0x0; e 211 0x0;
  e 211 0x0; e 211 0x0; e 211 0x0; e 211 0x0; e 211 0x0; e 211 0x0; e 211 0x0; e 211 0x0;
  e 211 0x0; e 211 0x0; e 211 0x0; e 211 0x0; e 211 0x0; e 211 0x0; e 211 0x0; e 211 0x0;
  e 211 0x0; e 211 0x0; e 211 0x0; e 211 0x0; e 211 0x0; e 211 0x0; e 211 0x0; e 211 0x0;
  e 211 0x0; e 211 0x0; e 211 0x0; e 211 0x0; e 211 0x0; e 211 0x0; e 211 0x0; e 211 0x0;
  e 211 0x0; e 211 0x0; e 211 0x0; e 255 0x0; e 255 0x0; e 255 0x0; e 255 0x0; e 255 0x0;
  e 211 0x0; e 211 0x0; e 211 0x0; e 211 0x0; e 211 0x0; e 211 0x0; e 211 0x0; e 211 0x0;
  e 211 0x0; e 255 0x0; e 255 0x0; e 255 0x0; e 255 0x0; e 255 0x0; e 255 0x0; e 255 0x0;
  e 211 0x0; e 211 0x0; e 255 0x0; e 255 0x0; e 255 0x0; e 255 0x0; e 255 0x0; e 255 0x0;
  e 255 0x0; e 255 0x0; e 255 0x0; e 255 0x0; e 255 0x0; e 255 0x0; e 255 0x0; e 255 0x0;
  e 255 0x0; e 255 0x0; e 255 0x0; e 255 0x0; e 255 0x0; e 255 0x0; e 255 0x0; e 255 0x0;
  e 255 0x0; e 255 0x0; e 255 0x0; e 255 0x0; e 255 0x0; e 255 0x0; e 255 0x0; e 255 0x0;
  e 255 0x0; e 255 0x0; e 255 0x0; e 255 0x0; e 255 0x0; e 255 0x0; e 255 0x0; e 255 0x0;
  e 255 0x0; e 255 0x0; e 255 0x0; e 255 0x0; e 255 0x0; e 255 0x0; e 255 0x0; e 255 0x0;
  e 255 0x0; e 255 0x0; e 255 0x0; e 255 0x0; e 255 0x0; e 255 0x0; e 255 0x0; e 255 0x0;
  e 255 0x0; e 255 0x0; e 255 0x0; e 255 0x0; e 255 0x0; e 255 0x0; e 255 0x0; e 255 0x0;
  e 255 0x0; e 255 0x0; e 255 0x0; e 255 0x0; e 255 0x0; e 255 0x0; e 255 0x0; e 255 0x0;
  e 255 0x0; e 255 0x0; e 255 0x0; e 255 0x0; e 255 0x0; e 255 0x0; e 255 0x0; e 255 0x0;
  e 255 0x0; e 255 0x0; e 255 0x0; e 255 0x0; e 255 0x0; e 255 0x0; e 255 0x0; e 255 0x0;
  e 255 0x0; e 255 0x0; e 255 0x0; e 255 0x0; e 255 0x0; e 255 0x0; e 255 0x0; e 255 0x0;
  e 255 0x0; e 255 0x0; e 255 0x0; e 255 0x0; e 255 0x0; e 255 0x0; e 255 0x0; e 255 0x0;
  e 255 0x0; e 255 0x0; e 255 0x0; e 255 0x0; e 255 0x0; e 255 0x0; e 255 0x0; e 255 0x0;
  e 255 0x0; e 255 0x0; e 255 0x0; e 255 0x0; e 255 0x0; e 255 0x0; e 255 0x0; e 255 0x0;
  e 255 0x0; e 255 0x0; e 255 0x0; e 255 0x0; e 255 0x0; e 255 0x0; e 255 0x0; e 255 0x0;
  e 255 0x0; e 255 0x0; e 255 0x0; e 255 0x0; e 255 0x0; e 255 0x0; e 255 0x0; e 255 0x0;
  e 255 0x0; e 255 0x0; e 255 0x0; e 255 0x0; e 255 0x0; e 255 0x0; e 255 0x0; e 255 0x0;
  e 255 0x0; e 255 0x0; e 255 0x0; e 255 0x0; e 255 0x0; e 255 0x0; e 255 0x0; e 255 0x0;
  e 255 0x0; e 255 0x0; e 255 0x0; e 255 0x0; e 255 0x0; e 255 0x0; e 255 0x0; e 255 0x0;
  e 255 0x0; e 255 0x0; e 255 0x0; e 255 0x0; e 255 0x0; e 255 0x0; e 255 0x0; e 255 0x0;
  e 255 0x0; e 255 0x0; e 255 0x0; e 255 0x0; e 255 0x0; e 255 0x0; e 255 0x0; e 255 0x0
].

Definition page_102 : list unichar := [
  e 212 0x0; e 212 0x0; e 212 0x0; e 212 0x0; e 212 0x0; e 212 0x0; e 212 0x0; e 212 0x0;
  e 212 0x0; e 212 0x0; e 212 0x0; e 212 0x0; e 212 0x0; e 212 0x0; e 212 0x0; e 212 0x0;
  e 212 0x0; e 212 0x0; e 212 0x0; e 212 0x0; e 212 0x0; e 212 0x0; e 212 0x0; e 212 0x0;
  e 212 0x0; e 212 0x0; e 212 0x0; e 212 0x0; e 212 0x0; e 212 0x0; e 212 0x0; e 212 0x0;
  e 212 0x0; e 255 0x0; e 255 0x0; e 255 0x0; e 255 0x0; e 255 0x0; e 255 0x0; e 255 0x0;
  e 255 0x0; e 255 0x0; e 255 0x0; e 255 0x0; e 255 0x0; e 255 0x0; e 255 0x0; e 255 0x0;
  e 212 0x0; e 212 0x0; e 212 0x0; e 212 0x0; e 212 0x0; e 212 0x0; e 255 0x0; e 212 0x0;
  e 212 0x0; e 212 0x0; e 212 0x0; e 212 0x0; e 212 0x0; e 212 0x0; e 212 0x0; e 212 0x0;
  e 212 0x0; e 212 0x0; e 212 0x0; e 212 0x0; e 212 0x0; e 212 0x0; e 212 0x0; e 212 0x0;
  e 212 0x0; e 212 0x0; e 212 0x0; e 212 0x0; e 212 0x0; e 212 0x0; e 212 0x0; e 212 0x0;
  e 212 0x0; e 212 0x0; e 212 0x0; e 212 0x0; e 212 0x0; e 212 0x0; e 212 0x0; e 212 0x0;
  e 212 0x0; e 212 0x0; e 212 0x0; e 212 0x0; e 212 0x0; e 212 0x0; e 212 0x0; e 212 0x0;
  e 212 0x0; e 212 0x0; e 212 0x0; e 212 0x0; e 212 0x0; e 212 0x0; e 212 0x0; e 212 0x0;
  e 212 0x0; e 212 0x0; e 212 0x0; e 212 0x0; e 212 0x0; e 212 0x0; e 212 0x0; e 212 0x0;
  e 212 0x0; e 212 0x0; e 212 0x0; e 212 0x0; e 212 0x0; e 212 0x0; e 212 0x0; e 212 0x0;
  e 212 0x0; e 212 0x0; e 212 0x0; e 212 0x0; e 212 0x0; e 255 0x0; e 255 0x0; e 255 0x0;
  e 212 0x0; e 212 0x0; e 212 0x0; e 212 0x0; e 212 0x0; e 212 0x0; e 212 0x0; e 212 0x0;
  e 212 0x0; e 212 0x0; e 212 0x0; e 212 0x0; e 212 0x0; e 212 0x0; e 212 0x0; e 212 0x0;
  e 212 0x0; e 212 0x0; e 212 0x0; e 212 0x0; e 255 0x0; e 255 0x0; e 255 0x0; e 255 0x0;
  e 255 0x0; e 255 0x0; e 255 0x0; e 255 0x0; e 255 0x0; e 255 0x0; e 255 0x0; e 255 0x0;
  e 212 0x0; e 212 0x0; e 212 0x0; e 212 0x0; e 212 0x0; e 212 0x0; e 212 0x0; e 212 0x0;
  e 212 0x0; e 212 0x0; e 212 0x0; e 212 0x0; e 212 0x0; e 212 0x0; e 212 0x0; e 212 0x0;
  e 212 0x0; e 212 0x0; e 212 0x0; e 212 0x0; e 212 0x0; e 212 0x0; e 212 0x0; e 212 0x0;
  e 212 0x0; e 212 0x0; e 212 0x0; e 212 0x0; e 212 0x0; e 212 0x0; e 212 0x0; e 212 0x0;
  e 212 0x0; e 212 0x0; e 212 0x0; e 212 0x0; e 212 0x0; e 255 0x0; e 212 0x0; e 212 0x0;
  e 212 0x0; e 212 0x0; e 212 0x0; e 255 0x0; e 255 0x0; e 255 0x0; e 255 0x0; e 255 0x0;
  e 255 0x0; e 255 0x0; e 255 0x0; e 255 0x0; e 255 0x0; e 255 0x0; e 255 0x0; e 255 0x0;
  e 255 0x0; e 255 0x0; e 255 0x0; e 255 0x0; e 255 0x0; e 255 0x0; e 255 0x0; e 255 0x0;
  e 212 0x0; e 212 0x0; e 212 0x0; e 212 0x0; e 212 0x0; e 212 0x0; e 212 0x0; e 212 0x0;
  e 212 0x0; e 212 0x0; e 212 0x0; e 212 0x0; e 212 0x0; e 212 0x0; e 212 0x0; e 212 0x0;
  e 212 0x0; e 255 0x0; e 255 0x0; e 255 0x0; e 255 0x0; e 255 0x0; e 255 0x0; e 255 0x0;
  e 255 0x0; e 255 0x0; e 255 0x0; e 255 0x0; e 255 0x0; e 255 0x0; e 255 0x0; e 255 0x0
].

Definition page_103 : list unichar := [
  e 212 0x0; e 212 0x0; e 212 0x0; e 212 0x0; e 212 0x0; e 212 0x0; e 212 0x0; e 212 0x0;
  e 212 0x0; e 212 0x0; e 212 0x0; e 212 0x0; e 212 0x0; e 212 0x0; e 212 0x0; e 212 0x0;
  e 212 0x0; e 212 0x0; e 212 0x0; e 212 0x0; e 212 0x0; e 212 0x0; e 212 0x0; e 212 0x0;
  e 212 0x0; e 212 0x0; e 212 0x0; e 212 0x0; e 212 0x0; e 212 0x0; e 212 0x0; e 212 0x0;
  e 212 0x0; e 212 0x0; e 212 0x0; e 212 0x0; e 212 0x0; e 212 0x0; e 212 0x0; e 212 0x0;
  e 212 0x0; e 212 0x0; e 212 0x0; e 212 0x0; e 212 0x0; e 212 0x0; e 212 0x0; e 212 0x0;
  e 212 0x0; e 212 0x0; e 212 0x0; e 212 0x0; e 212 0x0; e 212 0x0; e 212 0x0; e 212 0x0;
  e 212 0x0; e 212 0x0; e 212 0x0; e 212 0x0; e 212 0x0; e 212 0x0; e 212 0x0; e 255 0x0;
  e 212 0x0; e 255 0x0; e 212 0x0; e 212 0x0; e 212 0x0; e 212 0x0; e 212 0x0; e 212 0x0;
  e 212 0x0; e 212 0x0; e 212 0x0; e 212 0x0; e 212 0x0; e 212 0x0; e 212 0x0; e 212 0x0;
  e 212 0x0; e 212 0x0; e 212 0x0; e 212 0x0; e 212 0x0; e 212 0x0; e 212 0x0; e 212 0x0;
  e 212 0x0; e 212 0x0; e 212 0x0; e 212 0x0; e 212 0x0; e 212 0x0; e 212 0x0; e 212 0x0;
  e 212 0x0; e 212 0x0; e 212 0x0; e 212 0x0; e 212 0x0; e 212 0x0; e 212 0x0; e 212 0x0;
  e 212 0x0; e 212 0x0; e 212 0x0; e 212 0x0; e 212 0x0; e 212 0x0; e 212 0x0; e 212 0x0;
  e 212 0x0; e 212 0x0; e 212 0x0; e 212 0x0; e 212 0x0; e 212 0x0; e 212 0x0; e 212 0x0;
  e 212 0x0; e 212 0x0; e 212 0x0; e 212 0x0; e 212 0x0; e 212 0x0; e 212 0x0; e 212 0x0;
  e 212 0x0; e 212 0x0; e 212 0x0; e 212 0x0; e 212 0x0; e 212 0x0; e 212 0x0; e 212 0x0;
  e 212 0x0; e 212 0x0; e 212 0x0; e 212 0x0; e 212 0x0; e 212 0x0; e 212 0x0; e 212 0x0;
  e 212 0x0; e 212 0x0; e 212 0x0; e 212 0x0; e 212 0x0; e 212 0x0; e 212 0x0; e 212 0x0;
  e 212 0x0; e 212 0x0; e 212 0x0; e 212 0x0; e 212 0x0; e 212 0x0; e 212 0x0; e 212 0x0;
  e 212 0x0; e 212 0x0; e 212 0x0; e 212 0x0; e 212 0x0; e 212 0x0; e 212 0x0; e 212 0x0;
  e 212 0x0; e 212 0x0; e 212 0x0; e 212 0x0; e 212 0x0; e 212 0x0; e 212 0x0; e 212 0x0;
  e 212 0x0; e 212 0x0; e 212 0x0; e 212 0x0; e 212 0x0; e 212 0x0; e 212 0x0; e 212 0x0;
  e 212 0x0; e 212 0x0; e 212 0x0; e 212 0x0; e 212 0x0; e 212 0x0; e 212 0x0; e 212 0x0;
  e 212 0x0; e 212 0x0; e 212 0x0; e 212 0x0; e 212 0x0; e 212 0x0; e 212 0x0; e 212 0x0;
  e 212 0x0; e 212 0x0; e 212 0x0; e 212 0x0; e 212 0x0; e 212 0x0; e 212 0x0; e 212 0x0;
  e 212 0x0; e 212 0x0; e 212 0x0; e 212 0x0; e 212 0x0; e 212 0x0; e 212 0x0; e 212 0x0;
  e 212 0x0; e 212 0x0; e 212 0x0; e 212 0x0; e 212 0x0; e 212 0x0; e 212 0x0; e 212 0x0;
  e 212 0x0; e 212 0x0; e 212 0x0; e 212 0x0; e 212 0x0; e 212 0x0; e 212 0x0; e 212 0x0;
  e 212 0x0; e 212 0x0; e 212 0x0; e 212 0x0; e 212 0x0; e 212 0x0; e 212 0x0; e 212 0x0;
  e 212 0x0; e 212 0x0; e 212 0x0; e 212 0x0; e 212 0x0; e 212 0x0; e 212 0x0; e 212 0x0;
  e 255 0x0; e 212 0x0; e 212 0x0; e 212 0x0; e 212 0x0; e 255 0x0; e 255 0x0; e 255 0x0
].

Definition page_104 : list unichar := [
  e 212 0x0; e 212 0x0; e 212 0x0; e 212 0x0; e 212 0x0; e 212 0x0; e 212 0x0; e 212 0x0;
  e 212 0x0; e 212 0x0; e 212 0x0; e 212 0x0; e 212 0x0; e 212 0x0; e 212 0x0; e 212 0x0;
  e 212 0x0; e 212 0x0; e 212 0x0; e 212 0x0; e 212 0x0; e 212 0x0; e 212 0x0; e 212 0x0;
  e 212 0x0; e 212 0x0; e 212 0x0; e 212 0x0; e 212 0x0; e 212 0x0; e 212 0x0; e 212 0x0;
  e 212 0x0; e 212 0x0; e 212 0x0; e 212 0x0; e 212 0x0; e 212 0x0; e 212 0x0; e 212 0x0;
  e 212 0x0; e 212 0x0; e 212 0x0; e 212 0x0; e 212 0x0; e 212 0x0; e 212 0x0; e 212 0x0;
  e 212 0x0; e 212 0x0; e 212 0x0; e 212 0x0; e 212 0x0; e 212 0x0; e 212 0x0; e 212 0x0;
  e 212 0x0; e 212 0x0; e 212 0x0; e 212 0x0; e 212 0x0; e 212 0x0; e 255 0x0; e 255 0x0;
  e 212 0x0; e 212 0x0; e 212 0x0; e 212 0x0; e 255 0x0; e 255 0x0; e 255 0x0; e 255 0x0;
  e 255 0x0; e 255 0x0; e 255 0x0; e 255 0x0; e 255 0x0; e 255 0x0; e 255 0x0; e 255 0x0;
  e 212 0x0; e 212 0x0; e 212 0x0; e 212 0x0; e 212 0x0; e 212 0x0; e 212 0x0; e 212 0x0;
  e 212 0x0; e 212 0x0; e 212 0x0; e 212 0x0; e 212 0x0; e 212 0x0; e 212 0x0; e 212 0x0;
  e 212 0x0; e 212 0x0; e 212 0x0; e 212 0x0; e 212 0x0; e 212 0x0; e 212 0x0; e 212 0x0;
  e 255 0x0; e 255 0x0; e 255 0x0; e 255 0x0; e 255 0x0; e 255 0x0; e 255 0x0; e 255 0x0;
  e 255 0x0; e 255 0x0; e 255 0x0; e 255 0x0; e 255 0x0; e 255 0x0; e 255 0x0; e 255 0x0;
  e 255 0x0; e 255 0x0; e 255 0x0; e 255 0x0; e 255 0x0; e 255 0x0; e 255 0x0; e 255 0x0;
  e 255 0x0; e 255 0x0; e 255 0x0; e 255 0x0; e 255 0x0; e 255 0x0; e 255 0x0; e 255 0x0;
  e 255 0x0; e 255 0x0; e 255 0x0; e 255 0x0; e 255 0x0; e 255 0x0; e 255 0x0; e 255 0x0;
  e 255 0x0; e 255 0x0; e 255 0x0; e 255 0x0; e 255 0x0; e 255 0x0; e 255 0x0; e 255 0x0;
  e 255 0x0; e 255 0x0; e 255 0x0; e 255 0x0; e 255 0x0; e 255 0x0; e 255 0x0; e 255 0x0;
  e 255 0x0; e 255 0x0; e 255 0x0; e 255 0x0; e 255 0x0; e 255 0x0; e 255 0x0; e 255 0x0;
  e 255 0x0; e 255 0x0; e 255 0x0; e 255 0x0; e 255 0x0; e 255 0x0; e 255 0x0; e 255 0x0;
  e 255 0x0; e 255 0x0; e 255 0x0; e 255 0x0; e 255 0x0; e 255 0x0; e 255 0x0; e 255 0x0;
  e 255 0x0; e 255 0x0; e 255 0x0; e 255 0x0; e 255 0x0; e 255 0x0; e 255 0x0; e 255 0x0;
  e 255 0x0; e 255 0x0; e 255 0x0; e 255 0x0; e 255 0x0; e 255 0x0; e 255 0x0; e 255 0x0;
  e 255 0x0; e 255 0x0; e 255 0x0; e 255 0x0; e 255 0x0; e 255 0x0; e 255 0x0; e 255 0x0;
  e 255 0x0; e 255 0x0; e 255 0x0; e 255 0x0; e 255 0x0; e 255 0x0; e 255 0x0; e 255 0x0;
  e 255 0x0; e 255 0x0; e 255 0x0; e 255 0x0; e 255 0x0; e 255 0x0; e 255 0x0; e 255 0x0;
  e 255 0x0; e 255 0x0; e 255 0x0; e 255 0x0; e 255 0x0; e 255 0x0; e 255 0x0; e 255 0x0;
  e 255 0x0; e 255 0x0; e 255 0x0; e 255 0x0; e 255 0x0; e 255 0x0; e 255 0x0; e 255 0x0;
  e 255 0x0; e 255 0x0; e 255 0x0; e 255 0x0; e 255 0x0; e 255 0x0; e 255 0x0; e 255 0x0;
  e 255 0x0; e 255 0x0; e 255 0x0; e 212 0x0; e 212 0x0; e 212 0x0; e 212 0x0; e 212 0x0
].

Definition page_105 : list unichar := [
  e 212 0x0; e 212 0x0; e 212 0x0; e 212 0x0; e 212 0x0; e 212 0x0; e 212 0x0; e 212 0x0;
  e 212 0x0; e 212 0x0; e 212 0x0; e 212 0x0; e 212 0x0; e 212 0x0; e 212 0x0; e 212 0x0;
  e 212 0x0; e 212 0x0; e 212 0x0; e 212 0x0; e 212 0x0; e 212 0x0; e 212 0x0; e 212 0x0;
  e 212 0x0; e 212 0x0; e 212 0x0; e 212 0x0; e 212 0x0; e 212 0x0; e 212 0x0; e 212 0x0;
  e 212 0x0; e 212 0x0; e 212 0x0; e 212 0x0; e 212 0x0; e 212 0x0; e 212 0x0; e 212 0x0;
  e 212 0x0; e 212 0x0; e 212 0x0; e 212 0x0; e 212 0x0; e 212 0x0; e 212 0x0; e 212 0x0;
  e 212 0x0; e 212 0x0; e 212 0x0; e 212 0x0; e 212 0x0; e 212 0x0; e 212 0x0; e 212 0x0;
  e 212 0x0; e 212 0x0; e 212 0x0; e 212 0x0; e 212 0x0; e 212 0x0; e 212 0x0; e 212 0x0;
  e 212 0x0; e 255 0x0; e 255 0x0; e 255 0x0; e 255 0x0; e 212 0x0; e 212 0x0; e 212 0x0;
  e 212 0x0; e 212 0x0; e 212 0x0; e 212 0x0; e 212 0x0; e 212 0x0; e 212 0x0; e 212 0x0;
  e 255 0x0; e 255 0x0; e 255 0x0; e 255 0x0; e 255 0x0; e 255 0x0; e 255 0x0; e 255 0x0;
  e 255 0x0; e 255 0x0; e 255 0x0; e 255 0x0; e 255 0x0; e 255 0x0; e 255 0x0; e 255 0x0;
  e 255 0x0; e 255 0x0; e 255 0x0; e 255 0x0; e 255 0x0; e 255 0x0; e 255 0x0; e 255 0x0;
  e 255 0x0; e 255 0x0; e 255 0x0; e 255 0x0; e 255 0x0; e 255 0x0; e 255 0x0; e 255 0x0;
  e 255 0x0; e 255 0x0; e 255 0x0; e 255 0x0; e 255 0x0; e 255 0x0; e 255 0x0; e 255 0x0;
  e 255 0x0; e 255 0x0; e 255 0x0; e 255 0x0; e 255 0x0; e 255 0x0; e 255 0x0; e 255 0x0;
  e 212 0x0; e 212 0x0; e 212 0x0; e 212 0x0; e 212 0x0; e 212 0x0; e 212 0x0; e 212 0x0;
  e 212 0x0; e 212 0x0; e 212 0x0; e 212 0x0; e 212 0x0; e 212 0x0; e 212 0x0; e 212 0x0;
  e 212 0x0; e 212 0x0; e 212 0x0; e 212 0x0; e 212 0x0; e 212 0x0; e 212 0x0; e 212 0x0;
  e 212 0x0; e 212 0x0; e 212 0x0; e 212 0x0; e 212 0x0; e 212 0x0; e 212 0x0; e 212 0x0;
  e 212 0x0; e 212 0x0; e 212 0x0; e 212 0x0; e 212 0x0; e 212 0x0; e 212 0x0; e 212 0x0;
  e 212 0x0; e 212 0x0; e 212 0x0; e 212 0x0; e 212 0x0; e 212 0x0; e 212 0x0; e 212 0x0;
  e 212 0x0; e 212 0x0; e 212 0x0; e 212 0x0; e 212 0x0; e 212 0x0; e 212 0x0; e 212 0x0;
  e 212 0x0; e 212 0x0; e 212 0x0; e 212 0x0; e 212 0x0; e 212 0x0; e 212 0x0; e 212 0x0;
  e 212 0x0; e 212 0x0; e 212 0x0; e 212 0x0; e 212 0x0; e 212 0x0; e 255 0x0; e 255 0x0;
  e 255 0x0; e 255 0x0; e 255 0x0; e 255 0x0; e 255 0x0; e 255 0x0; e 255 0x0; e 255 0x0;
  e 255 0x0; e 255 0x0; e 255 0x0; e 255 0x0; e 255 0x0; e 255 0x0; e 255 0x0; e 255 0x0;
  e 255 0x0; e 255 0x0; e 255 0x0; e 255 0x0; e 255 0x0; e 255 0x0; e 255 0x0; e 255 0x0;
  e 255 0x0; e 255 0x0; e 255 0x0; e 255 0x0; e 255 0x0; e 255 0x0; e 255 0x0; e 255 0x0;
  e 255 0x0; e 255 0x0; e 255 0x0; e 255 0x0; e 255 0x0; e 255 0x0; e 255 0x0; e 255 0x0;
  e 255 0x0; e 255 0x0; e 255 0x0; e 255 0x0; e 255 0x0; e 255 0x0; e 255 0x0; e 255 0x0;
  e 255 0x0; e 255 0x0; e 255 0x0; e 255 0x0; e 255 0x0; e 255 0x0; e 255 0x0; e 255 0x0
].

Definition page_106 : list unichar := [
  e 212 0x0; e 212 0x0; e 212 0x0; e 212 0x0; e 212 0x0; e 212 0x0; e 212 0x0; e 212 0x0;
  e 212 0x0; e 212 0x0; e 212 0x0; e 212 0x0; e 212 0x0; e 212 0x0; e 212 0x0; e 212 0x0;
  e 212 0x0; e 212 0x0; e 212 0x0; e 212 0x0; e 212 0x0; e 212 0x0; e 212 0x0; e 212 0x0;
  e 212 0x0; e 212 0x0; e 212 0x0; e 212 0x0; e 212 0x0; e 212 0x0; e 212 0x0; e 212 0x0;
  e 212 0x0; e 212 0x0; e 212 0x0; e 212 0x0; e 212 0x0; e 212 0x0; e 212 0x0; e 212 0x0;
  e 212 0x0; e 212 0x0; e 212 0x0; e 212 0x0; e 212 0x0; e 212 0x0; e 212 0x0; e 212 0x0;
  e 212 0x0; e 212 0x0; e 212 0x0; e 212 0x0; e 212 0x0; e 212 0x0; e 212 0x0; e 212 0x0;
  e 212 0x0; e 212 0x0; e 212 0x0; e 212 0x0; e 212 0x0; e 212 0x0; e 212 0x0; e 212 0x0;
  e 212 0x0; e 212 0x0; e 212 0x0; e 212 0x0; e 212 0x0; e 212 0x0; e 212 0x0; e 212 0x0;
  e 212 0x0; e 212 0x0; e 212 0x0; e 212 0x0; e 212 0x0; e 212 0x0; e 212 0x0; e 212 0x0;
  e 212 0x0; e 212 0x0; e 212 0x0; e 212 0x0; e 212 0x0; e 212 0x0; e 212 0x0; e 212 0x0;
  e 212 0x0; e 212 0x0; e 212 0x0; e 212 0x0; e 212 0x0; e 212 0x0; e 212 0x0; e 212 0x0;
  e 212 0x0; e 212 0x0; e 212 0x0; e 212 0x0; e 212 0x0; e 212 0x0; e 212 0x0; e 212 0x0;
  e 212 0x0; e 212 0x0; e 212 0x0; e 212 0x0; e 212 0x0; e 212 0x0; e 212 0x0; e 212 0x0;
  e 212 0x0; e 212 0x0; e 212 0x0; e 212 0x0; e 255 0x0; e 255 0x0; e 255 0x0; e 255 0x0;
  e 255 0x0; e 255 0x0; e 255 0x0; e 255 0x0; e 255 0x0; e 255 0x0; e 255 0x0; e 255 0x0;
  e 255 0x0; e 255 0x0; e 255 0x0; e 255 0x0; e 255 0x0; e 255 0x0; e 255 0x0; e 255 0x0;
  e 255 0x0; e 255 0x0; e 255 0x0; e 255 0x0; e 255 0x0; e 255 0x0; e 255 0x0; e 255 0x0;
  e 255 0x0; e 255 0x0; e 255 0x0; e 255 0x0; e 255 0x0; e 255 0x0; e 255 0x0; e 255 0x0;
  e 255 0x0; e 255 0x0; e 255 0x0; e 255 0x0; e 255 0x0; e 255 0x0; e 255 0x0; e 255 0x0;
  e 255 0x0; e 255 0x0; e 255 0x0; e 255 0x0; e 255 0x0; e 255 0x0; e 255 0x0; e 255 0x0;
  e 255 0x0; e 255 0x0; e 255 0x0; e 255 0x0; e 255 0x0; e 255 0x0; e 255 0x0; e 255 0x0;
  e 255 0x0; e 255 0x0; e 255 0x0; e 255 0x0; e 255 0x0; e 255 0x0; e 255 0x0; e 255 0x0;
  e 255 0x0; e 255 0x0; e 255 0x0; e 255 0x0; e 255 0x0; e 255 0x0; e 255 0x0; e 255 0x0;
  e 255 0x0; e 255 0x0; e 255 0x0; e 255 0x0; e 255 0x0; e 255 0x0; e 255 0x0; e 255 0x0;
  e 255 0x0; e 255 0x0; e 255 0x0; e 255 0x0; e 255 0x0; e 255 0x0; e 255 0x0; e 255 0x0;
  e 255 0x0; e 255 0x0; e 255 0x0; e 255 0x0; e 255 0x0; e 255 0x0; e 255 0x0; e 255 0x0;
  e 255 0x0; e 255 0x0; e 255 0x0; e 255 0x0; e 255 0x0; e 255 0x0; e 255 0x0; e 255 0x0;
  e 255 0x0; e 255 0x0; e 255 0x0; e 255 0x0; e 255 0x0; e 255 0x0; e 255 0x0; e 255 0x0;
  e 255 0x0; e 255 0x0; e 255 0x0; e 255 0x0; e 255 0x0; e 255 0x0; e 255 0x0; e 255 0x0;
  e 255 0x0; e 255 0x0; e 255 0x0; e 255 0x0; e 255 0x0; e 255 0x0; e 255 0x0; e 255 0x0;
  e 255 0x0; e 255 0x0; e 255 0x0; e 255 0x0; e 255 0x0; e 255 0x0; e 255 0x0; e 255 0x0
].

Definition page_107 : list unichar := [
  e 10 0x0; e 10 0x0; e 10 0x0; e 10 0x0; e 10 0x0; e 10 0x0; e 10 0x0; e 10 0x0;
  e 10 0x0; e 10 0x0; e 10 0x0; e 10 0x0; e 10 0x0; e 10 0x0; e 10 0x0; e 10 0x0;
  e 10 0x0; e 10 0x0; e 10 0x0; e 10 0x0; e 10 0x0; e 10 0x0; e 10 0x0; e 10 0x0;
  e 10 0x0; e 10 0x0; e 10 0x0; e 10 0x0; e 10 0x0; e 10 0x0; e 10 0x0; e 10 0x0;
  e 10 0x0; e 10 0x0; e 10 0x0; e 10 0x0; e 10 0x0; e 10 0x0; e 10 0x0; e 10 0x0;
  e 10 0x0; e 10 0x0; e 10 0x0; e 10 0x0; e 10 0x0; e 10 0x0; e 10 0x0; e 10 0x0;
  e 10 0x0; e 10 0x0; e 10 0x0; e 10 0x0; e 10 0x0; e 10 0x0; e 10 0x0; e 10 0x0;
  e 10 0x0; e 10 0x0; e 10 0x0; e 10 0x0; e 10 0x0; e 10 0x0; e 10 0x0; e 10 0x0;
  e 10 0x0; e 10 0x0; e 10 0x0; e 10 0x0; e 10 0x0; e 10 0x0; e 10 0x0; e 10 0x0;
  e 10 0x0; e 10 0x0; e 10 0x0; e 10 0x0; e 10 0x0; e 10 0x0; e 10 0x0; e 10 0x0;
  e 10 0x0; e 10 0x0; e 10 0x0; e 10 0x0; e 10 0x0; e 10 0x0; e 10 0x0; e 10 0x0;
  e 10 0x0; e 10 0x0; e 10 0x0; e 10 0x0; e 10 0x0; e 10 0x0; e 10 0x0; e 10 0x0;
  e 10 0x0; e 10 0x0; e 10 0x0; e 10 0x0; e 10 0x0; e 10 0x0; e 10 0x0; e 10 0x0;
  e 10 0x0; e 10 0x0; e 10 0x0; e 10 0x0; e 10 0x0; e 10 0x0; e 10 0x0; e 10 0x0;
  e 10 0x0; e 10 0x0; e 10 0x0; e 10 0x0; e 10 0x0; e 10 0x0; e 10 0x0; e 10 0x0;
  e 10 0x0; e 10 0x0; e 10 0x0; e 10 0x0; e 10 0x0; e 10 0x0; e 10 0x0; e 10 0x0;
  e 10 0x0; e 10 0x0; e 10 0x0; e 10 0x0; e 10 0x0; e 10 0x0; e 10 0x0; e 10 0x0;
  e 10 0x0; e 10 0x0; e 10 0x0; e 10 0x0; e 10 0x0; e 10 0x0; e 10 0x0; e 10 0x0;
  e 10 0x0; e 10 0x0; e 10 0x0; e 10 0x0; e 10 0x0; e 10 0x0; e 10 0x0; e 10 0x0;
  e 10 0x0; e 10 0x0; e 10 0x0; e 10 0x0; e 10 0x0; e 10 0x0; e 10 0x0; e 10 0x0;
  e 10 0x0; e 10 0x0; e 10 0x0; e 10 0x0; e 10 0x0; e 10 0x0; e 10 0x0; e 10 0x0;
  e 10 0x0; e 10 0x0; e 10 0x0; e 10 0x0; e 10 0x0; e 10 0x0; e 10 0x0; e 10 0x0;
  e 10 0x0; e 10 0x0; e 10 0x0; e 10 0x0; e 10 0x0; e 10 0x0; e 10 0x0; e 10 0x0;
  e 10 0x0; e 10 0x0; e 10 0x0; e 10 0x0; e 10 0x0; e 10 0x0; e 10 0x0; e 10 0x0;
  e 10 0x0; e 10 0x0; e 10 0x0; e 10 0x0; e 10 0x0; e 10 0x0; e 10 0x0; e 10 0x0;
  e 10 0x0; e 10 0x0; e 10 0x0; e 10 0x0; e 10 0x0; e 10 0x0; e 10 0x0; e 10 0x0;
  e 10 0x0; e 10 0x0; e 10 0x0; e 10 0x0; e 10 0x0; e 10 0x0; e 10 0x0; e 255 0x0;
  e 255 0x0; e 255 0x0; e 255 0x0; e 255 0x0; e 255 0x0; e 255 0x0; e 255 0x0; e 255 0x0;
  e 255 0x0; e 255 0x0; e 255 0x0; e 255 0x0; e 255 0x0; e 255 0x0; e 255 0x0; e 255 0x0;
  e 255 0x0; e 255 0x0; e 255 0x0; e 255 0x0; e 255 0x0; e 255 0x0; e 255 0x0; e 255 0x0;
  e 255 0x0; e 255 0x0; e 255 0x0; e 255 0x0; e 255 0x0; e 255 0x0; e 255 0x0; e 255 0x0;
  e 255 0x0; e 255 0x0; e 255 0x0; e 255 0x0; e 255 0x0; e 255 0x0; e 255 0x0; e 255 0x0
].

Definition page_108 : list unichar := [
  e 10 0x0; e 10 0x0; e 10 0x0; e 10 0x0; e 10 0x0; e 10 0x0; e 10 0x0; e 10 0x0;
  e 10 0x0; e 10 0x0; e 10 0x0; e 10 0x0; e 10 0x0; e 10 0x0; e 10 0x0; e 10 0x0;
  e 10 0x0; e 10 0x0; e 10 0x0; e 10 0x0; e 10 0x0; e 10 0x0; e 10 0x0; e 10 0x0;
  e 10 0x0; e 10 0x0; e 10 0x0; e 10 0x0; e 10 0x0; e 10 0x0; e 10 0x0; e 10 0x0;
  e 10 0x0; e 10 0x0; e 10 0x0; e 10 0x0; e 10 0x0; e 10 0x0; e 10 0x0; e 10 0x0;
  e 10 0x0; e 10 0x0; e 10 0x0; e 10 0x0; e 10 0x0; e 10 0x0; e 10 0x0; e 10 0x0;
  e 10 0x0; e 10 0x0; e 10 0x0; e 10 0x0; e 10 0x0; e 255 0x0; e 255 0x0; e 255 0x0;
  e 255 0x0; e 255 0x0; e 255 0x0; e 255 0x0; e 255 0x0; e 255 0x0; e 255 0x0; e 255 0x0;
  e 10 0x0; e 10 0x0; e 10 0x0; e 10 0x0; e 10 0x0; e 10 0x0; e 10 0x0; e 10 0x0;
  e 10 0x0; e 10 0x0; e 10 0x0; e 10 0x0; e 10 0x0; e 10 0x0; e 10 0x0; e 10 0x0;
  e 10 0x0; e 10 0x0; e 10 0x0; e 10 0x0; e 10 0x0; e 10 0x0; e 10 0x0; e 10 0x0;
  e 10 0x0; e 10 0x0; e 10 0x0; e 10 0x0; e 10 0x0; e 10 0x0; e 10 0x0; e 10 0x0;
  e 10 0x0; e 10 0x0; e 10 0x0; e 10 0x0; e 10 0x0; e 10 0x0; e 10 0x0; e 10 0x0;
  e 10 0x0; e 10 0x0; e 10 0x0; e 10 0x0; e 10 0x0; e 10 0x0; e 10 0x0; e 10 0x0;
  e 10 0x0; e 10 0x0; e 10 0x0; e 10 0x0; e 10 0x0; e 10 0x0; e 10 0x0; e 10 0x0;
  e 10 0x0; e 10 0x0; e 10 0x0; e 10 0x0; e 10 0x0; e 10 0x0; e 10 0x0; e 10 0x0;
  e 10 0x0; e 10 0x0; e 10 0x0; e 10 0x0; e 10 0x0; e 10 0x0; e 10 0x0; e 10 0x0;
  e 10 0x0; e 10 0x0; e 10 0x0; e 10 0x0; e 10 0x0; e 10 0x0; e 10 0x0; e 10 0x0;
  e 10 0x0; e 10 0x0; e 10 0x0; e 10 0x0; e 10 0x0; e 10 0x0; e 10 0x0; e 10 0x0;
  e 10 0x0; e 10 0x0; e 10 0x0; e 10 0x0; e 10 0x0; e 10 0x0; e 10 0x0; e 10 0x0;
  e 10 0x0; e 10 0x0; e 10 0x0; e 10 0x0; e 10 0x0; e 10 0x0; e 10 0x0; e 10 0x0;
  e 10 0x0; e 10 0x0; e 10 0x0; e 10 0x0; e 10 0x0; e 10 0x0; e 10 0x0; e 10 0x0;
  e 10 0x0; e 10 0x0; e 10 0x0; e 10 0x0; e 10 0x0; e 10 0x0; e 10 0x0; e 10 0x0;
  e 10 0x0; e 10 0x0; e 10 0x0; e 10 0x0; e 10 0x0; e 10 0x0; e 10 0x0; e 10 0x0;
  e 10 0x0; e 10 0x0; e 10 0x0; e 10 0x0; e 10 0x0; e 10 0x0; e 10 0x0; e 10 0x0;
  e 10 0x0; e 10 0x0; e 10 0x0; e 10 0x0; e 10 0x0; e 10 0x0; e 10 0x0; e 10 0x0;
  e 10 0x0; e 10 0x0; e 10 0x0; e 10 0x0; e 10 0x0; e 10 0x0; e 10 0x0; e 10 0x0;
  e 10 0x0; e 10 0x0; e 10 0x0; e 10 0x0; e 10 0x0; e 10 0x0; e 10 0x0; e 10 0x0;
  e 10 0x0; e 10 0x0; e 10 0x0; e 10 0x0; e 10 0x0; e 10 0x0; e 10 0x0; e 10 0x0;
  e 10 0x0; e 10 0x0; e 10 0x0; e 10 0x0; e 10 0x0; e 10 0x0; e 10 0x0; e 10 0x0;
  e 10 0x0; e 10 0x0; e 10 0x0; e 10 0x0; e 10 0x0; e 10 0x0; e 10 0x0; e 10 0x0;
  e 10 0x0; e 10 0x0; e 10 0x0; e 10 0x0; e 10 0x0; e 10 0x0; e 10 0x0; e 10 0x0
].

Definition page_109 : list unichar := [
  e 10 0x0; e 10 0x0; e 10 0x0; e 10 0x0; e 10 0x0; e 10 0x0; e 10 0x0; e 10 0x0;
  e 10 0x0; e 10 0x0; e 10 0x0; e 10 0x0; e 10 0x0; e 10 0x0; e 10 0x0; e 10 0x0;
  e 10 0x0; e 10 0x0; e 10 0x0; e 10 0x0; e 10 0x0; e 10 0x0; e 10 0x0; e 10 0x0;
  e 10 0x0; e 10 0x0; e 10 0x0; e 10 0x0; e 10 0x0; e 10 0x0; e 255 0x0; e 255 0x0;
  e 255 0x0; e 255 0x0; e 255 0x0; e 255 0x0; e 255 0x0; e 255 0x0; e 255 0x0; e 255 0x0;
  e 255 0x0; e 255 0x0; e 255 0x0; e 255 0x0; e 255 0x0; e 255 0x0; e 255 0x0; e 255 0x0;
  e 255 0x0; e 255 0x0; e 255 0x0; e 255 0x0; e 255 0x0; e 255 0x0; e 255 0x0; e 255 0x0;
  e 255 0x0; e 255 0x0; e 255 0x0; e 255 0x0; e 255 0x0; e 255 0x0; e 255 0x0; e 255 0x0;
  e 255 0x0; e 255 0x0; e 255 0x0; e 255 0x0; e 255 0x0; e 255 0x0; e 255 0x0; e 255 0x0;
  e 255 0x0; e 255 0x0; e 255 0x0; e 255 0x0; e 255 0x0; e 255 0x0; e 255 0x0; e 255 0x0;
  e 255 0x0; e 255 0x0; e 255 0x0; e 255 0x0; e 255 0x0; e 255 0x0; e 255 0x0; e 255 0x0;
  e 255 0x0; e 255 0x0; e 255 0x0; e 255 0x0; e 255 0x0; e 255 0x0; e 255 0x0; e 255 0x0;
  e 255 0x0; e 255 0x0; e 255 0x0; e 255 0x0; e 255 0x0; e 255 0x0; e 255 0x0; e 255 0x0;
  e 255 0x0; e 255 0x0; e 255 0x0; e 255 0x0; e 255 0x0; e 255 0x0; e 255 0x0; e 255 0x0;
  e 255 0x0; e 255 0x0; e 255 0x0; e 255 0x0; e 255 0x0; e 255 0x0; e 255 0x0; e 255 0x0;
  e 255 0x0; e 255 0x0; e 255 0x0; e 255 0x0; e 255 0x0; e 255 0x0; e 255 0x0; e 255 0x0;
  e 255 0x0; e 255 0x0; e 255 0x0; e 255 0x0; e 255 0x0; e 255 0x0; e 255 0x0; e 255 0x0;
  e 255 0x0; e 255 0x0; e 255 0x0; e 255 0x0; e 255 0x0; e 255 0x0; e 255 0x0; e 255 0x0;
  e 255 0x0; e 255 0x0; e 255 0x0; e 255 0x0; e 255 0x0; e 255 0x0; e 255 0x0; e 255 0x0;
  e 255 0x0; e 255 0x0; e 255 0x0; e 255 0x0; e 255 0x0; e 255 0x0; e 255 0x0; e 255 0x0;
  e 255 0x0; e 255 0x0; e 255 0x0; e 255 0x0; e 255 0x0; e 255 0x0; e 255 0x0; e 255 0x0;
  e 255 0x0; e 255 0x0; e 255 0x0; e 255 0x0; e 255 0x0; e 255 0x0; e 255 0x0; e 255 0x0;
  e 255 0x0; e 255 0x0; e 255 0x0; e 255 0x0; e 255 0x0; e 255 0x0; e 255 0x0; e 255 0x0;
  e 255 0x0; e 255 0x0; e 255 0x0; e 255 0x0; e 255 0x0; e 255 0x0; e 255 0x0; e 255 0x0;
  e 255 0x0; e 255 0x0; e 255 0x0; e 255 0x0; e 255 0x0; e 255 0x0; e 255 0x0; e 255 0x0;
  e 255 0x0; e 255 0x0; e 255 0x0; e 255 0x0; e 255 0x0; e 255 0x0; e 255 0x0; e 255 0x0;
  e 255 0x0; e 255 0x0; e 255 0x0; e 255 0x0; e 255 0x0; e 255 0x0; e 255 0x0; e 255 0x0;
  e 255 0x0; e 255 0x0; e 255 0x0; e 255 0x0; e 255 0x0; e 255 0x0; e 255 0x0; e 255 0x0;
  e 255 0x0; e 255 0x0; e 255 0x0; e 255 0x0; e 255 0x0; e 255 0x0; e 255 0x0; e 255 0x0;
  e 255 0x0; e 255 0x0; e 255 0x0; e 255 0x0; e 255 0x0; e 255 0x0; e 255 0x0; e 255 0x0;
  e 255 0x0; e 255 0x0; e 255 0x0; e 255 0x0; e 255 0x0; e 255 0x0; e 255 0x0; e 255 0x0;
  e 255 0x0; e 255 0x0; e 255 0x0; e 255 0x0; e 255 0x0; e 255 0x0; e 255 0x0; e 255 0x0
].

Definition page_110 : list unichar := [
  e 255 0x0; e 18 0x0; e 255 0x0; e 255 0x0; e 255 0x0; e 255 0x0; e 255 0x0; e 255 0x0;
  e 255 0x0; e 255 0x0; e 255 0x0; e 255 0x0; e 255 0x0; e 255 0x0; e 255 0x0; e 255 0x0;
  e 255 0x0; e 255 0x0; e 255 0x0; e 255 0x0; e 255 0x0; e 255 0x0; e 255 0x0; e 255 0x0;
  e 255 0x0; e 255 0x0; e 255 0x0; e 255 0x0; e 255 0x0; e 255 0x0; e 255 0x0; e 255 0x0;
  e 18 0x0; e 18 0x0; e 18 0x0; e 18 0x0; e 18 0x0; e 18 0x0; e 18 0x0; e 18 0x0;
  e 18 0x0; e 18 0x0; e 18 0x0; e 18 0x0; e 18 0x0; e 18 0x0; e 18 0x0; e 18 0x0;
  e 18 0x0; e 18 0x0; e 18 0x0; e 18 0x0; e 18 0x0; e 18 0x0; e 18 0x0; e 18 0x0;
  e 18 0x0; e 18 0x0; e 18 0x0; e 18 0x0; e 18 0x0; e 18 0x0; e 18 0x0; e 18 0x0;
  e 18 0x0; e 18 0x0; e 18 0x0; e 18 0x0; e 18 0x0; e 18 0x0; e 18 0x0; e 18 0x0;
  e 18 0x0; e 18 0x0; e 18 0x0; e 18 0x0; e 18 0x0; e 18 0x0; e 18 0x0; e 18 0x0;
  e 18 0x0; e 18 0x0; e 18 0x0; e 18 0x0; e 18 0x0; e 18 0x0; e 18 0x0; e 18 0x0;
  e 18 0x0; e 18 0x0; e 18 0x0; e 18 0x0; e 18 0x0; e 18 0x0; e 18 0x0; e 18 0x0;
  e 18 0x0; e 18 0x0; e 18 0x0; e 18 0x0; e 18 0x0; e 18 0x0; e 18 0x0; e 18 0x0;
  e 18 0x0; e 18 0x0; e 18 0x0; e 18 0x0; e 18 0x0; e 18 0x0; e 18 0x0; e 18 0x0;
  e 18 0x0; e 18 0x0; e 18 0x0; e 18 0x0; e 18 0x0; e 18 0x0; e 18 0x0; e 18 0x0;
  e 18 0x0; e 18 0x0; e 18 0x0; e 18 0x0; e 18 0x0; e 18 0x0; e 18 0x0; e 18 0x0;
  e 255 0x0; e 255 0x0; e 255 0x0; e 255 0x0; e 255 0x0; e 255 0x0; e 255 0x0; e 255 0x0;
  e 255 0x0; e 255 0x0; e 255 0x0; e 255 0x0; e 255 0x0; e 255 0x0; e 255 0x0; e 255 0x0;
  e 255 0x0; e 255 0x0; e 255 0x0; e 255 0x0; e 255 0x0; e 255 0x0; e 255 0x0; e 255 0x0;
  e 255 0x0; e 255 0x0; e 255 0x0; e 255 0x0; e 255 0x0; e 255 0x0; e 255 0x0; e 255 0x0;
  e 255 0x0; e 255 0x0; e 255 0x0; e 255 0x0; e 255 0x0; e 255 0x0; e 255 0x0; e 255 0x0;
  e 255 0x0; e 255 0x0; e 255 0x0; e 255 0x0; e 255 0x0; e 255 0x0; e 255 0x0; e 255 0x0;
  e 255 0x0; e 255 0x0; e 255 0x0; e 255 0x0; e 255 0x0; e 255 0x0; e 255 0x0; e 255 0x0;
  e 255 0x0; e 255 0x0; e 255 0x0; e 255 0x0; e 255 0x0; e 255 0x0; e 255 0x0; e 255 0x0;
  e 255 0x0; e 255 0x0; e 255 0x0; e 255 0x0; e 255 0x0; e 255 0x0; e 255 0x0; e 255 0x0;
  e 255 0x0; e 255 0x0; e 255 0x0; e 255 0x0; e 255 0x0; e 255 0x0; e 255 0x0; e 255 0x0;
  e 255 0x0; e 255 0x0; e 255 0x0; e 255 0x0; e 255 0x0; e 255 0x0; e 255 0x0; e 255 0x0;
  e 255 0x0; e 255 0x0; e 255 0x0; e 255 0x0; e 255 0x0; e 255 0x0; e 255 0x0; e 255 0x0;
  e 255 0x0; e 255 0x0; e 255 0x0; e 255 0x0; e 255 0x0; e 255 0x0; e 255 0x0; e 255 0x0;
  e 255 0x0; e 255 0x0; e 255 0x0; e 255 0x0; e 255 0x0; e 255 0x0; e 255 0x0; e 255 0x0;
  e 255 0x0; e 255 0x0; e 255 0x0; e 255 0x0; e 255 0x0; e 255 0x0; e 255 0x0; e 255 0x0;
  e 255 0x0; e 255 0x0; e 255 0x0; e 255 0x0; e 255 0x0; e 255 0x0; e 255 0x0; e 255 0x0
].

Definition page_111 : list unichar := [
  e 36 0x0; e 36 0x0; e 36 0x0; e 36 0x0; e 36 0x0; e 36 0x0; e 36 0x0; e 36 0x0;
  e 36 0x0; e 36 0x0; e 36 0x0; e 36 0x0; e 36 0x0; e 36 0x0; e 36 0x0; e 36 0x0;
  e 36 0x0; e 36 0x0; e 36 0x0; e 36 0x0; e 36 0x0; e 36 0x0; e 36 0x0; e 36 0x0;
  e 36 0x0; e 36 0x0; e 36 0x0; e 36 0x0; e 36 0x0; e 36 0x0; e 36 0x0; e 36 0x0;
  e 36 0x0; e 36 0x0; e 36 0x0; e 36 0x0; e 36 0x0; e 36 0x0; e 36 0x0; e 36 0x0;
  e 36 0x0; e 36 0x0; e 36 0x0; e 36 0x0; e 36 0x0; e 36 0x0; e 36 0x0; e 36 0x0;
  e 36 0x0; e 36 0x0; e 36 0x0; e 36 0x0; e 36 0x0; e 36 0x0; e 36 0x0; e 36 0x0;
  e 36 0x0; e 36 0x0; e 36 0x0; e 36 0x0; e 36 0x0; e 36 0x0; e 36 0x0; e 36 0x0;
  e 36 0x0; e 36 0x0; e 36 0x0; e 36 0x0; e 36 0x0; e 36 0x0; e 36 0x0; e 36 0x0;
  e 36 0x0; e 36 0x0; e 36 0x0; e 36 0x0; e 36 0x0; e 36 0x0; e 36 0x0; e 36 0x0;
  e 36 0x0; e 36 0x0; e 36 0x0; e 36 0x0; e 36 0x0; e 36 0x0; e 36 0x0; e 36 0x0;
  e 36 0x0; e 36 0x0; e 36 0x0; e 36 0x0; e 36 0x0; e 36 0x0; e 36 0x0; e 36 0x0;
  e 36 0x0; e 36 0x0; e 36 0x0; e 36 0x0; e 36 0x0; e 36 0x0; e 36 0x0; e 36 0x0;
  e 36 0x0; e 36 0x0; e 36 0x0; e 36 0x0; e 36 0x0; e 36 0x0; e 36 0x0; e 36 0x0;
  e 36 0x0; e 36 0x0; e 36 0x0; e 36 0x0; e 36 0x0; e 36 0x0; e 36 0x0; e 36 0x0;
  e 36 0x0; e 36 0x0; e 36 0x0; e 36 0x0; e 36 0x0; e 36 0x0; e 36 0x0; e 36 0x0;
  e 36 0x0; e 36 0x0; e 36 0x0; e 36 0x0; e 36 0x0; e 36 0x0; e 36 0x0; e 36 0x0;
  e 36 0x0; e 36 0x0; e 36 0x0; e 36 0x0; e 36 0x0; e 36 0x0; e 36 0x0; e 36 0x0;
  e 36 0x0; e 36 0x0; e 36 0x0; e 36 0x0; e 36 0x0; e 36 0x0; e 36 0x0; e 36 0x0;
  e 36 0x0; e 36 0x0; e 36 0x0; e 36 0x0; e 36 0x0; e 36 0x0; e 36 0x0; e 36 0x0;
  e 36 0x0; e 36 0x0; e 36 0x0; e 36 0x0; e 36 0x0; e 36 0x0; e 36 0x0; e 36 0x0;
  e 36 0x0; e 36 0x0; e 36 0x0; e 36 0x0; e 36 0x0; e 36 0x0; e 36 0x0; e 36 0x0;
  e 36 0x0; e 36 0x0; e 36 0x0; e 36 0x0; e 36 0x0; e 36 0x0; e 36 0x0; e 36 0x0;
  e 36 0x0; e 36 0x0; e 36 0x0; e 36 0x0; e 36 0x0; e 36 0x0; e 36 0x0; e 36 0x0;
  e 36 0x0; e 36 0x0; e 36 0x0; e 36 0x0; e 36 0x0; e 36 0x0; e 36 0x0; e 36 0x0;
  e 36 0x0; e 36 0x0; e 36 0x0; e 36 0x0; e 36 0x0; e 36 0x0; e 36 0x0; e 36 0x0;
  e 36 0x0; e 36 0x0; e 36 0x0; e 36 0x0; e 36 0x0; e 36 0x0; e 36 0x0; e 36 0x0;
  e 36 0x0; e 36 0x0; e 36 0x0; e 36 0x0; e 36 0x0; e 36 0x0; e 36 0x0; e 36 0x0;
  e 36 0x0; e 36 0x0; e 36 0x0; e 36 0x0; e 36 0x0; e 36 0x0; e 36 0x0; e 36 0x0;
  e 36 0x0; e 36 0x0; e 36 0x0; e 36 0x0; e 36 0x0; e 36 0x0; e 36 0x0; e 36 0x0;
  e 255 0x0; e 255 0x0; e 255 0x0; e 255 0x0; e 255 0x0; e 255 0x0; e 255 0x0; e 255 0x0;
  e 255 0x0; e 255 0x0; e 255 0x0; e 255 0x0; e 255 0x0; e 255 0x0; e 255 0x0; e 255 0x0
].

Definition page_112 : list unichar := [
  e 27 0x0; e 27 0x0; e 27 0x0; e 27 0x0; e 27 0x0; e 27 0x0; e 27 0x0; e 27 0x0;
  e 27 0x0; e 27 0x0; e 27 0x0; e 27 0x0; e 27 0x0; e 27 0x0; e 27 0x0; e 27 0x0;
  e 27 0x0; e 27 0x0; e 27 0x0; e 27 0x0; e 27 0x0; e 27 0x0; e 27 0x0; e 27 0x0;
  e 27 0x0; e 27 0x0; e 27 0x0; e 27 0x0; e 27 0x0; e 27 0x0; e 27 0x0; e 27 0x0;
  e 27 0x0; e 27 0x0; e 27 0x0; e 27 0x0; e 27 0x0; e 27 0x0; e 27 0x0; e 27 0x0;
  e 27 0x0; e 27 0x0; e 27 0x0; e 27 0x0; e 27 0x0; e 27 0x0; e 27 0x0; e 27 0x0;
  e 27 0x0; e 27 0x0; e 27 0x0; e 27 0x0; e 27 0x0; e 27 0x0; e 27 0x0; e 27 0x0;
  e 27 0x0; e 27 0x0; e 27 0x0; e 27 0x0; e 27 0x0; e 27 0x0; e 27 0x0; e 27 0x0;
  e 27 0x0; e 27 0x0; e 27 0x0; e 27 0x0; e 27 0x0; e 27 0x0; e 27 0x0; e 27 0x0;
  e 27 0x0; e 27 0x0; e 27 0x0; e 27 0x0; e 27 0x0; e 27 0x0; e 27 0x0; e 27 0x0;
  e 27 0x0; e 27 0x0; e 27 0x0; e 27 0x0; e 27 0x0; e 27 0x0; e 27 0x0; e 27 0x0;
  e 27 0x0; e 27 0x0; e 27 0x0; e 27 0x0; e 27 0x0; e 27 0x0; e 27 0x0; e 27 0x0;
  e 27 0x0; e 27 0x0; e 27 0x0; e 27 0x0; e 27 0x0; e 27 0x0; e 27 0x0; e 27 0x0;
  e 27 0x0; e 27 0x0; e 27 0x0; e 27 0x0; e 27 0x0; e 27 0x0; e 27 0x0; e 27 0x0;
  e 27 0x0; e 27 0x0; e 27 0x0; e 27 0x0; e 27 0x0; e 27 0x0; e 27 0x0; e 27 0x0;
  e 27 0x0; e 27 0x0; e 27 0x0; e 27 0x0; e 27 0x0; e 27 0x0; e 27 0x0; e 27 0x0;
  e 27 0x0; e 27 0x0; e 27 0x0; e 27 0x0; e 27 0x0; e 27 0x0; e 27 0x0; e 27 0x0;
  e 27 0x0; e 27 0x0; e 27 0x0; e 27 0x0; e 27 0x0; e 27 0x0; e 27 0x0; e 27 0x0;
  e 27 0x0; e 27 0x0; e 27 0x0; e 27 0x0; e 27 0x0; e 27 0x0; e 27 0x0; e 27 0x0;
  e 27 0x0; e 27 0x0; e 27 0x0; e 27 0x0; e 27 0x0; e 27 0x0; e 27 0x0; e 27 0x0;
  e 27 0x0; e 27 0x0; e 27 0x0; e 27 0x0; e 27 0x0; e 27 0x0; e 27 0x0; e 27 0x0;
  e 27 0x0; e 27 0x0; e 27 0x0; e 27 0x0; e 27 0x0; e 27 0x0; e 27 0x0; e 27 0x0;
  e 27 0x0; e 27 0x0; e 27 0x0; e 27 0x0; e 27 0x0; e 27 0x0; e 27 0x0; e 27 0x0;
  e 27 0x0; e 27 0x0; e 27 0x0; e 27 0x0; e 27 0x0; e 27 0x0; e 27 0x0; e 27 0x0;
  e 27 0x0; e 27 0x0; e 27 0x0; e 27 0x0; e 27 0x0; e 27 0x0; e 27 0x0; e 27 0x0;
  e 27 0x0; e 27 0x0; e 27 0x0; e 27 0x0; e 27 0x0; e 27 0x0; e 27 0x0; e 27 0x0;
  e 27 0x0; e 27 0x0; e 27 0x0; e 27 0x0; e 27 0x0; e 27 0x0; e 27 0x0; e 27 0x0;
  e 27 0x0; e 27 0x0; e 27 0x0; e 27 0x0; e 27 0x0; e 27 0x0; e 27 0x0; e 27 0x0;
  e 27 0x0; e 27 0x0; e 27 0x0; e 27 0x0; e 27 0x0; e 27 0x0; e 27 0x0; e 27 0x0;
  e 27 0x0; e 27 0x0; e 27 0x0; e 27 0x0; e 27 0x0; e 27 0x0; e 27 0x0; e 27 0x0;
  e 27 0x0; e 27 0x0; e 27 0x0; e 27 0x0; e 27 0x0; e 27 0x0; e 27 0x0; e 27 0x0;
  e 27 0x0; e 27 0x0; e 27 0x0; e 27 0x0; e 27 0x0; e 27 0x0; e 255 0x0; e 255 0x0
].

Definition unichar_info : list (list unichar) := [
  page_0; page_1; page_2; page_3; page_4; page_5; page_6; page_7; page_8; page_9;
  page_10; page_11; page_12; page_13; page_14; page_15; page_16; page_17; page_18; page_19;
  page_20; page_21; page_22; page_23; page_24; page_25; page_26; page_27; page_28; page_29;
  page_30; page_31; page_32; page_33; page_34; page_35; page_36; page_37; page_38; page_39;
  page_40; page_41; page_42; page_43; page_44; page_45; page_46; page_47; page_48; page_49;
  page_50; page_51; page_52; page_53; page_54; page_55; page_56; page_57; page_58; page_59;
  page_60; page_61; page_62; page_63; page_64; page_65; page_66; page_67; page_68; page_69;
  page_70; page_71; page_72; page_73; page_74; page_75; page_76; page_77; page_78; page_79;
  page_80; page_81; page_82; page_83; page_84; page_85; page_86; page_87; page_88; page_89;
  page_90; page_91; page_92; page_93; page_94; page_95; page_96; page_97; page_98; page_99;
  page_100; page_101; page_102; page_103; page_104; page_105; page_106; page_107; page_108; page_109;
  page_110; page_111; page_112
].
