(* ===== verification/Chars.v ===== *)
(** * Chars: characters, src/src/c/character.c

    The functions of src/src/c/mkcl/external.h that look a character up in the tables
    of [UniTables], and character.c.  A number of a class that is not in the table of
    classes is an access outside of it: [None] here, a fault in a computation.

    CHAR-NAME and NAME-CHAR are in [CharNames]. *)

From S2P Require Import Prelude Words Objects Heap Numbers Equal Lists Sequences Plist Floats.
From S2P Require Export UniTables.
#[local] Open Scope Z_scope.

Definition MKCL_CHAR_CODE_LIMIT : Z := 1114112.
Definition MKCL_BASE_CHAR_CODE_LIMIT : Z := 256.

(** ** The tables, src/src/c/mkcl/external.h *)

(** [None] is the null pointer: the two tables are only read inside ([info_total]). *)
Definition mkcl_unicode_character_information (code : Z) : option unichar :=
  if MKCL_CHAR_CODE_LIMIT <=? code then None
  else
    page_index ← info_pages !! Z.to_nat (Z.shiftr code 8);
    page ← unichar_info !! Z.to_nat page_index;
    page !! Z.to_nat (Z.land code 0xFF).

(** The values of the enumeration. *)
Definition category_code (c : general_category) : Z :=
  match c with
  | mkcl_ucd_Uppercase_Letter => 0
  | mkcl_ucd_Lowercase_Letter => 1
  | mkcl_ucd_Titlecase_Letter => 2
  | mkcl_ucd_Modified_Letter => 3
  | mkcl_ucd_Other_Letter => 4
  | mkcl_ucd_Control => 5
  | mkcl_ucd_Format => 6
  | mkcl_ucd_Private_Use => 7
  | mkcl_ucd_Surrogate => 8
  | mkcl_ucd_Spacing_Mark => 9
  | mkcl_ucd_Enclosing_Mark => 10
  | mkcl_ucd_Nonspacing_Mark => 11
  | mkcl_ucd_Decimal_Number => 12
  | mkcl_ucd_Letter_Number => 13
  | mkcl_ucd_Other_Number => 14
  | mkcl_ucd_Connector_Punctuation => 15
  | mkcl_ucd_Dash_Punctuation => 16
  | mkcl_ucd_Close_Punctuation => 17
  | mkcl_ucd_Final_Punctuation => 18
  | mkcl_ucd_Initial_Punctuation => 19
  | mkcl_ucd_Other_Punctuation => 20
  | mkcl_ucd_Open_Punctuation => 21
  | mkcl_ucd_Currency_Symbol => 22
  | mkcl_ucd_Modifier_Symbol => 23
  | mkcl_ucd_Math_Symbol => 24
  | mkcl_ucd_Other_Symbol => 25
  | mkcl_ucd_Line_Separator => 26
  | mkcl_ucd_Paragraph_Separator => 27
  | mkcl_ucd_Space_Separator => 28
  end.

Definition signature_of (i : unichar) : option signature :=
  properties_signatures !! Z.to_nat (properties_signature_index i).

(** -1 converted to the unsigned type of the enumeration, where there is no entry. *)
Definition mkcl_unicode_character_general_category (code : Z) : option Z :=
  match mkcl_unicode_character_information code with
  | Some i => s ← signature_of i; Some (category_code (sig_general_category s))
  | None => Some (2 ^ 32 - 1)
  end.

Definition mkcl_ucd_decimal_digit (code : Z) : option Z :=
  match mkcl_unicode_character_information code with
  | Some i => s ← signature_of i; Some (sig_decimal_digit s)
  | None => Some (-1)
  end.

Definition mkcl_alpha_char_p (code : Z) : option bool :=
  gc ← mkcl_unicode_character_general_category code; Some ((0 <=? gc) && (gc <=? 4)).

Definition mkcl_alphanumericp (code : Z) : option bool :=
  gc ← mkcl_unicode_character_general_category code;
  Some ((0 <=? gc) && (gc <=? 4) || (12 <=? gc) && (gc <=? 14)).

Definition has_signature (test : Z → bool) (code : Z) : bool :=
  match mkcl_unicode_character_information code with
  | Some i => test (properties_signature_index i)
  | None => false
  end.

Definition mkcl_upper_case_p : Z → bool := has_signature (λ s, s =? 0).
Definition mkcl_lower_case_p : Z → bool := has_signature (λ s, s =? 1).
Definition mkcl_both_case_p : Z → bool := has_signature (λ s, s <? 2).

Definition mkcl_char_upcase (code : Z) : Z :=
  match mkcl_unicode_character_information code with
  | Some i => if properties_signature_index i =? 1 then transform i else code
  | None => code
  end.

Definition mkcl_char_downcase (code : Z) : Z :=
  match mkcl_unicode_character_information code with
  | Some i => if properties_signature_index i =? 0 then transform i else code
  | None => code
  end.

Definition mkcl_graphic_char_p (code : Z) : bool :=
  (159 <? code) || ((31 <? code) && (code <? 127)).

Definition mkcl_standard_char_p (code : Z) : bool :=
  ((32 <=? code) && (code <? 127)) || (code =? 10).

(** A read that may be outside of its table. *)
Definition checked {A} (o : option A) : M A :=
  match o with Some a => mret a | None => raise Segfault end.

(** ** Digits *)

Definition mkcl_digitp (i r : Z) : option Z :=
  if (48 <=? i) && (i <=? 57) && (i <? 48 + r) then Some (i - 48)
  else if (65 <=? i) && (10 <? r) && (i <? 65 + (r - 10)) then Some (i - 65 + 10)
  else if (97 <=? i) && (10 <? r) && (i <? 97 + (r - 10)) then Some (i - 97 + 10)
  else if 255 <? i then
    number ← mkcl_ucd_decimal_digit i;
    Some (if number <? r then number else -1)
  else Some (-1).

Definition mkcl_digit_char (w r : Z) : Z :=
  if (r <? 2) || (36 <? r) || (w <? 0) || (r <=? w) then -1
  else if w <? 10 then w + 48
  else w - 10 + 65.

(** ** Predicates and conversions *)

Definition mk_cl_standard_char_p (c : obj) : M obj :=
  i ← mkcl_char_code c; mret (lisp_bool (mkcl_standard_char_p i)).
Definition mk_cl_graphic_char_p (c : obj) : M obj :=
  i ← mkcl_char_code c; mret (lisp_bool (mkcl_graphic_char_p i)).
Definition mk_cl_alpha_char_p (c : obj) : M obj :=
  i ← mkcl_char_code c; b ← checked (mkcl_alpha_char_p i); mret (lisp_bool b).
Definition mk_cl_upper_case_p (c : obj) : M obj :=
  i ← mkcl_char_code c; mret (lisp_bool (mkcl_upper_case_p i)).
Definition mk_cl_lower_case_p (c : obj) : M obj :=
  i ← mkcl_char_code c; mret (lisp_bool (mkcl_lower_case_p i)).
Definition mk_cl_both_case_p (c : obj) : M obj :=
  i ← mkcl_char_code c; mret (lisp_bool (mkcl_both_case_p i)).
Definition mk_cl_alphanumericp (c : obj) : M obj :=
  i ← mkcl_char_code c; b ← checked (mkcl_alphanumericp i); mret (lisp_bool b).

Definition mk_cl_char_upcase (c : obj) : M obj :=
  code ← mkcl_char_code c; mret (MKCL_CODE_CHAR (mkcl_char_upcase code)).
Definition mk_cl_char_downcase (c : obj) : M obj :=
  code ← mkcl_char_code c; mret (MKCL_CODE_CHAR (mkcl_char_downcase code)).

Definition mk_cl_char_code (c : obj) : M obj :=
  code ← mkcl_char_code c; mret (MKCL_MAKE_FIXNUM code).
Definition mk_cl_char_int (c : obj) : M obj :=
  code ← mkcl_char_code c; mret (MKCL_MAKE_FIXNUM code).

Definition valid_code (fc : Z) : bool :=
  (0 <=? fc) && (fc <? 0x0D800)
  || (0x0DFFF <? fc) && negb (fc =? 0x0FFFE) && negb (fc =? 0x0FFFF)
     && (fc <? MKCL_CHAR_CODE_LIMIT).

Definition mk_cl_code_char (c : obj) : M obj :=
  match c with
  | OFix fc => mret (if valid_code fc then MKCL_CODE_CHAR fc else ONil)
  | OBig _ _ => mret ONil
  | _ => raise (FEtype_error_integer c)
  end.

(** The radix is optional. *)
Definition radix_or_10 (radix : option obj) : obj := default (MKCL_MAKE_FIXNUM 10) radix.

Definition mk_cl_digit_char_p (c : obj) (radix : option obj) : M obj :=
  basis ← mkcl_fixnum_in_range (radix_or_10 radix) 2 36;
  i ← mkcl_char_code c;
  value ← checked (mkcl_digitp i basis);
  mret (if value <? 0 then ONil else MKCL_MAKE_FIXNUM value).

Definition mk_cl_digit_char (weight : obj) (radix : option obj) : M obj :=
  basis ← mkcl_fixnum_in_range (radix_or_10 radix) 2 36;
  match weight with
  | OFix value =>
      if 0 <=? value then
        let dw := mkcl_digit_char value basis in
        mret (if 0 <=? dw then MKCL_CODE_CHAR dw else ONil)
      else mret ONil
  | OBig _ _ => mret ONil
  | _ => raise (FEwrong_type_argument weight)
  end.

(** The designator of a character: a string of one character, or a symbol with such a
    name. *)
Definition mk_cl_character (x : obj) : M obj :=
  let of_string (x : obj) : M obj :=
    s ← read_string x;
    match s with
    | [c] => mret (MKCL_CODE_CHAR c)
    | _ => raise (FEwrong_type_argument x)
    end in
  match mkcl_type_of x with
  | mkcl_t_character => mret x
  | mkcl_t_symbol => p ← read_symbol x; of_string (sym_name p.2)
  | mkcl_t_string | mkcl_t_base_string => of_string x
  | _ => raise (FEwrong_type_argument x)
  end.

(** ** Comparison *)

Definition mkcl_char_eq (x y : obj) : M bool :=
  i ← mkcl_char_code x; j ← mkcl_char_code y; mret (i =? j).

Definition mkcl_char_cmp (x y : obj) : M Z :=
  i ← mkcl_char_code x; j ← mkcl_char_code y; mret (int_wrap (i - j)).

Definition char_equal_code (x : obj) : M Z :=
  i ← mkcl_char_code x; mret (mkcl_char_upcase i).

Definition mkcl_char_equal (x y : obj) : M bool :=
  i ← char_equal_code x; j ← char_equal_code y; mret (i =? j).

Definition mkcl_char_compare (x y : obj) : M Z :=
  i ← char_equal_code x; j ← char_equal_code y;
  mret (if i <? j then -1 else if i =? j then 0 else 1).

(** CHAR= and CHAR-EQUAL: the first argument against each of the others. *)
Fixpoint all_equal (eq : obj → obj → M bool) (c : obj) (cs : list obj) : M obj :=
  match cs with
  | [] => mret mk_cl_Ct
  | d :: cs => b ← eq c d; if negb b then mret ONil else all_equal eq c cs
  end.

Definition mk_cl_charE (c : obj) (cs : list obj) : M obj := all_equal mkcl_char_eq c cs.
Definition mk_cl_char_equal (c : obj) (cs : list obj) : M obj := all_equal mkcl_char_equal c cs.

(** CHAR/= and CHAR-NOT-EQUAL: each argument against the ones before it. *)
Fixpoint equal_before (eq : obj → obj → M bool) (c : obj) (ds : list obj) : M bool :=
  match ds with
  | [] => mret false
  | d :: ds => b ← eq d c; if (b : bool) then mret true else equal_before eq c ds
  end.

Fixpoint all_different (eq : obj → obj → M bool) (before cs : list obj) : M obj :=
  match cs with
  | [] => mret mk_cl_Ct
  | c :: cs =>
      b ← equal_before eq c before;
      if (b : bool) then mret ONil else all_different eq (before ++ [c]) cs
  end.

Definition mk_cl_charNE (cs : list obj) : M obj :=
  match cs with
  | [] => raise FEwrong_num_arguments
  | c :: cs => all_different mkcl_char_eq [c] cs
  end.

Definition mk_cl_char_not_equal (cs : list obj) : M obj :=
  match cs with
  | [] => raise FEwrong_num_arguments
  | c :: cs => all_different (λ d c, mkcl_char_equal c d) [c] cs
  end.

(** The others compare neighbours. *)
Fixpoint monotonic_chars (cmp : obj → obj → M Z) (s t : Z) (c : obj) (args : list obj) : M obj :=
  match args with
  | [] => mret mk_cl_Ct
  | d :: args => r ← cmp d c; if s * r <? t then mret ONil else monotonic_chars cmp s t d args
  end.

Definition Lchar_cmp (s t : Z) (args : list obj) : M obj :=
  match args with
  | [] => raise FEwrong_num_arguments
  | c :: args => monotonic_chars mkcl_char_cmp s t c args
  end.

Definition mk_cl_charL : list obj → M obj := Lchar_cmp 1 1.
Definition mk_cl_charG : list obj → M obj := Lchar_cmp (-1) 1.
Definition mk_cl_charLE : list obj → M obj := Lchar_cmp 1 0.
Definition mk_cl_charGE : list obj → M obj := Lchar_cmp (-1) 0.

Definition Lchar_compare (s t : Z) (args : list obj) : M obj :=
  match args with
  | [] => raise FEwrong_num_arguments
  | c :: args => monotonic_chars mkcl_char_compare s t c args
  end.

Definition mk_cl_char_lessp : list obj → M obj := Lchar_compare 1 1.
Definition mk_cl_char_greaterp : list obj → M obj := Lchar_compare (-1) 1.
Definition mk_cl_char_not_greaterp : list obj → M obj := Lchar_compare 1 0.
Definition mk_cl_char_not_lessp : list obj → M obj := Lchar_compare (-1) 0.
