(* ===== verification/CharSpecs.v ===== *)
(** * CharSpecs: what the functions on characters do

    The letters with two cases are paired by the tables, and digits by their weights;
    the comparisons decide equality, order and pairwise difference. *)

From Stdlib Require Import Sorting.Sorted.
From S2P Require Import Prelude Words Objects Heap Numbers Floats Lists Sequences Chars.
#[local] Open Scope Z_scope.

Definition is_char (code : Z) : Prop := 0 <= code < MKCL_CHAR_CODE_LIMIT.
#[export] Instance is_char_dec code : Decision (is_char code) := ltac:(unfold is_char; apply _).

(** The tables are unfolded last. *)
#[local] Strategy 1000 [info_pages unichar_info].

(** ** Checking a table *)

Fixpoint for_all_from {A} (f : Z → A → bool) (n : Z) (l : list A) : bool :=
  match l with
  | [] => true
  | x :: l => f n x && for_all_from f (n + 1) l
  end.

Lemma for_all_from_lookup {A} (f : Z → A → bool) l n i x :
  for_all_from f n l = true → l !! i = Some x → f (n + Z.of_nat i) x = true.
Proof.
  revert n i. induction l as [|y l IH]; intros n i; [done|]. simpl. intros [Hy Hl]%andb_true_iff.
  destruct i as [|i]; simpl.
  - intros [= ->]. by rewrite Z.add_0_r.
  - intros Hx. specialize (IH _ _ Hl Hx). by replace (n + Z.of_nat (S i)) with (n + 1 + Z.of_nat i) by lia.
Qed.

Lemma for_all_lookup {A} (f : Z → A → bool) l i x :
  for_all_from f 0 l = true → 0 <= i → l !! Z.to_nat i = Some x → f i x = true.
Proof. intros Hf Hi Hx. pose proof (for_all_from_lookup _ _ _ _ _ Hf Hx) as H. by rewrite Z2Nat.id in H. Qed.

(** The page of a block of characters, and its entries. *)
Definition page_of (code : Z) : option Z := info_pages !! Z.to_nat (Z.shiftr code 8).

Lemma lookup_page code i :
  mkcl_unicode_character_information code = Some i →
  ∃ k page, page_of code = Some k ∧ unichar_info !! Z.to_nat k = Some page ∧
    page !! Z.to_nat (Z.land code 0xFF) = Some i.
Proof.
  unfold mkcl_unicode_character_information, page_of. destruct (_ <=? _); [done|].
  intros (k & Hk & (page & Hp & H)%bind_Some)%bind_Some. eauto.
Qed.

Lemma land_byte code : Z.land code 0xFF = code mod 256.
Proof. exact (Z.land_ones code 8 ltac:(lia)). Qed.

(** Every test of the entries of the used pages holds of every character. *)
Definition check_pages (used : Z → Z → bool) (f : Z → unichar → bool) : bool :=
  for_all_from (λ block k,
    if used block k then
      match unichar_info !! Z.to_nat k with
      | Some page => for_all_from (λ j, f (256 * block + j)) 0 page
      | None => false
      end
    else true) 0 info_pages.

Lemma check_pages_spec used f code i k :
  check_pages used f = true → 0 <= code → mkcl_unicode_character_information code = Some i →
  page_of code = Some k → used (Z.shiftr code 8) k = true → f code i = true.
Proof.
  intros Hc Hcode (k' & page & Hk' & Hp & Hi)%lookup_page Hk Hu. rewrite Hk in Hk'. injection Hk' as <-.
  unfold page_of in Hk. apply (for_all_lookup _ _ _ _ Hc) in Hk; [|apply Z.shiftr_nonneg; lia].
  rewrite Hu, Hp in Hk.
  assert (0 <= Z.land code 0xFF) as Hj by (rewrite land_byte; pose proof (Z.mod_pos_bound code 256); lia).
  pose proof (for_all_lookup _ _ _ _ Hk Hj Hi) as H.
  revert H. rewrite land_byte, Z.shiftr_div_pow2 by lia. change (2 ^ 8) with 256.
  by rewrite <- (Z_div_mod_eq_full code 256).
Qed.

Lemma pages_in_range : forallb (λ k, (0 <=? k) && (k <? 113)) info_pages = true.
Proof. vm_compute. done. Qed.
Lemma pages_full : forallb (λ page, Nat.eqb (length page) 256) unichar_info = true.
Proof. vm_compute. done. Qed.
Lemma pages_count : length info_pages = 4352%nat ∧ length unichar_info = 113%nat.
Proof. vm_compute. done. Qed.

(** Every character has an entry. *)
Lemma info_total code : is_char code → is_Some (mkcl_unicode_character_information code).
Proof.
  unfold is_char, MKCL_CHAR_CODE_LIMIT. intros Hc. unfold mkcl_unicode_character_information, MKCL_CHAR_CODE_LIMIT.
  rewrite (proj2 (Z.leb_gt _ _)) by lia. destruct pages_count as [H1 H2].
  destruct (lookup_lt_is_Some_2 info_pages (Z.to_nat (Z.shiftr code 8))) as [k Hk].
  { rewrite H1, Z.shiftr_div_pow2 by lia. change (2 ^ 8) with 256. zify. Z.div_mod_to_equations. lia. }
  rewrite Hk. simpl. pose proof (proj1 (forallb_forall _ _) pages_in_range k) as Hr.
  rewrite andb_true_iff, Z.leb_le, Z.ltb_lt in Hr.
  assert (0 <= k < 113) as Hk' by (apply Hr, list_elem_of_In, list_elem_of_lookup; eauto).
  destruct (lookup_lt_is_Some_2 unichar_info (Z.to_nat k)) as [page Hp]; [rewrite H2; lia|].
  rewrite Hp. simpl. apply lookup_lt_is_Some_2.
  pose proof (proj1 (forallb_forall _ _) pages_full page) as Hl. rewrite Nat.eqb_eq in Hl.
  rewrite Hl by (apply list_elem_of_In, list_elem_of_lookup; eauto).
  rewrite land_byte. pose proof (Z.mod_pos_bound code 256). lia.
Qed.

(** ** Case *)

(** The 27 Greek letters whose other case is a title case letter. *)
Definition titlecased : list Z :=
  seqZ 0x1F80 8 ++ seqZ 0x1F90 8 ++ seqZ 0x1FA0 8 ++ [0x1FB3; 0x1FC3; 0x1FF3].

(** A block of no characters of its own has page 0, which is that of Latin-1. *)
Definition own_page (code : Z) : Prop := code < 256 ∨ page_of code ≠ Some 0.

Definition cased_page (page : list unichar) : bool := existsb (λ i, properties_signature_index i <? 2) page.

Definition cased_pages : list bool := Eval vm_compute in cased_page <$> unichar_info.

Definition used_case (block k : Z) : bool :=
  ((block =? 0) || negb (k =? 0)) && default false (cased_pages !! Z.to_nat k).

(** The other case of [code] is in the other class, and leads back. *)
Definition pair_ok (code : Z) (i : unichar) : bool :=
  let back (class : Z) :=
    match mkcl_unicode_character_information (transform i) with
    | Some j => (properties_signature_index j =? class) && (transform j =? code)
    | None => false
    end in
  if properties_signature_index i =? 0 then back 1
  else if properties_signature_index i =? 1 then back 0 || bool_decide (code ∈ titlecased)
  else true.

Lemma case_checked : check_pages used_case pair_ok = true.
Proof. vm_compute. done. Qed.

Lemma cased_pages_eq : cased_pages = cased_page <$> unichar_info.
Proof. vm_compute. done. Qed.

Lemma pair_ok_all code i :
  0 <= code → own_page code → mkcl_unicode_character_information code = Some i → pair_ok code i = true.
Proof.
  intros Hc Hown Hi. pose proof Hi as (k & page & Hk & Hp & Hj)%lookup_page.
  destruct (properties_signature_index i <? 2) eqn:Hs.
  - apply (check_pages_spec _ _ _ _ _ case_checked Hc Hi Hk). unfold used_case.
    rewrite cased_pages_eq, list_lookup_fmap, Hp. simpl.
    apply andb_true_iff. split.
    + unfold own_page in Hown. rewrite Hk in Hown. destruct (Z.eqb_spec (Z.shiftr code 8) 0) as [|Hb]; [done|].
      destruct (Z.eqb_spec k 0) as [->|]; [|done]. destruct Hown as [Hlt|]; [|done].
      rewrite Z.shiftr_div_pow2, Z.div_small in Hb by lia. done.
    + apply existsb_exists. exists i. split; [|done]. apply list_elem_of_In, list_elem_of_lookup. eauto.
  - unfold pair_ok. apply Z.ltb_ge in Hs.
    destruct (Z.eqb_spec (properties_signature_index i) 0); [lia|]. destruct (Z.eqb_spec (properties_signature_index i) 1); [lia|done].
Qed.

(** C37: the tables pair the letters that have two cases.  The upper case of a lower case
    letter is an upper case letter whose lower case is the first, except for 27 Greek
    letters, whose upper case is in title case, and the same with upper and lower case
    exchanged; but a block without characters has the letters of Latin-1. *)
Theorem cases_paired code :
  is_char code →
  (own_page code →
    (mkcl_lower_case_p code = true → code ∉ titlecased →
       mkcl_upper_case_p (mkcl_char_upcase code) = true ∧ mkcl_char_downcase (mkcl_char_upcase code) = code) ∧
    (mkcl_upper_case_p code = true →
       mkcl_lower_case_p (mkcl_char_downcase code) = true ∧ mkcl_char_upcase (mkcl_char_downcase code) = code)) ∧
  (mkcl_lower_case_p code = false → mkcl_char_upcase code = code) ∧
  (mkcl_upper_case_p code = false → mkcl_char_downcase code = code) ∧
  (¬ own_page code →
    mkcl_char_upcase code = (if mkcl_lower_case_p (code mod 256) then mkcl_char_upcase (code mod 256) else code) ∧
    mkcl_upper_case_p code = mkcl_upper_case_p (code mod 256)).
Proof.
  intros Hc. destruct (info_total _ Hc) as [i Hi].
  unfold mkcl_lower_case_p, mkcl_upper_case_p, mkcl_char_upcase, mkcl_char_downcase, has_signature. rewrite !Hi.
  split; [|split; [by destruct (_ =? 1)|split; [by destruct (_ =? 0)|]]].
  - intros Hown. pose proof (pair_ok_all _ _ (proj1 Hc) Hown Hi) as Hok. unfold pair_ok in Hok. split.
    + intros H1 Hnot. rewrite H1 in Hok |- *. apply Z.eqb_eq in H1. rewrite H1 in Hok.
      apply orb_true_iff in Hok as [Hok|?%bool_decide_eq_true]; [|done].
      destruct (mkcl_unicode_character_information (transform i)) as [j|]; [|done].
      apply andb_true_iff in Hok as [-> ?%Z.eqb_eq]. done.
    + intros H0. rewrite H0 in Hok |- *.
      destruct (mkcl_unicode_character_information (transform i)) as [j|]; [|done].
      apply andb_true_iff in Hok as [-> ?%Z.eqb_eq]. done.
  - intros Hown. assert (page_of code = Some 0 ∧ 256 <= code) as [Hp Hge].
    { unfold own_page in Hown. destruct (decide (page_of code = Some 0)); [|tauto]. split; [done|]. lia. }
    assert (mkcl_unicode_character_information (code mod 256) = Some i) as ->; [|by destruct (_ =? 1)].
    apply lookup_page in Hi as (k & page & Hk & Hpg & Hj). rewrite Hp in Hk. injection Hk as <-.
    unfold mkcl_unicode_character_information, MKCL_CHAR_CODE_LIMIT. pose proof (Z.mod_pos_bound code 256 ltac:(lia)).
    rewrite (proj2 (Z.leb_gt _ _)) by lia. rewrite Z.shiftr_div_pow2 by lia. change (2 ^ 8) with 256.
    rewrite (Z.div_small (code mod 256)) by lia. rewrite land_byte, Z.mod_mod by lia. rewrite land_byte in Hj.
    assert (info_pages !! Z.to_nat 0 = Some 0) as -> by done. unfold mbind, option_bind. by rewrite Hpg.
Qed.

(** ** Digits *)

Ltac zcases := repeat match goal with
  | |- context [?a <=? ?b] => destruct (Z.leb_spec a b)
  | |- context [?a <? ?b] => destruct (Z.ltb_spec a b)
  end; simpl; try lia.

(** The letter of a digit, in the other case. *)
Definition small_digit (w : Z) : Z := if w <? 10 then w + 48 else w - 10 + 97.

Lemma digit_char_eq w r : 2 <= r <= 36 → 0 <= w < r → mkcl_digit_char w r = if w <? 10 then w + 48 else w + 55.
Proof. unfold mkcl_digit_char. intros Hr Hw. zcases. Qed.

Lemma digitp_digit_char w r : 2 <= r <= 36 → 0 <= w < r → mkcl_digitp (mkcl_digit_char w r) r = Some w.
Proof.
  intros Hr Hw. rewrite digit_char_eq by done. unfold mkcl_digitp.
  destruct (Z.ltb_spec w 10); zcases; f_equal; lia.
Qed.

Lemma digitp_small_digit w r : 2 <= r <= 36 → 0 <= w < r → mkcl_digitp (small_digit w) r = Some w.
Proof. intros Hr Hw. unfold small_digit, mkcl_digitp. destruct (Z.ltb_spec w 10); zcases; f_equal; lia. Qed.

(** The digits of Latin-1 are those. *)
Lemma digitp_latin i r d :
  2 <= r <= 36 → i <= 255 → mkcl_digitp i r = Some d → 0 <= d →
  d < r ∧ (i = mkcl_digit_char d r ∨ i = small_digit d).
Proof.
  intros Hr Hi. unfold mkcl_digitp. zcases; intros [= <-] Hd; try lia;
    (rewrite digit_char_eq by lia || idtac); unfold small_digit; split; try lia.
  all: try (rewrite digit_char_eq by lia); repeat match goal with |- context [?a <? ?b] => destruct (Z.ltb_spec a b) end; lia.
Qed.

Lemma digitp_below i r d : 2 <= r <= 36 → mkcl_digitp i r = Some d → d < r.
Proof.
  intros Hr. unfold mkcl_digitp. zcases; try (intros [= <-]; lia).
  all: destruct (mkcl_ucd_decimal_digit i) as [n|]; [|done]; simpl; intros [= <-]; destruct (Z.ltb_spec n r); lia.
Qed.

(** ** Where the class of a character is read *)

Definition classes : Z := 217.

Definition class_ok (_ : Z) (i : unichar) : bool :=
  let s := properties_signature_index i in (0 <=? s) && ((s <? classes) || (s =? 255)).

Lemma classes_checked : forallb (forallb (class_ok 0)) unichar_info = true.
Proof. vm_compute. done. Qed.

Lemma classes_length : length properties_signatures = Z.to_nat classes.
Proof. done. Qed.

Definition unclassed (code : Z) : Prop :=
  properties_signature_index <$> mkcl_unicode_character_information code = Some 255.

Lemma signature_found code i :
  is_char code → mkcl_unicode_character_information code = Some i → ¬ unclassed code → is_Some (signature_of i).
Proof.
  intros Hc Hi Hun. unfold unclassed in Hun. rewrite Hi in Hun. simpl in Hun.
  apply lookup_page in Hi as (k & page & _ & Hp & Hj).
  pose proof (proj1 (forallb_forall _ _) classes_checked page) as Hall.
  rewrite forallb_forall in Hall. specialize (Hall (proj1 (list_elem_of_In _ _) (list_elem_of_lookup_2 _ _ _ Hp)) i).
  specialize (Hall (proj1 (list_elem_of_In _ _) (list_elem_of_lookup_2 _ _ _ Hj))).
  unfold class_ok in Hall. apply andb_true_iff in Hall as [H0%Z.leb_le H1]. apply orb_true_iff in H1.
  unfold signature_of. apply lookup_lt_is_Some_2. rewrite classes_length. rewrite Z.ltb_lt, Z.eqb_eq in H1.
  destruct H1 as [?|H1]; [lia|]. by rewrite H1 in Hun.
Qed.

Lemma signature_missing code i :
  mkcl_unicode_character_information code = Some i → unclassed code → signature_of i = None.
Proof. intros Hi. unfold unclassed. rewrite Hi. simpl. intros [= Hs]. unfold signature_of. by rewrite Hs. Qed.

(** ** Comparison *)

Definition decides (P : Prop) (m : M obj) (h : heap) : Prop :=
  ∃ b : bool, m h = Done (lisp_bool b) h ∧ (b = true ↔ P).

Lemma decides_iff P Q m h : (P ↔ Q) → decides P m h → decides Q m h.
Proof. intros Hpq (b & E & Hb). exists b. split; [done|]. by rewrite Hb. Qed.

Section comparison.
Context (key : Z → Z) (eq : obj → obj → M bool) (cmp : obj → obj → M Z).

Lemma all_equal_decides c cs h :
  (∀ a b, eq (OChar a) (OChar b) h = Done (key a =? key b) h) →
  decides (Forall (λ d, key c = key d) cs) (all_equal eq (OChar c) (OChar <$> cs)) h.
Proof.
  intros Heq. induction cs as [|d cs IH]; simpl.
  - exists true. split; [done|]. by rewrite Forall_nil.
  - unfold decides. rewrite (bind_Done _ _ _ _ _ (Heq _ _)). destruct (Z.eqb_spec (key c) (key d)) as [E|E]; simpl.
    + eapply decides_iff; [|exact IH]. rewrite Forall_cons. tauto.
    + exists false. split; [done|]. rewrite Forall_cons. split; [done|]. tauto.
Qed.

Lemma equal_before_found c ds h :
  (∀ a b, eq (OChar a) (OChar b) h = Done (key a =? key b) h) →
  equal_before eq (OChar c) (OChar <$> ds) h = Done (bool_decide (key c ∈ key <$> ds)) h.
Proof.
  intros Heq. induction ds as [|d ds IH]; simpl; [done|]. rewrite (bind_Done _ _ _ _ _ (Heq _ _)).
  destruct (Z.eqb_spec (key d) (key c)) as [E|E].
  - rewrite bool_decide_eq_true_2; [done|]. rewrite E. apply list_elem_of_here.
  - etrans; [exact IH|]. f_equal. apply bool_decide_ext. rewrite elem_of_cons.
    split; [tauto|]. intros [?|?]; [congruence|done].
Qed.

Lemma all_different_decides before cs h :
  (∀ a b, eq (OChar a) (OChar b) h = Done (key a =? key b) h) → NoDup (key <$> before) →
  decides (NoDup (key <$> before ++ cs)) (all_different eq (OChar <$> before) (OChar <$> cs)) h.
Proof.
  intros Heq. revert before. induction cs as [|c cs IH]; intros before Hd; simpl.
  - exists true. split; [done|]. by rewrite app_nil_r.
  - unfold decides. rewrite (bind_Done _ _ _ _ _ (equal_before_found c before h Heq)).
    destruct (decide (key c ∈ key <$> before)) as [Hin|Hin].
    + rewrite bool_decide_eq_true_2 by done. exists false. split; [done|]. split; [done|].
      rewrite fmap_app. intros (_ & Hn & _)%NoDup_app. exfalso. apply (Hn _ Hin). left.
    + rewrite bool_decide_eq_false_2 by done. rewrite (cons_middle c before cs), app_assoc.
      rewrite <- (fmap_snoc OChar). apply IH. rewrite fmap_app. apply NoDup_app. split; [done|].
      split; [|apply NoDup_singleton]. intros x Hx Hy. apply list_elem_of_singleton in Hy. by subst x.
Qed.

Lemma monotonic_decides s t (R : Z → Z → Prop) c cs h :
  (∀ a b, a ∈ c :: cs → b ∈ c :: cs → ∃ r, cmp (OChar b) (OChar a) h = Done r h ∧ (t <= s * r ↔ R (key a) (key b))) →
  decides (Sorted R (key <$> c :: cs)) (monotonic_chars cmp s t (OChar c) (OChar <$> cs)) h.
Proof.
  revert c. induction cs as [|d cs IH]; intros c Hcmp; simpl.
  - exists true. split; [done|]. split; [|done]. by repeat constructor.
  - destruct (Hcmp c d) as (r & E & Hr); [left|right; left|]. unfold decides. rewrite (bind_Done _ _ _ _ _ E).
    destruct (Z.ltb_spec (s * r) t) as [Hlt|Hge].
    + exists false. split; [done|]. split; [done|]. intros HS. apply Sorted_inv in HS as [_ HR%HdRel_inv]. apply Hr in HR. lia.
    + eapply decides_iff; [|apply IH; intros a b Ha Hb; apply Hcmp; by right].
      split; [intros HS; constructor; [done|]; constructor; by apply Hr|]. by intros [? _]%Sorted_inv.
Qed.
End comparison.

Lemma int_wrap_small z : - 2 ^ 31 <= z < 2 ^ 31 → int_wrap z = z.
Proof. unfold int_wrap. intros Hz. rewrite Z.mod_small; lia. Qed.

Lemma char_cmp_eq a b h :
  is_char a → is_char b → mkcl_char_cmp (OChar b) (OChar a) h = Done (b - a) h.
Proof.
  unfold is_char, MKCL_CHAR_CODE_LIMIT. intros Ha Hb. unfold mkcl_char_cmp. simpl.
  rewrite !bind_ret. unfold mret, M_ret. f_equal. apply int_wrap_small. lia.
Qed.

(** On characters, each function of the families of CHAR= and of CHAR-EQUAL decides
    its relation between all its arguments: equality with the first, pairwise difference,
    order; the first family by the codes, the second by the upper cases. *)
Theorem characters_compared c cs h :
  Forall is_char (c :: cs) →
  let codes := c :: cs in
  let keys := mkcl_char_upcase <$> codes in
  let args := OChar <$> codes in
  (decides (Forall (λ d, c = d) cs) (mk_cl_charE (OChar c) (OChar <$> cs)) h ∧
   decides (NoDup codes) (mk_cl_charNE args) h ∧
   decides (Sorted Z.lt codes) (mk_cl_charL args) h ∧
   decides (Sorted Z.gt codes) (mk_cl_charG args) h ∧
   decides (Sorted Z.le codes) (mk_cl_charLE args) h ∧
   decides (Sorted Z.ge codes) (mk_cl_charGE args) h) ∧
  (decides (Forall (λ d, mkcl_char_upcase c = mkcl_char_upcase d) cs) (mk_cl_char_equal (OChar c) (OChar <$> cs)) h ∧
   decides (NoDup keys) (mk_cl_char_not_equal args) h ∧
   decides (Sorted Z.lt keys) (mk_cl_char_lessp args) h ∧
   decides (Sorted Z.gt keys) (mk_cl_char_greaterp args) h ∧
   decides (Sorted Z.le keys) (mk_cl_char_not_greaterp args) h ∧
   decides (Sorted Z.ge keys) (mk_cl_char_not_lessp args) h).
Proof.
  intros Hcs codes keys args. rewrite Forall_forall in Hcs.
  assert (∀ s t (R : Z → Z → Prop), (∀ a b, t <= s * (b - a) ↔ R a b) →
    decides (Sorted R codes) (Lchar_cmp s t args) h) as Hcmp.
  { intros s t R HR. pose proof (monotonic_decides id mkcl_char_cmp s t R c cs h) as H. rewrite list_fmap_id in H.
    apply H. intros a b Ha Hb. eexists. split; [apply char_cmp_eq; by apply Hcs|apply HR]. }
  assert (∀ s t (R : Z → Z → Prop), (∀ a b, t <= s * (if b <? a then -1 else if b =? a then 0 else 1) ↔ R a b) →
    decides (Sorted R keys) (Lchar_compare s t args) h) as Hcompare.
  { intros s t R HR. apply monotonic_decides. intros a b _ _. eexists. split; [reflexivity|apply HR]. }
  split; split_and!; try (apply Hcmp; intros a b; lia);
    try (apply Hcompare; intros a b; destruct (Z.ltb_spec b a), (Z.eqb_spec b a); lia).
  - by apply (all_equal_decides id).
  - pose proof (all_different_decides id mkcl_char_eq [c] cs h) as H. rewrite !list_fmap_id in H.
    apply H; [done|apply NoDup_singleton].
  - by apply (all_equal_decides mkcl_char_upcase).
  - apply (all_different_decides mkcl_char_upcase (λ d c, mkcl_char_equal c d) [c] cs h);
      [|apply NoDup_singleton]. intros a b. simpl. unfold mkcl_char_equal. simpl. by rewrite Z.eqb_sym.
Qed.

(** DIGIT-CHAR and DIGIT-CHAR-P are inverse on the weights of a radix; DIGIT-CHAR-P
    takes small letters as well, and no other character of Latin-1. *)
Theorem digits_inverse r w h :
  2 <= r <= 36 → 0 <= w < r →
  (∃ c, mk_cl_digit_char (OFix w) (Some (OFix r)) h = Done c h ∧
     mk_cl_digit_char_p c (Some (OFix r)) h = Done (OFix w) h) ∧
  (∀ i, 0 <= i <= 255 →
     mk_cl_digit_char_p (OChar i) (Some (OFix r)) h = Done (OFix w) h ↔
     i = mkcl_digit_char w r ∨ i = small_digit w).
Proof.
  intros Hr Hw.
  assert (∀ A (k : Z → M A), (mkcl_fixnum_in_range (radix_or_10 (Some (OFix r))) 2 36 ≫= k) h = k r h) as Hradix.
  { intros A k. apply bind_Done. simpl. by rewrite (proj2 (Z.leb_le _ _)), (proj2 (Z.leb_le _ _)) by lia. }
  assert (∀ i d, mkcl_digitp i r = Some d → mk_cl_digit_char_p (OChar i) (Some (OFix r)) h =
    Done (if d <? 0 then ONil else MKCL_MAKE_FIXNUM d) h) as Hp.
  { intros i d Hd. unfold mk_cl_digit_char_p. rewrite Hradix. simpl. by rewrite bind_ret, Hd. }
  assert (MKCL_MAKE_FIXNUM w = OFix w) as Hfix.
  { unfold MKCL_MAKE_FIXNUM. rewrite fixnum_wrap_small; [done|].
    unfold is_fixnum, MKCL_MOST_NEGATIVE_FIXNUM, MKCL_MOST_POSITIVE_FIXNUM. lia. }
  split.
  - unfold mk_cl_digit_char. rewrite Hradix, (proj2 (Z.leb_le 0 w)) by lia.
    eexists. split; [reflexivity|]. pose proof (digitp_digit_char w r Hr Hw) as Hd.
    rewrite (proj2 (Z.leb_le 0 _)) by (rewrite digit_char_eq by done; destruct (w <? 10); lia).
    unfold MKCL_CODE_CHAR. rewrite (Hp _ _ Hd), (proj2 (Z.ltb_ge _ _)) by lia. by rewrite Hfix.
  - intros i Hi. split.
    + destruct (mkcl_digitp i r) as [d|] eqn:Hd.
      * rewrite (Hp _ _ Hd). destruct (Z.ltb_spec d 0); [done|].
        assert (d < r) by (by eapply digitp_below). unfold MKCL_MAKE_FIXNUM.
        rewrite fixnum_wrap_small by (unfold is_fixnum, MKCL_MOST_NEGATIVE_FIXNUM, MKCL_MOST_POSITIVE_FIXNUM; lia).
        intros [= ->]. by apply (digitp_latin _ _ _ Hr (proj2 Hi) Hd).
      * revert Hd. unfold mkcl_digitp. zcases; done.
    + intros Hor. assert (mkcl_digitp i r = Some w) as Hd.
      { destruct Hor as [->| ->]; [by apply digitp_digit_char|by apply digitp_small_digit]. }
      rewrite (Hp _ _ Hd), (proj2 (Z.ltb_ge _ _)) by lia. by rewrite Hfix.
Qed.

(** C38: ALPHA-CHAR-P, ALPHANUMERICP and DIGIT-CHAR-P answer on a character with a class;
    on one without (7326 codes, 0x378 the first), whose class is marked 255 and whose code
    is above 255, they read outside of the table of the 217 classes. *)
Theorem classless_read_outside code h :
  is_char code →
  (unclassed code → 255 < code →
    mk_cl_alpha_char_p (OChar code) h = Fail Segfault h ∧
    mk_cl_alphanumericp (OChar code) h = Fail Segfault h ∧
    mk_cl_digit_char_p (OChar code) None h = Fail Segfault h) ∧
  (¬ unclassed code →
    (∃ b, mk_cl_alpha_char_p (OChar code) h = Done (lisp_bool b) h) ∧
    (∃ b, mk_cl_alphanumericp (OChar code) h = Done (lisp_bool b) h) ∧
    ∃ v, mk_cl_digit_char_p (OChar code) None h = Done v h).
Proof.
  intros Hc. destruct (info_total _ Hc) as [i Hi].
  unfold mk_cl_alpha_char_p, mk_cl_alphanumericp. simpl mkcl_char_code. rewrite !bind_ret.
  unfold mkcl_alpha_char_p, mkcl_alphanumericp, mkcl_unicode_character_general_category. rewrite Hi.
  split.
  - intros Hun Hlatin. rewrite (signature_missing _ _ Hi Hun). split_and!; [done..|].
    unfold mk_cl_digit_char_p.
    change (mkcl_fixnum_in_range (radix_or_10 None) 2 36) with (mret 10 : M Z). simpl. rewrite !bind_ret. unfold mkcl_digitp, mkcl_ucd_decimal_digit.
    rewrite Hi, (signature_missing _ _ Hi Hun). by zcases.
  - intros Hun. destruct (signature_found _ _ Hc Hi Hun) as [s Hs]. rewrite Hs.
    split_and!; [eexists; reflexivity..|].
    unfold mk_cl_digit_char_p.
    change (mkcl_fixnum_in_range (radix_or_10 None) 2 36) with (mret 10 : M Z). simpl. rewrite !bind_ret. unfold mkcl_digitp, mkcl_ucd_decimal_digit.
    rewrite Hi, Hs. zcases; eexists; reflexivity.
Qed.
