(* ===== verification/Strings.v ===== *)
(** * Strings: access to strings and their comparison, src/src/c/string.c

    A string object has the characters below its fill pointer in the heap.  CHAR ignores
    the fill pointer: the dimension and the characters beyond are those of [Vectors]. *)

From S2P Require Import Prelude Words Objects Heap Numbers Equal Lists Plist Sequences Chars Utf UtfText.
#[local] Open Scope Z_scope.

Definition FEillegal_index {A} (x i : obj) : M A := raise (FEerror "~S is an illegal index to ~S" [i; x]).

(** ** Designators *)

Definition mkcl_core_nil_name : M obj := p ← read_symbol (OSym mk_cl_Cnil_symbol); mret (sym_name p.2).

Definition mk_cl_string (fuel : nat) (x : obj) : M obj :=
  match x with
  | OString _ | OBaseString _ => mret x
  | OSym _ => p ← read_symbol x; mret (sym_name p.2)
  | ONil => mkcl_core_nil_name
  | OObj mkcl_t_UTF_8 _ => p ← mkcl_utf_8_to_string fuel x; mret p.1
  | OObj mkcl_t_UTF_16 _ => p ← mkcl_utf_16_to_string fuel x; mret p.1
  | OChar c =>
      a ← alloc (CStr [c]);
      mret (if c <=? 255 then OBaseString a else OString a)
  | _ => raise (FEtype_error_string x)
  end.

Section with_vectors.
Context `{!Vectors} (fuel : nat).

(** ** Access *)

Definition mkcl_char (object : obj) (index : Z) : M Z :=
  if MKCL_STRINGP object then
    dim ← array_dim object;
    if dim <=? index then FEillegal_index object (MKCL_MAKE_FIXNUM index)
    else
      s ← read_string object;
      match s !! Z.to_nat index with
      | Some c => mret c
      | None => c ← mkcl_aref_index object index; mkcl_char_code c
      end
  else raise (FEtype_error_string object).

(** An index given as an object. *)
Definition mkcl_ensure_valid_array_index_type (x index : obj) : M Z :=
  dim ← array_dim x;
  match index with
  | OFix i => if uwrap i <? dim then mret i else raise (FEout_of_bounds index dim)
  | _ => raise (FEout_of_bounds index dim)
  end.

(** The character at a valid index, that may be beyond the fill pointer. *)
Definition string_self (object : obj) (i : Z) : M Z :=
  s ← read_string object;
  match s !! Z.to_nat i with
  | Some c => mret c
  | None => c ← mkcl_aref_index object i; mkcl_char_code c
  end.
Definition set_string_self (object : obj) (i value : Z) : M unit :=
  s ← read_string object;
  match s !! Z.to_nat i with
  | Some _ => write_string object (<[Z.to_nat i := value]> s)
  | None => _ ← mkcl_aset_index object i (MKCL_CODE_CHAR value); mret tt
  end.

Definition mk_cl_char (object index : obj) : M obj :=
  if MKCL_STRINGP object then
    i ← mkcl_ensure_valid_array_index_type object index;
    c ← string_self object i; mret (MKCL_CODE_CHAR c)
  else raise (FEtype_error_string object).

Definition mk_si_char_set (object index value : obj) : M obj :=
  match object with
  | OString _ =>
      c ← mkcl_char_code value;
      i ← mkcl_ensure_valid_array_index_type object index;
      set_string_self object i c;; mret value
  | OBaseString _ =>
      match value with
      | OChar c =>
          if c <=? 255 then
            i ← mkcl_ensure_valid_array_index_type object index;
            set_string_self object i c;; mret value
          else raise (FEwrong_type_argument value)
      | _ => raise (FEwrong_type_argument value)
      end
  | _ => raise (FEtype_error_string object)
  end.

(** An element of a base string keeps 8 bits, and is the result. *)
Definition mkcl_char_set (object : obj) (index value : Z) : M Z :=
  if MKCL_STRINGP object then
    dim ← array_dim object;
    if dim <=? index then FEillegal_index object (MKCL_MAKE_FIXNUM index)
    else
      let c := match object with OBaseString _ => value mod 256 | _ => value end in
      set_string_self object index c;; mret c
  else raise (FEtype_error_string object).

Definition mkcl_base_string_last (str : obj) : M Z :=
  match str with
  | OBaseString _ => s ← read_string str; mret (default 0 (last s))
  | _ => mret 0
  end.
Definition mkcl_string_last (str : obj) : M Z :=
  match str with
  | OBaseString _ | OString _ => s ← read_string str; mret (default 0 (last s))
  | _ => mret 0
  end.

(** [enum mkcl_string_case] *)
Inductive string_case_kind := mkcl_lowercase_string | mkcl_mixedcase_string | mkcl_uppercase_string.

(** [for (i = 0; i < dim; i++)], [n] characters of the dimension. *)
Fixpoint string_case_from (n : nat) (str : obj) (i : Z) (str_case : string_case_kind) : M string_case_kind :=
  match n with
  | O => mret str_case
  | S n =>
      ch ← string_self str i;
      if mkcl_upper_case_p ch then
        match str_case with
        | mkcl_lowercase_string => mret mkcl_mixedcase_string
        | _ => string_case_from n str (i + 1) mkcl_uppercase_string
        end
      else if mkcl_lower_case_p ch then
        match str_case with
        | mkcl_uppercase_string => mret mkcl_mixedcase_string
        | _ => string_case_from n str (i + 1) mkcl_lowercase_string
        end
      else string_case_from n str (i + 1) str_case
  end.

Definition mkcl_string_case (str : obj) : M string_case_kind :=
  if MKCL_STRINGP str then
    dim ← array_dim str; string_case_from (Z.to_nat dim) str 0 mkcl_mixedcase_string
  else mret mkcl_mixedcase_string.

(** Equality, whatever its name, of as many bytes as the fill pointer says; a character
    of a string that is no base string has four, the lowest first. *)
Definition string_bytes (str : obj) (s : list Z) : list Z :=
  match str with
  | OString _ => s ≫= λ c, [c mod 256; (c / 2 ^ 8) mod 256; (c / 2 ^ 16) mod 256; (c / 2 ^ 24) mod 256]
  | _ => s
  end.

Definition mkcl_base_string_L (str1 str2 : obj) : M obj :=
  if negb (MKCL_STRINGP str1) then raise (FEtype_error_string str1)
  else if negb (MKCL_STRINGP str2) then raise (FEtype_error_string str2)
  else
    t1 ← read_string str1; t2 ← read_string str2;
    let i := length t1 in
    mret (if negb (Nat.eqb i (length t2)) then ONil
          else lisp_bool (chars_equal (take i (string_bytes str1 t1)) (take i (string_bytes str2 t2)))).

(** The fill pointer. *)
Definition fillp (string : obj) : M Z := s ← read_string string; mret (Z.of_nat (length s)).

Definition mkcl_get_string_start_end (string start end_ : obj) : M (Z * Z) :=
  let E {A} : M A :=
    raise (FEerror "~S and ~S are illegal as :START and :END for the string designator ~S." [start; end_; string]) in
  match start with
  | OFix s =>
      if s <? 0 then E
      else
        n ← fillp string;
        match end_ with
        | ONil => if n <? s then E else mret (s, n)
        | OFix e => if e <? 0 then E else if (e <? s) || (n <? e) then E else mret (s, e)
        | _ => E
        end
  | _ => E
  end.

(** ** Comparison

    The result is the sign of the first string, and the index in it where they differ. *)

Definition cased (case_sensitive : bool) (c : Z) : Z := if case_sensitive then c else mkcl_char_upcase c.

(** [n] characters are left of the first string. *)
Fixpoint compare_strings (n : nat) (string1 : obj) (s1 : Z) (string2 : obj) (s2 e2 : Z) (case_sensitive : bool)
    : M (Z * Z) :=
  match n with
  | O => mret (if e2 <=? s2 then 0 else -1, s1)
  | S n =>
      if e2 <=? s2 then mret (1, s1)
      else
        c1 ← mkcl_char string1 s1; c2 ← mkcl_char string2 s2;
        let c1 := cased case_sensitive c1 in
        let c2 := cased case_sensitive c2 in
        if c1 <? c2 then mret (-1, s1)
        else if c2 <? c1 then mret (1, s1)
        else compare_strings n string1 (s1 + 1) string2 (s2 + 1) e2 case_sensitive
  end.

(** On the bytes of two base strings from their starts. *)
Fixpoint compare_base (t1 : list Z) (l : Z) (t2 : list Z) (case_sensitive : bool) : Z * Z :=
  match t1, t2 with
  | [], [] => (0, l)
  | [], _ :: _ => (-1, l)
  | _ :: _, [] => (1, l)
  | c1 :: t1, c2 :: t2 =>
      let c1 := cased case_sensitive c1 in
      let c2 := cased case_sensitive c2 in
      if c1 <? c2 then (-1, l) else if c2 <? c1 then (1, l) else compare_base t1 (l + 1) t2 case_sensitive
  end.

(** The characters from [s] below [e] of a string. *)
Definition chars_between (string : obj) (s e : Z) : M (list Z) :=
  t ← read_string string; mret (take (Z.to_nat (e - s)) (drop (Z.to_nat s) t)).

(** The arguments that bound a comparison. *)
Record bounds := Bounds { start1 : obj; end1 : obj; start2 : obj; end2 : obj }.

Definition base_strings (string1 string2 : obj) : bool :=
  match string1, string2 with OBaseString _, OBaseString _ => true | _, _ => false end.

Definition mk_cl_stringE (string1 string2 : obj) (b : bounds) : M obj :=
  string1 ← mk_cl_string fuel string1; string2 ← mk_cl_string fuel string2;
  p1 ← mkcl_get_string_start_end string1 (start1 b) (end1 b);
  p2 ← mkcl_get_string_start_end string2 (start2 b) (end2 b);
  let '(s1, e1) := (p1 : Z * Z) in
  let '(s2, e2) := (p2 : Z * Z) in
  if negb (e1 - s1 =? e2 - s2) then mret ONil
  else
    t1 ← chars_between string1 s1 e1; t2 ← chars_between string2 s2 e2;
    mret (lisp_bool (chars_equal t1 t2)).

(** [compare_strings] or [compare_base]; the index is from the start of the first. *)
Definition compare_either (string1 : obj) (s1 e1 : Z) (string2 : obj) (s2 e2 : Z) (case_sensitive : bool)
    : M (Z * Z) :=
  if negb (base_strings string1 string2) then
    compare_strings (Z.to_nat (e1 - s1)) string1 s1 string2 s2 e2 case_sensitive
  else
    t1 ← chars_between string1 s1 e1; t2 ← chars_between string2 s2 e2;
    let r := compare_base t1 0 t2 case_sensitive in
    mret (r.1, r.2 + s1).

Definition mk_cl_string_equal (string1 string2 : obj) (b : bounds) : M obj :=
  string1 ← mk_cl_string fuel string1; string2 ← mk_cl_string fuel string2;
  p1 ← mkcl_get_string_start_end string1 (start1 b) (end1 b);
  p2 ← mkcl_get_string_start_end string2 (start2 b) (end2 b);
  let '(s1, e1) := (p1 : Z * Z) in
  let '(s2, e2) := (p2 : Z * Z) in
  if negb (e1 - s1 =? e2 - s2) then mret ONil
  else
    r ← compare_either string1 s1 e1 string2 s2 e2 false;
    mret (lisp_bool (r.1 =? 0)).

Definition string_compare (sign1 sign2 : Z) (case_sensitive : bool) (string1 string2 : obj) (b : bounds) : M obj :=
  string1 ← mk_cl_string fuel string1; string2 ← mk_cl_string fuel string2;
  p1 ← mkcl_get_string_start_end string1 (start1 b) (end1 b);
  p2 ← mkcl_get_string_start_end string2 (start2 b) (end2 b);
  let '(s1, e1) := (p1 : Z * Z) in
  let '(s2, e2) := (p2 : Z * Z) in
  r ← compare_either string1 s1 e1 string2 s2 e2 case_sensitive;
  mret (if (r.1 =? sign1) || (r.1 =? sign2) then MKCL_MAKE_FIXNUM r.2 else ONil).

Definition mk_cl_stringL := string_compare (-1) (-1) true.
Definition mk_cl_stringG := string_compare 1 1 true.
Definition mk_cl_stringLE := string_compare (-1) 0 true.
Definition mk_cl_stringGE := string_compare 0 1 true.
Definition mk_cl_stringNE := string_compare (-1) 1 true.
Definition mk_cl_string_lessp := string_compare (-1) (-1) false.
Definition mk_cl_string_greaterp := string_compare 1 1 false.
Definition mk_cl_string_not_greaterp := string_compare (-1) 0 false.
Definition mk_cl_string_not_lessp := string_compare 0 1 false.
Definition mk_cl_string_not_equal := string_compare (-1) 1 false.
End with_vectors.
