(* ===== verification/NumRead.v ===== *)
(** * NumRead: numbers from their characters, src/src/c/read.c

    The parser of tokens that may be numbers, PARSE-INTEGER, and the part of the reader
    that decides whether a token is a number.  The special variables of the reader are
    the interface [ReaderVars]. *)

From S2P Require Import Prelude Words Objects Heap Numbers Floats NumPred Arith NumComp ToFloat.
From S2P Require Import Equal Lists Sequences Chars Strings.
#[local] Open Scope Z_scope.

(** The functions of GMP on unsigned words. *)
Class GMPText := { mpz_mul_ui : Z → Z → Z; }.

Class GMPTextSpec `{!GMP, !GMPText} : Prop := {
  mpz_mul_ui_eq x i : is_index i → mpz_mul_ui x i = x * i;
  (* the number of digits of the magnitude, or one more *)
  mpz_sizeinbase_eq z b : 2 ≤ b ≤ 36 → z ≠ 0 →
    ∃ n, 0 < n ∧ b ^ (n - 1) ≤ Z.abs z < b ^ n ∧ (mpz_sizeinbase z b = n ∨ mpz_sizeinbase z b = n + 1);
}.

#[export] Instance gmp_text_ref : GMPText := { mpz_mul_ui := Z.mul; }.

Class ReaderVars := {
  MK_CL_single_float : obj;
  MK_CL_short_float : obj;
  MK_CL_double_float : obj;
  MK_CL_long_float : obj;
  read_base : obj;
  read_default_float_format : obj;
  infinity_variable : float_kind → bool → M obj;   (* the value of the constant of that sign *)
  is_whitespace : Z → M bool;                      (* in the current readtable *)
}.

Section reader.
Context `{!GMP, !GMPArith, !GMPText, !ToDouble, !Transcendental, !Vectors, !ReaderVars} (fuel : nat).

Definition mkcl_current_read_base : M Z :=
  match read_base with
  | OFix b =>
      if (2 <=? b) && (b <=? 36) then mret b
      else raise (FEerror "The value of *READ-BASE*, ~S, was illegal." [read_base])
  | x => raise (FEerror "The value of *READ-BASE*, ~S, was illegal." [x])
  end.

(** ['F'] or ['D']. *)
Definition mkcl_current_read_default_float_format : M Z :=
  let x := read_default_float_format in
  if obj_eq x MK_CL_single_float || obj_eq x MK_CL_short_float then mret 70
  else if obj_eq x MK_CL_double_float then mret 68
  else if obj_eq x MK_CL_long_float then mret 68
  else raise (FEerror "The value of *READ-DEFAULT-FLOAT-FORMAT*, ~S, was illegal." [x]).

(** ** Floats *)

Definition exponent_charp (c : Z) : bool :=
  (c =? 101) || (c =? 69) || (c =? 102) || (c =? 70) || (c =? 115) || (c =? 83)
  || (c =? 100) || (c =? 68) || (c =? 108) || (c =? 76).

Definition is_e (c : Z) : bool := (c =? 101) || (c =? 69).
Definition is_single (c : Z) : bool := (c =? 115) || (c =? 83) || (c =? 102) || (c =? 70).
Definition is_double (c : Z) : bool := (c =? 108) || (c =? 76) || (c =? 100) || (c =? 68).

(** [n] bits of the exponent are left. *)
Fixpoint expt10_loop (n : nat) (accum factor expt : Z) : Z :=
  match n with
  | O => accum
  | S n =>
      if expt =? 0 then accum
      else
        let accum := if Z.odd expt then mpz_mul accum factor else accum in
        expt10_loop n accum (mpz_mul factor factor) (Z.shiftr expt 1)
  end.

Definition expt10 (expt : Z) : M obj := _mkcl_big_register_normalize (expt10_loop 64 1 10 expt).

(** The format of the exponent character ['e'] is that of the variable. *)
Definition float_char (exp_char : Z) : M Z :=
  if is_e exp_char then mkcl_current_read_default_float_format else mret exp_char.

Definition infinity (exp_char : Z) (sign : Z) : M (option obj) :=
  c ← float_char exp_char;
  if is_single c then x ← infinity_variable SF (sign <? 0); mret (Some x)
  else if is_double c then x ← infinity_variable DF (sign <? 0); mret (Some x)
  else mret None.

(** [make_float] of read.c. *)
Definition read_make_float (num exp : obj) (exp_char sign : Z) : M (option obj) :=
  match exp with
  | OFix fix_exp =>
      num ←
        (if 0 <? fix_exp then e ← expt10 fix_exp; mkcl_times fuel num e
         else if fix_exp <? 0 then e ← expt10 (- fix_exp); mkcl_divide fuel num e
         else mret num);
      c ← float_char exp_char;
      if is_single c then
        f ← mkcl_to_float fuel num;
        x ← mkcl_make_singlefloat (fl_mul SF (fl_of_Z SF sign) f); mret (Some x)
      else if is_double c then
        f ← mkcl_to_double fuel num;
        x ← mkcl_make_doublefloat (fl_mul DF (fl_of_Z DF sign) f); mret (Some x)
      else mret None
  | _ => infinity exp_char sign
  end.

(** ** Integers

    The object, [None] for MKCL_OBJNULL, and the value of [*ep]. *)

Definition basep (d : Z) : bool := d <=? 36.

(** The digits from [i], at most [n], and the index of the first character left. *)
Fixpoint parse_digits (n : nat) (str : obj) (i radix integer_part : Z) : M (Z * Z) :=
  match n with
  | O => mret (integer_part, i)
  | S n =>
      c ← mkcl_char str i;
      d ← checked (mkcl_digitp c radix);
      if d <? 0 then mret (integer_part, i)
      else parse_digits n str (i + 1) radix (mpz_add_ui (mpz_mul_ui integer_part radix) d)
  end.

Definition mkcl_parse_integer (str : obj) (start end_ radix : Z) : M (option obj * Z) :=
  if (end_ <=? start) || negb (basep radix) then mret (None, 0)
  else
    c ← mkcl_char str start;
    let '(sign, start) := if c =? 43 then (1, start + 1) else if c =? 45 then (-1, start + 1) else (1, start) in
    p ← parse_digits (Z.to_nat (end_ - start)) str start radix 0;
    let '(integer_part, i) := (p : Z * Z) in
    output ← _mkcl_big_register_normalize (if sign <? 0 then mpz_neg integer_part else integer_part);
    mret (if i =? start then None else Some output, i).

(** ** Numbers *)

(** How a pass over the characters ends: with a result, by starting again in radix 10
    ([goto AGAIN]), or by a call in radix 10. *)
Inductive scan :=
| Parsed (x : option obj) (ep : Z)
| Again
| InDecimal.

Section scanner.
Context (str : obj) (end_ : Z).

(** After the ['/'] at [i]. *)
Definition parse_denominator (sign i radix numerator : Z) : M scan :=
  num ← _mkcl_big_register_normalize (if sign <? 0 then mpz_neg numerator else numerator);
  let i := i + 1 in
  c ← mkcl_char str i;
  d ← checked (mkcl_digitp c radix);
  if d <? 0 then mret (Parsed None i)
  else
    p ← mkcl_parse_integer str i end_ radix;
    match p with
    | (None, ep) => mret (Parsed None ep)
    | (Some den, ep) =>
        if ep <? end_ then mret (Parsed None ep)
        else if obj_eq den (MKCL_MAKE_FIXNUM 0) then mret (Parsed (Some ONil) ep)
        else q ← mkcl_make_ratio num den; mret (Parsed (Some q) ep)
    end.

(** After the exponent character [c] at [i]. *)
Definition parse_exponent (sign c i decimal numerator : Z) : M scan :=
  num ← _mkcl_big_register_normalize numerator;
  let decimals := if decimal <? i then MKCL_MAKE_FIXNUM (decimal - i) else MKCL_MAKE_FIXNUM 0 in
  p ← mkcl_parse_integer str (i + 1) end_ 10;
  match p with
  | (None, ep) => mret (Parsed None ep)
  | (Some exp, ep) =>
      if ep <? end_ then mret (Parsed None ep)
      else
        e ← mkcl_plus fuel decimals exp;
        x ← read_make_float num e c sign; mret (Parsed x ep)
  end.

(** At the end, [i]. *)
Definition parse_end (sign i decimal numerator : Z) : M scan :=
  if decimal <? i then
    num ← _mkcl_big_register_normalize numerator;
    x ← read_make_float num (MKCL_MAKE_FIXNUM (decimal - i)) 101 sign; mret (Parsed x i)
  else
    num ← _mkcl_big_register_normalize (if sign <? 0 then mpz_neg numerator else numerator);
    mret (Parsed (Some num) i).

(** [for (; i < end; i++)], with [n] characters left. *)
Fixpoint scan_chars (n : nat) (radix sign i decimal numerator : Z) : M scan :=
  match n with
  | O => parse_end sign i decimal numerator
  | S n =>
      c ← mkcl_char str i;
      if c =? 47 then parse_denominator sign i radix numerator
      else if c =? 46 then
        if decimal <=? i then mret (Parsed None i)
        else if negb (radix =? 10) then mret Again
        else scan_chars n radix sign (i + 1) (i + 1) numerator
      else
        d ← checked (mkcl_digitp c radix);
        if 0 <=? d then scan_chars n radix sign (i + 1) decimal (mpz_add_ui (mpz_mul_ui numerator radix) d)
        else if exponent_charp c then
          if negb (radix =? 10) then mret Again else parse_exponent sign c i decimal numerator
        else if negb (radix =? 10) then mret InDecimal
        else mret (Parsed None i)
  end.

(** From the label [AGAIN]. *)
Definition scan_number (start radix : Z) : M scan :=
  let unsigned (sign i c : Z) : M scan :=
    if c =? 47 then mret (Parsed None i)
    else scan_chars (Z.to_nat (end_ - i)) radix sign i end_ 0 in
  let after (sign : Z) : M scan :=
    let i := start + 1 in
    if i =? end_ then mret (Parsed None i) else c ← mkcl_char str i; unsigned sign i c in
  c ← mkcl_char str start;
  if c =? 43 then after 1 else if c =? 45 then after (-1) else unsigned 1 start c.

(** A pass in radix 10 always has a result. *)
Definition scan_decimal (start : Z) : M (option obj * Z) :=
  r ← scan_number start 10;
  match r with Parsed x ep => mret (x, ep) | _ => diverge end.
End scanner.

Definition mkcl_floatp (x : obj) : bool := match x with OFloat _ _ _ => true | _ => false end.

Definition mkcl_parse_number (str : obj) (start end_ radix : Z) : M (option obj * Z) :=
  if (end_ <=? start) || (36 <? radix) then mret (None, start)
  else
    r ← scan_number str end_ start radix;
    match r with
    | Parsed x ep => mret (x, ep)
    | Again => scan_decimal str end_ start
    | InDecimal =>
        p ← scan_decimal str end_ start;
        match p with
        | (Some number, ep) =>
            if mkcl_floatp number then mret p
            else if (MKCL_FIXNUMP number || match number with OBig _ _ => true | _ => false end) && (start <? ep) then
              c ← mkcl_char str (ep - 1);
              mret (if c =? 46 then p else (None, ep))
            else mret (None, ep)
        | (None, ep) => mret (None, ep)
        end
    end.

(** ** Tokens

    A token without escapes and packages is a dot, a number or the name of a symbol. *)
Inductive token :=
| TokenDot
| TokenNumber (x : obj)
| TokenSymbol.

Definition read_token (str : obj) : M token :=
  chars ← read_string str;
  let length := Z.of_nat (length chars) in
  match chars with
  | [] => mret TokenSymbol
  | c :: _ =>
      if (length =? 1) && (c =? 46) then mret TokenDot
      else if forallb (λ c, c =? 46) chars then
        raise (FEerror "While reading a lisp token, dots appeared illegally." [])
      else
        base ← mkcl_current_read_base;
        alpha ← (if base <=? 10 then checked (mkcl_alpha_char_p c) else mret false);
        if (alpha : bool) then mret TokenSymbol
        else
          p ← mkcl_parse_number str 0 length base;
          match p with
          | (Some ONil, _) => raise (FEerror "Syntax error when reading number.~%Offending string: ~S." [str])
          | (Some x, i) => mret (if length =? i then TokenNumber x else TokenSymbol)
          | (None, _) => mret TokenSymbol
          end
  end.

(** ** PARSE-INTEGER *)

(** [while (s < e && ...) s++] *)
Fixpoint skip_whitespace (n : nat) (str : obj) (s : Z) : M Z :=
  match n with
  | O => mret s
  | S n => c ← mkcl_char str s; w ← is_whitespace c; if (w : bool) then skip_whitespace n str (s + 1) else mret s
  end.

Definition cannot_parse {A} (strng : obj) : M A :=
  raise (FEerror "Cannot parse an integer in the string ~S." [strng]).

Definition mk_cl_parse_integer (strng start end_ radix junk_allowed : obj) : M (obj * obj) :=
  if negb (MKCL_STRINGP strng) then raise (FEtype_error_string strng)
  else
    p ← mkcl_get_string_start_end strng start end_;
    let '(s, e) := (p : Z * Z) in
    match radix with
    | OFix r =>
        if (r <? 2) || (36 <? r) then raise (FEerror "~S is an illegal radix." [radix])
        else
          let junk := negb (mkcl_Null junk_allowed) in
          s ← skip_whitespace (Z.to_nat (e - s)) strng s;
          if e <=? s then
            if junk then mret (ONil, MKCL_MAKE_FIXNUM s) else cannot_parse strng
          else
            q ← mkcl_parse_integer strng s e r;
            match q with
            | (None, ep) => if junk then mret (ONil, MKCL_MAKE_FIXNUM ep) else cannot_parse strng
            | (Some x, ep) =>
                if junk then mret (x, MKCL_MAKE_FIXNUM ep)
                else
                  s ← skip_whitespace (Z.to_nat (e - ep)) strng ep;
                  if s <? e then cannot_parse strng else mret (x, MKCL_MAKE_FIXNUM e)
            end
    | _ => raise (FEerror "~S is an illegal radix." [radix])
    end.
End reader.
