(* ===== verification/NumPrint.v ===== *)
(** * NumPrint: the characters of numbers, src/src/c/print.c

    What the printer writes for integers and ratios, as the list of the characters that
    it sends to the stream.  The special variables of the printer are the interface
    [PrinterVars]. *)

From S2P Require Import Prelude Words Objects Heap Numbers Equal Lists NumPred Arith NumComp NumCo NumLog.
From S2P Require Import Sequences Chars Strings.
#[local] Open Scope Z_scope.

Class PrinterVars := {
  print_base : obj;
  print_radix : obj;
}.

(** ** Fixnums *)

(** The characters of the digits, the lowest first, at most [n]. *)
Fixpoint digit_chars (n : nat) (i base : Z) : list Z :=
  match n with
  | O => []
  | S n =>
      mkcl_digit_char (i mod base) base ::
      (if 0 <? i / base then digit_chars n (i / base) base else [])
  end.

(** There are at most as many digits as bits in a word. *)
Definition write_positive_fixnum (i base len : Z) : list Z :=
  let digits := if i =? 0 then [48] else digit_chars (Z.to_nat MKCL_WORD_BITS) i base in
  replicate (Z.to_nat (len - Z.of_nat (length digits))) 48 ++ reverse digits.

(** [#b], [#o], [#x], [#nr] or [#nnr] *)
Definition write_base (base : Z) : list Z :=
  if base =? 2 then [35; 98]
  else if base =? 8 then [35; 111]
  else if base =? 16 then [35; 120]
  else if 10 <=? base then [35; base / 10 + 48; base mod 10 + 48; 114]
  else [35; base + 48; 114].

Section printer.
Context `{!GMP, !GMPArith, !ToDouble, !Transcendental} (fuel : nat).

(** ** Bignums

    The powers of the base by squaring, with their numbers of digits: the list goes
    down from the one that the pointer [powers] is at. *)

Fixpoint do_write_integer (base : Z) (x : obj) (powers : list (obj * Z)) (len : Z) : M (list Z) :=
  match powers with
  | [] => raise Segfault
  | (number, n_digits) :: lower =>
      match x with
      | OFix n => mret (write_positive_fixnum n base len)
      | _ =>
          c ← mkcl_number_compare fuel x number;
          if c <? 0 then
            rest ← do_write_integer base x lower len;
            mret ((if len =? 0 then [] else write_positive_fixnum 0 base len) ++ rest)
          else
            p ← mkcl_floor2 fuel x number;
            let '(quotient, x) := (p : obj * obj) in
            let len := if len =? 0 then 0 else uwrap (len - n_digits) in
            high ← do_write_integer base quotient lower len;
            low ← do_write_integer base x lower n_digits;
            mret (high ++ low)
      end
  end.

(** [n] more powers, above those of [powers]. *)
Fixpoint more_powers (n : nat) (p : obj) (n_digits : Z) (powers : list (obj * Z)) : M (list (obj * Z)) :=
  match n with
  | O => mret powers
  | S n =>
      p ← mkcl_times fuel p p;
      let n_digits := 2 * n_digits in
      more_powers n p n_digits ((p, n_digits) :: powers)
  end.

Definition write_bignum (base z : Z) (x : obj) : M (list Z) :=
  let str_size := mpz_sizeinbase z base in
  let num_powers := mkcl_word_bit_length (str_size - 1) in
  let p := MKCL_MAKE_FIXNUM base in
  powers ← more_powers (Z.to_nat (num_powers - 1)) p 1 [(p, 1)];
  minus ← mkcl_minusp x;
  x ← (if (minus : bool) then mkcl_negate x else mret x);
  out ← do_write_integer base x powers 0;
  mret ((if (minus : bool) then [45] else []) ++ out).

(** ** Rational numbers, [mk_si_write_ugly_object] *)

Definition write_fixnum (base n : Z) : list Z :=
  if n =? 0 then [48]
  else if n <? 0 then 45 :: write_positive_fixnum (- n) base 0
  else write_positive_fixnum n base 0.

Section variables.
Context `{!PrinterVars}.

Definition mkcl_print_base : M Z :=
  match print_base with
  | OFix base =>
      if (base <? 2) || (36 <? base) then raise (FEerror "~S is an illegal PRINT-BASE." [print_base])
      else mret base
  | x => raise (FEerror "~S is an illegal PRINT-BASE." [x])
  end.

(** [radix] is whether [*PRINT-RADIX*] is true, which a ratio binds to NIL. *)
Definition write_integer (radix : bool) (x : obj) : M (list Z) :=
  base ← mkcl_print_base;
  out ← match x with
        | OFix n => mret (write_fixnum base n)
        | OBig _ z => write_bignum base z x
        | _ => raise Segfault
        end;
  mret ((if radix && negb (base =? 10) then write_base base else []) ++ out
        ++ (if radix && (base =? 10) then [46] else [])).

Definition mkcl_print_radix : bool := negb (mkcl_Null print_radix).

Definition write_rational (x : obj) : M (list Z) :=
  match x with
  | ORatio _ num den =>
      prefix ← (if mkcl_print_radix then base ← mkcl_print_base; mret (write_base base) else mret []);
      n ← write_integer false num;
      d ← write_integer false den;
      mret (prefix ++ n ++ [47] ++ d)
  | _ => write_integer mkcl_print_radix x
  end.
End variables.
End printer.

(** ** Potential numbers

    A symbol whose name could be read as a number is written with escapes. *)

Section potential.
Context `{!Vectors}.

(** From [i], with [n] characters left: whether all may be in a number, and whether one
    of them is a digit. *)
Fixpoint number_chars (n : nat) (strng : obj) (base i : Z) (saw_a_digit : bool) : M bool :=
  match n with
  | O => mret saw_a_digit
  | S n =>
      c ← mkcl_char strng i;
      d ← checked (mkcl_digitp c base);
      if 0 <=? d then number_chars n strng base (i + 1) true
      else if (c =? 43) || (c =? 45) || (c =? 47) || (c =? 46) || (c =? 94) || (c =? 95) then
        number_chars n strng base (i + 1) saw_a_digit
      else
        alpha ← checked (mkcl_alpha_char_p c);
        if negb alpha then mret false
        else
          next ← (if n is O then mret false
                  else c ← mkcl_char strng (i + 1); checked (mkcl_alpha_char_p c));
          if (next : bool) then mret false else number_chars n strng base (i + 1) saw_a_digit
  end.

Definition potential_number_p (strng : obj) (base : Z) : M bool :=
  l ← fillp strng;
  if l =? 0 then mret false
  else
    c ← mkcl_char strng 0;
    d ← checked (mkcl_digitp c base);
    let saw_a_digit := 0 <=? d in
    if negb saw_a_digit
       && negb ((c =? 43) || (c =? 45) || (c =? 94) || (c =? 95) || (c =? 46)) then mret false
    else
      c ← mkcl_char strng (l - 1);
      if (c =? 43) || (c =? 45) then mret false
      else number_chars (Z.to_nat (l - 1)) strng base 1 saw_a_digit.
End potential.
