(* ===== verification/NumReadSpecs.v ===== *)
(** * NumReadSpecs: the characters of numbers

    The value of a sequence of digits, and what the printer writes; which numbers the
    reader makes of which characters: the parser on integers, ratios and decimal integers
    in any radix, tokens that it takes for numbers by mistake, and what is read back of
    what was printed. *)

From S2P Require Import Prelude Words Objects Heap Numbers Floats Equal Lists NumPred Arith NumComp NumCo NumLog ToFloat.
From S2P Require Import ArithSpecs NumCompSpecs NumCoSpecs Sequences Chars CharSpecs Strings NumRead NumPrint.
#[local] Open Scope Z_scope.

(** ** Digits *)

(** The value, after that of the digits before. *)
Definition push_digits (r acc : Z) (ds : list Z) : Z := foldl (λ acc d, acc * r + d) acc ds.
Definition value (r : Z) (ds : list Z) : Z := push_digits r 0 ds.

Definition digits_below (r : Z) (ds : list Z) : Prop := Forall (λ d, 0 <= d < r) ds.
Definition chars_of_digits (r : Z) (ds : list Z) : list Z := (λ d, mkcl_digit_char d r) <$> ds.

Lemma push_digits_app r acc ds1 ds2 : push_digits r acc (ds1 ++ ds2) = push_digits r (push_digits r acc ds1) ds2.
Proof. apply foldl_app. Qed.

Lemma push_digits_eq r acc ds : push_digits r acc ds = acc * r ^ Z.of_nat (length ds) + value r ds.
Proof.
  revert acc. unfold value. induction ds as [|d ds IH] using rev_ind; intros acc; [simpl; lia|].
  rewrite !push_digits_app, length_app, Nat2Z.inj_add. simpl. rewrite IH.
  rewrite Z.pow_add_r, Z.pow_1_r by lia. fold (value r ds). lia.
Qed.

Lemma value_app r ds1 ds2 : value r (ds1 ++ ds2) = value r ds1 * r ^ Z.of_nat (length ds2) + value r ds2.
Proof. unfold value. by rewrite push_digits_app, push_digits_eq. Qed.

Lemma value_single r d : value r [d] = d.
Proof. done. Qed.

Lemma value_zeros r n : value r (replicate n 0) = 0.
Proof.
  induction n as [|n IH]; [done|]. rewrite replicate_S_end, value_app, IH. done.
Qed.

Lemma value_nonneg r ds : 0 <= r → digits_below r ds → 0 <= value r ds.
Proof.
  intros Hr Hds. induction ds as [|d ds IH] using rev_ind; [done|].
  apply Forall_app in Hds as [Hds [Hd _]%Forall_cons]. rewrite value_app, value_single.
  specialize (IH Hds). change (Z.of_nat (length [d])) with 1.
  rewrite Z.pow_1_r. nia.
Qed.

(** The characters [l] are those of digits of value [z]. *)
Definition denotes (r : Z) (l : list Z) (z : Z) : Prop :=
  ∃ ds, l = chars_of_digits r ds ∧ digits_below r ds ∧ ds ≠ [] ∧ value r ds = z.

Lemma denotes_app r l1 l2 z1 z2 :
  denotes r l1 z1 → denotes r l2 z2 → denotes r (l1 ++ l2) (z1 * r ^ Z.of_nat (length l2) + z2).
Proof.
  intros (ds1 & -> & H1 & Hn & <-) (ds2 & -> & H2 & _ & <-). exists (ds1 ++ ds2). split_and!.
  - unfold chars_of_digits. by rewrite fmap_app.
  - by apply Forall_app.
  - by destruct ds1.
  - unfold chars_of_digits. by rewrite length_fmap, value_app.
Qed.

(** ** Fixnums *)

Section fixnums.
Context (base : Z) (Hbase : 2 <= base <= 36).

Lemma digit_chars_spec n i :
  0 < i < base ^ Z.of_nat n →
  ∃ ds, digit_chars n i base = reverse (chars_of_digits base ds) ∧ digits_below base ds ∧ ds ≠ [] ∧
    value base ds = i ∧ ∀ m, i < base ^ Z.of_nat m → (length ds <= m)%nat.
Proof.
  revert i. induction n as [|n IH]; intros i Hi; [simpl in Hi; lia|]. cbn [digit_chars].
  pose proof (Z.div_mod i base ltac:(lia)) as Hdm. pose proof (Z.mod_pos_bound i base ltac:(lia)) as Hm.
  rewrite Nat2Z.inj_succ, Z.pow_succ_r in Hi by lia.
  destruct (Z.ltb_spec 0 (i / base)) as [Hpos|Hzero].
  - destruct (IH (i / base)) as (ds & E & Hds & Hne & Hv & Hlen); [split; [done|apply Z.div_lt_upper_bound; lia]|].
    exists (ds ++ [i mod base]). split_and!.
    + rewrite E. unfold chars_of_digits. rewrite fmap_app, reverse_app. done.
    + apply Forall_app. split; [done|]. by apply Forall_singleton.
    + by destruct ds.
    + rewrite value_app, Hv, value_single. change (Z.of_nat (length [i mod base])) with 1.
      rewrite Z.pow_1_r. lia.
    + intros [|m] Hm'; [simpl in Hm'; lia|]. rewrite length_app. simpl.
      rewrite Nat2Z.inj_succ, Z.pow_succ_r in Hm' by lia.
      assert (length ds <= m)%nat; [|lia]. apply Hlen. apply Z.div_lt_upper_bound; lia.
  - assert (i / base = 0) by (pose proof (Z.div_pos i base); lia).
    exists [i mod base]. split_and!; [done|by apply Forall_singleton|done|rewrite value_single; lia|].
    intros [|m] Hm'; [simpl in Hm'; lia|]. simpl. lia.
Qed.

Lemma pow_word_digits i : 0 <= i < word_modulus → i < base ^ 64.
Proof.
  intros Hi. apply Z.lt_le_trans with (2 ^ 64); [apply Hi|]. apply Z.pow_le_mono_l. lia.
Qed.

(** The digits of a number, padded with zeros if they are too few. *)
Lemma write_positive_fixnum_spec i len :
  0 <= i < word_modulus →
  denotes base (write_positive_fixnum i base len) i ∧
  (0 < len → i < base ^ len → Z.of_nat (length (write_positive_fixnum i base len)) = len).
Proof.
  intros Hi. unfold write_positive_fixnum.
  assert (∃ ds, (if i =? 0 then [48] else digit_chars (Z.to_nat MKCL_WORD_BITS) i base)
      = reverse (chars_of_digits base ds) ∧ digits_below base ds ∧ ds ≠ [] ∧ value base ds = i ∧
      ∀ m, (0 < m)%nat → i < base ^ Z.of_nat m → (length ds <= m)%nat) as (ds & -> & Hds & Hne & Hv & Hlen).
  { destruct (Z.eqb_spec i 0) as [->|Hi0].
    - exists [0]. split_and!; [|apply Forall_singleton; lia|done|done|intros; simpl; lia].
      unfold chars_of_digits. simpl. rewrite digit_char_eq by lia. done.
    - destruct (digit_chars_spec (Z.to_nat MKCL_WORD_BITS) i) as (ds & E & H1 & H2 & H3 & H4).
      { split; [lia|]. by apply pow_word_digits. }
      exists ds. split_and!; [done..|]. intros m _. apply H4. }
  rewrite reverse_involutive, length_reverse. set (pad := Z.to_nat (len - _)). split.
  - exists (replicate pad 0 ++ ds). split_and!.
    + unfold chars_of_digits. rewrite fmap_app, fmap_replicate. f_equal. f_equal. rewrite digit_char_eq by lia. done.
    + apply Forall_app. split; [|done]. apply Forall_replicate. lia.
    + by destruct pad, ds.
    + rewrite value_app, value_zeros. lia.
  - intros Hlen' Hp. rewrite length_app, length_replicate. unfold pad, chars_of_digits. rewrite length_fmap.
    specialize (Hlen (Z.to_nat len)). rewrite Z2Nat.id in Hlen by lia. specialize (Hlen ltac:(lia) Hp). lia.
Qed.
End fixnums.

(** ** Bignums *)

Section bignums.
Context `{!GMP, !GMPSpec, !GMPArith, !GMPArithSpec, !GMPText, !GMPTextSpec, !ToDouble, !Transcendental}.
Context (base : Z) (Hbase : 2 <= base <= 36).

(** The power at level [k], with [2 ^ k] digits. *)
Definition power (k : Z) : Z := base ^ 2 ^ k.

Lemma power_0 : power 0 = base.
Proof. apply Z.pow_1_r. Qed.

Lemma power_succ k : 0 <= k → power (k + 1) = power k * power k.
Proof.
  intros Hk. unfold power. rewrite Z.pow_add_r, Z.pow_1_r by lia.
  rewrite (Z.mul_comm (2 ^ k) 2). rewrite <- Z.add_diag, Z.pow_add_r by (apply Z.pow_nonneg; lia). done.
Qed.

Lemma power_pos k : 0 < power k.
Proof. apply Z.pow_pos_nonneg; [lia|]. apply Z.pow_nonneg. lia. Qed.

Lemma power_le j k : j <= k → power j <= power k.
Proof. intros Hjk. apply Z.pow_le_mono_r; [lia|]. apply Z.pow_le_mono_r; lia. Qed.

(** The powers from level [k] down. *)
Fixpoint levels (k : nat) (powers : list (obj * Z)) {struct powers} : Prop :=
  match powers with
  | (p, n) :: lower =>
      is_int p (power (Z.of_nat k)) ∧ n = 2 ^ Z.of_nat k ∧
      match k with O => lower = [] | S k => levels k lower end
  | [] => False
  end.

Lemma is_int_not_fix x z : is_int x z → ¬ is_fixnum z → ∃ a, x = OBig a z.
Proof.
  intros Hx Hz. destruct (is_int_cases _ _ Hx) as [(n & ->)|(a & w & ->)].
  - apply is_int_fix_eq in Hx as [-> ?]. done.
  - apply is_int_big_eq in Hx as [-> _]. eauto.
Qed.

Lemma floor_nat n x y zx zy h :
  is_int x zx → is_int y zy → 0 <= zx → 0 < zy →
  gives (λ p, is_int p.1 (zx / zy) ∧ is_int p.2 (zx mod zy)) (mkcl_floor2 (S n) x y) h.
Proof.
  intros Hx Hy Hzx Hzy. eapply gives_mono.
  - apply (floor_ints n x y zx zy h Hx Hy); [lia|]. intros [? ?]. lia.
  - intros [q r] [Hq Hr]. rewrite qfloor_frac in Hq, Hr by lia. split; [done|].
    apply is_rat_int_inv. replace (zx mod zy) with (zx - zy * (zx / zy)) by (rewrite Z.mod_eq; lia). exact Hr.
Qed.

Lemma fixnum_below_power : power 1 <= MKCL_MOST_POSITIVE_FIXNUM.
Proof.
  change 1 with (0 + 1). rewrite power_succ, power_0 by lia.
  unfold MKCL_MOST_POSITIVE_FIXNUM. assert (base * base <= 36 * 36) by nia. lia.
Qed.

(** A step at level [k]: the quotient and the remainder are below the power. *)
Lemma division_step k z : 0 <= z < power (Z.of_nat (S k)) →
  0 <= z / power (Z.of_nat k) < power (Z.of_nat k) ∧ 0 <= z mod power (Z.of_nat k) < power (Z.of_nat k).
Proof.
  intros Hz. pose proof (power_pos (Z.of_nat k)). split; [|apply Z.mod_pos_bound; lia].
  split; [apply Z.div_pos; lia|]. apply Z.div_lt_upper_bound; [lia|].
  rewrite Nat2Z.inj_succ, <- Z.add_1_r, power_succ in Hz by lia. lia.
Qed.

(** With padding, a bignum is not below the power of its level: no zeros are added. *)
Lemma write_padded n k powers x z h :
  levels k powers → is_int x z → 0 <= z < power (Z.of_nat (S k)) →
  power (Z.of_nat k) <= 2 ^ 61 → 2 ^ (Z.of_nat (S k)) < word_modulus →
  gives (λ l, denotes base l z ∧ Z.of_nat (length l) = 2 ^ (Z.of_nat (S k)))
    (do_write_integer (S n) base x powers (2 ^ Z.of_nat (S k))) h.
Proof.
  revert powers x z h. induction k as [|k IH]; intros [|[p nd] lower] x z h Hl Hx Hz Hp Hw; try done.
  all: destruct Hl as (Hpi & -> & Hlower); cbn [do_write_integer].
  all: destruct (decide (is_fixnum z)) as [Hfix|Hbig].
  1, 3: rewrite (is_int_fix_inv _ _ Hx Hfix); apply gives_ret;
    match goal with |- context [write_positive_fixnum _ _ ?len] =>
      destruct (write_positive_fixnum_spec base Hbase z len) as [Hd Hlen]
    end;
    [unfold_words; lia| split; [exact Hd|apply Hlen; [apply Z.pow_pos_nonneg; lia|apply Hz]]].
  - exfalso. apply Hbig. pose proof fixnum_below_power. change (Z.of_nat 1) with 1 in Hz. unfold_words. lia.
  - destruct (is_int_not_fix _ _ Hx Hbig) as [a ->].
    assert (2 ^ 61 <= z) by (unfold_words; lia).
    eapply gives_bind; [apply (compare_ints n _ _ _ _ h Hx Hpi)|]. intros c h1 Hc Hs1. cbv beta in Hc.
    assert (0 <= c) by (apply Z.sgn_nonneg; rewrite Hc; apply Z.sgn_nonneg; lia).
    rewrite (proj2 (Z.ltb_ge c 0)) by lia.
    eapply gives_bind; [apply (floor_nat n _ _ _ _ h1 Hx Hpi); [lia|apply power_pos]|].
    intros [q r] h2 [Hq Hr] Hs2. simpl in Hq, Hr.
    destruct (division_step (S k) z Hz) as [Hqb Hrb].
    assert (power (Z.of_nat k) <= 2 ^ 61) as Hpk.
    { etrans; [|exact Hp]. apply power_le. lia. }
    assert (2 ^ Z.of_nat (S (S k)) = 2 * 2 ^ Z.of_nat (S k)) as E2.
    { rewrite (Nat2Z.inj_succ (S k)), Z.pow_succ_r by lia. done. }
    pose proof (Z.pow_pos_nonneg 2 (Z.of_nat (S k)) ltac:(lia) ltac:(lia)).
    rewrite (proj2 (Z.eqb_neq (2 ^ Z.of_nat (S (S k))) 0)) by lia.
    rewrite uwrap_small by (unfold is_index; lia).
    replace (2 ^ Z.of_nat (S (S k)) - 2 ^ Z.of_nat (S k)) with (2 ^ Z.of_nat (S k)) by lia.
    eapply gives_bind; [apply (IH lower q _ h2 Hlower Hq Hqb Hpk ltac:(lia))|]. intros l1 h3 [Hd1 Hn1] Hs3.
    eapply gives_bind; [apply (IH lower r _ h3 Hlower Hr Hrb Hpk ltac:(lia))|]. intros l2 h4 [Hd2 Hn2] Hs4.
    apply gives_ret. split.
    + pose proof (denotes_app _ _ _ _ _ Hd1 Hd2) as Hd. rewrite Hn2 in Hd.
      replace z with (z / power (Z.of_nat (S k)) * base ^ 2 ^ Z.of_nat (S k) + z mod power (Z.of_nat (S k))); [done|].
      pose proof (power_pos (Z.of_nat (S k))). pose proof (Z.div_mod z (power (Z.of_nat (S k)))).
      unfold power in *. lia.
    + rewrite length_app. lia.
Qed.

(** Below the square of the square of a power that is at most 2^61. *)
Definition exact_range (z : Z) : Prop := ∃ m, 0 <= m ∧ power m <= 2 ^ 61 ∧ Z.abs z < power (m + 2).

Lemma write_unpadded n k powers x z h :
  levels k powers → is_int x z → 0 <= z < power (Z.of_nat (S k)) → exact_range z →
  gives (λ l, denotes base l z) (do_write_integer (S n) base x powers 0) h.
Proof.
  revert powers x z h. induction k as [|k IH]; intros [|[p nd] lower] x z h Hl Hx Hz Hr; try done.
  all: destruct Hl as (Hpi & -> & Hlower); cbn [do_write_integer].
  all: destruct (decide (is_fixnum z)) as [Hfix|Hbig].
  1, 3: rewrite (is_int_fix_inv _ _ Hx Hfix); apply gives_ret; apply write_positive_fixnum_spec; unfold_words; lia.
  - exfalso. apply Hbig. pose proof fixnum_below_power. change (Z.of_nat 1) with 1 in Hz. unfold_words. lia.
  - destruct (is_int_not_fix _ _ Hx Hbig) as [a ->].
    eapply gives_bind; [apply (compare_ints n _ _ _ _ h Hx Hpi)|]. intros c h1 Hc Hs1. cbv beta in Hc.
    destruct (Z.ltb_spec c 0) as [Hneg|Hpos].
    { eapply gives_bind; [apply (IH lower _ z h1 Hlower Hx); [|done]|].
      { split; [lia|]. apply Z.sgn_neg in Hneg. rewrite Hneg in Hc. symmetry in Hc. apply Z.sgn_neg_iff in Hc. lia. }
      intros l h2 Hl Hs2. by apply gives_ret. }
    assert (power (Z.of_nat (S k)) <= z) as Hge.
    { apply Z.sgn_nonneg in Hpos. rewrite Hc in Hpos. apply Z.sgn_nonneg in Hpos. lia. }
    pose proof (power_pos (Z.of_nat (S k))) as Hpp.
    eapply gives_bind; [apply (floor_nat n _ _ _ _ h1 Hx Hpi); [lia|done]|].
    intros [q r] h2 [Hq Hr'] Hs2. simpl in Hq, Hr'.
    destruct (division_step (S k) z Hz) as [Hqb Hrb].
    destruct Hr as (m & Hm & Hpm & Hzm). rewrite Z.abs_eq in Hzm by lia.
    assert (Z.of_nat (S k) < m + 2) as Hkm.
    { destruct (Z.lt_ge_cases (Z.of_nat (S k)) (m + 2)) as [|Hle]; [done|].
      apply power_le in Hle. lia. }
    assert (power (Z.of_nat k) <= 2 ^ 61) as Hpk by (etrans; [|exact Hpm]; apply power_le; lia).
    assert (2 ^ Z.of_nat (S k) < word_modulus) as Hw.
    { assert (Z.of_nat k < 61); [|unfold word_modulus; apply Z.pow_lt_mono_r; lia].
      assert (2 ^ Z.of_nat k <= 61).
      { apply (Z.pow_le_mono_r_iff 2); [lia..|]. etrans; [|exact Hpk]. apply Z.pow_le_mono_l. lia. }
      pose proof (Z.pow_gt_lin_r 2 (Z.of_nat k)). lia. }
    eapply gives_bind.
    { apply (IH lower q _ h2 Hlower Hq Hqb). exists m. split_and!; [done..|].
      rewrite Z.abs_eq by lia. apply Z.le_lt_trans with z; [|done]. apply Z.div_le_upper_bound; [lia|]. nia. }
    intros l1 h3 Hd1 Hs3.
    eapply gives_bind; [apply (write_padded n k lower r _ h3 Hlower Hr' Hrb Hpk Hw)|].
    intros l2 h4 [Hd2 Hn2] Hs4. apply gives_ret.
    pose proof (denotes_app _ _ _ _ _ Hd1 Hd2) as Hd. rewrite Hn2 in Hd.
    replace z with (z / power (Z.of_nat (S k)) * base ^ 2 ^ Z.of_nat (S k) + z mod power (Z.of_nat (S k))); [done|].
    pose proof (Z.div_mod z (power (Z.of_nat (S k)))). unfold power in *. lia.
Qed.

Lemma more_powers_spec n j k p powers h :
  levels k ((p, 2 ^ Z.of_nat k) :: powers) →
  gives (levels (k + j)) (more_powers (S n) j p (2 ^ Z.of_nat k) ((p, 2 ^ Z.of_nat k) :: powers)) h.
Proof.
  revert k p powers h. induction j as [|j IH]; intros k p powers h Hl; cbn [more_powers].
  - apply gives_ret. by rewrite Nat.add_0_r.
  - pose proof Hl as (Hp & _ & _). eapply gives_int_bind; [apply (times_int n p p _ _ h Hp Hp)|].
    intros p' h1 Hp' Hs. cbv zeta. replace (2 * 2 ^ Z.of_nat k) with (2 ^ Z.of_nat (S k)).
    2:{ rewrite Nat2Z.inj_succ, Z.pow_succ_r by lia. done. }
    replace (k + S j)%nat with (S k + j)%nat by lia. apply IH. split; [|done].
    rewrite Nat2Z.inj_succ, <- Z.add_1_r, power_succ by lia. done.
Qed.

Lemma word_bit_length_pos i : 0 < i < 2 ^ 64 → mkcl_word_bit_length i = Z.log2 i + 1.
Proof.
  intros Hi. unfold mkcl_word_bit_length. rewrite (proj2 (Z.ltb_ge i 0)) by lia.
  rewrite word_bit_length_loop_spec by (change (Z.of_nat (Z.to_nat MKCL_WORD_BITS)) with 64; lia). by rewrite (proj2 (Z.eqb_neq i 0)) by lia.
Qed.

(** A bignum is written as its magnitude by the powers up to one that is enough.  Its
    number of digits is counted in a word. *)
Lemma write_bignum_by (P : list Z → Prop) n a z e h :
  ¬ is_fixnum z → 0 <= e <= 63 → Z.abs z < power e →
  (∀ K powers x h, levels K powers → is_int x (Z.abs z) → Z.abs z < power (Z.of_nat (S K)) →
    gives P (do_write_integer (S n) base x powers 0) h) →
  gives (λ l, ∃ l', l = (if z <? 0 then 45 :: l' else l') ∧ P l') (write_bignum (S n) base z (OBig a z)) h.
Proof.
  intros Hbig He Hze HP. unfold write_bignum.
  destruct (mpz_sizeinbase_eq z base) as (s & Hs & [Hl Hu] & Hsize); [done|by intros ->; apply Hbig|].
  set (str_size := mpz_sizeinbase z base) in *.
  assert (1 < s) as Hs1.
  { destruct (decide (s = 1)) as [->|]; [|lia]. exfalso. apply Hbig. rewrite Z.pow_1_r in Hu. unfold_words. lia. }
  assert (str_size - 1 < 2 ^ 64) as Hw.
  { assert (s - 1 < 2 ^ e).
    { apply (Z.pow_lt_mono_r_iff base); [lia|apply Z.pow_nonneg; lia|]. unfold power in Hze. lia. }
    assert (2 ^ e <= 2 ^ 63) by (apply Z.pow_le_mono_r; lia). lia. }
  rewrite (word_bit_length_pos (str_size - 1)) by lia.
  rewrite Z.add_simpl_r. set (K := Z.to_nat (Z.log2 (str_size - 1))).
  assert (Z.abs z < power (Z.of_nat (S K))) as HzK.
  { eapply Z.lt_le_trans; [exact Hu|]. apply Z.pow_le_mono_r; [lia|].
    unfold K. rewrite Nat2Z.inj_succ, Z2Nat.id by apply Z.log2_nonneg.
    pose proof (Z.log2_spec (str_size - 1)). lia. }
  assert (MKCL_MAKE_FIXNUM base = OFix base) as Hb.
  { unfold MKCL_MAKE_FIXNUM. rewrite fixnum_wrap_small; [done|unfold_words; lia]. }
  eapply gives_bind; [apply (more_powers_spec n K 0 (MKCL_MAKE_FIXNUM base) [] h)|].
  { split; [|done]. rewrite Hb. change (power (Z.of_nat 0)) with (power 0). rewrite power_0. apply is_int_fix. unfold_words. lia. }
  simpl plus. intros powers h1 Hlev Hs2.
  assert (is_int (OBig a z) z) as Hx by done.
  eapply gives_bind_Done; [by apply minusp_spec|]. destruct (Z.ltb_spec z 0) as [Hneg|Hpos].
  - eapply gives_int_bind; [by apply negate_int|]. intros x' h2 Hx' Hs3. rewrite Z.abs_neq in * by lia.
    eapply gives_bind; [by apply (HP K powers)|]. intros l h3 Hd Hs4. apply gives_ret. by exists l.
  - eapply gives_bind_Done; [reflexivity|]. rewrite Z.abs_eq in * by lia.
    eapply gives_bind; [by apply (HP K powers)|]. intros l h3 Hd Hs4. apply gives_ret. by exists l.
Qed.

(** The decimal of a bignum in range, with its sign. *)
Lemma write_bignum_spec n a z h :
  ¬ is_fixnum z → exact_range z →
  gives (λ l, ∃ l', l = (if z <? 0 then 45 :: l' else l') ∧ denotes base l' (Z.abs z)) (write_bignum (S n) base z (OBig a z)) h.
Proof.
  intros Hbig (m & Hm & Hpm & Hzm). assert (2 ^ m <= 61).
  { apply (Z.pow_le_mono_r_iff 2); [lia..|]. etrans; [|exact Hpm]. apply Z.pow_le_mono_l. lia. }
  apply (write_bignum_by (λ l, denotes base l (Z.abs z)) n a z (m + 2)); [done| |done|].
  - pose proof (Z.pow_gt_lin_r 2 m). lia.
  - intros K powers x h' Hlev Hx HzK. apply (write_unpadded n K); [done|done|lia|]. exists m. by rewrite Z.abs_idemp.
Qed.

(** ** Zeros that are written too often *)

Lemma zeros_written len : 0 < len → write_positive_fixnum 0 base len = replicate (Z.to_nat len) 48.
Proof.
  intros Hlen. unfold write_positive_fixnum. change (0 =? 0) with true. cbv iota. change (reverse [48]) with [48].
  change [48] with (replicate 1 48). rewrite <- replicate_add, length_replicate. f_equal. lia.
Qed.

(** A bignum below the square of a power that a fixnum can hold fills its width. *)
Lemma write_wide n k powers x z len h :
  levels k powers → is_int x z → ¬ is_fixnum z → 0 <= z < power (Z.of_nat (S k)) →
  power (Z.of_nat k) <= 2 ^ 61 → 2 ^ Z.of_nat (S k) <= len < word_modulus →
  gives (λ l, denotes base l z ∧ Z.of_nat (length l) = len) (do_write_integer (S n) base x powers len) h.
Proof.
  intros Hl Hx Hbig Hz Hp Hlen. destruct (is_int_not_fix _ _ Hx Hbig) as [a ->]. assert (2 ^ 61 <= z) by (unfold_words; lia).
  destruct powers as [|[p nd] lower]; [done|]. destruct Hl as (Hpi & -> & Hlower).
  destruct k as [|k].
  { exfalso. pose proof fixnum_below_power. change (Z.of_nat 1) with 1 in Hz. unfold_words. lia. }
  cbn [do_write_integer].
  eapply gives_bind; [apply (compare_ints n _ _ _ _ h Hx Hpi)|]. intros c h1 Hc Hs1. cbv beta in Hc.
  assert (0 <= c) by (apply Z.sgn_nonneg; rewrite Hc; apply Z.sgn_nonneg; lia).
  rewrite (proj2 (Z.ltb_ge c 0)) by lia.
  eapply gives_bind; [apply (floor_nat n _ _ _ _ h1 Hx Hpi); [lia|apply power_pos]|].
  intros [q r] h2 [Hq Hr] Hs2. simpl in Hq, Hr. destruct (division_step (S k) z Hz) as [Hqb Hrb].
  set (w := 2 ^ Z.of_nat (S k)) in *. assert (2 ^ Z.of_nat (S (S k)) = 2 * w) as Ew.
  { unfold w. rewrite (Nat2Z.inj_succ (S k)), Z.pow_succ_r by lia. done. }
  assert (0 < w) by (apply Z.pow_pos_nonneg; lia).
  rewrite (proj2 (Z.eqb_neq len 0)), uwrap_small by (unfold is_index; lia).
  destruct lower as [|[p2 nd2] lower]; [done|]. cbn [do_write_integer].
  rewrite (is_int_fix_inv _ _ Hq), (is_int_fix_inv _ _ Hr) by (unfold_words; lia).
  eapply gives_bind_Done; [reflexivity|]. eapply gives_bind_Done; [reflexivity|]. apply gives_ret.
  destruct (write_positive_fixnum_spec base Hbase (z / power (Z.of_nat (S k))) (len - w)) as [Hd1 Hn1]; [unfold_words; lia|].
  destruct (write_positive_fixnum_spec base Hbase (z mod power (Z.of_nat (S k))) w) as [Hd2 Hn2]; [unfold_words; lia|].
  specialize (Hn2 ltac:(lia) (proj2 Hrb)).
  assert (power (Z.of_nat (S k)) <= base ^ (len - w)) by (apply Z.pow_le_mono_r; lia).
  specialize (Hn1 ltac:(lia) ltac:(lia)). split; [|rewrite length_app; lia].
  pose proof (denotes_app _ _ _ _ _ Hd1 Hd2) as Hd. rewrite Hn2 in Hd. change (base ^ w) with (power (Z.of_nat (S k))) in Hd.
  pose proof (Z.div_mod z (power (Z.of_nat (S k))) ltac:(lia)).
  assert (z / power (Z.of_nat (S k)) * power (Z.of_nat (S k)) + z mod power (Z.of_nat (S k)) = z) as Ez by lia.
  by rewrite Ez in Hd.
Qed.

(** Each power that the number is below adds zeros for the whole width. *)
Lemma write_zeros n m j powers x z len h :
  levels (m + j) powers → is_int x z → ¬ is_fixnum z → 0 <= z < power (Z.of_nat (S m)) →
  power (Z.of_nat m) <= 2 ^ 61 → 2 ^ Z.of_nat (S m) <= len < word_modulus →
  gives (λ l, ∃ l', l = replicate (j * Z.to_nat len) 48 ++ l' ∧ denotes base l' z ∧ Z.of_nat (length l') = len)
    (do_write_integer (S n) base x powers len) h.
Proof.
  intros Hl Hx Hbig Hz Hp Hlen. revert powers h Hl. induction j as [|j IH]; intros powers h Hl.
  { rewrite Nat.add_0_r in Hl. eapply gives_mono; [by apply (write_wide n m)|]. intros l Hd. by exists l. }
  destruct (is_int_not_fix _ _ Hx Hbig) as [a ->]. replace (m + S j)%nat with (S (m + j)) in Hl by lia.
  destruct powers as [|[p nd] lower]; [done|]. destruct Hl as (Hpi & -> & Hlower). cbn [do_write_integer].
  eapply gives_bind; [apply (compare_ints n _ _ _ _ h Hx Hpi)|]. intros c h1 Hc Hs1. cbv beta in Hc.
  assert (power (Z.of_nat (S m)) <= power (Z.of_nat (S (m + j)))) by (apply power_le; lia).
  assert (c < 0) by (apply Z.sgn_neg_iff; rewrite Hc; apply Z.sgn_neg_iff; lia).
  rewrite (proj2 (Z.ltb_lt c 0)) by done. assert (0 < 2 ^ Z.of_nat (S m)) by (apply Z.pow_pos_nonneg; lia).
  rewrite (proj2 (Z.eqb_neq len 0)), zeros_written by lia.
  eapply gives_bind; [by apply IH|]. intros l h2 (l' & -> & Hd) _. apply gives_ret. exists l'. split; [|done].
  by rewrite app_assoc, <- replicate_add.
Qed.

(** What is written of [q] times a power, and a rest below several smaller powers. *)
Lemma write_misprinted n m j powers K x q r h :
  let k := (m + S j)%nat in
  levels K powers → is_int x (q * power (Z.of_nat k) + r) → q * power (Z.of_nat k) + r < power (Z.of_nat (S K)) →
  power (Z.of_nat m) <= 2 ^ 61 → (k <= 62)%nat → 0 < q < power (Z.of_nat k) → exact_range q →
  ¬ is_fixnum r → 0 <= r < power (Z.of_nat (S m)) →
  gives (λ l, ∃ lq lr, l = lq ++ replicate (j * 2 ^ k) 48 ++ lr ∧ denotes base lq q ∧ denotes base lr r ∧ length lr = (2 ^ k)%nat)
    (do_write_integer (S n) base x powers 0) h.
Proof.
  intros k Hl Hx HzK Hpm Hk Hq Hrange Hbig Hr. set (z := q * power (Z.of_nat k) + r) in *.
  assert (power (Z.of_nat (S m)) <= power (Z.of_nat k)) as Hmk by (apply power_le; lia).
  assert (power (Z.of_nat k) <= z) as Hkz by nia. assert (z < power (Z.of_nat (S k))) as Hzk.
  { rewrite Nat2Z.inj_succ, <- Z.add_1_r, power_succ by lia. nia. }
  assert (z = r + q * power (Z.of_nat k)) as Ez by (unfold z; lia).
  assert (z / power (Z.of_nat k) = q ∧ z mod power (Z.of_nat k) = r) as [Eq Er].
  { rewrite Ez, Z.div_add, Z_mod_plus_full, Z.div_small, Z.mod_small by lia. lia. }
  destruct (is_int_not_fix x z Hx) as [a ->]; [unfold_words; lia|].
  revert powers h Hl HzK. induction K as [|K IH]; intros [|[p nd] lower] h Hl HzK; try done.
  { exfalso. assert (power (Z.of_nat 1) <= power (Z.of_nat k)) by (apply power_le; lia). lia. }
  destruct Hl as (Hpi & -> & Hlower). cbn [do_write_integer].
  eapply gives_bind; [apply (compare_ints n _ _ _ _ h Hx Hpi)|]. intros c h1 Hc Hs1. cbv beta in Hc.
  destruct (Z.ltb_spec c 0) as [Hneg|Hpos].
  { eapply gives_bind; [apply (IH lower h1 Hlower)|intros l h2 Hd Hs2; by apply gives_ret].
    apply Z.sgn_neg in Hneg. rewrite Hneg in Hc. symmetry in Hc. apply Z.sgn_neg_iff in Hc. lia. }
  assert (power (Z.of_nat (S K)) <= z) as Hge.
  { apply Z.sgn_nonneg in Hpos. rewrite Hc in Hpos. apply Z.sgn_nonneg in Hpos. lia. }
  assert (k = S K) as EK.
  { destruct (lt_eq_lt_dec k (S K)) as [[Hlt|]|Hlt]; [exfalso|done|exfalso].
    - assert (power (Z.of_nat (S k)) <= power (Z.of_nat (S K))) by (apply power_le; lia). lia.
    - assert (power (Z.of_nat (S (S K))) <= power (Z.of_nat k)) by (apply power_le; lia). lia. }
  eapply gives_bind; [apply (floor_nat n _ _ _ _ h1 Hx Hpi); [lia|apply power_pos]|].
  rewrite <- EK, Eq, Er. intros [xq xr] h2 [Hxq Hxr] Hs2. simpl in Hxq, Hxr.
  eapply gives_bind; [apply (write_unpadded n K lower xq q h2 Hlower Hxq); [rewrite <- EK; lia|done]|]. intros lq h3 Hlq Hs3.
  assert (2 ^ Z.of_nat k <= 2 ^ 62) by (apply Z.pow_le_mono_r; lia).
  eapply gives_bind.
  { apply (write_zeros n m j lower xr r (2 ^ Z.of_nat k)); try done.
    - by replace (m + j)%nat with K by lia.
    - split; [apply Z.pow_le_mono_r; lia|unfold word_modulus; lia]. }
  intros lr h4 (l' & -> & Hd & Hn) _. apply gives_ret.
  assert (Z.to_nat (2 ^ Z.of_nat k) = (2 ^ k)%nat) as Ek by (rewrite <- (Nat2Z.inj_pow 2), Nat2Z.id; done).
  exists lq, l'. rewrite <- Ek. split_and!; [done|done|done|lia].
Qed.
End bignums.

(** ** What is read *)

(** A string with these characters, now and after allocations. *)
Definition is_text `{!Vectors} (str : obj) (l : list Z) (h : heap) : Prop :=
  ∀ h', h ⊆ h' → read_string str h' = Done l h' ∧
    ∃ dim, Z.of_nat (length l) <= dim ∧ array_dim str h' = Done dim h'.

Lemma is_text_mono `{!Vectors} str l h h' : is_text str l h → h ⊆ h' → is_text str l h'.
Proof. intros Ht Hs h2 Hs2. apply Ht. by etrans. Qed.

Lemma char_text `{!Vectors} str l h i c :
  is_text str l h → l !! i = Some c → mkcl_char str (Z.of_nat i) h = Done c h.
Proof.
  intros Ht Hc. destruct (Ht h (reflexivity h)) as (Hr & dim & Hdim & Ed). unfold mkcl_char.
  assert (MKCL_STRINGP str = true) as -> by (by destruct str).
  rewrite (bind_Done _ _ _ _ _ Ed). pose proof (lookup_lt_Some _ _ _ Hc).
  rewrite (proj2 (Z.leb_gt _ _)) by lia. rewrite (bind_Done _ _ _ _ _ Hr), Nat2Z.id, Hc. done.
Qed.

Lemma char_text_app `{!Vectors} str pre c l h i :
  is_text str (pre ++ c :: l) h → i = Z.of_nat (length pre) → mkcl_char str i h = Done c h.
Proof. intros Ht ->. eapply char_text; [exact Ht|]. by rewrite list_lookup_middle. Qed.

(** The characters are digits of these weights: letters in both cases, and the decimal
    digits of other scripts. *)
Definition digits_of (r : Z) (l ds : list Z) : Prop := Forall2 (λ c d, mkcl_digitp c r = Some d ∧ 0 <= d) l ds.

Lemma digits_of_chars r ds : 2 <= r <= 36 → digits_below r ds → digits_of r (chars_of_digits r ds) ds.
Proof.
  intros Hr. induction 1 as [|d ds Hd _ IH]; constructor; [|exact IH]. split; [|lia]. by apply digitp_digit_char.
Qed.

Lemma digit_not_mark c r d : mkcl_digitp c r = Some d → 0 <= d → 48 <= c.
Proof.
  unfold mkcl_digitp. destruct (Z.leb_spec 48 c); [done|]. simpl.
  rewrite (proj2 (Z.leb_gt 65 c)), (proj2 (Z.leb_gt 97 c)), (proj2 (Z.ltb_ge 255 c)) by lia. simpl. intros [= <-]. lia.
Qed.

(** A sign, and its value. *)
Definition sign_of (sg : list Z) (s : Z) : Prop := sg = [] ∧ s = 1 ∨ sg = [43] ∧ s = 1 ∨ sg = [45] ∧ s = -1.

Section reading.
Context `{!GMP, !GMPSpec, !GMPArith, !GMPArithSpec, !GMPText, !GMPTextSpec, !ToDouble, !Transcendental}.
Context `{!Vectors, !ReaderVars} (fuel : nat) (r : Z) (Hr : 2 <= r <= 36).

Lemma push_digit acc d : 0 <= d < r → mpz_add_ui (mpz_mul_ui acc r) d = acc * r + d.
Proof.
  intros Hd. rewrite mpz_mul_ui_eq, mpz_add_ui_eq; [done|..]; unfold is_index, word_modulus; lia.
Qed.

(** The digits end at the bound, [n] characters after them, or at another character. *)
Definition stops (post : list Z) (n : nat) : Prop :=
  n = 0%nat ∨ ∃ c post' d, post = c :: post' ∧ mkcl_digitp c r = Some d ∧ d < 0.

Lemma parse_digits_text str pre l post ds n acc h i :
  is_text str (pre ++ l ++ post) h → digits_of r l ds → stops post n → i = Z.of_nat (length pre) →
  parse_digits (length l + n) str i r acc h = Done (push_digits r acc ds, i + Z.of_nat (length l)) h.
Proof.
  intros Ht Hds Hn. revert pre acc i Ht. induction Hds as [|c d l ds [Hd Hd0] _ IH]; intros pre acc i Ht Hi; simpl.
  - rewrite Z.add_0_r. destruct Hn as [->|(c & post' & d & -> & Hd & Hneg)]; [done|]. destruct n as [|n]; [done|]. cbn [parse_digits].
    rewrite (bind_Done _ _ _ _ _ (char_text_app _ _ _ _ _ _ Ht Hi)), Hd. simpl. rewrite bind_ret.
    by rewrite (proj2 (Z.ltb_lt d 0)).
  - rewrite (bind_Done _ _ _ _ _ (char_text_app _ _ _ _ _ _ Ht Hi)), Hd. simpl. rewrite bind_ret.
    rewrite (proj2 (Z.ltb_ge d 0)) by lia. rewrite push_digit by (split; [done|by eapply digitp_below]).
    rewrite (IH (pre ++ [c])).
    + simpl. f_equal. f_equal. lia.
    + by rewrite <- app_assoc.
    + rewrite length_app. simpl. lia.
Qed.

(** An optional sign, digits, and what is left. *)
Lemma parse_integer_text str pre sg l post s ds e h start :
  is_text str (pre ++ sg ++ l ++ post) h → sign_of sg s → digits_of r l ds → ds ≠ [] →
  start = Z.of_nat (length pre) →
  (∃ n, e = Z.of_nat (length (pre ++ sg ++ l) + n) ∧ stops post n) →
  gives (λ p, p.2 = Z.of_nat (length (pre ++ sg ++ l)) ∧ ∃ x, p.1 = Some x ∧ is_int x (s * value r ds))
    (mkcl_parse_integer str start e r) h.
Proof.
  intros Ht Hsg Hds Hne -> (n & -> & Hn). rewrite !length_app. unfold mkcl_parse_integer.
  assert (0 < length l)%nat as Hl by (rewrite (Forall2_length _ _ _ Hds); destruct ds; [done|simpl; lia]).
  rewrite (proj2 (Z.leb_gt _ _)) by lia. unfold basep. rewrite (proj2 (Z.leb_le r 36)) by lia. cbn [negb orb].
  assert (∃ c rest, sg ++ l ++ post = c :: rest ∧
    (if c =? 43 then (1, Z.of_nat (length pre) + 1) else if c =? 45 then (-1, Z.of_nat (length pre) + 1) else (1, Z.of_nat (length pre)))
      = (s, Z.of_nat (length pre) + Z.of_nat (length sg))) as (c & rest & E & Es).
  { destruct Hsg as [[-> ->]|[[-> ->]|[-> ->]]]; [|eexists _, _; split; reflexivity..].
    inversion Hds as [|c d l' ds' [Hd Hd0] _ E1 E2]; subst; [done|]. eexists _, _. split; [reflexivity|].
    apply digit_not_mark in Hd; [|done]. simpl. rewrite Z.add_0_r.
    by rewrite (proj2 (Z.eqb_neq c 43)), (proj2 (Z.eqb_neq c 45)) by lia. }
  assert (mkcl_char str (Z.of_nat (length pre)) h = Done c h) as Ec.
  { rewrite E in Ht. by eapply char_text_app. }
  eapply gives_bind_Done; [exact Ec|]. rewrite Es.
  replace (Z.to_nat _) with (length l + n)%nat by lia.
  eapply gives_bind_Done.
  { eapply (parse_digits_text str (pre ++ sg)); [by rewrite <- app_assoc|done..|]. rewrite length_app. lia. }
  fold (value r ds). cbv beta iota. eapply gives_int_bind; [apply big_register_normalize_spec|]. intros x h' Hx Hs.
  apply gives_ret. simpl. split; [lia|]. rewrite (proj2 (Z.eqb_neq _ _)) by lia. exists x. split; [done|].
  replace (s * value r ds) with (if s <? 0 then mpz_neg (value r ds) else value r ds); [done|].
  rewrite mpz_neg_eq. destruct Hsg as [[_ ->]|[[_ ->]|[_ ->]]]; simpl; lia.
Qed.

(** ** The parser of numbers *)

Lemma scan_chars_digits str pre l post ds end_ n sign i decimal acc h :
  is_text str (pre ++ l ++ post) h → digits_of r l ds → i = Z.of_nat (length pre) →
  scan_chars fuel str end_ (length l + n) r sign i decimal acc h =
  scan_chars fuel str end_ n r sign (i + Z.of_nat (length l)) decimal (push_digits r acc ds) h.
Proof.
  intros Ht Hds. revert pre acc i Ht. induction Hds as [|c d l ds [Hd Hd0] _ IH]; intros pre acc i Ht Hi; simpl.
  - by rewrite Z.add_0_r.
  - rewrite (bind_Done _ _ _ _ _ (char_text_app _ _ _ _ _ _ Ht Hi)). pose proof (digit_not_mark _ _ _ Hd Hd0).
    rewrite (proj2 (Z.eqb_neq c 47)), (proj2 (Z.eqb_neq c 46)) by lia. rewrite Hd. simpl. rewrite bind_ret.
    rewrite (proj2 (Z.leb_le 0 d)) by lia. rewrite push_digit by (split; [done|by eapply digitp_below]).
    rewrite (IH (pre ++ [c])).
    + f_equal. lia.
    + by rewrite <- app_assoc.
    + rewrite length_app. simpl. lia.
Qed.

(** The sign and the digits at the start. *)
Lemma scan_number_start str sg l post s ds h :
  is_text str (sg ++ l ++ post) h → sign_of sg s → digits_of r l ds → ds ≠ [] →
  let end_ := Z.of_nat (length (sg ++ l ++ post)) in
  scan_number fuel str end_ 0 r h =
  scan_chars fuel str end_ (length post) r s (Z.of_nat (length (sg ++ l))) end_ (value r ds) h.
Proof.
  intros Ht Hsg Hds Hne end_. unfold scan_number.
  inversion Hds as [|c d l' ds' [Hd Hd0] Hds' E1 E2]; subst; [done|]. pose proof (digit_not_mark _ _ _ Hd Hd0).
  set (k := λ s i c, if c =? 47 then mret (Parsed None i) else
    scan_chars fuel str end_ (Z.to_nat (end_ - i)) r s i end_ 0).
  assert (k s (Z.of_nat (length sg)) c h = scan_chars fuel str end_ (length post) r s (Z.of_nat (length (sg ++ c :: l'))) end_ (value r (d :: ds')) h) as Hk.
  { unfold k. rewrite (proj2 (Z.eqb_neq c 47)) by lia. unfold end_. rewrite !length_app.
    replace (Z.to_nat _) with (length (c :: l') + length post)%nat by (simpl; lia).
    rewrite (scan_chars_digits str sg (c :: l') post (d :: ds')); [|done..]. fold (value r (d :: ds')). f_equal. lia. }
  destruct Hsg as [[-> ->]|[[-> ->]|[-> ->]]].
  - rewrite (bind_Done _ _ _ _ _ (char_text_app str [] c (l' ++ post) h 0 Ht eq_refl)).
    rewrite (proj2 (Z.eqb_neq c 43)), (proj2 (Z.eqb_neq c 45)) by lia. exact Hk.
  - rewrite (bind_Done _ _ _ _ _ (char_text_app str [] 43 (c :: l' ++ post) h 0 Ht eq_refl)). change (Z.eqb 43 43) with true. change (Z.eqb 45 43) with false. change (Z.eqb 45 45) with true. cbv iota.
    rewrite (proj2 (Z.eqb_neq (0 + 1) end_)) by (unfold end_; rewrite !length_app; simpl; lia).
    rewrite (bind_Done _ _ _ _ _ (char_text_app str [43] c (l' ++ post) h (0 + 1) Ht eq_refl)). exact Hk.
  - rewrite (bind_Done _ _ _ _ _ (char_text_app str [] 45 (c :: l' ++ post) h 0 Ht eq_refl)). change (Z.eqb 43 43) with true. change (Z.eqb 45 43) with false. change (Z.eqb 45 45) with true. cbv iota.
    rewrite (proj2 (Z.eqb_neq (0 + 1) end_)) by (unfold end_; rewrite !length_app; simpl; lia).
    rewrite (bind_Done _ _ _ _ _ (char_text_app str [45] c (l' ++ post) h (0 + 1) Ht eq_refl)). exact Hk.
Qed.

Lemma signed_value sg s z : sign_of sg s → (if s <? 0 then mpz_neg z else z) = s * z.
Proof. rewrite mpz_neg_eq. intros [[_ ->]|[[_ ->]|[_ ->]]]; cbn -[Z.mul]; lia. Qed.

(** The result of the parser when the first pass has one. *)
Lemma parse_number_scan str end_ P h :
  0 < end_ → gives (λ sc, ∃ x ep, sc = Parsed x ep ∧ P (x, ep)) (scan_number fuel str end_ 0 r) h →
  gives P (mkcl_parse_number fuel str 0 end_ r) h.
Proof.
  intros He Hsc. unfold mkcl_parse_number. rewrite (proj2 (Z.leb_gt end_ 0)), (proj2 (Z.ltb_ge 36 r)) by lia. simpl orb. cbv iota.
  eapply gives_bind; [exact Hsc|]. intros sc h' (x & ep & -> & HP) Hs. by apply gives_ret.
Qed.

Lemma parse_integer_token str sg l s ds h :
  is_text str (sg ++ l) h → sign_of sg s → digits_of r l ds → ds ≠ [] →
  let end_ := Z.of_nat (length (sg ++ l)) in
  gives (λ p, p.2 = end_ ∧ ∃ x, p.1 = Some x ∧ is_int x (s * value r ds)) (mkcl_parse_number fuel str 0 end_ r) h.
Proof.
  intros Ht Hsg Hds Hne end_.
  assert (0 < length l)%nat by (rewrite (Forall2_length _ _ _ Hds); destruct ds; [done|simpl; lia]).
  apply parse_number_scan; [unfold end_; rewrite length_app; lia|].
  pose proof (scan_number_start str sg l [] s ds h) as E. rewrite app_nil_r in E. specialize (E Ht Hsg Hds Hne). cbv zeta in E.
  unfold gives. unfold end_. rewrite E. cbn [length scan_chars]. unfold parse_end.
  rewrite (proj2 (Z.ltb_ge _ _)) by lia. rewrite (signed_value sg) by done.
  eapply gives_int_bind; [apply big_register_normalize_spec|]. intros x h' Hx Hs. apply gives_ret. eauto 10.
Qed.

(** The digits of the numerator, a slash, and digits: a ratio, or NIL for a zero
    denominator, which the reader makes an error. *)
Lemma parse_ratio_token str sg l s ds l' ds' h :
  is_text str (sg ++ l ++ 47 :: l') h → sign_of sg s → digits_of r l ds → ds ≠ [] → digits_of r l' ds' → ds' ≠ [] →
  let end_ := Z.of_nat (length (sg ++ l ++ 47 :: l')) in
  gives (λ p, p.2 = end_ ∧ ∃ x, p.1 = Some x ∧
    if value r ds' =? 0 then x = ONil else is_rat x (frac (s * value r ds) (value r ds')))
    (mkcl_parse_number fuel str 0 end_ r) h.
Proof.
  intros Ht Hsg Hds Hne Hds' Hne' end_.
  apply parse_number_scan; [unfold end_; rewrite !length_app; simpl; lia|].
  unfold gives. unfold end_. rewrite (scan_number_start str sg l (47 :: l') s ds h Ht Hsg Hds Hne).
  cbn [length scan_chars]. fold (gives (λ sc, ∃ x ep, sc = Parsed x ep ∧ (x, ep).2 = end_ ∧ ∃ y, (x, ep).1 = Some y ∧
    if value r ds' =? 0 then y = ONil else is_rat y (frac (s * value r ds) (value r ds')))).
  assert (Z.of_nat (length (sg ++ l)) = Z.of_nat (length (sg ++ l)))as Hi by done.
  rewrite app_assoc in Ht.
  eapply gives_bind_Done; [exact (char_text_app str (sg ++ l) 47 l' h _ Ht Hi)|]. change (Z.eqb 43 43) with true. change (Z.eqb 45 43) with false. change (Z.eqb 45 45) with true. cbv iota.
  unfold parse_denominator. rewrite (signed_value sg) by done.
  eapply gives_int_bind; [apply big_register_normalize_spec|]. intros num h1 Hnum Hs1.
  pose proof (is_text_mono _ _ _ _ Ht Hs1) as Ht1.
  inversion Hds' as [|c d l2 ds2 [Hd Hd0] Hds2 E1 E2]; subst; [done|].
  eapply gives_bind_Done.
  { apply (char_text_app str ((sg ++ l) ++ [47]) c l2); [by rewrite <- app_assoc|]. rewrite !length_app. simpl. lia. }
  rewrite Hd. eapply gives_bind_Done; [reflexivity|]. rewrite (proj2 (Z.ltb_ge d 0)) by lia.
  eapply gives_bind.
  { apply (parse_integer_text str ((sg ++ l) ++ [47]) [] (c :: l2) [] 1 (d :: ds2)); [|by left|done..| |].
    - by rewrite app_nil_r, <- app_assoc.
    - rewrite !length_app. simpl. lia.
    - exists 0%nat. split; [|by left]. unfold end_. rewrite !length_app. simpl. lia. }
  intros [o ep] h2 [Hep (den & Ho & Hden)] Hs2. cbn [fst snd] in Hep, Ho. subst o ep. rewrite Z.mul_1_l in Hden.
  assert (Z.of_nat (length (((sg ++ l) ++ [47]) ++ [] ++ c :: l2)) = end_) as ->.
  { unfold end_. rewrite !length_app. simpl. lia. }
  rewrite Z.ltb_irrefl. rewrite (is_int_fix_iff den _ 0 Hden fix_0).
  destruct (Z.eqb_spec (value r (d :: ds2)) 0) as [Hz|Hz].
  - apply gives_ret. eauto 10.
  - eapply gives_bind; [apply (make_ratio_spec num den _ _ h2 Hnum Hden Hz)|].
    intros q h3 Hq Hs3. apply gives_ret. eauto 10.
Qed.
End reading.

(** ** A decimal point at the end *)

Lemma digit_ten c d r :
  2 <= r <= 36 → mkcl_digitp c 10 = Some d → 0 <= d →
  mkcl_digitp c r = Some (if d <? r then d else -1) ∧ exponent_charp c = false.
Proof.
  intros Hr Hd Hd0. assert (c <= 57 ∨ 255 < c) as Hc.
  { revert Hd. unfold mkcl_digitp. zcases; intros [= <-]; lia. }
  assert (48 <= c) by (by eapply digit_not_mark).
  assert (exponent_charp c = false) as ->; [|split; [|done]].
  { unfold exponent_charp. repeat match goal with |- context [c =? ?k] => rewrite (proj2 (Z.eqb_neq c k)) by lia end. done. }
  revert Hd. unfold mkcl_digitp. destruct Hc as [Hc|Hc].
  - zcases; intros [= <-]; f_equal; repeat case_match; lia.
  - rewrite (proj2 (Z.leb_gt c 57)), !andb_false_r by lia. simpl.
    rewrite !(proj2 (Z.ltb_ge c _)) by lia. rewrite !andb_false_r, (proj2 (Z.ltb_lt 255 c)) by lia.
    destruct (mkcl_ucd_decimal_digit c) as [n|]; [|done]. simpl. intros [= <-].
    destruct (Z.ltb_spec n 10); [|lia]. done.
Qed.

Section decimal.
Context `{!GMP, !GMPSpec, !GMPArith, !GMPArithSpec, !GMPText, !GMPTextSpec, !ToDouble, !Transcendental}.
Context `{!Vectors, !ReaderVars} (fuel : nat) (r : Z) (Hr : 2 <= r <= 36).

(** In another radix the first pass gives up. *)
Lemma scan_not_ten str pre l ds sign acc h :
  r ≠ 10 → is_text str (pre ++ l ++ [46]) h → digits_of 10 l ds →
  let i := Z.of_nat (length pre) in
  let end_ := Z.of_nat (length (pre ++ l ++ [46])) in
  ∃ sc, scan_chars fuel str end_ (length l + 1) r sign i end_ acc h = Done sc h ∧ (sc = Again ∨ sc = InDecimal).
Proof.
  intros Hne Ht Hds. revert pre acc Ht. induction Hds as [|c d l ds [Hd Hd0] _ IH]; intros pre acc Ht i end_; cbn [length plus scan_chars].
  - rewrite (bind_Done _ _ _ _ _ (char_text_app _ _ _ _ _ _ Ht eq_refl)). simpl Z.eqb. cbv iota.
    rewrite (proj2 (Z.leb_gt _ _)) by (unfold end_, i; rewrite length_app; simpl; lia).
    rewrite (proj2 (Z.eqb_neq r 10)) by done. eauto.
  - rewrite (bind_Done _ _ _ _ _ (char_text_app _ _ _ _ _ _ Ht eq_refl)). pose proof (digit_not_mark _ _ _ Hd Hd0).
    rewrite (proj2 (Z.eqb_neq c 47)), (proj2 (Z.eqb_neq c 46)) by lia.
    destruct (digit_ten c d r Hr Hd Hd0) as [-> ->]. simpl checked. rewrite bind_ret.
    destruct (Z.ltb_spec d r).
    + rewrite (proj2 (Z.leb_le 0 d)) by lia. rewrite push_digit by done.
      specialize (IH (pre ++ [c]) (acc * r + d)). rewrite <- app_assoc in IH. specialize (IH Ht).
      replace (i + 1) with (Z.of_nat (length (pre ++ [c]))) by (unfold i; rewrite length_app; simpl; lia). exact IH.
    + simpl. rewrite (proj2 (Z.eqb_neq r 10)) by done. eauto.
Qed.

Lemma scan_number_not_ten str sg l s ds h :
  r ≠ 10 → is_text str (sg ++ l ++ [46]) h → sign_of sg s → digits_of 10 l ds → ds ≠ [] →
  let end_ := Z.of_nat (length (sg ++ l ++ [46])) in
  ∃ sc, scan_number fuel str end_ 0 r h = Done sc h ∧ (sc = Again ∨ sc = InDecimal).
Proof.
  intros Hr10 Ht Hsg Hds Hne end_. pose proof (scan_not_ten str sg l ds s 0 h Hr10 Ht Hds) as Hsc. cbv zeta in Hsc.
  inversion Hds as [|c d l' ds' [Hd Hd0] Hds' E1 E2]; subst; [done|]. pose proof (digit_not_mark _ _ _ Hd Hd0).
  unfold scan_number.
  assert (Z.to_nat (end_ - Z.of_nat (length sg)) = (length (c :: l') + 1)%nat) as En.
  { unfold end_. rewrite !length_app. simpl. lia. }
  destruct Hsg as [[-> ->]|[[-> ->]|[-> ->]]].
  - rewrite (bind_Done _ _ _ _ _ (char_text_app str [] c _ h 0 Ht eq_refl)).
    rewrite (proj2 (Z.eqb_neq c 43)), (proj2 (Z.eqb_neq c 45)), (proj2 (Z.eqb_neq c 47)) by lia.
    cbn [length] in En. change (Z.of_nat 0) with 0 in En. rewrite En. exact Hsc.
  - rewrite (bind_Done _ _ _ _ _ (char_text_app str [] 43 _ h 0 Ht eq_refl)). change (Z.eqb 43 43) with true. cbv iota.
    rewrite (proj2 (Z.eqb_neq (0 + 1) end_)) by (unfold end_; rewrite !length_app; simpl; lia).
    rewrite (bind_Done _ _ _ _ _ (char_text_app str [43] c (l' ++ [46]) h (0 + 1) Ht eq_refl)).
    rewrite (proj2 (Z.eqb_neq c 47)) by lia. cbn [length] in En. change (0 + 1) with (Z.of_nat 1). rewrite En. exact Hsc.
  - rewrite (bind_Done _ _ _ _ _ (char_text_app str [] 45 _ h 0 Ht eq_refl)).
    change (Z.eqb 45 43) with false. change (Z.eqb 45 45) with true. cbv iota.
    rewrite (proj2 (Z.eqb_neq (0 + 1) end_)) by (unfold end_; rewrite !length_app; simpl; lia).
    rewrite (bind_Done _ _ _ _ _ (char_text_app str [45] c (l' ++ [46]) h (0 + 1) Ht eq_refl)).
    rewrite (proj2 (Z.eqb_neq c 47)) by lia. cbn [length] in En. change (0 + 1) with (Z.of_nat 1). rewrite En. exact Hsc.
Qed.

Lemma scan_ten_point str sg l s ds h :
  is_text str (sg ++ l ++ [46]) h → sign_of sg s → digits_of 10 l ds → ds ≠ [] →
  let end_ := Z.of_nat (length (sg ++ l ++ [46])) in
  gives (λ sc, ∃ x, sc = Parsed (Some x) end_ ∧ is_int x (s * value 10 ds)) (scan_number fuel str end_ 0 10) h.
Proof.
  intros Ht Hsg Hds Hne end_. unfold gives. unfold end_.
  rewrite (scan_number_start fuel 10 ltac:(lia) str sg l [46] s ds h Ht Hsg Hds Hne). cbn [length scan_chars].
  fold (gives (λ sc, ∃ x, sc = Parsed (Some x) end_ ∧ is_int x (s * value 10 ds))). rewrite app_assoc in Ht.
  eapply gives_bind_Done; [exact (char_text_app str (sg ++ l) 46 [] h _ Ht eq_refl)|].
  change (46 =? 47) with false. change (46 =? 46) with true. cbv iota.
  assert (Z.of_nat (length (sg ++ l)) + 1 = end_) as Hi by (unfold end_; rewrite !length_app; simpl; lia).
  fold end_. rewrite (proj2 (Z.leb_gt end_ _)) by lia. change (10 =? 10) with true. simpl negb. cbv iota.
  unfold parse_end. rewrite (proj2 (Z.ltb_ge _ _)) by lia. rewrite (signed_value sg) by done.
  eapply gives_int_bind; [apply big_register_normalize_spec|]. intros x h' Hx Hs. apply gives_ret. rewrite Hi. eauto.
Qed.

Lemma parse_decimal_token str sg l s ds h :
  is_text str (sg ++ l ++ [46]) h → sign_of sg s → digits_of 10 l ds → ds ≠ [] →
  let end_ := Z.of_nat (length (sg ++ l ++ [46])) in
  gives (λ p, p.2 = end_ ∧ ∃ x, p.1 = Some x ∧ is_int x (s * value 10 ds)) (mkcl_parse_number fuel str 0 end_ r) h.
Proof.
  intros Ht Hsg Hds Hne end_. pose proof (scan_ten_point str sg l s ds) as Hten.
  assert (0 < end_) as Hpos by (unfold end_; rewrite !length_app; simpl; lia).
  unfold mkcl_parse_number. rewrite (proj2 (Z.leb_gt end_ 0)), (proj2 (Z.ltb_ge 36 r)) by lia. simpl orb. cbv iota.
  destruct (decide (r = 10)) as [->|Hr10].
  { eapply gives_bind; [by apply Hten|]. intros sc h' (x & -> & Hx) Hs. apply gives_ret. eauto. }
  destruct (scan_number_not_ten str sg l s ds h Hr10 Ht Hsg Hds Hne) as (sc & E & Hsc).
  eapply gives_bind_Done; [exact E|]. unfold scan_decimal. destruct Hsc as [->| ->].
  - eapply gives_bind; [by apply Hten|]. intros sc h' (x & -> & Hx) Hs. apply gives_ret. eauto.
  - apply gives_assoc. eapply gives_bind; [by apply Hten|]. intros sc h' (x & -> & Hx) Hs.
    eapply gives_bind_Done; [reflexivity|]. cbv beta iota.
    assert (mkcl_floatp x = false ∧ (MKCL_FIXNUMP x || match x with OBig _ _ => true | _ => false end) = true) as [-> ->].
    { by destruct (is_int_cases _ _ Hx) as [(n & ->)|(a & w & ->)]. }
    rewrite (proj2 (Z.ltb_lt 0 _)) by done. simpl andb. cbv iota.
    eapply gives_bind_Done.
    { apply (char_text_app str (sg ++ l) 46 []); [rewrite <- app_assoc; by eapply is_text_mono|].
      fold end_. unfold end_. rewrite !length_app. simpl. lia. }
    apply gives_ret. simpl. eauto.
Qed.

(** A sign and a point are an integer without digits. *)
Lemma parse_sign_point str sg h : sg = 43 ∨ sg = 45 → is_text str [sg; 46] h →
  gives (λ p, p.2 = 2 ∧ ∃ x, p.1 = Some x ∧ is_int x 0) (mkcl_parse_number fuel str 0 2 10) h.
Proof.
  intros Hsg Ht. unfold mkcl_parse_number. cbn [Z.leb Z.ltb Z.compare orb].
  eapply (gives_bind (λ sc, ∃ x, sc = Parsed (Some x) 2 ∧ is_int x 0)); [|intros sc h' (x & -> & Hx) _; apply gives_ret; eauto].
  assert (∀ s, gives (λ sc, ∃ x, sc = Parsed (Some x) 2 ∧ is_int x 0)
    (c ← mkcl_char str 1; if c =? 47 then mret (Parsed None 1) else scan_chars fuel str 2 (Z.to_nat (2 - 1)) 10 s 1 2 0) h) as Hscan.
  { intros s. eapply gives_bind_Done; [exact (char_text_app str [sg] 46 [] h 1 Ht eq_refl)|].
    change (46 =? 47) with false. change (Z.to_nat (2 - 1)) with 1%nat. cbv iota. cbn [scan_chars].
    eapply gives_bind_Done; [exact (char_text_app str [sg] 46 [] h 1 Ht eq_refl)|].
    change (46 =? 47) with false. change (46 =? 46) with true. change (2 <=? 1) with false. change (10 =? 10) with true.
    cbn [negb]. cbv iota. unfold parse_end. change (1 + 1 <? 1 + 1) with false. cbv iota.
    assert ((if s <? 0 then mpz_neg 0 else 0) = 0) as -> by (case_match; [by rewrite mpz_neg_eq|done]).
    eapply gives_int_bind; [apply big_register_normalize_spec|]. intros x h' Hx _. apply gives_ret. eauto. }
  unfold scan_number. eapply gives_bind_Done; [exact (char_text_app str [] sg [46] h 0 Ht eq_refl)|].
  destruct Hsg as [-> | ->]; apply Hscan.
Qed.

(** C33: the parser gives every integer and ratio its value in the radix: an optional sign
    and digits, in any script, with a denominator after a slash; NIL, which the reader
    makes an error, for a zero denominator; with a point at the end in radix ten. *)
Theorem rationals_parsed str sg s h :
  sign_of sg s →
  (∀ l ds, digits_of r l ds → ds ≠ [] → is_text str (sg ++ l) h →
    let end_ := Z.of_nat (length (sg ++ l)) in
    gives (λ p, p.2 = end_ ∧ ∃ x, p.1 = Some x ∧ is_int x (s * value r ds)) (mkcl_parse_number fuel str 0 end_ r) h) ∧
  (∀ l ds l' ds', digits_of r l ds → ds ≠ [] → digits_of r l' ds' → ds' ≠ [] → is_text str (sg ++ l ++ 47 :: l') h →
    let end_ := Z.of_nat (length (sg ++ l ++ 47 :: l')) in
    gives (λ p, p.2 = end_ ∧ ∃ x, p.1 = Some x ∧
      if value r ds' =? 0 then x = ONil else is_rat x (frac (s * value r ds) (value r ds')))
      (mkcl_parse_number fuel str 0 end_ r) h) ∧
  (∀ l ds, digits_of 10 l ds → ds ≠ [] → is_text str (sg ++ l ++ [46]) h →
    let end_ := Z.of_nat (length (sg ++ l ++ [46])) in
    gives (λ p, p.2 = end_ ∧ ∃ x, p.1 = Some x ∧ is_int x (s * value 10 ds)) (mkcl_parse_number fuel str 0 end_ r) h).
Proof.
  intros Hsg. split_and!.
  - intros l ds Hds Hne Ht. by apply parse_integer_token.
  - intros l ds l' ds' Hds Hne Hds' Hne' Ht. by apply parse_ratio_token.
  - intros l ds Hds Hne Ht. by apply parse_decimal_token.
Qed.
End decimal.

(** ** What is printed is read back *)

Section roundtrip.
Context `{!GMP, !GMPSpec, !GMPArith, !GMPArithSpec, !GMPText, !GMPTextSpec, !ToDouble, !Transcendental}.
Context `{!Vectors, !ReaderVars, !PrinterVars} (fuel n : nat) (base : Z) (Hbase : 2 <= base <= 36).

(** The sign of a number that is printed. *)
Definition minus_of (sg : list Z) (s : Z) : Prop := sg = [] ∧ s = 1 ∨ sg = [45] ∧ s = -1.

Lemma minus_sign sg s : minus_of sg s → sign_of sg s.
Proof. unfold minus_of, sign_of. tauto. Qed.

(** The characters of a number. *)
Definition number_char (c : Z) : Prop := c = 45 ∨ c = 47 ∨ ∃ d, 0 <= d < base ∧ c = mkcl_digit_char d base.

(** A sign and digits of the value [z]. *)
Definition integer_chars (l : list Z) (z : Z) : Prop :=
  Forall number_char l ∧
  ∃ sg s l' ds, l = sg ++ l' ∧ minus_of sg s ∧ digits_of base l' ds ∧ ds ≠ [] ∧ z = s * value base ds.

Lemma denotes_chars sg s l z : minus_of sg s → denotes base l z → integer_chars (sg ++ l) (s * z).
Proof.
  intros Hsg (ds & -> & Hds & Hne & <-). split.
  - apply Forall_app. split; [destruct Hsg as [[-> _]|[-> _]]; repeat constructor|].
    apply Forall_fmap. eapply Forall_impl; [exact Hds|]. intros d Hd. right; right. by exists d.
  - exists sg, s, (chars_of_digits base ds), ds. split_and!; [done|done| |done|done]. by apply digits_of_chars.
Qed.

(** The bignums that [do_write_integer] writes without more zeros than they have. *)
Definition in_range (x : obj) : Prop := ∀ a z, x = OBig a z → exact_range base z.

Lemma print_base_eq h : print_base = OFix base → mkcl_print_base h = Done base h.
Proof.
  unfold mkcl_print_base. intros ->. cbv iota.
  by rewrite (proj2 (Z.ltb_ge base 2)), (proj2 (Z.ltb_ge 36 base)) by lia.
Qed.

Lemma write_integer_spec x z h :
  print_base = OFix base → is_int x z → in_range x →
  gives (λ l, integer_chars l z) (write_integer (S n) false x) h.
Proof.
  intros Hpb Hx Hin. unfold write_integer.
  eapply gives_bind_Done; [by apply print_base_eq|]. simpl andb. cbv iota.
  eapply (gives_bind (λ l, integer_chars l z)); [|intros l h' Hl Hs; apply gives_ret; by rewrite app_nil_r].
  destruct (is_int_cases _ _ Hx) as [(m & ->)|(a & w & ->)].
  - apply is_int_fix_eq in Hx as [-> Hm]. apply gives_ret. unfold write_fixnum.
    assert (∀ i, 0 <= i < word_modulus → denotes base (write_positive_fixnum i base 0) i) as Hw.
    { intros i Hi. by apply write_positive_fixnum_spec. }
    unfold is_fixnum, MKCL_MOST_NEGATIVE_FIXNUM, MKCL_MOST_POSITIVE_FIXNUM in Hm. unfold word_modulus in Hw.
    destruct (Z.eqb_spec m 0) as [->|Hm0].
    + apply (denotes_chars [] 1 [48] 0); [by left|]. specialize (Hw 0). apply Hw. lia.
    + destruct (Z.ltb_spec m 0).
      * replace m with (-1 * - m) at 2 by lia. apply (denotes_chars [45] (-1)); [by right|]. apply Hw. lia.
      * replace m with (1 * m) at 2 by lia. apply (denotes_chars [] 1); [by left|]. apply Hw. lia.
  - apply is_int_big_eq in Hx as [-> Hw].
    eapply gives_mono; [apply (write_bignum_spec base Hbase n a w h Hw (Hin _ _ eq_refl))|].
    intros l (l' & -> & Hd). destruct (Z.ltb_spec w 0).
    + replace w with (-1 * Z.abs w) by lia. apply (denotes_chars [45] (-1)); [by right|done].
    + replace w with (1 * Z.abs w) by lia. apply (denotes_chars [] 1); [by left|done].
Qed.

(** A text of these characters is read as that rational number. *)
Definition reads_as (q : Qc) (l : list Z) : Prop :=
  ∀ str h, is_text str l h →
    let end_ := Z.of_nat (length l) in
    gives (λ p, p.2 = end_ ∧ ∃ y, p.1 = Some y ∧ is_rat y q) (mkcl_parse_number fuel str 0 end_ base) h.

Definition parts_in_range (x : obj) : Prop :=
  match x with ORatio _ num den => in_range num ∧ in_range den | _ => in_range x end.

(** A positive number is written without a sign. *)
Lemma sign_positive sg s l ds z :
  minus_of sg s → digits_of base l ds → 0 < z → z = s * value base ds → sg = [] ∧ s = 1.
Proof.
  intros Hsg Hds Hz ->. assert (0 <= value base ds); [|destruct Hsg as [[-> ->]|[-> ->]]; [done|lia]].
  apply value_nonneg; [lia|]. clear Hz. induction Hds as [|c d l ds [Hd Hd0] _ IH]; constructor; [|done].
  split; [done|]. by eapply digitp_below.
Qed.

Lemma write_rational_spec x q h :
  print_base = OFix base → print_radix = ONil → is_rat x q → parts_in_range x →
  gives (λ l, (l ≠ [] ∧ Forall number_char l) ∧ reads_as q l) (write_rational (S n) x) h.
Proof.
  intros Hpb Hpr Hx Hin. unfold write_rational, mkcl_print_radix. rewrite Hpr. simpl negb.
  assert (∀ sg (l' ds l2 : list Z) r, digits_of r l' ds → ds ≠ [] → (sg ++ l') ++ l2 ≠ []) as Hsome.
  { intros sg l' ds l2 r Hds Hne E. apply app_nil in E as [E _]. apply app_nil in E as [_ ->]. by inversion Hds; subst. }
  destruct (is_rat_cases _ _ Hx) as [(z & Hz & ->)|(a & num & den & zn & zd & -> & Hn & Hd & Hd1 & _ & ->)].
  - eapply (gives_mono (λ l, integer_chars l z)).
    + destruct (is_int_cases _ _ Hz) as [(m & ->)|(b & w & ->)]; by apply write_integer_spec.
    + intros l (Hchars & sg & s & l' & ds & -> & Hsg & Hds & Hne & ->).
      split; [split; [|done]; rewrite <- (app_nil_r (sg ++ l')); by eapply Hsome|]. intros str h' Ht.
      eapply gives_mono; [apply (parse_integer_token fuel base Hbase str sg l' s ds h'); [done|by apply minus_sign|done..]|].
      intros p (Hp & y & Hy & Hyz). split; [done|]. exists y. split; [done|]. by apply is_rat_int.
  - destruct Hin as [Hin1 Hin2]. eapply gives_bind_Done; [reflexivity|].
    eapply gives_bind; [by apply write_integer_spec|]. intros l1 h1 (Hc1 & sg & s & l & ds & -> & Hsg & Hds & Hne & ->) Hs1.
    eapply gives_bind; [by apply write_integer_spec|].
    intros l2 h2 (Hc2 & sg2 & s2 & l' & ds2 & -> & Hsg2 & Hds2 & Hne2 & E2) Hs2.
    apply gives_ret. split.
    { split; [by eapply Hsome|]. rewrite app_nil_l. apply Forall_app. split; [done|]. constructor; [by right; left|done]. }
    intros str h' Ht. pose proof (sign_positive sg2 s2 l' ds2 zd Hsg2 Hds2 ltac:(lia) E2) as [-> ->].
    rewrite app_nil_l in *. rewrite Z.mul_1_l in E2. subst zd. simpl app in *. rewrite <- app_assoc in *. simpl app in *.
    eapply gives_mono; [apply (parse_ratio_token fuel base Hbase str sg l s ds l' ds2 h'); [done|by apply minus_sign|done..]|].
    intros p (Hp & y & Hy & Hyz). split; [done|]. exists y. split; [done|].
    by rewrite (proj2 (Z.eqb_neq _ 0)) in Hyz by lia.
Qed.

(** C32: a rational number that is printed in a base, with *PRINT-RADIX* false, is read
    back in that base as the same number, if its parts are fixnums or bignums in the
    range that is written exactly: below [base ^ 2 ^ (m + 2)] for an [m] such that
    [base ^ 2 ^ m] is at most 2^61, which is 10^64 in base ten. *)
Theorem rationals_roundtrip x q h :
  print_base = OFix base → print_radix = ONil → is_rat x q → parts_in_range x →
  gives (reads_as q) (write_rational (S n) x) h.
Proof. intros Hpb Hpr Hx Hin. eapply gives_mono; [by apply write_rational_spec|]. by intros l [_ Hl]. Qed.

(** C35: beyond that range a bignum can be printed as another number: its quotient [q] by
    the power of [2 ^ k] digits, then the digits of the rest [r], padded to [2 ^ k] of them
    only after [2 ^ k] more zeros for each of the [j] powers in between that [r] is below.
    What is read back is [q] followed by the [j * 2 ^ k] zeros too many and [r]. *)
Theorem bignum_misprinted m j q r s x h :
  let k := (m + S j)%nat in
  let z := q * power base (Z.of_nat k) + r in
  let misread := q * base ^ Z.of_nat (S j * 2 ^ k) + r in
  print_base = OFix base → print_radix = ONil → s = 1 ∨ s = -1 → is_int x (s * z) →
  power base (Z.of_nat m) <= 2 ^ 61 → (0 < j)%nat → (k <= 62)%nat →
  0 < q < power base (Z.of_nat k) → exact_range base q → 2 ^ 61 <= r < power base (Z.of_nat (S m)) →
  z < misread ∧
  gives (λ l, (∃ sg lq lr, l = sg ++ lq ++ replicate (j * 2 ^ k) 48 ++ lr ∧ minus_of sg s ∧
      denotes base lq q ∧ denotes base lr r ∧ length lr = (2 ^ k)%nat) ∧ reads_as (Qc_of_Z (s * misread)) l)
    (write_rational (S n) x) h.
Proof.
  intros k z misread Hpb Hpr Hs Hx Hpm Hj Hk Hq Hrange Hr.
  assert (power base (Z.of_nat (S m)) <= power base (Z.of_nat k)) as Hmk by (apply power_le; [done|lia]).
  assert (Z.of_nat (2 ^ k) = 2 ^ Z.of_nat k) as Ek by apply (Nat2Z.inj_pow 2).
  assert (0 < 2 ^ Z.of_nat k) by (apply Z.pow_pos_nonneg; lia).
  assert (Hbig : ∀ w, 2 ^ 61 <= w → ¬ is_fixnum w) by (intros w Hw; unfold_words; lia).
  assert (2 ^ 61 < z) as Hz by (unfold z; nia). split.
  { unfold z, misread, power. apply Z.add_lt_mono_r, Z.mul_lt_mono_pos_l, Z.pow_lt_mono_r; nia. }
  destruct (is_int_cases _ _ Hx) as [(i & ->)|(a & w & ->)].
  { exfalso. apply is_int_fix_eq in Hx as [E Hf]. revert E Hf Hz. clear -Hs. generalize z. intros w E Hf Hw. destruct Hs as [-> | ->]; unfold_words; lia. }
  apply is_int_big_eq in Hx as [<- Hw].
  assert (write_rational (S n) (OBig a (s * z)) h = (out ← write_bignum (S n) base (s * z) (OBig a (s * z)); mret out) h) as E.
  { unfold write_rational, write_integer, mkcl_print_radix. rewrite Hpr. cbn [mkcl_Null negb andb].
    rewrite (bind_Done _ _ _ _ _ (print_base_eq h Hpb)). unfold mbind, M_bind. case_match; try done. cbn. by rewrite app_nil_r. }
  unfold gives. rewrite E. clear E.
  assert (Z.abs (s * z) = z) as Habs by (destruct Hs as [-> | ->]; lia).
  eapply gives_bind; [|intros l h' Hl _; apply gives_ret; exact Hl].
  eapply gives_mono.
  { apply (write_bignum_by base Hbase (λ l, ∃ lq lr, l = lq ++ replicate (j * 2 ^ k) 48 ++ lr ∧
      denotes base lq q ∧ denotes base lr r ∧ length lr = (2 ^ k)%nat) n a (s * z) (Z.of_nat (S k))); [done|lia| |].
    - rewrite Habs, Nat2Z.inj_succ, <- Z.add_1_r, power_succ by lia. unfold z. nia.
    - intros K powers y h' Hlev Hy HzK. rewrite Habs in *.
      apply (write_misprinted base Hbase n m j powers K y q r h'); try done; [by apply Hbig; lia|lia]. }
  intros l (l' & -> & lq & lr & -> & Hlq & Hlr & Hn). set (zeros := replicate (j * 2 ^ k) 48).
  set (sg := if s * z <? 0 then [45] else []).
  assert ((if s * z <? 0 then 45 :: lq ++ zeros ++ lr else lq ++ zeros ++ lr) = sg ++ lq ++ zeros ++ lr) as ->
    by (unfold sg; by case_match).
  assert (minus_of sg s) as Hsg.
  { unfold sg. destruct Hs as [-> | ->]; [left|right]; (split; [|done]).
    - by rewrite (proj2 (Z.ltb_ge _ 0)) by lia.
    - by rewrite (proj2 (Z.ltb_lt _ 0)) by lia. }
  split; [by exists sg, lq, lr|].
  assert (denotes base zeros 0) as Hzeros.
  { exists (replicate (j * 2 ^ k) 0). split_and!.
    - unfold chars_of_digits. by rewrite fmap_replicate, digit_char_eq by lia.
    - apply Forall_replicate. lia.
    - intros E%(f_equal length). rewrite length_replicate in E. simpl in E. nia.
    - apply value_zeros. }
  pose proof (denotes_app _ _ _ _ _ Hlq (denotes_app _ _ _ _ _ Hzeros Hlr)) as Hd.
  assert (q * base ^ Z.of_nat (length (zeros ++ lr)) + (0 * base ^ Z.of_nat (length lr) + r) = misread) as Em.
  { unfold misread, zeros. rewrite length_app, length_replicate, Hn. f_equal. f_equal. f_equal. lia. }
  rewrite Em in Hd. destruct (denotes_chars sg s _ _ Hsg Hd) as [_ (sg' & s' & l1 & ds & El & Hsg' & Hds & Hne & Ev)].
  rewrite El, Ev. intros str h' Ht.
  eapply gives_mono; [apply (parse_integer_token fuel base Hbase str sg' l1 s' ds h'); [done|by apply minus_sign|done..]|].
  intros p (Hp & y & Hy & Hyz). split; [done|]. exists y. split; [done|]. by apply is_rat_int.
Qed.
End roundtrip.
