(* ===== verification/CharNames.v ===== *)
(** * CharNames: CHAR-NAME and NAME-CHAR, src/src/c/character.c

    The names of base characters are in a hash table from codes to names and from names
    to codes; the other characters have the name U followed by their code in hexadecimal
    digits, unless there is a table of extended names; these are read back. *)

From S2P Require Import Prelude Words Objects Heap Numbers Floats Equal Lists ListSearch NumPred ArithSpecs.
From S2P Require Import Hash HashTable Sequences Chars CharSpecs Strings NumRead NumReadSpecs.
#[local] Open Scope Z_scope.

(** [snprintf] of ["%0*x"]: [n] digits. *)
Fixpoint hex_chars (n : nat) (i : Z) : list Z :=
  match n with
  | O => []
  | S n => hex_chars n (i / 16) ++ [small_digit (i mod 16)]
  end.

Definition hex (width i : Z) : list Z := hex_chars (Z.to_nat (Z.max width (count_digits 8 16 i))) i.

Section names.
Context `{!GMP, !GMPArith, !GMPText, !Memory, !Runtime, !RealArith, !HashEnv, !Vectors} (fuel : nat).
Context (base_char_names : obj) (extended_character_names : obj).

Definition mk_cl_char_name (c : obj) : M obj :=
  code ← mkcl_char_code c;
  if code <=? MKCL_BASE_CHAR_CODE_LIMIT then
    mkcl_gethash_safe fuel (MKCL_MAKE_FIXNUM code) base_char_names ONil
  else
    output ← (if negb (obj_eq extended_character_names ONil)
              then mkcl_gethash_safe fuel (MKCL_MAKE_FIXNUM code) extended_character_names ONil
              else mret ONil);
    if mkcl_Null output then
      a ← alloc (CStr (85 :: (if code <? 0x010000 then hex 4 code else hex 6 code)));
      mret (OBaseString a)
    else mret output.

(** The character of a code that a table has. *)
Definition char_of_code (c : obj) : M obj :=
  match c with OFix n => mret (MKCL_CODE_CHAR n) | _ => raise Segfault end.

(** The digits after the U; the code is converted to 32 bits. *)
Definition name_code (name : obj) (l : Z) : M obj :=
  p ← mkcl_parse_integer name 1 l 16;
  match p with
  | (Some (OFix n), used_l) =>
      if used_l <? l then mret ONil
      else
        let code := n mod 2 ^ 32 in
        mret (if MKCL_CHAR_CODE_LIMIT <=? code then ONil else MKCL_CODE_CHAR code)
  | _ => mret ONil
  end.

Definition mk_cl_name_char (name : obj) : M obj :=
  name ← mk_cl_string fuel name;
  c ← mkcl_gethash_safe fuel name base_char_names ONil;
  if negb (obj_eq c ONil) then char_of_code c
  else
    c ← (if negb (obj_eq extended_character_names ONil)
         then mkcl_gethash_safe fuel name extended_character_names ONil
         else mret ONil);
    if negb (obj_eq c ONil) then char_of_code c
    else if negb (MKCL_STRINGP name) then mret ONil
    else
      l ← fillp name;
      if l =? 0 then mret ONil
      else
        c ← mkcl_char name 0;
        if l =? 1 then mret ONil
        else if negb (c =? 117) && negb (c =? 85) then mret ONil
        else name_code name l.
End names.

(** ** The names that are made are read back *)

Lemma hex_chars_digits n i :
  0 <= i < 16 ^ Z.of_nat n →
  ∃ ds, digits_of 16 (hex_chars n i) ds ∧ length ds = n ∧ value 16 ds = i.
Proof.
  revert i. induction n as [|n IH]; intros i Hi.
  - exists []. split_and!; [constructor|done|]. change (16 ^ Z.of_nat 0) with 1 in Hi. unfold value. simpl. lia.
  - rewrite Nat2Z.inj_succ, Z.pow_succ_r in Hi by lia. cbn [hex_chars].
    pose proof (Z.div_mod i 16). pose proof (Z.mod_pos_bound i 16).
    destruct (IH (i / 16)) as (ds & Hds & Hlen & Hv).
    { split; [apply Z.div_pos; lia|]. apply Z.div_lt_upper_bound; lia. }
    exists (ds ++ [i mod 16]). split_and!.
    + apply Forall2_app; [done|]. constructor; [|constructor]. split; [|lia]. apply digitp_small_digit; lia.
    + rewrite length_app. simpl. lia.
    + rewrite value_app, Hv, value_single. change (Z.of_nat (length [i mod 16])) with 1. rewrite Z.pow_1_r. lia.
Qed.

Lemma hex_digits width i :
  0 <= i < 16 ^ 8 → 0 < width → ∃ ds, digits_of 16 (hex width i) ds ∧ ds ≠ [] ∧ value 16 ds = i.
Proof.
  intros Hi Hw. unfold hex. set (n := Z.to_nat _).
  assert (i < 16 ^ Z.of_nat n) as Hn.
  { unfold n. rewrite Z2Nat.id by lia. destruct (decide (i = 0)) as [->|]; [apply Z.pow_pos_nonneg; lia|].
    destruct (count_digits_spec 8 16 i) as (Hs & _ & Hu); [lia|change (Z.of_nat 8) with 8; lia|].
    eapply Z.lt_le_trans; [exact Hu|]. apply Z.pow_le_mono_r; lia. }
  destruct (hex_chars_digits n i) as (ds & Hds & Hlen & Hv); [lia|]. exists ds. split_and!; [done| |done].
  intros ->. simpl in Hlen. unfold n in Hlen. lia.
Qed.

Section specs.
Context `{!GMP, !GMPSpec, !GMPArith, !GMPArithSpec, !GMPText, !GMPTextSpec, !Memory, !Runtime, !RealArith, !HashEnv, !Vectors}.
Context (fuel : nat) (base_char_names : obj).

Definition code_name (code : Z) : list Z := 85 :: (if code <? 0x010000 then hex 4 code else hex 6 code).

(** A string of these characters, whenever it is made, has them within its dimension,
    and is no name in the table of base characters. *)
Definition no_base_name (l : list Z) (h : heap) : Prop :=
  ∀ str h', h ⊆ h' → read_string str h' = Done l h' →
    (∃ dim, Z.of_nat (length l) <= dim ∧ array_dim str h' = Done dim h') ∧
    mkcl_gethash_safe fuel str base_char_names ONil h' = Done ONil h'.

(** The name of a character beyond the base characters, when there is no table of
    extended names, is a string that NAME-CHAR takes back to the character, as long as
    the table of base characters has no such name; but for the character of code 256 the
    name is looked up in that table. *)
Theorem names_roundtrip code h :
  is_char code → MKCL_BASE_CHAR_CODE_LIMIT <= code → no_base_name (code_name code) h →
  (code = MKCL_BASE_CHAR_CODE_LIMIT →
    mk_cl_char_name fuel base_char_names ONil (OChar code) h =
    mkcl_gethash_safe fuel (OFix code) base_char_names ONil h) ∧
  (code ≠ MKCL_BASE_CHAR_CODE_LIMIT →
    ∃ name h', mk_cl_char_name fuel base_char_names ONil (OChar code) h = Done name h' ∧
      gives (λ c, c = OChar code) (mk_cl_name_char fuel base_char_names ONil name) h').
Proof.
  unfold is_char, MKCL_BASE_CHAR_CODE_LIMIT, MKCL_CHAR_CODE_LIMIT. intros Hc Hge Hnames.
  unfold mk_cl_char_name. simpl mkcl_char_code. rewrite bind_ret. unfold MKCL_BASE_CHAR_CODE_LIMIT.
  assert (MKCL_MAKE_FIXNUM code = OFix code) as Hfix.
  { unfold MKCL_MAKE_FIXNUM. rewrite fixnum_wrap_small; [done|unfold_words; lia]. }
  split; [intros ->; by rewrite <- Hfix|]. intros Hne. rewrite (proj2 (Z.leb_gt code 256)) by lia.
  simpl negb. cbv iota. rewrite bind_ret. simpl mkcl_Null. cbv iota.
  fold (code_name code). set (a := first_free h). set (h1 := <[a := CStr (code_name code)]> h).
  exists (OBaseString a), h1. split; [done|].
  assert (h ⊆ h1) as Hs1 by apply insert_first_free_subseteq.
  assert (is_text (OBaseString a) (code_name code) h1) as Ht.
  { intros h2 Hs. assert (read_string (OBaseString a) h2 = Done (code_name code) h2) as Hr.
    { simpl. rewrite (lookup_weaken h1 h2 a (CStr (code_name code))); [done|by apply lookup_insert_eq|done]. }
    split; [done|]. apply Hnames; [by etrans|done]. }
  destruct (Ht h1 (reflexivity h1)) as [Hr _]. destruct (Hnames _ _ Hs1 Hr) as [_ Hg].
  unfold mk_cl_name_char. eapply gives_bind_Done; [reflexivity|]. eapply gives_bind_Done; [exact Hg|].
  simpl negb. cbv iota. eapply gives_bind_Done; [reflexivity|]. simpl negb. cbv iota.
  eapply gives_bind_Done; [unfold fillp; rewrite (bind_Done _ _ _ _ _ Hr); reflexivity|].
  unfold code_name in Ht |- *. set (digits := if code <? 65536 then hex 4 code else hex 6 code) in *.
  assert (∃ ds, digits_of 16 digits ds ∧ ds ≠ [] ∧ value 16 ds = code) as (ds & Hds & Hdne & Hv).
  { unfold digits. destruct (code <? 65536); apply hex_digits; lia. }
  assert (0 < length digits)%nat by (rewrite (Forall2_length _ _ _ Hds); destruct ds; [done|simpl; lia]).
  rewrite (proj2 (Z.eqb_neq _ 0)) by (simpl; lia).
  eapply gives_bind_Done; [by apply (char_text_app _ [] 85 digits)|].
  rewrite (proj2 (Z.eqb_neq _ 1)) by (simpl; lia). simpl negb. cbv iota. unfold name_code.
  eapply gives_bind.
  { apply (parse_integer_text 16 ltac:(lia) _ [85] [] digits [] 1 ds); [by rewrite app_nil_r|by left|done..|].
    exists 0%nat. split; [by rewrite Nat.add_0_r|by left]. }
  intros [o ep] h2 [Hep (x & Ho & Hx)] Hs. cbn [fst snd] in Hep, Ho. subst o ep. rewrite Z.mul_1_l, Hv in Hx.
  assert (is_fixnum code) as Hcf by (unfold_words; lia). rewrite (is_int_fix_inv _ _ Hx Hcf).
  change ([85] ++ [] ++ digits) with (85 :: digits). rewrite Z.ltb_irrefl, (Z.mod_small code (2 ^ 32)) by (split; [lia|]; change (2 ^ 32) with 4294967296; lia).
  apply gives_ret. unfold MKCL_CHAR_CODE_LIMIT. by rewrite (proj2 (Z.leb_gt _ _)) by lia.
Qed.
End specs.
