(* ===== verification/NumTextExamples.v ===== *)
(** * NumTextExamples: numbers printed and read at concrete values *)

From S2P Require Import Prelude Words Objects Heap Numbers Floats Equal Lists NumPred Arith NumComp NumCo NumLog ToFloat NumExpt.
From S2P Require Import ArithSpecs NumCoSpecs Sequences ListExamples Chars CharSpecs Strings.
From S2P Require Import NumRead NumPrint NumReadSpecs.
#[local] Open Scope Z_scope.

#[local] Instance to_double_3 : ToDouble := to_double_within 3.
#[local] Instance transcendental_none : Transcendental := {| mkcl_log1 _ := diverge; mk_cl_exp _ := diverge |}.

#[export] Instance gmp_text_ref_spec : GMPTextSpec.
Proof.
  split; [done|]. intros z b Hb Hz. exists (mpz_sizeinbase z b).
  destruct (count_digits_spec (Z.to_nat (Z.log2 (Z.abs z) + 1)) b (Z.abs z)) as (Hs & Hl & Hu); [lia| |].
  - split; [lia|]. pose proof (Z.log2_nonneg (Z.abs z)). rewrite Z2Nat.id by lia.
    apply Z.lt_le_trans with (2 ^ (Z.log2 (Z.abs z) + 1)).
    + pose proof (Z.log2_spec (Z.abs z)). rewrite <- Z.add_1_r in *. lia.
    + apply Z.pow_le_mono_l. lia.
  - split_and!; [exact Hs|exact Hl|exact Hu|by left].
Qed.

(** The symbols of the formats are at the addresses -31 to -34; the default is double. *)
#[export] Instance reader_vars_10 : ReaderVars := {|
  MK_CL_single_float := OSym (-31);
  MK_CL_short_float := OSym (-32);
  MK_CL_double_float := OSym (-33);
  MK_CL_long_float := OSym (-34);
  read_base := OFix 10;
  read_default_float_format := OSym (-33);
  infinity_variable k s := a ← alloc CBox; mret (OFloat k a (S754_infinity s));
  is_whitespace c := mret (c =? 32);
|}.

Definition printer_in (base : Z) : PrinterVars := {| print_base := OFix base; print_radix := ONil |}.

(** The string at 40. *)
Definition text_heap (l : list Z) : heap := {[40 := CStr l]}.
Definition text : obj := OBaseString 40.

Lemma text_is_text l : is_text text l (text_heap l).
Proof.
  intros h' Hs. assert (read_string text h' = Done l h') as Hr.
  { assert (h' !! 40 = Some (CStr l)) as E; [|by simpl; rewrite E].
    eapply lookup_weaken; [|exact Hs]. unfold text_heap. by simplify_map_eq. }
  split; [done|]. exists (Z.of_nat (length l)). split; [done|]. simpl. by rewrite (bind_Done _ _ _ _ _ Hr).
Qed.

(** ["-Ff/10"] in base 16, and ["12."]. *)
Lemma rationals_parsed_witness :
  gives (λ p, p.2 = 6 ∧ ∃ x, p.1 = Some x ∧ is_rat x (frac (-255) 16))
    (mkcl_parse_number 5 text 0 6 16) (text_heap [45; 70; 102; 47; 49; 48]) ∧
  gives (λ p, p.2 = 3 ∧ ∃ x, p.1 = Some x ∧ is_int x 12) (mkcl_parse_number 5 text 0 3 8) (text_heap [49; 50; 46]).
Proof.
  split.
  - destruct (rationals_parsed 5 16 ltac:(lia) text [45] (-1) (text_heap [45; 70; 102; 47; 49; 48])) as (_ & H & _).
    { right. by right. }
    apply (H [70; 102] [15; 15] [49; 48] [1; 0]); [by repeat constructor|done|by repeat constructor|done|apply text_is_text].
  - destruct (rationals_parsed 5 8 ltac:(lia) text [] 1 (text_heap [49; 50; 46])) as (_ & _ & H).
    { by left. }
    apply (H [49; 50] [1; 2]); [by repeat constructor|done|apply text_is_text].
Defined.

(** -22/7 in base 16, and 10^63 + 10^20 in base 10. *)
Lemma rationals_roundtrip_witness :
  gives (reads_as 5 16 (frac (-22) 7)) (@write_rational _ _ _ _ 5 (printer_in 16) (ORatio 50 (OFix (-22)) (OFix 7))) ∅ ∧
  gives (reads_as 5 10 (Qc_of_Z (10 ^ 63 + 10 ^ 20)))
    (@write_rational _ _ _ _ 5 (printer_in 10) (OBig 50 (10 ^ 63 + 10 ^ 20))) ∅.
Proof.
  split.
  - apply (@rationals_roundtrip _ _ _ _ _ _ _ _ _ _ (printer_in 16) 5 4 16 ltac:(lia)); [done|done| |done].
    exists (-22), 7. by split_and!.
  - apply (@rationals_roundtrip _ _ _ _ _ _ _ _ _ _ (printer_in 10) 5 4 10 ltac:(lia)); [done|done| |].
    + apply is_rat_int. split; [done|]. unfold int_wf, is_fixnum, MKCL_MOST_POSITIVE_FIXNUM. lia.
    + intros a z [= _ <-]. exists 4. split_and!; [lia|by vm_compute|by vm_compute].
Defined.

(** ** Misprinted and misread *)

Definition printed (m : M (list Z)) (h : heap) : list Z := match m h with Done l _ => l | _ => [] end.
Definition number_read (m : M (option obj * Z)) (h : heap) : option obj := match m h with Done (x, _) _ => x | _ => None end.

Definition misprinted : Z := 10 ^ 64 + 10 ^ 20.

(** 10^64 + 10^20, of 65 digits, is printed in base ten with 64 zeros too many, of the
    power of 32 digits, and read back as 10^128 + 10^20. *)
Lemma bignum_misprinted_witness :
  gives (λ l, (∃ sg lq lr, l = sg ++ lq ++ replicate 64 48 ++ lr ∧ minus_of sg 1 ∧
      denotes 10 lq 1 ∧ denotes 10 lr (10 ^ 20) ∧ length lr = 64%nat) ∧ reads_as 5 10 (Qc_of_Z (10 ^ 128 + 10 ^ 20)) l)
    (@write_rational _ _ _ _ 5 (printer_in 10) (OBig 50 misprinted)) ∅.
Proof.
  destruct (@bignum_misprinted _ _ _ _ _ _ _ _ _ _ (printer_in 10) 5 4 10 ltac:(lia) 4 1 1 (10 ^ 20) 1 (OBig 50 misprinted) ∅)
    as [_ H]; [done|done|by left| |by vm_compute|lia|lia|by vm_compute| |by vm_compute|exact H].
  - split; [done|]. unfold int_wf, is_fixnum, MKCL_MOST_POSITIVE_FIXNUM, misprinted. lia.
  - exists 0. split_and!; [lia|by vm_compute|by vm_compute].
Defined.

(** The digits, all of them decimal, and what is read. *)
Example misprinted_digits :
  let l := printed (@write_rational _ _ _ _ 5 (printer_in 10) (OBig 50 misprinted)) ∅ in
  length l = 129%nat ∧ Forall (λ c, 48 <= c <= 57) l ∧
  number_read (mkcl_parse_number 5 text 0 129 10) (text_heap l) = Some (OBig 41 (10 ^ 128 + 10 ^ 20)).
Proof. cbv zeta. split; [by vm_compute|]. split; [|by vm_compute]. vm_compute. repeat constructor; done. Qed.

(** What the reader makes of a token, in base ten. *)
Definition token_read (l : list Z) : option token :=
  match read_token 8 text (text_heap l) with Done t _ => Some t | _ => None end.

(** Tokens that are the names of symbols in Common Lisp are read as numbers: [+.] as 0,
    [1.2/3] as 4, [+e5] and [-.d1] as zero floats; and [+.] is no potential number. *)
Example tokens_misread :
  token_read [43; 46] = Some (TokenNumber (OFix 0)) ∧
  token_read [49; 46; 50; 47; 51] = Some (TokenNumber (OFix 4)) ∧
  token_read [43; 101; 53] = Some (TokenNumber (OFloat DF (-13) (S754_zero false))) ∧
  token_read [45; 46; 100; 49] = Some (TokenNumber (OFloat DF (-14) (S754_zero true))) ∧
  potential_number_p text 10 (text_heap [43; 46]) = Done false (text_heap [43; 46]).
Proof. split_and!; by vm_compute. Qed.

(** ["1e-2305843009213693952"], whose exponent is a bignum, is infinity. *)
Example tiny_is_infinite :
  token_read ([49; 101; 45] ++ chars_of_digits 10 [2; 3; 0; 5; 8; 4; 3; 0; 0; 9; 2; 1; 3; 6; 9; 3; 9; 5; 3])
  = Some (TokenNumber (OFloat DF 42 (S754_infinity false))).
Proof. vm_compute. done. Qed.

(** ["1.5e-1"] *)
Example float_token :
  token_read [49; 46; 53; 101; 45; 49] = Some (TokenNumber (OFloat DF 42 (S754_finite false 5404319552844595 (-55)))).
Proof. vm_compute. done. Qed.

(** ["1/2"], ["1/0"], ["e5"], [".."], ["."] *)
Example tokens_read :
  token_read [49; 47; 50] = Some (TokenNumber (ORatio 41 (OFix 1) (OFix 2))) ∧
  token_read [49; 47; 48] = None ∧ token_read [101; 53] = Some TokenSymbol ∧
  token_read [46; 46] = None ∧ token_read [46] = Some TokenDot.
Proof. split_and!; by vm_compute. Qed.

(** [" -12 "] *)
Example parse_integer_spaces :
  mk_cl_parse_integer text (OFix 0) ONil (OFix 10) ONil (text_heap [32; 45; 49; 50; 32]) =
  Done (OFix (-12), OFix 5) (text_heap [32; 45; 49; 50; 32]).
Proof. vm_compute. done. Qed.
