(* ===== verification/StrMake.v ===== *)
(** * StrMake: strings made, copied and coerced, src/src/c/string.c

    A new string has the dimension of its length.  The fields [hasfillp] and
    [adjustable] are not modelled, nor the functions that set them. *)

From S2P Require Import Prelude Words Objects Heap Numbers Equal Lists ListSearch Plist Sequences Chars Utf Strings.
#[local] Open Scope Z_scope.

Definition new_base_string (s : list Z) : M obj := a ← alloc (CStr s); mret (OBaseString a).
Definition new_string (s : list Z) : M obj := a ← alloc (CStr s); mret (OString a).

Definition MKCL_BASE_STRING_P (x : obj) : bool := match x with OBaseString _ => true | _ => false end.
Definition MKCL_CHARACTER_STRING_P (x : obj) : bool := match x with OString _ => true | _ => false end.
Definition MKCL_BASE_CHAR_CODE_P (c : Z) : bool := c <=? 255.

Definition MKCL_VECTORP (x : obj) : bool :=
  match mkcl_type_of x with
  | mkcl_t_vector | mkcl_t_string | mkcl_t_base_string | mkcl_t_bitvector => true
  | _ => false
  end.

(** The C strings are given as lists of bytes without the final zero. *)
Definition mkcl_make_base_string_copy (s : option (list Z)) : M obj := new_base_string (default [] s).
Definition mkcl_cstring_to_base_string (s : option (list Z)) : M obj :=
  match s with None => mret ONil | Some _ => mkcl_make_base_string_copy s end.

Definition mkcl_copy_base_string (s : obj) : M obj :=
  if MKCL_BASE_STRING_P s then t ← read_string s; new_base_string t else raise (FEtype_error_base_string s).

Definition mkcl_copy_string (s : obj) : M obj :=
  match s with
  | OString _ => t ← read_string s; new_string t
  | OBaseString _ => t ← read_string s; new_base_string t
  | _ => raise (FEtype_error_string s)
  end.

Definition mkcl_fits_in_base_string (s : obj) : M bool :=
  match s with
  | OString _ => t ← read_string s; mret (forallb MKCL_BASE_CHAR_CODE_P t)
  | OBaseString _ => mret true
  | _ => raise (FEtype_error_string s)
  end.

(** The characters of a string as those of a base string. *)
Definition to_base (x : obj) (s : list Z) : M (list Z) :=
  if forallb MKCL_BASE_CHAR_CODE_P s then mret s
  else raise (FEerror "Cannot coerce string ~A to a base-string" [x]).

Section with_vectors.
Context `{!Vectors} (fuel : nat).
Context (empty_string empty_base_string : obj).

(** ** MAKE-STRING *)

Definition mkcl_to_array_index (n : obj) : M Z :=
  match n with
  | OFix out => if out <? 0 then raise (FEtype_error_seq_index ONil out) else mret out
  | OBig _ z => raise (FEtype_error_seq_index ONil z)
  | _ => raise (FEtype_error_integer n)
  end.

(** [subtypep] is the call of the Lisp function. *)
Definition mk_cl_make_string (MK_CL_base_char MK_CL_standard_char MK_CL_character : obj)
    (subtypep : obj → obj → M obj) (size initial_element element_type : obj) : M obj :=
  s ← mkcl_to_array_index size;
  let base := c ← mkcl_base_char_code initial_element; new_base_string (replicate (Z.to_nat s) c) in
  let full := c ← mkcl_char_code initial_element; new_string (replicate (Z.to_nat s) c) in
  if obj_eq element_type MK_CL_base_char || obj_eq element_type MK_CL_standard_char then base
  else if obj_eq element_type MK_CL_character then full
  else
    b ← subtypep element_type MK_CL_base_char;
    if obj_eq b mk_cl_Ct then base
    else
      c ← subtypep element_type MK_CL_character;
      if obj_eq c mk_cl_Ct then full
      else raise (FEerror "The type ~S is not a valid string char type." [element_type]).

(** ** Coercions *)

(** The loop over the elements of a list, each of which must be a character. *)
Definition list_chars (code : obj → M Z) (l : obj) : M (list Z) :=
  mkcl_loop_for_in fuel (λ l s, a ← MKCL_CAR l; c ← code a; mret (inl (s ++ [c]))) mret l [].

Definition mkcl_coerce_list_to_simple_base_string (l : obj) : M obj :=
  len ← mkcl_length fuel l; s ← list_chars mkcl_base_char_code l; new_base_string s.
Definition mkcl_coerce_list_to_simple_string (l : obj) : M obj :=
  len ← mkcl_length fuel l; s ← list_chars mkcl_char_code l; new_string s.

(** [for (; i < fp; i++)], [n] elements of a vector. *)
Fixpoint vector_chars (code : obj → M Z) (n : nat) (x : obj) (i : Z) : M (list Z) :=
  match n with
  | O => mret []
  | S n => e ← mkcl_aref_index x i; c ← code e; s ← vector_chars code n x (i + 1); mret (c :: s)
  end.

(** Strings, base or not, as they are. *)
Definition string_to_base (x : obj) : M obj :=
  s ← read_string x;
  match x with OString _ => s ← to_base x s; new_base_string s | _ => new_base_string s end.
Definition string_to_full (x : obj) : M obj := s ← read_string x; new_string s.

Definition mk_si_copy_to_simple_base_string (x : obj) : M obj :=
  match x with
  | OSym _ => p ← read_symbol x; string_to_base (sym_name p.2)
  | ONil => name ← mkcl_core_nil_name; string_to_base name
  | OChar _ => s ← mk_cl_string fuel x; string_to_base s
  | OString _ | OBaseString _ => string_to_base x
  | OCons _ => mkcl_coerce_list_to_simple_base_string x
  | _ => raise (FEtype_error_string x)
  end.

Definition mk_si_copy_to_simple_string (x : obj) : M obj :=
  match x with
  | OSym _ => p ← read_symbol x; string_to_full (sym_name p.2)
  | ONil => name ← mkcl_core_nil_name; string_to_full name
  | OChar _ => s ← mk_cl_string fuel x; string_to_full s
  | OString _ | OBaseString _ => string_to_full x
  | OCons _ => mkcl_coerce_list_to_simple_string x
  | _ => raise (FEtype_error_string x)
  end.

(** NIL gives the one empty base string, not a fresh one. *)
Definition mkcl_coerce_to_simple_base_string (x : obj) : M obj :=
  match x with
  | ONil => mret empty_base_string
  | OSym a => if a =? mk_cl_Cnil_symbol then mret empty_base_string else p ← read_symbol x; string_to_base (sym_name p.2)
  | OChar _ => s ← mk_cl_string fuel x; string_to_base s
  | OString _ | OBaseString _ => string_to_base x
  | OObj mkcl_t_vector _ =>
      n ← vector_fillp x; s ← vector_chars mkcl_base_char_code (Z.to_nat n) x 0; new_base_string s
  | OCons _ => mkcl_coerce_list_to_simple_base_string x
  | _ => raise (FEtype_error_string x)
  end.

Definition mkcl_coerce_to_simple_character_string (x : obj) : M obj :=
  match x with
  | ONil => string_to_full empty_string
  | OSym a => if a =? mk_cl_Cnil_symbol then string_to_full empty_string else p ← read_symbol x; string_to_full (sym_name p.2)
  | OChar c => new_string [c]
  | OString _ | OBaseString _ => string_to_full x
  | OObj mkcl_t_vector _ =>
      n ← vector_fillp x; s ← vector_chars mkcl_char_code (Z.to_nat n) x 0; new_string s
  | OCons _ => mkcl_coerce_list_to_simple_string x
  | _ => raise (FEtype_error_string x)
  end.

Definition mkcl_coerce_to_base_string (x : obj) : M obj :=
  if MKCL_BASE_STRING_P x then mret x else mkcl_coerce_to_simple_base_string x.
Definition mk_si_coerce_to_base_string (x : obj) : M obj := mkcl_coerce_to_base_string x.
Definition mk_si_coerce_to_character_string (x : obj) : M obj :=
  if MKCL_CHARACTER_STRING_P x then mret x else mkcl_coerce_to_simple_character_string x.

(** ** Concatenation *)

(** The strings of the arguments that are not empty, the last on top of the stack, and
    their length in all. *)
Fixpoint push_strings (as_string : obj → M obj) (args : list obj) (stack : list obj) (l : Z) : M (list obj * Z) :=
  match args with
  | [] => mret (stack, l)
  | arg :: args =>
      s ← as_string arg; t ← read_string s;
      match t with
      | [] => push_strings as_string args stack l
      | _ => push_strings as_string args (s :: stack) (l + Z.of_nat (length t))
      end
  end.

(** [while (l)]: the top of the stack goes before what is written. *)
Fixpoint pop_strings (stack : list obj) (l : Z) (output : list Z) : M (list Z) :=
  if l =? 0 then mret output
  else
    match stack with
    | [] => raise Segfault
    | s :: stack => t ← read_string s; pop_strings stack (l - Z.of_nat (length t)) (t ++ output)
    end.

Definition concatenate (as_string one : obj → M obj) (new : list Z → M obj) (args : list obj) : M obj :=
  match args with
  | [arg] => one arg
  | _ =>
      p ← push_strings as_string args [] 0;
      s ← pop_strings p.1 p.2 [];
      new s
  end.

Definition sequence_or_error (coerce : obj → M obj) (arg : obj) : M obj :=
  if MKCL_CONSP arg || MKCL_VECTORP arg then coerce arg else raise (FEtype_error_sequence arg).

Definition mk_si_concatenate_base_strings : list obj → M obj :=
  concatenate
    (λ arg, if MKCL_BASE_STRING_P arg then mret arg
            else if mkcl_Null arg then mret empty_base_string
            else sequence_or_error mkcl_coerce_to_simple_base_string arg)
    (λ arg, if MKCL_BASE_STRING_P arg then mkcl_copy_base_string arg
            else if mkcl_Null arg then mret empty_base_string
            else sequence_or_error mkcl_coerce_to_simple_base_string arg)
    new_base_string.

Definition mk_si_concatenate_strings : list obj → M obj :=
  concatenate
    (λ arg, if MKCL_CHARACTER_STRING_P arg then mret arg
            else if mkcl_Null arg then mret empty_string
            else sequence_or_error mkcl_coerce_to_simple_character_string arg)
    (λ arg, if MKCL_CHARACTER_STRING_P arg then mkcl_copy_string arg
            else if mkcl_Null arg then mret empty_string
            else sequence_or_error mkcl_coerce_to_simple_character_string arg)
    new_string.

Definition assert_base_string (x : obj) : M unit :=
  if MKCL_BASE_STRING_P x then mret tt else raise (FEtype_error_base_string x).
Definition assert_string (x : obj) : M unit :=
  if MKCL_STRINGP x then mret tt else raise (FEtype_error_string x).

Definition mkcl_concatenate_2_base_strings (str1 str2 : obj) : M obj :=
  assert_base_string str1;; assert_base_string str2;;
  s1 ← read_string str1; s2 ← read_string str2; new_base_string (s1 ++ s2).

Definition mkcl_concatenate_3_base_strings (str1 str2 str3 : obj) : M obj :=
  assert_base_string str1;; assert_base_string str2;; assert_base_string str3;;
  s1 ← read_string str1; s2 ← read_string str2; s3 ← read_string str3; new_base_string (s1 ++ s2 ++ s3).

(** A base string is copied to a string first. *)
Definition widened (x : obj) : M obj := if MKCL_BASE_STRING_P x then mkcl_coerce_to_simple_character_string x else mret x.

Definition mkcl_concatenate_2_strings (str1 str2 : obj) : M obj :=
  assert_string str1;; assert_string str2;;
  str1 ← widened str1; str2 ← widened str2;
  s1 ← read_string str1; s2 ← read_string str2; new_string (s1 ++ s2).

Definition mkcl_concatenate_3_strings (str1 str2 str3 : obj) : M obj :=
  assert_string str1;; assert_string str2;; assert_string str3;;
  str1 ← widened str1; str2 ← widened str2; str3 ← widened str3;
  s1 ← read_string str1; s2 ← read_string str2; s3 ← read_string str3; new_string (s1 ++ s2 ++ s3).
End with_vectors.
