(* ===== verification/StrOps.v ===== *)
(** * StrOps: operations on strings, src/src/c/string.c

    Trimming, case, and the specializations for strings of SUBSEQ, FILL, SEARCH and
    REPLACE that compiled code calls.  Bounds are words; -1 as an end is the fill
    pointer. *)

From S2P Require Import Prelude Words Objects Heap Numbers Equal Lists ListSearch Sequences Chars Utf Strings StrMake.
#[local] Open Scope Z_scope.

Section with_runtime.
Context `{!GMP, !Vectors} (fuel : nat).
Context (empty_string empty_base_string : obj).

(** ** Trimming *)

(** The elements of a vector of objects must be characters; the vectors of characters
    that are no strings are in [Vectors] too. *)
Fixpoint vector_has_char (c : Z) (n : nat) (x : obj) (i : Z) : M bool :=
  match n with
  | O => mret false
  | S n =>
      other ← mkcl_aref_index x i; o ← mkcl_char_code other;
      if c =? o then mret true else vector_has_char c n x (i + 1)
  end.

Definition mkcl_member_char (c : Z) (char_bag : obj) : M bool :=
  match char_bag with
  | ONil => mret false
  | OCons _ =>
      mkcl_loop_for_in fuel (λ l (_ : unit),
        other ← MKCL_CAR l; o ← mkcl_char_code other;
        mret (if c =? o then inr true else inl tt)) (λ _, mret false) char_bag tt
  | OObj mkcl_t_vector _ => n ← vector_fillp char_bag; vector_has_char c (Z.to_nat n) char_bag 0
  | OString _ | OBaseString _ => s ← read_string char_bag; mret (existsb (λ o, c =? o) s)
  | OObj mkcl_t_bitvector _ => mret false
  | _ => raise (FEtype_error_sequence char_bag)
  end.

(** [for (; i < j; i++)], [n] times at most. *)
Fixpoint trim_left (n : nat) (char_bag strng : obj) (i : Z) : M Z :=
  match n with
  | O => mret i
  | S n =>
      c ← mkcl_char strng i; b ← mkcl_member_char c char_bag;
      if negb b then mret i else trim_left n char_bag strng (i + 1)
  end.

(** [for (; j > i; j--)] *)
Fixpoint trim_right (n : nat) (char_bag strng : obj) (j : Z) : M Z :=
  match n with
  | O => mret j
  | S n =>
      c ← mkcl_char strng (j - 1); b ← mkcl_member_char c char_bag;
      if negb b then mret j else trim_right n char_bag strng (j - 1)
  end.

Definition string_trim0 (left_trim right_trim : bool) (char_bag strng : obj) : M obj :=
  strng ← mk_cl_string fuel strng;
  j ← mkcl_length fuel strng;
  i ← (if left_trim then trim_left (Z.to_nat j) char_bag strng 0 else mret 0);
  j ← (if right_trim then trim_right (Z.to_nat (j - i)) char_bag strng j else mret j);
  mk_cl_subseq fuel strng (MKCL_MAKE_FIXNUM i) (MKCL_MAKE_FIXNUM j).

Definition mk_cl_string_trim := string_trim0 true true.
Definition mk_cl_string_left_trim := string_trim0 true false.
Definition mk_cl_string_right_trim := string_trim0 false true.

(** ** Case

    A function on a character has the flag [*bp]: whether a word may start. *)

Definition char_upcase (c : Z) (bp : bool) : M (Z * bool) := mret (mkcl_char_upcase c, bp).
Definition char_downcase (c : Z) (bp : bool) : M (Z * bool) := mret (mkcl_char_downcase c, bp).

Definition char_capitalize (c : Z) (bp : bool) : M (Z * bool) :=
  if mkcl_lower_case_p c then mret (if bp then mkcl_char_upcase c else c, false)
  else if mkcl_upper_case_p c then mret (if negb bp then mkcl_char_downcase c else c, false)
  else b ← checked (mkcl_alphanumericp c); mret (c, negb b).

(** An element of a base string keeps 8 bits. *)
Definition stored_char (x : obj) (c : Z) : Z := if MKCL_BASE_STRING_P x then c mod 256 else c.

Fixpoint case_chars (casefun : Z → bool → M (Z * bool)) (x : obj) (s : list Z) (b : bool) : M (list Z) :=
  match s with
  | [] => mret []
  | c :: s => p ← casefun c b; rest ← case_chars casefun x s p.2; mret (stored_char x p.1 :: rest)
  end.

(** [for (i = s; i < e; i++)] on the string, whose characters are written in place. *)
Definition case_in_place (casefun : Z → bool → M (Z * bool)) (x : obj) (s e : Z) : M unit :=
  t ← read_string x;
  t2 ← case_chars casefun x (take (Z.to_nat (e - s)) (drop (Z.to_nat s) t)) true;
  write_string x (take (Z.to_nat s) t ++ t2 ++ drop (Z.to_nat e) t).

Definition string_case (casefun : Z → bool → M (Z * bool)) (strng start end_ : obj) : M obj :=
  strng ← mk_cl_string fuel strng;
  conv ← mk_cl_copy_seq fuel strng;
  p ← mkcl_get_string_start_end conv start end_;
  case_in_place casefun conv p.1 p.2;;
  mret conv.

Definition mk_cl_string_upcase := string_case char_upcase.
Definition mk_cl_string_downcase := string_case char_downcase.
Definition mk_cl_string_capitalize := string_case char_capitalize.

Definition nstring_case (casefun : Z → bool → M (Z * bool)) (strng start end_ : obj) : M obj :=
  if negb (MKCL_STRINGP strng) then raise (FEtype_error_string strng)
  else
    p ← mkcl_get_string_start_end strng start end_;
    case_in_place casefun strng p.1 p.2;;
    mret strng.

Definition mk_cl_nstring_upcase := nstring_case char_upcase.
Definition mk_cl_nstring_downcase := nstring_case char_downcase.
Definition mk_cl_nstring_capitalize := nstring_case char_capitalize.

(** ** SUBSEQ and FILL *)

(** The end, checked with the start against the fill pointer. *)
Definition word_bounds (str : obj) (start end_ : Z) : M (Z * Z) :=
  n ← fillp str;
  let e := if end_ =? word_modulus - 1 then n else end_ in
  if (n <? start) || (e <? start) || (n <? e) then
    a ← mkcl_make_unsigned_integer start; b ← mkcl_make_unsigned_integer e;
    raise (FEerror "~S and ~S are invalid as :START and :END~%for the string sequence ~S." [a; b; str])
  else mret (start, e).

Definition mkcl_base_substring (str : obj) (start end_ : Z) : M obj :=
  assert_base_string str;;
  p ← word_bounds str start end_; s ← chars_between str p.1 p.2; new_base_string s.

Definition mkcl_substring (str : obj) (start end_ : Z) : M obj :=
  assert_string str;;
  p ← word_bounds str start end_; s ← chars_between str p.1 p.2;
  if MKCL_CHARACTER_STRING_P str then new_string s else new_base_string s.

(** [memset] of [n] elements from [start]: what is beyond the fill pointer is not in the
    model; beyond the dimension, and the final zero of a base string, it is outside of
    the block. *)
Definition set_elements (str : obj) (start n ch : Z) : M unit :=
  dim ← array_dim str;
  if dim + 1 <? start + n then raise Segfault
  else
    t ← read_string str;
    let m := Nat.min (Z.to_nat n) (length t - Z.to_nat start) in
    write_string str (take (Z.to_nat start) t ++ replicate m ch ++ drop (Z.to_nat start + m) t).

Definition check_base_char (ch : Z) : M unit :=
  if MKCL_BASE_CHAR_CODE_P ch then mret tt
  else raise (FEerror "Cannot insert character ~A into a base-string" [MKCL_CODE_CHAR ch]).

Definition mkcl_fill_base_string (str : obj) (ch : Z) : M obj :=
  assert_base_string str;;
  e ← fillp str;
  when (negb (e =? 0)) (set_elements str 0 e ch);; mret str.

Definition mkcl_fill_base_string_k (str : obj) (ch start end_ : Z) : M obj :=
  assert_base_string str;;
  p ← word_bounds str start end_;
  let e := p.2 in
  when (negb (e =? 0)) (set_elements str start e ch);; mret str.

Definition mkcl_fill_string (str : obj) (ch : Z) : M obj :=
  assert_string str;;
  e ← fillp str;
  when (MKCL_BASE_STRING_P str) (check_base_char ch);;
  when (negb (e =? 0)) (set_elements str 0 e ch);; mret str.

Definition mkcl_fill_string_k (str : obj) (ch start end_ : Z) : M obj :=
  assert_string str;;
  p ← word_bounds str start end_;
  if MKCL_CHARACTER_STRING_P str then
    let e := p.2 in when (negb (e =? 0)) (set_elements str start e ch);; mret str
  else
    e ← fillp str;
    check_base_char ch;;
    when (negb (e =? 0)) (set_elements str start e ch);; mret str.

(** ** SEARCH *)

(** [memchr]: the index from [start] of the first [ch] in [t]. *)
Fixpoint find_char (ch : Z) (t : list Z) (i : Z) : option Z :=
  match t with
  | [] => None
  | c :: t => if c =? ch then Some i else find_char ch t (i + 1)
  end.

(** [while (start2 + len1 <= end2)], for the pattern [ch0 :: rest] of [len1] characters,
    [n] times at most. *)
Fixpoint search_from (n : nat) (ch0 : Z) (rest t2 : list Z) (len1 end2 start2 : Z) : option Z :=
  match n with
  | O => None
  | S n =>
      if start2 + len1 <=? end2 then
        match find_char ch0 (drop (Z.to_nat start2) t2) start2 with
        | Some s =>
            if s + len1 <=? end2 then
              if chars_equal rest (take (length rest) (drop (Z.to_nat (s + 1)) t2)) then Some s
              else search_from n ch0 rest t2 len1 end2 (s + 1)
            else None
        | None => None
        end
      else None
  end.

Definition search_chars (t1 t2 : list Z) : obj :=
  match t1 with
  | [] => MKCL_MAKE_FIXNUM 0
  | ch0 :: rest =>
      match search_from (S (length t2)) ch0 rest t2 (Z.of_nat (length t1)) (Z.of_nat (length t2)) 0 with
      | Some s => MKCL_MAKE_FIXNUM s
      | None => ONil
      end
  end.

Definition mkcl_search_in_base_string (str1 str2 : obj) : M obj :=
  assert_base_string str1;; assert_base_string str2;;
  t1 ← read_string str1; t2 ← read_string str2; mret (search_chars t1 t2).

Definition mkcl_search_in_string (str1 str2 : obj) : M obj :=
  assert_string str1;; assert_string str2;;
  if MKCL_BASE_STRING_P str2 then
    str1 ← (if MKCL_CHARACTER_STRING_P str1 then mkcl_coerce_to_base_string fuel empty_base_string str1 else mret str1);
    mkcl_search_in_base_string str1 str2
  else
    str1 ← (if MKCL_BASE_STRING_P str1 then mk_si_coerce_to_character_string fuel empty_string str1 else mret str1);
    t1 ← read_string str1; t2 ← read_string str2; mret (search_chars t1 t2).

(** ** REPLACE

    [memmove] reads what it writes before it writes it. *)

Definition move_elements (str1 : obj) (start1 len1 : Z) (str2 : obj) (start2 len2 : Z) : M unit :=
  when (negb (len1 =? 0) && negb (len2 =? 0))
    (let n := Z.to_nat (if len1 <? len2 then len1 else len2) in
     t2 ← read_string str2;
     t1 ← read_string str1;
     write_string str1 (take (Z.to_nat start1) t1 ++ take n (drop (Z.to_nat start2) t2) ++ drop (Z.to_nat start1 + n) t1)).

Definition mkcl_replace_in_base_string (str1 str2 : obj) : M obj :=
  assert_base_string str1;; assert_base_string str2;;
  end1 ← fillp str1; end2 ← fillp str2;
  move_elements str1 0 end1 str2 0 end2;; mret str1.

Definition mkcl_replace_in_base_string_k (str1 str2 : obj) (start1 end1 start2 end2 : Z) : M obj :=
  assert_base_string str1;; assert_base_string str2;;
  p1 ← word_bounds str1 start1 end1;
  p2 ← word_bounds str2 start2 end2;
  move_elements str1 start1 (p1.2 - start1) str2 start2 (p2.2 - start2);; mret str1.

(** [str2] with the type of [str1]. *)
Definition same_type (str1 str2 : obj) : M obj :=
  match str1, str2 with
  | OString _, OBaseString _ => mk_si_coerce_to_character_string fuel empty_string str2
  | OBaseString _, OString _ => mkcl_coerce_to_base_string fuel empty_base_string str2
  | _, _ => mret str2
  end.

Definition mkcl_replace_in_string (str1 str2 : obj) : M obj :=
  assert_string str1;; assert_string str2;;
  str2 ← same_type str1 str2;
  end1 ← fillp str1; end2 ← fillp str2;
  move_elements str1 0 end1 str2 0 end2;; mret str1.

Definition mkcl_replace_in_string_k (str1 str2 : obj) (start1 end1 start2 end2 : Z) : M obj :=
  assert_string str1;; assert_string str2;;
  str2 ← same_type str1 str2;
  p1 ← word_bounds str1 start1 end1;
  p2 ← word_bounds str2 start2 end2;
  move_elements str1 start1 (p1.2 - start1) str2 start2 (p2.2 - start2);; mret str1.
End with_runtime.
