(* ===== verification/StrSpecs.v ===== *)
(** * StrSpecs: what the operations on strings give

    Comparison is the lexicographic order of the characters between the bounds, search
    finds the first occurrence, trimming drops the characters of the bag at the ends. *)

From S2P Require Import Prelude Words Objects Heap Numbers Equal Lists ListSearch ArithSpecs Sequences Chars Utf NumReadSpecs.
From S2P Require Import Strings StrMake StrOps.
#[local] Open Scope Z_scope.

(** ** Comparison *)

(** The lexicographic order of lists of character codes. *)
Inductive lex_lt : list Z → list Z → Prop :=
| lex_nil d t : lex_lt [] (d :: t)
| lex_head c s d t : c < d → lex_lt (c :: s) (d :: t)
| lex_tail c s t : lex_lt s t → lex_lt (c :: s) (c :: t).

#[export] Hint Constructors lex_lt : core.

Lemma lex_nil_r s : ¬ lex_lt s [].
Proof. by inversion 1. Qed.

Lemma lex_irrefl s : ¬ lex_lt s s.
Proof. induction s as [|c s IH]; inversion 1; subst; [lia|by apply IH]. Qed.

Lemma lex_asym s t : lex_lt s t → ¬ lex_lt t s.
Proof. induction 1 as [| |c s t _ IH]; inversion 1; subst; try lia. by apply IH. Qed.

Lemma lex_app k s t : lex_lt (k ++ s) (k ++ t) ↔ lex_lt s t.
Proof.
  induction k as [|c k IH]; [done|]. simpl. rewrite <- IH. split; [|auto].
  inversion 1; subst; [lia|done].
Qed.

(** The sign of the first of two lists of which neither has a character more in common. *)
Definition sign_at (a b : list Z) : Z :=
  match a, b with
  | [], [] => 0
  | [], _ :: _ => -1
  | _ :: _, [] => 1
  | c :: _, d :: _ => if c <? d then -1 else 1
  end.

(** [k] is all that [s] and [t] have in common at their start. *)
Definition mismatch (s t k a b : list Z) : Prop :=
  s = k ++ a ∧ t = k ++ b ∧ (head a = head b → a = [] ∧ b = []).

Lemma mismatch_cons c s t k a b : mismatch s t k a b → mismatch (c :: s) (c :: t) (c :: k) a b.
Proof. by intros (-> & -> & H). Qed.

Lemma mismatch_sign s t k a b : mismatch s t k a b →
  (sign_at a b = -1 ∧ lex_lt s t) ∨ (sign_at a b = 0 ∧ s = t) ∨ (sign_at a b = 1 ∧ lex_lt t s).
Proof.
  intros (-> & -> & Hd). rewrite !lex_app. destruct a as [|c a], b as [|d b]; simpl; auto.
  destruct (Z.ltb_spec c d); [auto|]. right. right. split; [done|]. apply lex_head.
  assert (c ≠ d); [|lia]. intros ->. by destruct (Hd eq_refl).
Qed.

Lemma compare_base_spec cs t1 t2 l :
  ∃ k a b, mismatch (cased cs <$> t1) (cased cs <$> t2) k a b ∧
    compare_base t1 l t2 cs = (sign_at a b, l + Z.of_nat (length k)).
Proof.
  revert t2 l. induction t1 as [|c t1 IH]; intros [|d t2] l; simpl.
  - exists [], [], []. by rewrite Z.add_0_r.
  - exists [], [], (cased cs d :: (cased cs <$> t2)). by rewrite Z.add_0_r.
  - exists [], (cased cs c :: (cased cs <$> t1)), []. by rewrite Z.add_0_r.
  - destruct (Z.ltb_spec (cased cs c) (cased cs d)) as [Hlt|Hge].
    { exists [], (cased cs c :: (cased cs <$> t1)), (cased cs d :: (cased cs <$> t2)). simpl.
      rewrite (proj2 (Z.ltb_lt _ _)), Z.add_0_r by lia. split; [|done]. split_and!; [done..|]. intros [=]. lia. }
    destruct (Z.ltb_spec (cased cs d) (cased cs c)) as [Hgt|Hle].
    { exists [], (cased cs c :: (cased cs <$> t1)), (cased cs d :: (cased cs <$> t2)). simpl.
      rewrite (proj2 (Z.ltb_ge _ _)), Z.add_0_r by lia. split; [|done]. split_and!; [done..|]. intros [=]. lia. }
    assert (cased cs c = cased cs d) as -> by lia.
    destruct (IH t2 (l + 1)) as (k & a & b & Hm & ->). exists (cased cs d :: k), a, b.
    split; [by apply mismatch_cons|]. f_equal. simpl. lia.
Qed.

(** The characters from [s] below [e]. *)
Definition between (l : list Z) (s e : Z) : list Z := take (Z.to_nat (e - s)) (drop (Z.to_nat s) l).

Lemma between_cons l s e : 0 <= s < e → e <= Z.of_nat (length l) →
  ∃ c, l !! Z.to_nat s = Some c ∧ between l s e = c :: between l (s + 1) e.
Proof.
  intros Hs He. destruct (lookup_lt_is_Some_2 l (Z.to_nat s)) as [c Hc]; [lia|]. exists c. split; [done|].
  unfold between. rewrite (drop_S l c) by done. replace (Z.to_nat (s + 1)) with (S (Z.to_nat s)) by lia.
  by replace (Z.to_nat (e - s)) with (S (Z.to_nat (e - (s + 1)))) by lia.
Qed.

Lemma between_nil l s e : e <= s → between l s e = [].
Proof. intros He. unfold between. by replace (Z.to_nat (e - s)) with 0%nat by lia. Qed.

Lemma chars_between_spec x l s e h : read_string x h = Done l h → chars_between x s e h = Done (between l s e) h.
Proof. intros Hr. unfold chars_between. by rewrite (bind_Done _ _ _ _ _ Hr). Qed.

Section with_runtime.
Context `{!Vectors}.

(** The characters of a string are read one by one in one loop, and as two lists of
    bytes in the other, with the same result. *)
Lemma compare_strings_base n x1 s1 e1 x2 s2 e2 cs l1 l2 h :
  is_text x1 l1 h → is_text x2 l2 h → n = Z.to_nat (e1 - s1) →
  0 <= s1 <= e1 → e1 <= Z.of_nat (length l1) → 0 <= s2 <= e2 → e2 <= Z.of_nat (length l2) →
  compare_strings n x1 s1 x2 s2 e2 cs h = Done (compare_base (between l1 s1 e1) s1 (between l2 s2 e2) cs) h.
Proof.
  intros Ht1 Ht2. revert s1 s2. induction n as [|n IH]; intros s1 s2 Hn Hs1 He1 Hs2 He2; simpl.
  - rewrite (between_nil l1) by lia. destruct (Z.leb_spec e2 s2).
    + by rewrite between_nil by lia.
    + destruct (between_cons l2 s2 e2) as (d & _ & ->); [lia..|done].
  - destruct (between_cons l1 s1 e1) as (c & Hc & Eb); [lia..|]. rewrite Eb. clear Eb. destruct (Z.leb_spec e2 s2).
    { by rewrite (between_nil l2) by lia. }
    destruct (between_cons l2 s2 e2) as (d & Hd & ->); [lia..|].
    pose proof (char_text _ _ _ _ _ Ht1 Hc) as E1. pose proof (char_text _ _ _ _ _ Ht2 Hd) as E2.
    rewrite Z2Nat.id in E1, E2 by lia. rewrite (bind_Done _ _ _ _ _ E1), (bind_Done _ _ _ _ _ E2). simpl.
    destruct (_ <? _); [done|]. destruct (_ <? _); [done|]. apply IH; lia.
Qed.

(** The bounds of [l] that two arguments give. *)
Definition bounds_are (l : list Z) (start end_ : obj) (s e : Z) : Prop :=
  start = OFix s ∧ (end_ = OFix e ∨ end_ = ONil ∧ e = Z.of_nat (length l)) ∧
  0 <= s <= e ∧ e <= Z.of_nat (length l).

Lemma text_string fuel x l h : is_text x l h →
  MKCL_STRINGP x = true ∧ mk_cl_string fuel x h = Done x h ∧ read_string x h = Done l h ∧
  fillp x h = Done (Z.of_nat (length l)) h.
Proof.
  intros Ht. destruct (Ht h (reflexivity h)) as (Hr & _).
  split_and!; [by destruct x|by destruct x|done|]. unfold fillp. by rewrite (bind_Done _ _ _ _ _ Hr).
Qed.

Lemma start_end_given x l start end_ s e h : is_text x l h → bounds_are l start end_ s e →
  mkcl_get_string_start_end x start end_ h = Done (s, e) h.
Proof.
  intros Ht (-> & He & Hs & Hl). destruct (text_string 0 x l h Ht) as (_ & _ & _ & Hf).
  unfold mkcl_get_string_start_end. rewrite (proj2 (Z.ltb_ge _ _)) by lia. rewrite (bind_Done _ _ _ _ _ Hf).
  destruct He as [->|[-> ->]].
  - rewrite !(proj2 (Z.ltb_ge _ _)) by lia. done.
  - by rewrite (proj2 (Z.ltb_ge _ _)) by lia.
Qed.

Lemma compare_either_spec x1 s1 e1 x2 s2 e2 cs l1 l2 h :
  is_text x1 l1 h → is_text x2 l2 h →
  0 <= s1 <= e1 → e1 <= Z.of_nat (length l1) → 0 <= s2 <= e2 → e2 <= Z.of_nat (length l2) →
  ∃ k a b, mismatch (cased cs <$> between l1 s1 e1) (cased cs <$> between l2 s2 e2) k a b ∧
    compare_either x1 s1 e1 x2 s2 e2 cs h = Done (sign_at a b, s1 + Z.of_nat (length k)) h.
Proof.
  intros Ht1 Ht2 Hs1 He1 Hs2 He2. unfold compare_either. destruct (base_strings x1 x2); cbn [negb].
  - destruct (compare_base_spec cs (between l1 s1 e1) (between l2 s2 e2) 0) as (k & a & b & Hm & E).
    exists k, a, b. split; [done|]. destruct (text_string 0 x1 l1 h Ht1) as (_ & _ & R1 & _).
    destruct (text_string 0 x2 l2 h Ht2) as (_ & _ & R2 & _).
    rewrite (bind_Done _ _ _ _ _ (chars_between_spec _ _ s1 e1 _ R1)).
    rewrite (bind_Done _ _ _ _ _ (chars_between_spec _ _ s2 e2 _ R2)). rewrite E. simpl. by rewrite Z.add_comm.
  - destruct (compare_base_spec cs (between l1 s1 e1) (between l2 s2 e2) s1) as (k & a & b & Hm & E).
    exists k, a, b. split; [done|]. by rewrite <- E, (compare_strings_base _ _ _ e1 _ _ _ _ l1 l2).
Qed.

(** The designators are strings, and the bounds are good. *)
Record compared (h : heap) (x1 x2 : obj) (b : bounds) (t1 t2 : list Z) (s : Z) : Prop := {
  compared_text : ∃ l1 l2 e1 s2 e2, is_text x1 l1 h ∧ is_text x2 l2 h ∧
    bounds_are l1 (start1 b) (end1 b) s e1 ∧ bounds_are l2 (start2 b) (end2 b) s2 e2 ∧
    t1 = between l1 s e1 ∧ t2 = between l2 s2 e2;
}.

Lemma compared_signs fuel sign1 sign2 cs h x1 x2 b t1 t2 s :
  compared h x1 x2 b t1 t2 s →
  ∃ k r1 r2, mismatch (cased cs <$> t1) (cased cs <$> t2) k r1 r2 ∧
    string_compare fuel sign1 sign2 cs x1 x2 b h =
      Done (if decide (sign_at r1 r2 = sign1 ∨ sign_at r1 r2 = sign2) then MKCL_MAKE_FIXNUM (s + Z.of_nat (length k))
            else ONil) h.
Proof.
  intros [(l1 & l2 & e1 & s2 & e2 & Ht1 & Ht2 & Hb1 & Hb2 & -> & ->)].
  destruct (text_string fuel x1 l1 h Ht1) as (_ & E1 & _). destruct (text_string fuel x2 l2 h Ht2) as (_ & E2 & _).
  destruct (compare_either_spec x1 s e1 x2 s2 e2 cs l1 l2 h) as (k & r1 & r2 & Hm & E);
    [done..|apply Hb1|apply Hb1|apply Hb2|apply Hb2|].
  exists k, r1, r2. split; [done|]. unfold string_compare.
  rewrite (bind_Done _ _ _ _ _ E1), (bind_Done _ _ _ _ _ E2).
  rewrite (bind_Done _ _ _ _ _ (start_end_given _ _ _ _ _ _ _ Ht1 Hb1)).
  rewrite (bind_Done _ _ _ _ _ (start_end_given _ _ _ _ _ _ _ Ht2 Hb2)).
  rewrite (bind_Done _ _ _ _ _ E). simpl. destruct (decide _) as [Hd|Hd].
  - replace (_ || _) with true; [done|]. symmetry. apply orb_true_iff. rewrite !Z.eqb_eq. done.
  - replace (_ || _) with false; [done|]. symmetry. apply orb_false_iff. rewrite !Z.eqb_neq. tauto.
Qed.

(** C39: The comparisons of strings find the first place where the characters between
    the bounds differ, as they are or in upper case: their index there counts from the
    start of the first string, and is given when the sign of what comes there is one of
    the two that the comparison asks for. *)
Theorem strings_compared fuel sign1 sign2 cs h x1 x2 b t1 t2 s :
  compared h x1 x2 b t1 t2 s →
  ∃ k r1 r2, mismatch (cased cs <$> t1) (cased cs <$> t2) k r1 r2 ∧
    string_compare fuel sign1 sign2 cs x1 x2 b h =
      Done (if decide (sign_at r1 r2 = sign1 ∨ sign_at r1 r2 = sign2) then MKCL_MAKE_FIXNUM (s + Z.of_nat (length k))
            else ONil) h.
Proof. apply compared_signs. Qed.

Definition non_nil (o : outcome obj) (h : heap) (P : Prop) : Prop :=
  ∃ r, o = Done r h ∧ (r ≠ ONil ↔ P).

Lemma string_equality fuel h x1 x2 b t1 t2 s : compared h x1 x2 b t1 t2 s →
  mk_cl_stringE fuel x1 x2 b h = Done (lisp_bool (bool_decide (t1 = t2))) h.
Proof.
  intros [(l1 & l2 & e1 & s2 & e2 & Ht1 & Ht2 & Hb1 & Hb2 & -> & ->)].
  destruct (text_string fuel x1 l1 h Ht1) as (_ & E1 & R1 & _). destruct (text_string fuel x2 l2 h Ht2) as (_ & E2 & R2 & _).
  unfold mk_cl_stringE. rewrite (bind_Done _ _ _ _ _ E1), (bind_Done _ _ _ _ _ E2).
  rewrite (bind_Done _ _ _ _ _ (start_end_given _ _ _ _ _ _ _ Ht1 Hb1)).
  rewrite (bind_Done _ _ _ _ _ (start_end_given _ _ _ _ _ _ _ Ht2 Hb2)). simpl.
  assert (∀ l a c, 0 <= a <= c → c <= Z.of_nat (length l) → length (between l a c) = Z.to_nat (c - a)) as Hlen.
  { intros l a c Ha Hc. unfold between. rewrite length_take, length_drop. lia. }
  destruct Hb1 as (_ & _ & Hs1 & He1), Hb2 as (_ & _ & Hs2 & He2).
  destruct (Z.eqb_spec (e1 - s) (e2 - s2)) as [Heq|Hne]; simpl.
  - rewrite (bind_Done _ _ _ _ _ (chars_between_spec _ _ s e1 _ R1)).
    rewrite (bind_Done _ _ _ _ _ (chars_between_spec _ _ s2 e2 _ R2)). by rewrite chars_equal_spec.
  - rewrite bool_decide_eq_false_2; [done|]. intros Hc%(f_equal length). rewrite !Hlen in Hc by lia. lia.
Qed.

(** C40: STRING=, STRING/= and the four comparisons of order decide the lexicographic
    order of the characters between the bounds. *)
Theorem strings_ordered fuel h x1 x2 b t1 t2 s :
  compared h x1 x2 b t1 t2 s →
  non_nil (mk_cl_stringE fuel x1 x2 b h) h (t1 = t2) ∧
  non_nil (mk_cl_stringNE fuel x1 x2 b h) h (t1 ≠ t2) ∧
  non_nil (mk_cl_stringL fuel x1 x2 b h) h (lex_lt t1 t2) ∧
  non_nil (mk_cl_stringG fuel x1 x2 b h) h (lex_lt t2 t1) ∧
  non_nil (mk_cl_stringLE fuel x1 x2 b h) h (t1 = t2 ∨ lex_lt t1 t2) ∧
  non_nil (mk_cl_stringGE fuel x1 x2 b h) h (t1 = t2 ∨ lex_lt t2 t1).
Proof.
  intros Hc. split.
  { eexists. split; [by eapply string_equality|]. case_bool_decide; simpl; naive_solver. }
  assert (∀ sign1 sign2, ∃ z, (z = -1 ∧ lex_lt t1 t2 ∨ z = 0 ∧ t1 = t2 ∨ z = 1 ∧ lex_lt t2 t1) ∧
    non_nil (string_compare fuel sign1 sign2 true x1 x2 b h) h (z = sign1 ∨ z = sign2)) as Hs.
  { intros sign1 sign2. destruct (compared_signs fuel sign1 sign2 true h x1 x2 b t1 t2 s Hc) as (k & r1 & r2 & Hm & E).
    exists (sign_at r1 r2). rewrite !list_fmap_id in Hm. split; [by apply (mismatch_sign _ _ k)|].
    eexists. split; [exact E|]. by case_decide. }
  assert (lex_lt t1 t2 → t1 ≠ t2 ∧ ¬ lex_lt t2 t1) as HL.
  { intros Hl. split; [|by apply lex_asym]. intros ->. by apply (lex_irrefl t2). }
  assert (lex_lt t2 t1 → t1 ≠ t2 ∧ ¬ lex_lt t1 t2) as HG.
  { intros Hl. split; [|by apply lex_asym]. intros ->. by apply (lex_irrefl t2). }
  split_and!; (edestruct Hs as (z & Hz & r & E & Hr); exists r; split; [exact E|]; rewrite Hr; intuition (subst; try tauto; try lia)).
Qed.
End with_runtime.

(** ** Search *)

Definition occurs_at (t1 t2 : list Z) (i : nat) : Prop := ∃ pre post, t2 = pre ++ t1 ++ post ∧ length pre = i.

Lemma occurs_at_drop t1 t2 i : occurs_at t1 t2 i ↔ (i <= length t2)%nat ∧ t1 `prefix_of` drop i t2.
Proof.
  split.
  - intros (pre & post & -> & <-). rewrite length_app. split; [lia|]. rewrite drop_app_length. by exists post.
  - intros [Hi [post E]]. exists (take i t2), post. by rewrite <- E, take_drop, length_take_le.
Qed.

Lemma find_char_spec ch t i :
  match find_char ch t i with
  | Some s => ∃ n, s = i + Z.of_nat n ∧ t !! n = Some ch ∧ ∀ m, (m < n)%nat → t !! m ≠ Some ch
  | None => ∀ m, t !! m ≠ Some ch
  end.
Proof.
  revert i. induction t as [|c t IH]; intros i; simpl; [done|]. destruct (Z.eqb_spec c ch) as [->|Hc].
  { exists O. split_and!; [lia|done|lia]. }
  specialize (IH (i + 1)). destruct (find_char ch t (i + 1)) as [s|].
  - destruct IH as (n & -> & Hn & Hm). exists (S n). split_and!; [lia|done|].
    intros [|m] H; simpl; [congruence|]. apply Hm. lia.
  - intros [|m]; simpl; [congruence|apply IH].
Qed.

(** [search_from] from [start2] finds the first occurrence that is not before it. *)
Lemma search_from_spec n ch0 rest t2 start2 :
  (length t2 < start2 + n)%nat →
  match search_from n ch0 rest t2 (Z.of_nat (length (ch0 :: rest))) (Z.of_nat (length t2)) (Z.of_nat start2) with
  | Some s => ∃ i, s = Z.of_nat i ∧ occurs_at (ch0 :: rest) t2 i ∧
      ∀ j, (start2 <= j < i)%nat → ¬ occurs_at (ch0 :: rest) t2 j
  | None => ∀ j, (start2 <= j)%nat → ¬ occurs_at (ch0 :: rest) t2 j
  end.
Proof.
  assert (∀ i, occurs_at (ch0 :: rest) t2 i → t2 !! i = Some ch0 ∧ (i + length (ch0 :: rest) <= length t2)%nat) as Hocc.
  { intros i (pre & post & -> & <-). rewrite !length_app. split; [by apply list_lookup_middle|lia]. }
  assert (∀ i, t2 !! i = Some ch0 →
    chars_equal rest (take (length rest) (drop (S i) t2)) = true ↔ occurs_at (ch0 :: rest) t2 i) as Heq.
  { intros i Hi. rewrite chars_equal_spec, bool_decide_eq_true, occurs_at_drop.
    pose proof (lookup_lt_Some _ _ _ Hi). rewrite (drop_S t2 ch0 i) by done. split.
    - intros Hr. split; [lia|]. exists (drop (length rest) (drop (S i) t2)). simpl. f_equal.
      rewrite Hr at 1. by rewrite take_drop.
    - intros [_ [post [= ->]]]. by rewrite take_app_length. }
  revert start2. induction n as [|n IH]; intros start2 Hn; simpl.
  { intros j Hj Ho%Hocc. simpl in Ho. lia. }
  destruct (Z.leb_spec (Z.of_nat start2 + Z.of_nat (S (length rest))) (Z.of_nat (length t2))) as [Hle|Hgt]; [|].
  2:{ intros j Hj Ho%Hocc. simpl in Ho. lia. }
  rewrite Nat2Z.id. pose proof (find_char_spec ch0 (drop start2 t2) (Z.of_nat start2)) as Hf.
  destruct (find_char _ _ _) as [s|].
  2:{ intros j Hj Ho%Hocc. apply (Hf (j - start2)%nat). rewrite lookup_drop.
      replace (start2 + (j - start2))%nat with j by lia. apply Ho. }
  destruct Hf as (m & -> & Hm & Hbefore). rewrite lookup_drop in Hm.
  assert (∀ j, (start2 <= j < start2 + m)%nat → ¬ occurs_at (ch0 :: rest) t2 j) as Hno.
  { intros j Hj Ho%Hocc. apply (Hbefore (j - start2)%nat); [lia|]. rewrite lookup_drop.
    replace (start2 + (j - start2))%nat with j by lia. apply Ho. }
  destruct (Z.leb_spec (Z.of_nat start2 + Z.of_nat m + Z.of_nat (S (length rest))) (Z.of_nat (length t2))) as [Hle2|Hgt2].
  2:{ intros j Hj Ho. assert (start2 + m <= j)%nat by (apply Nat.nlt_ge; intros ?; by apply (Hno j)).
      apply Hocc in Ho. simpl in Ho. lia. }
  replace (Z.to_nat (Z.of_nat start2 + Z.of_nat m + 1)) with (S (start2 + m)) by lia.
  destruct (chars_equal _ _) eqn:Ee.
  { exists (start2 + m)%nat. split_and!; [lia| |done]. by apply Heq. }
  assert (¬ occurs_at (ch0 :: rest) t2 (start2 + m)) as Hnot by (rewrite <- Heq by done; congruence).
  replace (Z.of_nat start2 + Z.of_nat m + 1) with (Z.of_nat (S (start2 + m))) by lia.
  specialize (IH (S (start2 + m)) ltac:(lia)). simpl in IH. destruct (search_from _ _ _ _ _ _ _) as [s|].
  - destruct IH as (i & -> & Ho & Hj). exists i. split_and!; [done..|]. intros j Hj'.
    destruct (decide (j < start2 + m)%nat); [apply Hno; lia|].
    destruct (decide (j = start2 + m)%nat) as [->|]; [done|apply Hj; lia].
  - intros j Hj'. destruct (decide (j < start2 + m)%nat); [apply Hno; lia|].
    destruct (decide (j = start2 + m)%nat) as [->|]; [done|apply IH; lia].
Qed.

(** [r] is the index of the first occurrence, or NIL when there is none. *)
Definition first_occurrence (t1 t2 : list Z) (r : obj) : Prop :=
  (∃ i, r = MKCL_MAKE_FIXNUM (Z.of_nat i) ∧ occurs_at t1 t2 i ∧ ∀ j, (j < i)%nat → ¬ occurs_at t1 t2 j) ∨
  (r = ONil ∧ ∀ j, ¬ occurs_at t1 t2 j).

Lemma search_chars_spec t1 t2 : first_occurrence t1 t2 (search_chars t1 t2).
Proof.
  destruct t1 as [|ch0 rest]; unfold search_chars.
  { left. exists O. split_and!; [done| |lia]. by exists [], t2. }
  pose proof (search_from_spec (S (length t2)) ch0 rest t2 0 ltac:(lia)) as Hs. change (Z.of_nat 0) with 0 in Hs.
  destruct (search_from _ _ _ _ _ _ _) as [s|].
  - destruct Hs as (i & -> & Ho & Hj). left. exists i. split_and!; [done..|]. intros j Hj'. apply Hj. lia.
  - right. split; [done|]. intros j. apply Hs. lia.
Qed.

Section search.
Context `{!Vectors} (fuel : nat) (empty_string empty_base_string : obj).

Lemma alloc_read (x : Z → obj) l h : (x = OString ∨ x = OBaseString) →
  let h' := <[first_free h := CStr l]> h in h ⊆ h' ∧ read_string (x (first_free h)) h' = Done l h'.
Proof.
  intros Hx h'. split; [apply insert_subseteq, first_free_fresh|].
  destruct Hx as [-> | ->]; simpl; unfold h'; by rewrite lookup_insert_eq.
Qed.

(** A base string for a string is a copy of it, or an error. *)
Lemma to_base_spec x l h : is_text x l h → MKCL_CHARACTER_STRING_P x = true →
  if forallb MKCL_BASE_CHAR_CODE_P l then
    ∃ r h', mkcl_coerce_to_base_string fuel empty_base_string x h = Done r h' ∧ h ⊆ h' ∧
      read_string r h' = Done l h' ∧ MKCL_BASE_STRING_P r = true
  else mkcl_coerce_to_base_string fuel empty_base_string x h =
    Fail (FEerror "Cannot coerce string ~A to a base-string" [x]) h.
Proof.
  intros Ht Kx. destruct (text_string 0 x l h Ht) as (_ & _ & Hr & _).
  unfold mkcl_coerce_to_base_string. destruct x; try done. simpl.
  unfold string_to_base. rewrite (bind_Done _ _ _ _ _ Hr). unfold to_base. destruct (forallb _ l); [|done].
  rewrite bind_ret. destruct (alloc_read OBaseString l h) as [Hs' Hr']; [auto|]. eexists _, _. by split_and!.
Qed.

Lemma to_full_spec x l h : is_text x l h →
  ∃ r h', mk_si_coerce_to_character_string fuel empty_string x h = Done r h' ∧ h ⊆ h' ∧
    read_string r h' = Done l h' ∧ MKCL_CHARACTER_STRING_P r = true.
Proof.
  intros Ht. destruct (text_string 0 x l h Ht) as (Hs & _ & Hr & _).
  unfold mk_si_coerce_to_character_string. destruct x as [| | | | | | | | | | |] eqn:Ex; try done; simpl.
  - by eexists _, _.
  - unfold string_to_full. rewrite (bind_Done _ _ _ _ _ Hr).
    destruct (alloc_read OString l h) as [Hs' Hr']; [auto|]. eexists _, _. by split_and!.
Qed.

Lemma assert_string_text x l h : is_text x l h → assert_string x h = Done tt h.
Proof. intros Ht. destruct (text_string 0 x l h Ht) as (Hs & _). unfold assert_string. by rewrite Hs. Qed.

Lemma searched_texts x1 t1 x2 t2 h : read_string x1 h = Done t1 h → read_string x2 h = Done t2 h →
  gives (first_occurrence t1 t2) (t1 ← read_string x1; t2 ← read_string x2; mret (search_chars t1 t2)) h.
Proof.
  intros R1 R2. eapply gives_bind_Done; [exact R1|]. eapply gives_bind_Done; [exact R2|].
  apply gives_ret, search_chars_spec.
Qed.

Lemma search_base_found y t1 x2 t2 h : read_string y h = Done t1 h → MKCL_BASE_STRING_P y = true →
  read_string x2 h = Done t2 h → MKCL_BASE_STRING_P x2 = true →
  gives (first_occurrence t1 t2) (mkcl_search_in_base_string y x2) h.
Proof.
  intros R1 K1 R2 K2. unfold mkcl_search_in_base_string, assert_base_string.
  rewrite K1, K2. do 2 (eapply gives_bind_Done; [done|]). by apply searched_texts.
Qed.

Lemma gives_after {A B} (P : B → Prop) (m : M A) (k : A → M B) h r h' :
  m h = Done r h' → h ⊆ h' → gives P (k r) h' → gives P (m ≫= k) h.
Proof.
  intros E Hh (r2 & h2 & E2 & HP & Hh2). exists r2, h2. rewrite (bind_Done _ _ _ _ _ E).
  split_and!; [done..|by etrans].
Qed.

(** SEARCH for a string in a string, of any kinds, gives the index of the first
    occurrence, or NIL when there is none; but a string with a character of more than 8
    bits cannot be searched for in a base string: that is an error. *)
Theorem strings_searched h x1 x2 t1 t2 :
  is_text x1 t1 h → is_text x2 t2 h →
  if MKCL_BASE_STRING_P x2 && MKCL_CHARACTER_STRING_P x1 && negb (forallb MKCL_BASE_CHAR_CODE_P t1) then
    mkcl_search_in_string fuel empty_string empty_base_string x1 x2 h =
    Fail (FEerror "Cannot coerce string ~A to a base-string" [x1]) h
  else gives (first_occurrence t1 t2) (mkcl_search_in_string fuel empty_string empty_base_string x1 x2) h.
Proof.
  intros Ht1 Ht2. pose proof (assert_string_text _ _ _ Ht1) as A1. pose proof (assert_string_text _ _ _ Ht2) as A2.
  destruct (text_string 0 x1 t1 h Ht1) as (S1 & _ & R1 & _). destruct (text_string 0 x2 t2 h Ht2) as (S2 & _ & R2 & _).
  pose proof (λ K, to_base_spec x1 t1 h Ht1 K) as Hbase. pose proof (to_full_spec x1 t1 h Ht1) as (y & h1 & Ec & Hh & Hy & _).
  unfold mkcl_search_in_string.
  destruct (MKCL_BASE_STRING_P x2) eqn:K2; simpl; [destruct (MKCL_CHARACTER_STRING_P x1) eqn:K1; simpl|].
  - specialize (Hbase eq_refl). destruct (forallb MKCL_BASE_CHAR_CODE_P t1); simpl.
    + destruct Hbase as (r & h' & Er & Hh' & Hr & Kr). destruct (Ht2 h' Hh') as (R2' & _).
      do 2 (eapply gives_bind_Done; [done|]). apply (gives_after _ _ _ _ _ _ Er Hh'). by apply search_base_found.
    + rewrite (bind_Done _ _ _ _ _ A1), (bind_Done _ _ _ _ _ A2). by apply bind_Fail.
  - do 3 (eapply gives_bind_Done; [done|]). apply search_base_found; [done| |done..]. by destruct x1.
  - do 2 (eapply gives_bind_Done; [done|]). destruct (Ht2 h1 Hh) as (R2' & _). destruct (MKCL_BASE_STRING_P x1) eqn:K1.
    + apply (gives_after _ _ _ _ _ _ Ec Hh). by apply searched_texts.
    + eapply gives_bind_Done; [done|]. by apply searched_texts.
Qed.
End search.

(** ** FILL

    [l] with [ch] from [s] below [e]. *)

Definition filled (l : list Z) (s e ch : Z) : list Z :=
  take (Z.to_nat s) l ++ replicate (Nat.min (Z.to_nat e) (length l) - Z.to_nat s) ch ++ drop (Z.to_nat e) l.

Lemma filled_lookup l s e ch i : 0 <= s <= e → s <= Z.of_nat (length l) →
  filled l s e ch !! i = if decide (Z.to_nat s <= i < Nat.min (Z.to_nat e) (length l))%nat then Some ch else l !! i.
Proof.
  intros Hs Hl. unfold filled. destruct (decide (i < Z.to_nat s)%nat) as [Hi|Hi].
  { rewrite lookup_app_l by (rewrite length_take; lia). rewrite lookup_take_lt by lia. by rewrite decide_False by lia. }
  rewrite lookup_app_r, length_take, Nat.min_l by (rewrite ?length_take; lia). case_decide as Hd.
  { rewrite lookup_app_l by (rewrite length_replicate; lia). apply lookup_replicate_2. lia. }
  rewrite lookup_app_r, length_replicate, lookup_drop by (rewrite ?length_replicate; lia).
  destruct (decide (i < length l)%nat).
  - f_equal. lia.
  - rewrite !lookup_ge_None_2; [done|lia|lia].
Qed.

Lemma set_elements_spec `{!Vectors} x a l dim ch s n h :
  string_addr x = Some a → h !! a = Some (CStr l) → array_dim x h = Done dim h →
  0 <= s → 0 <= n → s <= Z.of_nat (length l) →
  set_elements x s n ch h =
    if dim + 1 <? s + n then Fail Segfault h else Done tt (<[a := CStr (filled l s (s + n) ch)]> h).
Proof.
  intros Ha Hl Ed Hs Hn Hsl. unfold set_elements. rewrite (bind_Done _ _ _ _ _ Ed). destruct (_ <? _); [done|].
  assert (read_string x h = Done l h) as Er by (destruct x; simplify_eq/=; by rewrite Hl).
  rewrite (bind_Done _ _ _ _ _ Er). unfold write_string. rewrite Ha. unfold write_cell. do 3 f_equal.
  unfold filled. f_equal. f_equal; [f_equal; lia|].
  destruct (decide (Z.to_nat n <= length l - Z.to_nat s)%nat).
  - f_equal. lia.
  - rewrite !drop_ge; [done|lia|lia].
Qed.

Section fill.
Context `{!Vectors}.

(** The FILL of strings with bounds takes the end for the number of characters, or
    the fill pointer for a base string: it writes from the start as many characters as
    that, outside of the block when they are too many; what it leaves is what FILL must
    leave exactly when the characters after the end were the new one already. *)
Theorem fill_overruns x a l dim ch s e h :
  string_addr x = Some a → h !! a = Some (CStr l) → array_dim x h = Done dim h →
  0 <= s <= e → 0 < e → e <= Z.of_nat (length l) → Z.of_nat (length l) < half_modulus →
  (MKCL_BASE_STRING_P x = true → ch <= 255) →
  let n := if MKCL_BASE_STRING_P x then Z.of_nat (length l) else e in
  mkcl_fill_string_k x ch s e h =
    (if dim + 1 <? s + n then Fail Segfault h else Done x (<[a := CStr (filled l s (s + n) ch)]> h)) ∧
  (filled l s (s + n) ch = filled l s e ch ↔
    ∀ i, (Z.to_nat e <= i < Nat.min (Z.to_nat (s + n)) (length l))%nat → l !! i = Some ch).
Proof.
  intros Ha Hl Ed Hs He Hle Hhalf Hch n. assert (0 <= n ∧ e <= s + n) as [Hn0 Hn] by (unfold n; destruct MKCL_BASE_STRING_P; lia).
  split.
  - assert (read_string x h = Done l h) as Er by (destruct x; simplify_eq/=; by rewrite Hl).
    assert (fillp x h = Done (Z.of_nat (length l)) h) as Ef by (unfold fillp; by rewrite (bind_Done _ _ _ _ _ Er)).
    assert (word_bounds x s e h = Done (s, e) h) as Eb.
    { unfold word_bounds. rewrite (bind_Done _ _ _ _ _ Ef). rewrite (proj2 (Z.eqb_neq e _)) by (unfold_words; lia).
      by rewrite !(proj2 (Z.ltb_ge _ _)) by lia. }
    assert (assert_string x h = Done tt h) as Ea by (unfold assert_string; by destruct x).
    assert (mkcl_fill_string_k x ch s e h = (set_elements x s n ch;; mret x) h) as ->.
    { unfold mkcl_fill_string_k. rewrite (bind_Done _ _ _ _ _ Ea), (bind_Done _ _ _ _ _ Eb). unfold n, check_base_char, when.
      destruct x; try done; simpl.
      - by rewrite (proj2 (Z.eqb_neq e 0)) by lia.
      - rewrite (bind_Done _ _ _ _ _ Ef). unfold MKCL_BASE_CHAR_CODE_P. rewrite (proj2 (Z.leb_le _ _)) by auto.
        rewrite bind_ret. by rewrite (proj2 (Z.eqb_neq _ 0)) by lia. }
    pose proof (set_elements_spec x a l dim ch s n h Ha Hl Ed ltac:(lia) Hn0 ltac:(lia)) as Es.
    destruct (_ <? _); [by apply bind_Fail|]. by rewrite (bind_Done _ _ _ _ _ Es).
  - split.
    + intros Hf i Hi. apply (f_equal (.!! i)) in Hf. rewrite !filled_lookup in Hf by lia.
      rewrite decide_True, decide_False in Hf by lia. by rewrite Hf.
    + intros Hf. apply list_eq. intros i. rewrite !filled_lookup by lia.
      repeat case_decide; try lia; try done. symmetry. apply Hf. lia.
Qed.
End fill.

(** ** Trimming *)

(** A string of the kind of [x]. *)
Definition of_kind (x : obj) (a : Z) : obj := match x with OString _ => OString a | _ => OBaseString a end.

Lemma subseq_between `{!GMP, !Vectors} fuel x l s e h :
  read_string x h = Done l h → 0 <= s <= e → e <= Z.of_nat (length l) → is_fixnum (Z.of_nat (length l)) →
  mk_cl_subseq fuel x (MKCL_MAKE_FIXNUM s) (MKCL_MAKE_FIXNUM e) h =
  Done (of_kind x (first_free h)) (<[first_free h := CStr (between l s e)]> h).
Proof.
  intros Hr Hs He Hf. unfold mk_cl_subseq, MKCL_MAKE_FIXNUM. rewrite !fixnum_wrap_small by (unfold_words; lia).
  assert (∀ z, 0 <= z → z <= Z.of_nat (length l) → mkcl_integer_to_index (OFix z) h = Done z h) as Hi.
  { intros z Hz Hz'. unfold mkcl_integer_to_index. by rewrite (proj2 (Z.leb_le _ _)) by lia. }
  rewrite (bind_Done _ _ _ _ _ (Hi s ltac:(lia) ltac:(lia))). cbn [mkcl_Null]. cbv iota.
  rewrite bind_assoc, (bind_Done _ _ _ _ _ (Hi e ltac:(lia) ltac:(lia))), bind_ret.
  rewrite !swrap_small by (unfold_words; lia).
  assert (subseq_words fuel (OFix s) (OFix e) x s e h = copy_substring x s (e - s) h) as ->.
  { unfold subseq_words. assert (∀ z, subseq_vector (OFix s) (OFix e) x s e z (copy_substring x) h =
      if z <? s then illegal_start_end (OFix s) (OFix e) x h else if (e <? s) || (z <? e) then
        illegal_start_end (OFix s) (OFix e) x h else copy_substring x s (e - s) h) as Hv.
    { intros z. unfold subseq_vector, uwrap. rewrite Z.mod_small by (unfold_words; lia).
      destruct (z <? s); [done|]. rewrite (proj2 (Z.ltb_ge e 0)) by lia. by destruct (_ || _). }
    assert ((str ← read_string x; subseq_vector (OFix s) (OFix e) x s e (Z.of_nat (length str)) (copy_substring x)) h =
      copy_substring x s (e - s) h) as Hc.
    { rewrite (bind_Done _ _ _ _ _ Hr), Hv. rewrite !(proj2 (Z.ltb_ge _ _)) by lia. done. }
    destruct x; try done. }
  unfold copy_substring. rewrite (bind_Done _ _ _ _ _ Hr). unfold between. by destruct x.
Qed.

Section trim.
Context `{!GMP, !Vectors} (fuel : nat).

(** [P] are the characters of the bag. *)
Definition bag_is (bag : obj) (P : Z → bool) (h : heap) : Prop :=
  ∀ c, mkcl_member_char fuel c bag h = Done (P c) h.

Lemma bag_string bag l h : read_string bag h = Done l h → bag_is bag (λ c, existsb (λ o, c =? o) l) h.
Proof. intros Hr c. unfold mkcl_member_char. destruct bag; try done; by rewrite (bind_Done _ _ _ _ _ Hr). Qed.

Fixpoint drop_while (P : Z → bool) (l : list Z) : list Z :=
  match l with [] => [] | c :: l' => if P c then drop_while P l' else l end.

Definition drop_while_right (P : Z → bool) (l : list Z) : list Z := reverse (drop_while P (reverse l)).

Lemma drop_while_split P l : ∃ k, l = k ++ drop_while P l ∧ Forall P k ∧
  ∀ c, head (drop_while P l) = Some c → P c = false.
Proof.
  induction l as [|c l IH]; [by exists []|]. simpl. destruct (P c) eqn:Hc.
  - destruct IH as (k & E & Hk & Hh). exists (c :: k). simpl. rewrite <- E. split_and!; [done| |done].
    constructor; [by rewrite Hc|done].
  - exists []. split_and!; [done..|]. by intros d [= ->].
Qed.

Lemma drop_while_right_snoc P l c :
  drop_while_right P (l ++ [c]) = if P c then drop_while_right P l else l ++ [c].
Proof.
  unfold drop_while_right. rewrite reverse_snoc. simpl. destruct (P c); [done|].
  by rewrite reverse_cons, reverse_involutive.
Qed.

Lemma trim_left_spec bag x P l h i n : is_text x l h → bag_is bag P h → 0 <= i → Z.of_nat n = Z.of_nat (length l) - i →
  trim_left fuel n bag x i h = Done (Z.of_nat (length l - length (drop_while P (drop (Z.to_nat i) l)))) h.
Proof.
  intros Ht Hb. revert i. induction n as [|n IH]; intros i Hi Hn; simpl.
  { rewrite drop_ge by lia. simpl. unfold mret, M_ret. f_equal. lia. }
  destruct (lookup_lt_is_Some_2 l (Z.to_nat i)) as [c Hc]; [lia|].
  pose proof (char_text _ _ _ _ _ Ht Hc) as Ec. rewrite Z2Nat.id in Ec by lia.
  rewrite (bind_Done _ _ _ _ _ Ec), (bind_Done _ _ _ _ _ (Hb c)), (drop_S l c) by done. simpl.
  destruct (P c); simpl.
  - rewrite IH by lia. by replace (Z.to_nat (i + 1)) with (S (Z.to_nat i)) by lia.
  - unfold mret, M_ret. f_equal. rewrite length_drop. lia.
Qed.

Lemma trim_right_spec bag x P l h i j n : is_text x l h → bag_is bag P h → 0 <= i → Z.of_nat n = j - i →
  j <= Z.of_nat (length l) →
  trim_right fuel n bag x j h = Done (i + Z.of_nat (length (drop_while_right P (between l i j)))) h.
Proof.
  intros Ht Hb Hi. revert j. induction n as [|n IH]; intros j Hn Hj; simpl.
  { rewrite between_nil by lia. simpl. unfold mret, M_ret. f_equal. lia. }
  destruct (lookup_lt_is_Some_2 l (Z.to_nat (j - 1))) as [c Hc]; [lia|].
  pose proof (char_text _ _ _ _ _ Ht Hc) as Ec. rewrite Z2Nat.id in Ec by lia.
  assert (between l i j = between l i (j - 1) ++ [c]) as Ej.
  { unfold between. replace (Z.to_nat (j - i)) with (S (Z.to_nat (j - 1 - i))) by lia.
    apply take_S_r. rewrite lookup_drop. rewrite <- Hc. f_equal. lia. }
  rewrite (bind_Done _ _ _ _ _ Ec), (bind_Done _ _ _ _ _ (Hb c)), Ej, drop_while_right_snoc.
  destruct (P c); simpl; [by apply IH; lia|].
  unfold mret, M_ret. f_equal. rewrite <- Ej. unfold between. rewrite length_take, length_drop. lia.
Qed.
Lemma drop_while_right_split P l : ∃ k, l = drop_while_right P l ++ k ∧ Forall P k ∧
  ∀ c, last (drop_while_right P l) = Some c → P c = false.
Proof.
  destruct (drop_while_split P (reverse l)) as (k & E & Hk & Hh). exists (reverse k). unfold drop_while_right. split_and!.
  - rewrite <- reverse_app, <- E. by rewrite reverse_involutive.
  - by rewrite reverse_Permutation.
  - intros c. rewrite last_reverse. apply Hh.
Qed.

Lemma mkcl_length_text x l h : is_text x l h → mkcl_length fuel x h = Done (Z.of_nat (length l)) h.
Proof.
  intros Ht. destruct (text_string 0 x l h Ht) as (_ & _ & Hr & _).
  unfold mkcl_length. destruct x; try done; by rewrite (bind_Done _ _ _ _ _ Hr).
Qed.

(** STRING-TRIM and its left and right halves give a fresh string of the same kind:
    the string without the characters of the bag at the ends that are trimmed, whose
    first and last characters are not of the bag. *)
Theorem strings_trimmed (left_trim right_trim : bool) bag P x l h :
  is_text x l h → bag_is bag P h → is_fixnum (Z.of_nat (length l)) →
  ∃ pre t post, l = pre ++ t ++ post ∧ Forall P pre ∧ Forall P post ∧
    (if left_trim then ∀ c, head t = Some c → P c = false else pre = []) ∧
    (if right_trim then ∀ c, last t = Some c → P c = false else post = []) ∧
    string_trim0 fuel left_trim right_trim bag x h =
      Done (of_kind x (first_free h)) (<[first_free h := CStr t]> h).
Proof.
  intros Ht Hb Hf. destruct (text_string fuel x l h Ht) as (_ & Es & Hr & _).
  pose proof (mkcl_length_text x l h Ht) as El.
  assert (∃ pre u, l = pre ++ u ∧ Forall P pre ∧ (if left_trim then ∀ c, head u = Some c → P c = false else pre = []) ∧
    (if left_trim then trim_left fuel (length l) bag x 0 else mret 0) h = Done (Z.of_nat (length pre)) h) as Hl.
  { destruct left_trim; [|by exists [], l].
    destruct (drop_while_split P l) as (pre & E & Hp & Hh). exists pre, (drop_while P l). split_and!; [done..|].
    rewrite (trim_left_spec bag x P l h 0) by (done || lia). simpl. rewrite drop_0. do 2 f_equal.
    rewrite E at 1. rewrite length_app. lia. }
  destruct Hl as (pre & u & -> & Hp & Hh & Ei). rewrite length_app in *.
  assert (∃ t post, u = t ++ post ∧ Forall P post ∧ (if right_trim then ∀ c, last t = Some c → P c = false else post = []) ∧
    (if right_trim then trim_right fuel (length u) bag x (Z.of_nat (length pre + length u)) else
      mret (Z.of_nat (length pre + length u))) h = Done (Z.of_nat (length pre + length t)) h) as Hright.
  { destruct right_trim; [|by exists u, []; rewrite app_nil_r].
    destruct (drop_while_right_split P u) as (post & E & Hpost & Hlast). exists (drop_while_right P u), post.
    split_and!; [done..|]. rewrite (trim_right_spec bag x P (pre ++ u) h (Z.of_nat (length pre)))
      by (done || rewrite ?length_app; lia).
    unfold between. rewrite Nat2Z.id, drop_app_length, take_ge by lia. f_equal. lia. }
  destruct Hright as (t & post & -> & Hpost & Hlast & Ej). exists pre, t, post. split_and!; [done..| |done|].
  - destruct left_trim; [|done]. intros c Hc. apply Hh. by destruct t.
  - rewrite length_app in *. unfold string_trim0.
    rewrite (bind_Done _ _ _ _ _ Es), (bind_Done _ _ _ _ _ El), Nat2Z.id, (bind_Done _ _ _ _ _ Ei).
    replace (Z.to_nat (Z.of_nat (length pre + (length t + length post)) - Z.of_nat (length pre))) with (length t + length post)%nat by lia.
    rewrite (bind_Done _ _ _ _ _ Ej), (subseq_between fuel x (pre ++ t ++ post)) by (rewrite ?length_app; done || lia).
    do 3 f_equal. unfold between. rewrite Nat2Z.id, drop_app_length.
    replace (Z.to_nat (Z.of_nat (length pre + length t) - Z.of_nat (length pre))) with (length t) by lia.
    by rewrite take_app_length.
Qed.
End trim.

(** ** Case *)

Definition case_function (casefun : Z → bool → M (Z * bool)) (f : Z → Z) : Prop := ∀ c b, casefun c b = mret (f c, b).

Lemma case_chars_map casefun f x t b h : case_function casefun f →
  case_chars casefun x t b h = Done ((stored_char x ∘ f) <$> t) h.
Proof.
  intros Hf. induction t as [|c t IH]; [done|]. simpl. by rewrite Hf, bind_ret, (bind_Done _ _ _ _ _ IH).
Qed.

(** [t] is [l] with the characters from [s] below [e] mapped. *)
Definition mapped (f : Z → Z) (l : list Z) (s e : Z) : list Z :=
  take (Z.to_nat s) l ++ (f <$> between l s e) ++ drop (Z.to_nat e) l.

Section case.
Context `{!GMP, !Vectors} (fuel : nat).

Lemma case_in_place_spec casefun f x a l s e h : case_function casefun f →
  string_addr x = Some a → h !! a = Some (CStr l) →
  case_in_place casefun x s e h = Done tt (<[a := CStr (mapped (stored_char x ∘ f) l s e)]> h).
Proof.
  intros Hf Ha Hl. assert (read_string x h = Done l h) as Er by (destruct x; simplify_eq/=; by rewrite Hl).
  unfold case_in_place. rewrite (bind_Done _ _ _ _ _ Er), (bind_Done _ _ _ _ _ (case_chars_map _ _ _ _ _ _ Hf)).
  unfold write_string. by rewrite Ha.
Qed.

Lemma copy_seq_text x l h : read_string x h = Done l h → is_fixnum (Z.of_nat (length l)) →
  mk_cl_copy_seq fuel x h = Done (of_kind x (first_free h)) (<[first_free h := CStr l]> h).
Proof.
  intros Hr Hf. unfold mk_cl_copy_seq, mk_cl_subseq. cbn [mkcl_Null MKCL_MAKE_FIXNUM].
  assert (subseq_words fuel (MKCL_MAKE_FIXNUM 0) ONil x 0 (-1) h =
    (str ← read_string x; copy_substring x 0 (Z.of_nat (length str) - 0)) h) as Hc.
  { assert (∀ z, 0 <= z → subseq_vector (MKCL_MAKE_FIXNUM 0) ONil x 0 (-1) z (copy_substring x) =
      copy_substring x 0 (z - 0)) as Hv.
    { intros z Hz. unfold subseq_vector. change (uwrap 0) with 0. by rewrite (proj2 (Z.ltb_ge _ _)). }
    destruct x; try done; unfold subseq_words; rewrite !(bind_Done _ _ _ _ _ Hr), Hv by lia; done. }
  change ((subseq_words fuel (MKCL_MAKE_FIXNUM 0) ONil x 0 (-1)) h = Done (of_kind x (first_free h)) (<[first_free h := CStr l]> h)).
  rewrite Hc, (bind_Done _ _ _ _ _ Hr). unfold copy_substring. rewrite (bind_Done _ _ _ _ _ Hr).
  rewrite take_ge by (rewrite length_drop; lia). by destruct x.
Qed.

(** NSTRING-UPCASE and NSTRING-DOWNCASE change in place the characters between the
    bounds, each to its other case, and STRING-UPCASE and STRING-DOWNCASE those of a
    fresh copy.  In a base string only the low 8 bits of the other case are kept:
    upper case is right there for all characters but 0xFF, which becomes the letter x. *)
Theorem strings_cased casefun f x a l start end_ s e h :
  (casefun, f) = (char_upcase, mkcl_char_upcase) ∨ (casefun, f) = (char_downcase, mkcl_char_downcase) →
  string_addr x = Some a → h !! a = Some (CStr l) → is_text x l h → bounds_are l start end_ s e →
  is_fixnum (Z.of_nat (length l)) →
  let t := mapped (stored_char x ∘ f) l s e in
  nstring_case casefun x start end_ h = Done x (<[a := CStr t]> h) ∧
  string_case fuel casefun x start end_ h = Done (of_kind x (first_free h)) (<[first_free h := CStr t]> h) ∧
  (∀ c, 0 <= c <= 255 → MKCL_BASE_STRING_P x = true →
     stored_char x (mkcl_char_upcase c) =
     if c =? 0xFF then 0x78 else mkcl_char_upcase c).
Proof.
  intros Hcf Ha Hl Ht Hb Hfix t.
  assert (case_function casefun f) as Hf by (destruct Hcf as [[= -> ->]|[= -> ->]]; done).
  destruct (text_string fuel x l h Ht) as (Est & Es & Er & _). split_and!.
  - unfold nstring_case. rewrite Est. simpl. rewrite (bind_Done _ _ _ _ _ (start_end_given _ _ _ _ _ _ _ Ht Hb)).
    by rewrite (bind_Done _ _ _ _ _ (case_in_place_spec _ _ _ _ _ _ _ _ Hf Ha Hl)).
  - unfold string_case. rewrite (bind_Done _ _ _ _ _ Es), (bind_Done _ _ _ _ _ (copy_seq_text _ _ _ Er Hfix)).
    set (h' := <[first_free h := CStr l]> h). set (y := of_kind x (first_free h)).
    assert (string_addr y = Some (first_free h)) as Hay by (unfold y; by destruct x).
    assert (h' !! first_free h = Some (CStr l)) as Hly by (unfold h'; by rewrite lookup_insert_eq).
    assert (mkcl_get_string_start_end y start end_ h' = Done (s, e) h') as Ebd.
    { destruct Hb as (-> & He & Hs & Hle). unfold mkcl_get_string_start_end. rewrite (proj2 (Z.ltb_ge s 0)) by lia.
      assert (fillp y h' = Done (Z.of_nat (length l)) h') as Ef.
      { unfold fillp. assert (read_string y h' = Done l h') as R by (destruct y; simplify_eq/=; by rewrite Hly).
        by rewrite (bind_Done _ _ _ _ _ R). }
      rewrite (bind_Done _ _ _ _ _ Ef). destruct He as [->|[-> ->]]; by rewrite !(proj2 (Z.ltb_ge _ _)) by lia. }
    rewrite (bind_Done _ _ _ _ _ Ebd), (bind_Done _ _ _ _ _ (case_in_place_spec _ _ _ _ _ _ _ _ Hf Hay Hly)).
    unfold mret, M_ret, h'. rewrite insert_insert_eq. cbn [fst snd].
    replace (mapped (stored_char y ∘ f) l s e) with t; [done|].
    unfold t, mapped, y. do 2 f_equal. apply list_fmap_ext. intros _ c _. simpl. by destruct x.
  - intros c Hc Kx.
    unfold stored_char. rewrite Kx.
    assert (forallb (λ c, mkcl_char_upcase c mod 256 =? (if c =? 0xFF then 0x78 else mkcl_char_upcase c))
      (seqZ 0 256) = true) as Hall by (vm_compute; done).
    rewrite forallb_forall in Hall. apply Z.eqb_eq, Hall, list_elem_of_In, elem_of_seqZ. lia.
Qed.
End case.
