(* ===== verification/Readtable.v ===== *)
(** * Readtable: the state of the reader, and read tables, src/src/c/read.c

    A function of the reader changes the heap, the packages, the read tables and the
    stream it reads, which is the list of the characters left; it is a computation
    [RM A := rstate → routcome A], and the computations of the heap and of the package
    system are run inside it.  A read table and the table of a dispatching macro
    character are objects with an identity: two read tables can share a table. *)

From S2P Require Import Prelude Words Objects Heap Lists Sequences Chars Packages.
#[local] Open Scope Z_scope.

(** ** Data *)

Inductive chattrib :=
| mkcl_cat_whitespace | mkcl_cat_terminating | mkcl_cat_non_terminating
| mkcl_cat_single_escape | mkcl_cat_multiple_escape | mkcl_cat_constituent.

#[export] Instance chattrib_eq_dec : EqDecision chattrib.
Proof. solve_decision. Defined.

Inductive readtable_case := mkcl_case_upcase | mkcl_case_downcase | mkcl_case_invert | mkcl_case_preserve.

#[export] Instance readtable_case_eq_dec : EqDecision readtable_case.
Proof. solve_decision. Defined.

(** The functions that [mkcl_init_read] puts into the standard read table, and others. *)
Inductive macro_fun :=
| F_double_quote | F_single_quote | F_left_parenthesis | F_right_parenthesis
| F_comma | F_semicolon | F_backquote | F_dispatch
| F_sharp_C | F_sharp_backslash | F_sharp_single_quote | F_sharp_left_parenthesis
| F_sharp_asterisk | F_sharp_colon | F_sharp_dot | F_sharp_B | F_sharp_O | F_sharp_X
| F_sharp_R | F_sharp_A | F_sharp_S | F_sharp_P | F_sharp_eq | F_sharp_sharp
| F_void | F_sharp_vertical_bar | F_sharp_dollar | F_lisp (f : obj).

(** The field [dispatch] of an entry: NIL, the hash table of a dispatching macro
    character, or a function. *)
Inductive macro := MNil | MTable (t : Z) | MFun (f : macro_fun).

Record entry := Entry { syntax_type : chattrib; dispatch : macro }.

Record readtable := Readtable {
  readtable_read_case : readtable_case;
  rt_table : list entry;                   (* the base characters *)
  rt_hash : option (gmap Z entry);         (* the others *)
}.

Definition MKCL_RTABSIZE : Z := 256.

(** The stream, the heap, the packages, the read tables, the tables of dispatching
    macro characters, the values of *READTABLE* ([None]: not a read table) and of
    SI::*BACKQ-LEVEL*. *)
Record rstate := RState {
  rs_in : list Z;
  rs_heap : heap;
  rs_packs : pstate;
  rs_readtables : gmap Z readtable;
  rs_tables : gmap Z (gmap Z macro_fun);
  rs_readtable : option Z;
  rs_backq_level : Z;
}.

Inductive rerror :=
| RLisp (e : lisp_error)
| RPackage (e : perror)
| FEend_of_file
| FEreader_error (msg : string) (args : list obj)
| FEnot_readtable                     (* not a read table where one is required *)
| objnull_stored                      (* MKCL_OBJNULL becomes an element of a list *)
| dangling_table.                     (* no such read table *)

Inductive routcome (A : Type) :=
| RDone (a : A) (s : rstate)
| RFail (e : rerror) (s : rstate)
| RDiverge.
Arguments RDone {A} _ _.
Arguments RFail {A} _ _.
Arguments RDiverge {A}.

Definition RM (A : Type) : Type := rstate → routcome A.
#[export] Instance RM_ret : MRet RM := λ A a s, RDone a s.
#[export] Instance RM_bind : MBind RM := λ A B k m s,
  match m s with
  | RDone a s' => k a s'
  | RFail e s' => RFail e s'
  | RDiverge => RDiverge
  end.

Definition rraise {A} (e : rerror) : RM A := λ s, RFail e s.
Definition rdiverge {A} : RM A := λ _, RDiverge.
Definition reader_error {A} (msg : string) (args : list obj) : RM A := rraise (FEreader_error msg args).
Definition rerror_msg {A} (msg : string) (args : list obj) : RM A := rraise (RLisp (FEerror msg args)).

Definition set_in (l : list Z) (s : rstate) : rstate :=
  RState l (rs_heap s) (rs_packs s) (rs_readtables s) (rs_tables s) (rs_readtable s) (rs_backq_level s).
Definition set_heap (h : heap) (s : rstate) : rstate :=
  RState (rs_in s) h (rs_packs s) (rs_readtables s) (rs_tables s) (rs_readtable s) (rs_backq_level s).
Definition set_packs (p : pstate) (s : rstate) : rstate :=
  RState (rs_in s) (rs_heap s) p (rs_readtables s) (rs_tables s) (rs_readtable s) (rs_backq_level s).
Definition set_readtables (f : gmap Z readtable → gmap Z readtable) (s : rstate) : rstate :=
  RState (rs_in s) (rs_heap s) (rs_packs s) (f (rs_readtables s)) (rs_tables s) (rs_readtable s) (rs_backq_level s).
Definition set_tables (f : gmap Z (gmap Z macro_fun) → gmap Z (gmap Z macro_fun)) (s : rstate) : rstate :=
  RState (rs_in s) (rs_heap s) (rs_packs s) (rs_readtables s) (f (rs_tables s)) (rs_readtable s) (rs_backq_level s).
Definition set_readtable (r : option Z) (s : rstate) : rstate :=
  RState (rs_in s) (rs_heap s) (rs_packs s) (rs_readtables s) (rs_tables s) r (rs_backq_level s).
Definition set_backq_level (n : Z) (s : rstate) : rstate :=
  RState (rs_in s) (rs_heap s) (rs_packs s) (rs_readtables s) (rs_tables s) (rs_readtable s) n.

Definition rget : RM rstate := λ s, RDone s s.
Definition rmodify (f : rstate → rstate) : RM unit := λ s, RDone tt (f s).

(** The computations of the heap and of the packages. *)
Definition heapM {A} (m : M A) : RM A := λ s,
  match m (rs_heap s) with
  | Done a h => RDone a (set_heap h s)
  | Fail e h => RFail (RLisp e) (set_heap h s)
  | Diverge => RDiverge
  end.
Definition packM {A} (m : PM A) : RM A := λ s,
  match m (rs_packs s) with
  | PDone a st => RDone a (set_packs st s)
  | PFail e st => RFail (RPackage e) (set_packs st s)
  | PDiverge => RDiverge
  end.

(** ** The stream *)

(** EOF, as a value of [mkcl_character]. *)
Definition EOF : Z := 2 ^ 32 - 1.

Definition mkcl_read_char : RM Z := λ s,
  match rs_in s with [] => RDone EOF s | c :: l => RDone c (set_in l s) end.
Definition mkcl_read_char_noeof : RM Z :=
  c ← mkcl_read_char; if c =? EOF then rraise FEend_of_file else mret c.
Definition mkcl_unread_char (c : Z) : RM unit := λ s, RDone tt (set_in (c :: rs_in s) s).
Definition mkcl_peek_char : RM Z := λ s,
  match rs_in s with [] => RDone EOF s | c :: _ => RDone c s end.

(** As many steps as there are characters, and one for the end of the stream. *)
Definition stream_fuel : RM nat := s ← rget; mret (S (length (rs_in s))).

(** ** Access *)

Definition find_readtable (r : Z) : RM readtable := λ s,
  match rs_readtables s !! r with Some t => RDone t s | None => RFail dangling_table s end.
Definition find_table (t : Z) : RM (gmap Z macro_fun) := λ s,
  match rs_tables s !! t with Some m => RDone m s | None => RFail dangling_table s end.
Definition alloc_readtable (t : readtable) : RM Z := λ s,
  let r := first_free (rs_readtables s) in RDone r (set_readtables <[r := t]> s).
Definition alloc_table (m : gmap Z macro_fun) : RM Z := λ s,
  let t := first_free (rs_tables s) in RDone t (set_tables <[t := m]> s).
Definition update_table (t : Z) (f : gmap Z macro_fun → gmap Z macro_fun) : RM unit :=
  rmodify (set_tables (alter f t)).

Definition constituent : entry := Entry mkcl_cat_constituent MNil.

(** The entry of a character. *)
Definition entry_of (t : readtable) (c : Z) : entry :=
  if MKCL_RTABSIZE <=? c then default constituent (h ← rt_hash t; h !! c)
  else default constituent (rt_table t !! Z.to_nat c).

Definition mkcl_readtable_get (r c : Z) : RM (chattrib * macro) :=
  t ← find_readtable r;
  let e := entry_of t c in mret (syntax_type e, dispatch e).

Definition set_entry (c : Z) (e : entry) (t : readtable) : readtable :=
  if MKCL_RTABSIZE <=? c then
    Readtable (readtable_read_case t) (rt_table t) (Some (<[c := e]> (default ∅ (rt_hash t))))
  else Readtable (readtable_read_case t) (<[Z.to_nat c := e]> (rt_table t)) (rt_hash t).

Definition mkcl_readtable_set (r c : Z) (cat : chattrib) (macro_or_table : macro) : RM unit :=
  rmodify (set_readtables (alter (set_entry c (Entry cat macro_or_table)) r)).

Definition mkcl_invalid_constituent_character_p (c : Z) : bool := (c <=? 32) || (c =? 127).

(** ** Copies *)

Definition mk_si_copy_hash_table (t : Z) : RM Z := m ← find_table t; alloc_table m.

Definition copy_macro (d : macro) : RM macro :=
  match d with MTable t => t ← mk_si_copy_hash_table t; mret (MTable t) | _ => mret d end.

Fixpoint copy_entries (l : list entry) : RM (list entry) :=
  match l with
  | [] => mret []
  | e :: l => d ← copy_macro (dispatch e); l ← copy_entries l; mret (Entry (syntax_type e) d :: l)
  end.

(** The tables of the base characters are copied; the copy of [hash] has the same
    elements. *)
Definition mkcl_copy_readtable (from : Z) (to : option Z) : RM Z :=
  t ← find_readtable from;
  l ← copy_entries (rt_table t);
  let copy := Readtable (readtable_read_case t) l (rt_hash t) in
  match to with
  | None => alloc_readtable copy
  | Some r => rmodify (set_readtables <[r := copy]>);; mret r
  end.

Section with_standard.
Context (standard_readtable : Z).

Definition mkcl_current_readtable : RM Z :=
  s ← rget;
  match rs_readtable s with
  | Some r => mret r
  | None =>
      r ← mkcl_copy_readtable standard_readtable None;
      rmodify (set_readtable (Some r));;
      rerror_msg "The value of *READTABLE*, ~S, was not a readtable." []
  end.

(** ** The functions of Common Lisp

    An optional argument is missing, NIL, a read table or another object. *)
Inductive readtable_arg := Missing | GivenNil | Given (r : Z) | GivenOther.

Definition assert_readtable (a : readtable_arg) : RM Z :=
  match a with Given r => mret r | _ => rraise FEnot_readtable end.
Definition or_current (a : readtable_arg) : RM readtable_arg :=
  match a with Missing => r ← mkcl_current_readtable; mret (Given r) | _ => mret a end.
Definition nil_is_standard (a : readtable_arg) : readtable_arg :=
  match a with GivenNil | Missing => Given standard_readtable | _ => a end.

Definition mk_cl_copy_readtable (from to : readtable_arg) : RM Z :=
  from ← or_current from;
  from ← assert_readtable (nil_is_standard from);
  match to with
  | Missing | GivenNil => mkcl_copy_readtable from None
  | _ => to ← assert_readtable to; mkcl_copy_readtable from (Some to)
  end.

Definition mk_cl_readtable_case (r : readtable_arg) : RM readtable_case :=
  r ← assert_readtable r; t ← find_readtable r; mret (readtable_read_case t).

Definition with_case (m : readtable_case) (t : readtable) : readtable := Readtable m (rt_table t) (rt_hash t).

(** [None]: no keyword of a case. *)
Definition mk_si_readtable_case_set (r : readtable_arg) (mode : option readtable_case) : RM unit :=
  r ← assert_readtable r;
  match mode with
  | Some m => rmodify (set_readtables (alter (with_case m) r))
  | None => rraise (RLisp (FEwrong_type_argument ONil))
  end.

Definition mk_cl_set_syntax_from_char (tochr fromchr : obj) (tordtbl fromrdtbl : readtable_arg) : RM unit :=
  tordtbl ← or_current tordtbl;
  from ← assert_readtable (nil_is_standard fromrdtbl);
  to ← assert_readtable tordtbl;
  fc ← heapM (mkcl_char_code fromchr);
  tc ← heapM (mkcl_char_code tochr);
  e ← mkcl_readtable_get from fc;
  d ← copy_macro e.2;
  mkcl_readtable_set to tc e.1 d.

Definition mk_cl_set_macro_character (c : obj) (function : macro) (non_terminating_p : bool)
    (rt : readtable_arg) : RM unit :=
  rt ← or_current rt;
  r ← assert_readtable (nil_is_standard rt);
  c ← heapM (mkcl_char_code c);
  mkcl_readtable_set r c (if non_terminating_p then mkcl_cat_non_terminating else mkcl_cat_terminating) function.

Definition mk_cl_get_macro_character (c : obj) (rt : readtable_arg) : RM (macro * bool) :=
  r ← assert_readtable (nil_is_standard rt);
  c ← heapM (mkcl_char_code c);
  e ← mkcl_readtable_get r c;
  mret (match e.2 with MTable _ => MFun F_dispatch | d => d end, bool_decide (e.1 = mkcl_cat_non_terminating)).

Definition mk_cl_make_dispatch_macro_character (chr : obj) (non_terminating_p : bool) (rt : readtable_arg) : RM unit :=
  rt ← or_current rt;
  r ← assert_readtable rt;
  c ← heapM (mkcl_char_code chr);
  t ← alloc_table ∅;
  mkcl_readtable_set r c (if non_terminating_p then mkcl_cat_non_terminating else mkcl_cat_terminating) (MTable t).

(** The table of a dispatching macro character. *)
Definition dispatch_table (dspchr : obj) (rt : readtable_arg) : RM Z :=
  rt ← or_current rt;
  r ← assert_readtable (nil_is_standard rt);
  c ← heapM (mkcl_char_code dspchr);
  e ← mkcl_readtable_get r c;
  match e.2 with MTable t => mret t | _ => rerror_msg "~S is not a dispatch character." [dspchr] end.

(** The character in the other case. *)
Definition other_case (c : Z) : Z :=
  if mkcl_lower_case_p c then mkcl_char_upcase c
  else if mkcl_upper_case_p c then mkcl_char_downcase c else c.

(** [None] for NIL, which removes the function. *)
Definition mk_cl_set_dispatch_macro_character (dspchr subchr : obj) (fnc : option macro_fun)
    (rt : readtable_arg) : RM unit :=
  t ← dispatch_table dspchr rt;
  subcode ← heapM (mkcl_char_code subchr);
  let change (c : Z) : RM unit :=
    update_table t (match fnc with None => delete c | Some f => <[c := f]> end) in
  change subcode;; change (other_case subcode).

Definition mk_cl_get_dispatch_macro_character (dspchr subchr : obj) (rt : readtable_arg) : RM (option macro_fun) :=
  t ← dispatch_table dspchr rt;
  c ← heapM (mkcl_char_code subchr);
  d ← heapM (checked (mkcl_digitp c 10));
  if 0 <=? d then mret None else m ← find_table t; mret (m !! c).
End with_standard.

(** ** The standard read table *)

Fixpoint set_macros (r : Z) (l : list (Z * chattrib * macro)) : RM unit :=
  match l with
  | [] => mret tt
  | (c, cat, d) :: l => mkcl_readtable_set r c cat d;; set_macros r l
  end.

Fixpoint set_sharps (r : Z) (l : list (Z * macro_fun)) : RM unit :=
  match l with
  | [] => mret tt
  | (c, f) :: l => mk_cl_set_dispatch_macro_character r (OChar 35) (OChar c) (Some f) (Given r);; set_sharps r l
  end.

(** The standard read table, and the value of *READTABLE*, a copy of it in which [#!]
    has no function. *)
Definition mkcl_init_read : RM (Z * Z) :=
  r ← alloc_readtable (Readtable mkcl_case_upcase (replicate (Z.to_nat MKCL_RTABSIZE) constituent) None);
  set_macros r
    [(9, mkcl_cat_whitespace, MNil); (10, mkcl_cat_whitespace, MNil); (12, mkcl_cat_whitespace, MNil);
     (13, mkcl_cat_whitespace, MNil); (32, mkcl_cat_whitespace, MNil);
     (34, mkcl_cat_terminating, MFun F_double_quote); (39, mkcl_cat_terminating, MFun F_single_quote);
     (40, mkcl_cat_terminating, MFun F_left_parenthesis); (41, mkcl_cat_terminating, MFun F_right_parenthesis);
     (44, mkcl_cat_terminating, MFun F_comma); (59, mkcl_cat_terminating, MFun F_semicolon);
     (92, mkcl_cat_single_escape, MNil); (96, mkcl_cat_terminating, MFun F_backquote);
     (124, mkcl_cat_multiple_escape, MNil)];;
  mk_cl_make_dispatch_macro_character r (OChar 35) true (Given r);;
  set_sharps r
    [(67, F_sharp_C); (92, F_sharp_backslash); (39, F_sharp_single_quote); (40, F_sharp_left_parenthesis);
     (42, F_sharp_asterisk); (58, F_sharp_colon); (46, F_sharp_dot); (66, F_sharp_B); (79, F_sharp_O);
     (88, F_sharp_X); (82, F_sharp_R); (65, F_sharp_A); (83, F_sharp_S); (80, F_sharp_P); (61, F_sharp_eq);
     (35, F_sharp_sharp); (43, F_void); (45, F_void); (124, F_sharp_vertical_bar); (36, F_sharp_dollar)];;
  r2 ← mkcl_copy_readtable r None;
  rmodify (set_readtable (Some r2));;
  mk_cl_set_dispatch_macro_character r (OChar 35) (OChar 33) None (Given r2);;
  mret (r, r2).
