(* ===== verification/Reader.v ===== *)
(** * Reader: READ, src/src/c/read.c

    Tokens with their escapes and packages, and the functions of the macro characters.
    The function that reads an object calls itself through them, so they take it as the
    argument [read]; MKCL_OBJNULL, the end of the stream or the delimiter, is [None]. *)

From S2P Require Import Prelude Words Objects Heap Numbers Floats Equal Lists NumPred Arith NumComp ToFloat.
From S2P Require Import Hash HashTable ListSearch Sequences Chars Strings StrMake NumRead CharNames Backq.
From S2P Require Import Packages Readtable.
#[local] Open Scope Z_scope.

(** The read table that is standard, *READ-SUPPRESS*, whether a binary file is being
    loaded, the symbols that the reader makes or compares with, and the tables of
    names of characters. *)
Class ReadEnv := {
  standard_readtable : Z;
  read_suppress : bool;
  reading_fasl_file : bool;
  CL_function : Z;
  SI_DOT : Z;
  base_char_names : obj;
  extended_character_names : obj;
}.

(** Functions outside the sources modelled: those written in Lisp, and those of [#(],
    [#.], [#P], [#=] and [##].  They return their values. *)
Class MacroCalls := {
  funcall2 : macro_fun → Z → RM (list obj);
  funcall3 : macro_fun → Z → obj → RM (list obj);
}.

(** The symbol NIL is the object NIL. *)
Definition symbol_obj `{!Core} (s : sym) : obj := if s =? sym_nil then ONil else OSym s.

(** ** Tokens *)

(** Which characters of a token were escaped: intervals when the case is inverted, and
    otherwise only that some were. *)
Inductive escapes := Intervals (l : list (Z * Z)) | Escaped.

Definition no_escapes (e : escapes) : bool := match e with Intervals [] => true | _ => false end.

Record lexeme := Lexeme {
  lx_token : list Z;
  lx_pack : option pid;
  lx_external : bool;
  lx_colon : Z;
  lx_upcase : Z;
  lx_count : Z;
  lx_escape_list : escapes;
}.

Definition no_lexeme : lexeme := Lexeme [] None false 0 0 0 (Intervals []).

(** A character in the case given by [sign]. *)
Definition invert_char (sign c : Z) : Z :=
  if mkcl_upper_case_p c && (sign <? 0) then mkcl_char_downcase c
  else if mkcl_lower_case_p c && (0 <? sign) then mkcl_char_upcase c
  else c.

(** [for (; i > limit; i--)], with at most [n] steps. *)
Fixpoint invert_above (n : nat) (x : list Z) (i limit sign : Z) : list Z * Z :=
  match n with
  | O => (x, i)
  | S n =>
      if limit <? i then
        let x := match x !! Z.to_nat i with Some c => <[Z.to_nat i := invert_char sign c]> x | None => x end in
        invert_above n x (i - 1) limit sign
      else (x, i)
  end.

(** The index starts beyond the last character, where nothing of the token is. *)
Fixpoint invert_from (x : list Z) (i : Z) (escape_list : list (Z * Z)) (sign : Z) : list Z :=
  match escape_list with
  | [] => (invert_above (S (Z.to_nat i)) x i (-1) sign).1
  | (high_limit, low_limit) :: escape_list =>
      let '(x, i) := invert_above (S (Z.to_nat i)) x i high_limit sign in
      let i := Z.min i low_limit in
      if 0 <=? i then invert_from x i escape_list sign else x
  end.

Definition invert_buffer_case (x : list Z) (escape_list : list (Z * Z)) (sign : Z) : list Z :=
  invert_from x (Z.of_nat (length x)) escape_list sign.

(** When all the characters that were not escaped have one case, it is inverted. *)
Definition inverted (read_case : readtable_case) (lx : lexeme) : list Z :=
  match read_case, lx_escape_list lx with
  | mkcl_case_invert, Intervals l =>
      if lx_upcase lx =? lx_count lx then invert_buffer_case (lx_token lx) l (-1)
      else if lx_upcase lx =? - lx_count lx then invert_buffer_case (lx_token lx) l 1
      else lx_token lx
  | _, _ => lx_token lx
  end.

Definition push_char (c : Z) (lx : lexeme) : lexeme :=
  Lexeme (lx_token lx ++ [c]) (lx_pack lx) (lx_external lx) (lx_colon lx) (lx_upcase lx) (lx_count lx) (lx_escape_list lx).
Definition with_token (token : list Z) (lx : lexeme) : lexeme :=
  Lexeme token (lx_pack lx) (lx_external lx) (lx_colon lx) (lx_upcase lx) (lx_count lx) (lx_escape_list lx).
Definition with_colon (n : Z) (lx : lexeme) : lexeme :=
  Lexeme (lx_token lx) (lx_pack lx) (lx_external lx) n (lx_upcase lx) (lx_count lx) (lx_escape_list lx).
Definition add_case (up n : Z) (lx : lexeme) : lexeme :=
  Lexeme (lx_token lx) (lx_pack lx) (lx_external lx) (lx_colon lx) (lx_upcase lx + up) (lx_count lx + n) (lx_escape_list lx).
Definition escaped_interval (read_case : readtable_case) (b e : Z) (lx : lexeme) : lexeme :=
  Lexeme (lx_token lx) (lx_pack lx) (lx_external lx) (lx_colon lx) (lx_upcase lx) (lx_count lx)
    (match read_case with
     | mkcl_case_invert => Intervals ((b, e) :: match lx_escape_list lx with Intervals l => l | Escaped => [] end)
     | _ => Escaped
     end).

Definition token_length (lx : lexeme) : Z := Z.of_nat (length (lx_token lx)).

(** An unescaped constituent. *)
Definition push_cased (read_case : readtable_case) (c : Z) (lx : lexeme) : lexeme :=
  match read_case with
  | mkcl_case_preserve => push_char c lx
  | _ =>
      if mkcl_upper_case_p c then
        push_char (if bool_decide (read_case = mkcl_case_downcase) then mkcl_char_downcase c else c) (add_case 1 1 lx)
      else if mkcl_lower_case_p c then
        push_char (if bool_decide (read_case = mkcl_case_upcase) then mkcl_char_upcase c else c) (add_case (-1) 1 lx)
      else push_char c lx
  end.

(** A package that is waiting to be made, when a binary file is loaded. *)
Definition waiting_package `{!ReadEnv} (name : name) : RM (option pid) :=
  if negb reading_fasl_file then mret None
  else
    s ← rget;
    match list_find (λ w, w.1 = name) (st_waiting (rs_packs s)) with
    | Some (_, (_, p)) => mret (Some p)
    | None =>
        p ← packM (_mkcl_alloc_sized_package name 129 129);
        packM (modify (λ st, set_waiting ((name, p) :: st_waiting st) st));;
        mret (Some p)
    end.

Section reader.
Context `{!GMP, !GMPArith, !GMPText, !ToDouble, !Transcendental, !Memory, !Runtime, !RealArith, !HashEnv, !Vectors}.
Context `{!ReaderVars, !BackqSymbols, !Core, !Restarts, !ReadEnv, !MacroCalls}.
Context (fuel : nat) (empty_string empty_base_string : obj).

Abbreviation current_readtable := (mkcl_current_readtable standard_readtable).

(** What comes before the colons is the name of a package. *)
Definition take_package (read_case : readtable_case) (lx : lexeme) : RM lexeme :=
  let external := lx_colon lx =? 1 in
  let name := inverted read_case lx in
  p ← (match lx_token lx with
       | [] => mret (Some keyword_package, false)
       | _ => p ← packM (mk_cl_find_package (DString name)); mret (p, external)
       end);
  let '(p, external) := (p : option pid * bool) in
  p ← (match p with
       | Some _ => mret p
       | None =>
           if read_suppress then mret None
           else
             p ← waiting_package name;
             match p with
             | Some _ => mret p
             | None => rerror_msg "There is no package with the name ~A." []
             end
       end);
  mret (Lexeme [] p external 0 0 0 (Intervals [])).

(** [while (colon--)] *)
Definition push_colons (lx : lexeme) : lexeme :=
  with_colon (-1) (with_token (lx_token lx ++ replicate (Z.to_nat (lx_colon lx)) 58) lx).

(** At a character that is no colon. *)
Definition after_colons (read_case : readtable_case) (lx : lexeme) : RM lexeme :=
  if 2 <? lx_colon lx then mret (push_colons lx)
  else if negb (lx_colon lx =? 0) then take_package read_case lx
  else mret lx.

(** From the label [NEXT]: the next character and its attribute, or the end. *)
Definition next_char {A} (rt : Z) (k : Z → chattrib → RM A) (end_ : A) : RM A :=
  c ← mkcl_read_char;
  if c =? EOF then mret end_ else e ← mkcl_readtable_get rt c; k c e.1.

(** The characters up to the next multiple escape. *)
Fixpoint escaped_chars (n : nat) (rt : Z) (token : list Z) : RM (list Z) :=
  match n with
  | O => rdiverge
  | S n =>
      c ← mkcl_read_char_noeof;
      e ← mkcl_readtable_get rt c;
      match e.1 with
      | mkcl_cat_single_escape => c ← mkcl_read_char_noeof; escaped_chars n rt (token ++ [c])
      | mkcl_cat_multiple_escape => mret token
      | _ => escaped_chars n rt (token ++ [c])
      end
  end.

(** The loop from the label [LOOP], at the character [c] of attribute [a]. *)
Fixpoint lexeme_loop (n : nat) (only_token : bool) (rt : Z) (read_case : readtable_case) (c : Z) (a : chattrib)
    (lx : lexeme) : RM lexeme :=
  match n with
  | O => rdiverge
  | S n =>
      let next (lx : lexeme) : RM lexeme :=
        next_char rt (λ c a, lexeme_loop n only_token rt read_case c a lx) lx in
      if (c =? 58) && negb only_token && bool_decide (a = mkcl_cat_constituent) then
        next (with_colon (lx_colon lx + 1) lx)
      else
        lx ← after_colons read_case lx;
        match a with
        | mkcl_cat_single_escape =>
            c ← mkcl_read_char_noeof;
            next (push_char c (escaped_interval read_case (token_length lx) (token_length lx) lx))
        | mkcl_cat_multiple_escape =>
            let begin := token_length lx in
            k ← stream_fuel;
            token ← escaped_chars k rt (lx_token lx);
            let lx := with_token token lx in
            next (escaped_interval read_case begin (token_length lx - 1) lx)
        | mkcl_cat_whitespace | mkcl_cat_terminating => mkcl_unread_char c;; mret lx
        | _ =>
            if mkcl_invalid_constituent_character_p c then
              reader_error "While reading a lisp token, found invalid constituent character #\~:C" [OChar c]
            else next (push_cased read_case c lx)
        end
  end.

Definition read_lexeme (only_token : bool) (rt : Z) (read_case : readtable_case) (c : Z) (a : chattrib) : RM lexeme :=
  k ← stream_fuel; lexeme_loop (S k) only_token rt read_case c a no_lexeme.

(** The buffer string with the characters of a token. *)
Definition buffer_string (token : list Z) : RM obj := heapM (new_string token).

(** From the label [SYMBOL]. *)
Definition intern_token (read_case : readtable_case) (lx : lexeme) : RM obj :=
  let name := inverted read_case lx in
  match lx_pack lx with
  | Some p =>
      if lx_external lx then
        r ← packM (mkcl_find_symbol (DString name) (DPackage p));
        if bool_decide (r.2 = SYMBOL_IS_EXTERNAL) then mret (symbol_obj r.1)
        else rerror_msg "Cannot find the external symbol ~A in ~S." []
      else r ← packM (mkcl_intern fuel (DString name) (DPackage p)); mret (symbol_obj r.1)
  | None =>
      p ← packM mkcl_current_package;
      r ← packM (mkcl_intern fuel (DString name) (DPackage p));
      mret (symbol_obj r.1)
  end.

(** What a token is. *)
Definition token_object (read_case : readtable_case) (lx : lexeme) : RM obj :=
  if read_suppress then mret ONil
  else if bool_decide (lx_pack lx ≠ None) || negb (no_escapes (lx_escape_list lx)) then intern_token read_case lx
  else
    str ← buffer_string (lx_token lx);
    t ← heapM (read_token fuel str);
    match t with
    | TokenDot => mret (OSym SI_DOT)
    | TokenNumber x => mret x
    | TokenSymbol => intern_token read_case lx
    end.

(** With the flag MKCL_READ_ONLY_TOKEN: the characters, or [None] for NIL. *)
Definition read_only_token (rt : Z) (a : chattrib) : RM (option (list Z)) :=
  t ← find_readtable rt;
  lx ← read_lexeme true rt (readtable_read_case t) 0 a;
  mret (if read_suppress then None else Some (inverted (readtable_read_case t) lx)).

(** ** Characters between *)

(** [do { ... } while (a == mkcl_cat_whitespace)]: [None] at the delimiter. *)
Fixpoint skip_blanks (n : nat) (rt : Z) (delimiter : Z) : RM (option (Z * (chattrib * macro))) :=
  match n with
  | O => rdiverge
  | S n =>
      c ← mkcl_read_char;
      if c =? delimiter then mret None
      else if c =? EOF then rraise FEend_of_file
      else
        e ← mkcl_readtable_get rt c;
        match e.1 with
        | mkcl_cat_whitespace => skip_blanks n rt delimiter
        | _ => mret (Some (c, e))
        end
  end.

(** ** Macro characters *)

Definition wrong_num_arguments {A} : RM A := rraise (RLisp FEwrong_num_arguments).

Section with_read.
Context (depth : nat) (read : Z → RM (option obj)).

Definition mkcl_read_object : RM (option obj) := read EOF.

(** The object, where the end of the stream is an error. *)
Definition read_required : RM obj :=
  x ← mkcl_read_object; match x with Some x => mret x | None => rraise FEend_of_file end.

(** The loop of [do_read_delimited_list]: the list so far, its last cons, and
    [after_dot]. *)
Fixpoint delimited_loop (n : nat) (d : Z) (proper_list : bool) (y : obj) (last : option obj) (after_dot : Z) : RM obj :=
  match n with
  | O => rdiverge
  | S n =>
      x ← read d;
      match x with
      | None =>
          if after_dot =? 1 then reader_error "Object missing after a list dot" [] else mret y
      | Some x =>
          if obj_eq x (OSym SI_DOT) then
            if proper_list then reader_error "A dotted list was found where a proper list was expected." []
            else if bool_decide (last = None) then reader_error "A dot appeared after a left parenthesis." []
            else if negb (after_dot =? 0) then reader_error "Two dots appeared consecutively." []
            else delimited_loop n d proper_list y last 1
          else if negb (after_dot =? 0) then
            if 1 <? after_dot then reader_error "Too many objects after a list dot" []
            else
              match last with
              | Some l => heapM (MKCL_RPLACD l x);; delimited_loop n d proper_list y last 2
              | None => delimited_loop n d proper_list x last 2
              end
          else if negb read_suppress then
            l ← heapM (mkcl_list1 x);
            match last with
            | Some l0 => heapM (MKCL_RPLACD l0 l);; delimited_loop n d proper_list y (Some l) 0
            | None => delimited_loop n d proper_list l (Some l) 0
            end
          else delimited_loop n d proper_list y last 0
      end
  end.

Definition do_read_delimited_list (d : Z) (proper_list : bool) : RM obj :=
  delimited_loop depth d proper_list ONil None 0.

Definition left_parenthesis_reader : RM (list obj) := x ← do_read_delimited_list 41 false; mret [x].
Definition right_parenthesis_reader : RM (list obj) := reader_error "Unmatched right parenthesis, #\)" [].

(** PEEK-CHAR without a type. *)
Definition peek_required : RM Z :=
  c ← mkcl_peek_char; if c =? EOF then rraise FEend_of_file else mret c.

Definition comma_reader : RM (list obj) :=
  s ← rget;
  let level := rs_backq_level s in
  if level <=? 0 then reader_error "A comma has appeared out of a backquote." []
  else
    c ← peek_required;
    x ← (if c =? 64 then mkcl_read_char;; mret (OSym SI_unquote_splice)
         else if c =? 46 then mkcl_read_char;; mret (OSym SI_unquote_nsplice)
         else mret (OSym SI_unquote));
    rmodify (set_backq_level (level - 1));;
    y ← mkcl_read_object;
    rmodify (set_backq_level level);;
    match y with
    | Some y => l ← heapM (mk_cl_list [x; y]); mret [l]
    | None => rraise objnull_stored
    end.

Definition backquote_reader : RM (list obj) :=
  s ← rget;
  let level := rs_backq_level s in
  rmodify (set_backq_level (level + 1));;
  x ← mkcl_read_object;
  rmodify (set_backq_level level);;
  match x with
  | Some x => l ← heapM (mk_cl_list [OSym SI_quasiquote; x]); mret [l]
  | None => rraise objnull_stored
  end.

Fixpoint constituents (n : nat) (rt : Z) (not_first : bool) (token : list Z) : RM (list Z) :=
  match n with
  | O => rdiverge
  | S n =>
      c ← mkcl_read_char;
      if c =? EOF then mret token
      else
        e ← mkcl_readtable_get rt c;
        if bool_decide (e.1 = mkcl_cat_constituent) || (bool_decide (e.1 = mkcl_cat_non_terminating) && not_first) then
          constituents n rt true (if read_suppress then token else token ++ [c])
        else mkcl_unread_char c;; mret token
  end.

(** [None] for NIL. *)
Definition read_constituent : RM (option (list Z)) :=
  rt ← current_readtable;
  k ← stream_fuel;
  token ← constituents k rt false [];
  mret (if read_suppress then None else Some token).

(** The characters up to the delimiter. *)
Fixpoint quoted_chars (n : nat) (rt delim : Z) (token : list Z) : RM (list Z) :=
  match n with
  | O => rdiverge
  | S n =>
      c ← mkcl_read_char_noeof;
      if c =? delim then mret token
      else
        e ← mkcl_readtable_get rt c;
        c ← (match e.1 with mkcl_cat_single_escape => mkcl_read_char_noeof | _ => mret c end);
        quoted_chars n rt delim (token ++ [c])
  end.

Definition double_quote_reader (delim : Z) : RM (list obj) :=
  rt ← current_readtable;
  k ← stream_fuel;
  token ← quoted_chars k rt delim [];
  str ← buffer_string token;
  fits ← heapM (mkcl_fits_in_base_string str);
  output ← (if (fits : bool) then heapM (mkcl_coerce_to_base_string fuel empty_base_string str)
            else heapM (mk_cl_copy_seq fuel str));
  mret [output].

Definition single_quote_reader : RM (list obj) :=
  c ← read_required; l ← heapM (mk_cl_list [MK_CL_quote; c]); mret [l].

Fixpoint skip_line (n : nat) : RM unit :=
  match n with
  | O => rdiverge
  | S n => auxc ← mkcl_read_char; if (auxc =? 10) || (auxc =? EOF) then mret tt else skip_line n
  end.

Definition semicolon_reader : RM (list obj) := k ← stream_fuel; skip_line k;; mret [].

(** ** Sharp macros *)

Definition extra_argument {A} (c : Z) (d : obj) : RM A :=
  reader_error "~S is an extra argument for the #~C readmacro." [d; OChar c].
Definition no_argument (c : Z) (d : obj) : RM unit :=
  if negb (mkcl_Null d) && negb read_suppress then extra_argument c d else mret tt.

Definition sharp_C_reader (d : obj) : RM (list obj) :=
  no_argument 67 d;;
  x ← read_required;
  if read_suppress then mret [ONil]
  else
    n ← (if MKCL_CONSP x then heapM (mkcl_length fuel x) else mret 0);
    if negb (n =? 2) then reader_error "Reader macro #C should be followed by a list" []
    else
      real ← heapM (MKCL_CAR x);
      rest ← heapM (MKCL_CDR x);
      imag ← heapM (MKCL_CAR rest);
      x ← heapM (mkcl_make_complex real imag);
      mret [x].

(** *READTABLE* is the standard read table while [m] runs. *)
Definition with_standard_readtable {A} (m : Z → RM A) : RM A := λ s,
  let old := rs_readtable s in
  match m standard_readtable (set_readtable (Some standard_readtable) s) with
  | RDone a s' => RDone a (set_readtable old s')
  | RFail e s' => RFail e (set_readtable old s')
  | RDiverge => RDiverge
  end.

Definition sharp_backslash_reader (d : obj) : RM (list obj) :=
  (if negb (mkcl_Null d) && negb read_suppress && negb (obj_eq d (OFix 0))
   then reader_error "~S is an illegal CHAR-FONT." [d] else mret tt);;
  token ← with_standard_readtable (λ rt, read_only_token rt mkcl_cat_single_escape);
  match token with
  | None => mret [ONil]
  | Some [c] => mret [MKCL_CODE_CHAR c]
  | Some token =>
      if (Z.of_nat (length token) =? 2) && (nth 0 token 0 =? 94) then
        mret [MKCL_CODE_CHAR (Z.land (nth 1 token 0) 31)]
      else
        str ← buffer_string token;
        nc ← heapM (mk_cl_name_char fuel base_char_names extended_character_names str);
        if mkcl_Null nc then reader_error "~S is an invalid character name." [str] else mret [nc]
  end.

Definition MK_CL_function : obj := OSym CL_function.

Definition sharp_single_quote_reader (d : obj) : RM (list obj) :=
  no_argument 39 d;;
  c ← read_required;
  if read_suppress then mret [ONil] else l ← heapM (mk_cl_list [MK_CL_function; c]); mret [l].

(** The bits, in the order in which they are read. *)
Fixpoint bit_chars (n : nat) (rt : Z) (bits : list bool) : RM (list bool) :=
  match n with
  | O => rdiverge
  | S n =>
      x ← mkcl_read_char;
      if x =? EOF then mret bits
      else
        e ← mkcl_readtable_get rt x;
        match e.1 with
        | mkcl_cat_terminating | mkcl_cat_whitespace => mkcl_unread_char x;; mret bits
        | a =>
            if bool_decide (a = mkcl_cat_single_escape) || bool_decide (a = mkcl_cat_multiple_escape)
               || (negb (x =? 48) && negb (x =? 49))
            then reader_error "Character ~:C is not allowed after #*" [OChar x]
            else bit_chars n rt (bits ++ [x =? 49])
        end
  end.

Definition MKCL_ADIMLIM : Z := MKCL_MOST_POSITIVE_FIXNUM.

Definition sharp_asterisk_reader (d : obj) : RM (list obj) :=
  rt ← current_readtable;
  if read_suppress then read_constituent;; mret [ONil]
  else
    k ← stream_fuel;
    bits ← bit_chars k rt [];
    let dimcount := Z.of_nat (length bits) in
    dim ← (match d with
           | ONil => mret dimcount
           | OFix dim =>
               if (dim <? 0) || (MKCL_ADIMLIM <? dim) then rraise (RLisp (FEwrong_type_argument d))
               else if dim <? dimcount then reader_error "Too many elements in #*...." []
               else if negb (dim =? 0) && (dimcount =? 0) then reader_error "Cannot fill the bit-vector #*." []
               else mret dim
           | _ => rraise (RLisp (FEwrong_type_argument d))
           end);
    let bits := bits ++ replicate (Z.to_nat (dim - dimcount)) (List.last bits false) in
    a ← heapM (alloc (CBits 0 (length bits) bits));
    mret [OObj mkcl_t_bitvector a].

(** From the label [L] of [sharp_colon_reader], at the character [c] of attribute [a]. *)
Fixpoint colon_chars (n : nat) (rt c : Z) (a : chattrib) (token : list Z) : RM (list Z) :=
  match n with
  | O => rdiverge
  | S n =>
      let next (token : list Z) : RM (list Z) := next_char rt (λ c a, colon_chars n rt c a token) token in
      match a with
      | mkcl_cat_single_escape => c ← mkcl_read_char_noeof; next (token ++ [c])
      | mkcl_cat_multiple_escape =>
          k ← stream_fuel;
          token ← escaped_chars k rt token;
          next token
      | mkcl_cat_whitespace | mkcl_cat_terminating =>
          mkcl_unread_char (if mkcl_lower_case_p c then mkcl_char_upcase c else c);; mret token
      | _ => next (token ++ [if mkcl_lower_case_p c then mkcl_char_upcase c else c])
      end
  end.

Definition sharp_colon_reader (d : obj) : RM (list obj) :=
  rt ← current_readtable;
  no_argument 58 d;;
  c ← mkcl_read_char_noeof;
  e ← mkcl_readtable_get rt c;
  k ← stream_fuel;
  token ← colon_chars (S k) rt c e.1 [];
  if read_suppress then mret [ONil] else s ← packM (mk_cl_make_symbol token); mret [OSym s].

Definition mk_cl_rationalp (x : obj) : bool :=
  match x with OFix _ | OBig _ _ | ORatio _ _ _ => true | _ => false end.

Definition read_number (radix : Z) (macro_char : Z) : RM obj :=
  token ← read_constituent;
  match token with
  | None => mret ONil
  | Some token =>
      str ← buffer_string token;
      p ← heapM (mkcl_parse_number fuel str 0 (Z.of_nat (length token)) radix);
      match p with
      | (Some ONil, _) | (None, _) => reader_error "Cannot parse the #~A readmacro." [OChar macro_char]
      | (Some x, i) =>
          if negb (i =? Z.of_nat (length token)) then reader_error "Cannot parse the #~A readmacro." [OChar macro_char]
          else if mk_cl_rationalp x then mret x
          else reader_error "The float ~S appeared after the #~A readmacro." [x; OChar macro_char]
      end
  end.

Definition sharp_radix_reader (radix c : Z) (d : obj) : RM (list obj) :=
  no_argument c d;; x ← read_number radix c; mret [x].

Definition sharp_R_reader (d : obj) : RM (list obj) :=
  radix ← (if read_suppress then mret 10
           else match d with
                | OFix radix =>
                    if (36 <? radix) || (radix <? 2) then reader_error "~S is an illegal radix." [d] else mret radix
                | _ => reader_error "No radix was supplied in the #R readmacro." []
                end);
  x ← read_number radix 82;
  mret [x].

(** In a comment, after the character [c]; [level] comments are open inside it. *)
Fixpoint comment_chars (n : nat) (level c : Z) : RM unit :=
  match n with
  | O => rdiverge
  | S n =>
      if c =? 35 then
        c ← mkcl_read_char_noeof;
        let level := if c =? 124 then level + 1 else level in
        c ← mkcl_read_char_noeof;
        comment_chars n level c
      else if c =? 124 then
        c ← mkcl_read_char_noeof;
        if c =? 35 then
          if level =? 0 then mret tt else c ← mkcl_read_char_noeof; comment_chars n (level - 1) c
        else comment_chars n level c
      else c ← mkcl_read_char_noeof; comment_chars n level c
  end.

Definition sharp_vertical_bar_reader (d : obj) : RM (list obj) :=
  no_argument 124 d;;
  k ← stream_fuel;
  c ← mkcl_read_char_noeof;
  comment_chars k 0 c;;
  mret [].

Definition sharp_dollar_reader (d : obj) : RM (list obj) :=
  no_argument 36 d;;
  c ← mkcl_read_object;
  match c with
  | Some c => a ← heapM (alloc (CRandom c)); mret [OObj mkcl_t_random a]
  | None => rraise objnull_stored
  end.

(** ** Calls of the functions *)

(** A function of the stream, the character and the argument. *)
Definition call_sharp (f : macro_fun) (c : Z) (d : obj) : RM (list obj) :=
  match f with
  | F_sharp_C => sharp_C_reader d
  | F_sharp_backslash => sharp_backslash_reader d
  | F_sharp_single_quote => sharp_single_quote_reader d
  | F_sharp_asterisk => sharp_asterisk_reader d
  | F_sharp_colon => sharp_colon_reader d
  | F_sharp_B => sharp_radix_reader 2 66 d
  | F_sharp_O => sharp_radix_reader 8 79 d
  | F_sharp_X => sharp_radix_reader 16 88 d
  | F_sharp_R => sharp_R_reader d
  | F_void => mret []
  | F_sharp_vertical_bar => sharp_vertical_bar_reader d
  | F_sharp_dollar => sharp_dollar_reader d
  | F_double_quote | F_single_quote | F_left_parenthesis | F_right_parenthesis
  | F_comma | F_semicolon | F_backquote | F_dispatch => wrong_num_arguments
  | _ => funcall3 f c d
  end.

(** The decimal argument, after its first character. *)
Fixpoint sharp_argument (n : nat) (i d : Z) : RM (Z * Z) :=
  match n with
  | O => rdiverge
  | S n =>
      let i := swrap (10 * i + d) in
      c ← mkcl_read_char_noeof;
      d ← heapM (checked (mkcl_digitp c 10));
      if 0 <=? d then sharp_argument n i d else mret (i, c)
  end.

Definition dispatch_macro_character (t : Z) : RM (list obj) :=
  c ← mkcl_read_char_noeof;
  d ← heapM (checked (mkcl_digitp c 10));
  p ← (if 0 <=? d then
         k ← stream_fuel;
         p ← sharp_argument k 0 d;
         let '(i, c) := (p : Z * Z) in mret (MKCL_MAKE_FIXNUM i, c)
       else mret (ONil, c));
  let '(arg, c) := (p : obj * Z) in
  m ← find_table t;
  match m !! c with
  | None => reader_error "No dispatch function defined for character ~S" [OChar c]
  | Some f => call_sharp f c arg
  end.

Definition dispatch_reader_fun (dc : Z) : RM (list obj) :=
  rt ← current_readtable;
  e ← mkcl_readtable_get rt dc;
  match e.2 with
  | MTable t => dispatch_macro_character t
  | _ => reader_error "~C is not a dispatching macro character" [OChar dc]
  end.

(** A function of the stream and the character. *)
Definition call_macro (f : macro_fun) (c : Z) : RM (list obj) :=
  match f with
  | F_double_quote => double_quote_reader c
  | F_single_quote => single_quote_reader
  | F_left_parenthesis => left_parenthesis_reader
  | F_right_parenthesis => right_parenthesis_reader
  | F_comma => comma_reader
  | F_semicolon => semicolon_reader
  | F_backquote => backquote_reader
  | F_dispatch => dispatch_reader_fun c
  | F_lisp _ => funcall2 f c
  | _ => wrong_num_arguments
  end.

Definition call_entry (c : Z) (x : macro) : RM (list obj) :=
  match x with
  | MTable t => dispatch_macro_character t
  | MFun f => call_macro f c
  | MNil => rraise (RLisp (FEerror "The function NIL is undefined." []))
  end.
End with_read.

(** ** Objects *)

(** [MKCL_READ_RETURN_IGNORABLE] *)
Definition RETURN_IGNORABLE : Z := 3.

(** From the label [BEGIN], with the read table and the case of the start. *)
Fixpoint read_begin (depth : nat) (rt : Z) (read_case : readtable_case) (delimiter flags : Z) : RM (option obj) :=
  match depth with
  | O => rdiverge
  | S depth =>
      let read (d : Z) : RM (option obj) :=
        rt ← current_readtable; t ← find_readtable rt; read_begin depth rt (readtable_read_case t) d 0 in
      k ← stream_fuel;
      b ← skip_blanks k rt delimiter;
      match b with
      | None => mret None
      | Some (c, (a, x)) =>
          if bool_decide (a = mkcl_cat_terminating) || bool_decide (a = mkcl_cat_non_terminating) then
            values ← call_entry depth read c x;
            match values with
            | [] => if flags =? RETURN_IGNORABLE then mret (Some ONil)
                    else read_begin depth rt read_case delimiter flags
            | [o] => mret (Some o)
            | _ => rerror_msg "The readmacro ~S returned ~D values." []
            end
          else
            lx ← read_lexeme false rt read_case c a;
            o ← token_object read_case lx;
            mret (Some o)
      end
  end.

Definition mkcl_read_object_with_delimiter (depth : nat) (delimiter flags : Z) : RM (option obj) :=
  rt ← current_readtable; t ← find_readtable rt; read_begin depth rt (readtable_read_case t) delimiter flags.

Definition read_object (depth : nat) : RM (option obj) := mkcl_read_object_with_delimiter depth EOF 0.

(** ** READ *)

(** The bindings of SI::*BACKQ-LEVEL* and of the tables of labels, of which only the
    first is state here. *)
Definition with_backq_level {A} (m : RM A) : RM A := λ s,
  let old := rs_backq_level s in
  match m (set_backq_level 0 s) with
  | RDone a s' => RDone a (set_backq_level old s')
  | RFail e s' => RFail e (set_backq_level old s')
  | RDiverge => RDiverge
  end.

Definition mkcl_read_object_non_recursive (depth : nat) : RM (option obj) := with_backq_level (read_object depth).

Definition mk_si_read_object_or_ignore (depth : nat) (eof : obj) : RM obj :=
  x ← with_backq_level (mkcl_read_object_with_delimiter depth EOF RETURN_IGNORABLE);
  mret (default eof x).

Definition mk_cl_read_preserving_whitespace (depth : nat) (eof_errorp : bool) (eof_value : obj) (recursivep : bool) : RM obj :=
  x ← (if recursivep then read_object depth else mkcl_read_object_non_recursive depth);
  match x with
  | Some x => mret x
  | None => if eof_errorp then rraise FEend_of_file else mret eof_value
  end.

Definition mk_cl_read (depth : nat) (eof_errorp : bool) (eof_value : obj) (recursivep : bool) : RM obj :=
  x ← (if recursivep then read_object depth else mkcl_read_object_non_recursive depth);
  match x with
  | None => if eof_errorp then rraise FEend_of_file else mret eof_value
  | Some x =>
      (if recursivep then mret tt
       else
         rt ← current_readtable;
         c ← mkcl_read_char;
         if c =? EOF then mret tt
         else
           e ← mkcl_readtable_get rt c;
           if bool_decide (e.1 = mkcl_cat_whitespace) then mret tt else mkcl_unread_char c);;
      mret x
  end.

Definition mk_cl_read_delimited_list (depth : nat) (d : obj) (recursivep : bool) : RM obj :=
  delimiter ← heapM (mkcl_char_code d);
  let list := do_read_delimited_list depth (λ d, mkcl_read_object_with_delimiter depth d 0) delimiter true in
  if recursivep then list else with_backq_level list.

(** ** Characters *)

Definition eof_char (eof_errorp : bool) (eof_value : obj) (c : Z) : RM obj :=
  if negb (c =? EOF) then mret (MKCL_CODE_CHAR c)
  else if eof_errorp then rraise FEend_of_file else mret eof_value.

Definition mk_cl_read_char (eof_errorp : bool) (eof_value : obj) : RM obj :=
  c ← mkcl_read_char; eof_char eof_errorp eof_value c.

Definition mk_cl_unread_char (c : obj) : RM obj :=
  c ← heapM (mkcl_char_code c); mkcl_unread_char c;; mret ONil.

(** The next character for which [stop] holds. *)
Fixpoint peek_until (n : nat) (stop : Z → RM bool) : RM Z :=
  match n with
  | O => rdiverge
  | S n =>
      c ← mkcl_peek_char;
      if c =? EOF then mret c
      else b ← stop c; if (b : bool) then mret c else mkcl_read_char;; peek_until n stop
  end.

Definition mk_cl_peek_char (peek_type : obj) (eof_errorp : bool) (eof_value : obj) : RM obj :=
  rt ← current_readtable;
  k ← stream_fuel;
  c ← (if mkcl_Null peek_type then mkcl_peek_char
       else if obj_eq peek_type mk_cl_Ct then
         peek_until k (λ c, e ← mkcl_readtable_get rt c; mret (negb (bool_decide (e.1 = mkcl_cat_whitespace))))
       else peek_until k (λ c, heapM (mkcl_char_eq (MKCL_CODE_CHAR c) peek_type)));
  eof_char eof_errorp eof_value c.

(** The characters up to the end of the line, and whether the stream ended. *)
Fixpoint line_chars (n : nat) (token : list Z) : RM (list Z * bool) :=
  match n with
  | O => rdiverge
  | S n =>
      c ← mkcl_read_char;
      if c =? EOF then mret (token, true)
      else if c =? 10 then mret (token, false)
      else line_chars n (token ++ [c])
  end.

Definition mk_cl_read_line (eof_errorp : bool) (eof_value : obj) : RM (obj * bool) :=
  k ← stream_fuel;
  p ← line_chars k [];
  let '(token, eof) := (p : list Z * bool) in
  if eof && bool_decide (token = []) then
    if eof_errorp then rraise FEend_of_file else mret (eof_value, true)
  else
    str ← buffer_string token;
    x ← heapM (mk_cl_copy_seq fuel str);
    mret (x, eof).
End reader.
