(* ===== verification/Printer.v ===== *)
(** * Printer: objects as characters, src/src/c/print.c

    What is written for symbols, characters, strings, bit vectors and conses; numbers are
    in [NumPrint].  Each function gives the characters that it sends to the stream.  The
    variables of the printer are the interface [PrintVars], and *PRINT-LEVEL*, which
    lists bind, is an argument. *)

From S2P Require Import Prelude Words Objects Heap Numbers Floats Equal Lists NumPred Arith NumComp NumCo NumLog ToFloat.
From S2P Require Import Hash HashTable ListSearch Sequences Chars Strings StrMake NumRead NumPrint CharNames Backq.
From S2P Require Import Packages Readtable Reader.
#[local] Open Scope Z_scope.

Inductive print_case_key := KEY_upcase | KEY_downcase | KEY_capitalize.

#[export] Instance print_case_key_eq_dec : EqDecision print_case_key.
Proof. solve_decision. Defined.

Class PrintVars := {
  print_case : option print_case_key;       (* [None] is an illegal value *)
  print_package : option pid;               (* [None] is NIL *)
  print_gensym : bool;
  print_readably : bool;
  print_escape : bool;
  print_array : bool;
  print_circle : bool;
  print_pretty : bool;
  print_length : obj;
  SI_HASH_BANG : Z;
}.

(** What is left to the rest of the printer: the pretty printer, the search for circles,
    and the objects of other types. *)
Class PrintCalls := {
  pprint : obj → RM (option (list Z));                     (* [None]: it has no function *)
  write_circle : obj → RM (list Z) → RM (list Z);
  object_will_print_as_hash : obj → RM bool;
  write_other : obj → obj → RM (list Z);                   (* with the value of *PRINT-LEVEL* *)
}.

(** The characters of a C string. *)
Definition str_chars (s : string) : list Z := (λ a, Z.of_nat (Ascii.nat_of_ascii a)) <$> String.list_ascii_of_string s.

Section printer.
Context `{!GMP, !GMPArith, !GMPText, !ToDouble, !Transcendental, !Memory, !Runtime, !RealArith, !HashEnv, !Vectors}.
Context `{!BackqSymbols, !Core, !Restarts, !ReadEnv, !PrinterVars, !PrintVars, !PrintCalls}.
Context (fuel : nat).

Abbreviation current_readtable := (mkcl_current_readtable standard_readtable).

Definition mkcl_print_case : RM print_case_key :=
  match print_case with Some k => mret k | None => rerror_msg "~S is an illegal PRINT-CASE." [] end.

(** *PRINT-LEVEL* and *PRINT-LENGTH*. *)
Definition print_limit (msg : string) (x : obj) : RM Z :=
  match x with
  | ONil | OBig _ _ => mret MKCL_MOST_POSITIVE_FIXNUM
  | OFix n => if n <? 0 then rerror_msg msg [x] else mret n
  | _ => rerror_msg msg [x]
  end.
Definition mkcl_print_level (level : obj) : RM Z := print_limit "~S is an illegal PRINT-LEVEL." level.
Definition mkcl_print_length : RM Z := print_limit "~S is an illegal PRINT-LENGTH." print_length.

(** ** Symbols *)

Definition all_dots (s : list Z) : bool := forallb (λ c, c =? 46) s.

(** One of the characters needs an escape. *)
Fixpoint strange_chars (rt : Z) (action : readtable_case) (s : list Z) : RM bool :=
  match s with
  | [] => mret false
  | c :: s =>
      e ← mkcl_readtable_get rt c;
      if negb (bool_decide (e.1 = mkcl_cat_constituent)) || mkcl_invalid_constituent_character_p c || (c =? 58) then mret true
      else if bool_decide (action = mkcl_case_downcase) && mkcl_upper_case_p c then mret true
      else if mkcl_lower_case_p c then mret true
      else strange_chars rt action s
  end.

(** A name, as the string that [potential_number_p] reads. *)
Definition needs_to_be_escaped (s : list Z) (rt : Z) : RM bool :=
  t ← find_readtable rt;
  base ← heapM mkcl_print_base;
  str ← buffer_string s;
  b ← heapM (potential_number_p str base);
  if (b : bool) then mret true else strange_chars rt (readtable_read_case t) s.

(** The loop of [write_symbol_string]. *)
Fixpoint symbol_chars (s : list Z) (action : readtable_case) (print_case : print_case_key) (escape capitalize : bool) :
    RM (list Z) :=
  match s with
  | [] => mret []
  | c :: s =>
      p ← (if escape then mret ((if (c =? 124) || (c =? 92) then [92; c] else [c]), capitalize)
           else if bool_decide (action = mkcl_case_preserve) then mret ([c], capitalize)
           else if mkcl_upper_case_p c then
             mret ([if bool_decide (action = mkcl_case_invert)
                       || (bool_decide (action = mkcl_case_upcase)
                           && (bool_decide (print_case = KEY_downcase)
                               || (bool_decide (print_case = KEY_capitalize) && negb capitalize)))
                    then mkcl_char_downcase c else c], false)
           else if mkcl_lower_case_p c then
             mret ([if bool_decide (action = mkcl_case_invert)
                       || (bool_decide (action = mkcl_case_downcase)
                           && (bool_decide (print_case = KEY_upcase)
                               || (bool_decide (print_case = KEY_capitalize) && capitalize)))
                    then mkcl_char_upcase c else c], false)
           else a ← heapM (checked (mkcl_alphanumericp c)); mret ([c], negb a));
      let '(out, capitalize) := (p : list Z * bool) in
      rest ← symbol_chars s action print_case escape capitalize;
      mret (out ++ rest)
  end.

Definition write_symbol_string (s : list Z) (action : readtable_case) (print_case : print_case_key) (escape : bool) :
    RM (list Z) :=
  action ← (if bool_decide (action = mkcl_case_invert) then
              str ← buffer_string s;
              k ← heapM (mkcl_string_case str);
              mret (match k with mkcl_mixedcase_string => mkcl_case_preserve | _ => action end)
            else mret action);
  out ← symbol_chars s action print_case escape true;
  mret (if escape then [124] ++ out ++ [124] else out).

(** What comes before the name when the symbol is not found in the current package. *)
Definition write_package (x : sym) (n : name) (hpackage : pid) (rt : Z) (action : readtable_case)
    (print_case : print_case_key) : RM (list Z) :=
  pk ← packM (read_pack hpackage);
  prefix ← (match pack_name pk with
            | None => mret (str_chars "#<package anonymous>")
            | Some hpack_name =>
                e ← needs_to_be_escaped hpack_name rt;
                write_symbol_string hpack_name action print_case e
            end);
  r ← packM (mkcl_find_symbol (DSymbol x) (DPackage hpackage));
  if negb (r.1 =? x) && negb (x =? sym_nil) then rerror_msg "Corrupted symbol, symbol-name = ~S" []
  else if bool_decide (print_package ≠ None ∧ print_package ≠ Some hpackage) || bool_decide (r.2 = SYMBOL_IS_INTERNAL)
  then mret (prefix ++ [58; 58])
  else if bool_decide (r.2 = SYMBOL_IS_EXTERNAL) then mret (prefix ++ [58])
  else rerror_msg "Pathological symbol --- cannot print." [].

(** Whether the symbol is not the one that its name finds in the current package. *)
Definition needs_package (x : sym) (hpackage : pid) : RM bool :=
  if bool_decide (print_package ≠ None ∧ print_package ≠ Some hpackage) then mret true
  else
    p ← packM mkcl_current_package;
    r ← packM (mkcl_find_symbol (DSymbol x) (DPackage p));
    mret ((negb (r.1 =? x) && negb (x =? sym_nil)) || bool_decide (r.2 = SYMBOL_IS_NEW)).

Definition write_symbol (x : sym) : RM (list Z) :=
  rt ← current_readtable;
  print_case ← mkcl_print_case;
  sy ← packM (read_sym x);
  t ← find_readtable rt;
  let name := psym_name sy in
  let action := readtable_read_case t in
  if negb print_readably && negb print_escape then write_symbol_string name action print_case false
  else
    prefix ← (match psym_hpack sy with
              | None => mret (if print_gensym || print_readably then [35; 58] else [])
              | Some hpackage =>
                  if hpackage =? keyword_package then mret [58]
                  else
                    b ← needs_package x hpackage;
                    if (b : bool) then write_package x name hpackage rt action print_case else mret []
              end);
    e ← needs_to_be_escaped name rt;
    out ← write_symbol_string name action print_case (e || all_dots name);
    mret (prefix ++ out).

(** ** Characters and strings *)

Definition string_chars (x : obj) : RM (list Z) := heapM (read_string x).

Definition write_character (i : Z) : RM (list Z) :=
  if negb print_escape && negb print_readably then mret [i]
  else
    out ← (if (32 <? i) && (i <? 127) then mret [i]
           else if i <? MKCL_BASE_CHAR_CODE_LIMIT then
             name ← heapM (mk_cl_char_name fuel base_char_names extended_character_names (MKCL_CODE_CHAR i));
             if mkcl_Null name then mret (str_chars "U????") else string_chars name
           else
             output ← (if negb (obj_eq extended_character_names ONil)
                       then heapM (mkcl_gethash_safe fuel (MKCL_MAKE_FIXNUM i) extended_character_names ONil)
                       else mret ONil);
             if negb (mkcl_Null output) then
               (if MKCL_STRINGP output then string_chars output else write_other ONil output)
             else if i <? 0x010000 then mret (85 :: hex 4 i)
             else if i <? 0x0110000 then mret (85 :: hex 6 i)
             else mret (str_chars "U+????"));
    mret ([35; 92] ++ out).

(** A string between double quotes. *)
Definition quoted (l : list Z) : list Z :=
  [34] ++ mjoin ((λ c, if (c =? 34) || (c =? 92) then [92; c] else [c]) <$> l) ++ [34].

Definition write_string (x : obj) : RM (list Z) :=
  l ← string_chars x; mret (if negb print_escape && negb print_readably then l else quoted l).

Definition write_bitvector (level x : obj) : RM (list Z) :=
  if negb print_array && negb print_readably then write_other level x
  else
    match x with
    | OObj mkcl_t_bitvector a =>
        s ← rget;
        match rs_heap s !! a with
        | Some (CBits bit_offset fillp storage) =>
            mret ([35; 42] ++ ((λ b : bool, if b then 49 else 48) <$> take fillp (drop bit_offset storage)))
        | _ => rraise (RLisp Segfault)
        end
    | _ => rraise (RLisp Segfault)
    end.

(** ** Lists *)

(** A list of two elements that is an abbreviation: what it begins with. *)
Definition abbreviation (head : obj) : option (list Z) :=
  if obj_eq head MK_CL_quote then Some [39]
  else if obj_eq head MK_CL_function then Some [35; 39]
  else if obj_eq head (OSym SI_quasiquote) then Some [96]
  else if obj_eq head (OSym SI_unquote) then Some [44]
  else if obj_eq head (OSym SI_unquote_splice) then Some [44; 64]
  else if obj_eq head (OSym SI_unquote_nsplice) then Some [44; 46]
  else None.

(** The elements from the [i]th, and the last cdr. *)
Fixpoint write_elements (n : nat) (write : obj → RM (list Z)) (print_length i : Z) (x : obj) : RM (list Z) :=
  match n with
  | O => rdiverge
  | S n =>
      if print_length <=? i then mret [46; 46; 46]
      else
        y ← heapM (MKCL_CAR x);
        x ← heapM (MKCL_CDR x);
        out ← write y;
        atom ← (if MKCL_ATOM x then mret true
                else if print_circle then object_will_print_as_hash x else mret false);
        if (atom : bool) then
          if obj_eq x ONil then mret out
          else last ← write x; mret (out ++ [32; 46; 32] ++ last)
        else rest ← write_elements n write print_length (i + 1) x; mret (out ++ [32] ++ rest)
  end.

(** A list of two elements; [None] for others. *)
Definition second_of_two (x : obj) : RM (option obj) :=
  d ← heapM (MKCL_CDR x);
  if MKCL_CONSP d then
    dd ← heapM (MKCL_CDR d);
    if mkcl_Null dd then y ← heapM (MKCL_CAR d); mret (Some y) else mret None
  else mret None.

Section with_write.
Context (depth : nat) (write : obj → obj → RM (list Z)).

Definition write_cons (level x : obj) : RM (list Z) :=
  head ← heapM (MKCL_CAR x);
  if obj_eq head (OSym SI_HASH_BANG) then
    d ← heapM (MKCL_CDR x); out ← write level d; mret ([35; 33] ++ out)
  else
    second ← second_of_two x;
    match second, abbreviation head with
    | Some y, Some prefix => out ← write level y; mret (prefix ++ out)
    | _, _ =>
        p ← (if print_readably then mret (MKCL_MOST_POSITIVE_FIXNUM, MKCL_MOST_POSITIVE_FIXNUM)
             else
               l ← mkcl_print_level level;
               n ← mkcl_print_length;
               mret (l, n));
        let '(print_level, print_length) := (p : Z * Z) in
        if print_level =? 0 then mret [35]
        else
          out ← write_elements depth (write (MKCL_MAKE_FIXNUM (print_level - 1))) print_length 0 x;
          mret ([40] ++ out ++ [41])
    end.

(** The parts of a complex number are written as objects of their own. *)
Definition write_ugly_object (level x : obj) : RM (list Z) :=
  match x with
  | ONil => write_symbol sym_nil
  | OSym s => write_symbol s
  | OFix _ | OBig _ _ | ORatio _ _ _ => heapM (write_rational fuel x)
  | OChar c => write_character c
  | OString _ | OBaseString _ => write_string x
  | OObj mkcl_t_bitvector _ => write_bitvector level x
  | OCons _ => write_cons level x
  | _ => write_other level x
  end.
End with_write.

(** Not NIL, a fixnum, a character or a symbol that has a package. *)
Definition counted_in_circles (x : obj) : RM bool :=
  match x with
  | ONil | OFix _ | OChar _ => mret false
  | OSym s => sy ← packM (read_sym s); mret (bool_decide (psym_hpack sy = None))
  | _ => mret true
  end.

Fixpoint mk_si_write_object (depth : nat) (level x : obj) : RM (list Z) :=
  match depth with
  | O => rdiverge
  | S depth =>
      pretty ← (if print_pretty then pprint x else mret None);
      match pretty with
      | Some out => mret out
      | None =>
          let ugly := write_ugly_object depth (mk_si_write_object depth) level x in
          b ← (if print_circle then counted_in_circles x else mret false);
          if (b : bool) then write_circle x ugly else ugly
      end
  end.

Definition mk_si_write_ugly_object (depth : nat) (level x : obj) : RM (list Z) :=
  write_ugly_object depth (mk_si_write_object depth) level x.
End printer.
