(* ===== verification/TokenSpecs.v ===== *)
(** * TokenSpecs: tokens that could be numbers

    The printer escapes the name of a symbol that is a potential number.  In base ten the
    parser takes nothing else for a number, but for a few tokens without digits. *)

From S2P Require Import Prelude Words Objects Heap Numbers Floats Equal Lists NumPred Arith NumComp NumCo NumLog ToFloat.
From S2P Require Import ArithSpecs Sequences UniTables Chars CharSpecs Strings NumRead NumPrint NumReadSpecs.
#[local] Open Scope Z_scope.

(** ** Characters with a class *)

Definition classed (c : Z) : Prop := is_char c ∧ ¬ unclassed c.

Definition dig (r c : Z) : Z := default (-1) (mkcl_digitp c r).
Definition alpha (c : Z) : bool := default false (mkcl_alpha_char_p c).

Lemma classed_signature c : classed c → ∃ i s, mkcl_unicode_character_information c = Some i ∧ signature_of i = Some s.
Proof.
  intros [Hc Hun]. destruct (info_total _ Hc) as [i Hi]. exists i.
  destruct (signature_found _ _ Hc Hi Hun) as [s Hs]. eauto.
Qed.

Lemma digitp_classed r c : classed c → mkcl_digitp c r = Some (dig r c).
Proof.
  intros Hc. destruct (classed_signature _ Hc) as (i & s & Hi & Hs). unfold dig.
  assert (is_Some (mkcl_digitp c r)) as [d ->]; [|done].
  unfold mkcl_digitp, mkcl_ucd_decimal_digit. rewrite Hi, Hs. simpl. repeat case_match; by eexists.
Qed.

Lemma alpha_classed c : classed c → mkcl_alpha_char_p c = Some (alpha c).
Proof.
  intros Hc. destruct (classed_signature _ Hc) as (i & s & Hi & Hs). unfold alpha, mkcl_alpha_char_p.
  unfold mkcl_unicode_character_general_category. by rewrite Hi, Hs.
Qed.

Lemma alphanumericp_classed c : classed c → ∃ b, mkcl_alphanumericp c = Some b.
Proof.
  intros Hc. destruct (classed_signature _ Hc) as (i & s & Hi & Hs). unfold mkcl_alphanumericp.
  unfold mkcl_unicode_character_general_category. rewrite Hi, Hs. simpl. by eexists.
Qed.

(** No letter is a decimal digit. *)
Lemma digit_signatures :
  forallb (λ s, (10 <=? sig_decimal_digit s) || negb (category_code (sig_general_category s) <=? 4)) properties_signatures = true.
Proof. vm_compute. done. Qed.

Lemma digit_not_alpha c : 0 <= dig 10 c → alpha c = false.
Proof.
  unfold dig, mkcl_digitp, alpha, mkcl_alpha_char_p. change (10 <? 10) with false. rewrite !andb_false_r.
  destruct ((48 <=? c) && (c <=? 57) && (c <? 48 + 10)) eqn:E.
  - intros _. rewrite !andb_true_iff, !Z.leb_le in E.
    assert (c = 48 ∨ c = 49 ∨ c = 50 ∨ c = 51 ∨ c = 52 ∨ c = 53 ∨ c = 54 ∨ c = 55 ∨ c = 56 ∨ c = 57) as Hc by lia.
    repeat destruct Hc as [->|Hc]; subst; by vm_compute.
  - simpl. destruct (255 <? c); [|simpl; lia].
    unfold mkcl_ucd_decimal_digit, mkcl_unicode_character_general_category.
    destruct (mkcl_unicode_character_information c) as [i|]; [|simpl; lia].
    destruct (signature_of i) as [s|] eqn:Hs; [|simpl; lia]. simpl. intros Hd.
    pose proof (proj1 (forallb_forall _ _) digit_signatures s) as Hall.
    specialize (Hall (proj1 (list_elem_of_In _ _) (list_elem_of_lookup_2 _ _ _ Hs))). cbv beta in Hall.
    apply orb_true_iff in Hall as [Hn%Z.leb_le|Hn%negb_true_iff]; [|by rewrite Hn, andb_false_r].
    rewrite (proj2 (Z.ltb_ge _ 10)) in Hd by done. simpl in Hd. lia.
Qed.

(** ** Potential numbers *)

Definition number_mark (c : Z) : bool :=
  (c =? 43) || (c =? 45) || (c =? 47) || (c =? 46) || (c =? 94) || (c =? 95).

(** The characters may be in a number: digits, marks, and single letters. *)
Fixpoint number_like (r : Z) (l : list Z) : bool :=
  match l with
  | [] => true
  | c :: l =>
      if 0 <=? dig r c then number_like r l
      else if number_mark c then number_like r l
      else alpha c && negb (match l with [] => false | c2 :: _ => alpha c2 end) && number_like r l
  end.

Definition has_digit (r : Z) (l : list Z) : bool := existsb (λ c, 0 <=? dig r c) l.
Definition is_sign (c : Z) : bool := (c =? 43) || (c =? 45).

Definition potential (r : Z) (l : list Z) : bool :=
  match l with
  | [] => false
  | c :: l' =>
      ((0 <=? dig r c) || ((c =? 43) || (c =? 45) || (c =? 94) || (c =? 95) || (c =? 46)))
      && negb (is_sign (List.last l 0)) && number_like r l' && has_digit r l
  end.

Section potential.
Context `{!Vectors} (r : Z).

Lemma number_chars_eq str pre l h i saw :
  is_text str (pre ++ l) h → Forall classed l → i = Z.of_nat (length pre) →
  number_chars (length l) str r i saw h = Done (number_like r l && (saw || has_digit r l)) h.
Proof.
  intros Ht Hl. revert pre i saw Ht. induction Hl as [|c l Hc Hl IH]; intros pre i saw Ht ->; cbn [number_chars length].
  - simpl. by rewrite orb_false_r.
  - rewrite (bind_Done _ _ _ _ _ (char_text_app _ _ _ _ _ _ Ht eq_refl)), (digitp_classed r c Hc). simpl checked. rewrite bind_ret.
    assert (∀ saw, number_chars (length l) str r (Z.of_nat (length pre) + 1) saw h =
      Done (number_like r l && (saw || has_digit r l)) h) as IH'.
    { intros saw'. apply (IH (pre ++ [c])); [by rewrite <- app_assoc|]. rewrite length_app. simpl. lia. }
    cbn [number_like has_digit existsb].
    destruct (Z.leb_spec 0 (dig r c)). { rewrite IH'. by rewrite orb_true_r. }
    fold (has_digit r l). fold (number_mark c). simpl orb. destruct (number_mark c); [apply IH'|].
    rewrite (alpha_classed c Hc). simpl checked. rewrite bind_ret. destruct (alpha c); [|done]. simpl negb. cbv iota.
    destruct l as [|c2 l].
    { exact (IH' saw). }
    cbn [length]. cbv iota.
    assert (mkcl_char str (Z.of_nat (length pre) + 1) h = Done c2 h) as E2.
    { apply (char_text_app str (pre ++ [c]) c2 l); [by rewrite <- app_assoc|]. rewrite length_app. simpl. lia. }
    assert ((c ← mkcl_char str (Z.of_nat (length pre) + 1); checked (mkcl_alpha_char_p c)) h = Done (alpha c2) h) as E3.
    { rewrite (bind_Done _ _ _ _ _ E2), (alpha_classed c2) by (by apply Forall_inv in Hl). done. }
    cbn [negb]. rewrite (bind_Done _ _ _ _ _ E3). destruct (alpha c2); [done|]. cbn [negb andb]. apply IH'.
Qed.

Lemma potential_number_eq str l h :
  is_text str l h → Forall classed l → potential_number_p str r h = Done (potential r l) h.
Proof.
  intros Ht Hl. pose proof (proj1 (Ht h (reflexivity h))) as Hr. unfold potential_number_p.
  assert (fillp str h = Done (Z.of_nat (length l)) h) as Ef by (unfold fillp; by rewrite (bind_Done _ _ _ _ _ Hr)).
  rewrite (bind_Done _ _ _ _ _ Ef). destruct l as [|c l]; [done|].
  rewrite (proj2 (Z.eqb_neq _ 0)) by (simpl; lia).
  rewrite (bind_Done _ _ _ _ _ (char_text_app str [] c l h 0 Ht eq_refl)).
  apply Forall_cons_1 in Hl as [Hc Hl]. rewrite (digitp_classed r c Hc). simpl checked. rewrite bind_ret.
  unfold potential. rewrite <- negb_orb. destruct ((0 <=? dig r c) || _); [|done]. cbn [negb andb].
  assert (∃ pre z, c :: l = pre ++ [z] ∧ z = List.last (c :: l) 0) as (pre & z & E & Ez).
  { destruct (@exists_last _ (c :: l)) as (pre & z & E); [done|]. exists pre, z. split; [done|]. rewrite E. by rewrite last_last. }
  rewrite <- Ez. rewrite E in Ht.
  assert (Z.of_nat (length (c :: l)) - 1 = Z.of_nat (length pre)) as El.
  { rewrite E, length_app. simpl. lia. }
  rewrite El. rewrite (bind_Done _ _ _ _ _ (char_text_app str pre z [] h _ Ht eq_refl)).
  fold (is_sign z). destruct (is_sign z); [done|]. cbn [negb andb].
  replace (Z.to_nat (Z.of_nat (length pre))) with (length l) by (simpl in El; lia).
  rewrite (number_chars_eq str [c] l); [|by rewrite <- E in Ht|done|done]. done.
Qed.
End potential.

(** ** What the parser takes for a number in base ten *)

Definition all_digits (l : list Z) : Prop := Forall (λ c, 0 <= dig 10 c) l.

(** After the sign; a point can come once.  Nothing after a slash is not excluded. *)
Inductive number_tail : bool → list Z → Prop :=
| tail_end seen : number_tail seen []
| tail_digit seen c l : 0 <= dig 10 c → number_tail seen l → number_tail seen (c :: l)
| tail_point l : number_tail true l → number_tail false (46 :: l)
| tail_slash seen l : all_digits l → number_tail seen (47 :: l)
| tail_exponent seen c sg l : exponent_charp c = true → sg = [] ∨ sg = [43] ∨ sg = [45] →
    l ≠ [] → all_digits l → number_tail seen (c :: sg ++ l).

(** The digits at the start, and their weights. *)
Lemma digits_split l : Forall classed l →
  ∃ ds post, l = ds ++ post ∧ digits_of 10 ds (dig 10 <$> ds) ∧ all_digits ds ∧ (post = [] ∨ ∃ c post', post = c :: post' ∧ dig 10 c < 0).
Proof.
  induction 1 as [|c l Hc _ IH].
  - exists [], []. split_and!; [done|constructor|constructor|by left].
  - destruct (Z.leb_spec 0 (dig 10 c)) as [Hd|Hd].
    + destruct IH as (ds & post & -> & Hds & Ha & Hp). exists (c :: ds), post. split_and!; [done| | |done]; constructor; try done.
      split; [|done]. by apply digitp_classed.
    + exists [], (c :: l). split_and!; [done|constructor|constructor|right; eauto].
Qed.

Definition not_parsed (sc : scan) : Prop := ∃ ep, sc = Parsed None ep.

Section decimal.
Context `{!GMP, !GMPSpec, !GMPArith, !GMPArithSpec, !GMPText, !GMPTextSpec, !ToDouble, !Transcendental, !Vectors, !ReaderVars}.
Context (fuel : nat) (str : obj) (end_ : Z).

(** An integer that is followed by something, or has no digits, is no exponent and no
    denominator. *)
Lemma parse_integer_else pre sg l h :
  is_text str (pre ++ sg ++ l) h → Forall classed l → sg = [] ∨ sg = [43] ∨ sg = [45] →
  end_ = Z.of_nat (length (pre ++ sg ++ l)) →
  (sg = [] → match l with [] => True | c :: _ => is_sign c = false end) →
  (l ≠ [] ∧ all_digits l) ∨
  gives (λ p, p.1 = None ∨ p.2 < end_) (mkcl_parse_integer str (Z.of_nat (length pre)) end_ 10) h.
Proof.
  intros Ht Hl Hsg He Hns. destruct (digits_split l Hl) as (ds & post & -> & Hds & Ha & Hp).
  destruct (decide (ds = [])) as [->|Hne].
  - right. unfold mkcl_parse_integer. simpl app in *.
    destruct (end_ <=? Z.of_nat (length pre)) eqn:Ee; [apply gives_ret; by left|]. simpl orb. cbv iota.
    apply Z.leb_gt in Ee.
    assert (∀ (sign start : Z), start = Z.of_nat (length (pre ++ sg)) → start <= end_ →
      parse_digits (Z.to_nat (end_ - start)) str start 10 0 h = Done (0, start) h) as Hd.
    { intros sign start -> Hle. destruct Hp as [->|(c & post' & -> & Hneg)].
      - replace (Z.to_nat _) with 0%nat; [done|]. rewrite He, app_nil_r. lia.
      - assert (Z.to_nat (end_ - Z.of_nat (length (pre ++ sg))) = S (length post')) as ->.
        { rewrite He, !length_app. simpl. lia. }
        cbn [parse_digits]. rewrite app_assoc in Ht.
        rewrite (bind_Done _ _ _ _ _ (char_text_app str _ c post' h _ Ht eq_refl)).
        rewrite (digitp_classed 10 c) by (by apply Forall_inv in Hl). simpl checked. rewrite bind_ret.
        by rewrite (proj2 (Z.ltb_lt _ 0)). }
    assert (∃ c rest, sg ++ post = c :: rest ∧ (if c =? 43 then (1, Z.of_nat (length pre) + 1) else
      if c =? 45 then (-1, Z.of_nat (length pre) + 1) else (1, Z.of_nat (length pre))).2 = Z.of_nat (length (pre ++ sg))) as (c & rest & Ec & Es).
    { rewrite length_app. destruct Hsg as [->|[-> | ->]]; [|eexists _, _; split; [reflexivity|simpl; lia]..].
      destruct post as [|c rest].
      - rewrite He, !app_nil_r in Ee. lia.
      - exists c, rest. split; [done|]. specialize (Hns eq_refl). simpl in Hns. apply orb_false_iff in Hns as [E1 E2].
        simpl in E1, E2. rewrite E1, E2. simpl. lia. }
    rewrite Ec in Ht. eapply gives_bind_Done; [by eapply char_text_app|].
    destruct (if c =? 43 then _ else _) as [sign start]. simpl in Es. subst start.
    eapply gives_bind_Done; [apply (Hd sign); [done|]|].
    { rewrite He, !length_app. lia. }
    cbv beta iota. eapply gives_int_bind; [apply big_register_normalize_spec|]. intros x h' _ _.
    apply gives_ret. rewrite Z.eqb_refl. by left.
  - destruct Hp as [->|(c & post' & -> & Hneg)].
    { left. rewrite app_nil_r. split; [done|exact Ha]. }
    right. apply Forall_app in Hl as [_ Hc]. apply Forall_inv in Hc.
    eapply gives_mono.
    + apply (parse_integer_text 10 ltac:(lia) str pre sg ds (c :: post') (if decide (sg = [45]) then -1 else 1)
               (dig 10 <$> ds) end_ h _ Ht); [|done|by destruct ds|done|].
      * unfold sign_of. destruct Hsg as [->|[-> | ->]]; simpl; tauto.
      * exists (length (c :: post')). split; [rewrite He, !length_app; lia|]. right.
        exists c, post', (dig 10 c). split_and!; [done|by apply digitp_classed|done].
    + intros p [Hp _]. right. rewrite Hp, He, !length_app. simpl. lia.
Qed.

Lemma sign_split l : ∃ sg l', l = sg ++ l' ∧ (sg = [] ∨ sg = [43] ∨ sg = [45]) ∧
  (sg = [] → match l' with [] => True | c :: _ => is_sign c = false end).
Proof.
  destruct l as [|c l]; [exists [], []; split_and!; [done|by left|done]|]. destruct (is_sign c) eqn:E.
  - exists [c], l. split_and!; [done| |done]. unfold is_sign in E. apply orb_true_iff in E as [E%Z.eqb_eq|E%Z.eqb_eq]; subst; auto.
  - exists [], (c :: l). split_and!; [done|by left|done].
Qed.

Lemma exponent_else pre c l sign decimal numerator h :
  is_text str (pre ++ c :: l) h → Forall classed l → exponent_charp c = true → end_ = Z.of_nat (length (pre ++ c :: l)) →
  number_tail false (c :: l) ∧ number_tail true (c :: l) ∨
  gives not_parsed (parse_exponent fuel str end_ sign c (Z.of_nat (length pre)) decimal numerator) h.
Proof.
  intros Ht Hl Hc He. destruct (sign_split l) as (sg & l' & -> & Hsg & Hns). apply Forall_app in Hl as [_ Hl'].
  assert (Z.of_nat (length pre) + 1 = Z.of_nat (length (pre ++ [c]))) as Ei by (rewrite length_app; simpl; lia).
  assert (is_text str ((pre ++ [c]) ++ sg ++ l') h) as Ht2 by (by rewrite <- app_assoc).
  assert (end_ = Z.of_nat (length ((pre ++ [c]) ++ sg ++ l'))) as He2 by (by rewrite <- app_assoc).
  unfold parse_exponent. rewrite Ei.
  destruct (decide (l' ≠ [] ∧ all_digits l')) as [[Hne Ha]|Hn]; [left; split; by constructor|]. right.
  eapply gives_int_bind; [apply big_register_normalize_spec|]. intros num h1 _ Hs.
  destruct (parse_integer_else (pre ++ [c]) sg l' h1) as [?|Hp]; [by eapply is_text_mono|done..|].
  eapply gives_bind; [exact Hp|]. intros [[exp|] ep] h2 Hq _; simpl in Hq; [|apply gives_ret; by eexists].
  destruct Hq as [?|Hq]; [done|]. rewrite (proj2 (Z.ltb_lt _ _)) by done. apply gives_ret. by eexists.
Qed.

Lemma denominator_else pre l sign numerator h :
  is_text str (pre ++ 47 :: l) h → Forall classed l → end_ = Z.of_nat (length (pre ++ 47 :: l)) →
  all_digits l ∨ gives not_parsed (parse_denominator str end_ sign (Z.of_nat (length pre)) 10 numerator) h.
Proof.
  intros Ht Hl He. destruct l as [|c l]; [left; constructor|].
  assert (Z.of_nat (length pre) + 1 = Z.of_nat (length (pre ++ [47]))) as Ei by (rewrite length_app; simpl; lia).
  assert (is_text str ((pre ++ [47]) ++ [] ++ c :: l) h) as Ht2 by (by rewrite <- app_assoc).
  assert (end_ = Z.of_nat (length ((pre ++ [47]) ++ [] ++ c :: l))) as He2 by (by rewrite <- app_assoc).
  unfold parse_denominator. rewrite Ei.
  destruct (decide (all_digits (c :: l))) as [Ha|Hn]; [by left|]. right.
  eapply gives_int_bind; [apply big_register_normalize_spec|]. intros num h1 _ Hs.
  pose proof (is_text_mono _ _ _ _ Ht2 Hs) as Ht3.
  eapply gives_bind_Done; [exact (char_text_app str _ c l h1 _ Ht3 eq_refl)|].
  rewrite (digitp_classed 10 c) by (by apply Forall_inv in Hl). eapply gives_bind_Done; [reflexivity|].
  destruct (Z.ltb_spec (dig 10 c) 0); [apply gives_ret; by eexists|].
  destruct (parse_integer_else (pre ++ [47]) [] (c :: l) h1) as [[_ ?]|Hp]; [done|done|by left|done| |done|].
  { intros _. unfold is_sign. apply orb_false_iff. pose proof (digit_not_mark c 10 (dig 10 c) (digitp_classed 10 c ltac:(by apply Forall_inv in Hl))).
    rewrite !Z.eqb_neq. lia. }
  eapply gives_bind; [exact Hp|]. intros [[den|] ep] h2 Hq _; simpl in Hq; [|apply gives_ret; by eexists].
  destruct Hq as [?|Hq]; [done|]. rewrite (proj2 (Z.ltb_lt _ _)) by done. apply gives_ret. by eexists.
Qed.

Lemma scan_else pre l sign decimal numerator h seen :
  is_text str (pre ++ l) h → Forall classed l → end_ = Z.of_nat (length (pre ++ l)) →
  (if seen : bool then decimal <= Z.of_nat (length pre) else decimal = end_) →
  number_tail seen l ∨
  gives not_parsed (scan_chars fuel str end_ (length l) 10 sign (Z.of_nat (length pre)) decimal numerator) h.
Proof.
  intros Ht Hl. revert pre decimal numerator seen Ht. induction Hl as [|c l Hc Hl IH]; intros pre decimal numerator seen Ht He Hd.
  { left. constructor. }
  assert (Z.of_nat (length pre) + 1 = Z.of_nat (length (pre ++ [c]))) as Ei by (rewrite length_app; simpl; lia).
  assert (end_ = Z.of_nat (length ((pre ++ [c]) ++ l))) as He2 by (by rewrite <- app_assoc).
  assert (is_text str ((pre ++ [c]) ++ l) h) as Ht2 by (by rewrite <- app_assoc).
  assert (∀ P : scan → Prop, gives P ((if c =? 47 then parse_denominator str end_ sign (Z.of_nat (length pre)) 10 numerator
      else if c =? 46 then
        if decimal <=? Z.of_nat (length pre) then mret (Parsed None (Z.of_nat (length pre)))
        else scan_chars fuel str end_ (length l) 10 sign (Z.of_nat (length (pre ++ [c]))) (Z.of_nat (length (pre ++ [c]))) numerator
      else if 0 <=? dig 10 c then
        scan_chars fuel str end_ (length l) 10 sign (Z.of_nat (length (pre ++ [c]))) decimal
          (mpz_add_ui (mpz_mul_ui numerator 10) (dig 10 c))
      else if exponent_charp c then parse_exponent fuel str end_ sign c (Z.of_nat (length pre)) decimal numerator
      else mret (Parsed None (Z.of_nat (length pre)))) : M scan) h →
    gives P (scan_chars fuel str end_ (length (c :: l)) 10 sign (Z.of_nat (length pre)) decimal numerator) h) as Hstep.
  { intros P HP. cbn [length scan_chars]. eapply gives_bind_Done; [exact (char_text_app str pre c l h _ Ht eq_refl)|].
    rewrite Ei. destruct (c =? 47); [exact HP|]. destruct (c =? 46); [exact HP|].
    rewrite (digitp_classed 10 c Hc). eapply gives_bind_Done; [reflexivity|]. exact HP. }
  destruct (Z.eqb_spec c 47) as [->|H47].
  { destruct (denominator_else pre l sign numerator h Ht Hl He) as [?|?]; [left; by constructor|right; by apply Hstep]. }
  destruct (Z.eqb_spec c 46) as [->|H46].
  { destruct seen.
    - right. apply Hstep. rewrite (proj2 (Z.leb_le _ _)) by done. apply gives_ret. by eexists.
    - destruct (IH (pre ++ [46]) (Z.of_nat (length (pre ++ [46]))) numerator true Ht2 He2) as [?|Hr]; [simpl; lia|left; by constructor|].
      right. apply Hstep. rewrite (proj2 (Z.leb_gt _ _)); [exact Hr|]. rewrite Hd, He, length_app. simpl. lia. }
  destruct (Z.leb_spec 0 (dig 10 c)) as [Hd0|Hd0].
  { destruct (IH (pre ++ [c]) decimal (mpz_add_ui (mpz_mul_ui numerator 10) (dig 10 c)) seen Ht2 He2) as [?|?].
    - destruct seen; [lia|done].
    - left. by constructor.
    - right. by apply Hstep. }
  destruct (exponent_charp c) eqn:Hx; [|right; apply Hstep, gives_ret; by eexists].
  destruct (exponent_else pre c l sign decimal numerator h Ht Hl Hx He) as [[? ?]|?]; [left; by destruct seen|right; by apply Hstep].
Qed.
End decimal.

(** ** Tails are potential numbers *)

Lemma sign_marks sg : sg = [] ∨ sg = [43] ∨ sg = [45] → Forall (λ c, number_mark c = true ∧ dig 10 c < 0 ∧ alpha c = false) sg.
Proof. intros [->|[-> | ->]]; repeat constructor; by vm_compute. Qed.

Lemma exponent_alpha c : exponent_charp c = true → alpha c = true ∧ dig 10 c < 0.
Proof.
  unfold exponent_charp. rewrite !orb_true_iff, !Z.eqb_eq.
  intros H. repeat destruct H as [H|H]; subst; by vm_compute.
Qed.

Lemma number_like_digits l l' : all_digits l → number_like 10 (l ++ l') = number_like 10 l'.
Proof. induction 1 as [|c l Hc _ IH]; [done|]. simpl. by rewrite (proj2 (Z.leb_le _ _)). Qed.

Lemma number_like_marks sg l : sg = [] ∨ sg = [43] ∨ sg = [45] → number_like 10 (sg ++ l) = number_like 10 l.
Proof. intros [->|[-> | ->]]; done. Qed.

Lemma tail_number_like seen l : number_tail seen l → number_like 10 l = true.
Proof.
  induction 1 as [seen|seen c l Hc _ IH|l _ IH|seen l Ha|seen c sg l Hc Hsg Hne Ha]; cbn [number_like]; try done.
  - by rewrite (proj2 (Z.leb_le _ _)).
  - change (number_like 10 l = true). rewrite <- (app_nil_r l). by rewrite number_like_digits.
  - destruct (exponent_alpha c Hc) as [Hal Hd]. rewrite (proj2 (Z.leb_gt _ _)), Hal by done. simpl andb.
    assert (number_like 10 (sg ++ l) = true) as ->.
    { rewrite number_like_marks by done. rewrite <- (app_nil_r l). by rewrite number_like_digits. }
    assert (match sg ++ l with [] => false | c2 :: _ => alpha c2 end = false) as ->; [|by destruct (number_mark c)].
    destruct Hsg as [->|[-> | ->]]; [|by vm_compute..]. destruct Ha as [|c2 l Hd2]; [done|]. by apply digit_not_alpha.
Qed.

(** A tail without digits. *)
Lemma tail_no_digit seen l : number_tail seen l → has_digit 10 l = false →
  l = [] ∨ l = [46] ∧ seen = false ∨ l = [47] ∨ l = [46; 47] ∧ seen = false.
Proof.
  induction 1 as [seen|seen c l Hc _ IH|l _ IH|seen l Ha|seen c sg l Hc Hsg Hne Ha]; intros Hn.
  - by left.
  - cbn [has_digit existsb] in Hn. by rewrite (proj2 (Z.leb_le _ _)) in Hn.
  - apply orb_false_iff in Hn as [_ Hn]. destruct (IH Hn) as [->|[[-> ?]|[->|[-> ?]]]]; naive_solver.
  - apply orb_false_iff in Hn as [_ Hn]. destruct Ha as [|c l Hd]; [naive_solver|].
    simpl in Hn. by rewrite (proj2 (Z.leb_le _ _)) in Hn.
  - apply orb_false_iff in Hn as [_ Hn]. change (existsb (λ c, 0 <=? dig 10 c) (sg ++ l) = false) in Hn.
    rewrite existsb_app in Hn. apply orb_false_iff in Hn as [_ Hn].
    destruct Ha as [|c2 l Hd]; [done|]. simpl in Hn. by rewrite (proj2 (Z.leb_le _ _)) in Hn.
Qed.

Lemma digit_not_sign c : 0 <= dig 10 c → is_sign c = false.
Proof.
  intros Hd. unfold is_sign. apply orb_false_iff. rewrite !Z.eqb_neq.
  split; intros ->; by vm_compute in Hd.
Qed.

Lemma last_digits l d : l ≠ [] → all_digits l → is_sign (List.last l d) = false.
Proof.
  intros Hne Ha. destruct (@exists_last _ l Hne) as (pre & z & ->). rewrite last_last.
  apply Forall_app in Ha as [_ Ha]. apply digit_not_sign. by apply Forall_inv in Ha.
Qed.

Lemma last_cons_ne (c : Z) l d : l ≠ [] → List.last (c :: l) d = List.last l d.
Proof. by destruct l. Qed.

Lemma tail_last seen l : number_tail seen l → l ≠ [] → is_sign (List.last l 0) = false.
Proof.
  induction 1 as [seen|seen c l Hc _ IH|l _ IH|seen l Ha|seen c sg l Hc Hsg Hne Ha]; intros Hl; try done.
  - destruct (decide (l = [])) as [->|Hne]; [simpl; by apply digit_not_sign|rewrite last_cons_ne by done; auto].
  - destruct (decide (l = [])) as [->|Hne]; [done|rewrite last_cons_ne by done; auto].
  - destruct (decide (l = [])) as [->|Hne]; [done|rewrite last_cons_ne by done; by apply last_digits].
  - rewrite last_cons_ne by (by destruct sg). destruct (@exists_last _ l Hne) as (pre & z & E).
    rewrite E, app_assoc, last_last. rewrite E in Ha. apply Forall_app in Ha as [_ Ha]. apply digit_not_sign. by apply Forall_inv in Ha.
Qed.

(** ** Names that need no escape are no numbers *)

Definition all_points (l : list Z) : bool := forallb (λ c, c =? 46) l.

(** The tokens that the parser takes for numbers although they have no digit, or that
    make it read beyond their end. *)
Definition misread_tokens : list (list Z) := [[43; 46]; [45; 46]; [46; 47]; [43; 46; 47]; [45; 46; 47]].

Lemma tail_potential sg l : sg = [] ∨ sg = [43] ∨ sg = [45] → number_tail false l → l ≠ [] →
  (sg = [] → match l with [] => True | c :: _ => alpha c = false ∧ c ≠ 47 end) → (match l with c :: _ => c ≠ 47 | [] => True end) →
  potential 10 (sg ++ l) = false → all_points (sg ++ l) = true ∨ sg ++ l ∈ misread_tokens.
Proof.
  intros Hsg Ht Hne Hal H47 Hp. destruct (has_digit 10 l) eqn:Hd.
  - exfalso. assert (potential 10 (sg ++ l) = true); [|congruence]. clear Hp.
    pose proof (tail_last _ _ Ht Hne) as Hl. pose proof (tail_number_like _ _ Ht) as Hn.
    destruct Hsg as [->|Hsg].
    + simpl app. destruct l as [|c l]; [done|]. unfold potential. rewrite Hl, Hd. specialize (Hal eq_refl) as [Ha _].
      rewrite !andb_true_r. apply andb_true_iff. split.
      * inversion Ht as [| ? ? ? Hdc|l2 ? E|? l2 ? E|? ? sg l2 Hx]; subst; [|by rewrite orb_true_r|done|].
        { by rewrite (proj2 (Z.leb_le _ _)). }
        by destruct (exponent_alpha _ Hx) as [? _]; congruence.
      * clear -Hn Ht Hd Ha. cbn [number_like] in Hn. destruct (0 <=? dig 10 c); [done|].
        destruct (number_mark c); [done|]. by rewrite Ha in Hn.
    + assert (∃ c, sg = [c] ∧ is_sign c = true) as (c & -> & Hc) by (destruct Hsg as [-> | ->]; eexists; done).
      simpl app. unfold potential. rewrite last_cons_ne by done. rewrite Hl, Hn. cbn [has_digit existsb].
      fold (has_digit 10 l). rewrite Hd, orb_true_r, !andb_true_r. unfold is_sign in Hc. rewrite !orb_true_iff in *. tauto.
  - destruct (tail_no_digit _ _ Ht Hd) as [->|[[-> _]|[->|[-> _]]]]; [done| |done|];
      destruct Hsg as [->|[-> | ->]]; (by left) || (right; by repeat (left || right)).
Qed.

Section tokens.
Context `{!GMP, !GMPSpec, !GMPArith, !GMPArithSpec, !GMPText, !GMPTextSpec, !ToDouble, !Transcendental, !Vectors, !ReaderVars}.
Context (fuel : nat).

Lemma scan_number_else str l h :
  is_text str l h → Forall classed l → l ≠ [] → potential 10 l = false → all_points l = false → l ∉ misread_tokens →
  (match l with c :: _ => alpha c = false | [] => True end) →
  gives not_parsed (scan_number fuel str (Z.of_nat (length l)) 0 10) h.
Proof.
  intros Ht Hl Hne Hp Hpts Hmis Hal. destruct l as [|c l]; [done|]. unfold scan_number.
  eapply gives_bind_Done; [exact (char_text_app str [] c l h 0 Ht eq_refl)|].
  assert (∀ sg sign, is_sign c = true → sg = [c] → gives not_parsed
    (let i := 0 + 1 in if i =? Z.of_nat (length (c :: l)) then mret (Parsed None i)
     else c ← mkcl_char str i; if c =? 47 then mret (Parsed None i)
       else scan_chars fuel str (Z.of_nat (length (c :: l))) (Z.to_nat (Z.of_nat (length (c :: l)) - i)) 10 sign i
              (Z.of_nat (length (c :: l))) 0) h) as Hs.
  { intros sg sign Hc ->. cbv zeta. destruct l as [|c2 l]; [apply gives_ret; by eexists|].
    rewrite (proj2 (Z.eqb_neq _ _)) by (simpl; lia).
    eapply gives_bind_Done; [exact (char_text_app str [c] c2 l h _ Ht eq_refl)|].
    destruct (Z.eqb_spec c2 47) as [->|Hc47]; [apply gives_ret; by eexists|].
    apply Forall_cons_1 in Hl as [_ Hl].
    replace (Z.to_nat _) with (length (c2 :: l)) by (simpl length; lia).
    destruct (scan_else fuel str (Z.of_nat (length (c :: c2 :: l))) [c] (c2 :: l) sign (Z.of_nat (length (c :: c2 :: l))) 0 h false)
      as [Htail|?]; [done..| |done].
    exfalso. assert (c = 43 ∨ c = 45) as Hcc by (unfold is_sign in Hc; apply orb_true_iff in Hc; rewrite !Z.eqb_eq in Hc; done).
    destruct (tail_potential [c] (c2 :: l)) as [Hq|Hq]; [naive_solver|done|done|done|done|exact Hp|simpl app in Hq; congruence|by apply Hmis]. }
  destruct (Z.eqb_spec c 43) as [->|H43]; [by apply (Hs [43] 1)|].
  destruct (Z.eqb_spec c 45) as [->|H45]; [by apply (Hs [45] (-1))|].
  destruct (Z.eqb_spec c 47) as [->|Hc47]; [apply gives_ret; by eexists|].
  rewrite Z.sub_0_r, Nat2Z.id.
  destruct (scan_else fuel str (Z.of_nat (length (c :: l))) [] (c :: l) 1 (Z.of_nat (length (c :: l))) 0 h false)
    as [Htail|?]; [done..| |done].
  exfalso. destruct (tail_potential [] (c :: l)) as [Hq|Hq]; [by left|done|done|done|done|exact Hp|simpl app in Hq; congruence|by apply Hmis].
Qed.

(** The token of a name that the printer does not escape is the name of a symbol. *)
Lemma read_token_symbol str l h :
  read_base = OFix 10 → is_text str l h → Forall classed l → l ≠ [] →
  potential 10 l = false → all_points l = false → l ∉ misread_tokens →
  gives (λ t, t = TokenSymbol) (read_token fuel str) h.
Proof.
  intros Hb Ht Hl Hne Hp Hpts Hmis. unfold read_token.
  eapply gives_bind_Done; [exact (proj1 (Ht h (reflexivity h)))|].
  destruct l as [|c l]; [done|].
  assert (((Z.of_nat (length (c :: l)) =? 1) && (c =? 46)) = false) as ->.
  { destruct l; [|by simpl length; rewrite (proj2 (Z.eqb_neq _ 1)) by lia]. simpl in Hpts. rewrite andb_true_r in Hpts.
    by rewrite Hpts, andb_false_r. }
  unfold all_points in Hpts. rewrite Hpts.
  assert (mkcl_current_read_base h = Done 10 h) as Eb by (unfold mkcl_current_read_base; by rewrite Hb).
  eapply gives_bind_Done; [exact Eb|]. change (10 <=? 10) with true. cbv iota.
  rewrite (alpha_classed c) by (by apply Forall_inv in Hl). eapply gives_bind_Done; [reflexivity|].
  destruct (alpha c) eqn:Ha; [by apply gives_ret|].
  eapply (gives_bind (λ p, p.1 = None)).
  - unfold mkcl_parse_number. rewrite (proj2 (Z.leb_gt _ 0)) by (simpl; lia). change (36 <? 10) with false. cbn [orb].
    eapply gives_bind; [by apply scan_number_else|]. intros sc h' [ep ->] _. by apply gives_ret.
  - intros [x i] h' Hx _. simpl in Hx. subst x. by apply gives_ret.
Qed.
End tokens.
