(* ===== verification/ReaderSpecs.v ===== *)
(** * ReaderSpecs: what is printed is read back

    Tokens and their escapes, the names of symbols with and without packages, strings,
    characters, bit vectors, numbers and lists: what the printer writes, and what the
    reader makes of it. *)

From S2P Require Import Prelude Words Objects Heap Numbers Floats Equal Lists NumPred Arith NumComp NumCo NumLog ToFloat.
From S2P Require Import ArithSpecs NumCompSpecs NumCoSpecs Hash HashTable ListSearch Sequences UniTables Chars CharSpecs Strings StrMake StrSpecs.
From S2P Require Import NumRead NumPrint NumReadSpecs TokenSpecs CharNames Backq.
From S2P Require Import Packages PackSpecs PackFacts Readtable Reader Printer.
#[local] Open Scope Z_scope.

(** ** Steps *)

Lemma rbind_Done {A B} (m : RM A) (k : A → RM B) s a s' : m s = RDone a s' → (m ≫= k) s = k a s'.
Proof. unfold mbind, RM_bind. by intros ->. Qed.

Lemma rbind_ret {A B} (a : A) (k : A → RM B) s : (mret a ≫= k) s = k a s.
Proof. done. Qed.

Lemma heapM_Done {A} (m : M A) s a h : m (rs_heap s) = Done a h → heapM m s = RDone a (set_heap h s).
Proof. unfold heapM. by intros ->. Qed.

Lemma packM_Done {A} (m : PM A) s a p : m (rs_packs s) = PDone a p → packM m s = RDone a (set_packs p s).
Proof. unfold packM. by intros ->. Qed.

Lemma set_packs_same s : set_packs (rs_packs s) s = s.
Proof. by destruct s. Qed.
Lemma set_heap_same s : set_heap (rs_heap s) s = s.
Proof. by destruct s. Qed.
Lemma set_in_same s l : rs_in s = l → set_in l s = s.
Proof. destruct s. by simpl; intros ->. Qed.

Lemma packM_read {A} (m : PM A) s a : m (rs_packs s) = PDone a (rs_packs s) → packM m s = RDone a s.
Proof. intros E. by rewrite (packM_Done _ _ _ _ E), set_packs_same. Qed.
Lemma heapM_read {A} (m : M A) s a : m (rs_heap s) = Done a (rs_heap s) → heapM m s = RDone a s.
Proof. intros E. by rewrite (heapM_Done _ _ _ _ E), set_heap_same. Qed.

(** ** The stream *)

Lemma char_not_eof c : is_char c → (c =? EOF) = false.
Proof. unfold is_char, MKCL_CHAR_CODE_LIMIT, EOF. intros. apply Z.eqb_neq. lia. Qed.

Lemma read_char_cons s c l : rs_in s = c :: l → mkcl_read_char s = RDone c (set_in l s).
Proof. unfold mkcl_read_char. by intros ->. Qed.

Lemma read_char_nil s : rs_in s = [] → mkcl_read_char s = RDone EOF s.
Proof. unfold mkcl_read_char. by intros ->. Qed.

Lemma read_noeof_cons s c l : rs_in s = c :: l → is_char c → mkcl_read_char_noeof s = RDone c (set_in l s).
Proof.
  intros E Hc. unfold mkcl_read_char_noeof. rewrite (rbind_Done _ _ _ _ _ (read_char_cons _ _ _ E)).
  by rewrite char_not_eof.
Qed.

(** The syntax of a character. *)
Definition syntax (t : readtable) (c : Z) : chattrib := syntax_type (entry_of t c).

Lemma readtable_get_eq s rt t c :
  rs_readtables s !! rt = Some t → mkcl_readtable_get rt c s = RDone (syntax t c, dispatch (entry_of t c)) s.
Proof.
  intros Ht. unfold mkcl_readtable_get. assert (find_readtable rt s = RDone t s) as E by (unfold find_readtable; by rewrite Ht).
  by rewrite (rbind_Done _ _ _ _ _ E).
Qed.

Lemma find_readtable_eq s rt t : rs_readtables s !! rt = Some t → find_readtable rt s = RDone t s.
Proof. unfold find_readtable. by intros ->. Qed.

Lemma stream_fuel_eq s : stream_fuel s = RDone (S (length (rs_in s))) s.
Proof. done. Qed.

Lemma next_char_end {A} rt (k : Z → chattrib → RM A) e s : rs_in s = [] → next_char rt k e s = RDone e s.
Proof. intros E. unfold next_char. by rewrite (rbind_Done _ _ _ _ _ (read_char_nil _ E)). Qed.

Lemma next_char_cons {A} rt t (k : Z → chattrib → RM A) e s c l :
  rs_readtables s !! rt = Some t → rs_in s = c :: l → is_char c → next_char rt k e s = k c (syntax t c) (set_in l s).
Proof.
  intros Ht E Hc. unfold next_char. rewrite (rbind_Done _ _ _ _ _ (read_char_cons _ _ _ E)), char_not_eof by done.
  assert (mkcl_readtable_get rt c (set_in l s) = RDone (syntax t c, dispatch (entry_of t c)) (set_in l s)) as Eg.
  { by apply readtable_get_eq. }
  by rewrite (rbind_Done _ _ _ _ _ Eg).
Qed.

(** ** Read tables in which the text of the printer has its meaning *)

Record std_table (t : readtable) : Prop := {
  std_single c : syntax t c = mkcl_cat_single_escape ↔ c = 92;
  std_multiple c : syntax t c = mkcl_cat_multiple_escape ↔ c = 124;
  std_constituent c : 45 <= c <= 58 → syntax t c = mkcl_cat_constituent;
  std_blank : syntax t 32 = mkcl_cat_whitespace;
  std_double_quote : entry_of t 34 = Entry mkcl_cat_terminating (MFun F_double_quote);
  std_single_quote : entry_of t 39 = Entry mkcl_cat_terminating (MFun F_single_quote);
  std_left : entry_of t 40 = Entry mkcl_cat_terminating (MFun F_left_parenthesis);
  std_comma : entry_of t 44 = Entry mkcl_cat_terminating (MFun F_comma);
  std_right : entry_of t 41 = Entry mkcl_cat_terminating (MFun F_right_parenthesis);
  std_lower c : is_char c → mkcl_upper_case_p c = true → syntax t c = mkcl_cat_constituent →
    syntax t (mkcl_char_downcase c) = mkcl_cat_constituent;
}.

(** A token ends before these characters. *)
Definition ends_token (t : readtable) (rest : list Z) : Prop :=
  match rest with
  | [] => True
  | c :: _ => is_char c ∧ (syntax t c = mkcl_cat_whitespace ∨ syntax t c = mkcl_cat_terminating)
  end.

(** ** Escaped characters *)

(** A name between multiple escapes. *)
Fixpoint esc (s : list Z) : list Z :=
  match s with
  | [] => []
  | c :: s => if (c =? 124) || (c =? 92) then 92 :: c :: esc s else c :: esc s
  end.

Lemma escaped_chars_eq rt t name rest n token s :
  rs_readtables s !! rt = Some t → std_table t → Forall is_char name → rs_in s = esc name ++ 124 :: rest →
  (length name < n)%nat → escaped_chars n rt token s = RDone (token ++ name) (set_in rest s).
Proof.
  intros Ht Hstd Hname. revert n token s Ht.
  induction Hname as [|c name Hc _ IH]; intros n token s Ht E Hn; (destruct n as [|n]; [simpl in Hn; lia|]); cbn [escaped_chars].
  - rewrite (rbind_Done _ _ _ _ _ (read_noeof_cons _ _ _ E ltac:(done))).
    rewrite (rbind_Done _ _ _ _ _ (readtable_get_eq (set_in rest s) rt t 124 Ht)). cbn [fst].
    rewrite (proj2 (std_multiple t Hstd 124)) by done. by rewrite app_nil_r.
  - simpl in E. simpl in Hn. destruct ((c =? 124) || (c =? 92)) eqn:Ec.
    + rewrite (rbind_Done _ _ _ _ _ (read_noeof_cons _ _ _ E ltac:(done))).
      rewrite (rbind_Done _ _ _ _ _ (readtable_get_eq (set_in _ s) rt t 92 Ht)). cbn [fst].
      rewrite (proj2 (std_single t Hstd 92)) by done.
      erewrite rbind_Done; [|by apply read_noeof_cons].
      erewrite IH; [by rewrite <- app_assoc|done|done|lia].
    + apply orb_false_iff in Ec as [E1%Z.eqb_neq E2%Z.eqb_neq].
      rewrite (rbind_Done _ _ _ _ _ (read_noeof_cons _ _ _ E Hc)).
      rewrite (rbind_Done _ _ _ _ _ (readtable_get_eq (set_in _ s) rt t c Ht)). cbn [fst].
      destruct (syntax t c) eqn:Es;
        try (by rewrite (IH _ _ (set_in _ s)), <- app_assoc by (done || lia));
        [apply (std_single t Hstd) in Es|apply (std_multiple t Hstd) in Es]; by subst.
Qed.

(** ** Tokens *)

(** The character that an unescaped constituent adds to a token. *)
Definition cased_char (read_case : readtable_case) (c : Z) : Z :=
  match read_case with
  | mkcl_case_downcase => mkcl_char_downcase c
  | mkcl_case_upcase => mkcl_char_upcase c
  | _ => c
  end.

(** A constituent that needs no escape and is no colon. *)
Definition plain (t : readtable) (c : Z) : Prop :=
  is_char c ∧ syntax t c = mkcl_cat_constituent ∧ c ≠ 58 ∧ mkcl_invalid_constituent_character_p c = false.

Definition push_all (read_case : readtable_case) (l : list Z) (lx : lexeme) : lexeme :=
  foldl (λ lx c, push_cased read_case c lx) lx l.

Lemma upcase_not_lower c : mkcl_lower_case_p c = false → mkcl_char_upcase c = c.
Proof. unfold mkcl_lower_case_p, mkcl_char_upcase, has_signature. case_match; [|done]. by intros ->. Qed.
Lemma downcase_not_upper c : mkcl_upper_case_p c = false → mkcl_char_downcase c = c.
Proof. unfold mkcl_upper_case_p, mkcl_char_downcase, has_signature. case_match; [|done]. by intros ->. Qed.
Lemma upper_not_lower c : mkcl_upper_case_p c = true → mkcl_lower_case_p c = false.
Proof.
  unfold mkcl_upper_case_p, mkcl_lower_case_p, has_signature. case_match; [|done].
  intros ->%Z.eqb_eq. done.
Qed.

Lemma push_cased_fields read_case c lx :
  let lx' := push_cased read_case c lx in
  lx_token lx' = lx_token lx ++ [cased_char read_case c] ∧ lx_pack lx' = lx_pack lx ∧
  lx_external lx' = lx_external lx ∧ lx_colon lx' = lx_colon lx ∧ lx_escape_list lx' = lx_escape_list lx.
Proof.
  unfold push_cased, cased_char. destruct read_case; simpl; try done;
    (destruct (mkcl_upper_case_p c) eqn:Eu; [|destruct (mkcl_lower_case_p c) eqn:El]); simpl; split_and!; try done;
    rewrite ?upcase_not_lower, ?downcase_not_upper by (done || by apply upper_not_lower); done.
Qed.

Lemma push_all_fields read_case l lx :
  let lx' := push_all read_case l lx in
  lx_token lx' = lx_token lx ++ (cased_char read_case <$> l) ∧ lx_pack lx' = lx_pack lx ∧
  lx_external lx' = lx_external lx ∧ lx_colon lx' = lx_colon lx ∧ lx_escape_list lx' = lx_escape_list lx.
Proof.
  revert lx. induction l as [|c l IH]; intros lx; simpl.
  - split_and!; try done. by rewrite app_nil_r.
  - destruct (push_cased_fields read_case c lx) as (E1 & E2 & E3 & E4 & E5).
    destruct (IH (push_cased read_case c lx)) as (F1 & F2 & F3 & F4 & F5).
    rewrite F1, F2, F3, F4, F5, E1, E2, E3, E4, E5. split_and!; try done. by rewrite <- app_assoc.
Qed.

Section reader.
Context `{!GMP, !GMPArith, !GMPText, !ToDouble, !Transcendental, !Memory, !Runtime, !RealArith, !HashEnv, !Vectors}.
Context `{!ReaderVars, !BackqSymbols, !Core, !Restarts, !ReadEnv, !MacroCalls}.
Context (fuel : nat) (empty_base_string : obj).

Section lexing.
Context (rt : Z) (t : readtable) (Hstd : std_table t) (read_case : readtable_case).

Abbreviation lex n := (lexeme_loop n false rt read_case).

(** The characters after the first, from whatever is done with the colons before. *)
Lemma lex_plain c cs rest m lx lx1 s :
  rs_readtables s !! rt = Some t → Forall (plain t) (c :: cs) → rs_in s = cs ++ rest →
  after_colons read_case lx s = RDone lx1 s → lx_colon lx1 = 0 →
  lex (S (length cs + m)) c (syntax t c) lx s =
  next_char rt (λ c' a, lex m c' a (push_all read_case (c :: cs) lx1)) (push_all read_case (c :: cs) lx1) (set_in rest s).
Proof.
  revert c lx lx1 s. induction cs as [|c2 cs IH]; intros c lx lx1 s Ht Hp E Ea Hz;
    apply Forall_cons_1 in Hp as [(Hc & Hs & H58 & Hi) Hp]; cbn [lexeme_loop length Nat.add];
    apply Z.eqb_neq in H58; rewrite H58; cbn [andb]; rewrite (rbind_Done _ _ _ _ _ Ea), Hs, Hi; cbv iota.
  - simpl in E. by rewrite (set_in_same _ _ E).
  - assert (is_char c2) as Hc2 by (by apply Forall_inv in Hp as [? _]).
    rewrite (next_char_cons rt t _ _ s c2 (cs ++ rest)) by done.
    assert (lx_colon (push_cased read_case c lx1) = 0) as Hz1.
    { destruct (push_cased_fields read_case c lx1) as (_ & _ & _ & -> & _). done. }
    apply (IH c2 (push_cased read_case c lx1) (push_cased read_case c lx1) (set_in (cs ++ rest) s)); try done.
    unfold after_colons. by rewrite Hz1.
Qed.

(** An escaped name from its first bar. *)
Lemma lex_escaped name rest m lx lx1 s :
  rs_readtables s !! rt = Some t → Forall is_char name → rs_in s = esc name ++ 124 :: rest →
  after_colons read_case lx s = RDone lx1 s →
  let lx2 := escaped_interval read_case (token_length lx1) (token_length (with_token (lx_token lx1 ++ name) lx1) - 1)
               (with_token (lx_token lx1 ++ name) lx1) in
  lex (S m) 124 (syntax t 124) lx s = next_char rt (λ c a, lex m c a lx2) lx2 (set_in rest s).
Proof.
  intros Ht Hn E Ea lx2. cbn [lexeme_loop]. change (124 =? 58) with false. cbn [andb].
  rewrite (rbind_Done _ _ _ _ _ Ea), (proj2 (std_multiple t Hstd 124)) by done.
  rewrite (rbind_Done _ _ _ _ _ (stream_fuel_eq s)).
  erewrite rbind_Done; [reflexivity|]. apply (escaped_chars_eq rt t); try done.
  rewrite E. clear E. rewrite length_app. simpl. assert (length name <= length (esc name))%nat; [|lia].
  clear. induction name as [|c name IH]; simpl; [lia|]. case_match; simpl; lia.
Qed.

Lemma lex_colon m lx s l :
  rs_readtables s !! rt = Some t → rs_in s = 58 :: l →
  next_char rt (λ c a, lex (S m) c a lx) lx s =
  next_char rt (λ c a, lex m c a (with_colon (lx_colon lx + 1) lx)) (with_colon (lx_colon lx + 1) lx) (set_in l s).
Proof.
  intros Ht E. rewrite (next_char_cons rt t _ _ s 58 l) by done. cbn [lexeme_loop].
  rewrite (std_constituent t Hstd 58) by lia. done.
Qed.

(** The end of a token. *)
Lemma lexeme_end only_token m lx s :
  rs_readtables s !! rt = Some t → ends_token t (rs_in s) → lx_colon lx = 0 →
  next_char rt (λ c a, lexeme_loop (S m) only_token rt read_case c a lx) lx s = RDone lx s.
Proof.
  intros Ht He Hz. destruct (rs_in s) as [|c l] eqn:E; [by apply next_char_end|]. destruct He as [Hc Hs].
  rewrite (next_char_cons rt t _ _ s c l) by done. cbn [lexeme_loop].
  assert (((c =? 58) && negb only_token && bool_decide (syntax t c = mkcl_cat_constituent)) = false) as ->.
  { rewrite (bool_decide_eq_false_2 (_ = _)) by (destruct Hs as [-> | ->]; done). by rewrite andb_false_r. }
  unfold after_colons. rewrite Hz. cbn [Z.ltb Z.compare Z.eqb negb]. rewrite rbind_ret.
  assert (∀ k : RM lexeme, (mkcl_unread_char c;; k) (set_in l s) = k s) as Eu.
  { intros k. unfold mkcl_unread_char. destruct s. simpl in E |- *. by subst. }
  destruct Hs as [-> | ->]; by rewrite Eu.
Qed.

Lemma lex_end m lx s :
  rs_readtables s !! rt = Some t → ends_token t (rs_in s) → lx_colon lx = 0 →
  next_char rt (λ c a, lex (S m) c a lx) lx s = RDone lx s.
Proof. apply lexeme_end. Qed.
End lexing.
End reader.

(** ** States that only grow *)

(** Only the heap and the stream change, and no cell that was there. *)
Definition grows (s s' : rstate) : Prop := ∃ h, s' = set_heap h s ∧ rs_heap s ⊆ h.
Definition read_to (rest : list Z) (s s' : rstate) : Prop := grows (set_in rest s) s'.

Lemma grows_refl s : grows s s.
Proof. exists (rs_heap s). split; [by rewrite set_heap_same|done]. Qed.
Lemma grows_trans s1 s2 s3 : grows s1 s2 → grows s2 s3 → grows s1 s3.
Proof. intros (h1 & -> & H1) (h2 & -> & H2). exists h2. split; [done|]. simpl in H2. by etrans. Qed.

(** The fill pointer of a string is within its dimension. *)
Class TextDims `{!Vectors} : Prop := {
  text_dim a l h : h !! a = Some (CStr l) → ∃ dim, Z.of_nat (length l) <= dim ∧ array_dim (OString a) h = Done dim h;
}.

(** Computations of the heap that give an object and only add cells. *)
Lemma heapM_gives {A} (P : A → Prop) (m : M A) s : gives P m (rs_heap s) →
  ∃ a s', heapM m s = RDone a s' ∧ P a ∧ grows s s'.
Proof.
  intros (a & h & E & Ha & Hs). exists a, (set_heap h s). split_and!; [by apply heapM_Done|done|]. by exists h.
Qed.

Lemma buffer_string_spec `{!Vectors, !TextDims} l s :
  ∃ str s', buffer_string l s = RDone str s' ∧ is_text str l (rs_heap s') ∧ grows s s'.
Proof.
  unfold buffer_string, new_string. set (a := first_free (rs_heap s)). set (h := <[a := CStr l]> (rs_heap s)).
  exists (OString a), (set_heap h s). split_and!; [done| |].
  - intros h' Hs. simpl in Hs. assert (h' !! a = Some (CStr l)) as Ea.
    { eapply lookup_weaken; [|exact Hs]. unfold h. by rewrite lookup_insert_eq. }
    split; [unfold read_string; by rewrite Ea|]. by apply text_dim.
  - exists h. split; [done|]. apply insert_first_free_subseteq.
Qed.

(** ** The text of a name *)

Definition name_char (c : Z) : Prop := classed c ∧ own_page c.

Lemma name_chars_are l : Forall name_char l → Forall is_char l.
Proof. intros H. eapply Forall_impl; [exact H|]. by intros c [[? _] _]. Qed.
Lemma name_chars_classed l : Forall name_char l → Forall classed l.
Proof. intros H. eapply Forall_impl; [exact H|]. by intros c [? _]. Qed.

Lemma transforms_checked : forallb (forallb (λ i, 0 <=? transform i)) unichar_info = true.
Proof. vm_compute. done. Qed.

Lemma transform_nonneg c i : mkcl_unicode_character_information c = Some i → 0 <= transform i.
Proof.
  intros (k & page & _ & Hp & Hj)%lookup_page. pose proof (proj1 (forallb_forall _ _) transforms_checked page) as Hall.
  specialize (Hall (proj1 (list_elem_of_In _ _) (list_elem_of_lookup_2 _ _ _ Hp))). rewrite forallb_forall in Hall.
  by apply Z.leb_le, Hall, list_elem_of_In, (list_elem_of_lookup_2 _ _ _ Hj).
Qed.

(** The lower case of an upper case letter. *)
Lemma downcase_pair c : is_char c → own_page c → mkcl_upper_case_p c = true →
  is_char (mkcl_char_downcase c) ∧ mkcl_lower_case_p (mkcl_char_downcase c) = true ∧
  mkcl_char_upcase (mkcl_char_downcase c) = c.
Proof.
  intros Hc Hown. destruct (info_total _ Hc) as [i Hi]. pose proof (pair_ok_all _ _ (proj1 Hc) Hown Hi) as Hok.
  unfold mkcl_upper_case_p, mkcl_lower_case_p, mkcl_char_upcase, mkcl_char_downcase, has_signature. rewrite !Hi.
  intros H0. unfold pair_ok in Hok. rewrite H0 in Hok |- *.
  destruct (mkcl_unicode_character_information (transform i)) as [j|] eqn:Ej; [|done].
  apply andb_true_iff in Hok as [-> ?%Z.eqb_eq]. split_and!; [|done|done].
  unfold mkcl_unicode_character_information in Ej. unfold is_char.
  pose proof (transform_nonneg _ _ Hi). destruct (Z.leb_spec MKCL_CHAR_CODE_LIMIT (transform i)); [done|lia].
Qed.

Lemma lower_not_special c : mkcl_lower_case_p c = true → is_char c → c ≠ 58 ∧ mkcl_invalid_constituent_character_p c = false.
Proof.
  intros Hl [H0 _]. assert (∀ k, k ∈ seqZ 0 128 → mkcl_lower_case_p k = true →
    k ≠ 58 ∧ mkcl_invalid_constituent_character_p k = false) as Hall.
  { assert (forallb (λ k, negb (mkcl_lower_case_p k) || (negb (k =? 58) && negb (mkcl_invalid_constituent_character_p k)))
      (seqZ 0 128) = true) as Hb by (by vm_compute).
    intros k Hk Hlk. rewrite forallb_forall in Hb. specialize (Hb k (proj1 (list_elem_of_In _ _) Hk)). rewrite Hlk in Hb.
    simpl in Hb. apply andb_true_iff in Hb as [Hb%negb_true_iff%Z.eqb_neq Hi%negb_true_iff]. done. }
  destruct (Z.ltb_spec c 128); [apply Hall; [apply elem_of_seqZ; lia|done]|].
  split; [lia|]. unfold mkcl_invalid_constituent_character_p.
  by rewrite (proj2 (Z.leb_gt _ _)), (proj2 (Z.eqb_neq _ _)) by lia.
Qed.

Definition plain_name (t : readtable) (n : list Z) : Prop :=
  Forall (λ c, name_char c ∧ plain t c ∧ mkcl_lower_case_p c = false ∧
    (readtable_read_case t = mkcl_case_downcase → mkcl_upper_case_p c = false)) n.

(** The text of a name, escaped or not. *)
Inductive name_text (t : readtable) (n : list Z) : bool → list Z → Prop :=
| text_escaped : name_text t n true (124 :: esc n ++ [124])
| text_plain out : n ≠ [] → Forall (plain t) out → cased_char (readtable_read_case t) <$> out = n → name_text t n false out.

Section names.
Context `{!GMP, !GMPArith, !GMPText, !ToDouble, !Transcendental, !Memory, !Runtime, !RealArith, !HashEnv, !Vectors, !TextDims}.
Context `{!BackqSymbols, !Core, !Restarts, !ReadEnv, !PrinterVars, !PrintVars, !PrintCalls}.
Context (rt : Z) (t : readtable) (Hstd : std_table t) (Hcase : readtable_read_case t ≠ mkcl_case_invert).
Context (Hbase : print_base = OFix 10).

Lemma symbol_chars_escaped n a pc cap s : symbol_chars n a pc true cap s = RDone (esc n) s.
Proof.
  revert cap. induction n as [|c n IH]; intros cap; [done|]. cbn [symbol_chars]. rewrite rbind_ret. cbv beta iota.
  rewrite (rbind_Done _ _ _ _ _ (IH cap)). cbn [esc]. by destruct ((c =? 124) || (c =? 92)).
Qed.

Lemma symbol_chars_plain n pc cap s : plain_name t n →
  ∃ out, symbol_chars n (readtable_read_case t) pc false cap s = RDone out s ∧ Forall (plain t) out ∧
    cased_char (readtable_read_case t) <$> out = n.
Proof.
  intros Hn. revert cap. induction Hn as [|c n (Hc & Hp & Hlow & Hup) _ IH]; intros cap; [by exists []|].
  cbn [symbol_chars].
  assert (∃ o cap', (if bool_decide (readtable_read_case t = mkcl_case_preserve) then mret ([c], cap)
           else if mkcl_upper_case_p c then
             mret ([if bool_decide (readtable_read_case t = mkcl_case_invert)
                       || (bool_decide (readtable_read_case t = mkcl_case_upcase)
                           && (bool_decide (pc = KEY_downcase) || (bool_decide (pc = KEY_capitalize) && negb cap)))
                    then mkcl_char_downcase c else c], false)
           else if mkcl_lower_case_p c then
             mret ([if bool_decide (readtable_read_case t = mkcl_case_invert)
                       || (bool_decide (readtable_read_case t = mkcl_case_downcase)
                           && (bool_decide (pc = KEY_upcase) || (bool_decide (pc = KEY_capitalize) && cap)))
                    then mkcl_char_upcase c else c], false)
           else a ← heapM (checked (mkcl_alphanumericp c)); mret ([c], negb a)) s = RDone ([o], cap') s ∧
      plain t o ∧ cased_char (readtable_read_case t) o = c) as (o & cap' & E & Ho & Hoc).
  { destruct (readtable_read_case t) eqn:Er; [| |done|by exists c, cap].
    - cbn [bool_decide decide readtable_case_eq_dec]. rewrite bool_decide_eq_false_2 by done.
      destruct (mkcl_upper_case_p c) eqn:Eu.
      + destruct (_ || _).
        * exists (mkcl_char_downcase c), false. destruct Hc as [[Hch _] Hown]. destruct (downcase_pair c Hch Hown Eu) as (Hd1 & Hd2 & Hd3).
          destruct (lower_not_special _ Hd2 Hd1) as [Hd4 Hd5]. split_and!; [done| |done].
          split_and!; [done| |done|done]. apply (std_lower t Hstd); [done|done|apply Hp].
        * exists c, false. split_and!; [done|done|]. simpl. by apply upcase_not_lower.
      + rewrite Hlow. destruct (alphanumericp_classed c (proj1 Hc)) as [b Eb]. rewrite Eb. exists c, (negb b).
        split_and!; [|done|simpl; by apply upcase_not_lower]. simpl checked. by rewrite (rbind_Done _ _ _ _ _ (heapM_read (mret b) s b eq_refl)).
    - rewrite bool_decide_eq_false_2 by done. rewrite (Hup eq_refl), Hlow.
      destruct (alphanumericp_classed c (proj1 Hc)) as [b Eb]. rewrite Eb. exists c, (negb b).
      split_and!; [|done|simpl; apply downcase_not_upper; auto]. simpl checked.
      by rewrite (rbind_Done _ _ _ _ _ (heapM_read (mret b) s b eq_refl)). }
  rewrite (rbind_Done _ _ _ _ _ E). cbv beta iota. destruct (IH cap') as (out & E2 & Hout & Hn).
  rewrite (rbind_Done _ _ _ _ _ E2). exists (o :: out). split_and!; [done|by constructor|]. by rewrite fmap_cons, Hoc, Hn.
Qed.

Lemma strange_chars_spec n s : rs_readtables s !! rt = Some t → Forall name_char n →
  ∃ b, strange_chars rt (readtable_read_case t) n s = RDone b s ∧ (b = false → plain_name t n).
Proof.
  intros Ht. induction 1 as [|c n Hc _ (b & E & Hb)]; [exists false; split; [done|constructor]|]. cbn [strange_chars].
  rewrite (rbind_Done _ _ _ _ _ (readtable_get_eq s rt t c Ht)). cbn [fst].
  destruct (negb (bool_decide (syntax t c = mkcl_cat_constituent)) || mkcl_invalid_constituent_character_p c || (c =? 58)) eqn:E1;
    [by exists true|].
  destruct (bool_decide (readtable_read_case t = mkcl_case_downcase) && mkcl_upper_case_p c) eqn:E2; [by exists true|].
  destruct (mkcl_lower_case_p c) eqn:E3; [by exists true|].
  exists b. split; [done|]. intros Hf. constructor; [|by apply Hb].
  apply orb_false_iff in E1 as [[E1%negb_false_iff%bool_decide_eq_true Ei]%orb_false_iff H58%Z.eqb_neq].
  split_and!; [done| |done|].
  - split_and!; [apply Hc|done|done|done].
  - intros Hd. by rewrite bool_decide_eq_true_2 in E2.
Qed.

Lemma grows_readtables s s' : grows s s' → rs_readtables s' = rs_readtables s.
Proof. by intros (h & -> & _). Qed.
Lemma grows_packs s s' : grows s s' → rs_packs s' = rs_packs s.
Proof. by intros (h & -> & _). Qed.

Lemma needs_escape_spec n s : rs_readtables s !! rt = Some t → Forall name_char n →
  ∃ e s', needs_to_be_escaped n rt s = RDone e s' ∧ grows s s' ∧ (e = false → potential 10 n = false ∧ plain_name t n).
Proof.
  intros Ht Hn. unfold needs_to_be_escaped. rewrite (rbind_Done _ _ _ _ _ (find_readtable_eq s rt t Ht)).
  assert (heapM mkcl_print_base s = RDone 10 s) as Eb by (apply heapM_read; unfold mkcl_print_base; by rewrite Hbase).
  rewrite (rbind_Done _ _ _ _ _ Eb). destruct (buffer_string_spec n s) as (str & s1 & E1 & Htext & Hg).
  rewrite (rbind_Done _ _ _ _ _ E1).
  assert (heapM (potential_number_p str 10) s1 = RDone (potential 10 n) s1) as Ep.
  { apply heapM_read, potential_number_eq; [done|by apply name_chars_classed]. }
  rewrite (rbind_Done _ _ _ _ _ Ep). destruct (potential 10 n); [by exists true, s1|].
  destruct (strange_chars_spec n s1) as (b & E & Hb); [by rewrite (grows_readtables _ _ Hg)|done|].
  exists b, s1. split_and!; [exact E|done|]. intros Hf. split; [done|by apply Hb].
Qed.

Lemma write_name_spec n pc e s : (e = false → plain_name t n ∧ n ≠ []) →
  ∃ out, write_symbol_string n (readtable_read_case t) pc e s = RDone out s ∧ name_text t n e out.
Proof.
  intros He. unfold write_symbol_string. rewrite bool_decide_eq_false_2 by done. rewrite rbind_ret. destruct e.
  - rewrite (rbind_Done _ _ _ _ _ (symbol_chars_escaped n _ pc true s)). eexists. split; [done|]. constructor.
  - destruct (He eq_refl) as [Hp Hne]. destruct (symbol_chars_plain n pc true s Hp) as (out & E & Ho & Hc).
    rewrite (rbind_Done _ _ _ _ _ E). exists out. split; [done|]. by constructor.
Qed.

(** ** Symbols *)

(** A symbol of this name that its home package has, and whose package is found under
    its name. *)
Record printable (st : pstate) (x : sym) (n : name) (hp : pid) : Prop := {
  pr_symbol : ∃ sy, st_symbols st !! x = Some sy ∧ psym_name sy = n ∧ psym_hpack sy = Some hp;
  pr_name : Forall name_char n;
  pr_token : n ∉ misread_tokens;
  pr_found : ∃ f, mkcl_find_symbol_nolock n hp st = PDone (x, f) st ∧ (f = SYMBOL_IS_EXTERNAL ∨ f = SYMBOL_IS_INTERNAL);
  pr_home : ∃ pk pn, st_packages st !! hp = Some pk ∧ pack_name pk = Some pn ∧ Forall name_char pn ∧ pn ≠ [] ∧
    find_in_list pn (st_list st) st = PDone (Some hp) st;
  pr_nil cur s f : x = sym_nil → st_current st = Some cur → mkcl_find_symbol_nolock n cur st = PDone (s, f) st → s = sym_nil;
}.

(** What can come before the name, and how the symbol is found then. *)
Inductive symbol_prefix (st : pstate) (x : sym) (n : name) : list Z → Prop :=
| prefix_none cur f : st_current st = Some cur → mkcl_find_symbol_nolock n cur st = PDone (x, f) st →
    f ≠ SYMBOL_IS_NEW → symbol_prefix st x n []
| prefix_keyword f : mkcl_find_symbol_nolock n keyword_package st = PDone (x, f) st → f ≠ SYMBOL_IS_NEW →
    symbol_prefix st x n [58]
| prefix_internal pn e out hp f : name_text t pn e out → pn ≠ [] → Forall name_char pn →
    find_in_list pn (st_list st) st = PDone (Some hp) st →
    mkcl_find_symbol_nolock n hp st = PDone (x, f) st → f ≠ SYMBOL_IS_NEW → symbol_prefix st x n (out ++ [58; 58])
| prefix_external pn e out hp : name_text t pn e out → pn ≠ [] → Forall name_char pn →
    find_in_list pn (st_list st) st = PDone (Some hp) st →
    mkcl_find_symbol_nolock n hp st = PDone (x, SYMBOL_IS_EXTERNAL) st → symbol_prefix st x n (out ++ [58]).

Definition symbol_text (st : pstate) (x : sym) (n : name) (out : list Z) : Prop :=
  ∃ prefix e body, out = prefix ++ body ∧ symbol_prefix st x n prefix ∧ name_text t n e body ∧
    (e = false → potential 10 n = false ∧ all_points n = false).

Lemma find_symbol_eq n p st : mkcl_find_symbol (DString n) (DPackage p) st = mkcl_find_symbol_nolock n p st.
Proof. done. Qed.
Lemma find_symbol_of x sy p st : st_symbols st !! x = Some sy →
  mkcl_find_symbol (DSymbol x) (DPackage p) st = mkcl_find_symbol_nolock (psym_name sy) p st.
Proof. intros Hx. unfold mkcl_find_symbol, mk_cl_string, read_sym, mbind, PM_bind. by rewrite Hx. Qed.

Lemma current_readtable_eq s : rs_readtable s = Some rt → mkcl_current_readtable standard_readtable s = RDone rt s.
Proof. intros Hr. unfold mkcl_current_readtable. rewrite (rbind_Done rget _ s s s eq_refl). by rewrite Hr. Qed.

Lemma needs_package_spec x n hp cur s :
  printable (rs_packs s) x n hp → pinv (rs_packs s) → st_current (rs_packs s) = Some cur →
  is_Some (st_packages (rs_packs s) !! cur) →
  ∃ b, needs_package x hp s = RDone b s ∧
    (b = false → ∃ f, mkcl_find_symbol_nolock n cur (rs_packs s) = PDone (x, f) (rs_packs s) ∧ f ≠ SYMBOL_IS_NEW).
Proof.
  intros Hx Hi Hcur [ck Hck]. unfold needs_package. case_bool_decide; [by exists true|].
  assert (packM mkcl_current_package s = RDone cur s) as Ec.
  { apply packM_read. unfold mkcl_current_package, get_state, mbind, PM_bind. by rewrite Hcur. }
  rewrite (rbind_Done _ _ _ _ _ Ec). destruct (pr_symbol _ _ _ _ Hx) as (sy & Hsy & Hn & _).
  destruct (find_symbol_spec (rs_packs s) cur ck n Hi Hck) as (y & f & Ef & Hf).
  assert (packM (mkcl_find_symbol (DSymbol x) (DPackage cur)) s = RDone (y, f) s) as Ep.
  { apply packM_read. by rewrite (find_symbol_of x sy cur _ Hsy), Hn. }
  rewrite (rbind_Done _ _ _ _ _ Ep). cbn [fst snd]. eexists. split; [done|].
  intros [Hy Hnew]%orb_false_iff. apply bool_decide_eq_false in Hnew. exists f. split; [|done].
  apply andb_false_iff in Hy as [Hy%negb_false_iff%Z.eqb_eq|Hy%negb_false_iff%Z.eqb_eq]; [by subst|].
  by rewrite (pr_nil _ _ _ _ Hx cur y f Hy Hcur Ef), <- Hy in Ef.
Qed.

Lemma write_package_spec x n hp pc s :
  rs_readtables s !! rt = Some t → printable (rs_packs s) x n hp →
  ∃ out s', write_package x n hp rt (readtable_read_case t) pc s = RDone out s' ∧ grows s s' ∧ symbol_prefix (rs_packs s) x n out.
Proof.
  intros Ht Hx. destruct (pr_home _ _ _ _ Hx) as (pk & pn & Hpk & Hpn & Hpc & Hne & Hfind).
  destruct (pr_found _ _ _ _ Hx) as (f & Hf & Hnew). destruct (pr_symbol _ _ _ _ Hx) as (sy & Hsy & Hn & _).
  unfold write_package.
  assert (packM (read_pack hp) s = RDone pk s) as Er by (apply packM_read; unfold read_pack; by rewrite Hpk).
  rewrite (rbind_Done _ _ _ _ _ Er), Hpn.
  destruct (needs_escape_spec pn s Ht Hpc) as (e & s1 & E1 & Hg & He).
  destruct (write_name_spec pn pc e s1) as (out & E2 & Ho); [intros Hf'; split; [by apply He|done]|].
  assert ((e ← needs_to_be_escaped pn rt; write_symbol_string pn (readtable_read_case t) pc e) s = RDone out s1) as E3.
  { by rewrite (rbind_Done _ _ _ _ _ E1). }
  rewrite (rbind_Done _ _ _ _ _ E3).
  assert (packM (mkcl_find_symbol (DSymbol x) (DPackage hp)) s1 = RDone (x, f) s1) as E4.
  { apply packM_read. rewrite (grows_packs _ _ Hg). by rewrite (find_symbol_of x sy hp _ Hsy), Hn. }
  rewrite (rbind_Done _ _ _ _ _ E4). cbn [fst snd]. rewrite Z.eqb_refl. cbn [negb andb].
  destruct (bool_decide _ || bool_decide (f = SYMBOL_IS_INTERNAL)) eqn:Eb.
  - eexists _, s1. split_and!; [done|done|]. eapply prefix_internal; [done..|]. by destruct Hnew as [-> | ->].
  - apply orb_false_iff in Eb as [Hpp%bool_decide_eq_false Hin%bool_decide_eq_false].
    destruct Hnew as [->|?]; [|done].
    rewrite bool_decide_eq_true_2 by done. eexists _, s1. split_and!; [done|done|]. by eapply prefix_external.
Qed.

Lemma write_symbol_spec x n hp pc cur s :
  print_escape = true → print_case = Some pc → rs_readtable s = Some rt → rs_readtables s !! rt = Some t →
  printable (rs_packs s) x n hp → pinv (rs_packs s) → st_current (rs_packs s) = Some cur →
  is_Some (st_packages (rs_packs s) !! cur) →
  ∃ out s', write_symbol x s = RDone out s' ∧ grows s s' ∧ symbol_text (rs_packs s) x n out.
Proof.
  intros Hesc Hpc Hr Ht Hx Hi Hcur Hck. unfold write_symbol.
  rewrite (rbind_Done _ _ _ _ _ (current_readtable_eq s Hr)).
  assert (mkcl_print_case s = RDone pc s) as Ec by (unfold mkcl_print_case; by rewrite Hpc).
  rewrite (rbind_Done _ _ _ _ _ Ec). destruct (pr_symbol _ _ _ _ Hx) as (sy & Hsy & Hn & Hhp).
  assert (packM (read_sym x) s = RDone sy s) as Er by (apply packM_read; unfold read_sym; by rewrite Hsy).
  rewrite (rbind_Done _ _ _ _ _ Er), (rbind_Done _ _ _ _ _ (find_readtable_eq s rt t Ht)).
  rewrite Hesc, andb_false_r, Hhp, Hn.
  assert (∃ prefix s1, (if hp =? keyword_package then mret [58]
      else b ← needs_package x hp;
           if (b : bool) then write_package x n hp rt (readtable_read_case t) pc else mret []) s = RDone prefix s1 ∧
      grows s s1 ∧ symbol_prefix (rs_packs s) x n prefix) as (prefix & s1 & E1 & Hg1 & Hpre).
  { destruct (pr_found _ _ _ _ Hx) as (f & Hf & Hp). destruct (Z.eqb_spec hp keyword_package) as [->|Hk].
    { exists [58], s. split_and!; [done|apply grows_refl|]. eapply prefix_keyword; [done|]. by destruct Hp as [-> | ->]. }
    destruct (needs_package_spec x n hp cur s Hx Hi Hcur Hck) as (b & E & Hb). rewrite (rbind_Done _ _ _ _ _ E). destruct b.
    - by apply write_package_spec.
    - destruct (Hb eq_refl) as (f' & Ef & Hnew). exists [], s. split_and!; [done|apply grows_refl|]. by eapply prefix_none. }
  rewrite (rbind_Done _ _ _ _ _ E1).
  destruct (needs_escape_spec n s1) as (e & s2 & E2 & Hg2 & He); [by rewrite (grows_readtables _ _ Hg1)|apply (pr_name _ _ _ _ Hx)|].
  rewrite (rbind_Done _ _ _ _ _ E2).
  destruct (write_name_spec n pc (e || all_dots n) s2) as (out & E3 & Ho).
  { intros [Hf1 Hf2]%orb_false_iff. split; [by apply He|]. by intros ->. }
  rewrite (rbind_Done _ _ _ _ _ E3). exists (prefix ++ out), s2. split_and!; [done|by eapply grows_trans|].
  exists prefix, (e || all_dots n), out. split_and!; [done..|]. intros [Hf1 Hf2]%orb_false_iff. split; [by apply He|done].
Qed.
End names.

(** ** Symbols that are read *)

Lemma inverted_eq rc lx : rc ≠ mkcl_case_invert → inverted rc lx = lx_token lx.
Proof. by destruct rc. Qed.

Section reading.
Context `{!GMP, !GMPSpec, !GMPArith, !GMPArithSpec, !GMPText, !GMPTextSpec, !ToDouble, !Transcendental}.
Context `{!Memory, !Runtime, !RealArith, !HashEnv, !Vectors, !TextDims}.
Context `{!ReaderVars, !BackqSymbols, !Core, !Restarts, !ReadEnv, !MacroCalls}.
Context (fuel : nat) (Hfuel : (0 < fuel)%nat) (empty_base_string : obj).
Context (rt : Z) (t : readtable) (Hstd : std_table t) (Hcase : readtable_read_case t ≠ mkcl_case_invert).
Context (Hbase : read_base = OFix 10) (Hsup : read_suppress = false).

Abbreviation rc := (readtable_read_case t).
Abbreviation lex n := (lexeme_loop n false rt rc).

Lemma escaped_interval_token b e lx : lx_token (escaped_interval rc b e lx) = lx_token lx ∧
  lx_pack (escaped_interval rc b e lx) = lx_pack lx ∧ lx_external (escaped_interval rc b e lx) = lx_external lx ∧
  lx_colon (escaped_interval rc b e lx) = lx_colon lx ∧ lx_escape_list (escaped_interval rc b e lx) = Escaped.
Proof. unfold escaped_interval. by destruct rc. Qed.

(** A name from its first character. *)
Lemma lex_name n e body K :
  Forall name_char n → name_text t n e body →
  ∃ c cs, body = c :: cs ∧ is_char c ∧ (syntax t c = mkcl_cat_constituent ∨ syntax t c = mkcl_cat_multiple_escape) ∧
  ∀ N lx lx1 s rest, (length cs + K < N)%nat → rs_readtables s !! rt = Some t → rs_in s = cs ++ rest →
    after_colons rc lx s = RDone lx1 s → lx_colon lx1 = 0 →
    ∃ lx2 m, (K ≤ m)%nat ∧ lex N c (syntax t c) lx s = next_char rt (λ c' a, lex m c' a lx2) lx2 (set_in rest s) ∧
      lx_token lx2 = lx_token lx1 ++ n ∧ lx_pack lx2 = lx_pack lx1 ∧ lx_external lx2 = lx_external lx1 ∧ lx_colon lx2 = 0 ∧
      lx_escape_list lx2 = if e then Escaped else lx_escape_list lx1.
Proof.
  intros Hn [|out Hne Hp Hc].
  - exists 124, (esc n ++ [124]). split_and!; [done|done|right; by apply (std_multiple t Hstd)|].
    intros N lx lx1 s rest HN Ht E Ea Hz. destruct N as [|m]; [lia|]. rewrite <- app_assoc in E.
    eexists _, m. split_and!; [|by apply (lex_escaped rt t Hstd rc n rest m lx lx1 s Ht (name_chars_are _ Hn) E Ea)|..].
    { rewrite length_app in HN. lia. }
    all: match goal with |- context [escaped_interval rc ?b ?e ?l] =>
           destruct (escaped_interval_token b e l) as (E1 & E2 & E3 & E4 & E5) end; by rewrite ?E1, ?E2, ?E3, ?E4, ?E5.
  - destruct out as [|c cs]; [by subst|]. pose proof (Forall_inv Hp) as (Hch & Hs & _ & _).
    exists c, cs. split_and!; [done|done|by left|].
    intros N lx lx1 s rest HN Ht E Ea Hz. exists (push_all rc (c :: cs) lx1), (N - 1 - length cs)%nat.
    destruct (push_all_fields rc (c :: cs) lx1) as (E1 & E2 & E3 & E4 & E5). rewrite Hc in E1.
    split_and!; [lia| |done|done|done|by rewrite E4|done].
    replace N with (S (length cs + (N - 1 - length cs)))%nat at 1 by lia.
    by apply lex_plain.
Qed.

Lemma take_package_keyword lx s : lx_token lx = [] →
  take_package rc lx s = RDone (Lexeme [] (Some keyword_package) false 0 0 0 (Intervals [])) s.
Proof. intros Hl. unfold take_package. by rewrite Hl. Qed.

Lemma take_package_named lx pn hp s : lx_token lx = pn → pn ≠ [] →
  find_in_list pn (st_list (rs_packs s)) (rs_packs s) = PDone (Some hp) (rs_packs s) →
  take_package rc lx s = RDone (Lexeme [] (Some hp) (lx_colon lx =? 1) 0 0 0 (Intervals [])) s.
Proof.
  intros Hl Hne Hf. unfold take_package. rewrite (inverted_eq _ _ Hcase), Hl.
  assert (packM (mk_cl_find_package (DString pn)) s = RDone (Some hp) s) as Ep by (apply packM_read; exact Hf).
  destruct pn as [|c pn]; [done|].
  assert ((p ← packM (mk_cl_find_package (DString (c :: pn))); mret (p, lx_colon lx =? 1)) s = RDone (Some hp, lx_colon lx =? 1) s) as E.
  { by rewrite (rbind_Done _ _ _ _ _ Ep). }
  by rewrite (rbind_Done _ _ _ _ _ E).
Qed.

(** What the lexeme of a symbol is. *)
Definition names_symbol (st : pstate) (x : sym) (n : name) (e : bool) (lx : lexeme) : Prop :=
  lx_token lx = n ∧ no_escapes (lx_escape_list lx) = negb e ∧
  match lx_pack lx with
  | None => ∃ cur f, st_current st = Some cur ∧ mkcl_find_symbol_nolock n cur st = PDone (x, f) st ∧ f ≠ SYMBOL_IS_NEW
  | Some p => ∃ f, mkcl_find_symbol_nolock n p st = PDone (x, f) st ∧ f ≠ SYMBOL_IS_NEW ∧
      (lx_external lx = true → f = SYMBOL_IS_EXTERNAL)
  end.

(** From a lexeme with colons to the end of the name. *)
Lemma lex_rest n e body lx lx1 m s rest :
  Forall name_char n → name_text t n e body → rs_readtables s !! rt = Some t → rs_in s = body ++ rest →
  ends_token t rest → (length body + S (length rest) ≤ m)%nat → lx_colon lx1 = 0 → lx_token lx1 = [] →
  lx_escape_list lx1 = Intervals [] → (∀ l, after_colons rc lx (set_in l s) = RDone lx1 (set_in l s)) →
  ∃ lx2, next_char rt (λ c' a, lex m c' a lx) lx s = RDone lx2 (set_in rest s) ∧
    lx_token lx2 = n ∧ no_escapes (lx_escape_list lx2) = negb e ∧ lx_pack lx2 = lx_pack lx1 ∧ lx_external lx2 = lx_external lx1.
Proof.
  intros Hn Hb Ht E He Hm Hz Hl Hi Ha. destruct (lex_name n e body (S (length rest)) Hn Hb) as (c & cs & -> & Hc & _ & Hlex).
  rewrite (next_char_cons rt t _ _ s c (cs ++ rest)) by done.
  destruct (Hlex m lx lx1 (set_in (cs ++ rest) s) rest) as (lx2 & m2 & Hm2 & E2 & F1 & F2 & F3 & F4 & F5); [simpl in Hm; lia|done|done|apply Ha|done|].
  rewrite E2. exists lx2. destruct m2 as [|m2]; [lia|].
  rewrite (lex_end rt t rc m2 lx2 (set_in rest (set_in (cs ++ rest) s))) by done.
  split_and!; [done|by rewrite F1, Hl|rewrite F5; by destruct e; rewrite ?Hi|done|done].
Qed.

Lemma after_colons_package lx s : lx_colon lx = 1 ∨ lx_colon lx = 2 → after_colons rc lx s = take_package rc lx s.
Proof. intros Hk. unfold after_colons. by destruct Hk as [-> | ->]. Qed.

(** A name with its package. *)
Lemma lex_qualified pn e0 out n e body hp k s rest N c cs :
  Forall name_char pn → name_text t pn e0 out → pn ≠ [] → Forall name_char n → name_text t n e body →
  find_in_list pn (st_list (rs_packs s)) (rs_packs s) = PDone (Some hp) (rs_packs s) →
  k = [58] ∨ k = [58; 58] → out ++ k ++ body = c :: cs → rs_readtables s !! rt = Some t → rs_in s = cs ++ rest →
  ends_token t rest → (length cs + S (length rest) < N)%nat →
  ∃ lx, lex N c (syntax t c) no_lexeme s = RDone lx (set_in rest s) ∧ lx_token lx = n ∧
    no_escapes (lx_escape_list lx) = negb e ∧ lx_pack lx = Some hp ∧ lx_external lx = bool_decide (k = [58]).
Proof.
  intros Hpn Ho Hne Hn Hb Hfind Hk E Ht Hin He HN.
  destruct (lex_name pn e0 out (length (k ++ body) + S (length rest)) Hpn Ho) as (c0 & cs0 & -> & Hc & _ & Hlex).
  simpl in E. injection E as <- <-.
  destruct (Hlex N no_lexeme no_lexeme s (k ++ body ++ rest)) as (lx2 & m & Hm & E2 & F1 & F2 & F3 & F4 & F5);
    [rewrite !length_app in *; lia|done|by rewrite Hin, <- !app_assoc|done|done|].
  rewrite E2. clear E2 Hlex. simpl in F1.
  assert (∀ lx3 m3 s3, lx_token lx3 = pn → lx_colon lx3 = Z.of_nat (length k) → s3 = set_in (body ++ rest) s →
    (length body + S (length rest) ≤ m3)%nat →
    ∃ lx, next_char rt (λ c' a, lex m3 c' a lx3) lx3 s3 = RDone lx (set_in rest s) ∧ lx_token lx = n ∧
    no_escapes (lx_escape_list lx) = negb e ∧ lx_pack lx = Some hp ∧ lx_external lx = bool_decide (k = [58])) as Hrest.
  { intros lx3 m3 s3 Hl3 Hc3 -> Hm3.
    destruct (lex_rest n e body lx3 (Lexeme [] (Some hp) (lx_colon lx3 =? 1) 0 0 0 (Intervals [])) m3 (set_in (body ++ rest) s) rest)
      as (lx & El & G1 & G2 & G3 & G4); try done.
    - intros l. rewrite after_colons_package by (rewrite Hc3; destruct Hk as [-> | ->]; simpl; lia).
      by apply (take_package_named lx3 pn hp (set_in l (set_in (body ++ rest) s))).
    - exists lx. split_and!; [done..|]. rewrite G4. cbn [lx_external]. rewrite Hc3. by destruct Hk as [-> | ->]. }
  destruct Hk as [-> | ->]; simpl app in *; simpl length in *.
  - destruct m as [|m]; [lia|].
    rewrite (lex_colon rt t Hstd rc m lx2 (set_in (58 :: body ++ rest) s) (body ++ rest)) by done.
    apply Hrest; [done|simpl; rewrite F4; done|done|lia].
  - destruct m as [|[|m]]; [lia..|].
    rewrite (lex_colon rt t Hstd rc (S m) lx2 (set_in (58 :: 58 :: body ++ rest) s) (58 :: body ++ rest)) by done.
    erewrite (lex_colon rt t Hstd rc m _ _ (body ++ rest)) by done.
    apply Hrest; [done|simpl; rewrite F4; done|done|lia].
Qed.

Lemma lex_symbol st x n out :
  symbol_text t st x n out → Forall name_char n →
  ∃ c cs, out = c :: cs ∧ is_char c ∧ (syntax t c = mkcl_cat_constituent ∨ syntax t c = mkcl_cat_multiple_escape) ∧
  ∀ s rest N, rs_packs s = st → rs_readtables s !! rt = Some t → rs_in s = cs ++ rest → ends_token t rest →
    (length cs + S (length rest) < N)%nat →
    ∃ e lx, lex N c (syntax t c) no_lexeme s = RDone lx (set_in rest s) ∧ names_symbol st x n e lx ∧
      (e = false → n ≠ [] ∧ potential 10 n = false ∧ all_points n = false).
Proof.
  intros (prefix & e & body & -> & Hpre & Hb & Hpot) Hn.
  assert (e = false → n ≠ [] ∧ potential 10 n = false ∧ all_points n = false) as Hpot'.
  { intros Hf. split; [|by apply Hpot]. by destruct Hb. }
  destruct Hpre as [cur f Hcur Hf Hnew|f Hf Hnew|pn e0 out hp f Ho Hne Hpn Hfind Hf Hnew|pn e0 out hp Ho Hne Hpn Hfind Hf].
  - destruct (lex_name n e body 0 Hn Hb) as (c & cs & -> & Hc & Hs & _).
    exists c, cs. split_and!; [done..|]. intros s rest N Hst Ht Hin He HN.
    destruct (lex_name n e (c :: cs) (S (length rest)) Hn Hb) as (c' & cs' & Ecs & _ & _ & Hlex). injection Ecs as <- <-.
    destruct (Hlex N no_lexeme no_lexeme s rest) as (lx2 & m & Hm & E2 & F1 & F2 & F3 & F4 & F5); [lia|done..|].
    destruct m as [|m]; [lia|].
    exists e, lx2. split; [|split; [|done]].
    { rewrite E2. by apply (lex_end rt t rc m lx2 (set_in rest s)). }
    unfold names_symbol. rewrite F1, F2, F5. split_and!; [done|by destruct e|simpl; eauto].
  - exists 58, body. split_and!; [done|done|left; apply (std_constituent t Hstd); lia|].
    intros s rest N Hst Ht Hin He HN. destruct N as [|N]; [lia|]. cbn [lexeme_loop].
    rewrite (std_constituent t Hstd 58) by lia.
    change ((58 =? 58) && negb false && bool_decide (mkcl_cat_constituent = mkcl_cat_constituent)) with true. cbv iota.
    destruct (lex_rest n e body (with_colon (lx_colon no_lexeme + 1) no_lexeme) (Lexeme [] (Some keyword_package) false 0 0 0 (Intervals []))
      N s rest) as (lx & El & G1 & G2 & G3 & G4); try done; [lia|].
    exists e, lx. split; [done|]. split; [|done]. unfold names_symbol. split_and!; [done..|]. rewrite G3, G4. exists f. by split_and!.
  - assert (∃ c cs, out ++ [58; 58] ++ body = c :: cs ∧ is_char c ∧
      (syntax t c = mkcl_cat_constituent ∨ syntax t c = mkcl_cat_multiple_escape)) as (c & cs & E & Hc & Hs).
    { destruct (lex_name pn e0 out 0 Hpn Ho) as (c & cs & -> & Hc & Hs & _). by exists c, (cs ++ [58; 58] ++ body). }
    exists c, cs. split_and!; [by rewrite <- app_assoc|done..|]. intros s rest N <- Ht Hin He HN.
    destruct (lex_qualified pn e0 out n e body hp [58; 58] s rest N c cs) as (lx & El & G1 & G2 & G3 & G4); try done; [by right|].
    exists e, lx. split; [done|]. split; [|done]. unfold names_symbol. split_and!; [done..|]. rewrite G3, G4. exists f. by split_and!.
  - assert (∃ c cs, out ++ [58] ++ body = c :: cs ∧ is_char c ∧
      (syntax t c = mkcl_cat_constituent ∨ syntax t c = mkcl_cat_multiple_escape)) as (c & cs & E & Hc & Hs).
    { destruct (lex_name pn e0 out 0 Hpn Ho) as (c & cs & -> & Hc & Hs & _). by exists c, (cs ++ [58] ++ body). }
    exists c, cs. split_and!; [by rewrite <- app_assoc|done..|]. intros s rest N <- Ht Hin He HN.
    destruct (lex_qualified pn e0 out n e body hp [58] s rest N c cs) as (lx & El & G1 & G2 & G3 & G4); try done; [by left|].
    exists e, lx. split; [done|]. split; [|done]. unfold names_symbol. split_and!; [done..|]. rewrite G3, G4. exists SYMBOL_IS_EXTERNAL. by split_and!.
Qed.

(** ** What tokens are *)

Lemma intern_symbol st x n e lx s :
  rs_packs s = st → names_symbol st x n e lx → intern_token fuel rc lx s = RDone (symbol_obj x) s.
Proof.
  intros <- (Hl & _ & Hp). unfold intern_token. rewrite (inverted_eq _ _ Hcase), Hl.
  assert (∀ p f, mkcl_find_symbol_nolock n p (rs_packs s) = PDone (x, f) (rs_packs s) → f ≠ SYMBOL_IS_NEW →
    packM (mkcl_intern fuel (DString n) (DPackage p)) s = RDone (x, f) s) as Hint.
  { intros p f Hf Hnew. apply packM_read. rewrite intern_eq. destruct fuel as [|m]; [lia|]. cbn [mkcl_intern_loop].
    rewrite (pbind_Done _ _ _ _ _ Hf). cbn [snd]. by rewrite bool_decide_eq_false_2. }
  destruct (lx_pack lx) as [p|].
  - destruct Hp as (f & Hf & Hnew & Hext). destruct (lx_external lx).
    + rewrite (Hext eq_refl) in Hf.
      assert (packM (mkcl_find_symbol (DString n) (DPackage p)) s = RDone (x, SYMBOL_IS_EXTERNAL) s) as Ep.
      { apply packM_read. by rewrite find_symbol_eq. }
      by rewrite (rbind_Done _ _ _ _ _ Ep).
    + by rewrite (rbind_Done _ _ _ _ _ (Hint p f Hf Hnew)).
  - destruct Hp as (cur & f & Hcur & Hf & Hnew).
    assert (packM mkcl_current_package s = RDone cur s) as Ec.
    { apply packM_read. unfold mkcl_current_package, get_state, mbind, PM_bind. by rewrite Hcur. }
    by rewrite (rbind_Done _ _ _ _ _ Ec), (rbind_Done _ _ _ _ _ (Hint cur f Hf Hnew)).
Qed.

Lemma token_symbol st x n e lx s :
  rs_packs s = st → names_symbol st x n e lx → Forall name_char n → n ∉ misread_tokens →
  (e = false → n ≠ [] ∧ potential 10 n = false ∧ all_points n = false) →
  ∃ s', token_object fuel rc lx s = RDone (symbol_obj x) s' ∧ grows s s'.
Proof.
  intros Hst Hnames Hn Hmis Hpot. unfold token_object. rewrite Hsup. pose proof Hnames as (Hl & He & Hp).
  destruct (bool_decide (lx_pack lx ≠ None) || negb (no_escapes (lx_escape_list lx))) eqn:Eb.
  - exists s. split; [by eapply intern_symbol|apply grows_refl].
  - apply orb_false_iff in Eb as [_ Ee%negb_false_iff]. rewrite He in Ee. apply negb_true_iff in Ee.
    destruct (Hpot Ee) as (Hne & Hpt & Hpts). rewrite Hl.
    destruct (buffer_string_spec n s) as (str & s1 & E1 & Htext & Hg1). rewrite (rbind_Done _ _ _ _ _ E1).
    destruct (heapM_gives (λ t, t = TokenSymbol) (read_token fuel str) s1) as (tk & s2 & E2 & -> & Hg2).
    { apply (read_token_symbol fuel str n); try done. by apply name_chars_classed. }
    rewrite (rbind_Done _ _ _ _ _ E2). exists s2. split; [|by eapply grows_trans].
    eapply intern_symbol; [|exact Hnames]. by rewrite (grows_packs _ _ Hg2), (grows_packs _ _ Hg1).
Qed.
End reading.
