(* ===== verification/ReadBack.v ===== *)
(** * ReadBack: printed objects are read back

    Finite trees of conses whose leaves are symbols, rational numbers, characters,
    strings and bit vectors: what is printed of them is read as an EQUAL object in
    which every cons, string and bit vector is new. *)

From S2P Require Import Prelude Words Objects Heap Numbers Floats Equal Lists NumPred Arith NumComp NumCo NumLog ToFloat.
From S2P Require Import ArithSpecs NumCompSpecs NumCoSpecs Hash HashTable ListSearch Sequences UniTables Chars CharSpecs Strings StrMake StrSpecs.
From S2P Require Import NumRead NumPrint NumReadSpecs TokenSpecs CharNames Backq.
From S2P Require Import Packages PackSpecs PackFacts Readtable Reader Printer ReaderSpecs.
#[local] Open Scope Z_scope.

(** ** Trees *)

Inductive datum :=
| TSym (s : sym) | TNum (q : Qc) | TChar (c : Z) | TText (l : list Z) | TBits (b : list bool)
| TCons (a d : datum).

Fixpoint tree_size (t : datum) : nat :=
  match t with TCons a d => S (tree_size a + tree_size d) | _ => 2 end.

(** The object is this tree: its conses, strings and bit vectors are in the heap. *)
Fixpoint shows `{!Core} (h : heap) (t : datum) (x : obj) : Prop :=
  match t with
  | TSym s => x = symbol_obj s
  | TNum q => is_rat x q
  | TChar c => x = OChar c
  | TText l => ∃ a, (x = OString a ∨ x = OBaseString a) ∧ h !! a = Some (CStr l)
  | TBits b => ∃ a o n bits, x = OObj mkcl_t_bitvector a ∧ h !! a = Some (CBits o n bits) ∧ take n (drop o bits) = b
  | TCons a d => ∃ p v w, x = OCons p ∧ h !! p = Some (CCons v w) ∧ shows h a v ∧ shows h d w
  end.

Lemma shows_mono `{!Core} h h' t x : h ⊆ h' → shows h t x → shows h' t x.
Proof.
  intros Hs. revert x. induction t as [s|q|c|l|b|a IHa d IHd]; simpl; try done.
  - intros x (a & Hx & Ha). exists a. split; [done|]. by eapply lookup_weaken.
  - intros x (a & o & n & bits & Hx & Ha & Hb). exists a, o, n, bits. split_and!; [done| |done]. by eapply lookup_weaken.
  - intros x (p & v & w & Hx & Hp & Hv & Hw). exists p, v, w.
    split_and!; [done|by eapply lookup_weaken|by apply IHa|by apply IHd].
Qed.

(** ** EQUAL *)

Lemma int_objects_eql x y z : is_int x z → is_int y z → mkcl_eql x y = true.
Proof.
  intros Hx Hy. destruct (is_int_cases _ _ Hx) as [(m & ->)|(a & w & ->)], (is_int_cases _ _ Hy) as [(n & ->)|(b & v & ->)];
    destruct Hx as [[= ->] Hx], Hy as [[= ->] Hy]; rewrite mkcl_eql_key; by apply bool_decide_eq_true.
Qed.

Lemma frac_parts n d n' d' : 1 < d → Z.gcd n d = 1 → 1 < d' → Z.gcd n' d' = 1 → frac n d = frac n' d' → n = n' ∧ d = d'.
Proof.
  intros Hd Hg Hd' Hg' E. assert (n * d' = n' * d) as Ex.
  { pose proof (frac_compare n d n' d' ltac:(lia) ltac:(lia)) as Ec. rewrite E in Ec.
    assert ((frac n' d' ?= frac n' d')%Qc = Eq) as Er by (by apply Qceq_alt). rewrite Er in Ec.
    by apply Z.compare_eq_iff. }
  assert (d = d') as ->; [|split; [nia|done]].
  apply Z.divide_antisym_nonneg; [lia|lia|..].
  - apply Z.gauss with n; [exists n'; lia|by rewrite Z.gcd_comm].
  - apply Z.gauss with n'; [exists n; lia|by rewrite Z.gcd_comm].
Qed.

Lemma rational_objects_eql x y q : is_rat x q → is_rat y q → mkcl_eql x y = true.
Proof.
  intros Hx Hy.
  destruct (is_rat_cases _ _ Hx) as [(z & Hz & ->)|(a & num & den & n & d & -> & Hn & Hd & Hd1 & Hg & ->)].
  - apply is_rat_int_inv in Hy. by eapply int_objects_eql.
  - destruct (is_rat_cases _ _ Hy) as [(z & Hz & E)|(a' & num' & den' & n' & d' & -> & Hn' & Hd' & Hd1' & Hg' & E)].
    + rewrite E in Hx. by apply is_rat_int_inv in Hx as [? _].
    + apply frac_parts in E as [-> ->]; [|done..]. cbn [mkcl_eql]. case_match; [done|]. simpl.
      by rewrite (int_objects_eql _ _ _ Hn Hn'), (int_objects_eql _ _ _ Hd Hd').
Qed.

Lemma text_objects_equal n h x y a b l : (x = OString a ∨ x = OBaseString a) → (y = OString b ∨ y = OBaseString b) →
  h !! a = Some (CStr l) → h !! b = Some (CStr l) → mkcl_equal (S n) x y h = Done true h.
Proof.
  intros Hx Hy Ha Hb. assert (key_of h x = KString l) as Kx by (destruct Hx as [-> | ->]; simpl; by rewrite Ha).
  assert (key_of h y = KString l) as Ky by (destruct Hy as [-> | ->]; simpl; by rewrite Hb).
  rewrite mkcl_equal_leaf, Kx, Ky; [by rewrite bool_decide_eq_true_2|..]; destruct Hx as [-> | ->], Hy as [-> | ->]; simpl; eauto.
Qed.

(** Two objects that are the same tree are EQUAL. *)
Lemma shows_equal `{!Core} h t x y n : shows h t x → shows h t y → (tree_size t < n)%nat → mkcl_equal n x y h = Done true h.
Proof.
  revert x y n. induction t as [s|q|c|l|b|a IHa d IHd]; intros x y n Hx Hy Hn; simpl in Hx, Hy, Hn;
    (destruct n as [|n]; [lia|]).
  - subst. cbn [mkcl_equal]. by rewrite obj_eq_refl.
  - rewrite mkcl_equal_plain; [by rewrite (rational_objects_eql x y q)|].
    destruct (is_rat_cases _ _ Hx) as [(z & Hz & _)|(? & ? & ? & ? & ? & -> & _)]; [|done].
    by destruct (is_int_cases _ _ Hz) as [(m & ->)|(? & ? & ->)].
  - subst. cbn [mkcl_equal]. by rewrite obj_eq_refl.
  - destruct Hx as (a & Hx & Ha), Hy as (b & Hy & Hb). by eapply text_objects_equal.
  - destruct Hx as (a & o & m & bits & -> & Ha & Hxb), Hy as (a' & o' & m' & bits' & -> & Ha' & Hyb).
    rewrite mkcl_equal_leaf; [|done|done|simpl; eauto..]. simpl. rewrite Ha, Ha', Hxb, Hyb. by rewrite bool_decide_eq_true_2.
  - destruct Hx as (p & v & w & -> & Hp & Hv & Hw), Hy as (p' & v' & w' & -> & Hp' & Hv' & Hw').
    cbn [mkcl_equal]. destruct (obj_eq _ _); [done|]. cbn [MKCL_CONSP MKCL_CAR MKCL_CDR mkcl_Null].
    rewrite (bind_Done _ _ _ _ _ (CAR_eq _ _ _ _ Hp)), (bind_Done _ _ _ _ _ (CAR_eq _ _ _ _ Hp')).
    rewrite (bind_Done _ _ _ _ _ (IHa v v' n Hv Hv' ltac:(lia))).
    rewrite (bind_Done _ _ _ _ _ (CDR_eq _ _ _ _ Hp)), (bind_Done _ _ _ _ _ (CDR_eq _ _ _ _ Hp')).
    apply IHd; [done|done|lia].
Qed.

(** ** The state of the reader *)

Lemma char_not_delimiter c d : is_char c → c ≠ 41 → d = EOF ∨ d = 41 → (c =? d) = false.
Proof. intros Hc Hn [-> | ->]; [by apply char_not_eof|by apply Z.eqb_neq]. Qed.

Section readback.
Context `{!GMP, !GMPSpec, !GMPArith, !GMPArithSpec, !GMPText, !GMPTextSpec, !ToDouble, !Transcendental}.
Context `{!Memory, !Runtime, !RealArith, !HashEnv, !Vectors, !TextDims}.
Context `{!ReaderVars, !BackqSymbols, !Core, !Restarts, !ReadEnv, !MacroCalls, !PrinterVars, !PrintVars, !PrintCalls}.
Context (fuel : nat) (Hfuel : (0 < fuel)%nat) (empty_base_string : obj).

(** The read table in use, the standard one, and the table of [#] in the first. *)
Context (rt sharp : Z) (t t0 : readtable) (sharps : gmap Z macro_fun).
Context (Hstd : std_table t) (Hstd0 : std_table t0).
Context (Hcase : readtable_read_case t ≠ mkcl_case_invert) (Hcase0 : readtable_read_case t0 ≠ mkcl_case_invert).
Context (Hsharp : entry_of t 35 = Entry mkcl_cat_non_terminating (MTable sharp)).
Context (Hsharps : sharps !! 39 = Some F_sharp_single_quote ∧ sharps !! 42 = Some F_sharp_asterisk ∧
  sharps !! 92 = Some F_sharp_backslash).
Context (Hbase : read_base = OFix 10) (Hsup : read_suppress = false).

Abbreviation rc := (readtable_read_case t).
Abbreviation begin_read depth := (read_begin fuel empty_base_string depth rt rc).

Record ready (st : pstate) (s : rstate) : Prop := {
  rd_packs : rs_packs s = st;
  rd_current : rs_readtable s = Some rt;
  rd_table : rs_readtables s !! rt = Some t;
  rd_standard : rs_readtables s !! standard_readtable = Some t0;
  rd_sharps : rs_tables s !! sharp = Some sharps;
}.

Lemma ready_in st s l : ready st s → ready st (set_in l s).
Proof. by intros []. Qed.
Lemma ready_heap st s h : ready st s → ready st (set_heap h s).
Proof. by intros []. Qed.
Lemma ready_packs st st' s : ready st s → ready st' (set_packs st' s).
Proof. by intros []. Qed.
Lemma ready_grows st s s' : ready st s → grows s s' → ready st s'.
Proof. intros Hr (h & -> & _). by apply ready_heap. Qed.

#[local] Ltac still_ready := repeat first [assumption | apply ready_heap | apply ready_in].

Definition ends (rest : list Z) : Prop := ends_token t rest ∧ ends_token t0 rest.

Lemma ends_blank rest : ends (32 :: rest).
Proof. split; (split; [done|left; by apply std_blank]). Qed.
Lemma ends_right rest : ends (41 :: rest).
Proof. split; (split; [done|right]); unfold syntax; by rewrite std_right. Qed.

Lemma current_eq st s : ready st s → mkcl_current_readtable standard_readtable s = RDone rt s.
Proof. intros Hr. apply current_readtable_eq, (rd_current _ _ Hr). Qed.
Lemma get_eq st s c : ready st s → mkcl_readtable_get rt c s = RDone (syntax t c, dispatch (entry_of t c)) s.
Proof. intros Hr. apply readtable_get_eq, (rd_table _ _ Hr). Qed.

(** A call of the reader from a macro character. *)
Lemma read_again st s depth d flags : ready st s →
  (rt ← mkcl_current_readtable standard_readtable; t ← find_readtable rt;
   read_begin fuel empty_base_string depth rt (readtable_read_case t) d flags) s = begin_read depth d flags s.
Proof.
  intros Hr. rewrite (rbind_Done _ _ _ _ _ (current_eq st s Hr)).
  by rewrite (rbind_Done _ _ _ _ _ (find_readtable_eq s rt t (rd_table _ _ Hr))).
Qed.

(** Blanks before an object. *)
Lemma skip_blanks_spec st s k delimiter blanks c l :
  ready st s → rs_in s = blanks ++ c :: l → Forall (λ b, b = 32) blanks → is_char c → c ≠ 41 →
  syntax t c ≠ mkcl_cat_whitespace → delimiter = EOF ∨ delimiter = 41 → (length blanks < k)%nat →
  skip_blanks k rt delimiter s = RDone (Some (c, (syntax t c, dispatch (entry_of t c)))) (set_in l s).
Proof.
  intros Hr E Hb Hc H41 Hs Hd. revert k s Hr E. induction Hb as [|b blanks -> _ IH]; intros [|k] s Hr E Hk;
    try (simpl in Hk; lia); cbn [skip_blanks]; rewrite (rbind_Done _ _ _ _ _ (read_char_cons _ _ _ E)).
  - rewrite char_not_delimiter, char_not_eof by done.
    rewrite (rbind_Done _ _ _ _ _ (get_eq st (set_in l s) c (ready_in _ _ _ Hr))). by destruct (syntax t c).
  - rewrite char_not_delimiter, char_not_eof by done.
    rewrite (rbind_Done _ _ _ _ _ (get_eq st (set_in _ s) 32 (ready_in _ _ _ Hr))). cbn [fst]. rewrite (std_blank t Hstd).
    simpl in Hk. rewrite (IH k (set_in _ s)); [done|still_ready|done|lia].
Qed.

(** ** What a text is read as *)

(** Where an object begins. *)
Definition starts (c : Z) : Prop := is_char c ∧ c ≠ 41 ∧ syntax t c ≠ mkcl_cat_whitespace.

(** The text is read as an object that is this tree, with everything in it new. *)
Definition reads (st : pstate) (x : datum) (out : list Z) : Prop :=
  (∃ c cs, out = c :: cs ∧ starts c) ∧
  ∀ s rest blanks delimiter flags depth,
    ready st s → rs_in s = blanks ++ out ++ rest → Forall (λ b, b = 32) blanks → ends rest →
    delimiter = EOF ∨ delimiter = 41 → (tree_size x < depth)%nat →
    ∃ y s', begin_read depth delimiter flags s = RDone (Some y) s' ∧ shows (rs_heap s' ∖ rs_heap s) x y ∧ read_to rest s s'.

(** Objects that begin with a constituent or an escape. *)
Lemma reads_token st x c cs :
  is_char c → syntax t c = mkcl_cat_constituent ∨ syntax t c = mkcl_cat_multiple_escape →
  (∀ s rest, ready st s → rs_in s = cs ++ rest → ends rest →
     ∃ lx y s', read_lexeme false rt rc c (syntax t c) s = RDone lx (set_in rest s) ∧
       token_object fuel rc lx (set_in rest s) = RDone y s' ∧ shows (rs_heap s' ∖ rs_heap s) x y ∧ grows (set_in rest s) s') →
  reads st x (c :: cs).
Proof.
  intros Hc Hs Hk. assert (starts c) as Hst.
  { split_and!; [done| |by destruct Hs as [-> | ->]]. intros ->. unfold syntax in Hs. rewrite (std_right t Hstd) in Hs.
    by destruct Hs. }
  split; [by exists c, cs|]. intros s rest blanks delimiter flags [|depth] Hr E Hb He Hd Hn; [simpl in Hn; lia|].
  cbn [read_begin]. rewrite (rbind_Done _ _ _ _ _ (stream_fuel_eq s)).
  rewrite (rbind_Done _ _ _ _ _ (skip_blanks_spec st s (S (length (rs_in s))) delimiter blanks c (cs ++ rest) Hr E Hb
    (proj1 Hst) (proj1 (proj2 Hst)) (proj2 (proj2 Hst)) Hd ltac:(rewrite E, length_app; lia))).
  destruct (Hk (set_in (cs ++ rest) s) rest) as (lx & y & s' & E1 & E2 & Hy & Hg); [still_ready|done|done|].
  cbv iota beta. rewrite !(bool_decide_eq_false_2 (syntax t c = _)) by (destruct Hs as [-> | ->]; done). cbn [orb].
  rewrite (rbind_Done _ _ _ _ _ E1), (rbind_Done _ _ _ _ _ E2). exists y, s'. by split_and!.
Qed.

(** Objects that a macro character reads. *)
Lemma reads_macro st x c cs :
  starts c → syntax t c = mkcl_cat_terminating ∨ syntax t c = mkcl_cat_non_terminating →
  (∀ s rest depth, ready st s → rs_in s = cs ++ rest → ends rest → (tree_size x ≤ depth)%nat →
     let read d := (rt ← mkcl_current_readtable standard_readtable; t ← find_readtable rt;
                    read_begin fuel empty_base_string depth rt (readtable_read_case t) d 0) in
     ∃ y s', call_entry fuel empty_base_string depth read c (dispatch (entry_of t c)) s = RDone [y] s' ∧
       shows (rs_heap s' ∖ rs_heap s) x y ∧ read_to rest s s') →
  reads st x (c :: cs).
Proof.
  intros Hst Hs Hk. split; [by exists c, cs|]. intros s rest blanks delimiter flags [|depth] Hr E Hb He Hd Hn; [simpl in Hn; lia|].
  cbn [read_begin]. rewrite (rbind_Done _ _ _ _ _ (stream_fuel_eq s)).
  rewrite (rbind_Done _ _ _ _ _ (skip_blanks_spec st s (S (length (rs_in s))) delimiter blanks c (cs ++ rest) Hr E Hb
    (proj1 Hst) (proj1 (proj2 Hst)) (proj2 (proj2 Hst)) Hd ltac:(rewrite E, length_app; lia))).
  destruct (Hk (set_in (cs ++ rest) s) rest depth) as (y & s' & E1 & Hy & Hg); [still_ready|done|done|lia|].
  assert (bool_decide (syntax t c = mkcl_cat_terminating) || bool_decide (syntax t c = mkcl_cat_non_terminating) = true) as Eb.
  { destruct Hs as [-> | ->]; done. }
  cbv iota beta. rewrite Eb, (rbind_Done _ _ _ _ _ E1). exists y, s'. by split_and!.
Qed.

(** ** Symbols *)

Lemma reads_symbol st x n out hp : printable st x n hp → symbol_text t st x n out → reads st (TSym x) out.
Proof.
  intros Hp Ht. destruct (lex_symbol fuel Hfuel rt t Hstd Hcase st x n out Ht (pr_name _ _ _ _ Hp)) as (c & cs & -> & Hc & Hs & Hlex).
  apply reads_token; [done|done|]. intros s rest Hr E [He _].
  destruct (Hlex s rest (S (length (rs_in s) + 1))) as (e & lx & E1 & Hnames & Hpot);
    [apply (rd_packs _ _ Hr)|apply (rd_table _ _ Hr)|done|done|rewrite E, length_app; lia|].
  destruct (token_symbol fuel Hfuel t Hcase Hbase Hsup st x n e lx (set_in rest s)) as (s' & E2 & Hg);
    [apply (rd_packs _ _ Hr)|done|apply (pr_name _ _ _ _ Hp)|apply (pr_token _ _ _ _ Hp)|done|].
  exists lx, (symbol_obj x), s'. split_and!; [|done|done|done]. unfold read_lexeme.
  rewrite (rbind_Done _ _ _ _ _ (stream_fuel_eq s)). by replace (S (S (length (rs_in s)))) with (S (length (rs_in s) + 1)) by lia.
Qed.

(** ** Numbers *)

Lemma number_chars_checked :
  forallb (λ c, negb (mkcl_invalid_constituent_character_p c) && (mkcl_char_upcase c =? c) && (mkcl_char_downcase c =? c) &&
    bool_decide (mkcl_alpha_char_p c = Some false)) (seqZ 45 13) = true.
Proof. by vm_compute. Qed.

Lemma number_char_plain c : number_char 10 c →
  plain t c ∧ cased_char rc c = c ∧ mkcl_alpha_char_p c = Some false ∧ c ≠ 46.
Proof.
  intros Hc. assert (45 <= c <= 57 ∧ c ≠ 46) as [Hr H46].
  { destruct Hc as [->|[->|(d & Hd & ->)]]; [lia|lia|]. unfold mkcl_digit_char. repeat case_match; lia. }
  pose proof number_chars_checked as Hall. rewrite forallb_forall in Hall.
  specialize (Hall c (proj1 (list_elem_of_In _ _) (proj2 (elem_of_seqZ 45 13 c) ltac:(lia)))).
  apply andb_true_iff in Hall as [[[Hi%negb_true_iff Hu%Z.eqb_eq]%andb_true_iff Hd%Z.eqb_eq]%andb_true_iff Ha%bool_decide_eq_true].
  split_and!; [|unfold cased_char; by destruct rc|done|done].
  split_and!; [unfold is_char, MKCL_CHAR_CODE_LIMIT; lia|by apply (std_constituent t Hstd); lia|lia|done].
Qed.

(** A token of constituents that is no symbol. *)
Lemma reads_plain st x l : l ≠ [] → Forall (plain t) l → cased_char rc <$> l = l →
  (∀ str h, is_text str l h → gives (λ tk, ∃ y, (tk = TokenNumber y ∨ tk = TokenDot ∧ y = OSym SI_DOT) ∧ ∀ h', shows h' x y)
     (read_token fuel str) h) →
  reads st x l.
Proof.
  intros Hne Hp Hid Hk. destruct l as [|c cs]; [done|]. destruct (Forall_inv Hp) as (Hc & Hs & _).
  apply reads_token; [done|by left|]. intros s rest Hr E [He _].
  set (lx := push_all rc (c :: cs) no_lexeme). destruct (push_all_fields rc (c :: cs) no_lexeme) as (L1 & L2 & L3 & L4 & L5).
  fold lx in L1, L2, L3, L4, L5. simpl in L1, L2, L4, L5. rewrite <- fmap_cons, Hid in L1.
  destruct (buffer_string_spec (c :: cs) (set_in rest s)) as (str & s1 & E1 & Htext & Hg1).
  destruct (heapM_gives _ _ s1 (Hk str (rs_heap s1) Htext)) as (tk & s2 & E2 & (y & Htk & Hy) & Hg2).
  exists lx, y, s2. split_and!; [| |by apply Hy|by eapply grows_trans].
  - unfold read_lexeme. rewrite (rbind_Done _ _ _ _ _ (stream_fuel_eq s)).
    replace (S (S (length (rs_in s)))) with (S (length cs + S (length rest))) by (rewrite E, length_app; lia).
    rewrite (lex_plain rt t rc c cs rest (S (length rest)) no_lexeme no_lexeme s (rd_table _ _ Hr) Hp E eq_refl eq_refl).
    apply (lex_end rt t rc); [apply (rd_table _ _ Hr)|done|by rewrite L4].
  - unfold token_object. rewrite Hsup, L2, L5. cbn [no_escapes negb]. rewrite bool_decide_eq_false_2 by auto.
    cbn [orb]. rewrite L1, (rbind_Done _ _ _ _ _ E1), (rbind_Done _ _ _ _ _ E2). by destruct Htk as [-> | [-> ->]].
Qed.

Lemma reads_numeric st q c cs :
  Forall (plain t) (c :: cs) → cased_char rc <$> (c :: cs) = c :: cs → mkcl_alpha_char_p c = Some false → c ≠ 46 →
  reads_as fuel 10 q (c :: cs) → reads st (TNum q) (c :: cs).
Proof.
  intros Hp Hid Ha H46 Hq. apply reads_plain; [done..|]. intros str h Htext.
  unfold read_token. eapply gives_bind_Done; [apply (Htext h); reflexivity|].
  cbv beta iota zeta. rewrite (proj2 (Z.eqb_neq c 46) H46), andb_false_r. cbn [forallb]. rewrite (proj2 (Z.eqb_neq c 46) H46). cbn [andb].
  assert (mkcl_current_read_base h = Done 10 h) as Eb by (unfold mkcl_current_read_base; by rewrite Hbase).
  eapply gives_bind_Done; [exact Eb|]. change (10 <=? 10) with true. cbv iota. rewrite Ha. eapply gives_bind_Done; [done|].
  eapply gives_bind; [by apply Hq|]. intros [p i] h' (Hi & y & Hp' & Hy) _. simpl in Hi, Hp'. subst p i.
  assert (gives (λ tk, ∃ y, (tk = TokenNumber y ∨ tk = TokenDot ∧ y = OSym SI_DOT) ∧ ∀ h', shows h' (TNum q) y)
    (mret (if Z.of_nat (length (c :: cs)) =? Z.of_nat (length (c :: cs)) then TokenNumber y else TokenSymbol)) h') as Hret.
  { apply gives_ret. rewrite Z.eqb_refl. exists y. by split; [left|]. }
  destruct (is_rat_cases _ _ Hy) as [(z & Hz & _)|(? & ? & ? & ? & ? & -> & _)]; [|exact Hret].
  by destruct (is_int_cases _ _ Hz) as [(m & ->)|(? & ? & ->)].
Qed.

Lemma reads_number st q l : l ≠ [] → Forall (number_char 10) l → reads_as fuel 10 q l → reads st (TNum q) l.
Proof.
  intros Hne Hl Hq. destruct l as [|c cs]; [done|]. destruct (number_char_plain c (Forall_inv Hl)) as (_ & _ & Ha & H46).
  apply reads_numeric; try done.
  { eapply Forall_impl; [exact Hl|]. intros. by apply number_char_plain. }
  rewrite <- (list_fmap_id (c :: cs)) at 2. apply Forall_fmap_ext_1. eapply Forall_impl; [exact Hl|]. intros; by apply number_char_plain.
Qed.

(** The dot of a list. *)
Lemma reads_dot st : SI_DOT ≠ sym_nil → reads st (TSym SI_DOT) [46].
Proof.
  intros Hd. apply reads_plain; [done| |by destruct rc|].
  { constructor; [|done]. split_and!; [done|by apply (std_constituent t Hstd)|done|done]. }
  intros str h Htext. unfold read_token. eapply gives_bind_Done; [apply (Htext h); reflexivity|].
  apply gives_ret. exists (OSym SI_DOT). split; [by right|]. intros h'. simpl. unfold symbol_obj. by rewrite (proj2 (Z.eqb_neq _ _)).
Qed.

(** ** Characters, bit vectors and strings *)

Lemma sharp_starts : starts 35.
Proof. split_and!; [done|done|]. unfold syntax. by rewrite Hsharp. Qed.

(** The function of a character after [#]. *)
Lemma reads_sharp st x k f cs :
  is_char k → (∃ d, mkcl_digitp k 10 = Some d ∧ d < 0) → sharps !! k = Some f →
  (∀ s rest depth, ready st s → rs_in s = cs ++ rest → ends rest → (tree_size x ≤ depth)%nat →
     let read d := (rt ← mkcl_current_readtable standard_readtable; t ← find_readtable rt;
                    read_begin fuel empty_base_string depth rt (readtable_read_case t) d 0) in
     ∃ y s', call_sharp fuel read f k ONil s = RDone [y] s' ∧ shows (rs_heap s' ∖ rs_heap s) x y ∧ read_to rest s s') →
  reads st x (35 :: k :: cs).
Proof.
  intros Hk (d & Ed & Hd) Ef Hf. apply reads_macro; [apply sharp_starts|right; unfold syntax; by rewrite Hsharp|].
  intros s rest depth Hr E He Hn read. destruct (Hf (set_in (cs ++ rest) s) rest depth) as (y & s' & E1 & Hy & Hg);
    [still_ready|done|done|done|]. exists y, s'. split_and!; [|done|done].
  rewrite Hsharp. cbn [dispatch call_entry]. unfold dispatch_macro_character.
  rewrite (rbind_Done _ _ _ _ _ (read_noeof_cons s k (cs ++ rest) E Hk)). rewrite Ed. cbn [checked].
  rewrite (rbind_Done _ _ _ _ _ (heapM_read (mret d) (set_in (cs ++ rest) s) d eq_refl)).
  rewrite (proj2 (Z.leb_gt 0 d) Hd), rbind_ret. cbv iota beta.
  assert (find_table sharp (set_in (cs ++ rest) s) = RDone sharps (set_in (cs ++ rest) s)) as Et.
  { unfold find_table. simpl. by rewrite (rd_sharps _ _ Hr). }
  by rewrite (rbind_Done _ _ _ _ _ Et), Ef.
Qed.

Lemma reads_char st c : 32 < c < 127 → reads st (TChar c) [35; 92; c].
Proof.
  intros Hc. apply (reads_sharp st _ 92 F_sharp_backslash); [done|by exists (-1)|apply Hsharps|].
  intros s rest depth Hr E [_ He] _ read. exists (OChar c), (set_in rest s). split_and!; [|done|apply grows_refl].
  cbn [call_sharp]. unfold sharp_backslash_reader. cbn [mkcl_Null negb andb]. rewrite rbind_ret.
  assert (with_standard_readtable (λ rt, read_only_token rt mkcl_cat_single_escape) s = RDone (Some [c]) (set_in rest s)) as Et.
  { unfold with_standard_readtable.
    assert (read_only_token standard_readtable mkcl_cat_single_escape (set_readtable (Some standard_readtable) s) =
      RDone (Some [c]) (set_in rest (set_readtable (Some standard_readtable) s))) as ->.
    { set (s1 := set_readtable (Some standard_readtable) s). unfold read_only_token.
      rewrite (rbind_Done _ _ _ _ _ (find_readtable_eq s1 standard_readtable t0 (rd_standard _ _ Hr))).
      assert (∃ lx, read_lexeme true standard_readtable (readtable_read_case t0) 0 mkcl_cat_single_escape s1 =
        RDone lx (set_in rest s1) ∧ lx_token lx = [c] ∧ inverted (readtable_read_case t0) lx = lx_token lx) as (lx & El & Hl & Hi).
      { eexists. split; [|split; [|by apply inverted_eq]].
        - unfold read_lexeme. rewrite (rbind_Done _ _ _ _ _ (stream_fuel_eq s1)). cbn [lexeme_loop].
          change (0 =? 58) with false. cbn [andb]. unfold after_colons. cbn [lx_colon no_lexeme Z.ltb Z.compare Z.eqb negb].
          rewrite rbind_ret. cbv iota beta.
          rewrite (rbind_Done _ _ _ _ _ (read_noeof_cons s1 c rest E ltac:(unfold is_char, MKCL_CHAR_CODE_LIMIT; lia))).
          apply (lexeme_end standard_readtable t0 (readtable_read_case t0) true (length (rs_in s1)) _ (set_in rest s1));
            [apply (rd_standard _ _ Hr)|done|].
          apply (escaped_interval_token t0 Hcase0).
        - unfold push_char. cbn [lx_token]. by rewrite (proj1 (escaped_interval_token t0 Hcase0 _ _ _)). }
      by rewrite (rbind_Done _ _ _ _ _ El), Hsup, Hi, Hl. }
    by destruct s. }
  by rewrite (rbind_Done _ _ _ _ _ Et).
Qed.

Lemma fresh_cell h1 h a (c : cell) : h ⊆ h1 → a = first_free h1 → (<[a := c]> h1 ∖ h) !! a = Some c ∧ h ⊆ <[a := c]> h1.
Proof.
  intros Hs ->. split.
  - apply lookup_difference_Some. rewrite lookup_insert_eq. split; [done|].
    eapply lookup_weaken_None; [apply first_free_fresh|done].
  - etrans; [exact Hs|]. apply insert_first_free_subseteq.
Qed.

Definition escaped_quotes (l : list Z) : list Z := mjoin ((λ c, if (c =? 34) || (c =? 92) then [92; c] else [c]) <$> l).

Lemma escaped_quotes_length l : (length l ≤ length (escaped_quotes l))%nat.
Proof. induction l as [|c l IH]; [done|]. unfold escaped_quotes in *. rewrite fmap_cons. simpl. case_match; simpl; lia. Qed.

Lemma quoted_chars_spec st l rest : Forall is_char l → ∀ n token s,
  ready st s → rs_in s = escaped_quotes l ++ 34 :: rest → (length l < n)%nat →
  quoted_chars n rt 34 token s = RDone (token ++ l) (set_in rest s).
Proof.
  induction 1 as [|c l Hc _ IH]; intros [|n] token s Hr E Hn; try (simpl in Hn; lia); cbn [quoted_chars].
  - rewrite (rbind_Done _ _ _ _ _ (read_noeof_cons s 34 rest E ltac:(done))). simpl. by rewrite app_nil_r.
  - simpl in Hn. unfold escaped_quotes in E. rewrite fmap_cons in E. cbn [mjoin] in E. simpl in E.
    destruct ((c =? 34) || (c =? 92)) eqn:Ec; simpl in E.
    + rewrite (rbind_Done _ _ _ _ _ (read_noeof_cons s 92 _ E ltac:(done))). cbn [Z.eqb Pos.eqb].
      rewrite (rbind_Done _ _ _ _ _ (get_eq st (set_in _ s) 92 (ready_in _ _ _ Hr))). cbn [fst].
      rewrite (proj2 (std_single t Hstd 92)) by done.
      erewrite rbind_Done; [|by apply read_noeof_cons].
      erewrite IH; [by rewrite <- app_assoc|still_ready|done|lia].
    + apply orb_false_iff in Ec as [E34 E92%Z.eqb_neq].
      rewrite (rbind_Done _ _ _ _ _ (read_noeof_cons s c _ E Hc)). rewrite E34.
      rewrite (rbind_Done _ _ _ _ _ (get_eq st (set_in _ s) c (ready_in _ _ _ Hr))). cbn [fst].
      assert (syntax t c ≠ mkcl_cat_single_escape) as Hs by (by intros Hs%(std_single t Hstd)).
      destruct (syntax t c); try done; rewrite rbind_ret; (erewrite IH; [by rewrite <- app_assoc|still_ready|done|lia]).
Qed.

Lemma reads_text st l : Forall is_char l → is_fixnum (Z.of_nat (length l)) → reads st (TText l) (quoted l).
Proof.
  intros Hl Hf. apply reads_macro.
  { split_and!; [done|done|]. unfold syntax. by rewrite std_double_quote. }
  { left. unfold syntax. by rewrite std_double_quote. }
  intros s rest depth Hr E He _ read. rewrite (std_double_quote t Hstd). cbn [dispatch call_entry call_macro].
  unfold double_quote_reader. rewrite (rbind_Done _ _ _ _ _ (current_eq st s Hr)), (rbind_Done _ _ _ _ _ (stream_fuel_eq s)).
  change (rs_in s = (escaped_quotes l ++ [34]) ++ rest) in E. rewrite <- app_assoc in E.
  assert (quoted_chars (S (length (rs_in s))) rt 34 [] s = RDone l (set_in rest s)) as Eq.
  { apply (quoted_chars_spec st l rest Hl); [done|done|]. rewrite E, length_app. simpl.
    pose proof (escaped_quotes_length l). lia. }
  rewrite (rbind_Done _ _ _ _ _ Eq). set (h := rs_heap s). set (a := first_free h). set (h1 := <[a := CStr l]> h).
  assert (buffer_string l (set_in rest s) = RDone (OString a) (set_heap h1 (set_in rest s))) as Eb by done.
  rewrite (rbind_Done _ _ _ _ _ Eb). set (s1 := set_heap h1 (set_in rest s)).
  assert (read_string (OString a) h1 = Done l h1) as Er by (simpl; unfold h1; by rewrite lookup_insert_eq).
  assert (heapM (mkcl_fits_in_base_string (OString a)) s1 = RDone (forallb MKCL_BASE_CHAR_CODE_P l) s1) as Ef.
  { apply heapM_read. change (rs_heap s1) with h1. unfold mkcl_fits_in_base_string. by rewrite (bind_Done _ _ _ _ _ Er). }
  rewrite (rbind_Done _ _ _ _ _ Ef). set (b := first_free h1).
  destruct (fresh_cell h1 h b (CStr l)) as [Hfresh Hsub]; [apply insert_first_free_subseteq|done|].
  assert (∃ k, (k = OString ∨ k = OBaseString) ∧
    (if forallb MKCL_BASE_CHAR_CODE_P l then heapM (mkcl_coerce_to_base_string fuel empty_base_string (OString a))
     else heapM (mk_cl_copy_seq fuel (OString a))) s1 = RDone (k b) (set_heap (<[b := CStr l]> h1) s1)) as (k & Hk & Ek).
  { destruct (forallb _ l) eqn:Ebase.
    - exists OBaseString. split; [by right|]. apply heapM_Done. change (rs_heap s1) with h1. unfold mkcl_coerce_to_base_string.
      cbn [MKCL_BASE_STRING_P mkcl_coerce_to_simple_base_string]. unfold string_to_base. rewrite (bind_Done _ _ _ _ _ Er).
      unfold to_base. rewrite Ebase. done.
    - exists OString. split; [by left|]. apply heapM_Done. by apply copy_seq_text. }
  rewrite (rbind_Done _ _ _ _ _ Ek). exists (k b), (set_heap (<[b := CStr l]> h1) s1). split_and!; [done| |].
  - exists b. split; [destruct Hk as [-> | ->]; auto|exact Hfresh].
  - exists (<[b := CStr l]> h1). split; [done|exact Hsub].
Qed.

Definition bit_char (b : bool) : Z := if b then 49 else 48.

Lemma bit_chars_spec st l rest : ends rest → ∀ n bits s,
  ready st s → rs_in s = (bit_char <$> l) ++ rest → (length l < n)%nat →
  bit_chars n rt bits s = RDone (bits ++ l) (set_in rest s).
Proof.
  intros [He _]. induction l as [|b l IH]; intros [|n] bits s Hr E Hn; try (simpl in Hn; lia); cbn [bit_chars].
  - simpl in E. rewrite app_nil_r. destruct rest as [|c rest].
    + rewrite (rbind_Done _ _ _ _ _ (read_char_nil s E)). simpl. by rewrite set_in_same.
    + destruct He as [Hc Hs]. rewrite (rbind_Done _ _ _ _ _ (read_char_cons s c rest E)), char_not_eof by done.
      rewrite (rbind_Done _ _ _ _ _ (get_eq st (set_in rest s) c (ready_in _ _ _ Hr))). cbn [fst].
      assert (mkcl_unread_char c (set_in rest s) = RDone tt (set_in (c :: rest) s)) as Eu by done.
      destruct Hs as [-> | ->]; by rewrite (rbind_Done _ _ _ _ _ Eu).
  - simpl in Hn. rewrite fmap_cons in E. simpl in E. rewrite (rbind_Done _ _ _ _ _ (read_char_cons s _ _ E)).
    rewrite char_not_eof by (unfold is_char, MKCL_CHAR_CODE_LIMIT, bit_char; destruct b; lia).
    rewrite (rbind_Done _ _ _ _ _ (get_eq st (set_in _ s) _ (ready_in _ _ _ Hr))). cbn [fst].
    rewrite (std_constituent t Hstd) by (unfold bit_char; destruct b; lia). cbv iota.
    rewrite !bool_decide_eq_false_2 by done. replace (bit_char b =? 49) with b by (by destruct b).
    destruct b; simpl; (rewrite IH; [by rewrite <- app_assoc|still_ready|done|lia]).
Qed.

Lemma reads_bits st l : reads st (TBits l) (35 :: 42 :: (bit_char <$> l)).
Proof.
  apply (reads_sharp st _ 42 F_sharp_asterisk); [done|by exists (-1)|apply Hsharps|].
  intros s rest depth Hr E He _ read. cbn [call_sharp]. unfold sharp_asterisk_reader.
  rewrite (rbind_Done _ _ _ _ _ (current_eq st s Hr)), Hsup, (rbind_Done _ _ _ _ _ (stream_fuel_eq s)).
  assert (bit_chars (S (length (rs_in s))) rt [] s = RDone l (set_in rest s)) as Eb.
  { apply (bit_chars_spec st l rest He); [done|done|]. rewrite E, length_app, length_fmap. lia. }
  rewrite (rbind_Done _ _ _ _ _ Eb), rbind_ret. rewrite Z.sub_diag. cbn [Z.to_nat replicate]. rewrite app_nil_r.
  set (a := first_free (rs_heap s)). set (c := CBits 0 (length l) l).
  assert (heapM (alloc c) (set_in rest s) = RDone a (set_heap (<[a := c]> (rs_heap s)) (set_in rest s))) as Ea by done.
  rewrite (rbind_Done _ _ _ _ _ Ea). destruct (fresh_cell (rs_heap s) (rs_heap s) a c) as [Hf Hs]; [done|done|].
  eexists _, _. split_and!; [done| |].
  - exists a, 0%nat, (length l), l. split_and!; [done|exact Hf|]. by rewrite drop_0, take_ge.
  - by exists (<[a := c]> (rs_heap s)).
Qed.

(** ** Abbreviations *)

Lemma list_of_two x y h : ∃ a b h', mk_cl_list [x; y] h = Done (OCons a) h' ∧ h ⊆ h' ∧
  (h' ∖ h) !! a = Some (CCons x (OCons b)) ∧ (h' ∖ h) !! b = Some (CCons y ONil).
Proof.
  set (a := first_free h). set (h1 := <[a := CCons x ONil]> h). set (b := first_free h1).
  set (h2 := <[b := CCons y ONil]> h1). exists a, b, (<[a := CCons x (OCons b)]> h2).
  pose proof (first_free_fresh h : h !! a = None) as Ha. pose proof (first_free_fresh h1 : h1 !! b = None) as Hb.
  assert (a ≠ b) as Hab by (intros E; unfold h1 in Hb; by rewrite E, lookup_insert_eq in Hb).
  assert (h !! b = None) as Hb0 by (unfold h1 in Hb; by rewrite lookup_insert_ne in Hb).
  assert (h2 !! a = Some (CCons x ONil)) as Ea.
  { unfold h2, h1. by rewrite lookup_insert_ne, lookup_insert_eq. }
  split_and!.
  - unfold mk_cl_list, mkcl_list1. rewrite (bind_Done _ _ _ _ _ (cons_eq x ONil h)). cbn [list_args_loop]. unfold mkcl_list1.
    rewrite !bind_assoc. fold a h1. rewrite (bind_Done _ _ _ _ _ (cons_eq y ONil h1)). fold b h2.
    rewrite bind_assoc. by rewrite (bind_Done _ _ _ _ _ (RPLACD_eq _ _ _ _ _ Ea)).
  - apply map_subseteq_spec. intros k c Hk. assert (k ≠ a ∧ k ≠ b) as [? ?] by (split; congruence).
    unfold h2, h1. by rewrite !lookup_insert_ne.
  - apply lookup_difference_Some. by rewrite lookup_insert_eq.
  - apply lookup_difference_Some. rewrite lookup_insert_ne by done. unfold h2. by rewrite lookup_insert_eq.
Qed.

Lemma difference_mono (h h1 h2 : heap) : h1 ⊆ h2 → h1 ∖ h ⊆ h2 ∖ h.
Proof.
  intros Hs. apply map_subseteq_spec. intros k c [Hk Hn]%lookup_difference_Some.
  apply lookup_difference_Some. split; [by eapply lookup_weaken|done].
Qed.
Lemma difference_anti (h h1 h2 : heap) : h ⊆ h1 → h2 ∖ h1 ⊆ h2 ∖ h.
Proof.
  intros Hs. apply map_subseteq_spec. intros k c [Hk Hn]%lookup_difference_Some.
  apply lookup_difference_Some. split; [done|by eapply lookup_weaken_None].
Qed.

(** A list of a symbol and an object that is read after a prefix. *)
Lemma two_of_symbol q x y s s' : q ≠ sym_nil → grows s s' → shows (rs_heap s' ∖ rs_heap s) x y →
  ∃ z s2, heapM (mk_cl_list [OSym q; y]) s' = RDone z s2 ∧ grows s s2 ∧
    shows (rs_heap s2 ∖ rs_heap s) (TCons (TSym q) (TCons x (TSym sym_nil))) z.
Proof.
  intros Hq (h1 & -> & Hs1) Hy. destruct (list_of_two (OSym q) y h1) as (a & b & h2 & E & Hs2 & Ha & Hb).
  exists (OCons a), (set_heap h2 s). split_and!; [exact (heapM_Done _ (set_heap h1 s) _ _ E)|exists h2; split; [done|by etrans]|].
  pose proof (difference_anti (rs_heap s) h1 h2 Hs1) as Hd. exists a, (OSym q), (OCons b).
  split_and!; [done|by eapply lookup_weaken| |].
  - simpl. unfold symbol_obj. by rewrite (proj2 (Z.eqb_neq _ _)).
  - exists b, y, ONil. split_and!; [done|by eapply lookup_weaken| |by simpl; unfold symbol_obj; rewrite Z.eqb_refl].
    eapply shows_mono; [|exact Hy]. by apply difference_mono.
Qed.

Lemma reads_quote st x out : CL_quote ≠ sym_nil → reads st x out →
  reads st (TCons (TSym CL_quote) (TCons x (TSym sym_nil))) (39 :: out).
Proof.
  intros Hq [_ Hx]. apply reads_macro.
  { split_and!; [done|done|]. unfold syntax. by rewrite std_single_quote. }
  { left. unfold syntax. by rewrite std_single_quote. }
  intros s rest depth Hr E He Hn read. rewrite (std_single_quote t Hstd). cbn [dispatch call_entry call_macro].
  unfold single_quote_reader, read_required, mkcl_read_object.
  destruct (Hx s rest [] EOF 0 depth Hr E (Forall_nil_2 _) He (or_introl eq_refl)) as (y & s' & E1 & Hy & Hg); [simpl in Hn; lia|].
  assert (read EOF s = RDone (Some y) s') as E2 by (unfold read; by rewrite (read_again st s depth EOF 0 Hr)).
  rewrite (rbind_Done (x ← read EOF; match x with Some x => mret x | None => rraise FEend_of_file end) _ s y s');
    [|by rewrite (rbind_Done _ _ _ _ _ E2)].
  destruct (two_of_symbol CL_quote x y (set_in rest s) s' Hq Hg Hy) as (z & s2 & E3 & Hg2 & Hz).
  exists z, s2. split_and!; [by rewrite (rbind_Done _ _ _ _ _ E3)|done|done].
Qed.

Lemma reads_function st x out : CL_function ≠ sym_nil → reads st x out →
  reads st (TCons (TSym CL_function) (TCons x (TSym sym_nil))) (35 :: 39 :: out).
Proof.
  intros Hq [_ Hx]. apply (reads_sharp st _ 39 F_sharp_single_quote); [done|by exists (-1)|apply Hsharps|].
  intros s rest depth Hr E He Hn read. cbn [call_sharp]. unfold sharp_single_quote_reader, no_argument.
  cbn [mkcl_Null negb andb]. rewrite rbind_ret. unfold read_required, mkcl_read_object.
  destruct (Hx s rest [] EOF 0 depth Hr E (Forall_nil_2 _) He (or_introl eq_refl)) as (y & s' & E1 & Hy & Hg); [simpl in Hn; lia|].
  assert (read EOF s = RDone (Some y) s') as E2 by (unfold read; by rewrite (read_again st s depth EOF 0 Hr)).
  rewrite (rbind_Done (x ← read EOF; match x with Some x => mret x | None => rraise FEend_of_file end) _ s y s');
    [|by rewrite (rbind_Done _ _ _ _ _ E2)].
  destruct (two_of_symbol CL_function x y (set_in rest s) s' Hq Hg Hy) as (z & s2 & E3 & Hg2 & Hz).
  exists z, s2. rewrite Hsup. split_and!; [by rewrite (rbind_Done _ _ _ _ _ E3)|done|done].
Qed.

(** ** Lists *)

Abbreviation read_in depth := (λ d,
  rt ← mkcl_current_readtable standard_readtable; t ← find_readtable rt;
  read_begin fuel empty_base_string depth rt (readtable_read_case t) d 0).

Context (Hdot : SI_DOT ≠ sym_nil).

(** The text, before a right parenthesis, is read as what follows an element of a list:
    the list ends in the cons [a]. *)
Definition reads_rest (st : pstate) (x : datum) (out : list Z) : Prop :=
  (out = [] ∨ ∃ l, out = 32 :: l) ∧
  ∀ s rest n depth y a v, ready st s → rs_in s = out ++ 41 :: rest → rs_heap s !! a = Some (CCons v ONil) →
    (tree_size x + 2 ≤ n)%nat → (tree_size x < depth)%nat →
    ∃ tl h', delimited_loop (read_in depth) n 41 false y (Some (OCons a)) 0 s = RDone y (set_heap h' (set_in rest s)) ∧
      h' !! a = Some (CCons v tl) ∧ shows (h' ∖ rs_heap s) x tl ∧ delete a (rs_heap s) ⊆ h'.

Lemma tree_size_pos x : (2 ≤ tree_size x)%nat.
Proof. induction x; simpl; lia. Qed.

Lemma read_right st s depth rest : ready st s → rs_in s = 41 :: rest → (0 < depth)%nat →
  read_in depth 41 s = RDone None (set_in rest s).
Proof.
  intros Hr E Hd. cbv beta. rewrite (read_again st s depth 41 0 Hr). destruct depth as [|depth]; [lia|]. cbn [read_begin].
  rewrite (rbind_Done _ _ _ _ _ (stream_fuel_eq s)).
  assert (∀ k, skip_blanks (S k) rt 41 s = RDone None (set_in rest s)) as Es.
  { intros k. cbn [skip_blanks]. by rewrite (rbind_Done _ _ _ _ _ (read_char_cons s 41 rest E)). }
  by rewrite (rbind_Done _ _ _ _ _ (Es _)).
Qed.

Lemma read_element st s depth x out rest blanks : reads st x out → ready st s → rs_in s = blanks ++ out ++ rest →
  Forall (λ b, b = 32) blanks → ends rest → (tree_size x < depth)%nat →
  ∃ y h, read_in depth 41 s = RDone (Some y) (set_heap h (set_in rest s)) ∧ shows (h ∖ rs_heap s) x y ∧ rs_heap s ⊆ h.
Proof.
  intros [_ Hx] Hr E Hb He Hd. cbv beta. rewrite (read_again st s depth 41 0 Hr).
  destruct (Hx s rest blanks 41 0 depth Hr E Hb He (or_intror eq_refl) Hd) as (y & s' & E1 & Hy & h & -> & Hs).
  exists y, h. by split_and!.
Qed.

Lemma shows_symbol h x s : shows h x (OSym s) → x = TSym s.
Proof.
  destruct x; simpl; try done.
  - unfold symbol_obj. case_match; [done|]. by intros [= ->].
  - by intros (z & [? _] & _).
  - by intros (a & [?|?] & _).
  - by intros (? & ? & ? & ? & ? & _).
  - by intros (? & ? & ? & ? & _).
Qed.

Lemma not_dot h x y : x ≠ TSym SI_DOT → shows h x y → obj_eq y (OSym SI_DOT) = false.
Proof. intros Hx Hy. apply obj_eq_false. intros ->. by apply Hx, (shows_symbol h). Qed.

Lemma reads_rest_nil st : reads_rest st (TSym sym_nil) [].
Proof.
  split; [by left|]. intros s rest n depth y a v Hr E Ha Hn Hd. exists ONil, (rs_heap s).
  destruct n as [|n]; [simpl in Hn; lia|]. cbn [delimited_loop].
  rewrite (rbind_Done _ _ _ _ _ (read_right st s depth rest Hr E ltac:(lia))). split_and!; [|done| |apply delete_subseteq].
  - by destruct s.
  - simpl. unfold symbol_obj. by rewrite Z.eqb_refl.
Qed.

(** The cdr of a cons that was there is set. *)
Lemma rplacd_cell (h h1 : heap) a v w : h ⊆ h1 → h !! a = Some (CCons v ONil) →
  h1 ∖ h ⊆ <[a := CCons v w]> h1 ∖ h ∧ delete a h ⊆ <[a := CCons v w]> h1.
Proof.
  intros Hs Ha. split; apply map_subseteq_spec; intros k c.
  - intros [Hk Hn]%lookup_difference_Some. apply lookup_difference_Some. by rewrite lookup_insert_ne by congruence.
  - intros [Hne Hk]%lookup_delete_Some. rewrite lookup_insert_ne by done. by eapply lookup_weaken.
Qed.

Lemma reads_rest_dot st x out : reads st x out → x ≠ TSym SI_DOT → reads_rest st x ([32; 46; 32] ++ out).
Proof.
  intros Hx Hne. split; [right; by exists ([46; 32] ++ out)|]. intros s rest n depth y a v Hr E Ha Hn Hd.
  pose proof (tree_size_pos x). destruct n as [|[|[|n]]]; [lia..|]. cbn [delimited_loop].
  destruct (read_element st s depth (TSym SI_DOT) [46] (32 :: out ++ 41 :: rest) [32] (reads_dot st Hdot) Hr E)
    as (y1 & h1 & E1 & Hy1 & Hs1); [by repeat constructor|apply ends_blank|simpl; lia|].
  simpl in Hy1. unfold symbol_obj in Hy1. rewrite (proj2 (Z.eqb_neq _ _) Hdot) in Hy1. subst y1.
  rewrite (rbind_Done _ _ _ _ _ E1), obj_eq_refl. rewrite bool_decide_eq_false_2 by done. cbn [Z.eqb negb].
  set (s1 := set_heap h1 (set_in (32 :: out ++ 41 :: rest) s)).
  destruct (read_element st s1 depth x out (41 :: rest) [32] Hx) as (w & h2 & E2 & Hw & Hs2);
    [still_ready|done|by repeat constructor|apply ends_right|done|].
  simpl in Hw, Hs2. rewrite (rbind_Done _ _ _ _ _ E2), (not_dot _ _ _ Hne Hw). cbn [Z.ltb Z.compare].
  assert (h2 !! a = Some (CCons v ONil)) as Ha2 by (do 2 (eapply lookup_weaken; [|eassumption]); exact Ha).
  set (h3 := <[a := CCons v w]> h2). set (s2 := set_heap h2 (set_in (41 :: rest) s1)).
  assert (heapM (MKCL_RPLACD (OCons a) w) s2 = RDone tt (set_heap h3 s2)) as E3 by (apply heapM_Done; by apply (RPLACD_eq a v ONil)).
  change (1 <? 1) with false. cbv iota. rewrite (rbind_Done _ _ _ _ _ E3). cbn [delimited_loop].
  assert (read_in depth 41 (set_heap h3 s2) = RDone None (set_in rest (set_heap h3 s2))) as E4.
  { apply (read_right st); [still_ready|done|lia]. }
  rewrite (rbind_Done _ _ _ _ _ E4). destruct (rplacd_cell (rs_heap s) h2 a v w) as [Hd1 Hd2]; [by etrans|done|].
  exists w, h3. split_and!; [done|unfold h3; by rewrite lookup_insert_eq| |done].
  eapply shows_mono; [|exact Hw]. etrans; [by apply difference_anti|done].
Qed.

Lemma reads_rest_cons st a d out out' : reads st a out → a ≠ TSym SI_DOT → reads_rest st d out' →
  reads_rest st (TCons a d) (32 :: out ++ out').
Proof.
  intros Ha Hne [Hout Hd]. split; [right; by exists (out ++ out')|]. intros s rest n depth y c v Hr E Hc Hn Hdep.
  cbn [tree_size] in Hn, Hdep. destruct n as [|n]; [lia|]. cbn [delimited_loop].
  assert (ends (out' ++ 41 :: rest)) as He by (destruct Hout as [-> | [l ->]]; [apply ends_right|apply ends_blank]).
  destruct (read_element st s depth a out (out' ++ 41 :: rest) [32] Ha Hr) as (x & h1 & E1 & Hx & Hs1);
    [rewrite E; simpl; by rewrite <- app_assoc|by repeat constructor|done|lia|].
  rewrite (rbind_Done _ _ _ _ _ E1), (not_dot _ _ _ Hne Hx), Hsup. cbn [Z.eqb negb].
  set (s1 := set_heap h1 (set_in (out' ++ 41 :: rest) s)). set (b := first_free h1). set (h2 := <[b := CCons x ONil]> h1).
  assert (heapM (mkcl_list1 x) s1 = RDone (OCons b) (set_heap h2 s1)) as E2 by (apply heapM_Done; apply cons_eq).
  rewrite (rbind_Done _ _ _ _ _ E2). pose proof (first_free_fresh h1 : h1 !! b = None) as Hb.
  assert (h1 !! c = Some (CCons v ONil)) as Hc1 by (by eapply lookup_weaken).
  assert (b ≠ c) as Hbc by congruence.
  assert (h2 !! c = Some (CCons v ONil)) as Hc2 by (unfold h2; by rewrite lookup_insert_ne).
  set (h3 := <[c := CCons v (OCons b)]> h2).
  assert (heapM (MKCL_RPLACD (OCons c) (OCons b)) (set_heap h2 s1) = RDone tt (set_heap h3 s1)) as E3.
  { exact (heapM_Done _ (set_heap h2 s1) _ _ (RPLACD_eq c v ONil (OCons b) h2 Hc2)). }
  rewrite (rbind_Done _ _ _ _ _ E3).
  assert (h3 !! b = Some (CCons x ONil)) as Hb3 by (unfold h3, h2; by rewrite lookup_insert_ne, lookup_insert_eq).
  destruct (Hd (set_heap h3 s1) rest n depth y b x) as (tl & h4 & E4 & Hb4 & Htl & Hs4);
    [still_ready|done|done|lia|lia|]. simpl in Htl, Hs4.
  exists (OCons b), h4.
  assert (∀ k e, h1 !! k = Some e → k ≠ c → h4 !! k = Some e) as Hkeep.
  { intros k e Hk Hkc. eapply lookup_weaken; [|exact Hs4]. apply lookup_delete_Some. split; [congruence|].
    unfold h3, h2. rewrite !lookup_insert_ne by congruence. done. }
  split_and!; [by rewrite E4| | |].
  - eapply lookup_weaken; [|exact Hs4]. apply lookup_delete_Some. split; [done|]. unfold h3. by rewrite lookup_insert_eq.
  - exists b, x, tl. split_and!; [done| | |].
    + apply lookup_difference_Some. split; [done|]. by eapply lookup_weaken_None.
    + eapply shows_mono; [|exact Hx]. apply map_subseteq_spec. intros k e [Hk Hn']%lookup_difference_Some.
      apply lookup_difference_Some. split; [|done]. apply Hkeep; [done|congruence].
    + eapply shows_mono; [|exact Htl]. apply map_subseteq_spec. intros k e [Hk Hn']%lookup_difference_Some.
      apply lookup_difference_Some. split; [done|]. unfold h3, h2 in Hn'.
      apply lookup_insert_None in Hn' as [Hn' _]. apply lookup_insert_None in Hn' as [Hn' _]. by eapply lookup_weaken_None.
  - apply map_subseteq_spec. intros k e [Hkc Hk]%lookup_delete_Some. apply Hkeep; [by eapply lookup_weaken|done].
Qed.

Lemma reads_list st a d out out' : reads st a out → a ≠ TSym SI_DOT → reads_rest st d out' →
  reads st (TCons a d) (40 :: (out ++ out') ++ [41]).
Proof.
  intros Ha Hne [Hout Hd]. apply reads_macro.
  { split_and!; [done|done|]. unfold syntax. by rewrite std_left. }
  { left. unfold syntax. by rewrite std_left. }
  intros s rest depth Hr E _ Hn. rewrite (std_left t Hstd). cbn [dispatch call_entry call_macro]. cbv zeta.
  unfold left_parenthesis_reader, do_read_delimited_list. cbn [tree_size] in Hn.
  pose proof (tree_size_pos a). pose proof (tree_size_pos d).
  destruct depth as [|n]; [lia|]. set (depth := S n) in *. cbn [delimited_loop].
  assert (ends (out' ++ 41 :: rest)) as He by (destruct Hout as [-> | [l ->]]; [apply ends_right|apply ends_blank]).
  destruct (read_element st s depth a out (out' ++ 41 :: rest) [] Ha Hr) as (x & h1 & E1 & Hx & Hs1);
    [rewrite E; simpl; by rewrite <- !app_assoc|done|done|lia|].
  set (s1 := set_heap h1 (set_in (out' ++ 41 :: rest) s)) in E1. set (b := first_free h1). set (h2 := <[b := CCons x ONil]> h1).
  assert (heapM (mkcl_list1 x) s1 = RDone (OCons b) (set_heap h2 s1)) as E2 by (apply heapM_Done; apply cons_eq).
  pose proof (first_free_fresh h1 : h1 !! b = None) as Hb.
  assert (h2 !! b = Some (CCons x ONil)) as Hb2 by (unfold h2; by rewrite lookup_insert_eq).
  destruct (Hd (set_heap h2 s1) rest n depth (OCons b) b x) as (tl & h4 & E4 & Hb4 & Htl & Hs4);
    [still_ready|done|done|unfold depth in *; lia|lia|]. simpl in Htl, Hs4.
  assert (delimited_loop (read_in depth) depth 41 false ONil None 0 s = RDone (OCons b) (set_heap h4 (set_in rest (set_heap h2 s1)))) as El.
  { unfold depth at 2. cbn [delimited_loop]. rewrite (rbind_Done _ _ _ _ _ E1), (not_dot _ _ _ Hne Hx), Hsup. cbn [Z.eqb negb].
    by rewrite (rbind_Done _ _ _ _ _ E2), E4. }
  assert (∀ k e, h1 !! k = Some e → h4 !! k = Some e) as Hkeep.
  { intros k e Hk. eapply lookup_weaken; [|exact Hs4]. apply lookup_delete_Some. split; [congruence|].
    unfold h2. by rewrite lookup_insert_ne by congruence. }
  exists (OCons b), (set_heap h4 (set_in rest s)). split_and!; [by rewrite (rbind_Done _ _ _ _ _ El)| |].
  - exists b, x, tl. split_and!; [done| | |].
    + apply lookup_difference_Some. split; [done|]. by eapply lookup_weaken_None.
    + eapply shows_mono; [|exact Hx]. apply map_subseteq_spec. intros k e [Hk Hn']%lookup_difference_Some.
      apply lookup_difference_Some. split; [by apply Hkeep|done].
    + eapply shows_mono; [|exact Htl]. apply difference_anti. etrans; [exact Hs1|]. apply insert_first_free_subseteq.
  - exists h4. split; [done|]. apply map_subseteq_spec. intros k e Hk. apply Hkeep. by eapply lookup_weaken.
Qed.

(** ** What is printed *)

Section printing.
Context (Hesc : print_escape = true) (Hpretty : print_pretty = false) (Hcircle : print_circle = false).
Context (Hlength : print_length = ONil) (Harray : print_array = true) (pc : print_case_key) (Hpc : print_case = Some pc).
Context (Hpb : print_base = OFix 10) (Hpr : print_radix = ONil).
Context (st : pstate) (cur : pid) (Hinv : pinv st) (Hcur : st_current st = Some cur) (Hck : is_Some (st_packages st !! cur)).

(** Symbols with a meaning of their own, as an element or at the head of a list. *)
Definition reserved : list sym := [SI_DOT; SI_HASH_BANG; SI_quasiquote; SI_unquote; SI_unquote_splice; SI_unquote_nsplice].

(** The leaves that are read back. *)
Fixpoint readable (x : datum) : Prop :=
  match x with
  | TSym s => (s ∉ reserved) ∧ ∃ n hp, printable st s n hp
  | TNum q => ∀ y, is_rat y q → parts_in_range 10 y
  | TChar c => 32 < c < 127
  | TText l => Forall is_char l ∧ is_fixnum (Z.of_nat (length l))
  | TBits _ => True
  | TCons a d => readable a ∧ readable d
  end.

(** *PRINT-LEVEL* is NIL or more than [n]. *)
Definition level_above (n : nat) (level : obj) : Prop :=
  ∃ l, (level = ONil ∧ l = MKCL_MOST_POSITIVE_FIXNUM ∨ level = OFix l) ∧ Z.of_nat n < l <= MKCL_MOST_POSITIVE_FIXNUM.

(** What is printed is read as this tree. *)
Definition printed (m : RM (list Z)) (x : datum) (s : rstate) : Prop :=
  ∃ out s', m s = RDone out s' ∧ grows s s' ∧ reads st x out.

Lemma write_symbol_printed s x n hp : ready st s → printable st x n hp → printed (write_symbol x) (TSym x) s.
Proof.
  intros Hr Hx. pose proof (rd_packs _ _ Hr) as Est.
  destruct (write_symbol_spec rt t Hstd Hcase Hpb x n hp pc cur s) as (out & s' & E & Hg & Htext); rewrite ?Est; try done.
  { apply (rd_current _ _ Hr). }
  { apply (rd_table _ _ Hr). }
  exists out, s'. split_and!; [done|done|]. rewrite Est in Htext. by eapply reads_symbol.
Qed.

Lemma write_number_printed s x q : is_rat x q → parts_in_range 10 x → printed (heapM (write_rational fuel x)) (TNum q) s.
Proof.
  intros Hx Hin. destruct (Nat.lt_exists_pred 0 fuel Hfuel) as (n & En & _).
  pose proof (write_rational_spec fuel n 10 ltac:(lia) x q (rs_heap s) Hpb Hpr Hx Hin) as Hw. rewrite <- En in Hw.
  destruct (heapM_gives _ _ s Hw) as (l & s' & E & [[Hne Hl] Hq] & Hg).
  exists l, s'. split_and!; [done|done|]. by apply reads_number.
Qed.

(** The leaves. *)
Definition is_leaf (x : datum) : Prop := match x with TCons _ _ => False | _ => True end.

Lemma leaf_printed s x y level depth write : is_leaf x → readable x → ready st s → shows (rs_heap s) x y →
  printed (write_ugly_object fuel depth write level y) x s.
Proof.
  intros Hleaf Hx Hr Hy. destruct x as [x|q|c|l|b|]; [..|done]; simpl in Hx, Hy.
  - subst y. destruct Hx as (_ & n & hp & Hx). unfold symbol_obj.
    destruct (Z.eqb_spec x sym_nil) as [->|]; by eapply write_symbol_printed.
  - specialize (Hx y Hy). destruct (write_number_printed s y q Hy Hx) as (out & s' & E & Hg & Ho). exists out, s'.
    split_and!; [|done|done]. rewrite <- E. destruct (is_rat_cases _ _ Hy) as [(z & Hz & _)|(? & ? & ? & ? & ? & -> & _)]; [|done].
    by destruct (is_int_cases _ _ Hz) as [(m & ->)|(? & ? & ->)].
  - subst y. exists [35; 92; c], s. split_and!; [|apply grows_refl|by apply reads_char].
    simpl. unfold write_character. rewrite Hesc. cbn [negb andb].
    by rewrite (proj2 (Z.ltb_lt 32 c)), (proj2 (Z.ltb_lt c 127)) by lia.
  - destruct Hx as [Hl Hf], Hy as (a & Hy & Ha). exists (quoted l), s. split_and!; [|apply grows_refl|by apply reads_text].
    assert (string_chars y s = RDone l s) as E.
    { apply heapM_read. destruct Hy as [-> | ->]; simpl; by rewrite Ha. }
    assert (write_string y s = RDone (quoted l) s) as Ew by (unfold write_string; rewrite (rbind_Done _ _ _ _ _ E), Hesc; done).
    destruct Hy as [-> | ->]; exact Ew.
  - destruct Hy as (a & o & n & bits & -> & Ha & Hb). eexists _, s. split_and!; [|apply grows_refl|apply reads_bits].
    simpl. unfold write_bitvector. rewrite Harray. cbn [negb andb]. rewrite (rbind_Done rget _ s s s eq_refl), Ha, Hb. done.
Qed.

Lemma leaf_no_cons x h y : is_leaf x → shows h x y → MKCL_CONSP y = false.
Proof.
  destruct x as [x|q|c|l|b|]; simpl; try done.
  - intros _ ->. unfold symbol_obj. by case_match.
  - intros _ Hy. by destruct y; try (destruct Hy as (? & [? _] & _)).
  - by intros _ ->.
  - by intros _ (a & [-> | ->] & _).
  - by intros _ (a & o & n & bits & -> & _).
Qed.

Lemma shows_nil h x : shows h x ONil → x = TSym sym_nil.
Proof.
  destruct x; simpl; try done.
  - unfold symbol_obj. case_match eqn:E; [|done]. by apply Z.eqb_eq in E as ->.
  - by intros (z & [? _] & _).
  - by intros (a & [?|?] & _).
  - by intros (? & ? & ? & ? & ? & _).
  - by intros (? & ? & ? & ? & _).
Qed.

Lemma readable_not_dot x : readable x → x ≠ TSym SI_DOT.
Proof. intros Hx ->. destruct Hx as [Hx _]. apply Hx. by left. Qed.

(** The elements of a list, when [write] writes the trees smaller than [n]. *)
Section elements.
Context (n : nat) (write : obj → RM (list Z)).
Context (Hwrite : ∀ x y s, (tree_size x < n)%nat → readable x → ready st s → shows (rs_heap s) x y → printed (write y) x s).

Lemma last_printed d a y s k i : is_leaf d → (tree_size (TCons a d) ≤ n)%nat → readable (TCons a d) → ready st s →
  shows (rs_heap s) (TCons a d) y → (tree_size (TCons a d) ≤ k)%nat → i + Z.of_nat (tree_size (TCons a d)) < MKCL_MOST_POSITIVE_FIXNUM →
  ∃ outa outd s', write_elements k write MKCL_MOST_POSITIVE_FIXNUM i y s = RDone (outa ++ outd) s' ∧ grows s s' ∧
    reads st a outa ∧ reads_rest st d outd.
Proof.
  intros Hleaf Hn [Ha Hd] Hr Hy Hk Hi. cbn [tree_size] in *. destruct k as [|k]; [lia|]. cbn [write_elements].
  rewrite (proj2 (Z.leb_gt _ _)) by lia. destruct Hy as (p & v & w & -> & Hp & Hv & Hw). cbn [MKCL_CAR MKCL_CDR mkcl_Null].
  rewrite (rbind_Done _ _ _ _ _ (heapM_read _ s _ (CAR_eq _ _ _ _ Hp))), (rbind_Done _ _ _ _ _ (heapM_read _ s _ (CDR_eq _ _ _ _ Hp))).
  destruct (Hwrite a v s) as (outa & s1 & E1 & Hg1 & Hra); [lia|done..|]. rewrite (rbind_Done _ _ _ _ _ E1).
  unfold MKCL_ATOM. rewrite (leaf_no_cons d (rs_heap s) w Hleaf Hw). cbn [negb]. rewrite rbind_ret. cbv iota.
  destruct (obj_eq w ONil) eqn:En.
  - apply obj_eq_true in En as ->. rewrite (shows_nil _ _ Hw). exists outa, [], s1.
    split_and!; [by rewrite app_nil_r|done|done|apply reads_rest_nil].
  - destruct (Hwrite d w s1) as (outd & s2 & E2 & Hg2 & Hrd); [lia|done|by eapply ready_grows| |].
    { destruct Hg1 as (h1 & -> & Hs1). by eapply shows_mono. }
    rewrite (rbind_Done _ _ _ _ _ E2). exists outa, ([32; 46; 32] ++ outd), s2.
    split_and!; [done|by eapply grows_trans|done|]. apply reads_rest_dot; [done|by apply readable_not_dot].
Qed.

Lemma elements_printed d : ∀ a y s k i, (tree_size (TCons a d) ≤ n)%nat → readable (TCons a d) → ready st s →
  shows (rs_heap s) (TCons a d) y → (tree_size (TCons a d) ≤ k)%nat → i + Z.of_nat (tree_size (TCons a d)) < MKCL_MOST_POSITIVE_FIXNUM →
  ∃ outa outd s', write_elements k write MKCL_MOST_POSITIVE_FIXNUM i y s = RDone (outa ++ outd) s' ∧ grows s s' ∧
    reads st a outa ∧ reads_rest st d outd.
Proof.
  induction d as [x|q|c|l|b|d1 _ d2 IH]; intros a y s k i Hn [Ha Hd] Hr Hy Hk Hi.
  6: {
    destruct k as [|k]; [simpl in Hk; lia|]. cbn [write_elements]. rewrite (proj2 (Z.leb_gt _ _)) by lia.
    pose proof Hy as (p & v & w & -> & Hp & Hv & Hw). cbn [MKCL_CAR MKCL_CDR mkcl_Null].
    rewrite (rbind_Done _ _ _ _ _ (heapM_read _ s _ (CAR_eq _ _ _ _ Hp))), (rbind_Done _ _ _ _ _ (heapM_read _ s _ (CDR_eq _ _ _ _ Hp))).
    destruct (Hwrite a v s) as (outa & s1 & E1 & Hg1 & Hra); [simpl in *; lia|done..|]. rewrite (rbind_Done _ _ _ _ _ E1).
    assert (MKCL_ATOM w = false) as -> by (by destruct Hw as (? & ? & ? & -> & _)). rewrite Hcircle, rbind_ret. cbv iota.
    destruct (IH d1 w s1 k (i + 1)) as (outd1 & outd2 & s2 & E2 & Hg2 & Hrd1 & Hrd2);
      [simpl in *; lia|done|by eapply ready_grows| |simpl in *; lia|simpl in *; lia|].
    { destruct Hg1 as (h1 & -> & Hs1). by eapply shows_mono. }
    rewrite (rbind_Done _ _ _ _ _ E2). exists outa, (32 :: outd1 ++ outd2), s2.
    split_and!; [done|by eapply grows_trans|done|]. apply reads_rest_cons; [done|apply readable_not_dot, Hd|done]. }
  all: by eapply last_printed.
Qed.
End elements.

(** A symbol as an object. *)
Lemma shows_head h a v q : shows h a v → obj_eq v (OSym q) = true → a = TSym q ∧ q ≠ sym_nil.
Proof.
  intros Hv ->%obj_eq_true. pose proof (shows_symbol _ _ _ Hv) as ->. split; [done|]. intros ->.
  simpl in Hv. unfold symbol_obj in Hv. by rewrite Z.eqb_refl in Hv.
Qed.

Lemma no_head h a v q : readable a → q ∈ reserved → shows h a v → obj_eq v (OSym q) = false.
Proof.
  intros Ha Hq Hv. destruct (obj_eq v (OSym q)) eqn:E; [|done]. destruct (shows_head h a v q Hv E) as [-> _].
  by destruct Ha as [Ha _].
Qed.

Lemma second_of_two_spec s a d y : shows (rs_heap s) (TCons a d) y →
  ∃ r, second_of_two y s = RDone r s ∧ ∀ w, r = Some w → ∃ b, d = TCons b (TSym sym_nil) ∧ shows (rs_heap s) b w.
Proof.
  intros (p & v & w & -> & Hp & _ & Hw). unfold second_of_two. cbn [MKCL_CDR mkcl_Null].
  rewrite (rbind_Done _ _ _ _ _ (heapM_read _ s _ (CDR_eq _ _ _ _ Hp))). destruct (MKCL_CONSP w) eqn:Ec; [|by exists None].
  destruct d as [| | | | |b d]; try (eapply leaf_no_cons in Hw; [congruence|done]).
  destruct Hw as (q & v2 & w2 & -> & Hq & Hv2 & Hw2). cbn [MKCL_CDR mkcl_Null].
  rewrite (rbind_Done _ _ _ _ _ (heapM_read _ s _ (CDR_eq _ _ _ _ Hq))). destruct (mkcl_Null w2) eqn:En; [|by exists None].
  destruct w2; try done. cbn [MKCL_CAR mkcl_Null]. rewrite (rbind_Done _ _ _ _ _ (heapM_read _ s _ (CAR_eq _ _ _ _ Hq))).
  exists (Some v2). split; [done|]. intros w [= <-]. exists b. by rewrite (shows_nil _ _ Hw2).
Qed.

Lemma limits_eq level n s : level_above n level →
  ∃ l, (if print_readably then mret (MKCL_MOST_POSITIVE_FIXNUM, MKCL_MOST_POSITIVE_FIXNUM)
        else l ← mkcl_print_level level; n ← mkcl_print_length; mret (l, n)) s =
       RDone (l, MKCL_MOST_POSITIVE_FIXNUM) s ∧ Z.of_nat n < l <= MKCL_MOST_POSITIVE_FIXNUM.
Proof.
  intros (l & Hlevel & Hl). destruct print_readably.
  - exists MKCL_MOST_POSITIVE_FIXNUM. split; [done|]. lia.
  - exists l. split; [|done]. unfold mkcl_print_level, mkcl_print_length. rewrite Hlength.
    destruct Hlevel as [[-> ->]| ->]; simpl; [done|]. by rewrite (proj2 (Z.ltb_ge l 0)) by lia.
Qed.

Lemma level_next n m l : (m < n)%nat → Z.of_nat n < l <= MKCL_MOST_POSITIVE_FIXNUM → level_above m (MKCL_MAKE_FIXNUM (l - 1)).
Proof.
  intros Hm Hl. exists (l - 1). unfold MKCL_MAKE_FIXNUM. rewrite fixnum_wrap_small; [split; [by right|lia]|].
  unfold is_fixnum, MKCL_MOST_NEGATIVE_FIXNUM, MKCL_MOST_POSITIVE_FIXNUM in *. lia.
Qed.
Lemma level_less n m level : (m < n)%nat → level_above n level → level_above m level.
Proof. intros Hm (l & Hlevel & Hl). exists l. split; [done|lia]. Qed.

(** A cons, when [write] writes the trees smaller than it. *)
Lemma cons_printed depth write a d y s level :
  (∀ x y s level, (tree_size x < tree_size (TCons a d))%nat → level_above (tree_size x) level → readable x → ready st s →
     shows (rs_heap s) x y → printed (write level y) x s) →
  readable (TCons a d) → ready st s → shows (rs_heap s) (TCons a d) y → (tree_size (TCons a d) ≤ depth)%nat →
  level_above (tree_size (TCons a d)) level →
  printed (write_cons depth write level y) (TCons a d) s.
Proof.
  intros Hwrite Hx Hr Hy Hdepth Hlevel. pose proof Hx as [Ha Hd]. pose proof Hy as (p & v & w & -> & Hp & Hv & Hw).
  unfold printed, write_cons. cbn [MKCL_CAR mkcl_Null]. rewrite (rbind_Done _ _ _ _ _ (heapM_read _ s _ (CAR_eq _ _ _ _ Hp))).
  assert (∀ q, q ∈ reserved → obj_eq v (OSym q) = false) as Hno by (intros q Hq; by apply (no_head (rs_heap s) a)).
  rewrite (Hno SI_HASH_BANG) by (unfold reserved; set_solver).
  destruct (second_of_two_spec s a d (OCons p) Hy) as (r & Er & Hsecond). rewrite (rbind_Done _ _ _ _ _ Er).
  assert (printed ('(l, n) ← (if print_readably then mret (MKCL_MOST_POSITIVE_FIXNUM, MKCL_MOST_POSITIVE_FIXNUM)
                  else l ← mkcl_print_level level; n ← mkcl_print_length; mret (l, n));
     if l =? 0 then mret [35]
     else out ← write_elements depth (write (MKCL_MAKE_FIXNUM (l - 1))) n 0 (OCons p); mret ([40] ++ out ++ [41])) (TCons a d) s) as Hlist.
  { destruct (limits_eq level (tree_size (TCons a d)) s Hlevel) as (l & El & Hl). unfold printed. rewrite (rbind_Done _ _ _ _ _ El).
    rewrite (proj2 (Z.eqb_neq l 0)) by lia.
    destruct (elements_printed (tree_size (TCons a d)) (write (MKCL_MAKE_FIXNUM (l - 1)))) with (d := d) (a := a) (y := OCons p)
      (s := s) (k := depth) (i := 0) as (outa & outd & s' & E & Hg & Hra & Hrd); [|done..|lia|].
    { intros x y s1 Hn Hx1 Hr1 Hy1. apply Hwrite; [done| |done..]. by eapply level_next. }
    rewrite (rbind_Done _ _ _ _ _ E). exists ([40] ++ (outa ++ outd) ++ [41]), s'. split_and!; [done|done|].
    apply (reads_list st a d outa outd); [done|by apply readable_not_dot|done]. }
  destruct r as [y|]; [|exact Hlist]. destruct (Hsecond y eq_refl) as (b & -> & Hb). destruct Hd as [Hrb _].
  unfold abbreviation. destruct (obj_eq v MK_CL_quote) eqn:Eq.
  { destruct (shows_head _ _ _ _ Hv Eq) as [-> Hq].
    destruct (Hwrite b y s level) as (out & s' & E & Hg & Ho); [simpl; lia|eapply level_less; [|done]; simpl; lia|done..|].
    rewrite (rbind_Done _ _ _ _ _ E). exists ([39] ++ out), s'. split_and!; [done|done|by apply reads_quote]. }
  destruct (obj_eq v MK_CL_function) eqn:Ef.
  { destruct (shows_head _ _ _ _ Hv Ef) as [-> Hq].
    destruct (Hwrite b y s level) as (out & s' & E & Hg & Ho); [simpl; lia|eapply level_less; [|done]; simpl; lia|done..|].
    rewrite (rbind_Done _ _ _ _ _ E). exists ([35; 39] ++ out), s'. split_and!; [done|done|by apply reads_function]. }
  rewrite !Hno by (unfold reserved; set_solver). exact Hlist.
Qed.

Lemma object_printed n : ∀ x y s depth level, (tree_size x ≤ n)%nat → (tree_size x < depth)%nat → level_above (tree_size x) level →
  readable x → ready st s → shows (rs_heap s) x y → printed (mk_si_write_object fuel depth level y) x s.
Proof.
  induction n as [|n IH]; intros x y s depth level Hn Hdepth Hlevel Hx Hr Hy; [pose proof (tree_size_pos x); lia|].
  destruct depth as [|depth]; [lia|]. cbn [mk_si_write_object]. unfold printed.
  rewrite Hpretty, Hcircle, !rbind_ret. cbv beta iota.
  destruct x as [| | | | |a d]; try (by apply leaf_printed). pose proof Hy as (p & _ & _ & -> & _). cbn [write_ugly_object].
  apply cons_printed; [|done|done|done|lia|done].
  intros x y s1 level1 Hs Hlevel1 Hx1 Hr1 Hy1. apply IH; [lia|lia|done..].
Qed.

(** ** Signs with a point *)

Lemma sign_point_char c : c = 43 ∨ c = 45 ∨ c = 46 →
  is_char c ∧ mkcl_upper_case_p c = false ∧ mkcl_lower_case_p c = false ∧ mkcl_invalid_constituent_character_p c = false ∧
  mkcl_alphanumericp c = Some false ∧ mkcl_alpha_char_p c = Some false ∧ c ≠ 58 ∧ cased_char rc c = c.
Proof. intros [-> | [-> | ->]]; (split_and!; [done|by vm_compute..|done|unfold cased_char; destruct rc; by vm_compute]). Qed.

Section sign_point.
Context (sg : Z) (Hsg : is_sign sg = true) (Hplus : syntax t 43 = mkcl_cat_constituent).

Lemma sign_or_point c : c ∈ [sg; 46] → c = 43 ∨ c = 45 ∨ c = 46.
Proof.
  unfold is_sign in Hsg. apply orb_true_iff in Hsg. rewrite !Z.eqb_eq in Hsg.
  intros [->|[->|?%elem_of_nil]%elem_of_cons]%elem_of_cons; [destruct Hsg as [-> | ->]; auto|auto|done].
Qed.

Lemma sign_point_syntax c : c ∈ [sg; 46] → syntax t c = mkcl_cat_constituent.
Proof. intros [->|[-> | ->]]%sign_or_point; [done|apply (std_constituent t Hstd); lia..]. Qed.

Lemma sign_is_sign : sg = 43 ∨ sg = 45.
Proof. unfold is_sign in Hsg. apply orb_true_iff in Hsg. by rewrite !Z.eqb_eq in Hsg. Qed.
Lemma sign_chars : sg ∈ [sg; 46] ∧ 46 ∈ [sg; 46].
Proof. split; [by left|by right; left]. Qed.

(** The token is the number zero. *)
Lemma reads_sign_point : reads st (TNum (Qc_of_Z 0)) [sg; 46].
Proof.
  apply reads_numeric.
  - apply Forall_forall. intros c Hc. pose proof (sign_point_syntax c Hc).
    destruct (sign_point_char c (sign_or_point c Hc)) as (? & _ & _ & ? & _ & _ & ? & _). by split_and!.
  - rewrite <- (list_fmap_id [sg; 46]) at 2. apply Forall_fmap_ext_1, Forall_forall. intros c Hc.
    by destruct (sign_point_char c (sign_or_point c Hc)) as (_ & _ & _ & _ & _ & _ & _ & ->).
  - by destruct (sign_point_char sg (sign_or_point sg ltac:(by left))) as (_ & _ & _ & _ & _ & -> & _).
  - destruct sign_is_sign; lia.
  - intros str h Ht. eapply gives_mono; [by apply (parse_sign_point fuel str sg h sign_is_sign)|].
    intros p (Hp & y & Hy & Hz). split; [done|]. exists y. split; [done|]. by apply is_rat_int.
Qed.

(** It needs no escape. *)
Lemma write_sign_point s : ready st s →
  ∃ s1, grows s s1 ∧ needs_to_be_escaped [sg; 46] rt s = RDone false s1 ∧
    write_symbol_string [sg; 46] rc pc (false || all_dots [sg; 46]) s1 = RDone [sg; 46] s1.
Proof.
  intros Hr. assert (∀ c, c ∈ [sg; 46] → classed c) as Hcl.
  { intros c Hc. destruct (sign_or_point c Hc) as [-> | [-> | ->]]; (split; [done|by vm_compute]). }
  unfold needs_to_be_escaped. rewrite (rbind_Done _ _ _ _ _ (find_readtable_eq s rt t (rd_table _ _ Hr))).
  assert (heapM mkcl_print_base s = RDone 10 s) as Eb by (apply heapM_read; unfold mkcl_print_base; by rewrite Hpb).
  rewrite (rbind_Done _ _ _ _ _ Eb). destruct (buffer_string_spec [sg; 46] s) as (str & s1 & E1 & Htext & Hg).
  exists s1. split; [done|]. rewrite (rbind_Done _ _ _ _ _ E1).
  pose proof sign_is_sign as Hs. destruct sign_chars as [Hsc Hpc'].
  assert (heapM (potential_number_p str 10) s1 = RDone false s1) as Ep.
  { apply heapM_read. rewrite (potential_number_eq 10 str [sg; 46]); [|done|by apply Forall_forall].
    f_equal. by destruct Hs as [-> | ->]; vm_compute. }
  rewrite (rbind_Done _ _ _ _ _ Ep).
  assert (rs_readtables s1 !! rt = Some t) as Ht by (rewrite (grows_readtables _ _ Hg); apply (rd_table _ _ Hr)).
  assert (∀ c l, c ∈ [sg; 46] → strange_chars rt rc (c :: l) s1 = strange_chars rt rc l s1) as Hstrange.
  { intros c l Hc. destruct (sign_point_char c (sign_or_point c Hc)) as (_ & Hu & Hl & Hi & _ & _ & H58 & _). cbn [strange_chars].
    rewrite (rbind_Done _ _ _ _ _ (readtable_get_eq s1 rt t c Ht)). cbn [fst]. rewrite (sign_point_syntax c Hc), Hi, Hu, Hl.
    rewrite bool_decide_eq_true_2, (proj2 (Z.eqb_neq c 58)), andb_false_r by done. done. }
  split; [by rewrite !Hstrange|].
  assert (∀ c l cap, c ∈ [sg; 46] → ∃ cap', symbol_chars (c :: l) rc pc false cap s1 =
    (rest ← symbol_chars l rc pc false cap'; mret ([c] ++ rest)) s1) as Hchars.
  { intros c l cap Hc. destruct (sign_point_char c (sign_or_point c Hc)) as (_ & Hu & Hl & _ & Ha & _). cbn [symbol_chars].
    rewrite Hu, Hl, Ha. case_bool_decide; [by exists cap; rewrite rbind_ret|]. exists true.
    assert ((a ← heapM (checked (Some false)); mret ([c], negb a)) s1 = RDone ([c], true) s1) as E.
    { simpl checked. by rewrite (rbind_Done _ _ _ _ _ (heapM_read (mret false) s1 false eq_refl)). }
    by rewrite (rbind_Done _ _ _ _ _ E). }
  assert (all_dots [sg; 46] = false) as -> by (by destruct Hs as [-> | ->]).
  unfold write_symbol_string. rewrite bool_decide_eq_false_2, rbind_ret by done. cbn [orb].
  destruct (Hchars sg [46] true Hsc) as (cap1 & E2), (Hchars 46 [] cap1 Hpc') as (cap2 & E3).
  assert (symbol_chars [46] rc pc false cap1 s1 = RDone [46] s1) as E4 by (by rewrite E3).
  assert (symbol_chars [sg; 46] rc pc false true s1 = RDone [sg; 46] s1) as E5 by (by rewrite E2, (rbind_Done _ _ _ _ _ E4)).
  by rewrite (rbind_Done _ _ _ _ _ E5).
Qed.
End sign_point.

(** C36: a symbol whose name is a sign and a point and that its name finds in the current
    package is written without escapes, and that text is read back as the number zero,
    not as the symbol. *)
Theorem symbols_misread x sy hp f sg s depth level :
  is_sign sg = true → syntax t 43 = mkcl_cat_constituent → ready st s →
  st_symbols st !! x = Some sy → psym_name sy = [sg; 46] → psym_hpack sy = Some hp → hp ≠ keyword_package →
  print_package = None ∨ print_package = Some hp →
  mkcl_find_symbol_nolock [sg; 46] cur st = PDone (x, f) st → f ≠ SYMBOL_IS_NEW →
  ∃ s1, mk_si_write_object fuel (S depth) level (symbol_obj x) s = RDone [sg; 46] s1 ∧ grows s s1 ∧
    ∀ s2 rest depth2, ready st s2 → rs_in s2 = [sg; 46] ++ rest → ends rest → (2 < depth2)%nat →
      ∃ s3, read_object fuel empty_base_string depth2 s2 = RDone (Some (OFix 0)) s3 ∧ read_to rest s2 s3.
Proof.
  intros Hsg Hplus Hr Hsy Hn Hhp Hk Hpp Hf Hnew.
  destruct (write_sign_point sg Hsg Hplus s Hr) as (s1 & Hg & E1 & E2). exists s1. split; [|split; [done|]].
  - assert (mk_si_write_object fuel (S depth) level (symbol_obj x) s = write_symbol x s) as ->.
    { cbn [mk_si_write_object]. rewrite Hpretty, Hcircle, !rbind_ret. cbv beta iota. unfold symbol_obj.
      by destruct (Z.eqb_spec x sym_nil) as [->|]. }
    pose proof (rd_packs _ _ Hr) as Est. unfold write_symbol. rewrite (rbind_Done _ _ _ _ _ (current_eq st s Hr)).
    assert (mkcl_print_case s = RDone pc s) as Ec by (unfold mkcl_print_case; by rewrite Hpc).
    assert (packM (read_sym x) s = RDone sy s) as Er by (apply packM_read; unfold read_sym; by rewrite Est, Hsy).
    rewrite (rbind_Done _ _ _ _ _ Ec), (rbind_Done _ _ _ _ _ Er), (rbind_Done _ _ _ _ _ (find_readtable_eq s rt t (rd_table _ _ Hr))).
    rewrite Hesc, andb_false_r, Hhp, Hn, (proj2 (Z.eqb_neq _ _) Hk).
    assert (needs_package x hp s = RDone false s) as En.
    { unfold needs_package. rewrite bool_decide_eq_false_2 by (intros [? ?]; by destruct Hpp).
      assert (packM mkcl_current_package s = RDone cur s) as Ecur.
      { apply packM_read. unfold mkcl_current_package, get_state, mbind, PM_bind. by rewrite Est, Hcur. }
      rewrite (rbind_Done _ _ _ _ _ Ecur).
      assert (packM (mkcl_find_symbol (DSymbol x) (DPackage cur)) s = RDone (x, f) s) as Ep.
      { apply packM_read. rewrite Est, (find_symbol_of x sy cur st Hsy), Hn. done. }
      rewrite (rbind_Done _ _ _ _ _ Ep). cbn [fst snd]. by rewrite Z.eqb_refl, bool_decide_eq_false_2. }
    assert ((b ← needs_package x hp;
      if (b : bool) then write_package x [sg; 46] hp rt rc pc else mret []) s = RDone [] s) as Eb by (by rewrite (rbind_Done _ _ _ _ _ En)).
    by rewrite (rbind_Done _ _ _ _ _ Eb), (rbind_Done _ _ _ _ _ E1), (rbind_Done _ _ _ _ _ E2).
  - intros s2 rest depth2 Hr2 E He Hd.
    destruct (proj2 (reads_sign_point sg Hsg Hplus) s2 rest [] EOF 0 depth2 Hr2 E (Forall_nil_2 _) He (or_introl eq_refl) Hd)
      as (y & s3 & E3 & Hy & Hg3).
    exists s3. split; [|done]. apply is_rat_int_inv, is_int_fix_inv in Hy as ->; [|unfold_words; lia].
    unfold read_object, mkcl_read_object_with_delimiter. by rewrite (read_again st s2).
Qed.


(** C1: with the standard syntax in the read table and escapes, base ten and no limits in
    the printer, what is printed of a finite tree of conses, symbols, rational numbers,
    characters, strings and bit vectors that is [readable] is read back, before any
    delimiter, as an EQUAL object in which every cons, string and bit vector is new.
    Readable are characters from 33 to 126, numbers that are not misprinted
    ([bignum_misprinted]), and symbols that their package has, whose names are not misread
    ([misread_tokens]) and that the reader does not make itself.  Symbols are the same
    ones, and the reader interns none: it changes nothing but the stream and what it adds
    to the heap. *)
Theorem printed_read_back x y s depth level :
  ready st s → readable x → shows (rs_heap s) x y → (tree_size x < depth)%nat → level_above (tree_size x) level →
  ∃ out s1, mk_si_write_object fuel depth level y s = RDone out s1 ∧ grows s s1 ∧
    ∀ s2 rest depth2 n, ready st s2 → rs_heap s ⊆ rs_heap s2 → rs_in s2 = out ++ rest → ends rest →
      (tree_size x < depth2)%nat → (tree_size x < n)%nat →
      ∃ z s3, read_object fuel empty_base_string depth2 s2 = RDone (Some z) s3 ∧ read_to rest s2 s3 ∧
        shows (rs_heap s3 ∖ rs_heap s2) x z ∧ mkcl_equal n y z (rs_heap s3) = Done true (rs_heap s3).
Proof.
  intros Hr Hx Hy Hdepth Hlevel.
  destruct (object_printed (tree_size x) x y s depth level) as (out & s1 & E & Hg & _ & Hreads); [done..|].
  exists out, s1. split_and!; [done|done|]. intros s2 rest depth2 n Hr2 Hs2 E2 He Hd2 Hn.
  destruct (Hreads s2 rest [] EOF 0 depth2 Hr2 E2 (Forall_nil_2 _) He (or_introl eq_refl) Hd2) as (z & s3 & E3 & Hz & Hg3).
  exists z, s3. split_and!; [by unfold read_object, mkcl_read_object_with_delimiter; rewrite (read_again st s2)|done|done|].
  eapply shows_equal; [| |done].
  - eapply shows_mono; [|exact Hy]. destruct Hg3 as (h3 & -> & Hs3). by etrans.
  - eapply shows_mono; [|exact Hz]. apply map_subseteq_spec. by intros k c [Hk _]%lookup_difference_Some.
Qed.

End printing.

(** ** Errors *)

Definition fails {A} (m : RM A) (e : rerror) (s : rstate) : Prop := ∃ s', m s = RFail e s'.

Lemma rbind_Fail {A B} (m : RM A) (k : A → RM B) e s s' : m s = RFail e s' → (m ≫= k) s = RFail e s'.
Proof. intros E. unfold mbind, RM_bind. by rewrite E. Qed.
Lemma rbind_fails {A B} (m : RM A) (k : A → RM B) e s : fails m e s → fails (m ≫= k) e s.
Proof. intros (s' & E). exists s'. by apply rbind_Fail. Qed.
Lemma fails_same {A} (m m' : RM A) e s s' : m s = m' s' → fails m' e s' → fails m e s.
Proof. intros E (s2 & E2). exists s2. by rewrite E. Qed.
Lemma rbind_then_fails {A B} (m : RM A) (k : A → RM B) e s a s' : m s = RDone a s' → fails (k a) e s' → fails (m ≫= k) e s.
Proof. intros E (s2 & E2). exists s2. by rewrite (rbind_Done _ _ _ _ _ E). Qed.

(** The function of a macro character fails. *)
Lemma macro_fails st s c l f e depth : ready st s → rs_in s = c :: l → starts c ∨ c = 41 → syntax t c = mkcl_cat_terminating →
  dispatch (entry_of t c) = MFun f →
  fails (call_macro fuel empty_base_string depth (read_in depth) f c) e (set_in l s) →
  fails (read_object fuel empty_base_string (S depth)) e s.
Proof.
  intros Hr E Hc Hs Hf (s' & Ef). exists s'. unfold read_object, mkcl_read_object_with_delimiter.
  rewrite (read_again st s (S depth) EOF 0 Hr). cbn [read_begin]. rewrite (rbind_Done _ _ _ _ _ (stream_fuel_eq s)).
  assert (skip_blanks (S (length (rs_in s))) rt EOF s = RDone (Some (c, (syntax t c, dispatch (entry_of t c)))) (set_in l s)) as Eb.
  { assert (is_char c) as Hch by (destruct Hc as [[? _]| ->]; done). cbn [skip_blanks].
    rewrite (rbind_Done _ _ _ _ _ (read_char_cons s c l E)), char_not_eof by done.
    rewrite (rbind_Done _ _ _ _ _ (get_eq st (set_in l s) c (ready_in _ _ _ Hr))). by rewrite Hs. }
  rewrite (rbind_Done _ _ _ _ _ Eb). cbv iota beta. rewrite Hs, Hf. cbn [bool_decide decide orb call_entry].
  by apply rbind_Fail.
Qed.

Lemma list_fails st s l e depth : ready st s → rs_in s = 40 :: l →
  fails (delimited_loop (read_in depth) depth 41 false ONil None 0) e (set_in l s) →
  fails (read_object fuel empty_base_string (S depth)) e s.
Proof.
  intros Hr E Hf. eapply (macro_fails st s 40 l F_left_parenthesis); [done|done| | | |].
  - left. split_and!; [done|done|]. unfold syntax. by rewrite std_left.
  - unfold syntax. by rewrite std_left.
  - by rewrite std_left.
  - by apply rbind_fails.
Qed.

(** The end of the stream in a list. *)
Lemma element_missing st s depth : ready st s → rs_in s = [] → (0 < depth)%nat → fails (read_in depth 41) FEend_of_file s.
Proof.
  intros Hr E Hd. exists s. cbv beta. rewrite (read_again st s depth 41 0 Hr). destruct depth as [|depth]; [lia|]. cbn [read_begin].
  rewrite (rbind_Done _ _ _ _ _ (stream_fuel_eq s)).
  assert (∀ k, skip_blanks (S k) rt 41 s = RFail FEend_of_file s) as Es.
  { intros k. cbn [skip_blanks]. by rewrite (rbind_Done _ _ _ _ _ (read_char_nil s E)). }
  by apply rbind_Fail.
Qed.

(** What the reader cannot read. *)
Lemma first_read st s depth x out rest : reads st x out → x ≠ TSym SI_DOT → ready st s → rs_in s = out ++ rest → ends rest →
  (tree_size x < S depth)%nat → ∃ y h a,
    delimited_loop (read_in (S depth)) (S depth) 41 false ONil None 0 s =
      delimited_loop (read_in (S depth)) depth 41 false (OCons a) (Some (OCons a)) 0 (set_heap h (set_in rest s)) ∧
    h !! a = Some (CCons y ONil).
Proof.
  intros Hx Hne Hr E He Hn. destruct (read_element st s (S depth) x out rest [] Hx Hr E) as (y & h1 & E1 & Hy & Hs1);
    [done|done|done|]. set (a := first_free h1). exists y, (<[a := CCons y ONil]> h1), a. split; [|by rewrite lookup_insert_eq].
  cbn [delimited_loop]. rewrite (rbind_Done _ _ _ _ _ E1), (not_dot _ _ _ Hne Hy), Hsup. cbn [Z.eqb negb].
  assert (heapM (mkcl_list1 y) (set_heap h1 (set_in rest s)) = RDone (OCons a) (set_heap (<[a := CCons y ONil]> h1) (set_in rest s))) as E2.
  { exact (heapM_Done _ (set_heap h1 (set_in rest s)) _ _ (cons_eq y ONil h1)). }
  by rewrite (rbind_Done _ _ _ _ _ E2).
Qed.

Lemma dot_read st s depth l : ready st s → rs_in s = 32 :: 46 :: 32 :: l → (2 < depth)%nat →
  ∃ h, read_in depth 41 s = RDone (Some (OSym SI_DOT)) (set_heap h (set_in (32 :: l) s)) ∧ rs_heap s ⊆ h.
Proof.
  intros Hr E Hd. destruct (read_element st s depth (TSym SI_DOT) [46] (32 :: l) [32] (reads_dot st Hdot) Hr E)
    as (y & h & E1 & Hy & Hs); [by repeat constructor|apply ends_blank|done|].
  exists h. split; [|done]. rewrite E1. simpl in Hy. unfold symbol_obj in Hy. rewrite (proj2 (Z.eqb_neq _ _) Hdot) in Hy. by subst.
Qed.

Lemma quoted_chars_end st l : Forall is_char l → ∀ n token s,
  ready st s → rs_in s = escaped_quotes l → (length l < n)%nat → fails (quoted_chars n rt 34 token) FEend_of_file s.
Proof.
  induction 1 as [|c l Hc _ IH]; intros [|n] token s Hr E Hn; try (simpl in Hn; lia); cbn [quoted_chars].
  - apply rbind_fails. exists s. unfold mkcl_read_char_noeof. by rewrite (rbind_Done _ _ _ _ _ (read_char_nil s E)).
  - simpl in Hn. unfold escaped_quotes in E. rewrite fmap_cons in E. simpl in E.
    destruct ((c =? 34) || (c =? 92)) eqn:Ec; simpl in E.
    + eapply rbind_then_fails; [by apply (read_noeof_cons s 92)|]. cbn [Z.eqb Pos.eqb].
      eapply rbind_then_fails; [by apply (get_eq st), ready_in|]. cbn [fst]. rewrite (proj2 (std_single t Hstd 92)) by done.
      eapply rbind_then_fails; [by apply read_noeof_cons|]. apply IH; [still_ready|done|lia].
    + apply orb_false_iff in Ec as [E34 E92%Z.eqb_neq]. eapply rbind_then_fails; [by apply (read_noeof_cons s c)|]. rewrite E34.
      eapply rbind_then_fails; [by apply (get_eq st), ready_in|]. cbn [fst].
      assert (syntax t c ≠ mkcl_cat_single_escape) as Hs by (by intros Hs%(std_single t Hstd)).
      destruct (syntax t c); try done; (eapply rbind_then_fails; [done|]); (apply IH; [still_ready|done|lia]).
Qed.

Lemma read_right_blank st s depth rest : ready st s → rs_in s = 32 :: 41 :: rest → (0 < depth)%nat →
  read_in depth 41 s = RDone None (set_in rest s).
Proof.
  intros Hr E Hd. cbv beta. rewrite (read_again st s depth 41 0 Hr). destruct depth as [|depth]; [lia|]. cbn [read_begin].
  rewrite (rbind_Done _ _ _ _ _ (stream_fuel_eq s)).
  assert (∀ k, skip_blanks (S (S k)) rt 41 s = RDone None (set_in rest s)) as Es.
  { intros k. cbn [skip_blanks]. rewrite (rbind_Done _ _ _ _ _ (read_char_cons s 32 (41 :: rest) E)).
    change ((32 =? 41)) with false. change (32 =? EOF) with false. cbv iota.
    rewrite (rbind_Done _ _ _ _ _ (get_eq st (set_in (41 :: rest) s) 32 (ready_in _ _ _ Hr))). cbn [fst]. rewrite (std_blank t Hstd).
    by rewrite (rbind_Done _ _ _ _ _ (read_char_cons (set_in (41 :: rest) s) 41 rest eq_refl)). }
  rewrite E. cbn [length]. by rewrite (rbind_Done _ _ _ _ _ (Es _)).
Qed.

Lemma comma_outside st s depth rest :
  ready st s → (7 < depth)%nat → rs_backq_level s <= 0 →
  fails (read_object fuel empty_base_string (S depth)) (FEreader_error "A comma has appeared out of a backquote." []) (set_in (44 :: rest) s).
Proof.
  intros Hr Hdepth Hlevel. destruct depth as [|depth]; [lia|].
  eapply (macro_fails st); [still_ready|done|left; split_and!; [done|done|]|..];
    unfold syntax; rewrite ?(std_comma t Hstd); try done.
  exists (set_in rest (set_in (44 :: rest) s)). cbn [call_macro]. unfold comma_reader.
  rewrite (rbind_Done rget _ _ _ _ eq_refl). cbv beta zeta.
  change (rs_backq_level (set_in rest (set_in (44 :: rest) s))) with (rs_backq_level s). by rewrite (proj2 (Z.leb_le _ _) Hlevel).
Qed.

Lemma string_not_ended st s depth l :
  ready st s → (7 < depth)%nat → Forall is_char l →
  fails (read_object fuel empty_base_string (S depth)) FEend_of_file (set_in (34 :: escaped_quotes l) s).
Proof.
  intros Hr Hdepth Hl. destruct depth as [|depth]; [lia|].
  eapply (macro_fails st); [still_ready|done|left; split_and!; [done|done|]|..];
    unfold syntax; rewrite ?(std_double_quote t Hstd); try done.
  cbn [call_macro]. unfold double_quote_reader. eapply rbind_then_fails; [apply (current_eq st); still_ready|].
  eapply rbind_then_fails; [done|]. apply rbind_fails.
  apply (quoted_chars_end st l); [done|still_ready|done|]. simpl rs_in. pose proof (escaped_quotes_length l). lia.
Qed.

Lemma list_not_ended st s depth x outx :
  ready st s → (7 < depth)%nat → (tree_size x < depth)%nat → reads st x outx → x ≠ TSym SI_DOT →
  fails (read_object fuel empty_base_string (S depth)) FEend_of_file (set_in (40 :: outx) s).
Proof.
  intros Hr Hdepth Hnx Hx Hrx. destruct depth as [|depth]; [lia|].
  apply (list_fails st _ outx); [still_ready|done|].
  destruct (first_read st (set_in outx (set_in (40 :: outx) s)) depth x outx []) as (v & h & a & E & Ha);
    [done|done|still_ready|by rewrite app_nil_r|done|lia|]. eapply fails_same; [exact E|].
  destruct depth as [|n]; [lia|]. cbn [delimited_loop]. apply rbind_fails. apply (element_missing st); [still_ready|done|lia].
Qed.

Lemma dot_first st s depth rest :
  ready st s → (7 < depth)%nat →
  fails (read_object fuel empty_base_string (S depth)) (FEreader_error "A dot appeared after a left parenthesis." []) (set_in ([40; 32; 46; 32] ++ rest) s).
Proof.
  intros Hr Hdepth. destruct depth as [|depth]; [lia|].
  apply (list_fails st _ ([32; 46; 32] ++ rest)); [still_ready|done|].
  cbn [delimited_loop]. destruct (dot_read st (set_in ([32; 46; 32] ++ rest) (set_in ([40; 32; 46; 32] ++ rest) s)) (S depth) rest)
    as (h & E & _); [still_ready|done|lia|].
  eapply rbind_then_fails; [exact E|]. cbv beta iota. rewrite obj_eq_refl, bool_decide_eq_true_2 by done. by eexists.
Qed.

Lemma dot_last st s depth x outx rest :
  ready st s → (7 < depth)%nat → (tree_size x < depth)%nat → reads st x outx → x ≠ TSym SI_DOT →
  fails (read_object fuel empty_base_string (S depth)) (FEreader_error "Object missing after a list dot" [])
    (set_in (40 :: outx ++ [32; 46; 32; 41] ++ rest) s).
Proof.
  intros Hr Hdepth Hnx Hx Hrx. destruct depth as [|depth]; [lia|].
  apply (list_fails st _ (outx ++ [32; 46; 32; 41] ++ rest)); [still_ready|done|].
  destruct (first_read st (set_in (outx ++ [32; 46; 32; 41] ++ rest) (set_in (40 :: outx ++ [32; 46; 32; 41] ++ rest) s)) depth x outx
    ([32; 46; 32; 41] ++ rest)) as (v & h & a & E & Ha); [done|done|still_ready|done|apply ends_blank|lia|].
  eapply fails_same; [exact E|]. destruct depth as [|[|n]]; [lia..|]. cbn [delimited_loop].
  match goal with |- fails _ _ ?s1 => destruct (dot_read st s1 (S (S (S n))) (41 :: rest)) as (h1 & E1 & _); [still_ready|done|lia|] end.
  eapply rbind_then_fails; [exact E1|]. cbv beta iota. rewrite obj_eq_refl, bool_decide_eq_false_2 by done. cbn [Z.eqb negb].
  eapply rbind_then_fails; [apply (read_right_blank st _ _ rest); [still_ready|done|lia]|]. by eexists.
Qed.

Lemma two_after_dot st s depth x y z outx outy outz rest :
  ready st s → (7 < depth)%nat → (tree_size x < depth)%nat → (tree_size y < depth)%nat → (tree_size z < depth)%nat →
  reads st x outx → reads st y outy → reads st z outz → x ≠ TSym SI_DOT → y ≠ TSym SI_DOT → z ≠ TSym SI_DOT → ends rest →
  fails (read_object fuel empty_base_string (S depth)) (FEreader_error "Too many objects after a list dot" [])
    (set_in (40 :: outx ++ [32; 46; 32] ++ outy ++ [32] ++ outz ++ rest) s).
Proof.
  intros Hr Hdepth Hnx Hny Hnz Hx Hy Hz Hrx Hry Hrz He. destruct depth as [|depth]; [lia|].
  set (l2 := outy ++ [32] ++ outz ++ rest).
  apply (list_fails st _ (outx ++ [32; 46; 32] ++ l2)); [still_ready|done|].
  destruct (first_read st (set_in (outx ++ [32; 46; 32] ++ l2) (set_in (40 :: outx ++ [32; 46; 32] ++ l2) s)) depth x outx
    ([32; 46; 32] ++ l2)) as (v & h & a & E & Ha); [done|done|still_ready|done|apply ends_blank|lia|].
  eapply fails_same; [exact E|]. destruct depth as [|[|[|n]]]; [lia..|]. cbn [delimited_loop].
  match goal with |- fails _ _ ?s1 => destruct (dot_read st s1 (S (S (S (S n)))) l2) as (h1 & E1 & Hs1); [still_ready|done|lia|] end.
  eapply rbind_then_fails; [exact E1|]. cbv beta iota. rewrite obj_eq_refl, bool_decide_eq_false_2 by done. cbn [Z.eqb negb].
  match goal with |- fails _ _ ?s1 =>
    destruct (read_element st s1 (S (S (S (S n)))) y outy ([32] ++ outz ++ rest) [32] Hy) as (w & h2 & E2 & Hw & Hs2);
      [still_ready|done|by repeat constructor|apply ends_blank|lia|] end.
  eapply rbind_then_fails; [exact E2|]. cbv beta iota. rewrite (not_dot _ _ _ Hry Hw). change (1 <? 1) with false. cbv iota.
  assert (h2 !! a = Some (CCons v ONil)) as Ha2 by (do 2 (eapply lookup_weaken; [|eassumption]); exact Ha).
  eapply rbind_then_fails; [apply heapM_Done, (RPLACD_eq a v ONil w h2 Ha2)|]. cbn [delimited_loop].
  match goal with |- fails _ _ ?s1 =>
    destruct (read_element st s1 (S (S (S (S n)))) z outz rest [32] Hz) as (u & h3 & E3 & Hu & _);
      [still_ready|done|by repeat constructor|done|lia|] end.
  eapply rbind_then_fails; [exact E3|]. cbv beta iota. rewrite (not_dot _ _ _ Hrz Hu). by eexists.
Qed.

(** C34: the errors of the reader: a right parenthesis and a comma where they have no
    meaning; the end of the stream in a string and in a list; a dot with nothing before
    it, with nothing after it and with two objects after it. *)
Theorem reader_errors st s depth x y z outx outy outz :
  ready st s → (7 < depth)%nat → (tree_size x < depth)%nat → (tree_size y < depth)%nat → (tree_size z < depth)%nat →
  reads st x outx → reads st y outy → reads st z outz → x ≠ TSym SI_DOT → y ≠ TSym SI_DOT → z ≠ TSym SI_DOT →
  let fails_on l e := fails (read_object fuel empty_base_string (S depth)) e (set_in l s) in
  (∀ rest, fails_on (41 :: rest) (FEreader_error "Unmatched right parenthesis, #\)" [])) ∧
  (∀ rest, rs_backq_level s <= 0 → fails_on (44 :: rest) (FEreader_error "A comma has appeared out of a backquote." [])) ∧
  (∀ l, Forall is_char l → fails_on (34 :: escaped_quotes l) FEend_of_file) ∧
  fails_on (40 :: outx) FEend_of_file ∧
  (∀ rest, fails_on ([40; 32; 46; 32] ++ rest) (FEreader_error "A dot appeared after a left parenthesis." [])) ∧
  (∀ rest, fails_on (40 :: outx ++ [32; 46; 32; 41] ++ rest) (FEreader_error "Object missing after a list dot" [])) ∧
  (∀ rest, ends rest →
    fails_on (40 :: outx ++ [32; 46; 32] ++ outy ++ [32] ++ outz ++ rest) (FEreader_error "Too many objects after a list dot" [])).
Proof.
  intros Hr Hdepth Hnx Hny Hnz Hx Hy Hz Hrx Hry Hrz fails_on. split_and!; intros; unfold fails_on.
  - eapply (macro_fails st); [still_ready|done|by right|..]; rewrite ?(std_right t Hstd); try done.
    + unfold syntax. by rewrite std_right.
    + by eexists.
  - by apply (comma_outside st).
  - by apply (string_not_ended st).
  - by apply (list_not_ended st _ _ x).
  - by apply (dot_first st).
  - by apply (dot_last st _ _ x).
  - by apply (two_after_dot st _ _ x y z).
Qed.

End readback.
