(* ===== verification/TextExamples.v ===== *)
(** * TextExamples: characters, strings, the reader and the printer at concrete values *)

From Stdlib Require Import Sorting.Sorted.
From S2P Require Import Prelude Words Objects Heap Numbers Equal Lists NumPred ListSearch ArithSpecs Sequences ListExamples.
From S2P Require Import Hash HashLaws HashTable HashTests HashExamples Chars CharSpecs NumRead NumReadSpecs NumTextExamples CharNames.
From S2P Require Import Strings StrMake StrOps StrSpecs.
From S2P Require Import Floats Arith NumComp NumCo NumLog ToFloat NumCompSpecs NumCoSpecs UniTables NumPrint TokenSpecs.
From S2P Require Import Packages PackSpecs PackFacts Backq Readtable Reader Printer ReaderSpecs ReadBack.
#[local] Open Scope Z_scope.

(** ** Characters *)

Lemma is_char_eval code : (0 <=? code) && (code <? MKCL_CHAR_CODE_LIMIT) = true → is_char code.
Proof. unfold is_char. rewrite andb_true_iff, Z.leb_le, Z.ltb_lt. done. Qed.

(** The small alpha, the large Deseret long I, and U+10541 in a block that has page 0. *)
Lemma cases_paired_witness :
  mkcl_char_downcase (mkcl_char_upcase 945) = 945 ∧ mkcl_char_upcase (mkcl_char_downcase 66560) = 66560 ∧
  mkcl_upper_case_p 0x10541 = mkcl_upper_case_p 65.
Proof.
  split_and!.
  - destruct (cases_paired 945 (is_char_eval 945 eq_refl)) as [H _]. destruct H as [H _]; [by right; vm_compute|].
    apply H; [by vm_compute|]. apply (bool_decide_eq_false_1 (945 ∈ titlecased)). by vm_compute.
  - destruct (cases_paired 66560 (is_char_eval 66560 eq_refl)) as [H _]. destruct H as [_ H]; [by right; vm_compute|].
    apply H. by vm_compute.
  - destruct (cases_paired 0x10541 (is_char_eval 0x10541 eq_refl)) as (_ & _ & _ & H). apply H.
    intros [Hl|Hp]; [lia|]. by apply Hp; vm_compute.
Defined.

Lemma characters_compared_witness :
  decides (Sorted Z.lt [97; 945; 66560]) (mk_cl_charL [OChar 97; OChar 945; OChar 66560]) ∅.
Proof.
  apply (characters_compared 97 [945; 66560] ∅). repeat constructor; by apply is_char_eval.
Defined.

(** U+0378 has no class; the letter a has one. *)
Lemma classless_read_outside_witness :
  mk_cl_alpha_char_p (OChar 0x378) ∅ = Fail Segfault ∅ ∧ ∃ b, mk_cl_alpha_char_p (OChar 97) ∅ = Done (lisp_bool b) ∅.
Proof.
  split.
  - apply (classless_read_outside 0x378 ∅ (is_char_eval 0x378 eq_refl)); [|lia]. by vm_compute.
  - apply (classless_read_outside 97 ∅ (is_char_eval 97 eq_refl)). unfold unclassed. by vm_compute.
Defined.

Lemma digits_inverse_witness :
  ∃ c, mk_cl_digit_char (OFix 11) (Some (OFix 16)) ∅ = Done c ∅ ∧
    mk_cl_digit_char_p c (Some (OFix 16)) ∅ = Done (OFix 11) ∅.
Proof. apply (digits_inverse 16 11 ∅); lia. Defined.

(** ** Names

    A table of names without entries, at 60. *)

Definition no_names_table : hashtable := {|
  hash_test := mkcl_htt_eq; hash_data := 61; hash_entries := 0; hash_size := 1; hash_rehash_size := OFix 1;
  hash_threshold := OFix 1; hash_factor_of_16th := 12; hash_free_bucket := None |}.
Definition names_heap : heap := {[60 := CHash no_names_table; 61 := CChains [None]]}.
Definition no_names : obj := OObj mkcl_t_hashtable 60.

Lemma no_names_found str h : names_heap ⊆ h → mkcl_gethash_safe 1 str no_names ONil h = Done ONil h.
Proof.
  intros Hs. assert (h !! 60 = Some (CHash no_names_table)) as E1 by (eapply lookup_weaken; [|exact Hs]; done).
  assert (h !! 61 = Some (CChains [None])) as E2 by (eapply lookup_weaken; [|exact Hs]; done).
  assert (read_hash no_names h = Done no_names_table h) as Er by (unfold read_hash; simpl; by rewrite E1).
  assert (read_root 61 0 h = Done None h) as Ed.
  { unfold read_root. assert (read_chains 61 h = Done [None] h) as Ec by (unfold read_chains; by rewrite E2).
    by rewrite (bind_Done _ _ _ _ _ Ec). }
  unfold mkcl_gethash_safe. change (mkcl_assert_type_hash_table no_names) with (mret tt : M unit). rewrite bind_ret.
  assert (mkcl_search_hash 1 str no_names h = Done None h) as Ee; [|by rewrite (bind_Done _ _ _ _ _ Ee)].
  unfold mkcl_search_hash. rewrite (bind_Done _ _ _ _ _ Er). cbn [hash_test no_names_table hash_fun]. rewrite bind_ret.
  unfold _search_hash. rewrite (bind_Done _ _ _ _ _ Er). unfold chain_index. cbn [hash_size no_names_table].
  rewrite Z.mod_1_r. simpl Z.eqb. cbv iota. rewrite bind_ret. cbn [hash_data no_names_table].
  change (Z.to_nat 0) with 0%nat. by rewrite (bind_Done _ _ _ _ _ Ed).
Qed.

Lemma vectors_t_dim str l h : read_string str h = Done l h → (length l <= 5)%nat →
  ∃ dim, Z.of_nat (length l) <= dim ∧ array_dim str h = Done dim h.
Proof.
  intros Hr Hl. assert ((s ← read_string str; mret (Z.of_nat (length s))) h = Done (Z.of_nat (length l)) h) as Hd
    by (by rewrite (bind_Done _ _ _ _ _ Hr)).
  destruct str as [| | | | | | | | |a|a|]; try done; [|by eexists].
  destruct (decide (a = 22)) as [->|Ha]; [by exists 5; split; [lia|]|].
  exists (Z.of_nat (length l)). split; [done|]. cbn [array_dim vectors_t]. by repeat case_match.
Qed.

(** Small alpha is U03b1. *)
Lemma names_roundtrip_witness :
  ∃ name h', mk_cl_char_name 1 no_names ONil (OChar 945) names_heap = Done name h' ∧
    gives (λ c, c = OChar 945) (mk_cl_name_char 1 no_names ONil name) h'.
Proof.
  apply (names_roundtrip 1 no_names 945 names_heap (is_char_eval 945 eq_refl)); [done| |done].
  intros str h' Hs Hr. split; [|by apply no_names_found]. apply (vectors_t_dim _ _ _ Hr). by vm_compute; lia.
Defined.

(** ** Strings

    At 70 to 72, in a heap that may grow. *)

Definition str_heap : heap := {[70 := CStr [97; 98; 955; 99]; 71 := CStr [65; 66]; 72 := CStr [98; 955]]}.

Lemma text_at x a l : string_addr x = Some a → str_heap !! a = Some (CStr l) → (length l <= 5)%nat →
  is_text x l str_heap.
Proof.
  intros Ha Hl H5 h' Hs. assert (read_string x h' = Done l h') as Hr.
  { assert (h' !! a = Some (CStr l)) as E by (by eapply lookup_weaken).
    destruct x; simplify_eq/=; by rewrite E. }
  split; [done|]. by apply (vectors_t_dim _ _ _ Hr).
Qed.

Lemma text_70 : is_text (OString 70) [97; 98; 955; 99] str_heap.
Proof. by apply (text_at _ 70); simpl; try lia. Qed.
Lemma text_71 : is_text (OBaseString 71) [65; 66] str_heap.
Proof. by apply (text_at _ 71); simpl; try lia. Qed.
Lemma text_72 : is_text (OString 72) [98; 955] str_heap.
Proof. by apply (text_at _ 72); simpl; try lia. Qed.

(** The first two characters of the one at 70 and the other from its start to its end. *)
Definition two : bounds := {| start1 := OFix 0; end1 := OFix 2; start2 := OFix 0; end2 := ONil |}.
Lemma compared_two : compared str_heap (OString 70) (OBaseString 71) two [97; 98] [65; 66] 0.
Proof.
  split. exists [97; 98; 955; 99], [65; 66], 2, 0, 2.
  split_and!; [apply text_70|apply text_71| | |done|done]; (split; [done|]); (split; [|simpl; lia]); simpl; auto.
Qed.

(** "ab" and "AB": STRING-LESSP is false, and STRING> finds a difference at 0. *)
Lemma strings_compared_witness :
  mk_cl_string_lessp 0 (OString 70) (OBaseString 71) two str_heap = Done ONil str_heap ∧
  mk_cl_stringG 0 (OString 70) (OBaseString 71) two str_heap = Done (OFix 0) str_heap.
Proof.
  split.
  - destruct (strings_compared 0 (-1) (-1) false _ _ _ _ _ _ _ compared_two) as (k & a & b & (E1 & E2 & Hh) & E).
    unfold mk_cl_string_lessp. rewrite E. rewrite decide_False; [done|]. intros Hs.
    assert (a = b) as -> by (change (cased false <$> [97; 98]) with [65; 66] in E1;
      change (cased false <$> [65; 66]) with [65; 66] in E2; rewrite E1 in E2; by apply app_inv_head in E2).
    destruct (Hh eq_refl) as [-> _]. by destruct Hs.
  - destruct (strings_compared 0 1 1 true _ _ _ _ _ _ _ compared_two) as (k & a & b & (E1 & E2 & Hh) & E).
    unfold mk_cl_stringG. rewrite E. destruct k as [|c k].
    + simpl in E1, E2. subst a b. by rewrite decide_True by (simpl; auto).
    + exfalso. simpl in E1, E2. congruence.
Defined.

Lemma strings_ordered_witness :
  non_nil (mk_cl_stringL 0 (OString 70) (OBaseString 71) two str_heap) str_heap (lex_lt [97; 98] [65; 66]) ∧
  non_nil (mk_cl_stringNE 0 (OString 70) (OBaseString 71) two str_heap) str_heap ([97; 98] ≠ [65; 66]).
Proof. split; by apply (strings_ordered 0 _ _ _ _ _ _ _ compared_two). Defined.

(** "bλ" is in "abλc" at 1, and cannot be searched for in "AB". *)
Lemma strings_searched_witness :
  gives (first_occurrence [98; 955] [97; 98; 955; 99])
    (mkcl_search_in_string 0 (OString 70) (OBaseString 71) (OString 72) (OString 70)) str_heap ∧
  mkcl_search_in_string 0 (OString 70) (OBaseString 71) (OString 72) (OBaseString 71) str_heap =
    Fail (FEerror "Cannot coerce string ~A to a base-string" [OString 72]) str_heap.
Proof.
  split.
  - exact (strings_searched 0 (OString 70) (OBaseString 71) str_heap _ _ _ _ text_72 text_70).
  - exact (strings_searched 0 (OString 70) (OBaseString 71) str_heap _ _ _ _ text_72 text_71).
Defined.

Example search_found :
  match mkcl_search_in_string 0 (OString 70) (OBaseString 71) (OString 72) (OString 70) str_heap with
  | Done r _ => r = OFix 1 | _ => False end.
Proof. vm_compute. done. Qed.

(** The bag "bλ" trims nothing of "abλc", and the bag "AB" all of "AB". *)
Lemma strings_trimmed_witness :
  ∃ pre t post, [97; 98; 955; 99] = pre ++ t ++ post ∧ (∀ c, head t = Some c → c ≠ 98) ∧
    string_trim0 1 true true (OString 72) (OString 70) str_heap =
    Done (OString (first_free str_heap)) (<[first_free str_heap := CStr t]> str_heap).
Proof.
  destruct (strings_trimmed 1 true true (OString 72) (λ c, existsb (λ o, c =? o) [98; 955]) (OString 70)
    [97; 98; 955; 99] str_heap) as (pre & t & post & E & _ & _ & Hh & _ & Er);
    [apply text_70|by apply bag_string|by unfold is_fixnum; simpl; unfold_words; lia|].
  exists pre, t, post. split_and!; [done| |exact Er]. intros c Hc ->. by apply Hh in Hc.
Defined.

Example trimmed_ab :
  match mk_cl_string_trim 1 (OBaseString 71) (OBaseString 71) str_heap with
  | Done (OBaseString a) h => h !! a = Some (CStr []) | _ => False end.
Proof. vm_compute. done. Qed.

(** From 1 below 2 of "abλc" two characters are filled; from 2 of "AB" below 2 the block
    is left. *)
Lemma fill_overruns_witness :
  mkcl_fill_string_k (OString 70) 122 1 2 str_heap =
    Done (OString 70) (<[70 := CStr [97; 122; 122; 99]]> str_heap) ∧
  mkcl_fill_string_k (OBaseString 71) 122 2 2 str_heap = Fail Segfault str_heap.
Proof.
  split.
  - destruct (fill_overruns (OString 70) 70 [97; 98; 955; 99] 4 122 1 2 str_heap) as [E _];
      [done..|lia|lia|simpl; lia|by vm_compute|done|]. exact E.
  - destruct (fill_overruns (OBaseString 71) 71 [65; 66] 2 122 2 2 str_heap) as [E _];
      [done..|lia|lia|simpl; lia|by vm_compute|lia|]. exact E.
Defined.

(** "abλc" and "AB" in upper and lower case from 1 on. *)
Lemma strings_cased_witness :
  mk_cl_nstring_upcase (OString 70) (OFix 1) ONil str_heap =
    Done (OString 70) (<[70 := CStr [97; 66; 923; 67]]> str_heap) ∧
  mk_cl_nstring_downcase (OBaseString 71) (OFix 1) (OFix 2) str_heap =
    Done (OBaseString 71) (<[71 := CStr [65; 98]]> str_heap).
Proof.
  split.
  - destruct (strings_cased 0 char_upcase mkcl_char_upcase (OString 70) 70 [97; 98; 955; 99] (OFix 1) ONil 1 4 str_heap)
      as [E _]; [by left|done|done|apply text_70| | |].
    + split_and!; [done|by right|lia|lia|simpl; lia].
    + by vm_compute.
    + unfold mk_cl_nstring_upcase. rewrite E. by vm_compute.
  - destruct (strings_cased 0 char_downcase mkcl_char_downcase (OBaseString 71) 71 [65; 66] (OFix 1) (OFix 2) 1 2 str_heap)
      as [E _]; [by right|done|done|apply text_71| | |].
    + split_and!; [done|by left|lia|lia|simpl; lia].
    + by vm_compute.
    + unfold mk_cl_nstring_downcase. rewrite E. by vm_compute.
Defined.

(** ** The reader and the printer

    Four packages: USER, the current one, uses CL; SI has an internal symbol. *)

#[local] Instance to_double_2 : ToDouble := to_double_within 3.
#[local] Instance transcendental_nothing : Transcendental := {| mkcl_log1 _ := diverge; mk_cl_exp _ := diverge |}.
#[local] Instance memory_plain : Memory := {| machine_address a := a; nan_bytes _ := [] |}.
#[local] Instance syntax_symbols : BackqSymbols := {|
  CL_quote := 50; CL_list := 51; CL_listX := 52; CL_append := 53; CL_nconc := 54; SI_quasiquote := 55; SI_unquote := 56;
  SI_unquote_splice := 57; SI_unquote_nsplice := 58; keyword_pack := ONil |}.
#[local] Instance vectors_text : Vectors := {|
  array_dim x := s ← read_string x; mret (Z.of_nat (length s));
  vector_fillp _ := raise Segfault; mkcl_aref_index _ _ := raise Segfault; mkcl_aset_index _ _ _ := raise Segfault;
  copy_subvector _ _ _ := raise Segfault; reverse_subvector _ _ _ := raise Segfault |}.
#[local] Instance text_dims : TextDims.
Proof. constructor. intros a l h Ha. exists (Z.of_nat (length l)). split; [lia|]. simpl. unfold mbind, M_bind. simpl. by rewrite Ha. Qed.
#[local] Instance read_env : ReadEnv := {|
  standard_readtable := 1; read_suppress := false; reading_fasl_file := false; CL_function := 59; SI_DOT := 60;
  base_char_names := no_names; extended_character_names := ONil |}.
#[local] Instance macro_calls : MacroCalls := {| funcall2 _ _ := wrong_num_arguments; funcall3 _ _ _ := wrong_num_arguments |}.
#[local] Instance printer_vars : PrinterVars := printer_in 10.
#[local] Instance print_vars : PrintVars := {|
  print_case := Some KEY_downcase; print_package := None; print_gensym := true; print_readably := false; print_escape := true;
  print_array := true; print_circle := false; print_pretty := false; print_length := ONil; SI_HASH_BANG := 61 |}.
#[local] Instance print_calls : PrintCalls := {|
  pprint _ := mret None; write_circle _ m := m; object_will_print_as_hash _ := mret false; write_other _ _ := rraise dangling_table |}.

Definition reader_packages : pstate := PState
  (list_to_map [
    (1, Package (Some (str_chars "CL")) [] [] [] [3]
          ∅ (list_to_map [(str_chars "NIL", 1); (str_chars "QUOTE", 50); (str_chars "FUNCTION", 59)]) false);
    (2, plain_package (str_chars "KEYWORD") {[str_chars "K" := 70]} ∅);
    (3, Package (Some (str_chars "USER")) [] [] [1] [] (list_to_map [(str_chars "A", 71); (str_chars "b c", 72)]) ∅ false);
    (4, plain_package (str_chars "SI") ∅ {[str_chars "X1" := 73]})])
  (list_to_map [
    (1, plain_symbol (str_chars "NIL") 1); (50, plain_symbol (str_chars "QUOTE") 1); (59, plain_symbol (str_chars "FUNCTION") 1);
    (70, plain_symbol (str_chars "K") 2); (71, plain_symbol (str_chars "A") 3); (72, plain_symbol (str_chars "b c") 3);
    (73, plain_symbol (str_chars "X1") 4)])
  [3; 1; 2; 4] [] (Some 3).

(** The symbols that a package has or inherits, with their names. *)
Definition accessibles (ps : gmap pid package) (pk : package) : list (name * sym) :=
  map_to_list (pack_external pk) ++ map_to_list (pack_internal pk) ++
  mjoin ((λ q, match ps !! q with Some qk => map_to_list (pack_external qk) | None => [] end) <$> pack_uses pk).

Definition named_check (syms : gmap sym psymbol) (ns : name * sym) : bool :=
  match syms !! ns.2 with Some sy => bool_decide (psym_name sy = ns.1) | None => false end.

(** The invariant, for packages that shadow nothing. *)
Definition package_check (st : pstate) (p : pid) (pk : package) : bool :=
  forallb (named_check (st_symbols st)) (map_to_list (pack_external pk) ++ map_to_list (pack_internal pk)) &&
  bool_decide (pack_shadowings pk = []) && bool_decide (NoDup (accessibles (st_packages st) pk).*1) &&
  forallb (λ q, negb (q =? keyword_package) &&
    match st_packages st !! q with Some qk => bool_decide (p ∈ pack_usedby qk) | None => false end) (pack_uses pk) &&
  forallb (λ q, match st_packages st !! q with Some qk => bool_decide (p ∈ pack_uses qk) | None => false end) (pack_usedby pk).

Definition packages_check (st : pstate) : bool :=
  forallb (λ x, package_check st x.1 x.2) (map_to_list (st_packages st)) &&
  forallb (λ p, bool_decide (is_Some (st_packages st !! p))) (keyword_package :: st_list st).

Lemma accessibles_acc ps pk n s : acc ps pk n s → (n, s) ∈ accessibles ps pk.
Proof.
  unfold accessibles. rewrite !elem_of_app, !elem_of_map_to_list. intros [[H|H]|(q & Hq & qk & Hqk & Hs)]; [tauto|tauto|].
  right; right. apply list_elem_of_join. exists (map_to_list (pack_external qk)). rewrite elem_of_map_to_list. split; [done|].
  apply list_elem_of_fmap. exists q. by rewrite Hqk.
Qed.

Lemma packages_checked st : packages_check st = true → pinv st.
Proof.
  unfold packages_check. rewrite andb_true_iff. intros [Hall Hlist]. rewrite forallb_forall in Hall, Hlist.
  assert (∀ p pk, st_packages st !! p = Some pk → package_check st p pk = true) as Hp.
  { intros p pk Hpk. apply (Hall (p, pk)), list_elem_of_In, elem_of_map_to_list, Hpk. }
  clear Hall. unfold package_check in Hp.
  assert (∀ p pk, st_packages st !! p = Some pk →
    (∀ n s, pres pk n s → named (st_symbols st) s n) ∧ pack_shadowings pk = [] ∧ NoDup (accessibles (st_packages st) pk).*1 ∧
    (∀ q, q ∈ pack_uses pk → q ≠ keyword_package ∧ ∃ qk, st_packages st !! q = Some qk ∧ p ∈ pack_usedby qk) ∧
    (∀ q, q ∈ pack_usedby pk → ∃ qk, st_packages st !! q = Some qk ∧ p ∈ pack_uses qk)) as H.
  { intros p pk Hpk. specialize (Hp p pk Hpk). rewrite !andb_true_iff, !forallb_forall, !bool_decide_eq_true in Hp.
    destruct Hp as ((((Hn & Hs) & Hd) & Hu) & Hb). split_and!; [|done|done|..].
    - intros n s Hns. specialize (Hn (n, s)). unfold named_check in Hn. simpl in Hn.
      assert (match st_symbols st !! s with Some sy => bool_decide (psym_name sy = n) | None => false end = true) as E.
      { apply Hn, list_elem_of_In. rewrite elem_of_app, !elem_of_map_to_list. exact Hns. }
      destruct (st_symbols st !! s) as [sy|] eqn:Es; [|done]. exists sy. split; [done|]. by apply bool_decide_eq_true in E.
    - intros q Hq%list_elem_of_In%Hu. apply andb_true_iff in Hq as [Hk%negb_true_iff%Z.eqb_neq Hq]. split; [done|].
      destruct (st_packages st !! q) as [qk|]; [|done]. exists qk. split; [done|]. by apply bool_decide_eq_true in Hq.
    - intros q Hq%list_elem_of_In%Hb. destruct (st_packages st !! q) as [qk|]; [|done].
      exists qk. split; [done|]. by apply bool_decide_eq_true in Hq. }
  assert (∀ p pk n s1 s2, st_packages st !! p = Some pk → acc (st_packages st) pk n s1 → acc (st_packages st) pk n s2 → s1 = s2) as Hfun.
  { intros p pk n s1 s2 Hpk H1%accessibles_acc H2%accessibles_acc. destruct (H p pk Hpk) as (_ & _ & Hd & _).
    apply list_elem_of_lookup in H1 as [i1 E1], H2 as [i2 E2].
    assert (i1 = i2) as -> by (eapply NoDup_lookup; [exact Hd|rewrite list_lookup_fmap, E1; done|rewrite list_lookup_fmap, E2; done]).
    congruence. }
  constructor.
  - intros p pk Hpk. destruct (H p pk Hpk) as (Hn & Hs & Hd & _). constructor; [done| |rewrite Hs; by intros s _ ?%elem_of_nil].
    intros n _. destruct (pack_external pk !! n) as [s|] eqn:Es; [|by left]. destruct (pack_internal pk !! n) as [s'|] eqn:Ei; [|by right].
    exfalso. unfold accessibles in Hd. rewrite !fmap_app in Hd. apply NoDup_app in Hd as (_ & Hd & _). apply (Hd n).
    + apply list_elem_of_fmap. exists (n, s). by rewrite elem_of_map_to_list.
    + apply elem_of_app. left. apply list_elem_of_fmap. exists (n, s'). by rewrite elem_of_map_to_list.
  - intros p pk n Hpk _ s1 s2 H1 H2. left. by eapply Hfun.
  - intros p pk q Hpk. by apply (H p pk Hpk).
  - intros q qk p Hqk. by apply (H q qk Hqk).
  - intros p Hin. eapply bool_decide_eq_true_1, (Hlist p), list_elem_of_In. by right.
  - eapply bool_decide_eq_true_1, (Hlist keyword_package). by left.
Qed.

Lemma reader_packages_pinv : pinv reader_packages.
Proof. apply packages_checked. vm_compute. done. Qed.

(** The read tables at the start. *)
Definition reader_heap : heap :=
  names_heap ∪ {[80 := CStr [115; 34; 104; 92]; 81 := CBits 0 3 [false; true; true];
    82 := CCons (OSym 72) (OCons 83); 83 := CCons (OSym 70) (OCons 84); 84 := CCons (OSym 73) (OCons 85);
    85 := CCons (OCons 90) (OCons 86); 86 := CCons (OString 80) (OCons 87); 87 := CCons (OChar 97) (OCons 88);
    88 := CCons (OObj mkcl_t_bitvector 81) (OCons 89); 89 := CCons (ORatio 95 (OFix 12) (OFix 5)) (OFix (-7));
    90 := CCons (OSym 50) (OCons 91); 91 := CCons (OSym 71) ONil]}.

Definition start : rstate := RState [] reader_heap reader_packages ∅ ∅ None 0.
Definition started : rstate := match mkcl_init_read start with RDone _ s => s | _ => start end.
Definition table_of (r : Z) : readtable := default (Readtable mkcl_case_upcase [] None) (rs_readtables started !! r).
Definition sharps_of (r : Z) : gmap Z macro_fun := default ∅ (rs_tables started !! r).

Definition std_syntax (c : Z) : chattrib :=
  if c =? 92 then mkcl_cat_single_escape
  else if c =? 124 then mkcl_cat_multiple_escape
  else if bool_decide (c ∈ [9; 10; 12; 13; 32]) then mkcl_cat_whitespace
  else if c =? 35 then mkcl_cat_non_terminating
  else if bool_decide (c ∈ [34; 39; 40; 41; 44; 59; 96]) then mkcl_cat_terminating
  else mkcl_cat_constituent.

Lemma started_eq : mkcl_init_read start = RDone (1, 2) started ∧ rs_packs started = reader_packages ∧ rs_heap started = reader_heap ∧
  rs_readtable started = Some 2.
Proof. split_and!; vm_compute; reflexivity. Qed.

Lemma syntax_checked r : r = 1 ∨ r = 2 →
  forallb (λ c, bool_decide (syntax (table_of r) c = std_syntax c)) (seqZ 0 256) = true ∧ rt_hash (table_of r) = None.
Proof. intros [-> | ->]; split; vm_compute; reflexivity. Qed.

Lemma std_syntax_above c : 128 <= c ∨ c < 0 → std_syntax c = mkcl_cat_constituent.
Proof.
  intros Hc. unfold std_syntax.
  repeat match goal with |- context [c =? ?k] => rewrite (proj2 (Z.eqb_neq c k)) by lia end.
  rewrite !bool_decide_eq_false_2; [done|..]; rewrite !elem_of_cons, elem_of_nil; lia.
Qed.

Lemma syntax_std r c : r = 1 ∨ r = 2 → syntax (table_of r) c = std_syntax c.
Proof.
  intros Hr. destruct (syntax_checked r Hr) as [Hall Hh]. rewrite forallb_forall in Hall.
  assert (∀ k, 0 <= k < 256 → syntax (table_of r) k = std_syntax k) as Hk.
  { intros k Hk. eapply bool_decide_eq_true_1, (Hall k), list_elem_of_In, elem_of_seqZ. lia. }
  destruct (decide (0 <= c < 256)); [by apply Hk|]. rewrite std_syntax_above by lia.
  destruct (decide (c < 0)).
  - transitivity (syntax (table_of r) 0); [|by rewrite Hk by lia]. unfold syntax, entry_of.
    rewrite !(proj2 (Z.leb_gt _ _)) by (unfold MKCL_RTABSIZE; lia). by replace (Z.to_nat c) with 0%nat by lia.
  - unfold syntax, entry_of. rewrite (proj2 (Z.leb_le _ _)) by (unfold MKCL_RTABSIZE; lia). by rewrite Hh.
Qed.

(** No upper case letter has one of the special characters as its lower case. *)
Lemma transforms_plain : forallb (forallb (λ i,
  negb (properties_signature_index i =? 0) || bool_decide (std_syntax (transform i) = mkcl_cat_constituent))) unichar_info = true.
Proof. vm_compute. reflexivity. Qed.

Lemma downcase_plain c : mkcl_upper_case_p c = true → std_syntax (mkcl_char_downcase c) = mkcl_cat_constituent.
Proof.
  unfold mkcl_upper_case_p, mkcl_char_downcase, has_signature.
  destruct (mkcl_unicode_character_information c) as [i|] eqn:Ei; [|done]. intros Hs. rewrite Hs.
  apply lookup_page in Ei as (k & page & _ & Hp & Hj). pose proof (proj1 (forallb_forall _ _) transforms_plain page) as Hall.
  specialize (Hall (proj1 (list_elem_of_In _ _) (list_elem_of_lookup_2 _ _ _ Hp))). rewrite forallb_forall in Hall.
  specialize (Hall i (proj1 (list_elem_of_In _ _) (list_elem_of_lookup_2 _ _ _ Hj))). rewrite Hs in Hall. simpl in Hall.
  by apply bool_decide_eq_true in Hall.
Qed.

Lemma started_std r : r = 1 ∨ r = 2 → std_table (table_of r).
Proof.
  intros Hr. constructor; [| | |by destruct Hr as [-> | ->]; vm_compute..|].
  - intros c. rewrite (syntax_std r c Hr). unfold std_syntax. destruct (Z.eqb_spec c 92); [done|]. by repeat case_match.
  - intros c. rewrite (syntax_std r c Hr). unfold std_syntax. destruct (Z.eqb_spec c 124) as [->|]; [done|]. by repeat case_match.
  - intros c Hc. rewrite (syntax_std r c Hr).
    assert (c ∈ seqZ 45 14) as Hin by (apply elem_of_seqZ; lia).
    assert (forallb (λ c, bool_decide (std_syntax c = mkcl_cat_constituent)) (seqZ 45 14) = true) as Hall by done.
    rewrite forallb_forall in Hall. eapply bool_decide_eq_true_1, (Hall c). by apply list_elem_of_In.
  - intros c _ Hu _. rewrite (syntax_std r _ Hr). by apply downcase_plain.
Qed.

Lemma started_ready : ready 2 2 (table_of 2) (table_of 1) (sharps_of 2) reader_packages started.
Proof. constructor; vm_compute; reflexivity. Qed.

Lemma sharp_entry : entry_of (table_of 2) 35 = Entry mkcl_cat_non_terminating (MTable 2).
Proof. by vm_compute. Qed.
Lemma sharp_functions : sharps_of 2 !! 39 = Some F_sharp_single_quote ∧ sharps_of 2 !! 42 = Some F_sharp_asterisk ∧
  sharps_of 2 !! 92 = Some F_sharp_backslash.
Proof. by vm_compute. Qed.

Lemma ascii_name_chars n : forallb (λ c, (0 <=? c) && (c <? 128)) n = true → Forall name_char n.
Proof.
  assert (forallb (λ c, negb (bool_decide (unclassed c))) (seqZ 0 128) = true) as Hall by (by vm_compute).
  rewrite forallb_forall in Hall. rewrite forallb_forall. intros Hn. apply Forall_forall. intros c Hc.
  specialize (Hn c (proj1 (list_elem_of_In _ _) Hc)). apply andb_true_iff in Hn as [H0%Z.leb_le H1%Z.ltb_lt].
  split; [split|left; lia]; [unfold is_char, MKCL_CHAR_CODE_LIMIT; lia|].
  eapply bool_decide_eq_false_1, negb_true_iff, (Hall c), list_elem_of_In, elem_of_seqZ. lia.
Qed.

Lemma printable_at x n hp pk pn f :
  st_symbols reader_packages !! x = Some (plain_symbol n hp) → st_packages reader_packages !! hp = Some pk → pack_name pk = Some pn →
  forallb (λ c, (0 <=? c) && (c <? 128)) (n ++ pn) = true → bool_decide (n ∈ misread_tokens) = false → pn ≠ [] →
  mkcl_find_symbol_nolock n hp reader_packages = PDone (x, f) reader_packages → f = SYMBOL_IS_EXTERNAL ∨ f = SYMBOL_IS_INTERNAL →
  find_in_list pn (st_list reader_packages) reader_packages = PDone (Some hp) reader_packages →
  (x = sym_nil → mkcl_find_symbol_nolock n 3 reader_packages = PDone (sym_nil, SYMBOL_IS_INHERITED) reader_packages) →
  printable reader_packages x n hp.
Proof.
  intros Hx Hpk Hpn Hc Hm Hne Hf Hflag Hfind Hnil. rewrite forallb_app in Hc. apply andb_true_iff in Hc as [Hc1 Hc2]. constructor.
  - by eexists.
  - by apply ascii_name_chars.
  - by eapply bool_decide_eq_false_1.
  - by exists f.
  - exists pk, pn. split_and!; [done|done|by apply ascii_name_chars|done|done].
  - intros cur s f' Ex [= <-] E. rewrite (Hnil Ex) in E. by injection E.
Qed.

(** A dotted list of symbols, a quoted symbol, a string with a quote and a backslash, a
    character, bits and two numbers. *)
Definition example_tree : datum :=
  TCons (TSym 72) (TCons (TSym 70) (TCons (TSym 73) (TCons (TCons (TSym 50) (TCons (TSym 71) (TSym 1)))
    (TCons (TText [115; 34; 104; 92]) (TCons (TChar 97) (TCons (TBits [false; true; true])
      (TCons (TNum (frac 12 5)) (TNum (Qc_of_Z (-7)))))))))).

Lemma example_shown : shows reader_heap example_tree (OCons 82).
Proof.
  unfold example_tree. cbn [shows].
  repeat match goal with
  | |- ∃ p v w, OCons ?q = OCons p ∧ _ => exists q; do 2 eexists; split; [done|]; split; [vm_compute; reflexivity|]; split
  | |- _ = symbol_obj _ => done
  | |- _ = OChar _ => done
  end.
  - exists 80. split; [by left|]. by vm_compute.
  - exists 81, 0%nat, 3%nat, [false; true; true]. split_and!; [done|by vm_compute|done].
  - exists 12, 5. split_and!; done.
  - by exists (-7).
Qed.

Lemma example_shown_started : shows (rs_heap started) example_tree (OCons 82).
Proof. rewrite (proj1 (proj2 (proj2 started_eq))). exact example_shown. Qed.

Lemma small_in_range y z : is_int y z → is_fixnum z → in_range 10 y.
Proof. intros Hy Hz a w ->. destruct Hy as [[= <-] Hw]. by destruct Hw. Qed.

Lemma small_integer y z : is_fixnum z → is_rat y (Qc_of_Z z) → parts_in_range 10 y.
Proof.
  intros Hz Hy%is_rat_int_inv. pose proof (small_in_range y z Hy Hz) as Hr. by destruct y; try (by destruct Hy).
Qed.

Lemma small_ratio y n d : 1 < d → Z.gcd n d = 1 → is_fixnum n → is_fixnum d → is_rat y (frac n d) → parts_in_range 10 y.
Proof.
  intros Hd Hg Hn Hf Hy. destruct (is_rat_cases _ _ Hy) as [(z & Hz & E)|(a & num & den & n' & d' & -> & Hn' & Hd' & Hd1 & Hg' & E)].
  - exfalso. assert (is_rat (ORatio 0 (OFix n) (OFix d)) (Qc_of_Z z)) as Hr.
    { exists n, d. split_and!; [by apply is_int_fix|by apply is_int_fix|done|done|done]. }
    by apply is_rat_int_inv in Hr as [? _].
  - apply frac_parts in E as [-> ->]; [|done..]. split; by eapply small_in_range.
Qed.

Ltac show_printable n hp f := eapply (printable_at _ n hp _ _ f); try (vm_compute; reflexivity); try done; try (by left); try (by right).

Lemma example_readable : readable reader_packages example_tree.
Proof.
  unfold example_tree. cbn [readable]. split_and!; try exact I.
  all: try match goal with |- _ ∉ reserved => apply (bool_decide_eq_false_1 (_ ∈ reserved)); by vm_compute end.
  - exists (str_chars "b c"), 3. show_printable (str_chars "b c") 3 SYMBOL_IS_INTERNAL.
  - exists (str_chars "K"), 2. show_printable (str_chars "K") 2 SYMBOL_IS_EXTERNAL.
  - exists (str_chars "X1"), 4. show_printable (str_chars "X1") 4 SYMBOL_IS_INTERNAL.
  - exists (str_chars "QUOTE"), 1. show_printable (str_chars "QUOTE") 1 SYMBOL_IS_EXTERNAL.
  - exists (str_chars "A"), 3. show_printable (str_chars "A") 3 SYMBOL_IS_INTERNAL.
  - exists (str_chars "NIL"), 1. eapply (printable_at _ _ 1 _ _ SYMBOL_IS_EXTERNAL); try (vm_compute; reflexivity); try done; try (by left).
  - repeat constructor; unfold is_char, MKCL_CHAR_CODE_LIMIT; lia.
  - done.
  - lia.
  - lia.
  - intros y. by apply small_ratio.
  - intros y. by apply small_integer.
Qed.

Lemma started_case r : r = 1 ∨ r = 2 → readtable_read_case (table_of r) ≠ mkcl_case_invert.
Proof. intros [-> | ->]; by vm_compute. Qed.

Lemma example_level : level_above (tree_size example_tree) ONil.
Proof. exists MKCL_MOST_POSITIVE_FIXNUM. split; [by left|]. simpl. unfold MKCL_MOST_POSITIVE_FIXNUM. lia. Qed.

Lemma example_size : (tree_size example_tree < 40)%nat.
Proof. simpl. lia. Qed.

(** It is printed, and an EQUAL object is read before the right parenthesis that follows. *)
Lemma printed_read_back_witness :
  ∃ out s1 z s3, mk_si_write_object 5 40 ONil (OCons 82) started = RDone out s1 ∧
    read_object 5 ONil 40 (set_in (out ++ [41]) s1) = RDone (Some z) s3 ∧ rs_in s3 = [41] ∧ rs_packs s3 = reader_packages ∧
    mkcl_equal 40 (OCons 82) z (rs_heap s3) = Done true (rs_heap s3).
Proof.
  destruct (printed_read_back 5 ltac:(lia) ONil 2 2 (table_of 2) (table_of 1) (sharps_of 2)
    (started_std 2 (or_intror eq_refl)) (started_std 1 (or_introl eq_refl))
    (started_case 2 (or_intror eq_refl)) (started_case 1 (or_introl eq_refl))
    sharp_entry sharp_functions eq_refl eq_refl ltac:(done) eq_refl eq_refl eq_refl eq_refl eq_refl KEY_downcase eq_refl
    eq_refl eq_refl reader_packages 3 reader_packages_pinv eq_refl ltac:(by eexists) example_tree (OCons 82) started 40 ONil
    started_ready example_readable example_shown_started example_size example_level) as (out & s1 & E & Hg & Hread).
  assert (ready 2 2 (table_of 2) (table_of 1) (sharps_of 2) reader_packages (set_in (out ++ [41]) s1)) as Hr.
  { apply ready_in. eapply ready_grows; [exact started_ready|exact Hg]. }
  destruct Hg as (h1 & Es1 & Hs1). assert (rs_heap started ⊆ rs_heap (set_in (out ++ [41]) s1)) as Hs by (rewrite Es1; exact Hs1).
  destruct (Hread (set_in (out ++ [41]) s1) [41] 40%nat 40%nat Hr Hs eq_refl
    (ends_right _ _ (started_std 2 (or_intror eq_refl)) (started_std 1 (or_introl eq_refl)) []) example_size example_size)
    as (z & s3 & E3 & (h3 & Es3 & _) & _ & Heq).
  exists out, s1, z, s3. split; [exact E|]. split; [exact E3|]. split; [rewrite Es3; reflexivity|]. split; [|exact Heq].
  assert (rs_packs s3 = rs_packs (set_in (out ++ [41]) s1)) as -> by (rewrite Es3; reflexivity).
  exact (rd_packs _ _ _ _ _ _ _ Hr).
Defined.

(** What the errors say. *)
Lemma reader_errors_witness :
  fails (read_object 5 ONil 9) (FEreader_error "Too many objects after a list dot" [])
    (set_in (str_chars "(#\a . #\b #\c)") started) ∧
  fails (read_object 5 ONil 9) FEend_of_file (set_in (str_chars "(#\a") started).
Proof.
  assert (∀ c, 32 < c < 127 → reads 5 ONil 2 2 (table_of 2) (table_of 1) (sharps_of 2) reader_packages (TChar c) [35; 92; c]) as Hc.
  { intros c Hr. exact (reads_char 5 ltac:(lia) ONil 2 2 (table_of 2) (table_of 1) (sharps_of 2) (started_std 2 (or_intror eq_refl))
      (started_case 1 (or_introl eq_refl)) sharp_entry sharp_functions eq_refl reader_packages c Hr). }
  destruct (reader_errors 5 ltac:(lia) ONil 2 2 (table_of 2) (table_of 1) (sharps_of 2) (started_std 2 (or_intror eq_refl))
    (started_std 1 (or_introl eq_refl)) (started_case 2 (or_intror eq_refl)) eq_refl ltac:(done) reader_packages started 8
    (TChar 97) (TChar 98) (TChar 99) [35; 92; 97] [35; 92; 98] [35; 92; 99]) as (_ & _ & _ & Hend & _ & _ & Hmany);
    [exact started_ready|lia|simpl; lia|simpl; lia|simpl; lia|by apply Hc|by apply Hc|by apply Hc|done|done|done|].
  split; [|exact Hend].
  exact (Hmany [41] (ends_right _ _ (started_std 2 (or_intror eq_refl)) (started_std 1 (or_introl eq_refl)) [])).
Defined.

(** A symbol [+.] of the current package is written as [+.], which is read as zero. *)
Definition signed_packages : pstate := PState
  (<[3 := Package (Some (str_chars "USER")) [] [] [1] [] (list_to_map [(str_chars "+.", 74)]) ∅ false]> (st_packages reader_packages))
  (<[74 := plain_symbol (str_chars "+.") 3]> (st_symbols reader_packages)) [3; 1; 2; 4] [] (Some 3).

Lemma signed_ready : ready 2 2 (table_of 2) (table_of 1) (sharps_of 2) signed_packages (set_packs signed_packages started).
Proof. exact (ready_packs _ _ _ _ _ _ _ _ started_ready). Qed.

Lemma symbols_misread_witness :
  ∃ s1 s3, mk_si_write_object 5 1 ONil (OSym 74) (set_packs signed_packages started) = RDone (str_chars "+.") s1 ∧
    read_object 5 ONil 3 (set_in (str_chars "+. A") s1) = RDone (Some (OFix 0)) s3 ∧ rs_in s3 = str_chars " A".
Proof.
  destruct (symbols_misread 5 ltac:(lia) ONil 2 2 (table_of 2) (table_of 1) (sharps_of 2) (started_std 2 (or_intror eq_refl))
    (started_case 2 (or_intror eq_refl)) eq_refl eq_refl eq_refl eq_refl eq_refl KEY_downcase eq_refl eq_refl
    signed_packages 3 eq_refl 74 (plain_symbol (str_chars "+.") 3) 3 SYMBOL_IS_INTERNAL 43 (set_packs signed_packages started) 0 ONil)
    as (s1 & E & Hg & Hread); [done|by vm_compute|exact signed_ready|by vm_compute|done|done|done|by left|by vm_compute|done|].
  assert (ready 2 2 (table_of 2) (table_of 1) (sharps_of 2) signed_packages (set_in (str_chars "+. A") s1)) as Hr.
  { apply ready_in. eapply ready_grows; [exact signed_ready|exact Hg]. }
  destruct (Hread _ (str_chars " A") 3%nat Hr eq_refl
    (ends_blank _ _ (started_std 2 (or_intror eq_refl)) (started_std 1 (or_introl eq_refl)) [65]) ltac:(lia)) as (s3 & E3 & (h3 & Es3 & _)).
  exists s1, s3. split; [exact E|]. split; [exact E3|]. rewrite Es3. reflexivity.
Defined.
